(* ===== verification/_CoqProject ===== *)
-Q . S2P
Prelude.v
Float64.v
DateTime.v
DateCache.v
DateText.v
DateFormat.v
UnicodeTables.v
LexChars.v
LexState.v
LexNumber.v
LexPunct.v
LexString.v
Lexer.v
LexTotal.v
PunctSpec.v
NumberSpec.v
StringSpec.v
IdentSpec.v
TemplateSpec.v
Ieee754.v
Value.v
EncodedValue.v
MapObject.v
SetObject.v
AtomicString.v
PropertyName.v
PropertyDescriptor.v
ObjectStructure.v
StructureSpec.v
StructureHistory.v
Object.v
ObjectSpec.v
ObjectDefine.v
ObjectMethods.v
ObjectPrototype.v
ObjectHistory.v
ObjectSet.v
ObjectKeys.v
ObjectProperties.v
Proxy.v
ProxySpec.v
ProxyLaws.v
ProxyMethods.v
ProxyHistory.v
ProxyProperties.v
Uri.v
UriSpec.v
Utf8.v
Rope.v
RopeSpec.v
ParseInt.v
Sort.v
ArrayStorage.v
ArrayObject.v
ArraySpec.v
ArrayConvert.v
ArrayDefine.v
ArrayLength.v
ArrayProperties.v
Promise.v
PromiseSpec.v
PromiseSafety.v
PromiseHistory.v
Sha1.v
Sha1Spec.v
DebuggerTcp.v
DebuggerTcpSpec.v
DebuggerHandshake.v
ArrayBuffer.v
ArrayBufferSpec.v
ArrayBufferOps.v
ArrayElement.v
TypedArray.v
TypedArrayBuiltins.v
TypedArraySpec.v
TypedArraySafe.v
TypedArrayMethods.v
TypedArrayMove.v
TypedArrayHistory.v
TypedArrayProperties.v
