(* ===== verification/Prelude.v ===== *)
(** * A verification library for the Escargot JavaScript engine

    Escargot ([src/src]) is a JavaScript engine in C++.  This library translates
    parts of it that carry its own logic into executable definitions and proves
    what makes them correct.  Definitions keep the names of the source.

    ** Conventions

    - An integer of the machine is a [Z] with its wrap-around written out
      ([to_signed], [to_unsigned] below); a C++ [double] is a bit pattern
      ([Ieee754]), or an exact dyadic number where one operation is rounded
      ([Float64]).
    - A text is the list of its UTF-16 units, a C string the list of its bytes.
    - What the code keeps behind pointers is a store: a finite map from
      addresses, passed through the operations.  Sharing is sharing of addresses.
    - Code that throws answers a sum or an [outcome]; each component has a small
      state monad, built from the notations [let!] and [do!] of its file.  An
      assertion that fails, a bad cast or a read out of bounds is an outcome of
      its own ([Crash] and the like), and the theorems show it does not occur.
    - Loops that are not structural recurse on fuel, and a theorem says that the
      fuel given is enough (see Fuel below).

    ** Parts and files

    Dates ([runtime/DateObject.h], [.cpp]): a time value and the calendar.
    - [Float64]: one correctly rounded division, used by the calendar.
    - [DateTime]: [daysFromYear], [yearFromTime], [getYMDFromTime], and the rest of
      the calendar arithmetic on [int] and [int64_t].
    - [DateCache]: the [DateObject] with its cached local fields and dirty flag,
      the getters, the setters, and the shared object of the UTC getters.
    - [DateText], [DateFormat]: the two parsers, the formatters, and the round trip
      of the ISO form.

    The lexer ([parser/Lexer.h], [Lexer.cpp]): [Scanner::lex] and what it calls.
    - [UnicodeTables], [LexChars]: tables, searches, keywords, tables of identifiers.
    - [LexState]: index, line and errors; tokens and comments.
    - [LexNumber], [LexPunct], [LexString], [Lexer]: a file per kind of token,
      and [lex].  A scanner is built on a [Source] (a class): units, and what
      memory holds after them, which the scanner reads at a few places.
    - [LexTotal]: [lex] ends and moves forward.  [PunctSpec], [NumberSpec],
      [StringSpec], [IdentSpec], [TemplateSpec]: what the tokens mean.

    Values ([runtime/Value.h], [ValueInlines.h], [Value.cpp], [EncodedValue.h]):
    - [Ieee754], [Value]: the 64-bit words, the three equalities, [toInt32].
    - [EncodedValue]: words in the slots of objects, with their number cells.

    Names and property descriptors:
    - [AtomicString]: strings behind pointers and the table of atomic strings.
    - [PropertyName]: [ObjectStructurePropertyName] and [ObjectPropertyName].
    - [PropertyDescriptor]: the stored descriptor and the partial one.

    Objects ([runtime/ObjectStructure.*], [Object.h], [Object.cpp]):
    - [ObjectStructure]: hidden classes of three kinds in a shared store, with
      their transitions; [StructureSpec] refines them to ordered lists of
      properties; [StructureHistory] says what stays true of shared ones.
    - [Object]: the state of an object and the internal methods; [ObjectSpec]
      states the operations of the language on lists of properties and the class
      [ObjectNames], what objects ask of names; [PropertyName] discharges it in
      [ObjectMethods].
    - [ObjectDefine], [ObjectMethods], [ObjectSet], [ObjectPrototype] (chains, and
      [setPrototype]), [ObjectKeys] (own keys, integrity levels).
    - [ObjectHistory]: steps of all methods on a world of objects, and what no
      sequence of steps changes.  [ObjectProperties]: the theorems of the group and their examples.

    Proxies ([runtime/ProxyObject.*], [builtins/BuiltinProxy.cpp]):
    - [Proxy]: the internal methods of proxies over an engine (the record [Runtime],
      which has the [Outside] of objects); [proxyRuntime] is the level of the stack
      above, whose [Outside] they are.
    - [ProxySpec]: how worlds evolve while scripts run, the facts about an object that
      last, and what the answer of each method owes them.  [ProxyLaws]: the class
      [RuntimeLaws], and from it the virtual methods of any object; [ProxyMethods]:
      the methods of proxies, so that [proxyRuntime] discharges the class again.
    - [ProxyHistory]: operations as data, scripts that perform them as traps, getters
      and functions, and the engine of any depth.  [ProxyProperties]: the theorems.

    Arrays ([runtime/ArrayObject.*], [util/Vector.h], [util/TightVector.h]):
    - [ArrayStorage]: the buffer of an array in fast mode and how it grows.
    - [ArrayObject]: an [ArrayWorld] is a world of objects with the arrays among
      them; the methods of arrays, and those of [Object] whose virtual calls lead to
      arrays; [somePrototypeObjectDefineIndexedProperty] and what it converts.
    - [ArraySpec]: one object of a world changes; the view of an array (a map from keys to properties, the length included), its invariant, and the
      class [ArrayNames], what arrays ask of names.  [ArrayConvert]: fast mode is
      not seen.  [ArrayDefine], [ArrayLength]: definition, deletion, the
      length.  [ArrayProperties] discharges [ArrayNames] and has the theorems.

    Sorting ([util/Util.h], [builtins/BuiltinArray.cpp]): [Sort].

    Collections ([runtime/MapObject.*], [SetObject.*], [builtins/BuiltinMap.cpp],
    [BuiltinSet.cpp]): [MapObject], [SetObject], with their iterators.

    Strings ([runtime/String.*], [RopeString.*], [StringView.h],
    [StringBuilder.*]): [Utf8] for the conversions; [Rope] for the cells that
    ropes and views share, [RopeSpec] for what the texts are after any sequence of
    operations.

    Global functions ([runtime/GlobalObject.cpp]): [Uri] with [UriSpec];
    [ParseInt].

    Promises ([runtime/PromiseObject.*], [Job.*], [JobQueue.*],
    [IteratorObject.cpp], [builtins/BuiltinPromise.cpp]):
    - [Promise]: promises, their functions, reactions, jobs and combinators.  A
      program (class [Program]) is what scripts do: transition systems that make
      requests; natives and scripts call each other through [interpret].
    - [PromiseSpec], [PromiseSafety]: well-formed worlds, and that each native
      keeps them.  [PromiseHistory]: histories of requests and jobs, and the
      answer of [then].

    Array buffers and typed arrays ([runtime/BackingStore.*], [ArrayBuffer.h],
    [ArrayBufferObject.*], [TypedArrayObject.*], [TypedArrayInlines.h],
    [DataViewObject.h], their files in [builtins]):
    - [ArrayBuffer]: blocks of memory, backing stores, buffers, views, and the
      observers through which a change of a store reaches the cached pointers of
      views.  [ArrayBufferSpec], [ArrayBufferOps]: the invariant of a world, and
      what no operation undoes ([descends]).
    - [ArrayElement]: the conversion of values to elements and their bytes, and
      what it means (rounding to a float among it).  [TypedArray],
      [TypedArrayBuiltins]: access to elements, data views, constructors, methods.
    - [TypedArraySpec] to [TypedArrayMove]: every operation is safe, for scripts that
      satisfy the class [ScriptLaws].  [TypedArrayHistory]: operations as data, and
      the engine whose conversions run programs of operations, which discharges the
      class at any depth.  [TypedArrayProperties]: the theorems.

    The debugger's connection ([debugger/DebuggerSha1.cpp], [DebuggerTcp.cpp]):
    - [Sha1] with [Sha1Spec]: the digest, against FIPS 180-4.  [DebuggerTcp]: frames
      and handshake over a socket (a class), [DebuggerTcpSpec], [DebuggerHandshake].

    ** How the parts meet

    The lexer gives texts to atomic strings; names are atomic strings or symbols;
    structures map names to slots, slots hold encoded values, and objects are both.
    [ObjectMethods] composes names, structures, descriptors and slots.  Arrays
    run on a world of objects ([lift]), proxies are objects of that world whose
    methods call scripts, and definitions of objects reach the arrays
    through the flag of indexed prototypes.  The collections use the equalities of [Value].  Promises use values of their own
    ([Promise.Value]: immediates, and addresses of cells) and leave property reads
    to the program, since a read can run a getter.

    ** What the theorems show

    - Termination and safety: [lex] ends on every source that is followed by NULs and stays inside it; no
      native of the promises crashes or fails an assertion; the transition buffer stays in its bounds;
      what the UTF-8 reader reads past its buffer is bounded; the buffer of an array
      covers it, and a sort stays inside of its two buffers whatever the comparator
      does.
    - Views stay in the memory of their buffers whatever programs do, and no
      operation on elements reads or writes outside of a block in use, unless a script
      that it called took the memory of a buffer away: then it can use a pointer that
      is null, an offset from null or stale, which lemmas show.
    - A proxy cannot deny a property that is not configurable, forge a frozen value or
      open an object that is not extensible, whatever traps and scripts do (properties
      that can read as undefined are an exception, as the code tests the value); one without
      traps is its target, and one that was revoked throws.
    - Refinement: structures are lists of properties; [defineOwnProperty] and [set]
      are ValidateAndApplyPropertyDescriptor and OrdinarySet; those of arrays are the
      definition and ArraySetLength of the language, in fast mode and out of it; the
      merge sort is the stable sort; maps are association
      lists in insertion order; [encode] and [decode] are the operations of the
      language, [parseInt] gives the number its digits denote; the access of the
      interpreter to elements is the internal method, for values without scripts; [copyWithin] is a move through
      a copy; [computeSha1] is SHA-1; the messages of the debugger are the payloads
      of the frames that were sent.
    - Invariants over histories: worlds of objects stay well-formed, frozen
      properties stay, prototypes have no cycles, shared structures never change,
      atomic strings stay canonical, strings keep their texts while ropes are
      written out, promises settle once, jobs run in order.
    - Round trips: dates and their ISO form, quoted strings and the lexer, URI
      coding, [escape], UTF-8, what data views store.
    - Where the code does something else than it means to, a lemma shows it on
      the input concerned (the month of February 1, [\u{1F600}] in templates,
      [unescape] of [%80], an array whose length is read-only, a proxy that reports a
      fixed property as deleted, and others).

    ** Fuel

    - Scanner loops get one more turn than the source has units ([LexState.fuel]):
      each turn moves the index forward ([LexTotal]).
    - Chains of prototypes get the number of objects plus one ([chainFuel]); a chain
      without cycles is shorter ([ObjectPrototype]), and histories keep it so.
    - URI loops and UTF-8 reading get the length of their input; the flattening of
      ropes gets twice the length of the rope, and reading an address [a] the fuel
      [S a], as a rope refers to older cells only ([RopeSpec]).
    - The passes of the merge sort get the number of elements (the width doubles), and
      so does a pass ([Sort]).  The deletion of elements gets the length of the
      array, of which every turn takes one or more ([ArrayLength]); the search for
      the next index gets the number of objects plus two.
    - [digits] gets twenty turns for numbers below 2^64.
    - Loops over elements get the number of elements or bytes that the source
      computes.  Programs of [TypedArrayHistory] have a bound on their operations and
      on the depth of their calls; past them they throw, and theorems hold for all.
      So have the scripts of [ProxyHistory]; chains with proxies on them may end by
      running out of fuel, which is an outcome the theorems allow.
    - Loops of the debugger's connection run on the fuel of its socket, which counts
      what the socket still does ([SocketLaws]).
    - [interpret] of promises takes any fuel, as scripts need not end; its answer is
      the same with all fuel that gives one ([PromiseHistory.fuel_does_not_matter]),
      and running out of fuel is an outcome different from every other.

    ** Parameters

    What the repository does not hold is an argument: the calendar of ICU (with
    bounds on its offsets), the arithmetic of BigInt and of double-conversion for
    the values of literals, the allocator (fresh addresses, aligned), the hash
    table (that it is a set), calls of functions and native accessors (the records
    [Outside] and [Runtime]), ToNumber of strings and objects and the texts of large indices
    (in arrays), the scripts of a [Program], the socket, and the cast of a double out
    of the range of an element type.  The platform's allocation of array buffers is
    taken to succeed and to give zeroed memory.

    ** Not modelled

    - The parser and its tree, byte code and its interpreter, generators and async
      functions: they come after the object model and need one another.
    - The realm of a proxy and its enumeration, modules, Temporal, JSON, the remaining builtins; of typed arrays the
      methods that call a function for each element, slice, subarray and sort, shared
      buffers, and the time at which the collector runs: an access through an address
      that was taken before its store lost its last buffer is an access to a block that
      may be freed ([UseAfterFree]), whenever the finalizer runs.
    - The commands of the debugger, which read byte code and environments.
    - Private members, finalizers and the enumeration of objects; the sort of arrays
      that are not in fast mode.
    - 32-bit layouts of values; strings stored compressed or outside of the heap.
    - Intl, the heap, WebAssembly, the public API, the shell: wrappers around
      libraries and input and output.

    ** Plan

    The records of environments; the vectors of
    [util]; the code cache. *)

From stdpp Require Export base list numbers option.
From Stdlib Require Export ZArith Lia.
From Stdlib Require Import String Ascii.

(** [lia] unfolds [/], [mod], [÷] and [rem] by their Euclidean equations. *)
Ltac Zify.zify_post_hook ::= Z.to_euclidean_division_equations.

Declare Scope esc_scope.
Delimit Scope esc_scope with esc.

(** ** Machine integers *)

Section MachineIntegers.
Local Open Scope Z_scope.

(** Two's complement narrowing to [w] bits, what a C++ conversion to a
    signed [w]-bit type does. *)
Definition to_signed (w z : Z) : Z := (z + 2 ^ (w - 1)) mod 2 ^ w - 2 ^ (w - 1).

Definition to_int32 (z : Z) : Z := to_signed 32 z.

(** Conversion to an unsigned [w]-bit type. *)
Definition to_unsigned (w z : Z) : Z := z mod 2 ^ w.

Definition in_int32 (z : Z) : Prop := - 2 ^ 31 <= z < 2 ^ 31.
Definition in_int64 (z : Z) : Prop := - 2 ^ 63 <= z < 2 ^ 63.

Lemma to_int32_range z : in_int32 (to_int32 z).
Proof. unfold in_int32, to_int32, to_signed. cbn. lia. Qed.

Lemma to_int32_id z : in_int32 z -> to_int32 z = z.
Proof. unfold in_int32, to_int32, to_signed. cbn. lia. Qed.

Lemma to_int32_congr z : exists k, to_int32 z = z + k * 2 ^ 32.
Proof.
  exists (- ((z + 2 ^ 31) / 2 ^ 32)). unfold to_int32, to_signed. cbn. lia.
Qed.
End MachineIntegers.

(** The characters of a C string literal. *)
Fixpoint bytes (s : string) : list Z :=
  match s with
  | EmptyString => []
  | String c s => Z.of_nat (nat_of_ascii c) :: bytes s
  end.

(** The decimal digits of a number below [10 ^ fuel], before [acc]. *)
Fixpoint digits (fuel : nat) (n : Z) (acc : list Z) : list Z :=
  match fuel with
  | O => acc
  | S fuel =>
    if (n <? 10)%Z then (48 + n)%Z :: acc
    else digits fuel (n / 10)%Z ((48 + n mod 10)%Z :: acc)
  end.

(** ** Results of code that can throw

    [outcome E A] is what running a C++ function gives: it returns, it throws,
    or (only in the model) the fuel of a loop ran out.  Every component that
    uses fuel proves that [Fuel] is never the answer. *)

Inductive outcome (E A : Type) : Type :=
| Ret (a : A)
| Throw (e : E)
| Fuel.
Arguments Ret {E A} a.
Arguments Throw {E A} e.
Arguments Fuel {E A}.

(** The state survives a [throw]: a handler sees the mutations made before. *)
Definition M (S E A : Type) : Type := S -> outcome E A * S.

Definition ret {S E A} (a : A) : M S E A := fun s => (Ret a, s).
Definition throw {S E A} (e : E) : M S E A := fun s => (Throw e, s).
Definition bind {S E A B} (m : M S E A) (k : A -> M S E B) : M S E B :=
  fun s => match m s with
           | (Ret a, s') => k a s'
           | (Throw e, s') => (Throw e, s')
           | (Fuel, s') => (Fuel, s')
           end.
Definition get {S E} : M S E S := fun s => (Ret s, s).
Definition gets {S E A} (f : S -> A) : M S E A := fun s => (Ret (f s), s).
Definition modify {S E} (f : S -> S) : M S E unit := fun s => (Ret tt, f s).
Definition out_of_fuel {S E A} : M S E A := fun s => (Fuel, s).

(** [try m catch h]: the C++ statement; the handler starts in the state the
    exception left. *)
Definition try_catch {S E A} (m : M S E A) (h : E -> M S E A) : M S E A :=
  fun s => match m s with
           | (Throw e, s') => h e s'
           | r => r
           end.

Notation "'let!' x := m 'in' k" := (bind m (fun x => k))
  (at level 10, x name, m at level 100, k at level 200) : esc_scope.
Notation "'let!' ' p := m 'in' k" := (bind m (fun x => match x with p => k end))
  (at level 10, p pattern, m at level 100, k at level 200) : esc_scope.
Notation "'do!' m 'in' k" := (bind m (fun _ => k))
  (at level 10, m at level 100, k at level 200) : esc_scope.
Notation "'when!' b 'then' m" := (if b then m else ret tt)
  (at level 60, b at level 100, m at level 60) : esc_scope.

(** ** Weakest preconditions for the state-and-exception monad

    [wp m s Q X]: run from [s], [m] does not run out of fuel; if it returns,
    [Q] holds of the value and the final state; if it throws, [X] holds of the
    exception and the state at the throw. *)

Definition wp {S E A} (m : M S E A) (s : S) (Q : A -> S -> Prop) (X : E -> S -> Prop) : Prop :=
  match m s with
  | (Ret a, s') => Q a s'
  | (Throw e, s') => X e s'
  | (Fuel, _) => False
  end.

(** [while] and [do … while] loops: the body answers [inl] to go on, [inr] to leave. *)
Fixpoint loop {S E A B} (fuel : nat) (body : A -> M S E (A + B)) (a : A) : M S E B :=
  match fuel with
  | O => out_of_fuel
  | Datatypes.S fuel =>
    bind (body a) (fun r => match r with inl a' => loop fuel body a' | inr b => ret b end)
  end.
Definition continue {S E A B} (a : A) : M S E (A + B) := ret (inl a).
Definition break {S E A B} (b : B) : M S E (A + B) := ret (inr b).

Section WeakestPreconditions.
Context {S E : Type}.

Lemma wp_ret {A} (a : A) (s : S) Q (X : E -> S -> Prop) : Q a s -> wp (ret a) s Q X.
Proof. exact id. Qed.

Lemma wp_throw {A} (e : E) (s : S) (Q : A -> S -> Prop) (X : E -> S -> Prop) :
  X e s -> wp (throw e) s Q X.
Proof. exact id. Qed.

Lemma wp_bind {A B} (m : M S E A) (k : A -> M S E B) s Q X :
  wp m s (fun a s' => wp (k a) s' Q X) X -> wp (bind m k) s Q X.
Proof. unfold wp, bind. destruct (m s) as [[a|e|] s']; exact id. Qed.

Lemma wp_mono {A} (m : M S E A) s (Q Q' : A -> S -> Prop) (X X' : E -> S -> Prop) :
  wp m s Q' X' -> (forall a s', Q' a s' -> Q a s') -> (forall e s', X' e s' -> X e s') ->
  wp m s Q X.
Proof. unfold wp. destruct (m s) as [[a|e|] s']; eauto. Qed.

Lemma wp_try_catch {A} (m : M S E A) (h : E -> M S E A) s Q X :
  wp m s Q (fun e s' => wp (h e) s' Q X) -> wp (try_catch m h) s Q X.
Proof. unfold wp, try_catch. destruct (m s) as [[a|e|] s']; exact id. Qed.

Lemma wp_run {A} (m : M S E A) s Q X :
  wp m s Q X ->
  (exists a s', m s = (Ret a, s') /\ Q a s') \/ (exists e s', m s = (Throw e, s') /\ X e s').
Proof. unfold wp. destruct (m s) as [[a|e|] s']; intros H; eauto 6. destruct H. Qed.

(** A loop whose measure goes down at every turn ends, and its invariant
    holds whenever the body starts. *)
Lemma wp_loop {A B} (I : A -> S -> Prop) (measure : A -> S -> nat)
    (body : A -> M S E (A + B)) (Q : B -> S -> Prop) (X : E -> S -> Prop) :
  (forall a s, I a s ->
     wp (body a) s
        (fun r s' => match r with
                     | inl a' => I a' s' /\ (measure a' s' < measure a s)%nat
                     | inr b => Q b s'
                     end) X) ->
  forall fuel a s, I a s -> (measure a s < fuel)%nat -> wp (loop fuel body a) s Q X.
Proof.
  intros Hbody fuel. induction fuel as [|fuel IH]; intros a s HI Hm; [lia|].
  cbn [loop]. apply wp_bind. eapply wp_mono; [exact (Hbody a s HI)| |auto].
  intros [a'|b] s'; [|exact id]. intros [HI' Hlt]. apply IH; [exact HI'|lia].
Qed.
End WeakestPreconditions.

(** ** Tactics of the development *)

(** Case analysis on the scrutinee of an [if] of the goal. *)
Ltac case_if :=
  match goal with
  | |- context [if ?b then _ else _] => destruct b eqn:?
  end.

(** Booleans of the model as the propositions they decide. *)
Ltac to_prop :=
  repeat match goal with
  | H : (_ && _)%bool = true |- _ => apply andb_prop in H as [? ?]
  | H : (_ || _)%bool = false |- _ => apply orb_false_elim in H as [? ?]
  | H : (_ =? _)%Z = true |- _ => apply Z.eqb_eq in H
  | H : (_ =? _)%Z = false |- _ => apply Z.eqb_neq in H
  | H : (_ <=? _)%Z = true |- _ => apply Z.leb_le in H
  | H : (_ <=? _)%Z = false |- _ => apply Z.leb_gt in H
  | H : (_ <? _)%Z = true |- _ => apply Z.ltb_lt in H
  | H : (_ <? _)%Z = false |- _ => apply Z.ltb_ge in H
  | H : (_ =? _)%nat = true |- _ => apply Nat.eqb_eq in H
  | H : (_ =? _)%nat = false |- _ => apply Nat.eqb_neq in H
  | H : (_ <=? _)%nat = true |- _ => apply Nat.leb_le in H
  | H : (_ <=? _)%nat = false |- _ => apply Nat.leb_gt in H
  | H : (_ <? _)%nat = true |- _ => apply Nat.ltb_lt in H
  | H : (_ <? _)%nat = false |- _ => apply Nat.ltb_ge in H
  | H : negb _ = true |- _ => apply negb_true_iff in H
  | H : negb _ = false |- _ => apply negb_false_iff in H
  end.

Create HintDb esc.
#[export] Hint Resolve to_int32_range : esc.
