(* ===== verification/Float64.v ===== *)
(** * Binary64 division, correctly rounded

    The engine divides 64-bit integers as [double]s in several places (the
    calendar code of [DateObject.cpp]).  This file models one IEEE-754 division
    of exactly represented operands, rounded to nearest, ties to even, for
    quotients in the normal range, as a dyadic number [mant * 2 ^ expo], and
    proves what the calendar needs: the floor or the truncation of the rounded
    quotient is the one of the exact quotient. *)

From S2P Require Import Prelude.
Local Open Scope Z_scope.

(** A double as [mant * 2 ^ expo]. *)
Record double := Double { mant : Z; expo : Z }.

(** Round-to-nearest-even of the fraction [n / d]. *)
Definition round_even (n d : Z) : Z :=
  let q := n / d in
  let r := n mod d in
  if 2 * r <? d then q
  else if d <? 2 * r then q + 1
  else if Z.even q then q else q + 1.

(** [n / d * 2 ^ -e] as a fraction of integers. *)
Definition scaled_num (n e : Z) : Z := n * 2 ^ Z.max 0 (- e).
Definition scaled_den (d e : Z) : Z := d * 2 ^ Z.max 0 e.

(** The exponent that gives the quotient a 53-bit significand. *)
Definition quotient_expo (n d : Z) : Z :=
  let e := Z.log2 n - Z.log2 d - 53 in
  if scaled_den d e * 2 ^ 53 <=? scaled_num n e then e + 1 else e.

(** [n / d] for positive operands. *)
Definition fdiv_pos (n d : Z) : double :=
  let e := quotient_expo n d in
  Double (round_even (scaled_num n e) (scaled_den d e)) e.

(** [(double) n / (double) d] with [d > 0]: rounding is symmetric. *)
Definition fdiv (n d : Z) : double :=
  if n =? 0 then Double 0 0
  else if 0 <? n then fdiv_pos n d
  else let q := fdiv_pos (- n) d in Double (- mant q) (expo q).

(** [floor] and conversion to an integer type (truncation). *)
Definition ffloor (x : double) : Z :=
  if 0 <=? expo x then mant x * 2 ^ expo x else mant x / 2 ^ (- expo x).
Definition ftrunc (x : double) : Z :=
  if 0 <=? expo x then mant x * 2 ^ expo x else mant x ÷ 2 ^ (- expo x).

(** ** Error bounds *)

Lemma round_even_near n d :
  0 < d -> Z.abs (2 * (round_even n d * d - n)) <= d.
Proof.
  intros Hd. unfold round_even.
  pose proof (Z.div_mod n d ltac:(lia)). pose proof (Z.mod_pos_bound n d Hd).
  repeat case_if; to_prop; nia.
Qed.

Lemma round_even_exact n d : 0 < d -> n mod d = 0 -> round_even n d = n / d.
Proof. intros Hd Hr. unfold round_even. rewrite Hr. case_if; to_prop; lia. Qed.

Lemma pow2_pos e : 0 < 2 ^ Z.max 0 e.
Proof. apply Z.pow_pos_nonneg; lia. Qed.

Lemma scaled_den_pos d e : 0 < d -> 0 < scaled_den d e.
Proof. intros. unfold scaled_den. pose proof (pow2_pos e). nia. Qed.

(** The chosen exponent leaves at least 53 significant bits:
    [2 ^ 52 * scaled_den <= scaled_num]. *)
Lemma quotient_expo_low n d :
  0 < n -> 0 < d ->
  scaled_den d (quotient_expo n d) * 2 ^ 52 <= scaled_num n (quotient_expo n d).
Proof.
  intros Hn Hd. unfold quotient_expo.
  set (e := Z.log2 n - Z.log2 d - 53).
  assert (Hlow : scaled_den d e * 2 ^ 52 <= scaled_num n e).
  { unfold scaled_den, scaled_num.
    pose proof (Z.log2_spec n Hn) as [Hn1 Hn2].
    pose proof (Z.log2_spec d Hd) as [Hd1 Hd2].
    pose proof (Z.log2_nonneg n). pose proof (Z.log2_nonneg d).
    assert (Hp : 2 ^ Z.succ (Z.log2 d) * 2 ^ Z.max 0 e * 2 ^ 52
                 = 2 ^ Z.log2 n * 2 ^ Z.max 0 (- e)).
    { rewrite <- !Z.pow_add_r by lia. f_equal. lia. }
    pose proof (pow2_pos e). pose proof (pow2_pos (- e)).
    nia. }
  case_if; [|exact Hlow].
  to_prop. unfold scaled_den, scaled_num in *.
  destruct (Z.leb_spec 0 e).
  - replace (Z.max 0 (e + 1)) with (Z.succ (Z.max 0 e)) by lia.
    replace (Z.max 0 (- (e + 1))) with 0 by lia.
    replace (Z.max 0 (- e)) with 0 in * by lia.
    rewrite Z.pow_succ_r by lia. nia.
  - replace (Z.max 0 (- e)) with (Z.succ (Z.max 0 (- (e + 1)))) in * by lia.
    replace (Z.max 0 (e + 1)) with 0 by lia.
    replace (Z.max 0 e) with 0 in * by lia.
    rewrite Z.pow_succ_r in * by lia. nia.
Qed.

(** The significand of a positive quotient, as an integer inequality. *)
Lemma fdiv_pos_near n d :
  0 < n -> 0 < d ->
  let e := quotient_expo n d in
  Z.abs (2 * (mant (fdiv_pos n d) * scaled_den d e - scaled_num n e))
  <= scaled_den d e.
Proof. intros Hn Hd e. apply round_even_near, scaled_den_pos, Hd. Qed.

Lemma fdiv_pos_mant_nonneg n d : 0 < n -> 0 < d -> 0 <= mant (fdiv_pos n d).
Proof.
  intros Hn Hd. pose proof (fdiv_pos_near n d Hn Hd) as H. cbv zeta in H.
  pose proof (quotient_expo_low n d Hn Hd).
  pose proof (scaled_den_pos d (quotient_expo n d) Hd). nia.
Qed.

(** For an integer dividend below [2 ^ 53] no rounding crosses an integer. *)
Lemma fdiv_pos_bracket n d :
  0 < n < 2 ^ 53 -> 0 < d ->
  exists k, 0 <= k /\ expo (fdiv_pos n d) = - k /\
    n / d * 2 ^ k <= mant (fdiv_pos n d) < (n / d + 1) * 2 ^ k /\
    (0 < n mod d -> n / d * 2 ^ k < mant (fdiv_pos n d)) /\
    (n mod d = 0 -> mant (fdiv_pos n d) = n / d * 2 ^ k).
Proof.
  intros [Hn Hn53] Hd.
  pose proof (quotient_expo_low n d Hn Hd) as Hlow.
  pose proof (fdiv_pos_near n d Hn Hd) as Hnear. cbv zeta in Hnear.
  assert (He : quotient_expo n d <= 0).
  { destruct (Z.leb_spec (quotient_expo n d) 0); [assumption|exfalso].
    unfold scaled_den, scaled_num in Hlow.
    replace (Z.max 0 (- quotient_expo n d)) with 0 in Hlow by lia.
    replace (Z.max 0 (quotient_expo n d))
      with (Z.succ (quotient_expo n d - 1)) in Hlow by lia.
    rewrite Z.pow_succ_r in Hlow by lia.
    pose proof (Z.pow_pos_nonneg 2 (quotient_expo n d - 1)). nia. }
  exists (- quotient_expo n d). split; [lia|]. split; [cbn; lia|].
  unfold scaled_den, scaled_num in *.
  replace (Z.max 0 (- quotient_expo n d)) with (- quotient_expo n d) in * by lia.
  replace (Z.max 0 (quotient_expo n d)) with 0 in * by lia.
  rewrite Z.pow_0_r, Z.mul_1_r in *.
  set (P := 2 ^ (- quotient_expo n d)) in *.
  assert (HP : 0 < P) by (apply Z.pow_pos_nonneg; lia).
  pose proof (Z.div_mod n d ltac:(lia)) as Hdm.
  pose proof (Z.mod_pos_bound n d Hd) as Hmb.
  assert (HdP : d < 2 * P) by nia.
  set (q := n / d) in *. set (r := n mod d) in *.
  destruct (Z.eq_dec r 0) as [Hr|Hr].
  - assert (Hm : mant (fdiv_pos n d) = q * P).
    { unfold fdiv_pos; cbn [mant]. unfold scaled_den, scaled_num.
      replace (Z.max 0 (- quotient_expo n d)) with (- quotient_expo n d) by lia.
      replace (Z.max 0 (quotient_expo n d)) with 0 by lia.
      fold P. rewrite Z.pow_0_r, Z.mul_1_r.
      replace (n * P) with (q * P * d) by nia.
      rewrite round_even_exact; [apply Z.div_mul; lia|lia|apply Z.mod_mul; lia]. }
    rewrite Hm. nia.
  - repeat split; try nia; lia.
Qed.

Lemma div_bracket m p q : q * p <= m < (q + 1) * p -> m / p = q.
Proof. intros. symmetry. apply Z.div_unique_pos with (m - q * p); nia. Qed.

Lemma quot_bracket m p q : 0 < p -> 0 <= q -> q * p <= m < (q + 1) * p -> m ÷ p = q.
Proof. intros. rewrite Z.quot_div_nonneg by nia. apply div_bracket; lia. Qed.

Lemma ffloor_neg_expo m k : 0 <= k -> ffloor (Double m (- k)) = m / 2 ^ k.
Proof.
  intros. unfold ffloor; cbn [mant expo]. case_if; to_prop.
  - replace k with 0 by lia. cbn. lia.
  - rewrite Z.opp_involutive. reflexivity.
Qed.

Lemma ftrunc_neg_expo m k : 0 <= k -> ftrunc (Double m (- k)) = m ÷ 2 ^ k.
Proof.
  intros. unfold ftrunc; cbn [mant expo]. case_if; to_prop.
  - replace k with 0 by lia. cbn. lia.
  - rewrite Z.opp_involutive. reflexivity.
Qed.

Lemma double_eta x : Double (mant x) (expo x) = x.
Proof. destruct x; reflexivity. Qed.

(** Floor of the rounded quotient: exact for dividends below [2 ^ 53]. *)
Lemma ffloor_fdiv n d :
  - 2 ^ 53 < n < 2 ^ 53 -> 0 < d -> ffloor (fdiv n d) = n / d.
Proof.
  intros Hn Hd. unfold fdiv; cbv zeta. case_if; to_prop; [subst; reflexivity|].
  case_if; to_prop.
  - destruct (fdiv_pos_bracket n d) as (k & Hk & He & Hb & _); [lia|lia|].
    rewrite <- (double_eta (fdiv_pos n d)), He, ffloor_neg_expo by lia.
    apply div_bracket, Hb.
  - destruct (fdiv_pos_bracket (- n) d) as (k & Hk & He & Hb & Hs & Hz); [lia|lia|].
    rewrite He, ffloor_neg_expo by lia.
    pose proof (Z.pow_pos_nonneg 2 k ltac:(lia) Hk).
    pose proof (Z.mod_pos_bound (- n) d Hd).
    pose proof (Z.div_mod (- n) d ltac:(lia)).
    apply div_bracket.
    destruct (Z.eq_dec ((- n) mod d) 0) as [Hr|Hr].
    + rewrite (Hz Hr).
      assert (Hq : n / d = - (- n / d)) by (apply div_bracket; nia). nia.
    + specialize (Hs ltac:(lia)).
      assert (Hq : n / d = - (- n / d) - 1) by (apply div_bracket; nia). nia.
Qed.

(** Truncation of the rounded quotient: likewise. *)
Lemma ftrunc_fdiv n d :
  - 2 ^ 53 < n < 2 ^ 53 -> 0 < d -> ftrunc (fdiv n d) = n ÷ d.
Proof.
  intros Hn Hd. unfold fdiv; cbv zeta. case_if; to_prop; [subst; reflexivity|].
  case_if; to_prop.
  - destruct (fdiv_pos_bracket n d) as (k & Hk & He & Hb & _); [lia|lia|].
    rewrite <- (double_eta (fdiv_pos n d)), He, ftrunc_neg_expo by lia.
    pose proof (Z.pow_pos_nonneg 2 k ltac:(lia) Hk).
    rewrite (Z.quot_div_nonneg n d) by lia.
    apply quot_bracket; [lia|apply Z.div_pos; lia|exact Hb].
  - destruct (fdiv_pos_bracket (- n) d) as (k & Hk & He & Hb & _); [lia|lia|].
    rewrite He, ftrunc_neg_expo by lia.
    pose proof (Z.pow_pos_nonneg 2 k ltac:(lia) Hk).
    rewrite Z.quot_opp_l by lia.
    rewrite <- (Z.opp_involutive n) at 2. rewrite Z.quot_opp_l by lia. f_equal.
    rewrite (Z.quot_div_nonneg (- n) d) by lia.
    apply quot_bracket; [lia|apply Z.div_pos; lia|exact Hb].
Qed.

(** Without a bound on the dividend: when the quotient is below [2 ^ 20], the
    floor of the rounded quotient is within [2 ^ -32] of the quotient. *)
Lemma ffloor_fdiv_close n d :
  0 < d -> Z.abs n < d * 2 ^ 20 ->
  d * (ffloor (fdiv n d) * 2 ^ 32 - 1) <= n * 2 ^ 32
  < d * ((ffloor (fdiv n d) + 1) * 2 ^ 32 + 1).
Proof.
  intros Hd Hn.
  assert (Hpos : forall a, 0 < a < d * 2 ^ 20 ->
    exists k, 32 <= k /\ expo (fdiv_pos a d) = - k /\
      Z.abs (2 * (mant (fdiv_pos a d) * d - a * 2 ^ k)) <= d).
  { intros a Ha.
    pose proof (quotient_expo_low a d ltac:(lia) Hd) as Hlow.
    pose proof (fdiv_pos_near a d ltac:(lia) Hd) as Hnear. cbv zeta in Hnear.
    exists (- quotient_expo a d). unfold scaled_den, scaled_num in *.
    assert (Hk : quotient_expo a d <= - 32).
    { destruct (Z.leb_spec (quotient_expo a d) (- 32)); [assumption|exfalso].
      pose proof (pow2_pos (quotient_expo a d)).
      assert (2 ^ Z.max 0 (- quotient_expo a d) <= 2 ^ 32)
        by (apply Z.pow_le_mono_r; lia).
      pose proof (pow2_pos (- quotient_expo a d)). nia. }
    replace (Z.max 0 (- quotient_expo a d)) with (- quotient_expo a d) in * by lia.
    replace (Z.max 0 (quotient_expo a d)) with 0 in * by lia.
    rewrite Z.pow_0_r, Z.mul_1_r in *. cbn [expo fdiv_pos]. lia. }
  assert (Hfloor : forall m k, 32 <= k ->
    Z.abs (2 * (m * d - n * 2 ^ k)) <= d ->
    d * (m / 2 ^ k * 2 ^ 32 - 1) <= n * 2 ^ 32 < d * ((m / 2 ^ k + 1) * 2 ^ 32 + 1)).
  { intros m k Hk Hm.
    assert (HP : 2 ^ k = 2 ^ 32 * 2 ^ (k - 32)).
    { rewrite <- Z.pow_add_r by lia. f_equal. lia. }
    pose proof (Z.pow_pos_nonneg 2 (k - 32) ltac:(lia) ltac:(lia)).
    set (P := 2 ^ (k - 32)) in *.
    pose proof (Z.div_mod m (2 ^ k) ltac:(lia)).
    pose proof (Z.mod_pos_bound m (2 ^ k) ltac:(lia)).
    set (q := m / 2 ^ k) in *. rewrite HP in *. nia. }
  unfold fdiv; cbv zeta. case_if; to_prop; [subst; cbn; lia|].
  case_if; to_prop.
  - destruct (Hpos n ltac:(lia)) as (k & Hk & He & Hm).
    rewrite <- (double_eta (fdiv_pos n d)), He, ffloor_neg_expo by lia.
    apply Hfloor; assumption.
  - destruct (Hpos (- n) ltac:(lia)) as (k & Hk & He & Hm).
    rewrite He, ffloor_neg_expo by lia. apply Hfloor; [assumption|]. lia.
Qed.
