(* ===== verification/DateTime.v ===== *)
(** * Calendar arithmetic of [src/src/runtime/DateObject.cpp]

    Time values are [int64_t] milliseconds since the epoch ([time64_t]), [int]
    results are 32-bit.  Integer division and remainder of the source truncate
    towards zero: [÷] and [Z.rem].  Divisions done in [double] are [fdiv]. *)

From S2P Require Import Prelude Float64.
Local Open Scope Z_scope.

(** ** Constants (DateObject.h) *)

Definition TIME64NAN : Z := - 2 ^ 63.
Definition daysPerWeek := 7.
Definition daysPerYear := 365.
Definition daysPerLeapYear := daysPerYear + 1.
Definition monthsPerYear := 12.
Definition MaximumDatePrimitiveValue := 8640000000000000.
Definition hoursPerDay := 24.
Definition minutesPerHour := 60.
Definition secondsPerMinute := 60.
Definition secondsPerHour := secondsPerMinute * minutesPerHour.
Definition msPerSecond := 1000.
Definition msPerMinute := msPerSecond * secondsPerMinute.
Definition msPerHour := msPerSecond * secondsPerHour.
Definition msPerDay := msPerHour * hoursPerDay.

Definition is_valid_time (t : Z) : bool := negb (t =? TIME64NAN).
Definition is_in_time_range (t : Z) : bool :=
  (t <=? MaximumDatePrimitiveValue) && (- MaximumDatePrimitiveValue <=? t).

(** ** Month tables *)

Definition daysInMonth : list Z := [31; 28; 31; 30; 31; 30; 31; 31; 30; 31; 30; 31].

Fixpoint _firstDay (mon : nat) : Z :=
  match mon with
  | O => 0
  | S m => _firstDay m + nth m daysInMonth 0
  end.

Definition firstDayOfMonth (leap : bool) : list Z :=
  (fun mon => _firstDay mon + (if leap && (2 <=? mon)%nat then 1 else 0)) <$> seq 0 13.

Definition monthNumberHelper : list Z :=
  [31; 59; 90; 120; 151; 181; 212; 243; 273; 304; 334; 365].

(** ** Years and days *)

Definition daysInYear (year : Z) : Z :=
  if negb (Z.rem year 4 =? 0) then daysPerYear
  else if negb (Z.rem year 100 =? 0) then daysPerLeapYear
  else if negb (Z.rem year 400 =? 0) then daysPerYear
  else daysPerLeapYear.

Definition inLeapYear (year : Z) : bool :=
  negb (daysInYear year - daysPerYear =? 0).

(** The number of days from (1970.1.1) to (year.1.1).  The sum of the first
    branch and the product of the second are [int]s: they wrap. *)
Definition daysFromYear (year : Z) : Z :=
  if 1970 <=? year then
    to_int32 (365 * (year - 1970) + (year - 1969) ÷ 4 - (year - 1901) ÷ 100
              + (year - 1601) ÷ 400)
  else
    to_int32 (365 * (year - 1970)) + ffloor (fdiv (year - 1969) 4)
    - ffloor (fdiv (year - 1901) 100) + ffloor (fdiv (year - 1601) 400).

Definition timeFromYear (year : Z) : Z := msPerDay * daysFromYear year.

Definition daysFromMonth (year month : Z) : Z :=
  nth (Z.to_nat month) (firstDayOfMonth (inLeapYear year)) 0.

Definition daysToMs (year month date : Z) : Z :=
  let t := timeFromYear year + daysFromMonth year month * msPerDay in
  t + (date - 1) * msPerDay.

Definition timeinfoToMs (year mon day hour minute second millisecond : Z) : Z :=
  daysToMs year mon day + hour * msPerHour + minute * msPerMinute
  + second * msPerSecond + millisecond.

(** The literal [365.2425] as a double is [365_2425_significand * 2 ^ -44]. *)
Definition days_per_year_significand : Z := 6425414011327611.

Definition yearEstimate (t : Z) : Z :=
  ffloor (fdiv ((t ÷ msPerDay) * 2 ^ 44) days_per_year_significand) + 1970.

Definition yearFromTime (t : Z) : Z :=
  let estimate := yearEstimate t in
  let yearAsMs := daysToMs estimate 0 1 in
  let estimate := if t <? yearAsMs then estimate - 1 else estimate in
  if yearAsMs + daysInYear estimate * msPerDay <=? t then estimate + 1 else estimate.

Definition daysFromTime (t : Z) : Z :=
  let t := if t <? 0 then t - (msPerDay - 1) else t in
  ftrunc (fdiv t msPerDay).

Definition weekDay (t : Z) : Z := Z.rem (daysFromTime t + 4) daysPerWeek.

(** [monthFromTime]'s binary search over [monthNumberHelper].  The loop can
    read the table at [m - 1 = -1]: [before] is the [int] the memory holds
    there.  [None] is a loop that has not ended after [fuel] rounds. *)
Definition helperAt (before : Z) (i : Z) : Z :=
  if i <? 0 then before else nth (Z.to_nat i) monthNumberHelper 0.

Fixpoint monthSearch (before : Z) (fuel : nat) (day l r : Z) : option Z :=
  match fuel with
  | O => None
  | S fuel =>
    let m := l + (r - l) ÷ 2 in
    if (day <=? helperAt before m) && (helperAt before (m - 1) <? day)
    then Some (m + (if helperAt before m =? day then 1 else 0))
    else if helperAt before m <? day then monthSearch before fuel day (m + 1) r
    else monthSearch before fuel day l (m - 1)
  end.

Definition dayWithinYear (t : Z) : Z := daysFromTime t - daysFromYear (yearFromTime t).

Definition monthFromTime (before : Z) (fuel : nat) (t : Z) : option Z :=
  let year := yearFromTime t in
  let day := daysFromTime t - daysFromYear year in
  let leap := inLeapYear year in
  if day <? 31 then Some 0
  else monthSearch before fuel (day - (if leap then 1 else 0)) 0 10.

Definition dateFromTime (before : Z) (fuel : nat) (t : Z) : option Z :=
  let leap := inLeapYear (yearFromTime t) in
  let dayWithinYear := daysFromTime t - daysFromYear (yearFromTime t) in
  match monthFromTime before fuel t with
  | None => None
  | Some monthNumber => Some (
      if monthNumber =? 0 then dayWithinYear + 1
      else if monthNumber =? 1 then dayWithinYear - (helperAt before 0 - 1)
      else dayWithinYear - (helperAt before (monthNumber - 1) - 1)
           - (if leap then 1 else 0))
  end.

(** ** Time of day *)

Definition hourFromTime (t : Z) : Z :=
  if 0 <=? t then to_int32 (Z.rem (t ÷ msPerHour) hoursPerDay)
  else
    let hours := to_int32 (Z.rem ((t - (msPerHour - 1)) ÷ msPerHour) hoursPerDay) in
    if hours =? 0 then 0 else to_int32 (hoursPerDay + hours).

Definition minFromTime (t : Z) : Z :=
  if 0 <=? t then to_int32 (Z.rem (t ÷ msPerMinute) minutesPerHour)
  else
    let minutes :=
      to_int32 (Z.rem ((t - (msPerMinute - 1)) ÷ msPerMinute) minutesPerHour) in
    if minutes =? 0 then 0 else to_int32 (minutesPerHour + minutes).

(** For negative times the source casts the quotient to [int] before it takes
    the remainder. *)
Definition secFromTime (t : Z) : Z :=
  if 0 <=? t then to_int32 (Z.rem (t ÷ msPerSecond) secondsPerMinute)
  else
    let seconds :=
      to_int32 (Z.rem (to_int32 ((t - (msPerSecond - 1)) ÷ msPerSecond))
                      secondsPerMinute) in
    if seconds =? 0 then 0 else to_int32 (secondsPerMinute + seconds).

Definition msFromTime (t : Z) : Z :=
  let milliseconds := to_int32 (Z.rem t msPerSecond) in
  if 0 <=? milliseconds then milliseconds else to_int32 (msPerSecond + milliseconds).

(** ** Broken-down time *)

Record timeinfo := TimeInfo {
  year : Z; month : Z; mday : Z;
  hour : Z; minute : Z; sec : Z; millisec : Z;
  wday : Z; gmtoff : Z; isdst : Z }.

(** The loop [for (i = 1; i <= 12; i++)]: the first month whose end is after
    the day; [keep] when there is none (the field is not assigned). *)
Fixpoint findMonthFrom (leap : bool) (dayWithinYear keep : Z) (rounds i : nat) : Z :=
  match rounds with
  | O => keep
  | S rounds =>
    if dayWithinYear <? nth i (firstDayOfMonth leap) 0 then Z.of_nat i - 1
    else findMonthFrom leap dayWithinYear keep rounds (S i)
  end.
Definition findMonthOfDay (leap : bool) (dayWithinYear keep : Z) : Z :=
  findMonthFrom leap dayWithinYear keep 12 1.

Definition getYMDFromTime (t : Z) (cachedLocal : timeinfo) : timeinfo :=
  let estimate := yearEstimate t in
  let yearAsMs := daysToMs estimate 0 1 in
  let estimate := if t <? yearAsMs then estimate - 1 else estimate in
  let y :=
    if yearAsMs + daysInYear estimate * msPerDay <=? t then estimate + 1 else estimate in
  let dayWithinYear := daysFromTime t - daysFromYear y in
  let leap := inLeapYear y in
  let m := findMonthOfDay leap dayWithinYear (month cachedLocal) in
  let d := dayWithinYear + 1 - nth (Z.to_nat m) (firstDayOfMonth leap) 0 in
  {| year := y; month := m; mday := d;
     hour := hour cachedLocal; minute := minute cachedLocal; sec := sec cachedLocal;
     millisec := millisec cachedLocal; wday := wday cachedLocal;
     gmtoff := gmtoff cachedLocal; isdst := isdst cachedLocal |}.

(** WebKit's equivalent year for daylight saving rules. *)
Definition equivalentYearForDST (year : Z) : Z :=
  let minYear := 2010 in
  let maxYear := 2037 in
  if maxYear <? year then year + (minYear - year) ÷ 28 * 28
  else if year <? minYear then year + (maxYear - year) ÷ 28 * 28
  else year.

(** ** The proleptic Gregorian calendar, as the reference *)

Definition gregorian_leap (y : Z) : bool :=
  ((y mod 4 =? 0) && negb (y mod 100 =? 0)) || (y mod 400 =? 0).

Definition gregorian_year_length (y : Z) : Z := if gregorian_leap y then 366 else 365.

Definition gregorian_month_length (y m : Z) : Z :=
  if m =? 1 then if gregorian_leap y then 29 else 28
  else if (m =? 3) || (m =? 5) || (m =? 8) || (m =? 10) then 30 else 31.

(** The days from the first of January 1970 to that of a year: the lengths of the years between. *)
Fixpoint gregorianDaysAfter (n : nat) : Z :=
  match n with O => 0 | S n => gregorianDaysAfter n + gregorian_year_length (1970 + Z.of_nat n) end.
Fixpoint gregorianDaysBefore (n : nat) : Z :=
  match n with O => 0 | S m => gregorianDaysBefore m + gregorian_year_length (1970 - Z.of_nat n) end.
Definition gregorianDays (y : Z) : Z :=
  if 1970 <=? y then gregorianDaysAfter (Z.to_nat (y - 1970)) else - gregorianDaysBefore (Z.to_nat (1970 - y)).

(** The years whose day count fits an [int], with room to spare. *)
Definition year_in_int (y : Z) : Prop := - 5000000 <= y < 5000000.

(** ** Helper lemmas *)

Ltac year_ok := unfold year_in_int; lia.

Lemma daysInYear_gregorian y : daysInYear y = gregorian_year_length y.
Proof.
  unfold daysInYear, gregorian_year_length, gregorian_leap, daysPerLeapYear, daysPerYear.
  repeat case_if; to_prop; lia.
Qed.

Lemma daysInYear_cases y : daysInYear y = 365 \/ daysInYear y = 366.
Proof. rewrite daysInYear_gregorian. unfold gregorian_year_length. case_if; auto. Qed.

Lemma inLeapYear_gregorian y : inLeapYear y = gregorian_leap y.
Proof.
  unfold inLeapYear. rewrite daysInYear_gregorian.
  unfold gregorian_year_length, daysPerYear. destruct (gregorian_leap y); reflexivity.
Qed.

(** Both branches of [daysFromYear], the integer and the floating-point one,
    compute the same floor formula. *)
Lemma daysFromYear_floor y :
  year_in_int y ->
  daysFromYear y
  = 365 * (y - 1970) + (y - 1969) / 4 - (y - 1901) / 100 + (y - 1601) / 400.
Proof.
  unfold year_in_int, daysFromYear. intros Hy.
  case_if; to_prop; rewrite to_int32_id by (unfold in_int32; lia); [lia|].
  rewrite !ffloor_fdiv by lia. reflexivity.
Qed.


(** Days from year to year: each year has its Gregorian length. *)
Lemma daysFromYear_succ y :
  year_in_int y -> year_in_int (y + 1) ->
  daysFromYear (y + 1) = daysFromYear y + daysInYear y.
Proof.
  intros. rewrite !daysFromYear_floor, daysInYear_gregorian by assumption.
  unfold gregorian_year_length, gregorian_leap. case_if.
  - apply orb_prop in Heqb as [Hb|Hb]; to_prop; lia.
  - to_prop. apply andb_false_iff in H1 as [Hb|Hb]; to_prop; lia.
Qed.

Lemma daysFromYear_bounds y :
  year_in_int y ->
  400 * (daysFromYear y) - 146097 * (y - 1970) <= 589 /\
  - 506 <= 400 * (daysFromYear y) - 146097 * (y - 1970).
Proof. intros. rewrite daysFromYear_floor by assumption. lia. Qed.

Lemma daysFromTime_floor t :
  - 2 ^ 53 + msPerDay < t < 2 ^ 53 -> daysFromTime t = t / msPerDay.
Proof.
  unfold daysFromTime. cbv zeta. intros. change msPerDay with 86400000 in *.
  case_if; to_prop; rewrite ftrunc_fdiv by lia; lia.
Qed.

(** The range in which times are exact doubles, with a day to spare; it holds
    every valid time value and every local time of one. *)
Definition time_ok (t : Z) : Prop := - 2 ^ 53 + msPerDay < t < 2 ^ 53 - msPerDay.

Lemma valid_time_ok t : is_in_time_range t = true -> time_ok t.
Proof.
  unfold is_in_time_range, time_ok, MaximumDatePrimitiveValue. intros. to_prop.
  change msPerDay with 86400000. lia.
Qed.

(** The floating-point estimate of the year is off by at most one. *)
Lemma yearEstimate_close t y :
  time_ok t -> year_in_int y -> year_in_int (y + 1) ->
  daysFromYear y <= t / msPerDay < daysFromYear (y + 1) ->
  y - 1 <= yearEstimate t <= y + 1.
Proof.
  unfold time_ok, yearEstimate, days_per_year_significand. intros Ht Hy Hy1 Hd.
  pose proof (daysFromYear_bounds y Hy). pose proof (daysFromYear_bounds (y + 1) Hy1).
  change msPerDay with 86400000 in *.
  pose proof (ffloor_fdiv_close (t ÷ 86400000 * 2 ^ 44) 6425414011327611
                ltac:(lia) ltac:(lia)).
  set (E := ffloor _) in *. lia.
Qed.

Lemma timeFromYear_spec y : timeFromYear y = daysFromYear y * msPerDay.
Proof. unfold timeFromYear. lia. Qed.

Lemma daysToMs_jan1 y : daysToMs y 0 1 = daysFromYear y * msPerDay.
Proof.
  unfold daysToMs, daysFromMonth, timeFromYear. cbv zeta.
  replace (nth _ _ _) with 0 by (destruct (inLeapYear y); reflexivity). lia.
Qed.

Lemma daysFromYear_mono y z :
  year_in_int y -> year_in_int z -> y <= z -> daysFromYear y <= daysFromYear z.
Proof. intros. rewrite !daysFromYear_floor by assumption. lia. Qed.

(** Every time in range has a year. *)
Lemma year_exists t :
  time_ok t ->
  exists y, - 300000 < y < 300000 /\
    daysFromYear y <= t / msPerDay < daysFromYear (y + 1).
Proof.
  unfold time_ok. intros Ht. change msPerDay with 86400000 in *.
  set (D := t / 86400000).
  assert (HD : - 104300000 < D < 104300000) by lia. clearbody D.
  set (y0 := 1970 + 400 * D / 146097).
  assert (H0 : 146097 * (y0 - 1970) <= 400 * D < 146097 * (y0 - 1970 + 1)) by lia.
  clearbody y0.
  pose proof (daysFromYear_floor y0 ltac:(year_ok)).
  pose proof (daysFromYear_floor (y0 - 1) ltac:(year_ok)).
  pose proof (daysFromYear_floor (y0 + 1) ltac:(year_ok)).
  pose proof (daysFromYear_floor (y0 + 2) ltac:(year_ok)).
  pose proof (daysFromYear_bounds (y0 - 1) ltac:(year_ok)).
  pose proof (daysFromYear_bounds (y0 + 2) ltac:(year_ok)).
  assert (daysFromYear (y0 - 1) <= D < daysFromYear (y0 + 2)) by lia.
  destruct (Z.lt_ge_cases D (daysFromYear y0)).
  - exists (y0 - 1). replace (y0 - 1 + 1) with y0 by lia. lia.
  - destruct (Z.lt_ge_cases D (daysFromYear (y0 + 1))).
    + exists y0. lia.
    + exists (y0 + 1). replace (y0 + 1 + 1) with (y0 + 2) by lia. lia.
Qed.

Lemma year_unique D y z :
  year_in_int y -> year_in_int (y + 1) -> year_in_int z -> year_in_int (z + 1) ->
  daysFromYear y <= D < daysFromYear (y + 1) ->
  daysFromYear z <= D < daysFromYear (z + 1) -> y = z.
Proof.
  intros ???? Hy Hz. destruct (Z.lt_trichotomy y z) as [Hlt|[->|Hlt]]; [|reflexivity|].
  - pose proof (daysFromYear_mono (y + 1) z). lia.
  - pose proof (daysFromYear_mono (z + 1) y). lia.
Qed.

(** The correction after the estimate: shared by [yearFromTime] and
    [getYMDFromTime]. *)
Lemma year_correction t y :
  time_ok t -> - 300000 < y < 300000 ->
  daysFromYear y <= t / msPerDay < daysFromYear (y + 1) ->
  yearFromTime t = y.
Proof.
  intros Ht Hy Hd.
  pose proof (yearEstimate_close t y Ht ltac:(year_ok) ltac:(year_ok) Hd) as He.
  unfold yearFromTime. cbv zeta. set (e := yearEstimate t) in *.
  rewrite daysToMs_jan1.
  assert (Hcase : e = y - 1 \/ e = y \/ e = y + 1) by lia.
  pose proof (daysFromYear_succ y ltac:(year_ok) ltac:(year_ok)) as Hs.
  pose proof (daysFromYear_succ (y - 1) ltac:(year_ok) ltac:(year_ok)) as Hp.
  replace (y - 1 + 1) with y in Hp by lia.
  change msPerDay with 86400000 in *.
  pose proof (daysInYear_cases y). pose proof (daysInYear_cases (y - 1)).
  pose proof (daysInYear_cases (y - 1 - 1)). clearbody e.
  destruct Hcase as [->|[->| ->]]; replace (y + 1 - 1) with y in * by lia;
    match goal with |- context [if t <? ?x then _ else _] => destruct (t <? x) eqn:? end;
    case_if; to_prop; lia.
Qed.

Lemma yearFromTime_bounds t :
  time_ok t ->
  - 300000 < yearFromTime t < 300000 /\
  daysFromYear (yearFromTime t) <= t / msPerDay < daysFromYear (yearFromTime t + 1).
Proof.
  intros Ht. destruct (year_exists t Ht) as (y & Hy & Hd).
  rewrite (year_correction t y Ht Hy Hd). auto.
Qed.

Lemma year_in_int_small y : - 300002 < y < 300002 -> year_in_int y.
Proof. unfold year_in_int. lia. Qed.
#[export] Hint Resolve year_in_int_small valid_time_ok : esc.

Lemma dayWithinYear_bounds t :
  time_ok t ->
  0 <= t / msPerDay - daysFromYear (yearFromTime t) < daysInYear (yearFromTime t).
Proof.
  intros Ht. destruct (yearFromTime_bounds t Ht) as [Hy Hd].
  pose proof (daysFromYear_succ (yearFromTime t)
    ltac:(year_ok) ltac:(year_ok)). lia.
Qed.

(** *** Months *)

Definition monthStart (leap : bool) (m : Z) : Z :=
  nth (Z.to_nat m) (firstDayOfMonth leap) 0.

Lemma month_cases m :
  0 <= m < 12 ->
  m = 0 \/ m = 1 \/ m = 2 \/ m = 3 \/ m = 4 \/ m = 5 \/ m = 6 \/ m = 7
  \/ m = 8 \/ m = 9 \/ m = 10 \/ m = 11.
Proof. lia. Qed.

(** Splits a month into its twelve values. *)
Ltac month_split H :=
  let K := fresh in
  pose proof (month_cases _ H) as K; clear H;
  repeat (destruct K as [K|K]); subst.

(** Evaluates the month table in the goal. *)
Ltac month_eval :=
  repeat match goal with
  | |- context [monthStart ?l ?m] =>
    let v := eval vm_compute in (monthStart l m) in change (monthStart l m) with v
  end.

Lemma monthStart_succ y m :
  0 <= m < 12 ->
  monthStart (gregorian_leap y) (m + 1)
  = monthStart (gregorian_leap y) m + gregorian_month_length y m.
Proof.
  intros Hm. unfold gregorian_month_length.
  month_split Hm; destruct (gregorian_leap y); reflexivity.
Qed.

Lemma monthStart_range leap m :
  0 <= m < 12 -> 0 <= monthStart leap m <= (if leap then 335 else 334).
Proof. intros Hm. month_split Hm; destruct leap; month_eval; lia. Qed.

Lemma monthStart_mono leap a b :
  0 <= a < 12 -> 0 <= b < 12 -> a < b -> monthStart leap (a + 1) <= monthStart leap b.
Proof.
  intros Ha Hb. month_split Ha; month_split Hb; intros; try lia;
    destruct leap; month_eval; cbv beta iota; lia.
Qed.

Lemma month_unique leap d m m' :
  0 <= m < 12 -> 0 <= m' < 12 ->
  monthStart leap m <= d < monthStart leap (m + 1) ->
  monthStart leap m' <= d < monthStart leap (m' + 1) -> m = m'.
Proof.
  intros Hm Hm' H H'. destruct (Z.lt_trichotomy m m') as [Hlt|[->|Hlt]]; [|reflexivity|].
  - pose proof (monthStart_mono leap m m' Hm Hm' Hlt). lia.
  - pose proof (monthStart_mono leap m' m Hm' Hm Hlt). lia.
Qed.

Lemma findMonthFrom_spec leap d keep rounds i :
  (i + rounds = 13)%nat -> (0 < i)%nat ->
  monthStart leap (Z.of_nat i - 1) <= d < (if leap then 366 else 365) ->
  let m := findMonthFrom leap d keep rounds i in
  0 <= m < 12 /\ monthStart leap m <= d < monthStart leap (m + 1).
Proof.
  revert i. induction rounds as [|rounds IH]; intros i Hi Hpos Hd; cbv zeta.
  - exfalso. replace i with 13%nat in Hd by lia. revert Hd.
    change (Z.of_nat 13 - 1) with 12. destruct leap; month_eval; lia.
  - cbn [findMonthFrom].
    replace (nth i (firstDayOfMonth leap) 0) with (monthStart leap (Z.of_nat i))
      by (unfold monthStart; rewrite Nat2Z.id; reflexivity).
    case_if; to_prop.
    + split; [lia|]. replace (Z.of_nat i - 1 + 1) with (Z.of_nat i) by lia. lia.
    + apply IH; [lia|lia|]. replace (Z.of_nat (S i) - 1) with (Z.of_nat i) by lia. lia.
Qed.

Lemma findMonthOfDay_spec (leap : bool) d keep :
  0 <= d < (if leap then 366 else 365) ->
  0 <= findMonthOfDay leap d keep < 12 /\
  monthStart leap (findMonthOfDay leap d keep) <= d
    < monthStart leap (findMonthOfDay leap d keep + 1).
Proof.
  intros Hd. refine (findMonthFrom_spec leap d keep 12 1 eq_refl ltac:(lia) _).
  change (monthStart leap (Z.of_nat 1 - 1)) with (monthStart leap 0).
  destruct leap; month_eval; lia.
Qed.

(** ** Properties *)

Definition valid_date (y m d : Z) : Prop :=
  - 300000 < y < 300000 /\ 0 <= m < 12 /\ 1 <= d <= gregorian_month_length y m.

Lemma gregorian_year_split y :
  gregorian_year_length y = if gregorian_leap y then 366 else 365.
Proof. reflexivity. Qed.

(** Where a date lies in its year. *)
Lemma daysToMs_spec y m d :
  daysToMs y m d
  = (daysFromYear y + monthStart (gregorian_leap y) m + (d - 1)) * msPerDay.
Proof.
  unfold daysToMs, timeFromYear, daysFromMonth. cbv zeta.
  rewrite inLeapYear_gregorian. unfold monthStart. lia.
Qed.

Lemma getYMDFromTime_fields t c :
  time_ok t ->
  let y := yearFromTime t in
  let D := t / msPerDay - daysFromYear y in
  let m := findMonthOfDay (gregorian_leap y) D (month c) in
  year (getYMDFromTime t c) = y /\ month (getYMDFromTime t c) = m /\
  mday (getYMDFromTime t c) = D + 1 - monthStart (gregorian_leap y) m.
Proof.
  intros Ht. cbv zeta. unfold getYMDFromTime. cbv zeta. fold (yearFromTime t).
  cbn [year month mday]. rewrite inLeapYear_gregorian.
  rewrite (daysFromTime_floor t) by (unfold time_ok in Ht; change msPerDay with 86400000 in *; lia).
  auto.
Qed.

Lemma getYMDFromTime_spec t c :
  time_ok t ->
  valid_date (year (getYMDFromTime t c)) (month (getYMDFromTime t c))
             (mday (getYMDFromTime t c)) /\
  daysToMs (year (getYMDFromTime t c)) (month (getYMDFromTime t c))
           (mday (getYMDFromTime t c)) = t / msPerDay * msPerDay.
Proof.
  intros Ht. destruct (getYMDFromTime_fields t c Ht) as (-> & -> & ->).
  destruct (yearFromTime_bounds t Ht) as [Hy _].
  pose proof (dayWithinYear_bounds t Ht) as HD.
  rewrite daysInYear_gregorian, gregorian_year_split in HD.
  destruct (findMonthOfDay_spec _ _ (month c) HD) as [Hm Hd].
  rewrite monthStart_succ in Hd by exact Hm.
  split; [unfold valid_date; lia|]. rewrite daysToMs_spec. lia.
Qed.

(** A date and a time of day determine the broken-down date. *)
Lemma getYMDFromTime_unique t c y m d :
  time_ok t -> valid_date y m d -> daysToMs y m d <= t < daysToMs y m d + msPerDay ->
  year (getYMDFromTime t c) = y /\ month (getYMDFromTime t c) = m /\
  mday (getYMDFromTime t c) = d.
Proof.
  intros Ht (Hy & Hm & Hd) Hr. rewrite daysToMs_spec in Hr.
  set (DY := monthStart (gregorian_leap y) m + (d - 1)).
  assert (Hdiv : t / msPerDay = daysFromYear y + DY).
  { change msPerDay with 86400000 in *. lia. }
  pose proof (monthStart_succ y m Hm) as Hs.
  pose proof (monthStart_range (gregorian_leap y) m Hm) as Hr0.
  assert (HDY : 0 <= DY < daysInYear y).
  { rewrite daysInYear_gregorian. unfold gregorian_year_length, DY.
    destruct (Z.eq_dec m 11) as [->|Hne].
    - change (monthStart (gregorian_leap y) (11 + 1)) with
        (monthStart (gregorian_leap y) 12) in Hs.
      revert Hs. destruct (gregorian_leap y); month_eval; lia.
    - pose proof (monthStart_mono (gregorian_leap y) m 11 Hm ltac:(lia) ltac:(lia)) as Hmm.
      pose proof (monthStart_range (gregorian_leap y) 11 ltac:(lia)).
      destruct (gregorian_leap y); lia. }
  assert (Hyear : yearFromTime t = y).
  { apply year_correction; [assumption|assumption|].
    rewrite daysFromYear_succ by year_ok. lia. }
  destruct (getYMDFromTime_fields t c Ht) as (-> & -> & ->). rewrite Hyear.
  replace (t / msPerDay - daysFromYear y) with DY by lia.
  assert (Hmonth : findMonthOfDay (gregorian_leap y) DY (month c) = m).
  { rewrite daysInYear_gregorian, gregorian_year_split in HDY.
    destruct (findMonthOfDay_spec _ _ (month c) HDY) as [Hm' Hd'].
    apply (month_unique (gregorian_leap y) DY); unfold DY in *; lia. }
  rewrite Hmonth. unfold DY. lia.
Qed.

(** *** The binary search of [monthFromTime] *)

(** Decided by running the search on each of the days it never leaves the table
    for; [before] stays symbolic. *)
Definition monthSearch_ok (before : Z) (day : Z) : bool :=
  match monthSearch before 5 day 0 10 with
  | Some m => (1 <=? m) && (m <=? 11) && (monthStart false m <=? day)
              && (day <? monthStart false (m + 1))
  | None => false
  end.

Lemma monthSearch_table before :
  forallb (monthSearch_ok before) ((fun i => 32 + Z.of_nat i) <$> seq 0 333) = true.
Proof. vm_compute. reflexivity. Qed.

Lemma monthSearch_fuel before day fuel l r m :
  monthSearch before fuel day l r = Some m ->
  forall more, monthSearch before (fuel + more) day l r = Some m.
Proof.
  revert l r. induction fuel as [|fuel IH]; intros l r; [discriminate|].
  cbn [monthSearch Nat.add]. cbv zeta. repeat case_if; eauto.
Qed.

Lemma monthSearch_spec before fuel day :
  (5 <= fuel)%nat -> 32 <= day <= 364 ->
  exists m, monthSearch before fuel day 0 10 = Some m /\ 1 <= m <= 11 /\
    monthStart false m <= day < monthStart false (m + 1).
Proof.
  intros Hf Hd. pose proof (monthSearch_table before) as Ht.
  rewrite forallb_forall in Ht. specialize (Ht day).
  assert (Hin : In day ((fun i => 32 + Z.of_nat i) <$> seq 0 333)).
  { apply list_elem_of_In, list_elem_of_fmap. exists (Z.to_nat (day - 32)).
    split; [lia|]. apply elem_of_seq. lia. }
  specialize (Ht Hin). unfold monthSearch_ok in Ht.
  destruct (monthSearch before 5 day 0 10) as [m|] eqn:Hm; [|discriminate].
  exists m. to_prop. split; [|lia].
  replace fuel with (5 + (fuel - 5))%nat by lia. apply monthSearch_fuel, Hm.
Qed.

(** The rounds of the search that reach index [-1]. *)
Lemma monthSearch_low before fuel day :
  day = 30 \/ day = 31 ->
  monthSearch before (3 + fuel) day 0 10
  = if before <? day then Some (if day =? 31 then 1 else 0)
    else monthSearch before fuel day 0 (-1).
Proof. intros [-> | ->]; vm_compute; reflexivity. Qed.

Lemma monthSearch_stuck before fuel day :
  day = 30 \/ day = 31 -> day <= before -> monthSearch before fuel day 0 (-1) = None.
Proof.
  intros Hd Hb. induction fuel as [|fuel IH]; [reflexivity|].
  cbn [monthSearch]. cbv zeta.
  change (0 + (-1 - 0) ÷ 2) with 0. change (helperAt before 0) with 31.
  change (helperAt before (0 - 1)) with before.
  replace (day <=? 31) with true by lia. replace (before <? day) with false by lia.
  replace (31 <? day) with false by lia. exact IH.
Qed.

Lemma monthSearch_loops before fuel day :
  day = 30 \/ day = 31 -> day <= before -> monthSearch before fuel day 0 10 = None.
Proof.
  intros Hd Hb. destruct (Nat.le_gt_cases 3 fuel).
  - replace fuel with (3 + (fuel - 3))%nat by lia. rewrite monthSearch_low by exact Hd.
    replace (before <? day) with false by lia. apply monthSearch_stuck; assumption.
  - destruct (monthSearch before fuel day 0 10) as [m|] eqn:Hm; [|reflexivity].
    pose proof (monthSearch_fuel _ _ _ _ _ _ Hm 3) as Hx.
    replace (fuel + 3)%nat with (3 + fuel)%nat in Hx by lia.
    rewrite monthSearch_low in Hx by exact Hd.
    replace (before <? day) with false in Hx by lia.
    rewrite monthSearch_stuck in Hx by assumption. discriminate.
Qed.

Lemma monthFromTime_unfold before fuel t :
  time_ok t ->
  monthFromTime before fuel t =
  let day := t / msPerDay - daysFromYear (yearFromTime t) in
  if day <? 31 then Some 0
  else monthSearch before fuel
         (day - (if gregorian_leap (yearFromTime t) then 1 else 0)) 0 10.
Proof.
  intros Ht. unfold monthFromTime. cbv zeta. rewrite inLeapYear_gregorian.
  rewrite daysFromTime_floor; [reflexivity|].
  unfold time_ok in Ht. change msPerDay with 86400000 in *. lia.
Qed.

(** A date in February whose search reads [monthNumberHelper[-1]]: the 1st, and
    the 2nd of a leap year. *)
Definition february_edge (y m d : Z) : bool :=
  (m =? 1) && ((d =? 1) || (gregorian_leap y && (d =? 2))).

Lemma monthStart_leap m :
  1 <= m <= 11 ->
  monthStart true m = monthStart false m + (if 2 <=? m then 1 else 0) /\
  monthStart true (m + 1) = monthStart false (m + 1) + 1.
Proof.
  intros Hm. assert (H : 0 <= m < 12) by lia. month_split H; try lia; split; reflexivity.
Qed.

Lemma monthFromTime_date before fuel t y m d :
  time_ok t -> (5 <= fuel)%nat -> valid_date y m d ->
  daysToMs y m d <= t < daysToMs y m d + msPerDay ->
  february_edge y m d = false ->
  monthFromTime before fuel t = Some m.
Proof.
  intros Ht Hf Hv Hr He.
  pose (c := TimeInfo 0 0 0 0 0 0 0 0 0 0).
  destruct (getYMDFromTime_unique t c y m d Ht Hv Hr) as (H1 & H2 & H3).
  destruct (getYMDFromTime_fields t c Ht) as (F1 & F2 & F3).
  rewrite H1 in F1. rewrite <- F1 in F2, F3. rewrite H2 in F2. rewrite H3 in F3.
  rewrite monthFromTime_unfold by exact Ht. cbv zeta. rewrite <- F1.
  rewrite <- F2 in F3. destruct Hv as (Hy & Hm & Hd).
  set (D := t / msPerDay - daysFromYear y) in *.
  pose proof (monthStart_succ y m Hm) as Hs.
  assert (HDm : monthStart (gregorian_leap y) m <= D < monthStart (gregorian_leap y) (m + 1))
    by lia.
  assert (HD : 0 <= D < if gregorian_leap y then 366 else 365).
  { pose proof (dayWithinYear_bounds t Ht) as HB.
    rewrite daysInYear_gregorian, <- F1 in HB. exact HB. }
  destruct (Z.ltb_spec D 31) as [Hlt|Hge].
  - f_equal. apply (month_unique (gregorian_leap y) D); [lia|exact Hm| |exact HDm].
    revert HD. destruct (gregorian_leap y); month_eval; lia.
  - assert (H32 : 32 <= D - (if gregorian_leap y then 1 else 0) <= 364).
    { destruct (Z.eq_dec m 0) as [->|];
        [revert HDm; destruct (gregorian_leap y); month_eval; lia|].
      unfold february_edge in He. destruct (Z.eq_dec m 1) as [->|].
      - change (1 =? 1) with true in He. cbn [andb] in He.
        revert He F3 HD. destruct (gregorian_leap y); month_eval; cbn [andb];
          intros He; to_prop; lia.
      - pose proof (monthStart_mono (gregorian_leap y) 1 m ltac:(lia) Hm ltac:(lia)) as Hx.
        revert Hx HD HDm. destruct (gregorian_leap y); month_eval; lia. }
    destruct (monthSearch_spec before fuel _ Hf H32) as (m' & -> & Hm' & Hb).
    f_equal. apply (month_unique (gregorian_leap y) D); [lia|exact Hm| |exact HDm].
    pose proof (monthStart_leap m' Hm') as [HL1 HL2].
    revert Hb H32. destruct (gregorian_leap y); [rewrite HL1, HL2; case_if|];
      to_prop; intros; try lia.
Qed.

(** *** Time of day *)

(** The two branches of each accessor compute one floor formula. *)
Lemma split_floor_mod t unit base :
  0 < unit -> 0 < base < 2 ^ 31 -> - 2 ^ 53 < t < 2 ^ 53 ->
  (if 0 <=? t then to_int32 (Z.rem (t ÷ unit) base)
   else let f := to_int32 (Z.rem ((t - (unit - 1)) ÷ unit) base) in
        if f =? 0 then 0 else to_int32 (base + f))
  = (t / unit) mod base.
Proof.
  intros Hu Hb Ht. cbv zeta. destruct (Z.leb_spec 0 t).
  - rewrite Z.quot_div_nonneg by lia.
    assert (0 <= t / unit) by (apply Z.div_pos; lia).
    pose proof (Z.mod_pos_bound (t / unit) base ltac:(lia)).
    rewrite Z.rem_mod_nonneg by lia. apply to_int32_id. unfold in_int32. lia.
  - assert (Hq : (t - (unit - 1)) ÷ unit = t / unit).
    { replace (t - (unit - 1)) with (- (unit - 1 - t)) by lia.
      rewrite Z.quot_opp_l by lia. rewrite Z.quot_div_nonneg by lia.
      pose proof (Z.div_mod t unit ltac:(lia)).
      pose proof (Z.mod_pos_bound t unit Hu).
      rewrite (div_bracket (unit - 1 - t) unit (- (t / unit))); nia. }
    rewrite Hq. set (q := t / unit).
    assert (Hneg : q < 0) by (apply Z.div_lt_upper_bound; lia).
    pose proof (Z.mod_pos_bound q base ltac:(lia)) as Hm.
    assert (Hrem : Z.rem q base = if q mod base =? 0 then 0 else q mod base - base).
    { replace q with (- (- q)) at 1 by lia. rewrite Z.rem_opp_l by lia.
      rewrite Z.rem_mod_nonneg by lia. case_if; to_prop.
      - rewrite Z.mod_opp_l_z by lia. lia.
      - rewrite Z.mod_opp_l_nz by lia. lia. }
    rewrite Hrem. destruct (q mod base =? 0) eqn:Hz; to_prop.
    + change (to_int32 0) with 0. cbn. lia.
    + rewrite to_int32_id by (unfold in_int32; lia).
      replace (q mod base - base =? 0) with false by lia.
      rewrite to_int32_id by (unfold in_int32; lia). lia.
Qed.

(** Times whose seconds quotient fits an [int]. *)
Lemma secFromTime_recent t :
  - 2 ^ 31 * 1000 <= t < 2 ^ 53 -> secFromTime t = (t / 1000) mod 60.
Proof.
  intros Ht. rewrite <- (split_floor_mod t 1000 60) by lia.
  unfold secFromTime. change msPerSecond with 1000. change secondsPerMinute with 60.
  cbv zeta. case_if; to_prop; [reflexivity|].
  rewrite (to_int32_id (_ ÷ _)) by (unfold in_int32; lia). reflexivity.
Qed.

Lemma msFromTime_value t : msFromTime t = t mod 1000.
Proof.
  unfold msFromTime. cbv zeta. change msPerSecond with 1000.
  rewrite (to_int32_id (Z.rem t 1000)) by (unfold in_int32; lia).
  case_if; to_prop; [lia|]. rewrite to_int32_id by (unfold in_int32; lia). lia.
Qed.

(** *** The properties of the calendar *)

Lemma gregorianDays_succ y : gregorianDays (y + 1) = gregorianDays y + gregorian_year_length y.
Proof.
  unfold gregorianDays. destruct (Z.leb_spec 1970 y), (Z.leb_spec 1970 (y + 1)); try lia.
  - replace (Z.to_nat (y + 1 - 1970)) with (S (Z.to_nat (y - 1970))) by lia. cbn [gregorianDaysAfter].
    do 2 f_equal. lia.
  - assert (y = 1969) as -> by lia. reflexivity.
  - replace (Z.to_nat (1970 - y)) with (S (Z.to_nat (1970 - (y + 1)))) by lia. cbn [gregorianDaysBefore].
    replace (1970 - Z.of_nat (S (Z.to_nat (1970 - (y + 1))))) with y by lia. lia.
Qed.

Lemma gregorianDays_lt y y' : y < y' -> gregorianDays (y + 1) <= gregorianDays y'.
Proof.
  intros Hy. assert (H : forall n, gregorianDays (y + 1) <= gregorianDays (y + 1 + Z.of_nat n)).
  { induction n as [|n IH]; [rewrite Z.add_0_r; lia|].
    replace (y + 1 + Z.of_nat (S n)) with (y + 1 + Z.of_nat n + 1) by lia. rewrite (gregorianDays_succ (y + 1 + Z.of_nat n)).
    unfold gregorian_year_length. destruct (gregorian_leap _); lia. }
  specialize (H (Z.to_nat (y' - (y + 1)))). rewrite Z2Nat.id in H by lia.
  replace (y + 1 + (y' - (y + 1))) with y' in H by lia. exact H.
Qed.

(** The count that the program makes is that of the calendar. *)
Lemma gregorianDays_daysFromYear y : year_in_int y -> gregorianDays y = daysFromYear y.
Proof.
  assert (Hs : forall x, year_in_int x -> year_in_int (x + 1) ->
    gregorianDays (x + 1) - daysFromYear (x + 1) = gregorianDays x - daysFromYear x).
  { intros x Hx Hx1. rewrite gregorianDays_succ, daysFromYear_succ, daysInYear_gregorian by assumption. lia. }
  assert (Hup : forall n, year_in_int (1970 + Z.of_nat n) -> gregorianDays (1970 + Z.of_nat n) = daysFromYear (1970 + Z.of_nat n)).
  { induction n as [|n IH]; [reflexivity|]. intros Hn. rewrite Nat2Z.inj_succ, <- Z.add_1_r, Z.add_assoc in *.
    specialize (Hs (1970 + Z.of_nat n) ltac:(unfold year_in_int in *; lia) Hn). specialize (IH ltac:(unfold year_in_int in *; lia)). lia. }
  assert (Hdown : forall n, year_in_int (1970 - Z.of_nat n) -> gregorianDays (1970 - Z.of_nat n) = daysFromYear (1970 - Z.of_nat n)).
  { induction n as [|n IH]; [reflexivity|]. intros Hn. specialize (IH ltac:(unfold year_in_int in *; lia)).
    specialize (Hs (1970 - Z.of_nat (S n)) Hn ltac:(unfold year_in_int in *; lia)).
    replace (1970 - Z.of_nat (S n) + 1) with (1970 - Z.of_nat n) in Hs by lia. lia. }
  intros Hy. destruct (Z.le_gt_cases 1970 y).
  - specialize (Hup (Z.to_nat (y - 1970))). rewrite Z2Nat.id in Hup by lia.
    replace (1970 + (y - 1970)) with y in Hup by lia. exact (Hup Hy).
  - specialize (Hdown (Z.to_nat (1970 - y))). rewrite Z2Nat.id in Hdown by lia.
    replace (1970 - (1970 - y)) with y in Hdown by lia. exact (Hdown Hy).
Qed.

(** C11: for every time value in the range of dates, [yearFromTime] answers a year exactly when it is the year of
    the Gregorian calendar that contains the time, its days counted year by year from 1970; although the first
    estimate of the year is computed in floating point. *)
Theorem yearFromTime_correct t y :
  is_in_time_range t = true ->
  (yearFromTime t = y <-> gregorianDays y * 86400000 <= t < gregorianDays (y + 1) * 86400000).
Proof.
  intros Ht. destruct (yearFromTime_bounds t (valid_time_ok t Ht)) as [Hy Hd].
  rewrite <- !gregorianDays_daysFromYear in Hd by year_ok. change msPerDay with 86400000 in Hd.
  split; [intros <-; lia|]. intros Hr. destruct (Z.lt_trichotomy (yearFromTime t) y) as [H|[H|H]]; [|exact H|].
  - pose proof (gregorianDays_lt _ _ H). lia.
  - pose proof (gregorianDays_lt _ _ H). lia.
Qed.

Lemma yearFromTime_correct_witness : is_in_time_range (-1) = true /\ yearFromTime (-1) = 1969.
Proof.
  split; [reflexivity|]. apply (yearFromTime_correct (-1) 1969 eq_refl). split; vm_compute; congruence.
Defined.

(** [daysFromYear], in integer and in floating-point arithmetic, counts the
    days of the proleptic Gregorian calendar from 1970. *)
Theorem daysFromYear_gregorian y :
  year_in_int y -> year_in_int (y + 1) ->
  daysFromYear 1970 = 0 /\
  daysFromYear (y + 1) - daysFromYear y = gregorian_year_length y /\
  daysInYear y = gregorian_year_length y.
Proof.
  intros. rewrite daysFromYear_succ by assumption.
  rewrite daysInYear_gregorian. repeat split. lia.
Qed.

Lemma daysFromYear_gregorian_witness :
  (year_in_int 1900 /\ year_in_int (1900 + 1)) /\ daysInYear 1900 = 365.
Proof.
  split; [split; year_ok|].
  refine (proj2 (proj2 (daysFromYear_gregorian 1900 _ _))); year_ok.
Defined.

(** Breaking a time down into year, month and day and building it again
    ([getYMDFromTime], [daysToMs]) are inverse to each other. *)
Theorem ymd_roundtrip :
  (forall t c, is_in_time_range t = true ->
     let i := getYMDFromTime t c in
     valid_date (year i) (month i) (mday i) /\
     daysToMs (year i) (month i) (mday i) + t mod msPerDay = t) /\
  (forall y m d ms c, valid_date y m d -> 0 <= ms < msPerDay ->
     time_ok (daysToMs y m d + ms) ->
     let i := getYMDFromTime (daysToMs y m d + ms) c in
     year i = y /\ month i = m /\ mday i = d).
Proof.
  split.
  - intros t c Ht. cbv zeta.
    destruct (getYMDFromTime_spec t c (valid_time_ok t Ht)) as [Hv ->].
    split; [exact Hv|]. change msPerDay with 86400000. lia.
  - intros y m d ms c Hv Hms Ht. cbv zeta.
    apply getYMDFromTime_unique; [assumption|assumption|lia].
Qed.

(** [monthFromTime] returns the month of every date but the first of
    February, and the second in leap years, whose search reads the table at
    index -1; on the first of February of a leap year it never returns
    February, and it does not terminate when the word there is 31 or more. *)
Theorem monthFromTime_characterised before fuel t y m d :
  time_ok t -> (5 <= fuel)%nat -> valid_date y m d ->
  daysToMs y m d <= t < daysToMs y m d + msPerDay ->
  (february_edge y m d = false -> monthFromTime before fuel t = Some m) /\
  (february_edge y m d = true ->
   (gregorian_leap y = true -> d = 1 ->
      forall fuel, monthFromTime before fuel t <> Some 1) /\
   (31 <= before -> forall fuel, monthFromTime before fuel t = None)).
Proof.
  intros Ht Hf Hv Hr. split; [apply monthFromTime_date; assumption|].
  unfold february_edge. intros He. to_prop. subst m.
  pose (c := TimeInfo 0 0 0 0 0 0 0 0 0 0).
  destruct (getYMDFromTime_unique t c y 1 d Ht Hv Hr) as (H1 & H2 & H3).
  destruct (getYMDFromTime_fields t c Ht) as (F1 & F2 & F3).
  rewrite H1 in F1. rewrite <- F1 in F2, F3. rewrite H2 in F2. rewrite <- F2, H3 in F3.
  assert (HD : t / msPerDay - daysFromYear y = 30 + d).
  { revert F3. destruct (gregorian_leap y); month_eval; lia. }
  assert (Hunf : forall fuel, monthFromTime before fuel t
    = monthSearch before fuel (30 + d - (if gregorian_leap y then 1 else 0)) 0 10).
  { intros. rewrite monthFromTime_unfold by exact Ht. cbv zeta. rewrite <- F1, HD.
    destruct Hv as (_ & _ & Hd). replace (30 + d <? 31) with false by lia. reflexivity. }
  assert (Hday : 30 + d - (if gregorian_leap y then 1 else 0) = 30 \/
                 30 + d - (if gregorian_leap y then 1 else 0) = 31).
  { apply orb_prop in H0 as [H0|H0]; to_prop; [|rewrite H0]; destruct (gregorian_leap y); lia. }
  split.
  - intros Hl -> fuel'. rewrite Hunf, Hl. change (30 + 1 - 1) with 30.
    intros Hx. pose proof (monthSearch_fuel _ _ _ _ _ _ Hx 3) as Hx'.
    rewrite Nat.add_comm, monthSearch_low in Hx' by auto.
    destruct (Z.ltb_spec before 30); [discriminate|].
    rewrite monthSearch_stuck in Hx' by auto. discriminate.
  - intros Hb fuel'. rewrite Hunf. apply monthSearch_loops; [exact Hday|lia].
Qed.

Lemma monthFromTime_characterised_witness :
  (valid_date 2024 1 1 /\ time_ok (daysToMs 2024 1 1)) /\
  forall fuel, monthFromTime 0 fuel (daysToMs 2024 1 1) <> Some 1.
Proof.
  assert (Hv : valid_date 2024 1 1).
  { repeat split; vm_compute; congruence. }
  assert (Ht : time_ok (daysToMs 2024 1 1)).
  { split; vm_compute; reflexivity. }
  split; [exact (conj Hv Ht)|].
  refine (proj1 (proj2 (monthFromTime_characterised 0 5 (daysToMs 2024 1 1) 2024 1 1
    Ht ltac:(lia) Hv _) eq_refl) eq_refl eq_refl).
  split; vm_compute; congruence.
Defined.

(** [hourFromTime], [minFromTime] and [msFromTime] are the digits of the
    time of day for all valid times, before and after the epoch, and
    [secFromTime] is for every time from 1901-12-13T20:45:52Z on. *)
Theorem timeOfDay_correct t :
  is_in_time_range t = true ->
  hourFromTime t = (t / msPerHour) mod 24 /\
  minFromTime t = (t / msPerMinute) mod 60 /\
  msFromTime t = t mod 1000 /\
  (- 2 ^ 31 * 1000 <= t -> secFromTime t = (t / msPerSecond) mod 60).
Proof.
  intros Ht. pose proof (valid_time_ok t Ht) as Hr. unfold time_ok in Hr.
  change msPerDay with 86400000 in Hr.
  repeat split.
  - apply split_floor_mod; [reflexivity|change hoursPerDay with 24; lia|lia].
  - apply split_floor_mod; [reflexivity|change minutesPerHour with 60; lia|lia].
  - apply msFromTime_value.
  - intros. apply secFromTime_recent. lia.
Qed.

Lemma timeOfDay_correct_witness :
  is_in_time_range (-1) = true /\ hourFromTime (-1) = 23.
Proof. split; [reflexivity|]. exact (proj1 (timeOfDay_correct (-1) eq_refl)). Defined.

(** Before 1901-12-13T20:45:52Z the cast in [secFromTime] truncates the
    seconds quotient to 32 bits, and the result need not even be below 60. *)
Theorem secFromTime_overflow :
  exists t, is_in_time_range t = true /\ secFromTime t <> (t / msPerSecond) mod 60 /\
    60 <= secFromTime t.
Proof. exists (-2147483649000). vm_compute. repeat split; congruence. Qed.

(** [daysFromTime] divides by [(double) msPerDay] and truncates; on every
    valid time value the rounding never reaches the next day, so the result is
    the floor of the exact quotient, and it fits an [int]. *)
Theorem daysFromTime_correct t :
  is_in_time_range t = true ->
  daysFromTime t = t / msPerDay /\ in_int32 (daysFromTime t).
Proof.
  intros Ht. pose proof (valid_time_ok t Ht) as Hr. unfold time_ok in Hr.
  rewrite daysFromTime_floor by (change msPerDay with 86400000 in *; lia).
  change msPerDay with 86400000 in *. unfold in_int32. lia.
Qed.

Lemma daysFromTime_correct_witness :
  is_in_time_range 8640000000000000 = true /\ daysFromTime 8640000000000000 = 100000000.
Proof.
  split; [reflexivity|].
  exact (proj1 (daysFromTime_correct 8640000000000000 eq_refl)).
Defined.
