(* ===== verification/DateCache.v ===== *)
(** * The [DateObject]: time value, cached local time, accessors

    [DateObject.cpp] keeps the time value and a broken-down local time that
    [resolveCache] recomputes when a flag says it is stale; the UTC accessors go
    through a second, shared [DateObject] ([cachedUTC] of the VM instance).

    The time zone comes from ICU, which is not part of the repository: it is the
    parameter [ucal], what [ucal_get] answers for [UCAL_ZONE_OFFSET] and
    [UCAL_DST_OFFSET] at a time, and whether the status signals a failure. *)

From S2P Require Import Prelude Float64 DateTime.
Local Open Scope Z_scope.

Record DateObject := {
  m_primitiveValue : Z;
  m_cachedLocal : timeinfo;
  m_isCacheDirty : bool }.

Definition zero_timeinfo : timeinfo := TimeInfo 0 0 0 0 0 0 0 0 0 0.

Definition newDateObject : DateObject :=
  {| m_primitiveValue := TIME64NAN; m_cachedLocal := zero_timeinfo;
     m_isCacheDirty := false |}.

Definition isValid (o : DateObject) : bool := is_valid_time (m_primitiveValue o).

Definition setTimeValueAsNaN (o : DateObject) : DateObject :=
  {| m_primitiveValue := TIME64NAN; m_cachedLocal := m_cachedLocal o;
     m_isCacheDirty := m_isCacheDirty o |}.

(** [setTimeValue(time64_t)]. *)
Definition setTimeValue (t : Z) (o : DateObject) : DateObject :=
  {| m_primitiveValue := t; m_cachedLocal := m_cachedLocal o;
     m_isCacheDirty := if is_valid_time t then true else m_isCacheDirty o |}.

(** ** Arithmetic of one day *)

Lemma day_split x :
  0 <= x < msPerDay ->
  x ÷ msPerHour * msPerHour + Z.rem (x ÷ msPerMinute) minutesPerHour * msPerMinute
  + Z.rem (x ÷ msPerSecond) secondsPerMinute * msPerSecond + Z.rem x msPerSecond = x /\
  0 <= x ÷ msPerHour < 24 /\ 0 <= Z.rem (x ÷ msPerMinute) minutesPerHour < 60 /\
  0 <= Z.rem (x ÷ msPerSecond) secondsPerMinute < 60 /\ 0 <= Z.rem x msPerSecond < 1000.
Proof.
  change msPerHour with 3600000. change msPerMinute with 60000.
  change msPerSecond with 1000. change minutesPerHour with 60.
  change secondsPerMinute with 60. change msPerDay with 86400000. intros. lia.
Qed.

(** The valid times and those within a day of them: what a [DateObject] can
    hold, the shared [cachedUTC] included. *)
Definition near_range (t : Z) : Prop :=
  - MaximumDatePrimitiveValue - msPerDay <= t <= MaximumDatePrimitiveValue + msPerDay.

Lemma in_range_near t : is_in_time_range t = true -> near_range t.
Proof.
  unfold is_in_time_range, near_range, MaximumDatePrimitiveValue.
  change msPerDay with 86400000. intros. to_prop. lia.
Qed.

Lemma in_range_plus_offset t x :
  near_range t -> - msPerDay < x < msPerDay -> time_ok (t + x).
Proof.
  unfold near_range, MaximumDatePrimitiveValue, time_ok.
  change msPerDay with 86400000. lia.
Qed.

Lemma in_range_sub t x :
  is_in_time_range t = true -> - msPerDay < x < msPerDay -> near_range (t - x).
Proof.
  unfold is_in_time_range, near_range, MaximumDatePrimitiveValue.
  change msPerDay with 86400000. intros. to_prop. lia.
Qed.

Lemma near_range_valid t : near_range t -> is_valid_time t = true.
Proof.
  unfold near_range, is_valid_time, MaximumDatePrimitiveValue, TIME64NAN.
  change msPerDay with 86400000. intros. apply negb_true_iff, Z.eqb_neq. lia.
Qed.
#[export] Hint Resolve in_range_near near_range_valid : esc.

Lemma day_recompose L : L / msPerDay * msPerDay + L mod msPerDay = L.
Proof. rewrite Z.mul_comm. symmetry. apply Z.div_mod. discriminate. Qed.

Lemma opp_mul x : -1 * x = - x.
Proof. lia. Qed.

Lemma day_remainder L : to_int32 (L - L / msPerDay * msPerDay) = L mod msPerDay.
Proof.
  rewrite to_int32_id; change msPerDay with 86400000; [lia|unfold in_int32; lia].
Qed.

Lemma weekday_floor d :
  (if 0 <=? Z.rem (d + 4) daysPerWeek then Z.rem (d + 4) daysPerWeek
   else Z.rem (d + 4) daysPerWeek + daysPerWeek) = (d + 4) mod 7.
Proof. change daysPerWeek with 7. case_if; to_prop; lia. Qed.

Section WithICU.
(** Zone offset, daylight-saving offset (milliseconds) and failure status. *)
Context (ucal : Z -> Z * Z * bool).

Definition zoneOffset (t : Z) : Z := fst (fst (ucal t)).
Definition dstOffset (t : Z) : Z := snd (fst (ucal t)).
Definition ucalFailure (t : Z) : bool := snd (ucal t).

Definition msBetweenYears (t : Z) : Z :=
  let realYear := yearFromTime t in
  let equivalentYear := equivalentYearForDST realYear in
  if negb (realYear =? equivalentYear)
  then timeFromYear equivalentYear - timeFromYear realYear else 0.

(** From a time that assumes UTC to the one that assumes local time. *)
Definition applyLocalTimezoneOffset (t : Z) : Z :=
  let stdOffset := zoneOffset t in
  if negb (is_in_time_range (t - stdOffset)) then TIME64NAN
  else
    let msBetween := msBetweenYears t in
    let t' := t + msBetween in
    let stdOffset := zoneOffset t' in
    let dstOffset := dstOffset t' in
    if negb (ucalFailure t || ucalFailure t') then t - (stdOffset + dstOffset)
    else TIME64NAN.

(** [setTimeValue(state, year, ..., convertToUTC)]. *)
Definition setTimeValueFields (year month date hour minute second millisecond : Z)
    (convertToUTC : bool) (o : DateObject) : DateObject :=
  let yearComputed := year + ffloor (fdiv month monthsPerYear) in
  let monthComputed := Z.rem month monthsPerYear in
  let monthComputed :=
    if monthComputed <? 0 then Z.rem (monthComputed + monthsPerYear) monthsPerYear
    else monthComputed in
  let primitiveValue :=
    timeinfoToMs yearComputed monthComputed date hour minute second millisecond in
  let primitiveValue :=
    if convertToUTC then applyLocalTimezoneOffset primitiveValue else primitiveValue in
  {| m_primitiveValue :=
       if is_valid_time primitiveValue && is_in_time_range primitiveValue
       then primitiveValue else TIME64NAN;
     m_cachedLocal := m_cachedLocal o;
     m_isCacheDirty := true |}.

(** The local offset [resolveCache] reads, at the equivalent year. *)
Definition localOffset (t : Z) : Z :=
  zoneOffset (t + msBetweenYears t) + dstOffset (t + msBetweenYears t).

Definition resolveCache (o : DateObject) : DateObject :=
  let t := m_primitiveValue o in
  let msBetween := msBetweenYears t in
  let t1 := t + msBetween in
  let stdOffset := zoneOffset t1 in
  let dstOffset := dstOffset t1 in
  let isdst := if dstOffset =? 0 then 0 else 1 in
  let gmtoff := (-1 * (stdOffset + dstOffset)) ÷ msPerMinute in
  let t2 := t1 + (stdOffset + dstOffset) - msBetween in
  let c := getYMDFromTime t2 (m_cachedLocal o) in
  let days := daysFromTime t2 in
  let timeInDay := to_int32 (t2 - days * msPerDay) in
  let weekday := Z.rem (days + 4) daysPerWeek in
  {| m_primitiveValue := m_primitiveValue o;
     m_cachedLocal :=
       {| year := year c; month := month c; mday := mday c;
          hour := timeInDay ÷ msPerHour;
          minute := Z.rem (timeInDay ÷ msPerMinute) minutesPerHour;
          sec := Z.rem (timeInDay ÷ msPerSecond) secondsPerMinute;
          millisec := Z.rem timeInDay msPerSecond;
          wday := if 0 <=? weekday then weekday else weekday + daysPerWeek;
          gmtoff := gmtoff; isdst := isdst |};
     m_isCacheDirty := false |}.

(** The macro [RESOLVECACHE]. *)
Definition RESOLVECACHE (o : DateObject) : DateObject :=
  if m_isCacheDirty o then resolveCache o else o.

(** [getDate], [getDay], ..., [getTimezoneOffset]: one accessor per field. *)
Definition getField (field : timeinfo -> Z) (o : DateObject) : Z * DateObject :=
  let o := RESOLVECACHE o in (field (m_cachedLocal o), o).

Definition getDate := getField mday.
Definition getDay := getField wday.
Definition getFullYear := getField year.
Definition getHours := getField hour.
Definition getMilliseconds := getField millisec.
Definition getMinutes := getField minute.
Definition getMonth := getField month.
Definition getSeconds := getField sec.
Definition getTimezoneOffset := getField gmtoff.

(** [DECLARE_DATE_UTC_GETTER]: the state is the object and the VM's shared
    [cachedUTC]. *)
Definition getUTC (get : DateObject -> Z * DateObject)
    (o cachedUTC : DateObject) : Z * (DateObject * DateObject) :=
  let '(off, o) := getTimezoneOffset o in
  let primitiveValueUTC := m_primitiveValue o + off * msPerMinute in
  let cachedUTC :=
    if negb (isValid cachedUTC)
       || negb (m_primitiveValue cachedUTC =? primitiveValueUTC)
    then
      let cachedUTC := setTimeValue primitiveValueUTC cachedUTC in
      let '(offUTC, cachedUTC) := getTimezoneOffset cachedUTC in
      if negb (offUTC =? off)
      then setTimeValue (m_primitiveValue o + offUTC * msPerMinute) cachedUTC
      else cachedUTC
    else cachedUTC in
  let '(v, cachedUTC) := get cachedUTC in
  (v, (o, cachedUTC)).

(** ** The cache invariant *)

(** What the fields of a fresh cache are, for a time value [t]. *)
Definition localFields (t : Z) (c : timeinfo) : Prop :=
  let L := t + localOffset t in
  valid_date (year c) (month c) (mday c) /\
  timeinfoToMs (year c) (month c) (mday c) (hour c) (minute c) (sec c) (millisec c) = L /\
  0 <= hour c < 24 /\ 0 <= minute c < 60 /\ 0 <= sec c < 60 /\ 0 <= millisec c < 1000 /\
  wday c = (L / msPerDay + 4) mod 7 /\
  gmtoff c = (- localOffset t) ÷ msPerMinute /\
  (isdst c = 0 \/ isdst c = 1).

Definition cache_ok (o : DateObject) : Prop :=
  isValid o = true -> m_isCacheDirty o = false ->
  localFields (m_primitiveValue o) (m_cachedLocal o).

(** ICU's documented contract: the zone offset is the raw offset from GMT and
    the daylight-saving offset a saving of hours; both are within a day. *)
Definition offsets_bounded : Prop :=
  forall t, - msPerDay < zoneOffset t + dstOffset t < msPerDay.
Context (Hucal : offsets_bounded).

Lemma local_time_ok t :
  near_range t -> time_ok (t + localOffset t).
Proof.
  intros Ht. unfold localOffset. apply in_range_plus_offset; [exact Ht|apply Hucal].
Qed.

Lemma resolveCache_fields o :
  near_range (m_primitiveValue o) ->
  localFields (m_primitiveValue o) (m_cachedLocal (resolveCache o)).
Proof.
  intros Hv. pose proof (local_time_ok _ Hv) as HL.
  unfold resolveCache. cbv zeta. cbn [m_cachedLocal].
  replace (m_primitiveValue o + msBetweenYears (m_primitiveValue o)
           + (zoneOffset (m_primitiveValue o + msBetweenYears (m_primitiveValue o))
              + dstOffset (m_primitiveValue o + msBetweenYears (m_primitiveValue o)))
           - msBetweenYears (m_primitiveValue o))
    with (m_primitiveValue o + localOffset (m_primitiveValue o))
    by (unfold localOffset; lia).
  unfold localFields. cbn [year month mday hour minute sec millisec wday gmtoff isdst].
  set (L := m_primitiveValue o + localOffset (m_primitiveValue o)) in *.
  destruct (getYMDFromTime_spec L (m_cachedLocal o) HL) as [Hvd Hms].
  assert (HD : daysFromTime L = L / msPerDay).
  { apply daysFromTime_floor. unfold time_ok in HL. change msPerDay with 86400000 in *. lia. }
  rewrite HD, (day_remainder L). unfold timeinfoToMs. rewrite Hms.
  destruct (day_split (L mod msPerDay)) as (Hsum & Hh & Hmi & Hse & Hmil);
    [apply Z.mod_pos_bound; reflexivity|].
  split; [exact Hvd|]. split; [|split; [exact Hh|split; [exact Hmi|split; [exact Hse|
    split; [exact Hmil|split; [apply weekday_floor|split]]]]]].
  - rewrite <- !Z.add_assoc. rewrite <- !Z.add_assoc in Hsum. rewrite Hsum.
    apply day_recompose.
  - rewrite opp_mul. reflexivity.
  - case_if; auto.
Qed.

(** The object invariant: the time value is NaN or in range, and a clean cache
    holds the broken-down local time of the value. *)
Definition date_inv (o : DateObject) : Prop :=
  (isValid o = true -> near_range (m_primitiveValue o)) /\ cache_ok o.

Lemma RESOLVECACHE_spec o :
  date_inv o -> isValid o = true ->
  m_primitiveValue (RESOLVECACHE o) = m_primitiveValue o /\
  date_inv (RESOLVECACHE o) /\ m_isCacheDirty (RESOLVECACHE o) = false /\
  localFields (m_primitiveValue o) (m_cachedLocal (RESOLVECACHE o)).
Proof.
  intros [Hr Hc] Hv. unfold RESOLVECACHE. destruct (m_isCacheDirty o) eqn:Hd.
  - assert (HF := resolveCache_fields o (Hr Hv)).
    split; [reflexivity|]. split; [split; [exact Hr|intros _ _; exact HF]|].
    split; [reflexivity|exact HF].
  - split; [reflexivity|]. split; [split; assumption|]. split; [exact Hd|].
    apply Hc; assumption.
Qed.

Lemma setTimeValue_inv t o :
  date_inv o -> (is_valid_time t = true -> near_range t) ->
  date_inv (setTimeValue t o) /\ m_primitiveValue (setTimeValue t o) = t.
Proof.
  intros [Hr Hc] Ht. unfold setTimeValue. split; [|reflexivity]. split; [exact Ht|].
  unfold cache_ok, isValid. cbn [m_primitiveValue m_isCacheDirty].
  intros Hv. rewrite Hv. discriminate.
Qed.

(** *** UTC accessors *)

(** Zones of the years ICU is asked for have whole-minute offsets. *)
Definition whole_minutes : Prop := forall t, exists k, localOffset t = k * msPerMinute.

(** The fields of a time in UTC. *)
Definition utcFields (t : Z) (c : timeinfo) : Prop :=
  valid_date (year c) (month c) (mday c) /\
  timeinfoToMs (year c) (month c) (mday c) (hour c) (minute c) (sec c) (millisec c) = t /\
  0 <= hour c < 24 /\ 0 <= minute c < 60 /\ 0 <= sec c < 60 /\ 0 <= millisec c < 1000 /\
  wday c = (t / msPerDay + 4) mod 7.

Lemma gmtoff_whole t c :
  whole_minutes -> localFields t c -> gmtoff c * msPerMinute = - localOffset t.
Proof.
  intros Hw (_ & _ & _ & _ & _ & _ & _ & Hg & _). destruct (Hw t) as [k Hk].
  rewrite Hg, Hk. rewrite <- Z.mul_opp_l, Z.quot_mul by discriminate. reflexivity.
Qed.

Lemma localFields_utc u t c :
  localFields u c -> u + localOffset u = t -> utcFields t c.
Proof.
  intros (H1 & H2 & H3 & H4 & H5 & H6 & H7 & _) <-.
  exact (conj H1 (conj H2 (conj H3 (conj H4 (conj H5 (conj H6 H7)))))).
Qed.

Lemma near_range_sub_offset t u :
  is_in_time_range t = true -> near_range (t - localOffset u).
Proof.
  intros Ht. apply in_range_sub; [exact Ht|]. apply Hucal.
Qed.

(** No transition between [t] and the time shifted by its offset, where the
    accessor asks for the offset again. *)
Definition offset_settles (t : Z) : Prop :=
  localOffset (t - localOffset t) = localOffset t.

(** The positioning step of the macro. *)
Definition position (t off : Z) (c : DateObject) : DateObject :=
  if negb (isValid c) || negb (m_primitiveValue c =? t + off * msPerMinute)
  then
    let c := setTimeValue (t + off * msPerMinute) c in
    let '(offUTC, c) := getTimezoneOffset c in
    if negb (offUTC =? off) then setTimeValue (t + offUTC * msPerMinute) c else c
  else c.

Lemma getUTC_unfold get o c :
  getUTC get o c =
  let '(off, o) := getTimezoneOffset o in
  let '(v, c) := get (position (m_primitiveValue o) off c) in (v, (o, c)).
Proof. reflexivity. Qed.

Lemma position_spec t off c :
  whole_minutes -> is_in_time_range t = true -> offset_settles t -> date_inv c ->
  off * msPerMinute = - localOffset t ->
  let c' := position t off c in
  date_inv c' /\ isValid c' = true /\ m_primitiveValue c' = t - localOffset t.
Proof.
  intros Hw Ht Hs Hc Hoff. unfold position. rewrite Hoff.
  replace (t + - localOffset t) with (t - localOffset t) by lia.
  pose proof (near_range_sub_offset t t Ht) as Hn. cbv zeta.
  destruct (negb (isValid c) || negb (m_primitiveValue c =? t - localOffset t)) eqn:Hcase.
  - destruct (setTimeValue_inv (t - localOffset t) c Hc (fun _ => Hn)) as [Hi Hp].
    destruct (RESOLVECACHE_spec (setTimeValue (t - localOffset t) c) Hi) as (R1 & R2 & _ & R4).
    { unfold isValid. rewrite Hp. auto with esc. }
    unfold getTimezoneOffset, getField.
    pose proof (gmtoff_whole _ _ Hw R4) as Hg. rewrite Hp, Hs, <- Hoff in Hg.
    apply Z.mul_cancel_r in Hg; [|discriminate]. rewrite Hg, Z.eqb_refl. cbn [negb].
    split; [exact R2|]. unfold isValid. rewrite R1, Hp. split; [auto with esc|reflexivity].
  - to_prop. split; [exact Hc|]. split; [assumption|assumption].
Qed.

Lemma getUTC_spec o c field :
  date_inv o -> date_inv c -> is_in_time_range (m_primitiveValue o) = true ->
  whole_minutes -> offset_settles (m_primitiveValue o) ->
  let '(v, (o', c')) := getUTC (getField field) o c in
  utcFields (m_primitiveValue o) (m_cachedLocal c') /\ v = field (m_cachedLocal c') /\
  m_primitiveValue o' = m_primitiveValue o /\ date_inv o' /\ date_inv c'.
Proof.
  intros Ho Hc Ht Hw Hs. rewrite getUTC_unfold. unfold getTimezoneOffset at 1.
  unfold getField at 1.
  assert (Hv : isValid o = true) by (unfold isValid; auto with esc).
  destruct (RESOLVECACHE_spec o Ho Hv) as (R1 & R2 & _ & R4). rewrite R1.
  pose proof (gmtoff_whole _ _ Hw R4) as Hg.
  destruct (position_spec _ _ c Hw Ht Hs Hc Hg) as (P1 & P2 & P3).
  set (c1 := position _ _ c) in *. unfold getField.
  destruct (RESOLVECACHE_spec c1 P1 P2) as (Q1 & Q2 & _ & Q4).
  split; [|auto]. apply (localFields_utc _ _ _ Q4). rewrite P3, Hs. lia.
Qed.

(** The fields of a time in UTC are unique. *)
Lemma utcFields_unique t c c' :
  time_ok t -> utcFields t c -> utcFields t c' ->
  year c = year c' /\ month c = month c' /\ mday c = mday c' /\ hour c = hour c' /\
  minute c = minute c' /\ sec c = sec c' /\ millisec c = millisec c'.
Proof.
  assert (Hday : forall i, utcFields t i ->
    let r := hour i * msPerHour + minute i * msPerMinute + sec i * msPerSecond + millisec i in
    t = daysToMs (year i) (month i) (mday i) + r /\ 0 <= r < msPerDay).
  { intros i (_ & Ht & Hb). unfold timeinfoToMs in Ht.
    change msPerHour with 3600000 in *. change msPerMinute with 60000 in *.
    change msPerSecond with 1000 in *. change msPerDay with 86400000. lia. }
  intros Hok Hc Hc'. destruct (Hday c Hc) as [H1 H2]. destruct (Hday c' Hc') as [H1' H2'].
  destruct Hc as (Hv & _ & Hb). destruct Hc' as (Hv' & _ & Hb').
  destruct (getYMDFromTime_unique t zero_timeinfo _ _ _ Hok Hv ltac:(lia)) as (Y & Mo & D).
  destruct (getYMDFromTime_unique t zero_timeinfo _ _ _ Hok Hv' ltac:(lia)) as (Y' & Mo' & D').
  rewrite <- Y, <- Mo, <- D, <- Y', <- Mo', <- D' in *.
  change msPerHour with 3600000 in *. change msPerMinute with 60000 in *.
  change msPerSecond with 1000 in *. change msPerDay with 86400000 in *.
  set (b := daysToMs _ _ _) in *. clearbody b. clear Y Mo D Y' Mo' D' Hv Hv'. lia.
Qed.

(** *** Properties *)

(** On an object in the invariant with a valid time, every accessor leaves
    the time value alone, keeps the invariant, and answers from the broken-down
    local time of the value at ICU's offset, whether the cache was stale or not;
    the two setters establish the invariant. *)
Theorem accessors_local o field t fields convert :
  date_inv o -> isValid o = true ->
  (let '(v, o') := getField field o in
   m_primitiveValue o' = m_primitiveValue o /\ date_inv o' /\
   localFields (m_primitiveValue o) (m_cachedLocal o') /\ v = field (m_cachedLocal o')) /\
  (near_range t -> date_inv (setTimeValue t o)) /\
  (let '(y, mo, d, (h, mi, s, ms)) := fields in
   date_inv (setTimeValueFields y mo d h mi s ms convert o)).
Proof.
  intros Hi Hv. split; [|split].
  - unfold getField. destruct (RESOLVECACHE_spec o Hi Hv) as (R1 & R2 & _ & R4). auto.
  - intros Ht. apply (setTimeValue_inv t o Hi (fun _ => Ht)).
  - destruct fields as [[[y mo] d] [[[h mi] s] ms]].
    unfold setTimeValueFields. cbv zeta. split; [|intros _ Hd; discriminate].
    unfold isValid. cbn [m_primitiveValue].
    case_if; [intros _; to_prop; auto with esc|discriminate].
Qed.

(** When zone offsets are whole minutes and no transition lies between the
    time and the time shifted by its offset, a UTC accessor answers with the
    field of the time in UTC, whatever the shared [cachedUTC] held before, and
    leaves both objects in the invariant. *)
Theorem getUTC_fields o c field :
  date_inv o -> date_inv c -> is_in_time_range (m_primitiveValue o) = true ->
  whole_minutes -> offset_settles (m_primitiveValue o) ->
  let '(v, (o', c')) := getUTC (getField field) o c in
  utcFields (m_primitiveValue o) (m_cachedLocal c') /\ v = field (m_cachedLocal c') /\
  m_primitiveValue o' = m_primitiveValue o /\ date_inv o' /\ date_inv c'.
Proof.
  apply getUTC_spec.
Qed.
End WithICU.

(** ** Witnesses and a counterexample *)

(** A zone one hour east of Greenwich all year. *)
Definition cet (t : Z) : Z * Z * bool := (3600000, 0, false).

Lemma cet_bounded : offsets_bounded cet.
Proof. intros t. split; reflexivity. Qed.

Lemma newDateObject_inv ucal : date_inv ucal newDateObject.
Proof. split; [discriminate|]. intros H; discriminate. Qed.

Lemma dateObject_inv ucal t :
  near_range t -> date_inv ucal (setTimeValue t newDateObject).
Proof.
  intros Ht. split; [intros _; exact Ht|].
  intros Hv Hd. unfold isValid, setTimeValue in *. cbn in *. rewrite Hv in Hd. discriminate.
Qed.

Lemma accessors_local_witness :
  date_inv cet (setTimeValue 0 newDateObject) /\ fst (getHours cet (setTimeValue 0 newDateObject)) = 1 /\
  date_inv cet (setTimeValueFields cet 2024 1 29 0 0 0 0 true (setTimeValue 0 newDateObject)).
Proof.
  assert (H : date_inv cet (setTimeValue 0 newDateObject)).
  { apply dateObject_inv. split; vm_compute; congruence. }
  split; [exact H|]. split; [vm_compute; reflexivity|].
  exact (proj2 (proj2 (accessors_local cet cet_bounded (setTimeValue 0 newDateObject) hour 0
    (2024, 1, 29, (0, 0, 0, 0)) true H eq_refl))).
Defined.

Lemma getUTC_fields_witness :
  (offsets_bounded cet /\ whole_minutes cet /\ offset_settles cet 0) /\
  fst (getUTC cet (getField cet hour) (setTimeValue 0 newDateObject) newDateObject) = 0 /\
  utcFields 0 (m_cachedLocal (snd (snd
    (getUTC cet (getField cet hour) (setTimeValue 0 newDateObject) newDateObject)))).
Proof.
  assert (Hw : whole_minutes cet) by (intros t; exists 60; reflexivity).
  assert (H : date_inv cet (setTimeValue 0 newDateObject)).
  { apply dateObject_inv. split; vm_compute; congruence. }
  split; [split; [exact cet_bounded|split; [exact Hw|reflexivity]]|].
  split; [vm_compute; reflexivity|].
  exact (proj1 (getUTC_fields cet cet_bounded (setTimeValue 0 newDateObject) newDateObject
    hour H (newDateObject_inv cet) eq_refl Hw eq_refl)).
Defined.

(** A zone on Greenwich time that moves one hour ahead at 2024-03-31T01:00:00Z. *)
Definition london (t : Z) : Z * Z * bool :=
  (0, if 1711846800000 <=? t then 3600000 else 0, false).

(** In such a zone the UTC accessor is an hour off during the hour after
    the transition: it retries with the offset read before the transition and
    does not look at the offset again.  At 2024-03-31T01:30:00Z [getUTCHours]
    answers 2. *)
Theorem getUTC_after_transition :
  offsets_bounded london /\ whole_minutes london /\
  exists t, is_in_time_range t = true /\ (t / msPerHour) mod 24 = 1 /\
    fst (getUTC london (getHours london) (setTimeValue t newDateObject) newDateObject) = 2.
Proof.
  split; [|split].
  - intros t. unfold zoneOffset, dstOffset, london. cbn [fst snd].
    case_if; split; reflexivity.
  - intros t. unfold localOffset, zoneOffset, dstOffset, london. cbn [fst snd].
    case_if; [exists 60|exists 0]; reflexivity.
  - exists 1711848600000. vm_compute. repeat split.
Qed.
