(* ===== verification/DateText.v ===== *)
(** * Printing and parsing dates ([DateObject.cpp])

    A C string is the list of its bytes before the terminating NUL; a pointer
    into it is the rest of the list, and [*p] of the end is 0.  Bytes are in
    [0 .. 255].  [strtol], [strncasecmp], [isspace] and [printf]'s [%0nd] are
    those of the C library, with a 64-bit [long]. *)

From Stdlib Require Import String Ascii.
From S2P Require Import Prelude Float64 DateTime DateCache.
Local Open Scope Z_scope.

(** [*p]. *)
Definition deref (p : list Z) : Z := hd 0 p.
Definition at_end (p : list Z) : bool := match p with [] => true | _ => false end.
(** [q - p] for a pointer [q] further in the same string. *)
Definition distance (p q : list Z) : Z := Z.of_nat (length p) - Z.of_nat (length q).

Definition isASCIIDigit (c : Z) : bool := (48 <=? c) && (c <=? 57).
Definition isASCIISpace (c : Z) : bool := (c =? 32) || ((c <=? 13) && (9 <=? c)).
(** C's [isspace] in the C locale. *)
Definition isspace (c : Z) : bool := (c =? 32) || ((9 <=? c) && (c <=? 13)).

(** ** [strtol] in base 10 *)

Fixpoint skip_isspace (p : list Z) : list Z :=
  match p with
  | c :: p' => if isspace c then skip_isspace p' else p
  | [] => []
  end.

Fixpoint digit_run (acc : Z) (p : list Z) : Z * list Z :=
  match p with
  | c :: p' => if isASCIIDigit c then digit_run (10 * acc + (c - 48)) p' else (acc, p)
  | [] => (acc, [])
  end.

Definition LONG_MAX : Z := 2 ^ 63 - 1.
Definition LONG_MIN : Z := - 2 ^ 63.

(** The value, saturated, and the end pointer ([p] itself when no digit). *)
Definition strtol (p : list Z) : Z * list Z :=
  let q := skip_isspace p in
  let '(neg, q) :=
    match q with
    | c :: q' => if c =? 45 then (true, q') else if c =? 43 then (false, q') else (false, q)
    | [] => (false, [])
    end in
  if isASCIIDigit (deref q) then
    let '(v, r) := digit_run 0 q in
    (Z.max LONG_MIN (Z.min LONG_MAX (if neg then - v else v)), r)
  else (0, p).

(** [parseInt] and [parseLong] of the source ([None] is [false]). *)
Definition parseInt (p : list Z) : option (Z * list Z) :=
  let '(v, r) := strtol p in
  if (distance p r =? 0) || (v <=? - 2 ^ 31) || (2 ^ 31 - 1 <=? v) then None
  else Some (v, r).

Definition parseLong (p : list Z) : option (Z * list Z) :=
  let '(v, r) := strtol p in
  if (distance p r =? 0) || (v =? LONG_MIN) || (v =? LONG_MAX) then None else Some (v, r).

(** [parseLong] with [digits = 3]: the value of the first three bytes, the end
    pointer of the whole number. *)
Definition parseLong3 (p : list Z) : option (Z * list Z) :=
  let '(_, r) := strtol p in
  let '(v, _) := strtol (firstn 3 p) in
  if (distance p r =? 0) || (v =? LONG_MIN) || (v =? LONG_MAX) then None else Some (v, r).

(** ** ISO format: [parseStringToDate_2] *)

(** [parseES5DatePortion]: the rest, the year, the month and the day. *)
Definition parseES5DatePortion (currentPosition : list Z) : option (list Z * Z * Z * Z) :=
  match parseInt currentPosition with
  | None => None
  | Some (year, post) =>
    if negb (deref post =? 45) then Some (post, year, 1, 1)
    else
      let cur := tl post in
      if negb (isASCIIDigit (deref cur)) then None
      else match parseLong cur with
      | None => None
      | Some (month, post) =>
        if negb (distance cur post =? 2) then None
        else if negb (deref post =? 45) then Some (post, year, month, 1)
        else
          let cur := tl post in
          if negb (isASCIIDigit (deref cur)) then None
          else match parseLong cur with
          | None => None
          | Some (day, post) =>
            if negb (distance cur post =? 2) then None else Some (post, year, month, day)
          end
      end
  end.

(** The seconds and the optional fraction: milliseconds and the rest. *)
Definition parseES5Seconds (cur : list Z) : option (Z * list Z) :=
  if negb (isASCIIDigit (deref cur)) then None
  else match parseLong cur with
  | None => None
  | Some (intSeconds, post) =>
    if negb (distance cur post =? 2) then None
    else
      let milliSeconds := intSeconds * msPerSecond in
      if deref post =? 46 then
        let cur := tl post in
        if negb (isASCIIDigit (deref cur)) then None
        else match parseLong3 cur with
        | None => None
        | Some (fracSeconds, post) =>
          let numFracDigits := Z.min (distance cur post) 3 in
          Some (milliSeconds + fracSeconds * 10 ^ (3 - numFracDigits), post)
        end
      else Some (milliSeconds, post)
  end.

(** The time zone after the time: whether there is one, its offset in seconds. *)
Definition parseES5Zone (cur : list Z) : option (list Z * Z * bool) :=
  if deref cur =? 90 then Some (tl cur, 0, true)
  else if negb ((deref cur =? 45) || (deref cur =? 43)) then Some (cur, 0, false)
  else
    let tzNegative := deref cur =? 45 in
    let cur := tl cur in
    if negb (isASCIIDigit (deref cur)) then None
    else match parseLong cur with
    | None => None
    | Some (tzHours, post) =>
      let r :=
        if distance cur post =? 4 then
          Some (Z.abs (tzHours ÷ 100), Z.rem tzHours 100, post)
        else if distance cur post =? 2 then
          if negb (deref post =? 58) then None
          else
            let cur := tl post in
            if negb (isASCIIDigit (deref cur)) then None
            else match parseLong cur with
            | None => None
            | Some (tzMinutes, post) =>
              if negb (distance cur post =? 2) then None
              else Some (Z.abs tzHours, tzMinutes, post)
            end
        else None in
      match r with
      | None => None
      | Some (tzHoursAbs, tzMinutes, post) =>
        if 24 <? tzHoursAbs then None
        else if (tzMinutes <? 0) || (59 <? tzMinutes) then None
        else
          let timeZoneSeconds := 60 * (tzMinutes + 60 * tzHoursAbs) in
          Some (post, if tzNegative then - timeZoneSeconds else timeZoneSeconds, true)
      end
    end.

(** [parseES5TimePortion]: rest, hours, minutes, milliseconds, zone seconds, [haveTZ]. *)
Definition parseES5TimePortion (cur : list Z) : option (list Z * Z * Z * Z * Z * bool) :=
  if negb (isASCIIDigit (deref cur)) then None
  else match parseLong cur with
  | None => None
  | Some (hours, post) =>
    if negb (deref post =? 58) || negb (distance cur post =? 2) then None
    else
      let cur := tl post in
      if negb (isASCIIDigit (deref cur)) then None
      else match parseLong cur with
      | None => None
      | Some (minutes, post) =>
        if negb (distance cur post =? 2) then None
        else
          match (if deref post =? 58 then parseES5Seconds (tl post) else Some (0, post)) with
          | None => None
          | Some (milliSeconds, post) =>
            match parseES5Zone post with
            | None => None
            | Some (post, timeZoneSeconds, haveTZ) =>
              Some (post, hours, minutes, milliSeconds, timeZoneSeconds, haveTZ)
            end
          end
      end
  end.

Definition daysPerMonth : list Z := [31; 29; 31; 30; 31; 30; 31; 31; 30; 31; 30; 31].

(** The checks and the sum at the end of [parseStringToDate_2]. *)
Definition checkES5Fields (year month day hours minutes milliSeconds timeZoneSeconds : Z) : Z :=
  if (month <? 1) || (12 <? month) then TIME64NAN
  else if (day <? 1) || (nth (Z.to_nat (month - 1)) daysPerMonth 0 <? day) then TIME64NAN
  else if (month =? 2) && (28 <? day) && negb (daysInYear year =? 366) then TIME64NAN
  else if (hours <? 0) || (24 <? hours) then TIME64NAN
  else if (hours =? 24) && (negb (minutes =? 0) || negb (milliSeconds =? 0)) then TIME64NAN
  else if (minutes <? 0) || (59 <? minutes) then TIME64NAN
  else if (milliSeconds <? 0) || (msPerMinute + msPerSecond <=? milliSeconds) then TIME64NAN
  else
    let milliSeconds := if msPerMinute <? milliSeconds then msPerMinute else milliSeconds in
    timeinfoToMs year (month - 1) day hours minutes
      (milliSeconds ÷ msPerSecond) (Z.rem milliSeconds msPerSecond)
    - timeZoneSeconds * msPerSecond.

(** The time value and [haveTZ]. *)
Definition parseStringToDate_2 (dateString : list Z) : Z * bool :=
  match parseES5DatePortion dateString with
  | None => (TIME64NAN, true)
  | Some (cur, year, month, day) =>
    let time :=
      if deref cur =? 84 then parseES5TimePortion (tl cur)
      else Some (cur, 0, 0, 0, 0, true) in
    match time with
    | None => (TIME64NAN, false)
    | Some (cur, hours, minutes, milliSeconds, timeZoneSeconds, haveTZ) =>
      if negb (at_end (skip_isspace cur)) then (TIME64NAN, haveTZ)
      else (checkES5Fields year month day hours minutes milliSeconds timeZoneSeconds, haveTZ)
    end
  end.

(** ** The legacy parser: [parseStringToDate_1] *)

Fixpoint skipComments (nesting : Z) (s : list Z) : list Z :=
  match s with
  | [] => []
  | ch :: s' =>
    if negb (isASCIISpace ch) then
      if ch =? 40 then skipComments (nesting + 1) s'
      else if (ch =? 41) && (0 <? nesting) then skipComments (nesting - 1) s'
      else if nesting =? 0 then s
      else skipComments nesting s'
    else skipComments nesting s'
  end.
Definition skipSpacesAndComments (s : list Z) : list Z := skipComments 0 s.

Definition haystack : list Z := bytes "janfebmaraprmayjunjulaugsepoctnovdec".

Fixpoint is_prefix (needle s : list Z) : bool :=
  match needle, s with
  | [], _ => true
  | a :: needle, b :: s => (a =? b) && is_prefix needle s
  | _ :: _, [] => false
  end.

(** [strstr]: the offset of the first occurrence. *)
Fixpoint strstr (pos : Z) (s needle : list Z) : option Z :=
  if is_prefix needle s then Some pos
  else match s with [] => None | _ :: s => strstr (pos + 1) s needle end.

(** 0-11 (Jan-Dec); -1 on failure. *)
Definition findMonth (monthStr : list Z) : Z :=
  match monthStr with
  | a :: b :: c :: _ =>
    let needle := [Z.lor a 32; Z.lor b 32; Z.lor c 32] in
    match strstr 0 haystack needle with
    | Some position => if Z.rem position 3 =? 0 then position ÷ 3 else -1
    | None => -1
    end
  | _ => -1
  end.

Definition tolower (c : Z) : Z := if (65 <=? c) && (c <=? 90) then c + 32 else c.

(** [strncasecmp(s, word, strlen(word)) == 0]. *)
Fixpoint has_word (word s : list Z) : bool :=
  match word, s with
  | [], _ => true
  | a :: word, b :: s => (tolower a =? tolower b) && has_word word s
  | _ :: _, [] => false
  end.

Definition known_zones : list (list Z * Z) :=
  [ (bytes "UT", 0); (bytes "GMT", 0); (bytes "EST", -300); (bytes "EDT", -240);
    (bytes "CST", -360); (bytes "CDT", -300); (bytes "MST", -420);
    (bytes "MDT", -360); (bytes "PST", -480); (bytes "PDT", -420) ].

(** The loop over the words before the first number: the position, the start of
    the last word, the month.  Each round moves [dateString] on. *)
Fixpoint leadingWords (fuel : nat) (dateString wordStart : list Z) (month : Z)
    : option (list Z * list Z * Z) :=
  match fuel with
  | O => None
  | S fuel =>
    if at_end dateString || isASCIIDigit (deref dateString)
    then Some (dateString, wordStart, month)
    else if isASCIISpace (deref dateString) || (deref dateString =? 40) then
      let month :=
        if 3 <=? distance wordStart dateString then findMonth wordStart else month in
      let dateString := skipSpacesAndComments dateString in
      leadingWords fuel dateString dateString month
    else leadingWords fuel (tl dateString) wordStart month
  end.

Fixpoint skipMonthName (s : list Z) : list Z :=
  match s with
  | c :: s' =>
    if (c =? 45) || (c =? 44) || isASCIISpace c then s else skipMonthName s'
  | [] => []
  end.

Local Notation "'require' b 'in' k" := (if b then k else None)
  (at level 10, b at level 100, k at level 200).
Local Notation "'let?' p := m 'in' k" := (match m with Some p => k | None => None end)
  (at level 10, p pattern, m at level 100, k at level 200).

(** [parseStringToDate_1_1]: day, month, year, [dateString], [newPosStr]. *)
Definition parse_1_1_date (day month year : Z) (dateString newPosStr : list Z)
    : option (Z * Z * Z * list Z * list Z) :=
  if 31 <? day then
    require deref dateString =? 47 in
    let dateString := tl dateString in
    require negb (at_end dateString) in
    require negb ((day <=? - 2 ^ 31) || (2 ^ 31 - 1 <=? day)) in
    let year := day in
    let? (month, newPosStr) := parseLong dateString in
    let month := month - 1 in
    let dateString := newPosStr in
    require (deref dateString =? 47) && negb (at_end (tl dateString)) in
    let? (day, newPosStr) := parseLong (tl dateString) in
    Some (day, month, year, newPosStr, newPosStr)
  else if (deref dateString =? 47) && (month =? -1) then
    let month := day - 1 in
    let? (day, newPosStr) := parseLong (tl dateString) in
    require negb ((day <? 1) || (31 <? day)) in
    let dateString := if deref newPosStr =? 47 then tl newPosStr else newPosStr in
    require negb (at_end dateString) in
    Some (day, month, year, dateString, newPosStr)
  else
    let dateString := if deref dateString =? 45 then tl dateString else dateString in
    let dateString := skipSpacesAndComments dateString in
    let dateString := if deref dateString =? 44 then tl dateString else dateString in
    if month =? -1 then
      let month := findMonth dateString in
      require negb (month =? -1) in
      let dateString := skipMonthName dateString in
      require negb (at_end dateString) in
      let c := deref dateString in
      require (c =? 45) || (c =? 47) || (c =? 44) || isASCIISpace c in
      Some (day, month, year, tl dateString, newPosStr)
    else Some (day, month, year, dateString, newPosStr).

Definition parseStringToDate_1_1 (day month year : Z) (dateString newPosStr : list Z)
    : option (Z * Z * Z * list Z * list Z) :=
  let? (day, month, year, dateString, newPosStr) :=
    parse_1_1_date day month year dateString newPosStr in
  require negb ((month <? 0) || (11 <? month)) in
  if (year <=? 0) && negb (at_end dateString) then
    let? (year, newPosStr) := parseInt dateString in
    Some (day, month, year, dateString, newPosStr)
  else Some (day, month, year, dateString, newPosStr).

(** The AM or PM mark after the time. *)
Definition parseAMPM (hour : Z) (dateString : list Z) : option (Z * list Z) :=
  let dateString := skipSpacesAndComments dateString in
  if has_word (bytes "AM") dateString then
    require hour <=? 12 in
    Some (if hour =? 12 then 0 else hour, skipSpacesAndComments (skipn 2 dateString))
  else if has_word (bytes "PM") dateString then
    require hour <=? 12 in
    Some (if negb (hour =? 12) then hour + 12 else hour,
          skipSpacesAndComments (skipn 2 dateString))
  else Some (hour, dateString).

(** [:12:40] after the hour: minute, second and the rest. *)
Definition parseMinutes (dateString : list Z) : option (Z * Z * list Z) :=
  require negb (at_end dateString) in
  require deref dateString =? 58 in
  let? (minute, dateString) := parseLong (tl dateString) in
  require negb ((minute <? 0) || (59 <? minute)) in
  require at_end dateString || (deref dateString =? 58) || isASCIISpace (deref dateString) in
  if deref dateString =? 58 then
    let? (second, dateString) := parseLong (tl dateString) in
    require negb ((second <? 0) || (59 <? second)) in
    Some (minute, second, dateString)
  else Some (minute, 0, dateString).

(** [parseStringToDate_1_2]: year, hour, minute, second, [dateString]. *)
Definition parseStringToDate_1_2 (year : Z) (dateString newPosStr : list Z)
    : option (Z * Z * Z * Z * list Z) :=
  if at_end newPosStr then Some (year, 0, 0, 0, newPosStr)
  else
    let advanced := isASCIISpace (deref newPosStr) || (deref newPosStr =? 44) in
    require advanced || (deref newPosStr =? 58) in
    let year := if advanced then year else -1 in
    let dateString :=
      if advanced then skipSpacesAndComments (tl newPosStr) else dateString in
    let '(hour, newPosStr) := strtol dateString in
    if distance dateString newPosStr =? 0 then Some (year, hour, 0, 0, dateString)
    else
      require negb ((hour <? 0) || (23 <? hour)) in
      let? (minute, second, dateString) := parseMinutes newPosStr in
      let? (hour, dateString) := parseAMPM hour dateString in
      Some (year, hour, minute, second, dateString).

(** The zone: [haveTZ], the offset in minutes and the rest. *)
Definition parseZone (dateString : list Z) : option (bool * Z * list Z) :=
  if at_end dateString then Some (false, 0, dateString)
  else
    let gmt := has_word (bytes "GMT") dateString || has_word (bytes "UTC") dateString in
    let dateString := if gmt then skipn 3 dateString else dateString in
    if (deref dateString =? 43) || (deref dateString =? 45) then
      let? (o, dateString) := parseInt dateString in
      require negb ((o <? -9959) || (9959 <? o)) in
      let sgn := if o <? 0 then -1 else 1 in
      let o := Z.abs o in
      if negb (deref dateString =? 58) then
        Some (true,
              if 24 <=? o then (o ÷ 100 * 60 + Z.rem o 100) * sgn else o * 60 * sgn,
              dateString)
      else
        let? (o2, dateString) := parseInt (tl dateString) in
        Some (true, (o * 60 + o2) * sgn, dateString)
    else
      match List.find (fun z => has_word (fst z) dateString) known_zones with
      | Some (tzName, tzOffset) => Some (true, tzOffset, skipn (length tzName) dateString)
      | None => Some (gmt, 0, dateString)
      end.

(** [parseStringToDate_1_3]: year, [haveTZ], offset, [dateString]. *)
Definition parseStringToDate_1_3 (year : Z) (dateString : list Z)
    : option (Z * bool * Z * list Z) :=
  let? (year, dateString) :=
    (if isASCIIDigit (deref dateString) && (year =? -1) then
       let? (year, p) := parseInt dateString in Some (year, skipSpacesAndComments p)
     else Some (year, dateString)) in
  let? (haveTZ, offset, dateString) := parseZone dateString in
  let dateString := skipSpacesAndComments dateString in
  if negb (at_end dateString) && (year =? -1) then
    let? (year, p) := parseInt dateString in
    Some (year, haveTZ, offset, skipSpacesAndComments p)
  else Some (year, haveTZ, offset, dateString).

(** The whole legacy parser; [None] is [TIME64NAN]. *)
Definition parse_1 (str : list Z) : option (Z * bool * Z) :=
  let dateString := skipSpacesAndComments str in
  let? (dateString, wordStart, month) :=
    leadingWords (S (length dateString)) dateString str (-1) in
  let month :=
    if (month =? -1) && negb (distance wordStart dateString =? 0)
    then findMonth wordStart else month in
  let dateString := skipSpacesAndComments dateString in
  require negb (at_end dateString) in
  let? (day, newPosStr) := parseLong dateString in
  let dateString := newPosStr in
  require negb (at_end dateString) in
  require 0 <=? day in
  let? (day, month, year, dateString, newPosStr) :=
    parseStringToDate_1_1 day month 0 dateString newPosStr in
  let? (year, hour, minute, second, dateString) :=
    parseStringToDate_1_2 year dateString newPosStr in
  let? (year, haveTZ, offset, dateString) := parseStringToDate_1_3 year dateString in
  require at_end dateString in
  let year :=
    if (0 <=? year) && (year <? 100) then if year <? 50 then year + 2000 else year + 1900
    else year in
  Some (timeinfoToMs year month day hour minute second 0, haveTZ, offset).

(** Time value, [haveTZ] and offset. *)
Definition parseStringToDate_1 (str : list Z) : Z * bool * Z :=
  match parse_1 str with Some r => r | None => (TIME64NAN, false, 0) end.

(** [DateObject::parseStringToDate]. *)
Definition parseStringToDate (ucal : Z -> Z * Z * bool) (str : list Z) : Z :=
  let '(primitiveValue, haveTZ) := parseStringToDate_2 str in
  let primitiveValue :=
    if is_valid_time primitiveValue then
      if negb haveTZ then applyLocalTimezoneOffset ucal primitiveValue else primitiveValue
    else
      let '(primitiveValue, haveTZ, offset) := parseStringToDate_1 str in
      if is_valid_time primitiveValue then
        if negb haveTZ then applyLocalTimezoneOffset ucal primitiveValue
        else primitiveValue - offset * msPerMinute
      else primitiveValue in
  if is_valid_time primitiveValue && is_in_time_range primitiveValue
  then primitiveValue else TIME64NAN.

(** A year whose day count does not fit an [int] wraps: the string
    ["11761191-01-01"] names a day nine million years past the last valid one,
    and parses to a time in December 1969. *)
Theorem parse_year_wraps :
  let dateString := bytes "11761191-01-01" in
  parseInt dateString = Some (11761191, bytes "-01-01") /\
  MaximumDatePrimitiveValue < (11761191 - 1971) * 365 * msPerDay /\
  parseStringToDate cet dateString = -1728000000.
Proof. split; [reflexivity|]. split; vm_compute; reflexivity. Qed.
