(* ===== verification/DateFormat.v ===== *)
(** * Date strings ([toISOString], [toUTCString], [toDateString], [toTimeString])

    The formatters of [DateObject.cpp] and the round trip of the ISO form through
    [parseStringToDate]. *)

From Stdlib Require Import String.
From S2P Require Import Prelude Float64 DateTime DateCache DateText.
Local Open Scope Z_scope.

(** ** [printf]'s integer conversions *)

(** An [int] has at most ten digits. *)
Definition decimal (n : Z) : list Z := digits 10 n [].

Definition zero_pad (width : nat) (l : list Z) : list Z :=
  repeat 48 (width - length l) ++ l.

(** ["%0<width>d"] and ["%+0<width>d"]. *)
Definition fmt_0d (width : nat) (n : Z) : list Z :=
  if n <? 0 then 45 :: zero_pad (width - 1) (decimal (- n)) else zero_pad width (decimal n).
Definition fmt_plus_0d (width : nat) (n : Z) : list Z :=
  if n <? 0 then fmt_0d width n else 43 :: zero_pad (width - 1) (decimal n).

Definition days : list (list Z) := bytes <$> ["Sun"; "Mon"; "Tue"; "Wed"; "Thu"; "Fri"; "Sat"]%string.
Definition months : list (list Z) :=
  bytes <$> ["Jan"; "Feb"; "Mar"; "Apr"; "May"; "Jun";
             "Jul"; "Aug"; "Sep"; "Oct"; "Nov"; "Dec"]%string.
Definition dayName (d : Z) : list Z := nth (Z.to_nat d) days [].
Definition monthName (m : Z) : list Z := nth (Z.to_nat m) months [].
Definition invalidDate : list Z := bytes "Invalid Date".

(** ** The formatters *)

(** The state of a formatter is the object and the VM's [cachedUTC]. *)
Definition DM := M (DateObject * DateObject) unit.
Definition utcField (ucal : Z -> Z * Z * bool) (field : timeinfo -> Z) : DM Z :=
  fun '(o, c) => let '(v, oc) := getUTC ucal (getField ucal field) o c in (Ret v, oc).
Definition localField (ucal : Z -> Z * Z * bool) (field : timeinfo -> Z) : DM Z :=
  fun '(o, c) => let '(v, o) := getField ucal field o in (Ret v, (o, c)).

Local Open Scope esc_scope.

(** [None] is the [RangeError] thrown for an invalid date. *)
Definition toISOString (ucal : Z -> Z * Z * bool) : DM (option (list Z)) :=
  let! '(o, _) := get in
  if isValid o then
    let! y := utcField ucal year in
    let! mo := utcField ucal month in
    let! d := utcField ucal mday in
    let! h := utcField ucal hour in
    let! mi := utcField ucal minute in
    let! s := utcField ucal sec in
    let! ms := utcField ucal millisec in
    ret (Some (
      (if (0 <=? y) && (y <=? 9999) then fmt_0d 4 y else fmt_plus_0d 7 y)
      ++ 45 :: fmt_0d 2 (mo + 1) ++ 45 :: fmt_0d 2 d ++ 84 :: fmt_0d 2 h
      ++ 58 :: fmt_0d 2 mi ++ 58 :: fmt_0d 2 s ++ 46 :: fmt_0d 3 ms ++ [90]))
  else ret None.

Definition toUTCString (ucal : Z -> Z * Z * bool) : DM (list Z) :=
  let! '(o, _) := get in
  if isValid o then
    let! y := utcField ucal year in
    let! w := utcField ucal wday in
    let! d := utcField ucal mday in
    let! mo := utcField ucal month in
    let! h := utcField ucal hour in
    let! mi := utcField ucal minute in
    let! s := utcField ucal sec in
    ret (dayName w ++ bytes ", " ++ fmt_0d 2 d ++ 32 :: monthName mo ++ 32 ::
         (if y <? 0 then fmt_0d 5 y else fmt_0d 4 y) ++ 32 :: fmt_0d 2 h ++ 58 ::
         fmt_0d 2 mi ++ 58 :: fmt_0d 2 s ++ bytes " GMT")
  else ret invalidDate.

(** [RESOLVECACHE] runs before the validity test, as in the source. *)
Definition toDateString (ucal : Z -> Z * Z * bool) : DM (list Z) :=
  do! modify (fun '(o, c) => (RESOLVECACHE ucal o, c)) in
  let! '(o, _) := get in
  if isValid o then
    let! y := localField ucal year in
    let! w := localField ucal wday in
    let! mo := localField ucal month in
    let! d := localField ucal mday in
    ret (dayName w ++ 32 :: monthName mo ++ 32 :: fmt_0d 2 d ++ 32 ::
         (if y <? 0 then fmt_0d 5 y else fmt_0d 4 y))
  else ret invalidDate.

(** ** Numbers: printing and [strtol] *)

Definition digit_value (acc : Z) (l : list Z) : Z :=
  fold_left (fun a c => 10 * a + (c - 48)) l acc.

Definition all_digits (l : list Z) : Prop := Forall (fun c => isASCIIDigit c = true) l.

Definition no_digit_first (p : list Z) : Prop := isASCIIDigit (deref p) = false.

Lemma digit_run_app acc l rest :
  all_digits l -> no_digit_first rest ->
  digit_run acc (l ++ rest) = (digit_value acc l, rest).
Proof.
  intros Hl Hr. revert acc. induction Hl as [|c l Hc Hl IH]; intros acc.
  - destruct rest as [|c rest]; [reflexivity|]. cbn. unfold no_digit_first in Hr.
    cbn in Hr. rewrite Hr. reflexivity.
  - cbn [app digit_run]. rewrite Hc. apply IH.
Qed.

Lemma digit_char d : 0 <= d < 10 -> isASCIIDigit (48 + d) = true.
Proof. unfold isASCIIDigit. intros. apply andb_true_intro. lia. Qed.

Lemma digits_all fuel n acc :
  0 <= n -> all_digits acc -> all_digits (digits fuel n acc).
Proof.
  revert n acc. induction fuel as [|fuel IH]; intros n acc Hn Ha; [exact Ha|].
  cbn [digits]. case_if; to_prop.
  - constructor; [apply digit_char; lia|exact Ha].
  - apply IH; [lia|]. constructor; [apply digit_char; lia|exact Ha].
Qed.

Lemma digits_value fuel n acc :
  0 <= n < 10 ^ Z.of_nat fuel -> digit_value 0 (digits fuel n acc) = digit_value n acc.
Proof.
  revert n acc. induction fuel as [|fuel IH]; intros n acc Hn.
  - cbn in Hn. replace n with 0 by lia. reflexivity.
  - cbn [digits]. case_if; to_prop.
    + unfold digit_value. cbn [fold_left]. replace (10 * 0 + (48 + n - 48)) with n by lia.
      reflexivity.
    + rewrite Nat2Z.inj_succ, Z.pow_succ_r in Hn by lia. rewrite IH by lia.
      unfold digit_value. cbn [fold_left].
      replace (10 * (n / 10) + (48 + n mod 10 - 48)) with n by lia. reflexivity.
Qed.

Lemma digits_length fuel n acc :
  (0 < fuel)%nat -> (length acc < length (digits fuel n acc))%nat.
Proof.
  revert n acc. induction fuel as [|fuel IH]; intros n acc Hf; [lia|].
  cbn [digits]. case_if; [cbn; lia|].
  destruct fuel; [cbn; lia|]. specialize (IH (n / 10) ((48 + n mod 10) :: acc) ltac:(lia)).
  cbn [length] in IH. lia.
Qed.

Lemma zero_pad_digits w l : all_digits l -> all_digits (zero_pad w l).
Proof.
  intros Hl. apply Forall_app. split; [|exact Hl].
  induction (w - length l)%nat; constructor; auto.
Qed.

Lemma zero_pad_value w l : digit_value 0 (zero_pad w l) = digit_value 0 l.
Proof.
  unfold zero_pad, digit_value. rewrite fold_left_app. f_equal.
  induction (w - length l)%nat as [|k IH]; [reflexivity|exact IH].
Qed.

Lemma decimal_spec w n :
  0 <= n < 10 ^ 10 ->
  all_digits (zero_pad w (decimal n)) /\ digit_value 0 (zero_pad w (decimal n)) = n /\
  exists c l, zero_pad w (decimal n) = c :: l.
Proof.
  intros Hn. split; [|split].
  - apply zero_pad_digits, digits_all; [lia|constructor].
  - rewrite zero_pad_value. apply digits_value. exact Hn.
  - pose proof (digits_length 10 n [] ltac:(lia)) as Hl. unfold zero_pad, decimal.
    destruct (w - length _)%nat; cbn [repeat app]; [|eauto].
    destruct (digits 10 n []); [cbn in Hl; lia|eauto].
Qed.

Lemma isspace_digit c : isASCIIDigit c = true -> isspace c = false.
Proof. unfold isASCIIDigit, isspace. intros. to_prop. lia. Qed.

(** [strtol] reads back an unsigned or signed decimal. *)
Lemma strtol_digits w n rest :
  0 <= n < 10 ^ 10 -> no_digit_first rest ->
  strtol (zero_pad w (decimal n) ++ rest) = (n, rest).
Proof.
  intros Hn Hr. destruct (decimal_spec w n Hn) as (Hd & Hv & c & l & Hl).
  unfold strtol. rewrite Hl in *. cbn [app skip_isspace].
  pose proof (Forall_inv Hd) as Hc. cbn beta in Hc.
  rewrite (isspace_digit c Hc).
  replace (c =? 45) with false by (unfold isASCIIDigit in Hc; to_prop; lia).
  replace (c =? 43) with false by (unfold isASCIIDigit in Hc; to_prop; lia).
  cbn [deref hd]. rewrite Hc. change (c :: l ++ rest) with ((c :: l) ++ rest).
  rewrite digit_run_app by assumption. rewrite Hv. f_equal.
  unfold LONG_MIN, LONG_MAX. lia.
Qed.

Lemma strtol_signed sign w n rest :
  sign = 43 \/ sign = 45 -> 0 <= n < 10 ^ 10 -> no_digit_first rest ->
  strtol (sign :: zero_pad w (decimal n) ++ rest)
  = (if sign =? 45 then - n else n, rest).
Proof.
  intros Hs Hn Hr. destruct (decimal_spec w n Hn) as (Hd & Hv & c & l & Hl).
  unfold strtol. rewrite Hl in *. cbn [app].
  pose proof (Forall_inv Hd) as Hc. cbn beta in Hc.
  assert (Hsp : skip_isspace (sign :: c :: l ++ rest) = sign :: c :: l ++ rest)
    by (destruct Hs as [-> | ->]; reflexivity).
  rewrite Hsp.
  destruct Hs as [-> | ->]; cbn [Z.eqb Pos.eqb deref hd]; rewrite Hc;
    change (c :: l ++ rest) with ((c :: l) ++ rest);
    rewrite digit_run_app by assumption; rewrite Hv; f_equal;
    unfold LONG_MIN, LONG_MAX; lia.
Qed.

Lemma distance_app l rest : distance (l ++ rest) rest = Z.of_nat (length l).
Proof. unfold distance. rewrite length_app. lia. Qed.

Lemma digits_length_le fuel n acc k :
  0 <= n < 10 ^ Z.of_nat k -> (0 < k)%nat ->
  (length (digits fuel n acc) <= k + length acc)%nat.
Proof.
  revert n acc k. induction fuel as [|fuel IH]; intros n acc k Hn Hk; [cbn; lia|].
  cbn [digits]. case_if; to_prop; [cbn [length]; lia|].
  destruct k as [|[|k]]; [lia|cbn in Hn; lia|].
  specialize (IH (n / 10) ((48 + n mod 10) :: acc) (S k)). cbn [length] in IH.
  rewrite (Nat2Z.inj_succ (S k)), Z.pow_succ_r in Hn by lia. lia.
Qed.

(** A two- or three-digit field of a date string, read back. *)
Lemma field_read w n rest :
  (0 < w <= 10)%nat -> 0 <= n < 10 ^ Z.of_nat w -> no_digit_first rest ->
  isASCIIDigit (deref (fmt_0d w n ++ rest)) = true /\
  parseLong (fmt_0d w n ++ rest) = Some (n, rest) /\
  strtol (fmt_0d w n ++ rest) = (n, rest) /\
  distance (fmt_0d w n ++ rest) rest = Z.of_nat w /\ length (fmt_0d w n) = w.
Proof.
  intros Hw Hn Hr. unfold fmt_0d. replace (n <? 0) with false by lia.
  assert (Hn10 : 0 <= n < 10 ^ 10).
  { split; [lia|]. apply Z.lt_le_trans with (10 ^ Z.of_nat w); [lia|].
    apply Z.pow_le_mono_r; lia. }
  destruct (decimal_spec w n Hn10) as (Hd & _ & c & l & Hl).
  assert (Hlen : length (zero_pad w (decimal n)) = w).
  { unfold zero_pad. rewrite length_app, repeat_length.
    pose proof (digits_length_le 10 n [] w Hn ltac:(lia)). cbn [length] in *.
    unfold decimal. lia. }
  assert (Hs := strtol_digits w n rest Hn10 Hr).
  repeat split; [| |exact Hs| |exact Hlen].
  - rewrite Hl in *. exact (Forall_inv Hd).
  - unfold parseLong. rewrite Hs, distance_app, Hlen. unfold LONG_MIN, LONG_MAX.
    replace (Z.of_nat w =? 0) with false by lia.
    replace (n =? - 2 ^ 63) with false by lia. replace (n =? 2 ^ 63 - 1) with false by lia.
    reflexivity.
  - rewrite distance_app, Hlen. reflexivity.
Qed.

(** The year of an ISO string, in both its forms. *)
Definition iso_year (y : Z) : list Z :=
  if (0 <=? y) && (y <=? 9999) then fmt_0d 4 y else fmt_plus_0d 7 y.

Lemma iso_year_read y rest :
  - 300000 < y < 300000 -> no_digit_first rest ->
  parseInt (iso_year y ++ rest) = Some (y, rest).
Proof.
  intros Hy Hr.
  assert (Hs : strtol (iso_year y ++ rest) = (y, rest) /\ (0 < length (iso_year y))%nat).
  { unfold iso_year, fmt_plus_0d, fmt_0d. case_if; to_prop.
    - replace (y <? 0) with false by lia. split; [apply strtol_digits; [lia|exact Hr]|].
      destruct (decimal_spec 4 y ltac:(lia)) as (_ & _ & c & l & ->). cbn; lia.
    - destruct (Z.ltb_spec y 0); (split; [|cbn [length]; lia]);
        cbn [app]; rewrite strtol_signed by (auto || lia); cbn [Z.eqb Pos.eqb]; f_equal; lia. }
  destruct Hs as [Hs Hlen]. unfold parseInt. rewrite Hs, distance_app.
  replace (Z.of_nat (length (iso_year y)) =? 0) with false by lia.
  replace (y <=? - 2 ^ 31) with false by lia. replace (2 ^ 31 - 1 <=? y) with false by lia.
  reflexivity.
Qed.

Definition iso_text (y mo d h mi s ms : Z) : list Z :=
  iso_year y ++ 45 :: fmt_0d 2 (mo + 1) ++ 45 :: fmt_0d 2 d ++ 84 :: fmt_0d 2 h
  ++ 58 :: fmt_0d 2 mi ++ 58 :: fmt_0d 2 s ++ 46 :: fmt_0d 3 ms ++ [90].

Ltac read_field w n :=
  match goal with
  | |- context [fmt_0d w n ++ ?rest] =>
    let H1 := fresh in let H2 := fresh in let H3 := fresh in
    destruct (field_read w n rest ltac:(lia) ltac:(cbn; lia) eq_refl) as (H1 & H2 & _ & H3 & _);
    rewrite ?H1, H2, ?H3; clear H1 H2 H3
  end.

Lemma parse_iso_date y mo d rest :
  - 300000 < y < 300000 -> 0 <= mo < 12 -> 0 <= d < 100 -> no_digit_first rest ->
  parseES5DatePortion (iso_year y ++ 45 :: fmt_0d 2 (mo + 1) ++ 45 :: fmt_0d 2 d ++ rest)
  = Some (rest, y, mo + 1, d).
Proof.
  intros Hy Hmo Hd Hr. unfold parseES5DatePortion. rewrite iso_year_read by (auto; reflexivity).
  cbn [deref hd Z.eqb Pos.eqb negb tl].
  destruct (field_read 2 (mo + 1) (45 :: fmt_0d 2 d ++ rest) ltac:(lia) ltac:(cbn; lia) eq_refl)
    as (H1 & H2 & _ & H3 & _).
  rewrite H1, H2, H3. cbn [deref hd Z.eqb Pos.eqb negb tl Z.of_nat Pos.of_succ_nat Pos.succ].
  destruct (field_read 2 d rest ltac:(lia) ltac:(cbn; lia) Hr) as (H4 & H5 & _ & H6 & _).
  rewrite H4, H5, H6. reflexivity.
Qed.

Lemma parse_iso_seconds s ms :
  0 <= s < 60 -> 0 <= ms < 1000 ->
  parseES5Seconds (fmt_0d 2 s ++ 46 :: fmt_0d 3 ms ++ [90]) = Some (s * 1000 + ms, [90]).
Proof.
  intros Hs Hms. unfold parseES5Seconds.
  destruct (field_read 2 s (46 :: fmt_0d 3 ms ++ [90]) ltac:(lia) ltac:(cbn; lia) eq_refl)
    as (H1 & H2 & _ & H3 & _).
  rewrite H1, H2, H3. cbn [deref hd Z.eqb Pos.eqb negb tl Z.of_nat Pos.of_succ_nat Pos.succ].
  destruct (field_read 3 ms [90] ltac:(lia) ltac:(cbn; lia) eq_refl)
    as (H4 & _ & H5 & H6 & Hlen).
  destruct (field_read 3 ms [] ltac:(lia) ltac:(cbn; lia) eq_refl) as (_ & _ & H7 & _ & _).
  rewrite H4. unfold parseLong3. rewrite H5, H6.
  replace (firstn 3 (fmt_0d 3 ms ++ [90])) with (fmt_0d 3 ms ++ [])
    by (rewrite app_nil_r; pose proof (take_app_length (fmt_0d 3 ms) [90]) as Ht;
        rewrite Hlen in Ht; symmetry; exact Ht).
  rewrite H7. unfold LONG_MIN, LONG_MAX.
  replace (ms =? - 2 ^ 63) with false by lia. replace (ms =? 2 ^ 63 - 1) with false by lia.
  cbn [Z.eqb Pos.eqb orb Z.of_nat Pos.of_succ_nat Pos.succ]. f_equal. f_equal.
  rewrite H6. change msPerSecond with 1000.
  change (10 ^ (3 - Z.min (Z.of_nat 3) 3)) with 1. lia.
Qed.

Lemma parse_iso_time h mi s ms :
  0 <= h < 24 -> 0 <= mi < 60 -> 0 <= s < 60 -> 0 <= ms < 1000 ->
  parseES5TimePortion
    (fmt_0d 2 h ++ 58 :: fmt_0d 2 mi ++ 58 :: fmt_0d 2 s ++ 46 :: fmt_0d 3 ms ++ [90])
  = Some ([], h, mi, s * 1000 + ms, 0, true).
Proof.
  intros Hh Hmi Hs Hms. unfold parseES5TimePortion.
  set (tail := fmt_0d 2 s ++ 46 :: fmt_0d 3 ms ++ [90]).
  destruct (field_read 2 h (58 :: fmt_0d 2 mi ++ 58 :: tail) ltac:(lia) ltac:(cbn; lia) eq_refl)
    as (H1 & H2 & _ & H3 & _).
  rewrite H1, H2, H3. cbn [deref hd Z.eqb Pos.eqb negb tl Z.of_nat Pos.of_succ_nat Pos.succ orb].
  destruct (field_read 2 mi (58 :: tail) ltac:(lia) ltac:(cbn; lia) eq_refl)
    as (H4 & H5 & _ & H6 & _).
  rewrite H4, H5, H6. cbn [deref hd Z.eqb Pos.eqb negb tl Z.of_nat Pos.of_succ_nat Pos.succ].
  unfold tail. rewrite parse_iso_seconds by assumption. reflexivity.
Qed.

Lemma month_length_table y m :
  0 <= m < 12 ->
  gregorian_month_length y m <= nth (Z.to_nat m) daysPerMonth 0 /\
  (m = 1 -> gregorian_leap y = false -> gregorian_month_length y m = 28).
Proof.
  intros Hm. unfold gregorian_month_length.
  destruct (gregorian_leap y); month_split Hm; split; intros;
    first [discriminate|reflexivity|vm_compute; congruence].
Qed.

Lemma checkES5_ok y mo d h mi s ms :
  valid_date y mo d -> 0 <= h < 24 -> 0 <= mi < 60 -> 0 <= s < 60 -> 0 <= ms < 1000 ->
  checkES5Fields y (mo + 1) d h mi (s * 1000 + ms) 0 = timeinfoToMs y mo d h mi s ms.
Proof.
  intros (Hy & Hmo & Hd) Hh Hmi Hs Hms. unfold checkES5Fields. cbv zeta.
  destruct (month_length_table y mo Hmo) as [Ht1 Ht2].
  replace (mo + 1 - 1) with mo by lia. rewrite daysInYear_gregorian.
  change msPerMinute with 60000. change msPerSecond with 1000.
  replace (mo + 1 <? 1) with false by lia. replace (12 <? mo + 1) with false by lia.
  replace (d <? 1) with false by lia.
  replace (nth (Z.to_nat mo) daysPerMonth 0 <? d) with false by lia. cbn [orb].
  replace ((mo + 1 =? 2) && (28 <? d) && negb (gregorian_year_length y =? 366)) with false.
  2:{ unfold gregorian_year_length. destruct (gregorian_leap y) eqn:Hl; cbn [Z.eqb Pos.eqb negb].
      - rewrite andb_false_r. reflexivity.
      - destruct (Z.eqb_spec (mo + 1) 2); [|reflexivity].
        specialize (Ht2 ltac:(lia) eq_refl). replace (28 <? d) with false by lia. reflexivity. }
  replace (h <? 0) with false by lia. replace (24 <? h) with false by lia.
  replace (h =? 24) with false by lia. cbn [orb andb].
  replace (mi <? 0) with false by lia. replace (59 <? mi) with false by lia.
  replace (s * 1000 + ms <? 0) with false by lia.
  replace (60000 + 1000 <=? s * 1000 + ms) with false by lia. cbn [orb].
  replace (60000 <? s * 1000 + ms) with false by lia.
  replace ((s * 1000 + ms) ÷ 1000) with s by lia.
  replace (Z.rem (s * 1000 + ms) 1000) with ms by lia. lia.
Qed.

(** Reading an ISO string back gives the time of its fields. *)
Lemma parse_iso_text y mo d h mi s ms :
  valid_date y mo d -> 0 <= h < 24 -> 0 <= mi < 60 -> 0 <= s < 60 -> 0 <= ms < 1000 ->
  parseStringToDate_2 (iso_text y mo d h mi s ms) = (timeinfoToMs y mo d h mi s ms, true).
Proof.
  intros Hv Hh Hmi Hs Hms. pose proof Hv as (Hy & Hmo & Hd).
  destruct (month_length_table y mo Hmo) as [Ht _].
  assert (Hd100 : nth (Z.to_nat mo) daysPerMonth 0 < 100).
  { clear Hv Hd Ht. month_split Hmo; reflexivity. }
  unfold parseStringToDate_2, iso_text.
  rewrite parse_iso_date by (auto; lia || reflexivity).
  cbn [deref hd Z.eqb Pos.eqb tl]. rewrite parse_iso_time by assumption.
  cbn [skip_isspace at_end negb]. rewrite checkES5_ok by assumption. reflexivity.
Qed.

(** ** Running the formatter *)

Section Formatter.
Context (ucal : Z -> Z * Z * bool) (Hucal : offsets_bounded ucal)
        (Hwhole : whole_minutes ucal).

(** The object and the shared one, while a formatter for time [t] runs. *)
Definition formatting (t : Z) (oc : DateObject * DateObject) : Prop :=
  date_inv ucal (fst oc) /\ date_inv ucal (snd oc) /\ m_primitiveValue (fst oc) = t.

Lemma utcField_run t c0 field oc :
  is_in_time_range t = true -> offset_settles ucal t -> utcFields t c0 ->
  (forall c, utcFields t c -> field c = field c0) ->
  formatting t oc ->
  exists oc', utcField ucal field oc = (Ret (field c0), oc') /\ formatting t oc'.
Proof.
  intros Ht Hs H0 Hf (Ho & Hc & Hp). destruct oc as [o c]. cbn [fst snd] in *. subst t.
  pose proof (getUTC_spec ucal Hucal o c field Ho Hc Ht Hwhole Hs) as H.
  unfold utcField. destruct (getUTC ucal (getField ucal field) o c) as [v [o' c']].
  destruct H as (Hu & -> & Hp & Ho' & Hc'). exists (o', c').
  rewrite (Hf _ Hu). split; [reflexivity|]. split; [|split]; assumption.
Qed.

(** Every valid time has fields in UTC. *)
Lemma utcFields_exist t oc :
  is_in_time_range t = true -> offset_settles ucal t -> formatting t oc ->
  exists c, utcFields t c.
Proof.
  intros Ht Hs (Ho & Hc & Hp). destruct oc as [o c]. cbn [fst snd] in *. subst t.
  pose proof (getUTC_spec ucal Hucal o c year Ho Hc Ht Hwhole Hs) as H.
  destruct (getUTC ucal (getField ucal year) o c) as [v [o' c']].
  destruct H as (Hu & _). eauto.
Qed.

Lemma toISOString_run t oc c :
  is_in_time_range t = true -> offset_settles ucal t -> formatting t oc -> utcFields t c ->
  exists oc',
    toISOString ucal oc
    = (Ret (Some (iso_text (year c) (month c) (mday c) (hour c) (minute c) (sec c)
                           (millisec c))), oc') /\ formatting t oc'.
Proof.
  intros Ht Hs Hf Hc.
  assert (Hu : forall c', utcFields t c' ->
    year c' = year c /\ month c' = month c /\ mday c' = mday c /\ hour c' = hour c /\
    minute c' = minute c /\ sec c' = sec c /\ millisec c' = millisec c).
  { intros c' Hc'. apply (utcFields_unique t); auto with esc. }
  assert (step : forall field oc, (forall c', utcFields t c' -> field c' = field c) ->
    formatting t oc ->
    exists oc', utcField ucal field oc = (Ret (field c), oc') /\ formatting t oc').
  { intros. eapply utcField_run; eassumption. }
  unfold toISOString, bind, get. destruct oc as [o k].
  assert (Hv : isValid o = true).
  { destruct Hf as (_ & _ & Hp). cbn in Hp. unfold isValid. rewrite Hp. auto with esc. }
  rewrite Hv.
  destruct (step year (o, k) ltac:(intros c' Hc'; apply (Hu c' Hc')) Hf) as (oc1 & -> & F1).
  destruct (step month oc1 ltac:(intros c' Hc'; apply (Hu c' Hc')) F1) as (oc2 & -> & F2).
  destruct (step mday oc2 ltac:(intros c' Hc'; apply (Hu c' Hc')) F2) as (oc3 & -> & F3).
  destruct (step hour oc3 ltac:(intros c' Hc'; apply (Hu c' Hc')) F3) as (oc4 & -> & F4).
  destruct (step minute oc4 ltac:(intros c' Hc'; apply (Hu c' Hc')) F4) as (oc5 & -> & F5).
  destruct (step sec oc5 ltac:(intros c' Hc'; apply (Hu c' Hc')) F5) as (oc6 & -> & F6).
  destruct (step millisec oc6 ltac:(intros c' Hc'; apply (Hu c' Hc')) F6) as (oc7 & -> & F7).
  exists oc7. split; [reflexivity|exact F7].
Qed.

(** C12: the ISO string of a valid date parses back to the same time value: for
    every valid time, years beyond 9999 and before 0 included, [toISOString]
    returns a string and [parseStringToDate] of it is the time, in whatever
    zone it is read.  The zone in which it is written has offsets of whole
    minutes, and no transition of it lies between the time and the time shifted
    by its offset, where the UTC getters are an hour off (see
    [getUTC_after_transition]). *)
Theorem iso_string_roundtrip t o c reader :
  is_in_time_range t = true -> offset_settles ucal t ->
  date_inv ucal o -> date_inv ucal c -> m_primitiveValue o = t ->
  exists s oc', toISOString ucal (o, c) = (Ret (Some s), oc') /\
    parseStringToDate reader s = t.
Proof.
  intros Ht Hs Ho Hc Hp.
  assert (Hf : formatting t (o, c)) by (split; [|split]; assumption).
  destruct (utcFields_exist t (o, c) Ht Hs Hf) as [i Hi].
  destruct (toISOString_run t (o, c) i Ht Hs Hf Hi) as (oc' & Hrun & _).
  eexists _, oc'. split; [exact Hrun|].
  destruct Hi as (Hv & Hsum & Hh & Hmi & Hse & Hms & _).
  unfold parseStringToDate. rewrite parse_iso_text by assumption. rewrite Hsum.
  assert (Hval : is_valid_time t = true) by auto with esc.
  rewrite Hval. cbn [negb]. rewrite Hval, Ht. reflexivity.
Qed.
End Formatter.

Lemma iso_string_roundtrip_witness :
  (offsets_bounded cet /\ whole_minutes cet /\ is_in_time_range (-62198755200001) = true) /\
  exists s oc', toISOString cet (setTimeValue (-62198755200001) newDateObject, newDateObject)
                = (Ret (Some s), oc') /\
    parseStringToDate london s = -62198755200001.
Proof.
  assert (Hw : whole_minutes cet) by (intros t; exists 60; reflexivity).
  split; [split; [exact cet_bounded|split; [exact Hw|reflexivity]]|].
  apply (iso_string_roundtrip cet cet_bounded Hw (-62198755200001)
           (setTimeValue (-62198755200001) newDateObject) newDateObject london).
  - reflexivity.
  - reflexivity.
  - apply dateObject_inv. split; vm_compute; congruence.
  - apply newDateObject_inv.
  - reflexivity.
Defined.
