(* ===== verification/LexChars.v ===== *)
(** * Characters, tokens and keywords of the lexer ([parser/Lexer.h], [Lexer.cpp])

    A [char16_t] or [char32_t] is a [Z]; a string is the list of its UTF-16
    code units.  This file holds the character classes with the two table
    searches, the token, punctuator and keyword enumerations, and [getKeyword]
    with its decision tree. *)

From Stdlib Require Import String.
From S2P Require Import Prelude UnicodeTables.
Local Open Scope Z_scope.

(** ** Enumerations *)

Inductive Token : Set :=
| EOFToken | IdentifierToken | BooleanLiteralToken | KeywordToken | NullLiteralToken
| NumericLiteralToken | PunctuatorToken | StringLiteralToken | RegularExpressionToken
| TemplateToken | InvalidToken.

Inductive PunctuatorKind : Set :=
| Arrow | BitwiseAnd | BitwiseOr | BitwiseXor | Colon | Comma | Divide | Equal
| ExclamationMark | Exponentiation | GuessDot | GuessMark | Hash | HashBang | InPunctuator
| InstanceOfPunctuator | LeftBrace | LeftInequality | LeftParenthesis | LeftShift
| LeftSquareBracket | LogicalAnd | LogicalOr | Minus | MinusMinus | Mod | Multiply
| NotEqual | NotStrictEqual | NullishCoalescing | Period | PeriodPeriodPeriod | Plus
| PlusPlus | RightBrace | RightInequality | RightParenthesis | RightShift
| RightSquareBracket | SemiColon | StrictEqual | UnsignedRightShift | Wave | Substitution
| BitwiseAndEqual | BitwiseOrEqual | BitwiseXorEqual | DivideEqual | ExponentiationEqual
| LeftInequalityEqual | LeftShiftEqual | LogicalAndEqual | LogicalNullishEqual
| LogicalOrEqual | MinusEqual | ModEqual | MultiplyEqual | PlusEqual | RightInequalityEqual
| RightShiftEqual | UnsignedRightShiftEqual | SubstitutionEnd | PunctuatorKindEnd.

Inductive KeywordKind : Set :=
| NotKeyword | IfKeyword | InKeyword | DoKeyword | VarKeyword | ForKeyword | NewKeyword
| TryKeyword | ThisKeyword | ElseKeyword | CaseKeyword | VoidKeyword | WithKeyword
| EnumKeyword | WhileKeyword | BreakKeyword | CatchKeyword | ThrowKeyword | ConstKeyword
| ClassKeyword | SuperKeyword | ReturnKeyword | TypeofKeyword | DeleteKeyword
| SwitchKeyword | ExportKeyword | ImportKeyword | DefaultKeyword | FinallyKeyword
| ExtendsKeyword | FunctionKeyword | ContinueKeyword | DebuggerKeyword | InstanceofKeyword
| StrictModeReservedWord | ImplementsKeyword | InterfaceKeyword | PackageKeyword
| PrivateKeyword | ProtectedKeyword | PublicKeyword | StaticKeyword | YieldKeyword
| LetKeyword | OtherKeyword | NullKeyword | TrueKeyword | FalseKeyword | GetKeyword
| SetKeyword | EvalKeyword | ArgumentsKeyword | OfKeyword | AsyncKeyword | AwaitKeyword
| AsKeyword | FromKeyword | KeywordKindEnd.

#[export] Instance Token_eq_dec : EqDecision Token.
Proof. solve_decision. Defined.
#[export] Instance PunctuatorKind_eq_dec : EqDecision PunctuatorKind.
Proof. solve_decision. Defined.
#[export] Instance KeywordKind_eq_dec : EqDecision KeywordKind.
Proof. solve_decision. Defined.

(** The declaration order, which the lexer compares. *)
Definition all_keywords : list KeywordKind :=
  [NotKeyword; IfKeyword; InKeyword; DoKeyword; VarKeyword; ForKeyword; NewKeyword; TryKeyword; ThisKeyword; ElseKeyword; CaseKeyword; VoidKeyword; WithKeyword; EnumKeyword; WhileKeyword; BreakKeyword; CatchKeyword; ThrowKeyword; ConstKeyword; ClassKeyword; SuperKeyword; ReturnKeyword; TypeofKeyword; DeleteKeyword; SwitchKeyword; ExportKeyword; ImportKeyword; DefaultKeyword; FinallyKeyword; ExtendsKeyword; FunctionKeyword; ContinueKeyword; DebuggerKeyword; InstanceofKeyword; StrictModeReservedWord; ImplementsKeyword; InterfaceKeyword; PackageKeyword; PrivateKeyword; ProtectedKeyword; PublicKeyword; StaticKeyword; YieldKeyword; LetKeyword; OtherKeyword; NullKeyword; TrueKeyword; FalseKeyword; GetKeyword; SetKeyword; EvalKeyword; ArgumentsKeyword; OfKeyword; AsyncKeyword; AwaitKeyword; AsKeyword; FromKeyword; KeywordKindEnd].

Definition keyword_number (k : KeywordKind) : nat :=
  match list_find (eq k) all_keywords with Some (i, _) => i | None => 0 end.

(** ** Character classes *)

Definition LexerIsCharIdentStart : Z := 1.
Definition LexerIsCharIdent : Z := 2.
Definition LexerIsCharWhiteSpace : Z := 4.
Definition LexerIsCharLineTerminator : Z := 8.

Definition g_asciiRangeCharMap : list Z :=
  [0; 0; 0; 0; 0; 0; 0; 0; 0; 4; 8; 4; 4; 8; 0; 0;
   0; 0; 0; 0; 0; 0; 0; 0; 0; 0; 0; 0; 0; 0; 0; 0;
   4; 0; 0; 0; 3; 0; 0; 0; 0; 0; 0; 0; 0; 0; 0; 0;
   2; 2; 2; 2; 2; 2; 2; 2; 2; 2; 0; 0; 0; 0; 0; 0;
   0; 3; 3; 3; 3; 3; 3; 3; 3; 3; 3; 3; 3; 3; 3; 3;
   3; 3; 3; 3; 3; 3; 3; 3; 3; 3; 3; 0; 3; 0; 0; 3;
   0; 3; 3; 3; 3; 3; 3; 3; 3; 3; 3; 3; 3; 3; 3; 3;
   3; 3; 3; 3; 3; 3; 3; 3; 3; 3; 3; 0; 0; 0; 0; 0].

Definition asciiClass (flags ch : Z) : bool :=
  negb (Z.land (nth (Z.to_nat ch) g_asciiRangeCharMap 0) flags =? 0).

Definition isWhiteSpaceSlowCase (ch : Z) : bool :=
  if ch <? 0x1680 then ch =? 0xA0
  else
    (ch =? 0x1680) || (ch =? 0x2000) || (ch =? 0x2001) || (ch =? 0x2002) || (ch =? 0x2003)
    || (ch =? 0x2004) || (ch =? 0x2005) || (ch =? 0x2006) || (ch =? 0x2007) || (ch =? 0x2008)
    || (ch =? 0x2009) || (ch =? 0x200A) || (ch =? 0x202F) || (ch =? 0x205F) || (ch =? 0x3000)
    || (ch =? 0xFEFF).

Definition isWhiteSpace (ch : Z) : bool :=
  if ch <? 128 then asciiClass LexerIsCharWhiteSpace ch else isWhiteSpaceSlowCase ch.

Definition isLineTerminator (ch : Z) : bool :=
  if ch <? 128 then asciiClass LexerIsCharLineTerminator ch
  else (ch =? 0x2028) || (ch =? 0x2029).

Definition isWhiteSpaceOrLineTerminator (ch : Z) : bool :=
  if ch <? 128 then
    asciiClass (Z.lor LexerIsCharWhiteSpace LexerIsCharLineTerminator) ch
  else (ch =? 0x2028) || (ch =? 0x2029) || isWhiteSpaceSlowCase ch.

Definition IDENT_RANGE_LONG : Z := 200.

(** The binary search of [isIdentifierPartSlow] and of its supplementary-plane
    twin; [None] only if the fuel ran out. *)
Fixpoint identSearch (starts : list Z) (lengthAt : nat -> Z) (fuel bottom top : nat) (ch : Z)
    : option bool :=
  match fuel with
  | O => None
  | S fuel =>
    let middle := Nat.div2 (bottom + top) in
    let rangeStart := nth middle starts 0 in
    if rangeStart <=? ch then
      if ch <? nth (middle + 1) starts 0 then Some (ch <=? rangeStart + lengthAt middle)
      else
        let bottom := (middle + 1)%nat in
        if (bottom =? top)%nat then Some false
        else identSearch starts lengthAt fuel bottom top ch
    else
      let top := middle in
      if (bottom =? top)%nat then Some false
      else identSearch starts lengthAt fuel bottom top ch
  end.

Definition basicLengthAt (middle : nat) : Z :=
  let length := nth middle identRangeLength 0 in
  if IDENT_RANGE_LONG <=? length then
    nth (Z.to_nat (length - IDENT_RANGE_LONG)) identRangeLongLength 0
  else length.

Definition isIdentifierPartSlow (ch : Z) : option bool :=
  identSearch identRangeStart basicLengthAt (length identRangeStart) 0
    (length identRangeStart - 1) ch.

Definition supplementaryLengthAt (middle : nat) : Z :=
  nth middle identRangeLengthSupplementaryPlane 0.

Definition isIdentifierPartSlowSupplementary (ch : Z) : option bool :=
  identSearch identRangeStartSupplementaryPlane supplementaryLengthAt
    (length identRangeStartSupplementaryPlane) 0
    (length identRangeStartSupplementaryPlane - 1) ch.

Definition slowIdentifier (ch : Z) : bool :=
  default false (isIdentifierPartSlow ch)
  || default false (isIdentifierPartSlowSupplementary ch).

Definition isIdentifierPart (ch : Z) : bool :=
  if ch <? 128 then asciiClass LexerIsCharIdent ch else slowIdentifier ch.

Definition isIdentifierStart (ch : Z) : bool :=
  if ch <? 128 then asciiClass LexerIsCharIdentStart ch else slowIdentifier ch.

Definition isDecimalDigit (ch : Z) : bool := (48 <=? ch) && (ch <=? 57).
(** The flag [seenUnderScore] is the second component, [true] when this call
    sets it. *)
Definition isDecimalDigitOrUnderscore (ch : Z) : bool * bool :=
  if ch =? 95 then (true, true) else ((48 <=? ch) && (ch <=? 57), false).
Definition hexLetter (ch : Z) : bool := (97 <=? Z.lor ch 0x20) && (Z.lor ch 0x20 <=? 102).
Definition isHexDigit (ch : Z) : bool := isDecimalDigit ch || hexLetter ch.
Definition isHexDigitOrUnderscore (ch : Z) : bool * bool :=
  let (b, seen) := isDecimalDigitOrUnderscore ch in (b || hexLetter ch, seen).
Definition isOctalDigit (ch : Z) : bool := (48 <=? ch) && (ch <=? 55).
Definition octalValue (ch : Z) : Z := ch - 48.
(** Returns a [uint8_t]. *)
Definition toHexNumericValue (ch : Z) : Z :=
  to_unsigned 8 (if ch <? 65 then ch - 48 else Z.land (ch - 65 + 10) 0xF).
Definition hexValue (ch : Z) : Z :=
  if (48 <=? ch) && (ch <=? 57) then ch - 48 else Z.lor ch 0x20 - (97 - 10).

(** The UTF-16 units of a code point; the conversions to [char16_t] truncate. *)
Definition ParserCharPiece (a : Z) : list Z :=
  if a <? 0x10000 then [a]
  else [to_unsigned 16 (0xD800 + Z.shiftr (a - 0x10000) 10);
        to_unsigned 16 (0xDC00 + Z.land (a - 0x10000) 1023)].

(** ** Keywords *)

Definition keywordToString (keyword : KeywordKind) : list Z :=
  match keyword with
  | IfKeyword => bytes "if"
  | InKeyword => bytes "in"
  | DoKeyword => bytes "do"
  | VarKeyword => bytes "var"
  | ForKeyword => bytes "for"
  | NewKeyword => bytes "new"
  | TryKeyword => bytes "try"
  | ThisKeyword => bytes "this"
  | ElseKeyword => bytes "else"
  | CaseKeyword => bytes "case"
  | VoidKeyword => bytes "void"
  | WithKeyword => bytes "with"
  | EnumKeyword => bytes "enum"
  | WhileKeyword => bytes "while"
  | BreakKeyword => bytes "break"
  | CatchKeyword => bytes "catch"
  | ThrowKeyword => bytes "throw"
  | ConstKeyword => bytes "const"
  | ClassKeyword => bytes "class"
  | SuperKeyword => bytes "super"
  | ReturnKeyword => bytes "return"
  | TypeofKeyword => bytes "typeof"
  | DeleteKeyword => bytes "delete"
  | SwitchKeyword => bytes "switch"
  | ExportKeyword => bytes "export"
  | ImportKeyword => bytes "import"
  | DefaultKeyword => bytes "default"
  | FinallyKeyword => bytes "finally"
  | ExtendsKeyword => bytes "extends"
  | FunctionKeyword => bytes "function"
  | ContinueKeyword => bytes "continue"
  | DebuggerKeyword => bytes "debugger"
  | InstanceofKeyword => bytes "instanceof"
  | ImplementsKeyword => bytes "implements"
  | InterfaceKeyword => bytes "interface"
  | PackageKeyword => bytes "package"
  | PrivateKeyword => bytes "private"
  | ProtectedKeyword => bytes "protected"
  | PublicKeyword => bytes "public"
  | StaticKeyword => bytes "static"
  | YieldKeyword => bytes "yield"
  | LetKeyword => bytes "let"
  | NullKeyword => bytes "null"
  | TrueKeyword => bytes "true"
  | FalseKeyword => bytes "false"
  | GetKeyword => bytes "get"
  | SetKeyword => bytes "set"
  | EvalKeyword => bytes "eval"
  | ArgumentsKeyword => bytes "arguments"
  | OfKeyword => bytes "of"
  | AsyncKeyword => bytes "async"
  | AwaitKeyword => bytes "await"
  | AsKeyword => bytes "as"
  | FromKeyword => bytes "from"
  | _ => bytes "error"
  end.

(** [data.equalsSameLength(str, compareStartAt)], called when the lengths agree. *)
Definition equalsSameLength (data : list Z) (str : string) (compareStartAt : nat) : bool :=
  bool_decide (drop compareStartAt data = drop compareStartAt (bytes str)).

Definition charAt (data : list Z) (i : nat) : Z := nth i data 0.

Section GetKeyword.
Variable data : list Z.
Let len : nat := length data.
Let second : Z := charAt data 1.
Let eq (s : string) (i : nat) : bool := equalsSameLength data s i.

(** The cases of the switch on the first character, one definition each. *)
Definition keyword_a : KeywordKind :=
  if (len =? 2)%nat then if charAt data 1 =? 115 then AsKeyword else NotKeyword
  else if (len =? 5)%nat then
    if (second =? 115) && eq "async" 2 then AsyncKeyword
    else if (second =? 119) && eq "await" 2 then AwaitKeyword else NotKeyword
  else if (len =? 9)%nat then if eq "arguments" 1 then ArgumentsKeyword else NotKeyword
  else NotKeyword.
Definition keyword_b : KeywordKind :=
  if (len =? 5)%nat && eq "break" 1 then BreakKeyword else NotKeyword.
Definition keyword_c : KeywordKind :=
  if (len =? 4)%nat then if eq "case" 1 then CaseKeyword else NotKeyword
  else if (len =? 5)%nat then
    if (second =? 97) && eq "catch" 2 then CatchKeyword
    else if (second =? 111) && eq "const" 2 then ConstKeyword
    else if (second =? 108) && eq "class" 2 then ClassKeyword else NotKeyword
  else if (len =? 8)%nat && eq "continue" 1 then ContinueKeyword else NotKeyword.
Definition keyword_d : KeywordKind :=
  if (len =? 2)%nat then if charAt data 1 =? 111 then DoKeyword else NotKeyword
  else if (len =? 6)%nat then if eq "delete" 1 then DeleteKeyword else NotKeyword
  else if (len =? 7)%nat then if eq "default" 1 then DefaultKeyword else NotKeyword
  else if (len =? 8)%nat then if eq "debugger" 1 then DebuggerKeyword else NotKeyword
  else NotKeyword.
Definition keyword_e : KeywordKind :=
  if (len =? 4)%nat then
    if (second =? 108) && eq "else" 2 then ElseKeyword
    else if (second =? 110) && eq "enum" 2 then EnumKeyword
    else if (second =? 118) && eq "eval" 2 then EvalKeyword else NotKeyword
  else if (len =? 6)%nat then if eq "export" 1 then ExportKeyword else NotKeyword
  else if (len =? 7)%nat then if eq "extends" 1 then ExtendsKeyword else NotKeyword
  else NotKeyword.
Definition keyword_f : KeywordKind :=
  if (len =? 3)%nat then if eq "for" 1 then ForKeyword else NotKeyword
  else if (len =? 4)%nat then if eq "from" 1 then FromKeyword else NotKeyword
  else if (len =? 5)%nat then if eq "false" 1 then FalseKeyword else NotKeyword
  else if (len =? 7)%nat then if eq "finally" 1 then FinallyKeyword else NotKeyword
  else if (len =? 8)%nat then if eq "function" 1 then FunctionKeyword else NotKeyword
  else NotKeyword.
Definition keyword_g : KeywordKind :=
  if (len =? 3)%nat && eq "get" 1 then GetKeyword else NotKeyword.
Definition keyword_i : KeywordKind :=
  if (len =? 2)%nat then
    if second =? 102 then IfKeyword else if second =? 110 then InKeyword else NotKeyword
  else if (len =? 6)%nat then if eq "import" 1 then ImportKeyword else NotKeyword
  else if (len =? 9)%nat then if eq "interface" 1 then InterfaceKeyword else NotKeyword
  else if (len =? 10)%nat then
    if (second =? 110) && eq "instanceof" 2 then InstanceofKeyword
    else if (second =? 109) && eq "implements" 2 then ImplementsKeyword else NotKeyword
  else NotKeyword.
Definition keyword_l : KeywordKind :=
  if (len =? 3)%nat && eq "let" 1 then LetKeyword else NotKeyword.
Definition keyword_n : KeywordKind :=
  if (len =? 3)%nat && eq "new" 1 then NewKeyword
  else if (len =? 4)%nat && eq "null" 1 then NullKeyword else NotKeyword.
Definition keyword_o : KeywordKind :=
  if (len =? 2)%nat && (charAt data 1 =? 102) then OfKeyword else NotKeyword.
Definition keyword_p : KeywordKind :=
  if (len =? 6)%nat then if eq "public" 1 then PublicKeyword else NotKeyword
  else if (len =? 7)%nat then
    if (second =? 97) && eq "package" 2 then PackageKeyword
    else if (second =? 114) && eq "private" 2 then PrivateKeyword else NotKeyword
  else if (len =? 9)%nat then if eq "protected" 1 then ProtectedKeyword else NotKeyword
  else NotKeyword.
Definition keyword_r : KeywordKind :=
  if (len =? 6)%nat && eq "return" 1 then ReturnKeyword else NotKeyword.
Definition keyword_s : KeywordKind :=
  if (len =? 3)%nat then if eq "set" 1 then SetKeyword else NotKeyword
  else if (len =? 5)%nat then if eq "super" 1 then SuperKeyword else NotKeyword
  else if (len =? 6)%nat then
    if (second =? 119) && eq "switch" 2 then SwitchKeyword
    else if (second =? 116) && eq "static" 2 then StaticKeyword else NotKeyword
  else NotKeyword.
Definition keyword_t : KeywordKind :=
  if (len =? 3)%nat then if eq "try" 1 then TryKeyword else NotKeyword
  else if (len =? 4)%nat then
    if (second =? 104) && eq "this" 2 then ThisKeyword
    else if (second =? 114) && eq "true" 2 then TrueKeyword else NotKeyword
  else if (len =? 5)%nat then if eq "throw" 1 then ThrowKeyword else NotKeyword
  else if (len =? 6)%nat then if eq "typeof" 1 then TypeofKeyword else NotKeyword
  else NotKeyword.
Definition keyword_v : KeywordKind :=
  if (len =? 3)%nat && eq "var" 1 then VarKeyword
  else if (len =? 4)%nat && eq "void" 1 then VoidKeyword else NotKeyword.
Definition keyword_w : KeywordKind :=
  if (len =? 4)%nat && eq "with" 1 then WithKeyword
  else if (len =? 5)%nat && eq "while" 1 then WhileKeyword else NotKeyword.
Definition keyword_y : KeywordKind :=
  if (len =? 5)%nat && eq "yield" 1 then YieldKeyword else NotKeyword.

Definition getKeyword : KeywordKind :=
  let first := charAt data 0 in
  if first =? 97 then keyword_a else if first =? 98 then keyword_b
  else if first =? 99 then keyword_c else if first =? 100 then keyword_d
  else if first =? 101 then keyword_e else if first =? 102 then keyword_f
  else if first =? 103 then keyword_g else if first =? 105 then keyword_i
  else if first =? 108 then keyword_l else if first =? 110 then keyword_n
  else if first =? 111 then keyword_o else if first =? 112 then keyword_p
  else if first =? 114 then keyword_r else if first =? 115 then keyword_s
  else if first =? 116 then keyword_t else if first =? 118 then keyword_v
  else if first =? 119 then keyword_w else if first =? 121 then keyword_y
  else NotKeyword.
End GetKeyword.

(** [isFutureReservedWord], [isStrictModeReservedWord] and [isRestrictedWord];
    an [AtomicString] is identified with its text. *)
Definition isFutureReservedWord (id : list Z) : bool :=
  if (length id =? 4)%nat then equalsSameLength id "enum" 0
  else if (length id =? 5)%nat then equalsSameLength id "super" 0
  else if (length id =? 6)%nat then
    equalsSameLength id "export" 0 || equalsSameLength id "import" 0
  else false.

Definition isText (id : list Z) (s : string) : bool := bool_decide (id = bytes s).

Definition isStrictModeReservedWord (identifier : list Z) : bool :=
  let n := length identifier in
  if (n =? 3)%nat then isText identifier "let"
  else if (n =? 5)%nat then isText identifier "yield"
  else if (n =? 6)%nat then isText identifier "static" || isText identifier "public"
  else if (n =? 7)%nat then isText identifier "private" || isText identifier "package"
  else if (n =? 9)%nat then isText identifier "protected" || isText identifier "interface"
  else if (n =? 10)%nat then isText identifier "implements"
  else false.

Definition isRestrictedWord (identifier : list Z) : bool :=
  isText identifier "arguments" || isText identifier "eval".

(** The same questions asked of the token's secondary keyword. *)
Definition tokenIsStrictModeReservedWord (k : KeywordKind) : bool :=
  (keyword_number StrictModeReservedWord <? keyword_number k)%nat
  && (keyword_number k <? keyword_number OtherKeyword)%nat.
Definition tokenIsRestrictedWord (k : KeywordKind) : bool :=
  bool_decide (k = EvalKeyword) || bool_decide (k = ArgumentsKeyword).

(** ** The decision tree finds exactly the keywords *)

Definition real_keyword (k : KeywordKind) : bool :=
  match k with
  | NotKeyword | StrictModeReservedWord | OtherKeyword | KeywordKindEnd => false
  | _ => true
  end.

(** The reference: look the text up among the texts of the keywords. *)
Definition keyword_lookup (data : list Z) : KeywordKind :=
  match list_find (fun k => real_keyword k /\ keywordToString k = data) all_keywords with
  | Some (_, k) => k
  | None => NotKeyword
  end.

Lemma equalsSameLength_eq data s i :
  equalsSameLength data s i = true -> drop i data = drop i (bytes s).
Proof. unfold equalsSameLength. apply bool_decide_eq_true. Qed.

Lemma getKeyword_text data :
  (1 < length data)%nat -> getKeyword data <> NotKeyword ->
  real_keyword (getKeyword data) = true /\ keywordToString (getKeyword data) = data.
Proof.
  destruct data as [|x [|y rest]]; cbn [length]; [lia|lia|]. intros _.
  unfold getKeyword. change (charAt (x :: y :: rest) 0) with x.
  repeat (case_if; [to_prop; subst x|]); [..|congruence];
  unfold keyword_a, keyword_b, keyword_c, keyword_d, keyword_e, keyword_f, keyword_g, keyword_i,
    keyword_l, keyword_n, keyword_o, keyword_p, keyword_r, keyword_s, keyword_t, keyword_v,
    keyword_w, keyword_y; change (charAt (_ :: y :: rest) 1) with y; cbn [length];
  repeat (case_if; to_prop; subst; try congruence);
  intros _; split; try reflexivity;
  repeat match goal with H : equalsSameLength _ _ _ = true |- _ =>
    apply equalsSameLength_eq in H; cbn in H; rewrite ?drop_0 in H; simplify_eq end;
  try (destruct rest; [|cbn in *; lia]); try congruence; try reflexivity.
Qed.

Lemma getKeyword_complete k :
  real_keyword k = true -> getKeyword (keywordToString k) = k.
Proof. destruct k; intros H; try discriminate; vm_compute; reflexivity. Qed.

Lemma all_keywords_all k : In k all_keywords.
Proof. destruct k; cbn; tauto. Qed.

Lemma getKeyword_lookup data :
  (1 < length data)%nat -> getKeyword data = keyword_lookup data.
Proof.
  intros Hlen. unfold keyword_lookup.
  destruct (list_find _ all_keywords) as [[i k]|] eqn:Hfind.
  - apply list_find_Some in Hfind as (_ & [Hk <-] & _). apply getKeyword_complete, Is_true_true, Hk.
  - apply list_find_None in Hfind. rewrite Forall_forall in Hfind.
    destruct (decide (getKeyword data = NotKeyword)) as [|Hne]; [assumption|].
    destruct (Hfind (getKeyword data)); [apply all_keywords_all|].
    destruct (getKeyword_text data Hlen Hne) as [Hr Ht].
    split; [apply Is_true_true, Hr|exact Ht].
Qed.

(** The decision tree of [getKeyword] over length, first and second
    character is the plain look-up of the text among the keyword texts; so it
    accepts a text exactly when it is the text of a keyword. *)
Theorem getKeyword_correct data :
  (1 < length data)%nat -> getKeyword data = keyword_lookup data.
Proof. apply getKeyword_lookup. Qed.

Lemma getKeyword_correct_witness :
  getKeyword (bytes "instanceof") = keyword_lookup (bytes "instanceof") /\
  getKeyword (bytes "instanceof") = InstanceofKeyword.
Proof.
  split; [apply (getKeyword_correct (bytes "instanceof"))|reflexivity].
  vm_compute. lia.
Defined.

Lemma isText_eq data w : isText data w = true -> data = bytes w.
Proof. apply bool_decide_eq_true. Qed.

(** Only keywords are reserved. *)
Lemma reserved_is_keyword data :
  isStrictModeReservedWord data || isRestrictedWord data || isFutureReservedWord data = true ->
  getKeyword data <> NotKeyword.
Proof.
  intros H. apply orb_prop in H as [H|H]; [apply orb_prop in H as [H|H]|]; revert H.
  - unfold isStrictModeReservedWord. cbv zeta. repeat case_if; intros H; try discriminate H;
      repeat (apply orb_prop in H as [H|H]); apply isText_eq in H; subst data; vm_compute; congruence.
  - unfold isRestrictedWord. intros H. apply orb_prop in H as [H|H];
      apply isText_eq in H; subst data; vm_compute; congruence.
  - unfold isFutureReservedWord. repeat case_if; intros H; try discriminate H;
      repeat (apply orb_prop in H as [H|H]); apply equalsSameLength_eq in H; rewrite !drop_0 in H;
      subst data; vm_compute; congruence.
Qed.

(** The two ways the parser asks about a reserved word agree: the functions
    of an identifier's text, and the range tests on the keyword kind that the
    lexer stored in the token. *)
Theorem reserved_words_agree data :
  (1 < length data)%nat ->
  isStrictModeReservedWord data = tokenIsStrictModeReservedWord (getKeyword data) /\
  isRestrictedWord data = tokenIsRestrictedWord (getKeyword data) /\
  isFutureReservedWord data
  = bool_decide (In (getKeyword data) [EnumKeyword; SuperKeyword; ExportKeyword; ImportKeyword]).
Proof.
  intros Hlen. pose proof (getKeyword_text data Hlen) as Htext.
  destruct (decide (getKeyword data = NotKeyword)) as [Hn|Hne].
  - rewrite Hn. pose proof (reserved_is_keyword data) as Hr.
    destruct (isStrictModeReservedWord data), (isRestrictedWord data), (isFutureReservedWord data);
      try (exfalso; apply Hr; [reflexivity|exact Hn]). vm_compute. auto.
  - destruct (Htext Hne) as [Hk Ht]. revert Hk. rewrite <- Ht.
    destruct (getKeyword data); intros Hk; try discriminate Hk; vm_compute; auto.
Qed.

Lemma reserved_words_agree_witness :
  isStrictModeReservedWord (bytes "yield") = true /\
  isStrictModeReservedWord (bytes "yield")
  = tokenIsStrictModeReservedWord (getKeyword (bytes "yield")).
Proof.
  split; [reflexivity|]. apply (reserved_words_agree (bytes "yield")). vm_compute. lia.
Defined.

(** * The identifier tables are searched correctly

    [identSearch] is the binary search of [isIdentifierPartSlow] and
    [isIdentifierPartSlowSupplementary] ([Lexer.cpp]).  It is compared here with
    the plain scan of the table, for every code point. *)

(** [ch] lies in one of the ranges [0 .. n - 1]. *)
Definition in_ranges (starts : list Z) (lengthAt : nat -> Z) (n : nat) (ch : Z) : Prop :=
  exists i, (i < n)%nat /\ nth i starts 0 <= ch <= nth i starts 0 + lengthAt i /\
    ch < nth (i + 1) starts 0.

(** Neighbours increase. *)
Fixpoint increasing (l : list Z) : bool :=
  match l with
  | x :: (y :: _) as l' => (x <? y) && increasing l'
  | _ => true
  end.

Lemma increasing_lt l : increasing l = true ->
  forall i j, (i < j < length l)%nat -> nth i l 0 < nth j l 0.
Proof.
  induction l as [|x l IH]; intros Hinc i j Hij; [cbn in Hij; lia|].
  assert (Hl : increasing l = true).
  { destruct l; [reflexivity|]. cbn in Hinc. to_prop. assumption. }
  assert (Hx : forall k, (k < length l)%nat -> x < nth k l 0).
  { intros k Hk. destruct l as [|y l]; [cbn in Hk; lia|]. cbn [increasing] in Hinc. to_prop.
    destruct k as [|k]; [cbn; assumption|].
    specialize (IH Hl 0%nat (Datatypes.S k) ltac:(lia)). cbn [nth] in *. lia. }
  destruct j as [|j]; [lia|]. cbn [length] in Hij. destruct i as [|i]; cbn [nth].
  - apply Hx. lia.
  - apply IH; [exact Hl|lia].
Qed.

Section Search.
Variables (starts : list Z) (lengthAt : nat -> Z) (n : nat).
Hypothesis Hsorted : increasing starts = true.
Hypothesis Hlen : length starts = (n + 1)%nat.

Lemma starts_le i j : (i <= j <= n)%nat -> nth i starts 0 <= nth j starts 0.
Proof.
  intros Hij. destruct (decide (i = j)) as [->|]; [lia|].
  apply Z.lt_le_incl, increasing_lt; [exact Hsorted|lia].
Qed.

(** What the search window promises about the rest of the table. *)
Definition window (bottom top : nat) (ch : Z) : Prop :=
  (bottom < top <= n)%nat /\ (bottom = 0%nat \/ nth bottom starts 0 <= ch) /\
  (top = n \/ ch < nth top starts 0).

(** With the window closed at [k] there is no range left. *)
Lemma window_closed k ch :
  (k <= n)%nat -> (k = 0%nat \/ nth k starts 0 <= ch) -> (k = n \/ ch < nth k starts 0) ->
  ~ in_ranges starts lengthAt n ch.
Proof.
  intros Hk Hlo Hhi (i & Hi & Hin & Hnext).
  destruct (Nat.lt_ge_cases i k) as [Hik|Hik].
  - pose proof (starts_le (i + 1) k ltac:(lia)). lia.
  - pose proof (starts_le k i ltac:(lia)). lia.
Qed.

Lemma identSearch_correct fuel : forall bottom top ch,
  window bottom top ch -> (top - bottom <= fuel)%nat ->
  exists b, identSearch starts lengthAt fuel bottom top ch = Some b /\
    (b = true <-> in_ranges starts lengthAt n ch).
Proof.
  induction fuel as [|fuel IH]; intros bottom top ch (Hbt & Hlo & Hhi) Hf; [lia|].
  cbn [identSearch]. cbv zeta.
  assert (Hm : (bottom <= Nat.div2 (bottom + top) < top)%nat).
  { pose proof (Nat.div2_odd (bottom + top)). destruct (Nat.odd (bottom + top)); cbn in *; lia. }
  set (m := Nat.div2 (bottom + top)) in *. clearbody m.
  assert (Hno : forall k, (k <= n)%nat -> (k = 0%nat \/ nth k starts 0 <= ch) ->
    (k = n \/ ch < nth k starts 0) ->
    exists b, Some false = Some b /\ (b = true <-> in_ranges starts lengthAt n ch)).
  { intros k Hk1 Hk2 Hk3. exists false. split; [reflexivity|]. split; [discriminate|].
    intros Hb. destruct (window_closed k ch); assumption. }
  case_if; to_prop.
  - case_if; to_prop.
    + eexists. split; [reflexivity|]. rewrite Z.leb_le. split.
      * intros H. exists m. lia.
      * intros (i & Hi & Hin & Hnext).
        destruct (decide (i = m)) as [->|Hne]; [lia|].
        destruct (Nat.lt_ge_cases i m) as [Him|Him].
        -- pose proof (starts_le (i + 1) m ltac:(lia)). lia.
        -- pose proof (starts_le (m + 1) i ltac:(lia)). lia.
    + case_if; to_prop; [eapply (Hno top); (lia || intuition congruence)|].
      apply IH; [|lia]. split; [lia|]. auto.
  - case_if; to_prop; [eapply (Hno m); (lia || intuition congruence)|].
    apply IH; [|lia]. split; [lia|]. auto.
Qed.
End Search.

Definition basic_ranges : nat := length identRangeStart - 1.
Definition supplementary_ranges : nat := length identRangeStartSupplementaryPlane - 1.

(** For every code point both binary searches end and answer whether the code
    point lies in one of the ranges of the table, the last entry of the table
    left out. *)
Theorem identifier_search_correct ch :
  (exists b, isIdentifierPartSlow ch = Some b /\
     (b = true <-> in_ranges identRangeStart basicLengthAt basic_ranges ch)) /\
  (exists b, isIdentifierPartSlowSupplementary ch = Some b /\
     (b = true <->
      in_ranges identRangeStartSupplementaryPlane supplementaryLengthAt supplementary_ranges ch)).
Proof.
  split.
  - apply (identSearch_correct identRangeStart basicLengthAt basic_ranges eq_refl eq_refl).
    + split; [|split; left; reflexivity]. vm_compute. lia.
    + vm_compute. lia.
  - apply (identSearch_correct identRangeStartSupplementaryPlane supplementaryLengthAt
             supplementary_ranges eq_refl eq_refl).
    + split; [|split; left; reflexivity]. vm_compute. lia.
    + vm_compute. lia.
Qed.

(** The last range of each table is dead: no code point from its start on is
    an identifier character, so U+FFDA .. U+FFDC and the variation selectors
    U+E0100 .. U+E01EF, which the tables list, are refused; and the ranges end
    one code point late: U+00AB, the quotation mark after the one-character
    range of U+00AA, is accepted. *)
Theorem identifier_table_edges ch :
  (65498 <= ch -> isIdentifierPartSlow ch = Some false) /\
  (917760 <= ch -> isIdentifierPartSlowSupplementary ch = Some false) /\
  nth basic_ranges identRangeStart 0 = 65498 /\ nth basic_ranges identRangeLength 0 = 2 /\
  isIdentifierPart 0xFFDA = false /\ isIdentifierStart 0xAB = true.
Proof.
  assert (Hlast : forall starts lengthAt n fuel, increasing starts = true ->
    length starts = (n + 1)%nat -> (0 < n <= fuel)%nat -> nth n starts 0 <= ch ->
    identSearch starts lengthAt fuel 0 n ch = Some false).
  { intros starts lengthAt n fuel Hs Hl Hf Hch.
    destruct (identSearch_correct starts lengthAt n Hs Hl fuel 0 n ch) as (b & -> & Hb);
      [split; [lia|auto]|lia|].
    f_equal. destruct b; [|reflexivity]. exfalso.
    apply (window_closed starts lengthAt n Hs Hl n ch); auto. apply Hb. reflexivity. }
  split; [|split].
  - intros H. apply (Hlast _ _ basic_ranges); try (vm_compute; reflexivity); [vm_compute; lia|].
    replace (nth basic_ranges identRangeStart 0) with 65498 by (vm_compute; reflexivity).
    exact H.
  - intros H. apply (Hlast _ _ supplementary_ranges); try (vm_compute; reflexivity); [vm_compute; lia|].
    replace (nth supplementary_ranges identRangeStartSupplementaryPlane 0) with 917760
      by (vm_compute; reflexivity).
    exact H.
  - repeat split; vm_compute; reflexivity.
Qed.
