(* ===== verification/LexState.v ===== *)
(** * The scanner's state, its errors and the comments ([parser/Lexer.h], [Lexer.cpp])

    [Source] is what a [Scanner] is built on: the code units of the source,
    what lies in memory past its end (the scanner reads there without a test
    at a few places), whether it is a module, and the parser context's [await]
    flag.  [ScanState] is the mutable part, which the C++ [saveState] and
    [restoreState] copy. *)

From Stdlib Require Import String.
From S2P Require Import Prelude LexChars.
Local Open Scope Z_scope.
Local Open Scope esc_scope.

Class Source := {
  source : list Z;
  beyond : nat -> Z;
  isModule : bool;
  awaitContext : bool }.

Record ScanState := { index : nat; lineNumber : nat; lineStart : nat }.

(** [esprima::Error]. *)
Record Error := {
  e_index : nat; e_lineNumber : nat; e_column : Z; e_description : list Z; e_message : list Z }.

Inductive Messages : Set :=
| InvalidHexEscapeSequence | UnexpectedTokenIllegal | UnterminatedRegExp
| TemplateOctalLiteral | KeywordMustNotContainEscapedCharacters
| OnlyOneUnderscore | SeparatorAtEnd | SeparatorAfterZero | SeparatorByExponent.

Definition messageText (m : Messages) : list Z :=
  match m with
  | InvalidHexEscapeSequence => bytes "Invalid hexadecimal escape sequence"
  | UnexpectedTokenIllegal => bytes "Unexpected token ILLEGAL"
  | UnterminatedRegExp => bytes "Invalid regular expression: missing /"
  | TemplateOctalLiteral => bytes "Octal literals are not allowed in template strings."
  | KeywordMustNotContainEscapedCharacters => bytes "Keyword must not contain escaped characters"
  | OnlyOneUnderscore => bytes "Only one underscore is allowed as numeric separator"
  | SeparatorAtEnd => bytes "Numeric separators are not allowed at the end of numeric literals"
  | SeparatorAfterZero => bytes "Numeric separator can not be used after leading 0"
  | SeparatorByExponent => bytes "Numeric separator may not appear adjacent to ExponentPart"
  end.

Abbreviation L := (M ScanState Error).

(** [ErrorHandler::throwError]; a [size_t] line has at most twenty digits, and
    the column is computed modulo [2 ^ 64]. *)
Definition throwError {A} (index line : nat) (col : Z) (description : Messages) : L A :=
  throw {| e_index := index; e_lineNumber := line; e_column := to_unsigned 64 col;
           e_description := messageText description;
           e_message := bytes "Line " ++ digits 20 (Z.of_nat line) [] ++ bytes ": "
                        ++ messageText description |}.

Section Scanner.
Context {src : Source}.

Definition sourceCharAt (idx : nat) : Z :=
  match source !! idx with Some c => c | None => beyond idx end.

Definition len : nat := length source.
Definition at_eof (s : ScanState) : bool := (len <=? index s)%nat.

Definition eof : L bool := gets at_eof.
Definition peekCharWithoutEOF : L Z := gets (fun s => sourceCharAt (index s)).
Definition peeked (s : ScanState) : Z := if at_eof s then 0 else sourceCharAt (index s).
Definition peekChar : L Z := gets peeked.
(** [sourceCharAt(this->index + k)]. *)
Definition charAhead (k : nat) : L Z := gets (fun s => sourceCharAt (index s + k)).

Definition setIndex (i : nat) : L unit :=
  modify (fun s => {| index := i; lineNumber := lineNumber s; lineStart := lineStart s |}).
(** [this->index += n]. *)
Definition advance (n : nat) : L unit :=
  modify (fun s => {| index := index s + n; lineNumber := lineNumber s;
                      lineStart := lineStart s |}).
Definition incLineNumber : L unit :=
  modify (fun s => {| index := index s; lineNumber := lineNumber s + 1;
                      lineStart := lineStart s |}).
Definition markLineStart : L unit :=
  modify (fun s => {| index := index s; lineNumber := lineNumber s; lineStart := index s |}).
Definition saveState : L ScanState := get.
Definition restoreState (st : ScanState) : L unit := modify (fun _ => st).

Definition throwUnexpectedToken {A} (message : Messages) : L A :=
  fun s => throwError (index s) (lineNumber s)
             (Z.of_nat (index s) - Z.of_nat (lineStart s) + 1) message s.

(** Fuel for the loops that test [eof()] and move the index at every turn. *)
Definition fuel : nat := S len.

(** ** Comments *)

(** [skipSingleLine] and [skipSingleLineComment], which have the same body. *)
Definition skipSingleLineComment : L unit :=
  loop fuel (fun _ : unit =>
    let! e := eof in
    if e then break tt else
    let! ch := peekCharWithoutEOF in
    do! advance 1 in
    if isLineTerminator ch then
      let! next := peekCharWithoutEOF in
      do! (when! (ch =? 13) && (next =? 10) then advance 1) in
      do! incLineNumber in
      do! markLineStart in
      break tt
    else continue tt) tt.

Definition skipSingleLine : L unit := skipSingleLineComment.

Definition skipMultiLineComment : L unit :=
  let! closed := loop fuel (fun _ : unit =>
    let! e := eof in
    if e then break false else
    let! ch := peekCharWithoutEOF in
    do! advance 1 in
    let! next := peekCharWithoutEOF in
    if isLineTerminator ch then
      do! (when! (ch =? 0x0D) && (next =? 0x0A) then advance 1) in
      do! incLineNumber in
      do! markLineStart in
      continue tt
    else if (ch =? 0x2A) && (next =? 0x2F) then
      do! advance 1 in break true
    else continue tt) tt in
  if closed : bool then ret tt else throwUnexpectedToken UnexpectedTokenIllegal.

(** One turn of the loop of [scanComments]; the flag is [start]. *)
Definition scanComments_turn (start : bool) : L (bool + unit) :=
  let! e := eof in
  if e then break tt else
  let! ch := peekCharWithoutEOF in
  let! c1 := charAhead 1 in
  let! c2 := charAhead 2 in
  let! c3 := charAhead 3 in
  let! i := gets index in
  if isWhiteSpace ch then do! advance 1 in continue start
  else if isLineTerminator ch then
    do! advance 1 in
    do! (when! (ch =? 0x0D) && (c1 =? 0x0A) then advance 1) in
    do! incLineNumber in
    do! markLineStart in
    continue true
  else if ch =? 0x2F then
    if c1 =? 0x2F then do! advance 2 in do! skipSingleLineComment in continue true
    else if c1 =? 0x2A then do! advance 2 in do! skipMultiLineComment in continue start
    else break tt
  else if start && (ch =? 0x2D) then
    if negb isModule && (c1 =? 0x2D) && (c2 =? 0x3E) then
      do! advance 3 in do! skipSingleLineComment in continue start
    else break tt
  else if ch =? 0x3C then
    if negb isModule && (i + 4 <? len)%nat then
      if (c1 =? 33) && (c2 =? 45) && (c3 =? 45) then
        do! advance 4 in do! skipSingleLineComment in continue start
      else break tt
    else break tt
  else break tt.

Definition scanComments : L unit :=
  let! start := gets (fun s => (index s =? 0)%nat) in
  loop fuel scanComments_turn start.
End Scanner.

(** A source from a C string, followed by NULs. *)
Definition script (s : string) : Source :=
  {| source := bytes s; beyond := fun _ => 0; isModule := false; awaitContext := false |}.
Definition start_state : ScanState := {| index := 0; lineNumber := 1; lineStart := 0 |}.

(** * Tokens ([Scanner::ScannerResult] of [parser/Lexer.h])

    The union of the C++ class is the inductive type [TokenValue]; a
    [setResult] overload is a function from the old token to the new one, with
    the fields it does not write kept. *)

(** The integral doubles a lexer loop computes: [None] is [Infinity]. *)
Abbreviation Number := (option Z).

Record ScanTemplateResult := {
  valueCooked : option (list Z);
  valueRaw : list Z;
  head : bool;
  tail : bool;
  templateError : option Error }.

Inductive TokenValue :=
| NoValue
| PunctuatorValue (k : PunctuatorKind)
| KeywordValue (k : KeywordKind)
| StringRange (m_start m_end : nat)
| AllocatedString (s : option (list Z))
| NumberValue (d : Number)
| TemplateValue (r : ScanTemplateResult)
| RegExpValue (body flags : list Z).

Record ScannerResult := {
  type : Token;
  secondaryKeywordKind : KeywordKind;
  startWithZero : bool;
  octal : bool;
  hasAllocatedString : bool;
  hasNonComputedNumberLiteral : bool;
  hasNumberSeparatorOnNumberLiteral : bool;
  t_lineNumber : nat;
  t_lineStart : nat;
  start : nat;
  end_ : nat;
  value : TokenValue }.

Definition newScannerResult : ScannerResult :=
  {| type := InvalidToken; secondaryKeywordKind := NotKeyword; startWithZero := false;
     octal := false; hasAllocatedString := false; hasNonComputedNumberLiteral := false;
     hasNumberSeparatorOnNumberLiteral := false; t_lineNumber := 0; t_lineStart := 0;
     start := 0; end_ := 0; value := NoValue |}.

Definition resetResult (t : ScannerResult) : ScannerResult :=
  {| type := InvalidToken; secondaryKeywordKind := NotKeyword; startWithZero := false;
     octal := false; hasAllocatedString := false; hasNonComputedNumberLiteral := false;
     hasNumberSeparatorOnNumberLiteral := hasNumberSeparatorOnNumberLiteral t;
     t_lineNumber := t_lineNumber t; t_lineStart := t_lineStart t;
     start := start t; end_ := end_ t; value := value t |}.

(** Where a token is: line, start of the line, first and last offset. *)
Record Span := { sp_lineNumber : nat; sp_lineStart : nat; sp_start : nat; sp_end : nat }.

(** What every [setResult] writes. *)
Definition locate (t : ScannerResult) (ty : Token) (sp : Span) (v : TokenValue) : ScannerResult :=
  {| type := ty; secondaryKeywordKind := secondaryKeywordKind t;
     startWithZero := startWithZero t; octal := octal t;
     hasAllocatedString := hasAllocatedString t;
     hasNonComputedNumberLiteral := hasNonComputedNumberLiteral t;
     hasNumberSeparatorOnNumberLiteral := hasNumberSeparatorOnNumberLiteral t;
     t_lineNumber := sp_lineNumber sp; t_lineStart := sp_lineStart sp;
     start := sp_start sp; end_ := sp_end sp; value := v |}.

Definition setOctal (b : bool) (t : ScannerResult) : ScannerResult :=
  {| type := type t; secondaryKeywordKind := secondaryKeywordKind t;
     startWithZero := startWithZero t; octal := b; hasAllocatedString := hasAllocatedString t;
     hasNonComputedNumberLiteral := hasNonComputedNumberLiteral t;
     hasNumberSeparatorOnNumberLiteral := hasNumberSeparatorOnNumberLiteral t;
     t_lineNumber := t_lineNumber t; t_lineStart := t_lineStart t;
     start := start t; end_ := end_ t; value := value t |}.

Definition setStartWithZero (t : ScannerResult) : ScannerResult :=
  {| type := type t; secondaryKeywordKind := secondaryKeywordKind t;
     startWithZero := true; octal := octal t; hasAllocatedString := hasAllocatedString t;
     hasNonComputedNumberLiteral := hasNonComputedNumberLiteral t;
     hasNumberSeparatorOnNumberLiteral := hasNumberSeparatorOnNumberLiteral t;
     t_lineNumber := t_lineNumber t; t_lineStart := t_lineStart t;
     start := start t; end_ := end_ t; value := value t |}.

Definition setSecondaryKeywordKind (k : KeywordKind) (t : ScannerResult) : ScannerResult :=
  {| type := type t; secondaryKeywordKind := k;
     startWithZero := startWithZero t; octal := octal t;
     hasAllocatedString := hasAllocatedString t;
     hasNonComputedNumberLiteral := hasNonComputedNumberLiteral t;
     hasNumberSeparatorOnNumberLiteral := hasNumberSeparatorOnNumberLiteral t;
     t_lineNumber := t_lineNumber t; t_lineStart := t_lineStart t;
     start := start t; end_ := end_ t; value := value t |}.

(** [setResult(type, …)]: the value becomes the number 0. *)
Definition setResult (t : ScannerResult) (ty : Token) (sp : Span) : ScannerResult :=
  locate t ty sp (NumberValue (Some 0)).

Definition setPunctuatorResult (t : ScannerResult) (sp : Span) (p : PunctuatorKind) :=
  locate t PunctuatorToken sp (PunctuatorValue p).

Definition setKeywordResult (t : ScannerResult) (sp : Span) (p : KeywordKind) :=
  locate t KeywordToken sp (KeywordValue p).

(** The overload with a [String*]; [None] is the null pointer. *)
Definition setStringResult (t : ScannerResult) (ty : Token) (s : option (list Z)) (sp : Span)
    (oct : bool) : ScannerResult :=
  let t := locate t ty sp (AllocatedString s) in
  {| type := type t; secondaryKeywordKind := secondaryKeywordKind t;
     startWithZero := startWithZero t; octal := oct; hasAllocatedString := true;
     hasNonComputedNumberLiteral := hasNonComputedNumberLiteral t;
     hasNumberSeparatorOnNumberLiteral := hasNumberSeparatorOnNumberLiteral t;
     t_lineNumber := t_lineNumber t; t_lineStart := t_lineStart t;
     start := start t; end_ := end_ t; value := value t |}.

(** The overload with the range of a string that needs no cooking. *)
Definition setRangeResult (t : ScannerResult) (ty : Token) (stringStart stringEnd : nat)
    (sp : Span) (oct : bool) : ScannerResult :=
  setOctal oct (locate t ty sp (StringRange stringStart stringEnd)).

Definition setNumericLiteralResult (t : ScannerResult) (v : Number) (sp : Span)
    (hasNonComputed hasNumberSeparator : bool) : ScannerResult :=
  let t := locate t NumericLiteralToken sp (NumberValue v) in
  {| type := type t; secondaryKeywordKind := secondaryKeywordKind t;
     startWithZero := startWithZero t; octal := octal t;
     hasAllocatedString := hasAllocatedString t;
     hasNonComputedNumberLiteral := hasNonComputed;
     hasNumberSeparatorOnNumberLiteral := hasNumberSeparator;
     t_lineNumber := t_lineNumber t; t_lineStart := t_lineStart t;
     start := start t; end_ := end_ t; value := value t |}.

Definition setTemplateTokenResult (t : ScannerResult) (v : ScanTemplateResult) (sp : Span) :=
  locate t TemplateToken sp (TemplateValue v).

(** The span from [start] to the scanner's position. *)
Definition spanFrom (st : nat) : L Span :=
  gets (fun s => {| sp_lineNumber := lineNumber s; sp_lineStart := lineStart s;
                    sp_start := st; sp_end := index s |}).

(** [convertToKeywordInStrictMode]. *)
Definition convertToKeywordInStrictMode (t : ScannerResult) : ScannerResult :=
  {| type := KeywordToken; secondaryKeywordKind := secondaryKeywordKind t;
     startWithZero := startWithZero t; octal := octal t;
     hasAllocatedString := hasAllocatedString t;
     hasNonComputedNumberLiteral := hasNonComputedNumberLiteral t;
     hasNumberSeparatorOnNumberLiteral := hasNumberSeparatorOnNumberLiteral t;
     t_lineNumber := t_lineNumber t; t_lineStart := t_lineStart t;
     start := start t; end_ := end_ t; value := KeywordValue (secondaryKeywordKind t) |}.

Definition equalsToKeyword (t : ScannerResult) (k : KeywordKind) : bool :=
  bool_decide (secondaryKeywordKind t = k).
Definition equalsToKeywordNoEscape (t : ScannerResult) (k : KeywordKind) : bool :=
  bool_decide (secondaryKeywordKind t = k) && negb (hasAllocatedString t).

(** [relatedSource]: the text a token spans. *)
Definition relatedSource (t : ScannerResult) (l : list Z) : list Z :=
  take (end_ t - start t) (drop (start t) l).
