(* ===== verification/LexNumber.v ===== *)
(** * Escapes and numeric literals ([Lexer.cpp])

    A [char32_t] or [uint64_t] accumulator wraps as the C++ type does.  The
    doubles that the radix loops produce are integers: [round53] rounds to the
    53-bit significand, ties to even, and [None] is [Infinity]. *)

From S2P Require Import Prelude Float64 LexChars LexState.
Local Open Scope Z_scope.
Local Open Scope esc_scope.

(** ** Integral doubles *)

(** The double nearest to an integer, while the exponent fits. *)
Definition round53 (z : Z) : Z :=
  let e := Z.max 0 (Z.log2 z - 52) in round_even z (2 ^ e) * 2 ^ e.

Definition to_double (z : Z) : Number :=
  let r := round53 z in if r <? 2 ^ 1024 then Some r else None.

(** [numberDouble * 16 + digit], an operation at a time. *)
Definition double_times16_plus (x : Number) (d : Z) : Number :=
  match x with
  | None => None
  | Some x => match to_double (x * 16) with
              | None => None
              | Some y => to_double (y + d)
              end
  end.

Section Literals.
Context {src : Source}.

(** ** Escapes *)

Definition EMPTY_CODE_POINT : Z := 2 ^ 32 - 1.
Definition NON_OCTAL_VALUE : Z := 256.

(** [scanHexEscape]: [n] digits are left to read. *)
Fixpoint hexEscapeDigits (n : nat) (code : Z) : L Z :=
  match n with
  | O => ret code
  | S n =>
    let! e := eof in
    let! ch := peekCharWithoutEOF in
    if negb e && isHexDigit ch then
      do! advance 1 in hexEscapeDigits n (to_unsigned 32 (code * 16 + hexValue ch))
    else ret EMPTY_CODE_POINT
  end.

Definition scanHexEscape (prefix : Z) : L Z :=
  hexEscapeDigits (if prefix =? 117 then 4 else 2) 0.

(** [scanUnicodeCodePointEscape]: the loop's state is [code] and [ch]. *)
Definition scanUnicodeCodePointEscape : L Z :=
  let! e := eof in
  let! ch := peekCharWithoutEOF in
  do! (when! e || (ch =? 125) then throwUnexpectedToken UnexpectedTokenIllegal) in
  let! ' (code, ch) := loop fuel (fun st : Z * Z =>
    let '(code, ch) := st in
    let! e := eof in
    if e then break (code, ch) else
    let! ch := peekCharWithoutEOF in
    do! advance 1 in
    if negb (isHexDigit ch) then break (code, ch)
    else continue (to_unsigned 32 (code * 16 + hexValue ch), ch)) (0, 0) in
  if (0x10FFFF <? code) || negb (ch =? 125) then throwUnexpectedToken UnexpectedTokenIllegal
  else ret code.

(** [octalToDecimal]; [char16_t code] cannot wrap, three octal digits fit. *)
Definition octalToDecimal (ch : Z) (octal : bool) : L Z :=
  let code := octalValue ch in
  let octal := octal || negb (ch =? 48) in
  let! e := eof in
  let! p := peekChar in
  if negb e && isOctalDigit p then
    let code := code * 8 + octalValue p in
    do! advance 1 in
    let! e := eof in
    let! p := peekChar in
    if (48 <=? ch) && (ch <=? 51) && negb e && isOctalDigit p then
      do! advance 1 in ret (code * 8 + octalValue p)
    else ret code
  else ret (if octal then code else NON_OCTAL_VALUE).

(** ** Numeric literals *)

Definition throwAt {A} (start : nat) (m : Messages) : L A :=
  fun s => throwError start (lineNumber s)
             (Z.of_nat start - Z.of_nat (lineStart s) + 1) m s.

(** The [for] loops that look at [source[i]] and [source[i + 1]] up to the
    character before the last one read. *)
Fixpoint forEachPair (check : Z -> Z -> L unit) (i : nat) (n : nat) : L unit :=
  match n with
  | O => ret tt
  | S n =>
    do! check (sourceCharAt i) (sourceCharAt (i + 1)) in forEachPair check (i + 1) n
  end.

(** The check for an underscore at the end. *)
Definition testSeparatorAtEnd (start : nat) (isBigInt : bool) : L unit :=
  let! i := gets index in
  when! (sourceCharAt (i - 1) =? 95) || (isBigInt && (sourceCharAt (i - 2) =? 95))
  then throwAt start SeparatorAtEnd.

Definition testNumericSeparator (start : nat) (isBigInt isHex isBinary isOctal : bool) : L unit :=
  let! i := gets index in
  do! forEachPair (fun ch next =>
    do! (when! (ch =? 95) && (next =? 95) then throwAt start OnlyOneUnderscore) in
    do! (when! isHex && ((ch =? 120) || (ch =? 88)) && (next =? 95)
         then throwUnexpectedToken UnexpectedTokenIllegal) in
    do! (when! isBinary && ((ch =? 98) || (ch =? 66)) && (next =? 95)
         then throwUnexpectedToken UnexpectedTokenIllegal) in
    when! isOctal && ((ch =? 111) || (ch =? 79)) && (next =? 95)
    then throwUnexpectedToken UnexpectedTokenIllegal) start (i - 1 - start) in
  testSeparatorAtEnd start isBigInt.

(** The variables of the loop of [scanHexLiteral]. *)
Record HexState := {
  h_number : Z; h_double : Number; h_useDouble : bool; h_scanned : bool;
  h_underscore : bool; h_shiftCount : nat }.

Definition hexStep (ch : Z) (h : HexState) : HexState :=
  if h_useDouble h then
    {| h_number := h_number h;
       h_double := double_times16_plus (h_double h) (toHexNumericValue ch);
       h_useDouble := true; h_scanned := true; h_underscore := h_underscore h;
       h_shiftCount := h_shiftCount h |}
  else
    let number := to_unsigned 64 (to_unsigned 64 (Z.shiftl (h_number h) 4)
                                  + toHexNumericValue ch) in
    let shiftCount := S (h_shiftCount h) in
    if (16 <=? shiftCount)%nat then
      {| h_number := 0; h_double := to_double number; h_useDouble := true;
         h_scanned := true; h_underscore := h_underscore h; h_shiftCount := shiftCount |}
    else
      {| h_number := number; h_double := h_double h; h_useDouble := false;
         h_scanned := true; h_underscore := h_underscore h; h_shiftCount := shiftCount |}.

Definition hexUnderscore (h : HexState) : HexState :=
  {| h_number := h_number h; h_double := h_double h; h_useDouble := h_useDouble h;
     h_scanned := h_scanned h; h_underscore := true; h_shiftCount := h_shiftCount h |}.

Definition hexStart : HexState :=
  {| h_number := 0; h_double := Some 0; h_useDouble := false; h_scanned := false;
     h_underscore := false; h_shiftCount := 0 |}.

(** The suffix [n], which every radix shares: is it there, and is this the
    end of the source. *)
Definition scanBigIntSuffix (allowed : bool) : L (bool * bool) :=
  let! isEof := eof in
  let! p := peekChar in
  let isBigInt := negb isEof && allowed && (p =? 110) in
  do! (when! isBigInt then advance 1) in
  ret (isEof, isBigInt).

Definition scanHexLiteral (token : ScannerResult) (start : nat) : L ScannerResult :=
  let! h := loop fuel (fun h : HexState =>
    let! e := eof in
    if e then break h else
    let! ch := peekCharWithoutEOF in
    let '(isDigit, _) := isHexDigitOrUnderscore ch in
    if negb isDigit then break h
    else if ch =? 95 then do! advance 1 in continue (hexUnderscore h)
    else do! advance 1 in continue (hexStep ch h)) hexStart in
  do! (when! negb (h_scanned h) then throwUnexpectedToken UnexpectedTokenIllegal) in
  let! ' (isEof, isBigInt) := scanBigIntSuffix true in
  let! p := peekChar in
  do! (when! negb isEof && isIdentifierStart p
       then throwUnexpectedToken UnexpectedTokenIllegal) in
  do! (when! h_underscore h then testNumericSeparator start isBigInt true false false) in
  let! sp := spanFrom start in
  ret (setNumericLiteralResult token
         (if h_useDouble h then h_double h else to_double (h_number h)) sp isBigInt
         (h_underscore h)).

(** The loops of [scanBinaryLiteral] and [scanOctalLiteral]: the state is
    [number], [scanned] and [seenUnderscore]. *)
Definition radixLoop (isDigit : Z -> bool) (bits : Z) (allowUnderscore : bool)
    : L (Z * bool * bool) :=
  loop fuel (fun st : Z * bool * bool =>
    let '(number, scanned, seenUnderscore) := st in
    let! e := eof in
    if e then break st else
    let! ch := peekCharWithoutEOF in
    if allowUnderscore && (ch =? 95) then
      do! advance 1 in continue (number, scanned, true)
    else if isDigit ch then
      do! advance 1 in
      continue (to_unsigned 64 (to_unsigned 64 (Z.shiftl number bits) + ch - 48), true,
                seenUnderscore)
    else break st) (0, false, false).

Definition isBinaryDigit (ch : Z) : bool := (ch =? 48) || (ch =? 49).

Definition scanBinaryLiteral (token : ScannerResult) (start : nat) : L ScannerResult :=
  let! ' (number, scanned, seenUnderscore) := radixLoop isBinaryDigit 1 true in
  do! (when! negb scanned then throwUnexpectedToken UnexpectedTokenIllegal) in
  let! ' (isEof, isBigInt) := scanBigIntSuffix true in
  let! p := peekChar in
  do! (when! negb isEof && (isIdentifierStart p || isDecimalDigit p)
       then throwUnexpectedToken UnexpectedTokenIllegal) in
  do! (when! seenUnderscore then testNumericSeparator start isBigInt false true false) in
  let! sp := spanFrom start in
  ret (setNumericLiteralResult token (to_double number) sp isBigInt seenUnderscore).

Definition scanOctalLiteral (token : ScannerResult) (prefix : Z) (start : nat)
    (isLegacyOctal : bool) : L ScannerResult :=
  let oct := isOctalDigit prefix in
  let! ' (number, scanned, seenUnderscore) := radixLoop isOctalDigit 3 (negb isLegacyOctal) in
  do! (when! negb oct && negb scanned then throwUnexpectedToken UnexpectedTokenIllegal) in
  let! ' (isEof, isBigInt) := scanBigIntSuffix (negb isLegacyOctal) in
  let! ch := peekChar in
  do! (when! isIdentifierStart ch || isDecimalDigit ch
       then throwUnexpectedToken UnexpectedTokenIllegal) in
  do! (when! seenUnderscore then testNumericSeparator start isBigInt false false true) in
  let! sp := spanFrom start in
  ret (setOctal oct
         (setNumericLiteralResult token (to_double number) sp isBigInt seenUnderscore)).

(** [isImplicitOctalLiteral]: the [for] loop from [i], [n] characters left. *)
Fixpoint implicitOctalFrom (i n : nat) : bool :=
  match n with
  | O => true
  | S n =>
    let ch := sourceCharAt i in
    if (ch =? 56) || (ch =? 57) then false
    else if negb (isOctalDigit ch) then true
    else implicitOctalFrom (i + 1) n
  end.
Definition isImplicitOctalLiteral : L bool :=
  gets (fun s => implicitOctalFrom (index s + 1) (len - (index s + 1))).

(** [while (isDecimalDigitOrUnderscore(peekChar(), seenUnderscore)) ++index]. *)
Definition skipDigits (seenUnderscore : bool) : L bool :=
  loop fuel (fun seen : bool =>
    let! ch := peekChar in
    let '(isDigit, underscore) := isDecimalDigitOrUnderscore ch in
    if isDigit then do! advance 1 in continue (seen || underscore)
    else break seen) seenUnderscore.

(** The exponent part, after the [e]. *)
Definition scanExponent (seenUnderscore : bool) : L bool :=
  do! advance 1 in
  let! ch := peekChar in
  do! (when! (ch =? 43) || (ch =? 45) then advance 1) in
  let! ch := peekChar in
  if isDecimalDigit ch then do! advance 1 in skipDigits seenUnderscore
  else throwUnexpectedToken UnexpectedTokenIllegal.

(** The checks for separators in a decimal literal. *)
Definition testDecimalSeparator (start : nat) (isBigInt : bool) : L unit :=
  do! (when! sourceCharAt start =? 48 then throwAt start SeparatorAfterZero) in
  let! i := gets index in
  do! forEachPair (fun ch next =>
    do! (when! (ch =? 95) && (next =? 95) then throwAt start OnlyOneUnderscore) in
    do! (when! (ch =? 95) && ((next =? 101) || (next =? 69))
         then throwAt start SeparatorByExponent) in
    when! (ch =? 46) && (next =? 95) then throwUnexpectedToken UnexpectedTokenIllegal)
    start (i - 1 - start) in
  testSeparatorAtEnd start isBigInt.

(** [scanNumericLiteral] from the fraction on: [ch] is the character after
    the integer part. *)
Definition scanDecimalTail (token : ScannerResult) (start : nat) (startChar ch : Z)
    (seenUnderscore : bool) : L ScannerResult :=
  let! ' (seenDotOrE, seenUnderscore, ch) :=
    (if ch =? 46 then
       do! advance 1 in
       let! seen := skipDigits seenUnderscore in
       let! ch := peekChar in ret (true, seen, ch)
     else ret (false, seenUnderscore, ch)) in
  let! ' (seenDotOrE, seenUnderscore) :=
    (if (ch =? 101) || (ch =? 69) then
       let! seen := scanExponent seenUnderscore in ret (true, seen)
     else ret (seenDotOrE, seenUnderscore)) in
  let! isEof := eof in
  let! p := peekChar in
  let! i := gets index in
  let isBigInt := negb isEof && (p =? 110) in
  do! (when! isBigInt then
         do! (when! seenDotOrE || ((startChar =? 48) && (1 <? i - start)%nat)
              then throwUnexpectedToken UnexpectedTokenIllegal) in
         advance 1) in
  let! p := peekChar in
  do! (when! negb isEof && isIdentifierStart p
       then throwUnexpectedToken UnexpectedTokenIllegal) in
  do! (when! seenUnderscore then testDecimalSeparator start isBigInt) in
  let! sp := spanFrom start in
  let token := setNumericLiteralResult token (Some 0) sp true seenUnderscore in
  let! i := gets index in
  ret (if (startChar =? 48) && negb seenDotOrE
          && ((if isBigInt then 2 else 1) <? i - start)%nat
       then setStartWithZero token else token).

Definition scanNumericLiteral (token : ScannerResult) : L ScannerResult :=
  let! start := gets index in
  let! startChar := peekChar in
  if negb (startChar =? 46) then
    do! advance 1 in
    let! ch := peekChar in
    let! implicitOctal := isImplicitOctalLiteral in
    if (startChar =? 48) && ((ch =? 120) || (ch =? 88)) then
      do! advance 1 in scanHexLiteral token start
    else if (startChar =? 48) && ((ch =? 98) || (ch =? 66)) then
      do! advance 1 in scanBinaryLiteral token start
    else if (startChar =? 48) && ((ch =? 111) || (ch =? 79)) then
      do! advance 1 in scanOctalLiteral token ch start false
    else if (startChar =? 48) && negb (ch =? 0) && isOctalDigit ch && implicitOctal then
      scanOctalLiteral token ch start true
    else
      let! seenUnderscore := skipDigits false in
      let! ch := peekChar in
      scanDecimalTail token start startChar ch seenUnderscore
  else scanDecimalTail token start startChar startChar false.
End Literals.
