(* ===== verification/LexPunct.v ===== *)
(** * Punctuators ([Scanner::scanPunctuator] of [Lexer.cpp])

    One definition per case of the switch that looks at more than one
    character; each starts with the index after the first character. *)

From Stdlib Require Import String.
From S2P Require Import Prelude LexChars LexState.
Local Open Scope Z_scope.
Local Open Scope esc_scope.

Section Punctuators.
Context {src : Source}.

Definition scanDot : L PunctuatorKind :=
  let! ch := peekChar in
  let! next := charAhead 1 in
  if (ch =? 46) && (next =? 46) then do! advance 2 in ret PeriodPeriodPeriod else ret Period.

(** [if (this->peekChar() == '=') ++this->index]: the longer kind, or the
    shorter. *)
Definition withEqual (shorter longer : PunctuatorKind) : L PunctuatorKind :=
  let! ch := peekChar in
  if ch =? 61 then do! advance 1 in ret longer else ret shorter.

Definition scanQuestion : L PunctuatorKind :=
  let! ch := peekChar in
  if ch =? 63 then do! advance 1 in withEqual NullishCoalescing LogicalNullishEqual
  else if ch =? 46 then do! advance 1 in ret GuessDot
  else ret GuessMark.

Definition scanGreater : L PunctuatorKind :=
  let! ch := peekChar in
  if ch =? 62 then
    do! advance 1 in
    let! ch := peekChar in
    if ch =? 62 then do! advance 1 in withEqual UnsignedRightShift UnsignedRightShiftEqual
    else if ch =? 61 then do! advance 1 in ret RightShiftEqual
    else ret RightShift
  else if ch =? 61 then do! advance 1 in ret RightInequalityEqual
  else ret RightInequality.

Definition scanLess : L PunctuatorKind :=
  let! ch := peekChar in
  if ch =? 60 then do! advance 1 in withEqual LeftShift LeftShiftEqual
  else if ch =? 61 then do! advance 1 in ret LeftInequalityEqual
  else ret LeftInequality.

Definition scanEqual : L PunctuatorKind :=
  let! ch := peekChar in
  if ch =? 61 then do! advance 1 in withEqual Equal StrictEqual
  else if ch =? 62 then do! advance 1 in ret Arrow
  else ret Substitution.

Definition scanExclamation : L PunctuatorKind :=
  let! ch := peekChar in
  if ch =? 61 then do! advance 1 in withEqual NotEqual NotStrictEqual
  else ret ExclamationMark.

Definition scanAmpersand : L PunctuatorKind :=
  let! ch := peekChar in
  if ch =? 38 then do! advance 1 in withEqual LogicalAnd LogicalAndEqual
  else if ch =? 61 then do! advance 1 in ret BitwiseAndEqual
  else ret BitwiseAnd.

Definition scanBar : L PunctuatorKind :=
  let! ch := peekChar in
  if ch =? 124 then do! advance 1 in withEqual LogicalOr LogicalOrEqual
  else if ch =? 61 then do! advance 1 in ret BitwiseOrEqual
  else ret BitwiseOr.

(** ['+'] and ['-']. *)
Definition scanSign (sign : Z) (single double equal : PunctuatorKind) : L PunctuatorKind :=
  let! ch := peekChar in
  if ch =? sign then do! advance 1 in ret double
  else if ch =? 61 then do! advance 1 in ret equal
  else ret single.

Definition scanStar : L PunctuatorKind :=
  let! ch := peekChar in
  if ch =? 61 then do! advance 1 in ret MultiplyEqual
  else if ch =? 42 then do! advance 1 in withEqual Exponentiation ExponentiationEqual
  else ret Multiply.

Definition scanHash : L PunctuatorKind :=
  let! i := gets index in
  let! ch := peekChar in
  if (i =? 1)%nat && (ch =? 33) then do! advance 1 in ret HashBang else ret Hash.

(** The switch on the first character. *)
Definition punctuatorKind (ch : Z) : L PunctuatorKind :=
  if ch =? 40 then ret LeftParenthesis
  else if ch =? 123 then ret LeftBrace
  else if ch =? 46 then scanDot
  else if ch =? 125 then ret RightBrace
  else if ch =? 41 then ret RightParenthesis
  else if ch =? 59 then ret SemiColon
  else if ch =? 44 then ret Comma
  else if ch =? 91 then ret LeftSquareBracket
  else if ch =? 93 then ret RightSquareBracket
  else if ch =? 58 then ret Colon
  else if ch =? 63 then scanQuestion
  else if ch =? 126 then ret Wave
  else if ch =? 62 then scanGreater
  else if ch =? 60 then scanLess
  else if ch =? 61 then scanEqual
  else if ch =? 33 then scanExclamation
  else if ch =? 38 then scanAmpersand
  else if ch =? 124 then scanBar
  else if ch =? 94 then withEqual BitwiseXor BitwiseXorEqual
  else if ch =? 43 then scanSign 43 Plus PlusPlus PlusEqual
  else if ch =? 45 then scanSign 45 Minus MinusMinus MinusEqual
  else if ch =? 42 then scanStar
  else if ch =? 47 then withEqual Divide DivideEqual
  else if ch =? 37 then withEqual Mod ModEqual
  else if ch =? 35 then scanHash
  else throwUnexpectedToken UnexpectedTokenIllegal.

Definition scanPunctuator (token : ScannerResult) (ch : Z) : L ScannerResult :=
  let! start := gets index in
  do! advance 1 in
  let! kind := punctuatorKind ch in
  let! sp := spanFrom start in
  ret (setPunctuatorResult token sp kind).
End Punctuators.

(** ** The texts of the punctuators *)

(** The kinds the lexer makes, with their texts. *)
Definition punctuators : list (PunctuatorKind * list Z) := Eval vm_compute in
  [(LeftParenthesis, bytes "("); (LeftBrace, bytes "{"); (Period, bytes ".");
   (PeriodPeriodPeriod, bytes "..."); (RightBrace, bytes "}"); (RightParenthesis, bytes ")");
   (SemiColon, bytes ";"); (Comma, bytes ","); (LeftSquareBracket, bytes "[");
   (RightSquareBracket, bytes "]"); (Colon, bytes ":"); (GuessMark, bytes "?");
   (NullishCoalescing, bytes "??"); (LogicalNullishEqual, bytes "??="); (GuessDot, bytes "?.");
   (Wave, bytes "~"); (RightInequality, bytes ">"); (RightShift, bytes ">>");
   (UnsignedRightShift, bytes ">>>"); (UnsignedRightShiftEqual, bytes ">>>=");
   (RightShiftEqual, bytes ">>="); (RightInequalityEqual, bytes ">="); (LeftInequality, bytes "<");
   (LeftShift, bytes "<<"); (LeftShiftEqual, bytes "<<="); (LeftInequalityEqual, bytes "<=");
   (Substitution, bytes "="); (Equal, bytes "=="); (StrictEqual, bytes "==="); (Arrow, bytes "=>");
   (ExclamationMark, bytes "!"); (NotEqual, bytes "!="); (NotStrictEqual, bytes "!==");
   (BitwiseAnd, bytes "&"); (LogicalAnd, bytes "&&"); (LogicalAndEqual, bytes "&&=");
   (BitwiseAndEqual, bytes "&="); (BitwiseOr, bytes "|"); (LogicalOr, bytes "||");
   (LogicalOrEqual, bytes "||="); (BitwiseOrEqual, bytes "|="); (BitwiseXor, bytes "^");
   (BitwiseXorEqual, bytes "^="); (Plus, bytes "+"); (PlusPlus, bytes "++");
   (PlusEqual, bytes "+="); (Minus, bytes "-"); (MinusMinus, bytes "--"); (MinusEqual, bytes "-=");
   (Multiply, bytes "*"); (MultiplyEqual, bytes "*="); (Exponentiation, bytes "**");
   (ExponentiationEqual, bytes "**="); (Divide, bytes "/"); (DivideEqual, bytes "/=");
   (Mod, bytes "%"); (ModEqual, bytes "%="); (Hash, bytes "#"); (HashBang, bytes "#!")].
