(* ===== verification/LexString.v ===== *)
(** * String, template and regular-expression literals ([Lexer.cpp])

    [scanStringLiteral] finds the end of a literal; [constructStringLiteral]
    cooks it later, from the token alone.  Strings are appended unit by unit, in
    order. *)

From Stdlib Require Import String.
From S2P Require Import Prelude LexChars LexState LexNumber.
Local Open Scope Z_scope.
Local Open Scope esc_scope.

(** The local variables of [scanTemplate]. *)
Record TemplateVars := { cooked : list Z; raw : list Z; indexForError : nat }.

Abbreviation TL := (M (ScanState * TemplateVars) Error).

Definition lift {A} (m : L A) : TL A :=
  fun sv => let (o, s) := m (fst sv) in (o, (s, snd sv)).

(** Run with fresh variables; [indexForError] starts at the index. *)
Definition withVars {A} (m : TL A) : L (A * TemplateVars) :=
  fun s =>
    match m (s, {| cooked := []; raw := []; indexForError := index s |}) with
    | (Ret a, (s', v)) => (Ret (a, v), s')
    | (Throw e, (s', _)) => (Throw e, s')
    | (Fuel, (s', _)) => (Fuel, s')
    end.

Section Strings.
Context {src : Source}.

(** ** [scanStringLiteral] *)

(** A backslash and a line terminator: [ch] is the terminator, already read. *)
Definition lineContinuation (ch : Z) : L unit :=
  do! incLineNumber in
  let! p := peekChar in
  do! (when! ((ch =? 13) && (p =? 10)) || ((ch =? 10) && (p =? 13)) then advance 1) in
  markLineStart.

(** The escapes: [ch] is the character after the backslash, already read; the
    answer is the new [octal]. *)
Definition scanStringEscape (ch : Z) (octal : bool) : L bool :=
  if ch =? 117 then
    let! p := peekChar in
    if p =? 123 then
      do! advance 1 in do! scanUnicodeCodePointEscape in ret octal
    else
      let! code := scanHexEscape ch in
      if code =? EMPTY_CODE_POINT then throwUnexpectedToken InvalidHexEscapeSequence
      else ret octal
  else if ch =? 120 then
    let! code := scanHexEscape ch in
    if code =? EMPTY_CODE_POINT then throwUnexpectedToken InvalidHexEscapeSequence
    else ret octal
  else if (ch =? 110) || (ch =? 114) || (ch =? 116) || (ch =? 98) || (ch =? 102)
          || (ch =? 118) then ret octal
  else if negb (ch =? 0) && isOctalDigit ch then
    let! v := octalToDecimal ch false in ret (octal || negb (v =? NON_OCTAL_VALUE))
  else if isDecimalDigit ch then ret true
  else ret octal.

(** One turn of the loop; the state is [octal] and [isPlainCase], and a
    [break] says whether the closing quote was found. *)
Definition scanString_turn (quote : Z) (st : bool * bool)
    : L ((bool * bool) + (bool * bool * bool)) :=
  let '(octal, isPlainCase) := st in
  let! e := eof in
  if e then break (octal, isPlainCase, false) else
  let! ch := peekCharWithoutEOF in
  do! advance 1 in
  if ch =? quote then break (octal, isPlainCase, true)
  else if ch =? 92 then
    let! ch := peekChar in
    do! advance 1 in
    if (ch =? 0) || negb (isLineTerminator ch) then
      let! octal := scanStringEscape ch octal in continue (octal, false)
    else
      do! lineContinuation ch in continue (octal, false)
  else if (ch <? 128) && asciiClass LexerIsCharLineTerminator ch then
    break (octal, isPlainCase, false)
  else continue (octal, isPlainCase).

Definition scanStringLiteral (token : ScannerResult) : L ScannerResult :=
  let! start := gets index in
  let! quote := peekChar in
  do! advance 1 in
  let! ' (octal, isPlainCase, closed) := loop fuel (scanString_turn quote) (false, true) in
  do! (when! negb closed then
         do! setIndex start in throwUnexpectedToken UnexpectedTokenIllegal) in
  let! sp := spanFrom start in
  ret (if isPlainCase : bool then
         setRangeResult token StringLiteralToken (start + 1) (sp_end sp - 1) sp octal
       else setStringResult token StringLiteralToken None sp octal).

(** ** [constructStringLiteral] *)

(** [constructStringLiteralHelperAppendUTF16]: the units to append. *)
Definition constructEscape (ch : Z) : L (list Z) :=
  if (ch =? 117) || (ch =? 120) then
    let! p := peekChar in
    let! param := (if p =? 123 then do! advance 1 in scanUnicodeCodePointEscape
                   else scanHexEscape ch) in
    ret (ParserCharPiece param)
  else if ch =? 110 then ret [10]
  else if ch =? 114 then ret [13]
  else if ch =? 116 then ret [9]
  else if ch =? 98 then ret [8]
  else if ch =? 102 then ret [12]
  else if ch =? 118 then ret [11]
  else if negb (ch =? 0) && isOctalDigit ch then
    let! v := octalToDecimal ch true in ret [v]
  else ret [ch].

(** One turn of [while (true)]; the state is the string so far. *)
Definition construct_turn (quote : Z) (str : list Z) : L (list Z + list Z) :=
  let! ch := peekChar in
  do! advance 1 in
  if ch =? quote then break str
  else if ch =? 92 then
    let! ch := peekChar in
    do! advance 1 in
    if (ch =? 0) || negb (isLineTerminator ch) then
      let! piece := constructEscape ch in continue (str ++ piece)
    else do! lineContinuation ch in continue str
  else if isLineTerminator ch then break str
  else continue (str ++ [ch]).

(** The cooked string; the scanner's state is put back. *)
Definition constructStringLiteral (token : ScannerResult) : L (list Z) :=
  let! backup := saveState in
  do! setIndex (start token) in
  let! quote := peekChar in
  do! advance 1 in
  let! str := loop fuel (construct_turn quote) [] in
  do! restoreState backup in
  ret str.

(** [String::fromLatin1] is chosen when every unit is below 256: the
    representation, not the text, depends on it. *)
Definition isEveryCharLatin1 (str : list Z) : bool := forallb (fun c => c <? 256) str.

(** [valueStringLiteral]. *)
Definition valueStringLiteral (token : ScannerResult) : L (list Z) :=
  match type token, value token with
  | KeywordToken, KeywordValue k => ret (keywordToString k)
  | _, AllocatedString (Some s) => ret s
  | _, AllocatedString None => constructStringLiteral token
  | _, StringRange b e => ret (take (e - b) (drop b source))
  | _, _ => ret []
  end.

(** [valueStringLiteralToValue]: three common texts share an interned string,
    the rest is a view of the source. *)
Definition valueStringLiteralToValue (token : ScannerResult) : L (list Z) :=
  match value token with
  | AllocatedString (Some s) => ret s
  | AllocatedString None => constructStringLiteral token
  | StringRange b e =>
    let str := take (e - b) (drop b source) in
    let length := (e - b)%nat in
    ret (if (5 <? length)%nat && (length <? 10)%nat then
           let c := charAt str 0 in
           if (c =? 111) && (length =? 6)%nat && equalsSameLength str "object" 1
           then bytes "object"
           else if (c =? 102) && (length =? 8)%nat && equalsSameLength str "function" 1
           then bytes "function"
           else if (c =? 117) && (length =? 9)%nat && equalsSameLength str "undefined" 1
           then bytes "undefined"
           else str
         else str)
  | _ => ret []
  end.

(** [valueNumberLiteral]: the digits without separators go to the BigInt
    parser or to the double-conversion library, which are not part of the
    program. *)
Section NumberValues.
Context {BigInt Double : Type} (parseBigInt : list Z -> BigInt)
        (stringToDouble : list Z -> Double) (ofNumber : Number -> Double).

Definition valueNumberLiteral (token : ScannerResult) : BigInt + Double :=
  if hasNonComputedNumberLiteral token then
    let text := relatedSource token source in
    let buffer := if hasNumberSeparatorOnNumberLiteral token
                  then filter (fun c => c <> 95) text else text in
    if charAt buffer (length buffer - 1) =? 110
    then inl (parseBigInt (take (length buffer - 1) buffer))
    else inr (stringToDouble buffer)
  else match value token with
       | NumberValue d => inr (ofNumber d)
       | _ => inr (ofNumber (Some 0))
       end.
End NumberValues.

(** ** Templates

    A [throw] inside the [try] block of [scanTemplate] leaves its local
    variables as they were at the throw, and the [catch] block goes on with
    them: [TL] threads them next to the scanner's state. *)

Definition setIndexForError (i : nat) : TL unit :=
  modify (fun sv => (fst sv, {| cooked := cooked (snd sv); raw := raw (snd sv);
                                indexForError := i |})).
Definition markIndexForError : TL unit :=
  let! i := gets (fun sv => index (fst sv)) in setIndexForError i.
Definition appendCooked (l : list Z) : TL unit :=
  modify (fun sv => (fst sv, {| cooked := cooked (snd sv) ++ l; raw := raw (snd sv);
                                indexForError := indexForError (snd sv) |})).
Definition appendRaw (l : list Z) : TL unit :=
  modify (fun sv => (fst sv, {| cooked := cooked (snd sv); raw := raw (snd sv) ++ l;
                                indexForError := indexForError (snd sv) |})).

(** The switch on the character after a backslash, which has been read. *)
Definition templateEscape (ch : Z) : TL unit :=
  if ch =? 110 then appendCooked [10]
  else if ch =? 114 then appendCooked [13]
  else if ch =? 116 then appendCooked [9]
  else if ch =? 117 then
    let! p := lift peekChar in
    if p =? 123 then
      do! lift (advance 1) in
      let! code := lift scanUnicodeCodePointEscape in
      (* [cooked += char32_t] appends one [char16_t] *)
      appendCooked [to_unsigned 16 code]
    else
      let! unescaped := lift (scanHexEscape ch) in
      if negb (unescaped =? EMPTY_CODE_POINT) then appendCooked (ParserCharPiece unescaped)
      else lift (throwUnexpectedToken InvalidHexEscapeSequence)
  else if ch =? 120 then
    let! unescaped := lift (scanHexEscape ch) in
    if unescaped =? EMPTY_CODE_POINT
    then lift (throwUnexpectedToken InvalidHexEscapeSequence)
    else appendCooked (ParserCharPiece unescaped)
  else if ch =? 98 then appendCooked [8]
  else if ch =? 102 then appendCooked [12]
  else if ch =? 118 then appendCooked [11]
  else if ch =? 48 then
    let! p := lift peekChar in
    if isDecimalDigit p then lift (throwUnexpectedToken TemplateOctalLiteral)
    else appendCooked [0]
  else if isOctalDigit ch then lift (throwUnexpectedToken TemplateOctalLiteral)
  else appendCooked [ch].

(** [source[i .. i + n)], read unit by unit. *)
Definition sourceRange (i n : nat) : list Z := map sourceCharAt (seq i n).

(** What a line terminator adds to the raw text. *)
Definition rawTerminator (ch : Z) : list Z :=
  if (ch =? 0x2028) || (ch =? 0x2029) then [ch] else [10].

(** A line terminator, already read, in the [try] block. *)
Definition templateNewLine (ch : Z) : TL unit :=
  do! lift incLineNumber in
  let! p := lift peekChar in
  do! (when! (ch =? 13) && (p =? 10) then do! lift (advance 1) in markIndexForError) in
  do! appendRaw (rawTerminator ch) in
  ret tt.

(** One turn of the loop of the [try] block; a [break] carries [Some tail] when
    the literal ended and [None] at the end of the source. *)
Definition template_turn : TL (unit + option bool) :=
  let! e := lift eof in
  if e then break None else
  let! ch := lift peekCharWithoutEOF in
  do! lift (advance 1) in
  do! markIndexForError in
  if ch =? 96 then break (Some true)
  else if ch =? 36 then
    let! p := lift peekChar in
    if p =? 123 then
      do! lift (advance 1) in do! markIndexForError in break (Some false)
    else
      do! appendCooked [ch] in do! appendRaw [ch] in continue tt
  else if ch =? 92 then
    do! appendRaw [ch] in
    let! ch := lift peekChar in
    if negb (isLineTerminator ch) then
      let! currentIndex := gets (fun sv => index (fst sv)) in
      do! lift (advance 1) in
      do! templateEscape ch in
      let! endIndex := gets (fun sv => index (fst sv)) in
      do! appendRaw (sourceRange currentIndex (endIndex - currentIndex)) in
      continue tt
    else
      do! lift (advance 1) in
      do! markIndexForError in
      do! templateNewLine ch in
      do! lift markLineStart in
      continue tt
  else if isLineTerminator ch then
    do! templateNewLine ch in
    do! appendCooked (rawTerminator ch) in
    do! lift markLineStart in
    continue tt
  else
    do! appendCooked [ch] in do! appendRaw [ch] in continue tt.

Definition template_try : TL (bool * option Error) :=
  let! r := loop fuel (fun _ => template_turn) tt in
  match r with
  | Some tail => ret (tail, None)
  | None => lift (throwUnexpectedToken UnexpectedTokenIllegal)
  end.

(** One turn of the loop of the [catch] block, which looks for the end. *)
Definition template_skip_turn : TL (unit + bool) :=
  let! e := lift eof in
  if e then break false else
  let! ch := lift peekCharWithoutEOF in
  do! lift (advance 1) in
  if ch =? 96 then break true
  else if ch =? 36 then
    let! p := lift peekChar in
    if p =? 123 then do! lift (advance 1) in break false
    else do! appendCooked [ch] in do! appendRaw [ch] in continue tt
  else if isLineTerminator ch then
    do! lift incLineNumber in
    let! p := lift peekChar in
    do! (when! (ch =? 13) && (p =? 10) then lift (advance 1)) in
    do! appendRaw (rawTerminator ch) in
    do! lift markLineStart in
    continue tt
  else do! appendRaw [ch] in continue tt.

Definition template_catch (err : Error) : TL (bool * option Error) :=
  let! i := gets (fun sv => indexForError (snd sv)) in
  do! lift (setIndex i) in
  let! tail := loop fuel (fun _ => template_skip_turn) tt in
  ret (tail, Some err).

Definition scanTemplate (token : ScannerResult) (head : bool) : L ScannerResult :=
  let! start := gets index in
  let! ' ((tail, error), vars) := withVars (try_catch template_try template_catch) in
  let result :=
    {| valueCooked := match error with Some _ => None | None => Some (cooked vars) end;
       valueRaw := raw vars; head := head; tail := tail; templateError := error |} in
  let! sp := spanFrom (if head then start - 1 else start)%nat in
  ret (setTemplateTokenResult token result sp).

(** ** Regular expressions *)

(** One turn of the loop of [scanRegExpBody]: the state is [str] and
    [classMarker]. *)
Definition regExp_turn (st : list Z * bool) : L ((list Z * bool) + (list Z * bool)) :=
  let '(str, classMarker) := st in
  let! e := eof in
  if e then break (str, false) else
  let! ch := peekCharWithoutEOF in
  do! advance 1 in
  let str := str ++ [ch] in
  if ch =? 92 then
    let! ch := peekChar in
    do! advance 1 in
    if isLineTerminator ch then throwUnexpectedToken UnterminatedRegExp
    else continue (str ++ [ch], classMarker)
  else if isLineTerminator ch then throwUnexpectedToken UnterminatedRegExp
  else if classMarker then continue (str, negb (ch =? 93))
  else if ch =? 47 then break (str, true)
  else continue (str, ch =? 91).

Definition scanRegExpBody : L (list Z) :=
  let! ch0 := peekChar in
  do! advance 1 in
  let! ' (str, terminated) := loop fuel regExp_turn ([ch0], false) in
  do! (when! negb terminated then throwUnexpectedToken UnterminatedRegExp) in
  ret (take (length str - 2) (drop 1 str)).

Definition regExpFlags_turn (flags : list Z) : L (list Z + list Z) :=
  let! e := eof in
  if e then break flags else
  let! ch := peekCharWithoutEOF in
  if negb (isIdentifierPart ch) then break flags else
  do! advance 1 in
  let! e := eof in
  if (ch =? 92) && negb e then
    let! ch := peekChar in
    if ch =? 117 then
      do! advance 1 in
      let! restore := gets index in
      let! ch32 := scanHexEscape 117 in
      do! (when! ch32 =? EMPTY_CODE_POINT then setIndex restore) in
      throwUnexpectedToken UnexpectedTokenIllegal
    else throwUnexpectedToken UnexpectedTokenIllegal
  else continue (flags ++ [ch]).

Definition scanRegExpFlags : L (list Z) := loop fuel regExpFlags_turn [].

Definition scanRegExp (token : ScannerResult) : L ScannerResult :=
  let! start := gets index in
  let! body := scanRegExpBody in
  let! flags := scanRegExpFlags in
  let! sp := spanFrom start in
  let t := setResult token RegularExpressionToken sp in
  ret (locate t RegularExpressionToken sp (RegExpValue body flags)).
End Strings.
