(* ===== verification/Lexer.v ===== *)
(** * Identifiers and [Scanner::lex] ([Lexer.cpp])

    [lex] is the entry point: one token from the scanner's position. *)

From Stdlib Require Import String.
From S2P Require Import Prelude LexChars LexState LexNumber LexPunct LexString.
Local Open Scope Z_scope.
Local Open Scope esc_scope.

(** [U16_IS_TRAIL] and [U16_GET_SUPPLEMENTARY] of [Escargot.h]. *)
Definition U16_IS_TRAIL (c : Z) : bool := Z.land c 0xfffffc00 =? 0xdc00.
Definition U16_SURROGATE_OFFSET : Z := Z.shiftl 0xd800 10 + 0xdc00 - 0x10000.
Definition U16_GET_SUPPLEMENTARY (lead trail : Z) : Z :=
  Z.shiftl lead 10 + trail - U16_SURROGATE_OFFSET.

Section Identifiers.
Context {src : Source}.

Definition codePointAt (i : nat) : Z :=
  let cp := sourceCharAt i in
  if (0xD800 <=? cp) && (cp <=? 0xDBFF) then
    let second := sourceCharAt (i + 1) in
    if (0xDC00 <=? second) && (second <=? 0xDFFF)
    then (cp - 0xD800) * 0x400 + second - 0xDC00 + 0x10000
    else cp
  else cp.

(** An escape in an identifier, after the backslash: the code point.  [ok] is
    the class a four-digit escape must be in; a braced one is not checked
    here. *)
Definition identifierEscape (ok : Z -> bool) : L Z :=
  let! p := peekChar in
  do! (when! negb (p =? 0x75) then throwUnexpectedToken UnexpectedTokenIllegal) in
  do! advance 1 in
  let! p := peekChar in
  if p =? 123 then do! advance 1 in scanUnicodeCodePointEscape
  else
    let! ch := scanHexEscape 117 in
    do! (when! (ch =? EMPTY_CODE_POINT) || (ch =? 92) || negb (ok (to_unsigned 16 ch))
         then throwUnexpectedToken UnexpectedTokenIllegal) in
    ret ch.

(** One turn of the loop of [getComplexIdentifier]; the state is [id]. *)
Definition complexIdentifier_turn (id : list Z) : L (list Z + list Z) :=
  let! e := eof in
  if e then break id else
  let! ch := gets (fun s => codePointAt (index s)) in
  if negb (isIdentifierPart ch) then break id else
  let piece := ParserCharPiece ch in
  do! advance (length piece) in
  if ch =? 0x5C then
    let! ch := identifierEscape isIdentifierPart in
    if negb (isIdentifierPart ch) then break id
    else continue (id ++ ParserCharPiece ch)
  else continue (id ++ piece).

Definition getComplexIdentifier : L (list Z) :=
  let! cp := gets (fun s => to_unsigned 16 (codePointAt (index s))) in
  let id := ParserCharPiece cp in
  do! advance (length id) in
  let! id :=
    (if cp =? 0x5C then
       let! ch := identifierEscape isIdentifierStart in
       (* [id = ch] assigns one [char16_t] *)
       ret [to_unsigned 16 ch]
     else ret id) in
  let! id := loop fuel complexIdentifier_turn id in
  do! (when! awaitContext && bool_decide (id = bytes "await")
       then throwUnexpectedToken KeywordMustNotContainEscapedCharacters) in
  ret id.

(** The text, and whether it was newly allocated. *)
Definition getIdentifier : L (list Z * bool) :=
  let! start := gets index in
  do! advance 1 in
  let! complex := loop fuel (fun _ : unit =>
    let! e := eof in
    if e then break false else
    let! ch := peekCharWithoutEOF in
    if (ch =? 0x5C) || ((0xD800 <=? ch) && (ch <? 0xDFFF)) then break true
    else if isIdentifierPart ch then do! advance 1 in continue tt
    else break false) tt in
  if complex : bool then
    do! setIndex start in
    let! id := getComplexIdentifier in ret (id, true)
  else
    let! i := gets index in
    ret (take (i - start) (drop start source), false).

Definition scanIdentifier (token : ScannerResult) (ch0 : Z) : L ScannerResult :=
  let! start := gets index in
  let! ' (data, allocated) :=
    (if ch0 =? 0x5C then let! id := getComplexIdentifier in ret (id, true)
     else getIdentifier) in
  let! sp := spanFrom start in
  let finish (t : ScannerResult) (ty : Token) : ScannerResult :=
    if allocated : bool then setStringResult t ty (Some data) sp false
    else setRangeResult t ty start (sp_end sp) sp false in
  if (1 <? length data)%nat then
    let keywordKind := getKeyword data in
    let t := setSecondaryKeywordKind keywordKind token in
    match keywordKind with
    | NotKeyword => ret (finish t IdentifierToken)
    | NullKeyword => ret (finish t NullLiteralToken)
    | TrueKeyword | FalseKeyword => ret (finish t BooleanLiteralToken)
    | YieldKeyword | LetKeyword => ret (setKeywordResult t sp keywordKind)
    | _ =>
      if (keyword_number StrictModeReservedWord <=? keyword_number keywordKind)%nat
      then ret (finish t IdentifierToken)
      else ret (setKeywordResult t sp keywordKind)
    end
  else ret (finish token IdentifierToken).

(** [lex]: the first [if] reads a surrogate pair into the 16-bit [cp]. *)
Definition lexLeadSurrogate (cp : Z) : L Z :=
  if (0xD800 <=? cp) && (cp <? 0xDFFF) then
    do! advance 1 in
    let! ch2 := peekChar in
    if U16_IS_TRAIL ch2 then ret (to_unsigned 16 (U16_GET_SUPPLEMENTARY cp ch2))
    else throwUnexpectedToken UnexpectedTokenIllegal
  else ret cp.

Definition lex (token : ScannerResult) : L ScannerResult :=
  let token := resetResult token in
  let! e := eof in
  if e then
    let! i := gets index in
    let! sp := spanFrom i in ret (setResult token EOFToken sp)
  else
  let! cp := peekCharWithoutEOF in
  let! cp := lexLeadSurrogate cp in
  let! next := charAhead 1 in
  let! pair := gets (fun s => codePointAt (index s)) in
  if isIdentifierStart cp then scanIdentifier token cp
  else if (cp =? 0x27) || (cp =? 0x22) then scanStringLiteral token
  else if (cp =? 0x2E) && isDecimalDigit next then scanNumericLiteral token
  else if isDecimalDigit cp then scanNumericLiteral token
  else if cp =? 96 then do! advance 1 in scanTemplate token true
  else if (0xD800 <=? cp) && (cp <? 0xDFFF) && isIdentifierStart pair
  then scanIdentifier token cp
  else scanPunctuator token cp.
End Identifiers.

(** Tokens of a source, up to [n], comments skipped: how the parser drives the
    scanner when no token is a template or a regular expression. *)
Fixpoint lexAll {src : Source} (n : nat) : L (list ScannerResult) :=
  match n with
  | O => ret []
  | Datatypes.S n =>
    do! scanComments in
    let! t := lex newScannerResult in
    match type t with
    | EOFToken => ret [t]
    | _ => let! ts := lexAll n in ret (t :: ts)
    end
  end.
