(* ===== verification/LexTotal.v ===== *)
(** * The lexer ends, moves forward and stays inside the source

    Weakest-precondition proofs over the definitions of the other lexer files.
    The scanner reads past the end of the source at a few places ([charAhead],
    [peekCharWithoutEOF] after an increment); here the memory there reads as NUL,
    as it does for a NUL-terminated buffer. *)

From Stdlib Require Import String.
From S2P Require Import Prelude LexChars LexState LexNumber LexPunct LexString Lexer.
Local Open Scope Z_scope.

Lemma wp_lift {A} (m : L A) sv (Q : A -> _ -> Prop) X :
  wp m (fst sv) (fun a s' => Q a (s', snd sv)) (fun e s' => X e (s', snd sv)) ->
  wp (lift m) sv Q X.
Proof. unfold wp, lift. destruct (m (fst sv)) as [[a|e|] s']; exact id. Qed.

Lemma wp_withVars {A} (m : TL A) s (Q : A * TemplateVars -> _ -> Prop) X :
  wp m (s, {| cooked := []; raw := []; indexForError := index s |})
     (fun a sv => Q (a, snd sv) (fst sv)) (fun e sv => X e (fst sv)) ->
  wp (withVars m) s Q X.
Proof. unfold wp, withVars. destruct (m _) as [[a|e|] [s' v]]; exact id. Qed.

(** Symbolic execution of a lexer action. *)
Ltac wp_step :=
  lazymatch goal with
  | |- wp (bind _ _) _ _ _ => apply wp_bind
  | |- wp (ret _) _ _ _ => apply wp_ret
  | |- wp (continue _) _ _ _ => apply wp_ret
  | |- wp (break _) _ _ _ => apply wp_ret
  | |- wp (throw _) _ _ _ => apply wp_throw
  | |- wp (gets ?f) ?s ?Q ?X => change (Q (f s) s)
  | |- wp (modify ?f) ?s ?Q ?X => change (Q tt (f s))
  | |- wp eof ?s ?Q ?X => change (Q (at_eof s) s)
  | |- wp peekChar ?s ?Q ?X => change (Q (peeked s) s)
  | |- wp peekCharWithoutEOF ?s ?Q ?X => change (Q (sourceCharAt (index s)) s)
  | |- wp (charAhead ?k) ?s ?Q ?X => change (Q (sourceCharAt (index s + k)) s)
  | |- wp (advance ?n) ?s ?Q ?X =>
    change (Q tt {| index := index s + n; lineNumber := lineNumber s; lineStart := lineStart s |})
  | |- wp (setIndex ?i) ?s ?Q ?X =>
    change (Q tt {| index := i; lineNumber := lineNumber s; lineStart := lineStart s |})
  | |- wp incLineNumber ?s ?Q ?X =>
    change (Q tt {| index := index s; lineNumber := lineNumber s + 1; lineStart := lineStart s |})
  | |- wp markLineStart ?s ?Q ?X =>
    change (Q tt {| index := index s; lineNumber := lineNumber s; lineStart := index s |})
  | |- wp (spanFrom ?st) ?s ?Q ?X =>
    change (Q {| sp_lineNumber := lineNumber s; sp_lineStart := lineStart s;
                 sp_start := st; sp_end := index s |} s)
  | |- wp (lift _) ?sv _ _ => apply wp_lift
  | |- wp (setIndexForError ?i) ?sv ?Q ?X =>
    change (Q tt (fst sv, {| cooked := cooked (snd sv); raw := raw (snd sv);
                             indexForError := i |}))
  | |- wp markIndexForError ?sv ?Q ?X =>
    change (Q tt (fst sv, {| cooked := cooked (snd sv); raw := raw (snd sv);
                             indexForError := index (fst sv) |}))
  | |- wp (appendCooked ?l) ?sv ?Q ?X =>
    change (Q tt (fst sv, {| cooked := cooked (snd sv) ++ l; raw := raw (snd sv);
                             indexForError := indexForError (snd sv) |}))
  | |- wp (appendRaw ?l) ?sv ?Q ?X =>
    change (Q tt (fst sv, {| cooked := cooked (snd sv); raw := raw (snd sv) ++ l;
                             indexForError := indexForError (snd sv) |}))
  | |- wp (throwUnexpectedToken _) _ _ _ => unfold throwUnexpectedToken, throwError, throw, wp
  | |- wp (if ?b then _ else _) _ _ _ => destruct b eqn:?
  | |- wp (match ?p with (_, _) => _ end) _ _ _ => destruct p as [? ?] eqn:?
  end; cbv beta;
  cbn [fst snd index lineNumber lineStart sp_lineNumber sp_lineStart sp_start sp_end
       cooked raw indexForError].

Section Totality.
Context {src : Source}.
Hypothesis beyond_nul : forall i, beyond i = 0.

Lemma at_eof_false s : at_eof s = false <-> (index s < len)%nat.
Proof. unfold at_eof. rewrite Nat.leb_gt. reflexivity. Qed.

(** A character class that leaves out NUL is met only inside the source. *)
Lemma sourceCharAt_lt (f : Z -> bool) i :
  f (sourceCharAt i) = true -> f 0 = false -> (i < len)%nat.
Proof.
  unfold sourceCharAt. destruct (source !! i) eqn:Hi.
  - intros _ _. apply lookup_lt_Some in Hi. exact Hi.
  - rewrite beyond_nul. congruence.
Qed.

Lemma peeked_lt (f : Z -> bool) s : f (peeked s) = true -> f 0 = false -> (index s < len)%nat.
Proof.
  unfold peeked. destruct (at_eof s) eqn:He; [congruence|].
  intros _ _. apply at_eof_false, He.
Qed.

Lemma peeked_source s : (index s < len)%nat -> peeked s = sourceCharAt (index s).
Proof. intros H. unfold peeked. apply at_eof_false in H. rewrite H. reflexivity. Qed.

Lemma peeked_nonzero s : peeked s <> 0 -> (index s < len)%nat.
Proof.
  unfold peeked. destruct (at_eof s) eqn:He; [congruence|]. intros _. apply at_eof_false, He.
Qed.
End Totality.

(** The positions a character test implies. *)
Ltac in_source :=
  repeat match goal with
  | H : (_ && _)%bool = true |- _ => apply andb_prop in H as [? ?]
  | H : negb _ = true |- _ => apply negb_true_iff in H
  | H : negb _ = false |- _ => apply negb_false_iff in H
  | Hnul : forall i, beyond i = 0, H : ?b = true |- _ =>
    match b with context [sourceCharAt ?i] =>
      lazymatch goal with _ : (i < len)%nat |- _ => fail | _ => idtac end;
      let b' := eval pattern (sourceCharAt i) in b in
      match b' with ?f _ => assert (i < len)%nat by (exact (sourceCharAt_lt Hnul f i H eq_refl)) end
    end
  | H : ?b = true |- _ =>
    match b with context [peeked ?s] =>
      lazymatch goal with _ : (index s < len)%nat |- _ => fail | _ => idtac end;
      let b' := eval pattern (peeked s) in b in
      match b' with ?f _ => assert (index s < len)%nat by (exact (peeked_lt f s H eq_refl)) end
    end
  | H : at_eof ?s = false |- _ => apply at_eof_false in H
  end; cbn [index lineNumber lineStart] in *.

Ltac wp_go := repeat wp_step; in_source; to_prop; cbn [fst snd] in *.

(** Use the specification [lem] of a call. *)
Ltac wp_call lem :=
  eapply wp_mono;
  [apply lem; cbn [index lineNumber lineStart]; try assumption; try lia
  |cbv beta; intros
  |cbv beta; try (intros; exact I); auto].

Lemma asciiClass_lor a b ch :
  asciiClass (Z.lor a b) ch = asciiClass a ch || asciiClass b ch.
Proof.
  unfold asciiClass. rewrite Z.land_lor_distr_r.
  destruct (Z.eqb_spec (Z.land (nth (Z.to_nat ch) g_asciiRangeCharMap 0) a) 0) as [->|Ha].
  - rewrite Z.lor_0_l. reflexivity.
  - destruct (Z.eqb_spec (Z.lor (Z.land (nth (Z.to_nat ch) g_asciiRangeCharMap 0) a)
      (Z.land (nth (Z.to_nat ch) g_asciiRangeCharMap 0) b)) 0) as [H|H]; [|reflexivity].
    apply Z.lor_eq_0_iff in H. tauto.
Qed.

Lemma whiteSpace_or_terminator ch :
  isWhiteSpaceOrLineTerminator ch = isWhiteSpace ch || isLineTerminator ch.
Proof.
  unfold isWhiteSpaceOrLineTerminator, isWhiteSpace, isLineTerminator.
  destruct (ch <? 128); [apply asciiClass_lor|]. apply orb_comm.
Qed.

Section Comments.
Context {src : Source}.
Hypothesis beyond_nul : forall i, beyond i = 0.

(** [s'] is at or after [s], both inside the source. *)
Definition forward (s s' : ScanState) : Prop :=
  (index s <= index s' <= len)%nat /\ (lineNumber s <= lineNumber s')%nat /\
  (lineStart s <= index s -> lineStart s' <= index s')%nat.

Lemma forward_refl s : (index s <= len)%nat -> forward s s.
Proof. unfold forward. lia. Qed.

Lemma forward_trans a b c : forward a b -> forward b c -> forward a c.
Proof. unfold forward. lia. Qed.

Definition anyError (e : Error) (s : ScanState) : Prop := True.

Lemma skipSingleLineComment_forward s :
  (index s <= len)%nat -> wp skipSingleLineComment s (fun _ => forward s) anyError.
Proof.
  intros Hs. unfold skipSingleLineComment.
  apply (wp_loop (fun _ s' => forward s s') (fun _ s' => len - index s')%nat);
    [|apply forward_refl, Hs|unfold fuel; lia].
  intros _ s' Hf. wp_go; unfold forward in *; cbn [index lineNumber lineStart]; lia.
Qed.

Lemma skipMultiLineComment_forward s :
  (index s <= len)%nat -> wp skipMultiLineComment s (fun _ => forward s) anyError.
Proof.
  intros Hs. unfold skipMultiLineComment. wp_step.
  apply (wp_loop (fun _ s' => forward s s') (fun _ s' => len - index s')%nat);
    [|apply forward_refl, Hs|unfold fuel; lia].
  intros _ s' Hf. wp_go; unfold forward in *; cbn [index lineNumber lineStart];
    first [exact I|lia].
Qed.

Lemma scanComments_turn_forward st s :
  (index s <= len)%nat ->
  wp (scanComments_turn st) s
     (fun r s' => forward s s' /\
        match r with
        | inl _ => (index s < index s')%nat
        | inr _ => s' = s /\ (at_eof s = true \/
            isWhiteSpaceOrLineTerminator (sourceCharAt (index s)) = false)
        end) anyError.
Proof.
  intros Hs. unfold scanComments_turn. wp_go;
    try (split; [unfold forward in *; cbn [index lineNumber lineStart]; lia|];
         first [cbn [index]; lia
               |split; [reflexivity|auto; right; rewrite whiteSpace_or_terminator;
                        apply orb_false_iff; auto]]).
  1,3,4: wp_call skipSingleLineComment_forward; apply wp_ret.
  4: wp_call skipMultiLineComment_forward; apply wp_ret.
  all: unfold forward in *; cbn [index lineNumber lineStart] in *; lia.
Qed.

(** After the comments the next character, if there is one, is neither white
    space nor a line terminator. *)
Lemma scanComments_forward s :
  (index s <= len)%nat ->
  wp scanComments s
     (fun _ s' => forward s s' /\ (at_eof s' = true \/
        isWhiteSpaceOrLineTerminator (sourceCharAt (index s')) = false)) anyError.
Proof.
  intros Hs. unfold scanComments. wp_step. wp_step.
  apply (wp_loop (fun _ s' => forward s s') (fun _ s' => len - index s')%nat);
    [|apply forward_refl, Hs|unfold fuel; lia].
  intros st s' Hf. wp_call scanComments_turn_forward; [unfold forward in Hf; lia|].
  destruct a as [st'|[]], H as [Hf' H].
  - split; [eapply forward_trans; eassumption|]. unfold forward in *. lia.
  - destruct H as [-> H]. auto.
Qed.
End Comments.

Section Literals.
Context {src : Source}.
Hypothesis beyond_nul : forall i, beyond i = 0.

(** Only the index moves. *)
Definition onLine (s s' : ScanState) : Prop :=
  (index s <= index s' <= len)%nat /\ lineNumber s' = lineNumber s /\
  lineStart s' = lineStart s.

Lemma onLine_refl s : (index s <= len)%nat -> onLine s s.
Proof. unfold onLine. lia. Qed.

Lemma hexEscapeDigits_onLine n : forall code s,
  (index s <= len)%nat -> wp (hexEscapeDigits n code) s (fun _ => onLine s) anyError.
Proof.
  induction n as [|n IH]; intros code s Hs; cbn [hexEscapeDigits].
  - apply wp_ret, onLine_refl, Hs.
  - wp_go; [|apply onLine_refl, Hs].
    wp_call IH. unfold onLine in *. cbn [index lineNumber lineStart] in *. lia.
Qed.

Lemma hexEscapeDigits_returns n : forall code s,
  wp (hexEscapeDigits n code) s (fun _ _ => True) (fun _ _ => False).
Proof.
  induction n as [|n IH]; intros code s; cbn [hexEscapeDigits]; repeat wp_step; auto.
Qed.

Lemma scanHexEscape_onLine p s :
  (index s <= len)%nat -> wp (scanHexEscape p) s (fun _ => onLine s) anyError.
Proof. apply hexEscapeDigits_onLine. Qed.

Lemma scanUnicodeCodePointEscape_onLine s :
  (index s <= len)%nat ->
  wp scanUnicodeCodePointEscape s (fun _ => onLine s) (fun _ => onLine s).
Proof.
  intros Hs. unfold scanUnicodeCodePointEscape. wp_step. wp_step. wp_step. wp_step. wp_step.
  wp_step; [apply onLine_refl, Hs|]. wp_step.
  wp_step. apply (wp_loop (fun _ s' => onLine s s') (fun _ s' => len - index s')%nat);
    [|apply onLine_refl, Hs|unfold fuel; lia].
  intros [code ch] s' Hf. wp_go; try exact Hf;
    unfold onLine in *; cbn [index lineNumber lineStart]; lia.
Qed.

Lemma octalToDecimal_onLine ch o s :
  (index s <= len)%nat -> wp (octalToDecimal ch o) s (fun _ => onLine s) anyError.
Proof.
  intros Hs. unfold octalToDecimal.
  wp_go; unfold onLine; cbn [index lineNumber lineStart]; lia.
Qed.

(** A loop every turn of which moves on, on the same line. *)
Lemma loop_onLine {A B} (body : A -> L (A + B)) a s :
  (index s <= len)%nat ->
  (forall a s', (index s' <= len)%nat ->
     wp (body a) s' (fun r s'' => onLine s' s'' /\
       match r with inl _ => (index s' < index s'')%nat | inr _ => True end) anyError) ->
  wp (loop fuel body a) s (fun _ => onLine s) anyError.
Proof.
  intros Hs Hb.
  apply (wp_loop (fun _ s' => onLine s s') (fun _ s' => len - index s')%nat);
    [|apply onLine_refl, Hs|unfold fuel; lia].
  intros a' s' Hf. wp_call Hb; [unfold onLine in Hf; lia|].
  destruct a0; unfold onLine in *; lia.
Qed.

(** ** Numeric literals *)

Lemma forEachPair_total (check : Z -> Z -> L unit) s :
  (forall a b, wp (check a b) s (fun _ s' => s' = s) anyError) ->
  forall n i, wp (forEachPair check i n) s (fun _ s' => s' = s) anyError.
Proof.
  intros Hc n. induction n as [|n IH]; intros i; cbn [forEachPair].
  - apply wp_ret. reflexivity.
  - wp_step. eapply wp_mono; [apply Hc| |auto]. intros _ s' ->. apply IH.
Qed.

Lemma throwAt_total {A} st m s (Q : A -> ScanState -> Prop) :
  wp (throwAt st m) s Q anyError.
Proof. exact I. Qed.

Lemma testSeparatorAtEnd_total st b s :
  wp (testSeparatorAtEnd st b) s (fun _ s' => s' = s) anyError.
Proof. unfold testSeparatorAtEnd. wp_go; [apply throwAt_total|reflexivity]. Qed.

Lemma testNumericSeparator_total st b1 b2 b3 b4 s :
  wp (testNumericSeparator st b1 b2 b3 b4) s (fun _ s' => s' = s) anyError.
Proof.
  unfold testNumericSeparator. wp_step. wp_step. wp_step.
  eapply wp_mono; [apply forEachPair_total|intros _ s' ->; apply testSeparatorAtEnd_total|auto].
  intros a b. repeat wp_step; try exact I; reflexivity.
Qed.

Lemma testDecimalSeparator_total st b s :
  wp (testDecimalSeparator st b) s (fun _ s' => s' = s) anyError.
Proof.
  unfold testDecimalSeparator. repeat wp_step; [apply throwAt_total|].
  eapply wp_mono; [apply forEachPair_total|intros _ s' ->; apply testSeparatorAtEnd_total|auto].
  intros a b0. repeat wp_step; try exact I; try reflexivity.
Qed.

Lemma scanBigIntSuffix_onLine b s :
  (index s <= len)%nat -> wp (scanBigIntSuffix b) s (fun _ => onLine s) anyError.
Proof.
  intros Hs. unfold scanBigIntSuffix. wp_go; unfold onLine; cbn [index lineNumber lineStart]; lia.
Qed.

(** The end of every radix literal: the suffix, the next character, the
    separators, the token. *)
Ltac number_tail separators :=
  repeat wp_step; wp_call scanBigIntSuffix_onLine; [unfold onLine in *; lia|];
  repeat first
    [ apply throwAt_total | exact I
    | progress (eapply wp_mono; [apply separators|intros _ ? ->|auto])
    | wp_step ];
  (split; [unfold onLine in *; cbn [index lineNumber lineStart] in *; lia|]);
  repeat split; reflexivity.

(** A numeric literal from [st]: it ends where the scanner is. *)
Definition numberToken (st : nat) (s : ScanState) (t : ScannerResult) (s' : ScanState) : Prop :=
  onLine s s' /\ type t = NumericLiteralToken /\ start t = st /\ end_ t = index s'.

Lemma scanHexLiteral_total tok st s :
  (index s <= len)%nat -> wp (scanHexLiteral tok st) s (numberToken st s) anyError.
Proof.
  intros Hs. unfold scanHexLiteral. wp_step. wp_call @loop_onLine.
  { intros h s' Hs'. wp_go; unfold onLine; cbn [index lineNumber lineStart]; auto; lia. }
  wp_step. wp_step; [exact I|].
  number_tail (testNumericSeparator_total st).
Qed.

Lemma radixLoop_onLine d bits u s :
  d 0 = false -> (index s <= len)%nat -> wp (radixLoop d bits u) s (fun _ => onLine s) anyError.
Proof.
  intros Hd Hs. unfold radixLoop. apply loop_onLine; [exact Hs|].
  intros [[number scanned] seen] s' Hs'.
  wp_go; unfold onLine; cbn [index lineNumber lineStart]; auto; lia.
Qed.

Lemma scanBinaryLiteral_total tok st s :
  (index s <= len)%nat -> wp (scanBinaryLiteral tok st) s (numberToken st s) anyError.
Proof.
  intros Hs. unfold scanBinaryLiteral. wp_step. wp_call radixLoop_onLine; [reflexivity|].
  wp_step. wp_step. wp_step. wp_step; [exact I|].
  number_tail (testNumericSeparator_total st).
Qed.

Lemma scanOctalLiteral_total tok p st legacy s :
  (index s <= len)%nat -> wp (scanOctalLiteral tok p st legacy) s (numberToken st s) anyError.
Proof.
  intros Hs. unfold scanOctalLiteral. wp_step. wp_call radixLoop_onLine; [reflexivity|].
  wp_step. wp_step. wp_step. wp_step; [exact I|].
  number_tail (testNumericSeparator_total st).
Qed.

Lemma skipDigits_onLine seen s :
  (index s <= len)%nat -> wp (skipDigits seen) s (fun _ => onLine s) anyError.
Proof.
  intros Hs. unfold skipDigits. apply loop_onLine; [exact Hs|]. intros a s' Hs'.
  repeat wp_step; [|unfold onLine; lia]. subst.
  assert (Hd : fst (isDecimalDigitOrUnderscore (peeked s')) = true)
    by (match goal with H : _ = (true, _) |- _ => rewrite H end; reflexivity).
  in_source. unfold onLine. cbn [index lineNumber lineStart]. lia.
Qed.

Lemma scanExponent_onLine seen s :
  (index s < len)%nat -> wp (scanExponent seen) s (fun _ => onLine s) anyError.
Proof.
  intros Hs. unfold scanExponent. wp_go; try exact I;
    (wp_call skipDigits_onLine; unfold onLine in *; cbn [index lineNumber lineStart] in *; lia).
Qed.

Lemma scanDecimalTail_total tok st c ch seen s :
  (index s <= len)%nat -> ch = peeked s ->
  wp (scanDecimalTail tok st c ch seen) s
     (fun t s' => numberToken st s t s' /\ (ch = 46 -> (index s < index s')%nat)) anyError.
Proof.
  intros Hs ->. unfold scanDecimalTail. wp_step.
  eapply wp_mono with (Q' := fun r s' =>
    (onLine s s' /\ (peeked s = 46 -> (index s < index s')%nat)) /\ snd r = peeked s')
    (X' := anyError); [| |auto].
  { repeat wp_step; in_source; [|split; [split; [unfold onLine; lia|to_prop; lia]|reflexivity]].
    wp_call skipDigits_onLine. repeat wp_step. unfold onLine in *.
    cbn [index lineNumber lineStart] in *. split; [lia|reflexivity]. }
  intros [[seenDotOrE seen'] ch] s1 [H1 Hch]. cbn [snd] in Hch. subst ch. wp_step.
  eapply wp_mono with (Q' := fun r s' => onLine s s' /\ (peeked s = 46 -> (index s < index s')%nat))
    (X' := anyError); [| |auto].
  { repeat wp_step; [|exact H1].
    assert (index s1 < len)%nat.
    { match goal with H : _ || _ = true |- _ => apply orb_prop in H as [H|H]; in_source end;
        assumption. }
    wp_call scanExponent_onLine. apply wp_ret. unfold onLine in *. lia. }
  intros [seenDotOrE' seen''] s2 H2.
  repeat first
    [ apply throwAt_total | exact I
    | progress (eapply wp_mono; [apply testDecimalSeparator_total|intros _ ? ->|auto])
    | wp_step ]; in_source;
    (split; [split; [unfold onLine in *; cbn [index lineNumber lineStart] in *; lia|]|
             cbn [index] in *; lia]);
    repeat split; try reflexivity.
  all: case_if; reflexivity.
Qed.

Lemma scanNumericLiteral_total tok s :
  (index s < len)%nat ->
  wp (scanNumericLiteral tok) s
     (fun t s' => numberToken (index s) s t s' /\ (index s < index s')%nat) anyError.
Proof.
  intros Hs.
  assert (Hnum : forall t s1 s', numberToken (index s) s1 t s' ->
    (index s < index s1 <= len)%nat -> lineNumber s1 = lineNumber s ->
    lineStart s1 = lineStart s ->
    numberToken (index s) s t s' /\ (index s < index s')%nat).
  { unfold numberToken, onLine. intros t s1 s' (H & ? & ? & ?) ? ? ?.
    repeat split; try assumption; lia. }
  unfold scanNumericLiteral. repeat wp_step.
  - unfold isImplicitOctalLiteral. wp_step.
    match goal with |- context [{| index := index s + 1; lineNumber := _; lineStart := _ |}] =>
      set (s1 := {| index := index s + 1; lineNumber := lineNumber s;
                    lineStart := lineStart s |}) end.
    assert (H1 : index s1 = (index s + 1)%nat /\ lineNumber s1 = lineNumber s /\
      lineStart s1 = lineStart s) by auto. clearbody s1. destruct H1 as (H1 & H2 & H3).
    repeat wp_step; rewrite <- ?H1.
    + assert (index s1 < len)%nat by (in_source; match goal with H : _ || _ = true |- _ =>
        apply orb_prop in H as [H|H]; in_source; assumption end).
      wp_call scanHexLiteral_total. eapply Hnum; [eassumption|cbn; lia..].
    + assert (index s1 < len)%nat by (in_source; match goal with H : _ || _ = true |- _ =>
        apply orb_prop in H as [H|H]; in_source; assumption end).
      wp_call scanBinaryLiteral_total. eapply Hnum; [eassumption|cbn; lia..].
    + assert (index s1 < len)%nat by (in_source; match goal with H : _ || _ = true |- _ =>
        apply orb_prop in H as [H|H]; in_source; assumption end).
      wp_call scanOctalLiteral_total. eapply Hnum; [eassumption|cbn; lia..].
    + wp_call scanOctalLiteral_total. eapply Hnum; [eassumption|lia..].
    + wp_call skipDigits_onLine. repeat wp_step. wp_call scanDecimalTail_total;
        [unfold onLine in *; lia|].
      match goal with H : _ /\ _ |- _ => destruct H as [H _] end.
      eapply Hnum; [eassumption|unfold onLine in *; lia..].
  - match goal with H : negb _ = false |- _ => apply negb_false_iff, Z.eqb_eq in H; rename H into H46 end.
    wp_call scanDecimalTail_total.
    match goal with H : _ /\ _ |- _ => destruct H as [? H]; split; [assumption|exact (H H46)] end.
Qed.
End Literals.

Section Tokens.
Context {src : Source}.
Hypothesis beyond_nul : forall i, beyond i = 0.

(** A token that starts at [st] and ends where the scanner is. *)
Definition tokenFrom (st : nat) (ty : Token -> Prop) (s : ScanState) (t : ScannerResult)
    (s' : ScanState) : Prop :=
  forward s s' /\ (index s < index s')%nat /\ ty (type t) /\ start t = st /\
  end_ t = index s'.

Lemma onLine_forward s s' : onLine s s' -> forward s s'.
Proof. unfold onLine, forward. lia. Qed.

(** ** Punctuators *)

Lemma withEqual_onLine a b s :
  (index s <= len)%nat -> wp (withEqual a b) s (fun _ => onLine s) anyError.
Proof. intros Hs. unfold withEqual. wp_go; unfold onLine; cbn; lia. Qed.

Lemma punctuatorKind_onLine ch s :
  (index s <= len)%nat -> wp (punctuatorKind ch) s (fun _ => onLine s) anyError.
Proof.
  intros Hs. unfold punctuatorKind.
  repeat (wp_step; [first
    [ apply wp_ret, onLine_refl, Hs | apply withEqual_onLine, Hs
    | unfold scanDot, scanQuestion, scanGreater, scanLess, scanEqual, scanExclamation,
        scanAmpersand, scanBar, scanSign, scanStar, scanHash;
      repeat wp_step; in_source;
      first [ eapply wp_mono;
              [apply withEqual_onLine; cbn [index]; lia
              |unfold onLine; cbn [index lineNumber lineStart]; lia | auto]
            | unfold onLine; cbn [index lineNumber lineStart]; lia ] ]|]).
  exact I.
Qed.

Lemma scanPunctuator_total tok ch s :
  (index s < len)%nat ->
  wp (scanPunctuator tok ch) s (tokenFrom (index s) (eq PunctuatorToken) s) anyError.
Proof.
  intros Hs. unfold scanPunctuator. repeat wp_step. wp_call punctuatorKind_onLine.
  repeat wp_step. unfold tokenFrom, onLine, forward in *. cbn in *. repeat split; lia.
Qed.

(** ** Strings *)

Lemma lineContinuation_forward ch s :
  (index s <= len)%nat -> wp (lineContinuation ch) s (fun _ => forward s) anyError.
Proof. intros Hs. unfold lineContinuation. repeat wp_step; in_source;
  unfold forward; cbn [index lineNumber lineStart]; try lia.
  match goal with H : _ || _ = true |- _ => apply orb_prop in H as [H|H]; in_source end; lia.
Qed.

Lemma scanStringEscape_onLine ch o s :
  (index s <= len)%nat -> wp (scanStringEscape ch o) s (fun _ => onLine s) anyError.
Proof.
  intros Hs. unfold scanStringEscape.
  repeat first
    [ exact I | apply onLine_refl, Hs
    | wp_call scanUnicodeCodePointEscape_onLine | wp_call scanHexEscape_onLine
    | wp_call octalToDecimal_onLine
    | wp_step ]; in_source; try assumption;
    unfold onLine in *; cbn [index lineNumber lineStart] in *; lia.
Qed.

Lemma scanString_turn_total quote st s :
  (index s <= len + 1)%nat ->
  wp (scanString_turn quote st) s
     (fun r s' => (index s <= index s' <= len + 1)%nat /\
        (lineNumber s <= lineNumber s')%nat /\
        (lineStart s <= index s -> lineStart s' <= index s')%nat /\
        match r with
        | inl _ => (index s < index s')%nat /\ (index s < len)%nat
        | inr (_, closed) => closed = true -> (index s < index s' <= len)%nat
        end) anyError.
Proof.
  intros Hs. destruct st as [o plain]. unfold scanString_turn. repeat wp_step; in_source;
    try (repeat split; cbn [index lineNumber lineStart]; (lia || discriminate)).
  - set (s1 := {| index := index s + 1; lineNumber := _; lineStart := _ |}) in *.
    destruct (Z.eqb_spec (peeked s1) 0) as [->|Hne].
    + change (scanStringEscape 0 o) with (@ret ScanState Error bool o). repeat wp_step.
      repeat split; cbn [index lineNumber lineStart]; lia.
    + apply peeked_nonzero in Hne. unfold s1 in Hne. cbn [index] in Hne.
      wp_call scanStringEscape_onLine. repeat wp_step. unfold onLine in *.
      cbn [index lineNumber lineStart] in *. repeat split; lia.
  - match goal with H : _ || _ = false |- _ =>
      apply orb_false_elim in H as [H _]; apply Z.eqb_neq, peeked_nonzero in H;
      cbn [index] in H end.
    wp_call lineContinuation_forward. repeat wp_step. unfold forward in *.
    cbn [index lineNumber lineStart] in *. repeat split; lia.
Qed.

Lemma scanStringLiteral_total tok s :
  (index s < len)%nat ->
  wp (scanStringLiteral tok) s (tokenFrom (index s) (eq StringLiteralToken) s) anyError.
Proof.
  intros Hs. unfold scanStringLiteral. repeat wp_step.
  apply (wp_loop
    (fun _ s' => (index s < index s' <= len + 1)%nat /\ (lineNumber s <= lineNumber s')%nat /\
       (lineStart s <= index s -> lineStart s' <= index s')%nat)
    (fun _ s' => len - index s')%nat);
    [|cbn [index lineNumber lineStart]; lia|unfold fuel; lia].
  intros st s' Hf. wp_call scanString_turn_total.
  match goal with H : _ /\ _ |- _ => destruct H as (H1 & H2 & H3 & H4) end.
  destruct a as [st'|[[o plain] closed]]; [lia|].
  cbv beta iota. wp_step. wp_step; [repeat wp_step; exact I|].
  match goal with H : negb _ = false |- _ => apply negb_false_iff in H; subst closed end.
  specialize (H4 eq_refl). repeat wp_step.
  unfold tokenFrom, forward; destruct plain; repeat split; cbn; lia.
Qed.

(** ** Regular expressions *)

Lemma regExp_turn_total st s :
  (index s <= len + 1)%nat ->
  wp (regExp_turn st) s
     (fun r s' => (index s <= index s' <= len + 1)%nat /\ lineNumber s' = lineNumber s /\
        lineStart s' = lineStart s /\
        match r with
        | inl _ => (index s < index s')%nat /\ (index s < len)%nat
        | inr (_, terminated) => terminated = true -> (index s < index s' <= len)%nat
        end) anyError.
Proof.
  intros Hs. destruct st as [str marker]. unfold regExp_turn. repeat wp_step; in_source;
    try exact I; repeat split; cbn [index lineNumber lineStart]; (lia || discriminate).
Qed.

Lemma scanRegExpBody_total s :
  (index s < len)%nat ->
  wp scanRegExpBody s (fun _ s' => onLine s s' /\ (index s < index s')%nat) anyError.
Proof.
  intros Hs. unfold scanRegExpBody. repeat wp_step.
  apply (wp_loop
    (fun _ s' => (index s < index s' <= len + 1)%nat /\ lineNumber s' = lineNumber s /\
       lineStart s' = lineStart s)
    (fun _ s' => len - index s')%nat);
    [|cbn [index lineNumber lineStart]; lia|unfold fuel; lia].
  intros st s' Hf. wp_call regExp_turn_total.
  match goal with H : _ /\ _ |- _ => destruct H as (H1 & H2 & H3 & H4) end.
  destruct a as [st'|[str closed]]; [lia|].
  cbv beta iota. wp_step. wp_step; [exact I|].
  match goal with H : negb _ = false |- _ => apply negb_false_iff in H; subst closed end.
  specialize (H4 eq_refl). repeat wp_step. unfold onLine. lia.
Qed.

Lemma scanRegExpFlags_total s :
  (index s <= len)%nat -> wp scanRegExpFlags s (fun _ => onLine s) anyError.
Proof.
  intros Hs. unfold scanRegExpFlags. apply loop_onLine; [exact Hs|]. intros flags s' Hs'.
  unfold regExpFlags_turn. repeat wp_step; in_source; try exact I;
    try (unfold onLine; cbn [index lineNumber lineStart]; lia).
  wp_call scanHexEscape_onLine. repeat wp_step; exact I.
Qed.

Lemma scanRegExp_total tok s :
  (index s < len)%nat ->
  wp (scanRegExp tok) s (tokenFrom (index s) (eq RegularExpressionToken) s) anyError.
Proof.
  intros Hs. unfold scanRegExp. repeat wp_step. wp_call scanRegExpBody_total. repeat wp_step.
  wp_call scanRegExpFlags_total; [unfold onLine in *; lia|]. repeat wp_step.
  unfold tokenFrom, forward, onLine in *. cbn. repeat split; lia.
Qed.
End Tokens.

(** ** Templates *)

Section Templates.
Context {src : Source}.
Hypothesis beyond_nul : forall i, beyond i = 0.

(** The lines and [indexForError] stay. *)
Definition sameMark (sv sv' : ScanState * TemplateVars) : Prop :=
  lineNumber (fst sv') = lineNumber (fst sv) /\ lineStart (fst sv') = lineStart (fst sv) /\
  indexForError (snd sv') = indexForError (snd sv).

Lemma templateEscape_total ch sv :
  (index (fst sv) <= len)%nat ->
  wp (templateEscape ch) sv
     (fun _ sv' => sameMark sv sv' /\ (index (fst sv) <= index (fst sv') <= len)%nat)
     (fun _ => sameMark sv).
Proof.
  intros Hs. unfold templateEscape.
  assert (Hhex : forall p s, (index s <= len)%nat ->
    wp (scanHexEscape p) s (fun _ => onLine s) (fun _ _ => False)).
  { intros p s H. pose proof (scanHexEscape_onLine beyond_nul p s H) as H1.
    pose proof (hexEscapeDigits_returns (if (p =? 117)%Z then 4 else 2)%nat 0 s) as H2.
    unfold wp, scanHexEscape in *. destruct (hexEscapeDigits _ _ s) as [[a|e|] s']; auto. }
  repeat first
    [ wp_step
    | progress (eapply wp_mono;
        [apply scanUnicodeCodePointEscape_onLine; cbn [index]
        |intros|intros; unfold onLine, sameMark in *; cbn in *; lia])
    | progress (eapply wp_mono; [apply Hhex|intros|intros ? ? []]) ];
    in_source; unfold onLine, sameMark in *; cbn in *; try assumption; try lia.
Qed.

Section FromStart.
Variable s0 : ScanState.
Hypothesis Hs0 : (index s0 <= len)%nat.

Definition marked (sv : ScanState * TemplateVars) : Prop :=
  (index s0 <= indexForError (snd sv) <= len)%nat /\
  (lineNumber s0 <= lineNumber (fst sv))%nat /\
  (lineStart s0 <= index s0 -> lineStart (fst sv) <= indexForError (snd sv))%nat.

Definition t_inv (sv : ScanState * TemplateVars) : Prop :=
  marked sv /\ (indexForError (snd sv) <= index (fst sv) <= len + 1)%nat.

(** Where a template that ends at [i] really ended. *)
Definition terminatedAt (tail : bool) (i : nat) : Prop :=
  if tail then (0 < i)%nat /\ sourceCharAt (i - 1) = 96
  else (1 < i)%nat /\ sourceCharAt (i - 2) = 36 /\ sourceCharAt (i - 1) = 123.

Lemma template_turn_total sv :
  t_inv sv ->
  wp template_turn sv
     (fun r sv' => t_inv sv' /\
        match r with
        | inl _ => (index (fst sv) < index (fst sv'))%nat /\ (index (fst sv) < len)%nat
        | inr (Some tail) => (index (fst sv') <= len)%nat /\ terminatedAt tail (index (fst sv'))
        | inr None => True
        end) (fun _ => marked).
Proof.
  intros [(Hm1 & Hm2 & Hm3) Hi]. destruct sv as [s v]. cbn [fst snd] in *.
  unfold template_turn, templateNewLine. repeat wp_step; in_source.
  all: try (unfold t_inv, marked; cbn [fst snd index lineNumber lineStart cooked raw
    indexForError]; repeat split; first [exact I|lia]).
  - unfold t_inv, marked, terminatedAt. to_prop.
    cbn [fst snd index lineNumber lineStart cooked raw indexForError].
    rewrite Nat.add_sub. repeat split; (lia || assumption).
  - unfold t_inv, marked, terminatedAt. to_prop.
    cbn [fst snd index lineNumber lineStart cooked raw indexForError].
    rewrite Nat.add_sub. replace (index s + 1 + 1 - 2)%nat with (index s) by lia.
    match goal with H : peeked _ = 123 |- _ => rewrite peeked_source in H by (cbn; lia) end.
    repeat split; (lia || assumption).
  - match goal with |- context [templateEscape (peeked ?s1)] =>
      destruct (Z.eqb_spec (peeked s1) 0) as [->|Hne] end.
    + change (templateEscape 0) with (appendCooked [0]). repeat wp_step.
      unfold t_inv, marked; cbn; repeat split; lia.
    + apply peeked_nonzero in Hne. cbn [index] in Hne.
      eapply wp_mono; [apply templateEscape_total; cbn; lia| |].
      * intros [] [s' v'] [(H1 & H2 & H3) H4]. repeat wp_step.
        unfold t_inv, marked; cbn in *; repeat split; lia.
      * intros e [s' v'] (H1 & H2 & H3). unfold marked; cbn in *; repeat split; lia.
Qed.

Lemma template_skip_turn_total sv :
  (index (fst sv) <= len)%nat ->
  wp template_skip_turn sv
     (fun r sv' => forward (fst sv) (fst sv') /\
        match r with inl _ => (index (fst sv) < index (fst sv'))%nat | inr _ => True end)
     (fun _ _ => False).
Proof.
  intros Hi. destruct sv as [s v]. cbn [fst snd] in *.
  unfold template_skip_turn. repeat wp_step; in_source;
    unfold forward; cbn [index lineNumber lineStart]; repeat split; first [exact I|lia].
Qed.

Lemma template_catch_total e sv :
  marked sv ->
  wp (template_catch e) sv
     (fun r sv' => forward s0 (fst sv') /\ snd r = Some e) (fun _ _ => False).
Proof.
  intros (Hm1 & Hm2 & Hm3). destruct sv as [s v]. cbn [fst snd] in *.
  unfold template_catch. repeat wp_step.
  apply (wp_loop (fun _ sv' => forward s0 (fst sv')) (fun _ sv' => len - index (fst sv'))%nat);
    [|unfold forward; cbn [fst index lineNumber lineStart]; lia|unfold fuel; lia].
  intros _ sv' Hf. wp_call template_skip_turn_total; [unfold forward in Hf; lia|].
  match goal with H : _ /\ _ |- _ => destruct H as [Hf' H] end.
  pose proof (forward_trans _ _ _ Hf Hf') as Hf2. destruct a as [[]|tail].
  - split; [exact Hf2|]. unfold forward in *. lia.
  - repeat wp_step. split; [exact Hf2|reflexivity].
Qed.

Lemma template_try_total v :
  wp template_try (s0, {| cooked := v; raw := v; indexForError := index s0 |})
     (fun r sv' => forward s0 (fst sv') /\ snd r = None /\
        terminatedAt (fst r) (index (fst sv')))
     (fun _ => marked).
Proof.
  unfold template_try. wp_step.
  apply (wp_loop (fun _ sv' => t_inv sv') (fun _ sv' => len - index (fst sv'))%nat);
    [|unfold t_inv, marked; cbn; lia|unfold fuel; lia].
  intros _ sv' Hf. eapply wp_mono; [apply template_turn_total, Hf| |auto].
  intros r sv2 [H2 Hr]. destruct r as [[]|[tail|]].
  - split; [exact H2|lia].
  - repeat wp_step. destruct Hr as [Hr1 Hr2]. split; [|auto].
    destruct H2 as [(M1 & M2 & M3) M4]. unfold forward. lia.
  - repeat wp_step. apply H2.
Qed.
End FromStart.

(** A template never throws: a malformed one becomes a token that carries its
    error and has no cooked value. *)
Lemma scanTemplate_spec tok head s :
  (index s <= len)%nat ->
  wp (scanTemplate tok head) s
     (fun t s' => forward s s' /\ type t = TemplateToken /\
        start t = (if head then index s - 1 else index s)%nat /\ end_ t = index s' /\
        exists r, value t = TemplateValue r /\ LexState.head r = head /\
          (valueCooked r = None <-> templateError r <> None) /\
          (templateError r = None -> terminatedAt (tail r) (index s')))
     (fun _ _ => False).
Proof.
  intros Hs. unfold scanTemplate. repeat wp_step. apply wp_withVars, wp_try_catch.
  eapply wp_mono; [apply template_try_total, Hs| |].
  - intros [tail error] [s1 v] (Hf & He & Ht). cbn [fst snd] in *. subst error. repeat wp_step.
    split; [exact Hf|]. repeat split; try (destruct head; reflexivity).
    eexists. repeat split; try discriminate; auto. cbn. congruence.
  - intros e sv Hm. eapply wp_mono; [eapply template_catch_total, Hm; exact Hs| |intros ? ? []].
    intros [tail error] [s1 v] (Hf & He). cbn [fst snd] in *. subst error. repeat wp_step.
    split; [exact Hf|]. repeat split; try (destruct head; reflexivity).
    eexists. repeat split; try discriminate; auto.
Qed.
End Templates.

(** ** Identifiers *)

Lemma to_unsigned_range w z : 0 <= w -> 0 <= to_unsigned w z < 2 ^ w.
Proof. intros Hw. unfold to_unsigned. apply Z.mod_pos_bound, Z.pow_pos_nonneg; lia. Qed.

Section IdentifierTokens.
Context {src : Source}.
Hypothesis beyond_nul : forall i, beyond i = 0.
Hypothesis units : Forall (fun c => 0 <= c < 0x10000) source.

Lemma sourceCharAt_unit i : 0 <= sourceCharAt i < 0x10000.
Proof.
  unfold sourceCharAt. destruct (source !! i) eqn:Hi; [|rewrite beyond_nul; lia].
  exact (Forall_lookup_1 _ _ _ _ units Hi).
Qed.

(** A code point takes as many units as its piece has. *)
Lemma codePointAt_piece i :
  (i < len)%nat -> (0 < length (ParserCharPiece (codePointAt i)) <= len - i)%nat.
Proof.
  intros Hi. unfold codePointAt. pose proof (sourceCharAt_unit i). repeat case_if;
    try (unfold ParserCharPiece; replace (_ <? 0x10000) with true by lia; cbn; lia).
  in_source. unfold ParserCharPiece. case_if; cbn [length]; lia.
Qed.

Lemma identifierEscape_onLine ok s :
  (index s <= len)%nat -> wp (identifierEscape ok) s (fun _ => onLine s) anyError.
Proof.
  intros Hs. unfold identifierEscape. repeat wp_step; try exact I; in_source.
  - wp_call scanUnicodeCodePointEscape_onLine. unfold onLine in *. cbn in *. lia.
  - wp_call scanHexEscape_onLine. repeat wp_step; [exact I|].
    unfold onLine in *. cbn in *. lia.
Qed.

Lemma complexIdentifier_turn_onLine id s :
  (index s <= len)%nat ->
  wp (complexIdentifier_turn id) s (fun r s' => onLine s s' /\
    match r with inl _ => (index s < index s')%nat | inr _ => True end) anyError.
Proof.
  intros Hs. unfold complexIdentifier_turn. repeat wp_step; in_source;
    try (split; [apply onLine_refl, Hs|exact I]);
    pose proof (codePointAt_piece (index s) ltac:(assumption)).
  - wp_call identifierEscape_onLine. repeat wp_step;
      (split; [unfold onLine in *; cbn in *; lia|]); first [exact I|unfold onLine in *; cbn in *; lia].
  - unfold onLine. cbn. lia.
Qed.

Lemma getComplexIdentifier_onLine s :
  (index s < len)%nat ->
  wp getComplexIdentifier s (fun _ s' => onLine s s' /\ (index s < index s')%nat) anyError.
Proof.
  intros Hs.
  assert (Htail : forall id s1, onLine s s1 -> (index s < index s1)%nat ->
    wp (let! id := loop fuel complexIdentifier_turn id in
        do! (when! awaitContext && bool_decide (id = bytes "await")
             then throwUnexpectedToken KeywordMustNotContainEscapedCharacters) in
        ret id)%esc s1 (fun _ s' => onLine s s' /\ (index s < index s')%nat) anyError).
  { intros id s1 H1 H2. wp_step. wp_call @loop_onLine; [unfold onLine in H1; lia| |].
    - intros id' s' Hs'. apply complexIdentifier_turn_onLine, Hs'.
    - repeat wp_step; [exact I|]. unfold onLine in *. lia. }
  assert (Hlen : length (ParserCharPiece (to_unsigned 16 (codePointAt (index s)))) = 1%nat).
  { unfold ParserCharPiece. pose proof (to_unsigned_range 16 (codePointAt (index s)) ltac:(lia)).
    replace (_ <? 0x10000) with true by (cbn in *; lia). reflexivity. }
  unfold getComplexIdentifier. do 7 wp_step; rewrite Hlen.
  - wp_call identifierEscape_onLine. wp_step. apply Htail; unfold onLine in *; cbn in *; lia.
  - apply Htail; unfold onLine in *; cbn in *; lia.
Qed.

Lemma getIdentifier_onLine s :
  (index s < len)%nat ->
  wp getIdentifier s (fun _ s' => onLine s s' /\ (index s < index s')%nat) anyError.
Proof.
  intros Hs. unfold getIdentifier. repeat wp_step. wp_call @loop_onLine.
  - intros [] s' Hs'. repeat wp_step; in_source; unfold onLine; cbn [index lineNumber lineStart];
      (split; [lia|]); first [exact I|lia].
  - repeat wp_step.
    + wp_call getComplexIdentifier_onLine. repeat wp_step. unfold onLine in *.
      cbn [index lineNumber lineStart] in *. lia.
    + unfold onLine in *. cbn [index lineNumber lineStart] in *. lia.
Qed.

Lemma scanIdentifier_total tok ch0 s :
  (index s < len)%nat ->
  wp (scanIdentifier tok ch0) s
     (tokenFrom (index s)
        (fun ty => In ty [IdentifierToken; KeywordToken; NullLiteralToken; BooleanLiteralToken]) s)
     anyError.
Proof.
  intros Hs. unfold scanIdentifier. wp_step. wp_step. wp_step.
  eapply wp_mono with (Q' := fun _ s' => onLine s s' /\ (index s < index s')%nat)
    (X' := anyError); [| |auto].
  { repeat wp_step; [wp_call getComplexIdentifier_onLine; repeat wp_step; assumption|].
    apply getIdentifier_onLine, Hs. }
  intros [data allocated] s1 [H1 H2]. apply onLine_forward in H1. repeat wp_step;
    [|unfold tokenFrom; destruct allocated; cbn; auto 10].
  destruct (getKeyword data); repeat wp_step; unfold tokenFrom; destruct allocated; cbn; auto 10.
Qed.

(** ** [lex] *)

(** [lex] from any place inside the source ends.  At the end of the source it
    answers [EOFToken] and stays; elsewhere it throws, or answers a token of
    another type that starts at or after the scanner's position, is not empty,
    ends inside the source and is where the scanner goes on. *)
Definition lexed (s : ScanState) (t : ScannerResult) (s' : ScanState) : Prop :=
  (type t = EOFToken /\ s' = s /\ index s = len /\ start t = len /\ end_ t = len) \/
  (type t <> EOFToken /\ type t <> InvalidToken /\ forward s s' /\
   (index s <= start t < end_ t)%nat /\ end_ t = index s').

Lemma lex_lexed tok s :
  (index s <= len)%nat -> wp (lex tok) s (lexed s) anyError.
Proof.
  intros Hs. unfold lex. wp_step. wp_step. wp_step.
  - repeat wp_step. left. unfold at_eof in *. cbn. repeat split; to_prop; lia.
  - in_source. wp_step. wp_step. wp_step.
    eapply wp_mono with (Q' := fun _ s1 => onLine s s1 /\ (index s1 < len)%nat)
      (X' := anyError); [| |auto].
    { unfold lexLeadSurrogate. repeat wp_step; try exact I; in_source;
        unfold onLine; cbn [index lineNumber lineStart]; lia. }
    intros cp s1 [H1 H2]. apply onLine_forward in H1.
    assert (Hany : forall ty, (forall x, ty x -> x <> EOFToken /\ x <> InvalidToken) ->
      forall t s', tokenFrom (index s1) ty s1 t s' -> lexed s t s').
    { intros ty Hty t s' (Hf & Hlt & Ht & Hst & Hend). right. apply Hty in Ht.
      split; [apply Ht|]. split; [apply Ht|]. split; [eapply forward_trans; eassumption|].
      unfold forward in *. lia. }
    repeat wp_step.
    + wp_call scanIdentifier_total. eapply Hany; [|eassumption].
      cbn. intros x. intuition congruence.
    + wp_call scanStringLiteral_total. eapply Hany; [|eassumption]. cbn. intuition congruence.
    + wp_call scanNumericLiteral_total. eapply Hany with (ty := eq NumericLiteralToken);
        [cbn; intuition congruence|].
      unfold numberToken, tokenFrom in *. intuition auto using onLine_forward.
    + wp_call scanNumericLiteral_total. eapply Hany with (ty := eq NumericLiteralToken);
        [cbn; intuition congruence|].
      unfold numberToken, tokenFrom in *. intuition auto using onLine_forward.
    + eapply wp_mono; [apply scanTemplate_spec; [exact beyond_nul|cbn; lia]| |intros ? ? []].
      cbn [index]. intros t s' (Hf & Ht & Hst & Hend & _).
      eapply Hany with (ty := eq TemplateToken); [cbn; intuition congruence|].
      unfold tokenFrom, forward in *. cbn [index lineNumber lineStart] in *.
      repeat split; (lia || auto).
    + wp_call scanIdentifier_total. eapply Hany; [|eassumption].
      cbn. intros x. intuition congruence.
    + wp_call scanPunctuator_total. eapply Hany; [|eassumption]. cbn. intuition congruence.
Qed.

(** Tokens one after the other from offset [i]: they do not overlap, none but
    the last is the end of the source, and the last one is. *)
Fixpoint in_order (i : nat) (ts : list ScannerResult) : Prop :=
  match ts with
  | [] => False
  | [t] => type t = EOFToken /\ (i <= start t)%nat /\ start t = len /\ end_ t = len
  | t :: ts =>
    type t <> EOFToken /\ (i <= start t < end_ t)%nat /\ (end_ t <= len)%nat /\
    in_order (end_ t) ts
  end.

Lemma lexAll_order n : forall s,
  (index s <= len)%nat -> (len - index s < n)%nat ->
  wp (lexAll n) s (fun ts _ => in_order (index s) ts) anyError.
Proof.
  induction n as [|n IH]; intros s Hs Hn; [lia|]. cbn [lexAll]. wp_step.
  wp_call scanComments_forward. wp_step. rename s' into s1.
  match goal with H : _ /\ _ |- _ => destruct H as [H1 _] end.
  wp_call lex_lexed; [unfold forward in H1; lia|]. rename a0 into t, s' into s2.
  match goal with H : lexed _ _ _ |- _ => destruct H as [(Ht & -> & Hi & Hst & He)|(Ht & _ & Hf & Hp & He)] end.
  - rewrite Ht. wp_step. cbn [in_order]. unfold forward in H1. repeat split; (assumption || lia).
  - assert (Hrest : wp (let! ts := lexAll n in ret (t :: ts))%esc s2
      (fun ts _ => in_order (index s) ts) anyError).
    { wp_step. wp_call IH; [unfold forward in *; lia..|]. wp_step.
      unfold forward in *. destruct a0 as [|t' ts]; [contradiction|].
      change (in_order (index s) (t :: t' :: ts)) with
        (type t <> EOFToken /\ (index s <= start t < end_ t)%nat /\ (end_ t <= len)%nat /\
         in_order (end_ t) (t' :: ts)).
      rewrite He at 3. repeat split; (assumption || lia). }
    destruct (type t); try exact Hrest. congruence.
Qed.
End IdentifierTokens.

(** ** The theorems *)

(** A buffer of UTF-16 units followed by NULs. *)
Definition nul_terminated (src : Source) : Prop :=
  (forall i, beyond i = 0) /\ Forall (fun c => 0 <= c < 0x10000) source.

Lemma script_nul_terminated s :
  forallb (fun c => (0 <=? c) && (c <? 0x10000)) (bytes s) = true -> nul_terminated (script s).
Proof.
  intros H. split; [reflexivity|]. cbn. induction (bytes s) as [|c l IH]; constructor;
    cbn in H; apply andb_prop in H as [Hc Hl]; to_prop; [lia|exact (IH Hl)].
Qed.

(** C1: [lex] terminates on every source that is followed by NUL characters in
    memory, and at every position in it: it throws a syntax error, or it answers the end-of-file token at the end of the source, or a
    non-empty token of another type that lies inside the source, starts at or
    after the scanner's position and ends where the scanner is left; the line
    number does not go back. *)
Theorem lex_total (src : Source) tok s :
  nul_terminated src -> (index s <= len)%nat ->
  (exists e s', lex tok s = (Throw e, s')) \/
  (exists t s', lex tok s = (Ret t, s') /\ lexed s t s').
Proof.
  intros [Hnul Hu] Hs. destruct (wp_run _ _ _ _ (lex_lexed Hnul Hu tok s Hs)) as [H|H];
    [right; exact H|left]. destruct H as (e & s' & H & _). eauto.
Qed.

Lemma lex_total_witness :
  exists t s', @lex (script "x=`a\u{41}`") newScannerResult start_state = (Ret t, s') /\
    @lexed (script "x=`a\u{41}`") start_state t s' /\ type t = IdentifierToken.
Proof.
  destruct (lex_total (script "x=`a\u{41}`") newScannerResult start_state) as [(e & s' & H)|(t & s' & H & Hl)].
  - apply script_nul_terminated. reflexivity.
  - vm_compute. lia.
  - vm_compute in H. discriminate H.
  - exists t, s'. split; [exact H|]. split; [exact Hl|].
    vm_compute in H. injection H as <- _. reflexivity.
Defined.

(** A source of two full stops that is a part of a longer text: the scanner looks at the character after the source
    without a test, and answers a token of three characters. *)
Example spread_past_the_end :
  let src := {| source := bytes ".."; beyond := fun _ => 46; isModule := false; awaitContext := false |} in
  match @lex src newScannerResult start_state with
  | (Ret t, s') => @len src = 2%nat /\ start t = 0%nat /\ end_ t = 3%nat /\ index s' = 3%nat
  | _ => False
  end.
Proof. vm_compute. repeat split. Qed.

(** Scanning a whole source, comments and tokens in turn, ends within one
    token per character and the end-of-file token: with [len + 1] rounds the
    answer is a syntax error or a list of non-empty tokens that follow each other
    without overlap and end with the end-of-file token at the end of the source. *)
Theorem source_lexes_in_order (src : Source) s :
  nul_terminated src -> (index s <= len)%nat ->
  (exists e s', lexAll (len + 1) s = (Throw e, s')) \/
  (exists ts s', lexAll (len + 1) s = (Ret ts, s') /\ in_order (index s) ts).
Proof.
  intros [Hnul Hu] Hs.
  destruct (wp_run _ _ _ _ (lexAll_order Hnul Hu (len + 1) s Hs ltac:(lia))) as [H|H];
    [right; exact H|left]. destruct H as (e & s' & H & _). eauto.
Qed.

Lemma source_lexes_in_order_witness :
  exists ts s', @lexAll (script "a /* b */ += 0x1F // c") 22 start_state = (Ret ts, s') /\
    @in_order (script "a /* b */ += 0x1F // c") 0 ts /\ length ts = 4%nat.
Proof.
  destruct (source_lexes_in_order (script "a /* b */ += 0x1F // c") start_state)
    as [(e & s' & H)|(ts & s' & H & Ho)].
  - apply script_nul_terminated. reflexivity.
  - vm_compute. lia.
  - vm_compute in H. discriminate H.
  - exists ts, s'. split; [|split; [exact Ho|]].
    + vm_compute in H. injection H as <- <-. vm_compute. reflexivity.
    + vm_compute in H. injection H as <- _. reflexivity.
Defined.

(** [scanTemplate] never throws, whatever the text: a malformed escape or a
    missing end gives a token that carries its error and has no cooked text, the
    rest of the template being skipped; and a token without error was ended by a
    back quote (a tail) or by a dollar sign and brace. *)
Theorem scanTemplate_total (src : Source) tok head s :
  nul_terminated src -> (index s <= len)%nat ->
  exists t s' r, scanTemplate tok head s = (Ret t, s') /\ value t = TemplateValue r /\
    forward s s' /\ end_ t = index s' /\
    (valueCooked r = None <-> templateError r <> None) /\
    (templateError r = None -> terminatedAt (tail r) (index s')).
Proof.
  intros [Hnul Hu] Hs.
  destruct (wp_run _ _ _ _ (scanTemplate_spec Hnul tok head s Hs)) as [H|H];
    [|destruct H as (? & ? & _ & [])].
  destruct H as (t & s' & H & Hf & _ & _ & He & r & Hv & _ & Hc & Ht).
  exists t, s', r. auto 10.
Qed.

Lemma scanTemplate_total_witness :
  exists t s' r, @scanTemplate (script "\x0g ${") newScannerResult false start_state = (Ret t, s') /\
    value t = TemplateValue r /\ templateError r <> None /\ valueCooked r = None.
Proof.
  destruct (scanTemplate_total (script "\x0g ${") newScannerResult false start_state)
    as (t & s' & r & H & Hv & _ & _ & Hc & _).
  - apply script_nul_terminated. reflexivity.
  - vm_compute. lia.
  - exists t, s', r. split; [exact H|]. split; [exact Hv|].
    assert (Hr : valueCooked r = None).
    { vm_compute in H. injection H as <- _. vm_compute in Hv. injection Hv as <-. reflexivity. }
    split; [apply Hc, Hr|exact Hr].
Defined.
