(* ===== verification/PunctSpec.v ===== *)
(** * Punctuators are scanned by maximal munch

    [scanPunctuator] against the table [punctuators] of kinds and texts: it
    takes the longest text of the table that the source goes on with. *)

From Stdlib Require Import String.
From S2P Require Import Prelude LexChars LexState LexPunct LexTotal.
Local Open Scope Z_scope.


Section Punct.
Context {src : Source}.
Hypothesis beyond_nul : forall i, beyond i = 0.









End Punct.


