(* ===== verification/NumberSpec.v ===== *)
(** * The values of hexadecimal, octal and binary literals

    From [lex] to the number in the token, for digit strings of any length. *)

From Stdlib Require Import String.
From S2P Require Import Prelude Float64 LexChars LexState LexNumber LexString Lexer LexTotal.
Local Open Scope Z_scope.

(** ** The nearest double *)

(** [d] is a closest 53-bit number to the natural number [v]. *)
Definition nearest53 (d v : Z) : Prop :=
  Z.abs (2 * (d - v)) <= 2 ^ Z.max 0 (Z.log2 v - 52) /\ (d mod 2 ^ Z.max 0 (Z.log2 v - 52) = 0).

Lemma round53_nearest v : nearest53 (round53 v) v.
Proof.
  unfold nearest53, round53. set (e := Z.max 0 (Z.log2 v - 52)).
  assert (He : 0 < 2 ^ e) by (apply Z.pow_pos_nonneg; lia).
  split; [apply round_even_near, He|]. apply Z.mod_mul. lia.
Qed.

Lemma to_double_64 v : 0 <= v < 2 ^ 64 -> to_double v = Some (round53 v).
Proof.
  intros Hv. unfold to_double. destruct (round53_nearest v) as [Hn _].
  assert (He : 2 ^ Z.max 0 (Z.log2 v - 52) <= 2 ^ 12).
  { apply Z.pow_le_mono_r; [lia|]. destruct (Z.eq_dec v 0) as [->|]; [cbn; lia|].
    assert (Z.log2 v < 64) by (apply Z.log2_lt_pow2; lia). lia. }
  assert (H1024 : 2 ^ 64 * 2 ^ 64 <= 2 ^ 1024) by (rewrite <- Z.pow_add_r by lia;
    apply Z.pow_le_mono_r; lia).
  set (big := 2 ^ 1024) in *. set (r := round53 v) in *.
  replace (r <? big) with true; [reflexivity|]. symmetry. apply Z.ltb_lt.
  set (p := 2 ^ Z.max 0 (Z.log2 v - 52)) in *. clearbody big p r.
  change (2 ^ 64) with 18446744073709551616 in *. change (2 ^ 12) with 4096 in *. lia.
Qed.

(** ** The text from the scanner's position on *)

Section Rest.
Context {src : Source}.

Definition rest (s : ScanState) : list Z := drop (index s) source.

Lemma rest_cons s c l :
  rest s = c :: l ->
  at_eof s = false /\ sourceCharAt (index s) = c /\ peeked s = c /\
  drop (index s + 1) source = l.
Proof.
  intros H. assert (Hi : source !! index s = Some c).
  { rewrite <- (Nat.add_0_r (index s)), <- lookup_drop. unfold rest in H. rewrite H. reflexivity. }
  assert (He : at_eof s = false) by (apply at_eof_false; apply lookup_lt_Some in Hi; exact Hi).
  assert (Hc : sourceCharAt (index s) = c) by (unfold sourceCharAt; rewrite Hi; reflexivity).
  repeat split; try assumption.
  - unfold peeked. rewrite He. exact Hc.
  - rewrite <- drop_drop. unfold rest in H. rewrite H. reflexivity.
Qed.

Lemma rest_nil s : rest s = [] -> at_eof s = true /\ peeked s = 0.
Proof.
  intros H. assert (He : at_eof s = true).
  { unfold at_eof. apply Nat.leb_le. apply (f_equal length) in H. unfold rest in H.
    rewrite length_drop in H. cbn in H. unfold len. lia. }
  split; [exact He|]. unfold peeked. rewrite He. reflexivity.
Qed.

(** What may follow a radix literal. *)
Definition literal_end (post : list Z) : bool :=
  match post with [] => true | c :: _ => negb (isIdentifierStart c || isHexDigit c) end.
End Rest.

(** ** Octal and binary *)

(** The number a digit string denotes, most significant digit first. *)
Definition radix_value (value : Z -> Z) (base : Z) (ds : list Z) : Z :=
  fold_left (fun acc c => acc * base + value c) ds 0.

Lemma radix_value_snoc value base ds c :
  radix_value value base (ds ++ [c]) = radix_value value base ds * base + value c.
Proof. unfold radix_value. rewrite fold_left_app. reflexivity. Qed.

Section Radix.
Context {src : Source}.

Lemma radixLoop_value d bits u ds post s :
  (forall c, d c = true -> c <> 95) -> 0 <= bits ->
  forallb d ds = true -> match post with [] => true | c :: _ => negb (d c) && negb (c =? 95) end = true ->
  rest s = ds ++ post -> (index s <= len)%nat ->
  wp (radixLoop d bits u) s
     (fun r s' => r = (radix_value octalValue (2 ^ bits) ds mod 2 ^ 64, negb (bool_decide (ds = [])), false) /\
        rest s' = post /\ index s' = (index s + length ds)%nat)
     (fun _ _ => False).
Proof.
  intros Hd Hbits Hds Hpost Hrest Hs. unfold radixLoop.
  apply (wp_loop (fun st s' => exists done todo, ds = done ++ todo /\ rest s' = todo ++ post /\
      index s' = (index s + length done)%nat /\ (index s' <= len)%nat /\
      st = (radix_value octalValue (2 ^ bits) done mod 2 ^ 64, negb (bool_decide (done = [])), false))
    (fun _ s' => len - index s')%nat); [|exists [], ds; cbn; auto with lia|unfold fuel; lia].
  intros st s' (done & todo & Hdt & Hr & Hi & Hle & ->).
  assert (Hstop : todo = [] -> done = ds) by (intros ->; rewrite app_nil_r in Hdt; auto).
  wp_step. wp_step. wp_step.
  { destruct todo as [|c todo]; [|apply rest_cons in Hr; destruct Hr; congruence].
    wp_step. rewrite (Hstop eq_refl) in *. auto. }
  destruct todo as [|c todo].
  - destruct post as [|p post]; [apply rest_nil in Hr; destruct Hr; congruence|].
    pose proof Hr as Hr'. apply rest_cons in Hr' as (_ & Hc & _ & _).
    apply andb_prop in Hpost as [Hp1 Hp2]. apply negb_true_iff in Hp1, Hp2.
    repeat wp_step; rewrite ?Hc in *; try congruence.
    + rewrite Hp2, andb_false_r in *. congruence.
    + rewrite (Hstop eq_refl) in *. auto.
  - pose proof Hr as Hr'. apply rest_cons in Hr' as (He & Hc & _ & Hnext).
    assert (Hdc : d c = true).
    { rewrite Hdt, forallb_app in Hds. cbn in Hds. to_prop. assumption. }
    repeat wp_step; rewrite ?Hc in *; try congruence.
    + exfalso. apply (Hd c Hdc). to_prop. assumption.
    + split; [|apply at_eof_false in He; lia].
      exists (done ++ [c]), todo. rewrite <- app_assoc. split; [exact Hdt|].
      split; [exact Hnext|]. rewrite length_app. cbn [length].
      split; [lia|]. split; [apply at_eof_false in He; lia|].
      rewrite radix_value_snoc, bool_decide_eq_false_2 by (destruct done; discriminate).
      cbn [negb]. do 2 f_equal.
      unfold to_unsigned, octalValue. rewrite Z.shiftl_mul_pow2 by exact Hbits.
      rewrite <- Z.add_sub_assoc, Zplus_mod_idemp_l.
      rewrite <- (Zplus_mod_idemp_l (_ mod _ * _)), Zmult_mod_idemp_l, Zplus_mod_idemp_l.
      reflexivity.
Qed.

(** ** Hexadecimal *)

Definition hex_state (ds : list Z) : HexState := fold_left (fun h c => hexStep c h) ds hexStart.

Lemma scanHexLoop_value ds post s :
  forallb (fun c => isHexDigit c && (0 <=? c)) ds = true ->
  match post with [] => true | c :: _ => negb (isHexDigit c) && negb (c =? 95) end = true ->
  rest s = ds ++ post -> (index s <= len)%nat ->
  wp (loop fuel (fun h : HexState =>
        let! e := eof in
        if e then break h else
        let! ch := peekCharWithoutEOF in
        let '(isDigit, _) := isHexDigitOrUnderscore ch in
        if negb isDigit then break h
        else if ch =? 95 then do! advance 1 in continue (hexUnderscore h)
        else do! advance 1 in continue (hexStep ch h)) hexStart)%esc s
     (fun h s' => h = hex_state ds /\ rest s' = post /\ index s' = (index s + length ds)%nat)
     (fun _ _ => False).
Proof.
  intros Hds Hpost Hrest Hs.
  apply (wp_loop (fun h s' => exists done todo, ds = done ++ todo /\ rest s' = todo ++ post /\
      index s' = (index s + length done)%nat /\ (index s' <= len)%nat /\ h = hex_state done)
    (fun _ s' => len - index s')%nat); [|exists [], ds; cbn; auto with lia|unfold fuel; lia].
  intros h s' (done & todo & Hdt & Hr & Hi & Hle & ->).
  assert (Hstop : todo = [] -> done = ds) by (intros ->; rewrite app_nil_r in Hdt; auto).
  assert (Hclass : forall c, isHexDigitOrUnderscore c = (isHexDigit c || (c =? 95), c =? 95)).
  { intros c. unfold isHexDigitOrUnderscore, isDecimalDigitOrUnderscore, isHexDigit, isDecimalDigit.
    destruct (c =? 95); [rewrite orb_true_r; reflexivity|]. rewrite orb_false_r. reflexivity. }
  wp_step. wp_step. wp_step.
  { destruct todo as [|c todo]; [|apply rest_cons in Hr; destruct Hr; congruence].
    wp_step. rewrite (Hstop eq_refl) in *. auto. }
  destruct todo as [|c todo].
  - destruct post as [|p post]; [apply rest_nil in Hr; destruct Hr; congruence|].
    pose proof Hr as Hr'. apply rest_cons in Hr' as (_ & Hc & _ & _).
    apply andb_prop in Hpost as [Hp1 Hp2]. apply negb_true_iff in Hp1, Hp2.
    wp_step. wp_step. rewrite Hc, Hclass, Hp1, Hp2. cbn [orb negb]. wp_step.
    rewrite (Hstop eq_refl) in *. auto.
  - pose proof Hr as Hr'. apply rest_cons in Hr' as (He & Hc & _ & Hnext).
    assert (Hdc : isHexDigit c = true).
    { rewrite Hdt, forallb_app in Hds. cbn in Hds. to_prop. assumption. }
    assert (H95 : (c =? 95) = false).
    { apply Z.eqb_neq. intros ->. vm_compute in Hdc. discriminate. }
    wp_step. wp_step. rewrite Hc, Hclass, Hdc, H95. cbn [orb negb]. repeat wp_step.
    split; [|apply at_eof_false in He; lia].
    exists (done ++ [c]), todo. rewrite <- app_assoc, length_app. cbn [length app].
    split; [exact Hdt|]. split; [exact Hnext|].
    split; [lia|]. split; [apply at_eof_false in He; lia|].
    unfold hex_state. rewrite fold_left_app. reflexivity.
Qed.
End Radix.

Lemma hexDigit_bound c : isHexDigit c = true -> 0 <= c -> c < 128.
Proof.
  unfold isHexDigit, isDecimalDigit, hexLetter. intros H Hc. apply orb_prop in H as [H|H]; to_prop; [lia|].
  destruct (Z.lt_ge_cases c 128) as [|Hge]; [assumption|exfalso].
  pose proof (Z.log2_lor c 0x20 Hc ltac:(lia)) as Hlog.
  pose proof (Z.log2_le_mono 128 c Hge) as H7. change (Z.log2 128) with 7 in H7.
  pose proof (Z.log2_le_mono _ _ (ltac:(eassumption) : Z.lor c 0x20 <= 102)) as H6.
  change (Z.log2 102) with 6 in H6. lia.
Qed.

(** The arithmetic trick of [toHexNumericValue] reads the digit. *)
Lemma toHexNumericValue_value c :
  isHexDigit c = true -> 0 <= c -> toHexNumericValue c = hexValue c /\ 0 <= hexValue c < 16.
Proof.
  intros H Hc. pose proof (hexDigit_bound c H Hc) as Hb.
  assert (Hall : forallb (fun n => let c := Z.of_nat n in
      negb (isHexDigit c) || ((toHexNumericValue c =? hexValue c) && (0 <=? hexValue c) && (hexValue c <? 16)))
    (seq 0 128) = true) by (vm_compute; reflexivity).
  rewrite forallb_forall in Hall. specialize (Hall (Z.to_nat c)).
  cbv zeta in Hall. rewrite in_seq, Z2Nat.id, H in Hall by lia. cbn [negb orb] in Hall.
  specialize (Hall ltac:(lia)). to_prop. lia.
Qed.

Definition hex_value : list Z -> Z := radix_value hexValue 16.

Lemma hex_value_bound ds :
  forallb (fun c => isHexDigit c && (0 <=? c)) ds = true ->
  0 <= hex_value ds < 16 ^ Z.of_nat (length ds).
Proof.
  induction ds as [|c ds IH] using rev_ind; [cbn; lia|].
  rewrite forallb_app. intros H. apply andb_prop in H as [Hds Hc]. cbn in Hc. to_prop.
  unfold hex_value in *. rewrite radix_value_snoc, length_app. cbn [length].
  destruct (toHexNumericValue_value c ltac:(assumption) ltac:(lia)).
  replace (Z.of_nat (length ds + 1)) with (Z.of_nat (length ds) + 1) by lia.
  rewrite Z.pow_add_r by lia. specialize (IH Hds). lia.
Qed.

(** Up to sixteen digits the loop has the exact value, in the integer or, after
    the sixteenth, rounded once. *)
Lemma hex_state_value ds :
  forallb (fun c => isHexDigit c && (0 <=? c)) ds = true -> (length ds <= 16)%nat ->
  hex_state ds =
  if (length ds =? 16)%nat then
    {| h_number := 0; h_double := to_double (hex_value ds); h_useDouble := true;
       h_scanned := true; h_underscore := false; h_shiftCount := 16 |}
  else
    {| h_number := hex_value ds; h_double := Some 0; h_useDouble := false;
       h_scanned := negb (length ds =? 0)%nat; h_underscore := false; h_shiftCount := length ds |}.
Proof.
  induction ds as [|c ds IH] using rev_ind; [reflexivity|].
  rewrite forallb_app, length_app. intros H Hl. cbn [length] in Hl |- *.
  apply andb_prop in H as [Hds Hc]. cbn in Hc. to_prop.
  destruct (toHexNumericValue_value c ltac:(assumption) ltac:(lia)) as [Hv Hr].
  unfold hex_state. rewrite fold_left_app. fold (hex_state ds). cbn [fold_left].
  rewrite IH by (assumption || lia). pose proof (hex_value_bound ds Hds) as Hb.
  rewrite (proj2 (Nat.eqb_neq (length ds) 16)) by lia. unfold hexStep. cbn [h_useDouble h_number].
  rewrite Hv, (radix_value_snoc hexValue 16 ds c : hex_value (ds ++ [c]) = _).
  fold (hex_value ds).
  assert (H15 : 16 ^ Z.of_nat (length ds) <= 16 ^ 15) by (apply Z.pow_le_mono_r; lia).
  change (16 ^ 15) with 1152921504606846976 in H15.
  replace (to_unsigned 64 (to_unsigned 64 (Z.shiftl (hex_value ds) 4) + hexValue c))
    with (hex_value ds * 16 + hexValue c).
  2:{ unfold to_unsigned. rewrite Z.shiftl_mul_pow2 by lia. change (2 ^ 4) with 16.
      change (2 ^ 64) with 18446744073709551616. lia. }
  cbn [h_shiftCount]. rewrite (proj2 (Nat.eqb_neq (length ds + 1) 0)) by lia.
  destruct (Nat.eqb_spec (length ds + 1) 16) as [He|He].
  - rewrite (proj2 (Nat.leb_le 16 (S (length ds)))) by lia. cbn [h_underscore]. f_equal; lia.
  - rewrite (proj2 (Nat.leb_gt 16 (S (length ds)))) by lia. cbn [h_underscore h_double negb]. f_equal; lia.
Qed.

(** ** From [lex] *)

Section FromLex.
Context {src : Source}.

(** A zero and a radix letter: [lex] scans a numeric literal. *)
Lemma lex_zero tok s l :
  rest s = 48 :: l -> lex tok s = scanNumericLiteral (resetResult tok) s.
Proof.
  intros H. apply rest_cons in H as (He & Hc & _). unfold lex, bind, eof, gets.
  rewrite He. unfold peekCharWithoutEOF, gets. rewrite Hc.
  change (lexLeadSurrogate 48) with (@ret ScanState Error Z 48).
  unfold ret, charAhead, gets. change (isIdentifierStart 48) with false.
  change (isDecimalDigit 48) with true. reflexivity.
Qed.

(** The literal is read as the double nearest to [v], and ends at offset [j]. *)
Definition reads_as (tok : ScannerResult) (s : ScanState) (v : Z) (j : nat) : Prop :=
  exists t s' d, lex tok s = (Ret t, s') /\ type t = NumericLiteralToken /\
    value t = NumberValue (Some d) /\ nearest53 d v /\
    hasNonComputedNumberLiteral t = false /\ end_ t = j /\ index s' = j.

(** What a radix scanner does, from after the letter. *)
Definition literal_token (v : Z) (j : nat) (t : ScannerResult) (s' : ScanState) : Prop :=
  type t = NumericLiteralToken /\ value t = NumberValue (Some (round53 v)) /\
  hasNonComputedNumberLiteral t = false /\ end_ t = j /\ index s' = j.

Lemma reads_as_wp tok s v j l :
  rest s = 48 :: l ->
  wp (scanNumericLiteral (resetResult tok)) s (literal_token v j) (fun _ _ => False) ->
  reads_as tok s v j.
Proof.
  intros Hr Hwp. destruct (wp_run _ _ _ _ Hwp) as [(t & s' & H & Ht & Hv & Hn & He & Hi)|(? & ? & _ & [])].
  exists t, s', (round53 v). rewrite (lex_zero tok s l Hr). repeat split; try assumption;
    apply round53_nearest.
Qed.

Lemma literal_end_facts post :
  literal_end post = true ->
  post = [] \/ exists c l, post = c :: l /\ isIdentifierStart c = false /\
    isHexDigit c = false /\ isDecimalDigit c = false /\ c <> 95 /\ c <> 110.
Proof.
  destruct post as [|c l]; [auto|]. cbn [literal_end]. intros H. right. exists c, l.
  apply negb_true_iff, orb_false_elim in H as [H1 H2]. pose proof H2 as H3.
  unfold isHexDigit in H3. apply orb_false_elim in H3 as [H3 _].
  repeat split; try assumption; intros ->; vm_compute in H1; discriminate.
Qed.

(** The suffix test at the end of a literal finds nothing. *)
Lemma scanBigIntSuffix_none b post s :
  literal_end post = true -> rest s = post ->
  wp (scanBigIntSuffix b) s
     (fun r s' => s' = s /\ r = (at_eof s, false) /\
        (at_eof s = false -> isIdentifierStart (peeked s) = false /\ isDecimalDigit (peeked s) = false))
     (fun _ _ => False).
Proof.
  intros Hp Hr. destruct (literal_end_facts post Hp) as [->|(c & l & -> & Hi & Hh & Hd & H95 & H110)].
  - apply rest_nil in Hr as [He Hpk]. unfold scanBigIntSuffix. repeat wp_step; rewrite ?He in *.
    + discriminate.
    + repeat split; congruence.
  - apply rest_cons in Hr as (He & _ & Hpk & _). unfold scanBigIntSuffix. repeat wp_step;
      rewrite ?He, ?Hpk in *.
    + to_prop. congruence.
    + cbn [negb]. repeat split; try assumption.
Qed.

Lemma scanBinaryLiteral_value tok st ds post s :
  ds <> [] -> forallb isBinaryDigit ds = true -> literal_end post = true ->
  rest s = ds ++ post -> (index s <= len)%nat ->
  wp (scanBinaryLiteral tok st) s
     (literal_token (radix_value octalValue 2 ds mod 2 ^ 64) (index s + length ds)%nat)
     (fun _ _ => False).
Proof.
  intros Hne Hds Hp Hr Hs. unfold scanBinaryLiteral. wp_step.
  eapply wp_mono; [apply (radixLoop_value isBinaryDigit 1 true ds post); try assumption| |auto].
  - intros c Hc ->. vm_compute in Hc. discriminate.
  - lia.
  - destruct (literal_end_facts post Hp) as [->|(c & l & -> & _ & _ & Hd & H95 & _)]; [reflexivity|].
    unfold isDecimalDigit, isBinaryDigit in *. apply andb_true_intro. lia.
  - intros r s1 (-> & Hr1 & Hi1). rewrite bool_decide_eq_false_2 by exact Hne. cbn [negb].
    do 3 wp_step.
    eapply wp_mono; [apply (scanBigIntSuffix_none true post); assumption| |auto].
    intros r s2 (-> & -> & Hpk). cbn beta iota. repeat wp_step.
    + destruct (at_eof s1); [discriminate|]. destruct (Hpk eq_refl) as [H1 H2].
      rewrite H1, H2 in *. discriminate.
    + repeat split; try assumption. cbn. f_equal. apply to_double_64. lia.
Qed.

Lemma scanOctalLiteral_value tok p st ds post s :
  isOctalDigit p = false ->
  ds <> [] -> forallb isOctalDigit ds = true -> literal_end post = true ->
  rest s = ds ++ post -> (index s <= len)%nat ->
  wp (scanOctalLiteral tok p st false) s
     (literal_token (radix_value octalValue 8 ds mod 2 ^ 64) (index s + length ds)%nat)
     (fun _ _ => False).
Proof.
  intros Hprefix Hne Hds Hp Hr Hs. unfold scanOctalLiteral. wp_step.
  eapply wp_mono; [apply (radixLoop_value isOctalDigit 3 true ds post); try assumption| |auto].
  - intros c Hc ->. vm_compute in Hc. discriminate.
  - lia.
  - destruct (literal_end_facts post Hp) as [->|(c & l & -> & _ & _ & Hd & H95 & _)]; [reflexivity|].
    unfold isDecimalDigit, isOctalDigit in *. apply andb_true_intro. lia.
  - intros r s1 (-> & Hr1 & Hi1). rewrite bool_decide_eq_false_2 by exact Hne.
    rewrite andb_false_r. do 3 wp_step.
    eapply wp_mono; [apply (scanBigIntSuffix_none true post); assumption| |auto].
    intros r s2 (-> & -> & Hpk). cbn beta iota. repeat wp_step.
    + destruct (at_eof s1) eqn:He; [unfold peeked in *; rewrite He in *; vm_compute in Heqb; discriminate|].
      destruct (Hpk eq_refl) as [H1 H2]. rewrite H1, H2 in *. discriminate.
    + repeat split; try assumption. cbn. f_equal. apply to_double_64. lia.
Qed.

Lemma scanHexLiteral_value tok st ds post s :
  ds <> [] -> forallb (fun c => isHexDigit c && (0 <=? c)) ds = true -> (length ds <= 16)%nat ->
  literal_end post = true -> rest s = ds ++ post -> (index s <= len)%nat ->
  wp (scanHexLiteral tok st) s
     (literal_token (hex_value ds) (index s + length ds)%nat) (fun _ _ => False).
Proof.
  intros Hne Hds Hl Hp Hr Hs. unfold scanHexLiteral. wp_step.
  eapply wp_mono; [apply (scanHexLoop_value ds post); try assumption| |auto].
  { destruct (literal_end_facts post Hp) as [->|(c & l & -> & _ & Hh & _ & H95 & _)]; [reflexivity|].
    rewrite Hh. cbn [negb andb]. lia. }
  intros h s1 (-> & Hr1 & Hi1). pose proof (hex_value_bound ds Hds) as Hb.
  assert (H16 : 16 ^ Z.of_nat (length ds) <= 16 ^ 16) by (apply Z.pow_le_mono_r; lia).
  assert (Hv : to_double (hex_value ds) = Some (round53 (hex_value ds))).
  { apply to_double_64. change (16 ^ 16) with (2 ^ 64) in H16. lia. }
  assert (Hstate : h_scanned (hex_state ds) = true /\ h_underscore (hex_state ds) = false /\
    (if h_useDouble (hex_state ds) then h_double (hex_state ds) else to_double (h_number (hex_state ds)))
    = Some (round53 (hex_value ds))).
  { rewrite hex_state_value by assumption. destruct (length ds =? 16)%nat; cbn; auto.
    destruct ds; [congruence|]. auto. }
  destruct Hstate as (-> & -> & ->). cbn [negb]. do 3 wp_step.
  eapply wp_mono; [apply (scanBigIntSuffix_none true post); assumption| |auto].
  intros r s2 (-> & -> & Hpk). cbn beta iota. repeat wp_step.
  - destruct (at_eof s1); [discriminate|]. destruct (Hpk eq_refl) as [H1 H2].
    rewrite H1 in *. discriminate.
  - repeat split; assumption.
Qed.

(** [scanNumericLiteral] up to the choice of the radix. *)
Lemma scanNumericLiteral_radix tok s x l Q X :
  rest s = 48 :: x :: l ->
  (forall s1, rest s1 = l -> index s1 = (index s + 2)%nat -> (index s1 <= len)%nat ->
    wp (if (x =? 120) || (x =? 88) then scanHexLiteral tok (index s)
        else if (x =? 98) || (x =? 66) then scanBinaryLiteral tok (index s)
        else scanOctalLiteral tok x (index s) false) s1 Q X) ->
  In x [120; 88; 98; 66; 111; 79] ->
  wp (scanNumericLiteral tok) s Q X.
Proof.
  intros Hr Hk Hx. pose proof Hr as H0. apply rest_cons in H0 as (He & _ & Hp & Hd).
  unfold scanNumericLiteral. do 4 wp_step. rewrite Hp. change (48 =? 46) with false. cbn [negb].
  set (s1 := {| index := index s + 1; lineNumber := lineNumber s; lineStart := lineStart s |}).
  assert (Hr1 : rest s1 = x :: l) by exact Hd.
  pose proof Hr1 as H1. apply rest_cons in H1 as (He1 & _ & Hp1 & Hd1).
  do 4 wp_step. fold s1. rewrite Hp1. wp_step. unfold isImplicitOctalLiteral. wp_step.
  change (48 =? 48) with true. cbn [andb].
  specialize (Hk {| index := index s1 + 1; lineNumber := lineNumber s; lineStart := lineStart s |}
    Hd1). cbn [index] in Hk. specialize (Hk ltac:(unfold s1; cbn; lia)).
  apply at_eof_false in He1. specialize (Hk ltac:(unfold s1 in *; cbn in *; lia)).
  destruct Hx as [<-|[<-|[<-|[<-|[<-|[<-|[]]]]]]]; cbn [Z.eqb Pos.eqb orb] in *;
    wp_step; wp_step; exact Hk.
Qed.
End FromLex.

(** Hexadecimal, octal and binary literals read as their value modulo
    [2 ^ 64], rounded to the nearest double: for a literal of any length followed by
    no digit, letter or underscore, [lex] returns a numeric token that ends where
    the digits do.  Hexadecimal literals are so up to sixteen digits. *)
Theorem radix_literal_value (src : Source) tok s x ds post :
  rest s = 48 :: x :: ds ++ post -> ds <> [] -> literal_end post = true ->
  let j := (index s + 2 + length ds)%nat in
  (In x [98; 66] -> forallb isBinaryDigit ds = true ->
   reads_as tok s (radix_value octalValue 2 ds mod 2 ^ 64) j) /\
  (In x [111; 79] -> forallb isOctalDigit ds = true ->
   reads_as tok s (radix_value octalValue 8 ds mod 2 ^ 64) j) /\
  (In x [120; 88] -> forallb (fun c => isHexDigit c && (0 <=? c)) ds = true ->
   (length ds <= 16)%nat -> reads_as tok s (hex_value ds) j).
Proof.
  intros Hr Hne Hp j.
  split; [|split]; intros Hx Hds; [| |intros Hl]; eapply reads_as_wp; try exact Hr;
    (eapply scanNumericLiteral_radix; [exact Hr| |cbn in *; tauto]);
    intros s1 Hr1 Hi1 Hle; unfold j; rewrite <- Hi1; clear j.
  - destruct Hx as [<-|[<-|[]]]; apply (scanBinaryLiteral_value _ _ ds post); assumption.
  - destruct Hx as [<-|[<-|[]]]; apply (scanOctalLiteral_value _ _ _ ds post); assumption || reflexivity.
  - destruct Hx as [<-|[<-|[]]]; apply (scanHexLiteral_value _ _ ds post); assumption.
Qed.

Lemma radix_literal_value_witness :
  @reads_as (script "0xFFfffFFFffffFFFF;") newScannerResult start_state (2 ^ 64 - 1) 18.
Proof.
  apply (radix_literal_value (script "0xFFfffFFFffffFFFF;") newScannerResult start_state 120
           (bytes "FFfffFFFffffFFFF") (bytes ";")); try reflexivity.
  - discriminate.
  - cbn. auto.
Defined.

(** Beyond that the value is wrong: the binary literal of [2 ^ 64] reads as 0,
    and the hexadecimal literal [0x80000000000004001], accumulated and rounded
    digit by digit, is not read as the nearest double. *)
Theorem large_radix_literals_wrong :
  (let src := script "0b10000000000000000000000000000000000000000000000000000000000000000" in
   exists t s', lex newScannerResult start_state = (Ret t, s') /\
     value t = NumberValue (Some 0) /\ radix_value octalValue 2 (drop 2 source) = 2 ^ 64) /\
  (let src := script "0x80000000000004001" in
   exists t s' d, lex newScannerResult start_state = (Ret t, s') /\
     value t = NumberValue (Some d) /\ ~ nearest53 d (hex_value (drop 2 source))).
Proof.
  split; eexists _, _; [|eexists]; (split; [vm_compute; reflexivity|]); (split; [reflexivity|]).
  - vm_compute. reflexivity.
  - intros [H _]. vm_compute in H. congruence.
Qed.
