(* ===== verification/StringSpec.v ===== *)
(** * String literals are cooked as they were scanned

    [scanStringLiteral] finds the end of a literal and keeps its offsets;
    [constructStringLiteral] runs over it again, possibly much later and from
    another line, to build the text.  Here the second run is shown to follow the
    first, and quoting a text to be inverse to lexing and cooking it. *)

From Stdlib Require Import String.
From S2P Require Import Prelude LexChars LexState LexNumber LexString Lexer LexTotal NumberSpec.
Local Open Scope Z_scope.

(** ** Actions that look at the index only *)

Section SameIndex.
Context {src : Source}.

(** From two states with one index, [m] moves both alike; only the lines may
    differ. *)
Definition lineless {A} (m : L A) : Prop :=
  forall s1 s2, index s1 = index s2 ->
    match m s1 with
    | (Ret a, s1') => exists s2', m s2 = (Ret a, s2') /\ index s1' = index s2'
    | _ => True
    end.

Lemma lineless_ret {A} (a : A) : lineless (ret a).
Proof. intros s1 s2 H. exists s2. auto. Qed.

Lemma lineless_bind {A B} (m : L A) (k : A -> L B) :
  lineless m -> (forall a, lineless (k a)) -> lineless (bind m k).
Proof.
  intros Hm Hk s1 s2 H. unfold bind. specialize (Hm s1 s2 H).
  destruct (m s1) as [[a|e|] s1']; try exact I. destruct Hm as (s2' & -> & H'). apply Hk, H'.
Qed.

Lemma lineless_gets {A} (f : ScanState -> A) :
  (forall s1 s2, index s1 = index s2 -> f s1 = f s2) -> lineless (gets f).
Proof. intros Hf s1 s2 H. exists s2. unfold gets. rewrite (Hf s1 s2 H). auto. Qed.

Lemma lineless_eof : lineless eof.
Proof. apply lineless_gets. intros s1 s2 H. unfold at_eof. rewrite H. reflexivity. Qed.

Lemma lineless_peekChar : lineless peekChar.
Proof. apply lineless_gets. intros s1 s2 H. unfold peeked, at_eof. rewrite H. reflexivity. Qed.

Lemma lineless_peekCharWithoutEOF : lineless peekCharWithoutEOF.
Proof. apply lineless_gets. intros s1 s2 H. rewrite H. reflexivity. Qed.

Lemma lineless_advance n : lineless (advance n).
Proof. intros s1 s2 H. eexists. split; [reflexivity|]. cbn. lia. Qed.

Lemma lineless_throw {A} m : lineless (@throwUnexpectedToken A m).
Proof. intros s1 s2 H. exact I. Qed.

Lemma lineless_loop {A B} n (body : A -> L (A + B)) :
  (forall a, lineless (body a)) -> forall a, lineless (loop n body a).
Proof.
  intros Hb. induction n as [|n IH]; intros a; cbn [loop]; [intros s1 s2 H; exact I|].
  apply lineless_bind; [apply Hb|]. intros [a'|b]; [apply IH|apply lineless_ret].
Qed.
End SameIndex.

Create HintDb lineless.
#[export] Hint Resolve lineless_ret lineless_eof lineless_peekChar lineless_peekCharWithoutEOF
  lineless_advance lineless_throw : lineless.

Ltac lineless_step :=
  match goal with
  | |- lineless (bind _ _) => apply lineless_bind; [|intros]
  | |- lineless (loop _ _ _) => apply lineless_loop; intros
  | |- lineless (if ?b then _ else _) => destruct b
  | |- lineless (match ?p with (_, _) => _ end) => destruct p
  | |- lineless (continue _) => apply lineless_ret
  | |- lineless (break _) => apply lineless_ret
  | |- lineless _ => solve [eauto with lineless]
  end.

Section Follow.
Context {src : Source}.

Lemma lineless_hexEscapeDigits n : forall code, lineless (hexEscapeDigits n code).
Proof. induction n as [|n IH]; intros code; cbn [hexEscapeDigits]; repeat lineless_step; auto. Qed.

Lemma lineless_scanHexEscape p : lineless (scanHexEscape p).
Proof. apply lineless_hexEscapeDigits. Qed.

Lemma lineless_scanUnicodeCodePointEscape : lineless scanUnicodeCodePointEscape.
Proof. unfold scanUnicodeCodePointEscape. repeat lineless_step. Qed.

(** The index does not depend on the flag of [octalToDecimal]. *)
Lemma octalToDecimal_index ch o o' s1 s2 v s1' :
  index s1 = index s2 -> octalToDecimal ch o s1 = (Ret v, s1') ->
  exists v' s2', octalToDecimal ch o' s2 = (Ret v', s2') /\ index s1' = index s2'.
Proof.
  intros Hi H.
  assert (Hm : forall o, exists v s', octalToDecimal ch o s1 = (Ret v, s') /\ index s' = index s1').
  { intros b. revert H. unfold octalToDecimal, bind, eof, peekChar, gets, advance, modify, ret.
    repeat case_if; intros H; injection H as <- <-; eexists _, _; split; try reflexivity. }
  destruct (Hm o') as (v' & s' & Hrun & Hs').
  assert (Hl : lineless (octalToDecimal ch o')) by (unfold octalToDecimal; repeat lineless_step).
  specialize (Hl s1 s2 Hi). rewrite Hrun in Hl. destruct Hl as (s2' & -> & Hs2).
  exists v', s2'. split; [reflexivity|congruence].
Qed.

(** The code point of a [u] or [x] escape, as [constructEscape] reads it. *)
Definition escapeParam (ch : Z) : L Z :=
  (let! p := peekChar in
   if p =? 123 then do! advance 1 in scanUnicodeCodePointEscape else scanHexEscape ch)%esc.

Lemma lineless_escapeParam ch : lineless (escapeParam ch).
Proof.
  unfold escapeParam. repeat lineless_step.
  - apply lineless_scanUnicodeCodePointEscape.
  - apply lineless_scanHexEscape.
Qed.

(** A brace is no hexadecimal digit. *)
Lemma scanHexEscape_brace p s :
  peeked s = 123 -> scanHexEscape p s = (Ret EMPTY_CODE_POINT, s).
Proof.
  intros H. assert (He : at_eof s = false).
  { unfold peeked in H. destruct (at_eof s); [discriminate|reflexivity]. }
  assert (Hc : sourceCharAt (index s) = 123) by (unfold peeked in H; rewrite He in H; exact H).
  unfold scanHexEscape. destruct (p =? 117); cbn [hexEscapeDigits];
    unfold bind, eof, peekCharWithoutEOF, gets; rewrite He, Hc; reflexivity.
Qed.

Lemma escapeParam_scanned ch o o' s1 s1' :
  In ch [117; 120] -> scanStringEscape ch o s1 = (Ret o', s1') ->
  exists code, escapeParam ch s1 = (Ret code, s1').
Proof.
  intros Hch. unfold escapeParam, bind, peekChar, gets.
  destruct Hch as [<-|[<-|[]]].
  - change (scanStringEscape 117 o) with
      (let! p := peekChar in
       if p =? 123 then do! advance 1 in do! scanUnicodeCodePointEscape in ret o
       else let! code := scanHexEscape 117 in
         if code =? EMPTY_CODE_POINT then throwUnexpectedToken InvalidHexEscapeSequence
         else ret o)%esc.
    unfold bind, peekChar, gets. destruct (peeked s1 =? 123).
    + unfold advance, modify. destruct (scanUnicodeCodePointEscape _) as [[c|e|] s']; try discriminate.
      intros H. injection H as _ <-. eauto.
    + destruct (scanHexEscape 117 s1) as [[c|e|] s']; try discriminate.
      destruct (c =? EMPTY_CODE_POINT); [discriminate|]. intros H. injection H as _ <-. eauto.
  - change (scanStringEscape 120 o) with
      (let! code := scanHexEscape 120 in
       if code =? EMPTY_CODE_POINT then throwUnexpectedToken InvalidHexEscapeSequence
       else ret o)%esc.
    unfold bind. destruct (Z.eqb_spec (peeked s1) 123) as [H123|_].
    + rewrite (scanHexEscape_brace 120 s1 H123). discriminate.
    + destruct (scanHexEscape 120 s1) as [[c|e|] s']; try discriminate.
      destruct (c =? EMPTY_CODE_POINT); [discriminate|]. intros H. injection H as _ <-. eauto.
Qed.

(** An escape that was scanned can be cooked, and takes the same characters. *)
Lemma constructEscape_follows ch o o' s1 s2 s1' :
  index s1 = index s2 -> scanStringEscape ch o s1 = (Ret o', s1') ->
  exists piece s2', constructEscape ch s2 = (Ret piece, s2') /\ index s1' = index s2'.
Proof.
  intros Hi Hrun.
  destruct (decide (In ch [117; 120])) as [Hin|Hout].
  - destruct (escapeParam_scanned ch o o' s1 s1' Hin Hrun) as [code Hcode].
    pose proof (lineless_escapeParam ch s1 s2 Hi) as Hl. rewrite Hcode in Hl.
    destruct Hl as (s2' & Hs2 & Hi'). exists (ParserCharPiece code), s2'. split; [|exact Hi'].
    assert (Heq : constructEscape ch = (let! c := escapeParam ch in ret (ParserCharPiece c))%esc).
    { unfold constructEscape, escapeParam.
      replace ((ch =? 117) || (ch =? 120)) with true; [reflexivity|].
      destruct Hin as [<-|[<-|[]]]; reflexivity. }
    rewrite Heq. unfold bind. rewrite Hs2. reflexivity.
  - assert (H117 : (ch =? 117) = false) by (apply Z.eqb_neq; intros ->; apply Hout; cbn; auto).
    assert (H120 : (ch =? 120) = false) by (apply Z.eqb_neq; intros ->; apply Hout; cbn; auto).
    revert Hrun. unfold scanStringEscape, constructEscape. rewrite H117, H120. cbn [orb].
    repeat case_if; try discriminate;
      try (intros H; injection H as _ <-; eexists _, _; split; [reflexivity|exact Hi]).
    unfold bind. destruct (octalToDecimal ch false s1) as [[v|e|] s1''] eqn:Hoct; try discriminate.
    intros H. injection H as _ <-.
    destruct (octalToDecimal_index ch false true s1 s2 v s1'' Hi Hoct) as (v' & s2' & -> & Hi').
    exists [v'], s2'. auto.
Qed.

Lemma lineless_lineContinuation ch : lineless (lineContinuation ch).
Proof.
  unfold lineContinuation. repeat lineless_step;
    intros s1 s2 H; (eexists; split; [reflexivity|cbn; assumption || lia]).
Qed.

(** The state with the index moved on. *)
Definition moved (n : nat) (s : ScanState) : ScanState :=
  {| index := index s + n; lineNumber := lineNumber s; lineStart := lineStart s |}.

Lemma bind_eof {B} (k : bool -> L B) s : bind eof k s = k (at_eof s) s.
Proof. reflexivity. Qed.
Lemma bind_peekChar {B} (k : Z -> L B) s : bind peekChar k s = k (peeked s) s.
Proof. reflexivity. Qed.
Lemma bind_peekCharWithoutEOF {B} (k : Z -> L B) s :
  bind peekCharWithoutEOF k s = k (sourceCharAt (index s)) s.
Proof. reflexivity. Qed.
Lemma bind_advance {B} n (k : unit -> L B) s : bind (advance n) k s = k tt (moved n s).
Proof. reflexivity. Qed.

(** One turn: where the scanner went on, the second run goes on from the same
    place or stops; where the scanner found the closing quote, so does it. *)
Lemma construct_turn_follows quote st str s1 s2 r s1' :
  index s1 = index s2 -> scanString_turn quote st s1 = (Ret r, s1') ->
  match r with
  | inl _ =>
    exists r' s2', construct_turn quote str s2 = (Ret r', s2') /\
      match r' with inl _ => index s1' = index s2' | inr _ => True end
  | inr (_, true) => exists s2', construct_turn quote str s2 = (Ret (inr str), s2')
  | inr (_, false) => True
  end.
Proof.
  intros Hi. destruct st as [o plain]. unfold scanString_turn, construct_turn.
  rewrite bind_eof. destruct (at_eof s1) eqn:He.
  { unfold break, ret. intros H. injection H as <- _. exact I. }
  rewrite bind_peekCharWithoutEOF, bind_advance, bind_peekChar, bind_advance. cbv beta.
  replace (peeked s2) with (sourceCharAt (index s1)).
  2:{ unfold peeked, at_eof in *. rewrite <- Hi, He. reflexivity. }
  set (ch := sourceCharAt (index s1)).
  destruct (ch =? quote).
  { unfold break, ret. intros H. injection H as <- _. eauto. }
  assert (Hi1 : index (moved 1 s1) = index (moved 1 s2)) by (cbn; lia).
  destruct (ch =? 92).
  - rewrite !bind_peekChar, !bind_advance. cbv beta.
    replace (peeked (moved 1 s2)) with (peeked (moved 1 s1)).
    2:{ unfold peeked, at_eof in *. rewrite Hi1. reflexivity. }
    assert (Hi2 : index (moved 1 (moved 1 s1)) = index (moved 1 (moved 1 s2))) by (cbn; lia).
    set (c := peeked (moved 1 s1)). destruct ((c =? 0) || negb (isLineTerminator c)).
    + unfold bind. destruct (scanStringEscape c o _) as [[o'|e|] s1''] eqn:Hesc; try discriminate.
      unfold continue, ret. intros H. injection H as <- <-.
      destruct (constructEscape_follows c o o' _ _ s1'' Hi2 Hesc) as (piece & s2' & -> & Hi').
      eauto.
    + unfold bind. pose proof (lineless_lineContinuation c _ _ Hi2) as Hl.
      destruct (lineContinuation c (moved 1 (moved 1 s1))) as [[[]|e|] s1'']; try discriminate.
      destruct Hl as (s2' & -> & Hi'). unfold continue, ret. intros H. injection H as <- <-. eauto.
  - destruct ((ch <? 128) && asciiClass LexerIsCharLineTerminator ch).
    + unfold break, ret. intros H. injection H as <- _. exact I.
    + unfold continue, ret. intros H. injection H as <- <-.
      destruct (isLineTerminator ch); eexists _, _; (split; [reflexivity|]); [exact I|exact Hi1].
Qed.

Lemma construct_loop_follows quote n : forall st str s1 s2 oc s1',
  index s1 = index s2 -> loop n (scanString_turn quote) st s1 = (Ret (oc, true), s1') ->
  exists str' s2', loop n (construct_turn quote) str s2 = (Ret str', s2').
Proof.
  induction n as [|n IH]; intros st str s1 s2 oc s1' Hi; cbn [loop]; [discriminate|].
  unfold bind. destruct (scanString_turn quote st s1) as [[r|e|] s1''] eqn:Hturn; try discriminate.
  pose proof (construct_turn_follows quote st str s1 s2 r s1'' Hi Hturn) as Hf.
  destruct r as [st'|[oc' closed]].
  - intros Hrest. destruct Hf as (r' & s2' & -> & Hr'). destruct r' as [str'|str'].
    + exact (IH st' str' s1'' s2' oc s1' Hr' Hrest).
    + unfold ret. eauto.
  - unfold ret. intros H. injection H as -> -> <-. destruct Hf as (s2' & ->). unfold ret. eauto.
Qed.

(** What a scanned literal holds: a range of the source or nothing yet. *)
Lemma scanStringLiteral_value tok s t s' :
  scanStringLiteral tok s = (Ret t, s') ->
  type t = StringLiteralToken /\
  ((exists b e, value t = StringRange b e) \/ value t = AllocatedString None).
Proof.
  unfold scanStringLiteral. unfold gets at 1. unfold bind at 1.
  rewrite bind_peekChar, bind_advance. cbv beta. unfold bind at 1.
  destruct (loop fuel (scanString_turn (peeked s)) (false, true) (moved 1 s)) as [[[[o plain] closed]|e|] s1];
    try discriminate.
  destruct closed; [|discriminate]. unfold bind, spanFrom, gets, ret. cbn [negb].
  intros H. injection H as <- _. destruct plain; cbn; eauto.
Qed.

Lemma constructStringLiteral_run tok s t s' s2 :
  scanStringLiteral tok s = (Ret t, s') ->
  exists str, constructStringLiteral t s2 = (Ret str, s2).
Proof.
  unfold scanStringLiteral, constructStringLiteral. unfold gets at 1.
  unfold bind at 1. rewrite bind_peekChar, bind_advance. cbv beta. unfold bind at 1.
  destruct (loop fuel (scanString_turn (peeked s)) (false, true) (moved 1 s)) as [[[[o plain] closed]|e|] s1] eqn:Hloop;
    try discriminate.
  destruct closed; [|discriminate].
  intros H.
  assert (Hst : start t = index s).
  { revert H. unfold bind, spanFrom, gets, ret. cbn [negb]. intros H. injection H as <- _.
    destruct plain; reflexivity. }
  set (s3 := {| index := index s; lineNumber := lineNumber s2; lineStart := lineStart s2 |}).
  assert (Hq : peeked s3 = peeked s) by reflexivity.
  destruct (construct_loop_follows (peeked s) fuel (false, true) [] (moved 1 s) (moved 1 s3) (o, plain) s1)
    as (str & s4 & Hstr); [reflexivity|exact Hloop|].
  exists str. unfold saveState, get. unfold bind at 1. rewrite Hst.
  change (bind (setIndex (index s)) ?k s2) with (k tt s3).
  cbv beta. rewrite bind_peekChar, bind_advance, Hq. cbv beta. unfold bind at 1. rewrite Hstr.
  reflexivity.
Qed.
End Follow.

(** ** Quoting a text *)

(** A unit that stands for itself between the quotes [q]. *)
Definition plain_unit (q c : Z) : bool :=
  negb (c =? q) && negb (c =? 92) && negb (isLineTerminator c).

Definition hexDigit (d : Z) : Z := if d <? 10 then 48 + d else 87 + d.

(** Four hexadecimal digits. *)
Definition hex4 (c : Z) : list Z :=
  [hexDigit (c / 4096); hexDigit (c / 256 mod 16); hexDigit (c / 16 mod 16); hexDigit (c mod 16)].

Definition escapeUnit (q c : Z) : list Z :=
  if plain_unit q c then [c] else [92; 117] ++ hex4 c.

Definition escapeText (q : Z) (w : list Z) : list Z := flat_map (escapeUnit q) w.

Definition quoteString (q : Z) (w : list Z) : list Z := q :: escapeText q w ++ [q].

Lemma hexDigit_value d : 0 <= d < 16 ->
  isHexDigit (hexDigit d) = true /\ hexValue (hexDigit d) = d.
Proof.
  intros Hd. assert (H : forallb (fun n => let d := Z.of_nat n in
    isHexDigit (hexDigit d) && (hexValue (hexDigit d) =? d)) (seq 0 16) = true)
    by (vm_compute; reflexivity).
  rewrite forallb_forall in H. specialize (H (Z.to_nat d)). cbv zeta in H.
  rewrite in_seq, Z2Nat.id in H by lia. specialize (H ltac:(lia)). to_prop. auto.
Qed.

Section Quote.
Context {src : Source}.

(** A state that has moved on along the text. *)
Lemma rest_moved s l1 l2 : rest s = l1 ++ l2 -> rest (moved (length l1) s) = l2.
Proof.
  unfold rest. cbn [moved index]. intros H. rewrite <- drop_drop, H.
  apply drop_app_length.
Qed.

Lemma rest_inside s c l : rest s = c :: l -> (index s < len)%nat.
Proof. intros H. apply rest_cons in H as (He & _). apply at_eof_false, He. Qed.

Lemma hexEscapeDigits_step n code s d code' l :
  0 <= d < 16 -> 0 <= code < 268435456 -> code' = code * 16 + d -> rest s = hexDigit d :: l ->
  hexEscapeDigits (S n) code s = hexEscapeDigits n code' (moved 1 s).
Proof.
  intros Hd Hc -> Hr. apply rest_cons in Hr as (He & Hch & _ & _). cbn [hexEscapeDigits].
  rewrite bind_eof, bind_peekCharWithoutEOF, He, Hch. destruct (hexDigit_value d Hd) as [-> ->].
  cbn [negb andb]. rewrite bind_advance. cbv beta. f_equal. unfold to_unsigned.
  change (2 ^ 32) with 4294967296. lia.
Qed.

(** Reading four digits back. *)
Lemma scanHexEscape_hex4 s c l :
  0 <= c < 0x10000 -> rest s = hex4 c ++ l ->
  scanHexEscape 117 s = (Ret c, moved 4 s) /\ rest (moved 4 s) = l.
Proof.
  intros Hc Hr. split; [|exact (rest_moved s (hex4 c) l Hr)].
  unfold hex4 in Hr. cbn [app] in Hr. change (scanHexEscape 117 s) with (hexEscapeDigits 4 0 s).
  rewrite (hexEscapeDigits_step 3 0 s (c / 4096) (c / 4096) _ ltac:(lia) ltac:(lia) ltac:(lia) Hr).
  pose proof (rest_moved s [_] _ Hr) as Hr1. cbn [length] in Hr1.
  rewrite (hexEscapeDigits_step 2 (c / 4096) _ (c / 256 mod 16) (c / 256) _
             ltac:(lia) ltac:(lia) ltac:(lia) Hr1).
  pose proof (rest_moved _ [_] _ Hr1) as Hr2. cbn [length] in Hr2.
  rewrite (hexEscapeDigits_step 1 (c / 256) _ (c / 16 mod 16) (c / 16) _
             ltac:(lia) ltac:(lia) ltac:(lia) Hr2).
  pose proof (rest_moved _ [_] _ Hr2) as Hr3. cbn [length] in Hr3.
  rewrite (hexEscapeDigits_step 0 (c / 16) _ (c mod 16) c _
             ltac:(lia) ltac:(lia) ltac:(lia) Hr3).
  cbn [hexEscapeDigits]. unfold ret, moved. cbn [index lineNumber lineStart].
  f_equal. f_equal. lia.
Qed.

Lemma moved_moved a b s : moved a (moved b s) = moved (b + a) s.
Proof. unfold moved. cbn [index lineNumber lineStart]. f_equal. lia. Qed.

Variable q : Z.
Hypothesis Hq : q = 34 \/ q = 39.

Lemma turn_start s c l :
  rest s = c :: l -> at_eof s = false /\ sourceCharAt (index s) = c /\ peeked s = c /\ rest (moved 1 s) = l.
Proof.
  intros H. pose proof (rest_moved s [c] l H) as Hm. apply rest_cons in H as (? & ? & ? & _). auto.
Qed.

Lemma plain_unit_facts c :
  plain_unit q c = true -> (c =? q) = false /\ (c =? 92) = false /\ isLineTerminator c = false /\
  (c <? 128) && asciiClass LexerIsCharLineTerminator c = false.
Proof.
  unfold plain_unit. intros H. apply andb_prop in H as [H H3]. apply andb_prop in H as [H1 H2].
  apply negb_true_iff in H1, H2, H3. repeat split; try assumption.
  unfold isLineTerminator in H3. destruct (c <? 128); [exact H3|reflexivity].
Qed.

Lemma scan_turn_plain o p s c l :
  plain_unit q c = true -> rest s = c :: l ->
  scanString_turn q (o, p) s = (Ret (inl (o, p)), moved 1 s).
Proof.
  intros Hc Hr. destruct (turn_start s c l Hr) as (He & Hch & _ & _).
  destruct (plain_unit_facts c Hc) as (H1 & H2 & _ & H4). unfold scanString_turn.
  rewrite bind_eof, He, bind_peekCharWithoutEOF, bind_advance, Hch. cbv beta.
  rewrite H1, H2, H4. reflexivity.
Qed.

Lemma construct_turn_plain str s c l :
  plain_unit q c = true -> rest s = c :: l ->
  construct_turn q str s = (Ret (inl (str ++ [c])), moved 1 s).
Proof.
  intros Hc Hr. destruct (turn_start s c l Hr) as (_ & _ & Hp & _).
  destruct (plain_unit_facts c Hc) as (H1 & H2 & H3 & _). unfold construct_turn.
  rewrite bind_peekChar, bind_advance, Hp. cbv beta. rewrite H1, H2, H3. reflexivity.
Qed.

(** The escape [\uXXXX] at [s]. *)
Lemma escape_run s c l :
  0 <= c < 0x10000 -> rest s = [92; 117] ++ hex4 c ++ l ->
  sourceCharAt (index s) = 92 /\ peeked s = 92 /\ at_eof s = false /\
  peeked (moved 1 s) = 117 /\ (peeked (moved 2 s) =? 123) = false /\
  scanHexEscape 117 (moved 2 s) = (Ret c, moved 6 s) /\ rest (moved 6 s) = l.
Proof.
  intros Hc Hr. cbn [app] in Hr. destruct (turn_start _ _ _ Hr) as (He & Hch & Hp & Hr1).
  destruct (turn_start _ _ _ Hr1) as (_ & _ & Hp1 & Hr2). rewrite moved_moved in Hr2.
  change (1 + 1)%nat with 2%nat in Hr2.
  destruct (scanHexEscape_hex4 _ c l Hc Hr2) as [Hrun Hr6]. rewrite moved_moved in *.
  assert (Hd : (peeked (moved 2 s) =? 123) = false).
  { unfold hex4 in Hr2. cbn [app] in Hr2. destruct (turn_start _ _ _ Hr2) as (_ & _ & -> & _).
    apply Z.eqb_neq. unfold hexDigit. case_if; to_prop; lia. }
  auto 10.
Qed.

Lemma quote_not_escape : (92 =? q) = false.
Proof. destruct Hq as [-> | ->]; reflexivity. Qed.

Lemma scan_turn_escape o p s c l :
  0 <= c < 0x10000 -> rest s = [92; 117] ++ hex4 c ++ l ->
  scanString_turn q (o, p) s = (Ret (inl (o, false)), moved 6 s).
Proof.
  intros Hc Hr. destruct (escape_run s c l Hc Hr) as (Hch & _ & He & Hp1 & Hp2 & Hrun & _).
  unfold scanString_turn. rewrite bind_eof, He, bind_peekCharWithoutEOF, bind_advance, Hch. cbv beta.
  rewrite quote_not_escape. change (92 =? 92) with true. cbv iota.
  rewrite bind_peekChar, bind_advance, Hp1, moved_moved. cbv beta.
  change ((117 =? 0) || negb (isLineTerminator 117)) with true. cbv iota.
  unfold bind. unfold scanStringEscape. change (117 =? 117) with true. cbv iota.
  rewrite bind_peekChar. change (1 + 1)%nat with 2%nat. rewrite Hp2. unfold bind. rewrite Hrun.
  replace (c =? EMPTY_CODE_POINT) with false
    by (symmetry; apply Z.eqb_neq; change EMPTY_CODE_POINT with 4294967295; lia).
  reflexivity.
Qed.

Lemma construct_turn_escape str s c l :
  0 <= c < 0x10000 -> rest s = [92; 117] ++ hex4 c ++ l ->
  construct_turn q str s = (Ret (inl (str ++ [c])), moved 6 s).
Proof.
  intros Hc Hr. destruct (escape_run s c l Hc Hr) as (_ & Hp & _ & Hp1 & Hp2 & Hrun & _).
  unfold construct_turn. rewrite bind_peekChar, bind_advance, Hp. cbv beta.
  rewrite quote_not_escape. change (92 =? 92) with true. cbv iota.
  rewrite bind_peekChar, bind_advance, Hp1, moved_moved. cbv beta.
  change ((117 =? 0) || negb (isLineTerminator 117)) with true. cbv iota.
  unfold constructEscape. change ((117 =? 117) || (117 =? 120)) with true. cbv iota.
  unfold bind at 1. rewrite bind_peekChar. change (1 + 1)%nat with 2%nat. rewrite Hp2.
  unfold bind. rewrite Hrun. unfold ret, continue, ParserCharPiece.
  replace (c <? 0x10000) with true by (symmetry; apply Z.ltb_lt; lia). reflexivity.
Qed.

Lemma scan_loop_text post w : forall n o p s,
  Forall (fun c => 0 <= c < 0x10000) w -> (length w < n)%nat ->
  rest s = escapeText q w ++ q :: post ->
  loop n (scanString_turn q) (o, p) s
  = (Ret (o, p && forallb (plain_unit q) w, true), moved (length (escapeText q w) + 1) s).
Proof.
  induction w as [|c w IH]; intros n o p s Hw Hn Hr; (destruct n as [|n]; [cbn in Hn; lia|]);
    cbn [loop]; unfold bind.
  - destruct (turn_start _ _ _ Hr) as (He & Hch & _ & _). unfold scanString_turn.
    rewrite bind_eof, He, bind_peekCharWithoutEOF, bind_advance, Hch. cbv beta.
    rewrite Z.eqb_refl, andb_true_r. reflexivity.
  - inversion Hw as [|? ? Hc Hw']; subst. cbn [length] in Hn. cbn [escapeText flat_map] in Hr |- *.
    fold (escapeText q w) in *. rewrite <- app_assoc in Hr. unfold escapeUnit in Hr |- *. cbn [forallb].
    destruct (plain_unit q c) eqn:Hplain.
    + rewrite (scan_turn_plain o p s c _ Hplain Hr).
      rewrite (IH n o p (moved 1 s) Hw' ltac:(lia) (rest_moved s [c] _ Hr)), moved_moved.
      do 2 f_equal.
    + rewrite <- app_assoc in Hr. rewrite (scan_turn_escape o p s c _ Hc Hr).
      destruct (escape_run s c _ Hc Hr) as (_ & _ & _ & _ & _ & _ & Hr6).
      rewrite (IH n o false (moved 6 s) Hw' ltac:(lia) Hr6), moved_moved, !andb_false_r.
      do 2 f_equal.
Qed.

Lemma construct_loop_text post w : forall n str s,
  Forall (fun c => 0 <= c < 0x10000) w -> (length w < n)%nat ->
  rest s = escapeText q w ++ q :: post ->
  loop n (construct_turn q) str s = (Ret (str ++ w), moved (length (escapeText q w) + 1) s).
Proof.
  induction w as [|c w IH]; intros n str s Hw Hn Hr; (destruct n as [|n]; [cbn in Hn; lia|]);
    cbn [loop]; unfold bind.
  - destruct (turn_start _ _ _ Hr) as (_ & _ & Hp & _). unfold construct_turn.
    rewrite bind_peekChar, bind_advance, Hp. cbv beta. rewrite Z.eqb_refl, app_nil_r. reflexivity.
  - inversion Hw as [|? ? Hc Hw']; subst. cbn [length] in Hn. cbn [escapeText flat_map] in Hr |- *.
    fold (escapeText q w) in *. rewrite <- app_assoc in Hr. unfold escapeUnit in Hr |- *.
    destruct (plain_unit q c) eqn:Hplain.
    + rewrite (construct_turn_plain str s c _ Hplain Hr).
      rewrite (IH n _ (moved 1 s) Hw' ltac:(lia) (rest_moved s [c] _ Hr)), moved_moved, <- app_assoc.
      reflexivity.
    + rewrite <- app_assoc in Hr. rewrite (construct_turn_escape str s c _ Hc Hr).
      destruct (escape_run s c _ Hc Hr) as (_ & _ & _ & _ & _ & _ & Hr6).
      rewrite (IH n _ (moved 6 s) Hw' ltac:(lia) Hr6), moved_moved, <- app_assoc. reflexivity.
Qed.

(** A quote starts a string literal. *)
Lemma lex_quote tok s l : rest s = q :: l -> lex tok s = scanStringLiteral (resetResult tok) s.
Proof.
  intros H. apply rest_cons in H as (He & Hc & _). unfold lex.
  rewrite bind_eof, He, bind_peekCharWithoutEOF, Hc. unfold bind at 1.
  destruct Hq as [-> | ->]; reflexivity.
Qed.

(** No unit is written shorter than it is. *)
Lemma length_escapeText w : (length w <= length (escapeText q w))%nat.
Proof.
  induction w as [|c w IH]; [reflexivity|]. cbn [escapeText flat_map].
  fold (escapeText q w). rewrite length_app. unfold escapeUnit.
  destruct (plain_unit q c); cbn [length app]; lia.
Qed.

Lemma escapeText_plain w : forallb (plain_unit q) w = true -> escapeText q w = w.
Proof.
  induction w as [|c w IH]; [reflexivity|]. cbn [forallb escapeText flat_map].
  intros H. apply andb_prop in H as [Hc Hw]. fold (escapeText q w). unfold escapeUnit.
  rewrite Hc, (IH Hw). reflexivity.
Qed.

Lemma quoted_fuel s w post :
  rest s = quoteString q w ++ post -> (length w < fuel)%nat.
Proof.
  intros H. apply (f_equal length) in H. unfold rest, quoteString in H.
  rewrite length_drop in H. cbn [app length] in H. rewrite !length_app in H.
  pose proof (length_escapeText w). unfold fuel, len. lia.
Qed.

(** The token of a quoted text. *)
Lemma scanStringLiteral_text tok s w post :
  Forall (fun c => 0 <= c < 0x10000) w -> rest s = quoteString q w ++ post ->
  let s' := moved (length (quoteString q w)) s in
  let sp := {| sp_lineNumber := lineNumber s; sp_lineStart := lineStart s;
               sp_start := index s; sp_end := index s' |} in
  scanStringLiteral tok s =
    (Ret (if forallb (plain_unit q) w
          then setRangeResult tok StringLiteralToken (index s + 1) (index s' - 1) sp false
          else setStringResult tok StringLiteralToken None sp false), s').
Proof.
  intros Hw Hr s' sp. pose proof (quoted_fuel s w post Hr) as Hfuel.
  assert (Hs' : moved (length (escapeText q w) + 1) (moved 1 s) = s').
  { unfold s', quoteString. rewrite moved_moved. f_equal. cbn [length]. rewrite length_app.
    cbn [length]. lia. }
  unfold quoteString in Hr. cbn [app] in Hr. rewrite <- app_assoc in Hr. cbn [app] in Hr.
  destruct (turn_start _ _ _ Hr) as (_ & _ & Hp & Hr1).
  unfold scanStringLiteral. unfold gets at 1. unfold bind at 1.
  rewrite bind_peekChar, bind_advance, Hp. cbv beta. unfold bind at 1.
  rewrite (scan_loop_text post w fuel false true _ Hw Hfuel Hr1), Hs'. reflexivity.
Qed.

Lemma constructStringLiteral_text t s w post s2 :
  Forall (fun c => 0 <= c < 0x10000) w -> rest s = quoteString q w ++ post ->
  start t = index s -> constructStringLiteral t s2 = (Ret w, s2).
Proof.
  intros Hw Hr Hst. pose proof (quoted_fuel s w post Hr) as Hfuel.
  unfold quoteString in Hr. cbn [app] in Hr. rewrite <- app_assoc in Hr. cbn [app] in Hr.
  set (s3 := {| index := index s; lineNumber := lineNumber s2; lineStart := lineStart s2 |}).
  change (rest s) with (rest s3) in Hr. destruct (turn_start _ _ _ Hr) as (_ & _ & Hp & Hr1).
  unfold constructStringLiteral, saveState, get. unfold bind at 1. rewrite Hst.
  change (bind (setIndex (index s)) ?k s2) with (k tt s3). cbv beta.
  rewrite bind_peekChar, bind_advance, Hp. cbv beta. unfold bind at 1.
  rewrite (construct_loop_text post w fuel [] _ Hw Hfuel Hr1). reflexivity.
Qed.

Lemma quoted_range s w post :
  forallb (plain_unit q) w = true -> rest s = quoteString q w ++ post ->
  take (length w) (drop (index s + 1) source) = w.
Proof.
  intros Hp Hr. unfold quoteString in Hr. rewrite (escapeText_plain w Hp) in Hr. cbn [app] in Hr.
  rewrite <- app_assoc in Hr. destruct (turn_start _ _ _ Hr) as (_ & _ & _ & Hr1).
  unfold rest in Hr1. cbn [moved index] in Hr1. rewrite Hr1. apply take_app_length.
Qed.
End Quote.

(** ** The theorems *)

(** A string literal that was scanned can be cooked at any later time:
    whatever escapes and line continuations it holds, and wherever the scanner has
    gone since, [constructStringLiteral] answers a text, throws nothing, and leaves
    the scanner where it was, so the value of every string token exists. *)
Theorem string_literal_cooks (src : Source) tok s t s' :
  scanStringLiteral tok s = (Ret t, s') ->
  forall s2, exists str, valueStringLiteral t s2 = (Ret str, s2) /\
    exists str', constructStringLiteral t s2 = (Ret str', s2).
Proof.
  intros H s2. destruct (constructStringLiteral_run tok s t s' s2 H) as [str Hstr].
  destruct (scanStringLiteral_value tok s t s' H) as [Ht Hv].
  unfold valueStringLiteral. rewrite Ht. destruct Hv as [(b & e & ->)| ->]; eauto.
Qed.

Lemma string_literal_cooks_witness :
  let src := script "'\x41\101\u{42}\q'" in
  exists t s', scanStringLiteral newScannerResult start_state = (Ret t, s') /\
    exists str, valueStringLiteral t s' = (Ret str, s').
Proof.
  intros src. eexists _, _. split; [vm_compute; reflexivity|].
  edestruct (string_literal_cooks src newScannerResult start_state) as (str & Hstr & _);
    [vm_compute; reflexivity|]. exists str. exact Hstr.
Defined.

(** C19: writing any sequence of UTF-16 units as a literal between single or double
    quotes, with [\uXXXX] for the quote, the backslash and the line terminators, and
    then lexing it gives a string token over exactly the literal, and the value of
    that token, whether it is a range of the source or cooked later, is the
    sequence. *)
Theorem string_literal_roundtrip (src : Source) tok s q w post :
  q = 34 \/ q = 39 -> Forall (fun c => 0 <= c < 0x10000) w ->
  rest s = quoteString q w ++ post ->
  exists t s', lex tok s = (Ret t, s') /\ type t = StringLiteralToken /\
    start t = index s /\ end_ t = index s' /\
    index s' = (index s + length (quoteString q w))%nat /\
    forall s2, valueStringLiteral t s2 = (Ret w, s2).
Proof.
  intros Hq Hw Hr. set (s' := moved (length (quoteString q w)) s).
  eexists _, s'.
  split; [rewrite (lex_quote q Hq tok s _ Hr); apply (scanStringLiteral_text q Hq _ _ _ _ Hw Hr)|].
  destruct (forallb (plain_unit q) w) eqn:Hp; (do 4 (split; [reflexivity|])); intros s2.
  - unfold valueStringLiteral. cbn [setRangeResult setOctal locate type value].
    unfold ret. fold s'. do 2 f_equal.
    replace (index s' - 1 - (index s + 1))%nat with (length w); [exact (quoted_range q s w post Hp Hr)|].
    unfold s', quoteString. rewrite (escapeText_plain q w Hp). cbn [moved index length].
    rewrite length_app. cbn [length]. lia.
  - unfold valueStringLiteral. cbn [setStringResult locate type value].
    apply (constructStringLiteral_text q Hq _ s w post s2 Hw Hr). reflexivity.
Qed.

Lemma string_literal_roundtrip_witness :
  let src := {| source := quoteString 34 [97; 10; 34; 0xD83D; 0x2028] ++ [59];
                beyond := fun _ => 0; isModule := false; awaitContext := false |} in
  exists t s', lex newScannerResult start_state = (Ret t, s') /\
    valueStringLiteral t s' = (Ret [97; 10; 34; 0xD83D; 0x2028], s').
Proof.
  intros src.
  destruct (string_literal_roundtrip src newScannerResult start_state 34
              [97; 10; 34; 0xD83D; 0x2028] [59]) as (t & s' & H & _ & _ & _ & _ & Hv).
  - left. reflexivity.
  - repeat (apply List.Forall_cons; [lia|]). apply List.Forall_nil.
  - reflexivity.
  - exists t, s'. auto.
Defined.

(** A literal may contain the line separator U+2028 as it is, but when it also
    has an escape the second run takes the separator for the end: a line feed
    escape, U+2028 and x, scanned as one literal, is cooked to the line feed
    alone. *)
Theorem string_stops_at_line_separator :
  let src := {| source := [34; 92; 110; 0x2028; 120; 34]; beyond := fun _ => 0;
                isModule := false; awaitContext := false |} in
  exists t s', lex newScannerResult start_state = (Ret t, s') /\
    type t = StringLiteralToken /\ end_ t = 6%nat /\ valueStringLiteral t s' = (Ret [10], s').
Proof.
  eexists _, _. split; [vm_compute; reflexivity|]. repeat split; vm_compute; reflexivity.
Qed.
