(* ===== verification/IdentSpec.v ===== *)
(** * Identifiers, keywords and what [lex] makes of odd ones

    Words without escapes and without surrogates lex to themselves; the ways in
    which escapes and surrogate pairs go wrong are evaluated on concrete
    sources. *)

From Stdlib Require Import String.
From S2P Require Import Prelude LexChars LexState LexNumber LexString Lexer LexTotal NumberSpec StringSpec.
Local Open Scope Z_scope.

(** ** Words *)

(** A unit that continues a word and is neither a backslash nor (as the scanner
    sees it) half of a surrogate pair. *)
Definition word_unit (c : Z) : bool :=
  isIdentifierPart c && negb ((c =? 0x5C) || ((0xD800 <=? c) && (c <? 0xDFFF))).

(** What may follow a word. *)
Definition word_end (post : list Z) : bool :=
  match post with
  | [] => true
  | c :: _ => negb (isIdentifierPart c || (c =? 0x5C) || ((0xD800 <=? c) && (c <? 0xDFFF)))
  end.

(** The reserved words of the language, with [yield] and [let]; [await] and the
    other words of strict mode are left to the parser. *)
Definition reservedWords : list string :=
  ["if"; "in"; "do"; "var"; "for"; "new"; "try"; "this"; "else"; "case"; "void"; "with"; "enum";
   "while"; "break"; "catch"; "throw"; "const"; "class"; "super"; "return"; "typeof"; "delete";
   "switch"; "export"; "import"; "default"; "finally"; "extends"; "function"; "continue";
   "debugger"; "instanceof"; "yield"; "let"]%string.

Definition wordToken (w : list Z) : Token :=
  if isText w "null" then NullLiteralToken
  else if isText w "true" || isText w "false" then BooleanLiteralToken
  else if existsb (isText w) reservedWords then KeywordToken
  else IdentifierToken.

(** Only texts of keywords are singled out. *)
Lemma wordToken_plain w : getKeyword w = NotKeyword -> wordToken w = IdentifierToken.
Proof.
  intros H. unfold wordToken.
  assert (Hne : forall s, getKeyword (bytes s) <> NotKeyword -> isText w s = false).
  { intros s Hs. destruct (isText w s) eqn:E; [|reflexivity].
    apply isText_eq in E. subst w. contradiction. }
  unfold reservedWords. cbn [existsb].
  rewrite !Hne by (vm_compute; congruence). reflexivity.
Qed.

(** One character is no keyword. *)
Lemma keyword_lookup_short w : (length w <= 1)%nat -> keyword_lookup w = NotKeyword.
Proof.
  intros H. unfold keyword_lookup.
  destruct (list_find _ all_keywords) as [[i k]|] eqn:Hfind; [|reflexivity].
  apply list_find_Some in Hfind as (_ & [Hk Hw] & _). subst w.
  destruct k; cbn in Hk, H; (contradiction || lia).
Qed.

Lemma wordToken_short w : length w = 1%nat -> wordToken w = IdentifierToken.
Proof.
  intros H. unfold wordToken.
  assert (Hne : forall s, length (bytes s) <> 1%nat -> isText w s = false).
  { intros s Hs. destruct (isText w s) eqn:E; [|reflexivity]. apply isText_eq in E. congruence. }
  unfold reservedWords. cbn [existsb].
  rewrite !Hne by (vm_compute; lia). reflexivity.
Qed.

Section Words.
Context {src : Source}.

Lemma word_unit_facts c :
  word_unit c = true ->
  isIdentifierPart c = true /\ (c =? 0x5C) = false /\ (0xD800 <=? c) && (c <? 0xDFFF) = false.
Proof.
  unfold word_unit. intros H. apply andb_prop in H as [H1 H2]. apply negb_true_iff in H2.
  apply orb_false_iff in H2. tauto.
Qed.

(** The loop of [getIdentifier] over the rest of a word. *)
Definition getIdentifier_turn : L (unit + bool) :=
  (let! e := eof in
   if e then break false else
   let! ch := peekCharWithoutEOF in
   if (ch =? 0x5C) || ((0xD800 <=? ch) && (ch <? 0xDFFF)) then break true
   else if isIdentifierPart ch then do! advance 1 in continue tt
   else break false)%esc.

Lemma getIdentifier_loop w post : forall n s,
  forallb word_unit w = true -> word_end post = true -> (length w < n)%nat ->
  rest s = w ++ post ->
  loop n (fun _ => getIdentifier_turn) tt s = (Ret false, moved (length w) s).
Proof.
  induction w as [|c w IH]; intros n s Hw Hp Hn Hr; (destruct n as [|n]; [cbn in Hn; lia|]);
    cbn [loop]; unfold bind at 1; unfold getIdentifier_turn at 1; rewrite bind_eof.
  - cbn [app] in Hr. destruct post as [|c post].
    + destruct (rest_nil s Hr) as [-> _]. unfold break, ret, moved. cbn [length].
      rewrite Nat.add_0_r. destruct s; reflexivity.
    + destruct (turn_start s c post Hr) as (He & Hc & _). rewrite He, bind_peekCharWithoutEOF, Hc.
      cbn [word_end] in Hp. apply negb_true_iff, orb_false_iff in Hp as [Hp H2].
      apply orb_false_iff in Hp as [H1 H3]. rewrite H1, H2, H3. cbn [orb].
      unfold break, ret, moved. cbn [length]. rewrite Nat.add_0_r. destruct s; reflexivity.
  - cbn [forallb] in Hw. apply andb_prop in Hw as [Hc Hw]. cbn [app] in Hr. cbn [length] in Hn.
    destruct (turn_start s c _ Hr) as (He & Hch & _ & Hr1). rewrite He, bind_peekCharWithoutEOF, Hch.
    destruct (word_unit_facts c Hc) as (H1 & H2 & H3). rewrite H1, H2, H3. cbn [orb].
    rewrite bind_advance. unfold continue, ret at 1. cbv beta iota.
    rewrite (IH n _ Hw Hp ltac:(lia) Hr1), moved_moved. reflexivity.
Qed.

Lemma getIdentifier_word s c w post :
  forallb word_unit w = true -> word_end post = true -> rest s = c :: w ++ post ->
  getIdentifier s = (Ret (c :: w, false), moved (S (length w)) s).
Proof.
  intros Hw Hp Hr. destruct (turn_start s c _ Hr) as (_ & _ & _ & Hr1).
  assert (Hn : (length w < fuel)%nat).
  { apply (f_equal length) in Hr. unfold rest in Hr. rewrite length_drop in Hr.
    cbn [length] in Hr. rewrite length_app in Hr. unfold fuel, len. lia. }
  unfold getIdentifier. unfold gets at 1. unfold bind at 1. rewrite bind_advance. cbv beta.
  unfold bind at 1. fold getIdentifier_turn.
  rewrite (getIdentifier_loop w post fuel _ Hw Hp Hn Hr1), moved_moved.
  unfold bind, gets, ret. cbn [moved index]. do 3 f_equal.
  replace (index s + (1 + length w) - index s)%nat with (S (length w)) by lia.
  unfold rest in Hr. rewrite Hr. cbn [take]. f_equal. apply take_app_length.
Qed.

(** The token [scanIdentifier] makes of a word. *)
Lemma scanIdentifier_word tok s c w post :
  secondaryKeywordKind tok = NotKeyword -> c <> 0x5C ->
  forallb word_unit w = true -> word_end post = true -> rest s = c :: w ++ post ->
  exists t, scanIdentifier tok c s = (Ret t, moved (S (length w)) s) /\
    type t = wordToken (c :: w) /\ start t = index s /\ end_ t = (index s + S (length w))%nat /\
    secondaryKeywordKind t = keyword_lookup (c :: w) /\
    forall s2, valueStringLiteral t s2 = (Ret (c :: w), s2).
Proof.
  intros Htok Hc Hw Hp Hr. unfold scanIdentifier. unfold gets at 1. unfold bind at 1.
  rewrite (proj2 (Z.eqb_neq c 0x5C) Hc). unfold bind at 1.
  rewrite (getIdentifier_word s c w post Hw Hp Hr).
  unfold bind at 1, spanFrom at 1, gets at 1. cbn [moved index lineNumber lineStart sp_end].
  assert (Hval : take (index s + S (length w) - index s) (drop (index s) source) = c :: w).
  { replace (index s + S (length w) - index s)%nat with (S (length w)) by lia.
    unfold rest in Hr. rewrite Hr. cbn [take]. f_equal. apply take_app_length. }
  destruct (Nat.ltb_spec 1 (length (c :: w))) as [Hlen|Hlen].
  - rewrite (getKeyword_lookup _ Hlen).
    destruct (decide (getKeyword (c :: w) = NotKeyword)) as [Hn|Hn].
    + rewrite <- (getKeyword_lookup _ Hlen), Hn, (wordToken_plain _ Hn).
      eexists. split; [reflexivity|]. do 4 (split; [reflexivity|]). intros s2.
      unfold valueStringLiteral. cbn [setRangeResult setOctal locate type value]. rewrite Hval. reflexivity.
    + destruct (getKeyword_text _ Hlen Hn) as [Hk Ht]. rewrite <- (getKeyword_lookup _ Hlen).
      revert Hval. rewrite <- Ht. intros Hval. revert Hk Hval.
      destruct (getKeyword (c :: w)); intros Hk Hval; try discriminate Hk;
        (eexists; split; [reflexivity|]; do 4 (split; [reflexivity|]); intros s2;
         unfold valueStringLiteral; cbn [setKeywordResult setRangeResult setOctal locate type value];
         rewrite ?Hval; reflexivity).
  - assert (Hn : keyword_lookup (c :: w) = NotKeyword) by (apply keyword_lookup_short; lia).
    destruct w; [|cbn in Hlen; lia].
    eexists. split; [reflexivity|]. cbn [setRangeResult setOctal locate type start end_ secondaryKeywordKind sp_start sp_end].
    rewrite Hn. split; [symmetry; apply wordToken_short; reflexivity|].
    do 3 (split; [first [reflexivity|exact Htok]|]). intros s2.
    unfold valueStringLiteral. cbn [setRangeResult setOctal locate type value].
    rewrite Hval. reflexivity.
Qed.
End Words.

(** ** The theorems *)

(** A word, that is an identifier start followed by identifier parts with no
    backslash and no surrogate, lexes as one token over exactly the word when
    what follows cannot continue it; the token's type is what the text calls for
    among null, true, false, the reserved words and identifiers, its keyword kind
    is that of the text, and its value is the word. *)
Theorem word_lexes (src : Source) tok s c w post :
  isIdentifierStart c = true -> word_unit c = true ->
  forallb word_unit w = true -> word_end post = true -> rest s = c :: w ++ post ->
  exists t s', lex tok s = (Ret t, s') /\
    type t = wordToken (c :: w) /\ start t = index s /\ end_ t = index s' /\
    index s' = (index s + S (length w))%nat /\
    secondaryKeywordKind t = keyword_lookup (c :: w) /\
    forall s2, valueStringLiteral t s2 = (Ret (c :: w), s2).
Proof.
  intros Hst Hc Hw Hp Hr. destruct (word_unit_facts c Hc) as (_ & Hb & Hsur).
  apply Z.eqb_neq in Hb.
  destruct (scanIdentifier_word (resetResult tok) s c w post eq_refl Hb Hw Hp Hr)
    as (t & Hrun & Hty & Hs & He & Hk & Hv).
  exists t, (moved (S (length w)) s).
  split; [|split; [exact Hty|]; split; [exact Hs|]; split; [rewrite He; reflexivity|auto]].
  destruct (turn_start s c _ Hr) as (Heof & Hch & _). unfold lex.
  rewrite bind_eof, Heof, bind_peekCharWithoutEOF, Hch. unfold lexLeadSurrogate. rewrite Hsur.
  unfold bind at 1, ret at 1. unfold bind at 1, charAhead, gets at 1. unfold bind at 1, gets at 1.
  rewrite Hst. exact Hrun.
Qed.

Lemma word_lexes_witness :
  let src := script "instanceof x" in
  exists t s', lex newScannerResult start_state = (Ret t, s') /\ type t = KeywordToken /\
    secondaryKeywordKind t = InstanceofKeyword /\ end_ t = 10%nat.
Proof.
  intros src.
  destruct (word_lexes src newScannerResult start_state 105 (bytes "nstanceof") (bytes " x"))
    as (t & s' & H & Hty & _ & He & Hi & Hk & _); try reflexivity.
  exists t, s'. split; [exact H|]. split; [exact Hty|]. split; [exact Hk|].
  rewrite He, Hi. reflexivity.
Defined.

(** The value of the first token of a source and the offset it ends at. *)
Definition firstToken (l : list Z) : option (Token * list Z * nat) :=
  let src := {| source := l; beyond := fun _ => 0; isModule := false; awaitContext := false |} in
  match lex newScannerResult start_state with
  | (Ret t, s') => match valueStringLiteral t s' with
                   | (Ret v, _) => Some (type t, v, end_ t)
                   | _ => None
                   end
  | _ => None
  end.

(** Where identifiers go wrong.  A braced escape is not tested for the
    identifier classes at the start ([\u{2B}x] is the identifier [+x]), ends an
    identifier after it has been consumed in the middle ([a\u{2B}b] gives [a], ending
    before [b]), and wraps at 32 bits ([\u{100000041}] is [A]).  A supplementary
    character at the start is cut to 16 bits and its lead surrogate lost: U+20000,
    an identifier start, is rejected, U+20061 gives the single unit 0xDC61, and
    U+20022 starts a string literal. *)
Theorem odd_identifiers :
  firstToken (bytes "\u{2B}x") = Some (IdentifierToken, bytes "+x", 7%nat) /\
  firstToken (bytes "a\u{2B}b") = Some (IdentifierToken, bytes "a", 7%nat) /\
  firstToken (bytes "\u{100000041}") = Some (IdentifierToken, bytes "A", 13%nat) /\
  isIdentifierStart 0x20000 = true /\ firstToken [0xD840; 0xDC00; 120] = None /\
  firstToken [0xD840; 0xDC61; 120] = Some (IdentifierToken, [0xDC61; 120], 3%nat) /\
  firstToken [0xD840; 0xDC22; 120; 0xDC22] = Some (StringLiteralToken, [120], 4%nat).
Proof. repeat split; vm_compute; reflexivity. Qed.
