(* ===== verification/TemplateSpec.v ===== *)
(** * The text of a template

    A stretch of a template without escapes is cooked to its own text with the
    line ends normalised, and so is its raw text. *)

From Stdlib Require Import String.
From S2P Require Import Prelude LexChars LexState LexNumber LexString Lexer LexTotal NumberSpec StringSpec.
Local Open Scope Z_scope.

(** CR LF and CR become LF; [cr] says that a CR came just before. *)
Fixpoint normalise (cr : bool) (w : list Z) : list Z :=
  match w with
  | [] => []
  | c :: w =>
    if c =? 13 then 10 :: normalise true w
    else if (c =? 10) && cr then normalise false w
    else c :: normalise false w
  end.

(** No back quote, no backslash and no dollar sign before a brace. *)
Fixpoint unescaped (w : list Z) : bool :=
  match w with
  | [] => true
  | c :: w' =>
    negb (c =? 96) && negb (c =? 92)
    && negb ((c =? 36) && match w' with d :: _ => d =? 123 | [] => false end) && unescaped w'
  end.

(** What ends a stretch: the back quote of a tail, or a substitution. *)
Definition closing (tail : bool) : list Z := if tail then [96] else [36; 123].

(** Lines that a text ends. *)
Definition lines (w : list Z) : nat := length (List.filter isLineTerminator w).

Lemma normalise_no_lf cr c w : c <> 10 -> normalise cr (c :: w) = normalise false (c :: w).
Proof. intros H. cbn [normalise]. rewrite (proj2 (Z.eqb_neq c 10) H). reflexivity. Qed.

Lemma unescaped_cons c w :
  unescaped (c :: w) = true ->
  (c =? 96) = false /\ (c =? 92) = false /\ unescaped w = true /\
  ((c =? 36) = true -> forall tail post, exists d l, w ++ closing tail ++ post = d :: l /\ (d =? 123) = false).
Proof.
  cbn [unescaped]. intros H. apply andb_prop in H as [H Hw]. apply andb_prop in H as [H H36].
  apply andb_prop in H as [H1 H2]. apply negb_true_iff in H1, H2, H36. repeat split; try assumption.
  intros Hc tail post. rewrite Hc in H36. cbn [andb] in H36.
  destruct w as [|d w]; [|exists d, (w ++ closing tail ++ post); auto].
  destruct tail; eexists _, _; (split; [reflexivity|reflexivity]).
Qed.

Lemma isLineTerminator_cases c :
  isLineTerminator c = true -> c = 10 \/ c = 13 \/ c = 0x2028 \/ c = 0x2029.
Proof.
  unfold isLineTerminator. destruct (Z.ltb_spec c 128) as [Hc|Hc].
  - intros H. destruct (Z.le_gt_cases 0 c) as [H0|H0].
    + assert (Hall : forallb (fun n => let c := Z.of_nat n in
        implb (asciiClass LexerIsCharLineTerminator c) ((c =? 10) || (c =? 13))) (seq 0 128) = true)
        by (vm_compute; reflexivity).
      rewrite forallb_forall in Hall. specialize (Hall (Z.to_nat c)). cbv zeta in Hall.
      rewrite in_seq, Z2Nat.id, H in Hall by lia. specialize (Hall ltac:(lia)). cbn [implb] in Hall.
      apply orb_prop in Hall as [E|E]; to_prop; auto.
    + destruct c as [|p|p]; try lia. exfalso. revert H. vm_compute. discriminate.
  - intros H. apply orb_prop in H as [H|H]; to_prop; auto.
Qed.

Section Template.
Context {src : Source}.

Lemma bind_run_at {S E A B} (m : M S E A) (k : A -> M S E B) s a s' :
  m s = (Ret a, s') -> bind m k s = k a s'.
Proof. intros H. unfold bind. rewrite H. reflexivity. Qed.

Definition marked_at (i : nat) (v : TemplateVars) : TemplateVars :=
  {| cooked := cooked v; raw := raw v; indexForError := i |}.

Lemma mark_run {B} (k : unit -> TL B) s v :
  bind markIndexForError k (s, v) = k tt (s, marked_at (index s) v).
Proof. reflexivity. Qed.

Lemma lift_eof {B} (k : bool -> TL B) s v : bind (lift eof) k (s, v) = k (at_eof s) (s, v).
Proof. reflexivity. Qed.
Lemma lift_peekChar {B} (k : Z -> TL B) s v : bind (lift peekChar) k (s, v) = k (peeked s) (s, v).
Proof. reflexivity. Qed.
Lemma lift_peekCharWithoutEOF {B} (k : Z -> TL B) s v :
  bind (lift peekCharWithoutEOF) k (s, v) = k (sourceCharAt (index s)) (s, v).
Proof. reflexivity. Qed.
Lemma lift_advance {B} n (k : unit -> TL B) s v :
  bind (lift (advance n)) k (s, v) = k tt (moved n s, v).
Proof. reflexivity. Qed.

(** The state after a line terminator of [n] units. *)
Definition newLine (n : nat) (s : ScanState) : ScanState :=
  {| index := index s + n; lineNumber := lineNumber s + 1; lineStart := index s + n |}.

(** What one turn adds. *)
Definition appended (piece : list Z) (s' : ScanState) (v v' : TemplateVars) : Prop :=
  cooked v' = cooked v ++ piece /\ raw v' = raw v ++ piece.

Lemma turn_plain s v c l :
  (c =? 96) = false -> (c =? 92) = false -> isLineTerminator c = false ->
  ((c =? 36) = true -> exists d l', l = d :: l' /\ (d =? 123) = false) ->
  rest s = c :: l ->
  exists v', template_turn (s, v) = (Ret (inl tt), (moved 1 s, v')) /\ appended [c] s v v'.
Proof.
  intros H1 H2 H3 H4 Hr. destruct (turn_start s c l Hr) as (He & Hc & _ & Hr1).
  unfold template_turn. rewrite lift_eof, He, lift_peekCharWithoutEOF, Hc, lift_advance.
  cbv beta. rewrite H1. destruct (c =? 36) eqn:H36.
  - destruct (H4 eq_refl) as (d & l' & -> & Hd).
    destruct (turn_start _ d l' Hr1) as (_ & _ & Hp & _).
    rewrite mark_run, lift_peekChar, Hp, Hd. eexists. split; [reflexivity|].
    split; reflexivity.
  - rewrite H2, H3. eexists. split; [reflexivity|]. split; reflexivity.
Qed.

Lemma turn_newline s v c l :
  isLineTerminator c = true -> (c =? 13) = false \/ (exists d l', l = d :: l' /\ (d =? 10) = false) ->
  rest s = c :: l ->
  exists v', template_turn (s, v) = (Ret (inl tt), (newLine 1 s, v')) /\
    appended (rawTerminator c) s v v'.
Proof.
  intros H1 H2 Hr. destruct (turn_start s c l Hr) as (He & Hc & _ & Hr1).
  assert (Hcr : (c =? 13) && (peeked (moved 1 s) =? 10) = false).
  { destruct H2 as [->|(d & l' & -> & Hd)]; [reflexivity|].
    destruct (turn_start _ d l' Hr1) as (_ & _ & -> & _). rewrite Hd. apply andb_false_r. }
  assert (Hne : (c =? 96) = false /\ (c =? 92) = false /\ (c =? 36) = false).
  { repeat split; apply Z.eqb_neq; intros ->; discriminate H1. }
  destruct Hne as (N1 & N2 & N3). unfold template_turn.
  rewrite lift_eof, He, lift_peekCharWithoutEOF, Hc, lift_advance. cbv beta. rewrite N1, N2, N3, H1.
  rewrite mark_run. unfold bind at 1. unfold templateNewLine.
  rewrite (bind_run_at (lift incLineNumber) _ (moved 1 s, marked_at (index (moved 1 s)) v) tt
    ({| index := index (moved 1 s); lineNumber := lineNumber (moved 1 s) + 1;
        lineStart := lineStart (moved 1 s) |}, marked_at (index (moved 1 s)) v) eq_refl).
  rewrite lift_peekChar.
  change (peeked {| index := index (moved 1 s); lineNumber := lineNumber (moved 1 s) + 1;
                    lineStart := lineStart (moved 1 s) |}) with (peeked (moved 1 s)).
  rewrite Hcr. eexists. split; [reflexivity|]. split; reflexivity.
Qed.

Lemma turn_crlf s v l :
  rest s = 13 :: 10 :: l ->
  exists v', template_turn (s, v) = (Ret (inl tt), (newLine 2 s, v')) /\ appended [10] s v v'.
Proof.
  intros Hr. destruct (turn_start s 13 _ Hr) as (He & Hc & _ & Hr1).
  destruct (turn_start _ 10 l Hr1) as (_ & _ & Hp & _). unfold template_turn.
  rewrite lift_eof, He, lift_peekCharWithoutEOF, Hc, lift_advance. cbv beta.
  change (isLineTerminator 13) with true. cbn [Z.eqb Pos.eqb negb]. cbv iota.
  rewrite mark_run. unfold bind at 1. unfold templateNewLine.
  rewrite (bind_run_at (lift incLineNumber) _ (moved 1 s, marked_at (index (moved 1 s)) v) tt
    ({| index := index (moved 1 s); lineNumber := lineNumber (moved 1 s) + 1;
        lineStart := lineStart (moved 1 s) |}, marked_at (index (moved 1 s)) v) eq_refl).
  rewrite lift_peekChar.
  change (peeked {| index := index (moved 1 s); lineNumber := lineNumber (moved 1 s) + 1;
                    lineStart := lineStart (moved 1 s) |}) with (peeked (moved 1 s)).
  rewrite Hp. assert (Hn : newLine 2 s = newLine 1 (moved 1 s)).
  { unfold newLine. cbn [moved index lineNumber]. f_equal; lia. }
  rewrite Hn. eexists. split; [reflexivity|split; reflexivity].
Qed.

Lemma turn_closing s v tail post :
  rest s = closing tail ++ post ->
  exists v', template_turn (s, v)
    = (Ret (inr (Some tail)), (moved (length (closing tail)) s, v')) /\ appended [] s v v'.
Proof.
  intros Hr.
  assert (Hv : forall i w, cooked w = cooked v -> raw w = raw v -> appended [] s v (marked_at i w)).
  { intros i w H1 H2. split; cbn; rewrite app_nil_r; assumption. }
  destruct tail; cbn [closing app] in Hr; destruct (turn_start s _ _ Hr) as (He & Hc & _ & Hr1);
    unfold template_turn; rewrite lift_eof, He, lift_peekCharWithoutEOF, Hc, lift_advance;
    cbv beta; rewrite mark_run; cbn [Z.eqb Pos.eqb].
  - eexists. split; [reflexivity|]. apply Hv; reflexivity.
  - destruct (turn_start _ _ _ Hr1) as (_ & _ & Hp & _).
    rewrite lift_peekChar, Hp. change (123 =? 123) with true. cbv iota.
    rewrite lift_advance. cbv beta. rewrite mark_run, moved_moved. eexists. split; [reflexivity|]. apply Hv; reflexivity.
Qed.

Lemma lines_app a b : lines (a ++ b) = (lines a + lines b)%nat.
Proof. unfold lines. rewrite List.filter_app, length_app. reflexivity. Qed.

(** One turn over [c :: w], with [l] behind it, takes [c] and [n] more units and
    adds what they are normalised to. *)
Definition turns_over (s : ScanState) (v : TemplateVars) (c : Z) (w l : list Z) : Prop :=
  exists n s' v' piece, template_turn (s, v) = (Ret (inl tt), (s', v')) /\
    (n <= length w)%nat /\ unescaped (drop n w) = true /\ rest s' = drop n w ++ l /\
    index s' = (index s + S n)%nat /\ lineNumber s' = (lineNumber s + lines piece)%nat /\
    normalise false (c :: w) = piece ++ normalise false (drop n w) /\ appended piece s v v'.

Lemma turns_over_one s v c w l s' v' piece :
  unescaped w = true -> rest s = (c :: w) ++ l ->
  template_turn (s, v) = (Ret (inl tt), (s', v')) -> index s' = (index s + 1)%nat ->
  lineNumber s' = (lineNumber s + lines piece)%nat ->
  normalise false (c :: w) = piece ++ normalise false w -> appended piece s v v' ->
  turns_over s v c w l.
Proof.
  intros Hu Hr Hrun Hi Hl Hn Ha. exists 0%nat, s', v', piece.
  rewrite drop_0. repeat split; try assumption; try lia; try apply Ha.
  unfold rest in *. rewrite Hi, <- drop_drop, Hr. reflexivity.
Qed.

Lemma lines_one c : lines [c] = if isLineTerminator c then 1%nat else 0%nat.
Proof. unfold lines. cbn. destruct (isLineTerminator c); reflexivity. Qed.

Lemma turns_over_cr s v w tail post :
  unescaped w = true -> rest s = (13 :: w) ++ closing tail ++ post ->
  turns_over s v 13 w (closing tail ++ post).
Proof.
  intros Hu Hr. destruct (decide (hd_error w = Some 10)) as [Hd|Hd].
  - destruct w as [|d w]; [discriminate|]. injection Hd as ->.
    apply unescaped_cons in Hu as (_ & _ & Hu & _).
    destruct (turn_crlf s v _ Hr) as (v' & Hrun & Ha).
    exists 1%nat, (newLine 2 s), v', [10]. cbn [drop length]. rewrite drop_0.
    repeat split; try assumption; try lia; try apply Ha.
    unfold rest in *. cbn [newLine index]. rewrite <- drop_drop, Hr. reflexivity.
  - assert (Hnext : exists d l', w ++ closing tail ++ post = d :: l' /\ (d =? 10) = false).
    { destruct w as [|d w]; [destruct tail; eexists _, _; split; reflexivity|].
      eexists _, _. split; [reflexivity|]. apply Z.eqb_neq. intros ->. apply Hd. reflexivity. }
    destruct (turn_newline s v 13 _ eq_refl (or_intror Hnext) Hr) as (v' & Hrun & Ha).
    apply (turns_over_one s v 13 w _ (newLine 1 s) v' [10] Hu Hr Hrun); try reflexivity; [|exact Ha].
    change (normalise false (13 :: w)) with (10 :: normalise true w). cbn [app]. f_equal.
    destruct w as [|d w]; [reflexivity|]. apply normalise_no_lf. intros ->. apply Hd. reflexivity.
Qed.

Lemma turn_stretch s v c w tail post :
  unescaped (c :: w) = true -> rest s = (c :: w) ++ closing tail ++ post ->
  turns_over s v c w (closing tail ++ post).
Proof.
  intros Hu Hr. apply unescaped_cons in Hu as (H96 & H92 & Hu & H36).
  destruct (Z.eqb_spec c 13) as [->|H13]; [apply turns_over_cr; assumption|].
  apply Z.eqb_neq in H13.
  assert (Hn : normalise false (c :: w) = [c] ++ normalise false w).
  { cbn [normalise]. rewrite H13, andb_false_r. reflexivity. }
  destruct (isLineTerminator c) eqn:Hlt.
  - destruct (turn_newline s v c _ Hlt (or_introl H13) Hr) as (v' & Hrun & Ha).
    assert (Hraw : rawTerminator c = [c]).
    { destruct (isLineTerminator_cases c Hlt) as [->|[->|[->| ->]]]; try reflexivity. discriminate. }
    rewrite Hraw in Ha. apply (turns_over_one s v c w _ (newLine 1 s) v' [c] Hu Hr Hrun); try assumption.
    + reflexivity.
    + rewrite lines_one, Hlt. reflexivity.
  - destruct (turn_plain s v c _ H96 H92 Hlt (fun H => H36 H tail post) Hr) as (v' & Hrun & Ha).
    apply (turns_over_one s v c w _ (moved 1 s) v' [c] Hu Hr Hrun); try assumption.
    + reflexivity.
    + rewrite lines_one, Hlt. cbn. lia.
Qed.

Lemma template_loop tail post : forall n w s v,
  (length w < n)%nat -> unescaped w = true -> rest s = w ++ closing tail ++ post ->
  exists s' v', loop n (fun _ => template_turn) tt (s, v) = (Ret (Some tail), (s', v')) /\
    index s' = (index s + length w + length (closing tail))%nat /\
    lineNumber s' = (lineNumber s + lines (normalise false w))%nat /\
    appended (normalise false w) s v v'.
Proof.
  induction n as [|n IH]; intros w s v Hn Hu Hr; [lia|]. cbn [loop].
  destruct w as [|c w].
  - destruct (turn_closing s v tail post Hr) as (v' & Hrun & Ha).
    rewrite (bind_run_at _ _ _ _ _ Hrun). exists (moved (length (closing tail)) s), v'.
    split; [reflexivity|]. cbn [moved index lineNumber length normalise]. unfold lines. cbn.
    split; [lia|]. split; [lia|exact Ha].
  - destruct (turn_stretch s v c w tail post Hu Hr)
      as (k & s1 & v1 & piece & Hrun & Hk & Hu1 & Hr1 & Hi & Hl & Hnorm & Hc1 & Hraw1).
    rewrite (bind_run_at _ _ _ _ _ Hrun). cbn [length] in Hn.
    destruct (IH (drop k w) s1 v1) as (s' & v' & Hrest & Hi' & Hl' & Hc' & Hraw');
      [rewrite length_drop; lia|assumption..|].
    exists s', v'. split; [exact Hrest|]. rewrite length_drop in Hi'. cbn [length].
    split; [lia|]. rewrite Hnorm, lines_app. split; [lia|].
    split; [rewrite Hc', Hc1|rewrite Hraw', Hraw1]; symmetry; apply app_assoc.
Qed.
End Template.

(** ** The theorems *)

(** A stretch of a template with no escape, whatever its line ends, scanned
    from after the back quote (or the brace) up to the closing back quote or the
    next substitution, becomes one token over it whose cooked and raw texts are
    both the stretch with CR LF and CR turned into LF, with no error; the line
    count goes up by the line ends of that text. *)
Theorem template_text (src : Source) tok hd s w tail post :
  unescaped w = true -> rest s = w ++ closing tail ++ post ->
  exists t s', scanTemplate tok hd s = (Ret t, s') /\
    value t = TemplateValue {| valueCooked := Some (normalise false w);
                               valueRaw := normalise false w; head := hd; LexState.tail := tail;
                               templateError := None |} /\
    end_ t = index s' /\ index s' = (index s + length w + length (closing tail))%nat /\
    lineNumber s' = (lineNumber s + lines (normalise false w))%nat.
Proof.
  intros Hu Hr.
  assert (Hn : (length w < fuel)%nat).
  { apply (f_equal length) in Hr. unfold rest in Hr. rewrite length_drop, !length_app in Hr.
    assert (0 < length (closing tail))%nat by (destruct tail; cbn; lia). unfold fuel, len. lia. }
  destruct (template_loop tail post fuel w s
              {| cooked := []; raw := []; indexForError := index s |} Hn Hu Hr)
    as (s' & v' & Hrun & Hi & Hl & Hc & Hraw). cbn [cooked raw app] in Hc, Hraw.
  eexists _, s'. split; [|split; [|split; [|split; [exact Hi|exact Hl]]]].
  - unfold scanTemplate. rewrite (bind_run_at (gets index) _ s (index s) s eq_refl).
    rewrite (bind_run_at (withVars (try_catch template_try template_catch)) _ s ((tail, None), v') s').
    2:{ unfold withVars, try_catch, template_try. rewrite (bind_run_at _ _ _ _ _ Hrun). reflexivity. }
    reflexivity.
  - cbn [setTemplateTokenResult locate value]. rewrite Hc, Hraw. reflexivity.
  - reflexivity.
Qed.

Lemma template_text_witness :
  let src := {| source := [97; 13; 10; 36; 13; 36; 123; 120]; beyond := fun _ => 0;
                isModule := false; awaitContext := false |} in
  exists t s' r, scanTemplate newScannerResult true start_state = (Ret t, s') /\
    value t = TemplateValue r /\ valueCooked r = Some [97; 10; 36; 10] /\ lineNumber s' = 3%nat.
Proof.
  intros src.
  destruct (template_text src newScannerResult true start_state [97; 13; 10; 36; 13] false [120])
    as (t & s' & Hrun & Hv & _ & _ & Hl); try reflexivity.
  eexists t, s', _. split; [exact Hrun|]. split; [exact Hv|]. split; [reflexivity|exact Hl].
Defined.

(** An escape beyond U+FFFF in a template is cut to 16 bits in the cooked text:
    [\u{1F600}] is cooked to the single unit 0xF600, while in a string literal it is
    the surrogate pair. *)
Theorem template_escape_truncated :
  (let src := script "`\u{1F600}`" in
   exists t s' r, lex newScannerResult start_state = (Ret t, s') /\
     value t = TemplateValue r /\ valueCooked r = Some [0xF600] /\
     valueRaw r = bytes "\u{1F600}") /\
  (let src := script "'\u{1F600}'" in
   exists t s', lex newScannerResult start_state = (Ret t, s') /\
     valueStringLiteral t s' = (Ret [0xD83D; 0xDE00], s')).
Proof.
  split; eexists _, _; [eexists|]; (split; [vm_compute; reflexivity|]);
    [split; [reflexivity|split]|]; vm_compute; reflexivity.
Qed.
