(* ===== verification/Ieee754.v ===== *)
(** * Doubles as the bit patterns a C++ [double] is made of

    A [double] is its 64-bit pattern, a [Z] in [0, 2 ^ 64).  Finite doubles are
    integers times [2 ^ -1074], so comparison and truncation are exact integer
    operations on [scaled]. *)

From S2P Require Import Prelude Float64.
Local Open Scope Z_scope.

(** ** Fields and classes *)

Definition is_bits64 (d : Z) : Prop := 0 <= d < 2 ^ 64.

Definition signbit (d : Z) : bool := 2 ^ 63 <=? d.
Definition exponentField (d : Z) : Z := d / 2 ^ 52 mod 2048.
Definition fractionField (d : Z) : Z := d mod 2 ^ 52.

Definition isnan (d : Z) : bool := (exponentField d =? 2047) && negb (fractionField d =? 0).
Definition isinf (d : Z) : bool := (exponentField d =? 2047) && (fractionField d =? 0).

Definition quiet_NaN : Z := Z.shiftl 0x7ff8 48.
Definition infinity : Z := Z.shiftl 0x7ff0 48.
Definition negative_infinity : Z := Z.shiftl 0xfff0 48.
Definition negative_zero : Z := 2 ^ 63.

(** ** Values *)

(** [2 ^ 1074] times the magnitude of a finite double. *)
Definition magnitude (d : Z) : Z :=
  if exponentField d =? 0 then fractionField d
  else (2 ^ 52 + fractionField d) * 2 ^ (exponentField d - 1).

Definition scaled (d : Z) : Z := if signbit d then - magnitude d else magnitude d.

(** [a == b] on doubles. *)
Definition feq (a b : Z) : bool := negb (isnan a) && negb (isnan b) && (scaled a =? scaled b).

(** The integer part of a finite double. *)
Definition truncated (d : Z) : Z := scaled d ÷ 2 ^ 1074.

(** [static_cast<int32_t>]: out of range, where C++ leaves the result open, the
    conversion instruction of the 64-bit target answers the lowest integer. *)
Definition cast_int32 (d : Z) : Z :=
  if isnan d || isinf d then - 2 ^ 31
  else let t := truncated d in
       if (- 2 ^ 31 <=? t) && (t <? 2 ^ 31) then t else - 2 ^ 31.

(** [static_cast<double>] of an integer below [2 ^ 64], rounded to even. *)
Definition of_magnitude (n : Z) : Z :=
  if n =? 0 then 0
  else
    let e := Z.max 0 (Z.log2 n - 52) in
    let m := round_even n (2 ^ e) in
    (* a carry into the next power of two carries into the exponent field *)
    (1022 + Z.log2 n) * 2 ^ 52 + m * 2 ^ Z.max 0 (52 - Z.log2 n).

Definition of_integer (i : Z) : Z := if i <? 0 then 2 ^ 63 + of_magnitude (- i) else of_magnitude i.

(** ** Doubles compare as their values do *)

Lemma bits_split d :
  is_bits64 d ->
  d = (if signbit d then 2 ^ 63 else 0) + exponentField d * 2 ^ 52 + fractionField d.
Proof.
  unfold is_bits64, signbit, exponentField, fractionField. intros H.
  change (2 ^ 52) with 4503599627370496. change (2 ^ 63) with 9223372036854775808.
  change (2 ^ 64) with 18446744073709551616 in H.
  assert (0 <= d / 4503599627370496 < 4096) by lia.
  destruct (Z.leb_spec 9223372036854775808 d); [|lia].
  assert (2048 <= d / 4503599627370496) by lia. lia.
Qed.

Lemma fields_range d : 0 <= exponentField d < 2048 /\ 0 <= fractionField d < 2 ^ 52.
Proof. unfold exponentField, fractionField. split; apply Z.mod_pos_bound; reflexivity. Qed.

Lemma pow2_gap a b : 0 <= a < b -> 2 * 2 ^ a <= 2 ^ b.
Proof. intros H. rewrite <- Z.pow_succ_r by lia. apply Z.pow_le_mono_r; lia. Qed.

Lemma magnitude_nonneg d : 0 <= magnitude d.
Proof.
  pose proof (fields_range d). unfold magnitude. case_if; [lia|].
  assert (0 <= 2 ^ (exponentField d - 1)) by (apply Z.pow_nonneg; lia).
  set (p := 2 ^ (exponentField d - 1)) in *. clearbody p. nia.
Qed.

(** The order of magnitudes is the order of the fields. *)
Lemma magnitude_lt a b :
  exponentField a < exponentField b -> magnitude a < magnitude b.
Proof.
  intros H. pose proof (fields_range a). pose proof (fields_range b). unfold magnitude.
  rewrite (proj2 (Z.eqb_neq (exponentField b) 0)) by lia.
  assert (Hb : 1 <= 2 ^ (exponentField b - 1)) by (apply (Z.pow_le_mono_r 2 0); lia).
  case_if; to_prop.
  - set (p := 2 ^ (exponentField b - 1)) in *. clearbody p. nia.
  - pose proof (pow2_gap (exponentField a - 1) (exponentField b - 1) ltac:(lia)).
    assert (0 < 2 ^ (exponentField a - 1)) by (apply Z.pow_pos_nonneg; lia).
    set (p := 2 ^ (exponentField a - 1)) in *. set (q := 2 ^ (exponentField b - 1)) in *.
    change (2 ^ 52) with 4503599627370496 in *. clearbody p q. nia.
Qed.

Lemma magnitude_inj a b :
  magnitude a = magnitude b ->
  exponentField a = exponentField b /\ fractionField a = fractionField b.
Proof.
  intros H. destruct (Z.lt_trichotomy (exponentField a) (exponentField b)) as [Hlt|[He|Hlt]];
    [apply magnitude_lt in Hlt; lia| |apply magnitude_lt in Hlt; lia].
  split; [exact He|]. revert H. unfold magnitude. rewrite He.
  pose proof (fields_range b). case_if; to_prop; [auto|].
  assert (0 < 2 ^ (exponentField b - 1)) by (apply Z.pow_pos_nonneg; lia).
  set (p := 2 ^ (exponentField b - 1)) in *. clearbody p.
  change (2 ^ 52) with 4503599627370496 in *. intros Hm. nia.
Qed.

Lemma magnitude_zero d : is_bits64 d -> magnitude d = 0 -> d = 0 \/ d = negative_zero.
Proof.
  intros Hd H. change 0 with (magnitude 0) in H. apply magnitude_inj in H as [He Hf].
  rewrite (bits_split d Hd), He, Hf. unfold negative_zero. case_if; cbn; auto.
Qed.

Lemma scaled_inj a b :
  is_bits64 a -> is_bits64 b -> scaled a = scaled b ->
  a = b \/ (magnitude a = 0 /\ magnitude b = 0).
Proof.
  intros Ha Hb H. pose proof (magnitude_nonneg a). pose proof (magnitude_nonneg b).
  revert H. unfold scaled. destruct (signbit a) eqn:Sa, (signbit b) eqn:Sb; intros H;
    try (right; lia); left; assert (Hm : magnitude a = magnitude b) by lia;
    apply magnitude_inj in Hm as [He Hf];
    rewrite (bits_split a Ha), (bits_split b Hb), Sa, Sb, He, Hf; reflexivity.
Qed.

(** Equality of doubles is equality of patterns but for the zeros and NaN. *)
Lemma feq_spec a b :
  is_bits64 a -> is_bits64 b -> isnan a = false -> isnan b = false ->
  feq a b = true <-> a = b \/ (magnitude a = 0 /\ magnitude b = 0).
Proof.
  intros Ha Hb Na Nb. unfold feq. rewrite Na, Nb. cbn [negb andb]. rewrite Z.eqb_eq. split.
  - apply scaled_inj; assumption.
  - intros [->|[Ma Mb]]; [reflexivity|]. unfold scaled. rewrite Ma, Mb. repeat case_if; reflexivity.
Qed.

(** ** Small integers as doubles *)

(** The fields of a pattern put together. *)
Lemma fields_of e f :
  0 <= e < 2048 -> 0 <= f < 2 ^ 52 ->
  forall s, s = 0 \/ s = 2 ^ 63 ->
  let d := s + e * 2 ^ 52 + f in
  is_bits64 d /\ exponentField d = e /\ fractionField d = f /\ signbit d = (s =? 2 ^ 63).
Proof.
  intros He Hf s Hs d. unfold d, is_bits64, exponentField, fractionField, signbit. cbn in *.
  destruct Hs as [-> | ->]; cbn [Z.eqb Pos.eqb]; repeat split; try lia;
    first [apply Z.leb_gt; lia|apply Z.leb_le; lia].
Qed.

Lemma of_magnitude_fields n :
  0 < n < 2 ^ 53 ->
  exists f, of_magnitude n = (1023 + Z.log2 n) * 2 ^ 52 + f /\ 0 <= f < 2 ^ 52 /\
    2 ^ 52 + f = n * 2 ^ (52 - Z.log2 n) /\ 0 <= Z.log2 n <= 52.
Proof.
  intros Hn. pose proof (Z.log2_spec n ltac:(lia)) as [H1 H2]. pose proof (Z.log2_nonneg n) as H0.
  assert (Hl : Z.log2 n < 53) by (apply Z.log2_lt_pow2; lia).
  set (l := Z.log2 n) in *.
  assert (Hp : 2 ^ 52 = 2 ^ l * 2 ^ (52 - l)) by (rewrite <- Z.pow_add_r by lia; f_equal; lia).
  assert (Hq : 0 < 2 ^ (52 - l)) by (apply Z.pow_pos_nonneg; lia).
  assert (Hs : 2 ^ Z.succ l = 2 * 2 ^ l) by (apply Z.pow_succ_r; lia).
  exists (n * 2 ^ (52 - l) - 2 ^ 52). split; [|split; [|split; lia]].
  - unfold of_magnitude. rewrite (proj2 (Z.eqb_neq n 0)) by lia. fold l.
    replace (Z.max 0 (l - 52)) with 0 by lia. replace (Z.max 0 (52 - l)) with (52 - l) by lia.
    change (2 ^ 0) with 1. rewrite round_even_exact by (reflexivity || apply Z.mod_1_r).
    rewrite Z.div_1_r. lia.
  - set (p := 2 ^ (52 - l)) in *. set (q := 2 ^ l) in *. clearbody p q. nia.
Qed.

Lemma of_magnitude_value n s :
  0 < n < 2 ^ 53 -> s = 0 \/ s = 2 ^ 63 ->
  let d := s + of_magnitude n in
  is_bits64 d /\ isnan d = false /\ isinf d = false /\ magnitude d = n * 2 ^ 1074 /\
  signbit d = (s =? 2 ^ 63).
Proof.
  intros Hn Hs d. destruct (of_magnitude_fields n Hn) as (f & Ho & Hf & Hval & Hl).
  destruct (fields_of (1023 + Z.log2 n) f ltac:(lia) Hf s Hs) as (Hb & He & Hfr & Hsg).
  replace (s + (1023 + Z.log2 n) * 2 ^ 52 + f) with d in * by (unfold d; lia).
  unfold isnan, isinf, magnitude. rewrite He, Hfr.
  rewrite (proj2 (Z.eqb_neq (1023 + Z.log2 n) 2047)) by lia.
  rewrite (proj2 (Z.eqb_neq (1023 + Z.log2 n) 0)) by lia.
  split; [exact Hb|]. split; [reflexivity|]. split; [reflexivity|]. split; [|exact Hsg].
  rewrite Hval, <- Z.mul_assoc, <- Z.pow_add_r by lia.
  do 2 f_equal. lia.
Qed.

Lemma of_integer_value i :
  - 2 ^ 53 < i < 2 ^ 53 ->
  is_bits64 (of_integer i) /\ isnan (of_integer i) = false /\ isinf (of_integer i) = false /\
  scaled (of_integer i) = i * 2 ^ 1074 /\ signbit (of_integer i) = (i <? 0).
Proof.
  intros Hi. unfold of_integer, scaled. destruct (Z.ltb_spec i 0) as [Hneg|Hpos].
  - destruct (of_magnitude_value (- i) (2 ^ 63) ltac:(lia) (or_intror eq_refl))
      as (Hb & Hn & Hf & Hm & Hs).
    rewrite Hs, Hm. change (2 ^ 63 =? 2 ^ 63) with true. cbv iota. rewrite Z.mul_opp_l, Z.opp_involutive. auto.
  - destruct (Z.eq_dec i 0) as [->|Hne]; [repeat split; vm_compute; congruence|].
    destruct (of_magnitude_value i 0 ltac:(lia) (or_introl eq_refl)) as (Hb & Hn & Hf & Hm & Hs).
    rewrite Z.add_0_l in *. rewrite Hs, Hm. auto.
Qed.

Lemma truncated_integer d i : scaled d = i * 2 ^ 1074 -> truncated d = i.
Proof. intros H. unfold truncated. rewrite H. apply Z.quot_mul. apply Z.pow_nonzero; lia. Qed.

Lemma cast_of_integer i : in_int32 i -> cast_int32 (of_integer i) = i.
Proof.
  unfold in_int32. intros Hi. destruct (of_integer_value i ltac:(lia)) as (_ & Hn & Hf & Hs & _).
  unfold cast_int32. rewrite Hn, Hf, (truncated_integer _ _ Hs).
  rewrite (proj2 (Z.leb_le _ _)), (proj2 (Z.ltb_lt _ _)) by lia. reflexivity.
Qed.

Lemma cast_int32_range d : in_int32 (cast_int32 d).
Proof. unfold cast_int32, in_int32. repeat case_if; to_prop; lia. Qed.

Lemma of_integer_inj i j :
  - 2 ^ 53 < i < 2 ^ 53 -> - 2 ^ 53 < j < 2 ^ 53 -> of_integer i = of_integer j -> i = j.
Proof.
  intros Hi Hj H. destruct (of_integer_value i Hi) as (_ & _ & _ & Hs & _).
  destruct (of_integer_value j Hj) as (_ & _ & _ & Hs' & _).
  rewrite <- (truncated_integer _ _ Hs), <- (truncated_integer _ _ Hs'), H. reflexivity.
Qed.

(** A double equal to a small integer has its pattern, the zeros apart. *)
Lemma feq_integer d i :
  is_bits64 d -> - 2 ^ 53 < i < 2 ^ 53 ->
  feq (of_integer i) d = true <-> d = of_integer i \/ (i = 0 /\ d = negative_zero).
Proof.
  intros Hd Hi. destruct (of_integer_value i Hi) as (Hb & Hn & _ & Hs & _).
  destruct (isnan d) eqn:Nd.
  - unfold feq. rewrite Nd, andb_false_r. split; [discriminate|].
    intros [->|[_ ->]]; [congruence|discriminate Nd].
  - rewrite (feq_spec _ _ Hb Hd Hn Nd). split.
    + intros [<-|[M1 M2]]; [auto|].
      assert (i = 0).
      { assert (Hz : scaled (of_integer i) = 0) by (unfold scaled; rewrite M1; case_if; reflexivity).
        rewrite Hz in Hs. assert (2 ^ 1074 <> 0) by (apply Z.pow_nonzero; lia).
        set (p := 2 ^ 1074) in *. clearbody p. nia. }
      subst i. destruct (magnitude_zero d Hd M2) as [->| ->]; auto.
    + intros [->|[-> ->]]; [auto|right; split; reflexivity].
Qed.
