(* ===== verification/Value.v ===== *)
(** * Values: the 64-bit encoding and the equalities ([runtime/Value.h], [ValueInlines.h], [Value.cpp])

    A [Value] of the 64-bit target is one word: a [Z] in [0, 2 ^ 64).  The top
    sixteen bits are 0xffff for an [int32_t], something between for a double
    (moved up by 2 ^ 48), and 0 for a pointer or one of the immediates, which
    have bit 1 set.  What a pointer points to is read from a [Heap]. *)

From S2P Require Import Prelude Float64 Ieee754.
Local Open Scope Z_scope.

(** ** The words *)

Definition TagBitTypeOther : Z := 2.
Definition TagTypeShift : Z := 2.
Definition ValueFalse : Z := Z.lor TagBitTypeOther (Z.shiftl 0 TagTypeShift).
Definition ValueTrue : Z := Z.lor TagBitTypeOther (Z.shiftl 1 TagTypeShift).
Definition ValueNull : Z := Z.lor TagBitTypeOther (Z.shiftl 2 TagTypeShift).
Definition ValueUndefined : Z := Z.lor TagBitTypeOther (Z.shiftl 3 TagTypeShift).
Definition ValueLast : Z := ValueUndefined.
Definition ValueEmpty : Z := 0.

Definition DoubleEncodeOffset : Z := 0x1000000000000.
Definition DoubleInvalidBeginning : Z := 0xfffe000000000000.
Definition TagTypeNumber : Z := 0xffff000000000000.
Definition TagMask : Z := Z.lor TagTypeNumber TagBitTypeOther.

(** ** Constructors *)

(** [Value(EncodeAsDouble, d)]. *)
Definition Value_EncodeAsDouble (d : Z) : Z := to_unsigned 64 (d + DoubleEncodeOffset).
(** [Value(int)]. *)
Definition Value_int (i : Z) : Z := Z.lor TagTypeNumber (to_unsigned 32 i).
Definition Value_bool (b : bool) : Z :=
  Z.lor TagBitTypeOther (Z.shiftl (if b then 1 else 0) TagTypeShift).
Definition Value_pointer (p : Z) : Z := p.
Definition Value_NaN : Z := Value_EncodeAsDouble quiet_NaN.

(** ** Queries *)

Definition firstByte3 (w : Z) : Z := Z.land (Z.shiftr w 48) 0xffff.
Definition isInt32 (w : Z) : bool := firstByte3 w =? 0xffff.
Definition isNumber (w : Z) : bool := negb (firstByte3 w =? 0).
Definition isDouble (w : Z) : bool := isNumber w && negb (isInt32 w).
Definition isPointerValue (w : Z) : bool := Z.land w TagMask =? 0.
Definition isEmpty (w : Z) : bool := w =? ValueEmpty.
Definition isUndefined (w : Z) : bool := w =? ValueUndefined.
Definition isNull (w : Z) : bool := w =? ValueNull.
Definition isUndefinedOrNull (w : Z) : bool := isUndefined w || isNull w.
Definition isBoolean (w : Z) : bool := Z.lor w (Z.shiftl 1 TagTypeShift) =? ValueTrue.

Definition asInt32 (w : Z) : Z := to_int32 w.
Definition asBoolean (w : Z) : bool := w =? ValueTrue.
Definition asDouble (w : Z) : Z := to_unsigned 64 (w - DoubleEncodeOffset).
Definition asPointerValue (w : Z) : Z := w.
Definition asNumber (w : Z) : Z := if isInt32 w then of_integer (asInt32 w) else asDouble w.
Definition isUInt32 (w : Z) : bool := isInt32 w && (0 <=? asInt32 w).

(** The two overloads: the second one's output parameter is the pair's second
    component. *)
Definition isInt32ConvertibleDouble (d : Z) : bool * Z :=
  let asInt32 := cast_int32 d in
  (negb (negb (feq (of_integer asInt32) d) || ((asInt32 =? 0) && signbit d)), asInt32).

(** [Value(DoubleToIntConvertibleTestNeeds, d)]. *)
Definition Value_double (d : Z) : Z :=
  let '(convertible, asInt32) := isInt32ConvertibleDouble d in
  if convertible then Value_int asInt32
  else if Z.land d DoubleInvalidBeginning =? DoubleInvalidBeginning
  then Value_EncodeAsDouble quiet_NaN
  else Value_EncodeAsDouble d.

(** [Value(unsigned)] and [Value(long)]. *)
Definition Value_unsigned (i : Z) : Z :=
  let asInt32 := to_int32 i in
  if asInt32 <? 0 then Value_EncodeAsDouble (of_integer i) else Value_int asInt32.
Definition Value_long (i : Z) : Z :=
  let asInt32 := to_int32 i in
  if negb (asInt32 =? i) then Value_EncodeAsDouble (of_integer i) else Value_int asInt32.
Definition Value_unsigned_long (i : Z) : Z :=
  let asInt32 := to_unsigned 32 i in
  if negb (asInt32 =? i) then Value_EncodeAsDouble (of_integer i) else Value_unsigned i.

(** ** Behind the pointers *)

(** Strings are their UTF-16 units; the value of a BigInt, which the vendored
    library computes, is an integer. *)
Inductive PointerValue :=
| StringPointer (s : list Z)
| BigIntPointer (n : Z)
| SymbolPointer
| ObjectPointer.

Class Heap := pointee : Z -> PointerValue.

Section Heap.
Context {heap : Heap}.

Definition pointerIsString (p : Z) : bool :=
  match pointee p with StringPointer _ => true | _ => false end.
Definition pointerIsBigInt (p : Z) : bool :=
  match pointee p with BigIntPointer _ => true | _ => false end.

(** The end of the three equalities: both are pointers and they differ. *)
Definition pointersEqual (o o2 : Z) : bool :=
  match pointee o, pointee o2 with
  | StringPointer a, StringPointer b => bool_decide (a = b)
  | BigIntPointer a, BigIntPointer b => a =? b
  | _, _ => false
  end.

Definition equalsToByTheSameValueAlgorithm (w val : Z) : bool :=
  if negb (isPointerValue val) then
    if isNumber w && isNumber val then
      let a := asNumber w in
      let b := asNumber val in
      if isnan a || isnan b then isnan a && isnan b
      else feq a b && Bool.eqb (signbit a) (signbit b)
    else w =? val
  else if w =? val then true
  else if negb (isPointerValue w) then false
  else pointersEqual (asPointerValue w) (asPointerValue val).

Definition equalsToByTheSameValueZeroAlgorithm (w val : Z) : bool :=
  if negb (isPointerValue val) then
    if isNumber w && isNumber val then
      let a := asNumber w in
      let b := asNumber val in
      if isnan a || isnan b then isnan a && isnan b else feq a b
    else w =? val
  else if w =? val then true
  else if negb (isPointerValue w) then false
  else pointersEqual (asPointerValue w) (asPointerValue val).

(** [===]. *)
Definition equalsToSlowCase (w val : Z) : bool :=
  if negb (isPointerValue val) then
    if isNumber w && isNumber val then
      let a := asNumber w in
      let b := asNumber val in
      if isnan a || isnan b then false else feq a b
    else w =? val
  else if w =? val then true
  else if negb (isPointerValue w) then false
  else pointersEqual (asPointerValue w) (asPointerValue val).

Definition equalsTo (w val : Z) : bool :=
  if isInt32 w && isInt32 val then w =? val else equalsToSlowCase w val.

(** [toBoolean], outside the test build's [document.all] objects. *)
Definition toBooleanSlowCase (w : Z) : bool :=
  if isDouble w then
    let d := asDouble w in
    if isnan d then false else if feq d 0 then false else true
  else if isUndefinedOrNull w then false
  else match pointee (asPointerValue w) with
       | StringPointer s => negb (length s =? 0)%nat
       | BigIntPointer n => negb (n =? 0)
       | _ => true
       end.

Definition toBoolean (w : Z) : bool :=
  if isBoolean w then asBoolean w
  else if isInt32 w then negb (asInt32 w =? 0)
  else toBooleanSlowCase w.
End Heap.

(** ** [toInt32] *)

(** [toInt32SlowCase] after [toNumber]: the shifts and masks on the pattern. *)
Definition toInt32SlowCase (num : Z) : Z :=
  let bits := to_signed 64 num in
  let exp := Z.land (to_int32 (Z.shiftr bits 52)) 0x7ff - 0x3ff in
  if (exp <? 0) || (83 <? exp) then 0
  else
    let result :=
      if 52 <? exp then to_int32 (Z.shiftl bits (exp - 52))
      else to_int32 (Z.shiftr bits (52 - exp)) in
    let result :=
      if exp <? 32 then
        let missingOne := to_int32 (Z.shiftl 1 exp) in
        to_int32 (Z.land result (to_int32 (missingOne - 1)) + missingOne)
      else result in
    if bits <? 0 then to_int32 (- result) else result.

(** [toNumber]; [None] is the call of [toNumberSlowCase] for a pointer. *)
Definition toNumber (w : Z) : option Z :=
  let n := Z.land w TagTypeNumber in
  if negb (n =? 0) then
    if n =? TagTypeNumber then Some (of_integer (asInt32 w)) else Some (asDouble w)
  else if isUndefined w then Some quiet_NaN
  else if isNull w then Some 0
  else if isBoolean w then Some (if asBoolean w then of_integer 1 else 0)
  else None.

Definition toInt32 (w : Z) : option Z :=
  if isInt32 w then Some (asInt32 w) else option_map toInt32SlowCase (toNumber w).
Definition toUint32 (w : Z) : option Z := option_map (to_unsigned 32) (toInt32 w).

(** ** The parts of a word *)

Lemma lor_high hi lo : 0 <= lo < 2 ^ 48 -> Z.lor (Z.shiftl hi 48) lo = Z.shiftl hi 48 + lo.
Proof.
  intros H. rewrite <- Z.add_lor_land. replace (Z.land (Z.shiftl hi 48) lo) with 0; [lia|].
  symmetry. apply Z.bits_inj'. intros n Hn. rewrite Z.land_spec, Z.bits_0.
  destruct (Z.ltb_spec n 48).
  - rewrite Z.shiftl_spec_low by lia. reflexivity.
  - rewrite <- (Z.mod_small lo (2 ^ 48)) by lia. rewrite Z.mod_pow2_bits_high by lia.
    apply andb_false_r.
Qed.

Lemma firstByte3_top w : is_bits64 w -> firstByte3 w = w / 2 ^ 48.
Proof.
  unfold is_bits64, firstByte3. intros H. change 0xffff with (Z.ones 16).
  rewrite Z.land_ones, Z.shiftr_div_pow2 by lia. apply Z.mod_small. cbn. lia.
Qed.

Lemma land_TagTypeNumber w : Z.land w TagTypeNumber = Z.shiftl (firstByte3 w) 48.
Proof.
  change TagTypeNumber with (Z.shiftl 0xffff 48). unfold firstByte3. apply Z.bits_inj'. intros n Hn.
  rewrite Z.land_spec. destruct (Z.ltb_spec n 48).
  - rewrite !Z.shiftl_spec_low by lia. apply andb_false_r.
  - rewrite !Z.shiftl_spec, Z.land_spec, Z.shiftr_spec by lia. do 2 f_equal. lia.
Qed.

Lemma isPointerValue_bits w :
  isPointerValue w = (firstByte3 w =? 0) && negb (Z.testbit w 1).
Proof.
  unfold isPointerValue, TagMask, TagBitTypeOther.
  rewrite Z.land_lor_distr_r, land_TagTypeNumber.
  assert (H2 : Z.land w 2 = if Z.testbit w 1 then 2 else 0).
  { apply Z.bits_inj'. intros n Hn. rewrite Z.land_spec.
    destruct (Z.eq_dec n 1) as [->|Hne]; [destruct (Z.testbit w 1); reflexivity|].
    change 2 with (2 ^ 1). rewrite Z.pow2_bits_false, andb_false_r by lia.
    destruct (Z.testbit w 1); [rewrite Z.pow2_bits_false by lia|rewrite Z.bits_0]; reflexivity. }
  rewrite H2. destruct (Z.eqb_spec (firstByte3 w) 0) as [->|Hne].
  - destruct (Z.testbit w 1); reflexivity.
  - apply Z.eqb_neq. intros H. apply Z.lor_eq_0_iff in H as [H _]. apply Z.shiftl_eq_0_iff in H; lia.
Qed.

(** ** What is encoded *)

(** What a word stands for; [RPointer] covers strings, symbols and objects. *)
Inductive repr :=
| RInt (i : Z)
| RDouble (d : Z)
| RPointer (p : Z)
| RUndefined
| RNull
| RBool (b : bool).

Definition encode (r : repr) : Z :=
  match r with
  | RInt i => Value_int i
  | RDouble d => Value_EncodeAsDouble d
  | RPointer p => Value_pointer p
  | RUndefined => ValueUndefined
  | RNull => ValueNull
  | RBool b => Value_bool b
  end.

(** An address of an allocated block: outside the first page, below 2 ^ 48, a
    multiple of 4. *)
Definition is_address (p : Z) : Prop := 4096 <= p < 2 ^ 48 /\ p mod 4 = 0.

Definition wf_repr (r : repr) : Prop :=
  match r with
  | RInt i => in_int32 i
  | RDouble d => 0 <= d < DoubleInvalidBeginning
  | RPointer p => is_address p
  | _ => True
  end.

(** The words of the values a script can hold. *)
Definition valid (w : Z) : Prop := exists r, wf_repr r /\ w = encode r.

(** The queries a word answers yes to. *)
Definition kinds (w : Z) : bool * bool * bool * bool * bool * bool :=
  (isInt32 w, isDouble w, isPointerValue w, isUndefined w, isNull w, isBoolean w).

Definition expected_kinds (r : repr) : bool * bool * bool * bool * bool * bool :=
  match r with
  | RInt _ => (true, false, false, false, false, false)
  | RDouble _ => (false, true, false, false, false, false)
  | RPointer _ => (false, false, true, false, false, false)
  | RUndefined => (false, false, false, true, false, false)
  | RNull => (false, false, false, false, true, false)
  | RBool _ => (false, false, false, false, false, true)
  end.

(** No word with high bits is an immediate. *)
Lemma high_not_immediate w :
  is_bits64 w -> 2 ^ 48 <= w -> isUndefined w = false /\ isNull w = false /\ isBoolean w = false.
Proof.
  unfold is_bits64, isUndefined, isNull, isBoolean. intros Hb Hw.
  rewrite !(proj2 (Z.eqb_neq _ _)); auto.
  - intros H. assert (Hs : Z.shiftr (Z.lor w (Z.shiftl 1 TagTypeShift)) 48 = 0) by (rewrite H; reflexivity).
    rewrite Z.shiftr_lor, !Z.shiftr_div_pow2 in Hs by lia. apply Z.lor_eq_0_iff in Hs as [Hs _]. lia.
  - change ValueNull with 10. lia.
  - change ValueUndefined with 14. lia.
Qed.

Lemma Value_int_eq i : Value_int i = 0xffff * 2 ^ 48 + i mod 2 ^ 32.
Proof.
  unfold Value_int, to_unsigned. change TagTypeNumber with (Z.shiftl 0xffff 48).
  rewrite lor_high by lia. reflexivity.
Qed.

Lemma Value_int_word i : is_bits64 (Value_int i) /\ firstByte3 (Value_int i) = 0xffff.
Proof.
  assert (Hb : is_bits64 (Value_int i)) by (rewrite Value_int_eq; unfold is_bits64; lia).
  split; [exact Hb|]. rewrite firstByte3_top by exact Hb. rewrite Value_int_eq. lia.
Qed.

Lemma asInt32_int i : in_int32 i -> asInt32 (Value_int i) = i.
Proof. unfold in_int32, asInt32, to_int32, to_signed. rewrite Value_int_eq. cbn. lia. Qed.

Lemma Value_double_word d :
  0 <= d < DoubleInvalidBeginning ->
  Value_EncodeAsDouble d = d + 2 ^ 48 /\ is_bits64 (Value_EncodeAsDouble d) /\
  0 < firstByte3 (Value_EncodeAsDouble d) < 0xffff.
Proof.
  unfold DoubleInvalidBeginning. intros Hd.
  assert (He : Value_EncodeAsDouble d = d + 2 ^ 48).
  { unfold Value_EncodeAsDouble, to_unsigned, DoubleEncodeOffset. cbn. lia. }
  assert (Hb : is_bits64 (d + 2 ^ 48)) by (unfold is_bits64; lia).
  rewrite He. rewrite firstByte3_top by exact Hb. split; [reflexivity|]. split; [exact Hb|]. lia.
Qed.

Lemma asDouble_double d : 0 <= d < DoubleInvalidBeginning -> asDouble (Value_EncodeAsDouble d) = d.
Proof.
  intros Hd. destruct (Value_double_word d Hd) as (-> & _). unfold DoubleInvalidBeginning in Hd.
  unfold asDouble, to_unsigned, DoubleEncodeOffset. cbn. lia.
Qed.

Lemma kinds_encode r : wf_repr r -> kinds (encode r) = expected_kinds r.
Proof.
  intros Hr. destruct r as [i|d|p| | |b]; cbn [encode expected_kinds wf_repr] in *.
  - destruct (Value_int_word i) as [Hb Hf].
    destruct (high_not_immediate _ Hb ltac:(rewrite Value_int_eq; lia)) as (Hu & Hn & Hbo).
    unfold kinds, isDouble, isNumber, isInt32. rewrite isPointerValue_bits, Hf, Hu, Hn, Hbo. reflexivity.
  - destruct (Value_double_word d Hr) as (He & Hb & Hf).
    destruct (high_not_immediate _ Hb ltac:(lia)) as (Hu & Hn & Hbo).
    unfold kinds, isDouble, isNumber, isInt32. rewrite isPointerValue_bits, Hu, Hn, Hbo.
    rewrite !(proj2 (Z.eqb_neq (firstByte3 _) _)) by lia. reflexivity.
  - destruct Hr as [Hp H4]. assert (Hb : is_bits64 p) by (unfold is_bits64; lia).
    assert (Hf : firstByte3 p = 0) by (rewrite firstByte3_top by exact Hb; lia).
    assert (H1 : Z.testbit p 1 = false).
    { rewrite Z.testbit_false by lia. change (2 ^ 1) with 2. lia. }
    unfold kinds, isDouble, isNumber, isInt32, Value_pointer. rewrite isPointerValue_bits, Hf, H1.
    unfold isUndefined, isNull, isBoolean.
    rewrite (proj2 (Z.eqb_neq p ValueUndefined)), (proj2 (Z.eqb_neq p ValueNull)),
      (proj2 (Z.eqb_neq (Z.lor p _) ValueTrue)); [reflexivity| | |].
    + intros H. assert (Ht : Z.testbit (Z.lor p (Z.shiftl 1 TagTypeShift)) 1 = true) by (rewrite H; reflexivity).
      rewrite Z.lor_spec, H1 in Ht. discriminate.
    + intros ->. discriminate H1.
    + intros ->. discriminate H1.
  - reflexivity.
  - reflexivity.
  - destruct b; reflexivity.
Qed.

(** ** Numbers *)

Lemma isInt32Convertible_spec d :
  is_bits64 d ->
  (fst (isInt32ConvertibleDouble d) = true <-> exists i, in_int32 i /\ d = of_integer i) /\
  (fst (isInt32ConvertibleDouble d) = true -> d = of_integer (cast_int32 d)).
Proof.
  intros Hd. pose proof (cast_int32_range d) as Hr. unfold in_int32 in Hr.
  pose proof (feq_integer d (cast_int32 d) Hd ltac:(lia)) as Hfeq.
  assert (Hback : fst (isInt32ConvertibleDouble d) = true -> d = of_integer (cast_int32 d)).
  { cbn [isInt32ConvertibleDouble fst]. intros H. apply negb_true_iff, orb_false_iff in H as [H1 H2].
    apply negb_false_iff, Hfeq in H1. destruct H1 as [H1|[Hz ->]]; [exact H1|].
    rewrite Hz in H2. discriminate H2. }
  split; [|exact Hback]. split.
  - intros H. exists (cast_int32 d). split; [exact Hr|exact (Hback H)].
  - intros (i & Hi & ->). cbn [isInt32ConvertibleDouble fst]. rewrite (cast_of_integer i Hi) in *.
    rewrite (proj2 Hfeq) by (left; reflexivity). unfold in_int32 in Hi.
    destruct (of_integer_value i ltac:(lia)) as (_ & _ & _ & _ & ->).
    destruct (Z.eqb_spec i 0) as [->|]; reflexivity.
Qed.

Lemma invalid_beginning d :
  is_bits64 d -> (Z.land d DoubleInvalidBeginning =? DoubleInvalidBeginning) = (DoubleInvalidBeginning <=? d).
Proof.
  unfold is_bits64. intros Hd. change DoubleInvalidBeginning with (Z.shiftl (Z.ones 15) 49).
  assert (H : Z.land d (Z.shiftl (Z.ones 15) 49) = Z.shiftl (d / 2 ^ 49) 49).
  { rewrite <- (Z.mod_small (d / 2 ^ 49) (2 ^ 15)) by (cbn; lia).
    rewrite <- Z.land_ones, <- Z.shiftr_div_pow2 by lia. apply Z.bits_inj'. intros n Hn.
    rewrite Z.land_spec. destruct (Z.ltb_spec n 49).
    - rewrite !Z.shiftl_spec_low by lia. apply andb_false_r.
    - rewrite !Z.shiftl_spec, Z.land_spec, Z.shiftr_spec by lia. do 2 f_equal. lia. }
  rewrite H, !Z.shiftl_mul_pow2 by lia. change (Z.ones 15) with 32767.
  change (2 ^ 49) with 562949953421312. change (2 ^ 64) with 18446744073709551616 in Hd.
  apply Bool.eq_iff_eq_true. rewrite Z.eqb_eq, Z.leb_le. lia.
Qed.

Lemma invalid_is_nan d : is_bits64 d -> DoubleInvalidBeginning <= d -> isnan d = true.
Proof.
  unfold is_bits64, DoubleInvalidBeginning, isnan, exponentField, fractionField.
  change (2 ^ 64) with 18446744073709551616. change (2 ^ 52) with 4503599627370496. intros Hd H.
  assert (H1 : d / 4503599627370496 = 4095) by lia. rewrite H1. cbn.
  apply negb_true_iff, Z.eqb_neq. lia.
Qed.

Lemma is_bits64_quiet_NaN : is_bits64 quiet_NaN.
Proof. split; reflexivity || (intros H; discriminate H). Qed.

Lemma kinds_isInt32 r : wf_repr r -> isInt32 (encode r) = match r with RInt _ => true | _ => false end.
Proof. intros H. apply kinds_encode in H. unfold kinds in H. destruct r; cbn [expected_kinds] in H; congruence. Qed.

Lemma asNumber_int i : in_int32 i -> asNumber (Value_int i) = of_integer i.
Proof.
  intros Hi. unfold asNumber. change (Value_int i) with (encode (RInt i)).
  rewrite (kinds_isInt32 (RInt i) Hi). f_equal. exact (asInt32_int i Hi).
Qed.

Lemma asNumber_double d : 0 <= d < DoubleInvalidBeginning -> asNumber (Value_EncodeAsDouble d) = d.
Proof.
  intros Hd. unfold asNumber. change (Value_EncodeAsDouble d) with (encode (RDouble d)).
  rewrite (kinds_isInt32 (RDouble d) Hd). exact (asDouble_double d Hd).
Qed.

(** What [Value_double] makes: an integer or a double, by the pattern alone. *)
Lemma Value_double_cases d :
  is_bits64 d ->
  (exists i, in_int32 i /\ d = of_integer i /\ Value_double d = Value_int i) \/
  ((forall i, in_int32 i -> d <> of_integer i) /\ DoubleInvalidBeginning <= d /\
   Value_double d = Value_EncodeAsDouble quiet_NaN) \/
  ((forall i, in_int32 i -> d <> of_integer i) /\ 0 <= d < DoubleInvalidBeginning /\
   Value_double d = Value_EncodeAsDouble d).
Proof.
  intros Hd. destruct (isInt32Convertible_spec d Hd) as [Hiff Hback]. unfold Value_double.
  destruct (isInt32ConvertibleDouble d) as [c a] eqn:Hc.
  assert (Ha : a = cast_int32 d) by (unfold isInt32ConvertibleDouble in Hc; congruence).
  cbn [fst] in *. destruct c.
  - left. exists (cast_int32 d). rewrite Ha. split; [apply cast_int32_range|].
    split; [apply Hback, eq_refl|reflexivity].
  - right. assert (Hno : forall i, in_int32 i -> d <> of_integer i).
    { intros i Hi ->. assert (false = true) by (apply Hiff; eauto). discriminate. }
    rewrite (invalid_beginning d Hd). unfold is_bits64 in Hd.
    destruct (Z.leb_spec DoubleInvalidBeginning d); [left|right]; auto with lia.
Qed.

(** ** What values mean *)

(** Numbers of the language: one NaN, exact values, two zeros. *)
Inductive JSNumber := NaN | Num (v : Z) (minus_zero : bool).

Definition numberOf (d : Z) : JSNumber :=
  if isnan d then NaN else Num (scaled d) (d =? negative_zero).

Definition ignoreSign (n : JSNumber) : JSNumber :=
  match n with NaN => NaN | Num v _ => Num v false end.

Inductive JSValue :=
| JUndefined | JNull | JBoolean (b : bool) | JNumber (n : JSNumber) | JString (s : list Z)
| JBigInt (n : Z) | JSymbol (p : Z) | JObject (p : Z).

(** Two values are equal up to a relation on numbers. *)
Definition equal_up_to (N : JSNumber -> JSNumber -> Prop) (x y : JSValue) : Prop :=
  match x, y with
  | JNumber a, JNumber b => N a b
  | _, _ => x = y
  end.

Definition sameNumberZero (a b : JSNumber) : Prop := ignoreSign a = ignoreSign b.
Definition strictNumber (a b : JSNumber) : Prop := a <> NaN /\ b <> NaN /\ ignoreSign a = ignoreSign b.

Section Denotation.
Context {heap : Heap}.

Definition denote (r : repr) : JSValue :=
  match r with
  | RInt i => JNumber (numberOf (of_integer i))
  | RDouble d => JNumber (numberOf d)
  | RUndefined => JUndefined
  | RNull => JNull
  | RBool b => JBoolean b
  | RPointer p =>
    match pointee p with
    | StringPointer s => JString s
    | BigIntPointer n => JBigInt n
    | SymbolPointer => JSymbol p
    | ObjectPointer => JObject p
    end
  end.

(** The shape the three equalities share. *)
Definition equality (num : Z -> Z -> bool) (w val : Z) : bool :=
  if negb (isPointerValue val) then
    if isNumber w && isNumber val then num (asNumber w) (asNumber val) else w =? val
  else if w =? val then true
  else if negb (isPointerValue w) then false
  else pointersEqual (asPointerValue w) (asPointerValue val).

Lemma kinds_isPointer r :
  wf_repr r -> isPointerValue (encode r) = match r with RPointer _ => true | _ => false end.
Proof. intros H. apply kinds_encode in H. unfold kinds in H. destruct r; cbn [expected_kinds] in H; congruence. Qed.

Lemma kinds_isNumber r :
  wf_repr r -> isNumber (encode r) = match r with RInt _ | RDouble _ => true | _ => false end.
Proof.
  intros H. pose proof (kinds_encode r H) as Hk. unfold kinds, isDouble in Hk.
  destruct r; cbn [expected_kinds] in Hk; try (destruct (isNumber (encode _)), (isInt32 (encode _)); cbn in Hk; congruence).
  cbn [encode]. unfold isNumber. destruct (Value_int_word i) as [_ ->]. reflexivity.
Qed.

Lemma encode_inj r r' : wf_repr r -> wf_repr r' -> encode r = encode r' -> r = r'.
Proof.
  intros H H' He. pose proof (kinds_encode r H) as Hk. rewrite He, (kinds_encode r' H') in Hk.
  destruct r as [i|d|p| | |b], r' as [i'|d'|p'| | |b']; try discriminate Hk; cbn [encode wf_repr] in *;
    try reflexivity; f_equal.
  - rewrite <- (asInt32_int i H), He. apply asInt32_int, H'.
  - rewrite <- (asDouble_double d H), He. apply asDouble_double, H'.
  - exact He.
  - destruct b, b'; (reflexivity || discriminate He).
Qed.

(** The double behind a number. *)
Definition double_of (r : repr) : option Z :=
  match r with RInt i => Some (of_integer i) | RDouble d => Some d | _ => None end.

Lemma double_of_spec r d :
  wf_repr r -> double_of r = Some d ->
  asNumber (encode r) = d /\ is_bits64 d /\ denote r = JNumber (numberOf d).
Proof.
  intros Hw Hd. destruct r as [i|d0|p| | |b]; try discriminate Hd; injection Hd as <-; cbn [encode wf_repr] in *.
  - rewrite (asNumber_int i Hw). unfold in_int32 in Hw.
    destruct (of_integer_value i ltac:(lia)) as (Hb & _). auto.
  - rewrite (asNumber_double d0 Hw). unfold DoubleInvalidBeginning, is_bits64 in *. split; [reflexivity|].
    split; [lia|reflexivity].
Qed.

Lemma pointersEqual_spec p q :
  p <> q -> pointersEqual p q = true <-> denote (RPointer p) = denote (RPointer q).
Proof.
  intros Hne. unfold pointersEqual. cbn [denote].
  destruct (pointee p), (pointee q); try (split; [discriminate|congruence]).
  - rewrite bool_decide_eq_true. split; congruence.
  - rewrite Z.eqb_eq. split; congruence.
Qed.

Lemma equality_spec (num : Z -> Z -> bool) N r r' :
  (forall a b, is_bits64 a -> is_bits64 b -> num a b = true <-> N (numberOf a) (numberOf b)) ->
  wf_repr r -> wf_repr r' ->
  equality num (encode r) (encode r') = true <-> equal_up_to N (denote r) (denote r').
Proof.
  intros Hnum Hr Hr'. unfold equality.
  rewrite (kinds_isPointer r Hr), (kinds_isPointer r' Hr'), (kinds_isNumber r Hr), (kinds_isNumber r' Hr').
  assert (Heq : (encode r =? encode r') = true <-> r = r').
  { rewrite Z.eqb_eq. split; [apply encode_inj; assumption|congruence]. }
  destruct (double_of r) as [a|] eqn:Ha, (double_of r') as [b|] eqn:Hb.
  - destruct (double_of_spec r a Hr Ha) as (-> & Ba & ->).
    destruct (double_of_spec r' b Hr' Hb) as (-> & Bb & ->).
    destruct r, r'; try discriminate; apply Hnum; assumption.
  - destruct (double_of_spec r a Hr Ha) as (_ & _ & ->).
    destruct (encode r =? encode r'); [destruct (proj1 Heq eq_refl); congruence|].
    destruct r, r'; try discriminate; cbn; try (split; discriminate);
      destruct (pointee p); split; discriminate.
  - destruct (double_of_spec r' b Hr' Hb) as (_ & _ & ->).
    destruct (encode r =? encode r'); [destruct (proj1 Heq eq_refl); congruence|].
    destruct r, r'; try discriminate; cbn; try (split; discriminate);
      destruct (pointee p); split; discriminate.
  - destruct (encode r =? encode r') eqn:E.
    + rewrite (proj1 Heq eq_refl) in *. destruct r'; try discriminate; cbn; try tauto.
      destruct (pointee p); cbn; tauto.
    + assert (Hne : r <> r') by (intros H; discriminate (proj2 Heq H)).
      destruct r as [|?|p| | |b], r' as [|?|p'| | |b']; try discriminate; cbn [negb andb];
        try (split; [discriminate|cbn; congruence]);
        try (cbn; destruct (pointee _); split; congruence).
      cbn [encode]. unfold Value_pointer, asPointerValue. rewrite pointersEqual_spec by congruence.
      cbn [denote]. destruct (pointee p), (pointee p'); cbn; split; congruence.
Qed.
End Denotation.

(** ** Keys

    The meaning of a word up to the sign of a zero: what SameValueZero compares. *)

Definition decode (w : Z) : repr :=
  if isInt32 w then RInt (asInt32 w)
  else if isDouble w then RDouble (asDouble w)
  else if isPointerValue w then RPointer (asPointerValue w)
  else if isUndefined w then RUndefined
  else if isNull w then RNull
  else RBool (asBoolean w).

Lemma decode_encode r : wf_repr r -> decode (encode r) = r.
Proof.
  intros Hr. pose proof (kinds_encode r Hr) as K. unfold kinds in K. unfold decode.
  destruct r as [i|d|p| | |b]; cbn [expected_kinds encode wf_repr] in *.
  - injection K as K1 _ _ _ _ _. rewrite K1. f_equal. exact (asInt32_int i Hr).
  - injection K as K1 K2 _ _ _ _. rewrite K1, K2. f_equal. exact (asDouble_double d Hr).
  - injection K as K1 K2 K3 _ _ _. rewrite K1, K2, K3. reflexivity.
  - reflexivity.
  - reflexivity.
  - destruct b; reflexivity.
Qed.

Definition ignoreZeroSign (v : JSValue) : JSValue :=
  match v with JNumber n => JNumber (ignoreSign n) | _ => v end.

Definition keyOf {heap : Heap} (w : Z) : JSValue := ignoreZeroSign (denote (decode w)).

Lemma is_zero d : is_bits64 d -> magnitude d = 0 -> scaled d = 0 /\ isnan d = false.
Proof. intros Hd Hm. destruct (magnitude_zero d Hd Hm) as [->| ->]; split; reflexivity. Qed.

(** Equal doubles are the same number but for the sign of a zero. *)
Lemma numberOf_same_zero a b :
  is_bits64 a -> is_bits64 b ->
  (if isnan a || isnan b then isnan a && isnan b else feq a b) = true
  <-> sameNumberZero (numberOf a) (numberOf b).
Proof.
  intros Ha Hb. unfold sameNumberZero, numberOf. destruct (isnan a) eqn:Na, (isnan b) eqn:Nb;
    cbn [orb andb ignoreSign]; try (split; (reflexivity || discriminate)).
  unfold feq. rewrite Na, Nb. cbn [negb andb]. rewrite Z.eqb_eq. split; congruence.
Qed.

(** SameValueZero compares keys. *)
Lemma keyOf_spec {heap : Heap} v w :
  valid v -> valid w ->
  equalsToByTheSameValueZeroAlgorithm v w = true <-> keyOf v = keyOf w.
Proof.
  intros (r & Hr & ->) (r' & Hr' & ->). unfold keyOf. rewrite (decode_encode r Hr), (decode_encode r' Hr').
  rewrite (equality_spec _ _ r r' numberOf_same_zero Hr Hr' : equalsToByTheSameValueZeroAlgorithm _ _ = true <-> _).
  destruct (denote r), (denote r'); cbn; unfold sameNumberZero; split; congruence.
Qed.

Lemma numberOf_strict a b :
  is_bits64 a -> is_bits64 b ->
  (if isnan a || isnan b then false else feq a b) = true
  <-> strictNumber (numberOf a) (numberOf b).
Proof.
  intros Ha Hb. pose proof (numberOf_same_zero a b Ha Hb) as H. unfold strictNumber, sameNumberZero in *.
  unfold numberOf in *. destruct (isnan a) eqn:Na, (isnan b) eqn:Nb; cbn [orb andb] in *;
    try (split; [discriminate|intros (H1 & H2 & _); congruence]).
  rewrite H. split; [|tauto]. intros E. repeat split; (discriminate || assumption).
Qed.

Lemma numberOf_same a b :
  is_bits64 a -> is_bits64 b ->
  (if isnan a || isnan b then isnan a && isnan b else feq a b && Bool.eqb (signbit a) (signbit b)) = true
  <-> numberOf a = numberOf b.
Proof.
  intros Ha Hb. unfold numberOf. destruct (isnan a) eqn:Na, (isnan b) eqn:Nb; cbn [orb andb];
    try (split; (reflexivity || discriminate)).
  split.
  - intros H. apply andb_prop in H as [H Hs]. apply feq_spec in H as [->|[Ma Mb]]; try assumption; [reflexivity|].
    apply Bool.eqb_prop in Hs.
    destruct (magnitude_zero a Ha Ma) as [->| ->], (magnitude_zero b Hb Mb) as [->| ->];
      (reflexivity || discriminate Hs).
  - intros H. injection H as Hv Hz. unfold feq. rewrite Na, Nb, Hv, Z.eqb_refl. cbn [negb andb].
    destruct (scaled_inj a b Ha Hb Hv) as [->|[Ma Mb]]; [apply Bool.eqb_reflx|].
    destruct (magnitude_zero a Ha Ma) as [->| ->], (magnitude_zero b Hb Mb) as [->| ->];
      (reflexivity || discriminate Hz).
Qed.

(** ** [toInt32SlowCase] *)

(** The integer part of a double with a normal exponent. *)
Lemma truncated_normal d :
  is_bits64 d -> 1023 <= exponentField d ->
  let m := 2 ^ 52 + fractionField d in
  let e := exponentField d - 1023 in
  let t := if 52 <? e then m * 2 ^ (e - 52) else m / 2 ^ (52 - e) in
  truncated d = if signbit d then - t else t.
Proof.
  intros Hd He m e t.
  assert (Hm : magnitude d ÷ 2 ^ 1074 = t).
  { unfold magnitude. rewrite (proj2 (Z.eqb_neq (exponentField d) 0)) by lia. fold m. unfold t.
    pose proof (fields_range d). destruct (Z.ltb_spec 52 e).
    - replace (exponentField d - 1) with ((e - 52) + 1074) by (unfold e; lia).
      rewrite Z.pow_add_r, Z.mul_assoc by lia. apply Z.quot_mul. apply Z.pow_nonzero; lia.
    - replace 1074 with ((52 - e) + (exponentField d - 1)) by (unfold e; lia).
      rewrite (Z.pow_add_r 2 (52 - e)) by (unfold e in *; lia).
      rewrite Z.quot_mul_cancel_r by (apply Z.pow_nonzero; unfold e in *; lia).
      apply Z.quot_div_nonneg; [unfold m; lia|]. apply Z.pow_pos_nonneg; unfold e in *; lia. }
  unfold truncated, scaled. destruct (signbit d); [|exact Hm].
  rewrite Z.quot_opp_l, Hm by (apply Z.pow_nonzero; lia). reflexivity.
Qed.

Lemma to_int32_add x k : to_int32 (x + k * 2 ^ 32) = to_int32 x.
Proof. unfold to_int32, to_signed. cbn. lia. Qed.

Lemma to_int32_congruent x y k : x = y + k * 2 ^ 32 -> to_int32 x = to_int32 y.
Proof. intros ->. apply to_int32_add. Qed.

Lemma to_int32_opp x : to_int32 (- to_int32 x) = to_int32 (- x).
Proof.
  destruct (to_int32_congr x) as [k Hk]. apply (to_int32_congruent _ _ (- k)). lia.
Qed.

Lemma truncated_small d : exponentField d < 1023 -> truncated d = 0.
Proof.
  intros He. assert (Hm : magnitude d < 2 ^ 1074).
  { change (2 ^ 1074) with (1 * 2 ^ 1074).
    destruct (of_magnitude_value 1 0 ltac:(lia) (or_introl eq_refl)) as (_ & _ & _ & <- & _).
    apply magnitude_lt. exact He. }
  pose proof (magnitude_nonneg d). unfold truncated, scaled. case_if.
  - rewrite Z.quot_opp_l by (apply Z.pow_nonzero; lia). rewrite Z.quot_small by lia. reflexivity.
  - apply Z.quot_small. lia.
Qed.

(** The signed pattern and its exponent. *)
Lemma signed_bits d :
  is_bits64 d ->
  to_signed 64 d = (exponentField d - (if signbit d then 2048 else 0)) * 2 ^ 52 + fractionField d.
Proof.
  intros Hd. pose proof (bits_split d Hd) as Hs. pose proof (fields_range d).
  unfold is_bits64, to_signed in *.
  destruct (signbit d); change (2 ^ 63) with 9223372036854775808 in *;
    change (2 ^ (64 - 1)) with 9223372036854775808 in *;
    change (2 ^ 64) with 18446744073709551616 in *; change (2 ^ 52) with 4503599627370496 in *; lia.
Qed.

Lemma exponent_of_bits d :
  is_bits64 d -> Z.land (to_int32 (Z.shiftr (to_signed 64 d) 52)) 0x7ff = exponentField d.
Proof.
  intros Hd. pose proof (fields_range d). rewrite (signed_bits d Hd), Z.shiftr_div_pow2 by lia.
  change 0x7ff with (Z.ones 11). rewrite Z.land_ones, to_int32_id by
    (try (unfold in_int32; destruct (signbit d); change (2 ^ 52) with 4503599627370496 in *; cbn; lia); lia).
  change (2 ^ 11) with 2048. change (2 ^ 52) with 4503599627370496 in *. destruct (signbit d); lia.
Qed.

(** The bits selected from the pattern are the low bits of the integer part. *)
Lemma selected_high bits E f k :
  bits = E * 2 ^ 52 + f -> 0 <= k ->
  to_int32 (Z.shiftl bits k) = to_int32 ((2 ^ 52 + f) * 2 ^ k).
Proof.
  intros -> Hk. rewrite Z.shiftl_mul_pow2 by lia.
  apply (to_int32_congruent _ _ ((E - 1) * 2 ^ 20 * 2 ^ k)).
  change (2 ^ 52) with (2 ^ 20 * 2 ^ 32). ring.
Qed.

Lemma shiftr_split bits E f e :
  bits = E * 2 ^ 52 + f -> 0 <= e <= 52 ->
  Z.shiftr bits (52 - e) = E * 2 ^ e + f / 2 ^ (52 - e).
Proof.
  intros -> He. rewrite Z.shiftr_div_pow2 by lia.
  replace (2 ^ 52) with (2 ^ e * 2 ^ (52 - e)) by (rewrite <- Z.pow_add_r by lia; f_equal; lia).
  rewrite Z.mul_assoc, Z.div_add_l by (apply Z.pow_nonzero; lia). reflexivity.
Qed.

Lemma fraction_shifted f e :
  0 <= f < 2 ^ 52 -> 0 <= e <= 52 ->
  (2 ^ 52 + f) / 2 ^ (52 - e) = 2 ^ e + f / 2 ^ (52 - e) /\ 0 <= f / 2 ^ (52 - e) < 2 ^ e.
Proof.
  intros Hf He. assert (Hp : 0 < 2 ^ (52 - e)) by (apply Z.pow_pos_nonneg; lia).
  assert (Hs : 2 ^ 52 = 2 ^ e * 2 ^ (52 - e)) by (rewrite <- Z.pow_add_r by lia; f_equal; lia).
  split.
  - rewrite Hs at 1. rewrite Z.div_add_l by lia. reflexivity.
  - split; [apply Z.div_pos; lia|]. apply Z.div_lt_upper_bound; [exact Hp|]. rewrite Z.mul_comm, <- Hs. lia.
Qed.

Lemma selected_middle bits E f e :
  bits = E * 2 ^ 52 + f -> 0 <= f < 2 ^ 52 -> 32 <= e <= 52 ->
  to_int32 (Z.shiftr bits (52 - e)) = to_int32 ((2 ^ 52 + f) / 2 ^ (52 - e)).
Proof.
  intros Hb Hf He. rewrite (shiftr_split bits E f e Hb ltac:(lia)).
  destruct (fraction_shifted f e Hf ltac:(lia)) as [-> _].
  apply (to_int32_congruent _ _ ((E - 1) * 2 ^ (e - 32))).
  rewrite <- Z.mul_assoc, <- Z.pow_add_r by lia. replace (e - 32 + 32) with e by lia. ring.
Qed.

Lemma selected_low bits E f e :
  bits = E * 2 ^ 52 + f -> 0 <= f < 2 ^ 52 -> 0 <= e < 32 ->
  to_int32 (Z.land (to_int32 (Z.shiftr bits (52 - e))) (to_int32 (to_int32 (Z.shiftl 1 e) - 1))
            + to_int32 (Z.shiftl 1 e))
  = to_int32 ((2 ^ 52 + f) / 2 ^ (52 - e)).
Proof.
  intros Hb Hf He. rewrite (shiftr_split bits E f e Hb ltac:(lia)).
  destruct (fraction_shifted f e Hf ltac:(lia)) as [-> Hlow].
  rewrite Z.shiftl_1_l.
  assert (Hmask : to_int32 (to_int32 (2 ^ e) - 1) = Z.ones e).
  { rewrite Z.ones_equiv. destruct (to_int32_congr (2 ^ e)) as [c Hc].
    rewrite (to_int32_congruent _ (2 ^ e - 1) c) by lia. apply to_int32_id. unfold in_int32.
    assert (2 ^ e <= 2 ^ 31) by (apply Z.pow_le_mono_r; lia).
    assert (0 < 2 ^ e) by (apply Z.pow_pos_nonneg; lia). lia. }
  rewrite Hmask, Z.land_ones by lia.
  destruct (to_int32_congr (E * 2 ^ e + f / 2 ^ (52 - e))) as [k Hk].
  assert (Hmod : to_int32 (E * 2 ^ e + f / 2 ^ (52 - e)) mod 2 ^ e = f / 2 ^ (52 - e)).
  { rewrite Hk. replace (2 ^ 32) with (2 ^ (32 - e) * 2 ^ e) by (rewrite <- Z.pow_add_r by lia; f_equal; lia).
    replace (E * 2 ^ e + f / 2 ^ (52 - e) + k * (2 ^ (32 - e) * 2 ^ e))
      with (f / 2 ^ (52 - e) + (E + k * 2 ^ (32 - e)) * 2 ^ e) by ring.
    rewrite Z.mod_add by lia. apply Z.mod_small. exact Hlow. }
  rewrite Hmod. destruct (to_int32_congr (2 ^ e)) as [c Hc].
  apply (to_int32_congruent _ _ c). lia.
Qed.

Lemma toInt32SlowCase_spec d :
  is_bits64 d ->
  toInt32SlowCase d = if isnan d || isinf d then 0 else to_int32 (truncated d).
Proof.
  intros Hd. pose proof (fields_range d) as [HE Hf]. unfold toInt32SlowCase.
  rewrite (exponent_of_bits d Hd). set (e := exponentField d - 0x3ff).
  pose proof (signed_bits d Hd) as Hb. set (E := exponentField d - _) in Hb.
  set (bits := to_signed 64 d) in *.
  assert (Hsign : (bits <? 0) = signbit d).
  { apply Bool.eq_iff_eq_true. rewrite Z.ltb_lt, Hb. unfold E. change (2 ^ 52) with 4503599627370496 in *.
    destruct (signbit d); split; intros; (reflexivity || discriminate || lia). }
  assert (Hfin : exponentField d <> 2047 -> isnan d || isinf d = false).
  { intros H. unfold isnan, isinf. rewrite (proj2 (Z.eqb_neq _ _) H). reflexivity. }
  destruct (Z.ltb_spec e 0) as [He|He]; cbn [orb].
  { rewrite Hfin by lia. rewrite truncated_small by (unfold e in He; lia). reflexivity. }
  destruct (Z.ltb_spec 83 e) as [He83|He83].
  { destruct (Z.eq_dec (exponentField d) 2047) as [E2047|Hne].
    - unfold isnan, isinf. rewrite E2047. destruct (fractionField d =? 0); reflexivity.
    - rewrite (Hfin Hne), (truncated_normal d Hd) by (unfold e in *; lia). fold e.
      rewrite (proj2 (Z.ltb_lt 52 e)) by lia.
      replace (e - 52) with ((e - 84) + 32) by lia. rewrite Z.pow_add_r by lia.
      set (m := 2 ^ 52 + fractionField d). symmetry. destruct (signbit d).
      + change 0 with (to_int32 0). apply (to_int32_congruent _ _ (- (m * 2 ^ (e - 84)))). ring.
      + change 0 with (to_int32 0). apply (to_int32_congruent _ _ (m * 2 ^ (e - 84))). ring. }
  rewrite Hfin, (truncated_normal d Hd) by (unfold e in *; lia). fold e.
  set (t := if 52 <? e then _ else _ / _).
  match goal with |- (if _ then _ else ?r) = _ => assert (Hr : r = to_int32 t) end.
  { unfold t. destruct (Z.ltb_spec 52 e).
    - rewrite (proj2 (Z.ltb_ge e 32)) by lia. apply (selected_high bits E); [exact Hb|lia].
    - destruct (Z.ltb_spec e 32).
      + apply (selected_low bits E); [exact Hb|exact Hf|lia].
      + apply (selected_middle bits E); [exact Hb|exact Hf|lia]. }
  rewrite Hr, Hsign. destruct (signbit d); [apply to_int32_opp|reflexivity].
Qed.

(** ** The theorems *)

(** The encoding of values into words is unambiguous: for every 32-bit integer,
    double below the reserved patterns, block address, undefined, null and boolean,
    exactly one of the six queries answers yes, the accessor gives back what was
    encoded, and different things have different words. *)
Theorem value_encoding r :
  wf_repr r ->
  kinds (encode r) = expected_kinds r /\
  match r with
  | RInt i => asInt32 (encode r) = i
  | RDouble d => asDouble (encode r) = d
  | RPointer p => asPointerValue (encode r) = p
  | RBool b => asBoolean (encode r) = b
  | _ => True
  end /\
  (forall r', wf_repr r' -> encode r = encode r' -> r = r').
Proof.
  intros Hr. split; [exact (kinds_encode r Hr)|]. split; [|intros r' Hr'; exact (encode_inj r r' Hr Hr')].
  destruct r as [i|d|p| | |b]; try exact I.
  - exact (asInt32_int i Hr).
  - exact (asDouble_double d Hr).
  - reflexivity.
  - destruct b; reflexivity.
Qed.

Lemma value_encoding_witness :
  kinds (Value_int (-7)) = (true, false, false, false, false, false) /\ asInt32 (Value_int (-7)) = -7.
Proof.
  destruct (value_encoding (RInt (-7))) as (Hk & Ha & _).
  - unfold wf_repr, in_int32. lia.
  - split; [exact Hk|exact Ha].
Defined.

(** Building a value from any double gives a well-formed value of the same
    number: an integer value exactly for the doubles that are a 32-bit integer other
    than -0, the double itself otherwise, except that the NaN patterns which the
    encoding has no room for become the quiet NaN. *)
Theorem value_of_double d :
  is_bits64 d ->
  valid (Value_double d) /\ isNumber (Value_double d) = true /\
  (isInt32 (Value_double d) = true <-> exists i, in_int32 i /\ d = of_integer i) /\
  (asNumber (Value_double d) = d \/
   isnan d = true /\ DoubleInvalidBeginning <= d /\ asNumber (Value_double d) = quiet_NaN).
Proof.
  intros Hd. destruct (Value_double_cases d Hd) as [(i & Hi & -> & ->)|[(Hno & Hinv & ->)|(Hno & Hr & ->)]].
  - split; [exists (RInt i); auto|]. rewrite (asNumber_int i Hi).
    change (Value_int i) with (encode (RInt i)). rewrite (kinds_isNumber (RInt i) Hi), (kinds_isInt32 (RInt i) Hi).
    split; [reflexivity|]. split; [|auto]. split; eauto.
  - assert (Hq : wf_repr (RDouble quiet_NaN)) by (split; [discriminate|reflexivity]).
    split; [exists (RDouble quiet_NaN); auto|]. rewrite (asNumber_double quiet_NaN Hq).
    change (Value_EncodeAsDouble quiet_NaN) with (encode (RDouble quiet_NaN)).
    rewrite (kinds_isNumber _ Hq), (kinds_isInt32 _ Hq). split; [reflexivity|]. split.
    + split; [discriminate|]. intros (i & Hi & He). destruct (Hno i Hi He).
    + right. split; [exact (invalid_is_nan d Hd Hinv)|auto].
  - split; [exists (RDouble d); auto|]. rewrite (asNumber_double d Hr).
    change (Value_EncodeAsDouble d) with (encode (RDouble d)).
    rewrite (kinds_isNumber (RDouble d) Hr), (kinds_isInt32 (RDouble d) Hr). split; [reflexivity|]. split; [|auto].
    split; [discriminate|]. intros (i & Hi & He). destruct (Hno i Hi He).
Qed.

Lemma value_of_double_witness :
  asNumber (Value_double negative_zero) = negative_zero /\ isInt32 (Value_double negative_zero) = false.
Proof.
  destruct (value_of_double negative_zero) as (_ & _ & _ & [H|[H _]]).
  - split; (reflexivity || intros H; discriminate H).
  - split; [exact H|reflexivity].
  - discriminate H.
Defined.

(** C17: the three equalities of values are those of the language, on values as
    well as on the patterns that stand for them (an integer and the equal double,
    two strings with the same units, two NaN patterns): SameValue is identity of the
    meanings, SameValueZero is identity up to the sign of a zero, and strict
    equality is that except that NaN equals nothing. *)
Theorem equalities_correct (heap : Heap) r r' :
  wf_repr r -> wf_repr r' ->
  (equalsToByTheSameValueAlgorithm (encode r) (encode r') = true <-> denote r = denote r') /\
  (equalsToByTheSameValueZeroAlgorithm (encode r) (encode r') = true
   <-> equal_up_to sameNumberZero (denote r) (denote r')) /\
  (equalsTo (encode r) (encode r') = true <-> equal_up_to strictNumber (denote r) (denote r')).
Proof.
  intros Hr Hr'.
  pose proof (equality_spec _ _ r r' numberOf_same Hr Hr') as Hsame.
  pose proof (equality_spec _ _ r r' numberOf_same_zero Hr Hr') as Hzero.
  pose proof (equality_spec _ _ r r' numberOf_strict Hr Hr') as Hstrict.
  split; [|split; [exact Hzero|]].
  - change (equalsToByTheSameValueAlgorithm (encode r) (encode r')) with
      (equality (fun a b => if isnan a || isnan b then isnan a && isnan b
                            else feq a b && Bool.eqb (signbit a) (signbit b)) (encode r) (encode r')).
    rewrite Hsame. destruct (denote r), (denote r'); cbn; split; congruence.
  - unfold equalsTo. rewrite (kinds_isInt32 r Hr), (kinds_isInt32 r' Hr').
    destruct r as [i|d|p| | |b], r' as [i'|d'|p'| | |b']; try exact Hstrict. cbn [andb].
    rewrite Z.eqb_eq. cbn [denote equal_up_to]. cbn [wf_repr] in *. unfold in_int32 in *.
    destruct (of_integer_value i ltac:(lia)) as (Hb & Hn & _).
    destruct (of_integer_value i' ltac:(lia)) as (Hb' & Hn' & _).
    rewrite <- (numberOf_strict _ _ Hb Hb'), Hn, Hn'. cbn [orb].
    rewrite (feq_integer (of_integer i') i Hb' ltac:(lia)). split.
    + intros He. apply (encode_inj (RInt i) (RInt i')) in He; try assumption. left. congruence.
    + intros [He|[-> He]].
      * apply of_integer_inj in He; [|lia|lia]. subst. reflexivity.
      * destruct (of_integer_value i' ltac:(lia)) as (_ & _ & _ & _ & Hs). rewrite He in Hs.
        change (signbit negative_zero) with true in Hs. symmetry in Hs. apply Z.ltb_lt in Hs.
        assert (Hm : scaled (of_integer i') = 0) by (rewrite He; reflexivity).
        destruct (of_integer_value i' ltac:(lia)) as (_ & _ & _ & Hv & _). rewrite Hm in Hv.
        assert (0 < 2 ^ 1074) by (apply Z.pow_pos_nonneg; lia).
        set (p := 2 ^ 1074) in *. clearbody p. nia.
Qed.

Lemma equalities_correct_witness :
  let heap : Heap := fun _ => ObjectPointer in
  equalsToByTheSameValueZeroAlgorithm (Value_int 0) (Value_EncodeAsDouble negative_zero) = true.
Proof.
  intros heap.
  destruct (equalities_correct heap (RInt 0) (RDouble negative_zero)) as (_ & H & _).
  - unfold wf_repr, in_int32. lia.
  - split; [discriminate|reflexivity].
  - apply H. reflexivity.
Defined.

(** The numbers of the values that are not pointers. *)
Definition ToNumber (r : repr) : Z :=
  match r with
  | RInt i => of_integer i
  | RDouble d => d
  | RBool true => of_integer 1
  | RUndefined => quiet_NaN
  | _ => 0
  end.

Definition ToInt32 (d : Z) : Z := if isnan d || isinf d then 0 else to_int32 (truncated d).

(** [toInt32], which selects bits of the pattern of a double by shifts and
    masks, is the integer part modulo 2 ^ 32 for every number, and 0 for NaN and the
    infinities; undefined, null and booleans are converted first. *)
Theorem toInt32_correct r :
  wf_repr r -> (forall p, r <> RPointer p) ->
  toNumber (encode r) = Some (ToNumber r) /\ toInt32 (encode r) = Some (ToInt32 (ToNumber r)).
Proof.
  intros Hr Hp. assert (Hn : toNumber (encode r) = Some (ToNumber r)).
  { unfold toNumber. rewrite land_TagTypeNumber.
    destruct r as [i|d|p| | |b]; cbn [encode ToNumber wf_repr] in *; try reflexivity.
    - destruct (Value_int_word i) as [_ ->]. rewrite (asInt32_int i Hr). reflexivity.
    - destruct (Value_double_word d Hr) as (_ & _ & Hf). rewrite Z.shiftl_mul_pow2 by lia.
      unfold TagTypeNumber. change (2 ^ 48) with 281474976710656.
      rewrite (proj2 (Z.eqb_neq (firstByte3 _ * _) 0)), (proj2 (Z.eqb_neq (firstByte3 _ * _) _)) by lia.
      cbn [negb]. rewrite (asDouble_double d Hr). reflexivity.
    - destruct (Hp p eq_refl).
    - destruct b; reflexivity. }
  split; [exact Hn|]. unfold toInt32. rewrite (kinds_isInt32 r Hr), Hn.
  destruct r as [i|d|p| | |b]; cbn [option_map ToNumber encode].
  - rewrite (asInt32_int i Hr). cbn in Hr. unfold in_int32 in Hr.
    destruct (of_integer_value i ltac:(lia)) as (_ & Na & Ni & Hs & _).
    unfold ToInt32. rewrite Na, Ni, (truncated_integer _ _ Hs). cbn [orb].
    rewrite to_int32_id by exact Hr. reflexivity.
  - rewrite toInt32SlowCase_spec; [reflexivity|]. cbn in Hr. unfold DoubleInvalidBeginning, is_bits64 in *. lia.
  - destruct (Hp p eq_refl).
  - reflexivity.
  - reflexivity.
  - destruct b; reflexivity.
Qed.

Lemma toInt32_correct_witness :
  toInt32 (encode (RDouble (of_integer (-4294967299)))) = Some (-3).
Proof.
  destruct (toInt32_correct (RDouble (of_integer (-4294967299)))) as [_ H].
  - split; [discriminate|reflexivity].
  - intros p. discriminate.
  - exact H.
Defined.
