(* ===== verification/EncodedValue.v ===== *)
(** * Values stored in objects ([runtime/EncodedValue.h])

    An [EncodedValue] is one pointer-sized payload: a 31-bit integer shifted up
    with bit 0 set, an immediate, a pointer, or the address of a
    [NumberInEncodedValue] cell that holds any other number.  Assigning a number
    to a slot that already has a cell writes into the cell, so the cells are a
    store and slots can share them. *)

From stdpp Require Import gmap.
From S2P Require Import Prelude Float64 Ieee754 Value.
Local Open Scope Z_scope.
Local Open Scope esc_scope.

(** ** Small integers *)

Definition kSmiTag : Z := 1.
Definition HAS_SMI_TAG (payload : Z) : bool := Z.land payload 1 =? kSmiTag.
Definition IsValidSmi (value : Z) : bool := to_unsigned 64 (value + 0x40000000) <? 0x80000000.
Definition IntToSmi (value : Z) : Z :=
  to_int32 (Z.lor (to_unsigned 64 (Z.shiftl (to_unsigned 64 value) 1)) kSmiTag).
Definition SmiToInt (payload : Z) : Z := to_int32 (Z.shiftr payload 1).

(** ** The cells *)

(** The cells with the words they hold, and the addresses of the other blocks
    (strings, symbols, BigInts, objects). *)
Record Memory := { numbers : gmap Z Z; objects : gset Z }.

Inductive OutOfMemory : Set := outOfMemory.

Abbreviation EM := (M Memory OutOfMemory).

Definition readPointerIsNumberEncodedValue (m : Memory) (p : Z) : bool :=
  bool_decide (is_Some (numbers m !! p)).

Definition setCell (p w : Z) (m : Memory) : Memory :=
  {| numbers := <[p := w]> (numbers m); objects := objects m |}.

(** [toValue]; the flag is [shouldTreatEmptyAsUndefined]. *)
Definition toValue (shouldTreatEmptyAsUndefined : bool) (payload : Z) (m : Memory) : Z :=
  if HAS_SMI_TAG payload then Value_int (SmiToInt payload)
  else if to_unsigned 64 payload <=? ValueLast then
    if shouldTreatEmptyAsUndefined && (payload =? ValueEmpty) then ValueUndefined
    else Value_pointer payload
  else match numbers m !! payload with
       | Some w => w
       | None => Value_pointer payload
       end.

Section Allocation.
(** The collector's allocator: the address of a new block, if there is room. *)
Context (alloc : Memory -> option Z).

(** [new NumberInEncodedValue(v)]. *)
Definition newNumberInEncodedValue (v : Z) : EM Z :=
  fun m => match alloc m with
           | Some p => (Ret p, setCell p v m)
           | None => (Throw outOfMemory, m)
           end.

(** [fromValueForCtor], the constructor. *)
Definition fromValueForCtor (from : Z) : EM Z :=
  if isPointerValue from then ret (asPointerValue from)
  else if isInt32 from && IsValidSmi (asInt32 from) then ret (IntToSmi (asInt32 from))
  else if isNumber from then
    let '(convertible, i32) := isInt32ConvertibleDouble (asNumber from) in
    if convertible && IsValidSmi i32 then ret (IntToSmi i32)
    else newNumberInEncodedValue from
  else ret from.

(** The constructor from a [uint32_t]. *)
Definition fromUint32 (from : Z) : EM Z :=
  if IsValidSmi from then ret (IntToSmi from) else fromValueForCtor (Value_unsigned from).

(** [operator=(const Value&)]: [payload] is the slot's old payload, the answer
    its new one. *)
Definition assign (payload from : Z) : EM Z :=
  if isPointerValue from then ret (asPointerValue from)
  else if isInt32 from && IsValidSmi (asInt32 from) then ret (IntToSmi (asInt32 from))
  else if isNumber from then
    let '(convertible, i32) := isInt32ConvertibleDouble (asNumber from) in
    let mutableFrom := if convertible then Value_int i32 else from in
    let! shared := gets (fun m =>
      negb (HAS_SMI_TAG payload) && (ValueLast <? to_unsigned 64 payload)
      && readPointerIsNumberEncodedValue m payload) in
    if shared : bool then do! modify (setCell payload mutableFrom) in ret payload
    else newNumberInEncodedValue mutableFrom
  else ret from.
End Allocation.

(** ** Small integers come back *)

Lemma IsValidSmi_spec i : in_int32 i -> IsValidSmi i = (- 2 ^ 30 <=? i) && (i <? 2 ^ 30).
Proof.
  unfold in_int32, IsValidSmi, to_unsigned. intros Hi. apply Bool.eq_iff_eq_true.
  rewrite andb_true_iff, Z.leb_le, !Z.ltb_lt. cbn. lia.
Qed.

Lemma lor_1_even z : Z.lor (2 * z) 1 = 2 * z + 1.
Proof.
  rewrite <- Z.add_lor_land. replace (Z.land (2 * z) 1) with 0; [lia|].
  symmetry. change 1 with (Z.ones 1). rewrite Z.land_ones by lia. change (2 ^ 1) with 2. lia.
Qed.

Lemma IntToSmi_eq i : - 2 ^ 30 <= i < 2 ^ 30 -> IntToSmi i = 2 * i + 1.
Proof.
  intros Hi. unfold IntToSmi, kSmiTag, to_unsigned. rewrite Z.shiftl_mul_pow2 by lia.
  change (2 ^ 1) with 2. change (2 ^ 64) with 18446744073709551616.
  replace ((i mod 18446744073709551616 * 2) mod 18446744073709551616)
    with (2 * (i mod 9223372036854775808)) by lia.
  rewrite lor_1_even. unfold to_int32, to_signed. cbn. lia.
Qed.

Lemma smi_roundtrip i :
  - 2 ^ 30 <= i < 2 ^ 30 -> HAS_SMI_TAG (IntToSmi i) = true /\ SmiToInt (IntToSmi i) = i.
Proof.
  intros Hi. rewrite (IntToSmi_eq i Hi). unfold HAS_SMI_TAG, SmiToInt, kSmiTag. split.
  - apply Z.eqb_eq. change 1 with (Z.ones 1) at 2. rewrite Z.land_ones by lia. change (2 ^ 1) with 2. lia.
  - rewrite Z.shiftr_div_pow2 by lia. change (2 ^ 1) with 2.
    rewrite to_int32_id; [lia|]. unfold in_int32. lia.
Qed.

Lemma even_no_tag p : p mod 2 = 0 -> HAS_SMI_TAG p = false.
Proof.
  intros H. unfold HAS_SMI_TAG, kSmiTag. change 1 with (Z.ones 1) at 1.
  rewrite Z.land_ones by lia. change (2 ^ 1) with 2. rewrite H. reflexivity.
Qed.

(** ** Well-formed memories and payloads *)

(** Cells hold numbers; cells and other blocks are apart. *)
Definition memory_ok (m : Memory) : Prop :=
  (forall p w, numbers m !! p = Some w ->
     is_address p /\ exists r, wf_repr r /\ double_of r <> None /\ w = encode r) /\
  (forall p, p ∈ objects m -> is_address p /\ numbers m !! p = None).

(** The values a slot can be given: those of a script, with pointers to known
    blocks, and the empty value. *)
Definition storable (m : Memory) (v : Z) : Prop :=
  v = ValueEmpty \/
  exists r, wf_repr r /\ v = encode r /\ forall p, r = RPointer p -> p ∈ objects m.

(** The payloads a slot can hold. *)
Definition payload_ok (m : Memory) (q : Z) : Prop :=
  (exists i, - 2 ^ 30 <= i < 2 ^ 30 /\ q = IntToSmi i) \/
  In q [ValueEmpty; ValueFalse; ValueTrue; ValueNull; ValueUndefined] \/
  (is_address q /\ (is_Some (numbers m !! q) \/ q ∈ objects m)).

(** Reading back [v] as [v']: itself, or an integer for the equal double. *)
Definition same_stored (v v' : Z) : Prop :=
  v' = v \/ exists i, in_int32 i /\ v = Value_EncodeAsDouble (of_integer i) /\ v' = Value_int i.

Lemma toValue_smi b i m : - 2 ^ 30 <= i < 2 ^ 30 -> toValue b (IntToSmi i) m = Value_int i.
Proof. intros Hi. unfold toValue. destruct (smi_roundtrip i Hi) as [-> ->]. reflexivity. Qed.

Lemma toValue_address b p m :
  is_address p -> toValue b p m = match numbers m !! p with Some w => w | None => p end.
Proof.
  intros [Hp H4]. unfold toValue. rewrite even_no_tag by lia.
  replace (to_unsigned 64 p <=? ValueLast) with false; [reflexivity|].
  symmetry. apply Z.leb_gt. unfold to_unsigned. change ValueLast with 14. cbn. lia.
Qed.

Lemma toValue_immediate p m :
  In p [ValueEmpty; ValueFalse; ValueTrue; ValueNull; ValueUndefined] -> toValue false p m = p.
Proof. intros [<-|[<-|[<-|[<-|[<-|[]]]]]]; reflexivity. Qed.

(** Writing a cell is seen by the slots that hold its address only. *)
Lemma toValue_frame b p w m q :
  payload_ok m q -> q <> p -> toValue b q (setCell p w m) = toValue b q m.
Proof.
  intros Hq Hne. destruct Hq as [(i & Hi & ->)|[Him|[Ha _]]].
  - rewrite !toValue_smi by exact Hi. reflexivity.
  - destruct Him as [<-|[<-|[<-|[<-|[<-|[]]]]]]; reflexivity.
  - rewrite !toValue_address by exact Ha. cbn [setCell numbers].
    rewrite lookup_insert_ne by congruence. reflexivity.
Qed.

Lemma memory_ok_setCell p r m :
  memory_ok m -> is_address p -> p ∉ objects m -> wf_repr r -> double_of r <> None ->
  memory_ok (setCell p (encode r) m).
Proof.
  intros [Hn Ho] Hp Hno Hr Hd. split; cbn [setCell numbers objects].
  - intros q w. destruct (decide (q = p)) as [->|Hne].
    + rewrite lookup_insert_eq. intros H. injection H as <-. eauto.
    + rewrite lookup_insert_ne by congruence. apply Hn.
  - intros q Hq. destruct (Ho q Hq) as [Ha H]. split; [exact Ha|].
    rewrite lookup_insert_ne; [exact H|]. intros ->. contradiction.
Qed.

(** ** Storing *)

(** What an allocator promises: a block apart from all others. *)
Definition alloc_ok (alloc : Memory -> option Z) : Prop :=
  forall m p, alloc m = Some p -> is_address p /\ numbers m !! p = None /\ p ∉ objects m.

(** A value that needs no cell, with its payload, or a number. *)
Inductive storing (m : Memory) (v : Z) : Prop :=
| StoredPointer : isPointerValue v = true -> payload_ok m v -> toValue false v m = v -> storing m v
| StoredImmediate : isPointerValue v = false -> isInt32 v = false -> isNumber v = false ->
    payload_ok m v -> toValue false v m = v -> storing m v
| StoredInt i : in_int32 i -> v = Value_int i -> storing m v
| StoredDouble d : 0 <= d < DoubleInvalidBeginning -> v = Value_EncodeAsDouble d -> storing m v.

Lemma storable_cases m v : memory_ok m -> storable m v -> storing m v.
Proof.
  intros [_ Ho] [->|(r & Hr & -> & Hp)].
  { apply StoredPointer; [reflexivity|right; left; cbn; auto|reflexivity]. }
  pose proof (kinds_isPointer r Hr) as K1. pose proof (kinds_isInt32 r Hr) as K2.
  pose proof (kinds_isNumber r Hr) as K3. destruct r as [i|d|p| | |b].
  - apply (StoredInt _ _ i Hr). reflexivity.
  - apply (StoredDouble _ _ d Hr). reflexivity.
  - specialize (Hp p eq_refl). destruct (Ho p Hp) as [Ha Hn].
    apply StoredPointer; [exact K1|right; right; auto|]. cbn [encode]. unfold Value_pointer.
    rewrite (toValue_address _ _ _ Ha), Hn. reflexivity.
  - apply StoredImmediate; try assumption; [right; left; cbn; auto 10|reflexivity].
  - apply StoredImmediate; try assumption; [right; left; cbn; auto 10|reflexivity].
  - apply StoredImmediate; try assumption; [|destruct b; reflexivity].
    right. left. destruct b; cbn; auto 10.
Qed.

(** The tests a number meets. *)
Lemma number_tests r :
  wf_repr r -> double_of r <> None ->
  isPointerValue (encode r) = false /\ isNumber (encode r) = true /\
  isInt32 (encode r) = match r with RInt _ => true | _ => false end.
Proof.
  intros Hr Hd. rewrite (kinds_isPointer r Hr), (kinds_isNumber r Hr), (kinds_isInt32 r Hr).
  destruct r; cbn in Hd; auto; congruence.
Qed.

Lemma convertible_int i : in_int32 i -> isInt32ConvertibleDouble (asNumber (Value_int i)) = (true, i).
Proof.
  intros Hi. rewrite (asNumber_int i Hi).
  assert (Hb : is_bits64 (of_integer i)) by (unfold in_int32 in Hi; apply of_integer_value; lia).
  destruct (isInt32Convertible_spec (of_integer i) Hb) as [Hiff _].
  pose proof (proj2 Hiff (ex_intro _ i (conj Hi eq_refl))) as Hc.
  unfold isInt32ConvertibleDouble in *. rewrite (cast_of_integer i Hi) in *. cbn [fst] in Hc.
  rewrite Hc. reflexivity.
Qed.

Lemma convertible_double d :
  0 <= d < DoubleInvalidBeginning ->
  match isInt32ConvertibleDouble (asNumber (Value_EncodeAsDouble d)) with
  | (true, i) => in_int32 i /\ d = of_integer i
  | (false, _) => True
  end.
Proof.
  intros Hd. rewrite (asNumber_double d Hd).
  assert (Hb : is_bits64 d) by (unfold DoubleInvalidBeginning, is_bits64 in *; lia).
  destruct (isInt32Convertible_spec d Hb) as [_ Hback].
  destruct (isInt32ConvertibleDouble d) as [c i] eqn:Hc.
  assert (Hi : i = cast_int32 d) by (unfold isInt32ConvertibleDouble in Hc; congruence).
  destruct c; [|exact I]. rewrite Hi. split; [apply cast_int32_range|apply Hback; reflexivity].
Qed.

Lemma smi_stored m i :
  IsValidSmi i = true -> in_int32 i ->
  payload_ok m (IntToSmi i) /\ toValue false (IntToSmi i) m = Value_int i.
Proof.
  intros H Hi. rewrite (IsValidSmi_spec i Hi) in H. to_prop. split; [left; eauto|].
  apply toValue_smi. lia.
Qed.

Section Storing.
Context (alloc : Memory -> option Z).

(** Both ways of storing answer a payload at once or write a cell with the
    number. *)
Lemma ctor_cases m v :
  storing m v ->
  (exists p, fromValueForCtor alloc v = ret p /\ payload_ok m p /\ same_stored v (toValue false p m)) \/
  (exists r, wf_repr r /\ double_of r <> None /\ v = encode r /\
     fromValueForCtor alloc v = newNumberInEncodedValue alloc (encode r)).
Proof.
  intros [K Hp Hv|K1 K2 K3 Hp Hv|i Hi ->|d Hd ->]; unfold fromValueForCtor.
  - left. exists v. rewrite K. unfold same_stored. auto.
  - left. exists v. rewrite K1, K2, K3. unfold same_stored. auto.
  - destruct (number_tests (RInt i) Hi ltac:(discriminate)) as (K1 & K2 & K3). cbn [encode] in *.
    rewrite K1, K2, K3, (asInt32_int i Hi), (convertible_int i Hi). cbn [andb].
    destruct (IsValidSmi i) eqn:Hs.
    + left. exists (IntToSmi i). destruct (smi_stored m i Hs Hi) as [H1 H2]. unfold same_stored. auto.
    + right. exists (RInt i). repeat split; (assumption || discriminate || apply Hi).
  - destruct (number_tests (RDouble d) Hd ltac:(discriminate)) as (K1 & K2 & K3). cbn [encode] in *.
    rewrite K1, K2, K3. cbn [andb]. pose proof (convertible_double d Hd) as Hc.
    destruct (isInt32ConvertibleDouble _) as [c i]. destruct c; cbn [andb].
    + destruct Hc as [Hi ->]. destruct (IsValidSmi i) eqn:Hs.
      * left. exists (IntToSmi i). destruct (smi_stored m i Hs Hi) as [H1 H2]. unfold same_stored.
        split; [reflexivity|]. split; [exact H1|]. right. eauto.
      * right. exists (RDouble (of_integer i)). repeat split; (assumption || discriminate || apply Hd).
    + right. exists (RDouble d). repeat split; (assumption || discriminate || apply Hd).
Qed.

Definition shares (m : Memory) (old : Z) : bool :=
  negb (HAS_SMI_TAG old) && (ValueLast <? to_unsigned 64 old) && readPointerIsNumberEncodedValue m old.

Definition writeNumber (old w : Z) : EM Z :=
  let! shared := gets (fun m => shares m old) in
  if shared : bool then do! modify (setCell old w) in ret old
  else newNumberInEncodedValue alloc w.

Lemma assign_cases m old v :
  storing m v ->
  (exists p, assign alloc old v = ret p /\ payload_ok m p /\ same_stored v (toValue false p m)) \/
  (exists r, wf_repr r /\ double_of r <> None /\ same_stored v (encode r) /\
     assign alloc old v = writeNumber old (encode r)).
Proof.
  intros [K Hp Hv|K1 K2 K3 Hp Hv|i Hi ->|d Hd ->]; unfold assign.
  - left. exists v. rewrite K. unfold same_stored. auto.
  - left. exists v. rewrite K1, K2, K3. unfold same_stored. auto.
  - destruct (number_tests (RInt i) Hi ltac:(discriminate)) as (K1 & K2 & K3). cbn [encode] in *.
    rewrite K1, K2, K3, (asInt32_int i Hi), (convertible_int i Hi). cbn [andb].
    destruct (IsValidSmi i) eqn:Hs.
    + left. exists (IntToSmi i). destruct (smi_stored m i Hs Hi) as [H1 H2]. unfold same_stored. auto.
    + right. exists (RInt i). split; [exact Hi|]. split; [discriminate|]. split; [left; reflexivity|reflexivity].
  - destruct (number_tests (RDouble d) Hd ltac:(discriminate)) as (K1 & K2 & K3). cbn [encode] in *.
    rewrite K1, K2, K3. cbn [andb]. pose proof (convertible_double d Hd) as Hc. right.
    destruct (isInt32ConvertibleDouble _) as [c i]. destruct c.
    + destruct Hc as [Hi ->]. exists (RInt i). split; [exact Hi|]. split; [discriminate|].
      split; [right; eauto|reflexivity].
    + exists (RDouble d). split; [exact Hd|]. split; [discriminate|]. split; [left; reflexivity|reflexivity].
Qed.
End Storing.

Section Effects.
Context (alloc : Memory -> option Z) (Halloc : alloc_ok alloc).

Lemma payload_ok_setCell m p w q : payload_ok m q -> payload_ok (setCell p w m) q.
Proof.
  intros [H|[H|[Ha H]]]; [left; exact H|right; left; exact H|right; right].
  split; [exact Ha|]. cbn [setCell numbers objects]. destruct H as [[u H]|H]; [left|right; exact H].
  destruct (decide (q = p)) as [->|Hne]; [rewrite lookup_insert_eq|rewrite lookup_insert_ne by congruence]; eauto.
Qed.

Lemma toValue_cell b p w m : is_address p -> toValue b p (setCell p w m) = w.
Proof. intros Hp. rewrite (toValue_address b p _ Hp). cbn [setCell numbers]. rewrite lookup_insert_eq. reflexivity. Qed.

(** What storing one number does to the memory. *)
Definition stored (m : Memory) (v p : Z) (m' : Memory) : Prop :=
  memory_ok m' /\ payload_ok m' p /\ same_stored v (toValue false p m').

Lemma new_cell m r v :
  memory_ok m -> wf_repr r -> double_of r <> None -> same_stored v (encode r) ->
  (alloc m = None /\ newNumberInEncodedValue alloc (encode r) m = (Throw outOfMemory, m)) \/
  exists p, newNumberInEncodedValue alloc (encode r) m = (Ret p, setCell p (encode r) m) /\
    stored m v p (setCell p (encode r) m) /\
    forall q, payload_ok m q -> toValue false q (setCell p (encode r) m) = toValue false q m.
Proof.
  intros Hm Hr Hd Hv. unfold newNumberInEncodedValue. destruct (alloc m) as [p|] eqn:Hp; [right|left; auto].
  destruct (Halloc m p Hp) as (Ha & Hn & Ho). exists p. split; [reflexivity|]. split.
  - split; [apply memory_ok_setCell; assumption|]. split.
    + right. right. split; [exact Ha|]. left. cbn. rewrite lookup_insert_eq. eauto.
    + rewrite (toValue_cell _ _ _ _ Ha). exact Hv.
  - intros q Hq. destruct (decide (q = p)) as [->|Hne]; [|apply toValue_frame; assumption].
    exfalso. destruct Hq as [(i & Hi & He)|[Him|[_ [[w Hw]|Hin]]]].
    + destruct (smi_roundtrip i Hi) as [Htag _]. rewrite <- He in Htag.
      rewrite even_no_tag in Htag; [discriminate|]. destruct Ha. lia.
    + destruct Ha as [[Ha _] _]. destruct Him as [<-|[<-|[<-|[<-|[<-|[]]]]]]; exact (Ha eq_refl).
    + congruence.
    + contradiction.
Qed.

Lemma shares_cell m p : memory_ok m -> shares m p = true -> is_address p /\ p ∉ objects m.
Proof.
  intros [Hn Ho] H. unfold shares, readPointerIsNumberEncodedValue in H.
  apply andb_prop in H as [_ H]. apply bool_decide_eq_true in H as [w Hw].
  split; [apply (Hn p w Hw)|]. intros Hin. destruct (Ho p Hin). congruence.
Qed.
End Effects.

(** ** The theorems *)

(** Constructing an [EncodedValue] from any value a script can hold, or the
    empty value, either runs out of memory or answers a payload that reads back as
    the value (or, for a double that is a small integer, as that integer), and every
    other slot of the memory reads as before. *)
Theorem encoded_construct alloc m v :
  alloc_ok alloc -> memory_ok m -> storable m v ->
  (alloc m = None /\ fromValueForCtor alloc v m = (Throw outOfMemory, m)) \/
  exists p m', fromValueForCtor alloc v m = (Ret p, m') /\ stored m v p m' /\
    forall q, payload_ok m q -> payload_ok m' q /\ toValue false q m' = toValue false q m.
Proof.
  intros Halloc Hm Hv.
  destruct (ctor_cases alloc m v (storable_cases m v Hm Hv)) as [(p & -> & Hp & Hs)|(r & Hr & Hd & -> & ->)].
  - right. exists p, m. unfold stored. auto.
  - destruct (new_cell alloc Halloc m r (encode r) Hm Hr Hd (or_introl eq_refl)) as [[H1 H2]|(p & H1 & H2 & H3)];
      [left; auto|right]. exists p, (setCell p (encode r) m). split; [exact H1|]. split; [exact H2|].
    intros q Hq. split; [apply payload_ok_setCell, Hq|apply H3, Hq].
Qed.

(** An allocator: the block after the last one. *)
Definition bumpAllocate (m : Memory) : option Z :=
  let last := set_fold Z.max 4092 (dom (numbers m) ∪ objects m) in
  let p := (last / 4 + 1) * 4 in
  if p <? 2 ^ 48 then Some p else None.

Lemma set_fold_max (X : gset Z) (a : Z) :
  a <= set_fold Z.max a X /\ forall x, x ∈ X -> x <= set_fold Z.max a X.
Proof.
  apply (set_fold_ind_L (fun r X => a <= r /\ forall x, x ∈ X -> x <= r)).
  { split; [lia|]. intros x Hx. apply not_elem_of_empty in Hx. contradiction. }
  intros x Y r Hx [H1 H2]. split; [lia|]. intros y Hy.
  apply elem_of_union in Hy as [Hy|Hy]; [apply elem_of_singleton in Hy; lia|specialize (H2 y Hy); lia].
Qed.

Lemma bumpAllocate_ok : alloc_ok bumpAllocate.
Proof.
  intros m p H. unfold bumpAllocate in H.
  destruct (set_fold_max (dom (numbers m) ∪ objects m) 4092) as [H1 H2].
  set (last := set_fold _ _ _) in *.
  destruct ((last / 4 + 1) * 4 <? 2 ^ 48) eqn:Hb; [|discriminate H]. to_prop. injection H as <-.
  assert (Hlt : forall x, x ∈ dom (numbers m) ∪ objects m -> x < (last / 4 + 1) * 4).
  { intros x Hx. specialize (H2 x Hx). lia. }
  split; [unfold is_address; lia|]. split.
  - apply not_elem_of_dom. intros Hin. pose proof (Hlt _ (elem_of_union_l _ _ _ Hin)). lia.
  - intros Hin. pose proof (Hlt _ (elem_of_union_r _ _ _ Hin)). lia.
Qed.

Definition emptyMemory : Memory := {| numbers := ∅; objects := ∅ |}.

Lemma emptyMemory_ok : memory_ok emptyMemory.
Proof.
  split; cbn [emptyMemory numbers objects]; [intros p w H|intros p H].
  - rewrite lookup_empty in H. discriminate.
  - apply not_elem_of_empty in H. contradiction.
Qed.

(** The double 1.5. *)
Definition one_and_a_half : Z := Z.shiftl 0x3ff8 48.

Lemma one_and_a_half_storable m : storable m (Value_EncodeAsDouble one_and_a_half).
Proof. right. exists (RDouble one_and_a_half). repeat split; discriminate. Qed.

Lemma encoded_construct_witness :
  exists p m', fromValueForCtor bumpAllocate (Value_EncodeAsDouble one_and_a_half) emptyMemory = (Ret p, m') /\
    same_stored (Value_EncodeAsDouble one_and_a_half) (toValue false p m').
Proof.
  destruct (encoded_construct bumpAllocate emptyMemory (Value_EncodeAsDouble one_and_a_half))
    as [[H _]|(p & m' & H & (_ & _ & Hs) & _)].
  - exact bumpAllocate_ok.
  - exact emptyMemory_ok.
  - apply one_and_a_half_storable.
  - vm_compute in H. discriminate H.
  - exists p, m'. auto.
Defined.

(** Assigning a value to a slot makes the slot read as the value, keeps the
    memory well formed, and leaves every other payload reading as before; the one
    exception is a payload that equals the slot's old one, which follows the slot
    when the number was written into its cell. *)
Theorem encoded_assign alloc m old v :
  alloc_ok alloc -> memory_ok m -> storable m v -> payload_ok m old ->
  (alloc m = None /\ assign alloc old v m = (Throw outOfMemory, m)) \/
  exists p m', assign alloc old v m = (Ret p, m') /\ stored m v p m' /\
    forall q, payload_ok m q ->
      payload_ok m' q /\ (toValue false q m' = toValue false q m \/ (q = old /\ q = p)).
Proof.
  intros Halloc Hm Hv Hold.
  destruct (assign_cases alloc m old v (storable_cases m v Hm Hv)) as [(p & -> & Hp & Hs)|(r & Hr & Hd & Hs & ->)].
  - right. exists p, m. unfold stored. auto.
  - unfold writeNumber, bind, gets. destruct (shares m old) eqn:Hsh.
    + right. destruct (shares_cell m old Hm Hsh) as [Ha Hno].
      exists old, (setCell old (encode r) m). split; [reflexivity|]. split.
      * split; [apply memory_ok_setCell; assumption|]. split; [apply payload_ok_setCell, Hold|].
        rewrite (toValue_cell _ _ _ _ Ha). exact Hs.
      * intros q Hq. split; [apply payload_ok_setCell, Hq|].
        destruct (decide (q = old)) as [->|Hne]; [auto|]. left. apply toValue_frame; assumption.
    + destruct (new_cell alloc Halloc m r v Hm Hr Hd Hs) as [[H1 H2]|(p & H1 & H2 & H3)];
        [left; auto|right]. exists p, (setCell p (encode r) m). split; [exact H1|]. split; [exact H2|].
      intros q Hq. split; [apply payload_ok_setCell, Hq|left; apply H3, Hq].
Qed.

Lemma encoded_assign_witness :
  exists p m', assign bumpAllocate (IntToSmi 7) (Value_EncodeAsDouble one_and_a_half) emptyMemory = (Ret p, m') /\
    same_stored (Value_EncodeAsDouble one_and_a_half) (toValue false p m') /\
    toValue false (IntToSmi 7) m' = Value_int 7.
Proof.
  destruct (encoded_assign bumpAllocate emptyMemory (IntToSmi 7) (Value_EncodeAsDouble one_and_a_half))
    as [[H _]|(p & m' & H & (_ & _ & Hs) & Hq)].
  - exact bumpAllocate_ok.
  - exact emptyMemory_ok.
  - apply one_and_a_half_storable.
  - left. exists 7. split; [lia|reflexivity].
  - vm_compute in H. discriminate H.
  - exists p, m'. split; [exact H|]. split; [exact Hs|].
    rewrite toValue_smi by lia. reflexivity.
Defined.

(** Two things a client has to know.  A copied slot shares the cell of a number:
    after a slot that holds 1.5 is copied and the slot is assigned 2.5, the copy
    reads 2.5 too.  And a double equal to a 32-bit integer of more than 31 bits is
    kept as a double when the slot is constructed, but as an integer when the slot
    is assigned. *)
Theorem encoded_sharing :
  (exists p m p' m', fromValueForCtor bumpAllocate (Value_EncodeAsDouble one_and_a_half) emptyMemory = (Ret p, m) /\
     assign bumpAllocate p (Value_EncodeAsDouble (Z.shiftl 0x4004 48)) m = (Ret p', m') /\
     p' = p /\ toValue false p m' = Value_EncodeAsDouble (Z.shiftl 0x4004 48)) /\
  (let v := Value_EncodeAsDouble (of_integer (2 ^ 30)) in
   exists p m p' m', fromValueForCtor bumpAllocate v emptyMemory = (Ret p, m) /\
     toValue false p m = v /\
     assign bumpAllocate ValueUndefined v emptyMemory = (Ret p', m') /\
     toValue false p' m' = Value_int (2 ^ 30)).
Proof.
  split.
  - set (v := Value_EncodeAsDouble one_and_a_half). set (w := Value_EncodeAsDouble (Z.shiftl 0x4004 48)).
    exists 4096, (setCell 4096 v emptyMemory), 4096, (setCell 4096 w (setCell 4096 v emptyMemory)).
    split; [vm_compute; reflexivity|]. split; [vm_compute; reflexivity|]. split; [reflexivity|].
    vm_compute. reflexivity.
  - intros v. exists 4096, (setCell 4096 v emptyMemory), 4096, (setCell 4096 (Value_int (2 ^ 30)) emptyMemory).
    split; [vm_compute; reflexivity|]. split; [vm_compute; reflexivity|].
    split; vm_compute; reflexivity.
Qed.
