(* ===== verification/MapObject.v ===== *)
(** * Map objects and their iterators ([runtime/MapObject.cpp], [builtins/BuiltinMap.cpp])

    A map is a vector of key and value pairs in insertion order that only grows:
    deletion overwrites an entry with two empty values.  Iterators keep an offset
    into the vector and stay right while the map changes under them.  Keys and
    values are [Value] words; the vector keeps them in [EncodedValue] slots, each
    written through one entry only, which read back as stored ([EncodedValue]). *)

From Stdlib Require Import Sorted.
From S2P Require Import Prelude Float64 Ieee754 Value.
Local Open Scope Z_scope.

(** [MapObjectData]. *)
Abbreviation MapObjectData := (list (Z * Z)).

Definition emptyEntry : Z * Z := (ValueEmpty, ValueEmpty).

(** ** The operations *)

Section Operations.
Context {heap : Heap}.

(** The loop all operations start with: the first entry that is not empty and
    has the key. *)
Fixpoint findEntry (m_storage : MapObjectData) (key : Z) : option nat :=
  match m_storage with
  | [] => None
  | (existingKey, _) :: rest =>
    if isEmpty existingKey then option_map S (findEntry rest key)
    else if equalsToByTheSameValueZeroAlgorithm existingKey key then Some 0%nat
    else option_map S (findEntry rest key)
  end.

Definition clear (m_storage : MapObjectData) : MapObjectData := map (fun _ => emptyEntry) m_storage.

Definition size (m_storage : MapObjectData) : nat :=
  fold_left (fun siz (e : Z * Z) => if isEmpty (fst e) then siz else S siz) m_storage 0%nat.

Definition deleteOperation (m_storage : MapObjectData) (key : Z) : MapObjectData * bool :=
  match findEntry m_storage key with
  | Some i => (<[i := emptyEntry]> m_storage, true)
  | None => (m_storage, false)
  end.

Definition get (m_storage : MapObjectData) (key : Z) : Z :=
  match findEntry m_storage key with
  | Some i => match m_storage !! i with Some e => snd e | None => ValueUndefined end
  | None => ValueUndefined
  end.

Definition has (m_storage : MapObjectData) (key : Z) : bool :=
  match findEntry m_storage key with Some _ => true | None => false end.

(** If the key is -0 it becomes +0. *)
Definition normalizeKey (key : Z) : Z :=
  if isNumber key && feq (asNumber key) 0 && signbit (asNumber key) then Value_int 0 else key.

Definition set (m_storage : MapObjectData) (key value : Z) : MapObjectData :=
  match findEntry m_storage key with
  | Some i => match m_storage !! i with
              | Some e => <[i := (fst e, value)]> m_storage
              | None => m_storage
              end
  | None => m_storage ++ [(normalizeKey key, value)]
  end.
End Operations.

(** ** Iterators *)

Inductive Type_ : Set := TypeKey | TypeValue | TypeKeyValue.

(** [m_map] is [false] for the null pointer. *)
Record MapIteratorObject := { m_map : bool; m_iteratorIndex : nat; m_type : Type_ }.

(** What an iterator answers: a value, or the new array of a key and a value. *)
Inductive IterationResult :=
| IterValue (v : Z)
| IterPair (k v : Z)
| IterDone.

Definition resultOf (itemKind : Type_) (e : Z * Z) : IterationResult :=
  match itemKind with
  | TypeKey => IterValue (fst e)
  | TypeValue => IterValue (snd e)
  | TypeKeyValue => IterPair (fst e) (snd e)
  end.

Definition MapIterator (type : Type_) : MapIteratorObject :=
  {| m_map := true; m_iteratorIndex := 0; m_type := type |}.

(** The loop of [advance] over the entries from [m_iteratorIndex] on: the index
    after the loop and the entry found. *)
Fixpoint advanceLoop (entries : MapObjectData) (index : nat) : nat * option (Z * Z) :=
  match entries with
  | [] => (index, None)
  | e :: rest =>
    if isEmpty (fst e) then advanceLoop rest (S index) else (S index, Some e)
  end.

Definition advance (m_storage : MapObjectData) (it : MapIteratorObject) : IterationResult * MapIteratorObject :=
  if negb (m_map it) then (IterDone, it)
  else
    let '(index, e) := advanceLoop (drop (m_iteratorIndex it) m_storage) (m_iteratorIndex it) in
    match e with
    | Some e => (resultOf (m_type it) e,
                 {| m_map := true; m_iteratorIndex := index; m_type := m_type it |})
    | None => (IterDone, {| m_map := false; m_iteratorIndex := index; m_type := m_type it |})
    end.

(** [builtinMapForEach]: the entries are read through the map at every turn, so
    the callback's changes are seen; it gets the value and the key, and may
    throw. *)
Definition forEach_turn (callbackfn : Z -> Z -> M MapObjectData Z Z) (i : nat)
    : M MapObjectData Z (nat + unit) :=
  (let! e := gets (fun entries => entries !! i) in
   match e with
   | None => break tt
   | Some (k, v) =>
     if isEmpty k then continue (S i) else do! callbackfn v k in continue (S i)
   end)%esc.

Definition forEach (fuel : nat) (callbackfn : Z -> Z -> M MapObjectData Z Z) : M MapObjectData Z unit :=
  loop fuel (forEach_turn callbackfn) 0%nat.

(** ** Ordered association lists, the specification *)

#[export] Instance JSNumber_eq_dec : EqDecision JSNumber.
Proof. solve_decision. Defined.
#[export] Instance JSValue_eq_dec : EqDecision JSValue.
Proof. solve_decision. Defined.

Abbreviation Assoc := (list (JSValue * Z)).

Fixpoint assoc (k : JSValue) (l : Assoc) : option Z :=
  match l with
  | [] => None
  | (k', v) :: l => if decide (k' = k) then Some v else assoc k l
  end.

(** Replace in place, or add at the end. *)
Fixpoint assoc_set (k : JSValue) (v : Z) (l : Assoc) : Assoc :=
  match l with
  | [] => [(k, v)]
  | (k', v') :: l => if decide (k' = k) then (k', v) :: l else (k', v') :: assoc_set k v l
  end.

Fixpoint assoc_delete (k : JSValue) (l : Assoc) : Assoc :=
  match l with
  | [] => []
  | (k', v) :: l => if decide (k' = k) then assoc_delete k l else (k', v) :: assoc_delete k l
  end.

Lemma assoc_none k l : assoc k l = None <-> k ∉ map fst l.
Proof.
  induction l as [|[k' v] l IH]; cbn; [split; [intros _ H; inversion H|reflexivity]|].
  rewrite not_elem_of_cons. destruct (decide (k' = k)) as [->|Hne]; [split; [discriminate|tauto]|].
  rewrite IH. split; [|tauto]. intros H. split; congruence.
Qed.

Lemma assoc_app k l1 l2 : assoc k l1 = None -> assoc k (l1 ++ l2) = assoc k l2.
Proof.
  induction l1 as [|[k' v] l1 IH]; cbn; [reflexivity|]. destruct (decide (k' = k)); [discriminate|exact IH].
Qed.

Lemma assoc_set_app k v l1 l2 : assoc k l1 = None -> assoc_set k v (l1 ++ l2) = l1 ++ assoc_set k v l2.
Proof.
  induction l1 as [|[k' v'] l1 IH]; cbn; [reflexivity|].
  destruct (decide (k' = k)); [discriminate|]. intros H. rewrite (IH H). reflexivity.
Qed.

Lemma assoc_delete_none k l : assoc k l = None -> assoc_delete k l = l.
Proof.
  induction l as [|[k' v] l IH]; cbn; [reflexivity|].
  destruct (decide (k' = k)); [discriminate|]. intros H. rewrite (IH H). reflexivity.
Qed.

Lemma assoc_delete_app k l1 l2 : assoc_delete k (l1 ++ l2) = assoc_delete k l1 ++ assoc_delete k l2.
Proof.
  induction l1 as [|[k' v] l1 IH]; cbn; [reflexivity|].
  destruct (decide (k' = k)); [exact IH|]. cbn. rewrite IH. reflexivity.
Qed.

Lemma assoc_set_keys k v l :
  map fst (assoc_set k v l) = if decide (k ∈ map fst l) then map fst l else map fst l ++ [k].
Proof.
  induction l as [|[k' v'] l IH]; cbn; [reflexivity|].
  destruct (decide (k' = k)) as [->|Hne]; cbn.
  - rewrite decide_True by (apply elem_of_cons; auto). reflexivity.
  - rewrite IH. destruct (decide (k ∈ map fst l)) as [H|H].
    + rewrite decide_True by (apply elem_of_cons; auto). reflexivity.
    + rewrite decide_False; [reflexivity|]. rewrite elem_of_cons. intros [->|H']; contradiction.
Qed.

(** ** The map as an ordered association list *)

Section Refinement.
Context {heap : Heap}.

(** The live entries, by the meaning of their keys, in order. *)
Definition contentOf (e : Z * Z) : option (JSValue * Z) :=
  if isEmpty (fst e) then None else Some (keyOf (fst e), snd e).
Definition content (s : MapObjectData) : Assoc := omap contentOf s.

Definition entry_ok (e : Z * Z) : Prop :=
  fst e = ValueEmpty \/ (valid (fst e) /\ fst e <> Value_EncodeAsDouble negative_zero).

(** Keys are values, none of them -0, and no two are the same key. *)
Definition map_ok (s : MapObjectData) : Prop :=
  Forall entry_ok s /\ NoDup (map fst (content s)).

Lemma content_app s1 s2 : content (s1 ++ s2) = content s1 ++ content s2.
Proof. apply omap_app. Qed.

Lemma content_empty e s : isEmpty (fst e) = true -> content (e :: s) = content s.
Proof. intros H. change (content (e :: s)) with (match contentOf e with Some c => c :: content s | None => content s end).
  unfold contentOf. rewrite H. reflexivity.
Qed.

Lemma content_live e s : isEmpty (fst e) = false -> content (e :: s) = (keyOf (fst e), snd e) :: content s.
Proof. intros H. change (content (e :: s)) with (match contentOf e with Some c => c :: content s | None => content s end).
  unfold contentOf. rewrite H. reflexivity.
Qed.

Lemma findEntry_spec s k :
  Forall entry_ok s -> valid k ->
  match findEntry s k with
  | Some i => exists s1 e s2, s = s1 ++ e :: s2 /\ length s1 = i /\ isEmpty (fst e) = false /\
      keyOf (fst e) = keyOf k /\ assoc (keyOf k) (content s1) = None
  | None => assoc (keyOf k) (content s) = None
  end.
Proof.
  intros Hs Hk. induction s as [|[k' v'] s IH]; cbn [findEntry]; [reflexivity|].
  inversion Hs as [|? ? He Hs']; subst. specialize (IH Hs').
  destruct (isEmpty k') eqn:Hempty.
  { destruct (findEntry s k) as [i|]; cbn [option_map].
    - destruct IH as (s1 & e & s2 & -> & <- & Hl & Hc & Ha). exists ((k', v') :: s1), e, s2.
      rewrite content_empty by exact Hempty. auto.
    - rewrite content_empty by exact Hempty. exact IH. }
  destruct He as [He|[He _]]; [cbn in He; subst; discriminate Hempty|]. cbn [fst] in He.
  pose proof (keyOf_spec k' k He Hk) as Heq.
  destruct (equalsToByTheSameValueZeroAlgorithm k' k).
  { exists [], (k', v'), s. repeat split; [exact Hempty|]. apply Heq. reflexivity. }
  assert (Hne : keyOf k' <> keyOf k) by (intros H; apply Heq in H; discriminate).
  destruct (findEntry s k) as [i|]; cbn [option_map].
  - destruct IH as (s1 & e & s2 & -> & <- & Hl & Hc & Ha). exists ((k', v') :: s1), e, s2.
    rewrite content_live by exact Hempty. cbn [assoc fst]. rewrite decide_False by exact Hne. auto.
  - rewrite content_live by exact Hempty. cbn [assoc fst]. rewrite decide_False by exact Hne. exact IH.
Qed.

Lemma valid_not_empty w : valid w -> isEmpty w = false.
Proof.
  intros (r & Hr & ->). apply Z.eqb_neq. intros H.
  pose proof (kinds_isPointer r Hr) as K. rewrite H in K. change (isPointerValue ValueEmpty) with true in K.
  destruct r; try discriminate K. cbn in Hr, H. unfold is_address, Value_pointer in *. subst p.
  destruct Hr as [[Hr _] _]. exact (Hr eq_refl).
Qed.

Lemma normalizeKey_spec k :
  valid k ->
  valid (normalizeKey k) /\ keyOf (normalizeKey k) = keyOf k /\
  normalizeKey k <> Value_EncodeAsDouble negative_zero.
Proof.
  intros Hk. unfold normalizeKey.
  destruct (isNumber k && feq (asNumber k) 0 && signbit (asNumber k)) eqn:H.
  - assert (Hz : k = Value_EncodeAsDouble negative_zero).
    { apply andb_prop in H as [H Hs]. apply andb_prop in H as [Hn Hf].
      destruct Hk as (r & Hr & ->). rewrite (kinds_isNumber r Hr) in Hn.
      destruct (double_of r) as [d|] eqn:Hd; [|destruct r; discriminate].
      destruct (double_of_spec r d Hr Hd) as (Ha & Hb & _). rewrite Ha in *.
      assert (Hd0 : d = negative_zero).
      { assert (Nd : isnan d = false) by (unfold feq in Hf; destruct (isnan d); [discriminate|reflexivity]).
        apply feq_spec in Hf as [->|[Hm _]]; try assumption; [discriminate Hs| |split; [discriminate|reflexivity]|reflexivity].
        destruct (magnitude_zero d Hb Hm) as [->|]; [discriminate Hs|assumption]. }
      rewrite Hd0 in Hd. destruct r as [i|d'|p| | |b]; try discriminate Hd; injection Hd as Hd; [|rewrite Hd; reflexivity].
      exfalso. cbn [wf_repr] in Hr. unfold in_int32 in Hr.
      destruct (of_integer_value i ltac:(lia)) as (_ & _ & _ & Hv & Hsi). rewrite Hd in Hv, Hsi.
      change (signbit negative_zero) with true in Hsi. symmetry in Hsi. apply Z.ltb_lt in Hsi.
      change (scaled negative_zero) with 0 in Hv. assert (0 < 2 ^ 1074) by (apply Z.pow_pos_nonneg; lia).
      set (q := 2 ^ 1074) in *. clearbody q. nia. }
    subst k. split; [exists (RInt 0); split; [cbn; unfold in_int32; lia|reflexivity]|].
    split; [reflexivity|]. vm_compute. congruence.
  - split; [exact Hk|]. split; [reflexivity|]. intros ->. vm_compute in H. discriminate H.
Qed.

(** ** Each operation is the one of the list *)

Lemma content_middle s1 e s2 :
  isEmpty (fst e) = false -> content (s1 ++ e :: s2) = content s1 ++ (keyOf (fst e), snd e) :: content s2.
Proof. intros H. rewrite content_app, content_live by exact H. reflexivity. Qed.

Lemma insert_middle {A} (l1 l2 : list A) x y : <[length l1 := y]> (l1 ++ x :: l2) = l1 ++ y :: l2.
Proof. rewrite <- (Nat.add_0_r (length l1)) at 1. rewrite insert_app_r. reflexivity. Qed.

Lemma map_get_refines s k :
  Forall entry_ok s -> valid k -> get s k = default ValueUndefined (assoc (keyOf k) (content s)).
Proof.
  intros Hs Hk. pose proof (findEntry_spec s k Hs Hk) as H. unfold get. destruct (findEntry s k) as [i|].
  - destruct H as (s1 & e & s2 & -> & <- & Hl & Hc & Ha). rewrite list_lookup_middle by reflexivity.
    rewrite (content_middle _ _ _ Hl), (assoc_app _ _ _ Ha), Hc. cbn. rewrite decide_True by reflexivity. reflexivity.
  - rewrite H. reflexivity.
Qed.

Lemma map_has_refines s k :
  Forall entry_ok s -> valid k -> has s k = bool_decide (is_Some (assoc (keyOf k) (content s))).
Proof.
  intros Hs Hk. pose proof (findEntry_spec s k Hs Hk) as H. unfold has. destruct (findEntry s k) as [i|].
  - destruct H as (s1 & e & s2 & -> & <- & Hl & Hc & Ha).
    rewrite (content_middle _ _ _ Hl), (assoc_app _ _ _ Ha), Hc. cbn. rewrite decide_True by reflexivity.
    symmetry. apply bool_decide_eq_true. eauto.
  - rewrite H. symmetry. apply bool_decide_eq_false. intros [? ?]. discriminate.
Qed.

Lemma map_set_refines s k v :
  Forall entry_ok s -> valid k -> content (set s k v) = assoc_set (keyOf k) v (content s).
Proof.
  intros Hs Hk. pose proof (findEntry_spec s k Hs Hk) as H. unfold set. destruct (findEntry s k) as [i|].
  - destruct H as (s1 & e & s2 & -> & <- & Hl & Hc & Ha). rewrite list_lookup_middle by reflexivity.
    rewrite insert_middle, (content_middle _ _ _ Hl), content_middle by exact Hl. cbn [fst snd].
    rewrite (assoc_set_app _ _ _ _ Ha), Hc. cbn. rewrite decide_True by reflexivity. reflexivity.
  - destruct (normalizeKey_spec k Hk) as (Hv & Hkey & _).
    rewrite content_app, content_live by exact (valid_not_empty _ Hv). cbn [fst snd].
    rewrite Hkey. rewrite <- (app_nil_r (content s)) at 2. rewrite (assoc_set_app _ _ _ _ H). reflexivity.
Qed.

Lemma map_delete_refines s k :
  map_ok s -> valid k ->
  content (fst (deleteOperation s k)) = assoc_delete (keyOf k) (content s) /\
  snd (deleteOperation s k) = has s k.
Proof.
  intros [Hs Hnd] Hk. pose proof (findEntry_spec s k Hs Hk) as H. unfold deleteOperation, has.
  destruct (findEntry s k) as [i|]; cbn [fst snd]; (split; [|reflexivity]).
  - destruct H as (s1 & e & s2 & -> & <- & Hl & Hc & Ha).
    rewrite (content_middle _ _ _ Hl), Hc in Hnd |- *. rewrite insert_middle, content_app, content_empty by reflexivity.
    rewrite assoc_delete_app, (assoc_delete_none _ _ Ha). cbn [assoc_delete]. rewrite decide_True by reflexivity.
    f_equal. symmetry. apply assoc_delete_none, assoc_none.
    rewrite map_app in Hnd. cbn in Hnd. apply list.NoDup_app in Hnd as (_ & _ & Hnd). apply list.NoDup_cons in Hnd as [Hnd _]. exact Hnd.
  - symmetry. apply assoc_delete_none, H.
Qed.

Lemma map_clear_refines s : content (clear s) = [].
Proof. unfold clear. induction s as [|e s IH]; [reflexivity|]. cbn [map]. rewrite content_empty by reflexivity. exact IH. Qed.

Lemma map_size_refines s : size s = length (content s).
Proof.
  unfold size. assert (H : forall n, fold_left (fun siz (e : Z * Z) => if isEmpty (fst e) then siz else S siz) s n
    = (n + length (content s))%nat); [|apply (H 0%nat)].
  induction s as [|e s IH]; intros n; cbn [fold_left]; [cbn; lia|].
  destruct (isEmpty (fst e)) eqn:He; rewrite IH;
    [rewrite content_empty by exact He; reflexivity|rewrite content_live by exact He; cbn [length]; lia].
Qed.

(** ** The invariant *)

Lemma map_set_ok s k v : map_ok s -> valid k -> map_ok (set s k v).
Proof.
  intros [Hs Hnd] Hk. split.
  - pose proof (findEntry_spec s k Hs Hk) as H. unfold set. destruct (findEntry s k) as [i|].
    + destruct H as (s1 & e & s2 & -> & <- & _). rewrite list_lookup_middle, insert_middle by reflexivity.
      apply Forall_app in Hs as [H1 H2]. inversion H2; subst. apply Forall_app. split; [assumption|].
      constructor; assumption.
    + apply Forall_app. split; [exact Hs|]. constructor; [|constructor].
      destruct (normalizeKey_spec k Hk) as (Hv & _ & Hz). right. auto.
  - rewrite (map_set_refines s k v Hs Hk), assoc_set_keys. case_match; [exact Hnd|].
    apply list.NoDup_app. split; [exact Hnd|]. split; [|apply NoDup_singleton].
    intros x Hx Hin. apply list_elem_of_singleton in Hin. subst. contradiction.
Qed.

Lemma assoc_delete_sublist k l : sublist (map fst (assoc_delete k l)) (map fst l).
Proof.
  induction l as [|[k' v] l IH]; cbn; [constructor|]. destruct (decide (k' = k)); cbn; [apply sublist_cons|apply sublist_skip]; exact IH.
Qed.

Lemma map_delete_ok s k : map_ok s -> valid k -> map_ok (fst (deleteOperation s k)).
Proof.
  intros Hm Hk. pose proof (map_delete_refines s k Hm Hk) as [Hc _]. destruct Hm as [Hs Hnd]. split.
  - unfold deleteOperation. destruct (findEntry s k) as [i|]; [|exact Hs]. apply Forall_insert; [exact Hs|].
    left. reflexivity.
  - rewrite Hc. eapply sublist_NoDup; [exact Hnd|apply assoc_delete_sublist].
Qed.

Lemma map_clear_ok s : map_ok (clear s).
Proof.
  split; [|rewrite map_clear_refines; constructor]. unfold clear. apply Forall_map, Forall_true. intros e. left. reflexivity.
Qed.
End Refinement.

(** ** Iteration while the map changes *)

Section Iteration.
Context {heap : Heap}.

Definition live (s : MapObjectData) (i : nat) : Prop :=
  exists e, s !! i = Some e /\ isEmpty (fst e) = false.

(** The runs of one iterator of a kind over a map that is changed between its
    steps: the map, the iterator, and the positions it has answered so far. *)
Inductive history (kind : Type_) : MapObjectData -> MapIteratorObject -> list nat -> Prop :=
| history_start s : history kind s (MapIterator kind) []
| history_set s it vs k v : history kind s it vs -> history kind (set s k v) it vs
| history_delete s it vs k : history kind s it vs -> history kind (fst (deleteOperation s k)) it vs
| history_clear s it vs : history kind s it vs -> history kind (clear s) it vs
| history_done s it vs it' : history kind s it vs -> advance s it = (IterDone, it') -> history kind s it' vs
| history_visit s it vs r it' : history kind s it vs -> advance s it = (r, it') -> r <> IterDone ->
    history kind s it' (vs ++ [(m_iteratorIndex it' - 1)%nat]).

Lemma advanceLoop_spec s i j e :
  (i <= length s)%nat -> advanceLoop (drop i s) i = (j, e) ->
  match e with
  | None => j = length s /\ forall k, (i <= k)%nat -> ~ live s k
  | Some e => (i < j <= length s)%nat /\ s !! (j - 1)%nat = Some e /\ isEmpty (fst e) = false /\
      forall k, (i <= k < j - 1)%nat -> ~ live s k
  end.
Proof.
  remember (drop i s) as l eqn:Hl. revert i Hl. induction l as [|x l IH]; intros i Hl Hi H; cbn [advanceLoop] in H.
  - injection H as <- <-. assert (Hlen : length (drop i s) = 0%nat) by (rewrite <- Hl; reflexivity).
    rewrite length_drop in Hlen. split; [lia|]. intros k Hk (e & He & _). apply lookup_lt_Some in He. lia.
  - assert (Hx : s !! i = Some x) by (rewrite <- (Nat.add_0_r i), <- lookup_drop, <- Hl; reflexivity).
    pose proof (lookup_lt_Some _ _ _ Hx) as Hlt.
    destruct (isEmpty (fst x)) eqn:Hempty.
    + assert (Hl' : l = drop (S i) s) by (rewrite (drop_S _ _ _ Hx) in Hl; congruence).
      specialize (IH (S i) Hl' ltac:(lia) H).
      assert (Hdead : ~ live s i) by (intros (e' & He' & Hne); congruence).
      destruct e as [e|].
      * destruct IH as (H1 & H2 & H3 & H4). split; [lia|]. split; [exact H2|]. split; [exact H3|].
        intros k Hk. destruct (decide (k = i)) as [->|]; [exact Hdead|apply H4; lia].
      * destruct IH as [H1 H2]. split; [exact H1|]. intros k Hk.
        destruct (decide (k = i)) as [->|]; [exact Hdead|apply H2; lia].
    + injection H as <- <-. replace (S i - 1)%nat with i by lia. split; [lia|]. split; [exact Hx|].
      split; [exact Hempty|]. intros k Hk. lia.
Qed.

(** Operations neither shorten the vector nor revive an entry. *)
Definition grows (s s' : MapObjectData) : Prop :=
  (length s <= length s')%nat /\ forall i, (i < length s)%nat -> live s' i -> live s i.

Lemma grows_insert s i e0 e :
  s !! i = Some e0 -> isEmpty (fst e) = false -> isEmpty (fst e0) = isEmpty (fst e) -> grows s (<[i := e]> s).
Proof.
  intros H0 He Hsame. split; [rewrite length_insert; lia|]. intros j Hj (x & Hx & Hl).
  destruct (decide (j = i)) as [->|Hne]; [exists e0; split; [exact H0|congruence]|].
  rewrite list_lookup_insert_ne in Hx by congruence. exists x. auto.
Qed.

Lemma grows_kill s i : grows s (<[i := emptyEntry]> s).
Proof.
  split; [rewrite length_insert; lia|]. intros j Hj (x & Hx & Hl).
  destruct (decide (j = i)) as [->|Hne].
  - rewrite list_lookup_insert_eq in Hx by exact Hj. injection Hx as <-. discriminate Hl.
  - rewrite list_lookup_insert_ne in Hx by congruence. exists x. auto.
Qed.

Lemma findEntry_live s k i : findEntry s k = Some i -> live s i.
Proof.
  revert i. induction s as [|[k' v'] s IH]; cbn [findEntry]; intros i H; [discriminate|].
  assert (Hrest : option_map S (findEntry s k) = Some i -> live ((k', v') :: s) i).
  { destruct (findEntry s k) as [j|]; [|discriminate]. intros [= <-]. exact (IH j eq_refl). }
  destruct (isEmpty k') eqn:He; [exact (Hrest H)|].
  destruct (equalsToByTheSameValueZeroAlgorithm k' k); [|exact (Hrest H)].
  injection H as <-. exists (k', v'). auto.
Qed.

Lemma grows_set s k v : grows s (set s k v).
Proof.
  unfold set. destruct (findEntry s k) as [i|] eqn:Hf.
  - destruct (findEntry_live s k i Hf) as (e & He & Hl). rewrite He. apply (grows_insert s i e); auto.
  - split; [rewrite length_app; lia|]. intros i Hi (e & He & Hl).
    rewrite lookup_app_l in He by exact Hi. exists e. auto.
Qed.

Lemma grows_delete s k : grows s (fst (deleteOperation s k)).
Proof.
  unfold deleteOperation. destruct (findEntry s k) as [i|]; cbn [fst]; [apply grows_kill|].
  split; [lia|auto].
Qed.

Lemma grows_clear s : grows s (clear s).
Proof.
  unfold clear. split; [rewrite length_map; lia|]. intros i Hi (e & He & Hl).
  rewrite list_lookup_fmap in He. destruct (s !! i); [|discriminate]. injection He as <-. discriminate Hl.
Qed.

(** What holds between any two steps. *)
Definition iteration_ok (kind : Type_) (s : MapObjectData) (it : MapIteratorObject) (vs : list nat) : Prop :=
  m_type it = kind /\ (m_iteratorIndex it <= length s)%nat /\
  StronglySorted lt vs /\ (forall i, In i vs -> (i < m_iteratorIndex it)%nat) /\
  (forall i, (i < m_iteratorIndex it)%nat -> live s i -> In i vs).

Lemma iteration_ok_grows kind s s' it vs :
  grows s s' -> iteration_ok kind s it vs -> iteration_ok kind s' it vs.
Proof.
  intros [Hl Hg] (Hk & Hi & Hs & Hlt & Hin). split; [exact Hk|]. split; [lia|].
  split; [exact Hs|]. split; [exact Hlt|]. intros i Hlt' Hlive. apply Hin; [exact Hlt'|]. apply Hg; [lia|exact Hlive].
Qed.

(** One call of [advance]. *)
Lemma advance_spec kind s it vs r it' :
  iteration_ok kind s it vs -> advance s it = (r, it') ->
  m_type it' = kind /\
  match r with
  | IterDone => m_map it' = false /\ (m_iteratorIndex it <= m_iteratorIndex it' <= length s)%nat /\
      (m_map it = true -> forall i, live s i -> In i vs) /\
      (forall i, (i < m_iteratorIndex it')%nat -> live s i -> In i vs)
  | _ =>
    let i := (m_iteratorIndex it' - 1)%nat in
    (m_iteratorIndex it <= i)%nat /\ (i < m_iteratorIndex it' <= length s)%nat /\
    (exists e, s !! i = Some e /\ isEmpty (fst e) = false /\ r = resultOf kind e) /\
    (forall j, In j vs -> (j < i)%nat) /\ (forall j, (j < i)%nat -> live s j -> In j vs)
  end.
Proof.
  intros (Hk & Hi & Hs & Hlt & Hin) H. unfold advance in H. destruct (m_map it) eqn:Hm; cbn [negb] in H.
  2:{ injection H as <- <-. split; [exact Hk|]. split; [exact Hm|]. split; [lia|]. split; [intros [=]|exact Hin]. }
  destruct (advanceLoop (drop (m_iteratorIndex it) s) (m_iteratorIndex it)) as [j e] eqn:Hloop.
  pose proof (advanceLoop_spec s _ _ _ Hi Hloop) as Hspec. destruct e as [e|].
  - destruct Hspec as (H1 & H2 & H3 & H4).
    injection H as <- <-. cbn [m_type m_iteratorIndex]. split; [exact Hk|].
    assert (Hres : exists e', s !! (j - 1)%nat = Some e' /\ isEmpty (fst e') = false /\ resultOf (m_type it) e = resultOf kind e').
    { exists e. rewrite Hk. auto. }
    assert (Hrest : (m_iteratorIndex it <= j - 1)%nat /\ (j - 1 < j <= length s)%nat /\
      (exists e', s !! (j - 1)%nat = Some e' /\ isEmpty (fst e') = false /\ resultOf (m_type it) e = resultOf kind e') /\
      (forall k, In k vs -> (k < j - 1)%nat) /\ (forall k, (k < j - 1)%nat -> live s k -> In k vs)).
    { split; [lia|]. split; [lia|]. split; [exact Hres|]. split; [intros k Hk'; specialize (Hlt k Hk'); lia|].
      intros k Hk' Hl. destruct (Nat.lt_ge_cases k (m_iteratorIndex it)); [apply Hin; assumption|].
      destruct (H4 k ltac:(lia) Hl). }
    destruct (m_type it); exact Hrest.
  - destruct Hspec as [-> H2]. injection H as <- <-. cbn [m_type m_iteratorIndex m_map]. split; [exact Hk|].
    assert (Hall : forall i, live s i -> In i vs).
    { intros i Hl. destruct (Nat.lt_ge_cases i (m_iteratorIndex it)); [apply Hin; assumption|]. destruct (H2 i ltac:(lia) Hl). }
    repeat split; try lia; auto.
Qed.

Lemma StronglySorted_snoc vs i : StronglySorted lt vs -> (forall j, In j vs -> (j < i)%nat) -> StronglySorted lt (vs ++ [i]).
Proof.
  induction vs as [|x vs IH]; intros Hs Hlt; cbn [app]; [repeat constructor|].
  inversion Hs as [|? ? Hs' Hx]; subst. constructor.
  - apply IH; [exact Hs'|]. intros j Hj. apply Hlt. right. exact Hj.
  - apply Forall_app. split; [exact Hx|]. constructor; [|constructor]. apply Hlt. left. reflexivity.
Qed.

Lemma history_ok kind s it vs : history kind s it vs -> iteration_ok kind s it vs.
Proof.
  induction 1 as [s|s it vs k v _ IH|s it vs k _ IH|s it vs _ IH|s it vs it' _ IH H|s it vs r it' _ IH H Hr].
  - repeat split; try (cbn; lia); try constructor; cbn; intros; lia || contradiction.
  - exact (iteration_ok_grows _ _ _ _ _ (grows_set s k v) IH).
  - exact (iteration_ok_grows _ _ _ _ _ (grows_delete s k) IH).
  - exact (iteration_ok_grows _ _ _ _ _ (grows_clear s) IH).
  - destruct (advance_spec kind s it vs _ it' IH H) as (Hk & _ & Hi & _ & Hin).
    destruct IH as (_ & _ & Hs & Hlt & _). split; [exact Hk|]. split; [lia|]. split; [exact Hs|].
    split; [intros i Hi'; specialize (Hlt i Hi'); lia|exact Hin].
  - destruct (advance_spec kind s it vs r it' IH H) as (Hk & Hrest).
    assert (Hgood : (m_iteratorIndex it' <= length s)%nat /\ (0 < m_iteratorIndex it')%nat /\
      (forall j, In j vs -> (j < m_iteratorIndex it' - 1)%nat) /\
      (forall j, (j < m_iteratorIndex it' - 1)%nat -> live s j -> In j vs)).
    { destruct r; [| |congruence]; destruct Hrest as (H1 & H2 & _ & H3 & H4); (split; [lia|]; split; [lia|]; auto). }
    destruct Hgood as (H1 & H2 & H3 & H4). destruct IH as (_ & _ & Hs & _ & _).
    split; [exact Hk|]. split; [exact H1|]. split; [apply StronglySorted_snoc; assumption|]. split.
    + intros i Hi. apply in_app_iff in Hi as [Hi|[<-|[]]]; [specialize (H3 i Hi); lia|lia].
    + intros i Hi Hl. apply in_app_iff. destruct (decide (i = m_iteratorIndex it' - 1)%nat) as [->|]; [right; left; reflexivity|].
      left. apply H4; [lia|exact Hl].
Qed.
End Iteration.

(** ** The theorems *)

(** C13: a map is the insertion-ordered association list of its live entries, with
    keys compared by SameValueZero.  On a well-formed map and any key, set replaces
    in place or adds at the end, and keeps the map well formed (values as keys, no
    two the same, never -0); get, has, delete, clear and size are those of the
    list. *)
Theorem map_refines (heap : Heap) s k v :
  map_ok s -> valid k ->
  (map_ok (set s k v) /\ content (set s k v) = assoc_set (keyOf k) v (content s)) /\
  (map_ok (fst (deleteOperation s k)) /\
   content (fst (deleteOperation s k)) = assoc_delete (keyOf k) (content s) /\
   snd (deleteOperation s k) = has s k) /\
  (map_ok (clear s) /\ content (clear s) = []) /\
  get s k = default ValueUndefined (assoc (keyOf k) (content s)) /\
  has s k = bool_decide (is_Some (assoc (keyOf k) (content s))) /\
  size s = length (content s).
Proof.
  intros Hs Hk. split; [split; [apply map_set_ok|apply map_set_refines]; try assumption; apply Hs|].
  split; [split; [apply map_delete_ok; assumption|apply map_delete_refines; assumption]|].
  split; [split; [apply map_clear_ok|apply map_clear_refines]|].
  split; [apply map_get_refines; [apply Hs|exact Hk]|].
  split; [apply map_has_refines; [apply Hs|exact Hk]|apply map_size_refines].
Qed.

Lemma map_refines_witness :
  let heap : Heap := fun _ => ObjectPointer in
  get (set [] (Value_EncodeAsDouble negative_zero) (Value_int 7)) (Value_int 0) = Value_int 7 /\
  map_ok (set [] (Value_EncodeAsDouble negative_zero) (Value_int 7)).
Proof.
  intros heap.
  destruct (map_refines heap [] (Value_EncodeAsDouble negative_zero) (Value_int 7)) as [[H _] _].
  - split; constructor.
  - exists (RDouble negative_zero). split; [split; [discriminate|reflexivity]|reflexivity].
  - split; [vm_compute; reflexivity|exact H].
Defined.

(** An iterator stays right while the map is changed between its steps by any
    sets, deletions and clearings.  The positions it answers go up strictly, so no
    entry is answered twice; a step answers the first live entry not yet visited, as
    it is at that moment; when a step answers that the iteration is over, every
    entry then in the map has been answered, those added on the way included, and
    from then on the iterator stays at the end. *)
Theorem iteration_in_order (heap : Heap) kind s it vs r it' :
  history kind s it vs -> advance s it = (r, it') ->
  StronglySorted lt vs /\
  match r with
  | IterDone => m_map it' = false /\ (m_map it = true -> forall i, live s i -> In i vs)
  | _ =>
    let i := (m_iteratorIndex it' - 1)%nat in
    (exists e, s !! i = Some e /\ isEmpty (fst e) = false /\ r = resultOf kind e) /\
    (forall j, In j vs -> (j < i)%nat) /\ (forall j, (j < i)%nat -> live s j -> In j vs)
  end.
Proof.
  intros Hh Ha. pose proof (history_ok kind s it vs Hh) as Hok.
  destruct (advance_spec kind s it vs r it' Hok Ha) as [_ H]. destruct Hok as (_ & _ & Hs & _).
  split; [exact Hs|].
  destruct r; [exact (proj2 (proj2 H))|exact (proj2 (proj2 H))|]. destruct H as (H1 & _ & H2 & _). auto.
Qed.

(** One entry is answered, then a key is added, and the next step answers it. *)
Lemma iteration_in_order_witness :
  let heap : Heap := fun _ => ObjectPointer in
  let s0 := set [] (Value_int 1) (Value_int 10) in
  let '(r1, it1) := advance s0 (MapIterator TypeKey) in
  let s1 := set s0 (Value_int 2) (Value_int 20) in
  fst (advance s1 it1) = IterValue (Value_int 2) /\ (forall j, In j [0%nat] -> (j < 1)%nat).
Proof.
  intros heap s0. destruct (advance s0 (MapIterator TypeKey)) as [r1 it1] eqn:H1.
  assert (Hit : it1 = {| m_map := true; m_iteratorIndex := 1; m_type := TypeKey |}) by (vm_compute in H1; congruence).
  assert (Hr : r1 <> IterDone) by (vm_compute in H1; congruence).
  cbv zeta. destruct (advance (set s0 (Value_int 2) (Value_int 20)) it1) as [r2 it2] eqn:H2.
  assert (Hh : history TypeKey (set s0 (Value_int 2) (Value_int 20)) it1 [0%nat]).
  { apply history_set. pose proof (history_visit TypeKey s0 _ [] r1 it1 (history_start TypeKey s0) H1 Hr) as H.
    rewrite Hit in H |- *. exact H. }
  destruct (iteration_in_order heap TypeKey _ it1 [0%nat] r2 it2 Hh H2) as [_ H].
  rewrite Hit in H2. vm_compute in H2. injection H2 as <- <-. destruct H as (_ & H & _).
  split; [reflexivity|exact H].
Defined.

(** [forEach] reads the map afresh at every turn, and still ends, or throws what
    the callback throws, when the callback adds no entry: a callback may change and
    delete entries as it likes. *)
Theorem forEach_ends callbackfn s :
  (forall v k s1, wp (callbackfn v k) s1 (fun _ s2 => length s2 = length s1) (fun _ _ => True)) ->
  exists r s', forEach (S (length s)) callbackfn s = (r, s') /\ r <> Fuel.
Proof.
  intros Hcb.
  assert (H : wp (forEach (S (length s)) callbackfn) s (fun _ _ => True) (fun _ _ => True)).
  { unfold forEach. apply (wp_loop (fun i s1 => length s1 = length s)
      (fun i s1 => length s - i)%nat); [|reflexivity|lia].
    intros i s1 Hlen. unfold forEach_turn. apply wp_bind. unfold wp at 1, gets.
    destruct (s1 !! i) as [[k v]|] eqn:Hi; [|exact I].
    apply lookup_lt_Some in Hi. destruct (isEmpty k); [unfold wp, continue, ret; lia|].
    apply wp_bind. eapply wp_mono; [apply Hcb| |auto]. intros u s2 H2. cbn in H2. unfold wp, continue, ret. lia. }
  unfold wp in H. destruct (forEach _ _ _) as [[a|e|] s']; [| |contradiction];
    (eexists _, s'; split; [reflexivity|discriminate]).
Qed.

(** A callback that deletes every key it is given. *)
Lemma forEach_ends_witness :
  let heap : Heap := fun _ => ObjectPointer in
  let s := set (set [] (Value_int 1) (Value_int 10)) (Value_int 2) (Value_int 20) in
  let callbackfn := fun (_ k : Z) (m : MapObjectData) => (Ret ValueUndefined : outcome Z Z, fst (deleteOperation m k)) in
  (exists r s', forEach 3 callbackfn s = (r, s') /\ r <> Fuel) /\
  forEach 3 callbackfn s = (Ret tt, [emptyEntry; emptyEntry]).
Proof.
  intros heap s callbackfn. split; [|vm_compute; reflexivity].
  apply (forEach_ends callbackfn s). intros v k s1. unfold wp, callbackfn.
  unfold deleteOperation. destruct (findEntry s1 k); cbn [fst]; [apply length_insert|reflexivity].
Defined.
