(* ===== verification/SetObject.v ===== *)
(** * Set objects and their iterators ([runtime/SetObject.cpp])

    A set is a vector of values with the same discipline as a map's.  Its
    operations are those of the map that sends each element to undefined, which
    carries the theorems over. *)

From Stdlib Require Import Sorted.
From S2P Require Import Prelude Float64 Ieee754 Value MapObject.
Local Open Scope Z_scope.

Abbreviation SetObjectData := (list Z).

Section Sets.
Context {heap : Heap}.

(** The loop all operations start with. *)
Fixpoint findElement (m_storage : SetObjectData) (key : Z) : option nat :=
  match m_storage with
  | [] => None
  | existingKey :: rest =>
    if isEmpty existingKey then option_map S (findElement rest key)
    else if equalsToByTheSameValueZeroAlgorithm existingKey key then Some 0%nat
    else option_map S (findElement rest key)
  end.

Definition set_clear (m_storage : SetObjectData) : SetObjectData := map (fun _ => ValueEmpty) m_storage.

Definition set_deleteOperation (m_storage : SetObjectData) (key : Z) : SetObjectData * bool :=
  match findElement m_storage key with
  | Some i => (<[i := ValueEmpty]> m_storage, true)
  | None => (m_storage, false)
  end.

Definition set_add (m_storage : SetObjectData) (key : Z) : SetObjectData :=
  match findElement m_storage key with
  | Some _ => m_storage
  | None =>
    m_storage ++ [if isNumber key && feq (asNumber key) 0 && signbit (asNumber key) then Value_int 0 else key]
  end.

Definition set_has (m_storage : SetObjectData) (key : Z) : bool :=
  match findElement m_storage key with Some _ => true | None => false end.

Definition set_size (m_storage : SetObjectData) : nat :=
  fold_left (fun siz (e : Z) => if isEmpty e then siz else S siz) m_storage 0%nat.

(** ** Iterators *)

Inductive SetType_ : Set := SetTypeKey | SetTypeValue | SetTypeKeyValue.

Record SetIteratorObject := { m_set : bool; set_iteratorIndex : nat; set_type : SetType_ }.

Definition SetIterator (type : SetType_) : SetIteratorObject :=
  {| m_set := true; set_iteratorIndex := 0; set_type := type |}.

Fixpoint set_advanceLoop (entries : SetObjectData) (index : nat) : nat * option Z :=
  match entries with
  | [] => (index, None)
  | e :: rest => if isEmpty e then set_advanceLoop rest (S index) else (S index, Some e)
  end.

Definition set_advance (m_storage : SetObjectData) (it : SetIteratorObject) : IterationResult * SetIteratorObject :=
  if negb (m_set it) then (IterDone, it)
  else
    let '(index, e) := set_advanceLoop (drop (set_iteratorIndex it) m_storage) (set_iteratorIndex it) in
    match e with
    | Some e => (match set_type it with
                 | SetTypeKeyValue => IterPair e e
                 | _ => IterValue e
                 end, {| m_set := true; set_iteratorIndex := index; set_type := set_type it |})
    | None => (IterDone, {| m_set := false; set_iteratorIndex := index; set_type := set_type it |})
    end.

(** [builtinSetForEach]: the callback gets the element twice. *)
Definition set_forEach_turn (callbackfn : Z -> Z -> M SetObjectData Z Z) (i : nat)
    : M SetObjectData Z (nat + unit) :=
  (let! e := gets (fun entries => entries !! i) in
   match e with
   | None => break tt
   | Some e => if isEmpty e then continue (S i) else do! callbackfn e e in continue (S i)
   end)%esc.

Definition set_forEach (fuel : nat) (callbackfn : Z -> Z -> M SetObjectData Z Z) : M SetObjectData Z unit :=
  loop fuel (set_forEach_turn callbackfn) 0%nat.

(** ** A set as the map to undefined *)

Definition asEntry (e : Z) : Z * Z := if isEmpty e then emptyEntry else (e, ValueUndefined).
Definition asMap (s : SetObjectData) : MapObjectData := map asEntry s.

Lemma asEntry_empty e : isEmpty (fst (asEntry e)) = isEmpty e.
Proof. unfold asEntry. destruct (isEmpty e) eqn:H; [reflexivity|exact H]. Qed.

Lemma asEntry_live e : isEmpty e = false -> asEntry e = (e, ValueUndefined).
Proof. intros H. unfold asEntry. rewrite H. reflexivity. Qed.

Lemma findElement_asMap s k : findElement s k = findEntry (asMap s) k.
Proof.
  induction s as [|e s IH]; cbn [findElement asMap map findEntry]; [reflexivity|]. fold (asMap s).
  unfold asEntry. destruct (isEmpty e) eqn:He.
  - cbn. rewrite IH. reflexivity.
  - rewrite He, IH. reflexivity.
Qed.

Lemma delete_asMap s k :
  asMap (fst (set_deleteOperation s k)) = fst (deleteOperation (asMap s) k) /\
  snd (set_deleteOperation s k) = snd (deleteOperation (asMap s) k).
Proof.
  unfold set_deleteOperation, deleteOperation. rewrite findElement_asMap.
  destruct (findEntry (asMap s) k) as [i|]; [|auto]. split; [|reflexivity]. cbn [fst].
  unfold asMap. apply (list_fmap_insert asEntry).
Qed.

Lemma add_asMap s k : valid k -> asMap (set_add s k) = set (asMap s) k ValueUndefined.
Proof.
  intros Hk. unfold set_add, set. rewrite findElement_asMap.
  destruct (findEntry (asMap s) k) as [i|] eqn:Hf.
  - destruct (findEntry_live (asMap s) k i Hf) as (e & He & Hl). rewrite He. symmetry.
    apply list_insert_id. rewrite He. unfold asMap in He. apply list_lookup_fmap_Some in He as (x & -> & Hx).
    unfold asEntry in *. destruct (isEmpty x); [discriminate Hl|reflexivity].
  - unfold asMap. rewrite map_app. cbn [map]. do 2 f_equal. fold (normalizeKey k).
    apply asEntry_live, valid_not_empty. apply normalizeKey_spec, Hk.
Qed.

Lemma clear_asMap s : asMap (set_clear s) = clear (asMap s).
Proof. unfold asMap, set_clear, clear. rewrite !map_map. reflexivity. Qed.

Lemma size_asMap s : set_size s = size (asMap s).
Proof.
  unfold set_size, size. generalize 0%nat. induction s as [|e s IH]; intros n; [reflexivity|].
  cbn [fold_left asMap map]. rewrite asEntry_empty. apply IH.
Qed.

(** The loop of [advance] over the embedded entries. *)
Lemma advanceLoop_asMap s : forall i,
  advanceLoop (asMap s) i = (fst (set_advanceLoop s i), option_map asEntry (snd (set_advanceLoop s i))).
Proof.
  induction s as [|e s IH]; intros i; [reflexivity|]. cbn [asMap map advanceLoop set_advanceLoop]. fold (asMap s).
  rewrite asEntry_empty. destruct (isEmpty e); [apply IH|reflexivity].
Qed.

Lemma advanceLoop_live s : forall i e, snd (set_advanceLoop s i) = Some e -> isEmpty e = false.
Proof.
  induction s as [|x s IH]; intros i e; cbn [set_advanceLoop]; [discriminate|].
  destruct (isEmpty x) eqn:Hx; [apply IH|]. cbn [snd]. congruence.
Qed.

(** The map iterator over the keys that runs beside a set iterator. *)
Definition asKeyIterator (it : SetIteratorObject) : MapIteratorObject :=
  {| m_map := m_set it; m_iteratorIndex := set_iteratorIndex it; m_type := TypeKey |}.

Definition asSetResult (type : SetType_) (r : IterationResult) : IterationResult :=
  match r, type with
  | IterValue e, SetTypeKeyValue => IterPair e e
  | _, _ => r
  end.

Lemma advance_asMap s it :
  let '(r, it') := set_advance s it in
  advance (asMap s) (asKeyIterator it) = (fst (advance (asMap s) (asKeyIterator it)), asKeyIterator it') /\
  r = asSetResult (set_type it) (fst (advance (asMap s) (asKeyIterator it))) /\
  set_type it' = set_type it.
Proof.
  unfold set_advance, advance. cbn [asKeyIterator m_map m_iteratorIndex m_type].
  destruct (m_set it) eqn:Hm; cbn [negb]; [|cbn; unfold asKeyIterator; rewrite Hm; auto].
  unfold asMap. rewrite <- fmap_drop. fold (asMap (drop (set_iteratorIndex it) s)). rewrite advanceLoop_asMap.
  pose proof (advanceLoop_live (drop (set_iteratorIndex it) s) (set_iteratorIndex it)) as Hlive.
  destruct (set_advanceLoop _ _) as [j [e|]]; cbn [fst snd option_map] in *; [|auto].
  specialize (Hlive e eq_refl). rewrite (asEntry_live e Hlive). destruct (set_type it) eqn:Ht; auto.
Qed.

(** ** The set as the list of its elements *)

Definition elementOf (e : Z) : option JSValue := if isEmpty e then None else Some (keyOf e).
Definition elements (s : SetObjectData) : list JSValue := omap elementOf s.

Definition set_ok (s : SetObjectData) : Prop :=
  Forall (fun e => e = ValueEmpty \/ (valid e /\ e <> Value_EncodeAsDouble negative_zero)) s /\
  NoDup (elements s).

Lemma elements_content s : elements s = map fst (content (asMap s)).
Proof.
  induction s as [|e s IH]; [reflexivity|]. cbn [asMap map]. fold (asMap s).
  change (elements (e :: s)) with (match elementOf e with Some x => x :: elements s | None => elements s end).
  unfold elementOf. destruct (isEmpty e) eqn:He.
  - rewrite content_empty by (rewrite asEntry_empty; exact He). exact IH.
  - rewrite content_live by (rewrite asEntry_empty; exact He). rewrite (asEntry_live e He). cbn. rewrite IH. reflexivity.
Qed.

Lemma set_ok_asMap s : set_ok s <-> map_ok (asMap s).
Proof.
  unfold set_ok, map_ok. rewrite elements_content. apply and_iff_compat_r.
  unfold asMap. rewrite Forall_map. apply Forall_iff. intros e. unfold entry_ok, asEntry.
  destruct (isEmpty e) eqn:He; cbn [fst]; [|reflexivity].
  split; [intros _; left; reflexivity|]. intros _. left. apply Z.eqb_eq, He.
Qed.

Lemma assoc_delete_filter k l : map fst (assoc_delete k l) = filter (fun x => x <> k) (map fst l).
Proof.
  induction l as [|[k' v] l IH]; [reflexivity|]. cbn [assoc_delete map fst]. destruct (decide (k' = k)) as [->|Hne].
  - rewrite filter_cons_False by tauto. exact IH.
  - rewrite filter_cons_True by exact Hne. cbn. rewrite IH. reflexivity.
Qed.

Lemma assoc_some k l : is_Some (assoc k l) <-> k ∈ map fst l.
Proof.
  rewrite <- not_eq_None_Some, assoc_none. destruct (decide (k ∈ map fst l)); tauto.
Qed.

Lemma has_asMap s k : set_has s k = has (asMap s) k.
Proof. unfold set_has, has. rewrite findElement_asMap. reflexivity. Qed.
End Sets.

(** ** The theorems *)

(** A set is the list of its distinct elements, by SameValueZero, in the order
    of insertion: on a well-formed set and any value, add appends an element that
    was not there and changes nothing else, delete removes it and tells whether it
    was there, clear empties the set, and each keeps it well formed; has and size
    are membership and length. *)
Theorem set_refines (heap : Heap) s k :
  set_ok s -> valid k ->
  (set_ok (set_add s k) /\
   elements (set_add s k) = if decide (keyOf k ∈ elements s) then elements s else elements s ++ [keyOf k]) /\
  (set_ok (fst (set_deleteOperation s k)) /\
   elements (fst (set_deleteOperation s k)) = filter (fun x => x <> keyOf k) (elements s) /\
   snd (set_deleteOperation s k) = set_has s k) /\
  (set_ok (set_clear s) /\ elements (set_clear s) = []) /\
  set_has s k = bool_decide (keyOf k ∈ elements s) /\
  set_size s = length (elements s).
Proof.
  intros Hs Hk. apply set_ok_asMap in Hs. rewrite !set_ok_asMap, !elements_content.
  destruct (delete_asMap s k) as [D1 D2]. rewrite (add_asMap s k Hk), D1, D2, clear_asMap, has_asMap, size_asMap.
  split; [split; [apply map_set_ok; assumption|rewrite map_set_refines by (apply Hs || exact Hk); apply assoc_set_keys]|].
  destruct (map_delete_refines (asMap s) k Hs Hk) as [Hc Hh]. rewrite Hc, Hh.
  split; [split; [apply map_delete_ok; assumption|split; [apply assoc_delete_filter|reflexivity]]|].
  split; [rewrite map_clear_refines; split; [apply map_clear_ok|reflexivity]|].
  rewrite map_has_refines by (apply Hs || exact Hk). rewrite map_size_refines, length_map.
  split; [apply bool_decide_ext, assoc_some|reflexivity].
Qed.

Lemma set_refines_witness :
  let heap : Heap := fun _ => ObjectPointer in
  let s := set_add [] (Value_int 3) in
  set_ok (set_add s (Value_EncodeAsDouble (of_integer 3))) /\
  elements (set_add s (Value_EncodeAsDouble (of_integer 3))) = elements s.
Proof.
  intros heap s.
  assert (H3 : valid (Value_int 3)) by (exists (RInt 3); split; [cbn; unfold in_int32; lia|reflexivity]).
  assert (Hs : set_ok s).
  { apply set_ok_asMap. unfold s. rewrite (add_asMap [] _ H3). apply map_set_ok; [split; constructor|exact H3]. }
  destruct (set_refines heap s (Value_EncodeAsDouble (of_integer 3)) Hs) as [[H He] _].
  - exists (RDouble (of_integer 3)). split; [split; [discriminate|reflexivity]|reflexivity].
  - split; [exact H|]. rewrite He. vm_compute. reflexivity.
Defined.

(** Iterating a set is iterating the keys of the map to undefined: one step of
    a set iterator is one step of the key iterator beside it, on the same positions,
    with the element answered alone or, for entries, twice; and all changes of the
    set are changes of that map, so the guarantees of the map's iterators under
    mutation are those of the set's. *)
Theorem set_iterates_as_map (heap : Heap) s it k :
  valid k ->
  (let '(r, it') := set_advance s it in
   advance (asMap s) (asKeyIterator it) = (fst (advance (asMap s) (asKeyIterator it)), asKeyIterator it') /\
   r = asSetResult (set_type it) (fst (advance (asMap s) (asKeyIterator it))) /\
   set_type it' = set_type it) /\
  asMap (set_add s k) = set (asMap s) k ValueUndefined /\
  asMap (fst (set_deleteOperation s k)) = fst (deleteOperation (asMap s) k) /\
  asMap (set_clear s) = clear (asMap s).
Proof.
  intros Hk. split; [apply advance_asMap|]. split; [apply add_asMap, Hk|].
  split; [apply delete_asMap|apply clear_asMap].
Qed.

Lemma set_iterates_as_map_witness :
  let heap : Heap := fun _ => ObjectPointer in
  fst (set_advance [ValueEmpty; Value_int 3] (SetIterator SetTypeKeyValue)) = IterPair (Value_int 3) (Value_int 3) /\
  fst (advance (asMap [ValueEmpty; Value_int 3]) (asKeyIterator (SetIterator SetTypeKeyValue))) = IterValue (Value_int 3).
Proof.
  intros heap.
  destruct (set_iterates_as_map heap [ValueEmpty; Value_int 3] (SetIterator SetTypeKeyValue) (Value_int 3)) as [H _].
  - exists (RInt 3). split; [cbn; unfold in_int32; lia|reflexivity].
  - split; [|reflexivity]. destruct (set_advance _ _) as [r it'] eqn:E. destruct H as (_ & H & _). rewrite H. reflexivity.
Defined.
