(* ===== verification/AtomicString.v ===== *)
(** * Strings behind pointers and atomic strings ([runtime/AtomicString.h], [AtomicString.cpp], [String.cpp])

    An atomic string is the one string of its text in the context's table, so
    that equality is a comparison of pointers.  A string remembers the atomic
    string of its text in its tag word once it has been looked up.  The strings
    are the cells of a store with a bump allocator; the table is a hash set keyed
    by text. *)

From stdpp Require Import gmap.
From S2P Require Import Prelude Value.
Local Open Scope Z_scope.

(** ** The store *)

Record StringData := {
  has8BitContent : bool;
  chars : list Z;            (* the UTF-16 units *)
  isStringView : bool;
  m_typeTag : Z
}.

Definition POINTER_VALUE_STRING_TAG_IN_DATA : Z := 1.

(** The strings by address, the table ([AtomicStringMap]) and the next address
    the allocator gives out. *)
Record Strings := {
  cells : gmap Z StringData;
  atomicStringMap : list Z;
  nextAddress : Z
}.

Definition textOf (st : Strings) (p : Z) : list Z :=
  match cells st !! p with Some d => chars d | None => [] end.
Definition typeTagOf (st : Strings) (p : Z) : Z :=
  match cells st !! p with Some d => m_typeTag d | None => 0 end.

Definition setTypeTag (st : Strings) (p tag : Z) : Strings :=
  {| cells := alter (fun d => {| has8BitContent := has8BitContent d; chars := chars d;
                                 isStringView := isStringView d; m_typeTag := tag |}) p (cells st);
     atomicStringMap := atomicStringMap st; nextAddress := nextAddress st |}.

Definition newString (st : Strings) (bits8 : bool) (s : list Z) : Z * Strings :=
  (nextAddress st,
   {| cells := <[nextAddress st := {| has8BitContent := bits8; chars := s; isStringView := false;
                                      m_typeTag := POINTER_VALUE_STRING_TAG_IN_DATA |}]> (cells st);
      atomicStringMap := atomicStringMap st; nextAddress := nextAddress st + 16 |}).

(** [map->find] by text, and [map->insert]. *)
Fixpoint findAtomic (st : Strings) (table : list Z) (s : list Z) : option Z :=
  match table with
  | [] => None
  | p :: rest => if bool_decide (textOf st p = s) then Some p else findAtomic st rest s
  end.
Definition map_find (st : Strings) (s : list Z) : option Z := findAtomic st (atomicStringMap st) s.
Definition map_insert (st : Strings) (p : Z) : Strings :=
  {| cells := cells st; atomicStringMap := atomicStringMap st ++ [p]; nextAddress := nextAddress st |}.

Definition isAllASCII (s : list Z) : bool := forallb (fun c => c <? 128) s.

(** ** The constructors *)

Definition tagFor (p : Z) : Z := Z.lor POINTER_VALUE_STRING_TAG_IN_DATA p.

(** [AtomicString::init] from Latin-1 characters, and from UTF-16 units. *)
Definition initLatin1 (st : Strings) (src : list Z) : Z * Strings :=
  match map_find st src with
  | None =>
    let '(newStr, st) := newString st true src in
    (newStr, setTypeTag (map_insert st newStr) newStr (tagFor newStr))
  | Some m_string => (m_string, st)
  end.

Definition initUTF16 (st : Strings) (src : list Z) : Z * Strings :=
  match map_find st src with
  | None =>
    let '(newStr, st) := newString st (isAllASCII src) src in
    (newStr, setTypeTag (map_insert st newStr) newStr (tagFor newStr))
  | Some m_string => (m_string, st)
  end.

(** A copy of a string view, of the width of its buffer. *)
Definition copyOf (st : Strings) (p : Z) : Z * Strings :=
  match cells st !! p with
  | Some d => newString st (has8BitContent d) (chars d)
  | None => newString st true []
  end.
Definition isView (st : Strings) (p : Z) : bool :=
  match cells st !! p with Some d => isStringView d | None => false end.

(** [AtomicString::init] from a [String]: the string itself goes into the
    table, or a copy when it is a view; it is the local variable that is tagged,
    so a view that was copied keeps its tag. *)
Definition initString (st : Strings) (name : Z) : Z * Strings :=
  match map_find st (textOf st name) with
  | None =>
    let '(name, st) := if isView st name then copyOf st name else (name, st) in
    (name, setTypeTag (map_insert st name) name (tagFor name))
  | Some m_string => (m_string, setTypeTag st name (tagFor m_string))
  end.

(** The constructor from a [String]: the tag answers when it is set. *)
Definition AtomicString (st : Strings) (name : Z) : Z * Strings :=
  let v := typeTagOf st name in
  if POINTER_VALUE_STRING_TAG_IN_DATA <? v
  then (Z.ldiff v POINTER_VALUE_STRING_TAG_IN_DATA, st)
  else initString st name.

(** The constructor from a [StringView]. *)
Definition AtomicStringView (st : Strings) (sv : Z) : Z * Strings :=
  let v := typeTagOf st sv in
  if POINTER_VALUE_STRING_TAG_IN_DATA <? v
  then (Z.ldiff v POINTER_VALUE_STRING_TAG_IN_DATA, st)
  else
    match map_find st (textOf st sv) with
    | None =>
      let '(newStr, st) := copyOf st sv in
      (newStr, setTypeTag (map_insert st newStr) sv (tagFor newStr))
    | Some m_string => (m_string, setTypeTag st sv (tagFor m_string))
    end.

Definition initStaticString (st : Strings) (name : Z) : Z * Strings :=
  let st := map_insert st name in
  (name, setTypeTag st name (tagFor name)).

(** [operator==]. *)
Definition atomicEqual (a b : Z) : bool := a =? b.

(** ** The invariant *)

Definition aligned (p : Z) : Prop := 0 < p /\ p mod 16 = 0.

Record wf_strings (st : Strings) : Prop := {
  wf_next : aligned (nextAddress st);
  wf_cells : forall p d, cells st !! p = Some d -> aligned p /\ p < nextAddress st;
  wf_table : forall p, p ∈ atomicStringMap st -> is_Some (cells st !! p);
  wf_unique : forall p q, p ∈ atomicStringMap st -> q ∈ atomicStringMap st ->
    textOf st p = textOf st q -> p = q;
  wf_tags : forall p d, cells st !! p = Some d ->
    m_typeTag d = POINTER_VALUE_STRING_TAG_IN_DATA \/
    exists a, a ∈ atomicStringMap st /\ m_typeTag d = tagFor a /\ textOf st a = chars d
}.

(** Later states keep the text of every string and every atomic string. *)
Definition extends (st st' : Strings) : Prop :=
  (forall p, is_Some (cells st !! p) -> is_Some (cells st' !! p) /\ textOf st' p = textOf st p) /\
  (forall p, p ∈ atomicStringMap st -> p ∈ atomicStringMap st').

Lemma extends_refl st : extends st st.
Proof. split; auto. Qed.
Lemma extends_trans st st' st'' : extends st st' -> extends st' st'' -> extends st st''.
Proof.
  intros [H1 H2] [H3 H4]. split; [|auto].
  intros p Hp. destruct (H1 p Hp) as [Hp' E]. destruct (H3 p Hp') as [? E']. rewrite E'. auto.
Qed.

Lemma tagFor_aligned p : aligned p ->
  POINTER_VALUE_STRING_TAG_IN_DATA < tagFor p /\ Z.ldiff (tagFor p) POINTER_VALUE_STRING_TAG_IN_DATA = p.
Proof.
  unfold aligned, tagFor, POINTER_VALUE_STRING_TAG_IN_DATA. intros [Hp Hm].
  destruct p as [|[q|q|]|]; try lia; split; reflexivity || lia || (cbn; lia).
Qed.

Lemma textOf_setTypeTag st p tag q : textOf (setTypeTag st p tag) q = textOf st q.
Proof.
  unfold textOf. cbn. destruct (decide (p = q)) as [->|Hne].
  - rewrite lookup_alter_eq. destruct (cells st !! q); reflexivity.
  - rewrite lookup_alter_ne by exact Hne. reflexivity.
Qed.

Lemma findAtomic_spec st table s :
  match findAtomic st table s with
  | Some p => p ∈ table /\ textOf st p = s
  | None => forall p, p ∈ table -> textOf st p <> s
  end.
Proof.
  induction table as [|p table IH]; cbn [findAtomic].
  - intros p Hp. apply elem_of_nil in Hp as [].
  - case_bool_decide as E.
    + split; [left|exact E].
    + destruct (findAtomic st table s) as [q|].
      * destruct IH as [Hq Eq]. split; [right|]; assumption.
      * intros q Hq. apply elem_of_cons in Hq as [->|Hq]; auto.
Qed.
Lemma map_find_spec st s :
  match map_find st s with
  | Some p => p ∈ atomicStringMap st /\ textOf st p = s
  | None => forall p, p ∈ atomicStringMap st -> textOf st p <> s
  end.
Proof. apply findAtomic_spec. Qed.

Lemma setTypeTag_ok st p a : wf_strings st -> a ∈ atomicStringMap st -> textOf st a = textOf st p ->
  wf_strings (setTypeTag st p (tagFor a)) /\ extends st (setTypeTag st p (tagFor a)).
Proof.
  intros [Hn Hc Ht Hu Hg] Ha E.
  assert (Hsome : forall q, is_Some (cells (setTypeTag st p (tagFor a)) !! q) <-> is_Some (cells st !! q)).
  { intros q. cbn.
    destruct (decide (p = q)) as [->|Hne];
      [rewrite ?lookup_alter_eq, ?fmap_is_Some|rewrite ?lookup_alter_ne by exact Hne]; reflexivity. }
  split; [constructor|split].
  - exact Hn.
  - intros q d Hd. destruct (proj1 (Hsome q) (mk_is_Some _ _ Hd)) as [d' Hd']. eauto.
  - intros q Hq. apply Hsome. auto.
  - intros q q'. rewrite !textOf_setTypeTag. auto.
  - intros q d. cbn. destruct (decide (p = q)) as [->|Hne].
    + rewrite lookup_alter_eq. intros [d' [Hd' ->]]%fmap_Some. right. exists a. cbn.
      rewrite textOf_setTypeTag, E. unfold textOf. rewrite Hd'. auto.
    + rewrite lookup_alter_ne by exact Hne. intros Hd.
      destruct (Hg q d Hd) as [?|[a' H]]; [auto|]. right. exists a'. rewrite textOf_setTypeTag. exact H.
  - intros q Hq. rewrite textOf_setTypeTag. split; [apply Hsome; exact Hq|reflexivity].
  - auto.
Qed.

Lemma map_insert_ok st p : wf_strings st -> is_Some (cells st !! p) ->
  (forall q, q ∈ atomicStringMap st -> textOf st q <> textOf st p) ->
  wf_strings (map_insert st p) /\ extends st (map_insert st p) /\ p ∈ atomicStringMap (map_insert st p).
Proof.
  intros [Hn Hc Ht Hu Hg] Hp Hfresh.
  assert (Hin : forall q, q ∈ atomicStringMap (map_insert st p) <-> q ∈ atomicStringMap st \/ q = p)
    by (intros q; cbn; rewrite elem_of_app, list_elem_of_singleton; reflexivity).
  split_and!; [constructor| |apply Hin; auto].
  - exact Hn.
  - exact Hc.
  - intros q [Hq| ->]%Hin; auto.
  - intros q q' [Hq| ->]%Hin [Hq'| ->]%Hin E; auto; [destruct (Hfresh q Hq E)|].
    destruct (Hfresh q' Hq' (eq_sym E)).
  - intros q d Hd. destruct (Hg q d Hd) as [?|[a [Ha H]]]; [auto|].
    right. exists a. split; [apply Hin; auto|exact H].
  - split; [auto|]. intros q Hq. apply Hin. auto.
Qed.

(** A new cell whose tag is the plain one. *)
Definition addCell (st : Strings) (d : StringData) : Strings :=
  {| cells := <[nextAddress st := d]> (cells st);
     atomicStringMap := atomicStringMap st; nextAddress := nextAddress st + 16 |}.

Lemma addCell_ok st d : wf_strings st -> m_typeTag d = POINTER_VALUE_STRING_TAG_IN_DATA ->
  wf_strings (addCell st d) /\ extends st (addCell st d) /\
  cells (addCell st d) !! nextAddress st = Some d /\ nextAddress st ∉ atomicStringMap st.
Proof.
  intros [Hn Hc Ht Hu Hg] Hd.
  assert (Hfree : cells st !! nextAddress st = None).
  { destruct (cells st !! nextAddress st) as [d'|] eqn:E; [|reflexivity].
    destruct (Hc _ _ E) as [_ H]. lia. }
  assert (Hold : forall p, is_Some (cells st !! p) -> cells (addCell st d) !! p = cells st !! p).
  { intros p Hp. cbn. apply lookup_insert_ne. intros E. rewrite <- E, Hfree in Hp. destruct Hp as [? [=]]. }
  assert (Htext : forall p, is_Some (cells st !! p) -> textOf (addCell st d) p = textOf st p)
    by (intros p Hp; unfold textOf; rewrite Hold by exact Hp; reflexivity).
  split_and!; [constructor|split| |].
  - unfold aligned in *. cbn. lia.
  - intros p d'. cbn. intros [[<- _]|[_ Hp]]%lookup_insert_Some; [unfold aligned in *; lia|].
    destruct (Hc p d' Hp). split; [assumption|lia].
  - intros p Hp. rewrite Hold; auto.
  - intros p q Hp Hq. rewrite !Htext by auto. auto.
  - intros p d'. cbn. intros [[<- <-]|[_ Hp]]%lookup_insert_Some; [auto|].
    destruct (Hg p d' Hp) as [?|[a [Ha [H1 H2]]]]; [auto|]. right. exists a.
    rewrite Htext by auto. auto.
  - intros p Hp. rewrite Hold by exact Hp. split; [exact Hp|auto].
  - auto.
  - cbn. apply lookup_insert_eq.
  - intros H. destruct (Ht _ H) as [d' E]. congruence.
Qed.

(** What a constructor promises: the atomic string of the text [s]. *)
Definition interned (st : Strings) (s : list Z) (r : Z * Strings) : Prop :=
  wf_strings (snd r) /\ extends st (snd r) /\
  fst r ∈ atomicStringMap (snd r) /\ textOf (snd r) (fst r) = s.

Lemma textOf_cell st p d : cells st !! p = Some d -> textOf st p = chars d.
Proof. intros H. unfold textOf. rewrite H. reflexivity. Qed.

Lemma in_table_cell st p : wf_strings st -> p ∈ atomicStringMap st -> is_Some (cells st !! p).
Proof. intros H. apply H. Qed.

(** A string that is not in the table goes into it and is tagged. *)
Lemma insert_tagged st p s : wf_strings st -> is_Some (cells st !! p) -> textOf st p = s ->
  (forall q, q ∈ atomicStringMap st -> textOf st q <> s) ->
  interned st s (p, setTypeTag (map_insert st p) p (tagFor p)).
Proof.
  intros Hwf Hp <- Hfresh.
  destruct (map_insert_ok st p Hwf Hp Hfresh) as (Hwf1 & He1 & Hin).
  destruct (setTypeTag_ok (map_insert st p) p p Hwf1 Hin eq_refl) as [Hwf2 He2].
  split_and!; cbn [fst snd]; [exact Hwf2|eauto using extends_trans|exact Hin|].
  rewrite textOf_setTypeTag. reflexivity.
Qed.

Lemma interned_extends st st' s r : extends st st' -> interned st' s r -> interned st s r.
Proof. intros He (H1 & H2 & H3 & H4). split_and!; eauto using extends_trans. Qed.

(** A new string of the text, not in the table, goes into it. *)
Lemma insert_new st bits8 s tagged : wf_strings st ->
  (forall q, q ∈ atomicStringMap st -> textOf st q <> s) ->
  (tagged = nextAddress st \/ is_Some (cells st !! tagged) /\ textOf st tagged = s) ->
  let '(newStr, st') := newString st bits8 s in
  interned st s (newStr, setTypeTag (map_insert st' newStr) tagged (tagFor newStr)).
Proof.
  intros Hwf Hfresh Htagged. cbn [newString].
  set (d := {| has8BitContent := bits8; chars := s; isStringView := false;
               m_typeTag := POINTER_VALUE_STRING_TAG_IN_DATA |}).
  change {| cells := <[nextAddress st:=d]> (cells st); atomicStringMap := atomicStringMap st;
            nextAddress := nextAddress st + 16 |} with (addCell st d).
  destruct (addCell_ok st d Hwf eq_refl) as (Hwf1 & He1 & Hcell & _).
  assert (Hfresh1 : forall q, q ∈ atomicStringMap (addCell st d) ->
            textOf (addCell st d) q <> textOf (addCell st d) (nextAddress st)).
  { intros q Hq. rewrite (textOf_cell _ _ _ Hcell).
    rewrite (proj2 (proj1 He1 q (in_table_cell st q Hwf Hq))). apply Hfresh. exact Hq. }
  destruct (map_insert_ok _ (nextAddress st) Hwf1 (mk_is_Some _ _ Hcell) Hfresh1) as (Hwf2 & He2 & Hin).
  assert (Etag : textOf (map_insert (addCell st d) (nextAddress st)) (nextAddress st)
                 = textOf (map_insert (addCell st d) (nextAddress st)) tagged).
  { destruct Htagged as [->|[Hs Et]]; [reflexivity|].
    change (textOf (addCell st d) (nextAddress st) = textOf (addCell st d) tagged).
    rewrite (textOf_cell _ _ _ Hcell), (proj2 (proj1 He1 _ Hs)). symmetry. exact Et. }
  destruct (setTypeTag_ok _ tagged (nextAddress st) Hwf2 Hin Etag) as [Hwf3 He3].
  split_and!; cbn [fst snd];
    [exact Hwf3|eauto using extends_trans|exact Hin|].
  rewrite textOf_setTypeTag. change (textOf (addCell st d) (nextAddress st) = s).
  rewrite (textOf_cell _ _ _ Hcell). reflexivity.
Qed.

Lemma initLatin1_ok st src : wf_strings st -> interned st src (initLatin1 st src).
Proof.
  intros Hwf. unfold initLatin1. pose proof (map_find_spec st src) as H.
  destruct (map_find st src) as [p|].
  - destruct H as [Hp E]. split_and!; cbn; auto using extends_refl.
  - apply (insert_new st true src (nextAddress st) Hwf H). auto.
Qed.

Lemma initUTF16_ok st src : wf_strings st -> interned st src (initUTF16 st src).
Proof.
  intros Hwf. unfold initUTF16. pose proof (map_find_spec st src) as H.
  destruct (map_find st src) as [p|].
  - destruct H as [Hp E]. split_and!; cbn; auto using extends_refl.
  - apply (insert_new st (isAllASCII src) src (nextAddress st) Hwf H). auto.
Qed.

Lemma initString_ok st p : wf_strings st -> is_Some (cells st !! p) ->
  interned st (textOf st p) (initString st p).
Proof.
  intros Hwf Hp. unfold initString, isView, copyOf. pose proof (map_find_spec st (textOf st p)) as H.
  destruct (map_find st (textOf st p)) as [a|].
  - destruct H as [Ha E]. destruct (setTypeTag_ok st p a Hwf Ha E) as [Hwf' He].
    split_and!; cbn [fst snd]; auto. rewrite textOf_setTypeTag. exact E.
  - destruct Hp as [d Hd]. rewrite Hd. destruct (isStringView d).
    + rewrite <- (textOf_cell _ _ _ Hd).
      apply (insert_new st (has8BitContent d) (textOf st p) (nextAddress st) Hwf H). auto.
    + apply insert_tagged; eauto.
Qed.

(** The tag of a string, when it is set, is its atomic string. *)
Lemma tag_ok st p : wf_strings st -> is_Some (cells st !! p) ->
  POINTER_VALUE_STRING_TAG_IN_DATA < typeTagOf st p ->
  interned st (textOf st p) (Z.ldiff (typeTagOf st p) POINTER_VALUE_STRING_TAG_IN_DATA, st).
Proof.
  intros Hwf [d Hd]. unfold typeTagOf. rewrite Hd. intros Hlt.
  destruct (wf_tags st Hwf p d Hd) as [E|[a (Ha & E & Et)]]; [lia|].
  destruct (in_table_cell st a Hwf Ha) as [da Hda].
  rewrite E, (proj2 (tagFor_aligned a (proj1 (wf_cells st Hwf a da Hda)))).
  split_and!; cbn [fst snd]; auto using extends_refl. rewrite Et. symmetry. apply textOf_cell. exact Hd.
Qed.

Lemma AtomicString_ok st p : wf_strings st -> is_Some (cells st !! p) ->
  interned st (textOf st p) (AtomicString st p).
Proof.
  intros Hwf Hp. unfold AtomicString. case_if; to_prop; [apply tag_ok|apply initString_ok]; assumption.
Qed.

Lemma AtomicStringView_ok st p : wf_strings st -> is_Some (cells st !! p) ->
  interned st (textOf st p) (AtomicStringView st p).
Proof.
  intros Hwf Hp. unfold AtomicStringView, copyOf. case_if; to_prop; [apply tag_ok; assumption|].
  pose proof (map_find_spec st (textOf st p)) as H.
  destruct (map_find st (textOf st p)) as [a|].
  - destruct H as [Ha E]. destruct (setTypeTag_ok st p a Hwf Ha E) as [Hwf' He].
    split_and!; cbn [fst snd]; auto. rewrite textOf_setTypeTag. exact E.
  - destruct (Hp) as [d Hd]. rewrite Hd, <- (textOf_cell _ _ _ Hd).
    apply (insert_new st (has8BitContent d) (textOf st p) p Hwf H). auto.
Qed.

Lemma initStaticString_ok st p : wf_strings st -> is_Some (cells st !! p) ->
  map_find st (textOf st p) = None -> interned st (textOf st p) (initStaticString st p).
Proof.
  intros Hwf Hp E. pose proof (map_find_spec st (textOf st p)) as H. rewrite E in H.
  apply insert_tagged; auto.
Qed.

(** ** Every history of the strings *)

(** The ways to make an atomic string of a text: from characters, from a string and from a view, and a static string
    whose text is not in the table. *)
Inductive made (st : Strings) : list Z -> Z * Strings -> Prop :=
| made_latin1 src : made st src (initLatin1 st src)
| made_utf16 src : made st src (initUTF16 st src)
| made_string p : is_Some (cells st !! p) -> made st (textOf st p) (AtomicString st p)
| made_view p : is_Some (cells st !! p) -> made st (textOf st p) (AtomicStringView st p)
| made_static p : is_Some (cells st !! p) -> map_find st (textOf st p) = None -> made st (textOf st p) (initStaticString st p).

Lemma made_ok st s r : wf_strings st -> made st s r -> interned st s r.
Proof.
  intros Hwf [src|src|p Hp|p Hp|p Hp Hf];
    [apply initLatin1_ok|apply initUTF16_ok|apply AtomicString_ok|apply AtomicStringView_ok|apply initStaticString_ok]; assumption.
Qed.

(** What happens to the strings of a context: a string is made, or an atomic string. *)
Inductive step (st : Strings) : Strings -> Prop :=
| step_new bits8 s view :
    step st (addCell st {| has8BitContent := bits8; chars := s; isStringView := view;
                           m_typeTag := POINTER_VALUE_STRING_TAG_IN_DATA |})
| step_made s r : made st s r -> step st (snd r).

(** The store after [String::initEmptyString]. *)
Definition initialStrings (emptyString : Z) : Strings :=
  {| cells := {[ emptyString := {| has8BitContent := true; chars := []; isStringView := false;
                                   m_typeTag := tagFor emptyString |} ]};
     atomicStringMap := [emptyString]; nextAddress := emptyString + 16 |}.

Lemma initialStrings_wf e : aligned e -> wf_strings (initialStrings e).
Proof.
  intros He. constructor; cbn.
  - unfold aligned in *. lia.
  - intros p d [<- _]%lookup_singleton_Some. split; [exact He|lia].
  - intros p ->%list_elem_of_singleton. rewrite lookup_singleton_eq. eauto.
  - intros p q ->%list_elem_of_singleton ->%list_elem_of_singleton. reflexivity.
  - intros p d [<- <-]%lookup_singleton_Some. right. exists e. split_and!; [left|reflexivity|].
    unfold textOf. cbn. rewrite lookup_singleton_eq. reflexivity.
Qed.

Lemma step_ok st st' : wf_strings st -> step st st' -> wf_strings st' /\ extends st st'.
Proof.
  intros Hwf [bits8 s view|s r Hm].
  - edestruct addCell_ok as (H1 & H2 & _); [exact Hwf| |split; [exact H1|exact H2]]. reflexivity.
  - destruct (made_ok st s r Hwf Hm) as (H1 & H2 & _). auto.
Qed.

Lemma steps_ok st st' : wf_strings st -> rtc step st st' -> wf_strings st' /\ extends st st'.
Proof.
  intros Hwf H. induction H as [st|st st1 st2 H1 _ IH]; [auto using extends_refl|].
  destruct (step_ok st st1 Hwf H1) as [Hwf1 He1]. destruct (IH Hwf1) as [Hwf2 He2].
  eauto using extends_trans.
Qed.

(** C16: equality of atomic strings is equality of texts, whichever of the five ways they were made in, at any two
    moments of any history: [a] is made of the text [s] in a state that the context can reach, anything may happen
    then, and [b] is made of the text [t] later. The texts of both are what they were made of. *)
Theorem atomic_strings_canonical e st1 s a st1' st2 t b st2' :
  aligned e -> rtc step (initialStrings e) st1 -> made st1 s (a, st1') ->
  rtc step st1' st2 -> made st2 t (b, st2') ->
  atomicEqual a b = bool_decide (s = t) /\ textOf st2' a = s /\ textOf st2' b = t.
Proof.
  intros He Hreach Ha Hsteps Hb.
  destruct (steps_ok _ _ (initialStrings_wf e He) Hreach) as [Hwf1 _].
  destruct (made_ok st1 s _ Hwf1 Ha) as (Hwf1' & _ & Hain & Hat). cbn [fst snd] in *.
  destruct (steps_ok _ _ Hwf1' Hsteps) as [Hwf2 He2].
  destruct (made_ok st2 t _ Hwf2 Hb) as (Hwf2' & He2' & Hbin & Hbt). cbn [fst snd] in *.
  pose proof (extends_trans _ _ _ He2 He2') as He'.
  assert (Eat : textOf st2' a = s).
  { rewrite (proj2 (proj1 He' a (in_table_cell _ a Hwf1' Hain))). exact Hat. }
  split_and!; [|exact Eat|exact Hbt].
  unfold atomicEqual. rewrite <- Eat, <- Hbt. destruct (Z.eqb_spec a b) as [->|Hne].
  - symmetry. apply bool_decide_eq_true. reflexivity.
  - symmetry. apply bool_decide_eq_false. intros E. apply Hne.
    apply (wf_unique st2' Hwf2'); [apply He'; exact Hain|exact Hbin|exact E].
Qed.

(** The text [k] as a view and, later, as UTF-16 characters, with other strings between. *)
Lemma atomic_strings_canonical_witness :
  let st0 := initialStrings 16 in
  let st1 := addCell st0 {| has8BitContent := true; chars := [107]; isStringView := true; m_typeTag := 1 |} in
  let st1' := snd (AtomicStringView st1 32) in
  let st2 := addCell (snd (initUTF16 st1' [233])) {| has8BitContent := false; chars := [107];
                                                   isStringView := false; m_typeTag := 1 |} in
  fst (AtomicStringView st1 32) = fst (initUTF16 st2 [107]) /\
  atomicEqual (fst (AtomicStringView st1 32)) (fst (initUTF16 st2 [107])) = true.
Proof.
  intros st0 st1 st1' st2. split; [vm_compute; reflexivity|].
  refine (proj1 (atomic_strings_canonical 16 st1 [107] _ st1' st2 [107] _ (snd (initUTF16 st2 [107])) _
    (rtc_once st0 st1 (step_new st0 true [107] true)) _ _ _)).
  - unfold aligned. lia.
  - rewrite <- surjective_pairing. refine (made_view st1 32 _). eexists. vm_compute. reflexivity.
  - apply (rtc_l _ _ (snd (initUTF16 st1' [233]))); [exact (step_made _ _ _ (made_utf16 _ [233]))|].
    exact (rtc_once _ _ (step_new _ false [107] false)).
  - rewrite <- surjective_pairing. exact (made_utf16 st2 [107]).
Defined.
