(* ===== verification/PropertyName.v ===== *)
(** * Property names ([runtime/ObjectStructurePropertyName.h], [Object.h], [Object.cpp], [String.cpp])

    A property name is one word: the address of an atomic string with bit 0 set,
    the address of another string, or the address of a symbol.  A name in the
    interface of objects can also be a small integer, marked by bit 1. *)

From stdpp Require Import gmap.
From S2P Require Import Prelude Value AtomicString.
Local Open Scope Z_scope.

(** ** Strings as indices *)

(** [charAt]: a string's buffer ends with a zero, which is what is read of the
    empty string. *)
Definition charAt (s : list Z) (i : nat) : Z := nth i s 0.

Definition isDigit (c : Z) : bool := negb ((c <? 48) || (57 <? c)).

Definition isIndexString (s : list Z) : bool :=
  let len := length s in
  if (len =? 1)%nat then isDigit (charAt s 0)
  else
    let c := charAt s 0 in
    if (c <? 49) || (57 <? c) then false else forallb isDigit (tail s).

(** The loop of [convertToIndexNumber]; [None] is the early return of the limit. *)
Fixpoint convertLoop (s : list Z) (maxLimit number : Z) : option Z :=
  match s with
  | [] => Some number
  | c :: rest =>
    if (c <? 48) || (57 <? c) then None
    else
      let cnum := c - 48 in
      if (maxLimit - cnum) / 10 <? number then None
      else convertLoop rest maxLimit (number * 10 + cnum)
  end.

Definition convertToIndexNumber (s : list Z) (maxLimit : Z) : Z :=
  if (length s =? 0)%nat then maxLimit
  else
    let first := charAt s 0 in
    if (1 <? length s)%nat && (first =? 48) then maxLimit
    else match convertLoop s maxLimit 0 with Some number => number | None => maxLimit end.

Definition InvalidIndexValue : Z := 2 ^ 64 - 1.
Definition InvalidIndexPropertyValue : Z := 2 ^ 32 - 1.
Definition tryToUseAsIndex (s : list Z) : Z := convertToIndexNumber s InvalidIndexValue.
Definition tryToUseAsIndexProperty (s : list Z) : Z := convertToIndexNumber s InvalidIndexPropertyValue.

(** [String::hashValue]: wrapping arithmetic of [size_t]. *)
Definition stringHash (s : list Z) : Z :=
  fold_left (fun hash c => to_unsigned 64 (hash * 131 + c)) s 0xc70f6907.
Definition stringHashValue (s : list Z) : Z :=
  let hash := stringHash s in
  if hash mod 8 =? 0 then to_unsigned 64 (hash + 1) else hash.

(** ** [ObjectStructurePropertyName] *)

Definition OBJECT_PROPERTY_NAME_ATOMIC_STRING_VIAS : Z := 1.
Definition OBJECT_PROPERTY_NAME_UINT32_VIAS : Z := 2.

Definition nameOfAtomic (string : Z) : Z := Z.lor string OBJECT_PROPERTY_NAME_ATOMIC_STRING_VIAS.
Definition nameOfSymbol (symbol : Z) : Z := symbol.

Section Names.
Context {heap : Heap}.

Definition hasAtomicString (m_data : Z) : bool :=
  negb (Z.land m_data OBJECT_PROPERTY_NAME_ATOMIC_STRING_VIAS =? 0).
Definition hasSymbol (m_data : Z) : bool :=
  match pointee m_data with SymbolPointer => true | _ => false end.
Definition isSymbol (m_data : Z) : bool :=
  if hasAtomicString m_data then false else hasSymbol m_data.
Definition isPlainString (m_data : Z) : bool :=
  if hasAtomicString m_data then true else if hasSymbol m_data then false else true.

(** The address of the string. *)
Definition plainString (m_data : Z) : Z :=
  if hasAtomicString m_data then m_data - OBJECT_PROPERTY_NAME_ATOMIC_STRING_VIAS else m_data.
Definition asAtomicString (m_data : Z) : Z := m_data - OBJECT_PROPERTY_NAME_ATOMIC_STRING_VIAS.

Definition stringAt (p : Z) : list Z := match pointee p with StringPointer s => s | _ => [] end.

Definition name_isIndexString (m_data : Z) : bool :=
  isPlainString m_data && isIndexString (stringAt (plainString m_data)).
Definition name_toValue (m_data : Z) : Z :=
  if hasAtomicString m_data then Value_pointer (m_data - OBJECT_PROPERTY_NAME_ATOMIC_STRING_VIAS)
  else Value_pointer m_data.
Definition name_tryToUseAsIndexProperty (m_data : Z) : Z :=
  if isPlainString m_data then tryToUseAsIndexProperty (stringAt (plainString m_data))
  else InvalidIndexPropertyValue.

Definition hashValue (m_data : Z) : Z :=
  if hasAtomicString m_data then asAtomicString m_data
  else if hasSymbol m_data then m_data
  else stringHashValue (stringAt m_data).

(** [operator==] on two names, and on a name and an atomic string. *)
Definition name_eq (a b : Z) : bool :=
  let aa := hasAtomicString a in
  let ab := hasAtomicString b in
  if aa && ab then a =? b
  else
    let sa := negb aa && hasSymbol a in
    let sb := negb ab && hasSymbol b in
    if sa && sb then a =? b
    else if negb sa && negb sb
    then bool_decide (stringAt (plainString a) = stringAt (plainString b))
    else false.
Definition name_eq_atomic (a b : Z) : bool :=
  if hasAtomicString a then atomicEqual (asAtomicString a) b
  else if negb (hasSymbol a)
       then bool_decide (stringAt (plainString a) = stringAt b)
       else false.
End Names.

(** ** Names from values ([ToPropertyKey]) *)

(** The strings and the symbols of a context, and the heap they make. *)
Definition heapOf (st : Strings) (symbols : gset Z) : Heap :=
  fun p => match cells st !! p with
           | Some d => StringPointer (chars d)
           | None => if decide (p ∈ symbols) then SymbolPointer else ObjectPointer
           end.

Definition ESCARGOT_ASCII_TABLE_MAX : Z := 256.

(** The constructor from a value, after [toPrimitive] and [toString]: the address
    of a string or a symbol.  The entries of [asciiTable] and the empty atomic
    string are the atomic strings of their texts. *)
Definition nameOfValue (st : Strings) (symbols : gset Z) (value : Z) : Z * Strings :=
  if decide (value ∈ symbols) then (value, st)
  else
    let string := value in
    let v := typeTagOf st string in
    if POINTER_VALUE_STRING_TAG_IN_DATA <? v then (v, st)
    else
      let data := textOf st string in
      if (length data =? 0)%nat then
        let '(a, st) := initLatin1 st [] in (nameOfAtomic a, st)
      else
        let c := charAt data 0 in
        let needsRemainNormalString :=
          ((c =? 46) || (48 <=? c) && (c <=? 57)) && (16 <? length data)%nat in
        if needsRemainNormalString then (string, st)
        else if (c <? ESCARGOT_ASCII_TABLE_MAX) && (length data =? 1)%nat
        then let '(a, st) := initLatin1 st [c] in (nameOfAtomic a, st)
        else let '(a, st) := AtomicString st string in (nameOfAtomic a, st).

(** ** [ObjectPropertyName] *)

(** [2 ^ 32 - 1] shifted right by two. *)
Definition MAXIMUM_UINT_FOR_32BIT_PROPERTY_NAME : Z := 0x3fffffff.

(** [setUIntValue] in 32 bits. *)
Definition setUIntValue (value : Z) : Z :=
  Z.lor (to_unsigned 32 (Z.shiftl value OBJECT_PROPERTY_NAME_UINT32_VIAS)) OBJECT_PROPERTY_NAME_UINT32_VIAS.
Definition m_uintData (m_name : Z) : Z := to_unsigned 32 m_name.
Definition isUIntType (m_name : Z) : bool :=
  negb (Z.land (m_uintData m_name) OBJECT_PROPERTY_NAME_UINT32_VIAS =? 0).
Definition uintValue (m_name : Z) : Z := Z.shiftr (m_uintData m_name) OBJECT_PROPERTY_NAME_UINT32_VIAS.

(** [toObjectStructurePropertyName]: the name of the decimal text, from the table
    of small numbers or a new string; both are atomic. *)
Definition ESCARGOT_STRINGS_NUMBERS_MAX : Z := 128.
Definition decimal (n : Z) : list Z := digits 20 n [].
Definition toObjectStructurePropertyNameUintCase (st : Strings) (symbols : gset Z) (uint : Z) : Z * Strings :=
  if uint <? ESCARGOT_STRINGS_NUMBERS_MAX
  then let '(a, st) := initLatin1 st (decimal uint) in (nameOfAtomic a, st)
  else let '(s, st) := newString st true (decimal uint) in nameOfValue st symbols s.
Definition toObjectStructurePropertyName (st : Strings) (symbols : gset Z) (m_name : Z) : Z * Strings :=
  if isUIntType m_name then toObjectStructurePropertyNameUintCase st symbols (uintValue m_name)
  else (m_name, st).

(** The constructors of [ObjectPropertyName] from an unsigned integer and from
    any value; [v] is the value's word, and [s] the address its string
    conversion gives when it is no small integer. *)
Definition propertyNameOfValue (st : Strings) (symbols : gset Z) (v s : Z) : Z * Strings :=
  if isUInt32 v && (asInt32 v <=? MAXIMUM_UINT_FOR_32BIT_PROPERTY_NAME)
  then (setUIntValue (asInt32 v), st)
  else nameOfValue st symbols s.
Definition objectName_isIndexString {heap : Heap} (m_name : Z) : bool :=
  if isUIntType m_name then true else name_isIndexString m_name.
Definition objectName_tryToUseAsIndexProperty {heap : Heap} (m_name : Z) : Z :=
  if isUIntType m_name then uintValue m_name else name_tryToUseAsIndexProperty m_name.
Definition toPlainValue (m_name : Z) : Z :=
  if isUIntType m_name then Value_unsigned (uintValue m_name) else name_toValue m_name.

(** ** What a name stands for *)

(** The property keys of the language. *)
Inductive PropertyKey :=
| KString (s : list Z)
| KSymbol (p : Z).

#[export] Instance PropertyKey_eq_dec : EqDecision PropertyKey.
Proof. solve_decision. Defined.

Definition propertyKey {heap : Heap} (m_data : Z) : PropertyKey :=
  if isSymbol m_data then KSymbol m_data else KString (stringAt (plainString m_data)).

(** Symbols are allocated apart from the strings. *)
Definition wf_symbols (st : Strings) (symbols : gset Z) : Prop :=
  forall p, p ∈ symbols -> aligned p /\ cells st !! p = None.

Inductive wf_name (st : Strings) (symbols : gset Z) : Z -> Prop :=
| wf_atomic a : a ∈ atomicStringMap st -> wf_name st symbols (nameOfAtomic a)
| wf_string p : is_Some (cells st !! p) -> wf_name st symbols p
| wf_symbol p : p ∈ symbols -> wf_name st symbols p.

Lemma aligned_bits p : aligned p ->
  nameOfAtomic p = p + 1 /\ hasAtomicString p = false /\ hasAtomicString (nameOfAtomic p) = true.
Proof.
  unfold aligned, hasAtomicString, nameOfAtomic, OBJECT_PROPERTY_NAME_ATOMIC_STRING_VIAS. intros [Hp Hm].
  destruct p as [|[q|q|]|]; try lia; split_and!; try reflexivity; cbn; lia.
Qed.

Lemma nameOfAtomic_tag p : nameOfAtomic p = tagFor p.
Proof. apply Z.lor_comm. Qed.

Section WellFormedNames.
Context (st : Strings) (symbols : gset Z).
Context (Hst : wf_strings st) (Hsym : wf_symbols st symbols).
Local Instance heap_of_strings : Heap := heapOf st symbols.

Lemma pointee_string p : is_Some (cells st !! p) -> pointee p = StringPointer (textOf st p).
Proof. intros [d Hd]. unfold pointee, heap_of_strings, heapOf, textOf. rewrite Hd. reflexivity. Qed.

Lemma pointee_symbol p : p ∈ symbols -> pointee p = SymbolPointer.
Proof.
  intros Hp. unfold pointee, heap_of_strings, heapOf. rewrite (proj2 (Hsym p Hp)).
  rewrite decide_True by exact Hp. reflexivity.
Qed.

Lemma stringAt_text p : stringAt p = textOf st p.
Proof.
  unfold stringAt, pointee, heap_of_strings, heapOf, textOf.
  destruct (cells st !! p); [reflexivity|]. case_decide; reflexivity.
Qed.

(** The three forms of a name. *)
Definition name_form (m : Z) : Prop :=
  (exists a, a ∈ atomicStringMap st /\ m = nameOfAtomic a /\ hasAtomicString m = true /\
             isSymbol m = false /\ plainString m = a /\ asAtomicString m = a) \/
  (hasAtomicString m = false /\ hasSymbol m = false /\ is_Some (cells st !! m) /\ plainString m = m) \/
  (hasAtomicString m = false /\ hasSymbol m = true /\ m ∈ symbols).

Lemma wf_name_form m : wf_name st symbols m -> name_form m.
Proof.
  intros [a Ha|p Hp|p Hp].
  - left. exists a. destruct (in_table_cell st a Hst Ha) as [d Hd].
    destruct (aligned_bits a (proj1 (wf_cells st Hst a d Hd))) as (E & _ & Hb).
    unfold isSymbol, plainString, asAtomicString. rewrite Hb, E. unfold OBJECT_PROPERTY_NAME_ATOMIC_STRING_VIAS.
    split_and!; auto; lia.
  - right; left. destruct (Hp) as [d Hd].
    destruct (aligned_bits p (proj1 (wf_cells st Hst p d Hd))) as (_ & Hb & _).
    unfold hasSymbol, plainString. rewrite Hb, pointee_string by exact Hp. auto.
  - right; right. destruct (Hsym p Hp) as [Hal _].
    destruct (aligned_bits p Hal) as (_ & Hb & _). unfold hasSymbol. rewrite Hb, pointee_symbol by exact Hp. auto.
Qed.

(** [operator==] of property names, which compares words, pointers or texts
    as the forms of the two names call for, decides equality of the property
    keys the names stand for. *)
Theorem name_eq_correct a b :
  wf_name st symbols a -> wf_name st symbols b ->
  name_eq a b = bool_decide (propertyKey a = propertyKey b).
Proof.
  intros Ha Hb. apply wf_name_form in Ha. apply wf_name_form in Hb.
  unfold name_eq, propertyKey, isSymbol.
  assert (Hatom : forall x y, x ∈ atomicStringMap st -> y ∈ atomicStringMap st ->
            (nameOfAtomic x =? nameOfAtomic y) = bool_decide (textOf st x = textOf st y)).
  { intros x y Hx Hy. destruct (Z.eqb_spec (nameOfAtomic x) (nameOfAtomic y)) as [E|Hne].
    - symmetry. apply bool_decide_eq_true. f_equal.
      destruct (in_table_cell st x Hst Hx) as [dx Hdx]. destruct (in_table_cell st y Hst Hy) as [dy Hdy].
      rewrite (proj1 (aligned_bits x (proj1 (wf_cells st Hst x dx Hdx)))),
              (proj1 (aligned_bits y (proj1 (wf_cells st Hst y dy Hdy)))) in E. lia.
    - symmetry. apply bool_decide_eq_false. intros E. apply Hne. f_equal. apply (wf_unique st Hst); assumption. }
  destruct Ha as [(x & Hx & -> & -> & _ & -> & _)|[(-> & Es & _ & ->)|(-> & Es & _)]];
  destruct Hb as [(y & Hy & -> & -> & _ & -> & _)|[(-> & Et & _ & ->)|(-> & Et & _)]];
  rewrite ?Es, ?Et; cbn [andb negb]; rewrite ?stringAt_text.
  - rewrite Hatom by assumption. apply bool_decide_ext. split; congruence.
  - apply bool_decide_ext. split; congruence.
  - symmetry. apply bool_decide_eq_false. congruence.
  - apply bool_decide_ext. split; congruence.
  - apply bool_decide_ext. split; congruence.
  - symmetry. apply bool_decide_eq_false. congruence.
  - symmetry. apply bool_decide_eq_false. congruence.
  - symmetry. apply bool_decide_eq_false. congruence.
  - destruct (Z.eqb_spec a b) as [->|Hne].
    + symmetry. apply bool_decide_eq_true. reflexivity.
    + symmetry. apply bool_decide_eq_false. congruence.
Qed.

(** The key of each form. *)
Lemma key_atomic a : a ∈ atomicStringMap st -> propertyKey (nameOfAtomic a) = KString (textOf st a).
Proof.
  intros Ha. destruct (in_table_cell st a Hst Ha) as [d Hd].
  destruct (aligned_bits a (proj1 (wf_cells st Hst a d Hd))) as (E & _ & Hb).
  unfold propertyKey, isSymbol, plainString. rewrite Hb, E, stringAt_text.
  unfold OBJECT_PROPERTY_NAME_ATOMIC_STRING_VIAS. do 2 f_equal. lia.
Qed.

Lemma key_string p : is_Some (cells st !! p) -> propertyKey p = KString (textOf st p).
Proof.
  intros Hp. destruct (Hp) as [d Hd].
  destruct (aligned_bits p (proj1 (wf_cells st Hst p d Hd))) as (_ & Hb & _).
  unfold propertyKey, isSymbol, plainString, hasSymbol.
  rewrite Hb, pointee_string, stringAt_text by exact Hp. reflexivity.
Qed.

Lemma key_symbol p : p ∈ symbols -> propertyKey p = KSymbol p.
Proof.
  intros Hp. destruct (aligned_bits p (proj1 (Hsym p Hp))) as (_ & Hb & _).
  unfold propertyKey, isSymbol, hasSymbol. rewrite Hb, pointee_symbol by exact Hp. reflexivity.
Qed.

(** A name and an atomic string. *)
Lemma name_eq_atomic_correct m a : wf_name st symbols m -> a ∈ atomicStringMap st ->
  name_eq_atomic m a = bool_decide (propertyKey m = KString (textOf st a)).
Proof.
  intros Hm Ha. unfold name_eq_atomic.
  destruct (wf_name_form m Hm) as [(x & Hx & -> & Hb & _ & _ & E)|[(Hb & Es & Hp & E)|(Hb & Es & Hp)]];
    rewrite Hb.
  - rewrite E, key_atomic by exact Hx. unfold atomicEqual. destruct (Z.eqb_spec x a) as [->|Hne].
    + symmetry. apply bool_decide_eq_true. reflexivity.
    + symmetry. apply bool_decide_eq_false. intros [= Et]. apply Hne. apply (wf_unique st Hst); assumption.
  - rewrite Es, E, key_string, !stringAt_text by exact Hp. cbn [negb]. apply bool_decide_ext. split; congruence.
  - rewrite Es, key_symbol by exact Hp. cbn [negb]. symmetry. apply bool_decide_eq_false. congruence.
Qed.

Lemma interned_name s r : interned st s r -> wf_symbols (snd r) symbols ->
  wf_strings (snd r) /\ extends st (snd r) /\ wf_name (snd r) symbols (nameOfAtomic (fst r)).
Proof. intros (H1 & H2 & H3 & H4) _. split_and!; [..|apply wf_atomic]; assumption. Qed.
End WellFormedNames.

(** Symbols stay apart from the strings that the allocator adds. *)
Definition symbols_below (st : Strings) (symbols : gset Z) : Prop :=
  forall p, p ∈ symbols -> aligned p /\ cells st !! p = None /\ p < nextAddress st.

Lemma symbols_below_wf st symbols : symbols_below st symbols -> wf_symbols st symbols.
Proof. intros H p Hp. destruct (H p Hp) as (? & ? & _). auto. Qed.

Lemma setTypeTag_symbols st p tag symbols : symbols_below st symbols -> symbols_below (setTypeTag st p tag) symbols.
Proof.
  intros H q Hq. destruct (H q Hq) as (H1 & H2 & H3). split_and!; [exact H1| |exact H3].
  cbn. rewrite lookup_alter_None. exact H2.
Qed.

Lemma newString_symbols st bits8 s symbols :
  symbols_below st symbols -> symbols_below (snd (newString st bits8 s)) symbols.
Proof.
  intros H q Hq. destruct (H q Hq) as (H1 & H2 & H3). cbn. split_and!; [exact H1| |lia].
  rewrite lookup_insert_ne by lia. exact H2.
Qed.

Lemma map_insert_symbols st p symbols : symbols_below st symbols -> symbols_below (map_insert st p) symbols.
Proof. exact id. Qed.

Lemma initLatin1_symbols st s symbols : symbols_below st symbols -> symbols_below (snd (initLatin1 st s)) symbols.
Proof.
  intros H. unfold initLatin1. destruct (map_find st s) as [a|]; [exact H|].
  cbn [snd newString]. apply setTypeTag_symbols. exact (newString_symbols st true s symbols H).
Qed.

Lemma AtomicString_symbols st p symbols : symbols_below st symbols -> symbols_below (snd (AtomicString st p)) symbols.
Proof.
  intros H. unfold AtomicString, initString, copyOf, isView. case_if; [exact H|].
  destruct (map_find st (textOf st p)) as [a|]; [apply setTypeTag_symbols; exact H|].
  destruct (cells st !! p) as [d|]; [destruct (isStringView d)|];
    cbn [snd newString]; apply setTypeTag_symbols, map_insert_symbols; try exact H.
  exact (newString_symbols st (has8BitContent d) (chars d) symbols H).
Qed.


Lemma interned_key st symbols s a st' :
  interned st s (a, st') -> symbols_below st' symbols ->
  wf_strings st' /\ extends st st' /\ wf_name st' symbols (nameOfAtomic a) /\
  @propertyKey (heapOf st' symbols) (nameOfAtomic a) = KString s.
Proof.
  intros (H1 & H2 & H3 & H4) Hs. cbn [fst snd] in *.
  split_and!; [assumption|assumption|apply wf_atomic; assumption|]. rewrite key_atomic by assumption. f_equal. exact H4.
Qed.

Lemma nameOfValue_ok st symbols v m st' :
  wf_strings st -> symbols_below st symbols ->
  is_Some (cells st !! v) \/ v ∈ symbols ->
  nameOfValue st symbols v = (m, st') ->
  wf_strings st' /\ symbols_below st' symbols /\ extends st st' /\ wf_name st' symbols m /\
  @propertyKey (heapOf st' symbols) m = if decide (v ∈ symbols) then KSymbol v else KString (textOf st v).
Proof.
  intros Hst Hsym Hv. unfold nameOfValue. case_decide as Hin.
  { intros [= <- <-]. split_and!; auto using extends_refl; [apply wf_symbol; exact Hin|].
    apply key_symbol; [apply symbols_below_wf|]; assumption. }
  assert (Hs : is_Some (cells st !! v)) by (destruct Hv; [assumption|contradiction]). clear Hv.
  assert (Hkey : forall s a st1, interned st s (a, st1) -> symbols_below st1 symbols ->
            s = textOf st v -> (nameOfAtomic a, st1) = (m, st') ->
            wf_strings st' /\ symbols_below st' symbols /\ extends st st' /\ wf_name st' symbols m /\
            @propertyKey (heapOf st' symbols) m = KString (textOf st v)).
  { intros s a st1 Hi Hb -> [= <- <-]. destruct (interned_key st symbols _ a st1 Hi Hb) as (H1 & H2 & H3 & H4).
    split_and!; assumption. }
  case_if; to_prop.
  { destruct (tag_ok st v Hst Hs Heqb) as (H1 & H2 & H3 & H4). cbn [fst snd] in H1, H2, H3, H4.
    assert (Etag : typeTagOf st v = nameOfAtomic (Z.ldiff (typeTagOf st v) POINTER_VALUE_STRING_TAG_IN_DATA)).
    { unfold typeTagOf in *. destruct Hs as [d Hd]. rewrite Hd in *.
      destruct (wf_tags st Hst v d Hd) as [E|[a (Ha & E & Et)]]; [unfold POINTER_VALUE_STRING_TAG_IN_DATA in *; lia|].
      destruct (in_table_cell st a Hst Ha) as [da Hda].
      rewrite E, (proj2 (tagFor_aligned a (proj1 (wf_cells st Hst a da Hda)))). symmetry. apply nameOfAtomic_tag. }
    rewrite Etag at 1. apply (Hkey _ _ st (conj H1 (conj H2 (conj H3 H4)))); auto. }
  case_if; to_prop.
  { destruct (initLatin1 st []) as [a st1] eqn:E. apply (Hkey [] a st1).
    - rewrite <- E. apply initLatin1_ok. exact Hst.
    - replace st1 with (snd (initLatin1 st [])) by (rewrite E; reflexivity). apply initLatin1_symbols. exact Hsym.
    - symmetry. apply nil_length_inv. assumption. }
  case_if.
  { intros [= <- <-]. split_and!; auto using extends_refl; [apply wf_string; exact Hs|].
    apply key_string; assumption. }
  case_if; to_prop.
  { destruct (initLatin1 st [charAt (textOf st v) 0]) as [a st1] eqn:E. apply (Hkey [charAt (textOf st v) 0] a st1).
    - rewrite <- E. apply initLatin1_ok. exact Hst.
    - replace st1 with (snd (initLatin1 st [charAt (textOf st v) 0])) by (rewrite E; reflexivity).
      apply initLatin1_symbols. exact Hsym.
    - destruct (textOf st v) as [|c [|]]; try discriminate. reflexivity. }
  destruct (AtomicString st v) as [a st1] eqn:E. apply (Hkey (textOf st v) a st1); [..|reflexivity].
  - rewrite <- E. apply AtomicString_ok; assumption.
  - replace st1 with (snd (AtomicString st v)) by (rewrite E; reflexivity). apply AtomicString_symbols. exact Hsym.
Qed.

(** A property name made from a string or a symbol, whichever of its six
    forms it takes, stands for the text of the string or for the symbol. *)
Theorem nameOfValue_key st symbols v m st' :
  wf_strings st -> symbols_below st symbols ->
  is_Some (cells st !! v) \/ v ∈ symbols ->
  nameOfValue st symbols v = (m, st') ->
  wf_strings st' /\ symbols_below st' symbols /\ extends st st' /\ wf_name st' symbols m /\
  @propertyKey (heapOf st' symbols) m = if decide (v ∈ symbols) then KSymbol v else KString (textOf st v).
Proof. exact (nameOfValue_ok st symbols v m st'). Qed.

Lemma wf_name_extends st st' symbols m : extends st st' ->
  wf_name st symbols m -> wf_name st' symbols m.
Proof.
  intros [H1 H2] [a Ha|p Hp|p Hp];
    [apply wf_atomic; auto|apply wf_string, H1; exact Hp|apply wf_symbol; exact Hp].
Qed.

(** ** Indices and their texts *)

(** The value of a run of decimal digits after [number]. *)
Definition digitsValue (number : Z) (s : list Z) : Z := fold_left (fun n c => n * 10 + (c - 48)) s number.
Definition digitChars (s : list Z) : Prop := Forall (fun c => 48 <= c <= 57) s.

Lemma digitsValue_app n s c : digitsValue n (s ++ [c]) = digitsValue n s * 10 + (c - 48).
Proof. unfold digitsValue. rewrite fold_left_app. reflexivity. Qed.

Lemma digitsValue_le n s : 0 <= n -> digitChars s -> n <= digitsValue n s.
Proof.
  intros Hn Hs. revert n Hn. induction Hs as [|c s Hc Hs IH]; intros n Hn; [reflexivity|].
  change (n <= digitsValue (n * 10 + (c - 48)) s). specialize (IH (n * 10 + (c - 48)) ltac:(lia)). lia.
Qed.

Lemma convertLoop_spec s maxLimit number :
  9 <= maxLimit -> 0 <= number ->
  match convertLoop s maxLimit number with
  | Some n => digitChars s /\ n = digitsValue number s /\ (n <= maxLimit \/ s = [])
  | None => ~ (digitChars s /\ digitsValue number s <= maxLimit)
  end.
Proof.
  intros HM. revert number. induction s as [|c s IH]; intros number Hn; cbn [convertLoop].
  - split_and!; [constructor|reflexivity|auto].
  - destruct ((c <? 48) || (57 <? c)) eqn:Ec.
    { intros [Hd _]. apply Forall_cons_1 in Hd as [Hd _]. lia. }
    to_prop. cbn zeta. destruct ((maxLimit - (c - 48)) / 10 <? number) eqn:El; to_prop.
    + intros [Hd Hle]. apply Forall_cons_1 in Hd as [Hc Hd].
      change (digitsValue (number * 10 + (c - 48)) s <= maxLimit) in Hle.
      pose proof (digitsValue_le (number * 10 + (c - 48)) s ltac:(lia) Hd). lia.
    + specialize (IH (number * 10 + (c - 48)) ltac:(lia)).
      destruct (convertLoop s maxLimit (number * 10 + (c - 48))) as [n|].
      * destruct IH as (Hd & -> & Hle). split_and!; [constructor; [lia|exact Hd]|reflexivity|].
        left. destruct Hle as [Hle|Hle]; [exact Hle|]. subst s. cbn. lia.
      * intros [Hd Hle]. apply IH. apply Forall_cons_1 in Hd as [_ Hd]. auto.
Qed.

(** Decimal texts without superfluous zeros. *)
Definition canonical (s : list Z) : Prop :=
  s <> [] /\ digitChars s /\ (charAt s 0 = 48 -> length s = 1%nat).

Lemma digits_acc fuel n acc : digits fuel n acc = digits fuel n [] ++ acc.
Proof.
  revert n acc. induction fuel as [|fuel IH]; intros n acc; [reflexivity|]. cbn [digits].
  case_if; [reflexivity|]. rewrite IH, (IH _ [_]), <- app_assoc. reflexivity.
Qed.

Lemma digits_step fuel n :
  digits (S fuel) n [] = if n <? 10 then [48 + n] else digits fuel (n / 10) [] ++ [48 + n mod 10].
Proof. cbn [digits]. case_if; [reflexivity|]. apply digits_acc. Qed.

Lemma charAt_app s t : s <> [] -> charAt (s ++ t) 0 = charAt s 0.
Proof. destruct s; [contradiction|reflexivity]. Qed.

Lemma digits_canonical fuel n : 0 <= n < 10 ^ Z.of_nat (S fuel) ->
  canonical (digits (S fuel) n []) /\ digitsValue 0 (digits (S fuel) n []) = n /\
  (1 <= n -> charAt (digits (S fuel) n []) 0 <> 48).
Proof.
  revert n. induction fuel as [|fuel IH]; intros n Hn; rewrite digits_step; case_if; to_prop.
  1,3: split_and!; [split_and!; [discriminate|repeat constructor; lia|reflexivity]|cbn; lia|cbn; lia].
  { cbn in Hn. lia. }
  rewrite Nat2Z.inj_succ, Z.pow_succ_r in Hn by lia.
  assert (Hn' : 0 <= n / 10 < 10 ^ Z.of_nat (S fuel))
    by (generalize dependent (10 ^ Z.of_nat (S fuel)); intros; lia).
  destruct (IH (n / 10) Hn') as ((Hne & Hd & _) & Hv & H0). clear Hn Hn'. specialize (H0 ltac:(lia)).
  rewrite charAt_app by exact Hne.
  split_and!; [split_and!| |auto].
  - intros E. apply app_eq_nil in E as [_ [=]].
  - apply Forall_app. split; [exact Hd|]. repeat constructor; lia.
  - rewrite charAt_app by exact Hne. intros E. contradiction.
  - rewrite digitsValue_app, Hv. lia.
Qed.

Lemma canonical_digits s fuel : canonical s -> (length s <= fuel)%nat ->
  s = digits fuel (digitsValue 0 s) [].
Proof.
  revert fuel. induction s as [|c s IH] using rev_ind; intros fuel (Hne & Hd & H0) Hf; [contradiction|].
  apply Forall_app in Hd as [Hd Hc]. apply Forall_cons_1 in Hc as [Hc _].
  rewrite length_app in Hf, H0. cbn in Hf, H0. destruct fuel as [|fuel]; [lia|].
  rewrite digitsValue_app, digits_step.
  destruct s as [|c0 s].
  { change (digitsValue 0 []) with 0. rewrite (proj2 (Z.ltb_lt _ 10)) by lia. cbn [app]. f_equal. lia. }
  assert (Hs : canonical (c0 :: s)).
  { split_and!; [discriminate|exact Hd|]. intros E. cbn in H0, E. specialize (H0 E). lia. }
  assert (1 <= digitsValue 0 (c0 :: s)).
  { change (1 <= digitsValue (0 * 10 + (c0 - 48)) s). apply Forall_cons_1 in Hd as [Hc0 Hd].
    cbn in H0. pose proof (digitsValue_le (0 * 10 + (c0 - 48)) s ltac:(lia) Hd).
    assert (c0 <> 48) by (intros ->; specialize (H0 eq_refl); lia). lia. }
  destruct (Z.ltb_spec (digitsValue 0 (c0 :: s) * 10 + (c - 48)) 10); [lia|].
  replace ((digitsValue 0 (c0 :: s) * 10 + (c - 48)) / 10) with (digitsValue 0 (c0 :: s)) by lia.
  replace ((digitsValue 0 (c0 :: s) * 10 + (c - 48)) mod 10) with (c - 48) by lia.
  rewrite <- (IH fuel Hs) by lia. do 2 f_equal. lia.
Qed.

Lemma canonical_unique s t : canonical s -> canonical t -> digitsValue 0 s = digitsValue 0 t -> s = t.
Proof.
  intros Hs Ht E. rewrite (canonical_digits s (length s + length t) Hs) by lia.
  rewrite E. symmetry. apply canonical_digits; [exact Ht|lia].
Qed.

Lemma decimal_canonical n : 0 <= n < 10 ^ 20 -> canonical (decimal n) /\ digitsValue 0 (decimal n) = n.
Proof. intros Hn. destruct (digits_canonical 19 n Hn) as (H1 & H2 & _). auto. Qed.

(** What [convertToIndexNumber] lets through. *)
Lemma convertToIndexNumber_value s limit : 9 <= limit -> canonical s -> digitsValue 0 s <= limit ->
  convertToIndexNumber s limit = digitsValue 0 s.
Proof.
  intros HM (Hne & Hd & H0) Hle. unfold convertToIndexNumber.
  destruct (length s =? 0)%nat eqn:El; to_prop; [apply nil_length_inv in El; contradiction|].
  case_if. { apply andb_prop in Heqb as [H1 H2]. to_prop. specialize (H0 H2). lia. }
  pose proof (convertLoop_spec s limit 0 HM ltac:(lia)) as H.
  destruct (convertLoop s limit 0) as [n|]; [apply H|]. destruct (H (conj Hd Hle)).
Qed.

Lemma convertToIndexNumber_other s limit : 9 <= limit ->
  convertToIndexNumber s limit = limit \/
  (canonical s /\ digitsValue 0 s <= limit /\ convertToIndexNumber s limit = digitsValue 0 s).
Proof.
  intros HM. unfold convertToIndexNumber. case_if; to_prop; [auto|].
  destruct ((1 <? length s)%nat && (charAt s 0 =? 48)) eqn:E0; [auto|].
  pose proof (convertLoop_spec s limit 0 HM ltac:(lia)) as H.
  destruct (convertLoop s limit 0) as [n|]; [right|auto].
  destruct H as (Hd & -> & Hle). assert (s <> []) by (intros ->; apply Heqb; reflexivity).
  split; [|split; [destruct Hle; [assumption|contradiction]|reflexivity]].
  split; [assumption|]. split; [exact Hd|].
  intros Ec. apply andb_false_iff in E0 as [E0|E0]; to_prop; [|congruence].
  destruct s; [contradiction|]. cbn in *. lia.
Qed.

Lemma index_of_digits s limit n :
  limit = InvalidIndexPropertyValue \/ limit = InvalidIndexValue ->
  0 <= n < limit ->
  (convertToIndexNumber s limit = n <-> s = decimal n) /\
  0 <= convertToIndexNumber s limit <= limit /\
  (s = decimal n -> isIndexString s = true).
Proof.
  intros HL Hn.
  assert (HM : 9 <= limit < 10 ^ 20) by (unfold InvalidIndexPropertyValue, InvalidIndexValue in HL; lia).
  destruct (decimal_canonical n ltac:(lia)) as [Hc Hv].
  split_and!.
  - split.
    + intros E. destruct (convertToIndexNumber_other s limit ltac:(lia)) as [E'|(Hs & Hle & E')]; [lia|].
      apply canonical_unique; [assumption..|congruence].
    + intros ->. rewrite convertToIndexNumber_value by (assumption || lia). exact Hv.
  - destruct (convertToIndexNumber_other s limit ltac:(lia)) as [E'|((_ & Hd & _) & Hle & E')]; [lia|].
    rewrite E'. pose proof (digitsValue_le 0 s ltac:(lia) Hd). lia.
  - destruct (convertToIndexNumber_other s limit ltac:(lia)) as [E'|((_ & Hd & _) & Hle & E')]; [lia|].
    rewrite E'. exact Hle.
  - intros ->. destruct Hc as (Hne & Hd & H0). unfold isIndexString, isDigit.
    destruct (decimal n) as [|c s]; [contradiction|]. unfold charAt in *. cbn [nth length tail] in *.
    apply Forall_cons_1 in Hd as [Hc Hd].
    case_if; to_prop; [apply negb_true_iff, orb_false_intro; lia|].
    destruct ((c <? 49) || (57 <? c)) eqn:E.
    { apply orb_prop in E as [E|E]; to_prop; [|lia]. specialize (H0 ltac:(lia)). lia. }
    apply forallb_forall. intros x Hx. apply list_elem_of_In in Hx.
    pose proof (proj1 (list.Forall_forall _ _) Hd x Hx) as Hx'. cbn beta in Hx'.
    apply negb_true_iff, orb_false_intro; lia.
Qed.

(** A string is an index exactly when it is the decimal text of a number below
    the limit, and then it is that index; the overflow test of the conversion
    never lets a wrapped number through.  [limit] is [2 ^ 32 - 1] for the index
    properties of objects and [2 ^ 64 - 1] for array indices. *)
Theorem index_of_decimal_text s limit n :
  limit = InvalidIndexPropertyValue \/ limit = InvalidIndexValue ->
  0 <= n < limit ->
  (convertToIndexNumber s limit = n <-> s = decimal n) /\
  0 <= convertToIndexNumber s limit <= limit /\
  (s = decimal n -> isIndexString s = true).
Proof. exact (index_of_digits s limit n). Qed.

(** The greatest index property, and one more. *)
Lemma index_of_decimal_text_witness :
  let greatest := [52; 50; 57; 52; 57; 54; 55; 50; 57; 52] in
  tryToUseAsIndexProperty greatest = 4294967294 /\
  tryToUseAsIndexProperty ([52; 50; 57; 52; 57; 54; 55; 50; 57; 54]) = InvalidIndexPropertyValue /\
  isIndexString greatest = true.
Proof.
  cbn zeta. split_and!; [|vm_compute; reflexivity|];
    destruct (index_of_decimal_text ([52; 50; 57; 52; 57; 54; 55; 50; 57; 52]) InvalidIndexPropertyValue 4294967294
      (or_introl eq_refl) ltac:(unfold InvalidIndexPropertyValue; lia)) as (H1 & _ & H2).
  - apply H1. vm_compute. reflexivity.
  - apply H2. vm_compute. reflexivity.
Defined.

(** ** Integer names *)

Lemma uint_bits v : 0 <= v <= MAXIMUM_UINT_FOR_32BIT_PROPERTY_NAME ->
  isUIntType (setUIntValue v) = true /\ uintValue (setUIntValue v) = v.
Proof.
  unfold MAXIMUM_UINT_FOR_32BIT_PROPERTY_NAME, isUIntType, uintValue, m_uintData, setUIntValue,
    OBJECT_PROPERTY_NAME_UINT32_VIAS, to_unsigned. intros Hv.
  assert (E : Z.lor (Z.shiftl v 2 mod 2 ^ 32) 2 = 4 * v + 2).
  { rewrite Z.shiftl_mul_pow2 by lia. rewrite Z.mod_small by lia.
    destruct v as [|v|v]; [reflexivity| |lia]. replace (Z.pos v * 2 ^ 2) with (Z.pos v~0~0) by lia. reflexivity. }
  rewrite E. rewrite Z.mod_small by lia. split.
  - destruct v as [|v|v]; [reflexivity| |lia]. replace (4 * Z.pos v + 2) with (Z.pos v~1~0) by lia. reflexivity.
  - rewrite Z.shiftr_div_pow2 by lia. lia.
Qed.

Lemma wf_name_not_uint st symbols m : wf_strings st -> wf_symbols st symbols ->
  wf_name st symbols m -> isUIntType m = false.
Proof.
  intros Hst Hsym Hm.
  assert (H : exists p b, aligned p /\ m = p + Z.b2z b).
  { destruct Hm as [a Ha|p Hp|p Hp].
    - destruct (in_table_cell st a Hst Ha) as [d Hd]. exists a, true.
      destruct (wf_cells st Hst a d Hd) as [Hal _]. split; [exact Hal|]. apply (aligned_bits a Hal).
    - destruct Hp as [d Hd]. exists p, false. split; [apply (wf_cells st Hst p d Hd)|cbn; lia].
    - exists p, false. split; [apply (Hsym p Hp)|cbn; lia]. }
  destruct H as (p & b & [Hp Hm'] & ->). unfold isUIntType, m_uintData, to_unsigned, OBJECT_PROPERTY_NAME_UINT32_VIAS.
  apply negb_false_iff, Z.eqb_eq.
  set (w := (p + Z.b2z b) mod 2 ^ 32). assert (Hw : w mod 4 = Z.b2z b) by (subst w; destruct b; cbn; lia).
  replace w with (Z.b2z b + (w / 4) * 2 ^ 2) by lia.
  apply Z.bits_inj'. intros n Hn. rewrite Z.land_spec, Z.bits_0.
  destruct (Z.eq_dec n 1) as [->|Hne].
  - apply andb_false_iff. left. rewrite Z.testbit_eqb by lia. apply Z.eqb_neq.
    destruct b; cbn; lia.
  - apply andb_false_iff. right. change 2 with (2 ^ 1). rewrite Z.pow2_bits_false by lia. reflexivity.
Qed.

Lemma integer_name_ok st symbols v m st' :
  wf_strings st -> symbols_below st symbols ->
  0 <= v <= MAXIMUM_UINT_FOR_32BIT_PROPERTY_NAME ->
  toObjectStructurePropertyName st symbols (setUIntValue v) = (m, st') ->
  isUIntType (setUIntValue v) = true /\ uintValue (setUIntValue v) = v /\
  isUIntType m = false /\ wf_name st' symbols m /\ wf_strings st' /\ extends st st' /\
  @propertyKey (heapOf st' symbols) m = KString (decimal v) /\
  @objectName_tryToUseAsIndexProperty (heapOf st' symbols) m =
    @objectName_tryToUseAsIndexProperty (heapOf st' symbols) (setUIntValue v) /\
  @objectName_isIndexString (heapOf st' symbols) m = true.
Proof.
  intros Hst Hsym Hv. destruct (uint_bits v Hv) as [Hu Hval].
  unfold toObjectStructurePropertyName. rewrite Hu, Hval. intros E.
  assert (H : wf_strings st' /\ symbols_below st' symbols /\ extends st st' /\ wf_name st' symbols m /\
              @propertyKey (heapOf st' symbols) m = KString (decimal v)).
  { unfold toObjectStructurePropertyNameUintCase in E. revert E. case_if.
    - pose proof (initLatin1_ok st (decimal v) Hst) as Hi.
      pose proof (initLatin1_symbols st (decimal v) symbols Hsym) as Hs.
      destruct (initLatin1 st (decimal v)) as [a st1]. intros [= <- <-]. cbn [snd] in Hs.
      destruct (interned_key st symbols _ a st1 Hi Hs) as (H1 & H2 & H3 & H4). split_and!; assumption.
    - set (d := {| has8BitContent := true; chars := decimal v; isStringView := false;
                   m_typeTag := POINTER_VALUE_STRING_TAG_IN_DATA |}).
      change (newString st true (decimal v)) with (nextAddress st, addCell st d).
      destruct (addCell_ok st d Hst eq_refl) as (Hwf1 & He1 & Hcell & _).
      pose proof (newString_symbols st true (decimal v) symbols Hsym) as Hs1.
      change (snd (newString st true (decimal v))) with (addCell st d) in Hs1.
      intros E. destruct (nameOfValue_ok _ symbols _ m st' Hwf1 Hs1 (or_introl (mk_is_Some _ _ Hcell)) E)
        as (H1 & H2 & H3 & H4 & H5).
      split_and!; [assumption|assumption|eauto using extends_trans|assumption|].
      rewrite H5, (textOf_cell _ _ _ Hcell). rewrite decide_False; [reflexivity|].
      intros Hin. destruct (Hs1 _ Hin) as (_ & Hnone & _). congruence. }
  destruct H as (H1 & H2 & H3 & H4 & H5).
  assert (Hfalse : isUIntType m = false) by (eapply wf_name_not_uint; eauto using symbols_below_wf).
  assert (Hplain : isPlainString (heap:=heapOf st' symbols) m = true /\
                   stringAt (heap:=heapOf st' symbols) (plainString m) = decimal v).
  { unfold propertyKey, isSymbol, isPlainString in *. destruct (hasAtomicString m).
    - split; [reflexivity|congruence].
    - destruct (hasSymbol m); [discriminate|]. split; [reflexivity|congruence]. }
  destruct Hplain as [Hp Ht].
  destruct (index_of_digits (decimal v) InvalidIndexPropertyValue v (or_introl eq_refl)) as (Hi & _ & Hs).
  { unfold MAXIMUM_UINT_FOR_32BIT_PROPERTY_NAME, InvalidIndexPropertyValue in *. lia. }
  split_and!; try assumption; try reflexivity.
  - unfold objectName_tryToUseAsIndexProperty, name_tryToUseAsIndexProperty.
    rewrite Hu, Hval, Hfalse, Hp, Ht. apply Hi. reflexivity.
  - unfold objectName_isIndexString, name_isIndexString. rewrite Hfalse, Hp, Ht. auto.
Qed.

(** A small integer and the string of its decimal digits are the same
    property name: the word of the integer is told apart from every other name,
    gives the integer back, and converts to a name that stands for the digits
    and has the integer as its index. *)
Theorem integer_names st symbols v m st' :
  wf_strings st -> symbols_below st symbols ->
  0 <= v <= MAXIMUM_UINT_FOR_32BIT_PROPERTY_NAME ->
  toObjectStructurePropertyName st symbols (setUIntValue v) = (m, st') ->
  isUIntType (setUIntValue v) = true /\ uintValue (setUIntValue v) = v /\
  isUIntType m = false /\ wf_name st' symbols m /\ wf_strings st' /\ extends st st' /\
  @propertyKey (heapOf st' symbols) m = KString (decimal v) /\
  @objectName_tryToUseAsIndexProperty (heapOf st' symbols) m =
    @objectName_tryToUseAsIndexProperty (heapOf st' symbols) (setUIntValue v) /\
  @objectName_isIndexString (heapOf st' symbols) m = true.
Proof. exact (integer_name_ok st symbols v m st'). Qed.

Lemma integer_names_witness :
  let st := initialStrings 16 in
  let r := toObjectStructurePropertyName st ∅ (setUIntValue 1000) in
  uintValue (setUIntValue 1000) = 1000 /\
  @propertyKey (heapOf (snd r) ∅) (fst r) = KString [49; 48; 48; 48].
Proof.
  cbn zeta.
  destruct (integer_names (initialStrings 16) ∅ 1000 _ _ (initialStrings_wf 16 (conj eq_refl eq_refl))
    (fun p Hp => match proj1 (elem_of_empty p) Hp with end) ltac:(unfold MAXIMUM_UINT_FOR_32BIT_PROPERTY_NAME; lia) (surjective_pairing _))
    as (_ & H1 & _ & _ & _ & _ & H2 & _).
  split; [exact H1|exact H2].
Defined.

(** A seventeen-digit string whose text is not in the table keeps its address. *)
Lemma nameOfValue_key_witness :
  let st := addCell (initialStrings 16) {| has8BitContent := true; chars := repeat 49 17; isStringView := false;
                                           m_typeTag := POINTER_VALUE_STRING_TAG_IN_DATA |} in
  fst (nameOfValue st ∅ 32) = 32 /\
  @propertyKey (heapOf (snd (nameOfValue st ∅ 32)) ∅) (fst (nameOfValue st ∅ 32)) = KString (repeat 49 17).
Proof.
  cbn zeta.
  set (st := addCell (initialStrings 16) _).
  assert (Hcell : is_Some (cells st !! 32)) by (eexists; vm_compute; reflexivity).
  assert (Hwf : wf_strings st) by (apply addCell_ok; [apply initialStrings_wf; split; reflexivity|reflexivity]).
  split; [vm_compute; reflexivity|].
  exact (proj2 (proj2 (proj2 (proj2 (nameOfValue_key st ∅ 32 _ _ Hwf
    (fun p Hp => match proj1 (elem_of_empty p) Hp with end) (or_introl Hcell) (surjective_pairing _)))))).
Defined.

(** ** Hash values *)

(** Equal names of the same form have the same hash value. *)
Lemma hashValue_agrees st symbols a b : wf_strings st -> wf_symbols st symbols ->
  wf_name st symbols a -> wf_name st symbols b ->
  @hasAtomicString a = @hasAtomicString b ->
  @propertyKey (heapOf st symbols) a = @propertyKey (heapOf st symbols) b ->
  @hashValue (heapOf st symbols) a = @hashValue (heapOf st symbols) b.
Proof.
  intros Hst Hsym Ha Hb Hform Hkey.
  pose proof (wf_name_form st symbols Hst Hsym a Ha) as Fa.
  pose proof (wf_name_form st symbols Hst Hsym b Hb) as Fb.
  assert (E : name_eq (heap:=heapOf st symbols) a b = true)
    by (rewrite name_eq_correct by assumption; apply bool_decide_eq_true; exact Hkey).
  unfold name_form, heap_of_strings in Fa, Fb. unfold hashValue. unfold name_eq in E. rewrite <- Hform in E |- *.
  destruct (hasAtomicString a) eqn:Ha0; cbn [andb negb] in E; [to_prop; congruence|].
  destruct Fa as [(x & _ & _ & Ea & _)|[(_ & Ea & _ & Ep)|(_ & Ea & _)]]; [congruence| |].
  all: destruct Fb as [(y & _ & _ & Eb & _)|[(_ & Eb & _ & Eq)|(_ & Eb & _)]]; [congruence|..].
  all: rewrite Ea, Eb in E |- *; cbn [andb negb] in E; try discriminate.
  - rewrite Ep, Eq in E. apply bool_decide_eq_true in E. rewrite E. reflexivity.
  - to_prop. congruence.
Qed.

(** Equal names of different forms need not: the word of an atomic string hashes
    by address, the word of another string by text.  A long numeric text has
    both forms when one string of the text was made atomic, which a property
    name alone does not do. *)
Theorem long_numeric_name_splits :
  let st := addCell (fst (addCell (initialStrings 16)
              {| has8BitContent := true; chars := repeat 49 17; isStringView := false; m_typeTag := 1 |}, tt))
              {| has8BitContent := true; chars := repeat 49 17; isStringView := false; m_typeTag := 1 |} in
  let st := snd (AtomicString st 48) in
  let a := fst (nameOfValue st ∅ 32) in
  let b := fst (nameOfValue st ∅ 48) in
  @name_eq (heapOf st ∅) a b = true /\
  @hashValue (heapOf st ∅) a <> @hashValue (heapOf st ∅) b.
Proof. vm_compute. split; [reflexivity|discriminate]. Qed.
