(* ===== verification/PropertyDescriptor.v ===== *)
(** * Property descriptors ([runtime/ObjectStructurePropertyDescriptor.h], [Object.h], [Object.cpp])

    Two descriptors: the word a hidden class keeps for a property (attribute bits,
    or the address of the native getter and setter), and the partial descriptor
    that [defineOwnProperty] takes, with bits for what is present. *)

From S2P Require Import Prelude Float64 Ieee754 Value.
Local Open Scope Z_scope.

(** ** The descriptor of a hidden class *)

Definition WritablePresent : Z := Z.shiftl 1 1.
Definition EnumerablePresent : Z := Z.shiftl 1 2.
Definition ConfigurablePresent : Z := Z.shiftl 1 3.
Definition HasJSGetter : Z := Z.shiftl 1 4.
Definition HasJSSetter : Z := Z.shiftl 1 5.

(** [if (flags & bit)]. *)
Definition testFlag (flags bit : Z) : bool := negb (Z.land flags bit =? 0).
Definition flagIf (b : bool) (bit : Z) : Z := if b then bit else 0.

(** The functions are known by their addresses. *)
Record ObjectPropertyNativeGetterSetterData := {
  m_presentAttributes : Z;
  m_actsLikeJSGetterSetter : bool;
  native_getter : Z;
  native_setter : Z
}.

Definition newNativeGetterSetterData (isWritable isEnumerable isConfigurable : bool)
    (getter setter : Z) (actsLikeJSGetterSetter : bool) : ObjectPropertyNativeGetterSetterData :=
  {| m_presentAttributes :=
       Z.lor (Z.lor (flagIf isWritable WritablePresent) (flagIf isEnumerable EnumerablePresent))
             (flagIf isConfigurable ConfigurablePresent);
     m_actsLikeJSGetterSetter := actsLikeJSGetterSetter;
     native_getter := getter; native_setter := setter |}.

(** The modes, as the numbers of the enumeration. *)
Definition PlainDataMode : Z := 0.
Definition HasJSGetterSetter : Z := 1.
Definition HasDataButHasNativeGetterSetter : Z := 2.

(** [ObjectStructurePropertyDescriptorData]: an odd word, or the address of the
    native data, which never changes after it is made. *)
Inductive ObjectStructurePropertyDescriptor :=
| DescriptorWord (m_data : Z)
| NativeDescriptor (m_nativeGetterSetterData : Z) (data : ObjectPropertyNativeGetterSetterData).

#[export] Instance native_data_eq_dec : EqDecision ObjectPropertyNativeGetterSetterData.
Proof. solve_decision. Defined.
#[export] Instance structure_descriptor_eq_dec : EqDecision ObjectStructurePropertyDescriptor.
Proof. solve_decision. Defined.

(** The constructor of the data from attributes and a mode. *)
Definition descriptorData (attribute mode : Z) : ObjectStructurePropertyDescriptor :=
  let m_data := 1 in
  let m_data := Z.lor m_data (flagIf (testFlag attribute WritablePresent) 2) in
  let m_data := Z.lor m_data (flagIf (testFlag attribute EnumerablePresent) 4) in
  let m_data := Z.lor m_data (flagIf (testFlag attribute ConfigurablePresent) 8) in
  let m_data := Z.lor m_data (flagIf (testFlag attribute HasJSGetter) 16) in
  let m_data := Z.lor m_data (flagIf (testFlag attribute HasJSSetter) 32) in
  DescriptorWord (Z.lor m_data (flagIf (negb (mode =? 0)) 64)).

Definition mode (d : ObjectStructurePropertyDescriptor) : Z :=
  match d with
  | DescriptorWord m_data => Z.land m_data 64
  | NativeDescriptor _ _ => HasDataButHasNativeGetterSetter
  end.
Definition presentAttributes (d : ObjectStructurePropertyDescriptor) : Z :=
  match d with
  | DescriptorWord m_data => m_data
  | NativeDescriptor _ data => m_presentAttributes data
  end.
Definition presentAttribute (d : ObjectStructurePropertyDescriptor) (a : Z) : bool :=
  testFlag (presentAttributes d) a.

Definition createDataDescriptor (attribute : Z) : ObjectStructurePropertyDescriptor :=
  descriptorData attribute PlainDataMode.

(** The private constructor of accessors, with the step that is to set the
    writable bit when there is a setter. *)
Definition createAccessorDescriptor (attribute : Z) : ObjectStructurePropertyDescriptor :=
  let m_descriptorData := descriptorData attribute HasJSGetterSetter in
  if (mode m_descriptorData =? HasJSGetterSetter) && testFlag attribute HasJSSetter
  then descriptorData (Z.lor WritablePresent attribute) HasJSGetterSetter
  else m_descriptorData.

Definition createDataButHasNativeGetterSetterDescriptor (p : Z) (data : ObjectPropertyNativeGetterSetterData)
    : ObjectStructurePropertyDescriptor := NativeDescriptor p data.

Definition desc_isWritable (d : ObjectStructurePropertyDescriptor) : bool := presentAttribute d WritablePresent.
Definition desc_isEnumerable (d : ObjectStructurePropertyDescriptor) : bool := presentAttribute d EnumerablePresent.
Definition desc_isConfigurable (d : ObjectStructurePropertyDescriptor) : bool := presentAttribute d ConfigurablePresent.
Definition desc_isDataProperty (d : ObjectStructurePropertyDescriptor) : bool :=
  mode d <=? HasDataButHasNativeGetterSetter.
Definition desc_isAccessorProperty (d : ObjectStructurePropertyDescriptor) : bool := negb (desc_isDataProperty d).
Definition desc_hasJSGetter (d : ObjectStructurePropertyDescriptor) : bool := presentAttribute d HasJSGetter.
Definition desc_hasJSSetter (d : ObjectStructurePropertyDescriptor) : bool := presentAttribute d HasJSSetter.
Definition desc_isPlainDataProperty (d : ObjectStructurePropertyDescriptor) : bool := mode d =? PlainDataMode.
Definition desc_isNativeAccessorProperty (d : ObjectStructurePropertyDescriptor) : bool :=
  mode d =? HasDataButHasNativeGetterSetter.

(** [rawValue] and [operator==] compare the word or the address. *)
Definition rawValue (d : ObjectStructurePropertyDescriptor) : Z :=
  match d with DescriptorWord m_data => m_data | NativeDescriptor p _ => p end.
Definition desc_eq (a b : ObjectStructurePropertyDescriptor) : bool := rawValue a =? rawValue b.

(** ** The descriptors of the interface *)

Record JSGetterSetter := { m_getter : Z; m_setter : Z }.
Definition hasGetter (gs : JSGetterSetter) : bool := negb (isEmpty (m_getter gs)).
Definition hasSetter (gs : JSGetterSetter) : bool := negb (isEmpty (m_setter gs)).
Definition noGetterSetter : JSGetterSetter := {| m_getter := ValueEmpty; m_setter := ValueEmpty |}.

Definition NonWritablePresent : Z := Z.shiftl 1 4.
Definition NonEnumerablePresent : Z := Z.shiftl 1 5.
Definition NonConfigurablePresent : Z := Z.shiftl 1 6.
Definition ValuePresent : Z := Z.shiftl 1 7.
Definition AllPresent : Z :=
  Z.lor (Z.lor (Z.lor WritablePresent EnumerablePresent) ConfigurablePresent) ValuePresent.

(** The union of the value and the accessor pair is two fields, of which
    [m_isDataProperty] tells the one in use. *)
Record ObjectPropertyDescriptor := {
  m_isDataProperty : bool;
  m_property : Z;
  m_value : Z;
  m_getterSetter : JSGetterSetter
}.

(** The constructors: no descriptor, plain data, accessor, generic. *)
Definition emptyDescriptor : ObjectPropertyDescriptor :=
  {| m_isDataProperty := false; m_property := 0; m_value := ValueUndefined; m_getterSetter := noGetterSetter |}.
Definition dataDescriptor (value attribute : Z) : ObjectPropertyDescriptor :=
  {| m_isDataProperty := true; m_property := Z.lor attribute ValuePresent; m_value := value;
     m_getterSetter := noGetterSetter |}.
Definition accessorDescriptor (gs : JSGetterSetter) (attribute : Z) : ObjectPropertyDescriptor :=
  {| m_isDataProperty := false; m_property := attribute; m_value := ValueEmpty; m_getterSetter := gs |}.
Definition genericDescriptor (attribute : Z) (isDataProperty : bool) : ObjectPropertyDescriptor :=
  {| m_isDataProperty := isDataProperty; m_property := attribute; m_value := ValueEmpty;
     m_getterSetter := noGetterSetter |}.

Definition isWritablePresent (d : ObjectPropertyDescriptor) : bool :=
  testFlag (m_property d) WritablePresent || testFlag (m_property d) NonWritablePresent.
Definition isEnumerablePresent (d : ObjectPropertyDescriptor) : bool :=
  testFlag (m_property d) EnumerablePresent || testFlag (m_property d) NonEnumerablePresent.
Definition isConfigurablePresent (d : ObjectPropertyDescriptor) : bool :=
  testFlag (m_property d) ConfigurablePresent || testFlag (m_property d) NonConfigurablePresent.
Definition isValuePresent (d : ObjectPropertyDescriptor) : bool := testFlag (m_property d) ValuePresent.
Definition isWritable (d : ObjectPropertyDescriptor) : bool := testFlag (m_property d) WritablePresent.
Definition isEnumerable (d : ObjectPropertyDescriptor) : bool := testFlag (m_property d) EnumerablePresent.
Definition isConfigurable (d : ObjectPropertyDescriptor) : bool := testFlag (m_property d) ConfigurablePresent.
Definition isDataDescriptor (d : ObjectPropertyDescriptor) : bool := isValuePresent d || isWritablePresent d.
Definition isAccessorDescriptor (d : ObjectPropertyDescriptor) : bool := negb (m_isDataProperty d).
Definition isGenericDescriptor (d : ObjectPropertyDescriptor) : bool :=
  negb (isDataDescriptor d) && negb (isAccessorDescriptor d).
Definition isDataWritableEnumerableConfigurable (d : ObjectPropertyDescriptor) : bool :=
  m_isDataProperty d && isValuePresent d && isWritable d && isEnumerable d && isConfigurable d.
Definition isValuePresentAlone (d : ObjectPropertyDescriptor) : bool := m_property d =? ValuePresent.
Definition hasJSGetter (d : ObjectPropertyDescriptor) : bool := hasGetter (m_getterSetter d).
Definition hasJSSetter (d : ObjectPropertyDescriptor) : bool := hasSetter (m_getterSetter d).

Definition checkProperty (d : ObjectPropertyDescriptor) : bool :=
  let p := m_property d in
  if testFlag p WritablePresent && testFlag p NonWritablePresent then false
  else if testFlag p EnumerablePresent && testFlag p NonEnumerablePresent then false
  else if testFlag p ConfigurablePresent && testFlag p NonConfigurablePresent then false
  else if negb (m_isDataProperty d) &&
          (testFlag p WritablePresent || testFlag p NonWritablePresent || testFlag p ValuePresent) then false
  else true.

Definition withProperty (d : ObjectPropertyDescriptor) (p : Z) : ObjectPropertyDescriptor :=
  {| m_isDataProperty := m_isDataProperty d; m_property := p; m_value := m_value d;
     m_getterSetter := m_getterSetter d |}.
Definition setFlags (d : ObjectPropertyDescriptor) (on off : Z) : ObjectPropertyDescriptor :=
  withProperty d (Z.ldiff (Z.lor (m_property d) on) off).
Definition setEnumerable (d : ObjectPropertyDescriptor) (enumerable : bool) : ObjectPropertyDescriptor :=
  if enumerable then setFlags d EnumerablePresent NonEnumerablePresent
  else setFlags d NonEnumerablePresent EnumerablePresent.
Definition setConfigurable (d : ObjectPropertyDescriptor) (configurable : bool) : ObjectPropertyDescriptor :=
  if configurable then setFlags d ConfigurablePresent NonConfigurablePresent
  else setFlags d NonConfigurablePresent ConfigurablePresent.
Definition setWritable (d : ObjectPropertyDescriptor) (writable : bool) : ObjectPropertyDescriptor :=
  if writable then setFlags d WritablePresent NonWritablePresent
  else setFlags d NonWritablePresent WritablePresent.
Definition setValue (d : ObjectPropertyDescriptor) (v : Z) : ObjectPropertyDescriptor :=
  {| m_isDataProperty := m_isDataProperty d; m_property := Z.lor (m_property d) ValuePresent;
     m_value := v; m_getterSetter := m_getterSetter d |}.
Definition setGetterSetter (d : ObjectPropertyDescriptor) (gs : JSGetterSetter) : ObjectPropertyDescriptor :=
  {| m_isDataProperty := m_isDataProperty d; m_property := m_property d; m_value := m_value d;
     m_getterSetter := gs |}.
Definition withGetter (gs : JSGetterSetter) (g : Z) : JSGetterSetter := {| m_getter := g; m_setter := m_setter gs |}.
Definition withSetter (gs : JSGetterSetter) (s : Z) : JSGetterSetter := {| m_getter := m_getter gs; m_setter := s |}.

(** ** Conversions *)

(** What an object keeps for a property: a value, or the pair of an accessor
    (behind a pointer that is replaced, never written through). *)
Inductive Slot :=
| SlotValue (v : Z)
| SlotGetterSetter (gs : JSGetterSetter).

Definition slotValue (s : Slot) : Z := match s with SlotValue v => v | SlotGetterSetter _ => ValueEmpty end.
Definition slotGetterSetter (s : Slot) : JSGetterSetter :=
  match s with SlotValue _ => noGetterSetter | SlotGetterSetter gs => gs end.

Definition toObjectStructurePropertyDescriptor (d : ObjectPropertyDescriptor) : ObjectStructurePropertyDescriptor :=
  if m_isDataProperty d then
    let f := flagIf (isWritable d) WritablePresent in
    let f := Z.lor f (flagIf (isConfigurable d) ConfigurablePresent) in
    createDataDescriptor (Z.lor f (flagIf (isEnumerable d) EnumerablePresent))
  else
    let f := flagIf (isConfigurable d) ConfigurablePresent in
    let f := Z.lor f (flagIf (isEnumerable d) EnumerablePresent) in
    let f := Z.lor f (flagIf (hasJSGetter d) HasJSGetter) in
    createAccessorDescriptor (Z.lor f (flagIf (hasJSSetter d) HasJSSetter)).

Definition fromObjectStructurePropertyDescriptor (desc : ObjectStructurePropertyDescriptor) (value : Slot)
    : ObjectPropertyDescriptor :=
  if desc_isDataProperty desc then
    let ret := dataDescriptor (slotValue value) 0 in
    let ret := setWritable ret (desc_isWritable desc) in
    let ret := setEnumerable ret (desc_isEnumerable desc) in
    setConfigurable ret (desc_isConfigurable desc)
  else
    let ret := accessorDescriptor (slotGetterSetter value) 0 in
    let ret := setEnumerable ret (desc_isEnumerable desc) in
    setConfigurable ret (desc_isConfigurable desc).

Definition completePropertyDescriptor (desc : ObjectPropertyDescriptor) : ObjectPropertyDescriptor :=
  let desc :=
    if isGenericDescriptor desc || isDataDescriptor desc then
      let desc := if negb (isValuePresent desc) then setValue desc ValueUndefined else desc in
      if negb (isWritablePresent desc) then setWritable desc false else desc
    else
      let desc := if negb (hasJSGetter desc)
                  then setGetterSetter desc (withGetter (m_getterSetter desc) ValueUndefined) else desc in
      if negb (hasJSSetter desc)
      then setGetterSetter desc (withSetter (m_getterSetter desc) ValueUndefined) else desc in
  let desc := if negb (isEnumerablePresent desc) then setEnumerable desc false else desc in
  if negb (isConfigurablePresent desc) then setConfigurable desc false else desc.

(** ** Descriptors of the language *)

(** A Property Descriptor, whose fields may be absent, and a property, which has
    them all. *)
Record PropertyDescriptor := {
  d_value : option Z;
  d_writable : option bool;
  d_get : option Z;
  d_set : option Z;
  d_enumerable : option bool;
  d_configurable : option bool
}.

Inductive Property :=
| DataProperty (value : Z) (writable enumerable configurable : bool)
| AccessorProperty (getter setter : Z) (enumerable configurable : bool).

Definition presentIf {A} (b : bool) (a : A) : option A := if b then Some a else None.

(** What a descriptor of the code stands for. *)
Definition descriptorOf (d : ObjectPropertyDescriptor) : PropertyDescriptor :=
  {| d_value := presentIf (m_isDataProperty d && isValuePresent d) (m_value d);
     d_writable := presentIf (isWritablePresent d) (isWritable d);
     d_get := presentIf (negb (m_isDataProperty d) && hasJSGetter d) (m_getter (m_getterSetter d));
     d_set := presentIf (negb (m_isDataProperty d) && hasJSSetter d) (m_setter (m_getterSetter d));
     d_enumerable := presentIf (isEnumerablePresent d) (isEnumerable d);
     d_configurable := presentIf (isConfigurablePresent d) (isConfigurable d) |}.

(** The getter or setter of an accessor, an absent one reading as undefined. *)
Definition orUndefined (w : Z) : Z := if isEmpty w then ValueUndefined else w.

Definition propertyOf (desc : ObjectStructurePropertyDescriptor) (s : Slot) : Property :=
  if desc_isDataProperty desc
  then DataProperty (slotValue s) (desc_isWritable desc) (desc_isEnumerable desc) (desc_isConfigurable desc)
  else AccessorProperty (orUndefined (m_getter (slotGetterSetter s))) (orUndefined (m_setter (slotGetterSetter s)))
                        (desc_isEnumerable desc) (desc_isConfigurable desc).

Definition IsAccessor (d : PropertyDescriptor) : bool := bool_decide (is_Some (d_get d) \/ is_Some (d_set d)).
Definition IsData (d : PropertyDescriptor) : bool := bool_decide (is_Some (d_value d) \/ is_Some (d_writable d)).

(** The property that a descriptor makes where there was none: its fields and the
    defaults for the others. *)
Definition newProperty (d : PropertyDescriptor) : Property :=
  if IsAccessor d
  then AccessorProperty (default ValueUndefined (d_get d)) (default ValueUndefined (d_set d))
                        (default false (d_enumerable d)) (default false (d_configurable d))
  else DataProperty (default ValueUndefined (d_value d)) (default false (d_writable d))
                    (default false (d_enumerable d)) (default false (d_configurable d)).

(** The full descriptor of a property. *)
Definition fullDescriptor (p : Property) : PropertyDescriptor :=
  match p with
  | DataProperty v w e c =>
    {| d_value := Some v; d_writable := Some w; d_get := None; d_set := None;
       d_enumerable := Some e; d_configurable := Some c |}
  | AccessorProperty g s e c =>
    {| d_value := None; d_writable := None; d_get := Some g; d_set := Some s;
       d_enumerable := Some e; d_configurable := Some c |}
  end.

(** The descriptors that reach the object operations: consistent bits, and an
    accessor descriptor has a getter or a setter. *)
Definition wf_descriptor (d : ObjectPropertyDescriptor) : Prop :=
  checkProperty d = true /\
  (m_isDataProperty d = false -> hasJSGetter d || hasJSSetter d = true).

(** ** Bits *)

Lemma testFlag_lor a b c : testFlag (Z.lor a b) c = testFlag a c || testFlag b c.
Proof.
  unfold testFlag. rewrite Z.land_lor_distr_l.
  destruct (Z.eqb_spec (Z.land a c) 0) as [E|E]; destruct (Z.eqb_spec (Z.land b c) 0) as [E'|E'];
    destruct (Z.eqb_spec (Z.lor (Z.land a c) (Z.land b c)) 0) as [E''|E'']; try reflexivity; exfalso;
    try (apply Z.lor_eq_0_iff in E'' as [? ?]; contradiction).
  apply E''. apply Z.lor_eq_0_iff. auto.
Qed.

Lemma testFlag_bit a k : 0 <= k -> testFlag a (Z.shiftl 1 k) = Z.testbit a k.
Proof.
  intros Hk. unfold testFlag. destruct (Z.testbit a k) eqn:E.
  - apply negb_true_iff, Z.eqb_neq. intros H.
    assert (Hb : Z.testbit (Z.land a (Z.shiftl 1 k)) k = false) by (rewrite H; apply Z.bits_0).
    rewrite Z.land_spec, E, Z.shiftl_spec, Z.sub_diag in Hb by exact Hk. discriminate.
  - apply negb_false_iff, Z.eqb_eq, Z.bits_inj'. intros n Hn. rewrite Z.land_spec, Z.bits_0.
    destruct (Z.eq_dec n k) as [->|Hne]; [rewrite E; reflexivity|].
    rewrite Z.shiftl_spec by exact Hn.
    destruct (Z.lt_ge_cases n k); [rewrite (Z.testbit_neg_r 1) by lia; apply andb_false_r|].
    rewrite (Z.bits_above_log2 1) by (cbn; lia). apply andb_false_r.
Qed.

Lemma testFlag_ldiff a b k : 0 <= k ->
  testFlag (Z.ldiff a b) (Z.shiftl 1 k) = testFlag a (Z.shiftl 1 k) && negb (testFlag b (Z.shiftl 1 k)).
Proof. intros Hk. rewrite !testFlag_bit by exact Hk. apply Z.ldiff_spec. Qed.

Lemma testFlag_flagIf b x c : testFlag (flagIf b x) c = b && testFlag x c.
Proof. destruct b; reflexivity. Qed.

(** The attribute bits are told apart by computation. *)
Create Rewrite HintDb flags.
#[export] Hint Rewrite testFlag_lor testFlag_flagIf : flags.
#[export] Hint Rewrite testFlag_ldiff using lia : flags.

Ltac flags :=
  unfold setFlags, withProperty, dataDescriptor, accessorDescriptor, setGetterSetter in *;
  cbn [m_property m_isDataProperty m_value m_getterSetter] in *;
  unfold WritablePresent, EnumerablePresent, ConfigurablePresent, NonWritablePresent,
    NonEnumerablePresent, NonConfigurablePresent, ValuePresent, HasJSGetter, HasJSSetter in *;
  autorewrite with flags in *;
  repeat match goal with
  | H : context [testFlag (Z.shiftl 1 ?i) (Z.shiftl 1 ?j)] |- _ =>
    let b := eval vm_compute in (testFlag (Z.shiftl 1 i) (Z.shiftl 1 j)) in
    change (testFlag (Z.shiftl 1 i) (Z.shiftl 1 j)) with b in H
  | |- context [testFlag (Z.shiftl 1 ?i) (Z.shiftl 1 ?j)] =>
    let b := eval vm_compute in (testFlag (Z.shiftl 1 i) (Z.shiftl 1 j)) in
    change (testFlag (Z.shiftl 1 i) (Z.shiftl 1 j)) with b
  end.

(** The word of a descriptor, bit by bit. *)
Lemma descriptorData_word attribute mode : exists w, descriptorData attribute mode = DescriptorWord w /\
  testFlag w WritablePresent = testFlag attribute WritablePresent /\
  testFlag w EnumerablePresent = testFlag attribute EnumerablePresent /\
  testFlag w ConfigurablePresent = testFlag attribute ConfigurablePresent /\
  testFlag w HasJSGetter = testFlag attribute HasJSGetter /\
  testFlag w HasJSSetter = testFlag attribute HasJSSetter /\
  testFlag w 64 = negb (mode =? 0) /\ testFlag w 1 = true.
Proof.
  eexists. split; [reflexivity|].
  change 2 with (Z.shiftl 1 1). change 4 with (Z.shiftl 1 2). change 8 with (Z.shiftl 1 3).
  change 16 with (Z.shiftl 1 4). change 32 with (Z.shiftl 1 5). change 64 with (Z.shiftl 1 6).
  assert (E1 : forall k, 0 < k -> testFlag 1 (Z.shiftl 1 k) = false).
  { intros k Hk. rewrite testFlag_bit by lia. apply Z.bits_above_log2; cbn; lia. }
  flags. rewrite !E1 by lia. cbn [orb].
  split_and!; rewrite ?orb_false_l, ?orb_false_r, ?andb_false_r, ?andb_true_r, ?orb_false_l, ?orb_false_r; reflexivity.
Qed.

(** What the predicates of a hidden class say of a descriptor made from
    attributes. *)
Lemma land_64 w : Z.land w 64 = if testFlag w 64 then 64 else 0.
Proof.
  unfold testFlag. destruct (Z.eqb_spec (Z.land w 64) 0) as [E|E]; cbn [negb]; [exact E|].
  apply Z.bits_inj'. intros n Hn. rewrite Z.land_spec.
  change 64 with (2 ^ 6) in *. destruct (Z.eq_dec n 6) as [->|Hne].
  - rewrite Z.pow2_bits_true by lia. rewrite andb_true_r.
    destruct (Z.testbit w 6) eqn:Eb; [reflexivity|]. exfalso. apply E, Z.bits_inj'. intros m Hm.
    rewrite Z.land_spec, Z.bits_0. destruct (Z.eq_dec m 6) as [->|]; [rewrite Eb; reflexivity|].
    rewrite Z.pow2_bits_false by lia. apply andb_false_r.
  - rewrite Z.pow2_bits_false by lia. apply andb_false_r.
Qed.

Lemma descriptorData_predicates attribute m (d := descriptorData attribute m) :
  desc_isWritable d = testFlag attribute WritablePresent /\
  desc_isEnumerable d = testFlag attribute EnumerablePresent /\
  desc_isConfigurable d = testFlag attribute ConfigurablePresent /\
  desc_hasJSGetter d = testFlag attribute HasJSGetter /\
  desc_hasJSSetter d = testFlag attribute HasJSSetter /\
  mode d = (if m =? 0 then 0 else 64) /\
  desc_isDataProperty d = (m =? 0) /\ desc_isNativeAccessorProperty d = false /\
  desc_isPlainDataProperty d = (m =? 0).
Proof.
  destruct (descriptorData_word attribute m) as (w & E & H1 & H2 & H3 & H4 & H5 & H6 & _).
  subst d. rewrite E.
  unfold desc_isWritable, desc_isEnumerable, desc_isConfigurable, desc_hasJSGetter, desc_hasJSSetter,
    presentAttribute, desc_isDataProperty, desc_isNativeAccessorProperty, desc_isPlainDataProperty.
  cbn [presentAttributes mode]. rewrite land_64, H6.
  split_and!; try assumption; destruct (m =? 0); reflexivity.
Qed.

(** The step that is to mark accessors with a setter as writable never runs: the
    mode of an accessor reads as 64, not as [HasJSGetterSetter]. *)
Lemma createAccessorDescriptor_eq attribute :
  createAccessorDescriptor attribute = descriptorData attribute HasJSGetterSetter.
Proof.
  unfold createAccessorDescriptor.
  destruct (descriptorData_predicates attribute HasJSGetterSetter) as (_ & _ & _ & _ & _ & -> & _).
  reflexivity.
Qed.

Lemma toStructure_predicates d (s := toObjectStructurePropertyDescriptor d) :
  desc_isWritable s = m_isDataProperty d && isWritable d /\
  desc_isEnumerable s = isEnumerable d /\ desc_isConfigurable s = isConfigurable d /\
  desc_isDataProperty s = m_isDataProperty d /\ desc_isNativeAccessorProperty s = false /\
  desc_isPlainDataProperty s = m_isDataProperty d /\
  (m_isDataProperty d = false -> desc_hasJSGetter s = hasJSGetter d /\ desc_hasJSSetter s = hasJSSetter d).
Proof.
  subst s. unfold toObjectStructurePropertyDescriptor, createDataDescriptor. destruct (m_isDataProperty d).
  - edestruct descriptorData_predicates as (-> & -> & -> & _ & _ & _ & -> & -> & ->).
    unfold isWritable, isEnumerable, isConfigurable. flags. rewrite ?andb_false_r, ?orb_false_r, ?andb_true_r.
    cbn [orb]. split_and!; try reflexivity. intros [=].
  - rewrite createAccessorDescriptor_eq.
    edestruct descriptorData_predicates as (-> & -> & -> & -> & -> & _ & -> & -> & ->).
    unfold isEnumerable, isConfigurable. flags. rewrite ?andb_false_r, ?orb_false_r, ?andb_true_r.
    cbn [orb]. split_and!; reflexivity || (split; reflexivity).
Qed.

(** The slot that goes with a new property. *)
Definition slotFor (d : ObjectPropertyDescriptor) : Slot :=
  if m_isDataProperty d
  then SlotValue (if isValuePresent d then m_value d else ValueUndefined)
  else SlotGetterSetter (m_getterSetter d).

Lemma orUndefined_default b w : default ValueUndefined (presentIf b w) = if b then w else ValueUndefined.
Proof. destruct b; reflexivity. Qed.

Lemma orUndefined_hasGetter gs : orUndefined (m_getter gs) = if hasGetter gs then m_getter gs else ValueUndefined.
Proof. unfold orUndefined, hasGetter. destruct (isEmpty (m_getter gs)); reflexivity. Qed.
Lemma orUndefined_hasSetter gs : orUndefined (m_setter gs) = if hasSetter gs then m_setter gs else ValueUndefined.
Proof. unfold orUndefined, hasSetter. destruct (isEmpty (m_setter gs)); reflexivity. Qed.

Lemma is_Some_presentIf {A} b (a : A) : is_Some (presentIf b a) <-> b = true.
Proof. destruct b; split; intros H; try discriminate; eauto. destruct H as [? [=]]. Qed.

Lemma IsAccessor_descriptorOf d : wf_descriptor d -> IsAccessor (descriptorOf d) = negb (m_isDataProperty d).
Proof.
  intros [_ Hacc]. unfold IsAccessor. cbn. destruct (m_isDataProperty d) eqn:E; cbn [negb andb].
  - apply bool_decide_eq_false. rewrite !is_Some_presentIf. intros [[=]|[=]].
  - apply bool_decide_eq_true. rewrite !is_Some_presentIf. apply orb_prop. auto.
Qed.

Lemma IsData_descriptorOf d : wf_descriptor d -> IsData (descriptorOf d) = isDataDescriptor d.
Proof.
  intros [Hc _]. unfold IsData, isDataDescriptor. cbn.
  assert (H : m_isDataProperty d = false -> isValuePresent d = false /\ isWritablePresent d = false).
  { intros E. unfold checkProperty, isValuePresent, isWritablePresent in *. rewrite E in Hc. cbn [negb andb] in Hc.
    destruct (testFlag (m_property d) WritablePresent), (testFlag (m_property d) NonWritablePresent),
      (testFlag (m_property d) ValuePresent), (testFlag (m_property d) EnumerablePresent),
      (testFlag (m_property d) NonEnumerablePresent), (testFlag (m_property d) ConfigurablePresent),
      (testFlag (m_property d) NonConfigurablePresent); cbn in Hc; try discriminate; auto. }
  destruct (isValuePresent d || isWritablePresent d) eqn:E.
  - apply bool_decide_eq_true. rewrite !is_Some_presentIf. destruct (m_isDataProperty d); cbn [andb].
    + apply orb_prop. exact E.
    + destruct (H eq_refl) as [E1 E2]. rewrite E1, E2 in E. discriminate.
  - apply bool_decide_eq_false. rewrite !is_Some_presentIf. apply orb_false_elim in E as [-> ->].
    rewrite andb_false_r. intros [[=]|[=]].
Qed.

(** A wanted attribute that is not said to be present reads as false. *)
Lemma default_presentIf_flag p a b :
  default false (presentIf (testFlag p a || testFlag p b) (testFlag p a)) = testFlag p a.
Proof. destruct (testFlag p a), (testFlag p b); reflexivity. Qed.

Lemma default_enumerable d : default false (d_enumerable (descriptorOf d)) = isEnumerable d.
Proof. apply default_presentIf_flag. Qed.
Lemma default_configurable d : default false (d_configurable (descriptorOf d)) = isConfigurable d.
Proof. apply default_presentIf_flag. Qed.
Lemma default_writable d : default false (d_writable (descriptorOf d)) = isWritable d.
Proof. apply default_presentIf_flag. Qed.

(** A new property is what the language makes of the descriptor. *)
Lemma propertyOf_new d : wf_descriptor d ->
  propertyOf (toObjectStructurePropertyDescriptor d) (slotFor d) = newProperty (descriptorOf d).
Proof.
  intros Hwf. destruct (toStructure_predicates d) as (Hw & He & Hc & Hd & _).
  unfold propertyOf, newProperty, slotFor. rewrite Hd, Hw, He, Hc, IsAccessor_descriptorOf by exact Hwf.
  unfold descriptorOf. destruct (m_isDataProperty d);
    cbn [negb andb slotValue slotGetterSetter d_value d_writable d_get d_set d_enumerable d_configurable];
    unfold isWritablePresent, isEnumerablePresent, isConfigurablePresent, isWritable, isEnumerable, isConfigurable;
    rewrite !default_presentIf_flag, ?orUndefined_default; [reflexivity|].
  rewrite orUndefined_hasGetter, orUndefined_hasSetter. reflexivity.
Qed.

(** ** Completion, and what is read back of a stored property *)

Lemma setFlags_spec d on off k : 0 <= k ->
  testFlag (m_property (setFlags d on off)) (Z.shiftl 1 k) =
  (testFlag (m_property d) (Z.shiftl 1 k) || testFlag on (Z.shiftl 1 k)) && negb (testFlag off (Z.shiftl 1 k)).
Proof. intros Hk. unfold setFlags, withProperty. cbn [m_property]. rewrite testFlag_ldiff, testFlag_lor by exact Hk. reflexivity. Qed.

(** The setters of descriptors, through what the descriptors stand for. *)
Lemma descriptorOf_setEnumerable d b :
  descriptorOf (setEnumerable d b) =
  {| d_value := d_value (descriptorOf d); d_writable := d_writable (descriptorOf d); d_get := d_get (descriptorOf d);
     d_set := d_set (descriptorOf d); d_enumerable := Some b; d_configurable := d_configurable (descriptorOf d) |}.
Proof.
  unfold descriptorOf, setEnumerable, isValuePresent, isWritablePresent, isEnumerablePresent,
    isConfigurablePresent, isWritable, isEnumerable, isConfigurable, hasJSGetter, hasJSSetter.
  destruct b; flags; rewrite ?andb_true_r, ?orb_false_r, ?andb_false_r, ?orb_true_r; reflexivity.
Qed.
Lemma descriptorOf_setConfigurable d b :
  descriptorOf (setConfigurable d b) =
  {| d_value := d_value (descriptorOf d); d_writable := d_writable (descriptorOf d); d_get := d_get (descriptorOf d);
     d_set := d_set (descriptorOf d); d_enumerable := d_enumerable (descriptorOf d); d_configurable := Some b |}.
Proof.
  unfold descriptorOf, setConfigurable, isValuePresent, isWritablePresent, isEnumerablePresent,
    isConfigurablePresent, isWritable, isEnumerable, isConfigurable, hasJSGetter, hasJSSetter.
  destruct b; flags; rewrite ?andb_true_r, ?orb_false_r, ?andb_false_r, ?orb_true_r; reflexivity.
Qed.
Lemma descriptorOf_setWritable d b :
  descriptorOf (setWritable d b) =
  {| d_value := d_value (descriptorOf d); d_writable := Some b; d_get := d_get (descriptorOf d);
     d_set := d_set (descriptorOf d); d_enumerable := d_enumerable (descriptorOf d);
     d_configurable := d_configurable (descriptorOf d) |}.
Proof.
  unfold descriptorOf, setWritable, isValuePresent, isWritablePresent, isEnumerablePresent,
    isConfigurablePresent, isWritable, isEnumerable, isConfigurable, hasJSGetter, hasJSSetter.
  destruct b; flags; rewrite ?andb_true_r, ?orb_false_r, ?andb_false_r, ?orb_true_r; reflexivity.
Qed.
Lemma descriptorOf_setValue d v : m_isDataProperty d = true ->
  descriptorOf (setValue d v) =
  {| d_value := Some v; d_writable := d_writable (descriptorOf d); d_get := d_get (descriptorOf d);
     d_set := d_set (descriptorOf d); d_enumerable := d_enumerable (descriptorOf d);
     d_configurable := d_configurable (descriptorOf d) |}.
Proof.
  intros E. unfold descriptorOf, setValue, isValuePresent, isWritablePresent, isEnumerablePresent,
    isConfigurablePresent, isWritable, isEnumerable, isConfigurable, hasJSGetter, hasJSSetter.
  flags. rewrite E, ?andb_true_r, ?orb_false_r, ?andb_false_r, ?orb_true_r. reflexivity.
Qed.

Lemma present_enumerable d : isEnumerablePresent d = true <-> is_Some (d_enumerable (descriptorOf d)).
Proof. cbn. rewrite is_Some_presentIf. reflexivity. Qed.
Lemma present_configurable d : isConfigurablePresent d = true <-> is_Some (d_configurable (descriptorOf d)).
Proof. cbn. rewrite is_Some_presentIf. reflexivity. Qed.

Lemma checkProperty_accessor d : checkProperty d = true -> m_isDataProperty d = false ->
  isValuePresent d = false /\ isWritablePresent d = false.
Proof.
  intros Hc E. unfold checkProperty, isValuePresent, isWritablePresent in *. rewrite E in Hc. cbn [negb andb] in Hc.
  destruct (testFlag (m_property d) WritablePresent), (testFlag (m_property d) NonWritablePresent),
    (testFlag (m_property d) ValuePresent), (testFlag (m_property d) EnumerablePresent),
    (testFlag (m_property d) NonEnumerablePresent), (testFlag (m_property d) ConfigurablePresent),
    (testFlag (m_property d) NonConfigurablePresent); cbn in Hc; try discriminate; auto.
Qed.

(** The two last steps of the completion. *)
Lemma complete_flags d :
  let d1 := if negb (isEnumerablePresent d) then setEnumerable d false else d in
  descriptorOf (if negb (isConfigurablePresent d1) then setConfigurable d1 false else d1) =
  {| d_value := d_value (descriptorOf d); d_writable := d_writable (descriptorOf d);
     d_get := d_get (descriptorOf d); d_set := d_set (descriptorOf d);
     d_enumerable := Some (default false (d_enumerable (descriptorOf d)));
     d_configurable := Some (default false (d_configurable (descriptorOf d))) |}.
Proof.
  cbn zeta.
  assert (E1 : descriptorOf (if negb (isEnumerablePresent d) then setEnumerable d false else d) =
    {| d_value := d_value (descriptorOf d); d_writable := d_writable (descriptorOf d);
       d_get := d_get (descriptorOf d); d_set := d_set (descriptorOf d);
       d_enumerable := Some (default false (d_enumerable (descriptorOf d)));
       d_configurable := d_configurable (descriptorOf d) |}).
  { destruct (isEnumerablePresent d) eqn:E; cbn [negb]; [|rewrite descriptorOf_setEnumerable];
      unfold descriptorOf;
      cbn [d_value d_writable d_get d_set d_enumerable d_configurable]; rewrite E; reflexivity. }
  set (d1 := if negb (isEnumerablePresent d) then setEnumerable d false else d) in *.
  destruct (isConfigurablePresent d1) eqn:E; cbn [negb].
  - rewrite E1. f_equal. pose proof (f_equal d_configurable E1) as Ec. cbn [d_configurable] in Ec. rewrite <- Ec.
    unfold descriptorOf. cbn [d_configurable]. rewrite E. reflexivity.
  - rewrite descriptorOf_setConfigurable, E1. cbn. f_equal.
    pose proof (f_equal d_configurable E1) as Ec. cbn [d_configurable] in Ec. cbn in Ec. rewrite E in Ec.
    rewrite <- Ec. reflexivity.
Qed.

Lemma isDataDescriptor_accessor d : wf_descriptor d -> m_isDataProperty d = false -> isDataDescriptor d = false.
Proof.
  intros [Hc _] E. destruct (checkProperty_accessor d Hc E) as [H1 H2]. unfold isDataDescriptor. rewrite H1, H2. reflexivity.
Qed.

Lemma complete_fullDescriptor d : wf_descriptor d ->
  descriptorOf (completePropertyDescriptor d) = fullDescriptor (newProperty (descriptorOf d)).
Proof.
  intros Hwf. unfold completePropertyDescriptor. rewrite complete_flags.
  unfold newProperty. rewrite IsAccessor_descriptorOf by exact Hwf.
  unfold isGenericDescriptor, isAccessorDescriptor. destruct (m_isDataProperty d) eqn:Ed; cbn [negb andb].
  - assert (Eb : negb (isDataDescriptor d) && true || isDataDescriptor d = true)
      by (destruct (isDataDescriptor d); reflexivity).
    rewrite Eb. cbn [fullDescriptor].
    set (d1 := if negb (isValuePresent d) then setValue d ValueUndefined else d).
    assert (E1 : descriptorOf d1 =
      {| d_value := Some (default ValueUndefined (d_value (descriptorOf d)));
         d_writable := d_writable (descriptorOf d); d_get := None; d_set := None;
         d_enumerable := d_enumerable (descriptorOf d); d_configurable := d_configurable (descriptorOf d) |}).
    { subst d1. destruct (isValuePresent d) eqn:E; cbn [negb]; [|rewrite descriptorOf_setValue by exact Ed];
        unfold descriptorOf; cbn [d_value d_writable d_get d_set d_enumerable d_configurable];
        rewrite E, Ed; reflexivity. }
    assert (E2 : descriptorOf (if negb (isWritablePresent d1) then setWritable d1 false else d1) =
      {| d_value := Some (default ValueUndefined (d_value (descriptorOf d)));
         d_writable := Some (default false (d_writable (descriptorOf d))); d_get := None; d_set := None;
         d_enumerable := d_enumerable (descriptorOf d); d_configurable := d_configurable (descriptorOf d) |}).
    { pose proof (f_equal d_writable E1) as Ew. cbn [d_writable] in Ew.
      destruct (isWritablePresent d1) eqn:E; cbn [negb]; [|rewrite descriptorOf_setWritable]; rewrite E1;
        cbn [d_value d_writable d_get d_set d_enumerable d_configurable]; rewrite <- Ew;
        unfold descriptorOf; cbn [d_writable]; rewrite E; reflexivity. }
    rewrite E2. reflexivity.
  - rewrite (isDataDescriptor_accessor d Hwf Ed). cbn [negb andb orb fullDescriptor].
    destruct (checkProperty_accessor d (proj1 Hwf) Ed) as [Hv Hw].
    set (gs := m_getterSetter d).
    assert (E : descriptorOf
        (if negb (hasJSSetter (if negb (hasJSGetter d) then setGetterSetter d (withGetter gs ValueUndefined) else d))
         then setGetterSetter (if negb (hasJSGetter d) then setGetterSetter d (withGetter gs ValueUndefined) else d)
                (withSetter (m_getterSetter (if negb (hasJSGetter d) then setGetterSetter d (withGetter gs ValueUndefined) else d))
                            ValueUndefined)
         else if negb (hasJSGetter d) then setGetterSetter d (withGetter gs ValueUndefined) else d) =
      {| d_value := None; d_writable := None;
         d_get := Some (default ValueUndefined (d_get (descriptorOf d)));
         d_set := Some (default ValueUndefined (d_set (descriptorOf d)));
         d_enumerable := d_enumerable (descriptorOf d); d_configurable := d_configurable (descriptorOf d) |}).
    { unfold descriptorOf, isValuePresent, isWritablePresent, isEnumerablePresent, isConfigurablePresent,
        isWritable, isEnumerable, isConfigurable in *.
      destruct (hasJSGetter d) eqn:Eg; cbn [negb]; destruct (hasJSSetter d) eqn:Es;
        unfold hasJSSetter, hasJSGetter, hasGetter, hasSetter in *;
        cbn [setGetterSetter withGetter withSetter m_getterSetter m_getter m_setter m_isDataProperty m_property m_value] in *;
        subst gs; rewrite ?Es; cbn [negb];
        cbn [setGetterSetter withGetter withSetter m_getterSetter m_getter m_setter m_isDataProperty m_property m_value
             d_get d_set];
        rewrite ?Es, ?Eg, ?Ed, ?Hv, ?Hw; cbn [negb andb presentIf default]; reflexivity. }
    rewrite E. reflexivity.
Qed.

(** Completing a descriptor gives every field it lacks its default value, and
    so the full descriptor of the property it would create. *)
Theorem completePropertyDescriptor_correct d : wf_descriptor d ->
  descriptorOf (completePropertyDescriptor d) = fullDescriptor (newProperty (descriptorOf d)).
Proof. exact (complete_fullDescriptor d). Qed.

Lemma completePropertyDescriptor_correct_witness :
  let d := accessorDescriptor {| m_getter := 4096; m_setter := ValueEmpty |} NonEnumerablePresent in
  wf_descriptor d /\
  descriptorOf (completePropertyDescriptor d) =
  {| d_value := None; d_writable := None; d_get := Some 4096; d_set := Some ValueUndefined;
     d_enumerable := Some false; d_configurable := Some false |}.
Proof.
  assert (H : wf_descriptor (accessorDescriptor {| m_getter := 4096; m_setter := ValueEmpty |} NonEnumerablePresent))
    by (split; reflexivity).
  split; [exact H|exact (completePropertyDescriptor_correct _ H)].
Defined.

(** A property that is created from a descriptor and read back is the
    descriptor, completed: the words of the hidden class and the slot of the
    object lose nothing but the difference between an absent and an undefined
    half of an accessor. *)
Theorem stored_descriptor_roundtrip d : wf_descriptor d ->
  descriptorOf (completePropertyDescriptor
    (fromObjectStructurePropertyDescriptor (toObjectStructurePropertyDescriptor d) (slotFor d))) =
  descriptorOf (completePropertyDescriptor d).
Proof.
  intros Hwf. rewrite complete_fullDescriptor with (d := d) by exact Hwf.
  set (b := fromObjectStructurePropertyDescriptor _ _).
  assert (Hb : descriptorOf b =
    if m_isDataProperty d then fullDescriptor (newProperty (descriptorOf d))
    else {| d_value := None; d_writable := None; d_get := d_get (descriptorOf d); d_set := d_set (descriptorOf d);
            d_enumerable := Some (isEnumerable d); d_configurable := Some (isConfigurable d) |}).
  { subst b. destruct (toStructure_predicates d) as (Hw & He & Hc & Hd & _).
    unfold fromObjectStructurePropertyDescriptor. rewrite Hd, Hw, He, Hc.
    rewrite <- propertyOf_new by exact Hwf. unfold propertyOf, slotFor. rewrite Hd, Hw, He, Hc.
    destruct (m_isDataProperty d) eqn:Ed; cbn [slotValue slotGetterSetter fullDescriptor andb];
      rewrite descriptorOf_setConfigurable, descriptorOf_setEnumerable, ?descriptorOf_setWritable.
    - cbn [d_value d_writable d_get d_set]. unfold descriptorOf, isValuePresent. flags. reflexivity.
    - unfold descriptorOf, hasJSGetter, hasJSSetter. cbn. rewrite Ed. reflexivity. }
  assert (Hwfb : wf_descriptor b /\ m_isDataProperty b = m_isDataProperty d).
  { subst b. destruct (toStructure_predicates d) as (_ & _ & _ & Hd & _).
    unfold fromObjectStructurePropertyDescriptor. rewrite Hd. unfold slotFor.
    destruct (m_isDataProperty d) eqn:Ed; cbn [slotValue slotGetterSetter].
    - destruct (desc_isWritable _), (desc_isEnumerable _), (desc_isConfigurable _);
        (split; [split; [reflexivity|intros [=]]|reflexivity]).
    - destruct (desc_isEnumerable _), (desc_isConfigurable _);
        (split; [split; [reflexivity|intros _; exact (proj2 Hwf Ed)]|reflexivity]). }
  destruct Hwfb as [Hwfb Hdb].
  rewrite complete_fullDescriptor by exact Hwfb. f_equal.
  unfold newProperty at 1. rewrite IsAccessor_descriptorOf, Hdb, Hb by exact Hwfb.
  unfold newProperty. rewrite IsAccessor_descriptorOf by exact Hwf.
  destruct (m_isDataProperty d) eqn:Ed; cbn [negb]; [reflexivity|].
  cbn [d_get d_set d_enumerable d_configurable default].
  rewrite default_enumerable, default_configurable. reflexivity.
Qed.

Lemma stored_descriptor_roundtrip_witness :
  let d := dataDescriptor (Value_int 7) (Z.lor EnumerablePresent NonWritablePresent) in
  wf_descriptor d /\
  descriptorOf (completePropertyDescriptor
    (fromObjectStructurePropertyDescriptor (toObjectStructurePropertyDescriptor d) (slotFor d))) =
  descriptorOf (completePropertyDescriptor d).
Proof.
  assert (H : wf_descriptor (dataDescriptor (Value_int 7) (Z.lor EnumerablePresent NonWritablePresent)))
    by (split; [reflexivity|intros [=]]).
  split; [exact H|exact (stored_descriptor_roundtrip _ H)].
Defined.

(** ** Descriptors and descriptor objects *)

Inductive Field := F_enumerable | F_configurable | F_value | F_writable | F_get | F_set.
#[export] Instance Field_eq_dec : EqDecision Field.
Proof. solve_decision. Defined.

Inductive DescriptorError := GetterMustBeFunction | SetterMustBeFunction | AccessorsAndValue.

Section ToPropertyDescriptor.
Local Open Scope esc_scope.
Context {S E : Type} {heap : Heap}.
(** Reading a field of the descriptor object, which may run a script; what is
    callable; the exception of the code. *)
Context (getField : Field -> M S E (option Z)) (isCallable : Z -> bool) (typeError : DescriptorError -> E).

(** The constructor of [ObjectPropertyDescriptor] from an object. *)
Definition readFlag (f : Field) (set : ObjectPropertyDescriptor -> bool -> ObjectPropertyDescriptor)
    (d : ObjectPropertyDescriptor) : M S E (ObjectPropertyDescriptor * bool) :=
  let! desc := getField f in
  ret (match desc with Some v => (set d (toBoolean v), true) | None => (d, false) end).

Definition readValue (d : ObjectPropertyDescriptor) : M S E (ObjectPropertyDescriptor * bool) :=
  let! desc := getField F_value in
  ret (match desc with Some v => (setValue d v, true) | None => (d, false) end).

Definition readGetter (d : ObjectPropertyDescriptor) : M S E ObjectPropertyDescriptor :=
  let! desc := getField F_get in
  match desc with
  | None => ret d
  | Some getter =>
    if negb (isCallable getter) && negb (isUndefined getter) then throw (typeError GetterMustBeFunction)
    else ret {| m_isDataProperty := false; m_property := m_property d; m_value := m_value d;
                m_getterSetter := {| m_getter := getter; m_setter := ValueEmpty |} |}
  end.

Definition readSetter (d : ObjectPropertyDescriptor) : M S E ObjectPropertyDescriptor :=
  let! desc := getField F_set in
  match desc with
  | None => ret d
  | Some setter =>
    if negb (isCallable setter) && negb (isUndefined setter) then throw (typeError SetterMustBeFunction)
    else if m_isDataProperty d
    then ret {| m_isDataProperty := false; m_property := m_property d; m_value := m_value d;
                m_getterSetter := {| m_getter := ValueEmpty; m_setter := setter |} |}
    else ret (setGetterSetter d (withSetter (m_getterSetter d) setter))
  end.

Definition toPropertyDescriptor : M S E ObjectPropertyDescriptor :=
  let! d := readFlag F_enumerable setEnumerable (genericDescriptor 0 true) in
  let! d := readFlag F_configurable setConfigurable (fst d) in
  let! v := readValue (fst d) in
  let! w := readFlag F_writable setWritable (fst v) in
  let! d := readGetter (fst w) in
  let! d := readSetter d in
  if negb (m_isDataProperty d) && (snd w || snd v) then throw (typeError AccessorsAndValue) else ret d.
End ToPropertyDescriptor.

(** [fromObjectPropertyDescriptor]: the properties of the new object, in the
    order they are defined. *)
Definition fromObjectPropertyDescriptor (d : ObjectPropertyDescriptor) : list (Field * Z) :=
  (if negb (isAccessorDescriptor d)
   then (if isValuePresent d then [(F_value, m_value d)] else []) ++
        (if isWritablePresent d then [(F_writable, Value_bool (isWritable d))] else [])
   else (if hasJSGetter d then [(F_get, m_getter (m_getterSetter d))] else []) ++
        (if hasJSSetter d then [(F_set, m_setter (m_getterSetter d))] else [])) ++
  (if isEnumerablePresent d then [(F_enumerable, Value_bool (isEnumerable d))] else []) ++
  (if isConfigurablePresent d then [(F_configurable, Value_bool (isConfigurable d))] else []).

Definition fieldOf (o : list (Field * Z)) (f : Field) : option Z :=
  option_map snd (List.find (fun e => bool_decide (fst e = f)) o).

Lemma toBoolean_bool {heap : Heap} b : toBoolean (Value_bool b) = b.
Proof. destruct b; reflexivity. Qed.

(** The fields of the object made from a descriptor. *)
Lemma fieldOf_from d f : wf_descriptor d ->
  fieldOf (fromObjectPropertyDescriptor d) f =
  match f with
  | F_enumerable => option_map Value_bool (d_enumerable (descriptorOf d))
  | F_configurable => option_map Value_bool (d_configurable (descriptorOf d))
  | F_value => d_value (descriptorOf d)
  | F_writable => option_map Value_bool (d_writable (descriptorOf d))
  | F_get => d_get (descriptorOf d)
  | F_set => d_set (descriptorOf d)
  end.
Proof.
  intros Hwf. unfold fromObjectPropertyDescriptor, isAccessorDescriptor, fieldOf, descriptorOf.
  assert (Hacc : m_isDataProperty d = false -> isWritablePresent d = false)
    by (intros E; exact (proj2 (checkProperty_accessor d (proj1 Hwf) E))).
  destruct (m_isDataProperty d); cbn [negb andb].
  - destruct (isValuePresent d), (isWritablePresent d), (isEnumerablePresent d), (isConfigurablePresent d), f;
      reflexivity.
  - rewrite (Hacc eq_refl).
    destruct (hasJSGetter d), (hasJSSetter d), (isEnumerablePresent d), (isConfigurablePresent d), f; reflexivity.
Qed.

Definition readFields {S E : Type} (o : list (Field * Z)) (f : Field) : M S E (option Z) := fun s => (Ret (fieldOf o f), s).

(** A getter or a setter that a descriptor may hold. *)
Definition callableOrUndefined (isCallable : Z -> bool) (w : Z) : Prop := isCallable w || isUndefined w = true.

(** A descriptor written to a descriptor object and read back from it is the
    same descriptor, and reading it throws nothing. *)
Theorem descriptor_object_roundtrip {S E : Type} {heap : Heap} (isCallable : Z -> bool)
    (typeError : DescriptorError -> E) d (s : S) :
  wf_descriptor d ->
  (forall w, d_get (descriptorOf d) = Some w \/ d_set (descriptorOf d) = Some w -> callableOrUndefined isCallable w) ->
  exists d', toPropertyDescriptor (readFields (fromObjectPropertyDescriptor d)) isCallable typeError s = (Ret d', s) /\
             wf_descriptor d' /\ descriptorOf d' = descriptorOf d.
Proof.
  intros Hwf Hcall.
  assert (Hok : forall w, d_get (descriptorOf d) = Some w \/ d_set (descriptorOf d) = Some w ->
            negb (isCallable w) && negb (isUndefined w) = false).
  { intros w Hw. specialize (Hcall w Hw). unfold callableOrUndefined in Hcall.
    destruct (isCallable w), (isUndefined w); auto. }
  unfold toPropertyDescriptor, readFlag, readValue, readGetter, readSetter, bind, ret, readFields.
  rewrite !fieldOf_from by exact Hwf.
  pose proof (IsAccessor_descriptorOf d Hwf) as Hacc.
  pose proof (isDataDescriptor_accessor d Hwf) as Hdat.
  unfold descriptorOf in *. cbn [d_value d_writable d_get d_set d_enumerable d_configurable] in *.
  destruct (m_isDataProperty d) eqn:Ed; cbn [negb andb presentIf option_map] in *.
  - destruct (isEnumerablePresent d), (isConfigurablePresent d), (isValuePresent d), (isWritablePresent d);
      cbn [presentIf option_map fst snd m_isDataProperty setValue]; rewrite ?toBoolean_bool;
      destruct (isEnumerable d), (isConfigurable d), (isWritable d);
      (eexists; split; [reflexivity|]);
      (split; [split; [reflexivity|intros [=]]|reflexivity]).
  - destruct (checkProperty_accessor d (proj1 Hwf) Ed) as [Hv Hw]. rewrite Hw. cbn [presentIf option_map].
    pose proof (proj2 Hwf Ed) as Hone. unfold hasJSGetter, hasJSSetter in *.
    destruct (hasGetter (m_getterSetter d)) eqn:Eg, (hasSetter (m_getterSetter d)) eqn:Es; try discriminate Hone;
      cbn [presentIf] in *;
      destruct (isEnumerablePresent d), (isConfigurablePresent d);
      cbn [presentIf option_map fst snd]; rewrite ?toBoolean_bool, ?Hok by auto;
      destruct (isEnumerable d), (isConfigurable d);
      cbn [m_isDataProperty setEnumerable setConfigurable genericDescriptor setFlags withProperty negb andb orb
           setGetterSetter withSetter m_getter m_getterSetter m_property m_value fst snd];
      (eexists; split; [reflexivity|]);
      unfold wf_descriptor, hasJSGetter, hasJSSetter, hasGetter, hasSetter in *;
      cbn [m_isDataProperty m_getterSetter m_getter m_setter setGetterSetter withSetter]; rewrite ?Eg, ?Es;
      (split; [split; [reflexivity|intros _; reflexivity]|reflexivity]).
Qed.

Lemma descriptor_object_roundtrip_witness :
  let d := accessorDescriptor {| m_getter := 4096; m_setter := ValueUndefined |} EnumerablePresent in
  exists d', toPropertyDescriptor (S := unit) (E := DescriptorError) (heap := fun _ => ObjectPointer)
               (readFields (fromObjectPropertyDescriptor d)) (Z.eqb 4096) id tt = (Ret d', tt) /\
             wf_descriptor d' /\ descriptorOf d' = descriptorOf d.
Proof.
  apply (descriptor_object_roundtrip (heap := fun _ => ObjectPointer) (Z.eqb 4096) id).
  - split; reflexivity.
  - intros w [[= <-]|[= <-]]; reflexivity.
Defined.

(** Reading a descriptor object has three type errors, a getter or setter
    that is neither callable nor undefined, and accessors mixed with a value or a
    writable attribute; nothing else throws. *)
Theorem toPropertyDescriptor_errors {S E : Type} {heap : Heap} (isCallable : Z -> bool)
    (typeError : DescriptorError -> E) (o : list (Field * Z)) (s : S) :
  let bad f := exists w, fieldOf o f = Some w /\ ~ callableOrUndefined isCallable w in
  let mixed := (is_Some (fieldOf o F_get) \/ is_Some (fieldOf o F_set)) /\
               (is_Some (fieldOf o F_value) \/ is_Some (fieldOf o F_writable)) in
  match toPropertyDescriptor (readFields o) isCallable typeError s with
  | (Ret _, s') => s' = s /\ ~ bad F_get /\ ~ bad F_set /\ ~ mixed
  | (Throw e, s') => s' = s /\ (bad F_get \/ bad F_set \/ mixed)
  | (Fuel, _) => False
  end.
Proof.
  assert (Hbad : forall w, negb (isCallable w) && negb (isUndefined w) = true <-> ~ callableOrUndefined isCallable w).
  { intros w. unfold callableOrUndefined. destruct (isCallable w), (isUndefined w); cbn; split; intros H; congruence || (exfalso; apply H; reflexivity) || (intros [=]). }
  assert (Hset : forall d b, m_isDataProperty (setEnumerable d b) = m_isDataProperty d /\
            m_isDataProperty (setConfigurable d b) = m_isDataProperty d /\
            m_isDataProperty (setWritable d b) = m_isDataProperty d) by (intros d []; auto).
  (* the flags and the value keep the kind of the descriptor *)
  assert (Hflag : forall f set d, (forall d b, m_isDataProperty (set d b) = m_isDataProperty d) ->
            exists d', readFlag (E:=E) (readFields o) f set d s = (Ret (d', bool_decide (is_Some (fieldOf o f))), s) /\
                       m_isDataProperty d' = m_isDataProperty d).
  { intros f set d Hd. unfold readFlag, readFields, bind, ret.
    destruct (fieldOf o f); eexists; (split; [reflexivity|]); auto. }
  assert (Hval : forall d, exists d', readValue (E:=E) (readFields o) d s = (Ret (d', bool_decide (is_Some (fieldOf o F_value))), s) /\
                       m_isDataProperty d' = m_isDataProperty d).
  { intros d. unfold readValue, readFields, bind, ret.
    destruct (fieldOf o F_value); eexists; (split; [reflexivity|]); auto. }
  cbn zeta. unfold toPropertyDescriptor, bind.
  destruct (Hflag F_enumerable setEnumerable (genericDescriptor 0 true)) as (d1 & -> & E1); [apply Hset; exact true|].
  cbn [fst]. destruct (Hflag F_configurable setConfigurable d1) as (d2 & -> & E2); [apply Hset; exact true|].
  cbn [fst]. destruct (Hval d2) as (d3 & -> & E3).
  cbn [fst]. destruct (Hflag F_writable setWritable d3) as (d4 & -> & E4); [apply Hset; exact true|].
  cbn [fst snd]. assert (Ed : m_isDataProperty d4 = true) by (rewrite E4, E3, E2, E1; reflexivity). clear - Hbad Ed.
  unfold readGetter, readSetter, bind, ret, throw, readFields.
  assert (Hmixed : bool_decide (is_Some (fieldOf o F_writable)) || bool_decide (is_Some (fieldOf o F_value)) = true <->
            is_Some (fieldOf o F_value) \/ is_Some (fieldOf o F_writable)).
  { rewrite orb_true_iff, !bool_decide_eq_true. tauto. }
  destruct (fieldOf o F_get) as [g|]; [destruct (negb (isCallable g) && negb (isUndefined g)) eqn:Eg|];
    [cbn; split; [reflexivity|left; exists g; split; [reflexivity|apply Hbad; exact Eg]]|..];
    (destruct (fieldOf o F_set) as [st|]; [destruct (negb (isCallable st) && negb (isUndefined st)) eqn:Es|];
    [cbn; split; [reflexivity|right; left; exists st; split; [reflexivity|apply Hbad; exact Es]]|..]);
    cbn [m_isDataProperty setGetterSetter]; rewrite ?Ed; cbn [negb andb m_isDataProperty];
    try (destruct (bool_decide (is_Some (fieldOf o F_writable)) || bool_decide (is_Some (fieldOf o F_value)));
         [split; [reflexivity|right; right; split; [eauto|apply Hmixed; reflexivity]]|]);
    (split; [reflexivity|]); split_and!;
    try (intros (w & [= <-] & Hw); apply Hbad in Hw; congruence);
    try (intros (w & [=] & _)); intros [H1 H2]; try (apply Hmixed in H2; discriminate H2).
  destruct H1 as [[? [=]]|[? [=]]].
Qed.
