(* ===== verification/ObjectStructure.v ===== *)
(** * Hidden classes ([runtime/ObjectStructure.h], [ObjectStructure.cpp], the end of [Template.cpp])

    The structure of an object tells the names, order and attributes of its
    properties.  Structures come in three classes and are shared: by the objects
    that took the same transitions, and by inline caches.  They live in a store,
    and the operations say which of them they write. *)

From stdpp Require Import gmap.
From S2P Require Import Prelude Value PropertyName PropertyDescriptor.
Local Open Scope Z_scope.
Local Open Scope esc_scope.

(** ** The data *)

Record ObjectStructureItem := {
  m_propertyName : Z;
  m_descriptor : ObjectStructurePropertyDescriptor
}.

Definition withDescriptor (newDesc : ObjectStructurePropertyDescriptor) (item : ObjectStructureItem) : ObjectStructureItem :=
  {| m_propertyName := m_propertyName item; m_descriptor := newDesc |}.

(** [ObjectStructureTransitionVectorItem] and the entries of the transition map;
    a structure is known by its place in the store. *)
Record TransitionItem := {
  t_propertyName : Z;
  t_descriptor : ObjectStructurePropertyDescriptor;
  t_structure : nat
}.

Inductive StructureClass := WithoutTransition | WithTransition | WithMap.
#[export] Instance StructureClass_eq_dec : EqDecision StructureClass.
Proof. solve_decision. Defined.

(** [PropertyNameMap]: an entry is found by its hash value and [==]. *)
Abbreviation PropertyNameMap := (list (Z * nat)).

(** One record for the three classes.  [None] is the null pointer that the vector
    and the map become when they have been given to the next structure. *)
Record ObjectStructure := {
  m_class : StructureClass;
  m_properties : option (list ObjectStructureItem);
  m_propertyNameMap : option PropertyNameMap;
  m_hasIndexPropertyName : bool;
  m_hasSymbolPropertyName : bool;
  m_hasNonAtomicPropertyName : bool;
  m_hasEnumerableProperty : bool;
  m_isReferencedByInlineCache : bool;
  m_doesTransitionTableUseMap : bool;
  m_transitionTable : list TransitionItem;
  m_transitionTableVectorBufferCapacity : Z
}.

Definition ACCESS_CACHE_BUILD_MIN_SIZE : nat := 96.
Definition TRANSITION_MODE_MAX_SIZE : nat := 48.
Definition TRANSITION_MAP_MIN_SIZE : nat := 32.

(** The three constructors. *)
Definition newStructure (cls : StructureClass) (properties : list ObjectStructureItem) (map : option PropertyNameMap)
    (hasIndex hasSymbol hasNonAtomic hasEnumerable : bool) : ObjectStructure :=
  {| m_class := cls; m_properties := Some properties; m_propertyNameMap := map;
     m_hasIndexPropertyName := hasIndex; m_hasSymbolPropertyName := hasSymbol;
     m_hasNonAtomicPropertyName := hasNonAtomic; m_hasEnumerableProperty := hasEnumerable;
     m_isReferencedByInlineCache := false; m_doesTransitionTableUseMap := false;
     m_transitionTable := []; m_transitionTableVectorBufferCapacity := 0 |}.
Definition newWithoutTransition (properties : list ObjectStructureItem)
    (hasIndex hasSymbol hasNonAtomic hasEnumerable : bool) : ObjectStructure :=
  newStructure WithoutTransition properties None hasIndex hasSymbol hasNonAtomic hasEnumerable.
Definition newWithTransition (properties : list ObjectStructureItem)
    (hasIndex hasSymbol hasNonAtomic hasEnumerable : bool) : ObjectStructure :=
  newStructure WithTransition properties None hasIndex hasSymbol hasNonAtomic hasEnumerable.
Definition newWithMap (properties : list ObjectStructureItem) (map : PropertyNameMap)
    (hasIndex hasSymbol hasEnumerable : bool) : ObjectStructure :=
  newStructure WithMap properties (Some map) hasIndex hasSymbol false hasEnumerable.

(** The pointers of a structure after they were given away. *)
Definition clearProperties (s : ObjectStructure) : ObjectStructure :=
  {| m_class := m_class s; m_properties := None; m_propertyNameMap := None;
     m_hasIndexPropertyName := m_hasIndexPropertyName s; m_hasSymbolPropertyName := m_hasSymbolPropertyName s;
     m_hasNonAtomicPropertyName := m_hasNonAtomicPropertyName s; m_hasEnumerableProperty := m_hasEnumerableProperty s;
     m_isReferencedByInlineCache := m_isReferencedByInlineCache s;
     m_doesTransitionTableUseMap := m_doesTransitionTableUseMap s;
     m_transitionTable := m_transitionTable s;
     m_transitionTableVectorBufferCapacity := m_transitionTableVectorBufferCapacity s |}.
Definition withTable (s : ObjectStructure) (useMap : bool) (table : list TransitionItem) (capacity : Z) : ObjectStructure :=
  {| m_class := m_class s; m_properties := m_properties s; m_propertyNameMap := m_propertyNameMap s;
     m_hasIndexPropertyName := m_hasIndexPropertyName s; m_hasSymbolPropertyName := m_hasSymbolPropertyName s;
     m_hasNonAtomicPropertyName := m_hasNonAtomicPropertyName s; m_hasEnumerableProperty := m_hasEnumerableProperty s;
     m_isReferencedByInlineCache := m_isReferencedByInlineCache s;
     m_doesTransitionTableUseMap := useMap; m_transitionTable := table;
     m_transitionTableVectorBufferCapacity := capacity |}.
Definition marked (s : ObjectStructure) : ObjectStructure :=
  {| m_class := m_class s; m_properties := m_properties s; m_propertyNameMap := m_propertyNameMap s;
     m_hasIndexPropertyName := m_hasIndexPropertyName s; m_hasSymbolPropertyName := m_hasSymbolPropertyName s;
     m_hasNonAtomicPropertyName := m_hasNonAtomicPropertyName s; m_hasEnumerableProperty := m_hasEnumerableProperty s;
     m_isReferencedByInlineCache := true; m_doesTransitionTableUseMap := m_doesTransitionTableUseMap s;
     m_transitionTable := m_transitionTable s;
     m_transitionTableVectorBufferCapacity := m_transitionTableVectorBufferCapacity s |}.

(** ** The store *)

Abbreviation Structures := (list ObjectStructure).

(** What goes wrong where C++ has undefined behaviour. *)
Inductive Fault := NullDereference | OutOfRange | BadAddress.

Abbreviation SM := (M Structures Fault).

Definition orThrow {S E A} (e : E) (o : option A) : M S E A :=
  match o with Some a => ret a | None => throw e end.

Definition readStructure (a : nat) : SM ObjectStructure :=
  let! s := gets (fun st : Structures => st !! a) in orThrow BadAddress s.
Definition writeStructure (a : nat) (s : ObjectStructure) : SM unit := modify (fun st : Structures => <[a := s]> st).
Definition allocStructure (s : ObjectStructure) : SM nat :=
  let! a := gets (fun st : Structures => length st) in
  do! modify (fun st : Structures => st ++ [s]) in
  ret a.
Definition propertiesOf (s : ObjectStructure) : SM (list ObjectStructureItem) := orThrow NullDereference (m_properties s).
Definition nameMapOf (s : ObjectStructure) : SM PropertyNameMap := orThrow NullDereference (m_propertyNameMap s).

(** The first element that satisfies a test, with its index. *)
Fixpoint findIndexFrom {A} (i : nat) (p : A -> bool) (l : list A) : option nat :=
  match l with
  | [] => None
  | x :: rest => if p x then Some i else findIndexFrom (S i) p rest
  end.
Definition findIndex {A} (p : A -> bool) (l : list A) : option nat := findIndexFrom 0 p l.

Section StructureOperations.
Context {heap : Heap}.

(** The hash map. *)
Fixpoint nameMap_find (map : PropertyNameMap) (name : Z) : option nat :=
  match map with
  | [] => None
  | (k, i) :: rest =>
    if (hashValue k =? hashValue name) && name_eq k name then Some i else nameMap_find rest name
  end.
Definition nameMap_insert (map : PropertyNameMap) (name : Z) (i : nat) : PropertyNameMap :=
  match nameMap_find map name with Some _ => map | None => map ++ [(name, i)] end.

(** [createPropertyNameMap]. *)
Fixpoint createPropertyNameMapFrom (i : nat) (from : list ObjectStructureItem) (map : PropertyNameMap) : PropertyNameMap :=
  match from with
  | [] => map
  | item :: rest => createPropertyNameMapFrom (S i) rest (nameMap_insert map (m_propertyName item) i)
  end.
Definition createPropertyNameMap (from : list ObjectStructureItem) : PropertyNameMap :=
  createPropertyNameMapFrom 0 from [].

(** ** Reading *)

(** The loops of the two linear [findProperty]. *)
Definition findLinear (s : ObjectStructure) (properties : list ObjectStructureItem) (name : Z) : option nat :=
  if hasAtomicString name then
    if negb (m_hasNonAtomicPropertyName s)
    then findIndex (fun item => m_propertyName item =? name) properties
    else findIndex (fun item => name_eq_atomic (m_propertyName item) (asAtomicString name)) properties
  else if isSymbol name then
    if m_hasSymbolPropertyName s
    then findIndex (fun item => name_eq (m_propertyName item) name) properties
    else None
  else findIndex (fun item => name_eq (m_propertyName item) name) properties.

(** [findProperty]: the index and the item; [None] is the index [SIZE_MAX]. *)
Definition findProperty (a : nat) (name : Z) : SM (option (nat * ObjectStructureItem)) :=
  let! s := readStructure a in
  let! i :=
    match m_class s with
    | WithMap => let! map := nameMapOf s in ret (nameMap_find map name)
    | _ => let! properties := propertiesOf s in ret (findLinear s properties name)
    end in
  match i with
  | None => ret None
  | Some i =>
    let! properties := propertiesOf s in
    let! item := orThrow OutOfRange (properties !! i) in
    ret (Some (i, item))
  end.

Definition readProperty (a : nat) (idx : nat) : SM ObjectStructureItem :=
  let! s := readStructure a in
  let! properties := propertiesOf s in
  orThrow OutOfRange (properties !! idx).

Definition properties (a : nat) : SM (list ObjectStructureItem) :=
  let! s := readStructure a in propertiesOf s.

Definition propertyCount (a : nat) : SM nat :=
  let! s := readStructure a in
  let! properties := propertiesOf s in
  ret (length properties).

Definition inTransitionMode (a : nat) : SM bool :=
  let! s := readStructure a in ret (bool_decide (m_class s = WithTransition)).

Definition markReferencedByInlineCache (a : nat) : SM unit :=
  let! s := readStructure a in writeStructure a (marked s).

Definition hasIndexPropertyName (a : nat) : SM bool :=
  let! s := readStructure a in ret (m_hasIndexPropertyName s).
Definition hasSymbolPropertyName (a : nat) : SM bool :=
  let! s := readStructure a in ret (m_hasSymbolPropertyName s).
Definition hasEnumerableProperty (a : nat) : SM bool :=
  let! s := readStructure a in ret (m_hasEnumerableProperty s).

(** ** Transitions *)

Definition sameTransition (name : Z) (desc : ObjectStructurePropertyDescriptor) (t : TransitionItem) : bool :=
  desc_eq (t_descriptor t) desc && name_eq (t_propertyName t) name.

(** [hash<ObjectStructureTransitionMapItem>]. *)
Definition transitionHash (name : Z) (desc : ObjectStructurePropertyDescriptor) : Z :=
  to_unsigned 64 (hashValue name + rawValue desc).

(** The lookup in the table: all of the vector, or the map. *)
Definition findTransition (s : ObjectStructure) (name : Z) (desc : ObjectStructurePropertyDescriptor) : option nat :=
  option_map t_structure
    (if m_doesTransitionTableUseMap s
     then List.find (fun t => (transitionHash (t_propertyName t) (t_descriptor t) =? transitionHash name desc)
                              && sameTransition name desc t) (m_transitionTable s)
     else List.find (sameTransition name desc) (m_transitionTable s)).

(** [insert] into the map. *)
Definition transitionMap_insert (map : list TransitionItem) (t : TransitionItem) : list TransitionItem :=
  match List.find (fun t' => (transitionHash (t_propertyName t') (t_descriptor t')
                              =? transitionHash (t_propertyName t) (t_descriptor t))
                             && sameTransition (t_propertyName t) (t_descriptor t) t') map with
  | Some _ => map
  | None => map ++ [t]
  end.

(** [computeVectorAllocateSize]. *)
Definition computeVectorAllocateSize (newSize : Z) : Z :=
  if newSize =? 0 then 1 else Z.shiftl 1 (Z.log2 newSize + 1).

(** The new transition goes into the map, into a map made of the vector, or to the
    end of the vector, whose buffer may have to grow. *)
Definition addTransition (s : ObjectStructure) (newTransitionItem : TransitionItem) : ObjectStructure :=
  let size := length (m_transitionTable s) in
  if m_doesTransitionTableUseMap s then
    withTable s true (transitionMap_insert (m_transitionTable s) newTransitionItem)
              (m_transitionTableVectorBufferCapacity s)
  else if (TRANSITION_MAP_MIN_SIZE <? size + 1)%nat then
    withTable s true
      (transitionMap_insert (fold_left transitionMap_insert (m_transitionTable s) []) newTransitionItem) 0
  else
    let capacity :=
      if m_transitionTableVectorBufferCapacity s <=? Z.of_nat (size + 1)
      then to_unsigned 8 (Z.min (computeVectorAllocateSize (Z.of_nat (size + 1))) 255)
      else m_transitionTableVectorBufferCapacity s in
    withTable s false (m_transitionTable s ++ [newTransitionItem]) capacity.

(** ** Adding a property *)

Definition hasIndexAfter (s : ObjectStructure) (name : Z) : bool :=
  if m_hasIndexPropertyName s then true else name_isIndexString name.
Definition hasSymbolAfter (s : ObjectStructure) (name : Z) : bool :=
  if m_hasSymbolPropertyName s then true else isSymbol name.
Definition hasNonAtomicAfter (s : ObjectStructure) (name : Z) : bool :=
  if m_hasNonAtomicPropertyName s then true else negb (hasAtomicString name).
Definition hasEnumerableAfter (s : ObjectStructure) (desc : ObjectStructurePropertyDescriptor) : bool :=
  if m_hasEnumerableProperty s then true else desc_isEnumerable desc.

(** [ObjectStructureWithoutTransition::addProperty]: the vector goes to the new
    structure, unless an inline cache still needs it here. *)
Definition addPropertyWithoutTransition (a : nat) (s : ObjectStructure) (name : Z)
    (desc : ObjectStructurePropertyDescriptor) : SM nat :=
  let newItem := {| m_propertyName := name; m_descriptor := desc |} in
  let! old := propertiesOf s in
  let propertiesForNewStructure := old ++ [newItem] in
  do! (if m_isReferencedByInlineCache s then ret tt else writeStructure a (clearProperties s)) in
  allocStructure
    (if (ACCESS_CACHE_BUILD_MIN_SIZE <? length propertiesForNewStructure)%nat
     then newWithMap propertiesForNewStructure (createPropertyNameMap propertiesForNewStructure)
                     (hasIndexAfter s name) (hasSymbolAfter s name) (hasEnumerableAfter s desc)
     else newWithoutTransition propertiesForNewStructure (hasIndexAfter s name) (hasSymbolAfter s name)
                               (hasNonAtomicAfter s name) (hasEnumerableAfter s desc)).

(** [ObjectStructureWithTransition::addProperty]. *)
Definition addPropertyWithTransition (a : nat) (s : ObjectStructure) (name : Z)
    (desc : ObjectStructurePropertyDescriptor) : SM nat :=
  match findTransition s name desc with
  | Some newObjectStructure => ret newObjectStructure
  | None =>
    let newItem := {| m_propertyName := name; m_descriptor := desc |} in
    let nameIsIndexString := hasIndexAfter s name in
    let! old := propertiesOf s in
    let nextSize := (length old + 1)%nat in
    let newProperties := old ++ [newItem] in
    if (ACCESS_CACHE_BUILD_MIN_SIZE <? nextSize)%nat then
      allocStructure (newWithMap newProperties (createPropertyNameMap newProperties)
                                 nameIsIndexString (hasSymbolAfter s name) (hasEnumerableAfter s desc))
    else if (TRANSITION_MODE_MAX_SIZE <? nextSize)%nat || nameIsIndexString then
      allocStructure (newWithoutTransition newProperties nameIsIndexString (hasSymbolAfter s name)
                                           (hasNonAtomicAfter s name) (hasEnumerableAfter s desc))
    else
      let! newObjectStructure :=
        allocStructure (newWithTransition newProperties nameIsIndexString (hasSymbolAfter s name)
                                          (hasNonAtomicAfter s name) (hasEnumerableAfter s desc)) in
      do! writeStructure a (addTransition s {| t_propertyName := name; t_descriptor := desc;
                                               t_structure := newObjectStructure |}) in
      ret newObjectStructure
  end.

(** [ObjectStructureWithMap::addProperty]. *)
Definition addPropertyWithMap (a : nat) (s : ObjectStructure) (name : Z)
    (desc : ObjectStructurePropertyDescriptor) : SM nat :=
  let newItem := {| m_propertyName := name; m_descriptor := desc |} in
  let! newProperties := propertiesOf s in
  let! newPropertyNameMap := nameMapOf s in
  do! (if m_isReferencedByInlineCache s then ret tt else writeStructure a (clearProperties s)) in
  allocStructure (newWithMap (newProperties ++ [newItem])
                             (nameMap_insert newPropertyNameMap name (length newProperties))
                             (hasIndexAfter s name) (hasSymbolAfter s name) (hasEnumerableAfter s desc)).

Definition addProperty (a : nat) (name : Z) (desc : ObjectStructurePropertyDescriptor) : SM nat :=
  let! s := readStructure a in
  match m_class s with
  | WithoutTransition => addPropertyWithoutTransition a s name desc
  | WithTransition => addPropertyWithTransition a s name desc
  | WithMap => addPropertyWithMap a s name desc
  end.

(** ** Removing a property *)

(** The loop that copies all items but one. *)
Fixpoint removeLoop (i : nat) (items : list ObjectStructureItem) (pIndex : nat) : list ObjectStructureItem :=
  match items with
  | [] => []
  | item :: rest =>
    if (i =? pIndex)%nat then removeLoop (S i) rest pIndex else item :: removeLoop (S i) rest pIndex
  end.

Definition anyIndexString (items : list ObjectStructureItem) : bool :=
  existsb (fun item => name_isIndexString (m_propertyName item)) items.
Definition anySymbol (items : list ObjectStructureItem) : bool :=
  existsb (fun item => isSymbol (m_propertyName item)) items.
Definition anyNonAtomic (items : list ObjectStructureItem) : bool :=
  existsb (fun item => negb (hasAtomicString (m_propertyName item))) items.
Definition anyEnumerable (items : list ObjectStructureItem) : bool :=
  existsb (fun item => desc_isEnumerable (m_descriptor item)) items.

(** [removeProperty] of the three classes: the vector of [pIndex] and the size of
    one less are the code's; an index out of range writes past the new vector. *)
Definition removeProperty (a : nat) (pIndex : nat) : SM nat :=
  let! s := readStructure a in
  let! old := propertiesOf s in
  let! _ := orThrow OutOfRange (old !! pIndex) in
  let newProperties := removeLoop 0 old pIndex in
  let flat := newWithoutTransition newProperties (anyIndexString newProperties) (anySymbol newProperties)
                                   (anyNonAtomic newProperties) (anyEnumerable newProperties) in
  match m_class s with
  | WithoutTransition =>
    let! r := allocStructure flat in
    do! (if negb (m_isReferencedByInlineCache s) then writeStructure a (clearProperties s) else ret tt) in
    ret r
  | WithTransition => allocStructure flat
  | WithMap =>
    do! (if negb (m_isReferencedByInlineCache s) then writeStructure a (clearProperties s) else ret tt) in
    allocStructure
      (if (ACCESS_CACHE_BUILD_MIN_SIZE <? length newProperties)%nat
       then newWithMap newProperties (createPropertyNameMap newProperties) (anyIndexString newProperties)
                       (anySymbol newProperties) (anyEnumerable newProperties)
       else flat)
  end.

(** ** Changing a descriptor *)

(** [replacePropertyDescriptor]: the flags are kept as they are. *)
Definition replacePropertyDescriptor (a : nat) (idx : nat) (newDesc : ObjectStructurePropertyDescriptor) : SM nat :=
  let! s := readStructure a in
  let! old := propertiesOf s in
  let! _ := orThrow OutOfRange (old !! idx) in
  let newProperties := alter (withDescriptor newDesc) idx old in
  match m_class s with
  | WithoutTransition =>
    do! (if m_isReferencedByInlineCache s then ret tt else writeStructure a (clearProperties s)) in
    allocStructure (newWithoutTransition newProperties (m_hasIndexPropertyName s) (m_hasSymbolPropertyName s)
                                         (m_hasNonAtomicPropertyName s) (m_hasEnumerableProperty s))
  | WithTransition =>
    allocStructure (newWithoutTransition newProperties (m_hasIndexPropertyName s) (m_hasSymbolPropertyName s)
                                         (m_hasNonAtomicPropertyName s) (m_hasEnumerableProperty s))
  | WithMap =>
    let! map := nameMapOf s in
    do! (if m_isReferencedByInlineCache s then ret tt else writeStructure a (clearProperties s)) in
    allocStructure (newWithMap newProperties map (m_hasIndexPropertyName s) (m_hasSymbolPropertyName s)
                               (m_hasEnumerableProperty s))
  end.

(** [convertToNonTransitionStructure]. *)
Definition convertToNonTransitionStructure (a : nat) : SM nat :=
  let! s := readStructure a in
  match m_class s with
  | WithTransition =>
    let! newProperties := propertiesOf s in
    allocStructure (newWithoutTransition newProperties (m_hasIndexPropertyName s) (m_hasSymbolPropertyName s)
                                         (m_hasNonAtomicPropertyName s) (m_hasEnumerableProperty s))
  | _ => ret a
  end.

(** The structure that [Template::constructObjectStructure] makes of the items of
    a function and those of the template; the flags look at the latter only. *)
Definition constructObjectStructure (baseItems templateItems : list ObjectStructureItem) : SM nat :=
  let structureItemVector := baseItems ++ templateItems in
  let hasIndex := anyIndexString templateItems in
  let hasSymbol := anySymbol templateItems in
  let hasEnumerable := anyEnumerable templateItems in
  allocStructure
    (if (ACCESS_CACHE_BUILD_MIN_SIZE <? length structureItemVector)%nat
     then newWithMap structureItemVector (createPropertyNameMap structureItemVector) hasIndex hasSymbol hasEnumerable
     else newWithTransition structureItemVector hasIndex hasSymbol (anyNonAtomic templateItems) hasEnumerable).
End StructureOperations.

(** Running the steps of a definition one by one. *)
Lemma bind_run {S E A B} (m : M S E A) (k : A -> M S E B) s a s' :
  m s = (Ret a, s') -> bind m k s = k a s'.
Proof. intros H. unfold bind. rewrite H. reflexivity. Qed.

Lemma orThrow_run {S E A} (e : E) (o : option A) (s : S) a : o = Some a -> orThrow e o s = (Ret a, s).
Proof. intros ->. reflexivity. Qed.

Lemma readStructure_run a (st : Structures) s : st !! a = Some s -> readStructure a st = (Ret s, st).
Proof. intros H. unfold readStructure, bind, gets. rewrite H. reflexivity. Qed.

Lemma propertiesOf_run s items (st : Structures) : m_properties s = Some items -> propertiesOf s st = (Ret items, st).
Proof. intros H. apply orThrow_run. exact H. Qed.

Lemma allocStructure_run s (st : Structures) : allocStructure s st = (Ret (length st), st ++ [s]).
Proof. reflexivity. Qed.

(** One step, by an equation of the context or by computation. *)
Ltac step :=
  erewrite bind_run by
    (first [ eassumption
           | eapply readStructure_run; eassumption
           | eapply propertiesOf_run; eassumption
           | eapply orThrow_run; eassumption
           | reflexivity ]).
