(* ===== verification/StructureSpec.v ===== *)
(** * What hidden classes promise

    A structure stands for an ordered list of property keys with descriptors.  The
    operations are proved to be the list operations, whichever of the three
    classes and of the shared or owned forms the structure has, and to leave every
    structure that somebody else may hold as it is. *)

From stdpp Require Import gmap.
From S2P Require Import Prelude Value AtomicString PropertyName PropertyDescriptor ObjectStructure.
Local Open Scope Z_scope.
Local Open Scope esc_scope.

(** ** The interface to names

    What the structures need of the property names and descriptors in use:
    comparisons decide equality of keys, equal keys have equal hash values, and a
    descriptor is known by its word. *)

Class PropertyNames (heap : Heap) (valid : Z -> Prop) (validDesc : ObjectStructurePropertyDescriptor -> Prop) : Prop := {
  names_eq : forall a b, valid a -> valid b -> name_eq a b = bool_decide (propertyKey a = propertyKey b);
  names_eq_atomic : forall a b, valid a -> valid b -> hasAtomicString b = true ->
    name_eq_atomic a (asAtomicString b) = bool_decide (propertyKey a = propertyKey b);
  names_hash : forall a b, valid a -> valid b -> propertyKey a = propertyKey b -> hashValue a = hashValue b;
  descriptors_raw : forall d d', validDesc d -> validDesc d' -> rawValue d = rawValue d' -> d = d'
}.

(** The names of a context are such names, as long as no text is in use in both of
    its forms. *)
Lemma context_names st symbols (atomicForm : PropertyKey -> bool) (validDesc : ObjectStructurePropertyDescriptor -> Prop) :
  wf_strings st -> wf_symbols st symbols ->
  (forall d d', validDesc d -> validDesc d' -> rawValue d = rawValue d' -> d = d') ->
  PropertyNames (heapOf st symbols)
    (fun m => wf_name st symbols m /\ hasAtomicString m = atomicForm (@propertyKey (heapOf st symbols) m)) validDesc.
Proof.
  intros Hst Hsym Hdesc. constructor; [| | |exact Hdesc].
  - intros a b [Ha _] [Hb _]. apply name_eq_correct; assumption.
  - intros a b [Ha _] [Hb _] Eb.
    destruct (wf_name_form st symbols Hst Hsym b Hb) as [(x & Hx & E & _ & _ & _ & Ea)|[(E & _)|(E & _)]];
      [|congruence..].
    pose proof (key_atomic st symbols Hst x Hx) as K. unfold heap_of_strings in K.
    rewrite Ea, E, K. exact (name_eq_atomic_correct st symbols Hst Hsym a x Ha Hx).
  - intros a b [Ha Fa] [Hb Fb] E. apply hashValue_agrees; try assumption. rewrite Fa, Fb, E. reflexivity.
Qed.

(** ** The list a structure stands for *)

Section Specification.
Context {heap : Heap}.

Definition keyOfItem (item : ObjectStructureItem) : PropertyKey := propertyKey (m_propertyName item).
Definition contentOf (items : list ObjectStructureItem) : list (PropertyKey * ObjectStructurePropertyDescriptor) :=
  map (fun item => (keyOfItem item, m_descriptor item)) items.

(** The specification of the lookup: the first item with the key. *)
Definition keyIndex (items : list ObjectStructureItem) (key : PropertyKey) : option nat :=
  findIndex (fun item => bool_decide (keyOfItem item = key)) items.

Section Invariant.
Context (valid : Z -> Prop) (validDesc : ObjectStructurePropertyDescriptor -> Prop).

Record wf_items (items : list ObjectStructureItem) : Prop := {
  items_valid : Forall (fun item => valid (m_propertyName item) /\ validDesc (m_descriptor item)) items;
  items_distinct : List.NoDup (map keyOfItem items)
}.

(** The flags and the name map of a structure tell the truth about its items. *)
Record wf_structure (s : ObjectStructure) (items : list ObjectStructureItem) : Prop := {
  structure_items : wf_items items;
  index_flag : m_hasIndexPropertyName s = anyIndexString items;
  symbol_flag : m_hasSymbolPropertyName s = anySymbol items;
  nonatomic_flag : m_class s <> WithMap -> m_hasNonAtomicPropertyName s = anyNonAtomic items;
  name_map : m_class s = WithMap ->
    exists map, m_propertyNameMap s = Some map /\
      Forall (fun e => valid (fst e)) map /\
      forall name, valid name -> nameMap_find map name = keyIndex items (propertyKey name);
  only_transitions : m_class s <> WithTransition -> m_transitionTable s = []
}.

Definition live (st : Structures) (a : nat) (items : list ObjectStructureItem) : Prop :=
  exists s, st !! a = Some s /\ m_properties s = Some items.

(** A structure that more than one object can have: transitions lead to it, or an
    inline cache holds it. *)
Definition shareable (st : Structures) (a : nat) : Prop :=
  exists s, st !! a = Some s /\ (m_class s = WithTransition \/ m_isReferencedByInlineCache s = true).

(** An entry of a transition table leads to a structure in transition mode with
    one item more. *)
Definition transition_ok (st : Structures) (items : list ObjectStructureItem) (t : TransitionItem) : Prop :=
  valid (t_propertyName t) /\ validDesc (t_descriptor t) /\
  exists s', st !! t_structure t = Some s' /\ m_class s' = WithTransition /\
    m_properties s' = Some (items ++ [{| m_propertyName := t_propertyName t; m_descriptor := t_descriptor t |}]).

Record wf_store (st : Structures) : Prop := {
  store_structures : forall a s items, st !! a = Some s -> m_properties s = Some items -> wf_structure s items;
  store_transitions : forall a s items t, st !! a = Some s -> m_properties s = Some items ->
    t ∈ m_transitionTable s -> transition_ok st items t;
  store_given_away : forall a s, st !! a = Some s -> m_properties s = None ->
    m_class s <> WithTransition /\ m_transitionTable s = []
}.

(** The transition of [a] for a property, if its table has it. *)
Definition leads (st : Structures) (a : nat) (name : Z) (desc : ObjectStructurePropertyDescriptor) (r : nat) : Prop :=
  exists s, st !! a = Some s /\ findTransition s name desc = Some r.

(** What an operation on the structure [a] leaves as it is: every structure keeps
    its items, but for [a] itself when nobody else can have it. *)
Record preserved (a : option nat) (st st' : Structures) : Prop := {
  keeps_items : forall b items, live st b items -> a <> Some b \/ shareable st b -> live st' b items;
  keeps_sharing : forall b, (b < length st)%nat -> shareable st' b <-> shareable st b;
  keeps_transitions : forall b name desc r, valid name -> validDesc desc ->
    leads st b name desc r -> leads st' b name desc r;
  keeps_length : (length st <= length st')%nat
}.

(** ** Looking up *)

Lemma findIndexFrom_ext {A} (p q : A -> bool) i l :
  (forall x, x ∈ l -> p x = q x) -> findIndexFrom i p l = findIndexFrom i q l.
Proof.
  revert i. induction l as [|x l IH]; intros i H; [reflexivity|]. cbn [findIndexFrom].
  rewrite (H x) by left. rewrite IH by (intros y Hy; apply H; right; exact Hy). reflexivity.
Qed.

Lemma findIndexFrom_shift {A} (p : A -> bool) i l : findIndexFrom i p l = option_map (fun k => (i + k)%nat) (findIndexFrom 0 p l).
Proof.
  revert i. induction l as [|x l IH]; intros i; [reflexivity|]. cbn [findIndexFrom]. destruct (p x).
  - cbn. f_equal. lia.
  - rewrite IH, (IH 1%nat). destruct (findIndexFrom 0 p l); [|reflexivity]. cbn. f_equal. lia.
Qed.

Lemma findIndex_cons {A} (p : A -> bool) x l :
  findIndex p (x :: l) = if p x then Some 0%nat else option_map S (findIndex p l).
Proof.
  unfold findIndex. cbn [findIndexFrom]. destruct (p x); [reflexivity|].
  rewrite findIndexFrom_shift. destruct (findIndexFrom 0 p l); reflexivity.
Qed.

Lemma findIndex_spec {A} (p : A -> bool) l :
  match findIndex p l with
  | Some i => exists x, l !! i = Some x /\ p x = true /\ forall j y, (j < i)%nat -> l !! j = Some y -> p y = false
  | None => forall x, x ∈ l -> p x = false
  end.
Proof.
  induction l as [|x l IH]; [intros x Hx; apply elem_of_nil in Hx as []|].
  rewrite findIndex_cons. destruct (p x) eqn:E.
  - exists x. split_and!; [reflexivity|exact E|intros j y Hj; lia].
  - destruct (findIndex p l) as [i|]; cbn [option_map].
    + destruct IH as (y & Hy & Ey & H). exists y. split_and!; [exact Hy|exact Ey|].
      intros [|j] z Hj; cbn; [intros [= <-]; exact E|]. apply H. lia.
    + intros y Hy. apply elem_of_cons in Hy as [->|Hy]; auto.
Qed.

Lemma findIndex_app {A} (p : A -> bool) l x :
  findIndex p (l ++ [x]) = match findIndex p l with
                           | Some i => Some i
                           | None => if p x then Some (length l) else None
                           end.
Proof.
  induction l as [|y l IH]; cbn [app]; rewrite !findIndex_cons.
  - destruct (p x); reflexivity.
  - destruct (p y); [reflexivity|]. rewrite IH. destruct (findIndex p l); [reflexivity|].
    destruct (p x); reflexivity.
Qed.

Lemma keyIndex_some items key i : keyIndex items key = Some i ->
  exists item, items !! i = Some item /\ keyOfItem item = key.
Proof.
  intros E. unfold keyIndex in E. pose proof (findIndex_spec (fun item => bool_decide (keyOfItem item = key)) items) as H.
  rewrite E in H. destruct H as (item & Hi & Hb & _). apply bool_decide_eq_true in Hb. eauto.
Qed.

Lemma keyIndex_none items key : keyIndex items key = None <-> ~ In key (map keyOfItem items).
Proof.
  unfold keyIndex. pose proof (findIndex_spec (fun item => bool_decide (keyOfItem item = key)) items) as H.
  destruct (findIndex _ items) as [i|]; split; try discriminate; try reflexivity.
  - intros Hn. destruct H as (item & Hi & Hb & _). apply bool_decide_eq_true in Hb. destruct Hn.
    rewrite <- Hb. apply in_map, list_elem_of_In. eapply list_elem_of_lookup_2. exact Hi.
  - intros _ Hin. apply in_map_iff in Hin as (item & E & Hi). apply list_elem_of_In in Hi.
    specialize (H item Hi). apply bool_decide_eq_false in H. contradiction.
Qed.

Section Lookup.
Context {Hnames : PropertyNames heap valid validDesc}.

Lemma propertyKey_isSymbol a b : propertyKey a = propertyKey b -> isSymbol a = isSymbol b.
Proof. unfold propertyKey. destruct (isSymbol a), (isSymbol b); congruence. Qed.

Lemma anyFlag_false (p : ObjectStructureItem -> bool) items item : existsb p items = false -> item ∈ items -> p item = false.
Proof.
  intros H Hi. apply list_elem_of_In in Hi. destruct (p item) eqn:E; [|reflexivity].
  rewrite (proj2 (existsb_exists p items) (ex_intro _ item (conj Hi E))) in H. discriminate.
Qed.

Lemma items_valid_name items item : wf_items items -> item ∈ items -> valid (m_propertyName item).
Proof. intros H Hi. exact (proj1 (proj1 (list.Forall_forall _ _) (items_valid _ H) item Hi)). Qed.

(** The linear lookup, whose comparison depends on the flags, finds the key. *)
Lemma findLinear_correct s items name : wf_structure s items -> m_class s <> WithMap -> valid name ->
  findLinear s items name = keyIndex items (propertyKey name).
Proof.
  intros Hs Hc Hv. unfold findLinear, keyIndex.
  pose proof (structure_items _ _ Hs) as Hi.
  assert (Heq : forall item, item ∈ items ->
    name_eq (m_propertyName item) name = bool_decide (keyOfItem item = propertyKey name))
    by (intros item Hin; apply names_eq; [eapply items_valid_name; eassumption|exact Hv]).
  rewrite (nonatomic_flag _ _ Hs Hc), (symbol_flag _ _ Hs).
  destruct (hasAtomicString name) eqn:Ea.
  - destruct (anyNonAtomic items) eqn:En; cbn [negb]; apply findIndexFrom_ext; intros item Hin.
    + apply names_eq_atomic; [eapply items_valid_name; eassumption|exact Hv|exact Ea].
    + rewrite <- Heq by exact Hin. unfold name_eq.
      pose proof (anyFlag_false _ _ _ En Hin) as Hat. apply negb_false_iff in Hat.
      rewrite Hat, Ea. reflexivity.
  - destruct (isSymbol name) eqn:Es; [destruct (anySymbol items) eqn:En|].
    1,3: apply findIndexFrom_ext; exact Heq.
    symmetry. apply keyIndex_none. intros Hin. apply in_map_iff in Hin as (item & E & Hin).
    apply list_elem_of_In in Hin. pose proof (anyFlag_false _ _ _ En Hin) as H. cbn beta in H.
    apply propertyKey_isSymbol in E. congruence.
Qed.

(** ** The name map *)

Lemma nameMap_find_key map name : Forall (fun e => valid (fst e)) map -> valid name ->
  nameMap_find map name =
  option_map snd (List.find (fun e => bool_decide (propertyKey (fst e) = propertyKey name)) map).
Proof.
  intros Hmap Hv. induction Hmap as [|[k i] map Hk Hmap IH]; [reflexivity|]. cbn [nameMap_find List.find fst] in *.
  rewrite names_eq by assumption. case_bool_decide as E.
  - rewrite (names_hash k name Hk Hv E), Z.eqb_refl. reflexivity.
  - rewrite andb_false_r. exact IH.
Qed.

Lemma nameMap_insert_valid map name i : Forall (fun e => valid (fst e)) map -> valid name ->
  Forall (fun e => valid (fst e)) (nameMap_insert map name i).
Proof.
  intros H Hv. unfold nameMap_insert. destruct (nameMap_find map name); [exact H|].
  apply Forall_app. split; [exact H|]. repeat constructor. exact Hv.
Qed.

Lemma nameMap_find_insert map name i name' : Forall (fun e => valid (fst e)) map -> valid name -> valid name' ->
  nameMap_find (nameMap_insert map name i) name' =
  match nameMap_find map name' with
  | Some j => Some j
  | None => if bool_decide (propertyKey name = propertyKey name') then Some i else None
  end.
Proof.
  intros H Hv Hv'.
  assert (Hf : forall l x, List.find (fun e : Z * nat => bool_decide (propertyKey (fst e) = propertyKey name')) (l ++ [x]) =
    match List.find (fun e => bool_decide (propertyKey (fst e) = propertyKey name')) l with
    | Some y => Some y
    | None => if bool_decide (propertyKey (fst x) = propertyKey name') then Some x else None
    end).
  { intros l x. induction l as [|y l IH]; cbn [app List.find]; [reflexivity|].
    destruct (bool_decide (propertyKey (fst y) = propertyKey name')); [reflexivity|exact IH]. }
  rewrite nameMap_find_key by (apply nameMap_insert_valid || assumption; assumption).
  unfold nameMap_insert. destruct (nameMap_find map name) as [j|] eqn:E.
  - rewrite nameMap_find_key by assumption. rewrite nameMap_find_key in E by assumption.
    case_bool_decide as Ek.
    + rewrite <- Ek. rewrite E. reflexivity.
    + clear E. destruct (option_map snd _); reflexivity.
  - rewrite Hf, nameMap_find_key by assumption. cbn [fst].
    destruct (List.find _ map); [reflexivity|]. case_bool_decide; reflexivity.
Qed.

(** The map of a structure finds what the linear search would. *)
Definition mapsTo (map : PropertyNameMap) (items : list ObjectStructureItem) : Prop :=
  Forall (fun e => valid (fst e)) map /\
  forall name, valid name -> nameMap_find map name = keyIndex items (propertyKey name).

Lemma mapsTo_insert map items item : mapsTo map items -> valid (m_propertyName item) ->
  mapsTo (nameMap_insert map (m_propertyName item) (length items)) (items ++ [item]).
Proof.
  intros [Hm Hf] Hv. split; [apply nameMap_insert_valid; assumption|].
  intros name Hn. rewrite nameMap_find_insert, Hf by assumption.
  unfold keyIndex at 2. rewrite findIndex_app. reflexivity.
Qed.

Lemma createPropertyNameMapFrom_correct items : forall map before,
  mapsTo map before -> Forall (fun item => valid (m_propertyName item)) items ->
  mapsTo (createPropertyNameMapFrom (length before) items map) (before ++ items).
Proof.
  induction items as [|item items IH]; intros map before Hm Hv; cbn [createPropertyNameMapFrom].
  - rewrite app_nil_r. exact Hm.
  - apply Forall_cons_1 in Hv as [Hv Hvs].
    replace (before ++ item :: items) with ((before ++ [item]) ++ items) by (rewrite <- app_assoc; reflexivity).
    specialize (IH _ (before ++ [item]) (mapsTo_insert map before item Hm Hv) Hvs).
    rewrite length_app, Nat.add_comm in IH. exact IH.
Qed.

Lemma createPropertyNameMap_correct items : wf_items items -> mapsTo (createPropertyNameMap items) items.
Proof.
  intros H. apply (createPropertyNameMapFrom_correct items [] []).
  - split; [constructor|]. intros name _. reflexivity.
  - eapply list.Forall_impl; [apply (items_valid _ H)|]. intros item [Hv _]. exact Hv.
Qed.
End Lookup.

(** ** The store under the operations *)

Lemma preserved_refl o st : preserved o st st.
Proof. constructor; [auto|reflexivity|auto|lia]. Qed.

Lemma preserved_trans o st st1 st2 : preserved o st st1 -> preserved None st1 st2 -> preserved o st st2.
Proof.
  intros [H1 H2 HT H3] [K1 K2 KT K3]. constructor; [| |auto|lia].
  - intros b items Hl Ho. apply K1; [apply H1; assumption|left; discriminate].
  - intros b Hb. rewrite K2 by lia. apply H2. exact Hb.
Qed.

Lemma preserved_weaken o st st' : preserved None st st' -> preserved o st st'.
Proof. intros [H1 H2 HT H3]. constructor; [|assumption..]. intros b items Hl _. apply H1; [exact Hl|left; discriminate]. Qed.

Lemma lookup_app_old (st : Structures) new a s : st !! a = Some s -> (st ++ [new]) !! a = Some s.
Proof. intros H. apply lookup_app_l_Some. exact H. Qed.

Lemma lookup_app_new (st : Structures) new : (st ++ [new]) !! length st = Some new.
Proof. rewrite lookup_app_r by lia. rewrite Nat.sub_diag. reflexivity. Qed.

Lemma lookup_app_cases (st : Structures) new a s : (st ++ [new]) !! a = Some s ->
  (st !! a = Some s /\ (a < length st)%nat) \/ (a = length st /\ s = new).
Proof.
  intros H. apply lookup_app_Some in H as [H|[Hle H]].
  - left. split; [exact H|]. eapply lookup_lt_Some. exact H.
  - right. apply list_lookup_singleton_Some in H as [H ->]. split; [lia|reflexivity].
Qed.

Lemma transition_ok_app st new items t : transition_ok st items t -> transition_ok (st ++ [new]) items t.
Proof.
  intros (H1 & H2 & s' & H3 & H4). split_and!; [assumption..|]. exists s'. split; [|exact H4].
  apply lookup_app_old. exact H3.
Qed.

(** A new structure without transitions. *)
Lemma alloc_ok st new items : wf_store st -> wf_structure new items -> m_properties new = Some items ->
  m_transitionTable new = [] ->
  wf_store (st ++ [new]) /\ preserved None st (st ++ [new]) /\ live (st ++ [new]) (length st) items.
Proof.
  intros [Hs Ht Hg] Hwf Hp Htab. split_and!; [constructor|constructor|].
  - intros a s items' Ha Hp'. apply lookup_app_cases in Ha as [[Ha _]|[-> ->]]; [eauto|]. congruence.
  - intros a s items' t Ha Hp' Hin. apply lookup_app_cases in Ha as [[Ha _]|[-> ->]].
    + apply transition_ok_app. eauto.
    + rewrite Htab in Hin. apply elem_of_nil in Hin as [].
  - intros a s Ha Hp'. apply lookup_app_cases in Ha as [[Ha _]|[-> ->]]; [eauto|congruence].
  - intros b items' (s & Hb & Hp') _. exists s. split; [apply lookup_app_old; exact Hb|exact Hp'].
  - intros b Hb. unfold shareable. setoid_rewrite lookup_app_l; [reflexivity|exact Hb].
  - intros b name desc r _ _ (s & Hb & E). exists s. split; [apply lookup_app_old; exact Hb|exact E].
  - rewrite length_app. lia.
  - exists new. split; [apply lookup_app_new|exact Hp].
Qed.

(** The pointers given away. *)
Definition giveAway (a : nat) (s : ObjectStructure) (st : Structures) : Structures :=
  if m_isReferencedByInlineCache s then st else <[a := clearProperties s]> st.

Lemma giveAway_length a s st : length (giveAway a s st) = length st.
Proof. unfold giveAway. destruct (m_isReferencedByInlineCache s); [reflexivity|apply length_insert]. Qed.

Lemma lookup_insert_cases (st : Structures) a b s s' : <[a := s]> st !! b = Some s' ->
  (a = b /\ s' = s /\ (a < length st)%nat) \/ (a <> b /\ st !! b = Some s').
Proof.
  intros H. destruct (decide (a = b)) as [->|Hne].
  - left. assert ((b < length st)%nat) by (apply lookup_lt_Some in H; rewrite length_insert in H; exact H).
    rewrite list_lookup_insert_eq in H by assumption. split_and!; congruence || assumption.
  - right. rewrite list_lookup_insert_ne in H by exact Hne. auto.
Qed.

Lemma giveAway_ok a s st : wf_store st -> st !! a = Some s -> m_class s <> WithTransition ->
  wf_store (giveAway a s st) /\ preserved (Some a) st (giveAway a s st).
Proof.
  intros Hwf Ha Hc. unfold giveAway. destruct (m_isReferencedByInlineCache s) eqn:Er.
  { split; [exact Hwf|apply preserved_refl]. }
  destruct Hwf as [Hs Ht Hg]. pose proof (lookup_lt_Some _ _ _ Ha) as Hlt.
  assert (Htab : m_transitionTable s = []).
  { destruct (m_properties s) as [items|] eqn:Ep; [|exact (proj2 (Hg a s Ha Ep))].
    apply (only_transitions _ _ (Hs a s items Ha Ep)). exact Hc. }
  split; constructor.
  - intros b s' items Hb Hp. apply lookup_insert_cases in Hb as [(<- & -> & _)|[Hne Hb]]; [discriminate|eauto].
  - intros b s' items t Hb Hp Hin. apply lookup_insert_cases in Hb as [(<- & -> & _)|[Hne Hb]]; [discriminate|].
    destruct (Ht b s' items t Hb Hp Hin) as (H1 & H2 & s2 & H3 & H4 & H5). split_and!; [assumption..|].
    exists s2. split_and!; [|assumption..]. rewrite list_lookup_insert_ne; [exact H3|]. intros ->. congruence.
  - intros b s' Hb Hp. apply lookup_insert_cases in Hb as [(<- & -> & _)|[Hne Hb]]; [|eauto].
    split; [exact Hc|exact Htab].
  - intros b items (s' & Hb & Hp) Ho. assert (Hne : a <> b).
    { intros <-. destruct Ho as [Ho|(s2 & Hb2 & [Hc2|Hr2])]; congruence. }
    exists s'. split; [|exact Hp]. rewrite list_lookup_insert_ne by exact Hne. exact Hb.
  - intros b Hb. unfold shareable. destruct (decide (a = b)) as [<-|Hne].
    + rewrite list_lookup_insert_eq by exact Hlt. rewrite Ha. split; intros (s2 & [= <-] & H2);
        [exists s|exists (clearProperties s)]; (split; [reflexivity|exact H2]).
    + rewrite list_lookup_insert_ne by exact Hne. reflexivity.
  - intros b name desc r _ _ (s' & Hb & E). destruct (decide (a = b)) as [<-|Hne].
    + exfalso. assert (s' = s) as -> by congruence. unfold findTransition in E. rewrite Htab in E.
      destruct (m_doesTransitionTableUseMap s); discriminate.
    + exists s'. rewrite list_lookup_insert_ne by exact Hne. auto.
  - rewrite length_insert. lia.
Qed.

(** Marking a structure, or adding to its transition table. *)
Lemma mark_ok a s st : wf_store st -> st !! a = Some s ->
  wf_store (<[a := marked s]> st) /\
  (forall b items, live st b items -> live (<[a := marked s]> st) b items) /\
  (forall b, shareable st b -> shareable (<[a := marked s]> st) b) /\ shareable (<[a := marked s]> st) a.
Proof.
  intros [Hs Ht Hg] Ha. pose proof (lookup_lt_Some _ _ _ Ha) as Hlt. split_and!; [constructor|..].
  - intros b s' items Hb Hp. apply lookup_insert_cases in Hb as [(<- & -> & _)|[Hne Hb]]; [|eauto].
    destruct (Hs a s items Ha Hp). constructor; assumption.
  - intros b s' items t Hb Hp Hin.
    assert (Hok : transition_ok st items t)
      by (apply lookup_insert_cases in Hb as [(<- & -> & _)|[Hne Hb]]; [exact (Ht a s items t Ha Hp Hin)|eauto]).
    destruct Hok as (H1 & H2 & s2 & H3 & H4 & H5). split_and!; [assumption..|].
    destruct (decide (a = t_structure t)) as [E|Hne].
    + exists (marked s). rewrite <- E in *. rewrite list_lookup_insert_eq by exact Hlt.
      assert (s2 = s) as -> by congruence. auto.
    + exists s2. rewrite list_lookup_insert_ne by exact Hne. auto.
  - intros b s' Hb Hp. apply lookup_insert_cases in Hb as [(<- & -> & _)|[Hne Hb]]; [exact (Hg a s Ha Hp)|eauto].
  - intros b items (s' & Hb & Hp). destruct (decide (a = b)) as [<-|Hne].
    + exists (marked s). rewrite list_lookup_insert_eq by exact Hlt. split; [reflexivity|]. cbn. congruence.
    + exists s'. rewrite list_lookup_insert_ne by exact Hne. auto.
  - intros b (s' & Hb & Hp). destruct (decide (a = b)) as [<-|Hne].
    + exists (marked s). rewrite list_lookup_insert_eq by exact Hlt. auto.
    + exists s'. rewrite list_lookup_insert_ne by exact Hne. auto.
  - exists (marked s). rewrite list_lookup_insert_eq by exact Hlt. auto.
Qed.

Lemma addTransition_fields s t (s' := addTransition s t) :
  m_class s' = m_class s /\ m_properties s' = m_properties s /\ m_propertyNameMap s' = m_propertyNameMap s /\
  m_hasIndexPropertyName s' = m_hasIndexPropertyName s /\ m_hasSymbolPropertyName s' = m_hasSymbolPropertyName s /\
  m_hasNonAtomicPropertyName s' = m_hasNonAtomicPropertyName s /\
  m_isReferencedByInlineCache s' = m_isReferencedByInlineCache s.
Proof. subst s'. unfold addTransition. repeat case_if; split_and!; reflexivity. Qed.

Lemma transitionMap_insert_in map t t' : t' ∈ transitionMap_insert map t -> t' ∈ map \/ t' = t.
Proof.
  unfold transitionMap_insert. destruct (List.find _ map); [auto|].
  rewrite elem_of_app, list_elem_of_singleton. auto.
Qed.

Lemma transitionMap_fold_in l acc t : t ∈ fold_left transitionMap_insert l acc -> t ∈ acc \/ t ∈ l.
Proof.
  revert acc. induction l as [|x l IH]; intros acc Hin; cbn in Hin; [auto|].
  apply IH in Hin as [Hin|Hin]; [|right; right; exact Hin].
  apply transitionMap_insert_in in Hin as [Hin| ->]; [auto|right; left].
Qed.

Lemma addTransition_in s t t' : t' ∈ m_transitionTable (addTransition s t) -> t' ∈ m_transitionTable s \/ t' = t.
Proof.
  unfold addTransition. repeat case_if; cbn [withTable m_transitionTable]; intros H.
  - apply transitionMap_insert_in in H. exact H.
  - apply transitionMap_insert_in in H as [H| ->]; [left|auto].
    apply transitionMap_fold_in in H as [H|H]; [apply elem_of_nil in H as []|exact H].
  - apply elem_of_app in H as [H|H]; [auto|]. apply list_elem_of_singleton in H. auto.
  - apply elem_of_app in H as [H|H]; [auto|]. apply list_elem_of_singleton in H. auto.
Qed.

(** ** The operations on the list *)

Definition itemOf (name : Z) (desc : ObjectStructurePropertyDescriptor) : ObjectStructureItem :=
  {| m_propertyName := name; m_descriptor := desc |}.

(** What every operation on the structure [a] gives: a structure [r], new or one
    that may be shared, with the items [items'], everything else as it was. *)
Record op_result (owner : option nat) (st st' : Structures) (r : nat) (items' : list ObjectStructureItem) : Prop := {
  result_wf : wf_store st';
  result_preserved : preserved owner st st';
  result_live : live st' r items';
  result_shareable : (length st <= r)%nat \/ shareable st r
}.

Lemma alloc_result o st st1 new items' : wf_store st1 -> preserved o st st1 -> length st1 = length st ->
  wf_structure new items' -> m_properties new = Some items' -> m_transitionTable new = [] ->
  op_result o st (st1 ++ [new]) (length st1) items'.
Proof.
  intros Hwf Hp Hl Hn Hpr Ht. destruct (alloc_ok st1 new items' Hwf Hn Hpr Ht) as (H1 & H2 & H3).
  constructor; [assumption|eauto using preserved_trans|assumption|left; lia].
Qed.

Section Operations.
Context {Hnames : PropertyNames heap valid validDesc}.

Lemma existsb_snoc {A} (p : A -> bool) l x : existsb p (l ++ [x]) = if existsb p l then true else p x.
Proof. rewrite existsb_app. cbn. rewrite orb_false_r. destruct (existsb p l); reflexivity. Qed.

Lemma wf_items_snoc items name desc : wf_items items -> valid name -> validDesc desc ->
  keyIndex items (propertyKey name) = None -> wf_items (items ++ [itemOf name desc]).
Proof.
  intros [Hv Hd] Hn Hdesc Hk. constructor.
  - apply Forall_app. split; [exact Hv|]. repeat constructor; assumption.
  - rewrite map_app. apply List.NoDup_app; [exact Hd|repeat constructor; intros []|].
    intros k Hin [<-|[]]. apply keyIndex_none in Hk. contradiction.
Qed.

(** The structures made by adding an item. *)
Lemma add_structure s items name desc cls map :
  wf_structure s items -> valid name -> validDesc desc -> keyIndex items (propertyKey name) = None ->
  (cls <> WithMap -> m_class s <> WithMap) ->
  (cls = WithMap -> exists m, map = Some m /\ mapsTo m (items ++ [itemOf name desc])) ->
  wf_structure (newStructure cls (items ++ [itemOf name desc]) map (hasIndexAfter s name) (hasSymbolAfter s name)
                  (match cls with WithMap => false | _ => hasNonAtomicAfter s name end) (hasEnumerableAfter s desc))
               (items ++ [itemOf name desc]).
Proof.
  intros Hs Hn Hd Hk Hcls Hmap. constructor; cbn.
  - apply wf_items_snoc; [apply Hs|assumption..].
  - unfold hasIndexAfter. rewrite (index_flag _ _ Hs). unfold anyIndexString. rewrite existsb_snoc. reflexivity.
  - unfold hasSymbolAfter. rewrite (symbol_flag _ _ Hs). unfold anySymbol. rewrite existsb_snoc. reflexivity.
  - intros Hc. unfold hasNonAtomicAfter. rewrite (nonatomic_flag _ _ Hs (Hcls Hc)). unfold anyNonAtomic.
    rewrite existsb_snoc.
    destruct cls; [reflexivity..|contradiction].
  - intros Hc. destruct (Hmap Hc) as (m & -> & H1 & H2). eauto.
  - reflexivity.
Qed.

Lemma contentOf_snoc items name desc :
  contentOf (items ++ [itemOf name desc]) = contentOf items ++ [(propertyKey name, desc)].
Proof. unfold contentOf. rewrite map_app. reflexivity. Qed.

Lemma addWithMap_structure s items name desc cls :
  wf_structure s items -> valid name -> validDesc desc -> keyIndex items (propertyKey name) = None ->
  m_class s <> WithMap ->
  wf_structure (newWithMap (items ++ [itemOf name desc]) (createPropertyNameMap (items ++ [itemOf name desc]))
                  (hasIndexAfter s name) (hasSymbolAfter s name) (hasEnumerableAfter s desc)) (items ++ [itemOf name desc]) /\
  (cls <> WithMap ->
   wf_structure (newStructure cls (items ++ [itemOf name desc]) None (hasIndexAfter s name) (hasSymbolAfter s name)
                  (hasNonAtomicAfter s name) (hasEnumerableAfter s desc)) (items ++ [itemOf name desc])).
Proof.
  intros Hs Hn Hd Hk Hc. split.
  - apply (add_structure s items name desc WithMap); auto. intros _. eexists. split; [reflexivity|].
    apply createPropertyNameMap_correct, wf_items_snoc; [apply Hs|assumption..].
  - intros Hcls. pose proof (add_structure s items name desc cls None Hs Hn Hd Hk (fun _ => Hc)) as H.
    destruct cls; [apply H; discriminate..|contradiction].
Qed.

Lemma run_giveAway a s (st : Structures) :
  (if m_isReferencedByInlineCache s then ret tt else writeStructure a (clearProperties s)) st
  = (Ret (E := Fault) tt, giveAway a s st).
Proof. unfold giveAway, writeStructure, modify, ret. destruct (m_isReferencedByInlineCache s); reflexivity. Qed.

Lemma same_descriptor d d' : validDesc d -> validDesc d' -> desc_eq d d' = true -> d = d'.
Proof. intros H H' E. apply Z.eqb_eq in E. apply (descriptors_raw _ _ H H' E). Qed.

(** ** Transition tables *)

(** The entry for a key, whichever form the table has. *)
Definition sameKey (name : Z) (desc : ObjectStructurePropertyDescriptor) (t : TransitionItem) : bool :=
  bool_decide (propertyKey (t_propertyName t) = propertyKey name /\ t_descriptor t = desc).

Definition wf_table (s : ObjectStructure) : Prop :=
  Forall (fun t => valid (t_propertyName t) /\ validDesc (t_descriptor t)) (m_transitionTable s).

Lemma sameTransition_key name desc t : valid (t_propertyName t) -> validDesc (t_descriptor t) -> valid name -> validDesc desc ->
  sameTransition name desc t = sameKey name desc t /\
  (transitionHash (t_propertyName t) (t_descriptor t) =? transitionHash name desc) && sameTransition name desc t
  = sameKey name desc t.
Proof.
  intros H1 H2 Hn Hd. unfold sameTransition, sameKey. rewrite names_eq by assumption.
  destruct (desc_eq (t_descriptor t) desc) eqn:E; cbn [andb].
  - apply same_descriptor in E; [|assumption..]. case_bool_decide as Ek.
    + rewrite (bool_decide_eq_true_2 _ (conj Ek E)). split; [reflexivity|].
      unfold transitionHash. rewrite (names_hash _ _ H1 Hn Ek), E, Z.eqb_refl. reflexivity.
    + rewrite (bool_decide_eq_false_2 (_ /\ _)) by tauto. split; [reflexivity|]. apply andb_false_r.
  - rewrite (bool_decide_eq_false_2 (_ /\ _)).
    + split; [reflexivity|]. apply andb_false_r.
    + intros [_ <-]. unfold desc_eq in E. rewrite Z.eqb_refl in E. discriminate.
Qed.

Lemma find_ext_in {A} (p q : A -> bool) l : (forall x, x ∈ l -> p x = q x) -> List.find p l = List.find q l.
Proof.
  induction l as [|x l IH]; intros H; [reflexivity|]. cbn [List.find].
  rewrite (H x) by left. rewrite IH by (intros y Hy; apply H; right; exact Hy). reflexivity.
Qed.

Lemma table_entry (l : list TransitionItem) t : Forall (fun t => valid (t_propertyName t) /\ validDesc (t_descriptor t)) l ->
  t ∈ l -> valid (t_propertyName t) /\ validDesc (t_descriptor t).
Proof. intros H Hin. exact (proj1 (list.Forall_forall _ _) H t Hin). Qed.

Lemma findTransition_key s name desc : wf_table s -> valid name -> validDesc desc ->
  findTransition s name desc = option_map t_structure (List.find (sameKey name desc) (m_transitionTable s)).
Proof.
  intros Hw Hn Hd. unfold findTransition. f_equal.
  destruct (m_doesTransitionTableUseMap s); apply find_ext_in; intros t Hin;
    destruct (table_entry _ t Hw Hin); apply sameTransition_key; assumption.
Qed.

Lemma find_app {A} (p : A -> bool) l l' :
  List.find p (l ++ l') = match List.find p l with Some x => Some x | None => List.find p l' end.
Proof. induction l as [|x l IH]; cbn [app List.find]; [reflexivity|]. destruct (p x); [reflexivity|exact IH]. Qed.

(** Inserting into the map keeps what is found. *)
Lemma transitionMap_insert_find map t name desc :
  Forall (fun t => valid (t_propertyName t) /\ validDesc (t_descriptor t)) (t :: map) -> valid name -> validDesc desc ->
  List.find (sameKey name desc) (transitionMap_insert map t) =
  match List.find (sameKey name desc) map with
  | Some x => Some x
  | None => if sameKey name desc t then Some t else None
  end.
Proof.
  intros H Hn Hd. apply Forall_cons_1 in H as [[Hnt Hdt] Hm]. unfold transitionMap_insert.
  assert (E0 : List.find (fun t' => (transitionHash (t_propertyName t') (t_descriptor t')
                 =? transitionHash (t_propertyName t) (t_descriptor t))
                && sameTransition (t_propertyName t) (t_descriptor t) t') map
               = List.find (sameKey (t_propertyName t) (t_descriptor t)) map).
  { apply find_ext_in. intros t' Hin. destruct (table_entry _ t' Hm Hin). apply sameTransition_key; assumption. }
  rewrite E0. clear E0.
  destruct (List.find (sameKey (t_propertyName t) (t_descriptor t)) map) as [x|] eqn:Ef.
  - destruct (List.find (sameKey name desc) map) eqn:Eg; [reflexivity|].
    destruct (sameKey name desc t) eqn:Et; [|reflexivity]. exfalso.
    apply bool_decide_eq_true in Et as [E1 E2].
    replace (List.find (sameKey name desc) map) with (Some x) in Eg; [discriminate|].
    rewrite <- Ef. apply find_ext_in. intros t' _. unfold sameKey. rewrite E1, E2. reflexivity.
  - rewrite find_app. cbn [List.find]. destruct (List.find (sameKey name desc) map); [reflexivity|].
    destruct (sameKey name desc t); reflexivity.
Qed.

Lemma transitionMap_insert_valid map t :
  Forall (fun t => valid (t_propertyName t) /\ validDesc (t_descriptor t)) (t :: map) ->
  Forall (fun t => valid (t_propertyName t) /\ validDesc (t_descriptor t)) (transitionMap_insert map t).
Proof.
  intros H. apply Forall_cons_1 in H as [Ht Hm]. apply list.Forall_forall. intros t' Hin.
  apply transitionMap_insert_in in Hin as [Hin| ->]; [eapply table_entry; eassumption|exact Ht].
Qed.

Lemma transitionMap_fold_find l acc name desc :
  Forall (fun t => valid (t_propertyName t) /\ validDesc (t_descriptor t)) (l ++ acc) -> valid name -> validDesc desc ->
  List.find (sameKey name desc) (fold_left transitionMap_insert l acc) =
  match List.find (sameKey name desc) acc with Some x => Some x | None => List.find (sameKey name desc) l end.
Proof.
  revert acc. induction l as [|t l IH]; intros acc H Hn Hd; cbn [fold_left app List.find] in *.
  - destruct (List.find _ acc); reflexivity.
  - apply Forall_cons_1 in H as [Ht H]. apply Forall_app in H as [Hl Ha].
    rewrite IH; [|apply Forall_app; split; [exact Hl|apply transitionMap_insert_valid; constructor; assumption]|assumption..].
    rewrite transitionMap_insert_find by (assumption || (constructor; assumption)).
    destruct (List.find (sameKey name desc) acc); [reflexivity|]. destruct (sameKey name desc t); reflexivity.
Qed.

(** The table after a new transition finds what it found, and the new one. *)
Lemma findTransition_add s t name desc : wf_table s -> valid (t_propertyName t) -> validDesc (t_descriptor t) ->
  valid name -> validDesc desc ->
  wf_table (addTransition s t) /\
  findTransition (addTransition s t) name desc =
  match findTransition s name desc with
  | Some r => Some r
  | None => if sameKey name desc t then Some (t_structure t) else None
  end.
Proof.
  intros Hw Hnt Hdt Hn Hd.
  assert (Hwf : wf_table (addTransition s t)).
  { apply list.Forall_forall. intros t' Hin. apply addTransition_in in Hin as [Hin| ->]; [eapply table_entry; eassumption|auto]. }
  split; [exact Hwf|]. rewrite !findTransition_key by assumption.
  assert (E : List.find (sameKey name desc) (m_transitionTable (addTransition s t)) =
    match List.find (sameKey name desc) (m_transitionTable s) with
    | Some x => Some x
    | None => if sameKey name desc t then Some t else None
    end).
  { unfold addTransition. destruct (m_doesTransitionTableUseMap s); [|destruct (TRANSITION_MAP_MIN_SIZE <? _)%nat];
      cbn [withTable m_transitionTable].
    - apply transitionMap_insert_find; [constructor; auto|assumption..].
    - rewrite transitionMap_insert_find; [|constructor; [auto|]|assumption..].
      + rewrite transitionMap_fold_find by (rewrite ?app_nil_r; assumption). reflexivity.
      + apply list.Forall_forall. intros t' Hin.
        apply transitionMap_fold_in in Hin as [Hin|Hin]; [apply elem_of_nil in Hin as []|exact (table_entry _ t' Hw Hin)].
    - rewrite find_app. cbn [List.find]. destruct (List.find _ (m_transitionTable s)); [reflexivity|].
      destruct (sameKey name desc t); reflexivity. }
  rewrite E. destruct (List.find _ (m_transitionTable s)); [reflexivity|]. destruct (sameKey name desc t); reflexivity.
Qed.
Lemma addTransition_ok a s items t st : wf_store st -> st !! a = Some s -> m_properties s = Some items ->
  m_class s = WithTransition -> transition_ok st items t -> t_structure t <> a ->
  wf_store (<[a := addTransition s t]> st) /\ preserved None st (<[a := addTransition s t]> st).
Proof.
  intros [Hs Ht Hg] Ha Hp Hc Hok Hta. pose proof (lookup_lt_Some _ _ _ Ha) as Hlt.
  destruct (addTransition_fields s t) as (E1 & E2 & E3 & E4 & E5 & E6 & E7).
  assert (Hmove : forall items' t', transition_ok st items' t' -> transition_ok (<[a := addTransition s t]> st) items' t').
  { intros items' t' (H1 & H2 & s2 & H3 & H4 & H5). split_and!; [assumption..|].
    destruct (decide (a = t_structure t')) as [E|Hne].
    - exists (addTransition s t). rewrite <- E in *. rewrite list_lookup_insert_eq by exact Hlt.
      assert (s2 = s) as -> by congruence. rewrite E1, E2. auto.
    - exists s2. rewrite list_lookup_insert_ne by exact Hne. auto. }
  split; constructor.
  - intros b s' items' Hb Hp'. apply lookup_insert_cases in Hb as [(<- & -> & _)|[Hne Hb]]; [|eauto].
    rewrite E2 in Hp'. destruct (Hs a s items' Ha Hp'). constructor; rewrite ?E1, ?E3, ?E4, ?E5, ?E6; try assumption.
    congruence.
  - intros b s' items' t' Hb Hp' Hin. apply Hmove.
    apply lookup_insert_cases in Hb as [(<- & -> & _)|[Hne Hb]]; [|eauto].
    rewrite E2 in Hp'. apply addTransition_in in Hin as [Hin| ->]; [eauto|]. congruence.
  - intros b s' Hb Hp'. apply lookup_insert_cases in Hb as [(<- & -> & _)|[Hne Hb]]; [|eauto]. congruence.
  - intros b items' (s' & Hb & Hp') _. destruct (decide (a = b)) as [<-|Hne].
    + exists (addTransition s t). rewrite list_lookup_insert_eq by exact Hlt. rewrite E2. split; [reflexivity|congruence].
    + exists s'. rewrite list_lookup_insert_ne by exact Hne. auto.
  - intros b Hb. unfold shareable. destruct (decide (a = b)) as [<-|Hne].
    + rewrite list_lookup_insert_eq by exact Hlt. rewrite Ha. split; intros (s2 & [= <-] & H2);
        [exists s|exists (addTransition s t)]; (split; [reflexivity|]); rewrite E1, E7 in *; exact H2.
    + rewrite list_lookup_insert_ne by exact Hne. reflexivity.
  - intros b name desc r Hn Hd (s' & Hb & E). destruct (decide (a = b)) as [<-|Hne].
    + exists (addTransition s t). rewrite list_lookup_insert_eq by exact Hlt. split; [reflexivity|].
      assert (s' = s) as -> by congruence.
      assert (Hw : wf_table s).
      { apply list.Forall_forall. intros t' Hin. destruct (Ht a s items t' Ha Hp Hin) as (H1 & H2 & _). auto. }
      destruct Hok as (H1 & H2 & _).
      rewrite (proj2 (findTransition_add s t name desc Hw H1 H2 Hn Hd)), E. reflexivity.
    + exists s'. rewrite list_lookup_insert_ne by exact Hne. auto.
  - rewrite length_insert. lia.
Qed.

(** A transition that the table finds leads to the items and the new one. *)
Lemma findTransition_correct st a s items name desc r : wf_store st -> st !! a = Some s -> m_properties s = Some items ->
  valid name -> validDesc desc -> findTransition s name desc = Some r ->
  exists items', live st r items' /\ shareable st r /\ contentOf items' = contentOf items ++ [(propertyKey name, desc)].
Proof.
  intros Hwf Ha Hp Hn Hd E.
  assert (H : exists t, t ∈ m_transitionTable s /\ sameTransition name desc t = true /\ t_structure t = r).
  { unfold findTransition in E. destruct (m_doesTransitionTableUseMap s).
    - destruct (List.find _ (m_transitionTable s)) as [t|] eqn:Ef; [|discriminate]. injection E as <-.
      apply List.find_some in Ef as [Hin Ht]. apply andb_prop in Ht as [_ Ht].
      exists t. split_and!; [apply list_elem_of_In; exact Hin|exact Ht|reflexivity].
    - destruct (List.find _ (m_transitionTable s)) as [t|] eqn:Ef; [|discriminate]. injection E as <-.
      apply List.find_some in Ef as [Hin Ht]. exists t. split_and!; [apply list_elem_of_In; exact Hin|exact Ht|reflexivity]. }
  destruct H as (t & Hin & Hsame & <-).
  destruct (store_transitions _ Hwf a s items t Ha Hp Hin) as (H1 & H2 & s' & H3 & H4 & H5).
  apply andb_prop in Hsame as [Hde Hne]. apply same_descriptor in Hde; [|assumption..].
  rewrite names_eq in Hne by assumption. apply bool_decide_eq_true in Hne.
  eexists. split_and!; [exists s'; split; [exact H3|exact H5]|exists s'; auto|].
  change {| m_propertyName := t_propertyName t; m_descriptor := t_descriptor t |} with (itemOf (t_propertyName t) (t_descriptor t)).
  rewrite contentOf_snoc, Hne, Hde. reflexivity.
Qed.

(** Adding a property appends it. *)
Lemma addProperty_ok st a items name desc : wf_store st -> live st a items -> valid name -> validDesc desc ->
  keyIndex items (propertyKey name) = None ->
  exists r st' items', addProperty a name desc st = (Ret r, st') /\ op_result (Some a) st st' r items' /\
    contentOf items' = contentOf items ++ [(propertyKey name, desc)].
Proof.
  intros Hwf (s & Ha & Hp) Hn Hd Hk.
  pose proof (store_structures _ Hwf a s items Ha Hp) as Hs.
  unfold addProperty. step.
  destruct (m_class s) eqn:Ec.
  - unfold addPropertyWithoutTransition. step. rewrite (bind_run _ _ _ tt (giveAway a s st)) by apply run_giveAway.
    rewrite allocStructure_run.
    assert (Hc : m_class s <> WithTransition) by congruence.
    destruct (giveAway_ok a s st Hwf Ha Hc) as [Hwf1 Hp1].
    destruct (addWithMap_structure s items name desc WithoutTransition Hs Hn Hd Hk) as [Hm Hf]; [congruence|].
    do 3 eexists. split; [reflexivity|]. split; [|apply contentOf_snoc].
    apply alloc_result; [assumption|assumption|apply giveAway_length| | |];
      case_if; try reflexivity; [exact Hm|apply Hf; discriminate].
  - unfold addPropertyWithTransition. destruct (findTransition s name desc) as [r|] eqn:Ef.
    { destruct (findTransition_correct st a s items name desc r Hwf Ha Hp Hn Hd Ef) as (items' & Hl & Hsh & Hct).
      exists r, st, items'. split; [reflexivity|]. split; [|exact Hct].
      constructor; [assumption|apply preserved_refl|assumption|auto]. }
    step.
    destruct (addWithMap_structure s items name desc WithoutTransition Hs Hn Hd Hk) as [Hm Hf]; [congruence|].
    specialize (Hf ltac:(discriminate)).
    destruct (addWithMap_structure s items name desc WithTransition Hs Hn Hd Hk) as [_ Ht]; [congruence|].
    specialize (Ht ltac:(discriminate)).
    destruct (ACCESS_CACHE_BUILD_MIN_SIZE <? length items + 1)%nat;
      [|destruct ((TRANSITION_MODE_MAX_SIZE <? length items + 1)%nat || hasIndexAfter s name)].
    1,2: rewrite allocStructure_run; do 3 eexists; (split; [reflexivity|]);
      (split; [|apply contentOf_snoc]);
      (apply alloc_result; [assumption|apply preserved_refl|reflexivity|assumption|reflexivity|reflexivity]).
    step. step. do 3 eexists. split; [reflexivity|].
    split; [|apply contentOf_snoc].
    destruct (alloc_ok st _ _ Hwf Ht eq_refl eq_refl) as (Hwf1 & Hp1 & Hl1).
    pose proof (lookup_lt_Some _ _ _ Ha) as Hlt.
    set (tr := {| t_propertyName := name; t_descriptor := desc; t_structure := length st |}).
    match type of Hwf1 with wf_store ?st1 => assert (Htok : transition_ok st1 items tr) end.
    { split_and!; [assumption..|]. cbn. eexists. split; [apply lookup_app_new|]. split; reflexivity. }
    destruct (addTransition_ok a s items tr _ Hwf1 (lookup_app_old st _ a s Ha) Hp Ec Htok) as [Hwf2 Hp2]; [cbn; lia|].
    constructor; [exact Hwf2| | |left; reflexivity].
    + apply preserved_weaken. eapply preserved_trans; eassumption.
    + apply (keeps_items _ _ _ Hp2); [exact Hl1|left; discriminate].
  - unfold addPropertyWithMap, nameMapOf. step.
    destruct (name_map _ _ Hs Ec) as (map & Em & Hmv & Hmf). step.
    rewrite (bind_run _ _ _ tt (giveAway a s st)) by apply run_giveAway. rewrite allocStructure_run.
    assert (Hc : m_class s <> WithTransition) by congruence.
    destruct (giveAway_ok a s st Hwf Ha Hc) as [Hwf1 Hp1].
    do 3 eexists. split; [reflexivity|]. split; [|apply contentOf_snoc].
    apply alloc_result; [assumption|assumption|apply giveAway_length| |reflexivity|reflexivity].
    apply (add_structure s items name desc WithMap); auto.
    intros _. eexists. split; [reflexivity|]. apply (mapsTo_insert map items (itemOf name desc)); [split; assumption|exact Hn].
Qed.

(** Removing a property removes its item. *)
Lemma removeLoop_delete items k : removeLoop 0 items k = delete k items.
Proof.
  assert (H : forall i, removeLoop i items k = if (k <? i)%nat then items else delete (k - i)%nat items).
  { induction items as [|x items IH]; intros i; cbn [removeLoop].
    - destruct (k <? i)%nat; [reflexivity|]. destruct (k - i)%nat; reflexivity.
    - rewrite IH. destruct (Nat.eqb_spec i k) as [->|Hne].
      + rewrite (proj2 (Nat.ltb_lt k (S k))) by lia. rewrite Nat.ltb_irrefl, Nat.sub_diag. reflexivity.
      + destruct (Nat.ltb_spec k i).
        * rewrite (proj2 (Nat.ltb_lt k (S i))) by lia. reflexivity.
        * rewrite (proj2 (Nat.ltb_ge k (S i))) by lia. replace (k - i)%nat with (S (k - S i)) by lia. reflexivity. }
  rewrite H, Nat.sub_0_r. reflexivity.
Qed.

Lemma contentOf_delete items k : contentOf (delete k items) = delete k (contentOf items).
Proof. revert k. induction items as [|x items IH]; intros [|k]; cbn; try reflexivity. f_equal. apply IH. Qed.

Lemma wf_items_delete items k : wf_items items -> wf_items (delete k items).
Proof.
  intros [Hv Hd]. constructor.
  - apply Forall_delete. exact Hv.
  - revert k Hd. clear Hv. induction items as [|x items IH]; intros [|k] Hd; cbn; try exact Hd.
    + apply List.NoDup_cons_iff in Hd as [_ Hd]. exact Hd.
    + apply List.NoDup_cons_iff in Hd as [Hx Hd]. constructor; [|apply IH; exact Hd].
      intros Hin. apply Hx. apply in_map_iff in Hin as (y & <- & Hy). apply in_map.
      apply list_elem_of_In in Hy. apply list_elem_of_In. eapply list_elem_of_delete_inv; exact Hy.
Qed.

(** A structure whose flags are counted from the items. *)
Lemma counted_structure cls items map enumerable : wf_items items ->
  (cls = WithMap -> exists m, map = Some m /\ mapsTo m items) ->
  wf_structure (newStructure cls items map (anyIndexString items) (anySymbol items)
                  (match cls with WithMap => false | _ => anyNonAtomic items end) enumerable) items.
Proof.
  intros Hi Hmap. constructor; cbn; try reflexivity; [exact Hi| |].
  - intros Hc. destruct cls; [reflexivity..|contradiction].
  - intros Hc. destruct (Hmap Hc) as (m & -> & H1 & H2). eauto.
Qed.

Lemma removeProperty_ok st a items k : wf_store st -> live st a items -> (k < length items)%nat ->
  exists r st', removeProperty a k st = (Ret r, st') /\ op_result (Some a) st st' r (delete k items).
Proof.
  intros Hwf (s & Ha & Hp) Hk. pose proof (store_structures _ Hwf a s items Ha Hp) as Hs.
  pose proof (wf_items_delete items k (structure_items _ _ Hs)) as Hi.
  destruct (lookup_lt_is_Some_2 items k Hk) as [x Hx].
  unfold removeProperty. do 3 step. cbn zeta. rewrite removeLoop_delete.
  assert (Hflat : wf_structure (newWithoutTransition (delete k items) (anyIndexString (delete k items))
    (anySymbol (delete k items)) (anyNonAtomic (delete k items)) (anyEnumerable (delete k items))) (delete k items))
    by (apply (counted_structure WithoutTransition); [exact Hi|discriminate]).
  pose proof (lookup_lt_Some _ _ _ Ha) as Hlt.
  assert (Hgive : forall (x : nat) (S : Structures),
    (if negb (m_isReferencedByInlineCache s) then writeStructure a (clearProperties s) else ret tt) S
    = (Ret (E := Fault) tt, giveAway a s S)).
  { intros _ S. unfold giveAway, writeStructure, modify, ret. destruct (m_isReferencedByInlineCache s); reflexivity. }
  destruct (m_class s) eqn:Ec.
  - assert (Hc : m_class s <> WithTransition) by congruence.
    destruct (giveAway_ok a s st Hwf Ha Hc) as [Hwf1 Hp1].
    step. erewrite bind_run by apply (Hgive 0%nat). do 2 eexists. split; [reflexivity|].
    replace (giveAway a s (st ++ [_])) with (giveAway a s st ++ [newWithoutTransition (delete k items)
      (anyIndexString (delete k items)) (anySymbol (delete k items)) (anyNonAtomic (delete k items))
      (anyEnumerable (delete k items))])
      by (unfold giveAway; destruct (m_isReferencedByInlineCache s); [reflexivity|rewrite insert_app_l by exact Hlt; reflexivity]).
    replace (length st) with (length (giveAway a s st)) by apply giveAway_length.
    apply alloc_result; [assumption|assumption|apply giveAway_length|assumption|reflexivity|reflexivity].
  - rewrite allocStructure_run. do 2 eexists. split; [reflexivity|].
    apply alloc_result; [assumption|apply preserved_refl|reflexivity|assumption|reflexivity|reflexivity].
  - assert (Hc : m_class s <> WithTransition) by congruence.
    destruct (giveAway_ok a s st Hwf Ha Hc) as [Hwf1 Hp1].
    erewrite bind_run by apply (Hgive 0%nat). rewrite allocStructure_run. do 2 eexists. split; [reflexivity|].
    apply alloc_result; [assumption|assumption|apply giveAway_length| | |]; case_if; try reflexivity; try assumption.
    apply (counted_structure WithMap); [exact Hi|]. intros _. eexists. split; [reflexivity|].
    apply createPropertyNameMap_correct. exact Hi.
Qed.

(** Replacing a descriptor keeps the names. *)
Definition setDescriptor (d : ObjectStructurePropertyDescriptor) (e : PropertyKey * ObjectStructurePropertyDescriptor) :=
  (fst e, d).

Lemma contentOf_alter items k d : contentOf (alter (withDescriptor d) k items) = alter (setDescriptor d) k (contentOf items).
Proof. revert k. induction items as [|x items IH]; intros [|k]; cbn; try reflexivity. f_equal. apply IH. Qed.

Lemma names_alter (items : list ObjectStructureItem) k d :
  map m_propertyName (alter (withDescriptor d) k items) = map m_propertyName items.
Proof. revert k. induction items as [|x items IH]; intros [|k]; cbn; try reflexivity. f_equal. apply IH. Qed.

Lemma existsb_names (p : Z -> bool) items items' : map m_propertyName items = map m_propertyName items' ->
  existsb (fun item => p (m_propertyName item)) items = existsb (fun item => p (m_propertyName item)) items'.
Proof.
  revert items'. induction items as [|x items IH]; intros [|y items'] E; try discriminate; [reflexivity|].
  cbn in *. injection E as E1 E2. rewrite E1, (IH items' E2). reflexivity.
Qed.

Lemma keyIndex_names items items' key : map m_propertyName items = map m_propertyName items' ->
  keyIndex items key = keyIndex items' key.
Proof.
  unfold keyIndex. revert items'. induction items as [|x items IH]; intros [|y items'] E; try discriminate; [reflexivity|].
  cbn in E. injection E as E1 E2. rewrite !findIndex_cons, (IH items' E2). unfold keyOfItem. rewrite E1. reflexivity.
Qed.

Lemma wf_items_names items items' : map m_propertyName items = map m_propertyName items' ->
  Forall (fun item => validDesc (m_descriptor item)) items' -> wf_items items -> wf_items items'.
Proof.
  intros E Hd [Hv Hn]. constructor.
  - apply list.Forall_forall. intros item Hin. split; [|exact (proj1 (list.Forall_forall _ _) Hd item Hin)].
    assert (Hin' : In (m_propertyName item) (map m_propertyName items))
      by (rewrite E; apply in_map, list_elem_of_In; exact Hin).
    apply in_map_iff in Hin' as (x & <- & Hx). apply list_elem_of_In in Hx.
    exact (proj1 (proj1 (list.Forall_forall _ _) Hv x Hx)).
  - replace (map keyOfItem items') with (map keyOfItem items); [exact Hn|].
    unfold keyOfItem. rewrite <- !(map_map m_propertyName propertyKey), E. reflexivity.
Qed.

Lemma wf_items_alter items k d : wf_items items -> validDesc d -> wf_items (alter (withDescriptor d) k items).
Proof.
  intros Hi Hd. apply (wf_items_names items); [symmetry; apply names_alter| |exact Hi].
  pose proof (items_valid _ Hi) as Hv. revert k. clear Hi.
  induction Hv as [|x items [_ Hx] Hv IH]; intros [|k]; cbn; try constructor; cbn; auto.
  eapply list.Forall_impl; [exact Hv|]. intros y [_ Hy]. exact Hy.
Qed.

(** The structures that keep the flags of another. *)
Lemma kept_structure s items items' cls map : wf_structure s items ->
  List.map m_propertyName items = List.map m_propertyName items' -> wf_items items' ->
  (cls <> WithMap -> m_class s <> WithMap) ->
  (cls = WithMap -> exists m, map = Some m /\ mapsTo m items') ->
  wf_structure (newStructure cls items' map (m_hasIndexPropertyName s) (m_hasSymbolPropertyName s)
                  (match cls with WithMap => false | _ => m_hasNonAtomicPropertyName s end)
                  (m_hasEnumerableProperty s)) items'.
Proof.
  intros Hs E Hi Hcls Hmap. constructor; cbn; [exact Hi|..|reflexivity].
  - rewrite (index_flag _ _ Hs). apply existsb_names. exact E.
  - rewrite (symbol_flag _ _ Hs). apply existsb_names. exact E.
  - intros Hc. transitivity (anyNonAtomic items).
    + rewrite <- (nonatomic_flag _ _ Hs (Hcls Hc)). destruct cls; [reflexivity..|contradiction].
    + apply (existsb_names (fun n => negb (hasAtomicString n))). exact E.
  - intros Hc. destruct (Hmap Hc) as (m & -> & H1 & H2). eauto.
Qed.

Lemma replacePropertyDescriptor_ok st a items k d : wf_store st -> live st a items -> (k < length items)%nat ->
  validDesc d ->
  exists r st', replacePropertyDescriptor a k d st = (Ret r, st') /\
    op_result (Some a) st st' r (alter (withDescriptor d) k items) /\ (length st <= r)%nat.
Proof.
  intros Hwf (s & Ha & Hp) Hk Hd. pose proof (store_structures _ Hwf a s items Ha Hp) as Hs.
  pose proof (wf_items_alter items k d (structure_items _ _ Hs) Hd) as Hi.
  pose proof (eq_sym (names_alter items k d)) as En.
  destruct (lookup_lt_is_Some_2 items k Hk) as [x Hx].
  unfold replacePropertyDescriptor, nameMapOf. do 3 step. cbn zeta.
  destruct (m_class s) eqn:Ec.
  - assert (Hc : m_class s <> WithTransition) by congruence.
    destruct (giveAway_ok a s st Hwf Ha Hc) as [Hwf1 Hp1].
    rewrite (bind_run _ _ _ tt (giveAway a s st)) by apply run_giveAway. rewrite allocStructure_run. do 2 eexists. split; [reflexivity|]. split; [|rewrite giveAway_length; lia].
    apply alloc_result; [assumption|assumption|apply giveAway_length| |reflexivity|reflexivity].
    apply (kept_structure s items _ WithoutTransition); auto; try apply Hs; try congruence; try discriminate.
  - unfold allocStructure, bind, gets, modify, ret. do 2 eexists. split; [reflexivity|]. split; [|lia].
    apply alloc_result; [assumption|apply preserved_refl|reflexivity| |reflexivity|reflexivity].
    apply (kept_structure s items _ WithoutTransition); auto; try apply Hs; try congruence; try discriminate.
  - assert (Hc : m_class s <> WithTransition) by congruence.
    destruct (giveAway_ok a s st Hwf Ha Hc) as [Hwf1 Hp1].
    destruct (name_map _ _ Hs Ec) as (map & Em & Hmv & Hmf). step.
    rewrite (bind_run _ _ _ tt (giveAway a s st)) by apply run_giveAway. rewrite allocStructure_run.
    do 2 eexists. split; [reflexivity|]. split; [|rewrite giveAway_length; lia].
    apply alloc_result; [assumption|assumption|apply giveAway_length| |reflexivity|reflexivity].
    apply (kept_structure s items _ WithMap); auto.
    intros _. eexists. split; [reflexivity|]. split; [exact Hmv|].
    intros name Hn. rewrite Hmf by exact Hn. apply keyIndex_names. exact En.
Qed.

Lemma convertToNonTransitionStructure_ok st a items : wf_store st -> live st a items ->
  exists r st', convertToNonTransitionStructure a st = (Ret r, st') /\
    wf_store st' /\ preserved None st st' /\ live st' r items /\ ((length st <= r)%nat \/ r = a /\ st' = st).
Proof.
  intros Hwf (s & Ha & Hp). pose proof (store_structures _ Hwf a s items Ha Hp) as Hs.
  unfold convertToNonTransitionStructure. step.
  destruct (m_class s) eqn:Ec.
  1,3: exists a, st; split_and!; [reflexivity|exact Hwf|apply preserved_refl|exists s; auto|auto].
  step. rewrite allocStructure_run. do 2 eexists. split; [reflexivity|].
  edestruct (alloc_ok st (newWithoutTransition items (m_hasIndexPropertyName s) (m_hasSymbolPropertyName s)
    (m_hasNonAtomicPropertyName s) (m_hasEnumerableProperty s)) items Hwf) as (H1 & H2 & H3); [|reflexivity..|].
  - apply (kept_structure s items _ WithoutTransition); auto; try apply Hs; try congruence; try discriminate.
  - split_and!; auto.
Qed.

(** The lookup of the three classes. *)
Lemma findProperty_ok st a items name : wf_store st -> live st a items -> valid name ->
  findProperty a name st =
  (Ret (match keyIndex items (propertyKey name) with
        | Some i => option_map (fun item => (i, item)) (items !! i)
        | None => None
        end), st).
Proof.
  intros Hwf (s & Ha & Hp) Hn. pose proof (store_structures _ Hwf a s items Ha Hp) as Hs.
  unfold findProperty. step.
  assert (Hi : (match m_class s with
                | WithMap => let! map := nameMapOf s in ret (nameMap_find map name)
                | _ => let! properties := propertiesOf s in ret (findLinear s properties name)
                end) st = (Ret (keyIndex items (propertyKey name)), st)).
  { destruct (m_class s) eqn:Ec.
    1,2: step; rewrite findLinear_correct with (items := items) by (assumption || congruence); reflexivity.
    destruct (name_map _ _ Hs Ec) as (map & Em & Hmv & Hmf). unfold nameMapOf. step. rewrite Hmf by exact Hn. reflexivity. }
  step. destruct (keyIndex items (propertyKey name)) as [i|] eqn:Ek; [|reflexivity].
  step. destruct (keyIndex_some _ _ _ Ek) as (item & Hi' & _). rewrite Hi'. step. reflexivity.
Qed.

End Operations.
End Invariant.
End Specification.

(** ** The refinement *)

(** C14: a hidden class is an ordered list of keys with descriptors: looking up,
    adding, removing, replacing and leaving the transition mode are the list
    operations on what the structure stands for, in each of the three classes,
    whether its vector is shared with an inline cache or handed on; no operation
    fails, and none changes a structure that anybody else can hold.  The names in
    use satisfy the laws of [PropertyNames]: equal names have equal hash values,
    which long names that start with a digit do not (see [long_numeric_name_splits]). *)
Theorem structures_refine_lists {heap : Heap} valid validDesc {Hn : PropertyNames heap valid validDesc} st a items :
  wf_store valid validDesc st -> live st a items ->
  (forall name, valid name ->
     findProperty a name st =
     (Ret (match keyIndex items (propertyKey name) with
           | Some i => option_map (fun item => (i, item)) (items !! i)
           | None => None
           end), st)) /\
  (forall name desc, valid name -> validDesc desc -> keyIndex items (propertyKey name) = None ->
     exists r st' items', addProperty a name desc st = (Ret r, st') /\
       op_result valid validDesc (Some a) st st' r items' /\
       contentOf items' = contentOf items ++ [(propertyKey name, desc)]) /\
  (forall k, (k < length items)%nat ->
     exists r st' items', removeProperty a k st = (Ret r, st') /\
       op_result valid validDesc (Some a) st st' r items' /\
       contentOf items' = delete k (contentOf items)) /\
  (forall k desc, (k < length items)%nat -> validDesc desc ->
     exists r st' items', replacePropertyDescriptor a k desc st = (Ret r, st') /\
       op_result valid validDesc (Some a) st st' r items' /\
       contentOf items' = alter (setDescriptor desc) k (contentOf items)) /\
  (exists r st', convertToNonTransitionStructure a st = (Ret r, st') /\
     wf_store valid validDesc st' /\ preserved valid validDesc None st st' /\ live st' r items).
Proof.
  intros Hwf Hl. split_and!.
  - intros name Hv. apply (findProperty_ok valid validDesc); assumption.
  - intros name desc Hv Hd Hk. apply (addProperty_ok valid validDesc); assumption.
  - intros k Hk. destruct (removeProperty_ok valid validDesc st a items k Hwf Hl Hk) as (r & st' & H1 & H2).
    exists r, st', (delete k items). split_and!; [assumption..|apply contentOf_delete].
  - intros k desc Hk Hd.
    destruct (replacePropertyDescriptor_ok valid validDesc st a items k desc Hwf Hl Hk Hd) as (r & st' & H1 & H2 & _).
    exists r, st', (alter (withDescriptor desc) k items). split_and!; [assumption..|apply contentOf_alter].
  - destruct (convertToNonTransitionStructure_ok valid validDesc st a items Hwf Hl) as (r & st' & H1 & H2 & H3 & H4 & _).
    eauto 6.
Qed.

(** The names of a small context: the atomic string [k] and a symbol. *)
Definition exampleStrings : Strings := snd (initLatin1 (initialStrings 16) [107]).
Definition exampleHeap : Heap := heapOf exampleStrings {[ 4096 ]}.
Definition exampleValid (m : Z) : Prop :=
  wf_name exampleStrings {[ 4096 ]} m /\
  hasAtomicString m = match @propertyKey exampleHeap m with KString _ => true | KSymbol _ => false end.
Definition exampleDesc (d : ObjectStructurePropertyDescriptor) : Prop :=
  match d with DescriptorWord _ => True | NativeDescriptor _ _ => False end.

Lemma exampleStrings_ok : wf_strings exampleStrings /\ wf_symbols exampleStrings {[ 4096 ]}.
Proof.
  split.
  - apply initLatin1_ok, initialStrings_wf. split; reflexivity.
  - intros p ->%elem_of_singleton. split; [split; reflexivity|vm_compute; reflexivity].
Qed.

#[export] Instance example_names : PropertyNames exampleHeap exampleValid exampleDesc.
Proof.
  apply (context_names exampleStrings {[ 4096 ]} (fun k => match k with KString _ => true | KSymbol _ => false end)).
  - apply exampleStrings_ok.
  - apply exampleStrings_ok.
  - intros [w|] [w'|]; cbn; try contradiction. congruence.
Qed.

Lemma exampleValid_k : exampleValid 33.
Proof.
  split; [apply (wf_atomic exampleStrings {[ 4096 ]} 32)|vm_compute; reflexivity].
  apply list_elem_of_In. vm_compute. auto.
Qed.
Lemma exampleValid_symbol : exampleValid 4096.
Proof. split; [apply wf_symbol; set_solver|vm_compute; reflexivity]. Qed.

(** The default structure of objects. *)
Definition rootStructure : ObjectStructure := newWithTransition [] false false false false.

Lemma root_wf {heap : Heap} valid validDesc : wf_store valid validDesc [rootStructure].
Proof.
  constructor; intros [|[|a]] s; cbn; try discriminate.
  - intros items [= <-] [= <-]. constructor; cbn; try reflexivity; try discriminate.
    constructor; constructor.
  - intros items t [= <-] _ H. apply elem_of_nil in H as [].
  - intros [= <-] [=].
Qed.

Lemma structures_refine_lists_witness :
  let desc := descriptorData 14 0 in
  exists r st' items',
    @addProperty exampleHeap 0 33 desc [rootStructure] = (Ret r, st') /\
    @op_result exampleHeap exampleValid exampleDesc (Some 0%nat) [rootStructure] st' r items' /\
    @contentOf exampleHeap items' = [(KString [107], desc)].
Proof.
  destruct (@structures_refine_lists exampleHeap exampleValid exampleDesc example_names [rootStructure] 0 []
    (@root_wf exampleHeap _ _) (ex_intro _ rootStructure (conj eq_refl eq_refl))) as (_ & H & _).
  destruct (H 33 (descriptorData 14 0) exampleValid_k I eq_refl) as (r & st' & items' & H1 & H2 & H3).
  exists r, st', items'. split_and!; [exact H1|exact H2|].
  rewrite H3. vm_compute. reflexivity.
Defined.
