(* ===== verification/StructureHistory.v ===== *)
(** * Hidden classes over time

    What stays true of the structures of a context over any sequence of
    operations: a shared structure never changes, so that an inline cache that
    found a property at an index is right for ever; equal transitions meet in one
    structure; the transition buffer is never written past its end.  And two
    things that do not: the flag for enumerable properties, and the structures of
    large object templates. *)

From stdpp Require Import gmap relations.
From S2P Require Import Prelude Value AtomicString PropertyName PropertyDescriptor ObjectStructure StructureSpec.
Local Open Scope Z_scope.

Section History.
Context {heap : Heap} (valid : Z -> Prop) (validDesc : ObjectStructurePropertyDescriptor -> Prop).

(** One operation on some structure that an object has ([live]), or a structure
    noted by an inline cache. *)
Inductive step (st : Structures) : Structures -> Prop :=
| step_add a items name desc r st' :
    live st a items -> valid name -> validDesc desc -> keyIndex items (propertyKey name) = None ->
    addProperty a name desc st = (Ret r, st') -> step st st'
| step_remove a items k r st' :
    live st a items -> (k < length items)%nat -> removeProperty a k st = (Ret r, st') -> step st st'
| step_replace a items k desc r st' :
    live st a items -> (k < length items)%nat -> validDesc desc ->
    replacePropertyDescriptor a k desc st = (Ret r, st') -> step st st'
| step_convert a items r st' :
    live st a items -> convertToNonTransitionStructure a st = (Ret r, st') -> step st st'
| step_mark a st' :
    markReferencedByInlineCache a st = (Ret tt, st') -> step st st'
| step_template base items r st' :
    wf_items valid validDesc (base ++ items) ->
    anyIndexString base = false -> anySymbol base = false -> anyNonAtomic base = false ->
    constructObjectStructure base items st = (Ret r, st') -> step st st'.

Context {Hnames : PropertyNames heap valid validDesc}.

Lemma existsb_base {A} (p : A -> bool) l l' : existsb p l = false -> existsb p (l ++ l') = existsb p l'.
Proof. intros H. rewrite existsb_app, H. reflexivity. Qed.

(** A template's structure tells the truth when its function's items are plain. *)
Lemma constructObjectStructure_ok st base items : wf_store valid validDesc st ->
  wf_items valid validDesc (base ++ items) ->
  anyIndexString base = false -> anySymbol base = false -> anyNonAtomic base = false ->
  exists st', constructObjectStructure base items st = (Ret (length st), st') /\
    wf_store valid validDesc st' /\ preserved valid validDesc None st st' /\ live st' (length st) (base ++ items).
Proof.
  intros Hwf Hi H1 H2 H3. unfold constructObjectStructure. rewrite allocStructure_run.
  eexists. split; [reflexivity|]. cbn zeta.
  unfold anyIndexString, anySymbol, anyNonAtomic in *.
  rewrite <- (existsb_base _ base items H1), <- (existsb_base _ base items H2), <- (existsb_base _ base items H3).
  case_if.
  - apply (alloc_ok valid validDesc); try reflexivity; [exact Hwf|].
    apply (counted_structure valid validDesc WithMap); [exact Hi|]. intros _. eexists. split; [reflexivity|].
    apply (createPropertyNameMap_correct valid validDesc). exact Hi.
  - apply (alloc_ok valid validDesc); try reflexivity; [exact Hwf|].
    apply (counted_structure valid validDesc WithTransition); [exact Hi|discriminate].
Qed.

(** What every operation keeps: the invariant, the shared structures and the
    transitions. *)
Record kept (st st' : Structures) : Prop := {
  kept_wf : wf_store valid validDesc st';
  kept_shared : forall b, shareable st b -> shareable st' b;
  kept_live : forall b items, shareable st b -> live st b items -> live st' b items;
  kept_leads : forall b name desc r, valid name -> validDesc desc -> leads st b name desc r -> leads st' b name desc r
}.

Lemma preserved_kept o st st' : wf_store valid validDesc st' -> preserved valid validDesc o st st' -> kept st st'.
Proof.
  intros Hwf [H1 H2 H3 H4]. constructor; auto.
  intros b (s & Hb & Hsh). apply H2; [eapply lookup_lt_Some; exact Hb|]. exists s. auto.
Qed.

Lemma step_kept st st' : wf_store valid validDesc st -> step st st' -> kept st st'.
Proof.
  intros Hwf Hstep. destruct Hstep.
  - destruct (addProperty_ok valid validDesc st a items name desc Hwf) as (r' & st2 & i' & E & [Hw Hp _ _] & _);
      [assumption..|]. assert (st2 = st') as -> by congruence.
    eapply preserved_kept; eassumption.
  - destruct (removeProperty_ok valid validDesc st a items k Hwf) as (r' & st2 & E & [Hw Hp _ _]); [assumption..|].
    assert (st2 = st') as -> by congruence. eapply preserved_kept; eassumption.
  - destruct (replacePropertyDescriptor_ok valid validDesc st a items k desc Hwf) as (r' & st2 & E & [Hw Hp _ _] & _);
      [assumption..|].
    assert (st2 = st') as -> by congruence.
    eapply preserved_kept; eassumption.
  - destruct (convertToNonTransitionStructure_ok valid validDesc st a items Hwf) as (r' & st2 & E & Hw & Hp & _);
      [assumption..|].
    assert (st2 = st') as -> by congruence.
    eapply preserved_kept; eassumption.
  - unfold markReferencedByInlineCache in H. destruct (st !! a) as [s|] eqn:Ha.
    + rewrite (bind_run _ _ _ s st) in H by (apply readStructure_run; exact Ha). injection H as <-.
      destruct (mark_ok valid validDesc a s st Hwf Ha) as (H1 & H2 & H3 & H4).
      constructor; auto.
      intros b name desc r Hn Hd (s' & Hb & E). destruct (decide (a = b)) as [<-|Hne].
      * exists (marked s). rewrite list_lookup_insert_eq by (eapply lookup_lt_Some; exact Ha).
        split; [reflexivity|]. assert (s' = s) as -> by congruence. exact E.
      * exists s'. rewrite list_lookup_insert_ne by exact Hne. auto.
    + unfold readStructure, bind, gets in H. rewrite Ha in H. discriminate.
  - destruct (constructObjectStructure_ok st base items Hwf) as (st2 & E & Hw & Hp & _); [assumption..|].
    assert (st2 = st') as -> by congruence.
    eapply preserved_kept; eassumption.
Qed.

Lemma steps_kept st st' : wf_store valid validDesc st -> rtc step st st' -> kept st st'.
Proof.
  intros Hwf H. induction H as [st|st st1 st2 H1 _ IH]; [constructor; auto|].
  destruct (step_kept st st1 Hwf H1) as [K1 K2 K3 K4]. destruct (IH K1) as [L1 L2 L3 L4].
  constructor; auto.
Qed.

Lemma store_table st a s : wf_store valid validDesc st -> st !! a = Some s -> wf_table valid validDesc s.
Proof.
  intros Hwf Ha. apply list.Forall_forall. intros t Hin. destruct (m_properties s) as [items|] eqn:Ep.
  - destruct (store_transitions _ _ _ Hwf a s items t Ha Ep Hin) as (H1 & H2 & _). auto.
  - destruct (store_given_away _ _ _ Hwf a s Ha Ep) as [_ E]. rewrite E in Hin. apply elem_of_nil in Hin as [].
Qed.

(** A structure in transition mode that adding a property gave is in the table from
    then on. *)
Lemma added_leads st a s items name desc r st1 : wf_store valid validDesc st ->
  st !! a = Some s -> m_properties s = Some items -> m_class s = WithTransition ->
  valid name -> validDesc desc ->
  addProperty a name desc st = (Ret r, st1) -> inTransitionMode r st1 = (Ret true, st1) -> leads st1 a name desc r.
Proof.
  intros Hwf Ha Hp Ec Hv Hd Hadd Hr. unfold inTransitionMode in Hr.
  unfold addProperty in Hadd. rewrite (bind_run _ _ _ s st) in Hadd by (apply readStructure_run; exact Ha).
  rewrite Ec in Hadd. unfold addPropertyWithTransition in Hadd.
  destruct (findTransition s name desc) as [r0|] eqn:Ef.
  { injection Hadd as <- <-. exists s. auto. }
  rewrite (bind_run _ _ _ items st) in Hadd by (apply propertiesOf_run; exact Hp).
  destruct (ACCESS_CACHE_BUILD_MIN_SIZE <? length items + 1)%nat;
    [|destruct ((TRANSITION_MODE_MAX_SIZE <? length items + 1)%nat || hasIndexAfter s name)].
  1,2: rewrite allocStructure_run in Hadd; injection Hadd as <- <-; exfalso;
    rewrite (bind_run _ _ _ _ _ (readStructure_run _ _ _ (lookup_app_new st _))) in Hr; discriminate Hr.
  rewrite (bind_run _ _ _ _ _ (allocStructure_run _ _)) in Hadd.
  unfold bind, writeStructure, modify, ret in Hadd. injection Hadd as <- <-.
  set (t := {| t_propertyName := name; t_descriptor := desc; t_structure := length st |}).
  exists (addTransition s t). split.
  - apply list_lookup_insert_eq. rewrite length_app. apply lookup_lt_Some in Ha. cbn. lia.
  - rewrite (proj2 (findTransition_add valid validDesc s t name desc (store_table st a s Hwf Ha) Hv Hd Hv Hd)), Ef.
    unfold sameKey. rewrite bool_decide_eq_true_2 by (split; reflexivity). reflexivity.
Qed.

(** A transition is followed under every name of its key. *)
Lemma leads_followed st a name desc r name' : wf_store valid validDesc st -> leads st a name desc r ->
  valid name -> validDesc desc -> valid name' -> propertyKey name' = propertyKey name ->
  addProperty a name' desc st = (Ret r, st).
Proof.
  intros Hwf (s & Ha & E) Hv Hd Hv' Ekey.
  pose proof (store_table st a s Hwf Ha) as Hw.
  assert (E' : findTransition s name' desc = Some r).
  { rewrite (findTransition_key valid validDesc) in E |- * by assumption.
    rewrite <- E. f_equal. apply find_ext_in. intros t _. unfold sameKey. rewrite Ekey. reflexivity. }
  assert (Ec : m_class s = WithTransition).
  { destruct (decide (m_class s = WithTransition)) as [|Hne]; [assumption|]. exfalso.
    assert (Htab : m_transitionTable s = []).
    { destruct (m_properties s) as [items|] eqn:Ep.
      - apply (only_transitions _ _ _ _ (store_structures _ _ _ Hwf a s items Ha Ep)). exact Hne.
      - apply (store_given_away _ _ _ Hwf a s Ha Ep). }
    unfold findTransition in E. rewrite Htab in E. destruct (m_doesTransitionTableUseMap s); discriminate. }
  unfold addProperty. rewrite (bind_run _ _ _ s st) by (apply readStructure_run; exact Ha).
  rewrite Ec. unfold addPropertyWithTransition. rewrite E'. reflexivity.
Qed.
End History.

(** C15: an inline cache is right for ever.  A structure that is noted by an inline
    cache, or that transitions lead to, keeps its items over any sequence of
    operations on any structures, so that a lookup in it gives at any later time
    the index and the descriptor that it gave when the cache was filled. *)
Theorem shared_structures_never_change {heap : Heap} valid validDesc {Hn : PropertyNames heap valid validDesc} st st' a items name :
  wf_store valid validDesc st -> shareable st a -> live st a items -> valid name ->
  rtc (step valid validDesc) st st' ->
  live st' a items /\ exists found, findProperty a name st = (Ret found, st) /\ findProperty a name st' = (Ret found, st').
Proof.
  intros Hwf Hsh Hl Hv Hsteps. destruct (steps_kept valid validDesc st st' Hwf Hsteps) as [Hwf' _ Hk _].
  pose proof (Hk a items Hsh Hl) as Hl'. split; [exact Hl'|].
  eexists. split; apply (findProperty_ok valid validDesc st a items) || apply (findProperty_ok valid validDesc st' a items);
    assumption.
Qed.

(** The default structure gets the property [k]; the structure of one property
    keeps it while another property is added. *)
Definition oneProperty : Structures := snd (@addProperty exampleHeap 0 33 (descriptorData 14 0) [rootStructure]).

Lemma oneProperty_step : @step exampleHeap exampleValid exampleDesc [rootStructure] oneProperty.
Proof.
  apply (@step_add exampleHeap exampleValid exampleDesc _ 0 [] 33 (descriptorData 14 0) 1%nat).
  - exists rootStructure. split; reflexivity.
  - apply exampleValid_k.
  - exact I.
  - reflexivity.
  - vm_compute. reflexivity.
Qed.

Lemma shared_structures_never_change_witness :
  live oneProperty 0 [] /\
  exists found, @findProperty exampleHeap 0 4096 [rootStructure] = (Ret found, [rootStructure]) /\
                @findProperty exampleHeap 0 4096 oneProperty = (Ret found, oneProperty).
Proof.
  apply (@shared_structures_never_change exampleHeap exampleValid exampleDesc example_names [rootStructure] oneProperty 0 [] 4096).
  - apply root_wf.
  - exists rootStructure. split; [reflexivity|]. left. reflexivity.
  - exists rootStructure. split; reflexivity.
  - apply exampleValid_symbol.
  - apply rtc_once, oneProperty_step.
Defined.

(** Objects that take the same transition meet in the same structure: once
    adding a property to a structure in transition mode has given a structure in
    transition mode, adding it again gives that structure and changes nothing,
    after any other operations and however many transitions the table has got. *)
Theorem transitions_meet {heap : Heap} valid validDesc {Hn : PropertyNames heap valid validDesc} st a items name desc r st1 st2 name' :
  wf_store valid validDesc st -> live st a items -> inTransitionMode a st = (Ret true, st) ->
  valid name -> validDesc desc -> keyIndex items (propertyKey name) = None ->
  addProperty a name desc st = (Ret r, st1) -> inTransitionMode r st1 = (Ret true, st1) ->
  rtc (step valid validDesc) st1 st2 ->
  valid name' -> propertyKey name' = propertyKey name ->
  addProperty a name' desc st2 = (Ret r, st2).
Proof.
  intros Hwf (s & Ha & Hp) Hmode Hv Hd Hk Hadd Hr Hsteps Hv' Ekey.
  unfold inTransitionMode in Hmode.
  rewrite (bind_run _ _ _ s st) in Hmode by (apply readStructure_run; exact Ha). injection Hmode as Hc.
  assert (Ec : m_class s = WithTransition) by (destruct (m_class s); vm_compute in Hc; congruence).
  assert (Hwf1 : wf_store valid validDesc st1).
  { destruct (addProperty_ok valid validDesc st a items name desc Hwf (ex_intro _ s (conj Ha Hp)) Hv Hd Hk)
      as (r' & st' & i' & E & [Hw _ _ _] & _). rewrite Hadd in E. congruence. }
  pose proof (added_leads valid validDesc st a s items name desc r st1 Hwf Ha Hp Ec Hv Hd Hadd Hr) as Hlead.
  destruct (steps_kept valid validDesc st1 st2 Hwf1 Hsteps) as [Hwf2 _ _ Hkl].
  apply (leads_followed valid validDesc st2 a name desc r name' Hwf2); auto.
Qed.

Lemma transitions_meet_witness :
  @addProperty exampleHeap 0 33 (descriptorData 14 0) oneProperty = (Ret 1%nat, oneProperty).
Proof.
  apply (@transitions_meet exampleHeap exampleValid exampleDesc example_names [rootStructure] 0 [] 33
    (descriptorData 14 0) 1 oneProperty oneProperty 33).
  - apply root_wf.
  - exists rootStructure. split; reflexivity.
  - reflexivity.
  - apply exampleValid_k.
  - exact I.
  - reflexivity.
  - vm_compute. reflexivity.
  - vm_compute. reflexivity.
  - apply rtc_refl.
  - apply exampleValid_k.
  - reflexivity.
Defined.

(** ** The transition buffer *)

(** What the vector of transitions needs: as long as it is a vector it has at most
    [TRANSITION_MAP_MIN_SIZE] entries, all of them inside the buffer. *)
Definition buffer_ok (s : ObjectStructure) : Prop :=
  m_doesTransitionTableUseMap s = false ->
  (length (m_transitionTable s) <= TRANSITION_MAP_MIN_SIZE)%nat /\
  (m_transitionTable s = [] /\ m_transitionTableVectorBufferCapacity s = 0 \/
   Z.of_nat (length (m_transitionTable s)) < m_transitionTableVectorBufferCapacity s <= 64).

(** [keeps m]: whatever [m] answers, it leaves sound buffers sound. *)
Definition keeps {A} (m : M Structures Fault A) : Prop :=
  forall st, Forall buffer_ok st -> Forall buffer_ok (snd (m st)).
Definition yields {A} (m : M Structures Fault A) (Q : A -> Prop) : Prop :=
  forall st a st', Forall buffer_ok st -> m st = (Ret a, st') -> Q a.

Lemma keeps_bind {A B} (m : M Structures Fault A) (k : A -> M Structures Fault B) Q :
  keeps m -> yields m Q -> (forall a, Q a -> keeps (k a)) -> keeps (bind m k).
Proof.
  intros Hm Hy Hk st Hst. unfold bind. specialize (Hm st Hst). specialize (Hy st).
  destruct (m st) as [[a|e|] st'] eqn:E; cbn [snd] in *; [|exact Hm..].
  apply Hk; [|exact Hm]. eapply Hy; [exact Hst|reflexivity].
Qed.

Lemma keeps_then {A B} (m : M Structures Fault A) (k : A -> M Structures Fault B) :
  keeps m -> (forall a, keeps (k a)) -> keeps (bind m k).
Proof. intros Hm Hk. apply (keeps_bind m k (fun _ => True)); [exact Hm|intros ? ? ? ? ?; exact I|auto]. Qed.

Lemma keeps_ret {A} (a : A) : keeps (ret a).
Proof. intros st H. exact H. Qed.
Lemma keeps_orThrow {A} e (o : option A) : keeps (orThrow e o).
Proof. intros st H. destruct o; exact H. Qed.
Lemma keeps_read a : keeps (readStructure a).
Proof. intros st H. unfold readStructure, bind, gets. destruct (st !! a); exact H. Qed.
Lemma read_yields a : yields (readStructure a) buffer_ok.
Proof.
  intros st s st' H E. unfold readStructure, bind, gets in E. destruct (st !! a) as [s0|] eqn:Ea; [|discriminate].
  injection E as <- <-. eapply Forall_lookup_1; eassumption.
Qed.
Lemma keeps_write a s : buffer_ok s -> keeps (writeStructure a s).
Proof. intros Hs st H. cbn. apply Forall_insert; assumption. Qed.
Lemma keeps_alloc s : buffer_ok s -> keeps (allocStructure s).
Proof. intros Hs st H. cbn. apply Forall_app. auto. Qed.

Lemma new_buffer_ok cls items map a b c d : buffer_ok (newStructure cls items map a b c d).
Proof. intros _. cbn. split; [unfold TRANSITION_MAP_MIN_SIZE; lia|left; split; reflexivity]. Qed.
Lemma clear_buffer_ok s : buffer_ok s -> buffer_ok (clearProperties s).
Proof. exact id. Qed.
Lemma marked_buffer_ok s : buffer_ok s -> buffer_ok (marked s).
Proof. exact id. Qed.

(** The grown buffer fits the byte that holds its capacity. *)
Lemma capacity_bounds n : 1 <= n <= 32 ->
  n < computeVectorAllocateSize n <= 64 /\
  to_unsigned 8 (Z.min (computeVectorAllocateSize n) 255) = computeVectorAllocateSize n.
Proof.
  intros H.
  assert (K : forallb (fun n => (n <? computeVectorAllocateSize n) && (computeVectorAllocateSize n <=? 64)
      && (to_unsigned 8 (Z.min (computeVectorAllocateSize n) 255) =? computeVectorAllocateSize n))
    (List.map Z.of_nat (seq 1 32)) = true) by (vm_compute; reflexivity).
  rewrite forallb_forall in K. specialize (K n). rewrite !andb_true_iff, Z.ltb_lt, Z.leb_le, Z.eqb_eq in K.
  destruct K as [[K1 K2] K3]; [|auto]. apply in_map_iff. exists (Z.to_nat n). split; [lia|]. apply in_seq. lia.
Qed.

Lemma addTransition_buffer_ok {heap : Heap} s t : buffer_ok s -> buffer_ok (addTransition s t).
Proof.
  intros Hs. unfold addTransition. destruct (m_doesTransitionTableUseMap s) eqn:Em; [intros [=]|].
  destruct (Hs Em) as [Hlen Hcap]. unfold TRANSITION_MAP_MIN_SIZE in *.
  case_if; [intros [=]|]. to_prop. intros _. cbn [withTable m_transitionTable m_transitionTableVectorBufferCapacity].
  rewrite length_app. cbn [length]. split; [exact Heqb|]. right.
  destruct (capacity_bounds (Z.of_nat (length (m_transitionTable s) + 1)) ltac:(lia)) as [Hb E].
  case_if; [rewrite E; lia|]. to_prop. destruct Hcap as [[_ H1]|H1]; lia.
Qed.

Create HintDb buffers.
#[local] Hint Resolve keeps_ret keeps_orThrow keeps_read keeps_write keeps_alloc new_buffer_ok clear_buffer_ok
  marked_buffer_ok addTransition_buffer_ok : buffers.

(** Walk through a definition. *)
Ltac keeps_steps :=
  repeat first
    [ progress (auto with buffers; fail)
    | apply keeps_alloc | apply new_buffer_ok
    | apply (keeps_bind _ _ buffer_ok); [apply keeps_read|apply read_yields|intros ? ?]
    | apply keeps_then; [|intros ?]
    | match goal with
      | |- keeps (if ?b then _ else _) => destruct b
      | |- keeps (match ?x with _ => _ end) => destruct x
      | |- buffer_ok (if ?b then _ else _) => destruct b
      end ].

Section Keeping.
Context {heap : Heap}.
Lemma keeps_addProperty a name desc : keeps (addProperty a name desc).
Proof.
  unfold addProperty, addPropertyWithoutTransition, addPropertyWithTransition, addPropertyWithMap, propertiesOf, nameMapOf.
  keeps_steps.
Qed.
Lemma keeps_removeProperty a k : keeps (removeProperty a k).
Proof. unfold removeProperty, propertiesOf. keeps_steps. Qed.
Lemma keeps_replace a k desc : keeps (replacePropertyDescriptor a k desc).
Proof. unfold replacePropertyDescriptor, propertiesOf, nameMapOf. keeps_steps. Qed.
Lemma keeps_convert a : keeps (convertToNonTransitionStructure a).
Proof. unfold convertToNonTransitionStructure, propertiesOf. keeps_steps. Qed.
Lemma keeps_mark a : keeps (markReferencedByInlineCache a).
Proof. unfold markReferencedByInlineCache. keeps_steps. Qed.
Lemma keeps_template base items : keeps (constructObjectStructure base items).
Proof. unfold constructObjectStructure. keeps_steps. Qed.
End Keeping.

(** The transition buffer is never overrun: over any sequence of operations, a
    structure whose transitions are in a vector has at most 32 of them, fewer than
    the capacity of its buffer, which stays small enough for the byte that holds
    it; and the size that the next growth asks for is not cut by that byte. *)
Theorem transition_buffer_bounded {heap : Heap} valid validDesc st st' a s :
  Forall buffer_ok st -> rtc (step valid validDesc) st st' ->
  st' !! a = Some s -> m_doesTransitionTableUseMap s = false ->
  (length (m_transitionTable s) <= TRANSITION_MAP_MIN_SIZE)%nat /\
  (m_transitionTable s <> [] -> Z.of_nat (length (m_transitionTable s)) < m_transitionTableVectorBufferCapacity s) /\
  0 <= m_transitionTableVectorBufferCapacity s <= 64 /\
  (forall t, m_doesTransitionTableUseMap (addTransition s t) = false ->
     Z.of_nat (length (m_transitionTable (addTransition s t)))
       < m_transitionTableVectorBufferCapacity (addTransition s t) < 2 ^ 8).
Proof.
  intros Hst Hsteps Ha Em.
  assert (Hst' : Forall buffer_ok st').
  { clear Ha. induction Hsteps as [st|st st1 st2 H1 _ IH]; [exact Hst|]. apply IH.
    destruct H1 as [? ? ? ? ? ? _ _ _ _ E|? ? ? ? ? _ _ E|? ? ? ? ? ? _ _ _ E|? ? ? ? _ E|? ? E|? ? ? ? _ _ _ _ E];
      apply (f_equal snd) in E; cbn [snd] in E; rewrite <- E;
      first [apply keeps_addProperty | apply keeps_removeProperty | apply keeps_replace | apply keeps_convert
            | apply keeps_mark | apply keeps_template]; exact Hst. }
  assert (Hs : buffer_ok s) by (eapply Forall_lookup_1; eassumption).
  destruct (Hs Em) as [Hlen Hcap]. split_and!; [exact Hlen| |lia|lia|].
  - intros Hne. destruct Hcap as [[H _]|H]; [contradiction|lia].
  - intros t Et. destruct (addTransition_buffer_ok s t Hs Et) as [Hl [[H _]|H]]; [|lia].
    exfalso. unfold addTransition in H, Et. rewrite Em in H, Et. destruct (_ <? _)%nat; [discriminate Et|].
    cbn in H. destruct (m_transitionTable s); discriminate.
Qed.

Lemma transition_buffer_bounded_witness :
  exists s, oneProperty !! 0%nat = Some s /\ m_doesTransitionTableUseMap s = false /\
    (length (m_transitionTable s) <= 32)%nat.
Proof.
  eexists; split; [vm_compute; reflexivity|]. split; [vm_compute; reflexivity|].
  eapply (@transition_buffer_bounded exampleHeap exampleValid exampleDesc [rootStructure] oneProperty 0).
  - constructor; [apply new_buffer_ok|constructor].
  - apply rtc_once, oneProperty_step.
  - vm_compute. reflexivity.
  - vm_compute. reflexivity.
Defined.

(** ** Where the flags go wrong *)

(** A replaced descriptor does not count for the flag: a property that becomes
    enumerable does not make its structure one with an enumerable property, and
    [EnumerateObject] skips such a structure. *)
Lemma replaced_descriptor_not_counted :
  let hidden := descriptorData 8 0 in let shown := descriptorData 14 0 in
  let store := snd (@addProperty exampleHeap 0 33 hidden [rootStructure]) in
  let '(_, store') := @replacePropertyDescriptor 1 0 shown store in
  desc_isEnumerable hidden = false /\ desc_isEnumerable shown = true /\
  exists s, store' !! 2%nat = Some s /\
    option_map (map (fun item => desc_isEnumerable (m_descriptor item))) (m_properties s) = Some [true] /\ m_hasEnumerableProperty s = false.
Proof. vm_compute. split_and!; try reflexivity. eexists. split_and!; reflexivity. Qed.
