(* ===== verification/Object.v ===== *)
(** * Objects ([runtime/Object.h], [Object.cpp])

    The state of an object and its internal methods, over the store of hidden
    classes.  Native getters and setters and calls of functions are parameters, and so
    are the methods of proxies, which [Proxy] defines over these; the methods that
    proxies override are dispatched on the class of the object. *)

From stdpp Require Import gmap.
From S2P Require Import Prelude Value PropertyName PropertyDescriptor ObjectStructure.
Local Open Scope Z_scope.
Local Open Scope esc_scope.

(** ** The state *)

(** The fields of a proxy; both pointers are null once it is revoked. *)
Record ProxyData := {
  m_isCallable : bool;
  m_isConstructible : bool;
  m_target : option Z;
  m_handler : option Z
}.
#[export] Instance ProxyData_eq_dec : EqDecision ProxyData.
Proof. solve_decision. Defined.

(** What the subclasses of the model add to an object. *)
Inductive ObjectClass := OrdinaryObject | ProxyObject (p : ProxyData).
#[export] Instance ObjectClass_eq_dec : EqDecision ObjectClass.
Proof. solve_decision. Defined.

(** An object with its rare data: what [ObjectRareData] holds has the values of its
    constructor as long as there is none.  [isFunctionPrototypeObject] and
    [classConstructor] (of a [ScriptClassConstructorPrototypeObject]) are of the
    class of the object. *)
Record Object := {
  m_objectClass : ObjectClass;
  m_structure : nat;
  m_prototype : option Z;
  m_values : list Slot;
  m_isExtensible : bool;
  m_isEverSetAsPrototypeObject : bool;
  m_isInlineCacheable : bool;
  m_meaningfulConstructor : option Z;
  isFunctionPrototypeObject : bool;
  classConstructor : option Z
}.

(** The objects by address, and the flag of [VMInstance] that a prototype has got an
    indexed property. *)
Record World := {
  structures : Structures;
  objects : gmap Z Object;
  m_didSomePrototypeObjectDefineIndexedProperty : bool
}.

(** What ends a method early: undefined behaviour, a [TypeError] of the runtime, or
    what a script threw. *)
Inductive ObjectError :=
| UndefinedBehaviour (f : Fault)
| TypeError
| Thrown (v : Z).

Abbreviation OM := (M World ObjectError).

Definition withStructures (w : World) (s : Structures) : World :=
  {| structures := s; objects := objects w;
     m_didSomePrototypeObjectDefineIndexedProperty := m_didSomePrototypeObjectDefineIndexedProperty w |}.
Definition withObject (a : Z) (o : Object) (w : World) : World :=
  {| structures := structures w; objects := <[a := o]> (objects w);
     m_didSomePrototypeObjectDefineIndexedProperty := m_didSomePrototypeObjectDefineIndexedProperty w |}.
Definition withStructure (o : Object) (s : nat) : Object :=
  {| m_objectClass := m_objectClass o; m_structure := s; m_prototype := m_prototype o; m_values := m_values o;
     m_isExtensible := m_isExtensible o; m_isEverSetAsPrototypeObject := m_isEverSetAsPrototypeObject o;
     m_isInlineCacheable := m_isInlineCacheable o; m_meaningfulConstructor := m_meaningfulConstructor o;
     isFunctionPrototypeObject := isFunctionPrototypeObject o; classConstructor := classConstructor o |}.
Definition withValues (o : Object) (v : list Slot) : Object :=
  {| m_objectClass := m_objectClass o; m_structure := m_structure o; m_prototype := m_prototype o; m_values := v;
     m_isExtensible := m_isExtensible o; m_isEverSetAsPrototypeObject := m_isEverSetAsPrototypeObject o;
     m_isInlineCacheable := m_isInlineCacheable o; m_meaningfulConstructor := m_meaningfulConstructor o;
     isFunctionPrototypeObject := isFunctionPrototypeObject o; classConstructor := classConstructor o |}.
Definition withPrototype (o : Object) (p : option Z) : Object :=
  {| m_objectClass := m_objectClass o; m_structure := m_structure o; m_prototype := p; m_values := m_values o;
     m_isExtensible := m_isExtensible o; m_isEverSetAsPrototypeObject := m_isEverSetAsPrototypeObject o;
     m_isInlineCacheable := m_isInlineCacheable o; m_meaningfulConstructor := m_meaningfulConstructor o;
     isFunctionPrototypeObject := isFunctionPrototypeObject o; classConstructor := classConstructor o |}.
Definition withFlags (o : Object) (extensible everPrototype cacheable : bool) : Object :=
  {| m_objectClass := m_objectClass o; m_structure := m_structure o; m_prototype := m_prototype o; m_values := m_values o;
     m_isExtensible := extensible; m_isEverSetAsPrototypeObject := everPrototype;
     m_isInlineCacheable := cacheable; m_meaningfulConstructor := m_meaningfulConstructor o;
     isFunctionPrototypeObject := isFunctionPrototypeObject o; classConstructor := classConstructor o |}.
Definition withConstructor (o : Object) (c : option Z) : Object :=
  {| m_objectClass := m_objectClass o; m_structure := m_structure o; m_prototype := m_prototype o; m_values := m_values o;
     m_isExtensible := m_isExtensible o; m_isEverSetAsPrototypeObject := m_isEverSetAsPrototypeObject o;
     m_isInlineCacheable := m_isInlineCacheable o; m_meaningfulConstructor := c;
     isFunctionPrototypeObject := isFunctionPrototypeObject o; classConstructor := classConstructor o |}.

Definition withClass (o : Object) (c : ObjectClass) : Object :=
  {| m_objectClass := c; m_structure := m_structure o; m_prototype := m_prototype o; m_values := m_values o;
     m_isExtensible := m_isExtensible o; m_isEverSetAsPrototypeObject := m_isEverSetAsPrototypeObject o;
     m_isInlineCacheable := m_isInlineCacheable o; m_meaningfulConstructor := m_meaningfulConstructor o;
     isFunctionPrototypeObject := isFunctionPrototypeObject o; classConstructor := classConstructor o |}.

(** [Object::Object] with a prototype, or with none: the rare data is that of an object
    that has none. *)
Definition newObject (defaultStructureForObject : nat) (proto : option Z) : Object :=
  {| m_objectClass := OrdinaryObject; m_structure := defaultStructureForObject; m_prototype := proto; m_values := [];
     m_isExtensible := true; m_isEverSetAsPrototypeObject := false; m_isInlineCacheable := true;
     m_meaningfulConstructor := None; isFunctionPrototypeObject := false; classConstructor := None |}.

Definition readObject (a : Z) : OM Object :=
  let! o := gets (fun w : World => objects w !! a) in orThrow (UndefinedBehaviour BadAddress) o.
Definition writeObject (a : Z) (o : Object) : OM unit := modify (withObject a o).

(** An operation of the structures. *)
Definition runS {A} (m : SM A) : OM A := fun w =>
  match m (structures w) with
  | (Ret a, s) => (Ret a, withStructures w s)
  | (Throw e, s) => (Throw (UndefinedBehaviour e), withStructures w s)
  | (Fuel, s) => (Fuel, withStructures w s)
  end.

(** [m_structure = …], [m_values[idx] = …], [m_values.pushBack(…)],
    [m_values.erase(…)]. *)
Definition setStructure (a : Z) (s : nat) : OM unit :=
  let! o := readObject a in writeObject a (withStructure o s).
Definition setSlot (a : Z) (idx : nat) (v : Slot) : OM unit :=
  let! o := readObject a in
  let! _ := orThrow (UndefinedBehaviour OutOfRange) (m_values o !! idx) in
  writeObject a (withValues o (<[idx := v]> (m_values o))).
Definition pushSlot (a : Z) (v : Slot) : OM unit :=
  let! o := readObject a in writeObject a (withValues o (m_values o ++ [v])).
Definition eraseSlot (a : Z) (idx : nat) : OM unit :=
  let! o := readObject a in
  let! _ := orThrow (UndefinedBehaviour OutOfRange) (m_values o !! idx) in
  writeObject a (withValues o (delete idx (m_values o))).

(** ** The result of a lookup *)

Inductive ObjectGetResult :=
| NoProperty
| DataResult (v : Z) (isWritable isEnumerable isConfigurable : bool)
| NativeResult (data : ObjectPropertyNativeGetterSetterData) (self internalData : Z)
               (isWritable isEnumerable isConfigurable : bool)
| AccessorResult (gs : JSGetterSetter) (isEnumerable isConfigurable : bool).

Definition hasValue (r : ObjectGetResult) : bool := match r with NoProperty => false | _ => true end.
Definition result_isWritable (r : ObjectGetResult) : bool :=
  match r with DataResult _ w _ _ | NativeResult _ _ _ w _ _ => w | _ => false end.
Definition result_isEnumerable (r : ObjectGetResult) : bool :=
  match r with DataResult _ _ e _ | NativeResult _ _ _ _ e _ | AccessorResult _ e _ => e | NoProperty => false end.
Definition result_isConfigurable (r : ObjectGetResult) : bool :=
  match r with DataResult _ _ _ c | NativeResult _ _ _ _ _ c | AccessorResult _ _ c => c | NoProperty => false end.
Definition result_isDataProperty (r : ObjectGetResult) : bool := match r with AccessorResult _ _ _ => false | _ => true end.
Definition jsGetterSetter (r : ObjectGetResult) : JSGetterSetter :=
  match r with AccessorResult gs _ _ => gs | _ => noGetterSetter end.

(** A key in the list of own keys: the string of an index, or a name. *)
Inductive OwnKey := IndexKey (n : Z) | NameKey (m_data : Z).

(** What the methods of proxies, calls into functions, and the allocation of native
    data provide. *)
Record Outside := {
  proxy_getOwnProperty : Z -> Z -> OM ObjectGetResult;
  proxy_defineOwnProperty : Z -> Z -> ObjectPropertyDescriptor -> OM bool;
  proxy_deleteOwnProperty : Z -> Z -> OM bool;
  proxy_hasProperty : Z -> Z -> OM bool;
  proxy_get : Z -> Z -> Z -> OM ObjectGetResult;
  proxy_set : Z -> Z -> Z -> Z -> OM bool;
  proxy_ownPropertyKeys : Z -> OM (list OwnKey);
  proxy_isExtensible : Z -> OM bool;
  proxy_preventExtensions : Z -> OM bool;
  proxy_getPrototype : Z -> OM (option Z);
  call : Z -> Z -> list Z -> OM Z;
  isCallable : Z -> bool;
  isFunction : Z -> bool;
  nativeGet : ObjectPropertyNativeGetterSetterData -> Z -> Z -> Z -> OM Z;
  nativeSet : ObjectPropertyNativeGetterSetterData -> Z -> Z -> Z -> Z -> OM (bool * Z);
  newNative : ObjectPropertyNativeGetterSetterData -> OM Z
}.

Section Objects.
Context {heap : Heap}.
(** [nameOf] is [toObjectStructurePropertyName], [nameOfKey] makes a property name of
    an own key. *)
Context (out : Outside) (nameOf : Z -> Z) (nameOfKey : OwnKey -> Z).

Definition isProxyObject (o : Object) : bool := match m_objectClass o with ProxyObject _ => true | OrdinaryObject => false end.
Definition isOrdinary (o : Object) : bool := negb (isProxyObject o).
Definition isObject (v : Z) : bool :=
  isPointerValue v && match pointee v with ObjectPointer => true | _ => false end.

(** [ObjectGetResult::value] with [valueSlowCase]. *)
Definition value (r : ObjectGetResult) (receiver : Z) : OM Z :=
  match r with
  | NoProperty => ret ValueUndefined
  | DataResult v _ _ _ => ret v
  | NativeResult data self internalData _ _ _ => nativeGet out data self receiver internalData
  | AccessorResult gs _ _ =>
    if hasGetter gs && isCallable out (m_getter gs) then call out (m_getter gs) receiver [] else ret ValueUndefined
  end.

Definition convertToPropertyDescriptor (r : ObjectGetResult) (receiver : Z) : OM ObjectPropertyDescriptor :=
  let! desc :=
    if result_isDataProperty r then
      let! v := value r receiver in
      ret (setWritable (dataDescriptor v 0) (result_isWritable r))
    else ret (accessorDescriptor (jsGetterSetter r) 0) in
  let desc := setEnumerable desc (result_isEnumerable r) in
  ret (setConfigurable desc (result_isConfigurable r)).

(** ** Own properties *)

Definition Object_getOwnProperty (a propertyName : Z) : OM ObjectGetResult :=
  let! o := readObject a in
  let! hasIndex := runS (hasIndexPropertyName (m_structure o)) in
  if isUIntType propertyName && negb hasIndex then ret NoProperty
  else
    let P := nameOf propertyName in
    let! findResult := runS (findProperty (m_structure o) P) in
    match findResult with
    | None => ret NoProperty
    | Some (i, item) =>
      let desc := m_descriptor item in
      let! slot := orThrow (UndefinedBehaviour OutOfRange) (m_values o !! i) in
      if desc_isDataProperty desc then
        match desc with
        | DescriptorWord _ =>
          ret (DataResult (slotValue slot) (desc_isWritable desc) (desc_isEnumerable desc) (desc_isConfigurable desc))
        | NativeDescriptor _ data =>
          ret (NativeResult data a (slotValue slot) (desc_isWritable desc) (desc_isEnumerable desc)
                            (desc_isConfigurable desc))
        end
      else ret (AccessorResult (slotGetterSetter slot) (desc_isEnumerable desc) (desc_isConfigurable desc))
    end.

Definition getOwnProperty (a P : Z) : OM ObjectGetResult :=
  let! o := readObject a in
  if isProxyObject o then proxy_getOwnProperty out a P else Object_getOwnProperty a P.

Definition hasOwnProperty (a P : Z) : OM bool :=
  let! r := getOwnProperty a P in ret (hasValue r).

Definition isExtensible (a : Z) : OM bool :=
  let! o := readObject a in
  if isProxyObject o then proxy_isExtensible out a else ret (m_isExtensible o).

Definition markThisObjectDontNeedStructureTransitionTable (a : Z) : OM unit :=
  let! o := readObject a in
  let! s := runS (convertToNonTransitionStructure (m_structure o)) in
  setStructure a s.

Definition preventExtensions (a : Z) : OM bool :=
  let! o := readObject a in
  if isProxyObject o then proxy_preventExtensions out a
  else
    do! markThisObjectDontNeedStructureTransitionTable a in
    let! o := readObject a in
    do! writeObject a (withFlags o false (m_isEverSetAsPrototypeObject o) (m_isInlineCacheable o)) in
    ret true.

Definition getPrototypeObject (a : Z) : OM (option Z) :=
  let! o := readObject a in
  if isProxyObject o then proxy_getPrototype out a else ret (m_prototype o).

(** Enough turns for every loop along a chain of prototypes. *)
Definition chainFuel : OM nat := gets (fun w => Datatypes.S (size (objects w))).

(** ** [Get] and [HasProperty] *)

Fixpoint Object_get (fuel : nat) (iter propertyName receiver : Z) : OM ObjectGetResult :=
  match fuel with
  | O => out_of_fuel
  | Datatypes.S fuel =>
    let! desc := getOwnProperty iter propertyName in
    if hasValue desc then ret desc
    else
      let! next := getPrototypeObject iter in
      match next with
      | None => ret NoProperty
      | Some p =>
        let! o := readObject p in
        if isProxyObject o then proxy_get out p propertyName receiver
        else Object_get fuel p propertyName receiver
      end
  end.

Definition get (a propertyName receiver : Z) : OM ObjectGetResult :=
  let! o := readObject a in
  if isProxyObject o then proxy_get out a propertyName receiver
  else let! fuel := chainFuel in Object_get fuel a propertyName receiver.

Fixpoint Object_hasProperty (fuel : nat) (a propertyName : Z) : OM bool :=
  match fuel with
  | O => out_of_fuel
  | Datatypes.S fuel =>
    let! hasOwn := getOwnProperty a propertyName in
    if hasValue hasOwn then ret true
    else
      let! parent := getPrototypeObject a in
      match parent with
      | None => ret false
      | Some p =>
        let! o := readObject p in
        if isProxyObject o then proxy_hasProperty out p propertyName
        else Object_hasProperty fuel p propertyName
      end
  end.

Definition hasProperty (a propertyName : Z) : OM bool :=
  let! o := readObject a in
  if isProxyObject o then proxy_hasProperty out a propertyName
  else let! fuel := chainFuel in Object_hasProperty fuel a propertyName.

(** ** Values of own properties by index *)

Definition slotAt (a : Z) (idx : nat) : OM Slot :=
  let! o := readObject a in orThrow (UndefinedBehaviour OutOfRange) (m_values o !! idx).

Definition getOwnDataPropertyUtilForObject (a : Z) (idx : nat) (receiver : Z) : OM Z :=
  let! o := readObject a in
  let! item := runS (readProperty (m_structure o) idx) in
  let! slot := slotAt a idx in
  match m_descriptor item with
  | NativeDescriptor _ data => nativeGet out data a receiver (slotValue slot)
  | DescriptorWord _ => ret (slotValue slot)
  end.

Definition setOwnDataPropertyUtilForObjectInner (a : Z) (idx : nat) (item : ObjectStructureItem)
    (newValue receiver : Z) : OM bool :=
  match m_descriptor item with
  | NativeDescriptor _ data =>
    let! t := slotAt a idx in
    let! '(result, t) := nativeSet out data a receiver (slotValue t) newValue in
    do! setSlot a idx (SlotValue t) in
    ret result
  | DescriptorWord _ =>
    do! setSlot a idx (SlotValue newValue) in
    ret true
  end.

Definition setOwnDataPropertyUtilForObject (a : Z) (idx : nat) (newValue receiver : Z) : OM bool :=
  let! o := readObject a in
  let! item := runS (readProperty (m_structure o) idx) in
  if desc_isWritable (m_descriptor item)
  then setOwnDataPropertyUtilForObjectInner a idx item newValue receiver
  else ret false.

Definition getOwnPropertyUtilForObjectAccCase (a : Z) (idx : nat) (receiver : Z) : OM Z :=
  let! slot := slotAt a idx in
  let gs := slotGetterSetter slot in
  if hasGetter gs && isCallable out (m_getter gs) then call out (m_getter gs) receiver [] else ret ValueUndefined.

Definition setOwnPropertyUtilForObjectAccCase (a : Z) (idx : nat) (newValue receiver : Z) : OM bool :=
  let! slot := slotAt a idx in
  let gs := slotGetterSetter slot in
  if hasSetter gs && isCallable out (m_setter gs)
  then do! call out (m_setter gs) receiver [newValue] in ret true
  else ret false.

Definition getOwnPropertyUtilForObject (a : Z) (idx : nat) (receiver : Z) : OM Z :=
  let! o := readObject a in
  let! item := runS (readProperty (m_structure o) idx) in
  if desc_isDataProperty (m_descriptor item) then getOwnDataPropertyUtilForObject a idx receiver
  else getOwnPropertyUtilForObjectAccCase a idx receiver.

Definition setOwnPropertyUtilForObject (a : Z) (idx : nat) (newValue receiver : Z) : OM bool :=
  let! o := readObject a in
  let! item := runS (readProperty (m_structure o) idx) in
  if desc_isDataProperty (m_descriptor item) then setOwnDataPropertyUtilForObject a idx newValue receiver
  else setOwnPropertyUtilForObjectAccCase a idx newValue receiver.

(** ** [DefineOwnProperty] *)

(** A new property at the end. *)
Definition addOwnProperty (a propertyName : Z) (desc : ObjectPropertyDescriptor) : OM unit :=
  let! o := readObject a in
  let! s := runS (addProperty (m_structure o) propertyName (toObjectStructurePropertyDescriptor desc)) in
  do! setStructure a s in
  if m_isDataProperty desc
  then pushSlot a (SlotValue (if isValuePresent desc then m_value desc else ValueUndefined))
  else pushSlot a (SlotGetterSetter (m_getterSetter desc)).

(** The validation of a change: [None] is [return false]; otherwise the descriptor to
    start from, and whether the kind of the property changes. *)
Definition validateRedefinition (a : Z) (idx : nat) (current : ObjectStructurePropertyDescriptor) (v : Slot)
    (desc : ObjectPropertyDescriptor) : OM (option (ObjectPropertyDescriptor * bool)) :=
  let newDesc := fromObjectStructurePropertyDescriptor current v in
  if isGenericDescriptor desc then ret (Some (newDesc, false))
  else if negb (Bool.eqb (desc_isDataProperty current) (isDataDescriptor desc)) then
    if negb (desc_isConfigurable current) then ret None
    else
      let f := if desc_isConfigurable current then ConfigurablePresent else NonConfigurablePresent in
      let f := Z.lor f (if desc_isEnumerable current then EnumerablePresent else NonEnumerablePresent) in
      if desc_isDataProperty current
      then ret (Some (accessorDescriptor (m_getterSetter desc) f, true))
      else ret (Some (dataDescriptor (if isValuePresent desc then m_value desc else ValueUndefined) f, true))
  else if desc_isDataProperty current && isDataDescriptor desc then
    if negb (desc_isConfigurable current) then
      if negb (desc_isWritable current) && isWritable desc then ret None
      else if negb (desc_isWritable current) && isValuePresent desc then
        let! currentValue := getOwnDataPropertyUtilForObject a idx (Value_pointer a) in
        if negb (equalsToByTheSameValueAlgorithm (m_value desc) currentValue) then ret None
        else ret (Some (newDesc, false))
      else ret (Some (newDesc, false))
    else ret (Some (newDesc, false))
  else
    if negb (desc_isConfigurable current) then
      let! currgs := slotAt a idx in
      let currgs := slotGetterSetter currgs in
      if hasJSSetter desc
         && negb (m_setter (m_getterSetter desc) =? (if hasSetter currgs then m_setter currgs else ValueUndefined))
      then ret None
      else if hasJSGetter desc
         && negb (m_getter (m_getterSetter desc) =? (if hasGetter currgs then m_getter currgs else ValueUndefined))
      then ret None
      else ret (Some (newDesc, false))
    else ret (Some (newDesc, false)).

(** The fields of [desc] that are present go into the new descriptor. *)
Definition applyFields (newDesc desc : ObjectPropertyDescriptor) : ObjectPropertyDescriptor :=
  let newDesc :=
    if isDataDescriptor newDesc then
      let newDesc := if isValuePresent desc then setValue newDesc (m_value desc)
                     else if negb (isValuePresent newDesc) then setValue newDesc ValueUndefined else newDesc in
      if isWritablePresent desc then setWritable newDesc (isWritable desc) else newDesc
    else if isAccessorDescriptor desc then
      let newDesc := if hasJSGetter desc
                     then setGetterSetter newDesc (withGetter (m_getterSetter newDesc) (m_getter (m_getterSetter desc)))
                     else newDesc in
      if hasJSSetter desc
      then setGetterSetter newDesc (withSetter (m_getterSetter newDesc) (m_setter (m_getterSetter desc)))
      else newDesc
    else newDesc in
  let newDesc := if isConfigurablePresent desc then setConfigurable newDesc (isConfigurable desc) else newDesc in
  if isEnumerablePresent desc then setEnumerable newDesc (isEnumerable desc) else newDesc.

(** The attributes differ from those in the structure. *)
Definition attributesChange (newDesc : ObjectPropertyDescriptor) (current : ObjectStructurePropertyDescriptor) : bool :=
  if isDataDescriptor newDesc && isWritablePresent newDesc
     && negb (Bool.eqb (isWritable newDesc) (desc_isWritable current)) then true
  else if isEnumerablePresent newDesc && negb (Bool.eqb (isEnumerable newDesc) (desc_isEnumerable current)) then true
  else isConfigurablePresent newDesc && negb (Bool.eqb (isConfigurable newDesc) (desc_isConfigurable current)).

(** The change of the value, or of the descriptor and the value. *)
Definition commitRedefinition (a : Z) (idx : nat) (item : ObjectStructureItem) (newDesc desc : ObjectPropertyDescriptor)
    (shouldDelete : bool) : OM bool :=
  if negb shouldDelete then
    if isDataDescriptor newDesc then
      if isValuePresent desc
      then setOwnDataPropertyUtilForObjectInner a idx item (m_value newDesc) (Value_pointer a)
      else ret true
    else
      do! setSlot a idx (SlotGetterSetter (m_getterSetter newDesc)) in
      ret true
  else
    let! newStructureDesc :=
      match m_descriptor item with
      | NativeDescriptor _ data =>
        if isDataDescriptor newDesc then
          let newData := newNativeGetterSetterData (isWritable newDesc) (isEnumerable newDesc) (isConfigurable newDesc)
                                                   (native_getter data) (native_setter data) false in
          let! p := newNative out newData in
          ret (createDataButHasNativeGetterSetterDescriptor p newData)
        else ret (toObjectStructurePropertyDescriptor newDesc)
      | DescriptorWord _ => ret (toObjectStructurePropertyDescriptor newDesc)
      end in
    let! o := readObject a in
    let! s := runS (replacePropertyDescriptor (m_structure o) idx newStructureDesc) in
    do! setStructure a s in
    if isDataDescriptor newDesc then
      let! item := runS (readProperty s idx) in
      setOwnDataPropertyUtilForObjectInner a idx item (m_value newDesc) (Value_pointer a)
    else
      do! setSlot a idx (SlotGetterSetter (m_getterSetter newDesc)) in
      ret true.

Definition defineOwnPropertyMethod (a P : Z) (desc : ObjectPropertyDescriptor) : OM bool :=
  let propertyName := nameOf P in
  let! o := readObject a in
  let! findResult := runS (findProperty (m_structure o) propertyName) in
  match findResult with
  | None =>
    let! extensible := isExtensible a in
    if negb extensible then ret false
    else do! addOwnProperty a propertyName desc in ret true
  | Some (idx, item) =>
    let current := m_descriptor item in
    if negb (desc_isConfigurable current) && isConfigurable desc then ret false
    else if negb (desc_isConfigurable current) && isEnumerablePresent desc
            && negb (Bool.eqb (isEnumerable desc) (desc_isEnumerable current)) then ret false
    else
      let! v := if desc_isNativeAccessorProperty current
                then let! r := get a P (Value_pointer a) in
                     let! v := value r (Value_pointer a) in ret (SlotValue v)
                else slotAt a idx in
      let! checked := validateRedefinition a idx current v desc in
      match checked with
      | None => ret false
      | Some (newDesc, shouldDelete) =>
        let newDesc := applyFields newDesc desc in
        commitRedefinition a idx item newDesc desc (if shouldDelete then true else attributesChange newDesc current)
      end
  end.

(** [somePrototypeObjectDefineIndexedProperty], which also takes all arrays out of
    their fast mode. *)
Definition somePrototypeObjectDefineIndexedProperty : OM unit :=
  modify (fun w => {| structures := structures w; objects := objects w;
                      m_didSomePrototypeObjectDefineIndexedProperty := true |}).

Definition DerivedObject_defineOwnProperty (a P : Z) (desc : ObjectPropertyDescriptor) : OM bool :=
  let! o := readObject a in
  let! did := gets m_didSomePrototypeObjectDefineIndexedProperty in
  do! (when! m_isEverSetAsPrototypeObject o && negb did && objectName_isIndexString P
       then somePrototypeObjectDefineIndexedProperty) in
  defineOwnPropertyMethod a P desc.

(** The virtual method; an object that was never made a prototype has the first of
    the two, which is the same for it. *)
Definition defineOwnProperty (a P : Z) (desc : ObjectPropertyDescriptor) : OM bool :=
  let! o := readObject a in
  if isProxyObject o then proxy_defineOwnProperty out a P desc
  else if m_isEverSetAsPrototypeObject o then DerivedObject_defineOwnProperty a P desc
  else defineOwnPropertyMethod a P desc.

Definition defineOwnPropertyThrowsException (a P : Z) (desc : ObjectPropertyDescriptor) : OM unit :=
  let! ok := defineOwnProperty a P desc in
  if negb ok then throw TypeError else ret tt.

Definition directDefineOwnProperty (a P : Z) (desc : ObjectPropertyDescriptor) : OM unit :=
  addOwnProperty a (nameOf P) desc.

Definition markAsNonInlineCachable (a : Z) : OM unit :=
  let! o := readObject a in
  writeObject a (withFlags o (m_isExtensible o) (m_isEverSetAsPrototypeObject o) false).

Definition defineNativeDataAccessorProperty (a P p : Z) (data : ObjectPropertyNativeGetterSetterData)
    (objectInternalData : Z) : OM bool :=
  let! has := hasOwnProperty a P in
  if has then ret false
  else
    let! extensible := isExtensible a in
    if negb extensible then ret false
    else
      let! o := readObject a in
      let! s := runS (addProperty (m_structure o) (nameOf P) (createDataButHasNativeGetterSetterDescriptor p data)) in
      do! setStructure a s in
      do! pushSlot a (SlotValue objectInternalData) in
      do! (when! m_actsLikeJSGetterSetter data then markAsNonInlineCachable a) in
      ret true.

Definition redefineOwnProperty (a P : Z) (desc : ObjectPropertyDescriptor) : OM unit :=
  let! o := readObject a in
  let! findResult := runS (findProperty (m_structure o) (nameOf P)) in
  match findResult with
  | None => throw (UndefinedBehaviour OutOfRange)
  | Some (idx, _) =>
    let! s := runS (replacePropertyDescriptor (m_structure o) idx (toObjectStructurePropertyDescriptor desc)) in
    do! setStructure a s in
    setSlot a idx (SlotValue (m_value desc))
  end.

(** ** [Delete] *)

Definition deleteOwnPropertyAt (a : Z) (idx : nat) : OM unit :=
  let! o := readObject a in
  let! s := runS (removeProperty (m_structure o) idx) in
  do! setStructure a s in
  eraseSlot a idx.

Definition deleteOwnProperty (a P : Z) : OM bool :=
  let! o := readObject a in
  if isProxyObject o then proxy_deleteOwnProperty out a P
  else
    let! result := getOwnProperty a P in
    if hasValue result && result_isConfigurable result then
      let! o := readObject a in
      let! findResult := runS (findProperty (m_structure o) (nameOf P)) in
      match findResult with
      | None => throw (UndefinedBehaviour OutOfRange)
      | Some (idx, _) => do! deleteOwnPropertyAt a idx in ret true
      end
    else if hasValue result && negb (result_isConfigurable result) then ret false
    else ret true.

(** ** [Set] *)

(** [set] on the receiver: redefine the value of its property, or create one. *)
Definition setOnReceiver (a propertyName v receiver : Z) (hasOwn : bool) : OM bool :=
  if hasOwn && (a =? receiver) then defineOwnProperty receiver propertyName (dataDescriptor v 0)
  else
    let! existingDesc := getOwnProperty receiver propertyName in
    if hasValue existingDesc then
      if negb (result_isDataProperty existingDesc) then ret false
      else if negb (result_isWritable existingDesc) then ret false
      else defineOwnProperty receiver propertyName (dataDescriptor v 0)
    else defineOwnProperty receiver propertyName (dataDescriptor v AllPresent).

(** The part of [set] after the lookup: [ownDesc] is what was found, or the default. *)
Definition setWith (a propertyName v receiver : Z) (hasOwn : bool) (ownDesc : ObjectGetResult) : OM bool :=
  if result_isDataProperty ownDesc then
    if negb (result_isWritable ownDesc) then ret false
    else if negb (isObject receiver) then ret false
    else
      match ownDesc with
      | NativeResult data _ _ _ _ _ =>
        if m_actsLikeJSGetterSetter data then
          let! o := readObject a in
          let! did := gets m_didSomePrototypeObjectDefineIndexedProperty in
          do! (when! m_isEverSetAsPrototypeObject o && negb did && objectName_isIndexString propertyName
               then somePrototypeObjectDefineIndexedProperty) in
          let! findResult := runS (findProperty (m_structure o) (nameOf propertyName)) in
          match findResult with
          | None => throw (UndefinedBehaviour OutOfRange)
          | Some (idx, item) => setOwnDataPropertyUtilForObjectInner a idx item v receiver
          end
        else setOnReceiver a propertyName v receiver hasOwn
      | _ => setOnReceiver a propertyName v receiver hasOwn
      end
  else
    let gs := jsGetterSetter ownDesc in
    let setter := if hasSetter gs then m_setter gs else ValueUndefined in
    if isUndefined setter then ret false
    else do! call out setter receiver [v] in ret true.

Fixpoint Object_set (fuel : nat) (a propertyName v receiver : Z) : OM bool :=
  match fuel with
  | O => out_of_fuel
  | Datatypes.S fuel =>
    let! ownDesc := getOwnProperty a propertyName in
    if hasValue ownDesc then setWith a propertyName v receiver true ownDesc
    else
      let! parent := getPrototypeObject a in
      match parent with
      | Some p =>
        let! o := readObject p in
        if isProxyObject o then proxy_set out p propertyName v receiver
        else Object_set fuel p propertyName v receiver
      | None => setWith a propertyName v receiver false (DataResult ValueUndefined true true true)
      end
  end.

Definition set (a propertyName v receiver : Z) : OM bool :=
  let! o := readObject a in
  if isProxyObject o then proxy_set out a propertyName v receiver
  else let! fuel := chainFuel in Object_set fuel a propertyName v receiver.

Definition setThrowsException (a P v receiver : Z) : OM unit :=
  let! ok := set a P v receiver in
  if negb ok then throw TypeError else ret tt.

(** ** [OwnPropertyKeys] *)

(** The lists that the callback of [objectOwnPropertyKeys] fills. *)
Record KeyLists := { indexes : list Z; strings : list Z; symbols : list Z }.

(** [std::multiset::insert]: after the elements that are not greater. *)
Fixpoint multiset_insert (n : Z) (l : list Z) : list Z :=
  match l with
  | [] => [n]
  | m :: rest => if n <? m then n :: l else m :: multiset_insert n rest
  end.

Definition collectKey (properties : KeyLists) (name : Z) : KeyLists :=
  let indexProperty := name_tryToUseAsIndexProperty name in
  if negb (indexProperty =? InvalidIndexPropertyValue) then
    {| indexes := multiset_insert indexProperty (indexes properties); strings := strings properties;
       symbols := symbols properties |}
  else if isSymbol name then
    {| indexes := indexes properties; strings := strings properties; symbols := symbols properties ++ [name] |}
  else
    {| indexes := indexes properties; strings := strings properties ++ [name]; symbols := symbols properties |}.

Definition objectOwnPropertyKeys (a : Z) : OM (list OwnKey) :=
  let! o := readObject a in
  let! items := runS (properties (m_structure o)) in
  let lists := fold_left collectKey (map m_propertyName items) {| indexes := []; strings := []; symbols := [] |} in
  ret (map IndexKey (indexes lists) ++ map NameKey (strings lists) ++ map NameKey (symbols lists)).

Definition ownPropertyKeys (a : Z) : OM (list OwnKey) :=
  let! o := readObject a in
  if isProxyObject o then proxy_ownPropertyKeys out a else objectOwnPropertyKeys a.

(** ** Integrity levels *)

Definition sealKey (a : Z) (receiver : Z) (key : OwnKey) : OM unit :=
  let! currentDesc := getOwnProperty a (nameOfKey key) in
  when! result_isConfigurable currentDesc then (
    let! newDesc := convertToPropertyDescriptor currentDesc receiver in
    defineOwnPropertyThrowsException a (nameOfKey key) (setConfigurable newDesc false)).

Definition freezeKey (a : Z) (receiver : Z) (key : OwnKey) : OM unit :=
  let! currentDesc := getOwnProperty a (nameOfKey key) in
  when! hasValue currentDesc
        && (result_isConfigurable currentDesc || (result_isDataProperty currentDesc && result_isWritable currentDesc))
  then (
    let! newDesc := convertToPropertyDescriptor currentDesc receiver in
    let newDesc := setConfigurable newDesc false in
    let newDesc := if result_isDataProperty currentDesc then setWritable newDesc false else newDesc in
    defineOwnPropertyThrowsException a (nameOfKey key) newDesc).

Fixpoint forEachKey (f : OwnKey -> OM unit) (keys : list OwnKey) : OM unit :=
  match keys with
  | [] => ret tt
  | key :: rest => do! f key in forEachKey f rest
  end.

Definition setIntegrityLevel (a : Z) (isSealed : bool) : OM bool :=
  let! status := preventExtensions a in
  if negb status then ret false
  else
    let! keys := ownPropertyKeys a in
    do! forEachKey ((if isSealed then sealKey else freezeKey) a (Value_pointer a)) keys in
    ret true.

Fixpoint testKeys (a : Z) (isSealed : bool) (keys : list OwnKey) : OM bool :=
  match keys with
  | [] => ret true
  | key :: rest =>
    let! currentDesc := getOwnProperty a (nameOfKey key) in
    if hasValue currentDesc && result_isConfigurable currentDesc then ret false
    else if hasValue currentDesc && negb isSealed && result_isDataProperty currentDesc && result_isWritable currentDesc
    then ret false
    else testKeys a isSealed rest
  end.

Definition testIntegrityLevel (a : Z) (isSealed : bool) : OM bool :=
  let! extensible := isExtensible a in
  if extensible then ret false
  else
    let! keys := ownPropertyKeys a in
    testKeys a isSealed keys.

(** ** [IsCompatiblePropertyDescriptor] *)

Definition isCompatiblePropertyDescriptor (extensible : bool) (desc : ObjectPropertyDescriptor) (current : ObjectGetResult)
    : OM bool :=
  if negb (hasValue current) then ret (if negb extensible then false else true)
  else if negb (result_isConfigurable current) && isConfigurable desc then ret false
  else if negb (result_isConfigurable current) && isEnumerablePresent desc
          && negb (Bool.eqb (isEnumerable desc) (result_isEnumerable current)) then ret false
  else if isGenericDescriptor desc then ret true
  else if negb (Bool.eqb (result_isDataProperty current) (isDataDescriptor desc)) then
    if negb (result_isConfigurable current) then ret false else ret true
  else if result_isDataProperty current && isDataDescriptor desc then
    if negb (result_isConfigurable current) then
      if negb (result_isWritable current) && isWritable desc then ret false
      else if negb (result_isWritable current) && isValuePresent desc then
        let! currentValue := value current ValueUndefined in
        ret (if negb (equalsToByTheSameValueAlgorithm (m_value desc) currentValue) then false else true)
      else ret true
    else ret true
  else if negb (result_isDataProperty current) && isAccessorDescriptor desc then
    if negb (result_isConfigurable current) then
      let currgs := jsGetterSetter current in
      if hasJSSetter desc
         && negb (m_setter (m_getterSetter desc) =? (if hasSetter currgs then m_setter currgs else ValueUndefined))
      then ret false
      else if hasJSGetter desc
         && negb (m_getter (m_getterSetter desc) =? (if hasGetter currgs then m_getter currgs else ValueUndefined))
      then ret false
      else ret true
    else ret true
  else ret true.

(** ** Prototypes *)

Definition markAsPrototypeObject (a : Z) : OM unit :=
  let! o := readObject a in
  do! writeObject a (withFlags o (m_isExtensible o) true (m_isInlineCacheable o)) in
  let! did := gets m_didSomePrototypeObjectDefineIndexedProperty in
  let! hasIndex := runS (hasIndexPropertyName (m_structure o)) in
  when! negb did && (hasIndex || isProxyObject o) then somePrototypeObjectDefineIndexedProperty.

(** The loop that looks for a cycle: it answers false when it meets the object. *)
Fixpoint noCycle (fuel : nat) (self : Z) (p : option Z) : OM bool :=
  match fuel with
  | O => out_of_fuel
  | Datatypes.S fuel =>
    match p with
    | None => ret true
    | Some q =>
      if q =? self then ret false
      else
        let! o := readObject q in
        if negb (isOrdinary o) then ret true
        else
          let! next := getPrototypeObject q in
          noCycle fuel self next
    end
  end.

(** The text [constructor]. *)
Definition constructorText : list Z := [99; 111; 110; 115; 116; 114; 117; 99; 116; 111; 114].

Fixpoint findConstructor (i : nat) (items : list ObjectStructureItem) : option (nat * ObjectStructureItem) :=
  match items with
  | [] => None
  | item :: rest =>
    if isPlainString (m_propertyName item) && bool_decide (stringAt (plainString (m_propertyName item)) = constructorText)
    then Some (i, item)
    else findConstructor (S i) rest
  end.

Definition readConstructorSlotWithoutState (a : Z) : OM (option Z) :=
  let! o := readObject a in
  let! items := runS (properties (m_structure o)) in
  match findConstructor 0 items with
  | None => ret None
  | Some (i, item) =>
    if desc_isDataProperty (m_descriptor item)
    then let! slot := slotAt a i in ret (Some (slotValue slot))
    else ret None
  end.

(** What [setPrototype] remembers of the constructor of the last prototype. *)
Definition keepMeaningfulConstructor (a : Z) (last : Z) : OM unit :=
  let! o := readObject a in
  match m_meaningfulConstructor o with
  | Some _ => ret tt
  | None =>
    let! l := readObject last in
    match classConstructor l with
    | Some c => writeObject a (withConstructor o (Some c))
    | None =>
      let! ctor := readConstructorSlotWithoutState last in
      match ctor with
      | Some c => when! isFunction out c then writeObject a (withConstructor o (Some c))
      | None => ret tt
      end
    end
  end.

Definition setPrototype (a : Z) (proto : option Z) : OM bool :=
  let! lastPrototype := getPrototypeObject a in
  if bool_decide (proto = lastPrototype) then ret true
  else
    let! extensible := isExtensible a in
    if negb extensible then ret false
    else
      let! fuel := chainFuel in
      let! ok := noCycle fuel a proto in
      if negb ok then ret false
      else
        do! match proto with Some p => markAsPrototypeObject p | None => ret tt end in
        let! o := readObject a in
        do! writeObject a (withPrototype o proto) in
        match lastPrototype with
        | None => ret true
        | Some last =>
          let! l := readObject last in
          do! (when! bool_decide (proto = None) || isFunctionPrototypeObject l || bool_decide (is_Some (classConstructor l))
               then keepMeaningfulConstructor a last) in
          ret true
        end.
End Objects.
