(* ===== verification/ObjectSpec.v ===== *)
(** * What objects promise

    The properties of an object, seen as an ordered list of keys with properties of
    the language, and the operations of the language on such a list.  The internal
    methods are proved to be these operations, on objects whose properties are
    plain data or accessors, whatever structures the objects share. *)

From stdpp Require Import gmap.
From S2P Require Import Prelude Value PropertyName PropertyDescriptor ObjectStructure StructureSpec Object.
Local Open Scope Z_scope.
Local Open Scope esc_scope.

(** ** The language *)

Section Language.
Context {heap : Heap}.

Abbreviation PropertyList := (list (PropertyKey * Property)).

Fixpoint lookupKey (l : PropertyList) (key : PropertyKey) : option Property :=
  match l with
  | [] => None
  | (k, p) :: rest => if decide (k = key) then Some p else lookupKey rest key
  end.

(** The property of a key takes its place, or a new one at the end. *)
Fixpoint putKey (l : PropertyList) (key : PropertyKey) (p : Property) : PropertyList :=
  match l with
  | [] => [(key, p)]
  | (k, q) :: rest => if decide (k = key) then (k, p) :: rest else (k, q) :: putKey rest key p
  end.

Fixpoint removeKey (l : PropertyList) (key : PropertyKey) : PropertyList :=
  match l with
  | [] => []
  | (k, q) :: rest => if decide (k = key) then rest else (k, q) :: removeKey rest key
  end.

Definition p_configurable (p : Property) : bool :=
  match p with DataProperty _ _ _ c | AccessorProperty _ _ _ c => c end.
Definition p_enumerable (p : Property) : bool :=
  match p with DataProperty _ _ e _ | AccessorProperty _ _ e _ => e end.

(** A field is absent or equal. *)
Definition unchanged {A} (same : A -> A -> bool) (field : option A) (a : A) : bool :=
  match field with None => true | Some b => same b a end.

(** The validation of ValidateAndApplyPropertyDescriptor for a present property. *)
Definition compatible (p : Property) (d : PropertyDescriptor) : bool :=
  if p_configurable p then true
  else if bool_decide (d_configurable d = Some true) then false
  else if negb (unchanged Bool.eqb (d_enumerable d) (p_enumerable p)) then false
  else if negb (IsAccessor d) && negb (IsData d) then true
  else match p with
       | DataProperty v writable _ _ =>
         if IsAccessor d then false
         else if writable then true
         else negb (bool_decide (d_writable d = Some true)) && unchanged equalsToByTheSameValueAlgorithm (d_value d) v
       | AccessorProperty g s _ _ =>
         if IsData d then false
         else unchanged Z.eqb (d_get d) g && unchanged Z.eqb (d_set d) s
       end.

(** Its last step: the fields that are present, the others as they were or, when the
    kind changes, their defaults. *)
Definition applyDescriptor (p : Property) (d : PropertyDescriptor) : Property :=
  let e := default (p_enumerable p) (d_enumerable d) in
  let c := default (p_configurable p) (d_configurable d) in
  match p with
  | DataProperty v w _ _ =>
    if IsAccessor d then AccessorProperty (default ValueUndefined (d_get d)) (default ValueUndefined (d_set d)) e c
    else DataProperty (default v (d_value d)) (default w (d_writable d)) e c
  | AccessorProperty g s _ _ =>
    if IsData d then DataProperty (default ValueUndefined (d_value d)) (default false (d_writable d)) e c
    else AccessorProperty (default g (d_get d)) (default s (d_set d)) e c
  end.

(** ValidateAndApplyPropertyDescriptor: [None] rejects. *)
Definition ValidateAndApply (extensible : bool) (current : option Property) (d : PropertyDescriptor) : option Property :=
  match current with
  | None => if extensible then Some (newProperty d) else None
  | Some p => if compatible p d then Some (applyDescriptor p d) else None
  end.

(** What a lookup answers. *)
Definition propertyOfResult (r : ObjectGetResult) : option Property :=
  match r with
  | NoProperty => None
  | DataResult v w e c => Some (DataProperty v w e c)
  | NativeResult _ _ v w e c => Some (DataProperty v w e c)
  | AccessorResult gs e c => Some (AccessorProperty (orUndefined (m_getter gs)) (orUndefined (m_setter gs)) e c)
  end.
End Language.

(** ** Indices *)

Section IndexKeys.
Context {heap : Heap}.

Lemma name_index_key m : name_isIndexString m =
  match propertyKey m with KString s => isIndexString s | KSymbol _ => false end.
Proof.
  unfold name_isIndexString, propertyKey, isSymbol, isPlainString. destruct (hasAtomicString m); [reflexivity|].
  destruct (hasSymbol m); reflexivity.
Qed.

Lemma tryToUse_key m : name_tryToUseAsIndexProperty m =
  match propertyKey m with KString s => tryToUseAsIndexProperty s | KSymbol _ => InvalidIndexPropertyValue end.
Proof.
  unfold name_tryToUseAsIndexProperty, propertyKey, isSymbol, isPlainString. destruct (hasAtomicString m); [reflexivity|].
  destruct (hasSymbol m); reflexivity.
Qed.

(** Equal keys are both indices or neither. *)
Lemma index_key a b : propertyKey a = propertyKey b -> name_isIndexString a = name_isIndexString b.
Proof. intros E. rewrite !name_index_key, E. reflexivity. Qed.
End IndexKeys.

(** ** The interface to names *)

Definition plainDesc (d : ObjectStructurePropertyDescriptor) : Prop :=
  match d with DescriptorWord _ => True | NativeDescriptor _ _ => False end.

(** What the objects need of the names that reach them: they become valid names of
    structures, integers become index names, and an own key leads back to its
    name. *)
Class ObjectNames (heap : Heap) (valid validP : Z -> Prop) (nameOf : Z -> Z) (nameOfKey : OwnKey -> Z) : Prop := {
  structure_names :: PropertyNames heap valid plainDesc;
  name_valid : forall P, validP P -> valid (nameOf P);
  name_uint : forall P, validP P -> isUIntType P = true -> name_isIndexString (nameOf P) = true;
  name_index : forall P, validP P -> objectName_isIndexString P = name_isIndexString (nameOf P);
  key_name : forall m, valid m -> validP (nameOfKey (NameKey m)) /\
    propertyKey (nameOf (nameOfKey (NameKey m))) = propertyKey m;
  key_ofIndex : forall m n, valid m -> name_tryToUseAsIndexProperty m = n -> n <> InvalidIndexPropertyValue ->
    validP (nameOfKey (IndexKey n)) /\ propertyKey (nameOf (nameOfKey (IndexKey n))) = propertyKey m
}.

(** ** The state and the list it stands for *)

Section Invariant.
Context {heap : Heap} (valid : Z -> Prop).

Abbreviation Content := (list (PropertyKey * ObjectStructurePropertyDescriptor)).

Definition content (w : World) (s : nat) (c : Content) : Prop :=
  exists items, live (structures w) s items /\ contentOf items = c.

(** A slot holds what its descriptor says; an accessor has a getter or a setter. *)
Definition slot_ok (e : PropertyKey * ObjectStructurePropertyDescriptor) (s : Slot) : Prop :=
  match s with
  | SlotValue _ => desc_isDataProperty (snd e) = true
  | SlotGetterSetter gs => desc_isDataProperty (snd e) = false /\ hasGetter gs || hasSetter gs = true
  end.

Lemma slot_kind e s : slot_ok e s ->
  match s with SlotValue _ => desc_isDataProperty (snd e) = true | SlotGetterSetter _ => desc_isDataProperty (snd e) = false end.
Proof. destruct s; [exact id|]. intros [H _]. exact H. Qed.

Definition viewOf (c : Content) (values : list Slot) : list (PropertyKey * Property) :=
  zip_with (fun e s => (fst e, propertyOf (snd e) s)) c values.

(** The object [a] has the state [o] and the content [c]. *)
Definition object_at (w : World) (a : Z) (o : Object) (c : Content) : Prop :=
  objects w !! a = Some o /\ content w (m_structure o) c /\ Forall2 slot_ok c (m_values o).

(** The properties of the object [a]. *)
Definition has_properties (w : World) (a : Z) (l : list (PropertyKey * Property)) : Prop :=
  exists o c, object_at w a o c /\ l = viewOf c (m_values o).

Record wf_world (w : World) : Prop := {
  world_store : wf_store valid plainDesc (structures w);
  world_objects : forall a o, objects w !! a = Some o -> exists c, object_at w a o c;
  world_owner : forall a b o o', objects w !! a = Some o -> objects w !! b = Some o' ->
    m_structure o = m_structure o' -> a = b \/ shareable (structures w) (m_structure o)
}.

(** What an operation on the object [a] leaves as it is. *)
Record frame (a : Z) (w w' : World) : Prop := {
  frame_objects : forall b, b <> a -> objects w' !! b = objects w !! b;
  frame_content : forall b o c, b <> a -> object_at w b o c -> object_at w' b o c;
  frame_shared : forall s items, shareable (structures w) s -> live (structures w) s items ->
    shareable (structures w') s /\ live (structures w') s items
}.

Lemma content_length c values : Forall2 slot_ok c values -> length c = length values.
Proof. apply Forall2_length. Qed.

Lemma live_unique st a items items' : live st a items -> live st a items' -> items = items'.
Proof. intros (s & H & E) (s' & H' & E'). congruence. Qed.

Lemma content_unique w s c c' : content w s c -> content w s c' -> c = c'.
Proof. intros (i & H & <-) (i' & H' & <-). f_equal. exact (live_unique _ _ _ _ H H'). Qed.

Lemma live_lt st a items : live st a items -> (a < length st)%nat.
Proof. intros (s & H & _). eapply lookup_lt_Some. exact H. Qed.

Lemma frame_refl a w : frame a w w.
Proof. constructor; auto. Qed.

Lemma frame_trans a w w1 w2 : frame a w w1 -> frame a w1 w2 -> frame a w w2.
Proof.
  intros [H1 H2 H3] [K1 K2 K3]. constructor.
  - intros b Hb. rewrite K1, H1 by exact Hb. reflexivity.
  - auto.
  - intros s items Hs Hl. destruct (H3 s items Hs Hl). auto.
Qed.

(** ** Steps of the state *)

Lemma bind_gets {S E A B} (f : S -> A) (k : A -> M S E B) s : bind (gets f) k s = k (f s) s.
Proof. reflexivity. Qed.
Lemma bind_ret {S E A B} (a : A) (k : A -> M S E B) s : bind (ret a) k s = k a s.
Proof. reflexivity. Qed.

Lemma readObject_run w a o : objects w !! a = Some o -> readObject a w = (Ret o, w).
Proof. intros H. unfold readObject, bind, gets. rewrite H. reflexivity. Qed.

Lemma writeObject_run w a o : writeObject a o w = (Ret tt, withObject a o w).
Proof. reflexivity. Qed.

Lemma withStructures_same w : withStructures w (structures w) = w.
Proof. destruct w. reflexivity. Qed.

Lemma runS_run {A} (m : SM A) w r st : m (structures w) = (Ret r, st) -> runS m w = (Ret r, withStructures w st).
Proof. intros H. unfold runS. rewrite H. reflexivity. Qed.

Lemma runS_read {A} (m : SM A) w r : m (structures w) = (Ret r, structures w) -> runS m w = (Ret r, w).
Proof. intros H. rewrite (runS_run m w r _ H), withStructures_same. reflexivity. Qed.

Definition withWorld (w : World) (st : Structures) (a : Z) (o : Object) : World :=
  withObject a o (withStructures w st).

Lemma setStructure_run w st a o r : objects w !! a = Some o ->
  setStructure a r (withStructures w st) = (Ret tt, withWorld w st a (withStructure o r)).
Proof. intros H. unfold setStructure. rewrite (bind_run _ _ _ o _ (readObject_run (withStructures w st) a o H)). reflexivity. Qed.

Lemma withObject_twice a o o' w : withObject a o' (withObject a o w) = withObject a o' w.
Proof. unfold withObject. cbn. rewrite insert_insert_eq. reflexivity. Qed.

Lemma withWorld_at w st a o : objects (withWorld w st a o) !! a = Some o.
Proof. apply lookup_insert_eq. Qed.

(** The new state of an object over the result of an operation on its structure. *)
Lemma update_ok w a o st r items values o' : wf_world w -> objects w !! a = Some o ->
  op_result valid plainDesc (Some (m_structure o)) (structures w) st r items ->
  Forall2 slot_ok (contentOf items) values -> m_structure o' = r -> m_values o' = values ->
  wf_world (withWorld w st a o') /\ frame a w (withWorld w st a o') /\
  object_at (withWorld w st a o') a o' (contentOf items).
Proof.
  intros [Hst Hobj Hown] Ha [Hst' Hp Hl Hsh] Hslots <- <-.
  assert (Hkeep : forall b ob c, b <> a -> object_at w b ob c -> object_at (withWorld w st a o') b ob c).
  { intros b ob c Hb (Hob & (it & Hlive & Ec) & Hs). split_and!; [|exists it; split; [|exact Ec]|exact Hs].
    - cbn. rewrite lookup_insert_ne by congruence. exact Hob.
    - cbn. apply (keeps_items _ _ _ _ _ Hp); [exact Hlive|].
      destruct (decide (m_structure o = m_structure ob)) as [E|Hne]; [|left; congruence]. right.
      destruct (Hown b a ob o Hob Ha (eq_sym E)) as [?|H]; [contradiction|exact H]. }
  assert (Hself : object_at (withWorld w st a o') a o' (contentOf items))
    by (split_and!; [apply withWorld_at|exists items; auto|exact Hslots]).
  split_and!; [constructor|constructor|exact Hself].
  - exact Hst'.
  - intros b ob Hb. destruct (decide (b = a)) as [->|Hne].
    + rewrite withWorld_at in Hb. injection Hb as <-. eauto.
    + cbn in Hb. rewrite lookup_insert_ne in Hb by congruence. destruct (Hobj b ob Hb) as [c Hc]. eauto.
  - assert (Hlt : forall b ob, objects w !! b = Some ob -> (m_structure ob < length (structures w))%nat).
    { intros b ob Hb. destruct (Hobj b ob Hb) as (c & _ & (it & Hlive & _) & _). exact (live_lt _ _ _ Hlive). }
    assert (Hshared : forall s, (s < length (structures w))%nat -> shareable (structures w) s -> shareable st s)
      by (intros s Hs; apply (keeps_sharing _ _ _ _ _ Hp s Hs)).
    intros b c ob oc Hb Hc E. cbn [objects withWorld withObject withStructures structures] in *.
    apply lookup_insert_Some in Hb as [[<- <-]|[Hb0 Hb]]; apply lookup_insert_Some in Hc as [[<- <-]|[Hc0 Hc]].
    + auto.
    + right. destruct Hsh as [Hsh|Hsh]; [specialize (Hlt c oc Hc); lia|]. apply Hshared; [|exact Hsh]. rewrite E. eauto.
    + right. rewrite E. destruct Hsh as [Hsh|Hsh]; [specialize (Hlt b ob Hb); lia|].
      apply Hshared; [|exact Hsh]. rewrite <- E. eauto.
    + destruct (Hown b c ob oc Hb Hc E) as [?|H]; [auto|right]. eauto.
  - intros b Hb. cbn. apply lookup_insert_ne. congruence.
  - exact Hkeep.
  - intros s it Hs Hlive. split; [apply (keeps_sharing _ _ _ _ _ Hp); [exact (live_lt _ _ _ Hlive)|exact Hs]|].
    apply (keeps_items _ _ _ _ _ Hp); auto.
Qed.
End Invariant.

(** ** Contents and views by index *)

Section Views.
Context {heap : Heap}.

Abbreviation Content := (list (PropertyKey * ObjectStructurePropertyDescriptor)).

Definition contentIndex (c : Content) (key : PropertyKey) : option nat :=
  findIndex (fun e => bool_decide (fst e = key)) c.

Lemma keyIndex_content items key : keyIndex items key = contentIndex (contentOf items) key.
Proof.
  unfold keyIndex, contentIndex, contentOf. induction items as [|x items IH]; [reflexivity|].
  cbn [map]. rewrite !findIndex_cons, IH. reflexivity.
Qed.

Lemma contentIndex_cons k d (c : Content) key :
  contentIndex ((k, d) :: c) key = if decide (k = key) then Some 0%nat else option_map S (contentIndex c key).
Proof. unfold contentIndex. rewrite findIndex_cons. cbn [fst]. case_decide; case_bool_decide; congruence. Qed.

Lemma view_cons k d c s values : viewOf ((k, d) :: c) (s :: values) = (k, propertyOf d s) :: viewOf c values.
Proof. reflexivity. Qed.

Lemma view_lookup c values key : Forall2 slot_ok c values ->
  match contentIndex c key with
  | Some i => exists d s, c !! i = Some (key, d) /\ values !! i = Some s /\ slot_ok (key, d) s /\
                lookupKey (viewOf c values) key = Some (propertyOf d s)
  | None => lookupKey (viewOf c values) key = None
  end.
Proof.
  induction 1 as [|[k d] s c values Hs _ IH]; [reflexivity|].
  rewrite contentIndex_cons, view_cons. cbn [lookupKey]. case_decide as E.
  - subst k. exists d, s. auto.
  - destruct (contentIndex c key) as [i|]; cbn [option_map].
    + destruct IH as (d' & s' & H). exists d', s'. exact H.
    + exact IH.
Qed.

Lemma view_put c values key i d s : length c = length values -> contentIndex c key = Some i ->
  viewOf (alter (setDescriptor d) i c) (<[i := s]> values) = putKey (viewOf c values) key (propertyOf d s).
Proof.
  revert values i. induction c as [|[k d0] c IH]; intros [|s0 values] i Hlen Hi; try discriminate.
  rewrite contentIndex_cons in Hi. rewrite view_cons. cbn [putKey]. destruct (decide (k = key)) as [<-|Hne].
  - injection Hi as <-. reflexivity.
  - destruct (contentIndex c key) as [j|] eqn:E; [|discriminate]. injection Hi as <-. cbn.
    rewrite <- (IH values j) by (injection Hlen; auto). reflexivity.
Qed.

Lemma view_put_new c values key d s : length c = length values -> contentIndex c key = None ->
  viewOf (c ++ [(key, d)]) (values ++ [s]) = putKey (viewOf c values) key (propertyOf d s).
Proof.
  revert values. induction c as [|[k d0] c IH]; intros [|s0 values] Hlen Hi; try discriminate; [reflexivity|].
  rewrite contentIndex_cons in Hi. cbn [app]. rewrite !view_cons. cbn [putKey]. case_decide; [discriminate|].
  rewrite IH; [reflexivity|injection Hlen; auto|]. destruct (contentIndex c key); [discriminate|reflexivity].
Qed.

Lemma view_remove c values key i : length c = length values -> contentIndex c key = Some i ->
  viewOf (delete i c) (delete i values) = removeKey (viewOf c values) key.
Proof.
  revert values i. induction c as [|[k d0] c IH]; intros [|s0 values] i Hlen Hi; try discriminate.
  rewrite contentIndex_cons in Hi. rewrite view_cons. cbn [removeKey]. destruct (decide (k = key)) as [<-|Hne].
  - injection Hi as <-. reflexivity.
  - destruct (contentIndex c key) as [j|] eqn:E; [|discriminate]. injection Hi as <-. cbn.
    rewrite <- (IH values j) by (injection Hlen; auto). reflexivity.
Qed.

Lemma alter_same (c : Content) i key d : c !! i = Some (key, d) -> alter (setDescriptor d) i c = c.
Proof.
  intros H. apply list_eq. intros j. destruct (decide (j = i)) as [->|Hne].
  - rewrite list_lookup_alter_eq, H. reflexivity.
  - rewrite list_lookup_alter_ne by congruence. reflexivity.
Qed.

Lemma slots_alter c values i key d0 d s : Forall2 slot_ok c values -> c !! i = Some (key, d0) ->
  slot_ok (key, d) s -> Forall2 slot_ok (alter (setDescriptor d) i c) (<[i := s]> values).
Proof.
  intros H. revert i. induction H as [|e s0 c values He H IH]; intros i Hi Hs; [discriminate|].
  destruct i as [|i]; cbn in *.
  - injection Hi as ->. constructor; [exact Hs|exact H].
  - constructor; [exact He|]. apply IH; assumption.
Qed.

Lemma slots_put c values i key d s : Forall2 slot_ok c values -> c !! i = Some (key, d) ->
  slot_ok (key, d) s -> Forall2 slot_ok c (<[i := s]> values).
Proof. intros H Hi Hs. rewrite <- (alter_same c i key d Hi). eapply slots_alter; eassumption. Qed.

Lemma slots_delete c values i : Forall2 slot_ok c values -> Forall2 slot_ok (delete i c) (delete i values).
Proof.
  intros H. revert i. induction H as [|e s c values He H IH]; intros i; [constructor|].
  destruct i as [|i]; cbn; [exact H|constructor; [exact He|apply IH]].
Qed.
End Views.

(** ** The operations on one object *)

Section Operations.
Context {heap : Heap} (valid validP : Z -> Prop) (out : Outside) (nameOf : Z -> Z) (nameOfKey : OwnKey -> Z).
Context {Hnames : ObjectNames heap valid validP nameOf nameOfKey}.

Abbreviation Content := (list (PropertyKey * ObjectStructurePropertyDescriptor)).
Abbreviation keyOf P := (propertyKey (nameOf P)).

Definition resultOf (d : ObjectStructurePropertyDescriptor) (s : Slot) : ObjectGetResult :=
  if desc_isDataProperty d
  then DataResult (slotValue s) (desc_isWritable d) (desc_isEnumerable d) (desc_isConfigurable d)
  else AccessorResult (slotGetterSetter s) (desc_isEnumerable d) (desc_isConfigurable d).

Definition resultAt (c : Content) (values : list Slot) (key : PropertyKey) : ObjectGetResult :=
  match contentIndex c key with
  | Some i => match c !! i, values !! i with Some (_, d), Some s => resultOf d s | _, _ => NoProperty end
  | None => NoProperty
  end.

Lemma resultOf_property d s : propertyOfResult (resultOf d s) = Some (propertyOf d s).
Proof. unfold resultOf, propertyOf. destruct (desc_isDataProperty d); reflexivity. Qed.

Lemma resultAt_property c values key : Forall2 slot_ok c values ->
  propertyOfResult (resultAt c values key) = lookupKey (viewOf c values) key.
Proof.
  intros H. pose proof (view_lookup c values key H) as Hv. unfold resultAt.
  destruct (contentIndex c key) as [i|]; [|symmetry; exact Hv].
  destruct Hv as (d & s & -> & -> & _ & ->). apply resultOf_property.
Qed.

(** The items behind the content of an object. *)
Lemma object_items w a o c : wf_world valid w -> object_at w a o c ->
  exists items, live (structures w) (m_structure o) items /\ contentOf items = c /\ wf_items valid plainDesc items.
Proof.
  intros Hw (_ & (items & (s & Hs & Hp) & E) & _). exists items. split_and!; [exists s; auto|exact E|].
  exact (structure_items _ _ _ _ (store_structures _ _ _ (world_store _ _ Hw) _ s items Hs Hp)).
Qed.

Lemma content_plain w a o c i k d : wf_world valid w -> object_at w a o c -> c !! i = Some (k, d) ->
  exists m, d = DescriptorWord m.
Proof.
  intros Hw Ho Hi. destruct (object_items w a o c Hw Ho) as (items & _ & <- & Hit).
  unfold contentOf in Hi. apply list_lookup_fmap_Some in Hi as (item & [= -> ->] & Hit').
  pose proof (proj1 (list.Forall_forall _ _) (items_valid _ _ _ Hit) item (list_elem_of_lookup_2 _ _ _ Hit')) as [_ Hd].
  destruct (m_descriptor item); [eauto|destruct Hd].
Qed.

Lemma hasIndex_run st s items : wf_store valid plainDesc st -> live st s items ->
  hasIndexPropertyName s st = (Ret (anyIndexString items), st).
Proof.
  intros Hst (x & Hx & Hp). unfold hasIndexPropertyName. rewrite (bind_run _ _ _ x st (readStructure_run _ _ _ Hx)).
  rewrite (index_flag _ _ _ _ (store_structures _ _ _ Hst _ x items Hx Hp)). reflexivity.
Qed.

(** An integer name is not found where no name is an index. *)
Lemma uint_absent items P : wf_items valid plainDesc items -> validP P -> isUIntType P = true ->
  anyIndexString items = false -> keyIndex items (keyOf P) = None.
Proof.
  intros Hit HP Hu Hany. apply keyIndex_none. intros Hin. apply in_map_iff in Hin as (item & E & Hin).
  apply list_elem_of_In in Hin. pose proof (anyFlag_false _ _ _ Hany Hin) as H. cbn beta in H.
  rewrite (index_key _ _ E), (name_uint P HP Hu) in H. discriminate.
Qed.

(** What [findProperty] answers on the structure of an object. *)
Lemma find_run w a o c P : wf_world valid w -> object_at w a o c -> validP P ->
  exists found, runS (findProperty (m_structure o) (nameOf P)) w = (Ret found, w) /\
    match contentIndex c (keyOf P) with
    | Some i => exists item, found = Some (i, item) /\ c !! i = Some (keyOf P, m_descriptor item)
    | None => found = None
    end.
Proof.
  intros Hw Ho HP. destruct (object_items w a o c Hw Ho) as (items & Hl & <- & Hit).
  eexists. split.
  - apply runS_read. apply (findProperty_ok valid plainDesc); [apply Hw|exact Hl|]. apply name_valid. exact HP.
  - rewrite <- keyIndex_content. destruct (keyIndex items (keyOf P)) as [i|] eqn:E; [|reflexivity].
    destruct (keyIndex_some items _ i E) as (item & Hi & Ek). exists item. rewrite Hi. split; [reflexivity|].
    unfold contentOf. rewrite list_lookup_fmap, Hi. cbn. rewrite Ek. reflexivity.
Qed.

Lemma getOwn_ok w a o c P : wf_world valid w -> object_at w a o c -> isProxyObject o = false -> validP P ->
  getOwnProperty out nameOf a P w = (Ret (resultAt c (m_values o) (keyOf P)), w).
Proof.
  intros Hw Ho Hprox HP. unfold getOwnProperty. pose proof (proj1 Ho) as Ha.
  rewrite (bind_run _ _ _ o w (readObject_run _ _ _ Ha)), Hprox. unfold Object_getOwnProperty.
  rewrite (bind_run _ _ _ o w (readObject_run _ _ _ Ha)).
  destruct (object_items w a o c Hw Ho) as (items & Hl & Ec & Hit).
  rewrite (bind_run _ _ _ (anyIndexString items) w)
    by (apply runS_read; apply hasIndex_run; [apply Hw|exact Hl]).
  destruct (isUIntType P && negb (anyIndexString items)) eqn:Eu.
  { apply andb_prop in Eu as [Eu En]. apply negb_true_iff in En.
    unfold resultAt. rewrite <- Ec, <- keyIndex_content, (uint_absent items P) by assumption. reflexivity. }
  destruct (find_run w a o c P Hw Ho HP) as (found & E & Hf). rewrite (bind_run _ _ _ found w E).
  unfold resultAt. destruct (contentIndex c (keyOf P)) as [i|] eqn:Ei; [|rewrite Hf; reflexivity].
  destruct Hf as (item & -> & Hi). rewrite Hi.
  destruct (Forall2_lookup_l _ _ _ _ _ (proj2 (proj2 Ho)) Hi) as (s & Hs & _). rewrite Hs.
  rewrite (bind_run _ _ _ s w (orThrow_run _ _ _ _ eq_refl)).
  unfold resultOf. destruct (content_plain w a o c i _ _ Hw Ho Hi) as [m ->].
  destruct (desc_isDataProperty (DescriptorWord m)); reflexivity.
Qed.

(** ** Changes *)

Lemma update_object w a o c o' : wf_world valid w -> object_at w a o c -> m_structure o' = m_structure o ->
  Forall2 slot_ok c (m_values o') ->
  wf_world valid (withObject a o' w) /\ frame a w (withObject a o' w) /\ object_at (withObject a o' w) a o' c.
Proof.
  intros [Hst Hobj Hown] (Ha & Hc & _) E Hs.
  assert (Hself : object_at (withObject a o' w) a o' c).
  { split_and!; [apply lookup_insert_eq|rewrite E; exact Hc|exact Hs]. }
  assert (Hkeep : forall b ob cb, b <> a -> object_at w b ob cb -> object_at (withObject a o' w) b ob cb).
  { intros b ob cb Hb (Hob & H). split; [cbn; rewrite lookup_insert_ne by congruence; exact Hob|exact H]. }
  split_and!; [constructor|constructor|exact Hself].
  - exact Hst.
  - intros b ob Hb. destruct (decide (b = a)) as [->|Hne].
    + cbn in Hb. rewrite lookup_insert_eq in Hb. injection Hb as <-. eauto.
    + cbn in Hb. rewrite lookup_insert_ne in Hb by congruence. destruct (Hobj b ob Hb) as [cb Hcb]. eauto.
  - intros b d ob od Hb Hd Es. cbn in *.
    apply lookup_insert_Some in Hb as [[<- <-]|[Hb0 Hb]]; apply lookup_insert_Some in Hd as [[<- <-]|[Hd0 Hd]]; auto.
    + rewrite E in Es |- *. exact (Hown a d o od Ha Hd Es).
    + rewrite E in Es. exact (Hown b a ob o Hb Ha Es).
    + exact (Hown b d ob od Hb Hd Es).
  - intros b Hb. cbn. apply lookup_insert_ne. congruence.
  - exact Hkeep.
  - auto.
Qed.

Lemma withStructure_same o : withStructure o (m_structure o) = o.
Proof. destruct o. reflexivity. Qed.

(** The object [a] has got the content and the values, and nothing else changed. *)
Record changes (w : World) (a : Z) (o : Object) (c : Content) (values : list Slot) (w' : World) : Prop := {
  changes_wf : wf_world valid w';
  changes_frame : frame a w w';
  changes_flag : m_didSomePrototypeObjectDefineIndexedProperty w' = m_didSomePrototypeObjectDefineIndexedProperty w;
  changes_object : exists r, object_at w' a (withValues (withStructure o r) values) c
}.

Lemma setSlot_ok w a o c i key d s : wf_world valid w -> object_at w a o c -> c !! i = Some (key, d) ->
  slot_ok (key, d) s ->
  exists w', setSlot a i s w = (Ret tt, w') /\ changes w a o c (<[i := s]> (m_values o)) w'.
Proof.
  intros Hw Ho Hi Hs. pose proof (proj1 Ho) as Ha.
  destruct (Forall2_lookup_l _ _ _ _ _ (proj2 (proj2 Ho)) Hi) as (s0 & Hs0 & _).
  unfold setSlot. rewrite (bind_run _ _ _ o w (readObject_run _ _ _ Ha)).
  rewrite (bind_run _ _ _ s0 w (orThrow_run _ _ _ _ Hs0)). eexists. split; [reflexivity|].
  destruct (update_object w a o c (withValues o (<[i := s]> (m_values o))) Hw Ho eq_refl) as (H1 & H2 & H3).
  { cbn. eapply slots_put; [apply Ho|exact Hi|exact Hs]. }
  constructor; [exact H1|exact H2|reflexivity|]. exists (m_structure o). rewrite withStructure_same. exact H3.
Qed.

Lemma toStructure_plain d : plainDesc (toObjectStructurePropertyDescriptor d).
Proof.
  unfold toObjectStructurePropertyDescriptor, createDataDescriptor.
  destruct (m_isDataProperty d); [exact I|]. unfold createAccessorDescriptor. destruct (_ && _); exact I.
Qed.

Lemma slotFor_ok key d : wf_descriptor d -> slot_ok (key, toObjectStructurePropertyDescriptor d) (slotFor d).
Proof.
  intros [_ Hwf]. destruct (toStructure_predicates d) as (_ & _ & _ & H & _). unfold slot_ok, slotFor.
  destruct (m_isDataProperty d); [exact H|]. split; [exact H|exact (Hwf eq_refl)].
Qed.

Lemma addOwn_ok w a o c P desc : wf_world valid w -> object_at w a o c -> validP P -> wf_descriptor desc ->
  contentIndex c (keyOf P) = None ->
  exists w', addOwnProperty a (nameOf P) desc w = (Ret tt, w') /\
    changes w a o (c ++ [(keyOf P, toObjectStructurePropertyDescriptor desc)]) (m_values o ++ [slotFor desc]) w'.
Proof.
  intros Hw Ho HP Hwf Hc. pose proof (proj1 Ho) as Ha. destruct (object_items w a o c Hw Ho) as (items & Hl & Ec & Hit).
  destruct (addProperty_ok valid plainDesc (structures w) (m_structure o) items (nameOf P)
    (toObjectStructurePropertyDescriptor desc) (world_store _ _ Hw) Hl (name_valid P HP) (toStructure_plain desc))
    as (r & st & items' & E & Hop & Ec').
  { rewrite keyIndex_content, Ec. exact Hc. }
  assert (Hs : Forall2 slot_ok (contentOf items') (m_values o ++ [slotFor desc])).
  { rewrite Ec', Ec. apply Forall2_app; [apply Ho|]. constructor; [apply slotFor_ok; exact Hwf|constructor]. }
  destruct (update_ok valid w a o st r items' _ (withValues (withStructure o r) (m_values o ++ [slotFor desc]))
    Hw Ha Hop Hs eq_refl eq_refl) as (H1 & H2 & H3).
  exists (withWorld w st a (withValues (withStructure o r) (m_values o ++ [slotFor desc]))). split.
  - unfold addOwnProperty. rewrite (bind_run _ _ _ o w (readObject_run _ _ _ Ha)).
    rewrite (bind_run _ _ _ r _ (runS_run _ _ _ _ E)).
    rewrite (bind_run _ _ _ tt _ (setStructure_run w st a o r Ha)).
    unfold slotFor. destruct (m_isDataProperty desc); unfold pushSlot;
      rewrite (bind_run _ _ _ _ _ (readObject_run _ _ _ (withWorld_at w st a _)));
      unfold writeObject, modify, withWorld; rewrite withObject_twice; reflexivity.
  - constructor; [exact H1|exact H2|reflexivity|]. exists r. rewrite Ec', Ec in H3. exact H3.
Qed.

(** A new descriptor and a new slot for a property. *)
Lemma replaceOwn_ok w a o c i key d0 d s : wf_world valid w -> object_at w a o c -> c !! i = Some (key, d0) ->
  plainDesc d -> slot_ok (key, d) s ->
  exists r st item, runS (replacePropertyDescriptor (m_structure o) i d) w = (Ret r, withStructures w st) /\
    readProperty r i st = (Ret item, st) /\ m_descriptor item = d /\
    changes w a o (alter (setDescriptor d) i c) (<[i := s]> (m_values o))
      (withWorld w st a (withValues (withStructure o r) (<[i := s]> (m_values o)))).
Proof.
  intros Hw Ho Hi Hd Hs. pose proof (proj1 Ho) as Ha. destruct (object_items w a o c Hw Ho) as (items & Hl & Ec & Hit).
  pose proof Hi as Hi'. rewrite <- Ec in Hi'. unfold contentOf in Hi'. apply list_lookup_fmap_Some in Hi' as (item0 & _ & Hi').
  destruct (replacePropertyDescriptor_ok valid plainDesc (structures w) (m_structure o) items i d (world_store _ _ Hw) Hl
    (lookup_lt_Some _ _ _ Hi') Hd) as (r & st & E & Hop & _).
  assert (Ec' : contentOf (alter (withDescriptor d) i items) = alter (setDescriptor d) i c)
    by (rewrite contentOf_alter, Ec; reflexivity).
  destruct (update_ok valid w a o st r _ (<[i := s]> (m_values o)) (withValues (withStructure o r) (<[i := s]> (m_values o)))
    Hw Ha Hop) as (H1 & H2 & H3); [|reflexivity..|].
  { rewrite Ec'. eapply slots_alter; [apply Ho|exact Hi|exact Hs]. }
  exists r, st, (withDescriptor d item0). split_and!; [apply runS_run; exact E| |reflexivity|].
  - destruct (result_live _ _ _ _ _ _ _ Hop) as (x & Hx & Hp). unfold readProperty.
    rewrite (bind_run _ _ _ x st (readStructure_run _ _ _ Hx)), (bind_run _ _ _ _ _ (propertiesOf_run _ _ _ Hp)).
    apply orThrow_run. rewrite list_lookup_alter_eq, Hi'. reflexivity.
  - constructor; [exact H1|exact H2|reflexivity|]. exists r. rewrite Ec' in H3. exact H3.
Qed.
End Operations.
