(* ===== verification/ObjectDefine.v ===== *)
(** * [DefineOwnProperty] is the operation of the language

    [Object::defineOwnPropertyMethod] is proved to be OrdinaryDefineOwnProperty, that
    is ValidateAndApplyPropertyDescriptor on the list of properties: it accepts and
    rejects the same changes and leaves the same property. *)

From stdpp Require Import gmap.
From S2P Require Import Prelude Value PropertyName PropertyDescriptor ObjectStructure StructureSpec Object ObjectSpec.
Local Open Scope Z_scope.
Local Open Scope esc_scope.

(** ** The fields of the new descriptor *)

Lemma fromStructure_data d s : desc_isDataProperty d = true ->
  m_isDataProperty (fromObjectStructurePropertyDescriptor d s) = true /\
  isValuePresent (fromObjectStructurePropertyDescriptor d s) = true /\
  m_value (fromObjectStructurePropertyDescriptor d s) = slotValue s /\
  descriptorOf (fromObjectStructurePropertyDescriptor d s) =
    {| d_value := Some (slotValue s); d_writable := Some (desc_isWritable d); d_get := None; d_set := None;
       d_enumerable := Some (desc_isEnumerable d); d_configurable := Some (desc_isConfigurable d) |}.
Proof.
  intros E. unfold fromObjectStructurePropertyDescriptor. rewrite E.
  rewrite descriptorOf_setConfigurable, descriptorOf_setEnumerable, descriptorOf_setWritable.
  destruct (desc_isWritable d), (desc_isEnumerable d), (desc_isConfigurable d); split_and!; reflexivity.
Qed.

Lemma fromStructure_accessor d s : desc_isDataProperty d = false ->
  m_isDataProperty (fromObjectStructurePropertyDescriptor d s) = false /\
  isDataDescriptor (fromObjectStructurePropertyDescriptor d s) = false /\
  m_getterSetter (fromObjectStructurePropertyDescriptor d s) = slotGetterSetter s /\
  d_enumerable (descriptorOf (fromObjectStructurePropertyDescriptor d s)) = Some (desc_isEnumerable d) /\
  d_configurable (descriptorOf (fromObjectStructurePropertyDescriptor d s)) = Some (desc_isConfigurable d).
Proof.
  intros E. unfold fromObjectStructurePropertyDescriptor. rewrite E.
  rewrite descriptorOf_setConfigurable, descriptorOf_setEnumerable.
  destruct (desc_isEnumerable d), (desc_isConfigurable d); split_and!; reflexivity.
Qed.

(** A field of the first that is present, or that of the second. *)
Definition orElse {A} (x y : option A) : option A := match x with Some _ => x | None => y end.

Definition keepsKind (f : ObjectPropertyDescriptor -> ObjectPropertyDescriptor) : Prop :=
  forall d, m_isDataProperty (f d) = m_isDataProperty d /\ m_value (f d) = m_value d /\
            m_getterSetter (f d) = m_getterSetter d.

Lemma setEnumerable_keeps b : keepsKind (fun d => setEnumerable d b).
Proof. intros d. destruct b; split_and!; reflexivity. Qed.
Lemma setConfigurable_keeps b : keepsKind (fun d => setConfigurable d b).
Proof. intros d. destruct b; split_and!; reflexivity. Qed.
Lemma setWritable_keeps b : keepsKind (fun d => setWritable d b).
Proof. intros d. destruct b; split_and!; reflexivity. Qed.

(** The two last steps of [applyFields]. *)
Definition applyFlags (newDesc desc : ObjectPropertyDescriptor) : ObjectPropertyDescriptor :=
  let newDesc := if isConfigurablePresent desc then setConfigurable newDesc (isConfigurable desc) else newDesc in
  if isEnumerablePresent desc then setEnumerable newDesc (isEnumerable desc) else newDesc.

Lemma applyFlags_spec nd desc :
  descriptorOf (applyFlags nd desc) =
  {| d_value := d_value (descriptorOf nd); d_writable := d_writable (descriptorOf nd);
     d_get := d_get (descriptorOf nd); d_set := d_set (descriptorOf nd);
     d_enumerable := orElse (d_enumerable (descriptorOf desc)) (d_enumerable (descriptorOf nd));
     d_configurable := orElse (d_configurable (descriptorOf desc)) (d_configurable (descriptorOf nd)) |} /\
  m_isDataProperty (applyFlags nd desc) = m_isDataProperty nd /\ m_value (applyFlags nd desc) = m_value nd /\
  m_getterSetter (applyFlags nd desc) = m_getterSetter nd.
Proof.
  unfold applyFlags. split.
  - change (d_enumerable (descriptorOf desc)) with (presentIf (isEnumerablePresent desc) (isEnumerable desc)).
    change (d_configurable (descriptorOf desc)) with (presentIf (isConfigurablePresent desc) (isConfigurable desc)).
    destruct (isConfigurablePresent desc), (isEnumerablePresent desc); cbn [presentIf orElse];
      rewrite ?descriptorOf_setEnumerable, ?descriptorOf_setConfigurable; reflexivity.
  - destruct (isConfigurablePresent desc), (isEnumerablePresent desc); cbn zeta;
      repeat match goal with
      | |- context [setEnumerable ?d ?b] => destruct (setEnumerable_keeps b d) as (-> & -> & ->)
      | |- context [setConfigurable ?d ?b] => destruct (setConfigurable_keeps b d) as (-> & -> & ->)
      end; auto.
Qed.

Lemma setEnumerable_isData d b : isDataDescriptor (setEnumerable d b) = isDataDescriptor d.
Proof.
  unfold isDataDescriptor, setEnumerable, isValuePresent, isWritablePresent. destruct b; flags;
    rewrite ?andb_true_r, ?orb_false_r; reflexivity.
Qed.
Lemma setConfigurable_isData d b : isDataDescriptor (setConfigurable d b) = isDataDescriptor d.
Proof.
  unfold isDataDescriptor, setConfigurable, isValuePresent, isWritablePresent. destruct b; flags;
    rewrite ?andb_true_r, ?orb_false_r; reflexivity.
Qed.
Lemma applyFlags_isData nd desc : isDataDescriptor (applyFlags nd desc) = isDataDescriptor nd.
Proof.
  unfold applyFlags. destruct (isConfigurablePresent desc), (isEnumerablePresent desc);
    rewrite ?setEnumerable_isData, ?setConfigurable_isData; reflexivity.
Qed.

(** The fields of a property of data. *)
Lemma applyFields_data nd desc : m_isDataProperty nd = true -> isValuePresent nd = true -> m_isDataProperty desc = true ->
  m_isDataProperty (applyFields nd desc) = true /\
  descriptorOf (applyFields nd desc) =
  {| d_value := Some (default (m_value nd) (d_value (descriptorOf desc)));
     d_writable := orElse (d_writable (descriptorOf desc)) (d_writable (descriptorOf nd));
     d_get := None; d_set := None;
     d_enumerable := orElse (d_enumerable (descriptorOf desc)) (d_enumerable (descriptorOf nd));
     d_configurable := orElse (d_configurable (descriptorOf desc)) (d_configurable (descriptorOf nd)) |}.
Proof.
  intros Hd Hv Hk. unfold applyFields, isDataDescriptor. rewrite Hv. cbn [orb negb].
  set (nd1 := if isValuePresent desc then setValue nd (m_value desc) else nd).
  assert (E1 : m_isDataProperty nd1 = true /\ descriptorOf nd1 =
    {| d_value := Some (default (m_value nd) (d_value (descriptorOf desc))); d_writable := d_writable (descriptorOf nd);
       d_get := None; d_set := None; d_enumerable := d_enumerable (descriptorOf nd);
       d_configurable := d_configurable (descriptorOf nd) |}).
  { change (d_value (descriptorOf desc)) with (presentIf (m_isDataProperty desc && isValuePresent desc) (m_value desc)).
    rewrite Hk. subst nd1. destruct (isValuePresent desc); cbn [andb presentIf default]; split; try exact Hd.
    - rewrite descriptorOf_setValue by exact Hd. unfold descriptorOf. cbn [d_get d_set d_writable d_enumerable d_configurable].
      rewrite Hd. reflexivity.
    - unfold descriptorOf. cbn [d_writable d_enumerable d_configurable]. rewrite Hd, Hv. reflexivity. }
  replace (if isValuePresent desc then setValue nd (m_value desc) else if false then setValue nd ValueUndefined else nd)
    with nd1 by reflexivity.
  set (nd2 := if isWritablePresent desc then setWritable nd1 (isWritable desc) else nd1).
  assert (E2 : m_isDataProperty nd2 = true /\ descriptorOf nd2 =
    {| d_value := d_value (descriptorOf nd1); d_writable := orElse (d_writable (descriptorOf desc)) (d_writable (descriptorOf nd1));
       d_get := d_get (descriptorOf nd1); d_set := d_set (descriptorOf nd1); d_enumerable := d_enumerable (descriptorOf nd1);
       d_configurable := d_configurable (descriptorOf nd1) |}).
  { change (d_writable (descriptorOf desc)) with (presentIf (isWritablePresent desc) (isWritable desc)).
    subst nd2. destruct (isWritablePresent desc); cbn [presentIf orElse]; split.
    - rewrite (proj1 (setWritable_keeps (isWritable desc) nd1)). apply E1.
    - apply descriptorOf_setWritable.
    - apply E1.
    - reflexivity. }
  destruct (applyFlags_spec nd2 desc) as (E & Ek & _). unfold applyFlags in E, Ek. cbn zeta in E, Ek.
  split; [exact (eq_trans Ek (proj1 E2))|]. refine (eq_trans E _). rewrite (proj2 E2), (proj2 E1). reflexivity.
Qed.

(** The getter and setter of an accessor, which a generic descriptor leaves. *)
Definition applyGetterSetter (gs : JSGetterSetter) (desc : ObjectPropertyDescriptor) : JSGetterSetter :=
  if isAccessorDescriptor desc then
    let gs := if hasJSGetter desc then withGetter gs (m_getter (m_getterSetter desc)) else gs in
    if hasJSSetter desc then withSetter gs (m_setter (m_getterSetter desc)) else gs
  else gs.

Lemma applyFields_accessor nd desc : m_isDataProperty nd = false -> isDataDescriptor nd = false ->
  m_isDataProperty (applyFields nd desc) = false /\
  m_getterSetter (applyFields nd desc) = applyGetterSetter (m_getterSetter nd) desc /\
  isDataDescriptor (applyFields nd desc) = false /\
  d_enumerable (descriptorOf (applyFields nd desc)) = orElse (d_enumerable (descriptorOf desc)) (d_enumerable (descriptorOf nd)) /\
  d_configurable (descriptorOf (applyFields nd desc))
    = orElse (d_configurable (descriptorOf desc)) (d_configurable (descriptorOf nd)).
Proof.
  intros Hd Hn. unfold applyFields. rewrite Hn.
  set (nd1 := if isAccessorDescriptor desc then _ else nd).
  assert (E1 : m_isDataProperty nd1 = false /\ m_property nd1 = m_property nd /\
               m_getterSetter nd1 = applyGetterSetter (m_getterSetter nd) desc).
  { subst nd1. unfold applyGetterSetter. destruct (isAccessorDescriptor desc), (hasJSGetter desc), (hasJSSetter desc); auto. }
  destruct E1 as (E1 & E2 & E3).
  destruct (applyFlags_spec nd1 desc) as (E & Ek & _ & Eg). unfold applyFlags in E, Ek, Eg. cbn zeta in E, Ek, Eg.
  split_and!.
  - exact (eq_trans Ek E1).
  - exact (eq_trans Eg E3).
  - refine (eq_trans (applyFlags_isData nd1 desc) _).
    unfold isDataDescriptor, isValuePresent, isWritablePresent in *. rewrite E2. exact Hn.
  - refine (eq_trans (f_equal d_enumerable E) _). cbn [d_enumerable]. unfold descriptorOf at 2 4. cbn. unfold isEnumerablePresent, isEnumerable. rewrite E2. reflexivity.
  - refine (eq_trans (f_equal d_configurable E) _). cbn [d_configurable]. unfold descriptorOf at 2 4. cbn. unfold isConfigurablePresent, isConfigurable. rewrite E2. reflexivity.
Qed.

(** ** What the new descriptor stands for *)

(** A descriptor that has all it needs to be the property. *)
Definition full (nd : ObjectPropertyDescriptor) (p : Property) : Prop :=
  isEnumerable nd = p_enumerable p /\ isConfigurable nd = p_configurable p /\
  isDataDescriptor nd = m_isDataProperty nd /\
  match p with
  | DataProperty v w _ _ => m_isDataProperty nd = true /\ m_value nd = v /\ isWritable nd = w
  | AccessorProperty g s _ _ =>
    m_isDataProperty nd = false /\ orUndefined (m_getter (m_getterSetter nd)) = g /\
    orUndefined (m_setter (m_getterSetter nd)) = s /\ hasGetter (m_getterSetter nd) || hasSetter (m_getterSetter nd) = true
  end.

(** The flags that tell whether the structure has to change are there. *)
Definition flagged (nd : ObjectPropertyDescriptor) : Prop :=
  isEnumerablePresent nd = true /\ isConfigurablePresent nd = true /\
  (m_isDataProperty nd = true -> isWritablePresent nd = true).

Lemma default_orElse {A} (a : A) (x y : option A) : default a (orElse x y) = default (default a y) x.
Proof. destruct x; reflexivity. Qed.

Lemma field_writable d b : d_writable (descriptorOf d) = Some b -> isWritablePresent d = true.
Proof. cbn. destruct (isWritablePresent d); [reflexivity|discriminate]. Qed.
Lemma field_enumerable d b : d_enumerable (descriptorOf d) = Some b -> isEnumerablePresent d = true.
Proof. cbn. destruct (isEnumerablePresent d); [reflexivity|discriminate]. Qed.
Lemma field_configurable d b : d_configurable (descriptorOf d) = Some b -> isConfigurablePresent d = true.
Proof. cbn. destruct (isConfigurablePresent d); [reflexivity|discriminate]. Qed.
Lemma field_value d v : d_value (descriptorOf d) = Some v -> m_value d = v /\ isValuePresent d = true.
Proof. cbn. destruct (m_isDataProperty d), (isValuePresent d); intros [= <-]; auto. Qed.

Lemma orElse_some {A} (x y : option A) b : y = Some b -> exists b', orElse x y = Some b'.
Proof. intros ->. destruct x; eexists; reflexivity. Qed.

Lemma applied_data nd desc : m_isDataProperty nd = true -> isValuePresent nd = true -> m_isDataProperty desc = true ->
  let D := descriptorOf desc in
  full (applyFields nd desc)
    (DataProperty (default (m_value nd) (d_value D)) (default (isWritable nd) (d_writable D))
                  (default (isEnumerable nd) (d_enumerable D)) (default (isConfigurable nd) (d_configurable D))) /\
  (forall w e c, d_writable (descriptorOf nd) = Some w -> d_enumerable (descriptorOf nd) = Some e ->
     d_configurable (descriptorOf nd) = Some c -> flagged (applyFields nd desc)).
Proof.
  intros Hd Hv Hk D. destruct (applyFields_data nd desc Hd Hv Hk) as [Ek E]. fold D in E.
  pose proof (f_equal d_value E) as Ev. pose proof (f_equal d_writable E) as Ew.
  pose proof (f_equal d_enumerable E) as Ee. pose proof (f_equal d_configurable E) as Ec.
  cbn [d_value d_writable d_enumerable d_configurable] in Ev, Ew, Ee, Ec.
  apply field_value in Ev as [Ev Evp]. split.
  - unfold full. cbn [p_enumerable p_configurable].
    rewrite <- !default_enumerable, <- !default_configurable, <- !default_writable, Ew, Ee, Ec, !default_orElse.
    split_and!; try reflexivity; [|exact Ek|exact Ev]. unfold isDataDescriptor. rewrite Evp, Ek. reflexivity.
  - intros w e c Hw He Hc. unfold flagged.
    destruct (orElse_some (d_writable D) _ _ Hw) as [w' Hw']. destruct (orElse_some (d_enumerable D) _ _ He) as [e' He'].
    destruct (orElse_some (d_configurable D) _ _ Hc) as [c' Hc']. rewrite Hw' in Ew. rewrite He' in Ee. rewrite Hc' in Ec.
    split_and!; eauto using field_writable, field_enumerable, field_configurable.
Qed.

Lemma applyGetterSetter_spec gs desc :
  orUndefined (m_getter (applyGetterSetter gs desc)) = default (orUndefined (m_getter gs)) (d_get (descriptorOf desc)) /\
  orUndefined (m_setter (applyGetterSetter gs desc)) = default (orUndefined (m_setter gs)) (d_set (descriptorOf desc)).
Proof.
  unfold applyGetterSetter, isAccessorDescriptor. cbn [descriptorOf d_get d_set].
  destruct (m_isDataProperty desc); [split; reflexivity|]. cbn [negb andb].
  destruct (hasJSGetter desc) eqn:Eg; destruct (hasJSSetter desc) eqn:Es; unfold hasJSGetter, hasJSSetter in *;
    cbn [presentIf default withGetter withSetter m_getter m_setter];
    split; try reflexivity; rewrite ?orUndefined_hasGetter, ?orUndefined_hasSetter, ?Eg, ?Es; reflexivity.
Qed.

Lemma applyGetterSetter_filled gs desc : hasGetter gs || hasSetter gs = true ->
  hasGetter (applyGetterSetter gs desc) || hasSetter (applyGetterSetter gs desc) = true.
Proof.
  intros H. unfold applyGetterSetter. destruct (isAccessorDescriptor desc); [|exact H].
  destruct (hasJSGetter desc) eqn:Eg, (hasJSSetter desc) eqn:Es; unfold hasJSGetter, hasJSSetter, hasGetter, hasSetter in *;
    cbn [withGetter withSetter m_getter m_setter]; rewrite ?Eg, ?Es, ?orb_true_r; reflexivity || exact H.
Qed.

Lemma applied_accessor nd desc : m_isDataProperty nd = false -> isDataDescriptor nd = false ->
  hasGetter (m_getterSetter nd) || hasSetter (m_getterSetter nd) = true ->
  let D := descriptorOf desc in
  full (applyFields nd desc)
    (AccessorProperty (default (orUndefined (m_getter (m_getterSetter nd))) (d_get D))
                      (default (orUndefined (m_setter (m_getterSetter nd))) (d_set D))
                      (default (isEnumerable nd) (d_enumerable D)) (default (isConfigurable nd) (d_configurable D))) /\
  (forall e c, d_enumerable (descriptorOf nd) = Some e -> d_configurable (descriptorOf nd) = Some c ->
     flagged (applyFields nd desc)).
Proof.
  intros Hd Hn Hgs D. destruct (applyFields_accessor nd desc Hd Hn) as (Ek & Eg & En & Ee & Ec). fold D in Ee, Ec.
  destruct (applyGetterSetter_spec (m_getterSetter nd) desc) as [Hg Hs]. split.
  - unfold full. cbn [p_enumerable p_configurable].
    rewrite <- !default_enumerable, <- !default_configurable, Ee, Ec, !default_orElse, Eg, Hg, Hs, En, Ek.
    split_and!; try reflexivity. apply applyGetterSetter_filled. exact Hgs.
  - intros e c He Hc. unfold flagged. destruct (orElse_some (d_enumerable D) _ _ He) as [e' He'].
    destruct (orElse_some (d_configurable D) _ _ Hc) as [c' Hc']. rewrite He' in Ee. rewrite Hc' in Ec.
    split_and!; eauto using field_enumerable, field_configurable. congruence.
Qed.

(** ** Validation *)

Lemma isConfigurable_field desc : isConfigurable desc = bool_decide (d_configurable (descriptorOf desc) = Some true).
Proof.
  unfold isConfigurable. cbn [descriptorOf d_configurable]. unfold isConfigurablePresent, isConfigurable.
  destruct (testFlag (m_property desc) ConfigurablePresent), (testFlag (m_property desc) NonConfigurablePresent); reflexivity.
Qed.
Lemma isWritable_field desc : isWritable desc = bool_decide (d_writable (descriptorOf desc) = Some true).
Proof.
  unfold isWritable. cbn [descriptorOf d_writable]. unfold isWritablePresent, isWritable.
  destruct (testFlag (m_property desc) WritablePresent), (testFlag (m_property desc) NonWritablePresent); reflexivity.
Qed.
Lemma enumerable_field desc e :
  isEnumerablePresent desc && negb (Bool.eqb (isEnumerable desc) e)
  = negb (unchanged Bool.eqb (d_enumerable (descriptorOf desc)) e).
Proof. cbn [descriptorOf d_enumerable]. destruct (isEnumerablePresent desc); reflexivity. Qed.

Lemma propertyOf_data d v : desc_isDataProperty d = true ->
  propertyOf d (SlotValue v) = DataProperty v (desc_isWritable d) (desc_isEnumerable d) (desc_isConfigurable d).
Proof. intros E. unfold propertyOf. rewrite E. reflexivity. Qed.
Lemma propertyOf_accessor d gs : desc_isDataProperty d = false ->
  propertyOf d (SlotGetterSetter gs) = AccessorProperty (orUndefined (m_getter gs)) (orUndefined (m_setter gs))
    (desc_isEnumerable d) (desc_isConfigurable d).
Proof. intros E. unfold propertyOf. rewrite E. reflexivity. Qed.

Lemma propertyOf_flags d s : p_configurable (propertyOf d s) = desc_isConfigurable d /\
  p_enumerable (propertyOf d s) = desc_isEnumerable d.
Proof. unfold propertyOf. destruct (desc_isDataProperty d); split; reflexivity. Qed.

Section Define.
Context {heap : Heap} (valid validP : Z -> Prop) (out : Outside) (nameOf : Z -> Z) (nameOfKey : OwnKey -> Z).
Context {Hnames : ObjectNames heap valid validP nameOf nameOfKey}.

(** The two rejections before the validation proper. *)
Lemma early_rejection d s desc :
  negb (desc_isConfigurable d) && isConfigurable desc = true \/
  negb (desc_isConfigurable d) && isEnumerablePresent desc
    && negb (Bool.eqb (isEnumerable desc) (desc_isEnumerable d)) = true ->
  compatible (propertyOf d s) (descriptorOf desc) = false.
Proof.
  destruct (propertyOf_flags d s) as [Ec Ee]. unfold compatible. rewrite Ec, Ee, isConfigurable_field, <- andb_assoc, enumerable_field.
  destruct (desc_isConfigurable d); cbn [negb andb]; [intros [[=]|[=]]|].
  destruct (bool_decide (d_configurable (descriptorOf desc) = Some true)); [reflexivity|].
  intros [[=]| ->]. reflexivity.
Qed.

(** The outcome of the validation. *)
Definition validated (p : Property) (d : ObjectStructurePropertyDescriptor) (s : Slot) (desc : ObjectPropertyDescriptor)
    (checked : option (ObjectPropertyDescriptor * bool)) : Prop :=
  match checked with
  | None => compatible p (descriptorOf desc) = false
  | Some (nd, shouldDelete) =>
    compatible p (descriptorOf desc) = true /\
    full (applyFields nd desc) (applyDescriptor p (descriptorOf desc)) /\
    (shouldDelete = false -> flagged (applyFields nd desc) /\
       m_isDataProperty (applyFields nd desc) = desc_isDataProperty d /\
       (m_isDataProperty (applyFields nd desc) = true -> isValuePresent desc = false ->
        m_value (applyFields nd desc) = slotValue s))
  end.

Lemma full_kind nd v w e c : full nd (DataProperty v w e c) -> m_isDataProperty nd = true /\ m_value nd = v.
Proof. intros (_ & _ & _ & H1 & H2 & _). auto. Qed.

(** The descriptor made of the property itself, where the kind stays. *)
Lemma same_kind key d s desc : slot_ok (key, d) s -> wf_descriptor desc ->
  (desc_isDataProperty d = true -> m_isDataProperty desc = true) ->
  (desc_isDataProperty d = false -> IsData (descriptorOf desc) = false) ->
  compatible (propertyOf d s) (descriptorOf desc) = true ->
  validated (propertyOf d s) d s desc (Some (fromObjectStructurePropertyDescriptor d s, false)).
Proof.
  intros Hs Hwf Hk1 Hk2 Hc. split; [exact Hc|]. pose proof (IsAccessor_descriptorOf desc Hwf) as Ha.
  destruct s as [v|gs]; cbn in Hs; [|destruct Hs as [Hs Hgs]].
  - destruct (fromStructure_data d (SlotValue v) Hs) as (H1 & H2 & H3 & H4). specialize (Hk1 Hs).
    destruct (applied_data _ desc H1 H2 Hk1) as [Hf Hfl].
    rewrite H3, <- default_writable, <- default_enumerable, <- default_configurable, H4 in Hf. cbn in Hf.
    rewrite propertyOf_data by exact Hs. unfold applyDescriptor. rewrite Ha, Hk1. cbn [negb p_enumerable p_configurable].
    split; [exact Hf|]. intros _. destruct (full_kind _ _ _ _ _ Hf) as [Hd Hv].
    split_and!; [|congruence|].
    + rewrite H4 in Hfl. cbn in Hfl. eapply Hfl; reflexivity.
    + intros _ Hp. rewrite Hv. cbn [slotValue]. rewrite Hp, andb_false_r. reflexivity.
  - destruct (fromStructure_accessor d (SlotGetterSetter gs) Hs) as (H1 & H2 & H3 & H4 & H5).
    destruct (applied_accessor _ desc H1 H2 ltac:(rewrite H3; exact Hgs)) as [Hf Hfl].
    rewrite H3, <- default_enumerable, <- default_configurable, H4, H5 in Hf. cbn [slotGetterSetter default] in Hf.
    rewrite propertyOf_accessor by exact Hs. unfold applyDescriptor. rewrite (Hk2 Hs). cbn [p_enumerable p_configurable].
    split; [exact Hf|]. intros _. assert (Hd : m_isDataProperty (applyFields (fromObjectStructurePropertyDescriptor d (SlotGetterSetter gs)) desc) = false)
      by apply Hf.
    split_and!; [eapply Hfl; eassumption|congruence|congruence].
Qed.

(** The descriptor made where the kind changes. *)
Lemma other_kind key d s desc (f := Z.lor (if desc_isConfigurable d then ConfigurablePresent else NonConfigurablePresent)
    (if desc_isEnumerable d then EnumerablePresent else NonEnumerablePresent)) : slot_ok (key, d) s -> wf_descriptor desc ->
  isGenericDescriptor desc = false -> desc_isDataProperty d <> isDataDescriptor desc -> desc_isConfigurable d = true ->
  validated (propertyOf d s) d s desc
    (if desc_isDataProperty d then Some (accessorDescriptor (m_getterSetter desc) f, true)
     else Some (dataDescriptor (if isValuePresent desc then m_value desc else ValueUndefined) f, true)).
Proof.
  intros Hs Hwf Hg Hk Hc. pose proof (IsAccessor_descriptorOf desc Hwf) as Ha. pose proof (IsData_descriptorOf desc Hwf) as Hd.
  assert (Hcomp : compatible (propertyOf d s) (descriptorOf desc) = true)
    by (unfold compatible; rewrite (proj1 (propertyOf_flags d s)), Hc; reflexivity).
  unfold isGenericDescriptor, isAccessorDescriptor in Hg. rewrite negb_involutive in Hg.
  apply slot_kind in Hs. destruct s as [v|gs]; cbn in Hs; rewrite Hs in *.
  - assert (Hdd : isDataDescriptor desc = false) by (destruct (isDataDescriptor desc); congruence).
    rewrite Hdd in Hg. cbn [negb andb] in Hg. rewrite Hg in Ha. cbn [negb] in Ha.
    assert (Hnd : forall a b : bool, let nd := accessorDescriptor (m_getterSetter desc)
        (Z.lor (if a then ConfigurablePresent else NonConfigurablePresent) (if b then EnumerablePresent else NonEnumerablePresent)) in
        isDataDescriptor nd = false /\ isEnumerable nd = b /\ isConfigurable nd = a)
      by (intros [] []; split_and!; reflexivity).
    destruct (Hnd (desc_isConfigurable d) (desc_isEnumerable d)) as (N1 & N2 & N3). fold f in N1, N2, N3.
    destruct (applied_accessor (accessorDescriptor (m_getterSetter desc) f) desc eq_refl N1 (proj2 Hwf Hg)) as [Hf _].
    rewrite N2, N3 in Hf. cbn [accessorDescriptor m_getterSetter] in Hf.
    split; [exact Hcomp|]. split; [|discriminate].
    rewrite propertyOf_data by exact Hs. unfold applyDescriptor. rewrite Ha. cbn [p_enumerable p_configurable].
    assert (Eg : default (orUndefined (m_getter (m_getterSetter desc))) (d_get (descriptorOf desc)) =
                 default ValueUndefined (d_get (descriptorOf desc)) /\
                 default (orUndefined (m_setter (m_getterSetter desc))) (d_set (descriptorOf desc)) =
                 default ValueUndefined (d_set (descriptorOf desc))).
    { cbn [descriptorOf d_get d_set]. rewrite Hg, orUndefined_hasGetter, orUndefined_hasSetter. unfold hasJSGetter, hasJSSetter.
      cbn [negb andb]. destruct (hasGetter (m_getterSetter desc)), (hasSetter (m_getterSetter desc)); split; reflexivity. }
    destruct Eg as [Eg Es]. rewrite Eg, Es in Hf. exact Hf.
  - assert (Hdd : isDataDescriptor desc = true) by (destruct (isDataDescriptor desc); congruence).
    assert (Hm : m_isDataProperty desc = true).
    { destruct (m_isDataProperty desc) eqn:E; [reflexivity|]. rewrite (isDataDescriptor_accessor desc Hwf E) in Hdd. discriminate. }
    set (v := if isValuePresent desc then m_value desc else ValueUndefined).
    assert (Hnd : forall a b : bool, let nd := dataDescriptor v
        (Z.lor (if a then ConfigurablePresent else NonConfigurablePresent) (if b then EnumerablePresent else NonEnumerablePresent)) in
        isValuePresent nd = true /\ isWritable nd = false /\ isEnumerable nd = b /\ isConfigurable nd = a)
      by (intros [] []; split_and!; reflexivity).
    destruct (Hnd (desc_isConfigurable d) (desc_isEnumerable d)) as (N1 & N2 & N3 & N4). fold f in N1, N2, N3, N4.
    destruct (applied_data (dataDescriptor v f) desc eq_refl N1 Hm) as [Hf _]. rewrite N2, N3, N4 in Hf.
    cbn [dataDescriptor m_value] in Hf.
    split; [exact Hcomp|]. split; [|discriminate].
    rewrite propertyOf_accessor by exact Hs. unfold applyDescriptor. rewrite Hd, Hdd. cbn [p_enumerable p_configurable].
    assert (Ev : default v (d_value (descriptorOf desc)) = default ValueUndefined (d_value (descriptorOf desc))).
    { cbn [descriptorOf d_value]. rewrite Hm. subst v. cbn [andb]. destruct (isValuePresent desc); reflexivity. }
    rewrite Ev in Hf. exact Hf.
Qed.

(** ** The run *)

Lemma slotAt_run w a o c i s : object_at w a o c -> m_values o !! i = Some s -> slotAt a i w = (Ret s, w).
Proof.
  intros Ho Hs. unfold slotAt. rewrite (bind_run _ _ _ o w (readObject_run _ _ _ (proj1 Ho))). apply orThrow_run. exact Hs.
Qed.

Lemma readProperty_run w a o c i k d : wf_world valid w -> object_at w a o c -> c !! i = Some (k, d) ->
  exists item, runS (readProperty (m_structure o) i) w = (Ret item, w) /\ m_descriptor item = d.
Proof.
  intros Hw Ho Hi. destruct (object_items valid w a o c Hw Ho) as (items & (x & Hx & Hp) & Ec & _).
  rewrite <- Ec in Hi. unfold contentOf in Hi. apply list_lookup_fmap_Some in Hi as (item & [= _ ->] & Hit).
  exists item. split; [|reflexivity]. apply runS_read. unfold readProperty.
  rewrite (bind_run _ _ _ x _ (readStructure_run _ _ _ Hx)), (bind_run _ _ _ _ _ (propertiesOf_run _ _ _ Hp)).
  apply orThrow_run. exact Hit.
Qed.

Lemma getOwnData_run w a o c i k d s receiver : wf_world valid w -> object_at w a o c -> c !! i = Some (k, d) ->
  m_values o !! i = Some s -> getOwnDataPropertyUtilForObject out a i receiver w = (Ret (slotValue s), w).
Proof.
  intros Hw Ho Hi Hs. unfold getOwnDataPropertyUtilForObject.
  rewrite (bind_run _ _ _ o w (readObject_run _ _ _ (proj1 Ho))).
  destruct (readProperty_run w a o c i k d Hw Ho Hi) as (item & E & Ed). rewrite (bind_run _ _ _ item w E).
  rewrite (bind_run _ _ _ s w (slotAt_run w a o c i s Ho Hs)).
  destruct (content_plain valid w a o c i k d Hw Ho Hi) as [m ->]. rewrite Ed. reflexivity.
Qed.

Lemma generic_compatible d s desc : wf_descriptor desc -> isGenericDescriptor desc = true ->
  negb (desc_isConfigurable d) && isConfigurable desc = false ->
  negb (desc_isConfigurable d) && isEnumerablePresent desc
    && negb (Bool.eqb (isEnumerable desc) (desc_isEnumerable d)) = false ->
  compatible (propertyOf d s) (descriptorOf desc) = true.
Proof.
  intros Hwf Hg H1 H2. destruct (propertyOf_flags d s) as [Ec Ee]. unfold compatible. rewrite Ec, Ee.
  rewrite isConfigurable_field in H1. rewrite <- andb_assoc, enumerable_field in H2.
  destruct (desc_isConfigurable d); [reflexivity|]. cbn [negb andb] in H1, H2. rewrite H1, H2.
  rewrite IsAccessor_descriptorOf, IsData_descriptorOf by exact Hwf. unfold isGenericDescriptor, isAccessorDescriptor in Hg.
  rewrite andb_comm, Hg. reflexivity.
Qed.

(** Past the early rejections, what is left of the comparison of two data or two
    accessor properties. *)
Lemma compatible_data d v desc : desc_isDataProperty d = true -> wf_descriptor desc -> isDataDescriptor desc = true ->
  negb (desc_isConfigurable d) && isConfigurable desc = false ->
  negb (desc_isConfigurable d) && isEnumerablePresent desc
    && negb (Bool.eqb (isEnumerable desc) (desc_isEnumerable d)) = false ->
  compatible (propertyOf d (SlotValue v)) (descriptorOf desc) =
  (desc_isConfigurable d || desc_isWritable d ||
   negb (isWritable desc) && negb (isValuePresent desc && negb (equalsToByTheSameValueAlgorithm (m_value desc) v))).
Proof.
  intros Hd Hwf Hdd H1 H2. rewrite propertyOf_data by exact Hd. unfold compatible. cbn [p_configurable p_enumerable].
  rewrite isConfigurable_field in H1. rewrite <- andb_assoc, enumerable_field in H2.
  destruct (desc_isConfigurable d); [reflexivity|]. cbn [negb andb orb] in *. rewrite H1, H2.
  assert (Hm : m_isDataProperty desc = true).
  { destruct (m_isDataProperty desc) eqn:E; [reflexivity|]. rewrite (isDataDescriptor_accessor desc Hwf E) in Hdd. discriminate. }
  rewrite IsAccessor_descriptorOf, IsData_descriptorOf, Hdd, Hm by exact Hwf. cbn [negb andb].
  rewrite <- isWritable_field. cbn [descriptorOf d_value]. rewrite Hm.
  destruct (desc_isWritable d); [reflexivity|]. destruct (isWritable desc), (isValuePresent desc); cbn; rewrite ?negb_involutive; reflexivity.
Qed.

Lemma compatible_accessor d gs desc : desc_isDataProperty d = false -> wf_descriptor desc ->
  isDataDescriptor desc = false -> isGenericDescriptor desc = false ->
  negb (desc_isConfigurable d) && isConfigurable desc = false ->
  negb (desc_isConfigurable d) && isEnumerablePresent desc
    && negb (Bool.eqb (isEnumerable desc) (desc_isEnumerable d)) = false ->
  compatible (propertyOf d (SlotGetterSetter gs)) (descriptorOf desc) =
  (desc_isConfigurable d ||
   negb (hasJSSetter desc && negb (m_setter (m_getterSetter desc) =? (if hasSetter gs then m_setter gs else ValueUndefined)))
   && negb (hasJSGetter desc && negb (m_getter (m_getterSetter desc) =? (if hasGetter gs then m_getter gs else ValueUndefined)))).
Proof.
  intros Hd Hwf Hdd Hg H1 H2. rewrite propertyOf_accessor by exact Hd. unfold compatible. cbn [p_configurable p_enumerable].
  rewrite isConfigurable_field in H1. rewrite <- andb_assoc, enumerable_field in H2.
  destruct (desc_isConfigurable d); [reflexivity|]. cbn [negb andb orb] in *. rewrite H1, H2.
  unfold isGenericDescriptor, isAccessorDescriptor in Hg. rewrite Hdd, negb_involutive in Hg. cbn [negb andb] in Hg.
  rewrite IsAccessor_descriptorOf, IsData_descriptorOf, Hdd, Hg by exact Hwf. cbn [negb andb].
  rewrite orUndefined_hasGetter, orUndefined_hasSetter. cbn [descriptorOf d_get d_set]. rewrite Hg. cbn [negb andb].
  destruct (hasJSGetter desc), (hasJSSetter desc); cbn; rewrite ?negb_involutive, ?andb_true_r; auto using andb_comm.
Qed.

Lemma compatible_other_kind d s desc key : slot_ok (key, d) s -> wf_descriptor desc -> isGenericDescriptor desc = false ->
  desc_isDataProperty d <> isDataDescriptor desc -> desc_isConfigurable d = false ->
  compatible (propertyOf d s) (descriptorOf desc) = false.
Proof.
  intros Hs Hwf Hg Hk Hc. destruct (propertyOf_flags d s) as [Ec _]. unfold compatible. rewrite Ec, Hc.
  destruct (bool_decide _); [reflexivity|]. destruct (negb (unchanged _ _ _)); [reflexivity|].
  rewrite IsAccessor_descriptorOf, IsData_descriptorOf by exact Hwf.
  unfold isGenericDescriptor, isAccessorDescriptor in Hg. rewrite andb_comm, Hg.
  apply slot_kind in Hs. destruct s as [v|gs]; cbn in Hs; rewrite Hs in Hk.
  - rewrite propertyOf_data by exact Hs. destruct (isDataDescriptor desc); [contradiction|].
    rewrite negb_involutive in Hg. cbn [negb andb] in Hg. rewrite Hg. reflexivity.
  - rewrite propertyOf_accessor by exact Hs. destruct (isDataDescriptor desc); [reflexivity|contradiction].
Qed.

Lemma validate_ok w a o c i key d s desc : wf_world valid w -> object_at w a o c -> c !! i = Some (key, d) ->
  m_values o !! i = Some s -> slot_ok (key, d) s -> wf_descriptor desc ->
  negb (desc_isConfigurable d) && isConfigurable desc = false ->
  negb (desc_isConfigurable d) && isEnumerablePresent desc
    && negb (Bool.eqb (isEnumerable desc) (desc_isEnumerable d)) = false ->
  exists checked, validateRedefinition out a i d s desc w = (Ret checked, w) /\ validated (propertyOf d s) d s desc checked.
Proof.
  intros Hw Ho Hi Hs Hok Hwf H1 H2. unfold validateRedefinition.
  pose proof (IsData_descriptorOf desc Hwf) as HD.
  assert (Hm : isDataDescriptor desc = true -> m_isDataProperty desc = true).
  { intros E. destruct (m_isDataProperty desc) eqn:Em; [reflexivity|]. rewrite (isDataDescriptor_accessor desc Hwf Em) in E. discriminate. }
  destruct (isGenericDescriptor desc) eqn:Eg.
  { eexists. split; [reflexivity|]. unfold isGenericDescriptor, isAccessorDescriptor in Eg.
    rewrite negb_involutive in Eg. pose proof Eg as Eg'. apply andb_prop in Eg' as [E1 E2]. eapply same_kind; try eassumption.
    - auto.
    - intros _. rewrite HD. apply negb_true_iff. exact E1.
    - apply generic_compatible; try assumption. unfold isGenericDescriptor, isAccessorDescriptor. rewrite negb_involutive. exact Eg. }
  destruct (Bool.eqb (desc_isDataProperty d) (isDataDescriptor desc)) eqn:Ek; cbn [negb].
  2: { assert (Hne : desc_isDataProperty d <> isDataDescriptor desc) by (intros E; rewrite E, eqb_reflx in Ek; discriminate).
    destruct (desc_isConfigurable d) eqn:Ec; cbn [negb].
    - eexists. split; [|eapply other_kind; eassumption]. destruct (desc_isDataProperty d); rewrite Ec; reflexivity.
    - exists None. split; [reflexivity|]. eapply compatible_other_kind; eassumption. }
  apply eqb_prop in Ek.
  assert (Hsame : compatible (propertyOf d s) (descriptorOf desc) = true ->
            validated (propertyOf d s) d s desc (Some (fromObjectStructurePropertyDescriptor d s, false))).
  { intros Hc. eapply same_kind; try eassumption; [rewrite Ek; exact Hm|rewrite HD, Ek; auto]. }
  apply slot_kind in Hok. destruct s as [v|gs]; cbn in Hok; rewrite Hok in Ek |- *; rewrite <- Ek; cbn [andb].
  - pose proof (compatible_data d v desc Hok Hwf (eq_sym Ek) H1 H2) as Hcomp.
    destruct (desc_isConfigurable d); cbn [negb]; [eexists; split; [reflexivity|exact (Hsame Hcomp)]|].
    destruct (desc_isWritable d); cbn [negb andb orb] in *; [eexists; split; [reflexivity|exact (Hsame Hcomp)]|].
    destruct (isWritable desc); cbn [negb andb] in *; [exists None; split; [reflexivity|exact Hcomp]|].
    destruct (isValuePresent desc); cbn [negb andb] in *; [|eexists; split; [reflexivity|exact (Hsame Hcomp)]].
    rewrite (bind_run _ _ _ v w (getOwnData_run w a o c i key d _ _ Hw Ho Hi Hs)).
    destruct (equalsToByTheSameValueAlgorithm (m_value desc) v); cbn [negb] in *; eexists; (split; [reflexivity|]);
      [exact (Hsame Hcomp)|exact Hcomp].
  - pose proof (compatible_accessor d gs desc Hok Hwf (eq_sym Ek) Eg H1 H2) as Hcomp.
    destruct (desc_isConfigurable d); cbn [negb orb] in *; [eexists; split; [reflexivity|exact (Hsame Hcomp)]|].
    rewrite (bind_run _ _ _ _ w (slotAt_run w a o c i _ Ho Hs)). cbn [slotGetterSetter].
    destruct (hasJSSetter desc && _); cbn [negb andb] in *; [exists None; split; [reflexivity|exact Hcomp]|].
    destruct (hasJSGetter desc && _); cbn [negb] in *; eexists; (split; [reflexivity|]); [exact Hcomp|exact (Hsame Hcomp)].
Qed.

(** The new slot and descriptor of a full new descriptor. *)
Lemma full_property nd p s : full nd p ->
  (m_isDataProperty nd = true -> s = SlotValue (m_value nd)) ->
  (m_isDataProperty nd = false -> s = SlotGetterSetter (m_getterSetter nd)) ->
  propertyOf (toObjectStructurePropertyDescriptor nd) s = p /\
  (forall key, slot_ok (key, toObjectStructurePropertyDescriptor nd) s).
Proof.
  intros (He & Hc & _ & Hp) H1 H2. destruct (toStructure_predicates nd) as (Sw & Se & Sc & Sd & _).
  unfold propertyOf, slot_ok. rewrite Sd, Sw, Se, Sc, He, Hc. cbn [snd].
  destruct p as [v wr e cf|g st e cf].
  - destruct Hp as (Hd & Hx & Hy). rewrite Hd in *. rewrite (H1 eq_refl). cbn. rewrite Hx, Hy. auto.
  - destruct Hp as (Hd & Hx & Hy & Hgs). rewrite Hd in *. rewrite (H2 eq_refl). cbn. rewrite Hx, Hy. auto.
Qed.

(** Where no attribute changes the structure already tells the property. *)
Lemma unchanged_attributes nd d p s key : full nd p -> flagged nd -> attributesChange nd d = false ->
  m_isDataProperty nd = desc_isDataProperty d -> slot_ok (key, d) s ->
  (m_isDataProperty nd = true -> slotValue s = m_value nd) ->
  (m_isDataProperty nd = false -> slotGetterSetter s = m_getterSetter nd) ->
  propertyOf d s = p.
Proof.
  intros (He & Hc & Hdd & Hp) (F1 & F2 & F3) Hch Hk Hs H1 H2.
  unfold attributesChange in Hch. rewrite Hdd, F1, F2 in Hch. cbn [andb] in Hch.
  destruct (m_isDataProperty nd && isWritablePresent nd && negb (Bool.eqb (isWritable nd) (desc_isWritable d))) eqn:Ew; [discriminate|].
  destruct (Bool.eqb (isEnumerable nd) (desc_isEnumerable d)) eqn:Ee; [|discriminate]. apply eqb_prop in Ee.
  cbn [negb] in Hch. apply negb_false_iff, eqb_prop in Hch.
  unfold propertyOf. rewrite <- Hk, <- Ee, <- Hch, He, Hc.
  destruct p as [v wr e cf|g st e cf].
  - destruct Hp as (Hd & Hx & Hy). rewrite Hd in *. rewrite (F3 eq_refl) in Ew. cbn [andb] in Ew. apply negb_false_iff, eqb_prop in Ew.
    rewrite (H1 eq_refl), Hx, <- Ew, Hy. reflexivity.
  - destruct Hp as (Hd & Hx & Hy & _). rewrite Hd in *. rewrite (H2 eq_refl), Hx, Hy. reflexivity.
Qed.

(** ** Committing the change *)

Lemma changes_refl w a o c : wf_world valid w -> object_at w a o c -> changes valid w a o c (m_values o) w.
Proof.
  intros Hw Ho. constructor; [exact Hw|apply frame_refl|reflexivity|]. exists (m_structure o).
  replace (withValues (withStructure o (m_structure o)) (m_values o)) with o by (destruct o; reflexivity). exact Ho.
Qed.

(** The new slot. *)
Definition newSlot (nd : ObjectPropertyDescriptor) : Slot :=
  if m_isDataProperty nd then SlotValue (m_value nd) else SlotGetterSetter (m_getterSetter nd).

Lemma commit_value w a o c i item key d s desc nd p : wf_world valid w -> object_at w a o c -> c !! i = Some (key, d) ->
  contentIndex c key = Some i -> m_values o !! i = Some s -> slot_ok (key, d) s -> m_descriptor item = d ->
  full nd p -> flagged nd -> attributesChange nd d = false -> m_isDataProperty nd = desc_isDataProperty d ->
  (m_isDataProperty nd = true -> isValuePresent desc = false -> m_value nd = slotValue s) ->
  exists w' values, commitRedefinition out a i item nd desc false w = (Ret true, w') /\
    changes valid w a o c values w' /\ viewOf c values = putKey (viewOf c (m_values o)) key p.
Proof.
  intros Hw Ho Hi Hix Hs Hok Ed Hf Hfl Hch Hk Hv.
  assert (Hput : forall s', slot_ok (key, d) s' -> (m_isDataProperty nd = true -> slotValue s' = m_value nd) ->
      (m_isDataProperty nd = false -> slotGetterSetter s' = m_getterSetter nd) ->
      viewOf c (<[i := s']> (m_values o)) = putKey (viewOf c (m_values o)) key p).
  { intros s' Hok' H1 H2. rewrite <- (unchanged_attributes nd d p s' key Hf Hfl Hch Hk Hok' H1 H2).
    rewrite <- (view_put c (m_values o) key i d s') by (exact (content_length _ _ (proj2 (proj2 Ho))) || exact Hix).
    rewrite (alter_same c i key d Hi). reflexivity. }
  assert (Hnew : slot_ok (key, d) (newSlot nd)).
  { unfold newSlot. destruct (m_isDataProperty nd) eqn:En; cbn; [congruence|]. split; [congruence|].
    destruct Hf as (_ & _ & _ & Hp). destruct p; destruct Hp; [congruence|tauto]. }
  assert (Hset : exists w', setSlot a i (newSlot nd) w = (Ret tt, w') /\ changes valid w a o c (<[i := newSlot nd]> (m_values o)) w' /\
      viewOf c (<[i := newSlot nd]> (m_values o)) = putKey (viewOf c (m_values o)) key p).
  { destruct (setSlot_ok valid w a o c i key d _ Hw Ho Hi Hnew) as (w' & E & Hc). exists w'. split_and!; [exact E|exact Hc|].
    apply Hput; [exact Hnew| |]; unfold newSlot; intros ->; reflexivity. }
  unfold commitRedefinition. cbn [negb]. destruct Hf as (_ & _ & Hdd & _). rewrite Hdd.
  destruct (content_plain valid w a o c i key d Hw Ho Hi) as [m Em].
  destruct (m_isDataProperty nd) eqn:Emd; unfold newSlot in Hset; rewrite Emd in Hset.
  - destruct (isValuePresent desc) eqn:Ep.
    + destruct Hset as (w' & E & Hc & Hview). exists w', (<[i := SlotValue (m_value nd)]> (m_values o)).
      unfold setOwnDataPropertyUtilForObjectInner. rewrite Ed, Em, (bind_run _ _ _ tt w' E). auto.
    + exists w, (m_values o). split_and!; [reflexivity|apply changes_refl; assumption|].
      rewrite <- (Hput s Hok); [rewrite list_insert_id by exact Hs; reflexivity| |congruence].
      intros _. symmetry. apply Hv; reflexivity.
  - destruct Hset as (w' & E & Hc & Hview). exists w', (<[i := SlotGetterSetter (m_getterSetter nd)]> (m_values o)).
    rewrite (bind_run _ _ _ tt w' E). auto.
Qed.

Lemma commit_descriptor w a o c i item key d s desc nd p : wf_world valid w -> object_at w a o c -> c !! i = Some (key, d) ->
  contentIndex c key = Some i -> m_values o !! i = Some s -> m_descriptor item = d -> full nd p ->
  exists w' c' values, commitRedefinition out a i item nd desc true w = (Ret true, w') /\
    changes valid w a o c' values w' /\ viewOf c' values = putKey (viewOf c (m_values o)) key p.
Proof.
  intros Hw Ho Hi Hix Hs Ed Hf. pose proof (proj1 Ho) as Ha.
  destruct (full_property nd p (newSlot nd) Hf) as [Hprop Hok];
    [unfold newSlot; intros ->; reflexivity|unfold newSlot; intros ->; reflexivity|].
  destruct (replaceOwn_ok valid w a o c i key d (toObjectStructurePropertyDescriptor nd) (newSlot nd) Hw Ho Hi
    (toStructure_plain nd) (Hok key)) as (r & st & item' & E & Er & Ed' & Hc).
  eexists _, _, _. split; [|split; [exact Hc|]].
  2: { rewrite <- Hprop. apply view_put; [exact (content_length _ _ (proj2 (proj2 Ho)))|exact Hix]. }
  destruct (content_plain valid w a o c i key d Hw Ho Hi) as [m Em].
  assert (Hset : setSlot a i (newSlot nd) (withWorld w st a (withStructure o r)) =
    (Ret tt, withWorld w st a (withValues (withStructure o r) (<[i := newSlot nd]> (m_values o))))).
  { unfold setSlot. rewrite (bind_run _ _ _ _ _ (readObject_run _ _ _ (withWorld_at w st a _))).
    cbn [withStructure m_values]. rewrite (bind_run _ _ _ s _ (orThrow_run _ _ _ _ Hs)).
    unfold writeObject, modify, withWorld. rewrite withObject_twice. reflexivity. }
  unfold commitRedefinition. cbn [negb]. rewrite Ed, Em.
  rewrite bind_ret, (bind_run _ _ _ o w (readObject_run _ _ _ Ha)), (bind_run _ _ _ r _ E).
  rewrite (bind_run _ _ _ tt _ (setStructure_run w st a o r Ha)).
  destruct Hf as (_ & _ & Hdd & _). rewrite Hdd. unfold newSlot in *. destruct (m_isDataProperty nd).
  - rewrite (bind_run _ _ _ item' (withWorld w st a (withStructure o r))) by (apply runS_read; exact Er).
    unfold setOwnDataPropertyUtilForObjectInner. pose proof (toStructure_plain nd) as Hpl. rewrite <- Ed' in Hpl.
    destruct (m_descriptor item'); [|destruct Hpl]. rewrite (bind_run _ _ _ tt _ Hset). reflexivity.
  - rewrite (bind_run _ _ _ tt _ Hset). reflexivity.
Qed.

(** ** The method *)

Lemma define_ok w a o c P desc : wf_world valid w -> object_at w a o c -> isProxyObject o = false -> validP P ->
  wf_descriptor desc ->
  exists b w', defineOwnPropertyMethod out nameOf a P desc w = (Ret b, w') /\
    match ValidateAndApply (m_isExtensible o) (lookupKey (viewOf c (m_values o)) (propertyKey (nameOf P))) (descriptorOf desc) with
    | None => b = false /\ w' = w
    | Some p => b = true /\ exists c' values, changes valid w a o c' values w' /\
        viewOf c' values = putKey (viewOf c (m_values o)) (propertyKey (nameOf P)) p
    end.
Proof.
  intros Hw Ho Hprox HP Hwf. pose proof (proj1 Ho) as Ha. unfold defineOwnPropertyMethod.
  rewrite (bind_run _ _ _ o w (readObject_run _ _ _ Ha)).
  destruct (find_run valid validP nameOf nameOfKey w a o c P Hw Ho HP) as (found & E & Hf).
  rewrite (bind_run _ _ _ found w E).
  pose proof (view_lookup c (m_values o) (propertyKey (nameOf P)) (proj2 (proj2 Ho))) as Hlook.
  destruct (contentIndex c (propertyKey (nameOf P))) as [i|] eqn:Hix.
  - destruct Hlook as (d & s & Hi & Hs & Hok & ->). destruct Hf as (item & -> & Hi').
    assert (Ed : m_descriptor item = d) by congruence. rewrite Ed. cbn [ValidateAndApply].
    destruct (negb (desc_isConfigurable d) && isConfigurable desc) eqn:H1.
    { rewrite (early_rejection d s desc) by auto. eauto. }
    destruct (negb (desc_isConfigurable d) && isEnumerablePresent desc
              && negb (Bool.eqb (isEnumerable desc) (desc_isEnumerable d))) eqn:H2.
    { rewrite (early_rejection d s desc) by auto. eauto. }
    destruct (content_plain valid w a o c i _ d Hw Ho Hi) as [m Em].
    replace (desc_isNativeAccessorProperty d) with false
      by (rewrite Em; unfold desc_isNativeAccessorProperty; cbn; rewrite land_64; destruct (testFlag m 64); reflexivity).
    rewrite (bind_run _ _ _ s w (slotAt_run w a o c i s Ho Hs)).
    destruct (validate_ok w a o c i _ d s desc Hw Ho Hi Hs Hok Hwf H1 H2) as (checked & Ev & Hv).
    rewrite (bind_run _ _ _ checked w Ev). destruct checked as [[nd del]|]; [|rewrite Hv; eauto].
    destruct Hv as (-> & Hfull & Hdel).
    destruct del; [|destruct (attributesChange (applyFields nd desc) d) eqn:Hch].
    1,2: destruct (commit_descriptor w a o c i item _ d s desc _ _ Hw Ho Hi Hix Hs Ed Hfull) as (w' & c' & v' & Ec & H);
      exists true, w'; split; [exact Ec|split; [reflexivity|exists c', v'; exact H]].
    destruct (Hdel eq_refl) as (Hfl & Hk & Hval).
    destruct (commit_value w a o c i item _ d s desc _ _ Hw Ho Hi Hix Hs Hok Ed Hfull Hfl Hch Hk Hval) as (w' & v' & Ec & H).
    exists true, w'. split; [exact Ec|split; [reflexivity|exists c, v'; exact H]].
  - rewrite Hf, Hlook. unfold isExtensible.
    rewrite (bind_run _ _ _ (m_isExtensible o) w)
      by (rewrite (bind_run _ _ _ o w (readObject_run _ _ _ Ha)), Hprox; reflexivity).
    cbn [ValidateAndApply]. destruct (m_isExtensible o); cbn [negb]; [|eauto].
    destruct (addOwn_ok valid validP nameOf nameOfKey w a o c P desc Hw Ho HP Hwf Hix) as (w' & Ea & Hc).
    exists true, w'. rewrite (bind_run _ _ _ tt w' Ea). split; [reflexivity|]. split; [reflexivity|].
    eexists _, _. split; [exact Hc|]. rewrite <- (propertyOf_new desc Hwf). apply view_put_new; [|exact Hix].
    exact (content_length _ _ (proj2 (proj2 Ho))).
Qed.
End Define.
