(* ===== verification/ObjectMethods.v ===== *)
(** * The internal methods on ordinary objects

    [defineOwnProperty], [deleteOwnProperty], [getOwnProperty], [preventExtensions]
    and [isCompatiblePropertyDescriptor] as operations on the list of properties of
    an object. *)

From stdpp Require Import gmap.
From S2P Require Import Prelude Value AtomicString PropertyName PropertyDescriptor ObjectStructure.
From S2P Require Import StructureSpec Object ObjectSpec ObjectDefine.
Local Open Scope Z_scope.
Local Open Scope esc_scope.

Section Methods.
Context {heap : Heap} (valid validP : Z -> Prop) (out : Outside) (nameOf : Z -> Z) (nameOfKey : OwnKey -> Z).
Context {Hnames : ObjectNames heap valid validP nameOf nameOfKey}.

Abbreviation keyOf P := (propertyKey (nameOf P)).
Abbreviation changes := (changes valid).

(** ** The flag of indexed prototypes *)

Definition raised (w : World) : World :=
  {| structures := structures w; objects := objects w; m_didSomePrototypeObjectDefineIndexedProperty := true |}.

Lemma raised_object w a o c : object_at w a o c <-> object_at (raised w) a o c.
Proof. reflexivity. Qed.

Lemma raised_wf w : wf_world valid w -> wf_world valid (raised w).
Proof. intros [H1 H2 H3]. constructor; assumption. Qed.

Lemma raised_frame a w : frame a w (raised w).
Proof. constructor; auto. Qed.

(** The state in which [defineOwnProperty] of an object that is or was a prototype
    starts. *)
Definition flagFor (o : Object) (index : bool) (w : World) : World :=
  if m_isEverSetAsPrototypeObject o && negb (m_didSomePrototypeObjectDefineIndexedProperty w) && index
  then raised w else w.

Lemma flagFor_wf o index w : wf_world valid w -> wf_world valid (flagFor o index w).
Proof. intros H. unfold flagFor. case_if; [apply raised_wf|]; exact H. Qed.
Lemma flagFor_object o index w a o' c : object_at w a o' c -> object_at (flagFor o index w) a o' c.
Proof. intros H. unfold flagFor. case_if; exact H. Qed.
Lemma flagFor_frame o index a w : frame a w (flagFor o index w).
Proof. unfold flagFor. case_if; [apply raised_frame|apply frame_refl]. Qed.

Lemma when_flag o index w :
  (when! m_isEverSetAsPrototypeObject o && negb (m_didSomePrototypeObjectDefineIndexedProperty w) && index
   then somePrototypeObjectDefineIndexedProperty) w = (Ret tt, flagFor o index w).
Proof. unfold flagFor. case_if; reflexivity. Qed.

(** ** [DefineOwnProperty] *)

(** The property after a definition that ValidateAndApplyPropertyDescriptor judges. *)
Definition definedList (l : list (PropertyKey * Property)) (key : PropertyKey) (verdict : option Property) :=
  match verdict with Some p => putKey l key p | None => l end.

Lemma defineOwn_ok w a o c P desc (verdict := ValidateAndApply (m_isExtensible o)
    (lookupKey (viewOf c (m_values o)) (keyOf P)) (descriptorOf desc)) : wf_world valid w -> object_at w a o c ->
  isProxyObject o = false -> validP P -> wf_descriptor desc ->
  exists w' c' values, defineOwnProperty out nameOf a P desc w = (Ret (bool_decide (is_Some verdict)), w') /\
    changes (flagFor o (name_isIndexString (nameOf P)) w) a o c' values w' /\
    viewOf c' values = definedList (viewOf c (m_values o)) (keyOf P) verdict.
Proof.
  intros Hw Ho Hprox HP Hwf. set (w1 := flagFor o (name_isIndexString (nameOf P)) w).
  assert (Hw1 : wf_world valid w1) by (apply flagFor_wf; exact Hw).
  assert (Ho1 : object_at w1 a o c) by (apply flagFor_object; exact Ho).
  destruct (define_ok valid validP out nameOf nameOfKey w1 a o c P desc Hw1 Ho1 Hprox HP Hwf) as (b & w' & E & H).
  assert (E' : defineOwnProperty out nameOf a P desc w = (Ret b, w')).
  { unfold defineOwnProperty. rewrite (bind_run _ _ _ o w (readObject_run _ _ _ (proj1 Ho))), Hprox.
    destruct (m_isEverSetAsPrototypeObject o) eqn:Ev.
    - unfold DerivedObject_defineOwnProperty. rewrite (bind_run _ _ _ o w (readObject_run _ _ _ (proj1 Ho))).
      rewrite bind_gets, name_index by exact HP. rewrite (bind_run _ _ _ tt w1); [exact E|apply when_flag].
    - unfold w1, flagFor in E. rewrite Ev in E. exact E. }
  fold verdict in H. destruct verdict as [p|].
  - destruct H as (-> & c' & values & H). exists w', c', values. split; [exact E'|exact H].
  - destruct H as (-> & ->). exists w1, c, (m_values o). split; [exact E'|]. split; [|reflexivity].
    apply changes_refl; assumption.
Qed.

(** ** [Delete] *)

Lemma removeKey_absent l key : lookupKey l key = None -> removeKey l key = l.
Proof.
  induction l as [|[k p] l IH]; [reflexivity|]. cbn. case_decide; [discriminate|]. intros E. rewrite IH by exact E. reflexivity.
Qed.

Lemma deleteAt_ok w a o c i e : wf_world valid w -> object_at w a o c -> c !! i = Some e ->
  exists w', deleteOwnPropertyAt a i w = (Ret tt, w') /\ changes w a o (delete i c) (delete i (m_values o)) w'.
Proof.
  intros Hw Ho Hi. pose proof (proj1 Ho) as Ha.
  destruct (object_items valid w a o c Hw Ho) as (items & Hl & Ec & Hit).
  assert (Hlt : (i < length items)%nat).
  { rewrite <- Ec in Hi. unfold contentOf in Hi. apply lookup_lt_Some in Hi. rewrite length_map in Hi. exact Hi. }
  destruct (removeProperty_ok valid plainDesc (structures w) (m_structure o) items i (world_store _ _ Hw) Hl Hlt)
    as (r & st & E & Hop).
  assert (Hs : Forall2 slot_ok (contentOf (delete i items)) (delete i (m_values o))).
  { rewrite contentOf_delete, Ec. apply slots_delete. apply Ho. }
  destruct (update_ok valid w a o st r _ _ (withValues (withStructure o r) (delete i (m_values o)))
    Hw Ha Hop Hs eq_refl eq_refl) as (H1 & H2 & H3).
  destruct (Forall2_lookup_l _ _ _ _ _ (proj2 (proj2 Ho)) Hi) as (s & Hsl & _).
  exists (withWorld w st a (withValues (withStructure o r) (delete i (m_values o)))). split.
  - unfold deleteOwnPropertyAt. rewrite (bind_run _ _ _ o w (readObject_run _ _ _ Ha)).
    rewrite (bind_run _ _ _ r _ (runS_run _ _ _ _ E)), (bind_run _ _ _ tt _ (setStructure_run w st a o r Ha)).
    unfold eraseSlot. rewrite (bind_run _ _ _ _ _ (readObject_run _ _ _ (withWorld_at w st a _))).
    cbn [withStructure m_values]. rewrite (bind_run _ _ _ s _ (orThrow_run _ _ _ _ Hsl)).
    unfold writeObject, modify, withWorld. rewrite withObject_twice. reflexivity.
  - constructor; [exact H1|exact H2|reflexivity|]. exists r. rewrite contentOf_delete, Ec in H3. exact H3.
Qed.

Definition mayDelete (current : option Property) : bool :=
  match current with Some p => p_configurable p | None => true end.

Lemma deleteOwn_ok w a o c P (ok := mayDelete (lookupKey (viewOf c (m_values o)) (keyOf P))) :
  wf_world valid w -> object_at w a o c -> isProxyObject o = false -> validP P ->
  exists w' c' values, deleteOwnProperty out nameOf a P w = (Ret ok, w') /\ changes w a o c' values w' /\
    viewOf c' values = (if ok then removeKey (viewOf c (m_values o)) (keyOf P) else viewOf c (m_values o)).
Proof.
  intros Hw Ho Hprox HP. pose proof (proj1 Ho) as Ha. unfold deleteOwnProperty.
  rewrite (bind_run _ _ _ o w (readObject_run _ _ _ Ha)), Hprox.
  rewrite (bind_run _ _ _ _ w (getOwn_ok valid validP out nameOf nameOfKey w a o c P Hw Ho Hprox HP)).
  pose proof (view_lookup c (m_values o) (keyOf P) (proj2 (proj2 Ho))) as Hlook. unfold resultAt.
  destruct (find_run valid validP nameOf nameOfKey w a o c P Hw Ho HP) as (found & E & Hf).
  destruct (contentIndex c (keyOf P)) as [i|] eqn:Hix.
  2: { exists w, c, (m_values o). subst ok. rewrite Hlook. split; [reflexivity|]. split; [apply changes_refl; assumption|].
    symmetry. apply removeKey_absent. exact Hlook. }
  destruct Hlook as (d & s & Hi & Hs & Hok & El). rewrite Hi, Hs. destruct Hf as (item & -> & Hi').
  assert (Ec : result_isConfigurable (resultOf d s) = ok).
  { subst ok. rewrite El. unfold resultOf, propertyOf. destruct (desc_isDataProperty d); reflexivity. }
  assert (Ev : hasValue (resultOf d s) = true) by (unfold resultOf; destruct (desc_isDataProperty d); reflexivity).
  rewrite Ec, Ev. clearbody ok. destruct ok; cbn [andb negb].
  - rewrite (bind_run _ _ _ o w (readObject_run _ _ _ Ha)), (bind_run _ _ _ _ w E).
    destruct (deleteAt_ok w a o c i _ Hw Ho Hi) as (w' & E' & Hc). rewrite (bind_run _ _ _ tt w' E').
    exists w', (delete i c), (delete i (m_values o)). split; [reflexivity|]. split; [exact Hc|].
    apply view_remove; [exact (content_length _ _ (proj2 (proj2 Ho)))|exact Hix].
  - exists w, c, (m_values o). split; [reflexivity|]. split; [apply changes_refl; assumption|reflexivity].
Qed.

(** ** [PreventExtensions] *)

Lemma markNoTransition_ok w a o c : wf_world valid w -> object_at w a o c ->
  exists w' r, markThisObjectDontNeedStructureTransitionTable a w = (Ret tt, w') /\ wf_world valid w' /\ frame a w w' /\
    object_at w' a (withStructure o r) c /\
    m_didSomePrototypeObjectDefineIndexedProperty w' = m_didSomePrototypeObjectDefineIndexedProperty w.
Proof.
  intros Hw Ho. pose proof (proj1 Ho) as Ha.
  destruct (object_items valid w a o c Hw Ho) as (items & Hl & Ec & Hit).
  destruct (convertToNonTransitionStructure_ok valid plainDesc (structures w) (m_structure o) items (world_store _ _ Hw) Hl)
    as (r & st & E & H1 & H2 & H3 & H4).
  exists (withWorld w st a (withStructure o r)), r. split.
  { unfold markThisObjectDontNeedStructureTransitionTable. rewrite (bind_run _ _ _ o w (readObject_run _ _ _ Ha)).
    rewrite (bind_run _ _ _ r _ (runS_run _ _ _ _ E)). apply setStructure_run. exact Ha. }
  destruct H4 as [Hlt|[-> ->]].
  - assert (Hop : op_result valid plainDesc (Some (m_structure o)) (structures w) st r items)
      by (constructor; [exact H1|apply preserved_weaken; exact H2|exact H3|left; exact Hlt]).
    destruct (update_ok valid w a o st r _ (m_values o) (withStructure o r) Hw Ha Hop) as (K1 & K2 & K3);
      [rewrite Ec; apply Ho|reflexivity|reflexivity|]. rewrite Ec in K3. auto.
  - unfold withWorld. rewrite withStructures_same, withStructure_same.
    destruct (update_object valid w a o c o Hw Ho eq_refl (proj2 (proj2 Ho))) as (K1 & K2 & K3). auto.
Qed.

Lemma preventExtensions_ok w a o c : wf_world valid w -> object_at w a o c -> isProxyObject o = false ->
  exists w' r, preventExtensions out a w = (Ret true, w') /\ wf_world valid w' /\ frame a w w' /\
    object_at w' a (withFlags (withStructure o r) false (m_isEverSetAsPrototypeObject o) (m_isInlineCacheable o)) c /\
    m_didSomePrototypeObjectDefineIndexedProperty w' = m_didSomePrototypeObjectDefineIndexedProperty w.
Proof.
  intros Hw Ho Hprox. destruct (markNoTransition_ok w a o c Hw Ho) as (w1 & r & E & Hw1 & Hf1 & Ho1 & Hflag).
  destruct (update_object valid w1 a (withStructure o r) c
    (withFlags (withStructure o r) false (m_isEverSetAsPrototypeObject o) (m_isInlineCacheable o)) Hw1 Ho1 eq_refl
    (proj2 (proj2 Ho1))) as (K1 & K2 & K3).
  eexists _, r. split; [|split; [exact K1|split; [eapply frame_trans; eassumption|split; [exact K3|exact Hflag]]]].
  unfold preventExtensions. rewrite (bind_run _ _ _ o w (readObject_run _ _ _ (proj1 Ho))), Hprox.
  rewrite (bind_run _ _ _ tt w1 E), (bind_run _ _ _ _ w1 (readObject_run _ _ _ (proj1 Ho1))). reflexivity.
Qed.

(** ** [IsCompatiblePropertyDescriptor] *)

Lemma resultOf_flags d s : result_isConfigurable (resultOf d s) = desc_isConfigurable d /\
  result_isEnumerable (resultOf d s) = desc_isEnumerable d /\ result_isDataProperty (resultOf d s) = desc_isDataProperty d /\
  hasValue (resultOf d s) = true.
Proof. unfold resultOf. destruct (desc_isDataProperty d); split_and!; reflexivity. Qed.

Lemma isCompatible_ok extensible key d s desc w : slot_ok (key, d) s -> wf_descriptor desc ->
  isCompatiblePropertyDescriptor out extensible desc (resultOf d s) w =
  (Ret (compatible (propertyOf d s) (descriptorOf desc)), w).
Proof.
  intros Hok Hwf. destruct (resultOf_flags d s) as (Fc & Fe & Fd & Fv).
  unfold isCompatiblePropertyDescriptor. rewrite Fv, Fc, Fe, Fd. cbn [negb].
  destruct (negb (desc_isConfigurable d) && isConfigurable desc) eqn:H1.
  { rewrite (early_rejection d s desc) by auto. reflexivity. }
  destruct (negb (desc_isConfigurable d) && isEnumerablePresent desc
            && negb (Bool.eqb (isEnumerable desc) (desc_isEnumerable d))) eqn:H2.
  { rewrite (early_rejection d s desc) by auto. reflexivity. }
  destruct (isGenericDescriptor desc) eqn:Eg.
  { rewrite generic_compatible by assumption. reflexivity. }
  destruct (Bool.eqb (desc_isDataProperty d) (isDataDescriptor desc)) eqn:Ek; cbn [negb].
  2: { assert (Hne : desc_isDataProperty d <> isDataDescriptor desc) by (intros E; rewrite E, eqb_reflx in Ek; discriminate).
    destruct (desc_isConfigurable d) eqn:Ec; cbn [negb].
    - unfold compatible. rewrite (proj1 (propertyOf_flags d s)), Ec. reflexivity.
    - rewrite (compatible_other_kind d s desc key) by assumption. reflexivity. }
  apply eqb_prop in Ek. unfold isGenericDescriptor in Eg.
  apply slot_kind in Hok. destruct s as [v|gs]; cbn in Hok; rewrite Hok in Ek |- *; rewrite <- Ek in Eg |- *; cbn [andb negb] in Eg |- *.
  - rewrite (compatible_data d v desc Hok Hwf (eq_sym Ek) H1 H2). unfold resultOf. rewrite Hok. cbn [result_isWritable].
    destruct (desc_isConfigurable d), (desc_isWritable d), (isWritable desc), (isValuePresent desc); reflexivity.
  - rewrite (compatible_accessor d gs desc Hok Hwf (eq_sym Ek)) by (try assumption; unfold isGenericDescriptor; rewrite <- Ek; exact Eg).
    apply negb_false_iff in Eg. rewrite Eg. unfold resultOf. rewrite Hok. cbn [jsGetterSetter slotGetterSetter].
    destruct (desc_isConfigurable d); [reflexivity|]. cbn [negb orb].
    destruct (hasJSSetter desc && _); [reflexivity|]. destruct (hasJSGetter desc && _); reflexivity.
Qed.

Lemma predicted w o c P desc (verdict := ValidateAndApply (m_isExtensible o)
    (lookupKey (viewOf c (m_values o)) (keyOf P)) (descriptorOf desc)) : Forall2 slot_ok c (m_values o) -> wf_descriptor desc ->
  isCompatiblePropertyDescriptor out (m_isExtensible o) desc (resultAt c (m_values o) (keyOf P)) w =
  (Ret (bool_decide (is_Some verdict)), w).
Proof.
  intros Hs Hwf. pose proof (view_lookup c (m_values o) (keyOf P) Hs) as Hlook. subst verdict. unfold resultAt.
  destruct (contentIndex c (keyOf P)) as [i|].
  - destruct Hlook as (d & s & -> & -> & Hok & ->). rewrite (isCompatible_ok _ _ _ _ _ _ Hok Hwf). cbn [ValidateAndApply].
    destruct (compatible _ _); reflexivity.
  - rewrite Hlook. cbn. unfold isCompatiblePropertyDescriptor. cbn [hasValue negb].
    destruct (m_isExtensible o); reflexivity.
Qed.
End Methods.

(** * Objects refine lists of properties

    The names of a context meet the interface of the objects, and the internal
    methods of an ordinary object are the operations of the language on its list of
    properties. *)

(** ** The names of a context *)

Section Context.
Context (st : Strings) (symbols : gset Z) (atomicForm : PropertyKey -> bool).
Context (Hst : wf_strings st) (Hsym : symbols_below st symbols).
(** The texts of indices are in use in their atomic form. *)
Context (Hatomic : forall n, atomicForm (KString (decimal n)) = true).
Local Instance context_heap : Heap := heapOf st symbols.

Definition contextValid (m : Z) : Prop :=
  wf_name st symbols m /\ hasAtomicString m = atomicForm (propertyKey m).
Definition contextNameOf (P : Z) : Z := fst (toObjectStructurePropertyName st symbols P).
(** Names of the structures, and small integers whose texts are in the table. *)
Definition contextValidP (P : Z) : Prop :=
  contextValid P \/
  (exists v a, 0 <= v <= MAXIMUM_UINT_FOR_32BIT_PROPERTY_NAME /\ P = setUIntValue v /\
     map_find st (decimal v) = Some a /\ contextNameOf P = nameOfAtomic a).
(** The name made of an own key: the string of an index is in the table. *)
Definition contextNameOfKey (key : OwnKey) : Z :=
  match key with
  | NameKey m => m
  | IndexKey n => match map_find st (decimal n) with Some a => nameOfAtomic a | None => 0 end
  end.

Lemma contextNameOf_valid m : contextValid m -> contextNameOf m = m /\ isUIntType m = false.
Proof.
  intros [Hm _]. assert (E : isUIntType m = false) by (eapply wf_name_not_uint; eauto using symbols_below_wf).
  unfold contextNameOf, toObjectStructurePropertyName. rewrite E. auto.
Qed.

(** The atomic string of an index. *)
Lemma index_name n a : map_find st (decimal n) = Some a ->
  contextValid (nameOfAtomic a) /\ propertyKey (nameOfAtomic a) = KString (decimal n).
Proof.
  intros Hf. pose proof (map_find_spec st (decimal n)) as H. rewrite Hf in H. destruct H as [Ha Et].
  pose proof (key_atomic st symbols Hst a Ha) as K. change (heap_of_strings st symbols) with context_heap in K.
  rewrite Et in K. split; [|exact K]. split; [apply wf_atomic; exact Ha|]. rewrite K, Hatomic.
  destruct (in_table_cell st a Hst Ha) as [d Hd]. apply (aligned_bits a (proj1 (wf_cells st Hst a d Hd))).
Qed.

Lemma decimal_index v : 0 <= v < InvalidIndexPropertyValue -> isIndexString (decimal v) = true.
Proof. intros Hv. apply (index_of_digits (decimal v) InvalidIndexPropertyValue v (or_introl eq_refl) Hv). reflexivity. Qed.

Lemma index_of_text s n : tryToUseAsIndexProperty s = n -> n <> InvalidIndexPropertyValue -> s = decimal n.
Proof.
  intros E Hn. assert (HL : InvalidIndexPropertyValue = InvalidIndexPropertyValue \/
    InvalidIndexPropertyValue = InvalidIndexValue) by (left; reflexivity).
  pose proof (index_of_digits s InvalidIndexPropertyValue 0 HL ltac:(unfold InvalidIndexPropertyValue; lia)) as (_ & Hb & _).
  fold (tryToUseAsIndexProperty s) in Hb. rewrite E in Hb.
  apply (index_of_digits s InvalidIndexPropertyValue n HL); [lia|exact E].
Qed.

Lemma table_unique a b : a ∈ atomicStringMap st -> map_find st (textOf st a) = Some b -> b = a.
Proof.
  intros Ha Hf. pose proof (map_find_spec st (textOf st a)) as H. rewrite Hf in H. destruct H as [Hb E].
  apply (wf_unique st Hst); assumption.
Qed.

Lemma index_found m n : contextValid m -> name_tryToUseAsIndexProperty m = n -> n <> InvalidIndexPropertyValue ->
  propertyKey m = KString (decimal n) /\ is_Some (map_find st (decimal n)).
Proof.
  intros [Hm Hform] E Hn. rewrite tryToUse_key in E. destruct (propertyKey m) as [s|q] eqn:Ek; [|congruence].
  apply index_of_text in E; [|exact Hn]. subst s. split; [reflexivity|]. rewrite Hatomic in Hform.
  destruct (wf_name_form st symbols Hst (symbols_below_wf _ _ Hsym) m Hm) as [(a & Ha & -> & _)|[(H & _)|(H & _)]];
    [|congruence..].
  pose proof (key_atomic st symbols Hst a Ha) as K. change (heap_of_strings st symbols) with context_heap in K.
  rewrite Ek in K. injection K as K. pose proof (map_find_spec st (decimal n)) as H.
  destruct (map_find st (decimal n)) as [b|]; [eauto|]. destruct (H a Ha). symmetry. exact K.
Qed.

#[export] Instance context_objects :
  ObjectNames context_heap contextValid contextValidP contextNameOf contextNameOfKey.
Proof.
  constructor.
  - apply (context_names st symbols atomicForm plainDesc Hst (symbols_below_wf _ _ Hsym)).
    intros [x|] [y|]; cbn; try contradiction. congruence.
  - intros P [HP|(v & a & _ & _ & Hf & E)].
    + rewrite (proj1 (contextNameOf_valid P HP)). exact HP.
    + rewrite E. apply (index_name v a Hf).
  - intros P [HP|(v & a & Hv & -> & Hf & E)] Hu.
    + rewrite (proj2 (contextNameOf_valid P HP)) in Hu. discriminate.
    + rewrite E, name_index_key, (proj2 (index_name v a Hf)). apply decimal_index.
      unfold MAXIMUM_UINT_FOR_32BIT_PROPERTY_NAME, InvalidIndexPropertyValue in *. lia.
  - intros P [HP|(v & a & Hv & -> & Hf & E)]; unfold objectName_isIndexString.
    + destruct (contextNameOf_valid P HP) as [-> ->]. reflexivity.
    + rewrite (proj1 (uint_bits v Hv)), E, name_index_key, (proj2 (index_name v a Hf)). symmetry. apply decimal_index.
      unfold MAXIMUM_UINT_FOR_32BIT_PROPERTY_NAME, InvalidIndexPropertyValue in *. lia.
  - intros m Hm. cbn [contextNameOfKey]. rewrite (proj1 (contextNameOf_valid m Hm)). split; [left; exact Hm|reflexivity].
  - intros m n Hm E Hn. destruct (index_found m n Hm E Hn) as [K [a Hf]]. cbn [contextNameOfKey]. rewrite Hf.
    destruct (index_name n a Hf) as [Hv Hk]. rewrite (proj1 (contextNameOf_valid _ Hv)), Hk, K.
    split; [left; exact Hv|reflexivity].
Qed.
End Context.

(** ** The methods *)

Section Refinement.
Context {heap : Heap} (valid validP : Z -> Prop) (out : Outside) (nameOf : Z -> Z) (nameOfKey : OwnKey -> Z).
Context {Hnames : ObjectNames heap valid validP nameOf nameOfKey}.

(** Two states of an object that differ in its properties only. *)
Definition sameButProperties (o o' : Object) : Prop := o' = withValues (withStructure o (m_structure o')) (m_values o').

Lemma has_properties_at w a o l : objects w !! a = Some o -> has_properties w a l ->
  exists c, object_at w a o c /\ l = viewOf c (m_values o).
Proof. intros Ha (o' & c & Ho & E). assert (o' = o) as -> by (destruct Ho; congruence). eauto. Qed.

Lemma changes_summary w a o c values w' : changes valid w a o c values w' ->
  wf_world valid w' /\ frame a w w' /\ has_properties w' a (viewOf c values) /\
  exists o', objects w' !! a = Some o' /\ sameButProperties o o'.
Proof.
  intros [H1 H2 _ [r Ho]]. split; [exact H1|]. split; [exact H2|]. split.
  - exists (withValues (withStructure o r) values), c. auto.
  - exists (withValues (withStructure o r) values). split; [apply Ho|reflexivity].
Qed.
End Refinement.
