(* ===== verification/ObjectPrototype.v ===== *)
(** * Chains of prototypes

    [get] and [hasProperty] answer what the first object of the chain has, and stop;
    [setPrototype] keeps every chain finite: it refuses exactly what would close a
    cycle. *)

From stdpp Require Import gmap.
From S2P Require Import Prelude Value PropertyName PropertyDescriptor ObjectStructure StructureSpec Object.
From S2P Require Import ObjectSpec ObjectDefine ObjectMethods.
Local Open Scope Z_scope.
Local Open Scope esc_scope.

(** ** Chains *)

(** The objects from [a] to the end of its chain. *)
Inductive chain (w : World) : Z -> list Z -> Prop :=
| chain_last a o : objects w !! a = Some o -> m_prototype o = None -> chain w a [a]
| chain_next a o p l : objects w !! a = Some o -> m_prototype o = Some p -> chain w p l -> chain w a (a :: l).

Definition ordinaryAt (w : World) (a : Z) : Prop := exists o, objects w !! a = Some o /\ isProxyObject o = false.

Lemma chain_unique w a l l' : chain w a l -> chain w a l' -> l = l'.
Proof.
  intros H. revert l'. induction H as [a o Ha Hp|a o p l Ha Hp _ IH]; intros l' H'; inversion H'; subst; try congruence.
  f_equal. apply IH. congruence.
Qed.

Lemma chain_suffix w a l b : chain w a l -> b ∈ l -> exists l', chain w b l' /\ (length l' <= length l)%nat /\
  (b <> a -> (length l' < length l)%nat) /\ incl l' l.
Proof.
  induction 1 as [a o Ha Hp|a o p l Ha Hp Hc IH]; intros Hb.
  - apply list_elem_of_singleton in Hb as ->. exists [a]. split_and!; [econstructor; eassumption|reflexivity|congruence|apply incl_refl].
  - apply elem_of_cons in Hb as [->|Hb].
    + exists (a :: l). split_and!; [econstructor; eassumption|reflexivity|congruence|apply incl_refl].
    + destruct (IH Hb) as (l' & H1 & H2 & _ & H4). exists l'. cbn [length]. split_and!; [exact H1|lia|lia|apply incl_tl; exact H4].
Qed.

Lemma chain_head w a l : chain w a l -> exists l', l = a :: l'.
Proof. destruct 1; eauto. Qed.

Lemma chain_NoDup w a l : chain w a l -> NoDup l.
Proof.
  induction 1 as [a o Ha Hp|a o p l Ha Hp Hc IH]; [apply NoDup_singleton|]. apply NoDup_cons_2; [|exact IH].
  intros Hin. destruct (chain_suffix w p l a Hc Hin) as (l' & H1 & H2 & _).
  assert (E : l' = a :: l) by (eapply chain_unique; [exact H1|econstructor; eassumption]). subst l'. cbn in H2. lia.
Qed.

Lemma chain_objects w a l b : chain w a l -> b ∈ l -> is_Some (objects w !! b).
Proof. intros H Hb. destruct (chain_suffix w a l b H Hb) as (l' & H' & _). destruct H'; eauto. Qed.

(** No chain is longer than there are objects. *)
Lemma chain_length w a l : chain w a l -> (length l <= size (objects w))%nat.
Proof.
  intros H. rewrite <- (size_dom (objects w)).
  rewrite <- (size_list_to_set (C := gset Z) l) by (eapply chain_NoDup; exact H).
  apply subseteq_size. intros b Hb. apply elem_of_list_to_set in Hb. apply elem_of_dom. eapply chain_objects; eassumption.
Qed.

(** ** The lookup along a chain *)

Section Lookup.
Context {heap : Heap}.

(** The properties of the object [a], computed. *)
Definition listOf (w : World) (a : Z) : list (PropertyKey * Property) :=
  match objects w !! a with
  | Some o =>
    match structures w !! m_structure o with
    | Some s => match m_properties s with Some items => viewOf (contentOf items) (m_values o) | None => [] end
    | None => []
    end
  | None => []
  end.

Lemma listOf_object w a o c : object_at w a o c -> listOf w a = viewOf c (m_values o).
Proof. intros (Ha & (items & (s & Hs & Hp) & <-) & _). unfold listOf. rewrite Ha, Hs, Hp. reflexivity. Qed.

(** The property of the first object that has one. *)
Fixpoint chainLookup (w : World) (l : list Z) (key : PropertyKey) : option Property :=
  match l with
  | [] => None
  | a :: rest => match lookupKey (listOf w a) key with Some p => Some p | None => chainLookup w rest key end
  end.
End Lookup.

Section Chains.
Context {heap : Heap} (valid validP : Z -> Prop) (out : Outside) (nameOf : Z -> Z) (nameOfKey : OwnKey -> Z).
Context {Hnames : ObjectNames heap valid validP nameOf nameOfKey}.

Abbreviation keyOf P := (propertyKey (nameOf P)).

Lemma ordinary_object w a : wf_world valid w -> ordinaryAt w a ->
  exists o c, object_at w a o c /\ isProxyObject o = false.
Proof. intros Hw (o & Ha & Hp). destruct (world_objects _ _ Hw a o Ha) as [c Hc]. eauto. Qed.

Lemma getPrototype_run w a o : objects w !! a = Some o -> isProxyObject o = false ->
  getPrototypeObject out a w = (Ret (m_prototype o), w).
Proof. intros Ha Hp. unfold getPrototypeObject. rewrite (bind_run _ _ _ o w (readObject_run _ _ _ Ha)), Hp. reflexivity. Qed.

(** What is looked up in the object itself. *)
Lemma getOwn_list w a P : wf_world valid w -> ordinaryAt w a -> validP P ->
  exists r, getOwnProperty out nameOf a P w = (Ret r, w) /\ propertyOfResult r = lookupKey (listOf w a) (keyOf P).
Proof.
  intros Hw Ho HP. destruct (ordinary_object w a Hw Ho) as (o & c & Hc & Hprox).
  eexists. split; [apply (getOwn_ok valid validP out nameOf nameOfKey w a o c P Hw Hc Hprox HP)|].
  rewrite (listOf_object w a o c Hc). apply resultAt_property. apply Hc.
Qed.

Lemma getOwn_plain w a P : wf_world valid w -> ordinaryAt w a -> validP P ->
  exists r, getOwnProperty out nameOf a P w = (Ret r, w) /\ propertyOfResult r = lookupKey (listOf w a) (keyOf P) /\
    (forall data self v wr e c, r <> NativeResult data self v wr e c).
Proof.
  intros Hw Ho HP. destruct (ordinary_object w a Hw Ho) as (o & c & Hc & Hprox).
  eexists. split; [apply (getOwn_ok valid validP out nameOf nameOfKey w a o c P Hw Hc Hprox HP)|]. split.
  - rewrite (listOf_object w a o c Hc). apply resultAt_property. apply Hc.
  - intros. unfold resultAt, resultOf. destruct (contentIndex c (keyOf P)) as [i|]; [|discriminate].
    destruct (c !! i) as [[? d]|]; [|discriminate]. destruct (m_values o !! i); [|discriminate].
    destruct (desc_isDataProperty d); discriminate.
Qed.

Lemma hasValue_property r : hasValue r = bool_decide (is_Some (propertyOfResult r)).
Proof. destruct r; reflexivity. Qed.

Lemma walk w P a l : wf_world valid w -> chain w a l -> Forall (ordinaryAt w) l -> validP P ->
  forall fuel, (length l <= fuel)%nat ->
  (forall receiver, exists r, Object_get out nameOf fuel a P receiver w = (Ret r, w) /\
     propertyOfResult r = chainLookup w l (keyOf P)) /\
  Object_hasProperty out nameOf fuel a P w = (Ret (bool_decide (is_Some (chainLookup w l (keyOf P)))), w).
Proof.
  intros Hw H Hord HP. induction H as [a o Ha Hp|a o p l Ha Hp Hc IH]; intros [|fuel] Hf; cbn [length] in Hf; try lia.
  all: apply Forall_cons_1 in Hord as [Ho Hrest].
  all: destruct (getOwn_list w a P Hw Ho HP) as (r & E & Er).
  all: assert (Hprox : isProxyObject o = false) by (destruct Ho as (o' & Ha' & ?); congruence).
  all: pose proof (getPrototype_run w a o Ha Hprox) as Eproto; rewrite Hp in Eproto.
  all: cbn [Object_get Object_hasProperty chainLookup].
  all: split; [intros receiver|]; rewrite (bind_run _ _ _ r w E), hasValue_property, Er.
  all: destruct (lookupKey (listOf w a) (keyOf P)) as [q|]; [solve [eauto]|].
  all: rewrite (bool_decide_eq_false_2 (is_Some None)) by (intros [? [=]]); rewrite (bind_run _ _ _ _ w Eproto).
  1,2: eauto.
  all: destruct (chain_head w p l Hc) as [l' El]; pose proof Hrest as Hp'; rewrite El in Hp';
    apply Forall_cons_1 in Hp' as [(op & Hop & Hpp) _].
  all: rewrite (bind_run _ _ _ op w (readObject_run _ _ _ Hop)), Hpp; apply (IH Hrest fuel); lia.
Qed.

Lemma get_run w a l P : wf_world valid w -> chain w a l -> Forall (ordinaryAt w) l -> validP P ->
  (forall receiver, exists r, get out nameOf a P receiver w = (Ret r, w) /\
     propertyOfResult r = chainLookup w l (keyOf P)) /\
  hasProperty out nameOf a P w = (Ret (bool_decide (is_Some (chainLookup w l (keyOf P)))), w).
Proof.
  intros Hw Hc Hord HP. pose proof (chain_length w a l Hc) as Hlen.
  destruct (walk w P a l Hw Hc Hord HP (Datatypes.S (size (objects w))) ltac:(lia)) as [H1 H2].
  destruct (chain_head w a l Hc) as [l' El]. rewrite El in Hord. apply Forall_cons_1 in Hord as [(o & Ha & Hprox) _].
  unfold get, hasProperty, chainFuel. split; [intros receiver; destruct (H1 receiver) as (r & E & Er); exists r; split; [|exact Er]|];
    rewrite (bind_run _ _ _ o w (readObject_run _ _ _ Ha)), Hprox, bind_gets; assumption.
Qed.

(** ** Changes outside the properties *)

Definition protoOf (w : World) (a : Z) : option Z := objects w !! a ≫= m_prototype.

(** The properties, the class and extensibility stay; a mark as prototype stays. *)
Definition sameBody (o o' : Object) : Prop :=
  m_structure o' = m_structure o /\ m_values o' = m_values o /\ m_objectClass o' = m_objectClass o /\
  m_isExtensible o' = m_isExtensible o /\
  (m_isEverSetAsPrototypeObject o = true -> m_isEverSetAsPrototypeObject o' = true).

Record headers (w w' : World) : Prop := {
  headers_structures : structures w' = structures w;
  headers_objects : forall b, option_Forall2 sameBody (objects w !! b) (objects w' !! b);
  headers_flag : m_didSomePrototypeObjectDefineIndexedProperty w = true ->
    m_didSomePrototypeObjectDefineIndexedProperty w' = true
}.

Lemma sameBody_refl o : sameBody o o.
Proof. split_and!; auto. Qed.

Lemma headers_refl w : headers w w.
Proof. constructor; [reflexivity| |auto]. intros b. destruct (objects w !! b); constructor. apply sameBody_refl. Qed.

Lemma headers_trans w w1 w2 : headers w w1 -> headers w1 w2 -> headers w w2.
Proof.
  intros [H1 H2 H3] [K1 K2 K3]. constructor; [congruence| |auto]. intros b. specialize (H2 b). specialize (K2 b).
  destruct H2 as [o o1 (A1 & A2 & A3 & A4 & A5)|]; inversion K2 as [x y (B1 & B2 & B3 & B4 & B5)|]; subst; constructor.
  split_and!; [congruence..|auto].
Qed.

Lemma headers_write w a o o' : objects w !! a = Some o -> sameBody o o' -> headers w (withObject a o' w).
Proof.
  intros Ha Hs. constructor; [reflexivity| |auto]. intros b. cbn. destruct (decide (b = a)) as [->|Hne].
  - rewrite Ha, lookup_insert_eq. constructor. exact Hs.
  - rewrite lookup_insert_ne by congruence. destruct (objects w !! b); constructor. apply sameBody_refl.
Qed.

Lemma headers_old w w' b o' : headers w w' -> objects w' !! b = Some o' -> exists o, objects w !! b = Some o /\ sameBody o o'.
Proof. intros H Hb. pose proof (headers_objects _ _ H b) as Hf. rewrite Hb in Hf. inversion Hf; subst. eauto. Qed.
Lemma headers_new w w' b o : headers w w' -> objects w !! b = Some o -> exists o', objects w' !! b = Some o' /\ sameBody o o'.
Proof. intros H Hb. pose proof (headers_objects _ _ H b) as Hf. rewrite Hb in Hf. inversion Hf; subst. eauto. Qed.

Lemma headers_object w w' b o c : headers w w' -> object_at w b o c -> exists o', object_at w' b o' c /\ sameBody o o'.
Proof.
  intros H (Hb & (items & Hl & Ec) & Hs). destruct (headers_new w w' b o H Hb) as (o' & Hb' & Hsame).
  exists o'. split; [|exact Hsame]. destruct Hsame as (E1 & E2 & _). split; [exact Hb'|]. rewrite E1, E2.
  split; [|exact Hs]. exists items. rewrite (headers_structures _ _ H). auto.
Qed.

Lemma headers_wf w w' : wf_world valid w -> headers w w' -> wf_world valid w'.
Proof.
  intros [H1 H2 H3] H. constructor; rewrite ?(headers_structures _ _ H).
  - exact H1.
  - intros b o' Hb. destruct (headers_old w w' b o' H Hb) as (o & Hbo & _). destruct (H2 b o Hbo) as [c Hc].
    destruct (headers_object w w' b o c H Hc) as (o1 & Ho1 & _). exists c. destruct Ho1 as [Hb1 Ho1]. split; [exact Hb|].
    replace o' with o1 by congruence. exact Ho1.
  - intros b d ob od Hb Hd E. destruct (headers_old w w' b ob H Hb) as (o1 & Hb1 & E1 & _).
    destruct (headers_old w w' d od H Hd) as (o2 & Hd2 & E2 & _). rewrite E1. apply (H3 b d o1 o2 Hb1 Hd2). congruence.
Qed.

Lemma headers_list w w' b : headers w w' -> listOf w' b = listOf w b.
Proof.
  intros H. unfold listOf. rewrite (headers_structures _ _ H). pose proof (headers_objects _ _ H b) as Hf.
  destruct Hf as [o o' (E1 & E2 & _)|]; [rewrite E1, E2|]; reflexivity.
Qed.

(** ** Chains under a change of one prototype *)

Lemma chain_proto w a l : chain w a l <-> is_Some (objects w !! a) /\
  match protoOf w a with None => l = [a] | Some p => exists l', chain w p l' /\ l = a :: l' end.
Proof.
  unfold protoOf. split.
  - intros [a' o Ha Hp|a' o p l' Ha Hp Hc]; rewrite Ha; cbn; rewrite Hp; eauto.
  - intros [[o Ha] H]. rewrite Ha in H. cbn in H. destruct (m_prototype o) as [p|] eqn:Hp.
    + destruct H as (l' & Hc & ->). econstructor; eassumption.
    + subst l. econstructor; eassumption.
Qed.

Section Update.
Context (w w' : World) (a : Z).
Context (Hkeep : forall b, is_Some (objects w !! b) -> is_Some (objects w' !! b)).
Context (Hproto : forall b, b <> a -> protoOf w' b = protoOf w b).

Lemma chain_same b l : chain w b l -> ~ a ∈ l -> chain w' b l.
Proof.
  induction 1 as [b o Hb Hp|b o p l Hb Hp Hc IH]; intros Hn; apply not_elem_of_cons in Hn as [Hne Hn];
    apply chain_proto; rewrite Hproto by congruence; unfold protoOf; rewrite Hb; cbn; rewrite Hp; (split; [apply Hkeep; eauto|]); eauto.
Qed.

Lemma chain_update la b l : chain w' a la -> chain w b l -> exists l', chain w' b l'.
Proof.
  intros Ha. induction 1 as [b o Hb Hp|b o p l Hb Hp Hc IH]; (destruct (decide (b = a)) as [->|Hne]; [eauto|]).
  - exists [b]. apply chain_proto. rewrite Hproto by exact Hne. unfold protoOf. rewrite Hb. cbn. rewrite Hp. split; [apply Hkeep; eauto|reflexivity].
  - destruct IH as [l' IH]. exists (b :: l'). apply chain_proto. rewrite Hproto by exact Hne. unfold protoOf. rewrite Hb. cbn.
    rewrite Hp. split; [apply Hkeep; eauto|eauto].
Qed.
End Update.
End Chains.

(** * [setPrototype]

    The loop that looks for a cycle, the mark of prototypes and the constructor that is
    remembered, as changes outside of the properties. *)

Section Prototypes.
Context {heap : Heap} (valid validP : Z -> Prop) (out : Outside) (nameOf : Z -> Z) (nameOfKey : OwnKey -> Z).
Context {Hnames : ObjectNames heap valid validP nameOf nameOfKey}.

(** The loop follows the chain to its end or to the object itself. *)
Lemma noCycle_run w a q l : chain w q l -> Forall (ordinaryAt w) l ->
  forall fuel, (length l < fuel)%nat -> noCycle out fuel a (Some q) w = (Ret (bool_decide (~ a ∈ l)), w).
Proof.
  induction 1 as [q o Hq Hp|q o p l Hq Hp Hc IH]; intros Hord [|fuel] Hf; cbn [length] in Hf; try lia.
  all: apply Forall_cons_1 in Hord as [(o' & Ho' & Hprox) Hrest]; assert (o' = o) as -> by congruence.
  all: cbn [noCycle]; destruct (Z.eqb_spec q a) as [->|Hne].
  1,3: unfold ret; repeat f_equal; symmetry; apply bool_decide_eq_false; intros Hn; apply Hn; left.
  all: rewrite (bind_run _ _ _ o w (readObject_run _ _ _ Hq)); unfold isOrdinary; rewrite Hprox; cbn [negb].
  all: rewrite (bind_run _ _ _ _ w (getPrototype_run out w q o Hq Hprox)), Hp.
  - destruct fuel as [|fuel]; [lia|]. cbn [noCycle]. unfold ret. repeat f_equal. symmetry. apply bool_decide_eq_true.
    intros Hn. apply list_elem_of_singleton in Hn. congruence.
  - rewrite (IH Hrest fuel) by lia. repeat f_equal. apply bool_decide_ext. rewrite not_elem_of_cons. intuition congruence.
Qed.

(** ** The mark *)

Definition marked (w : World) (a : Z) : bool :=
  match objects w !! a with Some o => m_isEverSetAsPrototypeObject o | None => false end.

(** Some property of the object is an index. *)
Definition indexed (w : World) (a : Z) : bool :=
  existsb (fun e => match fst e with KString s => isIndexString s | KSymbol _ => false end) (listOf w a).

Lemma anyIndex_content items : anyIndexString items =
  existsb (fun e => match fst e with KString s => isIndexString s | KSymbol _ => false end) (contentOf items).
Proof.
  unfold anyIndexString, contentOf. induction items as [|item items IH]; [reflexivity|].
  cbn [existsb map fst]. rewrite IH, name_index_key. reflexivity.
Qed.

Lemma existsb_view (f : PropertyKey -> bool) c values : length c = length values ->
  existsb (fun e => f (fst e)) (viewOf c values) = existsb (fun e => f (fst e)) c.
Proof.
  revert values. induction c as [|[k d] c IH]; intros [|s values] H; try discriminate; [reflexivity|].
  rewrite view_cons. cbn [existsb fst]. rewrite IH by (injection H; auto). reflexivity.
Qed.

Lemma indexed_run w a o c : wf_world valid w -> object_at w a o c ->
  runS (hasIndexPropertyName (m_structure o)) w = (Ret (indexed w a), w).
Proof.
  intros Hw Ho. destruct (object_items valid w a o c Hw Ho) as (items & Hl & Ec & Hit).
  apply runS_read. rewrite (hasIndex_run valid (structures w) (m_structure o) items (world_store _ _ Hw) Hl).
  unfold indexed. rewrite (listOf_object w a o c Ho), (existsb_view (fun k => match k with KString s => isIndexString s | KSymbol _ => false end))
    by exact (content_length _ _ (proj2 (proj2 Ho))).
  rewrite anyIndex_content, Ec. reflexivity.
Qed.

Lemma markAsPrototype_ok w p o c : wf_world valid w -> object_at w p o c -> isProxyObject o = false ->
  exists w', markAsPrototypeObject p w = (Ret tt, w') /\ headers w w' /\ (forall b, protoOf w' b = protoOf w b) /\
    marked w' p = true /\ (forall b, b <> p -> marked w' b = marked w b) /\
    (m_didSomePrototypeObjectDefineIndexedProperty w' = false -> indexed w p = false).
Proof.
  intros Hw Ho Hprox. pose proof (proj1 Ho) as Ha. set (o' := withFlags o (m_isExtensible o) true (m_isInlineCacheable o)).
  destruct (update_object valid w p o c o' Hw Ho eq_refl (proj2 (proj2 Ho))) as (Hw1 & _ & Ho1).
  assert (Hh : headers w (withObject p o' w)) by (apply (headers_write w p o o' Ha); split_and!; auto).
  assert (Hproto : forall b, protoOf (withObject p o' w) b = protoOf w b).
  { intros b. unfold protoOf. cbn. destruct (decide (b = p)) as [->|Hne];
      [rewrite lookup_insert_eq, Ha; reflexivity|rewrite lookup_insert_ne by congruence; reflexivity]. }
  assert (Hother : forall b, b <> p -> marked (withObject p o' w) b = marked w b)
    by (intros b Hb; unfold marked; cbn; rewrite lookup_insert_ne by congruence; reflexivity).
  assert (Hmark : marked (withObject p o' w) p = true) by (unfold marked; cbn; rewrite lookup_insert_eq; reflexivity).
  unfold markAsPrototypeObject. rewrite (bind_run _ _ _ o w (readObject_run _ _ _ Ha)).
  rewrite (bind_run _ _ _ tt _ (writeObject_run w p o')), bind_gets.
  rewrite (bind_run _ _ _ _ _ (indexed_run _ p o' c Hw1 Ho1)), Hprox.
  replace (indexed (withObject p o' w) p) with (indexed w p) by (unfold indexed; rewrite (headers_list _ _ p Hh); reflexivity).
  cbn [m_didSomePrototypeObjectDefineIndexedProperty withObject]. rewrite orb_false_r.
  destruct (negb (m_didSomePrototypeObjectDefineIndexedProperty w) && indexed w p) eqn:E.
  - exists (raised (withObject p o' w)). split; [reflexivity|]. split; [|split_and!; [exact Hproto|exact Hmark|exact Hother|discriminate]].
    destruct Hh as [K1 K2 _]. constructor; [exact K1|exact K2|reflexivity].
  - exists (withObject p o' w). split_and!; [reflexivity|exact Hh|exact Hproto|exact Hmark|exact Hother|].
    cbn. intros Hd. rewrite Hd in E. exact E.
Qed.

(** ** The constructor that is remembered *)

Lemma findConstructor_lookup items : forall i j item, findConstructor i items = Some (j, item) ->
  exists k, j = (i + k)%nat /\ items !! k = Some item.
Proof.
  induction items as [|x items IH]; intros i j item H; [discriminate|]. cbn [findConstructor] in H.
  destruct (isPlainString (m_propertyName x) && _).
  - injection H as <- <-. exists 0%nat. split; [lia|reflexivity].
  - destruct (IH (Datatypes.S i) j item H) as (k & -> & Hk). exists (Datatypes.S k). split; [lia|exact Hk].
Qed.

Lemma readConstructor_run w a o c : wf_world valid w -> object_at w a o c ->
  exists r, readConstructorSlotWithoutState a w = (Ret r, w).
Proof.
  intros Hw Ho. destruct (object_items valid w a o c Hw Ho) as (items & Hl & Ec & _).
  unfold readConstructorSlotWithoutState. rewrite (bind_run _ _ _ o w (readObject_run _ _ _ (proj1 Ho))).
  rewrite (bind_run _ _ _ items w).
  2: { destruct Hl as (s & Hs & Hp). apply runS_read. unfold properties. rewrite (bind_run _ _ _ s _ (readStructure_run _ _ _ Hs)).
    apply propertiesOf_run. exact Hp. }
  destruct (findConstructor 0 items) as [[i item]|] eqn:Ef; [|eauto].
  destruct (desc_isDataProperty (m_descriptor item)); [|eauto].
  destruct (findConstructor_lookup items 0 i item Ef) as (k & -> & Hk).
  assert (Hc : c !! k = Some (keyOfItem item, m_descriptor item))
    by (rewrite <- Ec; unfold contentOf; rewrite list_lookup_fmap, Hk; reflexivity).
  destruct (Forall2_lookup_l _ _ _ _ _ (proj2 (proj2 Ho)) Hc) as (s & Hs & _).
  rewrite (bind_run _ _ _ s w (slotAt_run w a o c k s Ho Hs)). eauto.
Qed.

(** Nothing that the chains, the marks and the flag tell changes. *)
Record quiet (w w' : World) : Prop := {
  quiet_headers : headers w w';
  quiet_proto : forall b, protoOf w' b = protoOf w b;
  quiet_marked : forall b, marked w' b = marked w b;
  quiet_flag : m_didSomePrototypeObjectDefineIndexedProperty w' = m_didSomePrototypeObjectDefineIndexedProperty w
}.

Lemma quiet_refl w : quiet w w.
Proof. constructor; auto using headers_refl. Qed.

Lemma withConstructor_quiet w a o k : objects w !! a = Some o -> quiet w (withObject a (withConstructor o k) w).
Proof.
  intros Ha. constructor; [apply (headers_write w a o _ Ha); split_and!; auto| | |reflexivity];
    intros b; unfold protoOf, marked; cbn;
    (destruct (decide (b = a)) as [->|Hne]; [rewrite lookup_insert_eq, Ha|rewrite lookup_insert_ne by congruence]); reflexivity.
Qed.

Lemma keepConstructor_ok w a o last ol cl : wf_world valid w -> objects w !! a = Some o -> object_at w last ol cl ->
  exists w', keepMeaningfulConstructor out a last w = (Ret tt, w') /\ quiet w w'.
Proof.
  intros Hw Ha Hl. unfold keepMeaningfulConstructor. rewrite (bind_run _ _ _ o w (readObject_run _ _ _ Ha)).
  assert (Hwrite : forall k, exists w', writeObject a (withConstructor o k) w = (Ret tt, w') /\ quiet w w')
    by (intros k; eexists; split; [reflexivity|apply withConstructor_quiet; exact Ha]).
  destruct (m_meaningfulConstructor o); [exists w; auto using quiet_refl|].
  rewrite (bind_run _ _ _ ol w (readObject_run _ _ _ (proj1 Hl))). destruct (classConstructor ol); [apply Hwrite|].
  destruct (readConstructor_run w last ol cl Hw Hl) as [r E]. rewrite (bind_run _ _ _ r w E).
  destruct r as [k|]; [|exists w; auto using quiet_refl].
  destruct (isFunction out k); [apply Hwrite|exists w; auto using quiet_refl].
Qed.

(** ** The method *)

(** What every world of ordinary objects has. *)
Record world_ok (w : World) : Prop := {
  ok_wf : wf_world valid w;
  ok_ordinary : forall a o, objects w !! a = Some o -> isProxyObject o = false;
  ok_chains : forall a, is_Some (objects w !! a) -> exists l, chain w a l;
  ok_marked : forall a p, protoOf w a = Some p -> marked w p = true;
  ok_flag : m_didSomePrototypeObjectDefineIndexedProperty w = false -> forall a, marked w a = true -> indexed w a = false
}.

(** The chain of [proto] leads to [a]. *)
Definition closesCycle (w : World) (a : Z) (proto : option Z) : Prop :=
  exists p l, proto = Some p /\ chain w p l /\ a ∈ l.

Definition mayChangePrototype (w : World) (a : Z) (o : Object) (proto : option Z) : Prop :=
  proto = m_prototype o \/ (m_isExtensible o = true /\ ~ closesCycle w a proto).

Lemma ok_ordinary_list w a l : world_ok w -> chain w a l -> Forall (ordinaryAt w) l.
Proof.
  intros Hok Hc. apply list.Forall_forall. intros b Hb. destruct (chain_objects w a l b Hc Hb) as [o Ho].
  exists o. split; [exact Ho|]. eapply ok_ordinary; eassumption.
Qed.

Lemma noCycle_ok w a proto : world_ok w -> (forall p, proto = Some p -> is_Some (objects w !! p)) ->
  exists b, noCycle out (Datatypes.S (size (objects w))) a proto w = (Ret b, w) /\ (b = true <-> ~ closesCycle w a proto).
Proof.
  intros Hok Hp. destruct proto as [p|].
  - destruct (ok_chains w Hok p (Hp p eq_refl)) as [l Hc].
    rewrite (noCycle_run w a p l Hc (ok_ordinary_list w p l Hok Hc)) by (pose proof (chain_length w p l Hc); lia).
    eexists. split; [reflexivity|]. rewrite bool_decide_eq_true. split.
    + intros Hn (q & l' & [= <-] & Hc' & Hin). rewrite (chain_unique w p l' l Hc' Hc) in Hin. contradiction.
    + intros Hn Hin. apply Hn. exists p, l. auto.
  - exists true. split; [reflexivity|]. split; [|reflexivity]. intros _ (q & l & [=] & _).
Qed.

(** The object [a] has got the prototype [proto], which is marked. *)
Record protoChange (w w' : World) (a : Z) (proto : option Z) : Prop := {
  pc_headers : headers w w';
  pc_proto : forall b, protoOf w' b = if decide (b = a) then proto else protoOf w b;
  pc_new : forall b, marked w' b = true -> marked w b = true \/
    (proto = Some b /\ (m_didSomePrototypeObjectDefineIndexedProperty w' = false -> indexed w b = false));
  pc_marked : forall p, proto = Some p -> marked w' p = true
}.

Lemma protoChange_quiet w w1 w2 a proto : protoChange w w1 a proto -> quiet w1 w2 -> protoChange w w2 a proto.
Proof.
  intros [H1 H2 H3 H4] [K1 K2 K3 K4]. constructor.
  - eapply headers_trans; eassumption.
  - intros b. rewrite K2. apply H2.
  - intros b. rewrite K3, K4. apply H3.
  - intros p. rewrite K3. apply H4.
Qed.

Lemma protoChange_same w a o : world_ok w -> objects w !! a = Some o -> protoChange w w a (m_prototype o).
Proof.
  intros Hok Ha. assert (E : protoOf w a = m_prototype o) by (unfold protoOf; rewrite Ha; reflexivity).
  constructor; [apply headers_refl| |auto|].
  - intros b. case_decide; [subst b; exact E|reflexivity].
  - intros p Hp. apply (ok_marked w Hok a). congruence.
Qed.

Lemma linkPrototype_ok w a o proto : world_ok w -> objects w !! a = Some o ->
  (forall p, proto = Some p -> is_Some (objects w !! p)) ->
  exists w1 o1, (match proto with Some p => markAsPrototypeObject p | None => ret tt end) w = (Ret tt, w1) /\
    objects w1 !! a = Some o1 /\ protoChange w (withObject a (withPrototype o1 proto) w1) a proto.
Proof.
  intros Hok Ha Hp.
  assert (Hmark : exists w1, (match proto with Some p => markAsPrototypeObject p | None => ret tt end) w = (Ret tt, w1) /\
    headers w w1 /\ (forall b, protoOf w1 b = protoOf w b) /\
    (forall b, marked w1 b = true -> marked w b = true \/
      (proto = Some b /\ (m_didSomePrototypeObjectDefineIndexedProperty w1 = false -> indexed w b = false))) /\
    (forall p, proto = Some p -> marked w1 p = true)).
  { destruct proto as [p|]; [|exists w; split_and!; auto using headers_refl; discriminate].
    destruct (Hp p eq_refl) as [op Hop]. destruct (world_objects _ _ (ok_wf w Hok) p op Hop) as [c Hc].
    destruct (markAsPrototype_ok w p op c (ok_wf w Hok) Hc (ok_ordinary w Hok p op Hop)) as (w1 & E & H1 & H2 & H3 & H4 & H5).
    exists w1. split_and!; [exact E|exact H1|exact H2| |congruence].
    intros b Hb. destruct (decide (b = p)) as [->|Hne]; [auto|left; rewrite H4 in Hb by exact Hne; exact Hb]. }
  destruct Hmark as (w1 & E & H1 & H2 & H3 & H4). destruct (headers_new w w1 a o H1 Ha) as (o1 & Ho1 & _).
  exists w1, o1. split; [exact E|]. split; [exact Ho1|].
  assert (Hm : forall b, marked (withObject a (withPrototype o1 proto) w1) b = marked w1 b).
  { intros b. unfold marked. cbn. destruct (decide (b = a)) as [->|Hne];
      [rewrite lookup_insert_eq, Ho1|rewrite lookup_insert_ne by congruence]; reflexivity. }
  constructor.
  - eapply headers_trans; [exact H1|]. apply (headers_write w1 a o1 _ Ho1). split_and!; auto.
  - intros b. case_decide as Hb; [subst b; unfold protoOf; cbn; rewrite lookup_insert_eq; reflexivity|].
    rewrite <- H2. unfold protoOf. cbn. rewrite lookup_insert_ne by congruence. reflexivity.
  - intros b. rewrite Hm. apply H3.
  - intros p. rewrite Hm. apply H4.
Qed.

Lemma setPrototype_ok w a o proto : world_ok w -> objects w !! a = Some o ->
  (forall p, proto = Some p -> is_Some (objects w !! p)) ->
  exists b w', setPrototype out a proto w = (Ret b, w') /\ (b = true <-> mayChangePrototype w a o proto) /\
    (if b then protoChange w w' a proto else w' = w).
Proof.
  intros Hok Ha Hp. pose proof (ok_ordinary w Hok a o Ha) as Hprox. unfold setPrototype, mayChangePrototype.
  rewrite (bind_run _ _ _ _ w (getPrototype_run out w a o Ha Hprox)).
  case_bool_decide as Esame.
  { exists true, w. split; [reflexivity|]. split; [tauto|]. rewrite Esame. apply protoChange_same; assumption. }
  rewrite (bind_run _ _ _ (m_isExtensible o) w)
    by (unfold isExtensible; rewrite (bind_run _ _ _ o w (readObject_run _ _ _ Ha)), Hprox; reflexivity).
  destruct (m_isExtensible o); cbn [negb]; [|exists false, w; split_and!; [reflexivity|intuition congruence|reflexivity]].
  destruct (noCycle_ok w a proto Hok Hp) as (b & E & Hb).
  unfold chainFuel. rewrite bind_gets, (bind_run _ _ _ b w E).
  destruct b; cbn [negb]; [|exists false, w; split_and!; [reflexivity|intuition congruence|reflexivity]].
  destruct (linkPrototype_ok w a o proto Hok Ha Hp) as (w1 & o1 & E1 & Ho1 & Hpc).
  rewrite (bind_run _ _ _ tt w1 E1), (bind_run _ _ _ o1 w1 (readObject_run _ _ _ Ho1)).
  rewrite (bind_run _ _ _ tt _ (writeObject_run w1 a _)).
  assert (Hdone : exists b w', (Ret (E := ObjectError) true, withObject a (withPrototype o1 proto) w1) = (Ret b, w') /\
    (b = true <-> proto = m_prototype o \/ true = true /\ ~ closesCycle w a proto) /\ (if b then protoChange w w' a proto else w' = w))
    by (eexists true, _; split; [reflexivity|]; split; [intuition|exact Hpc]).
  destruct (m_prototype o) as [last|] eqn:Elast; [|exact Hdone].
  set (w2 := withObject a (withPrototype o1 proto) w1) in *.
  assert (Hlast : is_Some (objects w !! last)).
  { pose proof (ok_marked w Hok a last) as Hm. unfold protoOf, marked in Hm. rewrite Ha in Hm. specialize (Hm Elast).
    destruct (objects w !! last); [eauto|discriminate]. }
  destruct Hlast as [ol Hol]. destruct (world_objects _ _ (ok_wf w Hok) last ol Hol) as [cl Hcl].
  destruct (headers_object w w2 last ol cl (pc_headers _ _ _ _ Hpc) Hcl) as (ol2 & Hcl2 & _).
  rewrite (bind_run _ _ _ ol2 w2 (readObject_run _ _ _ (proj1 Hcl2))).
  assert (Ha2 : objects w2 !! a = Some (withPrototype o1 proto)) by apply lookup_insert_eq.
  destruct (bool_decide (proto = None) || isFunctionPrototypeObject ol2 || bool_decide (is_Some (classConstructor ol2)));
    [|exact Hdone].
  destruct (keepConstructor_ok w2 a _ last ol2 cl (headers_wf valid w w2 (ok_wf w Hok) (pc_headers _ _ _ _ Hpc)) Ha2 Hcl2)
    as (w3 & E3 & Hq).
  rewrite (bind_run _ _ _ tt w3 E3). exists true, w3. split; [reflexivity|]. split; [intuition|].
  eapply protoChange_quiet; eassumption.
Qed.
End Prototypes.
