(* ===== verification/ObjectHistory.v ===== *)
(** * The life of objects

    Steps of the methods on a world of ordinary objects: what every reachable world
    has, and what no sequence of steps can change. *)

From stdpp Require Import gmap.
From S2P Require Import Prelude Value AtomicString PropertyName PropertyDescriptor ObjectStructure.
From S2P Require Import StructureSpec Object ObjectSpec ObjectDefine ObjectMethods ObjectPrototype.
Local Open Scope Z_scope.
Local Open Scope esc_scope.

Section History.
Context {heap : Heap} (valid validP : Z -> Prop) (out : Outside) (nameOf : Z -> Z) (nameOfKey : OwnKey -> Z).
Context {Hnames : ObjectNames heap valid validP nameOf nameOfKey}.
(** The structure of new objects. *)
Context (defaultStructureForObject : nat).

Abbreviation keyOf P := (propertyKey (nameOf P)).

(** ** Steps *)

Inductive method_step (w : World) : World -> Prop :=
| step_define a P desc b w' : is_Some (objects w !! a) -> validP P -> wf_descriptor desc ->
    defineOwnProperty out nameOf a P desc w = (Ret b, w') -> method_step w w'
| step_delete a P b w' : is_Some (objects w !! a) -> validP P ->
    deleteOwnProperty out nameOf a P w = (Ret b, w') -> method_step w w'
| step_preventExtensions a b w' : is_Some (objects w !! a) -> preventExtensions out a w = (Ret b, w') -> method_step w w'
| step_setPrototype a proto b w' : is_Some (objects w !! a) -> (forall p, proto = Some p -> is_Some (objects w !! p)) ->
    setPrototype out a proto w = (Ret b, w') -> method_step w w'
| step_new a proto : objects w !! a = None -> (forall p, proto = Some p -> marked w p = true) ->
    method_step w (withObject a (newObject defaultStructureForObject proto) w).

(** ** Indices among the keys *)

Definition isIndexKey (k : PropertyKey) : bool :=
  match k with KString s => isIndexString s | KSymbol _ => false end.
Definition anyIndexKey (l : list (PropertyKey * Property)) : bool := existsb (fun e => isIndexKey (fst e)) l.

Lemma anyIndexKey_put l key p : anyIndexKey (putKey l key p) = true -> anyIndexKey l = true \/ isIndexKey key = true.
Proof.
  unfold anyIndexKey. induction l as [|[k q] l IH]; cbn.
  - rewrite orb_false_r. auto.
  - case_decide as E; cbn; [auto|]. intros H. apply orb_prop in H as [H|H]; [rewrite H; auto|].
    destruct (IH H) as [H'|H']; [rewrite H', orb_true_r; auto|auto].
Qed.

Lemma anyIndexKey_remove l key : anyIndexKey (removeKey l key) = true -> anyIndexKey l = true.
Proof.
  unfold anyIndexKey. induction l as [|[k q] l IH]; cbn; [auto|]. case_decide as E; cbn; intros H.
  - rewrite H, orb_true_r. reflexivity.
  - apply orb_prop in H as [H|H]; [rewrite H; reflexivity|]. rewrite IH by exact H. apply orb_true_r.
Qed.

(** ** Every step keeps the worlds well-formed *)

Lemma chain_mono w w' a l : (forall b, is_Some (objects w !! b) -> is_Some (objects w' !! b)) ->
  (forall b, is_Some (objects w !! b) -> protoOf w' b = protoOf w b) -> chain w a l -> chain w' a l.
Proof.
  intros H1 H2. induction 1 as [a o Ha Hp|a o p l Ha Hp Hc IH]; apply chain_proto;
    (rewrite H2 by eauto); unfold protoOf; rewrite Ha; cbn; rewrite Hp; eauto.
Qed.

(** A change of the properties of one object. *)
Lemma change_ok w w' a o o' : world_ok valid w -> wf_world valid w' -> frame a w w' ->
  objects w !! a = Some o -> objects w' !! a = Some o' ->
  isProxyObject o' = isProxyObject o -> m_prototype o' = m_prototype o ->
  m_isEverSetAsPrototypeObject o' = m_isEverSetAsPrototypeObject o ->
  (m_didSomePrototypeObjectDefineIndexedProperty w' = false -> m_didSomePrototypeObjectDefineIndexedProperty w = false /\
     (marked w a = true -> anyIndexKey (listOf w' a) = false)) ->
  world_ok valid w'.
Proof.
  intros [H1 H2 H3 H4 H5] Hw' Hf Ha Ha' Ep Epr Em Hflag.
  assert (Hb : forall b, objects w' !! b = objects w !! b \/ b = a).
  { intros b. destruct (decide (b = a)) as [->|Hne]; [auto|left; apply (frame_objects _ _ _ Hf b Hne)]. }
  assert (Hsome : forall b, is_Some (objects w' !! b) <-> is_Some (objects w !! b)).
  { intros b. destruct (Hb b) as [->| ->]; [reflexivity|]. rewrite Ha, Ha'. split; eauto. }
  assert (Hproto : forall b, protoOf w' b = protoOf w b).
  { intros b. unfold protoOf. destruct (Hb b) as [->| ->]; [reflexivity|]. rewrite Ha, Ha'. exact Epr. }
  assert (Hmark : forall b, marked w' b = marked w b).
  { intros b. unfold marked. destruct (Hb b) as [->| ->]; [reflexivity|]. rewrite Ha, Ha'. exact Em. }
  constructor.
  - exact Hw'.
  - intros b ob Hob. destruct (Hb b) as [E| ->]; [rewrite E in Hob; eauto|]. replace ob with o' by congruence. rewrite Ep. eauto.
  - intros b Hob. apply Hsome in Hob. destruct (H3 b Hob) as [l Hl]. exists l.
    apply (chain_mono w w'); [intros x Hx; apply Hsome; exact Hx|auto|exact Hl].
  - intros b p. rewrite Hproto, Hmark. apply H4.
  - intros Hd b. rewrite Hmark. intros Hm. destruct (Hflag Hd) as [Hd' Hix]. destruct (decide (b = a)) as [->|Hne]; [auto|].
    specialize (H5 Hd' b Hm). unfold indexed in *. unfold marked in Hm. destruct (objects w !! b) as [ob|] eqn:Eb; [|discriminate].
    destruct (world_objects _ _ H1 b ob Eb) as [c Hc].
    rewrite (listOf_object w' b ob c (frame_content _ _ _ Hf b ob c Hne Hc)), <- (listOf_object w b ob c Hc). exact H5.
Qed.

Lemma flagFor_flag o index w : m_didSomePrototypeObjectDefineIndexedProperty (flagFor o index w) = false ->
  m_didSomePrototypeObjectDefineIndexedProperty w = false /\ (m_isEverSetAsPrototypeObject o = true -> index = false).
Proof.
  unfold flagFor. destruct (m_isEverSetAsPrototypeObject o), index, (m_didSomePrototypeObjectDefineIndexedProperty w) eqn:E;
    cbn; rewrite ?E; try discriminate; auto; try (split; [reflexivity|discriminate]).
Qed.

Lemma object_of w a : world_ok valid w -> is_Some (objects w !! a) ->
  exists o c, object_at w a o c /\ isProxyObject o = false.
Proof.
  intros Hok [o Ha]. destruct (world_objects _ _ (ok_wf valid w Hok) a o Ha) as [c Hc].
  exists o, c. split; [exact Hc|]. eapply ok_ordinary; eassumption.
Qed.

(** What a change of properties does to a world: [w1] differs from [w] in the flag. *)
Lemma changes_ok w index a o c c' values w' : world_ok valid w -> object_at w a o c ->
  changes valid (flagFor o index w) a o c' values w' ->
  (anyIndexKey (viewOf c' values) = true -> anyIndexKey (viewOf c (m_values o)) = true \/ index = true) ->
  world_ok valid w'.
Proof.
  intros Hok Ho [Hw' Hf Hd [r Ho']] Hix.
  assert (Hf' : frame a w w') by (eapply frame_trans; [apply flagFor_frame|exact Hf]).
  eapply (change_ok w w' a o _ Hok Hw' Hf' (proj1 Ho) (proj1 Ho')); try reflexivity.
  rewrite Hd. intros Hd'. destruct (flagFor_flag o index w Hd') as [H1 H2]. split; [exact H1|]. intros Hm.
  rewrite (listOf_object w' a _ _ Ho'). cbn [withValues m_values].
  pose proof (ok_flag valid w Hok H1 a Hm) as H5. unfold indexed in H5. rewrite (listOf_object w a o c Ho) in H5.
  destruct (anyIndexKey (viewOf c' values)) eqn:E; [|reflexivity]. destruct (Hix eq_refl) as [H|H].
  - unfold anyIndexKey, isIndexKey in H. congruence.
  - unfold marked in Hm. rewrite (proj1 Ho) in Hm. rewrite (H2 Hm) in H. discriminate.
Qed.

Lemma no_flag o w : flagFor o false w = w.
Proof. unfold flagFor. rewrite andb_false_r. reflexivity. Qed.

Lemma define_keeps w a P desc b w' : world_ok valid w -> is_Some (objects w !! a) -> validP P -> wf_descriptor desc ->
  defineOwnProperty out nameOf a P desc w = (Ret b, w') -> world_ok valid w' /\ frame a w w'.
Proof.
  intros Hok Ha HP Hwf E. destruct (object_of w a Hok Ha) as (o & c & Ho & Hprox).
  destruct (defineOwn_ok valid validP out nameOf nameOfKey w a o c P desc (ok_wf valid w Hok) Ho Hprox HP Hwf)
    as (w2 & c' & values & E' & Hc & Hv). assert (w2 = w') as -> by congruence.
  split; [|eapply frame_trans; [apply flagFor_frame|apply Hc]].
  eapply changes_ok; [exact Hok|exact Ho|exact Hc|]. rewrite Hv. unfold definedList.
  destruct (ValidateAndApply _ _ _) as [p|]; [|auto]. intros H. apply anyIndexKey_put in H as [H|H]; [auto|].
  right. rewrite name_index_key. exact H.
Qed.

Lemma delete_keeps w a P b w' : world_ok valid w -> is_Some (objects w !! a) -> validP P ->
  deleteOwnProperty out nameOf a P w = (Ret b, w') -> world_ok valid w' /\ frame a w w'.
Proof.
  intros Hok Ha HP E. destruct (object_of w a Hok Ha) as (o & c & Ho & Hprox).
  destruct (deleteOwn_ok valid validP out nameOf nameOfKey w a o c P (ok_wf valid w Hok) Ho Hprox HP)
    as (w2 & c' & values & E' & Hc & Hv). assert (w2 = w') as -> by congruence. split; [|apply Hc].
  rewrite <- (no_flag o w) in Hc. eapply changes_ok; [exact Hok|exact Ho|exact Hc|]. rewrite Hv.
  destruct (mayDelete _); [|auto]. intros H. left. eapply anyIndexKey_remove. exact H.
Qed.

Lemma prevent_keeps w a b w' : world_ok valid w -> is_Some (objects w !! a) ->
  preventExtensions out a w = (Ret b, w') -> world_ok valid w' /\ frame a w w'.
Proof.
  intros Hok Ha E. destruct (object_of w a Hok Ha) as (o & c & Ho & Hprox).
  destruct (preventExtensions_ok valid out w a o c (ok_wf valid w Hok) Ho Hprox)
    as (w2 & r & E' & Hw' & Hf & Ho' & Hd).
  assert (w2 = w') as -> by congruence. split; [|exact Hf]. eapply (change_ok w w' a o _ Hok Hw' Hf (proj1 Ho) (proj1 Ho')); try reflexivity.
  rewrite Hd. intros Hd'. split; [exact Hd'|]. intros Hm. rewrite (listOf_object w' a _ _ Ho').
  pose proof (ok_flag valid w Hok Hd' a Hm) as H5. unfold indexed in H5. rewrite (listOf_object w a o c Ho) in H5. exact H5.
Qed.

Lemma protoChange_keeps w w' a proto : world_ok valid w -> is_Some (objects w !! a) ->
  (forall p, proto = Some p -> is_Some (objects w !! p)) -> ~ closesCycle w a proto ->
  protoChange w w' a proto -> world_ok valid w'.
Proof.
  intros Hok Ha Hp Hcyc [H1 H2 H3 H4].
  assert (Hold : forall b, is_Some (objects w' !! b) -> is_Some (objects w !! b))
    by (intros b [ob Hb]; destruct (headers_old w w' b ob H1 Hb) as (o & Ho & _); eauto).
  assert (Hnew : forall b, is_Some (objects w !! b) -> is_Some (objects w' !! b))
    by (intros b [ob Hb]; destruct (headers_new w w' b ob H1 Hb) as (o & Ho & _); eauto).
  assert (Hother : forall b, b <> a -> protoOf w' b = protoOf w b) by (intros b Hb; rewrite H2, decide_False by exact Hb; reflexivity).
  assert (Hchain : exists la, chain w' a la).
  { destruct proto as [p|].
    - destruct (ok_chains valid w Hok p (Hp p eq_refl)) as [l Hl]. exists (a :: l). apply chain_proto. split; [auto|].
      rewrite H2, decide_True by reflexivity. exists l. split; [|reflexivity].
      apply (chain_same w w' a Hnew Hother); [exact Hl|]. intros Hin. apply Hcyc. exists p, l. auto.
    - exists [a]. apply chain_proto. split; [auto|]. rewrite H2, decide_True by reflexivity. reflexivity. }
  destruct Hchain as [la Hla]. constructor.
  - eapply headers_wf; [apply (ok_wf valid w Hok)|exact H1].
  - intros b ob' Hb. destruct (headers_old w w' b ob' H1 Hb) as (ob & Hob & (_ & _ & E & _)).
    pose proof (ok_ordinary valid w Hok b ob Hob) as Hprox. unfold isProxyObject in *. rewrite E. exact Hprox.
  - intros b Hb. destruct (ok_chains valid w Hok b (Hold b Hb)) as [l Hl]. eapply chain_update; eassumption.
  - intros b p. rewrite H2. case_decide; [apply H4|]. intros Hbp. pose proof (ok_marked valid w Hok b p Hbp) as Hm.
    unfold marked in *. destruct (objects w !! p) as [op|] eqn:Ep; [|discriminate].
    destruct (headers_new w w' p op H1 Ep) as (op' & -> & (_ & _ & _ & _ & E)). auto.
  - intros Hd b Hb. unfold indexed. rewrite (headers_list w w' b H1). destruct (H3 b Hb) as [Hm|(-> & Hix)]; [|exact (Hix Hd)].
    apply (ok_flag valid w Hok); [|exact Hm].
    destruct (m_didSomePrototypeObjectDefineIndexedProperty w) eqn:E; [|reflexivity].
    rewrite (headers_flag _ _ H1 E) in Hd. discriminate.
Qed.

Lemma setPrototype_keeps w a proto b w' : world_ok valid w -> is_Some (objects w !! a) ->
  (forall p, proto = Some p -> is_Some (objects w !! p)) ->
  setPrototype out a proto w = (Ret b, w') -> world_ok valid w' /\ headers w w'.
Proof.
  intros Hok [o Ha] Hp E.
  destruct (setPrototype_ok valid out w a o proto Hok Ha Hp) as (b2 & w2 & E' & Hb & Hc).
  assert (b2 = b) as -> by congruence. assert (w2 = w') as -> by congruence.
  destruct b; [|rewrite Hc; auto using headers_refl]. split; [|apply Hc]. destruct (proj1 Hb eq_refl) as [Esame|[_ Hcyc]].
  - apply (protoChange_keeps w w' a proto Hok (ex_intro _ o Ha) Hp); [|exact Hc].
    intros (p & l & E1 & Hl & Hin).
    destruct (chain_suffix w p l a Hl Hin) as (l' & Hl' & Hle & _).
    assert (E2 : chain w a (a :: l)) by (apply (chain_next w a o p l Ha); [congruence|exact Hl]).
    rewrite (chain_unique w a l' _ Hl' E2) in Hle. cbn in Hle. lia.
  - exact (protoChange_keeps w w' a proto Hok (ex_intro _ o Ha) Hp Hcyc Hc).
Qed.

(** ** New objects *)

(** The structure of new objects is empty, and many objects may have it. *)
Definition default_ok (w : World) : Prop :=
  live (structures w) defaultStructureForObject [] /\ shareable (structures w) defaultStructureForObject.

Lemma newObject_wf w a proto : wf_world valid w -> default_ok w -> objects w !! a = None ->
  wf_world valid (withObject a (newObject defaultStructureForObject proto) w) /\
  (forall b o c, object_at w b o c -> object_at (withObject a (newObject defaultStructureForObject proto) w) b o c).
Proof.
  intros [H1 H2 H3] [Hl Hs] Ha. set (w' := withObject a _ w).
  assert (Hkeep : forall b o c, object_at w b o c -> object_at w' b o c).
  { intros b o c (Hb & H). split; [|exact H]. cbn. rewrite lookup_insert_ne; [exact Hb|]. intros ->. congruence. }
  split; [constructor|exact Hkeep].
  - exact H1.
  - intros b o Hb. cbn in Hb. apply lookup_insert_Some in Hb as [[<- <-]|[Hne Hb]].
    + exists []. split_and!; [apply lookup_insert_eq|exists []; split; [exact Hl|reflexivity]|constructor].
    + destruct (H2 b o Hb) as [c Hc]. exists c. apply Hkeep. exact Hc.
  - intros b d o od Hb Hd E. cbn in Hb, Hd |- *.
    apply lookup_insert_Some in Hb as [[<- <-]|[Hb0 Hb]]; apply lookup_insert_Some in Hd as [[<- <-]|[Hd0 Hd]].
    + auto.
    + right. exact Hs.
    + right. rewrite E. exact Hs.
    + exact (H3 b d o od Hb Hd E).
Qed.

Lemma new_keeps w a proto : world_ok valid w -> default_ok w -> objects w !! a = None ->
  (forall p, proto = Some p -> marked w p = true) ->
  world_ok valid (withObject a (newObject defaultStructureForObject proto) w).
Proof.
  intros Hok Hd Ha Hp. destruct (newObject_wf w a proto (ok_wf valid w Hok) Hd Ha) as [Hw' Hkeep].
  set (w' := withObject a _ w) in *.
  assert (Ha' : objects w' !! a = Some (newObject defaultStructureForObject proto)) by apply lookup_insert_eq.
  assert (Hb : forall b, b <> a -> objects w' !! b = objects w !! b) by (intros b Hb; cbn; apply lookup_insert_ne; congruence).
  assert (Hne : forall b, is_Some (objects w !! b) -> b <> a) by (intros b [o Ho] ->; congruence).
  assert (Hchain : forall b l, chain w b l -> chain w' b l).
  { intros b l. apply chain_mono; [intros x Hx|intros x Hx]; unfold protoOf; rewrite Hb by (apply Hne; exact Hx); auto. }
  assert (Hmark : forall b, marked w b = true -> marked w' b = true).
  { intros b. unfold marked. destruct (decide (b = a)) as [->|Hn]; [rewrite Ha; discriminate|rewrite Hb by exact Hn; auto]. }
  assert (Hsome : forall p, marked w p = true -> is_Some (objects w !! p))
    by (intros p; unfold marked; destruct (objects w !! p); [eauto|discriminate]).
  constructor.
  - exact Hw'.
  - intros b o Ho. destruct (decide (b = a)) as [->|Hn].
    + replace o with (newObject defaultStructureForObject proto) by congruence. reflexivity.
    + rewrite Hb in Ho by exact Hn. eapply ok_ordinary; eassumption.
  - intros b Ho. destruct (decide (b = a)) as [->|Hn].
    + destruct proto as [p|].
      * destruct (ok_chains valid w Hok p (Hsome p (Hp p eq_refl))) as [l Hl]. exists (a :: l). econstructor; [exact Ha'|reflexivity|auto].
      * exists [a]. econstructor; [exact Ha'|reflexivity].
    + rewrite Hb in Ho by exact Hn. destruct (ok_chains valid w Hok b Ho) as [l Hl]. eauto.
  - intros b p Hbp. apply Hmark. destruct (decide (b = a)) as [->|Hn].
    + unfold protoOf in Hbp. rewrite Ha' in Hbp. apply Hp. exact Hbp.
    + unfold protoOf in Hbp. rewrite Hb in Hbp by exact Hn. exact (ok_marked valid w Hok b p Hbp).
  - intros Hf b Hm. unfold indexed. destruct (decide (b = a)) as [->|Hn].
    + unfold marked in Hm. rewrite Ha' in Hm. discriminate.
    + unfold marked in Hm. rewrite Hb in Hm by exact Hn. pose proof (ok_flag valid w Hok Hf b Hm) as Hix. unfold indexed in Hix.
      destruct (objects w !! b) as [o|] eqn:Eo; [|discriminate].
      destruct (world_objects _ _ (ok_wf valid w Hok) b o Eo) as [c Hc].
      rewrite (listOf_object w' b o c (Hkeep b o c Hc)), <- (listOf_object w b o c Hc). exact Hix.
Qed.

Lemma step_keeps w w' : world_ok valid w -> default_ok w -> method_step w w' -> world_ok valid w' /\ default_ok w'.
Proof.
  intros Hok Hd Hs.
  assert (Hframe : forall a, frame a w w' -> default_ok w') 
    by (intros a Hf; destruct Hd as [Hl Hsh]; destruct (frame_shared _ _ _ Hf _ _ Hsh Hl); split; assumption).
  destruct Hs as [a P desc b w' Ha HP Hwf E|a P b w' Ha HP E|a b w' Ha E|a proto b w' Ha Hp E|a proto Ha Hp].
  - destruct (define_keeps w a P desc b w' Hok Ha HP Hwf E). eauto.
  - destruct (delete_keeps w a P b w' Hok Ha HP E). eauto.
  - destruct (prevent_keeps w a b w' Hok Ha E). eauto.
  - destruct (setPrototype_keeps w a proto b w' Hok Ha Hp E) as [H1 H2]. split; [exact H1|].
    unfold default_ok. rewrite (headers_structures _ _ H2). exact Hd.
  - split; [apply new_keeps; assumption|exact Hd].
Qed.

Lemma steps_keep w w' : world_ok valid w -> default_ok w -> rtc method_step w w' -> world_ok valid w' /\ default_ok w'.
Proof.
  intros Hok Hd Hs. induction Hs as [w|w w1 w2 H1 _ IH]; [auto|].
  destruct (step_keeps w w1 Hok Hd H1) as [Hok1 Hd1]. auto.
Qed.
End History.

(** * The invariants of the essential internal methods

    What the language promises of objects over time: a property that is not
    configurable stays with its attributes, a frozen value stays, and an object that is
    not extensible keeps its prototype and gets no new property, whatever the methods do
    to it and to the objects it shares structures with. *)

(** ** What is kept *)

Section Kept.
Context {heap : Heap}.

(** The second value was accepted as the same value as the first. *)
Definition sameValue (v v' : Z) : Prop := equalsToByTheSameValueAlgorithm v' v = true.

Definition keptProperty (p p' : Property) : Prop :=
  p_configurable p' = false /\ p_enumerable p' = p_enumerable p /\
  match p, p' with
  | AccessorProperty g s _ _, AccessorProperty g' s' _ _ => g' = g /\ s' = s
  | DataProperty v writable _ _, DataProperty v' writable' _ _ =>
    writable = false -> writable' = false /\ rtc sameValue v v'
  | _, _ => False
  end.

Lemma keptProperty_refl p : p_configurable p = false -> keptProperty p p.
Proof. intros H. split; [exact H|]. split; [reflexivity|]. destruct p; auto using rtc_refl. Qed.

Lemma keptProperty_trans p p1 p2 : keptProperty p p1 -> keptProperty p1 p2 -> keptProperty p p2.
Proof.
  intros (H1 & H2 & H3) (K1 & K2 & K3). split; [exact K1|]. split; [congruence|].
  destruct p, p1, p2; try contradiction.
  - intros Hw. destruct (H3 Hw) as [Hw1 R1]. destruct (K3 Hw1) as [Hw2 R2]. split; [exact Hw2|]. eapply rtc_trans; eassumption.
  - intuition congruence.
Qed.

(** What the language accepts of a property that is not configurable. *)
Lemma compatible_kept p d : compatible p d = true -> p_configurable p = false -> keptProperty p (applyDescriptor p d).
Proof.
  unfold compatible, keptProperty. intros H Hc. rewrite Hc in H.
  destruct (bool_decide (d_configurable d = Some true)) eqn:E1; [discriminate|]. apply bool_decide_eq_false in E1.
  destruct (unchanged Bool.eqb (d_enumerable d) (p_enumerable p)) eqn:E2; [|discriminate]. cbn [negb] in H.
  assert (Ec : default (p_configurable p) (d_configurable d) = false)
    by (rewrite Hc; destruct (d_configurable d) as [[]|]; [congruence|reflexivity|reflexivity]).
  assert (Ee : default (p_enumerable p) (d_enumerable d) = p_enumerable p)
    by (destruct (d_enumerable d) as [b|]; [cbn in E2 |- *; apply eqb_prop in E2; exact E2|reflexivity]).
  unfold applyDescriptor. rewrite Ec, Ee. unfold IsAccessor, IsData in *. destruct p as [v w e c|g s e c]; cbn [p_configurable p_enumerable] in *.
  - destruct (d_get d), (d_set d); cbn in H |- *; try (destruct (d_value d), (d_writable d); discriminate H).
    split; [reflexivity|]. split; [reflexivity|]. intros ->.
    destruct (d_value d) as [v'|], (d_writable d) as [[]|]; cbn in H |- *; try discriminate H; (split; [reflexivity|]);
      rewrite ?andb_true_r in H; auto using rtc_refl; apply rtc_once; exact H.
  - destruct (d_value d), (d_writable d); cbn in H |- *; try (destruct (d_get d), (d_set d); discriminate H).
    split; [reflexivity|]. split; [reflexivity|].
    destruct (d_get d) as [g'|], (d_set d) as [s'|]; cbn in H |- *; try discriminate H; rewrite ?andb_true_r in H;
      repeat (apply andb_prop in H as [? H]); to_prop; auto.
Qed.

Lemma lookup_put l key p key' : lookupKey (putKey l key p) key' = if decide (key = key') then Some p else lookupKey l key'.
Proof.
  induction l as [|[k q] l IH]; cbn; [reflexivity|]. destruct (decide (k = key)) as [->|Hne]; cbn.
  - destruct (decide (key = key')); reflexivity.
  - destruct (decide (k = key')) as [->|]; [|exact IH]. rewrite decide_False by congruence. reflexivity.
Qed.

Lemma lookup_remove l key key' : key <> key' -> lookupKey (removeKey l key) key' = lookupKey l key'.
Proof.
  intros Hne. induction l as [|[k q] l IH]; cbn; [reflexivity|]. destruct (decide (k = key)) as [->|Hk]; cbn.
  - rewrite decide_False by exact Hne. reflexivity.
  - destruct (decide (k = key')); [reflexivity|exact IH].
Qed.

Lemma lookup_remove_none l key key' : lookupKey l key' = None -> lookupKey (removeKey l key) key' = None.
Proof.
  induction l as [|[k q] l IH]; cbn; [auto|]. destruct (decide (k = key')); [discriminate|]. intros H.
  destruct (decide (k = key)); [exact H|]. cbn. rewrite decide_False by assumption. auto.
Qed.

(** Two lists of properties, before and after. *)
Record keptList (extensible : bool) (l l' : list (PropertyKey * Property)) : Prop := {
  kept_fixed : forall key p, lookupKey l key = Some p -> p_configurable p = false ->
    exists p', lookupKey l' key = Some p' /\ keptProperty p p';
  kept_absent : extensible = false -> forall key, lookupKey l key = None -> lookupKey l' key = None
}.

Lemma keptList_refl ext l : keptList ext l l.
Proof. constructor; [|auto]. intros key p H Hc. eauto using keptProperty_refl. Qed.

Lemma defined_kept ext l key d : keptList ext l (definedList l key (ValidateAndApply ext (lookupKey l key) d)).
Proof.
  unfold ValidateAndApply, definedList. destruct (lookupKey l key) as [q|] eqn:Eq.
  - destruct (compatible q d) eqn:Ec; [|apply keptList_refl]. constructor.
    + intros key' p Hp Hc. rewrite lookup_put. case_decide as E; [|eauto using keptProperty_refl].
      subst key'. eexists. split; [reflexivity|]. replace p with q in * by congruence. apply compatible_kept; assumption.
    + intros _ key' H. rewrite lookup_put, decide_False; [exact H|]. congruence.
  - destruct ext; [|apply keptList_refl]. constructor; [|discriminate].
    intros key' p Hp Hc. rewrite lookup_put. case_decide as E; [congruence|eauto using keptProperty_refl].
Qed.

Lemma removed_kept ext l key : mayDelete (lookupKey l key) = true -> keptList ext l (removeKey l key).
Proof.
  intros H. constructor; [|auto using lookup_remove_none]. intros key' p Hp Hc.
  destruct (decide (key = key')) as [->|Hne]; [|rewrite lookup_remove by exact Hne; eauto using keptProperty_refl].
  rewrite Hp in H. cbn in H. congruence.
Qed.
End Kept.

(** ** The steps *)

Section Essential.
Context {heap : Heap} (valid validP : Z -> Prop) (out : Outside) (nameOf : Z -> Z) (nameOfKey : OwnKey -> Z).
Context {Hnames : ObjectNames heap valid validP nameOf nameOfKey}.
Context (defaultStructureForObject : nat).

Abbreviation step := (method_step validP out nameOf defaultStructureForObject).

Definition extensibleAt (w : World) (a : Z) : bool :=
  match objects w !! a with Some o => m_isExtensible o | None => true end.

Record essential (a : Z) (w w' : World) : Prop := {
  ess_object : is_Some (objects w !! a) -> is_Some (objects w' !! a);
  ess_list : keptList (extensibleAt w a) (listOf w a) (listOf w' a);
  ess_closed : extensibleAt w a = false -> extensibleAt w' a = false /\ protoOf w' a = protoOf w a
}.

Lemma essential_trans a w w1 w2 : essential a w w1 -> essential a w1 w2 -> essential a w w2.
Proof.
  intros [H1 [H2 H3] H4] [K1 [K2 K3] K4]. constructor; [auto|constructor|].
  - intros key p Hp Hc. destruct (H2 key p Hp Hc) as (p1 & Hp1 & Hk1).
    destruct (K2 key p1 Hp1 (proj1 Hk1)) as (p2 & Hp2 & Hk2). eauto using keptProperty_trans.
  - intros Hx key Hn. apply K3; [apply H4; exact Hx|]. auto.
  - intros Hx. destruct (H4 Hx) as [Hx1 E1]. destruct (K4 Hx1) as [Hx2 E2]. split; [exact Hx2|congruence].
Qed.

(** Where the list, the flag and the prototype are known to stay. *)
Lemma essential_same a w w' : is_Some (objects w' !! a) -> listOf w' a = listOf w a ->
  (extensibleAt w a = false -> extensibleAt w' a = false /\ protoOf w' a = protoOf w a) -> essential a w w'.
Proof. intros H1 H2 H3. constructor; [auto|rewrite H2; apply keptList_refl|exact H3]. Qed.

Lemma essential_refl a w : is_Some (objects w !! a) -> essential a w w.
Proof. intros H. apply essential_same; auto. Qed.

Lemma frame_essential a b w w' : wf_world valid w -> frame a w w' -> b <> a -> is_Some (objects w !! b) -> essential b w w'.
Proof.
  intros Hw Hf Hne [o Hb]. destruct (world_objects _ _ Hw b o Hb) as [c Hc].
  pose proof (frame_objects _ _ _ Hf b Hne) as E.
  apply essential_same; [rewrite E; eauto| |unfold extensibleAt, protoOf; rewrite E; auto].
  rewrite (listOf_object w' b o c (frame_content _ _ _ Hf b o c Hne Hc)), (listOf_object w b o c Hc). reflexivity.
Qed.

(** A change of the properties of the object. *)
Lemma changes_essential w index a o c c' values w' : object_at w a o c ->
  changes valid (flagFor o index w) a o c' values w' -> keptList (m_isExtensible o) (viewOf c (m_values o)) (viewOf c' values) ->
  essential a w w'.
Proof.
  intros Ho [_ _ _ [r Ho']] Hk. pose proof (proj1 Ho) as Ha. pose proof (proj1 Ho') as Ha'. constructor; [eauto| |].
  - rewrite (listOf_object w a o c Ho), (listOf_object w' a _ c' Ho'). unfold extensibleAt. rewrite Ha. exact Hk.
  - unfold extensibleAt, protoOf. rewrite Ha, Ha'. auto.
Qed.

Lemma headers_essential w w' a : headers w w' -> is_Some (objects w !! a) ->
  (extensibleAt w a = false -> protoOf w' a = protoOf w a) -> essential a w w'.
Proof.
  intros H [o Ha] Hp. destruct (headers_new w w' a o H Ha) as (o' & Ha' & _ & _ & _ & Ex & _).
  apply essential_same; [eauto|apply headers_list; exact H|]. intros Hx. split; [|auto].
  unfold extensibleAt in *. rewrite Ha in Hx. rewrite Ha', Ex. exact Hx.
Qed.

Lemma step_essential w w' b : world_ok valid w -> default_ok defaultStructureForObject w -> step w w' ->
  is_Some (objects w !! b) -> essential b w w'.
Proof.
  intros Hok Hd Hs Hb. pose proof (ok_wf valid w Hok) as Hw.
  destruct Hs as [a P desc r w' Ha HP Hwf E|a P r w' Ha HP E|a r w' Ha E|a proto r w' Ha Hp E|a proto Ha Hp].
  - destruct (define_keeps valid validP out nameOf nameOfKey w a P desc r w' Hok Ha HP Hwf E) as [_ Hf].
    destruct (decide (b = a)) as [->|Hne]; [|eapply frame_essential; eassumption].
    destruct (object_of valid w a Hok Ha) as (o & c & Ho & Hprox).
    destruct (defineOwn_ok valid validP out nameOf nameOfKey w a o c P desc Hw Ho Hprox HP Hwf) as (w2 & c' & values & E' & Hc & Hv).
    assert (w2 = w') as -> by congruence. eapply changes_essential; [exact Ho|exact Hc|]. rewrite Hv. apply defined_kept.
  - destruct (delete_keeps valid validP out nameOf nameOfKey w a P r w' Hok Ha HP E) as [_ Hf].
    destruct (decide (b = a)) as [->|Hne]; [|eapply frame_essential; eassumption].
    destruct (object_of valid w a Hok Ha) as (o & c & Ho & Hprox).
    destruct (deleteOwn_ok valid validP out nameOf nameOfKey w a o c P Hw Ho Hprox HP) as (w2 & c' & values & E' & Hc & Hv).
    assert (w2 = w') as -> by congruence. rewrite <- (no_flag o w) in Hc. eapply changes_essential; [exact Ho|exact Hc|].
    rewrite Hv. destruct (mayDelete _) eqn:Em; [apply removed_kept; exact Em|apply keptList_refl].
  - destruct (prevent_keeps valid out w a r w' Hok Ha E) as [_ Hf].
    destruct (decide (b = a)) as [->|Hne]; [|eapply frame_essential; eassumption].
    destruct (object_of valid w a Hok Ha) as (o & c & Ho & Hprox).
    destruct (preventExtensions_ok valid out w a o c Hw Ho Hprox) as (w2 & s & E' & _ & _ & Ho' & _).
    assert (w2 = w') as -> by congruence. pose proof (proj1 Ho) as Hoa. pose proof (proj1 Ho') as Hoa'.
    apply essential_same; [eauto|rewrite (listOf_object w' a _ c Ho'), (listOf_object w a o c Ho); reflexivity|].
    unfold extensibleAt, protoOf. rewrite Hoa, Hoa'. auto.
  - destruct Ha as [o Ha]. destruct (setPrototype_ok valid out w a o proto Hok Ha Hp) as (r2 & w2 & E' & Hr & Hc).
    assert (w2 = w') as -> by congruence. destruct r2; [|rewrite Hc; apply essential_refl; exact Hb].
    apply headers_essential; [apply Hc|exact Hb|]. intros Hx. rewrite (pc_proto _ _ _ _ Hc).
    case_decide as Eb; [subst b|reflexivity]. unfold extensibleAt in Hx. rewrite Ha in Hx.
    destruct (proj1 Hr eq_refl) as [Es|[Es _]]; [|congruence]. unfold protoOf. rewrite Ha. exact Es.
  - assert (Hne : b <> a) by (intros ->; destruct Hb; congruence).
    destruct (newObject_wf valid defaultStructureForObject w a proto Hw Hd Ha) as [_ Hkeep].
    destruct Hb as [o Hb]. destruct (world_objects _ _ Hw b o Hb) as [c Hc]. pose proof (Hkeep b o c Hc) as Hc'.
    apply essential_same; [eexists; apply Hc'|rewrite (listOf_object _ b o c Hc'), (listOf_object w b o c Hc); reflexivity|].
    unfold extensibleAt, protoOf. rewrite Hb, (proj1 Hc'). auto.
Qed.

Lemma steps_essential w w' b : world_ok valid w -> default_ok defaultStructureForObject w -> rtc step w w' ->
  is_Some (objects w !! b) -> essential b w w'.
Proof.
  intros Hok Hd Hs. induction Hs as [w|w w1 w2 H1 _ IH]; intros Hb; [apply essential_refl; exact Hb|].
  destruct (step_keeps valid validP out nameOf nameOfKey defaultStructureForObject w w1 Hok Hd H1) as [Hok1 Hd1].
  pose proof (step_essential w w1 b Hok Hd H1 Hb) as He. eapply essential_trans; [exact He|].
  apply IH; [exact Hok1|exact Hd1|apply (ess_object _ _ _ He); exact Hb].
Qed.
End Essential.
