(* ===== verification/ObjectSet.v ===== *)
(** * [Set]

    [Object::set] of an ordinary object on itself is OrdinarySet: what the chain of
    prototypes has of the key decides whether a property of the object is defined, a
    setter is called, or nothing happens. *)

From stdpp Require Import gmap.
From S2P Require Import Prelude Value AtomicString PropertyName PropertyDescriptor ObjectStructure.
From S2P Require Import StructureSpec Object ObjectSpec ObjectDefine ObjectMethods ObjectPrototype ObjectHistory.
Local Open Scope Z_scope.
Local Open Scope esc_scope.

Section Assignment.
Context {heap : Heap} (valid validP : Z -> Prop) (out : Outside) (nameOf : Z -> Z) (nameOfKey : OwnKey -> Z).
Context {Hnames : ObjectNames heap valid validP nameOf nameOfKey}.

Abbreviation keyOf P := (propertyKey (nameOf P)).

(** The descriptor of an assignment: a new value for an own property, or a whole new
    property. *)
Definition assignmentDescriptor (own : option Property) (v : Z) : ObjectPropertyDescriptor :=
  dataDescriptor v (match own with Some _ => 0 | None => AllPresent end).

(** What the object the property was found in, or the end of the chain, makes of it. *)
Definition assign (w : World) (receiver P v : Z) (found : option Property) : OM bool :=
  match found with
  | Some (DataProperty _ false _ _) => ret false
  | Some (AccessorProperty _ setter _ _) =>
    if isUndefined setter then ret false else do! call out setter receiver [v] in ret true
  | _ => defineOwnProperty out nameOf receiver P (assignmentDescriptor (lookupKey (listOf w receiver) (keyOf P)) v)
  end.

Lemma result_of_property r p : propertyOfResult r = Some p -> (forall data self v wr e c, r <> NativeResult data self v wr e c) ->
  match p with
  | DataProperty v wr e c => r = DataResult v wr e c
  | AccessorProperty g s e c => exists gs, r = AccessorResult gs e c /\ s = orUndefined (m_setter gs)
  end.
Proof. intros E Hn. destruct r; cbn in E; try discriminate; injection E as <-; eauto. destruct (Hn _ _ _ _ _ _ eq_refl). Qed.

(** [setWith] on what was found, when the receiver has no such property but the one
    that was found. *)
Lemma setWith_run w a P v receiver found hasOwn r : wf_world valid w -> ordinaryAt w receiver -> validP P ->
  isObject receiver = true ->
  match found with Some p => propertyOfResult r = Some p | None => r = DataResult ValueUndefined true true true end ->
  (forall data self v wr e c, r <> NativeResult data self v wr e c) ->
  (if hasOwn && (a =? receiver) then lookupKey (listOf w receiver) (keyOf P) = found /\ found <> None
   else lookupKey (listOf w receiver) (keyOf P) = None) ->
  setWith out nameOf a P v receiver hasOwn r w = assign w receiver P v found w.
Proof.
  intros Hw Hrec HP Hobj Hr Hn Hown.
  assert (Hreceiver : setOnReceiver out nameOf a P v receiver hasOwn w =
    defineOwnProperty out nameOf receiver P (assignmentDescriptor (lookupKey (listOf w receiver) (keyOf P)) v) w).
  { unfold setOnReceiver. destruct (hasOwn && (a =? receiver)).
    - destruct Hown as [-> Hf]. destruct found; [reflexivity|contradiction].
    - destruct (getOwn_plain valid validP out nameOf nameOfKey w receiver P Hw Hrec HP) as (r' & E & Er & _). rewrite (bind_run _ _ _ r' w E).
      rewrite hasValue_property, Er, Hown. reflexivity. }
  unfold setWith, assign. destruct found as [p|].
  - pose proof (result_of_property r p Hr Hn) as Hp. destruct p as [v0 wr e c|g s e c].
    + rewrite Hp. cbn [result_isDataProperty result_isWritable]. rewrite Hobj. destruct wr; [exact Hreceiver|reflexivity].
    + destruct Hp as (gs & -> & ->). cbn [result_isDataProperty jsGetterSetter]. rewrite orUndefined_hasSetter. reflexivity.
  - rewrite Hr. cbn [result_isDataProperty result_isWritable]. rewrite Hobj. exact Hreceiver.
Qed.

Lemma walk_set w P v receiver a l : wf_world valid w -> chain w a l -> Forall (ordinaryAt w) l -> validP P ->
  ordinaryAt w receiver -> isObject receiver = true ->
  (a = receiver \/ (lookupKey (listOf w receiver) (keyOf P) = None /\ ~ receiver ∈ l)) ->
  forall fuel, (length l <= fuel)%nat ->
  Object_set out nameOf fuel a P v receiver w = assign w receiver P v (chainLookup w l (keyOf P)) w.
Proof.
  intros Hw H Hord HP Hrec Hobj. induction H as [a o Ha Hp|a o p l Ha Hp Hc IH]; intros Hcase [|fuel] Hf; cbn [length] in Hf; try lia.
  all: apply Forall_cons_1 in Hord as [Ho Hrest].
  all: destruct (getOwn_plain valid validP out nameOf nameOfKey w a P Hw Ho HP) as (r & E & Er & Hn).
  all: assert (Hprox : isProxyObject o = false) by (destruct Ho as (o' & Ha' & ?); congruence).
  all: pose proof (getPrototype_run out w a o Ha Hprox) as Eproto; rewrite Hp in Eproto.
  all: cbn [Object_set chainLookup]; rewrite (bind_run _ _ _ r w E), hasValue_property, Er.
  all: assert (Hfound : forall q, lookupKey (listOf w a) (keyOf P) = Some q ->
    setWith out nameOf a P v receiver true r w = assign w receiver P v (Some q) w)
    by (intros q Eq; apply setWith_run; try assumption; [congruence|]; destruct (Z.eqb_spec a receiver) as [<-|Hne]; cbn [andb];
        [split; congruence|destruct Hcase as [?|[? _]]; [contradiction|assumption]]).
  all: destruct (lookupKey (listOf w a) (keyOf P)) as [q|] eqn:Eq; [exact (Hfound q eq_refl)|].
  all: assert (Hnone : lookupKey (listOf w receiver) (keyOf P) = None) by (destruct Hcase as [<-|[? _]]; assumption).
  all: rewrite (bool_decide_eq_false_2 (is_Some None)) by (intros [? [=]]); rewrite (bind_run _ _ _ _ w Eproto).
  - apply setWith_run; try assumption; [reflexivity|discriminate].
  - destruct (chain_head w p l Hc) as [l' El]. pose proof Hrest as Hp'. rewrite El in Hp'.
    apply Forall_cons_1 in Hp' as [(op & Hop & Hpp) _].
    rewrite (bind_run _ _ _ op w (readObject_run _ _ _ Hop)), Hpp. apply (IH Hrest); [|lia]. right. split; [exact Hnone|].
    destruct Hcase as [<-|[_ Hnin]]; [|intros Hin; apply Hnin; right; exact Hin].
    assert (Hnd : NoDup (a :: l)) by (apply (chain_NoDup w a); econstructor; eassumption).
    apply list.NoDup_cons in Hnd. apply Hnd.
Qed.

Lemma set_run w a l P v : wf_world valid w -> chain w a l -> Forall (ordinaryAt w) l -> validP P -> isObject a = true ->
  set out nameOf a P v a w = assign w a P v (chainLookup w l (keyOf P)) w.
Proof.
  intros Hw Hc Hord HP Hobj. pose proof (chain_length w a l Hc) as Hlen.
  destruct (chain_head w a l Hc) as [l' El]. pose proof Hord as Ho. rewrite El in Ho.
  apply Forall_cons_1 in Ho as [Ho _]. destruct (Ho) as (o & Ha & Hprox).
  unfold set, chainFuel. rewrite (bind_run _ _ _ o w (readObject_run _ _ _ Ha)), Hprox, bind_gets.
  apply walk_set; auto.
Qed.

(** ** Reading back *)

Lemma assignment_wf own v : wf_descriptor (assignmentDescriptor own v).
Proof. destruct own; split; try reflexivity; discriminate. Qed.

(** The property after an assignment. *)
Definition assigned (own : option Property) (v : Z) : Property :=
  match own with
  | Some (DataProperty _ _ e c) => DataProperty v true e c
  | _ => DataProperty v true true true
  end.

Lemma assignment_accepted extensible own v :
  match own with Some (DataProperty _ true _ _) => True | None => extensible = true | _ => False end ->
  ValidateAndApply extensible own (descriptorOf (assignmentDescriptor own v)) = Some (assigned own v).
Proof.
  destruct own as [[v0 [|] e c|g s e c]|]; cbn; intros H; try contradiction.
  - unfold compatible. cbn. destruct c; reflexivity.
  - rewrite H. reflexivity.
Qed.

Lemma changes_chain w w' a o c values b l : world_ok valid w -> objects w !! a = Some o ->
  frame a w w' -> (exists r, object_at w' a (withValues (withStructure o r) values) c) ->
  chain w b l -> chain w' b l /\ Forall (ordinaryAt w') l.
Proof.
  intros Hok Ha Hf [r Ho'] Hc.
  assert (Hx : forall x ox, objects w !! x = Some ox -> exists ox', objects w' !! x = Some ox' /\
             m_prototype ox' = m_prototype ox /\ isProxyObject ox' = isProxyObject ox).
  { intros x ox Hx. destruct (decide (x = a)) as [->|Hne].
    - replace ox with o by congruence. eexists. split; [apply Ho'|]. split; reflexivity.
    - exists ox. rewrite (frame_objects _ _ _ Hf x Hne). auto. }
  split.
  - apply (chain_mono w w'); [intros x [ox Hox]|intros x [ox Hox]|exact Hc]; destruct (Hx x ox Hox) as (ox' & E & Ep & _).
    + eauto.
    + unfold protoOf. rewrite E, Hox. exact Ep.
  - apply list.Forall_forall. intros x Hin. destruct (chain_objects w b l x Hc Hin) as [ox Hox].
    destruct (Hx x ox Hox) as (ox' & E & _ & Ep). exists ox'. split; [exact E|]. rewrite Ep. eapply ok_ordinary; eassumption.
Qed.

Lemma read_back w a o l P v : world_ok valid w -> objects w !! a = Some o -> chain w a l -> validP P -> isObject a = true ->
  match chainLookup w l (keyOf P) with None => True | Some (DataProperty _ writable _ _) => writable = true | _ => False end ->
  (lookupKey (listOf w a) (keyOf P) = None -> m_isExtensible o = true) ->
  exists w' r, set out nameOf a P v a w = (Ret true, w') /\ world_ok valid w' /\
    get out nameOf a P a w' = (Ret r, w') /\
    propertyOfResult r = Some (assigned (lookupKey (listOf w a) (keyOf P)) v).
Proof.
  intros Hok Ha Hc HP Hobj Hfound Hext. pose proof (ok_wf valid w Hok) as Hw.
  rewrite (set_run w a l P v Hw Hc (ok_ordinary_list valid w a l Hok Hc) HP Hobj).
  destruct (world_objects _ _ Hw a o Ha) as [c Ho]. pose proof (ok_ordinary valid w Hok a o Ha) as Hprox.
  set (own := lookupKey (listOf w a) (keyOf P)) in *.
  assert (Eassign : assign w a P v (chainLookup w l (keyOf P)) w =
                    defineOwnProperty out nameOf a P (assignmentDescriptor own v) w).
  { unfold assign. fold own. destruct (chainLookup w l (keyOf P)) as [[v0 wr e c0|]|]; [subst wr; reflexivity|contradiction|reflexivity]. }
  assert (Hown : match own with Some (DataProperty _ true _ _) => True | None => m_isExtensible o = true | _ => False end).
  { destruct (chain_head w a l Hc) as [l' El]. rewrite El in Hfound. cbn [chainLookup] in Hfound. fold own in Hfound.
    destruct own as [[v0 wr e c0|]|]; [subst wr; exact I|contradiction|auto]. }
  rewrite Eassign.
  destruct (defineOwn_ok valid validP out nameOf nameOfKey w a o c P (assignmentDescriptor own v) Hw Ho Hprox HP (assignment_wf own v))
    as (w' & c' & values & E & Hch & Hv).
  destruct (define_keeps valid validP out nameOf nameOfKey w a P _ _ w' Hok (ex_intro _ o Ha) HP (assignment_wf own v) E) as [Hok' Hf'].
  assert (El : viewOf c (m_values o) = listOf w a) by (symmetry; apply listOf_object; exact Ho).
  rewrite El in E, Hv. fold own in E, Hv. rewrite (assignment_accepted _ own v Hown) in E, Hv.
  destruct (changes_chain w w' a o c' values a l Hok Ha Hf' (changes_object _ _ _ _ _ _ _ Hch) Hc) as [Hc' Hord'].
  destruct (get_run valid validP out nameOf nameOfKey w' a l P (ok_wf valid w' Hok') Hc' Hord' HP) as [Hget _].
  destruct (Hget a) as (r & Er & Hr). exists w', r. split; [exact E|]. split; [exact Hok'|]. split; [exact Er|].
  destruct (chain_head w a l Hc) as [l' El']. rewrite Hr, El'. cbn [chainLookup].
  destruct (changes_object _ _ _ _ _ _ _ Hch) as [s Hos]. rewrite (listOf_object w' a _ c' Hos). cbn [withValues m_values].
  rewrite Hv. cbn [definedList]. rewrite lookup_put, decide_True by reflexivity. reflexivity.
Qed.
End Assignment.
