(* ===== verification/ObjectKeys.v ===== *)
(** * [OwnPropertyKeys]

    The own keys of an object come in the order of the language: indices ascending,
    then strings, then symbols, both in the order in which they were added. *)

From stdpp Require Import gmap sorting.
From stdpp Require Import gmap.
From S2P Require Import Prelude Value AtomicString PropertyName PropertyDescriptor ObjectStructure.
From S2P Require Import StructureSpec Object ObjectSpec ObjectDefine ObjectMethods ObjectPrototype ObjectHistory.
Local Open Scope Z_scope.
Local Open Scope esc_scope.

(** ** The order of the language *)

Definition indexOfKey (k : PropertyKey) : Z :=
  match k with KString s => tryToUseAsIndexProperty s | KSymbol _ => InvalidIndexPropertyValue end.
Definition keyIsIndex (k : PropertyKey) : bool := negb (indexOfKey k =? InvalidIndexPropertyValue).
Definition keyIsSymbol (k : PropertyKey) : bool := match k with KSymbol _ => true | KString _ => false end.
Definition keyIsText (k : PropertyKey) : bool := negb (keyIsIndex k) && negb (keyIsSymbol k).

Definition OrdinaryOwnPropertyKeys (keys result : list PropertyKey) : Prop :=
  exists indices, result = indices ++ List.filter keyIsText keys ++ List.filter keyIsSymbol keys /\
    indices ≡ₚ List.filter keyIsIndex keys /\
    StronglySorted (fun a b => indexOfKey a < indexOfKey b) indices.

(** ** The multiset *)

Lemma multiset_insert_perm n l : multiset_insert n l ≡ₚ n :: l.
Proof.
  induction l as [|m l IH]; [reflexivity|]. cbn. destruct (n <? m); [reflexivity|].
  rewrite IH. apply Permutation_swap.
Qed.

Lemma multiset_insert_sorted n l : StronglySorted Z.le l -> StronglySorted Z.le (multiset_insert n l).
Proof.
  induction 1 as [|m l Hs IH Hf]; cbn; [repeat constructor|]. destruct (Z.ltb_spec n m) as [Hlt|Hge].
  - constructor; [constructor; assumption|]. constructor; [lia|]. eapply list.Forall_impl; [exact Hf|]. intros x Hx. cbn in *. lia.
  - constructor; [exact IH|]. rewrite multiset_insert_perm. constructor; [lia|exact Hf].
Qed.

Section Keys.
Context {heap : Heap}.

Definition nameIsIndex (m : Z) : bool := negb (name_tryToUseAsIndexProperty m =? InvalidIndexPropertyValue).
Definition nameIsText (m : Z) : bool := negb (nameIsIndex m) && negb (isSymbol m).
Definition nameIsSymbol (m : Z) : bool := negb (nameIsIndex m) && isSymbol m.

Lemma collect_spec names : forall lists, StronglySorted Z.le (indexes lists) ->
  let r := fold_left collectKey names lists in
  StronglySorted Z.le (indexes r) /\
  indexes r ≡ₚ indexes lists ++ map name_tryToUseAsIndexProperty (List.filter nameIsIndex names) /\
  strings r = strings lists ++ List.filter nameIsText names /\
  symbols r = symbols lists ++ List.filter nameIsSymbol names.
Proof.
  induction names as [|m names IH]; intros lists Hs; cbn [fold_left List.filter map].
  - rewrite !app_nil_r. auto.
  - assert (H : StronglySorted Z.le (indexes (collectKey lists m)))
      by (unfold collectKey; destruct (negb _); [apply multiset_insert_sorted; exact Hs|destruct (isSymbol m); exact Hs]).
    destruct (IH (collectKey lists m) H) as (H1 & H2 & H3 & H4). split; [exact H1|].
    rewrite H2, H3, H4. unfold collectKey, nameIsText, nameIsSymbol, nameIsIndex.
    destruct (negb (name_tryToUseAsIndexProperty m =? InvalidIndexPropertyValue)) eqn:E; cbn [negb andb indexes strings symbols map].
    + split_and!; [|reflexivity|reflexivity]. rewrite multiset_insert_perm. cbn [app]. rewrite Permutation_middle. reflexivity.
    + destruct (isSymbol m); cbn [negb andb indexes strings symbols]; rewrite <- ?app_assoc; auto.
Qed.

(** Names and keys are classified alike. *)
Lemma name_classes m : nameIsIndex m = keyIsIndex (propertyKey m) /\ nameIsText m = keyIsText (propertyKey m) /\
  nameIsSymbol m = keyIsSymbol (propertyKey m).
Proof.
  unfold nameIsText, nameIsSymbol, nameIsIndex, keyIsText, keyIsIndex. rewrite !tryToUse_key. unfold propertyKey.
  destruct (isSymbol m); cbn; rewrite ?andb_true_r, ?andb_false_r; auto.
Qed.

Lemma filter_names (p : Z -> bool) (q : PropertyKey -> bool) names : (forall m, p m = q (propertyKey m)) ->
  map propertyKey (List.filter p names) = List.filter q (map propertyKey names).
Proof.
  intros H. induction names as [|m names IH]; [reflexivity|]. cbn. rewrite H. destruct (q (propertyKey m)); cbn; rewrite IH; reflexivity.
Qed.
End Keys.

Lemma sorted_keys (f : Z -> PropertyKey) l : StronglySorted Z.le l -> (forall n, n ∈ l -> indexOfKey (f n) = n) ->
  NoDup (map f l) -> StronglySorted (fun a b => indexOfKey a < indexOfKey b) (map f l).
Proof.
  induction 1 as [|n l Hs IH Hf]; intros Hi Hn; cbn; [constructor|]. cbn in Hn. apply list.NoDup_cons in Hn as [Hn0 Hn].
  constructor; [apply IH; [intros m Hm; apply Hi; right; exact Hm|exact Hn]|].
  apply list.Forall_forall. intros k Hk. apply list_elem_of_In, in_map_iff in Hk as (m & <- & Hm). apply list_elem_of_In in Hm.
  rewrite (Hi n) by left. rewrite (Hi m) by (right; exact Hm).
  pose proof (proj1 (list.Forall_forall _ _) Hf m Hm). assert (n <> m); [|lia]. intros ->. apply Hn0.
  apply list_elem_of_In, in_map, list_elem_of_In. exact Hm.
Qed.

Section OwnKeys.
Context {heap : Heap} (valid validP : Z -> Prop) (out : Outside) (nameOf : Z -> Z) (nameOfKey : OwnKey -> Z).
Context {Hnames : ObjectNames heap valid validP nameOf nameOfKey}.

Definition keyOfOwn (k : OwnKey) : PropertyKey := propertyKey (nameOf (nameOfKey k)).

Lemma properties_run w o items : live (structures w) (m_structure o) items ->
  runS (properties (m_structure o)) w = (Ret items, w).
Proof.
  intros (s & Hs & Hp). apply runS_read. unfold properties. rewrite (bind_run _ _ _ s _ (readStructure_run _ _ _ Hs)).
  apply propertiesOf_run. exact Hp.
Qed.

(** The index of a name leads back to its key. *)
Lemma own_index m : valid m -> nameIsIndex m = true ->
  keyOfOwn (IndexKey (name_tryToUseAsIndexProperty m)) = propertyKey m /\ validP (nameOfKey (IndexKey (name_tryToUseAsIndexProperty m))).
Proof.
  intros Hm Hi. unfold nameIsIndex in Hi. apply negb_true_iff, Z.eqb_neq in Hi.
  destruct (key_ofIndex m _ Hm eq_refl Hi) as [H1 H2]. auto.
Qed.

Lemma indices_ok names idx : Forall valid names -> NoDup (map propertyKey names) ->
  StronglySorted Z.le idx -> idx ≡ₚ map name_tryToUseAsIndexProperty (List.filter nameIsIndex names) ->
  map (fun n => keyOfOwn (IndexKey n)) idx ≡ₚ List.filter keyIsIndex (map propertyKey names) /\
  StronglySorted (fun a b => indexOfKey a < indexOfKey b) (map (fun n => keyOfOwn (IndexKey n)) idx) /\
  Forall (fun n => validP (nameOfKey (IndexKey n))) idx.
Proof.
  intros Hv Hn Hs Hp.
  assert (Hin : forall m, m ∈ List.filter nameIsIndex names -> valid m /\ nameIsIndex m = true).
  { intros m Hm. apply list_elem_of_In, filter_In in Hm as [Hm Hi]. apply list_elem_of_In in Hm.
    split; [exact (proj1 (list.Forall_forall _ _) Hv m Hm)|exact Hi]. }
  assert (Hidx : forall n, n ∈ idx -> exists m, n = name_tryToUseAsIndexProperty m /\ valid m /\ nameIsIndex m = true).
  { intros n H. rewrite Hp in H. apply list_elem_of_In, in_map_iff in H as (m & <- & Hm). apply list_elem_of_In in Hm.
    destruct (Hin m Hm). eauto. }
  assert (Hperm : map (fun n => keyOfOwn (IndexKey n)) idx ≡ₚ List.filter keyIsIndex (map propertyKey names)).
  { rewrite Hp, <- (filter_names nameIsIndex keyIsIndex names) by apply name_classes. rewrite map_map.
    match goal with |- ?x ≡ₚ ?y => enough (x = y) as -> by reflexivity end. apply map_ext_in. intros m Hm. apply list_elem_of_In in Hm. destruct (Hin m Hm). apply own_index; assumption. }
  split; [exact Hperm|]. split.
  - apply sorted_keys; [exact Hs| |].
    + intros n H. destruct (Hidx n H) as (m & -> & Hm & Hi). rewrite (proj1 (own_index m Hm Hi)). symmetry. apply tryToUse_key.
    + rewrite Hperm. apply NoDup_ListNoDup, List.NoDup_filter, NoDup_ListNoDup. exact Hn.
  - apply list.Forall_forall. intros n H. destruct (Hidx n H) as (m & -> & Hm & Hi). apply own_index; assumption.
Qed.

Lemma named_ok names : Forall valid names ->
  map keyOfOwn (map NameKey names) = map propertyKey names /\ Forall (fun k => validP (nameOfKey k)) (map NameKey names).
Proof.
  induction 1 as [|m names Hm _ [IH1 IH2]]; [split; [reflexivity|constructor]|]. destruct (key_name m Hm) as [H1 H2].
  cbn. split; [unfold keyOfOwn at 1; rewrite H2, IH1; reflexivity|constructor; assumption].
Qed.

Lemma filter_valid (p : Z -> bool) names : Forall valid names -> Forall valid (List.filter p names).
Proof.
  intros H. apply list.Forall_forall. intros m Hm. apply list_elem_of_In, filter_In in Hm as [Hm _]. apply list_elem_of_In in Hm.
  exact (proj1 (list.Forall_forall _ _) H m Hm).
Qed.

Lemma ownKeys_ok w a o c : wf_world valid w -> object_at w a o c -> isProxyObject o = false ->
  exists ks, ownPropertyKeys out a w = (Ret ks, w) /\ Forall (fun k => validP (nameOfKey k)) ks /\
    OrdinaryOwnPropertyKeys (map fst c) (map keyOfOwn ks).
Proof.
  intros Hw Ho Hprox. destruct (object_items valid w a o c Hw Ho) as (items & Hl & Ec & Hit).
  set (names := map m_propertyName items).
  assert (Hkeys : map fst c = map propertyKey names)
    by (rewrite <- Ec; unfold contentOf, names; rewrite !map_map; reflexivity).
  assert (Hv : Forall valid names).
  { apply list.Forall_forall. intros m Hm. apply list_elem_of_In, in_map_iff in Hm as (item & <- & Hi). apply list_elem_of_In in Hi.
    exact (items_valid_name valid plainDesc items item Hit Hi). }
  assert (Hn : NoDup (map propertyKey names)).
  { apply NoDup_ListNoDup. unfold names. rewrite map_map. exact (items_distinct _ _ _ Hit). }
  destruct (collect_spec names {| indexes := []; strings := []; symbols := [] |} ltac:(constructor)) as (H1 & H2 & H3 & H4).
  unfold ownPropertyKeys. rewrite (bind_run _ _ _ o w (readObject_run _ _ _ (proj1 Ho))), Hprox.
  unfold objectOwnPropertyKeys. rewrite (bind_run _ _ _ o w (readObject_run _ _ _ (proj1 Ho))).
  rewrite (bind_run _ _ _ items w (properties_run w o items Hl)).
  set (lists := fold_left collectKey _ _) in *. cbn [strings symbols app] in H3, H4. eexists. split; [reflexivity|].
  destruct (indices_ok names (indexes lists) Hv Hn H1 H2) as (K1 & K2 & K3).
  destruct (named_ok _ (filter_valid nameIsText names Hv)) as [T1 T2].
  destruct (named_ok _ (filter_valid nameIsSymbol names Hv)) as [S1 S2]. rewrite H3, H4. split.
  - apply Forall_app. split; [|apply Forall_app; auto]. apply List.Forall_map. exact K3.
  - exists (map (fun n => keyOfOwn (IndexKey n)) (indexes lists)). rewrite Hkeys. split; [|auto].
    rewrite !map_app, T1, S1, map_map. rewrite (filter_names nameIsText keyIsText), (filter_names nameIsSymbol keyIsSymbol) by apply name_classes.
    reflexivity.
Qed.
End OwnKeys.

(** * Integrity levels

    [setIntegrityLevel] makes every property of an ordinary object unconfigurable, and
    for the level frozen every value read-only, and [testIntegrityLevel] tells whether
    that is so. *)

(** ** Lists *)

Section Lists.
Context {heap : Heap}.

(** What a level makes of a property, and whether it has the level. *)
Definition levelProperty (isSealed : bool) (p : Property) : Property :=
  match p with
  | DataProperty v writable e _ => DataProperty v (isSealed && writable) e false
  | AccessorProperty g s e _ => AccessorProperty g s e false
  end.
Definition hasLevel (isSealed : bool) (p : Property) : bool :=
  negb (p_configurable p) &&
  match p with DataProperty _ writable _ _ => isSealed || negb writable | AccessorProperty _ _ _ _ => true end.

Lemma levelProperty_has isSealed p : hasLevel isSealed (levelProperty isSealed p) = true.
Proof. destruct p as [v [] e c|]; destruct isSealed; reflexivity. Qed.
Lemma levelProperty_same isSealed p : hasLevel isSealed p = true -> levelProperty isSealed p = p.
Proof. destruct p as [v [] e []|g s e []]; destruct isSealed; cbn; congruence. Qed.

Abbreviation PropertyList := (list (PropertyKey * Property)).

Definition updateKey (f : Property -> Property) (l : PropertyList) (key : PropertyKey) : PropertyList :=
  match lookupKey l key with Some p => putKey l key (f p) | None => l end.

Lemma map_same {A} (g : A -> A) l : (forall x, In x l -> g x = x) -> map g l = l.
Proof. intros H. rewrite <- (map_id l) at 2. apply map_ext_in. exact H. Qed.

Lemma updateKey_map f l key : List.NoDup (map fst l) ->
  updateKey f l key = map (fun e => (fst e, if decide (fst e = key) then f (snd e) else snd e)) l.
Proof.
  unfold updateKey. induction l as [|[k p] l IH]; [reflexivity|]. cbn. intros Hn. inversion Hn as [|? ? Hk Hn']; subst.
  destruct (decide (k = key)) as [->|Hne].
  - f_equal. symmetry. apply map_same. intros [k' p'] Hin. cbn. rewrite decide_False; [reflexivity|].
    intros ->. apply Hk. apply (in_map fst) in Hin. exact Hin.
  - specialize (IH Hn'). destruct (lookupKey l key); rewrite <- IH; reflexivity.
Qed.

Lemma updateKey_keys f l key : List.NoDup (map fst l) -> map fst (updateKey f l key) = map fst l.
Proof. intros H. rewrite updateKey_map by exact H. rewrite map_map. reflexivity. Qed.

Lemma updateKeys_map f ks : (forall p, f (f p) = f p) -> forall l, List.NoDup (map fst l) ->
  fold_left (updateKey f) ks l = map (fun e => (fst e, if decide (fst e ∈ ks) then f (snd e) else snd e)) l.
Proof.
  intros Hf. induction ks as [|key ks IH]; intros l Hn; cbn [fold_left].
  - symmetry. apply map_same. intros [k p] _. cbn. rewrite decide_False; [reflexivity|]. apply not_elem_of_nil.
  - rewrite IH by (rewrite updateKey_keys; assumption). rewrite updateKey_map, map_map by exact Hn. apply map_ext.
    intros [k p]. cbn [fst snd]. f_equal. destruct (decide (k = key)) as [->|Hne].
    + rewrite (decide_True (P := key ∈ key :: ks)) by left. destruct (decide (key ∈ ks)); [apply Hf|reflexivity].
    + destruct (decide (k ∈ ks)) as [Hin|Hin].
      * rewrite decide_True by (right; exact Hin). reflexivity.
      * rewrite decide_False; [reflexivity|]. rewrite not_elem_of_cons. auto.
Qed.

Lemma lookup_in l key p : lookupKey l key = Some p -> In (key, p) l.
Proof.
  induction l as [|[k q] l IH]; [discriminate|]. cbn. case_decide as E; [intros [= <-]; left; congruence|right; auto].
Qed.

Lemma in_lookup l key p : List.NoDup (map fst l) -> In (key, p) l -> lookupKey l key = Some p.
Proof.
  induction l as [|[k q] l IH]; [contradiction|]. cbn. intros Hn [[= -> ->]|Hin]; inversion Hn as [|? ? Hk Hn']; subst.
  - rewrite decide_True by reflexivity. reflexivity.
  - rewrite decide_False; [auto|]. intros ->. apply Hk. apply (in_map fst) in Hin. exact Hin.
Qed.

Lemma put_same l key p : lookupKey l key = Some p -> putKey l key p = l.
Proof.
  induction l as [|[k q] l IH]; [discriminate|]. cbn. destruct (decide (k = key)); [intros [= ->]; reflexivity|].
  intros H. rewrite IH by exact H. reflexivity.
Qed.
End Lists.

(** Every key is among the own keys. *)
Lemma own_keys_cover keys result k : OrdinaryOwnPropertyKeys keys result -> In k keys -> k ∈ result.
Proof.
  intros (indices & -> & Hp & _) Hk. rewrite !elem_of_app, Hp, !list_elem_of_In, !filter_In.
  unfold keyIsText. destruct (keyIsIndex k), (keyIsSymbol k); auto.
Qed.

(** ** The steps *)

Section Integrity.
Context {heap : Heap} (valid validP : Z -> Prop) (out : Outside) (nameOf : Z -> Z) (nameOfKey : OwnKey -> Z).
Context {Hnames : ObjectNames heap valid validP nameOf nameOfKey}.

(** The descriptor that [setIntegrityLevel] passes. *)
Definition levelDescriptor (isSealed : bool) (r : ObjectGetResult) : ObjectPropertyDescriptor :=
  match r with
  | AccessorResult gs e c => setConfigurable (setConfigurable (setEnumerable (accessorDescriptor gs 0) e) c) false
  | DataResult v wr e c =>
    let d := setConfigurable (setConfigurable (setEnumerable (setWritable (dataDescriptor v 0) wr) e) c) false in
    if isSealed then d else setWritable d false
  | _ => dataDescriptor ValueUndefined 0
  end.

Lemma levelDescriptor_ok isSealed key d s : slot_ok (key, d) s ->
  wf_descriptor (levelDescriptor isSealed (resultOf d s)) /\
  applyDescriptor (propertyOf d s) (descriptorOf (levelDescriptor isSealed (resultOf d s))) = levelProperty isSealed (propertyOf d s) /\
  (hasLevel isSealed (propertyOf d s) = false ->
   compatible (propertyOf d s) (descriptorOf (levelDescriptor isSealed (resultOf d s))) = true).
Proof.
  intros Hok. unfold resultOf, propertyOf. destruct s as [v|gs]; [cbn in Hok|destruct Hok as [Hok Hgs]; cbn in Hok]; rewrite Hok.
  - destruct isSealed, (desc_isWritable d), (desc_isEnumerable d), (desc_isConfigurable d);
      (split; [split; [reflexivity|discriminate]|split; [reflexivity|cbn; congruence || reflexivity]]).
  - cbn [levelDescriptor slotGetterSetter levelProperty].
    assert (Eg : default (orUndefined (m_getter gs)) (presentIf (hasGetter gs) (m_getter gs)) = orUndefined (m_getter gs) /\
                 default (orUndefined (m_setter gs)) (presentIf (hasSetter gs) (m_setter gs)) = orUndefined (m_setter gs)).
    { rewrite orUndefined_hasGetter, orUndefined_hasSetter. destruct (hasGetter gs), (hasSetter gs); auto. }
    destruct Eg as [Eg Es]. split; [split|split].
    + destruct (desc_isEnumerable d), (desc_isConfigurable d); reflexivity.
    + intros _. destruct (desc_isEnumerable d), (desc_isConfigurable d); exact Hgs.
    + destruct (desc_isEnumerable d), (desc_isConfigurable d); cbn; f_equal; assumption.
    + unfold hasLevel, compatible. cbn [p_configurable]. rewrite andb_true_r, negb_false_iff. intros ->. reflexivity.
Qed.

Abbreviation levelKey := (fun isSealed : bool => if isSealed then sealKey out nameOf nameOfKey else freezeKey out nameOf nameOfKey).

(** A key of the loop, before the definition. *)
Lemma levelKey_run isSealed a receiver k key d s w : slot_ok (key, d) s ->
  getOwnProperty out nameOf a (nameOfKey k) w = (Ret (resultOf d s), w) ->
  levelKey isSealed a receiver k w =
  if hasLevel isSealed (propertyOf d s) then (Ret tt, w)
  else defineOwnPropertyThrowsException out nameOf a (nameOfKey k) (levelDescriptor isSealed (resultOf d s)) w.
Proof.
  intros Hok E. destruct (resultOf_flags d s) as (Fc & _ & Fd & Fv).
  destruct isSealed; [unfold sealKey|unfold freezeKey]; rewrite (bind_run _ _ _ _ w E), ?Fv, Fc.
  all: unfold propertyOf, resultOf; apply slot_kind in Hok; destruct s as [v|gs]; cbn in Hok; rewrite Hok.
  all: cbn [result_isDataProperty result_isWritable slotValue slotGetterSetter].
  all: destruct (desc_isConfigurable d); try destruct (desc_isWritable d); reflexivity.
Qed.

Lemma sameBut_trans o o1 o2 : sameButProperties o o1 -> sameButProperties o1 o2 -> sameButProperties o o2.
Proof. unfold sameButProperties. intros E1 E2. rewrite E2, E1. reflexivity. Qed.

Lemma sameBut_proxy o o' : sameButProperties o o' -> isProxyObject o' = isProxyObject o.
Proof. intros ->. reflexivity. Qed.

Lemma levelKey_ok isSealed w a o l receiver k : wf_world valid w -> objects w !! a = Some o -> has_properties w a l ->
  isProxyObject o = false -> validP (nameOfKey k) ->
  exists w' o', levelKey isSealed a receiver k w = (Ret tt, w') /\ wf_world valid w' /\ frame a w w' /\
    objects w' !! a = Some o' /\ sameButProperties o o' /\
    has_properties w' a (updateKey (levelProperty isSealed) l (keyOfOwn nameOf nameOfKey k)).
Proof.
  intros Hw Ha Hl Hprox HP. destruct (has_properties_at w a o l Ha Hl) as (c & Ho & El).
  pose proof (getOwn_ok valid validP out nameOf nameOfKey w a o c (nameOfKey k) Hw Ho Hprox HP) as E.
  pose proof (view_lookup c (m_values o) (keyOfOwn nameOf nameOfKey k) (proj2 (proj2 Ho))) as Hlook.
  unfold resultAt in E. unfold keyOfOwn in *. unfold updateKey. rewrite El.
  destruct (contentIndex c (propertyKey (nameOf (nameOfKey k)))) as [i|].
  2: { rewrite Hlook. exists w, o. split; [destruct isSealed; [unfold sealKey|unfold freezeKey]; rewrite (bind_run _ _ _ _ w E); reflexivity|].
    rewrite <- El. split_and!; auto using frame_refl. unfold sameButProperties. destruct o; reflexivity. }
  destruct Hlook as (d & s & Hi & Hs & Hok & Ep). rewrite Hi, Hs in E. rewrite Ep.
  pose proof (levelKey_run isSealed a receiver k _ d s w Hok E) as Erun.
  destruct (hasLevel isSealed (propertyOf d s)) eqn:Elevel.
  - exists w, o. split; [exact Erun|]. rewrite (levelProperty_same _ _ Elevel), put_same by exact Ep. rewrite <- El.
    split_and!; auto using frame_refl. unfold sameButProperties. destruct o; reflexivity.
  - destruct (levelDescriptor_ok isSealed _ d s Hok) as (Hwf & Happly & Hcomp).
    destruct (defineOwn_ok valid validP out nameOf nameOfKey w a o c (nameOfKey k) _ Hw Ho Hprox HP Hwf) as (w' & c' & values & Ed & Hc & Hv).
    rewrite Ep in Ed, Hv. cbn [ValidateAndApply] in Ed, Hv. rewrite (Hcomp Elevel), Happly in Ed, Hv. cbn [definedList] in Hv.
    destruct (changes_summary valid _ _ _ _ _ _ Hc) as (K1 & K2 & K3 & o' & K4 & K5). exists w', o'.
    unfold defineOwnPropertyThrowsException in Erun. rewrite (bind_run _ _ _ true w' Ed) in Erun.
    split; [exact Erun|]. rewrite Hv in K3. split_and!; auto. eapply frame_trans; [apply flagFor_frame|exact K2].
Qed.

Lemma levelKeys_ok isSealed a receiver ks : forall w o l, wf_world valid w -> objects w !! a = Some o ->
  has_properties w a l -> isProxyObject o = false -> Forall (fun k => validP (nameOfKey k)) ks ->
  exists w' o', forEachKey (levelKey isSealed a receiver) ks w = (Ret tt, w') /\ wf_world valid w' /\ frame a w w' /\
    objects w' !! a = Some o' /\ sameButProperties o o' /\
    has_properties w' a (fold_left (updateKey (levelProperty isSealed)) (map (keyOfOwn nameOf nameOfKey) ks) l).
Proof.
  induction ks as [|k ks IH]; intros w o l Hw Ha Hl Hprox HP.
  - exists w, o. split_and!; auto using frame_refl. unfold sameButProperties. destruct o; reflexivity.
  - apply Forall_cons_1 in HP as [HP HPs].
    destruct (levelKey_ok isSealed w a o l receiver k Hw Ha Hl Hprox HP) as (w1 & o1 & E1 & Hw1 & Hf1 & Ha1 & Hs1 & Hl1).
    destruct (IH w1 o1 _ Hw1 Ha1 Hl1 (eq_trans (sameBut_proxy o o1 Hs1) Hprox) HPs) as (w2 & o2 & E2 & Hw2 & Hf2 & Ha2 & Hs2 & Hl2).
    exists w2, o2. cbn [forEachKey map fold_left]. rewrite (bind_run _ _ _ tt w1 E1).
    split_and!; eauto using frame_trans, sameBut_trans.
Qed.

(** ** The methods *)

(** The properties as [testIntegrityLevel] looks at them. *)
Lemma test_has_level isSealed r p : propertyOfResult r = Some p -> (forall data self v wr e c, r <> NativeResult data self v wr e c) ->
  (hasValue r && result_isConfigurable r = false /\
   hasValue r && negb isSealed && result_isDataProperty r && result_isWritable r = false) <-> hasLevel isSealed p = true.
Proof.
  intros E Hn. destruct r as [|v wr e c|data self v wr e c|gs e c]; [discriminate| |destruct (Hn _ _ _ _ _ _ eq_refl)|];
    injection E as <-; unfold hasLevel; cbn; destruct isSealed; try destruct wr; destruct c; cbn; intuition discriminate.
Qed.

Definition levelAt (isSealed : bool) (l : list (PropertyKey * Property)) (key : PropertyKey) : bool :=
  match lookupKey l key with Some p => hasLevel isSealed p | None => true end.

Lemma testKeys_run isSealed w a ks : wf_world valid w -> ordinaryAt w a -> Forall (fun k => validP (nameOfKey k)) ks ->
  testKeys out nameOf nameOfKey a isSealed ks w =
  (Ret (forallb (levelAt isSealed (listOf w a)) (map (keyOfOwn nameOf nameOfKey) ks)), w).
Proof.
  intros Hw Ho. induction 1 as [|k ks HP _ IH]; [reflexivity|]. cbn [testKeys map forallb].
  destruct (getOwn_plain valid validP out nameOf nameOfKey w a (nameOfKey k) Hw Ho HP) as (r & E & Er & Hn).
  rewrite (bind_run _ _ _ r w E). unfold levelAt at 1, keyOfOwn at 1. destruct (lookupKey (listOf w a) _) as [p|] eqn:Ep.
  - pose proof (test_has_level isSealed r p Er Hn) as Ht.
    destruct (hasValue r && result_isConfigurable r), (hasValue r && negb isSealed && result_isDataProperty r && result_isWritable r),
      (hasLevel isSealed p); cbn [andb]; try exact IH; try reflexivity; exfalso; destruct Ht as [H1 H2];
      first [destruct (H2 eq_refl); discriminate|specialize (H1 (conj eq_refl eq_refl)); discriminate].
  - destruct r; try discriminate Er. exact IH.
Qed.

Lemma view_keys w a o c : wf_world valid w -> object_at w a o c ->
  map fst (viewOf c (m_values o)) = map fst c /\ List.NoDup (map fst (viewOf c (m_values o))).
Proof.
  intros Hw Ho. assert (E : map fst (viewOf c (m_values o)) = map fst c).
  { pose proof (content_length _ _ (proj2 (proj2 Ho))) as Hlen. generalize dependent (m_values o). clear. intros values.
    revert values. induction c as [|[k d] c IH]; intros [|s values] H; try discriminate; [reflexivity|].
    rewrite view_cons. cbn. rewrite IH by (injection H; auto). reflexivity. }
  split; [exact E|]. rewrite E. destruct (object_items valid w a o c Hw Ho) as (items & _ & <- & Hit).
  unfold contentOf. rewrite map_map. exact (items_distinct _ _ _ Hit).
Qed.

Lemma forallb_levels isSealed l keys : List.NoDup (map fst l) -> (forall k, In k (map fst l) -> k ∈ keys) ->
  forallb (levelAt isSealed l) keys = forallb (fun e => hasLevel isSealed (snd e)) l.
Proof.
  intros Hn Hcover. apply eq_true_iff_eq. rewrite !forallb_forall. split.
  - intros H [k p] Hin. specialize (H k). unfold levelAt in H. rewrite (in_lookup l k p Hn Hin) in H. apply H.
    apply list_elem_of_In, Hcover. apply (in_map fst) in Hin. exact Hin.
  - intros H k _. unfold levelAt. destruct (lookupKey l k) as [p|] eqn:E; [|reflexivity]. exact (H (k, p) (lookup_in l k p E)).
Qed.

Lemma testLevel_ok isSealed w a o l : wf_world valid w -> objects w !! a = Some o -> has_properties w a l ->
  isProxyObject o = false ->
  testIntegrityLevel out nameOf nameOfKey a isSealed w =
  (Ret (negb (m_isExtensible o) && forallb (fun e => hasLevel isSealed (snd e)) l), w).
Proof.
  intros Hw Ha Hl Hprox. destruct (has_properties_at w a o l Ha Hl) as (c & Ho & ->). unfold testIntegrityLevel.
  rewrite (bind_run _ _ _ (m_isExtensible o) w)
    by (unfold isExtensible; rewrite (bind_run _ _ _ o w (readObject_run _ _ _ Ha)), Hprox; reflexivity).
  destruct (m_isExtensible o); [reflexivity|]. cbn [negb andb].
  destruct (ownKeys_ok valid validP out nameOf nameOfKey w a o c Hw Ho Hprox) as (ks & E & HP & Hord). rewrite (bind_run _ _ _ ks w E).
  rewrite (testKeys_run isSealed w a ks Hw (ex_intro _ o (conj Ha Hprox)) HP), (listOf_object w a o c Ho).
  destruct (view_keys w a o c Hw Ho) as [Ek Hn]. rewrite forallb_levels; [reflexivity|exact Hn|].
  intros k Hk. rewrite Ek in Hk. exact (own_keys_cover _ _ k Hord Hk).
Qed.

Lemma setLevel_ok isSealed w a o l : wf_world valid w -> objects w !! a = Some o -> has_properties w a l ->
  isProxyObject o = false ->
  exists w' o', setIntegrityLevel out nameOf nameOfKey a isSealed w = (Ret true, w') /\ wf_world valid w' /\ frame a w w' /\
    objects w' !! a = Some o' /\ m_isExtensible o' = false /\ isProxyObject o' = false /\
    has_properties w' a (map (fun e => (fst e, levelProperty isSealed (snd e))) l).
Proof.
  intros Hw Ha Hl Hprox. destruct (has_properties_at w a o l Ha Hl) as (c & Ho & ->).
  destruct (preventExtensions_ok valid out w a o c Hw Ho Hprox) as (w1 & r & E1 & Hw1 & Hf1 & Ho1 & _).
  set (o1 := withFlags _ _ _ _) in Ho1. assert (Hprox1 : isProxyObject o1 = false) by exact Hprox.
  destruct (ownKeys_ok valid validP out nameOf nameOfKey w1 a o1 c Hw1 Ho1 Hprox1) as (ks & E & HP & Hord).
  destruct (levelKeys_ok isSealed a (Value_pointer a) ks w1 o1 _ Hw1 (proj1 Ho1) (ex_intro _ o1 (ex_intro _ c (conj Ho1 eq_refl))) Hprox1 HP)
    as (w2 & o2 & E2 & Hw2 & Hf2 & Ha2 & Hs2 & Hl2).
  exists w2, o2. unfold setIntegrityLevel. rewrite (bind_run _ _ _ true w1 E1). cbn [negb]. rewrite (bind_run _ _ _ ks w1 E).
  rewrite (bind_run _ _ _ tt w2 E2). split; [reflexivity|]. split; [exact Hw2|]. split; [eapply frame_trans; eassumption|].
  split; [exact Ha2|]. split; [rewrite Hs2; reflexivity|]. split; [rewrite (sameBut_proxy _ _ Hs2); exact Hprox1|].
  destruct (view_keys w1 a o1 c Hw1 Ho1) as [Ek Hn].
  rewrite updateKeys_map in Hl2; [|intros p; apply levelProperty_same, levelProperty_has|exact Hn].
  replace (map _ (viewOf c (m_values o))) with
    (map (fun e : PropertyKey * Property => (fst e, if decide (fst e ∈ map (keyOfOwn nameOf nameOfKey) ks)
       then levelProperty isSealed (snd e) else snd e)) (viewOf c (m_values o1))); [exact Hl2|].
  apply map_ext_in. intros [k p] Hin. cbn [fst snd]. rewrite decide_True; [reflexivity|].
  apply (own_keys_cover _ _ k Hord). rewrite <- Ek. exact (in_map fst _ _ Hin).
Qed.
End Integrity.
