(* ===== verification/ObjectProperties.v ===== *)
(** * What the objects guarantee

    The theorems on the methods of ordinary objects, each with a concrete world in
    which it is used: a context with the strings [k] and [7] and one symbol. *)

From stdpp Require Import gmap sorting.
From S2P Require Import Prelude Value AtomicString PropertyName PropertyDescriptor ObjectStructure.
From S2P Require Import StructureSpec Object ObjectSpec ObjectDefine ObjectMethods ObjectPrototype ObjectHistory.
From S2P Require Import ObjectSet ObjectKeys.
Local Open Scope Z_scope.
Local Open Scope esc_scope.

(** ** The example *)

Definition objectStrings : Strings := snd (initLatin1 (snd (initLatin1 (initialStrings 8192) [107])) [55]).
Definition objectSymbols : gset Z := {[ 4096 ]}.
#[export] Instance objectHeap : Heap := heapOf objectStrings objectSymbols.
Definition atomicTexts (k : PropertyKey) : bool := match k with KString _ => true | KSymbol _ => false end.

Abbreviation exValid := (contextValid objectStrings objectSymbols atomicTexts).
Abbreviation exValidP := (contextValidP objectStrings objectSymbols atomicTexts).
Abbreviation exNameOf := (contextNameOf objectStrings objectSymbols).
Abbreviation exNameOfKey := (contextNameOfKey objectStrings).

Lemma objectStrings_ok : wf_strings objectStrings /\ symbols_below objectStrings objectSymbols.
Proof.
  split.
  - apply initLatin1_ok, initLatin1_ok, initialStrings_wf. split; reflexivity.
  - intros p ->%elem_of_singleton. split_and!; vm_compute; split || idtac; reflexivity.
Qed.

#[export] Instance example_objects : ObjectNames objectHeap exValid exValidP exNameOf exNameOfKey.
Proof. apply context_objects; [apply objectStrings_ok|apply objectStrings_ok|reflexivity]. Qed.

(** The names [k] and [7], the symbol, and the integer 7. *)
Definition name_k : Z := 8209.
Definition name_7 : Z := 8225.

Lemma exValid_k : exValid name_k.
Proof.
  split; [|vm_compute; reflexivity]. apply (wf_atomic objectStrings objectSymbols 8208).
  apply list_elem_of_In. vm_compute. auto.
Qed.
Lemma exValid_symbol : exValid 4096.
Proof. split; [apply wf_symbol; unfold objectSymbols; set_solver|vm_compute; reflexivity]. Qed.
Lemma exValidP_7 : exValidP (setUIntValue 7).
Proof.
  right. exists 7, 8224. split; [unfold MAXIMUM_UINT_FOR_32BIT_PROPERTY_NAME; lia|].
  split_and!; vm_compute; reflexivity.
Qed.

(** A world without proxies, calls and native data. *)
Definition nothingOutside : Outside :=
  {| proxy_getOwnProperty := fun _ _ => throw TypeError; proxy_defineOwnProperty := fun _ _ _ => throw TypeError;
     proxy_deleteOwnProperty := fun _ _ => throw TypeError; proxy_hasProperty := fun _ _ => throw TypeError;
     proxy_get := fun _ _ _ => throw TypeError; proxy_set := fun _ _ _ _ => throw TypeError;
     proxy_ownPropertyKeys := fun _ => throw TypeError; proxy_isExtensible := fun _ => throw TypeError;
     proxy_preventExtensions := fun _ => throw TypeError; proxy_getPrototype := fun _ => throw TypeError;
     call := fun _ _ _ => throw TypeError; isCallable := fun _ => false; isFunction := fun _ => false;
     nativeGet := fun _ _ _ _ => throw TypeError; nativeSet := fun _ _ _ _ _ => throw TypeError;
     newNative := fun _ => throw TypeError |}.

Abbreviation exStep := (method_step exValidP nothingOutside exNameOf 0).

Definition emptyWorld : World :=
  {| structures := [rootStructure]; objects := ∅; m_didSomePrototypeObjectDefineIndexedProperty := false |}.

Lemma emptyWorld_none a : objects emptyWorld !! a = None.
Proof. apply lookup_empty. Qed.

Lemma emptyWorld_ok : world_ok exValid emptyWorld /\ default_ok 0 emptyWorld.
Proof.
  split; [constructor|].
  - constructor; [apply root_wf|intros a o H|intros a b o o' H]; rewrite emptyWorld_none in H; discriminate.
  - intros a o H. rewrite emptyWorld_none in H. discriminate.
  - intros a [o H]. rewrite emptyWorld_none in H. discriminate.
  - intros a p H. unfold protoOf in H. rewrite emptyWorld_none in H. discriminate.
  - intros _ a H. unfold marked in H. rewrite emptyWorld_none in H. discriminate.
  - split; exists rootStructure; split; auto.
Qed.

(** One object; the object with a property [k]; a second object, and the first as its
    prototype. *)
Definition firstObject : Z := 16384.
Definition secondObject : Z := 16400.
Definition firstWorld : World := withObject firstObject (newObject 0 None) emptyWorld.
Definition seven : ObjectPropertyDescriptor := dataDescriptor (Value_int 7) AllPresent.
Definition definedWorld : World := snd (defineOwnProperty nothingOutside exNameOf firstObject name_k seven firstWorld).
Definition secondWorld : World := withObject secondObject (newObject 0 None) definedWorld.
Definition linkedWorld : World := snd (setPrototype nothingOutside secondObject (Some firstObject) secondWorld).

Lemma seven_wf : wf_descriptor seven.
Proof. split; [reflexivity|discriminate]. Qed.

Lemma firstWorld_steps : rtc exStep emptyWorld firstWorld.
Proof. apply rtc_once, step_new; [reflexivity|discriminate]. Qed.
Lemma definedWorld_steps : rtc exStep emptyWorld definedWorld.
Proof.
  eapply rtc_r; [exact firstWorld_steps|]. eapply (step_define _ _ _ _ _ firstObject name_k seven true).
  - eexists. reflexivity.
  - left. exact exValid_k.
  - exact seven_wf.
  - vm_compute. reflexivity.
Qed.
Lemma secondWorld_steps : rtc exStep emptyWorld secondWorld.
Proof. eapply rtc_r; [exact definedWorld_steps|]. apply step_new; [vm_compute; reflexivity|discriminate]. Qed.
Lemma linkedWorld_steps : rtc exStep emptyWorld linkedWorld.
Proof.
  eapply rtc_r; [exact secondWorld_steps|]. eapply (step_setPrototype _ _ _ _ _ secondObject (Some firstObject) true).
  - eexists. vm_compute. reflexivity.
  - intros p [= <-]. eexists. vm_compute. reflexivity.
  - vm_compute. reflexivity.
Qed.

Lemma reached_ok w : rtc exStep emptyWorld w -> world_ok exValid w /\ default_ok 0 w.
Proof.
  intros H. destruct emptyWorld_ok as [H1 H2].
  exact (steps_keep exValid exValidP nothingOutside exNameOf exNameOfKey 0 emptyWorld w H1 H2 H).
Qed.

Definition objectOf (w : World) (a : Z) : Object := default (newObject 0 None) (objects w !! a).

(** The object at an address has the properties that are computed. *)
Lemma listOf_has valid w a : world_ok valid w -> is_Some (objects w !! a) -> has_properties w a (listOf w a).
Proof.
  intros Hok [o Ha]. destruct (world_objects _ _ (ok_wf valid w Hok) a o Ha) as [c Ho].
  exists o, c. split; [exact Ho|]. apply listOf_object. exact Ho.
Qed.

Lemma chain_second : chain linkedWorld secondObject [secondObject; firstObject].
Proof.
  apply (chain_next _ _ (objectOf linkedWorld secondObject) firstObject); [vm_compute; reflexivity|vm_compute; reflexivity|].
  apply (chain_last _ _ (objectOf linkedWorld firstObject)); vm_compute; reflexivity.
Qed.

(** ** The methods on one object *)

(** C2: [Object::defineOwnProperty] is ValidateAndApplyPropertyDescriptor of the language
    on the list of properties of the object: it answers true exactly when the language
    accepts the change, the list then has the property the language says in its place
    or at the end, and otherwise stays as it is; no step of it fails, the flags and the
    prototype of the object and all other objects, whatever structures they share with
    it, are as before. *)
Theorem define_refines {heap : Heap} valid validP out nameOf nameOfKey
    {Hnames : ObjectNames heap valid validP nameOf nameOfKey} w a o l P desc
    (verdict := ValidateAndApply (m_isExtensible o) (lookupKey l (propertyKey (nameOf P))) (descriptorOf desc)) :
  wf_world valid w -> objects w !! a = Some o -> has_properties w a l -> isProxyObject o = false ->
  validP P -> wf_descriptor desc ->
  exists w', defineOwnProperty out nameOf a P desc w = (Ret (bool_decide (is_Some verdict)), w') /\
    wf_world valid w' /\ frame a w w' /\
    has_properties w' a (definedList l (propertyKey (nameOf P)) verdict) /\
    exists o', objects w' !! a = Some o' /\ sameButProperties o o'.
Proof.
  intros Hw Ha Hl Hprox HP Hwf. destruct (has_properties_at w a o l Ha Hl) as (c & Ho & El). subst verdict. rewrite El.
  destruct (defineOwn_ok valid validP out nameOf nameOfKey w a o c P desc Hw Ho Hprox HP Hwf)
    as (w' & c' & values & E & Hc & Hv).
  exists w'. split; [exact E|]. destruct (changes_summary _ _ _ _ _ _ _ Hc) as (H1 & H2 & H3 & H4).
  split; [exact H1|]. split; [eapply frame_trans; [apply flagFor_frame|exact H2]|]. rewrite Hv in H3. auto.
Qed.

Lemma define_refines_witness :
  exists w', defineOwnProperty nothingOutside exNameOf firstObject name_k seven firstWorld = (Ret true, w') /\
    has_properties w' firstObject [(KString [107], DataProperty (Value_int 7) true true true)].
Proof.
  destruct (define_refines exValid exValidP nothingOutside exNameOf exNameOfKey firstWorld firstObject
    (newObject 0 None) [] name_k seven) as (w' & E & _ & _ & H & _).
  - apply (reached_ok _ firstWorld_steps).
  - vm_compute. reflexivity.
  - exact (listOf_has exValid firstWorld firstObject (proj1 (reached_ok _ firstWorld_steps)) (ex_intro _ _ eq_refl)).
  - reflexivity.
  - left. exact exValid_k.
  - exact seven_wf.
  - exists w'. split; [exact E|exact H].
Defined.

(** [Object::deleteOwnProperty] takes the property out of the list and answers true,
    but for a property that is not configurable, which stays; the order of the others and
    all other objects are as before. *)
Theorem delete_refines {heap : Heap} valid validP out nameOf nameOfKey
    {Hnames : ObjectNames heap valid validP nameOf nameOfKey} w a o l P
    (ok := mayDelete (lookupKey l (propertyKey (nameOf P)))) :
  wf_world valid w -> objects w !! a = Some o -> has_properties w a l -> isProxyObject o = false -> validP P ->
  exists w', deleteOwnProperty out nameOf a P w = (Ret ok, w') /\ wf_world valid w' /\ frame a w w' /\
    has_properties w' a (if ok then removeKey l (propertyKey (nameOf P)) else l) /\
    exists o', objects w' !! a = Some o' /\ sameButProperties o o'.
Proof.
  intros Hw Ha Hl Hprox HP. destruct (has_properties_at w a o l Ha Hl) as (c & Ho & El). subst ok. rewrite El.
  destruct (deleteOwn_ok valid validP out nameOf nameOfKey w a o c P Hw Ho Hprox HP) as (w' & c' & values & E & Hc & Hv).
  exists w'. split; [exact E|]. destruct (changes_summary _ _ _ _ _ _ _ Hc) as (H1 & H2 & H3 & H4). rewrite Hv in H3. auto.
Qed.

Lemma delete_refines_witness :
  exists w', deleteOwnProperty nothingOutside exNameOf firstObject name_k definedWorld = (Ret true, w') /\
    has_properties w' firstObject [].
Proof.
  destruct (delete_refines exValid exValidP nothingOutside exNameOf exNameOfKey definedWorld firstObject
    (objectOf definedWorld firstObject) (listOf definedWorld firstObject) name_k) as (w' & E & _ & _ & H & _).
  - apply (reached_ok _ definedWorld_steps).
  - vm_compute. reflexivity.
  - apply (listOf_has exValid); [apply (reached_ok _ definedWorld_steps)|eexists; vm_compute; reflexivity].
  - vm_compute. reflexivity.
  - left. exact exValid_k.
  - exists w'. split; [exact E|exact H].
Defined.

(** [isCompatiblePropertyDescriptor], the second copy of the validation, which proxies
    use on what [getOwnProperty] answered, decides for every object of plain properties
    what [defineOwnProperty] would answer; [getOwnProperty] is the lookup in the list. *)
Theorem compatible_predicts_define {heap : Heap} valid validP out nameOf nameOfKey
    {Hnames : ObjectNames heap valid validP nameOf nameOfKey} w a o l P desc :
  wf_world valid w -> objects w !! a = Some o -> has_properties w a l -> isProxyObject o = false ->
  validP P -> wf_descriptor desc ->
  exists current b w', getOwnProperty out nameOf a P w = (Ret current, w) /\
    propertyOfResult current = lookupKey l (propertyKey (nameOf P)) /\
    isCompatiblePropertyDescriptor out (m_isExtensible o) desc current w = (Ret b, w) /\
    defineOwnProperty out nameOf a P desc w = (Ret b, w').
Proof.
  intros Hw Ha Hl Hprox HP Hwf. destruct (has_properties_at w a o l Ha Hl) as (c & Ho & ->).
  destruct (defineOwn_ok valid validP out nameOf nameOfKey w a o c P desc Hw Ho Hprox HP Hwf) as (w' & _ & _ & E & _).
  eexists _, _, w'. split; [apply (getOwn_ok valid validP out nameOf nameOfKey w a o c P Hw Ho Hprox HP)|].
  split; [apply resultAt_property; apply Ho|]. split; [|exact E].
  apply (predicted out nameOf w o c P desc); [apply Ho|exact Hwf].
Qed.

Lemma compatible_predicts_define_witness :
  exists current b w', getOwnProperty nothingOutside exNameOf firstObject (setUIntValue 7) definedWorld = (Ret current, definedWorld) /\
    isCompatiblePropertyDescriptor nothingOutside true seven current definedWorld = (Ret b, definedWorld) /\
    defineOwnProperty nothingOutside exNameOf firstObject (setUIntValue 7) seven definedWorld = (Ret b, w').
Proof.
  destruct (compatible_predicts_define exValid exValidP nothingOutside exNameOf exNameOfKey definedWorld firstObject
    (objectOf definedWorld firstObject) (listOf definedWorld firstObject) (setUIntValue 7) seven)
    as (current & b & w' & H1 & _ & H2 & H3).
  - apply (reached_ok _ definedWorld_steps).
  - vm_compute. reflexivity.
  - apply (listOf_has exValid); [apply (reached_ok _ definedWorld_steps)|eexists; vm_compute; reflexivity].
  - vm_compute. reflexivity.
  - exact exValidP_7.
  - exact seven_wf.
  - exists current, b, w'. split_and!; [exact H1|exact H2|exact H3].
Defined.

(** ** Chains of prototypes *)

(** [get] and [hasProperty] return after at most as many turns as there are objects,
    and answer for the first object of the chain that has the property: the value, the
    attributes and the accessors of exactly that one, or that there is none. *)
Theorem get_finds_first_holder {heap : Heap} valid validP out nameOf nameOfKey
    {Hnames : ObjectNames heap valid validP nameOf nameOfKey} w a l P :
  wf_world valid w -> chain w a l -> Forall (ordinaryAt w) l -> validP P ->
  (length l <= size (objects w))%nat /\
  (forall receiver, exists r, get out nameOf a P receiver w = (Ret r, w) /\
     propertyOfResult r = chainLookup w l (propertyKey (nameOf P))) /\
  hasProperty out nameOf a P w = (Ret (bool_decide (is_Some (chainLookup w l (propertyKey (nameOf P))))), w).
Proof.
  intros Hw Hc Ho HP. split; [apply (chain_length w a); exact Hc|].
  exact (get_run valid validP out nameOf nameOfKey w a l P Hw Hc Ho HP).
Qed.

Lemma get_finds_first_holder_witness :
  exists r, get nothingOutside exNameOf secondObject name_k secondObject linkedWorld = (Ret r, linkedWorld) /\
    propertyOfResult r = Some (DataProperty (Value_int 7) true true true).
Proof.
  destruct (reached_ok _ linkedWorld_steps) as [Hok _].
  destruct (get_finds_first_holder exValid exValidP nothingOutside exNameOf exNameOfKey linkedWorld secondObject _ name_k
    (ok_wf _ _ Hok) chain_second (ok_ordinary_list _ _ _ _ Hok chain_second) (or_introl exValid_k)) as (_ & H & _).
  destruct (H secondObject) as (r & E & Er). exists r. split; [exact E|]. rewrite Er. vm_compute. reflexivity.
Defined.

(** [setPrototype] answers true exactly when the prototype is the one the object has,
    or when the object is extensible and is not on the chain of the new one; the prototype
    is then that one, marked as a prototype, and every chain of the world still ends, so the
    loop that looks for the cycle ends too; a refusal changes nothing. *)
Theorem setPrototype_refuses_cycles {heap : Heap} valid validP out nameOf nameOfKey
    {Hnames : ObjectNames heap valid validP nameOf nameOfKey} w a o proto :
  world_ok valid w -> objects w !! a = Some o -> (forall p, proto = Some p -> is_Some (objects w !! p)) ->
  exists b w', setPrototype out a proto w = (Ret b, w') /\ (b = true <-> mayChangePrototype w a o proto) /\
    world_ok valid w' /\ (if b then protoChange w w' a proto else w' = w).
Proof.
  intros Hok Ha Hp. destruct (setPrototype_ok valid out w a o proto Hok Ha Hp) as (b & w' & E & Hb & Hc).
  exists b, w'. split; [exact E|]. split; [exact Hb|]. split; [|exact Hc].
  exact (proj1 (setPrototype_keeps valid out w a proto b w' Hok (ex_intro _ o Ha) Hp E)).
Qed.

(** The second object has the first as its prototype and may not become its prototype. *)
Lemma setPrototype_refuses_cycles_witness :
  exists w', setPrototype nothingOutside firstObject (Some secondObject) linkedWorld = (Ret false, w') /\ w' = linkedWorld.
Proof.
  destruct (setPrototype_refuses_cycles exValid exValidP nothingOutside exNameOf exNameOfKey linkedWorld firstObject
    (objectOf linkedWorld firstObject) (Some secondObject)) as (b & w' & E & Hb & _ & Hw).
  - apply (reached_ok _ linkedWorld_steps).
  - vm_compute. reflexivity.
  - intros p [= <-]. eexists. vm_compute. reflexivity.
  - destruct b.
    + exfalso. destruct (proj1 Hb eq_refl) as [H|[_ H]].
      * vm_compute in H. discriminate H.
      * apply H. exists secondObject, [secondObject; firstObject]. split_and!; [reflexivity|exact chain_second|].
        apply list_elem_of_In. right. left. reflexivity.
    + exists w'. split; [exact E|exact Hw].
Defined.

(** ** All worlds that can be reached *)

(** Whatever sequence of definitions, deletions, preventions, changes of prototypes
    and creations runs, every structure is well-formed and stands for the properties of
    its objects, slots fit their descriptors, no structure is shared that should not be,
    all chains end and prototypes are marked. *)
Theorem methods_keep_worlds {heap : Heap} valid validP out nameOf nameOfKey
    {Hnames : ObjectNames heap valid validP nameOf nameOfKey} defaultStructureForObject w w' :
  world_ok valid w -> default_ok defaultStructureForObject w ->
  rtc (method_step validP out nameOf defaultStructureForObject) w w' ->
  world_ok valid w' /\ default_ok defaultStructureForObject w'.
Proof. exact (steps_keep valid validP out nameOf nameOfKey defaultStructureForObject w w'). Qed.

Lemma methods_keep_worlds_witness : rtc exStep emptyWorld linkedWorld /\ world_ok exValid linkedWorld.
Proof.
  split; [exact linkedWorld_steps|].
  apply (methods_keep_worlds exValid exValidP nothingOutside exNameOf exNameOfKey 0 emptyWorld linkedWorld);
    [apply emptyWorld_ok|apply emptyWorld_ok|exact linkedWorld_steps].
Defined.



(** In every world that can be reached, every lookup of every name on every object
    comes back with an answer, that of the first holder on a chain that ends. *)
Theorem lookups_answer {heap : Heap} valid validP out nameOf nameOfKey
    {Hnames : ObjectNames heap valid validP nameOf nameOfKey} defaultStructureForObject w w' a P receiver :
  world_ok valid w -> default_ok defaultStructureForObject w ->
  rtc (method_step validP out nameOf defaultStructureForObject) w w' -> is_Some (objects w' !! a) -> validP P ->
  exists l r, chain w' a l /\ get out nameOf a P receiver w' = (Ret r, w') /\
    propertyOfResult r = chainLookup w' l (propertyKey (nameOf P)).
Proof.
  intros Hok Hd Hs Ha HP.
  destruct (steps_keep valid validP out nameOf nameOfKey defaultStructureForObject w w' Hok Hd Hs) as [Hok' _].
  destruct (ok_chains valid w' Hok' a Ha) as [l Hl].
  destruct (get_run valid validP out nameOf nameOfKey w' a l P (ok_wf valid w' Hok') Hl
    (ok_ordinary_list valid w' a l Hok' Hl) HP) as [H _].
  destruct (H receiver) as (r & E & Er). eauto.
Qed.

Lemma lookups_answer_witness :
  exists l r, chain linkedWorld secondObject l /\
    get nothingOutside exNameOf secondObject (setUIntValue 7) secondObject linkedWorld = (Ret r, linkedWorld).
Proof.
  destruct (lookups_answer exValid exValidP nothingOutside exNameOf exNameOfKey 0 emptyWorld linkedWorld secondObject
    (setUIntValue 7) secondObject) as (l & r & H1 & H2 & _).
  - apply emptyWorld_ok.
  - apply emptyWorld_ok.
  - exact linkedWorld_steps.
  - eexists. vm_compute. reflexivity.
  - exact exValidP_7.
  - exists l, r. split; [exact H1|exact H2].
Defined.

(** The invariants of the essential internal methods over any history: a property that
    is not configurable stays, with its attributes, its accessors and, when it is read-only,
    its value; an object that is not extensible stays so, keeps its prototype and gets no
    new property; what happens to other objects that share its structure does not matter. *)
Theorem frozen_forever {heap : Heap} valid validP out nameOf nameOfKey
    {Hnames : ObjectNames heap valid validP nameOf nameOfKey} defaultStructureForObject w w' a :
  world_ok valid w -> default_ok defaultStructureForObject w ->
  rtc (method_step validP out nameOf defaultStructureForObject) w w' -> is_Some (objects w !! a) ->
  (forall key p, lookupKey (listOf w a) key = Some p -> p_configurable p = false ->
     exists p', lookupKey (listOf w' a) key = Some p' /\ keptProperty p p') /\
  (extensibleAt w a = false ->
     extensibleAt w' a = false /\ protoOf w' a = protoOf w a /\
     forall key, lookupKey (listOf w a) key = None -> lookupKey (listOf w' a) key = None).
Proof.
  intros Hok Hd Hs Ha.
  destruct (steps_essential valid validP out nameOf nameOfKey defaultStructureForObject w w' a Hok Hd Hs Ha)
    as [_ [H1 H2] H3].
  split; [exact H1|]. intros Hx. destruct (H3 Hx). auto.
Qed.

(** A read-only property, and an attempt to change it. *)
Definition constantWorld : World :=
  snd (defineOwnProperty nothingOutside exNameOf firstObject name_k (dataDescriptor (Value_int 7) 0) firstWorld).
Definition attemptedWorld : World :=
  snd (defineOwnProperty nothingOutside exNameOf firstObject name_k (dataDescriptor (Value_int 8) 0) constantWorld).

Lemma constantWorld_steps : rtc exStep emptyWorld constantWorld.
Proof.
  eapply rtc_r; [exact firstWorld_steps|].
  eapply (step_define _ _ _ _ _ firstObject name_k (dataDescriptor (Value_int 7) 0) true).
  - eexists. reflexivity.
  - left. exact exValid_k.
  - split; [reflexivity|discriminate].
  - vm_compute. reflexivity.
Qed.

Lemma attemptedWorld_step : exStep constantWorld attemptedWorld.
Proof.
  eapply (step_define _ _ _ _ _ firstObject name_k (dataDescriptor (Value_int 8) 0) false).
  - eexists. vm_compute. reflexivity.
  - left. exact exValid_k.
  - split; [reflexivity|discriminate].
  - vm_compute. reflexivity.
Qed.

Lemma frozen_forever_witness :
  exists p', lookupKey (listOf attemptedWorld firstObject) (KString [107]) = Some p' /\
    keptProperty (DataProperty (Value_int 7) false false false) p'.
Proof.
  destruct (frozen_forever exValid exValidP nothingOutside exNameOf exNameOfKey 0 constantWorld attemptedWorld firstObject)
    as [H _].
  - apply (reached_ok _ constantWorld_steps).
  - apply (reached_ok _ constantWorld_steps).
  - apply rtc_once. exact attemptedWorld_step.
  - eexists. vm_compute. reflexivity.
  - apply H; vm_compute; reflexivity.
Defined.

(** ** Keys, assignments and integrity levels *)

(** [ownPropertyKeys] lists every own key once, in the order of the language: first
    the indices by their value, whatever the order in which they were added, then the
    strings and then the symbols in the order in which they were added. *)
Theorem own_keys_in_order {heap : Heap} valid validP out nameOf nameOfKey
    {Hnames : ObjectNames heap valid validP nameOf nameOfKey} w a o l :
  wf_world valid w -> objects w !! a = Some o -> has_properties w a l -> isProxyObject o = false ->
  exists ks, ownPropertyKeys out a w = (Ret ks, w) /\
    OrdinaryOwnPropertyKeys (map fst l) (map (keyOfOwn nameOf nameOfKey) ks).
Proof.
  intros Hw Ha Hl Hprox. destruct (has_properties_at w a o l Ha Hl) as (c & Ho & ->).
  destruct (ownKeys_ok valid validP out nameOf nameOfKey w a o c Hw Ho Hprox) as (ks & E & _ & H).
  exists ks. split; [exact E|]. rewrite (proj1 (view_keys valid w a o c Hw Ho)). exact H.
Qed.

Lemma own_keys_in_order_witness :
  exists ks, ownPropertyKeys nothingOutside firstObject definedWorld = (Ret ks, definedWorld) /\
    OrdinaryOwnPropertyKeys [KString [107]] (map (keyOfOwn exNameOf exNameOfKey) ks).
Proof.
  replace [KString [107]] with (map fst (listOf definedWorld firstObject)) by (vm_compute; reflexivity).
  apply (own_keys_in_order exValid exValidP nothingOutside exNameOf exNameOfKey definedWorld firstObject
    (objectOf definedWorld firstObject) (listOf definedWorld firstObject)).
  - apply (reached_ok _ definedWorld_steps).
  - vm_compute. reflexivity.
  - apply (listOf_has exValid); [apply (reached_ok _ definedWorld_steps)|eexists; vm_compute; reflexivity].
  - vm_compute. reflexivity.
Defined.

(** C10: an assignment to an ordinary object is OrdinarySet: a read-only property anywhere
    on the chain or an accessor without a setter refuses it, a setter on the chain is
    called with the object and the value, and otherwise the object itself gets the value in
    its own property or in a new one with all attributes. *)
Theorem set_is_OrdinarySet {heap : Heap} valid validP out nameOf nameOfKey
    {Hnames : ObjectNames heap valid validP nameOf nameOfKey} w a l P v :
  wf_world valid w -> chain w a l -> Forall (ordinaryAt w) l -> validP P -> isObject a = true ->
  set out nameOf a P v a w =
  match chainLookup w l (propertyKey (nameOf P)) with
  | Some (DataProperty _ false _ _) => (Ret false, w)
  | Some (AccessorProperty _ setter _ _) =>
    if isUndefined setter then (Ret false, w) else (do! call out setter a [v] in ret true) w
  | _ => defineOwnProperty out nameOf a P
           (dataDescriptor v (match lookupKey (listOf w a) (propertyKey (nameOf P)) with Some _ => 0 | None => AllPresent end)) w
  end.
Proof.
  intros Hw Hc Ho HP Hobj. rewrite (set_run valid validP out nameOf nameOfKey w a l P v Hw Hc Ho HP Hobj). unfold assign.
  destruct (chainLookup w l (propertyKey (nameOf P))) as [[v0 [] e c|g s e c]|]; try reflexivity.
  destruct (isUndefined s); reflexivity.
Qed.

(** The property of the prototype does not stop the object from getting its own. *)
Lemma set_is_OrdinarySet_witness :
  fst (set nothingOutside exNameOf secondObject name_k (Value_int 8) secondObject linkedWorld) = Ret true.
Proof.
  destruct (reached_ok _ linkedWorld_steps) as [Hok _].
  rewrite (set_is_OrdinarySet exValid exValidP nothingOutside exNameOf exNameOfKey linkedWorld secondObject [secondObject; firstObject] name_k
    (Value_int 8) (ok_wf _ _ Hok) chain_second (ok_ordinary_list _ _ _ _ Hok chain_second) (or_introl exValid_k)).
  - vm_compute. reflexivity.
  - vm_compute. reflexivity.
Defined.

(** What was assigned is read back: where no read-only property and no accessor is in
    the way, and the object has the property or may get it, [set] answers true and [get]
    then finds a writable data property with the value, with the attributes it had or all
    of them. *)
Theorem assigned_value_is_read {heap : Heap} valid validP out nameOf nameOfKey
    {Hnames : ObjectNames heap valid validP nameOf nameOfKey} w a o l P v :
  world_ok valid w -> objects w !! a = Some o -> chain w a l -> validP P -> isObject a = true ->
  match chainLookup w l (propertyKey (nameOf P)) with
  | None => True
  | Some (DataProperty _ writable _ _) => writable = true
  | _ => False
  end ->
  (lookupKey (listOf w a) (propertyKey (nameOf P)) = None -> m_isExtensible o = true) ->
  exists w' r, set out nameOf a P v a w = (Ret true, w') /\ world_ok valid w' /\
    get out nameOf a P a w' = (Ret r, w') /\
    propertyOfResult r = Some (assigned (lookupKey (listOf w a) (propertyKey (nameOf P))) v).
Proof. exact (read_back valid validP out nameOf nameOfKey w a o l P v). Qed.

Lemma assigned_value_is_read_witness :
  exists w' r, set nothingOutside exNameOf secondObject name_k (Value_int 8) secondObject linkedWorld = (Ret true, w') /\
    get nothingOutside exNameOf secondObject name_k secondObject w' = (Ret r, w') /\
    propertyOfResult r = Some (DataProperty (Value_int 8) true true true).
Proof.
  destruct (assigned_value_is_read exValid exValidP nothingOutside exNameOf exNameOfKey linkedWorld secondObject
    (objectOf linkedWorld secondObject) [secondObject; firstObject] name_k (Value_int 8)) as (w' & r & H1 & _ & H2 & H3).
  - apply (reached_ok _ linkedWorld_steps).
  - vm_compute. reflexivity.
  - exact chain_second.
  - left. exact exValid_k.
  - vm_compute. reflexivity.
  - vm_compute. reflexivity.
  - intros _. vm_compute. reflexivity.
  - exists w', r. split_and!; [exact H1|exact H2|exact H3].
Defined.

(** C9: [setIntegrityLevel] seals or freezes: it answers true, makes the object
    unextensible and every property unconfigurable, for the level frozen every data
    property read-only as well, leaves values, accessors and order as they were, and then,
    and only where all this holds, [testIntegrityLevel] answers true. *)
Theorem integrity_levels {heap : Heap} valid validP out nameOf nameOfKey
    {Hnames : ObjectNames heap valid validP nameOf nameOfKey} isSealed w a o l :
  wf_world valid w -> objects w !! a = Some o -> has_properties w a l -> isProxyObject o = false ->
  testIntegrityLevel out nameOf nameOfKey a isSealed w =
    (Ret (negb (m_isExtensible o) && forallb (fun e => hasLevel isSealed (snd e)) l), w) /\
  exists w', setIntegrityLevel out nameOf nameOfKey a isSealed w = (Ret true, w') /\ wf_world valid w' /\ frame a w w' /\
    has_properties w' a (map (fun e => (fst e, levelProperty isSealed (snd e))) l) /\
    testIntegrityLevel out nameOf nameOfKey a isSealed w' = (Ret true, w').
Proof.
  intros Hw Ha Hl Hprox. split; [exact (testLevel_ok valid validP out nameOf nameOfKey isSealed w a o l Hw Ha Hl Hprox)|].
  destruct (setLevel_ok valid validP out nameOf nameOfKey isSealed w a o l Hw Ha Hl Hprox)
    as (w' & o' & E & Hw' & Hf & Ha' & Hx & Hprox' & Hl').
  exists w'. split_and!; [exact E|exact Hw'|exact Hf|exact Hl'|].
  rewrite (testLevel_ok valid validP out nameOf nameOfKey isSealed w' a o' _ Hw' Ha' Hl' Hprox'), Hx. cbn [negb andb].
  unfold ret. do 2 f_equal. apply forallb_forall. intros e Hin. apply in_map_iff in Hin as (e0 & <- & _). apply levelProperty_has.
Qed.

Lemma integrity_levels_witness :
  exists w', setIntegrityLevel nothingOutside exNameOf exNameOfKey firstObject false definedWorld = (Ret true, w') /\
    has_properties w' firstObject [(KString [107], DataProperty (Value_int 7) false true false)].
Proof.
  destruct (integrity_levels exValid exValidP nothingOutside exNameOf exNameOfKey false definedWorld firstObject
    (objectOf definedWorld firstObject) (listOf definedWorld firstObject)) as (_ & w' & E & _ & _ & H & _).
  - apply (reached_ok _ definedWorld_steps).
  - vm_compute. reflexivity.
  - apply (listOf_has exValid); [apply (reached_ok _ definedWorld_steps)|eexists; vm_compute; reflexivity].
  - vm_compute. reflexivity.
  - exists w'. split; [exact E|exact H].
Defined.
