(* ===== verification/Proxy.v ===== *)
(** * Proxies ([runtime/ProxyObject.cpp], [builtins/BuiltinProxy.cpp])

    The internal methods of a proxy, over the methods of its target and the traps of
    its handler, which are calls of functions.  [Outside] has what proxies are to
    [Object]; [proxyRuntime] discharges it, a level of the stack deeper than the
    methods that it calls. *)

From stdpp Require Import gmap.
From S2P Require Import Prelude Value PropertyName PropertyDescriptor ObjectStructure Object.
Local Open Scope Z_scope.
Local Open Scope esc_scope.

(** ** What proxies use *)

Inductive Trap :=
| TrapDefineProperty | TrapDeleteProperty | TrapGetOwnPropertyDescriptor | TrapPreventExtensions | TrapHas
| TrapOwnKeys | TrapIsExtensible | TrapSetPrototypeOf | TrapGetPrototypeOf | TrapGet | TrapSet | TrapApply | TrapConstruct.

(** The names of the static strings and of indices; the value of a name that a trap
    is given, and the key that a string or a symbol is. *)
Record ProxyNames := {
  trapName : Trap -> Z;
  fieldName : Field -> Z;
  lengthName : Z;
  indexName : nat -> Z;
  toPropertyKeyValue : Z -> Z;
  ownKeyOf : Z -> OwnKey
}.

(** The engine around the methods: what [Outside] has; the methods that only proxies
    dispatch to; construction; the allocator, with the structure and the prototype of
    new objects; arrays; and ToLength, which may call scripts. *)
Record Runtime := {
  outside :> Outside;
  proxy_setPrototype : Z -> option Z -> OM bool;
  proxy_getPrototypeValue : Z -> OM (option Z);
  construct : Z -> list Z -> Z -> OM Z;
  isConstructor : Z -> bool;
  newAddress : OM Z;
  defaultStructureForObject : nat;
  objectPrototype : option Z;
  createArrayFromList : list Z -> OM Z;
  toLength : Z -> OM nat
}.

Section Proxies.
Context {heap : Heap}.
Context (rt : Runtime) (nameOf : Z -> Z) (nameOfKey : OwnKey -> Z) (names : ProxyNames).

Abbreviation keyText k := (propertyKey (nameOf (nameOfKey k))).

(** ** Virtual calls and helpers of [Object] *)

Definition setPrototypeOf (a : Z) (proto : option Z) : OM bool :=
  let! o := readObject a in
  if isProxyObject o then proxy_setPrototype rt a proto else setPrototype rt a proto.

Definition getPrototype (a : Z) : OM (option Z) :=
  let! o := readObject a in
  if isProxyObject o then proxy_getPrototypeValue rt a else ret (m_prototype o).

(** A prototype as a value, and back. *)
Definition prototypeValue (p : option Z) : Z := match p with Some a => Value_pointer a | None => ValueNull end.
Definition valuePrototype (v : Z) : option Z := if isNull v then None else Some (asPointerValue v).

(** [obj->get(state, P).value(state, obj)]. *)
Definition getValue (a P : Z) : OM Z :=
  let! r := get rt nameOf a P (Value_pointer a) in value rt r (Value_pointer a).

Definition Object_call (callee thisValue : Z) (argv : list Z) : OM Z :=
  if negb (isPointerValue callee) then throw TypeError else call rt callee thisValue argv.

(** [Object::getMethod]: undefined when there is none. *)
Definition getMethod (a P : Z) : OM Z :=
  let! func := getValue a P in
  if isUndefinedOrNull func then ret ValueUndefined
  else if negb (isCallable rt func) then throw TypeError
  else ret func.

(** The constructor of a descriptor from an object. *)
Definition getField (a : Z) (f : Field) : OM (option Z) :=
  let! desc := get rt nameOf a (fieldName names f) (Value_pointer a) in
  if hasValue desc then let! v := value rt desc (Value_pointer a) in ret (Some v) else ret None.

Definition descriptorFromObject (a : Z) : OM ObjectPropertyDescriptor :=
  toPropertyDescriptor (getField a) (isCallable rt) (fun _ => TypeError).

(** [new Object(state)], and an object of a subclass with its fields. *)
Definition newObjectOf (c : ObjectClass) : OM Z :=
  let! a := newAddress rt in
  do! writeObject a (withClass (newObject (defaultStructureForObject rt) (objectPrototype rt)) c) in
  ret a.

(** [fromObjectPropertyDescriptor] on a new object. *)
Fixpoint defineFields (a : Z) (fields : list (Field * Z)) : OM unit :=
  match fields with
  | [] => ret tt
  | (f, v) :: rest =>
    let! _ := defineOwnProperty rt nameOf a (fieldName names f) (dataDescriptor v AllPresent) in
    defineFields a rest
  end.

Definition objectFromDescriptor (desc : ObjectPropertyDescriptor) : OM Z :=
  let! obj := newObjectOf OrdinaryObject in
  do! defineFields obj (fromObjectPropertyDescriptor desc) in
  ret (Value_pointer obj).

(** [createListFromArrayLike] for strings and symbols; each is the key that it is the
    name of. *)
Definition isStringOrSymbol (v : Z) : bool :=
  isPointerValue v && match pointee v with StringPointer _ | SymbolPointer => true | _ => false end.

Fixpoint collectKeys (o : Z) (index len : nat) : OM (list OwnKey) :=
  match len with
  | O => ret []
  | Datatypes.S len =>
    let! next := getValue o (indexName names index) in
    if negb (isStringOrSymbol next) then throw TypeError
    else
      let! rest := collectKeys o (Datatypes.S index) len in
      ret (ownKeyOf names next :: rest)
  end.

Definition createListFromArrayLike (obj : Z) : OM (list OwnKey) :=
  if negb (isObject obj) then throw TypeError
  else
    let o := asPointerValue obj in
    let! length := getValue o (lengthName names) in
    let! len := toLength rt length in
    collectKeys o 0 len.

(** [equalsTo] of two keys compares their texts, or the symbols. *)
Definition sameKey (k k' : OwnKey) : bool := bool_decide (keyText k = keyText k').

(** ** The fields of a proxy *)

Definition proxyData (a : Z) : OM ProxyData :=
  let! o := readObject a in
  match m_objectClass o with
  | ProxyObject p => ret p
  | OrdinaryObject => throw (UndefinedBehaviour BadAddress)
  end.

(** The first steps of every method: the handler that is not null, the target, and
    the trap. *)
Definition trapOf (a : Z) (trap : Trap) : OM (Z * Z * Z) :=
  let! p := proxyData a in
  match m_handler p with
  | None => throw TypeError
  | Some handler =>
    let! target := orThrow (UndefinedBehaviour NullDereference) (m_target p) in
    let! method := getMethod handler (trapName names trap) in
    ret (handler, target, method)
  end.

(** ** The internal methods *)

Definition ProxyObject_defineOwnProperty (a P : Z) (desc : ObjectPropertyDescriptor) : OM bool :=
  let! '(handler, target, trap) := trapOf a TrapDefineProperty in
  if isUndefined trap then defineOwnProperty rt nameOf target P desc
  else
    let! descObj := objectFromDescriptor desc in
    let! result := Object_call trap (Value_pointer handler)
                     [Value_pointer target; toPropertyKeyValue names P; descObj] in
    if negb (toBoolean result) then ret false
    else
      let! targetDesc := getOwnProperty rt nameOf target P in
      let! extensibleTarget := isExtensible rt target in
      let settingConfigFalse := isConfigurablePresent desc && negb (isConfigurable desc) in
      if negb (hasValue targetDesc) then
        if negb extensibleTarget || settingConfigFalse then throw TypeError else ret true
      else
        let! compatible := isCompatiblePropertyDescriptor rt extensibleTarget desc targetDesc in
        if negb compatible || (settingConfigFalse && result_isConfigurable targetDesc) then throw TypeError
        else if result_isDataProperty targetDesc && negb (result_isConfigurable targetDesc) && result_isWritable targetDesc
                && (isWritablePresent desc && negb (isWritable desc))
        then throw TypeError
        else ret true.

Definition ProxyObject_deleteOwnProperty (a P : Z) : OM bool :=
  let! '(handler, target, trap) := trapOf a TrapDeleteProperty in
  if isUndefined trap then deleteOwnProperty rt nameOf target P
  else
    let! result := Object_call trap (Value_pointer handler) [Value_pointer target; toPropertyKeyValue names P] in
    if negb (toBoolean result) then ret false
    else
      let! targetDesc := getOwnProperty rt nameOf target P in
      let! v := value rt targetDesc (Value_pointer target) in
      if isUndefined v then ret true
      else if negb (result_isConfigurable targetDesc) then throw TypeError
      else
        let! extensible := isExtensible rt target in
        if negb extensible then throw TypeError else ret true.

(** The result of the trap, when it is an object. *)
Definition checkedDescriptor (target : Z) (trapResultObj : Z) (targetDesc : ObjectGetResult) : OM ObjectGetResult :=
  let! resultDesc := descriptorFromObject (asPointerValue trapResultObj) in
  let resultDesc := completePropertyDescriptor resultDesc in
  let! extensible := isExtensible rt target in
  let! compatible := isCompatiblePropertyDescriptor rt extensible resultDesc targetDesc in
  if negb compatible then throw TypeError
  else if negb (isConfigurable resultDesc) && (negb (hasValue targetDesc) || result_isConfigurable targetDesc)
  then throw TypeError
  else if negb (isConfigurable resultDesc)
          && (isWritablePresent resultDesc && negb (isWritable resultDesc) && result_isWritable targetDesc)
  then throw TypeError
  else if isDataDescriptor resultDesc
  then ret (DataResult (m_value resultDesc) (isWritable resultDesc) (isEnumerable resultDesc) (isConfigurable resultDesc))
  else ret (AccessorResult (m_getterSetter resultDesc) (isEnumerable resultDesc) (isConfigurable resultDesc)).

Definition ProxyObject_getOwnProperty (a P : Z) : OM ObjectGetResult :=
  let! '(handler, target, trap) := trapOf a TrapGetOwnPropertyDescriptor in
  if isUndefined trap then getOwnProperty rt nameOf target P
  else
    let! trapResultObj := Object_call trap (Value_pointer handler) [Value_pointer target; toPropertyKeyValue names P] in
    if negb (isObject trapResultObj) && negb (isUndefined trapResultObj) then throw TypeError
    else
      let! targetDesc := getOwnProperty rt nameOf target P in
      if isUndefined trapResultObj then
        let! v := value rt targetDesc (Value_pointer target) in
        if isUndefined v then ret NoProperty
        else if negb (result_isConfigurable targetDesc) then throw TypeError
        else
          let! extensibleTarget := isExtensible rt target in
          if negb extensibleTarget then throw TypeError else ret NoProperty
      else checkedDescriptor target trapResultObj targetDesc.

Definition ProxyObject_preventExtensions (a : Z) : OM bool :=
  let! '(handler, target, trap) := trapOf a TrapPreventExtensions in
  if isUndefined trap then preventExtensions rt target
  else
    let! result := Object_call trap (Value_pointer handler) [Value_pointer target] in
    if toBoolean result then
      let! targetIsExtensible := isExtensible rt target in
      if targetIsExtensible then throw TypeError else ret true
    else ret false.

Definition ProxyObject_hasProperty (a P : Z) : OM bool :=
  let! '(handler, target, trap) := trapOf a TrapHas in
  if isUndefined trap then hasProperty rt nameOf target P
  else
    let! result := Object_call trap (Value_pointer handler) [Value_pointer target; toPropertyKeyValue names P] in
    if negb (toBoolean result) then
      let! targetDesc := getOwnProperty rt nameOf target P in
      if hasValue targetDesc then
        if negb (result_isConfigurable targetDesc) then throw TypeError
        else
          let! extensibleTarget := isExtensible rt target in
          if negb extensibleTarget then throw TypeError else ret false
      else ret false
    else ret true.

(** The keys of the target with and without a configurable property, in order. *)
Fixpoint splitKeys (target : Z) (keys : list OwnKey) : OM (list OwnKey * list OwnKey) :=
  match keys with
  | [] => ret ([], [])
  | key :: rest =>
    let! desc := getOwnProperty rt nameOf target (nameOfKey key) in
    let! '(configurable, nonconfigurable) := splitKeys target rest in
    if hasValue desc && negb (result_isConfigurable desc)
    then ret (configurable, key :: nonconfigurable)
    else ret (key :: configurable, nonconfigurable)
  end.

(** The loops over [uncheckedResultKeys]: every element equal to the key is erased,
    and there has to be one. *)
Fixpoint removeKeys (keys unchecked : list OwnKey) : OM (list OwnKey) :=
  match keys with
  | [] => ret unchecked
  | key :: rest =>
    if negb (existsb (fun k => sameKey k key) unchecked) then throw TypeError
    else removeKeys rest (List.filter (fun k => negb (sameKey k key)) unchecked)
  end.

Fixpoint hasDuplicates (keys : list OwnKey) : bool :=
  match keys with
  | [] => false
  | key :: rest => existsb (sameKey key) rest || hasDuplicates rest
  end.

Definition ProxyObject_ownPropertyKeys (a : Z) : OM (list OwnKey) :=
  let! '(handler, target, trap) := trapOf a TrapOwnKeys in
  if isUndefined trap then ownPropertyKeys rt target
  else
    let! trapResultArray := Object_call trap (Value_pointer handler) [Value_pointer target] in
    let! trapResult := createListFromArrayLike trapResultArray in
    if hasDuplicates trapResult then throw TypeError
    else
      let! extensibleTarget := isExtensible rt target in
      let! targetKeys := ownPropertyKeys rt target in
      let! '(targetConfigurableKeys, targetNonconfigurableKeys) := splitKeys target targetKeys in
      if extensibleTarget && (List.length targetNonconfigurableKeys =? 0)%nat then ret trapResult
      else
        let! unchecked := removeKeys targetNonconfigurableKeys trapResult in
        if extensibleTarget then ret trapResult
        else
          let! unchecked := removeKeys targetConfigurableKeys unchecked in
          if negb (List.length unchecked =? 0)%nat then throw TypeError else ret trapResult.

Definition ProxyObject_isExtensible (a : Z) : OM bool :=
  let! '(handler, target, trap) := trapOf a TrapIsExtensible in
  if isUndefined trap then isExtensible rt target
  else
    let! result := Object_call trap (Value_pointer handler) [Value_pointer target] in
    let! targetResult := isExtensible rt target in
    if negb (Bool.eqb targetResult (toBoolean result)) then throw TypeError else ret (toBoolean result).

Definition ProxyObject_setPrototype (a : Z) (proto : option Z) : OM bool :=
  let! '(handler, target, trap) := trapOf a TrapSetPrototypeOf in
  if isUndefined trap then setPrototypeOf target proto
  else
    let! result := Object_call trap (Value_pointer handler) [Value_pointer target; prototypeValue proto] in
    if negb (toBoolean result) then ret false
    else
      let! extensibleTarget := isExtensible rt target in
      if extensibleTarget then ret true
      else
        let! targetProto := getPrototype target in
        if negb (prototypeValue proto =? prototypeValue targetProto) then throw TypeError else ret true.

Definition ProxyObject_getPrototype (a : Z) : OM (option Z) :=
  let! '(handler, target, trap) := trapOf a TrapGetPrototypeOf in
  if isUndefined trap then getPrototype target
  else
    let! handlerProto := Object_call trap (Value_pointer handler) [Value_pointer target] in
    if negb (isObject handlerProto) && negb (isNull handlerProto) then throw TypeError
    else
      let! extensibleTarget := isExtensible rt target in
      if extensibleTarget then ret (valuePrototype handlerProto)
      else
        let! targetProto := getPrototype target in
        if negb (handlerProto =? prototypeValue targetProto) then throw TypeError else ret (valuePrototype handlerProto).

(** The method for the loops along prototypes: a proxy that was revoked has none. *)
Definition ProxyObject_getPrototypeObject (a : Z) : OM (option Z) :=
  let! p := proxyData a in
  match m_target p with
  | None => ret None
  | Some _ => ProxyObject_getPrototype a
  end.

(** The trap is given the proxy as the receiver. *)
Definition ProxyObject_get (a P receiver : Z) : OM ObjectGetResult :=
  let! '(handler, target, trap) := trapOf a TrapGet in
  if isUndefined trap then get rt nameOf target P receiver
  else
    let! trapResult := Object_call trap (Value_pointer handler)
                         [Value_pointer target; toPropertyKeyValue names P; Value_pointer a] in
    let! targetDesc := getOwnProperty rt nameOf target P in
    let! rejected :=
      if hasValue targetDesc && (result_isDataProperty targetDesc && negb (result_isConfigurable targetDesc)
                                 && negb (result_isWritable targetDesc))
      then let! v := value rt targetDesc (Value_pointer target) in ret (negb (trapResult =? v))
      else ret false in
    if rejected then throw TypeError
    else if hasValue targetDesc && (negb (result_isDataProperty targetDesc) && negb (result_isConfigurable targetDesc)
            && (negb (hasGetter (jsGetterSetter targetDesc)) || isUndefined (m_getter (jsGetterSetter targetDesc))))
            && negb (isUndefined trapResult)
    then throw TypeError
    else ret (DataResult trapResult true true true).

Definition ProxyObject_set (a P v receiver : Z) : OM bool :=
  let! '(handler, target, trap) := trapOf a TrapSet in
  if isUndefined trap then set rt nameOf target P v receiver
  else
    let! result := Object_call trap (Value_pointer handler)
                     [Value_pointer target; toPropertyKeyValue names P; v; receiver] in
    if negb (toBoolean result) then ret false
    else
      let! targetDesc := getOwnProperty rt nameOf target P in
      let! rejected :=
        if hasValue targetDesc && (result_isDataProperty targetDesc && negb (result_isConfigurable targetDesc)
                                   && negb (result_isWritable targetDesc))
        then let! w := value rt targetDesc (Value_pointer target) in ret (negb (v =? w))
        else ret false in
      if rejected then throw TypeError
      else if hasValue targetDesc && (negb (result_isDataProperty targetDesc) && negb (result_isConfigurable targetDesc))
              && (negb (hasSetter (jsGetterSetter targetDesc)) || isUndefined (m_setter (jsGetterSetter targetDesc)))
      then throw TypeError
      else ret true.

Definition ProxyObject_call (a receiver : Z) (argv : list Z) : OM Z :=
  let! p := proxyData a in
  if negb (m_isCallable p) then throw TypeError
  else
    let! '(handler, target, trap) := trapOf a TrapApply in
    if isUndefined trap then Object_call (Value_pointer target) receiver argv
    else
      let! argArray := createArrayFromList rt argv in
      Object_call trap (Value_pointer handler) [Value_pointer target; receiver; Value_pointer argArray].

(** Without a trap the target has to be a constructor; what a construction answers is
    an object, so that [toObject] of it is the answer itself. *)
Definition ProxyObject_construct (a : Z) (argv : list Z) (newTarget : Z) : OM Z :=
  let! '(handler, target, trap) := trapOf a TrapConstruct in
  if isUndefined trap then construct rt (Value_pointer target) argv newTarget
  else
    let! argArray := createArrayFromList rt argv in
    let! newObj := Object_call trap (Value_pointer handler)
                     [Value_pointer target; Value_pointer argArray; Value_pointer newTarget] in
    if negb (isObject newObj) then throw TypeError else ret newObj.

(** ** Creation and revocation *)

Definition createProxy (target handler : Z) : OM Z :=
  if negb (isObject target) then throw TypeError
  else if negb (isObject handler) then throw TypeError
  else
    let callable := isCallable rt target in
    newObjectOf (ProxyObject {| m_isCallable := callable; m_isConstructible := callable && isConstructor rt target;
                                m_target := Some (asPointerValue target); m_handler := Some (asPointerValue handler) |}).

(** The function that revokes a proxy: its slot is null after the first call. *)
Definition builtinProxyRevoke (slot : option Z) : OM (option Z) :=
  match slot with
  | None => ret None
  | Some a =>
    let! p := proxyData a in
    let! o := readObject a in
    do! writeObject a (withClass o (ProxyObject {| m_isCallable := m_isCallable p; m_isConstructible := m_isConstructible p;
                                                   m_target := None; m_handler := None |})) in
    ret None
  end.

(** ** The level above

    The methods of proxies, as the rest of the engine calls them; calls of functions
    are those of the level below, but for proxies. *)

Definition isProxyAt (a : Z) : OM bool :=
  gets (fun w : World => match objects w !! a with Some o => isProxyObject o | None => false end).

Definition proxyRuntime (call' : Z -> Z -> list Z -> OM Z) (construct' : Z -> list Z -> Z -> OM Z)
    (toLength' : Z -> OM nat) (createArrayFromList' : list Z -> OM Z) : Runtime := {|
  outside := {|
    proxy_getOwnProperty := ProxyObject_getOwnProperty;
    proxy_defineOwnProperty := ProxyObject_defineOwnProperty;
    proxy_deleteOwnProperty := ProxyObject_deleteOwnProperty;
    proxy_hasProperty := ProxyObject_hasProperty;
    proxy_get := ProxyObject_get;
    proxy_set := ProxyObject_set;
    proxy_ownPropertyKeys := ProxyObject_ownPropertyKeys;
    proxy_isExtensible := ProxyObject_isExtensible;
    proxy_preventExtensions := ProxyObject_preventExtensions;
    proxy_getPrototype := ProxyObject_getPrototypeObject;
    call := fun callee receiver argv =>
      let! isProxy := isProxyAt (asPointerValue callee) in
      if isProxy then ProxyObject_call (asPointerValue callee) receiver argv else call' callee receiver argv;
    isCallable := isCallable rt;
    isFunction := isFunction rt;
    nativeGet := nativeGet rt;
    nativeSet := nativeSet rt;
    newNative := newNative rt
  |};
  proxy_setPrototype := ProxyObject_setPrototype;
  proxy_getPrototypeValue := ProxyObject_getPrototype;
  construct := fun callee argv newTarget =>
    let! isProxy := isProxyAt (asPointerValue callee) in
    if isProxy then ProxyObject_construct (asPointerValue callee) argv newTarget else construct' callee argv newTarget;
  isConstructor := isConstructor rt;
  newAddress := newAddress rt;
  defaultStructureForObject := defaultStructureForObject rt;
  objectPrototype := objectPrototype rt;
  createArrayFromList := createArrayFromList';
  toLength := toLength'
|}.
End Proxies.
