(* ===== verification/ProxySpec.v ===== *)
(** * What proxies cannot deny

    How worlds with proxies evolve while scripts run, the facts about an ordinary
    object that last, what the answers of internal methods owe to these facts, and
    the methods of ordinary objects in such worlds. *)

From stdpp Require Import gmap.
From S2P Require Import Prelude Value AtomicString PropertyName PropertyDescriptor ObjectStructure.
From S2P Require Import StructureSpec Object ObjectSpec ObjectDefine ObjectMethods ObjectPrototype ObjectHistory.
From S2P Require Import ObjectKeys Proxy.
Local Open Scope Z_scope.
Local Open Scope esc_scope.

(** ** How worlds evolve *)

(** A proxy keeps its target and its handler until it is revoked. *)
Inductive classKept : ObjectClass -> ObjectClass -> Prop :=
| class_same c : classKept c c
| class_revoked p p' : m_handler p' = None -> m_target p' = None -> classKept (ProxyObject p) (ProxyObject p').

Lemma classKept_trans c c1 c2 : classKept c c1 -> classKept c1 c2 -> classKept c c2.
Proof. intros H K. destruct H; [exact K|]. inversion K; subst; constructor; assumption. Qed.

Section Evolution.
Context {heap : Heap} (valid : Z -> Prop) (defaultStructureForObject : nat).

Record evolves (w w' : World) : Prop := {
  ev_essential : forall b, is_Some (objects w !! b) -> essential b w w';
  ev_class : forall b o, objects w !! b = Some o ->
    exists o', objects w' !! b = Some o' /\ classKept (m_objectClass o) (m_objectClass o')
}.

Definition good (w : World) : Prop := wf_world valid w /\ default_ok defaultStructureForObject w.

Lemma evolution_refl w : evolves w w.
Proof using Type. constructor; eauto using essential_refl, class_same. Qed.

Lemma evolution_trans w w1 w2 : evolves w w1 -> evolves w1 w2 -> evolves w w2.
Proof using Type.
  intros [H1 H2] [K1 K2]. constructor.
  - intros b Hb. pose proof (H1 b Hb) as E. eapply essential_trans; [exact E|]. apply K1, (ess_object _ _ _ E), Hb.
  - intros b o Hb. destruct (H2 b o Hb) as (o1 & Hb1 & E1). destruct (K2 b o1 Hb1) as (o2 & Hb2 & E2).
    eauto using classKept_trans.
Qed.

(** [after m w Q]: the run keeps worlds good and evolving, however it ends, and [Q]
    holds of what it returns. *)
Definition after {A} (m : OM A) (w : World) (Q : A -> World -> Prop) : Prop :=
  match m w with
  | (Ret a, w') => good w' /\ evolves w w' /\ Q a w'
  | (_, w') => good w' /\ evolves w w'
  end.

Lemma after_ret {A} (a : A) w Q : good w -> Q a w -> after (ret a) w Q.
Proof. intros. split_and!; auto using evolution_refl. Qed.

Lemma after_throw {A} e w (Q : A -> World -> Prop) : good w -> after (throw e) w Q.
Proof. split; auto using evolution_refl. Qed.

Lemma after_fuel {A} w (Q : A -> World -> Prop) : good w -> after out_of_fuel w Q.
Proof. split; auto using evolution_refl. Qed.

Lemma after_bind {A B} (m : OM A) (k : A -> OM B) w Q0 Q : after m w Q0 ->
  (forall a w1, good w1 -> evolves w w1 -> Q0 a w1 -> after (k a) w1 Q) -> after (bind m k) w Q.
Proof.
  unfold after, bind. destruct (m w) as [[a|e|] w1]; [|auto..]. intros (Hg & He & Ha) Hk.
  specialize (Hk a w1 Hg He Ha). destruct (k a w1) as [[b|e|] w2]; intuition eauto using evolution_trans.
Qed.

Lemma after_read {A B} (m : OM A) (k : A -> OM B) w a Q : m w = (Ret a, w) -> after (k a) w Q -> after (bind m k) w Q.
Proof. intros E. unfold after. rewrite (bind_run _ _ _ a w E). exact id. Qed.

Lemma after_mono {A} (m : OM A) w (Q Q' : A -> World -> Prop) : after m w Q' ->
  (forall a w', good w' -> evolves w w' -> Q' a w' -> Q a w') -> after m w Q.
Proof. unfold after. destruct (m w) as [[a|e|] w1]; intuition. Qed.

Lemma after_true {A} (m : OM A) w Q : after m w Q -> after m w (fun _ _ => True).
Proof. intros H. eapply after_mono; [exact H|auto]. Qed.

Lemma after_run {A} (m : OM A) w a w' Q : m w = (Ret a, w') -> good w' -> evolves w w' -> Q a w' -> after m w Q.
Proof. unfold after. intros ->. auto. Qed.

Lemma after_readObject {B} a (k : Object -> OM B) w Q : good w ->
  (forall o, objects w !! a = Some o -> after (k o) w Q) -> after (let! o := readObject a in k o) w Q.
Proof.
  intros Hg Hk. destruct (objects w !! a) as [o|] eqn:Ha.
  - eapply after_read; [apply readObject_run; exact Ha|]. auto.
  - unfold after, readObject, bind, gets. rewrite Ha. cbn. split; [exact Hg|apply evolution_refl].
Qed.

Lemma after_orThrow {A B} e (o : option A) (k : A -> OM B) w Q : good w ->
  (forall a, o = Some a -> after (k a) w Q) -> after (let! a := orThrow e o in k a) w Q.
Proof. intros Hg Hk. destruct o as [a|]; [apply (Hk a eq_refl)|]. apply after_throw, Hg. Qed.

(** ** Facts that last *)

(** [a] is a proxy for the ordinary object [t], at [n] removes, or a proxy on the way
    has been revoked. *)
Inductive leads (w : World) : Z -> Z -> nat -> Prop :=
| leads_here t o : objects w !! t = Some o -> isProxyObject o = false -> leads w t t 0
| leads_through a o p h b t n : objects w !! a = Some o -> m_objectClass o = ProxyObject p -> m_handler p = Some h ->
    m_target p = Some b -> leads w b t n -> leads w a t (S n)
| leads_nowhere a o p t n : objects w !! a = Some o -> m_objectClass o = ProxyObject p -> m_handler p = None ->
    is_Some (objects w !! t) -> leads w a t n.

(** The property of [t] was [p] when it stopped being configurable, or it is. *)
Definition fixedAt (w : World) (t : Z) (key : PropertyKey) (p : Property) : Prop :=
  exists p', lookupKey (listOf w t) key = Some p' /\ keptProperty p p'.
Definition closedAt (w : World) (t : Z) : Prop := extensibleAt w t = false.
Definition closedWithout (w : World) (t : Z) (key : PropertyKey) : Prop :=
  closedAt w t /\ lookupKey (listOf w t) key = None.

Lemma leads_object w a t n : leads w a t n -> is_Some (objects w !! t) /\ is_Some (objects w !! a).
Proof using Type. clear. induction 1 as [t o Ht _|a o p h b t n Ha _ _ _ _ [IH _]|a o p t n Ha _ _ Ht]; split; eauto. Qed.

Lemma leads_evolves w w' a t n : evolves w w' -> leads w a t n -> leads w' a t n.
Proof using Type.
  intros He. induction 1 as [t o Ht Ho|a o p h b t n Ha Hc Hh Hb Hl IH|a o p t n Ha Hc Hh Ht].
  - destruct (ev_class _ _ He t o Ht) as (o' & Ht' & K). apply (leads_here w' t o' Ht').
    unfold isProxyObject in *. destruct (m_objectClass o); [|discriminate]. inversion K. reflexivity.
  - destruct (ev_class _ _ He a o Ha) as (o' & Ha' & K). rewrite Hc in K. inversion K as [c E|q q' Hh' Hb' E E']; subst.
    + eapply leads_through; eauto.
    + eapply leads_nowhere; [exact Ha'|eauto|exact Hh'|]. apply leads_object in Hl as [Hl _].
      apply (ess_object _ _ _ (ev_essential _ _ He t Hl)), Hl.
  - destruct (ev_class _ _ He a o Ha) as (o' & Ha' & K). rewrite Hc in K.
    assert (Ht' : is_Some (objects w' !! t)) by apply (ess_object _ _ _ (ev_essential _ _ He t Ht)), Ht.
    inversion K as [c E|q q' Hh' Hb' E E']; subst; eapply leads_nowhere; eauto.
Qed.

Section Facts.
Context (w w' : World) (t : Z) (He : evolves w w') (Ht : is_Some (objects w !! t)).

Lemma fixed_evolves key p : fixedAt w t key p -> fixedAt w' t key p.
Proof using He Ht.
  intros (p1 & H1 & K1). destruct (kept_fixed _ _ _ (ess_list _ _ _ (ev_essential _ _ He t Ht)) key p1 H1 (proj1 K1)) as (p2 & H2 & K2).
  exists p2. eauto using keptProperty_trans.
Qed.
Lemma closed_evolves : closedAt w t -> closedAt w' t /\ protoOf w' t = protoOf w t.
Proof using He Ht. apply (ess_closed _ _ _ (ev_essential _ _ He t Ht)). Qed.
Lemma without_evolves key : closedWithout w t key -> closedWithout w' t key.
Proof using He Ht.
  intros [H1 H2]. split; [apply closed_evolves, H1|].
  exact (kept_absent _ _ _ (ess_list _ _ _ (ev_essential _ _ He t Ht)) H1 key H2).
Qed.
End Facts.

(** ** What answers owe to the facts *)

(** A frozen value that is not undefined. *)
Definition shown (p : Property) : Prop :=
  match p with DataProperty v false _ _ => v <> ValueUndefined | _ => False end.

(** A handler can hide an own property that reads as undefined, so the methods of a
    proxy that depend on what another proxy says of a property bind it in full only
    where the property is shown; the first [k] removes are bound by every property. *)
Definition trusted (k n : nat) (p : Property) : Prop := (n <= k)%nat \/ shown p.

Lemma same_undefined v v' : sameValue v v' -> v' = ValueUndefined -> v = ValueUndefined.
Proof using Type.
  unfold sameValue, equalsToByTheSameValueAlgorithm. intros H ->.
  replace (isNumber ValueUndefined) with false in H by reflexivity. cbn [andb] in H.
  replace (isPointerValue ValueUndefined) with false in H by reflexivity.
  destruct (isPointerValue v); cbn [negb] in H; to_prop; [|congruence].
  destruct (ValueUndefined =? v) eqn:E; [to_prop; congruence|discriminate].
Qed.

Lemma same_undefined_rtc v v' : rtc sameValue v v' -> v' = ValueUndefined -> v = ValueUndefined.
Proof using Type. induction 1 as [v|v v1 v2 H1 _ IH]; [auto|]. intros E. exact (same_undefined v v1 H1 (IH E)). Qed.

Lemma shown_kept p p' : keptProperty p p' -> shown p -> shown p'.
Proof using Type.
  intros (_ & _ & H) Hs. destruct p as [v [] e c|]; try contradiction. destruct p' as [v' w' e' c'|]; [|contradiction].
  destruct (H eq_refl) as [-> R]. cbn in *. intros E. exact (Hs (same_undefined_rtc v v' R E)).
Qed.

Definition plainResult (r : ObjectGetResult) : Prop := match r with NativeResult _ _ _ _ _ _ => False | _ => True end.

Definition ownAnswer (w : World) (a : Z) (key : PropertyKey) (r : ObjectGetResult) : Prop :=
  plainResult r /\ forall t n, leads w a t n ->
  (forall p, fixedAt w t key p -> trusted 1 n p ->
     match propertyOfResult r with Some p' => keptProperty p p' | None => ~ trusted 0 n p end) /\
  (closedWithout w t key -> propertyOfResult r = None).

Definition defineAnswer (w : World) (a : Z) (key : PropertyKey) (desc : ObjectPropertyDescriptor) (b : bool) : Prop :=
  b = true -> forall t n, leads w a t n ->
  (forall p, fixedAt w t key p -> trusted 1 n p ->
     exists p', keptProperty p p' /\ compatible p' (descriptorOf desc) = true) /\
  ~ closedWithout w t key.

Definition deleteAnswer (w : World) (a : Z) (key : PropertyKey) (b : bool) : Prop :=
  b = true -> forall t n, leads w a t n -> forall p, fixedAt w t key p -> ~ trusted 0 n p.

Definition hasAnswer (w : World) (a : Z) (key : PropertyKey) (b : bool) : Prop :=
  b = false -> forall t n, leads w a t n -> forall p, fixedAt w t key p -> ~ trusted 1 n p.

(** What is read where [p] is. *)
Definition consistentRead (p q : Property) : Prop :=
  match p, q with
  | DataProperty v false _ _, DataProperty v' _ _ _ => rtc sameValue v v'
  | DataProperty _ true _ _, _ => True
  | DataProperty _ false _ _, AccessorProperty _ _ _ _ => False
  | AccessorProperty g _ _ _, DataProperty v' _ _ _ => g = ValueUndefined -> v' = ValueUndefined
  | AccessorProperty g _ _ _, AccessorProperty g' _ _ _ => g' = g
  end.

Definition getAnswer (w : World) (a : Z) (key : PropertyKey) (r : ObjectGetResult) : Prop :=
  plainResult r /\ forall t n, leads w a t n -> forall p, fixedAt w t key p -> trusted 1 n p ->
  exists q, propertyOfResult r = Some q /\ consistentRead p q.

Definition setAnswer (w : World) (a : Z) (key : PropertyKey) (v : Z) (b : bool) : Prop :=
  b = true -> forall t n, leads w a t n -> forall p, fixedAt w t key p -> trusted 1 n p ->
  match p with
  | DataProperty v0 false _ _ => rtc sameValue v0 v
  | DataProperty _ true _ _ => True
  | AccessorProperty _ s _ _ => s <> ValueUndefined
  end.

Definition extensibleAnswer (w : World) (a : Z) (b : bool) (w' : World) : Prop :=
  forall t n, leads w a t n -> (closedAt w t -> b = false) /\ (b = false -> closedAt w' t).

Definition preventAnswer (w : World) (a : Z) (b : bool) (w' : World) : Prop :=
  b = true -> forall t n, leads w a t n -> closedAt w' t.

Definition getPrototypeAnswer (w : World) (a : Z) (r : option Z) : Prop :=
  forall t n, leads w a t n -> closedAt w t -> prototypeValue r = prototypeValue (protoOf w t).

Definition setPrototypeAnswer (w : World) (a : Z) (proto : option Z) (b : bool) : Prop :=
  b = true -> forall t n, leads w a t n -> closedAt w t -> prototypeValue proto = prototypeValue (protoOf w t).

Section Keys.
Context (validP : Z -> Prop) (nameOf : Z -> Z) (nameOfKey : OwnKey -> Z).

Definition keysAnswer (w : World) (a : Z) (ks : list OwnKey) : Prop :=
  Forall (fun k => validP (nameOfKey k)) ks /\ NoDup (map (keyOfOwn nameOf nameOfKey) ks) /\
  forall t n, leads w a t n ->
  (forall key p, fixedAt w t key p -> trusted 1 n p -> key ∈ map (keyOfOwn nameOf nameOfKey) ks) /\
  (forall key, closedWithout w t key -> key ∉ map (keyOfOwn nameOf nameOfKey) ks).
End Keys.
End Evolution.

(** ** Changes of ordinary objects *)

Section Changes.
Context {heap : Heap} (valid validP : Z -> Prop) (nameOf : Z -> Z) (nameOfKey : OwnKey -> Z).
Context {Hnames : ObjectNames heap valid validP nameOf nameOfKey}.
Context (dS : nat).

Abbreviation good := (good valid dS).
Abbreviation after := (after valid dS).

Lemma changes_evolve w index a o c c' values w' : good w -> object_at w a o c ->
  changes valid (flagFor o index w) a o c' values w' -> keptList (m_isExtensible o) (viewOf c (m_values o)) (viewOf c' values) ->
  good w' /\ evolves w w'.
Proof using Type.
  intros [Hw [Hl Hs]] Ho Hc Hk.
  assert (Hf : frame a w w') by (eapply frame_trans; [apply flagFor_frame|apply Hc]).
  split; [split; [apply Hc|]|constructor].
  - destruct (frame_shared _ _ _ Hf _ _ Hs Hl). split; assumption.
  - intros b Hb. destruct (decide (b = a)) as [->|Hne]; [eapply changes_essential; eassumption|eapply frame_essential; eassumption].
  - intros b ob Hb. destruct (decide (b = a)) as [->|Hne].
    + destruct (changes_object _ _ _ _ _ _ _ Hc) as [r Ho']. eexists. split; [exact (proj1 Ho')|].
      replace ob with o by (destruct Ho; congruence). constructor.
    + rewrite <- (frame_objects _ _ _ Hf b Hne) in Hb. eauto using class_same.
Qed.

Lemma headers_evolve w w' : good w -> headers w w' ->
  (forall b, extensibleAt w b = false -> protoOf w' b = protoOf w b) -> good w' /\ evolves w w'.
Proof using Type.
  intros [Hw [Hl Hs]] Hh Hp. split; [split; [eapply headers_wf; eassumption|]|constructor].
  - unfold default_ok. rewrite (headers_structures _ _ Hh). split; assumption.
  - intros b Hb. apply headers_essential; auto.
  - intros b o Hb. destruct (headers_new w w' b o Hh Hb) as (o' & Hb' & Hsame). exists o'. split; [exact Hb'|].
    destruct Hsame as (_ & _ & -> & _). constructor.
Qed.

Lemma headers_after w {A} (m : OM A) r w' : good w -> m w = (Ret r, w') -> headers w w' ->
  (forall b, protoOf w' b = protoOf w b) -> after m w (fun _ w1 => headers w w1 /\ forall b, protoOf w1 b = protoOf w b).
Proof using Type.
  intros Hg E Hh Hp. destruct (headers_evolve w w' Hg Hh) as [H1 H2]; [auto|]. eapply after_run; eauto.
Qed.

(** Runs that leave the world as it is. *)
Definition reading {A} (m : OM A) (w : World) : Prop := snd (m w) = w.

Lemma after_reading {A B} (m : OM A) (k : A -> OM B) w Q : reading m w -> good w -> (forall a, after (k a) w Q) ->
  after (bind m k) w Q.
Proof using Type.
  unfold reading. intros E Hg Hk. destruct (m w) as [r w1] eqn:Em. cbn in E. subst w1.
  destruct r as [a|e|]; [eapply after_read; eauto|..]; unfold after, bind; rewrite Em; split; auto using evolution_refl.
Qed.

Lemma reading_bind {A B} (m : OM A) (k : A -> OM B) w : reading m w -> (forall a, reading (k a) w) -> reading (bind m k) w.
Proof using Type.
  unfold reading. intros E Hk. unfold bind. destruct (m w) as [[a|e|] w1]; cbn in E; subst w1; [apply Hk|reflexivity..].
Qed.

Lemma readObject_reading a w : reading (readObject a) w.
Proof using Type. unfold reading, readObject, bind, gets. cbn. destruct (objects w !! a); reflexivity. Qed.

Context (out : Outside).

Lemma noCycle_reading fuel self p w : reading (noCycle out fuel self p) w.
Proof using Type.
  revert p. induction fuel as [|fuel IH]; intros p; [reflexivity|]. cbn [noCycle]. destruct p as [q|]; [|reflexivity].
  destruct (q =? self); [reflexivity|]. destruct (objects w !! q) as [o|] eqn:Eq; unfold reading.
  - rewrite (bind_run _ _ _ o w (readObject_run _ _ _ Eq)). unfold isOrdinary. destruct (isProxyObject o) eqn:Ep; [reflexivity|].
    cbn [negb]. rewrite (bind_run _ _ _ _ w (getPrototype_run out w q o Eq Ep)). apply IH.
  - unfold readObject, bind, gets. rewrite Eq. reflexivity.
Qed.

Lemma noCycle_after {B} fuel self p (k : bool -> OM B) w Q : good w -> (forall b, after (k b) w Q) ->
  after (bind (noCycle out fuel self p) k) w Q.
Proof using Type. intros Hg. apply after_reading; [apply noCycle_reading|exact Hg]. Qed.

Lemma markAsPrototype_after p w : good w ->
  after (markAsPrototypeObject p) w (fun _ w1 => headers w w1 /\ forall b, protoOf w1 b = protoOf w b).
Proof using Type.
  intros Hg. unfold markAsPrototypeObject. apply after_readObject; [exact Hg|]. intros o Hp.
  destruct (world_objects _ _ (proj1 Hg) p o Hp) as [c Ho].
  set (o' := withFlags o (m_isExtensible o) true (m_isInlineCacheable o)). set (w1 := withObject p o' w).
  assert (Hh : headers w w1) by (apply (headers_write w p o o' Hp); split_and!; auto).
  assert (Hproto : forall b, protoOf w1 b = protoOf w b).
  { intros b. unfold protoOf, w1. cbn. destruct (decide (b = p)) as [->|Hne];
      [rewrite lookup_insert_eq, Hp; reflexivity|rewrite lookup_insert_ne by congruence; reflexivity]. }
  destruct (headers_object w w1 p o c Hh Ho) as (o1 & Ho1 & _).
  assert (o1 = o') as -> by (pose proof (proj1 Ho1) as E; unfold w1 in E; cbn in E; rewrite lookup_insert_eq in E; congruence).
  set (b := negb (m_didSomePrototypeObjectDefineIndexedProperty w1) && (indexed w1 p || isProxyObject o)).
  apply (headers_after w _ tt (if b then raised w1 else w1) Hg).
  - rewrite (bind_run _ _ _ tt w1 (writeObject_run w p o')), bind_gets.
    rewrite (bind_run _ _ _ _ w1 (indexed_run valid w1 p o' c (headers_wf _ _ _ (proj1 Hg) Hh) Ho1)).
    fold b. destruct b; reflexivity.
  - destruct b; [|exact Hh]. destruct Hh as [K1 K2 _]. constructor; [exact K1|exact K2|reflexivity].
  - intros d. rewrite <- Hproto. destruct b; reflexivity.
Qed.

Lemma keepConstructor_after a last w : good w -> after (keepMeaningfulConstructor out a last) w (fun _ _ => True).
Proof using Type.
  intros Hg. destruct (objects w !! a) as [o|] eqn:Ha.
  2: { unfold keepMeaningfulConstructor. apply after_readObject; [exact Hg|congruence]. }
  destruct (m_meaningfulConstructor o) as [k|] eqn:Ek.
  { unfold keepMeaningfulConstructor. eapply after_read; [exact (readObject_run w a o Ha)|]. rewrite Ek. apply after_ret; auto. }
  destruct (objects w !! last) as [ol|] eqn:Hl.
  2: { unfold keepMeaningfulConstructor. eapply after_read; [exact (readObject_run w a o Ha)|]. rewrite Ek.
       apply after_readObject; [exact Hg|congruence]. }
  destruct (world_objects _ _ (proj1 Hg) last ol Hl) as [cl Hcl].
  destruct (keepConstructor_ok valid out w a o last ol cl (proj1 Hg) Ha Hcl) as (w' & E & Hq).
  eapply after_true, headers_after; [exact Hg|exact E|apply Hq|apply Hq].
Qed.

(** [Object::setPrototype] of an ordinary object. *)
Lemma setPrototype_after a proto w : good w -> ordinaryAt w a ->
  after (setPrototype out a proto) w (fun b _ => b = true -> closedAt w a -> proto = protoOf w a).
Proof using Type.
  intros Hg (o & Ha & Hord). pose proof (getPrototype_run out w a o Ha Hord) as Ep.
  assert (Eproto : protoOf w a = m_prototype o) by (unfold protoOf; rewrite Ha; reflexivity).
  unfold setPrototype. eapply after_read; [exact Ep|]. case_bool_decide as Esame; [apply after_ret; [exact Hg|congruence]|].
  eapply after_read; [unfold isExtensible; rewrite (bind_run _ _ _ o w (readObject_run _ _ _ Ha)), Hord; reflexivity|].
  destruct (m_isExtensible o) eqn:Ex; cbn [negb]; [|apply after_ret; [exact Hg|discriminate]].
  assert (Hopen : ~ closedAt w a) by (unfold closedAt, extensibleAt; rewrite Ha, Ex; discriminate).
  eapply after_read; [reflexivity|]. apply noCycle_after; [exact Hg|]. intros ok.
  destruct ok; cbn [negb]; [|apply after_ret; [exact Hg|discriminate]].
  assert (Hlink : after (match proto with Some p => markAsPrototypeObject p | None => ret tt end) w
    (fun _ w1 => headers w w1 /\ forall b, protoOf w1 b = protoOf w b)).
  { destruct proto as [p|]; [apply markAsPrototype_after, Hg|]. apply after_ret; [exact Hg|auto using headers_refl]. }
  eapply after_bind; [exact Hlink|]. intros _ w1 Hg1 _ [Hh _].
  apply after_readObject; [exact Hg1|]. intros o1 Ha1.
  assert (Ex1 : m_isExtensible o1 = true).
  { destruct (headers_new w w1 a o Hh Ha) as (o2 & Ha2 & _ & _ & _ & E & _). congruence. }
  destruct (headers_evolve w1 (withObject a (withPrototype o1 proto) w1) Hg1) as [Hg2 He2].
  { apply (headers_write w1 a o1 _ Ha1). split_and!; auto. }
  { intros b Hb. unfold protoOf. cbn. destruct (decide (b = a)) as [->|Hne]; [|rewrite lookup_insert_ne by congruence; reflexivity].
    unfold extensibleAt in Hb. rewrite Ha1 in Hb. congruence. }
  eapply after_bind; [eapply after_run with (Q := fun _ _ => True); [apply writeObject_run|exact Hg2|exact He2|exact I]|].
  clear Hg2 He2. intros _ w2 Hg2 _ _.
  destruct (m_prototype o) as [last|]; [|apply after_ret; [exact Hg2|intros _ H; destruct (Hopen H)]].
  apply after_readObject; [exact Hg2|]. intros l _.
  eapply (after_bind _ _ _ _ _ (fun _ _ => True)); [|intros _ w3 Hg3 _ _; apply after_ret; [exact Hg3|intros _ H; destruct (Hopen H)]].
  case_if; [apply keepConstructor_after, Hg2|apply after_ret; [exact Hg2|exact I]].
Qed.
End Changes.
