(* ===== verification/ProxyLaws.v ===== *)
(** * The methods around proxies

    What the engine promises of the methods it dispatches to ([RuntimeLaws]), and
    from it the virtual methods of any object, proxy or not: the loops of [Object::get],
    [hasProperty] and [set] run through both. *)

From stdpp Require Import gmap.
From S2P Require Import Prelude Value AtomicString PropertyName PropertyDescriptor ObjectStructure.
From S2P Require Import StructureSpec Object ObjectSpec ObjectDefine ObjectMethods ObjectPrototype ObjectHistory.
From S2P Require Import ObjectSet ObjectKeys Proxy ProxySpec.
Local Open Scope Z_scope.
Local Open Scope esc_scope.

Section Laws.
Context {heap : Heap} (valid validP : Z -> Prop) (nameOf : Z -> Z) (nameOfKey : OwnKey -> Z) (dS : nat).

Abbreviation keyOf P := (propertyKey (nameOf P)).
Abbreviation always m Q := (forall w, good valid dS w -> after valid dS m w (Q w)).
Abbreviation polite m := (always m (fun _ _ _ => True)).

(** What the static strings and the names of keys are. *)
Class NamesLaws (names : ProxyNames) : Prop := {
  trap_valid : forall t, validP (trapName names t);
  field_valid : forall f, validP (fieldName names f);
  length_valid : validP (lengthName names);
  index_valid : forall i, validP (indexName names i);
  ownKey_valid : forall v, isStringOrSymbol v = true -> validP (nameOfKey (ownKeyOf names v))
}.

Class RuntimeLaws (rt : Runtime) : Prop := {
  law_own : forall a P, validP P ->
    always (proxy_getOwnProperty rt a P) (fun w r _ => ownAnswer w a (keyOf P) r);
  law_define : forall a P desc, validP P -> wf_descriptor desc ->
    always (proxy_defineOwnProperty rt a P desc) (fun w b _ => defineAnswer w a (keyOf P) desc b);
  law_delete : forall a P, validP P -> always (proxy_deleteOwnProperty rt a P) (fun w b _ => deleteAnswer w a (keyOf P) b);
  law_has : forall a P, validP P -> always (proxy_hasProperty rt a P) (fun w b _ => hasAnswer w a (keyOf P) b);
  law_get : forall a P receiver, validP P ->
    always (proxy_get rt a P receiver) (fun w r _ => getAnswer w a (keyOf P) r);
  law_set : forall a P v receiver, validP P ->
    always (proxy_set rt a P v receiver) (fun w b _ => setAnswer w a (keyOf P) v b);
  law_keys : forall a, always (proxy_ownPropertyKeys rt a) (fun w ks _ => keysAnswer validP nameOf nameOfKey w a ks);
  law_extensible : forall a, always (proxy_isExtensible rt a) (fun w b w' => extensibleAnswer w a b w');
  law_prevent : forall a, always (proxy_preventExtensions rt a) (fun w b w' => preventAnswer w a b w');
  law_chain : forall a, polite (proxy_getPrototype rt a);
  law_setPrototype : forall a proto,
    always (proxy_setPrototype rt a proto) (fun w b _ => setPrototypeAnswer w a proto b);
  law_getPrototype : forall a, always (proxy_getPrototypeValue rt a) (fun w r _ => getPrototypeAnswer w a r);
  law_call : forall f receiver argv, polite (call rt f receiver argv);
  law_construct : forall f argv newTarget, polite (construct rt f argv newTarget);
  law_address : always (newAddress rt) (fun _ a w' => objects w' !! a = None);
  law_structure : defaultStructureForObject rt = dS;
  law_array : forall argv, polite (createArrayFromList rt argv);
  law_length : forall v, polite (toLength rt v);
  law_callable : forall v, isCallable rt v = true -> v <> ValueEmpty /\ v <> ValueUndefined
}.
End Laws.

Section Virtual.
Context {heap : Heap} (valid validP : Z -> Prop) (nameOf : Z -> Z) (nameOfKey : OwnKey -> Z) (dS : nat).
Context {Hnames : ObjectNames heap valid validP nameOf nameOfKey}.
Context (rt : Runtime) {Laws : RuntimeLaws valid validP nameOf nameOfKey dS rt}.

Abbreviation keyOf P := (propertyKey (nameOf P)).
Abbreviation good := (good valid dS).
Abbreviation after := (after valid dS).
Abbreviation always m Q := (forall w, good w -> after m w (Q w)).
Abbreviation polite m := (always m (fun _ _ _ => True)).

(** The two kinds of objects, at the head of a virtual method. *)
Lemma by_class {A} a (m : Object -> OM A) w Q : good w ->
  (forall o, objects w !! a = Some o -> isProxyObject o = true -> after (m o) w Q) ->
  (ordinaryAt w a -> after (let! o := readObject a in m o) w Q) -> after (let! o := readObject a in m o) w Q.
Proof using Type.
  intros Hg Hp Ho. destruct (objects w !! a) as [o|] eqn:Ha.
  - destruct (isProxyObject o) eqn:Ep; [|apply Ho; exists o; auto].
    eapply after_read; [exact (readObject_run w a o Ha)|]. exact (Hp o eq_refl Ep).
  - apply after_readObject; [exact Hg|congruence].
Qed.

Lemma leads_ordinary w a t n : ordinaryAt w a -> leads w a t n -> t = a /\ n = O.
Proof using Type.
  intros (o & Ha & Ho) Hl. destruct Hl as [t o' Ht _|a o' p h b t n Ha' Hc _ _ _|a o' p t n Ha' Hc _ _]; [auto|..];
    unfold isProxyObject in Ho; replace o' with o in Hc by congruence; rewrite Hc in Ho; discriminate.
Qed.

(** ** Own properties *)

Lemma own_ordinary w a P : good w -> ordinaryAt w a -> validP P ->
  exists r, getOwnProperty rt nameOf a P w = (Ret r, w) /\ propertyOfResult r = lookupKey (listOf w a) (keyOf P) /\
    ownAnswer w a (keyOf P) r.
Proof using Hnames.
  intros [Hw _] Ho HP. destruct (getOwn_plain valid validP rt nameOf nameOfKey w a P Hw Ho HP) as (r & E & Er & Hn).
  exists r. split; [exact E|]. split; [exact Er|]. split; [destruct r; try exact I; destruct (Hn _ _ _ _ _ _ eq_refl)|].
  intros t n Hl. destruct (leads_ordinary w a t n Ho Hl) as [-> ->]. rewrite Er. split.
  - intros p (p' & -> & Hk) _. exact Hk.
  - intros [_ H]. exact H.
Qed.

Lemma v_own a P : validP P -> always (getOwnProperty rt nameOf a P) (fun w r _ => ownAnswer w a (keyOf P) r).
Proof using Hnames Laws.
  intros HP w Hg. apply by_class; [exact Hg|intros o _ Ep; rewrite Ep; eapply law_own; eassumption|]. intros Ho.
  destruct (own_ordinary w a P Hg Ho HP) as (r & E & _ & Ha). eapply after_run; [exact E|exact Hg|apply evolution_refl|exact Ha].
Qed.

Lemma v_define a P desc : validP P -> wf_descriptor desc ->
  always (defineOwnProperty rt nameOf a P desc) (fun w b _ => defineAnswer w a (keyOf P) desc b).
Proof using Hnames Laws.
  intros HP Hwf w Hg. apply by_class; [exact Hg|intros o _ Ep; rewrite Ep; eapply law_define; eassumption|]. intros Hord.
  destruct (ordinary_object valid w a (proj1 Hg) Hord) as (o & c & Ho & Ep).
  destruct (defineOwn_ok valid validP rt nameOf nameOfKey w a o c P desc (proj1 Hg) Ho Ep HP Hwf) as (w' & c' & values & E & Hc & Hv).
  destruct (changes_evolve valid dS w _ a o c c' values w' Hg Ho Hc) as [Hg' He]; [rewrite Hv; apply defined_kept|].
  eapply after_run; [exact E|exact Hg'|exact He|]. intros Hb t n Hl. destruct (leads_ordinary w a t n Hord Hl) as [-> ->].
  apply bool_decide_eq_true in Hb as [p Hb]. unfold fixedAt, closedWithout, closedAt, extensibleAt.
  rewrite (listOf_object w a o c Ho), (proj1 Ho). split.
  - intros p0 (p' & H & Hk) _. exists p'. split; [exact Hk|]. rewrite H in Hb. cbn in Hb.
    destruct (compatible p' (descriptorOf desc)); [reflexivity|discriminate].
  - intros [H1 H2]. rewrite H2, H1 in Hb. discriminate.
Qed.

Lemma v_delete a P : validP P -> always (deleteOwnProperty rt nameOf a P) (fun w b _ => deleteAnswer w a (keyOf P) b).
Proof using Hnames Laws.
  intros HP w Hg. apply by_class; [exact Hg|intros o _ Ep; rewrite Ep; eapply law_delete; eassumption|]. intros Hord.
  destruct (ordinary_object valid w a (proj1 Hg) Hord) as (o & c & Ho & Ep).
  destruct (deleteOwn_ok valid validP rt nameOf nameOfKey w a o c P (proj1 Hg) Ho Ep HP) as (w' & c' & values & E & Hc & Hv).
  rewrite <- (no_flag o w) in Hc.
  destruct (changes_evolve valid dS w _ a o c c' values w' Hg Ho Hc) as [Hg' He].
  { rewrite Hv. destruct (mayDelete _) eqn:Em; [apply removed_kept; exact Em|apply keptList_refl]. }
  eapply after_run; [exact E|exact Hg'|exact He|]. intros Hb t n Hl. destruct (leads_ordinary w a t n Hord Hl) as [-> ->].
  intros p (p' & H & Hk) _. rewrite (listOf_object w a o c Ho) in H. rewrite H in Hb. cbn in Hb. destruct Hk. congruence.
Qed.

(** ** Extensibility *)

Lemma v_extensible a : always (isExtensible rt a) (fun w b w' => extensibleAnswer w a b w').
Proof using Laws.
  intros w Hg. apply by_class; [exact Hg|intros o _ Ep; rewrite Ep; eapply law_extensible; eassumption|].
  intros Hord. pose proof Hord as (o & Ha & Ep). eapply after_read; [exact (readObject_run w a o Ha)|]. rewrite Ep.
  apply after_ret; [exact Hg|]. intros t n Hl. destruct (leads_ordinary w a t n Hord Hl) as [-> ->].
  unfold closedAt, extensibleAt. rewrite Ha. auto.
Qed.

Lemma v_prevent a : always (preventExtensions rt a) (fun w b w' => preventAnswer w a b w').
Proof using Hnames Laws.
  intros w Hg. apply by_class; [exact Hg|intros o _ Ep; rewrite Ep; eapply law_prevent; eassumption|]. intros Hord.
  pose proof Hg as [Hw [Hl Hs]]. destruct (ordinary_object valid w a Hw Hord) as (o & c & Ho & Ep).
  destruct (preventExtensions_ok valid rt w a o c Hw Ho Ep) as (w' & r & E & Hw' & Hf & Ho' & _).
  assert (Hclosed : closedAt w' a) by (unfold closedAt, extensibleAt; rewrite (proj1 Ho'); reflexivity).
  eapply after_run; [exact E|split; [exact Hw'|]|constructor|].
  - destruct (frame_shared _ _ _ Hf _ _ Hs Hl). split; assumption.
  - intros b Hb. destruct (decide (b = a)) as [->|Hne]; [|eapply frame_essential; eassumption].
    apply essential_same; [eexists; apply Ho'|rewrite (listOf_object w' a _ c Ho'), (listOf_object w a o c Ho); reflexivity|].
    intros _. split; [exact Hclosed|]. unfold protoOf. rewrite (proj1 Ho), (proj1 Ho'). reflexivity.
  - intros b ob Hb. destruct (decide (b = a)) as [->|Hne].
    + eexists. split; [exact (proj1 Ho')|]. replace ob with o by (destruct Ho; congruence). constructor.
    + rewrite <- (frame_objects _ _ _ Hf b Hne) in Hb. eauto using class_same.
  - intros _ t n Hlead. destruct (leads_ordinary w a t n Hord Hlead) as [-> ->]. exact Hclosed.
Qed.

(** ** Keys *)

Lemma own_keys_perm keys result : OrdinaryOwnPropertyKeys keys result -> result ≡ₚ keys.
Proof using Type.
  clear. intros (indices & -> & Hp & _). rewrite Hp. clear. induction keys as [|k keys IH]; [reflexivity|]. cbn [List.filter].
  assert (E : keyIsSymbol k = true -> keyIsIndex k = false) by (destruct k; [discriminate|reflexivity]).
  unfold keyIsText in *. destruct (keyIsIndex k), (keyIsSymbol k); cbn [negb andb app];
    try (specialize (E eq_refl); discriminate); rewrite <- ?Permutation_middle, IH; reflexivity.
Qed.

Lemma v_keys a : always (ownPropertyKeys rt a) (fun w ks _ => keysAnswer validP nameOf nameOfKey w a ks).
Proof using Hnames Laws.
  intros w Hg. apply by_class; [exact Hg|intros o _ Ep; rewrite Ep; eapply law_keys; eassumption|]. intros Hord.
  destruct (ordinary_object valid w a (proj1 Hg) Hord) as (o & c & Ho & Ep).
  destruct (ownKeys_ok valid validP rt nameOf nameOfKey w a o c (proj1 Hg) Ho Ep) as (ks & E & Hv & Hk).
  destruct (view_keys valid w a o c (proj1 Hg) Ho) as [Hfst Hn]. rewrite <- Hfst in Hk. apply own_keys_perm in Hk.
  eapply after_run; [exact E|exact Hg|apply evolution_refl|]. split; [exact Hv|]. split.
  - rewrite Hk. apply NoDup_ListNoDup, Hn.
  - intros t n Hl. destruct (leads_ordinary w a t n Hord Hl) as [-> ->]. unfold fixedAt, closedWithout.
    rewrite (listOf_object w a o c Ho). split.
    + intros key p (p' & H & _) _. rewrite Hk. apply lookup_in, (in_map fst) in H. apply list_elem_of_In, H.
    + intros key [_ H] Hin. rewrite Hk in Hin. apply list_elem_of_In, in_map_iff in Hin as ([k p] & <- & Hin).
      cbn [fst] in H. pose proof (in_lookup _ k p Hn Hin). congruence.
Qed.

(** ** Prototypes *)

Lemma v_chain a : polite (getPrototypeObject rt a).
Proof using Laws.
  intros w Hg. apply by_class; [exact Hg|intros o _ Ep; rewrite Ep; eapply law_chain; eassumption|].
  intros (o & Ha & Ep). eapply after_run; [exact (getPrototype_run rt w a o Ha Ep)|exact Hg|apply evolution_refl|exact I].
Qed.

Lemma v_getPrototype a : always (getPrototype rt a) (fun w r _ => getPrototypeAnswer w a r).
Proof using Laws.
  intros w Hg. apply by_class; [exact Hg|intros o _ Ep; rewrite Ep; eapply law_getPrototype; eassumption|].
  intros Hord. pose proof Hord as (o & Ha & Ep). eapply after_read; [exact (readObject_run w a o Ha)|]. rewrite Ep.
  apply after_ret; [exact Hg|]. intros t n Hl. destruct (leads_ordinary w a t n Hord Hl) as [-> ->].
  intros _. unfold protoOf. rewrite Ha. reflexivity.
Qed.

Lemma v_setPrototype a proto : always (setPrototypeOf rt a proto) (fun w b _ => setPrototypeAnswer w a proto b).
Proof using Hnames Laws.
  intros w Hg. apply by_class; [exact Hg|intros o _ Ep; rewrite Ep; eapply law_setPrototype; eassumption|].
  intros Hord. pose proof Hord as (o & Ha & Ep). eapply after_read; [exact (readObject_run w a o Ha)|]. rewrite Ep.
  eapply after_mono; [exact (setPrototype_after valid dS rt a proto w Hg Hord)|]. intros b w' _ _ H Hb t n Hl Hc.
  destruct (leads_ordinary w a t n Hord Hl) as [-> ->]. rewrite (H Hb Hc). reflexivity.
Qed.

(** ** Values, and the loops along chains *)

Lemma v_value r receiver : plainResult r -> polite (value rt r receiver).
Proof using Laws.
  intros Hr w Hg. destruct r; cbn [value]; try contradiction; try (apply after_ret; [exact Hg|exact I]).
  case_if; [eapply law_call; eassumption|apply after_ret; [exact Hg|exact I]].
Qed.

(** What [get] owes when it finds an own property. *)
Lemma own_get w a key r : ordinaryAt w a -> plainResult r -> propertyOfResult r = lookupKey (listOf w a) key ->
  getAnswer w a key r \/ propertyOfResult r = None.
Proof using Type.
  intros Hord Hp Er. destruct (propertyOfResult r) as [q|] eqn:Eq; [left|auto]. split; [exact Hp|]. intros t n Hl.
  destruct (leads_ordinary w a t n Hord Hl) as [-> ->]. intros p (p' & H & Hk) _. exists q. split; [exact Eq|].
  replace q with p' by congruence. destruct Hk as (_ & _ & Hk). destruct p as [v [] e c|g s e c], p' as [v' w' e' c'|g' s' e' c'];
    try contradiction; cbn; [exact I|apply Hk; reflexivity|apply Hk].
Qed.

Lemma no_own_get w a key r' : ordinaryAt w a -> lookupKey (listOf w a) key = None -> plainResult r' ->
  getAnswer w a key r'.
Proof using Type.
  intros Hord Hn Hp. split; [exact Hp|]. intros t n Hl. destruct (leads_ordinary w a t n Hord Hl) as [-> ->].
  intros p (p' & H & _). congruence.
Qed.

Lemma plain_property r : hasValue r = bool_decide (is_Some (propertyOfResult r)).
Proof using Type. destruct r; reflexivity. Qed.

Lemma loop_get fuel : forall a P receiver, validP P -> forall w, good w ->
  after (Object_get rt nameOf fuel a P receiver) w (fun r _ => plainResult r /\ (ordinaryAt w a -> getAnswer w a (keyOf P) r)).
Proof using Hnames Laws.
  induction fuel as [|fuel IH]; intros a P receiver HP w Hg; [apply after_fuel, Hg|]. cbn [Object_get].
  assert (Hrest : forall w1, good w1 -> after (let! next := getPrototypeObject rt a in
      match next with
      | None => ret NoProperty
      | Some p => let! o := readObject p in
                  if isProxyObject o then proxy_get rt p P receiver else Object_get rt nameOf fuel p P receiver
      end) w1 (fun r _ => plainResult r)).
  { intros w1 Hg1. eapply after_bind; [exact (v_chain a w1 Hg1)|]. intros [p|] w2 Hg2 _ _; [|apply after_ret; [exact Hg2|exact I]].
    apply after_readObject; [exact Hg2|]. intros o _. case_if.
    - eapply after_mono; [exact (law_get _ _ _ _ _ p P receiver HP w2 Hg2)|]. intros r w' _ _ [H _]. exact H.
    - eapply after_mono; [exact (IH p P receiver HP w2 Hg2)|]. intros r w' _ _ [H _]. exact H. }
  destruct (objects w !! a) as [o|] eqn:Ha.
  2: { eapply after_bind; [unfold getOwnProperty; apply (after_readObject _ _ _ _ _ (fun _ _ => False)); [exact Hg|congruence]|]. contradiction. }
  destruct (isProxyObject o) eqn:Ep.
  - eapply after_bind; [exact (v_own a P HP w Hg)|]. intros r w1 Hg1 _ [Hr _].
    assert (Hn : ~ ordinaryAt w a) by (intros (o' & Ha' & Ep'); congruence).
    destruct (hasValue r); [apply after_ret; [exact Hg1|split; [exact Hr|contradiction]]|].
    eapply after_mono; [exact (Hrest w1 Hg1)|]. intros r' w' _ _ H. split; [exact H|contradiction].
  - assert (Hord : ordinaryAt w a) by (exists o; auto).
    destruct (own_ordinary w a P Hg Hord HP) as (r & E & Er & Hr & _). eapply after_read; [exact E|].
    rewrite plain_property, Er. case_bool_decide as Hs.
    + apply after_ret; [exact Hg|]. split; [exact Hr|]. intros _. destruct (own_get w a _ r Hord Hr Er) as [H|H]; [exact H|].
      rewrite <- Er, H in Hs. destruct Hs. discriminate.
    + eapply after_mono; [exact (Hrest w Hg)|]. intros r' w' _ _ H. split; [exact H|]. intros _. apply no_own_get; auto.
      destruct (lookupKey _ _); [destruct Hs; eauto|reflexivity].
Qed.

Lemma v_get a P receiver : validP P -> always (get rt nameOf a P receiver) (fun w r _ => getAnswer w a (keyOf P) r).
Proof using Hnames Laws.
  intros HP w Hg. apply by_class; [exact Hg|intros o _ Ep; rewrite Ep; eapply law_get; eassumption|].
  intros Hord. pose proof Hord as (o & Ha & Ep). eapply after_read; [exact (readObject_run w a o Ha)|]. rewrite Ep.
  eapply after_read; [reflexivity|]. eapply after_mono; [exact (loop_get _ a P receiver HP w Hg)|]. intros r w' _ _ [_ H]. exact (H Hord).
Qed.

Lemma loop_has fuel : forall a P, validP P -> forall w, good w ->
  after (Object_hasProperty rt nameOf fuel a P) w (fun b _ => ordinaryAt w a -> hasAnswer w a (keyOf P) b).
Proof using Hnames Laws.
  induction fuel as [|fuel IH]; intros a P HP w Hg; [apply after_fuel, Hg|]. cbn [Object_hasProperty].
  assert (Hrest : forall w1, good w1 -> after (let! parent := getPrototypeObject rt a in
      match parent with
      | None => ret false
      | Some p => let! o := readObject p in
                  if isProxyObject o then proxy_hasProperty rt p P else Object_hasProperty rt nameOf fuel p P
      end) w1 (fun _ _ => True)).
  { intros w1 Hg1. eapply after_bind; [exact (v_chain a w1 Hg1)|]. intros [p|] w2 Hg2 _ _; [|apply after_ret; [exact Hg2|exact I]].
    apply after_readObject; [exact Hg2|]. intros o _. case_if.
    - eapply after_true. exact (law_has _ _ _ _ _ p P HP w2 Hg2).
    - eapply after_true. exact (IH p P HP w2 Hg2). }
  eapply (after_bind _ _ _ _ _ (fun r _ => ordinaryAt w a -> propertyOfResult r = lookupKey (listOf w a) (keyOf P))).
  - apply by_class; [exact Hg| |].
    + intros o Ha Ep. rewrite Ep. eapply after_mono; [exact (law_own _ _ _ _ _ a P HP w Hg)|].
      intros r w' _ _ _ (o' & Ha' & Ep'). congruence.
    + intros Hord. destruct (own_ordinary w a P Hg Hord HP) as (r & E & Er & _).
      eapply after_run; [exact E|exact Hg|apply evolution_refl|auto].
  - intros r w1 Hg1 _ Hr. rewrite plain_property. case_bool_decide as Hs.
    + apply after_ret; [exact Hg1|]. intros _ [=].
    + eapply after_mono; [exact (Hrest w1 Hg1)|]. intros b w' _ _ _ Hord Hb t n Hl p (p' & H & _).
      destruct (leads_ordinary w a t n Hord Hl) as [-> ->]. rewrite (Hr Hord), H in Hs. destruct Hs. eauto.
Qed.

Lemma v_has a P : validP P -> always (hasProperty rt nameOf a P) (fun w b _ => hasAnswer w a (keyOf P) b).
Proof using Hnames Laws.
  intros HP w Hg. apply by_class; [exact Hg|intros o _ Ep; rewrite Ep; eapply law_has; eassumption|].
  intros Hord. pose proof Hord as (o & Ha & Ep). eapply after_read; [exact (readObject_run w a o Ha)|]. rewrite Ep.
  eapply after_read; [reflexivity|]. eapply after_mono; [exact (loop_has _ a P HP w Hg)|]. intros b w' _ _ H. exact (H Hord).
Qed.
(** ** [set] *)

Lemma setOnReceiver_after a P v receiver hasOwn w : validP P -> good w ->
  after (setOnReceiver rt nameOf a P v receiver hasOwn) w (fun _ _ => True).
Proof using Hnames Laws.
  intros HP Hg.
  assert (Hd : forall desc w1, wf_descriptor desc -> good w1 -> after (defineOwnProperty rt nameOf receiver P desc) w1 (fun _ _ => True))
    by (intros desc w1 Hwf Hg1; eapply after_true; exact (v_define receiver P desc HP Hwf w1 Hg1)).
  pose proof (assignment_wf (Some (DataProperty 0 true true true)) v) as Hwf1. pose proof (assignment_wf None v) as Hwf2.
  unfold setOnReceiver. case_if; [apply Hd; assumption|].
  eapply after_bind; [exact (v_own receiver P HP w Hg)|]. intros r w1 Hg1 _ _.
  repeat case_if; try (apply after_ret; [exact Hg1|exact I]); apply Hd; assumption.
Qed.

Definition mayAssign (found : option Property) : Prop :=
  match found with
  | Some (DataProperty _ writable _ _) => writable = true
  | Some (AccessorProperty _ s _ _) => s <> ValueUndefined
  | None => True
  end.

Lemma setWith_after a P v receiver hasOwn r w : validP P -> good w -> plainResult r ->
  after (setWith rt nameOf a P v receiver hasOwn r) w (fun b _ => b = true -> mayAssign (propertyOfResult r)).
Proof using Hnames Laws.
  intros HP Hg Hr. unfold setWith. destruct r as [|v0 wr e c|data self v0 wr e c|gs e c]; try contradiction; cbn [result_isDataProperty].
  - case_if; [apply after_ret; [exact Hg|discriminate]|]. case_if; [apply after_ret; [exact Hg|discriminate]|].
    eapply after_mono; [apply setOnReceiver_after; assumption|]. intros; exact I.
  - cbn [result_isWritable]. destruct wr; cbn [negb]; [|apply after_ret; [exact Hg|discriminate]].
    case_if; [apply after_ret; [exact Hg|discriminate]|].
    eapply after_mono; [apply setOnReceiver_after; assumption|]. reflexivity.
  - cbn [jsGetterSetter propertyOfResult mayAssign]. rewrite orUndefined_hasSetter.
    case_if; [apply after_ret; [exact Hg|discriminate]|]. eapply after_bind; [eapply law_call; eassumption|].
    intros _ w1 Hg1 _ _. apply after_ret; [exact Hg1|]. intros _ E. unfold isUndefined in *. rewrite E in *. discriminate.
Qed.

Lemma own_set w a key v r b : ordinaryAt w a -> propertyOfResult r = lookupKey (listOf w a) key ->
  (b = true -> mayAssign (propertyOfResult r)) -> setAnswer w a key v b.
Proof using Type.
  intros Hord Er Hm Hb t n Hl p (p' & H & Hk) _. destruct (leads_ordinary w a t n Hord Hl) as [-> ->].
  specialize (Hm Hb). rewrite Er, H in Hm. destruct Hk as (_ & _ & Hk).
  destruct p as [v0 [] e c|g s e c], p' as [v1 w1 e1 c1|g1 s1 e1 c1]; cbn in *; try contradiction; try exact I.
  - destruct (Hk eq_refl). congruence.
  - destruct Hk. congruence.
Qed.

Lemma loop_set fuel : forall a P v receiver, validP P -> forall w, good w ->
  after (Object_set rt nameOf fuel a P v receiver) w (fun b _ => ordinaryAt w a -> setAnswer w a (keyOf P) v b).
Proof using Hnames Laws.
  induction fuel as [|fuel IH]; intros a P v receiver HP w Hg; [apply after_fuel, Hg|]. cbn [Object_set].
  eapply (after_bind _ _ _ _ _ (fun r _ => plainResult r /\ (ordinaryAt w a -> propertyOfResult r = lookupKey (listOf w a) (keyOf P)))).
  - apply by_class; [exact Hg| |].
    + intros o Ha Ep. rewrite Ep. eapply after_mono; [exact (law_own _ _ _ _ _ a P HP w Hg)|].
      intros r w' _ _ [Hr _]. split; [exact Hr|]. intros (o' & Ha' & Ep'). congruence.
    + intros Hord. destruct (own_ordinary w a P Hg Hord HP) as (r & E & Er & Hr & _).
      eapply after_run; [exact E|exact Hg|apply evolution_refl|auto].
  - intros r w1 Hg1 _ [Hr Er]. rewrite plain_property. case_bool_decide as Hs.
    + eapply after_mono; [exact (setWith_after a P v receiver true r w1 HP Hg1 Hr)|]. intros b w' _ _ H Hord.
      exact (own_set w a _ v r b Hord (Er Hord) H).
    + eapply (after_mono _ _ _ _ _ (fun _ _ => True)).
      * eapply after_bind; [exact (v_chain a w1 Hg1)|]. intros [p|] w2 Hg2 _ _.
        -- apply after_readObject; [exact Hg2|]. intros o _. case_if; eapply after_true;
             [exact (law_set _ _ _ _ _ p P v receiver HP w2 Hg2)|exact (IH p P v receiver HP w2 Hg2)].
        -- eapply after_true. exact (setWith_after a P v receiver false (DataResult ValueUndefined true true true) w2 HP Hg2 I).
      * intros b w' _ _ _ Hord. intros Hb t n Hl p (p' & H & _). destruct (leads_ordinary w a t n Hord Hl) as [-> ->].
        rewrite (Er Hord), H in Hs. destruct Hs. eauto.
Qed.

Lemma v_set a P v receiver : validP P -> always (set rt nameOf a P v receiver) (fun w b _ => setAnswer w a (keyOf P) v b).
Proof using Hnames Laws.
  intros HP w Hg. apply by_class; [exact Hg|intros o _ Ep; rewrite Ep; eapply law_set; eassumption|].
  intros Hord. pose proof Hord as (o & Ha & Ep). eapply after_read; [exact (readObject_run w a o Ha)|]. rewrite Ep.
  eapply after_read; [reflexivity|]. eapply after_mono; [exact (loop_set _ a P v receiver HP w Hg)|]. intros b w' _ _ H. exact (H Hord).
Qed.
End Virtual.
