(* ===== verification/ProxyMethods.v ===== *)
(** * The methods of proxies

    Each method of [Proxy], run over an engine with [RuntimeLaws], keeps worlds
    evolving, and its answer owes the facts about the target what [ProxySpec] says. *)

From stdpp Require Import gmap.
From S2P Require Import Prelude Value AtomicString PropertyName PropertyDescriptor ObjectStructure.
From S2P Require Import StructureSpec Object ObjectSpec ObjectDefine ObjectMethods ObjectPrototype ObjectHistory.
From S2P Require Import ObjectSet ObjectKeys Proxy ProxySpec ProxyLaws.
Local Open Scope Z_scope.
Local Open Scope esc_scope.

(** ** Descriptors that are read from objects *)

Section Descriptors.
Context {heap : Heap}.

(** The setters of descriptors keep the bits consistent, and one another's bits. *)
Lemma check_setters d : checkProperty d = true ->
  (forall b, checkProperty (setEnumerable d b) = true /\ isValuePresent (setEnumerable d b) = isValuePresent d /\
             isWritablePresent (setEnumerable d b) = isWritablePresent d) /\
  (forall b, checkProperty (setConfigurable d b) = true /\ isValuePresent (setConfigurable d b) = isValuePresent d /\
             isWritablePresent (setConfigurable d b) = isWritablePresent d) /\
  (m_isDataProperty d = true ->
     (forall b, checkProperty (setWritable d b) = true /\ isValuePresent (setWritable d b) = isValuePresent d) /\
     (forall v, checkProperty (setValue d v) = true /\ isWritablePresent (setValue d v) = isWritablePresent d)).
Proof.
  intros H. unfold checkProperty, isValuePresent, isWritablePresent, setEnumerable, setConfigurable, setWritable, setValue in *.
  split_and!; [intros []|intros []|intros Hd; split; [intros []|intros v]]; flags; try rewrite Hd in *;
    destruct (testFlag (m_property d) (Z.shiftl 1 1)), (testFlag (m_property d) (Z.shiftl 1 4)),
      (testFlag (m_property d) (Z.shiftl 1 2)), (testFlag (m_property d) (Z.shiftl 1 5)),
      (testFlag (m_property d) (Z.shiftl 1 3)), (testFlag (m_property d) (Z.shiftl 1 6)),
      (testFlag (m_property d) (Z.shiftl 1 7)); try destruct (m_isDataProperty d); cbn in *; try discriminate; auto.
Qed.

Lemma check_same d d' : m_property d' = m_property d -> m_isDataProperty d' = m_isDataProperty d ->
  checkProperty d' = checkProperty d.
Proof. unfold checkProperty. intros -> ->. reflexivity. Qed.

Lemma wf_setEnumerable d b : wf_descriptor d -> wf_descriptor (setEnumerable d b).
Proof. intros [H1 H2]. split; [apply (check_setters d H1)|]. destruct b; exact H2. Qed.
Lemma wf_setConfigurable d b : wf_descriptor d -> wf_descriptor (setConfigurable d b).
Proof. intros [H1 H2]. split; [apply (check_setters d H1)|]. destruct b; exact H2. Qed.

Lemma wf_complete d : wf_descriptor d -> wf_descriptor (completePropertyDescriptor d).
Proof.
  intros Hwf. unfold completePropertyDescriptor.
  assert (Hflags : forall d, wf_descriptor d -> wf_descriptor
    (let d := if negb (isEnumerablePresent d) then setEnumerable d false else d in
     if negb (isConfigurablePresent d) then setConfigurable d false else d)).
  { intros e He. cbn zeta. destruct (isEnumerablePresent e); cbn [negb];
      (case_if; [apply wf_setConfigurable|]); auto using wf_setEnumerable. }
  apply Hflags. clear Hflags. pose proof Hwf as [H1 H2].
  destruct (isGenericDescriptor d || isDataDescriptor d) eqn:E.
  - assert (Hd : m_isDataProperty d = true).
    { apply not_false_is_true. intros Ed. unfold isGenericDescriptor, isAccessorDescriptor in E.
      rewrite (isDataDescriptor_accessor d Hwf Ed), Ed in E. discriminate. }
    set (d1 := if negb (isValuePresent d) then setValue d ValueUndefined else d).
    assert (C1 : checkProperty d1 = true /\ m_isDataProperty d1 = true).
    { unfold d1. destruct (isValuePresent d); cbn [negb]; [auto|]. split; [apply (check_setters d H1), Hd|exact Hd]. }
    destruct C1 as [C1 D1]. case_if; (split; [|cbn; congruence]); [apply (check_setters d1 C1), D1|exact C1].
  - set (d1 := if negb (hasJSGetter d) then setGetterSetter d (withGetter (m_getterSetter d) ValueUndefined) else d).
    assert (E1 : m_property d1 = m_property d /\ m_isDataProperty d1 = m_isDataProperty d /\ hasJSGetter d1 = true).
    { unfold d1. destruct (hasJSGetter d) eqn:Eg; cbn [negb]; auto. }
    destruct E1 as (E1 & E2 & E3). case_if; (split; [rewrite <- H1; apply check_same; assumption|]).
    + intros _. unfold hasJSGetter, hasJSSetter in *. cbn. rewrite orb_true_r. reflexivity.
    + intros _. rewrite E3. reflexivity.
Qed.

(** A completed descriptor has one property that it fits. *)
Lemma apply_full p q : applyDescriptor p (fullDescriptor q) = q.
Proof. destruct p, q; reflexivity. Qed.

(** The result that stands for a completed descriptor. *)
Lemma full_result d q : wf_descriptor d -> descriptorOf d = fullDescriptor q ->
  (if isDataDescriptor d then DataResult (m_value d) (isWritable d) (isEnumerable d) (isConfigurable d)
   else AccessorResult (m_getterSetter d) (isEnumerable d) (isConfigurable d)) = (match q with
   | DataProperty v w e c => DataResult v w e c
   | AccessorProperty _ _ e c => AccessorResult (m_getterSetter d) e c
   end) /\
  match q with
  | DataProperty _ _ _ _ => True
  | AccessorProperty g s _ _ => m_getter (m_getterSetter d) = g /\ m_setter (m_getterSetter d) = s /\
      hasGetter (m_getterSetter d) && hasSetter (m_getterSetter d) = true
  end /\ isConfigurable d = p_configurable q.
Proof.
  intros Hwf E. rewrite <- (IsData_descriptorOf d Hwf), E. unfold descriptorOf in E.
  unfold hasJSGetter, hasJSSetter, hasGetter, hasSetter in E |- *.
  destruct (m_isDataProperty d && isValuePresent d), (isWritablePresent d), (isEnumerablePresent d), (isConfigurablePresent d),
    (m_isDataProperty d), (isEmpty (m_getter (m_getterSetter d))), (isEmpty (m_setter (m_getterSetter d))), q;
    cbn in E |- *; inversion E; subst; auto.
Qed.
End Descriptors.

Section Compatible.
Context {heap : Heap} (out : Outside).

(** What [isCompatiblePropertyDescriptor] reads of an accessor. *)
Lemma isCompatible_accessor extensible desc gs e c w :
  isCompatiblePropertyDescriptor out extensible desc (AccessorResult gs e c) w =
  isCompatiblePropertyDescriptor out extensible desc
    (AccessorResult {| m_getter := orUndefined (m_getter gs); m_setter := orUndefined (m_setter gs) |} e c) w.
Proof.
  unfold isCompatiblePropertyDescriptor. cbn [hasValue result_isConfigurable result_isEnumerable result_isDataProperty jsGetterSetter].
  rewrite orUndefined_hasGetter, orUndefined_hasSetter. unfold hasGetter, hasSetter. cbn [m_getter m_setter].
  destruct (isEmpty (m_getter gs)) eqn:Eg, (isEmpty (m_setter gs)) eqn:Es; cbn [negb];
    try replace (isEmpty ValueUndefined) with false by reflexivity; rewrite ?Eg, ?Es; reflexivity.
Qed.

Lemma isCompatible_plain extensible desc r p w : plainResult r -> propertyOfResult r = Some p -> wf_descriptor desc ->
  isCompatiblePropertyDescriptor out extensible desc r w = (Ret (compatible p (descriptorOf desc)), w).
Proof.
  intros Hr E Hwf. destruct r as [|v wr e c| |gs e c]; try contradiction; try discriminate E; injection E as <-.
  - set (d := createDataDescriptor (Z.lor (Z.lor (flagIf wr WritablePresent) (flagIf e EnumerablePresent)) (flagIf c ConfigurablePresent))).
    assert (E1 : DataResult v wr e c = resultOf d (SlotValue v)) by (destruct wr, e, c; reflexivity).
    assert (E2 : DataProperty v wr e c = propertyOf d (SlotValue v)) by (destruct wr, e, c; reflexivity).
    rewrite E1, E2. apply (isCompatible_ok out extensible (KSymbol 0) d (SlotValue v) desc w); [|exact Hwf].
    destruct wr, e, c; reflexivity.
  - rewrite isCompatible_accessor. set (g := orUndefined (m_getter gs)). set (s := orUndefined (m_setter gs)).
    set (d := createAccessorDescriptor (Z.lor (Z.lor (flagIf e EnumerablePresent) (flagIf c ConfigurablePresent)) (Z.lor HasJSGetter HasJSSetter))).
    set (gs' := {| m_getter := g; m_setter := s |}).
    assert (Hg : forall x, isEmpty (orUndefined x) = false) by (intros x; unfold orUndefined; destruct (isEmpty x) eqn:Ex; [reflexivity|exact Ex]).
    assert (Hgs : orUndefined g = g /\ orUndefined s = s)
      by (split; unfold orUndefined at 1; [unfold g|unfold s]; rewrite Hg; reflexivity).
    assert (E1 : AccessorResult gs' e c = resultOf d (SlotGetterSetter gs')) by (destruct e, c; reflexivity).
    assert (E2 : AccessorProperty g s e c = propertyOf d (SlotGetterSetter gs')).
    { unfold propertyOf. cbn [slotGetterSetter gs' m_getter m_setter]. destruct Hgs as [-> ->]. destruct e, c; reflexivity. }
    rewrite E1, E2. apply (isCompatible_ok out extensible (KSymbol 0) d (SlotGetterSetter gs') desc w); [|exact Hwf].
    split; [destruct e, c; reflexivity|]. unfold hasGetter, gs'. cbn [m_getter]. unfold g. rewrite Hg. reflexivity.
Qed.

Lemma isCompatible_none extensible desc r w : propertyOfResult r = None ->
  isCompatiblePropertyDescriptor out extensible desc r w = (Ret extensible, w).
Proof. intros E. destruct r; try discriminate. cbn. destruct extensible; reflexivity. Qed.
End Compatible.

(** ** The steps of the methods *)

Section Steps.
Context {heap : Heap} (valid validP : Z -> Prop) (nameOf : Z -> Z) (nameOfKey : OwnKey -> Z) (dS : nat).
Context {Hnames : ObjectNames heap valid validP nameOf nameOfKey}.
Context (rt : Runtime) {Laws : RuntimeLaws valid validP nameOf nameOfKey dS rt}.
Context (names : ProxyNames) {Names : NamesLaws validP nameOfKey names}.

Abbreviation keyOf P := (propertyKey (nameOf P)).
Abbreviation good := (good valid dS).
Abbreviation after := (after valid dS).
Abbreviation always m Q := (forall w, good w -> after m w (Q w)).
Abbreviation polite m := (always m (fun _ _ _ => True)).

Abbreviation field_ok := (field_valid validP nameOfKey (names := names)).
Abbreviation ok_own := (v_own valid validP nameOf nameOfKey dS rt).
Abbreviation ok_define := (v_define valid validP nameOf nameOfKey dS rt).
Abbreviation ok_delete := (v_delete valid validP nameOf nameOfKey dS rt).
Abbreviation ok_has := (v_has valid validP nameOf nameOfKey dS rt).
Abbreviation ok_get := (v_get valid validP nameOf nameOfKey dS rt).
Abbreviation ok_set := (v_set valid validP nameOf nameOfKey dS rt).
Abbreviation ok_keys := (v_keys valid validP nameOf nameOfKey dS rt).
Abbreviation ok_extensible := (v_extensible valid validP nameOf nameOfKey dS rt).
Abbreviation ok_prevent := (v_prevent valid validP nameOf nameOfKey dS rt).
Abbreviation ok_getPrototype := (v_getPrototype valid validP nameOf nameOfKey dS rt).
Abbreviation ok_setPrototype := (v_setPrototype valid validP nameOf nameOfKey dS rt).
Abbreviation ok_value := (v_value valid validP nameOf nameOfKey dS rt).

Lemma getValue_polite a P : validP P -> polite (getValue rt nameOf a P).
Proof using Hnames Laws.
  intros HP w Hg. eapply after_bind; [exact (ok_get a P _ HP w Hg)|]. intros r w1 Hg1 _ [Hr _]. exact (ok_value r _ Hr w1 Hg1).
Qed.

Lemma Object_call_polite callee thisValue argv : polite (Object_call rt callee thisValue argv).
Proof using Laws.
  intros w Hg. unfold Object_call. case_if; [apply after_throw, Hg|eapply law_call; eassumption].
Qed.

Lemma getMethod_polite a P : validP P -> polite (getMethod rt nameOf a P).
Proof using Hnames Laws.
  intros HP w Hg. eapply after_bind; [exact (getValue_polite a P HP w Hg)|]. intros f w1 Hg1 _ _.
  repeat case_if; try (apply after_ret; [exact Hg1|exact I]). apply after_throw, Hg1.
Qed.

(** ** Descriptor objects *)

Lemma getField_polite a f : polite (getField rt nameOf names a f).
Proof using Hnames Laws Names.
  intros w Hg. eapply after_bind; [exact (ok_get a _ _ (field_ok f) w Hg)|].
  intros r w1 Hg1 _ [Hr _]. case_if; [|apply after_ret; [exact Hg1|exact I]].
  eapply after_bind; [exact (ok_value r _ Hr w1 Hg1)|]. intros v w2 Hg2 _ _. apply after_ret; [exact Hg2|exact I].
Qed.

(** The data descriptor that is read so far. *)
Definition partData (d : ObjectPropertyDescriptor) (hasValue hasWritable : bool) : Prop :=
  m_isDataProperty d = true /\ checkProperty d = true /\
  (hasValue = false -> isValuePresent d = false) /\ (hasWritable = false -> isWritablePresent d = false).

Lemma readFlag_after a f set d hasV hasW w : good w -> partData d hasV hasW ->
  (forall b, partData (set d b) hasV hasW) ->
  after (readFlag (getField rt nameOf names a) f set d) w (fun x _ => partData (fst x) hasV hasW).
Proof using Hnames Laws Names.
  intros Hg Hd Hs. eapply after_bind; [exact (getField_polite a f w Hg)|]. intros [v|] w1 Hg1 _ _; (apply after_ret; [exact Hg1|]); [apply Hs|exact Hd].
Qed.

Lemma part_setters d hasV hasW : partData d hasV hasW ->
  (forall b, partData (setEnumerable d b) hasV hasW) /\ (forall b, partData (setConfigurable d b) hasV hasW) /\
  (forall v, partData (setValue d v) true hasW) /\ (forall b, partData (setWritable d b) hasV true).
Proof using Type.
  intros (H1 & H2 & H3 & H4). destruct (check_setters d H2) as (Ke & Kc & Kd). destruct (Kd H1) as [Kw Kv].
  split_and!.
  - intros b. destruct (Ke b) as (E1 & E2 & E3). split_and!; [destruct b; exact H1|exact E1|rewrite E2; auto|rewrite E3; auto].
  - intros b. destruct (Kc b) as (E1 & E2 & E3). split_and!; [destruct b; exact H1|exact E1|rewrite E2; auto|rewrite E3; auto].
  - intros v. destruct (Kv v) as (E1 & E2). split_and!; [exact H1|exact E1|discriminate|rewrite E2; auto].
  - intros b. destruct (Kw b) as (E1 & E2). split_and!; [destruct b; exact H1|exact E1|rewrite E2; auto|discriminate].
Qed.

(** Also the accessors that are read: then there is a getter or a setter. *)
Definition partAny (d d0 : ObjectPropertyDescriptor) : Prop :=
  (m_isDataProperty d = true /\ d = d0) \/
  (m_isDataProperty d = false /\ m_property d = m_property d0 /\ hasJSGetter d || hasJSSetter d = true).

Lemma callable_nonEmpty f : negb (isCallable rt f) && negb (isUndefined f) = false -> isEmpty f = false.
Proof using Laws.
  intros H. apply andb_false_iff in H as [H|H]; apply negb_false_iff in H; unfold isEmpty; apply Z.eqb_neq.
  - apply (law_callable valid validP nameOf nameOfKey dS f H).
  - unfold isUndefined in H. to_prop. subst f. discriminate.
Qed.

Lemma readGetter_after a d w : good w -> m_isDataProperty d = true ->
  after (readGetter (getField rt nameOf names a) (isCallable rt) (fun _ => TypeError) d) w (fun d' _ => partAny d' d).
Proof using Hnames Laws Names.
  intros Hg Hd. eapply after_bind; [exact (getField_polite a F_get w Hg)|]. intros [g|] w1 Hg1 _ _; [|apply after_ret; [exact Hg1|left; auto]].
  destruct (negb (isCallable rt g) && negb (isUndefined g)) eqn:E; [apply after_throw, Hg1|]. apply after_ret; [exact Hg1|]. right.
  apply callable_nonEmpty in E. unfold hasJSGetter, hasGetter. cbn. rewrite E. auto.
Qed.

Lemma readSetter_after a d d0 w : good w -> m_isDataProperty d0 = true -> partAny d d0 ->
  after (readSetter (getField rt nameOf names a) (isCallable rt) (fun _ => TypeError) d) w (fun d' _ => partAny d' d0).
Proof using Hnames Laws Names.
  intros Hg Hd0 Hd. eapply after_bind; [exact (getField_polite a F_set w Hg)|]. intros [g|] w1 Hg1 _ _; [|apply after_ret; auto].
  destruct (negb (isCallable rt g) && negb (isUndefined g)) eqn:E; [apply after_throw, Hg1|].
  apply callable_nonEmpty in E. case_if; apply after_ret; try exact Hg1; right; unfold hasJSGetter, hasJSSetter, hasSetter; cbn;
    rewrite E, ?orb_true_r; (split; [assumption || reflexivity|split; [|reflexivity]]);
    destruct Hd as [[_ ->]|(H1 & H2 & _)]; auto.
Qed.

Lemma descriptorFromObject_after a w : good w ->
  after (descriptorFromObject rt nameOf names a) w (fun d _ => wf_descriptor d).
Proof using Hnames Laws Names.
  intros Hg. unfold descriptorFromObject, toPropertyDescriptor.
  assert (H0 : partData (genericDescriptor 0 true) false false) by (split_and!; reflexivity).
  eapply after_bind; [apply readFlag_after; [exact Hg|exact H0|apply (part_setters _ _ _ H0)]|]. intros [d1 b1] w1 Hg1 _ H1. cbn [fst] in *.
  eapply after_bind; [apply readFlag_after; [exact Hg1|exact H1|apply (part_setters _ _ _ H1)]|]. intros [d2 b2] w2 Hg2 _ H2. cbn [fst] in *.
  eapply (after_bind _ _ _ _ _ (fun x _ => partData (fst x) (snd x) false)).
  { eapply after_bind; [exact (getField_polite a F_value w2 Hg2)|]. intros [v|] w3 Hg3 _ _; (apply after_ret; [exact Hg3|]); [apply (part_setters _ _ _ H2)|exact H2]. }
  intros [d3 hasV] w3 Hg3 _ H3. cbn [fst snd] in *.
  eapply (after_bind _ _ _ _ _ (fun x _ => partData (fst x) hasV (snd x))).
  { eapply after_bind; [exact (getField_polite a F_writable w3 Hg3)|]. intros [v|] w4 Hg4 _ _; (apply after_ret; [exact Hg4|]); [apply (part_setters _ _ _ H3)|exact H3]. }
  intros [d4 hasW] w4 Hg4 _ (D1 & D2 & D3 & D4). cbn [fst snd] in *.
  eapply after_bind; [apply readGetter_after; assumption|]. intros d5 w5 Hg5 _ H5.
  eapply after_bind; [eapply readSetter_after; eassumption|]. intros d6 w6 Hg6 _ H6.
  destruct (negb (m_isDataProperty d6) && (hasW || hasV)) eqn:E; [apply after_throw, Hg6|]. apply after_ret; [exact Hg6|].
  destruct H6 as [[K1 ->]|(K1 & K2 & K3)]; [split; [exact D2|congruence]|]. rewrite K1 in E. apply orb_false_iff in E as [-> ->].
  split; [|auto]. specialize (D3 eq_refl). specialize (D4 eq_refl).
  unfold checkProperty, isValuePresent, isWritablePresent in *. rewrite K2, K1 in *. rewrite D1 in D2. cbn [negb andb] in *.
  apply orb_false_iff in D4 as [-> ->]. rewrite D3. cbn [orb andb] in *.
  destruct (testFlag (m_property d4) WritablePresent && _); [discriminate D2|exact D2].
Qed.
(** ** New objects *)

Lemma fresh_evolves w a o c : good w -> objects w !! a = None -> o = withClass (newObject dS (objectPrototype rt)) c ->
  good (withObject a o w) /\ evolves w (withObject a o w).
Proof using Type.
  clear Hnames Laws Names. intros [Hw Hd] Ha ->. set (o1 := newObject dS (objectPrototype rt)).
  destruct (newObject_wf valid dS w a (objectPrototype rt) Hw Hd Ha) as [Hw1 Hkeep]. fold o1 in Hw1, Hkeep.
  assert (Ha1 : objects (withObject a o1 w) !! a = Some o1) by apply lookup_insert_eq.
  destruct (world_objects _ _ Hw1 a o1 Ha1) as [c1 Hc1].
  destruct (update_object valid (withObject a o1 w) a o1 c1 (withClass o1 c) Hw1 Hc1 eq_refl (proj2 (proj2 Hc1))) as (Hw2 & Hf & _).
  rewrite withObject_twice in Hw2, Hf.
  assert (Hold : forall b o, objects w !! b = Some o -> objects (withObject a (withClass o1 c) w) !! b = Some o).
  { intros b o Hb. cbn. rewrite lookup_insert_ne; [exact Hb|]. intros ->. congruence. }
  split; [split; [exact Hw2|exact Hd]|constructor].
  - intros b [o Hb]. destruct (world_objects _ _ Hw b o Hb) as [cb Hcb]. assert (Hne : b <> a) by (intros ->; congruence).
    pose proof (frame_content _ _ _ Hf b o cb Hne (Hkeep b o cb Hcb)) as Hcb'.
    apply essential_same; [eexists; apply Hcb'|rewrite (listOf_object _ b o cb Hcb'), (listOf_object w b o cb Hcb); reflexivity|].
    unfold extensibleAt, protoOf. rewrite Hb, (proj1 Hcb'). auto.
  - intros b o Hb. exists o. split; [exact (Hold b o Hb)|constructor].
Qed.

Lemma newObjectOf_after c w : good w ->
  after (newObjectOf rt c) w (fun a w' => exists o, objects w' !! a = Some o /\ m_objectClass o = c).
Proof using Laws.
  intros Hg. eapply after_bind; [exact (law_address valid validP nameOf nameOfKey dS w Hg)|]. intros a w1 Hg1 _ Ha. cbn beta in Ha.
  rewrite (law_structure valid validP nameOf nameOfKey dS).
  destruct (fresh_evolves w1 a _ c Hg1 Ha eq_refl) as [Hg2 He2].
  eapply after_bind; [eapply after_run with (Q := fun _ w2 => exists o, objects w2 !! a = Some o /\ m_objectClass o = c);
    [apply writeObject_run|exact Hg2|exact He2|]|].
  - eexists. split; [apply lookup_insert_eq|reflexivity].
  - intros u w2 Hg2' _ H. apply after_ret; assumption.
Qed.

Lemma objectFromDescriptor_polite desc : polite (objectFromDescriptor rt nameOf names desc).
Proof using Hnames Laws Names.
  intros w Hg. eapply after_bind; [exact (newObjectOf_after OrdinaryObject w Hg)|]. intros a w1 Hg1 _ _.
  eapply (after_bind _ _ _ _ _ (fun _ _ => True)); [|intros _ w2 Hg2 _ _; apply after_ret; [exact Hg2|exact I]].
  generalize (fromObjectPropertyDescriptor desc). intros fields. clear w Hg. revert w1 Hg1.
  induction fields as [|[f v] fields IH]; intros w Hg; cbn [defineFields]; [apply after_ret; [exact Hg|exact I]|].
  eapply after_bind; [exact (ok_define a _ _ (field_ok f) (assignment_wf None v) w Hg)|]. intros _ w2 Hg2 _ _. exact (IH w2 Hg2).
Qed.

(** ** Lists of keys *)

Lemma createListFromArrayLike_after obj w : good w ->
  after (createListFromArrayLike rt nameOf names obj) w (fun ks _ => Forall (fun k => validP (nameOfKey k)) ks).
Proof using Hnames Laws Names.
  intros Hg. unfold createListFromArrayLike. case_if; [apply after_throw, Hg|].
  eapply after_bind; [exact (getValue_polite _ _ (length_valid validP nameOfKey) w Hg)|]. intros len w1 Hg1 _ _.
  eapply after_bind; [exact (law_length valid validP nameOf nameOfKey dS len w1 Hg1)|]. intros n w2 Hg2 _ _.
  generalize 0%nat. revert w2 Hg2. induction n as [|n IH]; intros w2 Hg2 index; cbn [collectKeys]; [apply after_ret; auto|].
  eapply after_bind; [exact (getValue_polite _ _ (index_valid validP nameOfKey index) w2 Hg2)|]. intros next w3 Hg3 _ _.
  destruct (isStringOrSymbol next) eqn:E; cbn [negb]; [|apply after_throw, Hg3].
  eapply after_bind; [exact (IH w3 Hg3 (S index))|]. intros rest w4 Hg4 _ H. apply after_ret; [exact Hg4|].
  constructor; [exact (ownKey_valid validP nameOfKey next E)|exact H].
Qed.

(** ** The handler, the target and the trap *)

(** What the rest of a method knows: the target is one remove nearer. *)
Definition nearer (w : World) (a : Z) (target : Z) (w1 : World) : Prop :=
  forall t n, leads w a t n -> exists m, n = S m /\ leads w1 target t m.

Lemma nearer_evolves w a target w1 w2 : evolves w1 w2 -> nearer w a target w1 -> nearer w a target w2.
Proof using Type.
  intros He H t n Hl. destruct (H t n Hl) as (m & -> & Hm). exists m. split; [reflexivity|]. eapply leads_evolves; eassumption.
Qed.

Lemma trapOf_after a trap w : good w ->
  after (trapOf rt nameOf names a trap) w (fun x w1 => nearer w a (snd (fst x)) w1).
Proof using Hnames Laws Names.
  intros Hg. unfold trapOf.
  eapply (after_bind _ _ _ _ _ (fun p w1 => w1 = w /\ exists o, objects w !! a = Some o /\ m_objectClass o = ProxyObject p)).
  { apply after_readObject; [exact Hg|]. intros o Ha. destruct (m_objectClass o) as [|p] eqn:Ec; [apply after_throw, Hg|].
    apply after_ret; eauto. }
  intros p w1 _ _ [-> (o & Ha & Hc)]. destruct (m_handler p) as [handler|] eqn:Eh; [|apply after_throw, Hg].
  apply after_orThrow; [exact Hg|]. intros target Et.
  eapply after_bind; [exact (getMethod_polite handler _ (trap_valid validP nameOfKey trap) w Hg)|]. intros method w2 Hg2 He _.
  apply after_ret; [exact Hg2|]. cbn [fst snd]. intros t n Hl.
  destruct Hl as [t o' Ha' Ho|a o' p' h b t n Ha' Hc' Hh Hb Hl|a o' p' t n Ha' Hc' Hh _]; assert (o' = o) as -> by congruence.
  - unfold isProxyObject in Ho. rewrite Hc in Ho. discriminate.
  - assert (p' = p) as -> by congruence. exists n. split; [reflexivity|]. assert (b = target) as -> by congruence.
    eapply leads_evolves; eassumption.
  - assert (p' = p) as -> by congruence. congruence.
Qed.
(** ** What a method learns of its target *)

Section Target.
Context (w : World) (a target : Z) (w1 : World) (He : evolves w w1) (Hn : nearer w a target w1).

Lemma facts_later t n : leads w a t n ->
  (forall key p, fixedAt w t key p -> fixedAt w1 t key p) /\ (forall key, closedWithout w t key -> closedWithout w1 t key) /\
  (closedAt w t -> closedAt w1 t /\ protoOf w1 t = protoOf w t).
Proof using He.
  intros Hl. apply leads_object in Hl as [Ht _]. split_and!; intros *;
    [eapply fixed_evolves|eapply without_evolves|eapply closed_evolves]; eassumption.
Qed.

(** The own property of the target, as it was told. *)
Definition targetAnswer (key : PropertyKey) (r : ObjectGetResult) : Prop :=
  plainResult r /\ forall t n, leads w a t n -> exists m, n = S m /\
  (forall p, fixedAt w t key p -> trusted 1 m p ->
     match propertyOfResult r with Some p' => keptProperty p p' | None => ~ trusted 0 m p end) /\
  (closedWithout w t key -> propertyOfResult r = None).

Lemma target_own key r : ownAnswer w1 target key r -> targetAnswer key r.
Proof using He Hn.
  intros [Hr H]. split; [exact Hr|]. intros t n Hl. destruct (Hn t n Hl) as (m & -> & Hm). exists m. split; [reflexivity|].
  destruct (facts_later t _ Hl) as (F1 & F2 & _). destruct (H t m Hm) as [H1 H2].
  split; [intros p Hp Ht; exact (H1 p (F1 key p Hp) Ht)|intros Hc; exact (H2 (F2 key Hc))].
Qed.

Lemma target_extensible b w2 : extensibleAnswer w1 target b w2 -> extensibleAnswer w a b w2.
Proof using He Hn.
  intros H t n Hl. destruct (Hn t n Hl) as (m & -> & Hm). destruct (facts_later t _ Hl) as (_ & _ & F).
  destruct (H t m Hm) as [H1 H2]. split; [|exact H2]. intros Hc. apply H1, F, Hc.
Qed.

Lemma trusted_more m p : trusted 0 m p -> trusted 1 m p.
Proof using Type. intros [H|H]; [left; lia|right; exact H]. Qed.
Lemma trusted_1 m p : trusted 1 (S m) p -> trusted 0 m p.
Proof using Type. intros [H|H]; [left; lia|right; exact H]. Qed.
Lemma trusted_same k m p : trusted k (S m) p -> trusted k m p.
Proof using Type. intros [H|H]; [left; lia|right; exact H]. Qed.

(** The methods of a proxy without a trap are those of its target. *)
Lemma forward_own key r : ownAnswer w1 target key r -> ownAnswer w a key r.
Proof using He Hn.
  intros H. apply target_own in H as [Hr H]. split; [exact Hr|]. intros t n Hl. destruct (H t n Hl) as (m & -> & H1 & H2).
  split; [|exact H2]. intros p Hp Ht. specialize (H1 p Hp (trusted_same _ _ _ Ht)). destruct (propertyOfResult r); [exact H1|]. eauto using trusted_same.
Qed.

Lemma forward_define key desc b : defineAnswer w1 target key desc b -> defineAnswer w a key desc b.
Proof using He Hn.
  intros H Hb t n Hl. destruct (Hn t n Hl) as (m & -> & Hm). destruct (facts_later t _ Hl) as (F1 & F2 & _).
  destruct (H Hb t m Hm) as [H1 H2]. split; [intros p Hp Ht; eauto using trusted_same|auto].
Qed.

Lemma forward_delete key b : deleteAnswer w1 target key b -> deleteAnswer w a key b.
Proof using He Hn.
  intros H Hb t n Hl p Hp Ht. destruct (Hn t n Hl) as (m & -> & Hm). destruct (facts_later t _ Hl) as (F1 & _ & _).
  eapply (H Hb t m Hm p); eauto using trusted_same.
Qed.

Lemma forward_has key b : hasAnswer w1 target key b -> hasAnswer w a key b.
Proof using He Hn.
  intros H Hb t n Hl p Hp Ht. destruct (Hn t n Hl) as (m & -> & Hm). destruct (facts_later t _ Hl) as (F1 & _ & _).
  eapply (H Hb t m Hm p); eauto using trusted_same.
Qed.

Lemma forward_get key r : getAnswer w1 target key r -> getAnswer w a key r.
Proof using He Hn.
  intros [Hr H]. split; [exact Hr|]. intros t n Hl p Hp Ht. destruct (Hn t n Hl) as (m & -> & Hm).
  destruct (facts_later t _ Hl) as (F1 & _ & _). eapply (H t m Hm p); eauto using trusted_same.
Qed.

Lemma forward_set key v b : setAnswer w1 target key v b -> setAnswer w a key v b.
Proof using He Hn.
  intros H Hb t n Hl p Hp Ht. destruct (Hn t n Hl) as (m & -> & Hm). destruct (facts_later t _ Hl) as (F1 & _ & _).
  eapply (H Hb t m Hm p); eauto using trusted_same.
Qed.

Lemma forward_keys ks : keysAnswer validP nameOf nameOfKey w1 target ks -> keysAnswer validP nameOf nameOfKey w a ks.
Proof using He Hn.
  intros (H1 & H2 & H). split_and!; [exact H1|exact H2|]. intros t n Hl. destruct (Hn t n Hl) as (m & -> & Hm).
  destruct (facts_later t _ Hl) as (F1 & F2 & _). destruct (H t m Hm) as [K1 K2]. split; [|auto].
  intros key p Hp Ht. eapply K1; eauto using trusted_same.
Qed.

Lemma forward_prevent b w2 : preventAnswer w1 target b w2 -> preventAnswer w a b w2.
Proof using He Hn. intros H Hb t n Hl. destruct (Hn t n Hl) as (m & -> & Hm). exact (H Hb t m Hm). Qed.

Lemma forward_getPrototype r : getPrototypeAnswer w1 target r -> getPrototypeAnswer w a r.
Proof using He Hn.
  intros H t n Hl Hc. destruct (Hn t n Hl) as (m & -> & Hm). destruct (facts_later t _ Hl) as (_ & _ & F).
  destruct (F Hc) as [F1 F2]. rewrite <- F2. exact (H t m Hm F1).
Qed.

Lemma forward_setPrototype proto b : setPrototypeAnswer w1 target proto b -> setPrototypeAnswer w a proto b.
Proof using He Hn.
  intros H Hb t n Hl Hc. destruct (Hn t n Hl) as (m & -> & Hm). destruct (facts_later t _ Hl) as (_ & _ & F).
  destruct (F Hc) as [F1 F2]. rewrite <- F2. exact (H Hb t m Hm F1).
Qed.
End Target.

Lemma value_after r receiver w : good w -> plainResult r ->
  after (value rt r receiver) w (fun v _ => match r with NoProperty => v = ValueUndefined | DataResult v' _ _ _ => v = v' | _ => True end).
Proof using Laws.
  intros Hg Hr. destruct r; try contradiction; [apply after_ret; auto..|]. exact (ok_value _ _ Hr w Hg).
Qed.

(** A property that is shown is not one that reads as undefined. *)
Lemma shown_value w a key r v : targetAnswer w a key r ->
  match r with NoProperty => v = ValueUndefined | DataResult v' _ _ _ => v = v' | _ => True end -> isUndefined v = true ->
  forall t n, leads w a t n -> forall p, fixedAt w t key p -> ~ trusted 0 n p.
Proof using Type.
  intros [Hr H] Hv Hu t n Hl p Hp Ht. destruct (H t n Hl) as (m & -> & H1 & _). specialize (H1 p Hp (trusted_more _ _ (trusted_1 _ _ (trusted_more _ _ Ht)))).
  apply Z.eqb_eq in Hu. destruct Ht as [Ht|Hs]; [lia|]. destruct (propertyOfResult r) as [p'|] eqn:E.
  - pose proof (shown_kept p p' H1 Hs) as Hs'. destruct r; cbn in E; try discriminate; injection E as <-; cbn in Hs'; try contradiction.
    destruct isWritable; [contradiction|]. congruence.
  - apply H1. right. exact Hs.
Qed.
(** ** Own properties *)

(** The head of every method: without a trap it is the method of the target [fw];
    with one, [tr] goes on from the call of the trap. *)
Lemma method_head {A} a trap (fw : Z -> OM A) (tr : Z -> Z -> Z -> OM A) w Q : good w ->
  (forall target w1, good w1 -> evolves w w1 -> nearer w a target w1 -> after (fw target) w1 Q) ->
  (forall handler target method w1, good w1 -> evolves w w1 -> nearer w a target w1 -> after (tr handler target method) w1 Q) ->
  after (let! x := trapOf rt nameOf names a trap in
         let '(handler, target, method) := x in if isUndefined method then fw target else tr handler target method) w Q.
Proof using Hnames Laws Names.
  intros Hg Hf Ht. eapply after_bind; [exact (trapOf_after a trap w Hg)|]. intros [[handler target] method] w1 Hg1 He1 Hn1. cbn [fst snd] in Hn1.
  case_if; [apply Hf|apply Ht]; assumption.
Qed.

(** After the trap, what the target says of its own property. *)
Lemma after_target_own {A} a target P (k : ObjectGetResult -> OM A) w w1 Q : validP P -> good w1 -> evolves w w1 -> nearer w a target w1 ->
  (forall r w2, good w2 -> evolves w w2 -> nearer w a target w2 -> targetAnswer w a (keyOf P) r -> after (k r) w2 Q) ->
  after (let! r := getOwnProperty rt nameOf target P in k r) w1 Q.
Proof using Hnames Laws.
  intros HP Hg1 He1 Hn1 Hk. eapply after_bind; [exact (ok_own target P HP w1 Hg1)|]. intros r w2 Hg2 He2 Hr.
  apply Hk; [exact Hg2|eapply evolution_trans; eassumption|eapply nearer_evolves; eassumption|eapply target_own; eassumption].
Qed.

Lemma after_target_extensible {A} a target (k : bool -> OM A) w w1 Q : good w1 -> evolves w w1 -> nearer w a target w1 ->
  (forall b w2, good w2 -> evolves w w2 -> nearer w a target w2 -> extensibleAnswer w a b w2 -> after (k b) w2 Q) ->
  after (let! b := isExtensible rt target in k b) w1 Q.
Proof using Laws.
  intros Hg1 He1 Hn1 Hk. eapply after_bind; [exact (ok_extensible target w1 Hg1)|]. intros b w2 Hg2 He2 Hb.
  apply Hk; [exact Hg2|eapply evolution_trans; eassumption|eapply nearer_evolves; eassumption|eapply target_extensible; eassumption].
Qed.

Lemma after_trap_call {A} a target callee receiver argv (k : Z -> OM A) w w1 Q : good w1 -> evolves w w1 -> nearer w a target w1 ->
  (forall v w2, good w2 -> evolves w w2 -> nearer w a target w2 -> after (k v) w2 Q) ->
  after (let! v := Object_call rt callee receiver argv in k v) w1 Q.
Proof using Laws.
  intros Hg1 He1 Hn1 Hk. eapply after_bind; [exact (Object_call_polite callee receiver argv w1 Hg1)|]. intros v w2 Hg2 He2 _.
  apply Hk; [exact Hg2|eapply evolution_trans; eassumption|eapply nearer_evolves; eassumption].
Qed.

Lemma fixed_not_configurable w a key r t n p : targetAnswer w a key r -> leads w a t n -> fixedAt w t key p -> trusted 1 n p ->
  hasValue r = true /\ result_isConfigurable r = false.
Proof using Type.
  intros [_ H] Hl Hp Ht. destruct (H t n Hl) as (m & -> & H1 & _). apply trusted_1 in Ht.
  specialize (H1 p Hp (trusted_more _ _ Ht)). destruct r; cbn in H1; [destruct (H1 Ht)|..]; destruct H1 as (E & _); auto.
Qed.

Lemma checkedDescriptor_after a target trapResultObj key r w w1 : good w1 -> evolves w w1 -> nearer w a target w1 ->
  targetAnswer w a key r ->
  after (checkedDescriptor rt nameOf names target trapResultObj r) w1 (fun r' _ => ownAnswer w a key r').
Proof using Hnames Laws Names.
  intros Hg1 He1 Hn1 Hr. unfold checkedDescriptor.
  eapply after_bind; [exact (descriptorFromObject_after _ w1 Hg1)|]. intros desc w2 Hg2 He2 Hwf. cbn beta zeta in Hwf |- *.
  pose proof (complete_fullDescriptor desc Hwf) as Hq. pose proof (wf_complete desc Hwf) as Hwf'.
  set (rd := completePropertyDescriptor desc) in *. set (q := newProperty (descriptorOf desc)) in *. clearbody rd q. clear desc Hwf.
  eapply (after_target_extensible a target _ w); [exact Hg2|eapply evolution_trans; eassumption|eapply nearer_evolves; eassumption|].
  intros ext w3 Hg3 He3 Hn3 Hext. pose proof Hr as [Hplain Hfacts].
  assert (Hcompat : exists b, isCompatiblePropertyDescriptor rt ext rd r w3 = (Ret b, w3) /\
    (b = true -> match propertyOfResult r with Some p => compatible p (fullDescriptor q) = true | None => ext = true end)).
  { destruct (propertyOfResult r) as [p|] eqn:E.
    - exists (compatible p (descriptorOf rd)). split; [apply isCompatible_plain; assumption|]. rewrite Hq. auto.
    - exists ext. split; [apply isCompatible_none, E|auto]. }
  destruct Hcompat as (b & E & Hb). eapply after_read; [exact E|]. destruct b; cbn [negb]; [|apply after_throw, Hg3]. specialize (Hb eq_refl).
  case_if; [apply after_throw, Hg3|]. case_if; [apply after_throw, Hg3|].
  destruct (full_result rd q Hwf' Hq) as (Er & Hgs & _).
  match goal with |- after ?m _ _ => replace m with (ret (S := World) (E := ObjectError) (match q with
    | DataProperty v w e c => DataResult v w e c
    | AccessorProperty _ _ e c => AccessorResult (m_getterSetter rd) e c end))
    by (rewrite <- Er; destruct (isDataDescriptor rd); reflexivity) end.
  assert (Eq : propertyOfResult (match q with
    | DataProperty v w e c => DataResult v w e c
    | AccessorProperty _ _ e c => AccessorResult (m_getterSetter rd) e c end) = Some q).
  { destruct q as [v wr e c|g s e c]; [reflexivity|]. cbn. rewrite orUndefined_hasGetter, orUndefined_hasSetter.
    destruct Hgs as (<- & <- & Hboth). apply andb_true_iff in Hboth as [-> ->]. reflexivity. }
  apply after_ret; [exact Hg3|]. split; [destruct q; exact I|]. rewrite Eq. intros t n Hl.
  destruct (Hfacts t n Hl) as (m & -> & H1 & H2). split.
  - intros p Hp Ht. apply trusted_1 in Ht. specialize (H1 p Hp (trusted_more _ _ Ht)).
    destruct (propertyOfResult r) as [p'|] eqn:Ep; [|destruct (H1 Ht)].
    eapply keptProperty_trans; [exact H1|]. rewrite <- (apply_full p' q). apply compatible_kept; [exact Hb|apply H1].
  - intros Hc. exfalso. rewrite (H2 Hc) in Hb. destruct (Hext t _ Hl) as [K _]. rewrite K in Hb by apply Hc. discriminate.
Qed.
Lemma own_proxy a P : validP P ->
  always (ProxyObject_getOwnProperty rt nameOf names a P) (fun w r _ => ownAnswer w a (keyOf P) r).
Proof using Hnames Laws Names.
  intros HP w Hg. apply method_head; [exact Hg|..].
  - intros target w1 Hg1 He1 Hn1. eapply after_mono; [exact (ok_own target P HP w1 Hg1)|]. intros r w2 _ _ H. eapply forward_own; eassumption.
  - intros handler target trap w1 Hg1 He1 Hn1. apply (after_trap_call a target _ _ _ _ w); try assumption. clear w1 Hg1 He1 Hn1.
    intros result w1 Hg1 He1 Hn1. case_if; [apply after_throw, Hg1|].
    apply (after_target_own a target P _ w); try assumption. clear w1 Hg1 He1 Hn1. intros r w1 Hg1 He1 Hn1 Hr.
    destruct (isUndefined result); [|eapply checkedDescriptor_after; eassumption].
    assert (Hnone : (forall t n, leads w a t n -> forall p, fixedAt w t (keyOf P) p -> ~ trusted 0 n p) -> ownAnswer w a (keyOf P) NoProperty).
    { intros H. split; [exact I|]. intros t n Hl. split; [intros p Hp _; exact (H t n Hl p Hp)|reflexivity]. }
    eapply after_bind; [exact (value_after r _ w1 Hg1 (proj1 Hr))|]. intros v w2 Hg2 He2 Hv. cbn beta in Hv.
    assert (He : evolves w w2) by (eapply evolution_trans; eassumption). pose proof (nearer_evolves _ _ _ _ _ He2 Hn1) as Hn2.
    destruct (isUndefined v) eqn:Eu; [apply after_ret; [exact Hg2|]; apply Hnone; eapply shown_value; eassumption|].
    destruct (result_isConfigurable r) eqn:Ec; cbn [negb]; [|apply after_throw, Hg2].
    apply (after_target_extensible a target _ w); try assumption. intros ext w3 Hg3 _ _ _.
    destruct ext; cbn [negb]; [|apply after_throw, Hg3]. apply after_ret; [exact Hg3|]. apply Hnone. intros t n Hl p Hp Ht.
    destruct (fixed_not_configurable w a _ r t n p Hr Hl Hp (trusted_more _ _ Ht)). congruence.
Qed.

Lemma define_proxy a P desc : validP P -> wf_descriptor desc ->
  always (ProxyObject_defineOwnProperty rt nameOf names a P desc) (fun w b _ => defineAnswer w a (keyOf P) desc b).
Proof using Hnames Laws Names.
  intros HP Hwf w Hg. apply method_head; [exact Hg|..].
  - intros target w1 Hg1 He1 Hn1. eapply after_mono; [exact (ok_define target P desc HP Hwf w1 Hg1)|]. intros b w2 _ _ H. eapply forward_define; eassumption.
  - intros handler target trap w1 Hg1 He1 Hn1. eapply after_bind; [exact (objectFromDescriptor_polite desc w1 Hg1)|].
    intros descObj w2 Hg2 He2 _. pose proof (nearer_evolves _ _ _ _ _ He2 Hn1) as Hn2.
    apply (after_trap_call a target _ _ _ _ w); [exact Hg2|eapply evolution_trans; eassumption|exact Hn2|]. clear w1 Hg1 He1 Hn1 w2 Hg2 He2 Hn2.
    intros result w1 Hg1 He1 Hn1. case_if; [apply after_ret; [exact Hg1|intros [=]]|].
    apply (after_target_own a target P _ w); try assumption. clear w1 Hg1 He1 Hn1. intros r w1 Hg1 He1 Hn1 Hr.
    apply (after_target_extensible a target _ w); try assumption. clear w1 Hg1 He1 Hn1. intros ext w1 Hg1 He1 Hn1 Hext.
    pose proof Hr as [Hplain Hfacts]. rewrite plain_property. destruct (propertyOfResult r) as [p'|] eqn:Ep.
    + rewrite bool_decide_eq_true_2 by eauto. cbn [negb]. eapply after_read; [apply isCompatible_plain; eassumption|].
      destruct (compatible p' (descriptorOf desc)) eqn:Ec; cbn [negb orb]; [|apply after_throw, Hg1].
      repeat case_if; try apply after_throw, Hg1. apply after_ret; [exact Hg1|]. intros _ t n Hl.
      destruct (Hfacts t n Hl) as (m & -> & H1 & H2). split; [|intros Hc; specialize (H2 Hc); congruence].
      intros p Hp Ht. exists p'. split; [|exact Ec]. apply H1; eauto using trusted_1, trusted_more.
    + rewrite bool_decide_eq_false_2 by (intros [? [=]]). cbn [negb]. case_if; [apply after_throw, Hg1|]. apply after_ret; [exact Hg1|].
      intros _ t n Hl. destruct (Hfacts t n Hl) as (m & -> & H1 & H2). apply orb_false_iff in Heqb0 as [Hx _]. apply negb_false_iff in Hx. split.
      * intros p Hp Ht. destruct (H1 p Hp); eauto using trusted_1, trusted_more.
      * intros [Hc _]. destruct (Hext t _ Hl) as [K _]. rewrite (K Hc) in Hx. discriminate.
Qed.

Lemma delete_proxy a P : validP P ->
  always (ProxyObject_deleteOwnProperty rt nameOf names a P) (fun w b _ => deleteAnswer w a (keyOf P) b).
Proof using Hnames Laws Names.
  intros HP w Hg. apply method_head; [exact Hg|..].
  - intros target w1 Hg1 He1 Hn1. eapply after_mono; [exact (ok_delete target P HP w1 Hg1)|]. intros b w2 _ _ H. eapply forward_delete; eassumption.
  - intros handler target trap w1 Hg1 He1 Hn1. apply (after_trap_call a target _ _ _ _ w); try assumption. clear w1 Hg1 He1 Hn1.
    intros result w1 Hg1 He1 Hn1. case_if; [apply after_ret; [exact Hg1|intros [=]]|].
    apply (after_target_own a target P _ w); try assumption. clear w1 Hg1 He1 Hn1. intros r w1 Hg1 He1 Hn1 Hr.
    eapply after_bind; [exact (value_after r _ w1 Hg1 (proj1 Hr))|]. intros v w2 Hg2 He2 Hv. cbn beta in Hv.
    assert (He : evolves w w2) by (eapply evolution_trans; eassumption). pose proof (nearer_evolves _ _ _ _ _ He2 Hn1) as Hn2.
    destruct (isUndefined v) eqn:Eu; [apply after_ret; [exact Hg2|]; intros _; eapply shown_value; eassumption|].
    destruct (result_isConfigurable r) eqn:Ec; cbn [negb]; [|apply after_throw, Hg2].
    apply (after_target_extensible a target _ w); try assumption. intros ext w3 Hg3 _ _ _.
    destruct ext; cbn [negb]; [|apply after_throw, Hg3]. apply after_ret; [exact Hg3|]. intros _ t n Hl p Hp Ht.
    destruct (fixed_not_configurable w a _ r t n p Hr Hl Hp (trusted_more _ _ Ht)). congruence.
Qed.

Lemma has_proxy a P : validP P ->
  always (ProxyObject_hasProperty rt nameOf names a P) (fun w b _ => hasAnswer w a (keyOf P) b).
Proof using Hnames Laws Names.
  intros HP w Hg. apply method_head; [exact Hg|..].
  - intros target w1 Hg1 He1 Hn1. eapply after_mono; [exact (ok_has target P HP w1 Hg1)|]. intros b w2 _ _ H. eapply forward_has; eassumption.
  - intros handler target trap w1 Hg1 He1 Hn1. apply (after_trap_call a target _ _ _ _ w); try assumption. clear w1 Hg1 He1 Hn1.
    intros result w1 Hg1 He1 Hn1. case_if; [|apply after_ret; [exact Hg1|intros [=]]].
    apply (after_target_own a target P _ w); try assumption. clear w1 Hg1 He1 Hn1. intros r w1 Hg1 He1 Hn1 Hr.
    assert (Hfalse : result_isConfigurable r = true \/ hasValue r = false -> hasAnswer w a (keyOf P) false).
    { intros Hc _ t n Hl p Hp Ht. destruct (fixed_not_configurable w a _ r t n p Hr Hl Hp Ht). destruct Hc; congruence. }
    destruct (hasValue r) eqn:Ev; [|apply after_ret; auto].
    destruct (result_isConfigurable r) eqn:Ec; cbn [negb]; [|apply after_throw, Hg1].
    apply (after_target_extensible a target _ w); try assumption. intros ext w3 Hg3 _ _ _.
    destruct ext; cbn [negb]; [|apply after_throw, Hg3]. apply after_ret; auto.
Qed.
(** ** Keys *)

Abbreviation keyText := (keyOfOwn nameOf nameOfKey).

Lemma sameKey_spec k k' : sameKey nameOf nameOfKey k k' = bool_decide (keyText k = keyText k').
Proof using Type. reflexivity. Qed.

Lemma hasDuplicates_spec ks : hasDuplicates nameOf nameOfKey ks = false -> NoDup (map keyText ks).
Proof using Type.
  clear. induction ks as [|k ks IH]; cbn; [constructor|]. intros H. apply orb_false_iff in H as [H1 H2]. constructor; [|auto].
  intros Hin. apply list_elem_of_In, in_map_iff in Hin as (k' & E & Hin).
  assert (H : existsb (sameKey nameOf nameOfKey k) ks = true)
    by (apply existsb_exists; exists k'; split; [exact Hin|rewrite sameKey_spec; apply bool_decide_eq_true; congruence]).
  congruence.
Qed.

Lemma removeKeys_after keys unchecked w : good w ->
  after (removeKeys nameOf nameOfKey keys unchecked) w (fun rest _ =>
    (forall k, k ∈ keys -> keyText k ∈ map keyText unchecked) /\
    (forall k, k ∈ unchecked -> k ∈ rest \/ keyText k ∈ map keyText keys)).
Proof using Type.
  intros Hg. revert unchecked. induction keys as [|key keys IH]; intros unchecked; cbn [removeKeys].
  - apply after_ret; [exact Hg|]. split; [intros k Hk; inversion Hk|auto].
  - destruct (existsb _ unchecked) eqn:E; cbn [negb]; [|apply after_throw, Hg].
    apply existsb_exists in E as (k1 & Hk1 & E1). rewrite sameKey_spec in E1. apply bool_decide_eq_true in E1.
    eapply after_mono; [apply IH|]. intros rest w' _ _ [H1 H2]. split.
    + intros k [->|Hk]%elem_of_cons; [rewrite <- E1; apply list_elem_of_In, in_map, Hk1|].
      specialize (H1 k Hk). apply list_elem_of_In, in_map_iff in H1 as (k2 & E2 & Hk2). apply filter_In in Hk2 as [Hk2 _].
      rewrite <- E2. apply list_elem_of_In, in_map, Hk2.
    + intros k Hk. cbn [map]. destruct (sameKey nameOf nameOfKey k key) eqn:Es.
      * right. rewrite sameKey_spec in Es. apply bool_decide_eq_true in Es. rewrite Es. left.
      * destruct (H2 k) as [H|H]; [|auto|right; right; exact H].
        apply list_elem_of_In, filter_In. rewrite Es. split; [apply list_elem_of_In, Hk|reflexivity].
Qed.

Lemma splitKeys_after a target keys w w1 : Forall (fun k => validP (nameOfKey k)) keys -> good w1 -> evolves w w1 -> nearer w a target w1 ->
  after (splitKeys rt nameOf nameOfKey target keys) w1 (fun x _ =>
    (forall k, k ∈ fst x \/ k ∈ snd x -> k ∈ keys) /\
    (forall k t n p, k ∈ keys -> leads w a t n -> fixedAt w t (keyText k) p -> trusted 1 n p -> k ∈ snd x)).
Proof using Hnames Laws.
  intros Hv. revert w1. induction Hv as [|key keys Hkey _ IH]; intros w1 Hg1 He1 Hn1; cbn [splitKeys].
  - apply after_ret; [exact Hg1|]. cbn. split; [intuition|intros k t n p Hk; inversion Hk].
  - apply (after_target_own a target _ _ w); try assumption. clear w1 Hg1 He1 Hn1. intros r w1 Hg1 He1 Hn1 Hr.
    eapply after_bind; [exact (IH w1 Hg1 He1 Hn1)|]. intros [conf nonconf] w2 Hg2 _ (H1 & H3). cbn [fst snd] in *.
    destruct (hasValue r && negb (result_isConfigurable r)) eqn:E; (apply after_ret; [exact Hg2|]); cbn [fst snd]; split_and!;
      try (intros k; rewrite !elem_of_cons; specialize (H1 k); intuition; fail);
      intros k t n p [->|Hk]%elem_of_cons Hl Hp Ht; try (apply elem_of_cons; auto; right; eapply H3; eassumption); [|eapply H3; eassumption].
    destruct (fixed_not_configurable w a _ r t n p Hr Hl Hp Ht) as [K1 K2]. rewrite K1, K2 in E. discriminate.
Qed.

(** What the keys of the target say of the objects that a proxy stands for. *)
Definition holds (w : World) (a : Z) (conf nonconf : list OwnKey) : Prop := forall t n, leads w a t n ->
  (forall key p, fixedAt w t key p -> trusted 1 n p -> exists k, k ∈ nonconf /\ keyText k = key) /\
  (forall key, closedWithout w t key -> key ∉ map keyText (conf ++ nonconf)).

Lemma holds_split w a target w1 keys conf nonconf : evolves w w1 -> nearer w a target w1 ->
  keysAnswer validP nameOf nameOfKey w1 target keys ->
  (forall k, k ∈ conf \/ k ∈ nonconf -> k ∈ keys) ->
  (forall k t n p, k ∈ keys -> leads w a t n -> fixedAt w t (keyText k) p -> trusted 1 n p -> k ∈ nonconf) ->
  holds w a conf nonconf.
Proof using Type.
  intros He Hn (_ & _ & T) S1 S3 t n Hl. destruct (Hn t n Hl) as (m & -> & Hm).
  destruct (facts_later w a w1 He t _ Hl) as (F1 & F2 & _). destruct (T t m Hm) as [T1 T2]. split.
  - intros key p Hp Ht. specialize (T1 key p (F1 key p Hp) (trusted_same _ _ _ Ht)).
    apply list_elem_of_In, in_map_iff in T1 as (k & <- & Hk). apply list_elem_of_In in Hk. eauto.
  - intros key Hc Hin. apply (T2 key (F2 key Hc)).
    apply list_elem_of_In, in_map_iff in Hin as (k & <- & Hk). apply list_elem_of_In, elem_of_app in Hk.
    apply list_elem_of_In, in_map, list_elem_of_In, S1. intuition.
Qed.

(** The checks of the keys that the trap answered against those of the target. *)
Lemma checkedKeys_after w a ks ext conf nonconf w1 : good w1 -> Forall (fun k => validP (nameOfKey k)) ks -> NoDup (map keyText ks) ->
  holds w a conf nonconf -> (forall t n, leads w a t n -> closedAt w t -> ext = false) ->
  after (if ext && (List.length nonconf =? 0)%nat then ret ks
         else let! unchecked := removeKeys nameOf nameOfKey nonconf ks in
              if ext then ret ks
              else let! unchecked := removeKeys nameOf nameOfKey conf unchecked in
                   if negb (List.length unchecked =? 0)%nat then throw TypeError else ret ks)
    w1 (fun ks _ => keysAnswer validP nameOf nameOfKey w a ks).
Proof using Type.
  intros Hg Hks Hd Hh Hx.
  assert (Hopen : ext = true -> forall t n, leads w a t n -> forall key, ~ closedWithout w t key).
  { intros -> t n Hl key [Hc _]. pose proof (Hx t n Hl Hc). discriminate. }
  case_if.
  - apply andb_true_iff in Heqb as [-> Hlen]. apply Nat.eqb_eq, nil_length_inv in Hlen. subst nonconf. apply after_ret; [exact Hg|].
    split_and!; [exact Hks|exact Hd|]. intros t n Hl. split.
    + intros key p Hp Ht. destruct (proj1 (Hh t n Hl) key p Hp Ht) as (k & Hk & _). inversion Hk.
    + intros key Hc. destruct (Hopen eq_refl t n Hl key Hc).
  - clear Heqb. eapply after_bind; [exact (removeKeys_after nonconf ks w1 Hg)|]. intros rest w2 Hg2 _ [R1 R2].
    assert (Hin : forall t n, leads w a t n -> forall key p, fixedAt w t key p -> trusted 1 n p -> key ∈ map keyText ks).
    { intros t n Hl key p Hp Ht. destruct (proj1 (Hh t n Hl) key p Hp Ht) as (k & Hk & <-). exact (R1 k Hk). }
    destruct ext.
    + apply after_ret; [exact Hg2|]. split_and!; [exact Hks|exact Hd|]. intros t n Hl. split; [exact (Hin t n Hl)|].
      intros key Hc. destruct (Hopen eq_refl t n Hl key Hc).
    + eapply after_bind; [exact (removeKeys_after conf rest w2 Hg2)|]. intros rest' w3 Hg3 _ [_ R3].
      destruct (List.length rest' =? 0)%nat eqn:Hlen; cbn [negb]; [|apply after_throw, Hg3].
      apply Nat.eqb_eq, nil_length_inv in Hlen. subst rest'. apply after_ret; [exact Hg3|].
      split_and!; [exact Hks|exact Hd|]. intros t n Hl. split; [exact (Hin t n Hl)|].
      intros key Hc Hk. apply (proj2 (Hh t n Hl) key Hc). rewrite map_app, elem_of_app.
      apply list_elem_of_In, in_map_iff in Hk as (k & <- & Hk). apply list_elem_of_In in Hk.
      destruct (R2 k Hk) as [Hr|Hr]; [|auto]. destruct (R3 k Hr) as [Hr'|Hr']; [inversion Hr'|auto].
Qed.

Lemma keys_proxy a :
  always (ProxyObject_ownPropertyKeys rt nameOf nameOfKey names a) (fun w ks _ => keysAnswer validP nameOf nameOfKey w a ks).
Proof using Hnames Laws Names.
  intros w Hg. apply method_head; [exact Hg|..].
  - intros target w1 Hg1 He1 Hn1. eapply after_mono; [exact (ok_keys target w1 Hg1)|]. intros ks w2 _ _ H. eapply forward_keys; eassumption.
  - intros handler target trap w1 Hg1 He1 Hn1. apply (after_trap_call a target _ _ _ _ w); try assumption. clear w1 Hg1 He1 Hn1.
    intros result w1 Hg1 He1 Hn1. eapply after_bind; [exact (createListFromArrayLike_after result w1 Hg1)|].
    intros ks w2 Hg2 He2 Hks. cbn beta in Hks. destruct (hasDuplicates _ _ ks) eqn:Ed; [apply after_throw, Hg2|]. apply hasDuplicates_spec in Ed.
    assert (He : evolves w w2) by (eapply evolution_trans; eassumption). pose proof (nearer_evolves _ _ _ _ _ He2 Hn1) as Hn2.
    apply (after_target_extensible a target _ w); try assumption. clear w1 Hg1 He1 Hn1 w2 Hg2 He2 He Hn2. intros ext w1 Hg1 He1 Hn1 Hext.
    eapply after_bind; [exact (ok_keys target w1 Hg1)|]. intros targetKeys w2 Hg2 He2 T.
    assert (He : evolves w w2) by (eapply evolution_trans; eassumption). pose proof (nearer_evolves _ _ _ _ _ He2 Hn1) as Hn2.
    eapply after_bind; [exact (splitKeys_after a target targetKeys w w2 (proj1 T) Hg2 He Hn2)|]. clear Hg2 He2 He Hn2.
    intros [conf nonconf] w3 Hg3 _ (S1 & S3). cbn [fst snd] in *.
    apply checkedKeys_after; [exact Hg3|exact Hks|exact Ed|eapply holds_split; eassumption|].
    intros t n Hl. exact (proj1 (Hext t n Hl)).
Qed.

(** ** Extensibility and prototypes *)

Lemma extensible_proxy a :
  always (ProxyObject_isExtensible rt nameOf names a) (fun w b w' => extensibleAnswer w a b w').
Proof using Hnames Laws Names.
  intros w Hg. apply method_head; [exact Hg|..].
  - intros target w1 Hg1 He1 Hn1. eapply after_mono; [exact (ok_extensible target w1 Hg1)|]. intros b w2 _ _ H. eapply target_extensible; eassumption.
  - intros handler target trap w1 Hg1 He1 Hn1. apply (after_trap_call a target _ _ _ _ w); try assumption. clear w1 Hg1 He1 Hn1.
    intros result w1 Hg1 He1 Hn1. apply (after_target_extensible a target _ w); try assumption. intros b w2 Hg2 _ _ Hb.
    destruct (Bool.eqb b (toBoolean result)) eqn:E; cbn [negb]; [|apply after_throw, Hg2]. apply eqb_prop in E. subst b.
    apply after_ret; assumption.
Qed.

Lemma prevent_proxy a :
  always (ProxyObject_preventExtensions rt nameOf names a) (fun w b w' => preventAnswer w a b w').
Proof using Hnames Laws Names.
  intros w Hg. apply method_head; [exact Hg|..].
  - intros target w1 Hg1 He1 Hn1. eapply after_mono; [exact (ok_prevent target w1 Hg1)|]. intros b w2 _ _ H. eapply forward_prevent; eassumption.
  - intros handler target trap w1 Hg1 He1 Hn1. apply (after_trap_call a target _ _ _ _ w); try assumption. clear w1 Hg1 He1 Hn1.
    intros result w1 Hg1 He1 Hn1. case_if; [|apply after_ret; [exact Hg1|intros [=]]].
    apply (after_target_extensible a target _ w); try assumption. intros b w2 Hg2 _ _ Hb.
    destruct b; [apply after_throw, Hg2|]. apply after_ret; [exact Hg2|]. intros _ t n Hl. exact (proj2 (Hb t n Hl) eq_refl).
Qed.

(** What the target says of its prototype, once it is known to be closed. *)
Lemma after_target_prototype {A} a target (k : option Z -> OM A) w w1 Q : good w1 -> evolves w w1 -> nearer w a target w1 ->
  (forall p w2, good w2 -> getPrototypeAnswer w a p -> after (k p) w2 Q) ->
  after (let! p := getPrototype rt target in k p) w1 Q.
Proof using Laws.
  intros Hg1 He1 Hn1 Hk. eapply after_bind; [exact (ok_getPrototype target w1 Hg1)|]. intros p w2 Hg2 _ Hp.
  apply Hk; [exact Hg2|eapply forward_getPrototype; eassumption].
Qed.

Lemma setPrototype_proxy a proto :
  always (ProxyObject_setPrototype rt nameOf names a proto) (fun w b _ => setPrototypeAnswer w a proto b).
Proof using Hnames Laws Names.
  intros w Hg. apply method_head; [exact Hg|..].
  - intros target w1 Hg1 He1 Hn1. eapply after_mono; [exact (ok_setPrototype target proto w1 Hg1)|]. intros b w2 _ _ H. eapply forward_setPrototype; eassumption.
  - intros handler target trap w1 Hg1 He1 Hn1. apply (after_trap_call a target _ _ _ _ w); try assumption. clear w1 Hg1 He1 Hn1.
    intros result w1 Hg1 He1 Hn1. case_if; [apply after_ret; [exact Hg1|intros [=]]|].
    apply (after_target_extensible a target _ w); try assumption. intros b w2 Hg2 He2 Hn2 Hb. destruct b.
    + apply after_ret; [exact Hg2|]. intros _ t n Hl Hc. pose proof (proj1 (Hb t n Hl) Hc). discriminate.
    + apply (after_target_prototype a target _ w); try assumption. intros p w3 Hg3 Hp.
      destruct (prototypeValue proto =? prototypeValue p) eqn:E; cbn [negb]; [|apply after_throw, Hg3].
      apply Z.eqb_eq in E. apply after_ret; [exact Hg3|]. intros _ t n Hl Hc. rewrite E. exact (Hp t n Hl Hc).
Qed.

Lemma valuePrototype_value v : negb (isObject v) && negb (isNull v) = false -> prototypeValue (valuePrototype v) = v.
Proof using Type. unfold valuePrototype, isNull. destruct (v =? ValueNull) eqn:E; [apply Z.eqb_eq in E; auto|reflexivity]. Qed.

Lemma getPrototype_proxy a :
  always (ProxyObject_getPrototype rt nameOf names a) (fun w r _ => getPrototypeAnswer w a r).
Proof using Hnames Laws Names.
  intros w Hg. apply method_head; [exact Hg|..].
  - intros target w1 Hg1 He1 Hn1. eapply after_mono; [exact (ok_getPrototype target w1 Hg1)|]. intros b w2 _ _ H. eapply forward_getPrototype; eassumption.
  - intros handler target trap w1 Hg1 He1 Hn1. apply (after_trap_call a target _ _ _ _ w); try assumption. clear w1 Hg1 He1 Hn1.
    intros v w1 Hg1 He1 Hn1. destruct (negb (isObject v) && negb (isNull v)) eqn:Ev; [apply after_throw, Hg1|].
    apply valuePrototype_value in Ev.
    apply (after_target_extensible a target _ w); try assumption. intros b w2 Hg2 He2 Hn2 Hb. destruct b.
    + apply after_ret; [exact Hg2|]. intros t n Hl Hc. pose proof (proj1 (Hb t n Hl) Hc). discriminate.
    + apply (after_target_prototype a target _ w); try assumption. intros p w3 Hg3 Hp.
      destruct (v =? prototypeValue p) eqn:E; cbn [negb]; [|apply after_throw, Hg3].
      apply Z.eqb_eq in E. apply after_ret; [exact Hg3|]. intros t n Hl Hc. rewrite Ev, E. exact (Hp t n Hl Hc).
Qed.

Lemma proxyData_after a w : good w -> after (proxyData a) w (fun _ w1 => w1 = w).
Proof using Type.
  intros Hg. apply after_readObject; [exact Hg|]. intros o _. destruct (m_objectClass o); [apply after_throw, Hg|apply after_ret; auto].
Qed.

Lemma chain_proxy a : polite (ProxyObject_getPrototypeObject rt nameOf names a).
Proof using Hnames Laws Names.
  intros w Hg. eapply after_bind; [exact (proxyData_after a w Hg)|]. intros p w1 Hg1 _ ->.
  destruct (m_target p); [|apply after_ret; [exact Hg1|exact I]]. eapply after_true. exact (getPrototype_proxy a w Hg1).
Qed.

(** ** [get] and [set] *)

(** The comparison with a frozen value of the target. *)
Definition frozenData (r : ObjectGetResult) : bool :=
  hasValue r && (result_isDataProperty r && negb (result_isConfigurable r) && negb (result_isWritable r)).

Lemma after_frozen {A} r u receiver w (k : bool -> OM A) Q : good w -> plainResult r ->
  (forall b w1, good w1 -> evolves w w1 ->
     (b = false -> forall v wr e c, r = DataResult v wr e c -> frozenData r = true -> u = v) -> after (k b) w1 Q) ->
  after (let! b := (if frozenData r then let! v := value rt r receiver in ret (negb (u =? v)) else ret false) in k b) w Q.
Proof using Laws.
  intros Hg Hr Hk. destruct (frozenData r) eqn:E.
  - eapply (after_bind _ _ _ _ _ (fun b _ => b = false -> forall v wr e c, r = DataResult v wr e c -> u = v)).
    + eapply after_bind; [exact (value_after r receiver w Hg Hr)|]. intros v w1 Hg1 _ Hv. apply after_ret; [exact Hg1|].
      intros Hb v' wr e c ->. apply negb_false_iff, Z.eqb_eq in Hb. congruence.
    + intros b w1 Hg1 He1 Hb. apply Hk; [exact Hg1|exact He1|]. eauto.
  - eapply after_read; [reflexivity|]. apply Hk; [exact Hg|apply evolution_refl|discriminate].
Qed.

Lemma get_proxy a P receiver : validP P ->
  always (ProxyObject_get rt nameOf names a P receiver) (fun w r _ => getAnswer w a (keyOf P) r).
Proof using Hnames Laws Names.
  intros HP w Hg. apply method_head; [exact Hg|..].
  - intros target w1 Hg1 He1 Hn1. eapply after_mono; [exact (ok_get target P receiver HP w1 Hg1)|]. intros b w2 _ _ H. eapply forward_get; eassumption.
  - intros handler target trap w1 Hg1 He1 Hn1. apply (after_trap_call a target _ _ _ _ w); try assumption. clear w1 Hg1 He1 Hn1.
    intros v w1 Hg1 He1 Hn1. apply (after_target_own a target P _ w); try assumption. clear w1 Hg1 He1 Hn1. intros r w1 Hg1 He1 Hn1 Hr.
    apply after_frozen; [exact Hg1|apply Hr|]. intros b w2 Hg2 _ Hb. destruct b; [apply after_throw, Hg2|]. specialize (Hb eq_refl).
    case_if; [apply after_throw, Hg2|]. apply after_ret; [exact Hg2|]. split; [exact I|]. intros t n Hl p Hp Ht.
    exists (DataProperty v true true true). split; [reflexivity|].
    destruct (fixed_not_configurable w a _ r t n p Hr Hl Hp Ht) as [Hv Hc]. unfold frozenData in Hb. rewrite Hv, Hc in *.
    destruct Hr as [Hplain Hr]. destruct (Hr t n Hl) as (m & -> & H1 & _). apply trusted_1 in Ht. specialize (H1 p Hp (trusted_more _ _ Ht)).
    destruct r as [|v' wr e c| |gs e c]; try discriminate; try contradiction; cbn in H1, Hb, Heqb.
    + destruct H1 as (_ & _ & H1). destruct p as [v0 [] e0 c0|]; [exact I| |contradiction]. destruct (H1 eq_refl) as [-> R]. cbn.
      rewrite (Hb _ _ _ _ eq_refl eq_refl). exact R.
    + destruct H1 as (_ & _ & H1). destruct p as [|g0 s0 e0 c0]; [contradiction|]. destruct H1 as [H1 _]. cbn. intros ->.
      rewrite orUndefined_hasGetter in H1. unfold isUndefined in Heqb. destruct (hasGetter gs); cbn in Heqb.
      * rewrite H1 in Heqb. cbn in Heqb. apply negb_false_iff, Z.eqb_eq in Heqb. exact Heqb.
      * apply negb_false_iff, Z.eqb_eq in Heqb. exact Heqb.
Qed.

Lemma set_proxy a P v receiver : validP P ->
  always (ProxyObject_set rt nameOf names a P v receiver) (fun w b _ => setAnswer w a (keyOf P) v b).
Proof using Hnames Laws Names.
  intros HP w Hg. apply method_head; [exact Hg|..].
  - intros target w1 Hg1 He1 Hn1. eapply after_mono; [exact (ok_set target P v receiver HP w1 Hg1)|]. intros b w2 _ _ H. eapply forward_set; eassumption.
  - intros handler target trap w1 Hg1 He1 Hn1. apply (after_trap_call a target _ _ _ _ w); try assumption. clear w1 Hg1 He1 Hn1.
    intros result w1 Hg1 He1 Hn1. case_if; [apply after_ret; [exact Hg1|intros [=]]|].
    apply (after_target_own a target P _ w); try assumption. clear w1 Hg1 He1 Hn1. intros r w1 Hg1 He1 Hn1 Hr.
    apply after_frozen; [exact Hg1|apply Hr|]. intros b w2 Hg2 _ Hb. destruct b; [apply after_throw, Hg2|]. specialize (Hb eq_refl).
    case_if; [apply after_throw, Hg2|]. apply after_ret; [exact Hg2|]. intros _ t n Hl p Hp Ht.
    destruct (fixed_not_configurable w a _ r t n p Hr Hl Hp Ht) as [Hv Hc]. unfold frozenData in Hb. rewrite Hv, Hc in *.
    destruct Hr as [Hplain Hr]. destruct (Hr t n Hl) as (m & -> & H1 & _). apply trusted_1 in Ht. specialize (H1 p Hp (trusted_more _ _ Ht)).
    destruct r as [|v' wr e c| |gs e c]; try discriminate; try contradiction; cbn in H1, Hb, Heqb0.
    + destruct H1 as (_ & _ & H1). destruct p as [v0 [] e0 c0|]; [exact I| |contradiction]. destruct (H1 eq_refl) as [-> R].
      rewrite (Hb _ _ _ _ eq_refl eq_refl). exact R.
    + destruct H1 as (_ & _ & H1). destruct p as [|g0 s0 e0 c0]; [contradiction|]. destruct H1 as [_ <-].
      rewrite orUndefined_hasSetter. unfold isUndefined in Heqb0. destruct (hasSetter gs); cbn in Heqb0; [|discriminate].
      apply Z.eqb_neq in Heqb0. exact Heqb0.
Qed.

(** ** Calls *)

Lemma call_proxy a receiver argv : polite (ProxyObject_call rt nameOf names a receiver argv).
Proof using Hnames Laws Names.
  intros w Hg. eapply after_bind; [exact (proxyData_after a w Hg)|]. intros p w1 Hg1 _ ->. case_if; [apply after_throw, Hg|].
  apply method_head; [exact Hg|..].
  - intros target w1 Hg2 _ _. exact (Object_call_polite _ _ _ w1 Hg2).
  - intros handler target trap w1 Hg2 _ _. eapply after_bind; [exact (law_array valid validP nameOf nameOfKey dS argv w1 Hg2)|].
    intros l w2 Hg3 _ _. exact (Object_call_polite _ _ _ w2 Hg3).
Qed.

Lemma construct_proxy a argv newTarget : polite (ProxyObject_construct rt nameOf names a argv newTarget).
Proof using Hnames Laws Names.
  intros w Hg. apply method_head; [exact Hg|..].
  - intros target w1 Hg1 _ _. exact (law_construct valid validP nameOf nameOfKey dS _ argv newTarget w1 Hg1).
  - intros handler target trap w1 Hg1 _ _. eapply after_bind; [exact (law_array valid validP nameOf nameOfKey dS argv w1 Hg1)|].
    intros l w2 Hg2 _ _. eapply after_bind; [exact (Object_call_polite _ _ _ w2 Hg2)|]. intros o w3 Hg3 _ _.
    case_if; [apply after_throw, Hg3|apply after_ret; [exact Hg3|exact I]].
Qed.

(** ** The level above *)

Theorem proxyRuntime_laws call' construct' toLength' createArray' :
  (forall f receiver argv, polite (call' f receiver argv)) -> (forall f argv newTarget, polite (construct' f argv newTarget)) ->
  (forall v, polite (toLength' v)) -> (forall argv, polite (createArray' argv)) ->
  RuntimeLaws valid validP nameOf nameOfKey dS (proxyRuntime rt nameOf nameOfKey names call' construct' toLength' createArray').
Proof using Hnames Laws Names.
  intros Hcall Hconstruct Hlength Harray. constructor; cbn.
  - exact own_proxy.
  - exact define_proxy.
  - exact delete_proxy.
  - exact has_proxy.
  - exact get_proxy.
  - exact set_proxy.
  - exact keys_proxy.
  - exact extensible_proxy.
  - exact prevent_proxy.
  - exact chain_proxy.
  - exact setPrototype_proxy.
  - exact getPrototype_proxy.
  - intros f receiver argv w Hg. eapply after_read; [reflexivity|]. case_match; [apply call_proxy|apply Hcall]; exact Hg.
  - intros f argv newTarget w Hg. eapply after_read; [reflexivity|]. case_match; [apply construct_proxy|apply Hconstruct]; exact Hg.
  - exact (law_address valid validP nameOf nameOfKey dS).
  - exact (law_structure valid validP nameOf nameOfKey dS).
  - exact Harray.
  - exact Hlength.
  - exact (law_callable valid validP nameOf nameOfKey dS).
Qed.
End Steps.
