(* ===== verification/ProxyHistory.v ===== *)
(** * Scripts over objects and proxies

    Scripts as programs that perform internal methods and are called for functions,
    trap or getter alike; the engine that runs them to a depth of the stack; and the
    worlds that it reaches. *)

From stdpp Require Import gmap.
From S2P Require Import Prelude Value AtomicString PropertyName PropertyDescriptor ObjectStructure.
From S2P Require Import StructureSpec Object ObjectSpec ObjectDefine ObjectMethods ObjectPrototype ObjectHistory.
From S2P Require Import ObjectSet ObjectKeys Proxy ProxySpec ProxyLaws ProxyMethods.
Local Open Scope Z_scope.
Local Open Scope esc_scope.

(** ** Operations and programs *)

Inductive Operation :=
| OpGetOwnProperty (a P : Z)
| OpDefineOwnProperty (a P : Z) (desc : ObjectPropertyDescriptor)
| OpDelete (a P : Z)
| OpHas (a P : Z)
| OpGet (a P receiver : Z)
| OpSet (a P v receiver : Z)
| OpOwnKeys (a : Z)
| OpIsExtensible (a : Z)
| OpPreventExtensions (a : Z)
| OpGetPrototype (a : Z)
| OpSetPrototype (a : Z) (proto : option Z)
| OpCall (callee receiver : Z) (argv : list Z)
| OpConstruct (callee : Z) (argv : list Z) (newTarget : Z)
| OpNewObject
| OpNewProxy (target handler : Z)
| OpRevoke (slot : option Z).

Inductive Answer :=
| AnswerBool (b : bool)
| AnswerResult (r : ObjectGetResult)
| AnswerValue (v : Z)
| AnswerKeys (ks : list OwnKey)
| AnswerPrototype (p : option Z)
| AnswerThrown.

(** What runs a script: a call, a construction, the conversion of a length. *)
Inductive Entry :=
| CallEntry (callee receiver : Z) (argv : list Z)
| ConstructEntry (callee : Z) (argv : list Z) (newTarget : Z)
| LengthEntry (v : Z).

(** An operation, with whether the script catches its exceptions, or the end. *)
Inductive Action :=
| Perform (op : Operation) (catches : bool)
| Return (v : Z)
| ThrowValue (v : Z).

(** The functions of a program, by what they were called with, the world and the answers
    so far; what is callable; and the addresses that the allocator finds. *)
Record Program := {
  nextAction : Entry -> World -> list Answer -> Action;
  callableAt : Z -> bool;
  constructorAt : Z -> bool;
  functionAt : Z -> bool;
  freeAddress : World -> Z
}.

Section Engine.
Context {heap : Heap} (nameOf : Z -> Z) (nameOfKey : OwnKey -> Z) (names : ProxyNames).
Context (structureOfObjects : nat) (prototypeOfObjects : option Z).

Definition perform (rt : Runtime) (op : Operation) : OM Answer :=
  match op with
  | OpGetOwnProperty a P => let! r := getOwnProperty rt nameOf a P in ret (AnswerResult r)
  | OpDefineOwnProperty a P desc => let! b := defineOwnProperty rt nameOf a P desc in ret (AnswerBool b)
  | OpDelete a P => let! b := deleteOwnProperty rt nameOf a P in ret (AnswerBool b)
  | OpHas a P => let! b := hasProperty rt nameOf a P in ret (AnswerBool b)
  | OpGet a P receiver =>
    let! r := get rt nameOf a P receiver in
    let! v := value rt r receiver in
    ret (AnswerValue v)
  | OpSet a P v receiver => let! b := set rt nameOf a P v receiver in ret (AnswerBool b)
  | OpOwnKeys a => let! ks := ownPropertyKeys rt a in ret (AnswerKeys ks)
  | OpIsExtensible a => let! b := isExtensible rt a in ret (AnswerBool b)
  | OpPreventExtensions a => let! b := preventExtensions rt a in ret (AnswerBool b)
  | OpGetPrototype a => let! p := getPrototype rt a in ret (AnswerPrototype p)
  | OpSetPrototype a proto => let! b := setPrototypeOf rt a proto in ret (AnswerBool b)
  | OpCall callee receiver argv => let! v := Object_call rt callee receiver argv in ret (AnswerValue v)
  | OpConstruct callee argv newTarget => let! v := construct rt callee argv newTarget in ret (AnswerValue v)
  | OpNewObject => let! a := newObjectOf rt OrdinaryObject in ret (AnswerValue (Value_pointer a))
  | OpNewProxy target handler => let! a := createProxy rt target handler in ret (AnswerValue (Value_pointer a))
  | OpRevoke slot => let! _ := builtinProxyRevoke slot in ret (AnswerValue ValueUndefined)
  end.

(** [steps] operations at most; a longer script is interrupted. *)
Fixpoint script (rt : Runtime) (P : Program) (entry : Entry) (answers : list Answer) (steps : nat) : OM Z :=
  match steps with
  | O => throw (Thrown ValueUndefined)
  | S steps =>
    let! action := gets (fun w => nextAction P entry w answers) in
    match action with
    | Return v => ret v
    | ThrowValue v => throw (Thrown v)
    | Perform op catches =>
      let! answer := try_catch (perform rt op) (fun e =>
        match e with
        | UndefinedBehaviour _ => throw e
        | _ => if catches then ret AnswerThrown else throw e
        end) in
      script rt P entry (answers ++ [answer]) steps
    end
  end.

(** An address that is in use does not serve: the memory is exhausted. *)
Definition allocate (P : Program) : OM Z :=
  let! a := gets (freeAddress P) in
  let! o := gets (fun w : World => objects w !! a) in
  match o with Some _ => throw (Thrown ValueUndefined) | None => ret a end.

(** The array of the arguments of a trap, as a plain object with elements and length. *)
Fixpoint defineElements (rt : Runtime) (a : Z) (index : nat) (argv : list Z) : OM unit :=
  match argv with
  | [] =>
    let! _ := defineOwnProperty rt nameOf a (lengthName names) (dataDescriptor (Value_int (Z.of_nat index)) WritablePresent) in
    ret tt
  | v :: rest =>
    let! _ := defineOwnProperty rt nameOf a (indexName names index) (dataDescriptor v AllPresent) in
    defineElements rt a (S index) rest
  end.
Definition arrayFromList (rt : Runtime) (argv : list Z) : OM Z :=
  let! a := newObjectOf rt OrdinaryObject in
  do! defineElements rt a 0 argv in
  ret a.

(** ToLength of a small integer; other values are converted by the program. *)
Definition lengthOf (v : Z) : nat := Z.to_nat (asInt32 v).
Definition lengthFrom (run : OM Z) (v : Z) : OM nat :=
  if isInt32 v then ret (lengthOf v) else let! n := run in ret (lengthOf n).

(** The stack is exhausted. *)
Definition overflow (P : Program) : Runtime :=
  let stop {A} : OM A := throw (Thrown ValueUndefined) in {|
  outside := {|
    proxy_getOwnProperty := fun _ _ => stop; proxy_defineOwnProperty := fun _ _ _ => stop;
    proxy_deleteOwnProperty := fun _ _ => stop; proxy_hasProperty := fun _ _ => stop;
    proxy_get := fun _ _ _ => stop; proxy_set := fun _ _ _ _ => stop; proxy_ownPropertyKeys := fun _ => stop;
    proxy_isExtensible := fun _ => stop; proxy_preventExtensions := fun _ => stop; proxy_getPrototype := fun _ => stop;
    call := fun _ _ _ => stop; isCallable := callableAt P; isFunction := functionAt P;
    nativeGet := fun _ _ _ _ => stop; nativeSet := fun _ _ _ _ _ => stop; newNative := fun _ => stop
  |};
  proxy_setPrototype := fun _ _ => stop; proxy_getPrototypeValue := fun _ => stop; construct := fun _ _ _ => stop;
  isConstructor := constructorAt P; newAddress := allocate P; defaultStructureForObject := structureOfObjects;
  objectPrototype := prototypeOfObjects; createArrayFromList := fun _ => stop; toLength := fun _ => stop
|}.

Fixpoint engine (P : Program) (steps depth : nat) : Runtime :=
  match depth with
  | O => overflow P
  | S depth =>
    let rt := engine P steps depth in
    let run entry := script rt P entry [] steps in
    proxyRuntime rt nameOf nameOfKey names
      (fun callee receiver argv => if callableAt P callee then run (CallEntry callee receiver argv) else throw TypeError)
      (fun callee argv newTarget => run (ConstructEntry callee argv newTarget))
      (fun v => lengthFrom (run (LengthEntry v)) v)
      (arrayFromList rt)
  end.
End Engine.

(** ** What operations answer *)

Section Honest.
Context {heap : Heap} (validP : Z -> Prop) (nameOf : Z -> Z) (nameOfKey : OwnKey -> Z).

Definition operation_ok (op : Operation) : Prop :=
  match op with
  | OpGetOwnProperty _ P | OpDelete _ P | OpHas _ P | OpGet _ P _ | OpSet _ P _ _ => validP P
  | OpDefineOwnProperty _ P desc => validP P /\ wf_descriptor desc
  | _ => True
  end.

(** The value of an access owes what the access does. *)
Definition readAnswer (w : World) (a : Z) (key : PropertyKey) (v : Z) : Prop :=
  forall t n, leads w a t n -> forall p, fixedAt w t key p -> trusted 1 n p ->
  match p with
  | DataProperty v0 false _ _ => rtc sameValue v0 v
  | AccessorProperty g _ _ _ => g = ValueUndefined -> v = ValueUndefined
  | _ => True
  end.

Definition honest (w : World) (op : Operation) (r : Answer) (w' : World) : Prop :=
  match op, r with
  | OpGetOwnProperty a P, AnswerResult r => ownAnswer w a (propertyKey (nameOf P)) r
  | OpDefineOwnProperty a P desc, AnswerBool b => defineAnswer w a (propertyKey (nameOf P)) desc b
  | OpDelete a P, AnswerBool b => deleteAnswer w a (propertyKey (nameOf P)) b
  | OpHas a P, AnswerBool b => hasAnswer w a (propertyKey (nameOf P)) b
  | OpGet a P _, AnswerValue v => readAnswer w a (propertyKey (nameOf P)) v
  | OpSet a P v _, AnswerBool b => setAnswer w a (propertyKey (nameOf P)) v b
  | OpOwnKeys a, AnswerKeys ks => keysAnswer validP nameOf nameOfKey w a ks
  | OpIsExtensible a, AnswerBool b => extensibleAnswer w a b w'
  | OpPreventExtensions a, AnswerBool b => preventAnswer w a b w'
  | OpGetPrototype a, AnswerPrototype p => getPrototypeAnswer w a p
  | OpSetPrototype a proto, AnswerBool b => setPrototypeAnswer w a proto b
  | _, _ => True
  end.

(** The operations of a program name properties by valid names and have descriptors
    that descriptors can be. *)
Class ProgramLaws (P : Program) : Prop := {
  program_ok : forall entry w answers op catches, nextAction P entry w answers = Perform op catches -> operation_ok op;
  program_callable : forall v, callableAt P v = true -> v <> ValueEmpty /\ v <> ValueUndefined
}.
End Honest.

Section Performing.
Context {heap : Heap} (valid validP : Z -> Prop) (nameOf : Z -> Z) (nameOfKey : OwnKey -> Z) (dS : nat).
Context {Hnames : ObjectNames heap valid validP nameOf nameOfKey}.

Abbreviation keyOf P := (propertyKey (nameOf P)).
Abbreviation good := (good valid dS).
Abbreviation after := (after valid dS).
Abbreviation always m Q := (forall w, good w -> after m w (Q w)).
Abbreviation polite m := (always m (fun _ _ _ => True)).

Lemma after_then_ret {A B} (m : OM A) (f : A -> B) w Q : after m w (fun a w' => Q (f a) w') ->
  after (let! a := m in ret (f a)) w Q.
Proof using Type.
  unfold after, ProxySpec.after, bind. destruct (m w) as [[a|e|] w1]; auto.
Qed.

Lemma after_catch {A} (m : OM A) (h : ObjectError -> OM A) w Q Q0 : after m w Q0 ->
  (forall a w', good w' -> evolves w w' -> Q0 a w' -> Q a w') ->
  (forall e w', good w' -> after (h e) w' Q) -> after (try_catch m h) w Q.
Proof using Type.
  intros Hm Hq Hh. unfold after, ProxySpec.after, try_catch in *. destruct (m w) as [[a|e|] w1]; [intuition|..|exact Hm].
  destruct Hm as [Hg He]. specialize (Hh e w1 Hg). destruct (h e w1) as [[a|e'|] w2]; intuition eauto using evolution_trans.
Qed.

(** Revocation. *)
Lemma revoke_polite slot : polite (builtinProxyRevoke slot).
Proof using Type.
  intros w Hg. destruct slot as [a|]; [|apply after_ret; [exact Hg|exact I]]. cbn [builtinProxyRevoke].
  eapply (after_bind _ _ _ _ _ (fun p w1 => w1 = w /\ exists o, objects w !! a = Some o /\ m_objectClass o = ProxyObject p)).
  { apply after_readObject; [exact Hg|]. intros o Ha. destruct (m_objectClass o) as [|p] eqn:Ec; [apply after_throw, Hg|].
    apply after_ret; eauto. }
  intros p w1 _ _ [-> (o & Ha & Hc)]. eapply after_read; [exact (readObject_run w a o Ha)|].
  set (c := ProxyObject _). destruct (world_objects _ _ (proj1 Hg) a o Ha) as [ct Ho].
  destruct (update_object valid w a o ct (withClass o c) (proj1 Hg) Ho eq_refl (proj2 (proj2 Ho))) as (Hw2 & Hf & Ho2).
  eapply after_bind; [eapply after_run with (Q := fun _ _ => True);
    [apply writeObject_run| |constructor|exact I]|intros u w2 Hg2 _ _; apply after_ret; [exact Hg2|exact I]].
  - exact (conj Hw2 (proj2 Hg)).
  - intros b Hb. destruct (decide (b = a)) as [->|Hne]; [|exact (frame_essential valid a b w _ (proj1 Hg) Hf Hne Hb)].
    apply essential_same; [eexists; apply Ho2|rewrite (listOf_object _ a _ ct Ho2), (listOf_object w a o ct Ho); reflexivity|].
    unfold extensibleAt, protoOf. rewrite Ha, (proj1 Ho2). auto.
  - intros b ob Hb. destruct (decide (b = a)) as [->|Hne].
    + eexists. split; [exact (proj1 Ho2)|]. replace ob with o by congruence. rewrite Hc. constructor; reflexivity.
    + exists ob. rewrite (frame_objects _ _ _ Hf b Hne). split; [exact Hb|constructor].
Qed.

Section Operations.
Context (rt : Runtime) {Laws : RuntimeLaws valid validP nameOf nameOfKey dS rt}.
Context (names : ProxyNames) {Names : NamesLaws validP nameOfKey names}.

(** The value of a result that owes what the access does. *)
Lemma readAnswer_value w a key r receiver w1 : good w1 -> getAnswer w a key r ->
  after (value rt r receiver) w1 (fun v _ => readAnswer w a key v).
Proof using Laws.
  intros Hg [Hp Hr].
  assert (Hdata : forall v q, propertyOfResult r = Some q ->
    match q with DataProperty v' _ _ _ => v = v' | AccessorProperty g _ _ _ => g = ValueUndefined -> v = ValueUndefined end -> readAnswer w a key v).
  { intros v q Eq Hv t n Hl p Hf Ht. destruct (Hr t n Hl p Hf Ht) as (q' & Eq' & Hc). replace q' with q in Hc by congruence.
    destruct p as [v0 [] e c|g s e c], q as [v' wr' e' c'|g' s' e' c']; cbn in Hc; try exact I; try contradiction; subst; auto. }
  destruct r as [|v wr e c| |gs e c]; try contradiction; cbn [value].
  - apply after_ret; [exact Hg|]. intros t n Hl p Hf Ht. destruct (Hr t n Hl p Hf Ht) as (q & [=] & _).
  - apply after_ret; [exact Hg|]. exact (Hdata v _ eq_refl eq_refl).
  - destruct (hasGetter gs && isCallable rt (m_getter gs)) eqn:E.
    + apply andb_prop in E as [E1 E2]. apply (law_callable valid validP nameOf nameOfKey dS) in E2 as [_ E2].
      eapply after_mono; [exact (law_call valid validP nameOf nameOfKey dS _ receiver [] w1 Hg)|]. intros v w' _ _ _.
      apply (Hdata v _ eq_refl). unfold orUndefined. unfold hasGetter in E1. apply negb_true_iff in E1. rewrite E1.
      intros H. destruct (E2 H).
    + apply after_ret; [exact Hg|]. apply (Hdata _ _ eq_refl). auto.
Qed.

Lemma createProxy_polite target handler : polite (createProxy rt target handler).
Proof using Laws.
  intros w Hg. unfold createProxy. repeat case_if; try apply after_throw; try exact Hg.
  eapply after_true. exact (newObjectOf_after valid validP nameOf nameOfKey dS rt _ w Hg).
Qed.

Lemma perform_honest op : operation_ok validP op ->
  always (perform nameOf rt op) (fun w r w' => honest validP nameOf nameOfKey w op r w').
Proof using Hnames Laws.
  intros Hop w Hg. destruct op; cbn [perform operation_ok] in *;
    try (apply after_then_ret; cbn [honest]).
  - exact (v_own valid validP nameOf nameOfKey dS rt a P Hop w Hg).
  - destruct Hop as [HP Hd]. exact (v_define valid validP nameOf nameOfKey dS rt a P desc HP Hd w Hg).
  - exact (v_delete valid validP nameOf nameOfKey dS rt a P Hop w Hg).
  - exact (v_has valid validP nameOf nameOfKey dS rt a P Hop w Hg).
  - eapply after_bind; [exact (v_get valid validP nameOf nameOfKey dS rt a P receiver Hop w Hg)|]. intros r w1 Hg1 _ Hr.
    apply after_then_ret. cbn [honest]. exact (readAnswer_value w a _ r receiver w1 Hg1 Hr).
  - exact (v_set valid validP nameOf nameOfKey dS rt a P v receiver Hop w Hg).
  - exact (v_keys valid validP nameOf nameOfKey dS rt a w Hg).
  - exact (v_extensible valid validP nameOf nameOfKey dS rt a w Hg).
  - exact (v_prevent valid validP nameOf nameOfKey dS rt a w Hg).
  - exact (v_getPrototype valid validP nameOf nameOfKey dS rt a w Hg).
  - exact (v_setPrototype valid validP nameOf nameOfKey dS rt a proto w Hg).
  - exact (Object_call_polite valid validP nameOf nameOfKey dS rt callee receiver argv w Hg).
  - exact (law_construct valid validP nameOf nameOfKey dS callee argv newTarget w Hg).
  - eapply after_true. exact (newObjectOf_after valid validP nameOf nameOfKey dS rt _ w Hg).
  - exact (createProxy_polite target handler w Hg).
  - exact (revoke_polite slot w Hg).
Qed.

(** ** Scripts *)

Context (P : Program) {Prog : ProgramLaws validP P}.

Lemma script_polite entry steps : forall answers, polite (script nameOf rt P entry answers steps).
Proof using Hnames Laws Prog.
  induction steps as [|steps IH]; intros answers w Hg; cbn [script]; [apply after_throw, Hg|].
  eapply after_read; [reflexivity|]. destruct (nextAction P entry w answers) as [op catches|v|v] eqn:E;
    [|apply after_ret; [exact Hg|exact I]|apply after_throw, Hg].
  apply (program_ok validP) in E.
  eapply (after_bind _ _ _ _ _ (fun _ _ => True)); [|intros r w1 Hg1 _ _; exact (IH _ w1 Hg1)].
  eapply after_catch; [exact (perform_honest op E w Hg)|auto|]. intros e w' Hg'.
  destruct e; try (case_if; [apply after_ret; [exact Hg'|exact I]|]); apply after_throw, Hg'.
Qed.

Lemma defineElements_polite a argv : forall index, polite (defineElements nameOf names rt a index argv).
Proof using Hnames Laws Names.
  induction argv as [|v argv IH]; intros index w Hg; cbn [defineElements].
  - apply after_then_ret. eapply after_true.
    refine (v_define valid validP nameOf nameOfKey dS rt a _ _ (length_valid validP nameOfKey) _ w Hg). split; [reflexivity|discriminate].
  - eapply after_bind; [refine (v_define valid validP nameOf nameOfKey dS rt a _ _ (index_valid validP nameOfKey index) _ w Hg);
      split; [reflexivity|discriminate]|]. intros _ w1 Hg1 _ _. exact (IH _ w1 Hg1).
Qed.

Lemma arrayFromList_polite argv : polite (arrayFromList nameOf names rt argv).
Proof using Hnames Laws Names.
  intros w Hg. eapply after_bind; [exact (newObjectOf_after valid validP nameOf nameOfKey dS rt OrdinaryObject w Hg)|].
  intros a w1 Hg1 _ _. apply after_then_ret. exact (defineElements_polite a argv 0 w1 Hg1).
Qed.

Lemma lengthFrom_polite run v : polite run -> polite (lengthFrom run v).
Proof using Type.
  intros Hrun w Hg. unfold lengthFrom. case_if; [apply after_ret; [exact Hg|exact I]|]. apply after_then_ret. exact (Hrun w Hg).
Qed.
End Operations.

(** ** The engine *)

Context (names : ProxyNames) {Names : NamesLaws validP nameOfKey names}.
Context (prototypeOfObjects : option Z) (P : Program) {Prog : ProgramLaws validP P}.

Lemma allocate_fresh : always (allocate P) (fun _ a w' => objects w' !! a = None).
Proof using Type.
  intros w Hg. unfold allocate. eapply after_read; [reflexivity|]. eapply after_read; [reflexivity|].
  destruct (objects w !! freeAddress P w) eqn:E; [apply after_throw, Hg|apply after_ret; assumption].
Qed.

Lemma overflow_runtime : RuntimeLaws valid validP nameOf nameOfKey dS (overflow dS prototypeOfObjects P).
Proof using Prog.
  constructor; intros; try (apply after_throw; assumption).
  - apply allocate_fresh. assumption.
  - reflexivity.
  - eapply program_callable; eassumption.
Qed.

#[export] Instance engine_runtime steps depth :
  RuntimeLaws valid validP nameOf nameOfKey dS (engine nameOf nameOfKey names dS prototypeOfObjects P steps depth).
Proof using Hnames Names Prog.
  induction depth as [|depth IH]; cbn [engine]; [apply overflow_runtime|].
  apply proxyRuntime_laws; [exact Hnames|exact IH|exact Names|..].
  - intros f receiver argv w Hg. case_if; [apply script_polite; assumption|apply after_throw, Hg].
  - intros f argv newTarget w Hg. apply script_polite; assumption.
  - intros v. apply lengthFrom_polite. apply script_polite; assumption.
  - intros argv. apply arrayFromList_polite; assumption.
Qed.
End Performing.

(** ** Histories *)

Section History.
Context {heap : Heap} (valid validP : Z -> Prop) (nameOf : Z -> Z) (nameOfKey : OwnKey -> Z).
Context {Hnames : ObjectNames heap valid validP nameOf nameOfKey}.
Context (names : ProxyNames) {Names : NamesLaws validP nameOfKey names}.
Context (dS : nat) (prototypeOfObjects : option Z) (P : Program) {Prog : ProgramLaws validP P}.

Abbreviation running steps depth := (engine nameOf nameOfKey names dS prototypeOfObjects P steps depth).

(** An operation at any depth of the stack, however it ends. *)
Inductive program_step (w : World) : World -> Prop :=
| step_perform steps depth op r w' : operation_ok validP op -> perform nameOf (running steps depth) op w = (r, w') ->
    program_step w w'.

Lemma step_evolves w w' : good valid dS w -> program_step w w' -> good valid dS w' /\ evolves w w'.
Proof using Hnames Names Prog.
  intros Hg Hs. destruct Hs as [steps depth op r w' Hop E].
  pose proof (perform_honest valid validP nameOf nameOfKey dS (running steps depth) op Hop w Hg) as H.
  unfold after in H. rewrite E in H. destruct r; intuition.
Qed.

Lemma steps_evolve w w' : good valid dS w -> rtc program_step w w' -> good valid dS w' /\ evolves w w'.
Proof using Hnames Names Prog.
  intros Hg Hs. induction Hs as [w|w w1 w2 H1 _ IH]; [auto using evolution_refl|].
  destruct (step_evolves w w1 Hg H1) as [Hg1 He1]. destruct (IH Hg1). eauto using evolution_trans.
Qed.

(** What the operations answer in the worlds that are reached. *)
Lemma answers_honest w0 w steps depth op r w' : good valid dS w0 -> rtc program_step w0 w -> operation_ok validP op ->
  perform nameOf (running steps depth) op w = (Ret r, w') -> honest validP nameOf nameOfKey w op r w'.
Proof using Hnames Names Prog.
  intros Hg Hs Hop E. destruct (steps_evolve w0 w Hg Hs) as [Hw _].
  pose proof (perform_honest valid validP nameOf nameOfKey dS (running steps depth) op Hop w Hw) as H.
  unfold after in H. rewrite E in H. apply H.
Qed.
End History.

Lemma fixed_now {heap : Heap} w t key p : lookupKey (listOf w t) key = Some p -> p_configurable p = false -> fixedAt w t key p.
Proof. intros H Hc. exists p. split; [exact H|]. apply keptProperty_refl, Hc. Qed.
