(* ===== verification/ProxyProperties.v ===== *)
(** * What proxies guarantee

    The theorems on proxies and scripts, with a context of the names that proxies use,
    a handler with a trap and proxies for an object with a read-only property. *)

From Stdlib Require Import Ascii String.
From stdpp Require Import gmap.
From S2P Require Import Prelude Value AtomicString PropertyName PropertyDescriptor ObjectStructure.
From S2P Require Import StructureSpec Object ObjectSpec ObjectDefine ObjectMethods ObjectPrototype ObjectHistory.
From S2P Require Import ObjectSet ObjectKeys Proxy ProxySpec ProxyLaws ProxyMethods ProxyHistory.
Local Open Scope Z_scope.
Local Open Scope esc_scope.

(** ** The example *)

Definition latin1 (s : string) : list Z := map (fun c => Z.of_nat (nat_of_ascii c)) (list_ascii_of_string s).

Definition proxyTexts : list string :=
  ["k"; "defineProperty"; "deleteProperty"; "getOwnPropertyDescriptor"; "preventExtensions"; "has"; "ownKeys";
   "isExtensible"; "setPrototypeOf"; "getPrototypeOf"; "get"; "set"; "apply"; "construct";
   "enumerable"; "configurable"; "value"; "writable"; "length"; "0"; "1"; "2"; "3"]%string.
Definition proxyStrings : Strings := fold_left (fun st s => snd (initLatin1 st (latin1 s))) proxyTexts (initialStrings 8192).
Definition proxySymbols : gset Z := {[ 4096 ]}.
#[export] Instance proxyHeap : Heap := context_heap proxyStrings proxySymbols.
Definition proxyTextsAtomic (k : PropertyKey) : bool := match k with KString _ => true | KSymbol _ => false end.

Abbreviation pxValid := (contextValid proxyStrings proxySymbols proxyTextsAtomic).
Abbreviation pxValidP := (contextValidP proxyStrings proxySymbols proxyTextsAtomic).
Abbreviation pxNameOf := (contextNameOf proxyStrings proxySymbols).
Abbreviation pxNameOfKey := (contextNameOfKey proxyStrings).

Lemma proxyStrings_ok : wf_strings proxyStrings /\ symbols_below proxyStrings proxySymbols.
Proof.
  split.
  - unfold proxyStrings. assert (H : wf_strings (initialStrings 8192)) by (apply initialStrings_wf; split; reflexivity).
    revert H. generalize (initialStrings 8192). induction proxyTexts as [|s l IH]; intros st H; [exact H|].
    cbn [fold_left]. apply IH, initLatin1_ok, H.
  - intros p ->%elem_of_singleton. split_and!; vm_compute; split || idtac; reflexivity.
Qed.

#[export] Instance proxy_objects : ObjectNames proxyHeap pxValid pxValidP pxNameOf pxNameOfKey.
Proof.
  exact (context_objects proxyStrings proxySymbols proxyTextsAtomic (proj1 proxyStrings_ok) (proj2 proxyStrings_ok) (fun _ => eq_refl)).
Qed.

(** The name of a text, and the names that proxies use; arrays have up to four
    elements here. *)
Definition nameOfText (s : string) : Z := match map_find proxyStrings (latin1 s) with Some a => nameOfAtomic a | None => 0 end.

Definition trapText (t : Trap) : string :=
  match t with
  | TrapDefineProperty => "defineProperty" | TrapDeleteProperty => "deleteProperty"
  | TrapGetOwnPropertyDescriptor => "getOwnPropertyDescriptor" | TrapPreventExtensions => "preventExtensions"
  | TrapHas => "has" | TrapOwnKeys => "ownKeys" | TrapIsExtensible => "isExtensible"
  | TrapSetPrototypeOf => "setPrototypeOf" | TrapGetPrototypeOf => "getPrototypeOf" | TrapGet => "get"
  | TrapSet => "set" | TrapApply => "apply" | TrapConstruct => "construct"
  end.
Definition fieldText (f : Field) : string :=
  match f with
  | F_enumerable => "enumerable" | F_configurable => "configurable" | F_value => "value" | F_writable => "writable"
  | F_get => "get" | F_set => "set"
  end.

Definition pxNames : ProxyNames := {|
  trapName t := nameOfText (trapText t);
  fieldName f := nameOfText (fieldText f);
  lengthName := nameOfText "length";
  indexName i := if (i <? 4)%nat then setUIntValue (Z.of_nat i) else setUIntValue 3;
  toPropertyKeyValue P := let m := pxNameOf P in if hasAtomicString m then m - 1 else m;
  ownKeyOf v := NameKey (if decide (v = 4096) then v else nameOfAtomic v)
|}.

(** The names of atomic strings. *)
Lemma in_table_valid st symbols a : wf_strings st -> a ∈ atomicStringMap st ->
  contextValid st symbols proxyTextsAtomic (nameOfAtomic a).
Proof.
  intros Hst Ha. split; [apply wf_atomic; exact Ha|]. pose proof (key_atomic st symbols Hst a Ha) as K.
  change (heap_of_strings st symbols) with (context_heap st symbols) in K. rewrite K.
  destruct (in_table_cell st a Hst Ha) as [d Hd]. apply (aligned_bits a (proj1 (wf_cells st Hst a d Hd))).
Qed.

Lemma text_valid s : In s proxyTexts -> pxValid (nameOfText s).
Proof.
  intros Hs. assert (H : forallb (fun s => match map_find proxyStrings (latin1 s) with Some _ => true | None => false end) proxyTexts = true)
    by (vm_compute; reflexivity).
  rewrite forallb_forall in H. specialize (H s Hs). cbn beta in H. unfold nameOfText.
  pose proof (map_find_spec proxyStrings (latin1 s)) as F. destruct (map_find proxyStrings (latin1 s)); [|discriminate].
  apply in_table_valid; [apply proxyStrings_ok|apply F].
Qed.

Lemma context_pointee st symbols v :
  match @pointee (context_heap st symbols) v with StringPointer _ | SymbolPointer => true | _ => false end = true ->
  is_Some (cells st !! v) \/ v ∈ symbols.
Proof.
  unfold pointee, context_heap, heapOf. destruct (cells st !! v); [eauto|]. destruct (decide (v ∈ symbols)); [auto|discriminate].
Qed.

Lemma all_cells : bool_decide (map_Forall (fun p _ => p ∈ atomicStringMap proxyStrings) (cells proxyStrings)) = true.
Proof. vm_compute. reflexivity. Qed.

Lemma proxyHeap_context : proxyHeap = context_heap proxyStrings proxySymbols.
Proof. reflexivity. Qed.

Lemma key_value_valid v : match pointee v with StringPointer _ | SymbolPointer => true | _ => false end = true ->
  pxValid (if decide (v = 4096) then v else nameOfAtomic v).
Proof.
  rewrite proxyHeap_context. intros H. apply context_pointee in H.
  destruct (decide (v = 4096)) as [->|Hne].
  - split; [apply wf_symbol, elem_of_singleton; reflexivity|vm_compute; reflexivity].
  - apply in_table_valid; [apply proxyStrings_ok|]. destruct H as [[d Hd]|Hin].
    + pose proof all_cells as Hc. apply bool_decide_eq_true in Hc. exact (Hc v d Hd).
    + apply elem_of_singleton in Hin. destruct (Hne Hin).
Qed.

#[export] Instance pxNames_ok : NamesLaws pxValidP pxNameOfKey pxNames.
Proof.
  constructor.
  - intros t. left. apply text_valid. destruct t; cbn; tauto.
  - intros f. left. apply text_valid. destruct f; cbn; tauto.
  - left. apply text_valid. cbn. tauto.
  - intros i. right. cbn [indexName pxNames].
    assert (H : exists n, (n < 4)%nat /\ (if (i <? 4)%nat then setUIntValue (Z.of_nat i) else setUIntValue 3) = setUIntValue (Z.of_nat n)).
    { destruct (i <? 4)%nat eqn:E; [apply Nat.ltb_lt in E; eauto|exists 3%nat; auto with lia]. }
    destruct H as (n & Hn & ->). exists (Z.of_nat n), (8512 + 16 * Z.of_nat n).
    split; [unfold MAXIMUM_UINT_FOR_32BIT_PROPERTY_NAME; lia|]. split; [reflexivity|].
    do 4 (destruct n as [|n]; [split; vm_compute; reflexivity|]). lia.
  - intros v H. unfold isStringOrSymbol in H. apply andb_prop in H as [_ H]. left. exact (key_value_valid v H).
Qed.

#[local] Opaque proxyStrings.

(** Three functions: a trap that assigns another value to [k] of the target, and then
    answers what it reads there, one that answers 1, and one that answers the third
    argument of the trap [get]. *)
Definition readTrap : Z := 65536.
Definition oneTrap : Z := 65552.
Definition receiverTrap : Z := 65568.
Definition px_k : Z := nameOfText "k".

Definition pxProgram : Program := {|
  nextAction entry _ answers :=
    match entry with
    | CallEntry callee _ (target :: rest) =>
      if callee =? readTrap then
        match answers with
        | [] => Perform (OpSet target px_k (Value_int 8) target) true
        | [_] => Perform (OpGet target px_k target) true
        | _ :: AnswerValue v :: _ => Return v
        | _ => ThrowValue ValueUndefined
        end
      else if callee =? receiverTrap then Return (nth 1 rest ValueUndefined)
      else Return (Value_int 1)
    | _ => Return (Value_int 1)
    end;
  callableAt v := (v =? readTrap) || (v =? oneTrap) || (v =? receiverTrap);
  constructorAt _ := false;
  functionAt _ := false;
  freeAddress w := 16384 + 16 * Z.of_nat (size (objects w))
|}.

Lemma px_k_valid : pxValidP px_k.
Proof. left. apply text_valid. cbn. tauto. Qed.
Lemma trap_name_valid t : pxValidP (trapName pxNames t).
Proof. apply (trap_valid pxValidP pxNameOfKey). Qed.

#[export] Instance pxProgram_ok : ProgramLaws pxValidP pxProgram.
Proof.
  constructor.
  - intros entry w answers op catches. cbn. pose proof px_k_valid as Hk.
    repeat case_match; intros [=]; subst op catches; cbn [operation_ok]; exact Hk.
  - intros v H. cbn in H. repeat (apply orb_prop in H as [H|H]); apply Z.eqb_eq in H; subst; split; discriminate.
Qed.

Abbreviation pxRunning := (engine pxNameOf pxNameOfKey pxNames 0 None pxProgram).
Abbreviation pxStep := (program_step pxValidP pxNameOf pxNameOfKey pxNames 0 None pxProgram).

Definition runs (ops : list Operation) (w : World) : World :=
  fold_left (fun w op => snd (perform pxNameOf (pxRunning 10 5) op w)) ops w.

Lemma runs_steps ops w : Forall (operation_ok pxValidP) ops -> rtc pxStep w (runs ops w).
Proof.
  intros H. revert w. induction H as [|op ops Hop _ IH]; intros w; [apply rtc_refl|]. cbn [runs fold_left].
  eapply rtc_l; [|apply IH]. destruct (perform pxNameOf (pxRunning 10 5) op w) as [r w'] eqn:E.
  exact (step_perform _ _ _ _ _ _ _ _ 10 5 op r w' Hop E).
Qed.

Definition startWorld : World :=
  {| structures := [rootStructure]; objects := ∅; m_didSomePrototypeObjectDefineIndexedProperty := false |}.

Lemma startWorld_good : good pxValid 0 startWorld.
Proof.
  split.
  - constructor; [apply root_wf|intros a o H|intros a b o o' H]; cbn in H; rewrite lookup_empty in H; discriminate.
  - split; exists rootStructure; split; auto.
Qed.

(** The object with the read-only property, the handler, a proxy and a proxy of it. *)
Definition theTarget : Z := 16384.
Definition theHandler : Z := 16400.
Definition theProxy : Z := 16416.
Definition outerProxy : Z := 16432.
Definition setup : list Operation :=
  [OpNewObject; OpDefineOwnProperty theTarget px_k (dataDescriptor (Value_int 7) 0); OpPreventExtensions theTarget;
   OpNewObject; OpDefineOwnProperty theHandler (trapName pxNames TrapGet) (dataDescriptor readTrap AllPresent);
   OpDefineOwnProperty theHandler (trapName pxNames TrapHas) (dataDescriptor oneTrap AllPresent);
   OpNewProxy theTarget theHandler; OpNewProxy theProxy theHandler].
Definition proxyWorld : World := runs setup startWorld.

Lemma data_wf v f : checkProperty (dataDescriptor v f) = true ->
  m_isDataProperty (dataDescriptor v f) = true -> wf_descriptor (dataDescriptor v f).
Proof. intros H1 H2. split; [exact H1|]. rewrite H2. discriminate. Qed.

Lemma define_data_ok a P v f : pxValidP P -> checkProperty (dataDescriptor v f) = true -> m_isDataProperty (dataDescriptor v f) = true ->
  operation_ok pxValidP (OpDefineOwnProperty a P (dataDescriptor v f)).
Proof. intros HP H1 H2. split; [exact HP|apply data_wf; assumption]. Qed.

Lemma setup_ok : Forall (operation_ok pxValidP) setup.
Proof.
  unfold setup. repeat (apply Forall_cons_2; [first [exact I|apply define_data_ok; [first [exact px_k_valid|apply trap_name_valid]|reflexivity..]]|]).
  apply Forall_nil_2.
Qed.
Lemma proxyWorld_steps : rtc pxStep startWorld proxyWorld.
Proof. apply runs_steps, setup_ok. Qed.

Definition objectIn (w : World) (a : Z) : Object := default (newObject 0 None) (objects w !! a).
Definition proxyOf (target handler : Z) : ProxyData :=
  {| m_isCallable := false; m_isConstructible := false; m_target := Some target; m_handler := Some handler |}.

Example read_through_proxy : fst (perform pxNameOf (pxRunning 10 5) (OpGet outerProxy px_k outerProxy) proxyWorld) = Ret (AnswerValue (Value_int 7)).
Proof. vm_compute. reflexivity. Qed.

(** ** What the methods cannot say *)

Section Guarantees.
Context {heap : Heap} (valid validP : Z -> Prop) (nameOf : Z -> Z) (nameOfKey : OwnKey -> Z).
Context {Hnames : ObjectNames heap valid validP nameOf nameOfKey}.
Context (names : ProxyNames) {Names : NamesLaws validP nameOfKey names}.
Context (dS : nat) (prototypeOfObjects : option Z) (program : Program) {Prog : ProgramLaws validP program}.

Abbreviation performs steps depth op w :=
  (perform nameOf (engine nameOf nameOfKey names dS prototypeOfObjects program steps depth) op w).
Abbreviation reaches := (rtc (program_step validP nameOf nameOfKey names dS prototypeOfObjects program)).
Abbreviation keyOf P := (propertyKey (nameOf P)).

(** C3: whatever the traps of proxies do, and whatever scripts, getters and proxies did
    before, no internal method of a proxy for an object denies a property of it that is not
    configurable: [has] answers true, the keys contain it, a definition is accepted only
    where the object would accept it, [delete] does not answer true and what is shown of
    the property has its attributes, its accessors and the value when it is read-only.
    As the code tests the value of the property where it should test that there is one,
    [delete] and the absence of the property are bound only where the property is [shown],
    read-only with a value that is not undefined (an accessor, or a value that can be
    written, can read as undefined), and so is everything for a proxy of a proxy. *)
Theorem fixed_property_cannot_be_denied w0 w a t n P p steps depth w' :
  good valid dS w0 -> reaches w0 w -> leads w a t n -> validP P ->
  lookupKey (listOf w t) (keyOf P) = Some p -> p_configurable p = false -> (n <= 1)%nat \/ shown p ->
  (forall b, performs steps depth (OpHas a P) w = (Ret (AnswerBool b), w') -> b = true) /\
  (forall ks, performs steps depth (OpOwnKeys a) w = (Ret (AnswerKeys ks), w') -> keyOf P ∈ map (keyOfOwn nameOf nameOfKey) ks) /\
  (forall desc, wf_descriptor desc -> performs steps depth (OpDefineOwnProperty a P desc) w = (Ret (AnswerBool true), w') ->
     exists p', keptProperty p p' /\ compatible p' (descriptorOf desc) = true) /\
  (forall b, performs steps depth (OpDelete a P) w = (Ret (AnswerBool b), w') -> n = O \/ shown p -> b = false) /\
  (forall r, performs steps depth (OpGetOwnProperty a P) w = (Ret (AnswerResult r), w') ->
     match propertyOfResult r with Some p' => keptProperty p p' | None => ~ (n = O \/ shown p) end).
Proof using Hnames Names Prog.
  intros Hg Hs Hl HP Hp Hc Ht. pose proof (fixed_now w t _ p Hp Hc) as Hf.
  pose proof (fun op r => answers_honest valid validP nameOf nameOfKey names dS prototypeOfObjects program w0 w steps depth op r w' Hg Hs) as Hh.
  assert (Hz : n = O \/ shown p -> trusted 0 n p) by (unfold trusted; intros [->|H]; auto).
  split_and!.
  - intros b E. pose proof (Hh (OpHas a P) _ HP E) as H. destruct b; [reflexivity|]. destruct (H eq_refl t n Hl p Hf Ht).
  - intros ks E. exact (proj1 (proj2 (proj2 (Hh (OpOwnKeys a) _ I E)) t n Hl) _ p Hf Ht).
  - intros desc Hd E. exact (proj1 (Hh (OpDefineOwnProperty a P desc) _ (conj HP Hd) E eq_refl t n Hl) p Hf Ht).
  - intros b E H0. destruct b; [|reflexivity]. destruct (Hh (OpDelete a P) _ HP E eq_refl t n Hl p Hf (Hz H0)).
  - intros r E. pose proof (proj1 (proj2 (Hh (OpGetOwnProperty a P) _ HP E) t n Hl) p Hf Ht) as H.
    destruct (propertyOfResult r); [exact H|]. intros H0. exact (H (Hz H0)).
Qed.

(** C4: nor does it forge a value: what is read of a read-only property through one proxy
    is its value, an accessor without a getter reads as undefined, and an assignment that is
    said to succeed was of the value it has; one of an accessor without a setter never is.
    Through any number of proxies the same is true of a property that is [shown]: read-only,
    with a value that is not undefined.  Other properties are excluded behind two proxies and
    more: the inner one may hide them. *)
Theorem frozen_value_cannot_be_forged w0 w a t n P p steps depth w' :
  good valid dS w0 -> reaches w0 w -> leads w a t n -> validP P ->
  lookupKey (listOf w t) (keyOf P) = Some p -> p_configurable p = false -> (n <= 1)%nat \/ shown p ->
  (forall receiver v, performs steps depth (OpGet a P receiver) w = (Ret (AnswerValue v), w') ->
     match p with
     | DataProperty v0 writable _ _ => writable = false -> rtc sameValue v0 v
     | AccessorProperty g _ _ _ => g = ValueUndefined -> v = ValueUndefined
     end) /\
  (forall receiver v, performs steps depth (OpSet a P v receiver) w = (Ret (AnswerBool true), w') ->
     match p with
     | DataProperty v0 writable _ _ => writable = false -> rtc sameValue v0 v
     | AccessorProperty _ s _ _ => s <> ValueUndefined
     end).
Proof using Hnames Names Prog.
  intros Hg Hs Hl HP Hp Hc Ht. pose proof (fixed_now w t _ p Hp Hc) as Hf.
  pose proof (fun op r => answers_honest valid validP nameOf nameOfKey names dS prototypeOfObjects program w0 w steps depth op r w' Hg Hs) as Hh.
  split; intros receiver v E.
  - pose proof (Hh (OpGet a P receiver) _ HP E t n Hl p Hf Ht) as H. destruct p as [v0 [] e c|]; [discriminate|auto|exact H].
  - pose proof (Hh (OpSet a P v receiver) _ HP E eq_refl t n Hl p Hf Ht) as H. destruct p as [v0 [] e c|]; [discriminate|auto|exact H].
Qed.

(** C5: a proxy for an object that is not extensible cannot pretend otherwise: it
    answers that it is not, has the prototype of the object and takes no other, shows and
    takes no property that the object does not have and lists no key of one; and when
    [preventExtensions] answers true the object is not extensible. *)
Theorem closed_object_cannot_be_opened w0 w a t n steps depth w' :
  good valid dS w0 -> reaches w0 w -> leads w a t n ->
  (performs steps depth (OpPreventExtensions a) w = (Ret (AnswerBool true), w') -> extensibleAt w' t = false) /\
  (extensibleAt w t = false ->
   (forall b, performs steps depth (OpIsExtensible a) w = (Ret (AnswerBool b), w') -> b = false) /\
   (forall p, performs steps depth (OpGetPrototype a) w = (Ret (AnswerPrototype p), w') ->
      prototypeValue p = prototypeValue (protoOf w t)) /\
   (forall p, performs steps depth (OpSetPrototype a p) w = (Ret (AnswerBool true), w') ->
      prototypeValue p = prototypeValue (protoOf w t)) /\
   (forall key ks, performs steps depth (OpOwnKeys a) w = (Ret (AnswerKeys ks), w') ->
      lookupKey (listOf w t) key = None -> key ∉ map (keyOfOwn nameOf nameOfKey) ks) /\
   (forall P, validP P -> lookupKey (listOf w t) (keyOf P) = None ->
      (forall r, performs steps depth (OpGetOwnProperty a P) w = (Ret (AnswerResult r), w') -> propertyOfResult r = None) /\
      (forall desc b, wf_descriptor desc -> performs steps depth (OpDefineOwnProperty a P desc) w = (Ret (AnswerBool b), w') ->
         b = false))).
Proof using Hnames Names Prog.
  intros Hg Hs Hl.
  pose proof (fun op r => answers_honest valid validP nameOf nameOfKey names dS prototypeOfObjects program w0 w steps depth op r w' Hg Hs) as Hh.
  split; [intros E; exact (Hh (OpPreventExtensions a) _ I E eq_refl t n Hl)|]. intros Hc. split_and!.
  - intros b E. exact (proj1 (Hh (OpIsExtensible a) _ I E t n Hl) Hc).
  - intros p E. exact (Hh (OpGetPrototype a) _ I E t n Hl Hc).
  - intros p E. exact (Hh (OpSetPrototype a p) _ I E eq_refl t n Hl Hc).
  - intros key ks E Hn. exact (proj2 (proj2 (proj2 (Hh (OpOwnKeys a) _ I E)) t n Hl) key (conj Hc Hn)).
  - intros P HP Hn. split.
    + intros r E. exact (proj2 (proj2 (Hh (OpGetOwnProperty a P) _ HP E) t n Hl) (conj Hc Hn)).
    + intros desc b Hd E. destruct b; [|reflexivity].
      destruct (proj2 (Hh (OpDefineOwnProperty a P desc) _ (conj HP Hd) E eq_refl t n Hl) (conj Hc Hn)).
Qed.

(** C6: over any history of scripts, with accessors, traps and proxies, thrown
    exceptions and revocations, the essential invariants of objects last: a property that is
    not configurable stays, with its attributes, its accessors and, when it is read-only,
    its value; an object that is not extensible stays so, keeps its prototype and gets no
    new property; and a proxy keeps its target and its handler until it is revoked. *)
Theorem scripts_keep_essential_invariants w w' b :
  good valid dS w -> reaches w w' -> is_Some (objects w !! b) ->
  (forall key p, lookupKey (listOf w b) key = Some p -> p_configurable p = false ->
     exists p', lookupKey (listOf w' b) key = Some p' /\ keptProperty p p') /\
  (extensibleAt w b = false ->
     extensibleAt w' b = false /\ protoOf w' b = protoOf w b /\
     forall key, lookupKey (listOf w b) key = None -> lookupKey (listOf w' b) key = None) /\
  (exists o o', objects w !! b = Some o /\ objects w' !! b = Some o' /\ classKept (m_objectClass o) (m_objectClass o')).
Proof using Hnames Names Prog.
  intros Hg Hs Hb.
  destruct (steps_evolve valid validP nameOf nameOfKey names dS prototypeOfObjects program w w' Hg Hs) as [_ He].
  destruct (ev_essential _ _ He b Hb) as [_ [H1 H2] H3]. destruct Hb as [o Hb]. destruct (ev_class _ _ He b o Hb) as (o' & Hb' & K).
  split_and!; [exact H1|intros Hx; destruct (H3 Hx); auto|eauto 6].
Qed.
End Guarantees.

(** ** In the example *)

Lemma ran {A} (m : OM A) w r : fst (m w) = Ret r -> m w = (Ret r, snd (m w)).
Proof. destruct (m w). cbn. intros ->. reflexivity. Qed.

Abbreviation pxPerforms op w := (perform pxNameOf (pxRunning 10 5) op w).

Lemma through_proxies w : objects w !! theTarget = Some (objectIn w theTarget) -> isProxyObject (objectIn w theTarget) = false ->
  objects w !! theProxy = Some (objectIn w theProxy) -> m_objectClass (objectIn w theProxy) = ProxyObject (proxyOf theTarget theHandler) ->
  objects w !! outerProxy = Some (objectIn w outerProxy) -> m_objectClass (objectIn w outerProxy) = ProxyObject (proxyOf theProxy theHandler) ->
  leads w outerProxy theTarget 2.
Proof.
  intros H1 H2 H3 H4 H5 H6. eapply leads_through; [exact H5|exact H6|reflexivity..|].
  eapply leads_through; [exact H3|exact H4|reflexivity..|]. eapply leads_here; eassumption.
Qed.

Lemma outer_leads : leads proxyWorld outerProxy theTarget 2.
Proof. apply through_proxies; vm_compute; reflexivity. Qed.

Abbreviation constant_k := (DataProperty (Value_int 7) false false false).

Lemma target_k : lookupKey (listOf proxyWorld theTarget) (propertyKey (pxNameOf px_k)) = Some constant_k.
Proof. vm_compute. reflexivity. Qed.
Lemma shown_k : shown constant_k.
Proof. discriminate. Qed.

Lemma fixed_property_cannot_be_denied_witness : exists ks w',
  pxPerforms (OpOwnKeys outerProxy) proxyWorld = (Ret (AnswerKeys ks), w') /\
  propertyKey (pxNameOf px_k) ∈ map (keyOfOwn pxNameOf pxNameOfKey) ks.
Proof.
  assert (E : pxPerforms (OpOwnKeys outerProxy) proxyWorld = (Ret (AnswerKeys [NameKey px_k]), snd (pxPerforms (OpOwnKeys outerProxy) proxyWorld))) by (apply ran; vm_compute; reflexivity).
  exists [NameKey px_k], (snd (pxPerforms (OpOwnKeys outerProxy) proxyWorld)). split; [exact E|].
  exact (proj1 (proj2 (fixed_property_cannot_be_denied pxValid pxValidP pxNameOf pxNameOfKey pxNames 0 None pxProgram startWorld
    proxyWorld outerProxy theTarget 2 px_k constant_k 10 5 _ startWorld_good proxyWorld_steps outer_leads px_k_valid target_k
    eq_refl (or_intror shown_k))) [NameKey px_k] E).
Defined.

Lemma frozen_value_cannot_be_forged_witness : exists v w',
  pxPerforms (OpGet outerProxy px_k outerProxy) proxyWorld = (Ret (AnswerValue v), w') /\ rtc sameValue (Value_int 7) v.
Proof.
  assert (E : pxPerforms (OpGet outerProxy px_k outerProxy) proxyWorld = (Ret (AnswerValue (Value_int 7)), snd (pxPerforms (OpGet outerProxy px_k outerProxy) proxyWorld))) by (apply ran; vm_compute; reflexivity).
  exists (Value_int 7), (snd (pxPerforms (OpGet outerProxy px_k outerProxy) proxyWorld)). split; [exact E|].
  exact (proj1 (frozen_value_cannot_be_forged pxValid pxValidP pxNameOf pxNameOfKey pxNames 0 None pxProgram startWorld
    proxyWorld outerProxy theTarget 2 px_k constant_k 10 5 _ startWorld_good proxyWorld_steps outer_leads px_k_valid target_k
    eq_refl (or_intror shown_k)) outerProxy (Value_int 7) E eq_refl).
Defined.

Lemma closed_object_cannot_be_opened_witness : exists p w',
  pxPerforms (OpGetPrototype outerProxy) proxyWorld = (Ret (AnswerPrototype p), w') /\
  prototypeValue p = prototypeValue (protoOf proxyWorld theTarget).
Proof.
  assert (E : pxPerforms (OpGetPrototype outerProxy) proxyWorld = (Ret (AnswerPrototype None), snd (pxPerforms (OpGetPrototype outerProxy) proxyWorld))) by (apply ran; vm_compute; reflexivity).
  exists None, (snd (pxPerforms (OpGetPrototype outerProxy) proxyWorld)). split; [exact E|].
  refine (proj1 (proj2 (proj2 (closed_object_cannot_be_opened pxValid pxValidP pxNameOf pxNameOfKey pxNames 0 None pxProgram startWorld
    proxyWorld outerProxy theTarget 2 10 5 _ startWorld_good proxyWorld_steps outer_leads) _)) None E).
  vm_compute. reflexivity.
Defined.

(** A script that assigns to the property through the proxies, and one that revokes the
    outer proxy. *)
Definition attempts : list Operation := [OpSet outerProxy px_k (Value_int 8) outerProxy; OpRevoke (Some outerProxy)].
Definition laterWorld : World := runs attempts proxyWorld.

Lemma laterWorld_steps : rtc pxStep proxyWorld laterWorld.
Proof. apply runs_steps. unfold attempts. repeat (apply Forall_cons_2; [exact px_k_valid || exact I|]). apply Forall_nil_2. Qed.
Lemma proxyWorld_good : good pxValid 0 proxyWorld.
Proof. eapply steps_evolve; [exact _..|exact startWorld_good|exact proxyWorld_steps]. Qed.

Lemma target_there : is_Some (objects proxyWorld !! theTarget).
Proof. apply (leads_object proxyWorld outerProxy theTarget 2 outer_leads). Qed.

Lemma scripts_keep_essential_invariants_witness : exists p', lookupKey (listOf laterWorld theTarget) (propertyKey (pxNameOf px_k)) = Some p' /\
  keptProperty constant_k p'.
Proof.
  apply (proj1 (scripts_keep_essential_invariants pxValid pxValidP pxNameOf pxNameOfKey pxNames 0 None pxProgram proxyWorld laterWorld
    theTarget proxyWorld_good laterWorld_steps target_there)); [exact target_k|reflexivity].
Defined.

(** ** Proxies without traps, and without a handler *)

Section Forwarding.
Context {heap : Heap} (valid validP : Z -> Prop) (nameOf : Z -> Z) (nameOfKey : OwnKey -> Z).
Context {Hnames : ObjectNames heap valid validP nameOf nameOfKey}.
Context (names : ProxyNames) {Names : NamesLaws validP nameOfKey names} (rt : Runtime).
Context (call' : Z -> Z -> list Z -> OM Z) (construct' : Z -> list Z -> Z -> OM Z).
Context (toLength' : Z -> OM nat) (createArray' : list Z -> OM Z).

Abbreviation up := (proxyRuntime rt nameOf nameOfKey names call' construct' toLength' createArray').

Lemma proxyData_run w a o p : objects w !! a = Some o -> m_objectClass o = ProxyObject p -> proxyData a w = (Ret p, w).
Proof using Type. intros Ha Hc. unfold proxyData. rewrite (bind_run _ _ _ o w (readObject_run w a o Ha)), Hc. reflexivity. Qed.

Lemma trap_absent w a o p h t l trap : wf_world valid w -> objects w !! a = Some o -> m_objectClass o = ProxyObject p ->
  m_handler p = Some h -> m_target p = Some t -> chain w h l -> Forall (ordinaryAt w) l ->
  chainLookup w l (propertyKey (nameOf (trapName names trap))) = None ->
  trapOf rt nameOf names a trap w = (Ret (h, t, ValueUndefined), w).
Proof using Hnames Names.
  intros Hw Ha Hc Hh Ht Hl Ho Hn. unfold trapOf, getMethod, getValue.
  rewrite (bind_run _ _ _ p w (proxyData_run w a o p Ha Hc)).
  rewrite Hh, Ht. rewrite (bind_run (orThrow _ (Some t)) _ _ t w eq_refl).
  destruct (get_run valid validP rt nameOf nameOfKey w h l (trapName names trap) Hw Hl Ho (trap_valid validP nameOfKey trap)) as [H _].
  destruct (H (Value_pointer h)) as (r & E & Er). rewrite Hn in Er. destruct r; try discriminate.
  rewrite (bind_run _ _ _ ValueUndefined w); [reflexivity|].
  rewrite (bind_run _ _ _ ValueUndefined w); [reflexivity|].
  rewrite (bind_run _ _ _ NoProperty w E). reflexivity.
Qed.

(** C7: a proxy with an empty handler is transparent: where no trap is on the handler
    and its prototypes, every internal method of the proxy is that of its target, run in
    the same world, and so are calls of a callable proxy and constructions. *)
Theorem empty_handler_is_transparent w a o p h t l :
  wf_world valid w -> objects w !! a = Some o -> m_objectClass o = ProxyObject p ->
  m_handler p = Some h -> m_target p = Some t -> chain w h l -> Forall (ordinaryAt w) l ->
  (forall trap, chainLookup w l (propertyKey (nameOf (trapName names trap))) = None) ->
  (forall P, getOwnProperty up nameOf a P w = getOwnProperty rt nameOf t P w /\
     (forall desc, defineOwnProperty up nameOf a P desc w = defineOwnProperty rt nameOf t P desc w) /\
     deleteOwnProperty up nameOf a P w = deleteOwnProperty rt nameOf t P w /\
     hasProperty up nameOf a P w = hasProperty rt nameOf t P w /\
     (forall receiver, get up nameOf a P receiver w = get rt nameOf t P receiver w) /\
     (forall v receiver, set up nameOf a P v receiver w = set rt nameOf t P v receiver w)) /\
  ownPropertyKeys up a w = ownPropertyKeys rt t w /\ isExtensible up a w = isExtensible rt t w /\
  preventExtensions up a w = preventExtensions rt t w /\ getPrototype up a w = getPrototype rt t w /\
  (forall proto, setPrototypeOf up a proto w = setPrototypeOf rt t proto w) /\
  (m_isCallable p = true -> forall receiver argv,
     call up (Value_pointer a) receiver argv w = Object_call rt (Value_pointer t) receiver argv w) /\
  (forall argv newTarget, construct up (Value_pointer a) argv newTarget w = construct rt (Value_pointer t) argv newTarget w).
Proof using Hnames Names.
  intros Hw Ha Hc Hh Ht Hl Ho Hn.
  pose proof (fun trap => trap_absent w a o p h t l trap Hw Ha Hc Hh Ht Hl Ho (Hn trap)) as E.
  assert (Hp : isProxyObject o = true) by (unfold isProxyObject; rewrite Hc; reflexivity).
  pose proof (readObject_run w a o Ha) as R.
  assert (Hd : forall {A} trap (k : Z * Z * Z -> OM A), bind (trapOf rt nameOf names a trap) k w = k (h, t, ValueUndefined) w)
    by (intros A trap k; exact (bind_run _ _ _ _ w (E trap))).
  assert (Hv : forall {A} (k : Object -> OM A), bind (readObject a) k w = k o w)
    by (intros A k; exact (bind_run _ _ _ _ w R)).
  assert (Hat : forall {A} (k : bool -> OM A), bind (isProxyAt a) k w = k true w).
  { intros A k. unfold isProxyAt. rewrite bind_gets, Ha, Hp. reflexivity. }
  split_and!; [intros P; (split_and!; intros)|..]; intros.
  1-11: first [unfold getOwnProperty at 1|unfold defineOwnProperty at 1|unfold deleteOwnProperty at 1|unfold hasProperty at 1
    |unfold get at 1|unfold set at 1|unfold ownPropertyKeys at 1|unfold isExtensible at 1|unfold preventExtensions at 1
    |unfold getPrototype at 1|unfold setPrototypeOf at 1]; rewrite Hv, Hp; exact (Hd _ _ _).
  - cbn [call outside proxyRuntime]. rewrite Hat. unfold ProxyObject_call.
    rewrite (bind_run _ _ _ p w (proxyData_run w a o p Ha Hc)), H. exact (Hd _ _ _).
  - cbn [construct proxyRuntime]. rewrite Hat. exact (Hd _ _ _).
Qed.

Definition aimedAt (a : Z) (op : Operation) : bool :=
  match op with
  | OpGetOwnProperty b _ | OpDefineOwnProperty b _ _ | OpDelete b _ | OpHas b _ | OpGet b _ _ | OpSet b _ _ _
  | OpOwnKeys b | OpIsExtensible b | OpPreventExtensions b | OpGetPrototype b | OpSetPrototype b _ => b =? a
  | OpCall callee _ _ | OpConstruct callee _ _ => asPointerValue callee =? a
  | _ => false
  end.

Lemma without_handler w a o p op : objects w !! a = Some o -> m_objectClass o = ProxyObject p -> m_handler p = None ->
  aimedAt a op = true -> perform nameOf up op w = (Throw TypeError, w).
Proof using Type.
  intros Ha Hc Hh Hop.
  assert (Hp : isProxyObject o = true) by (unfold isProxyObject; rewrite Hc; reflexivity).
  assert (Ht : forall {A B} trap (k : Z * Z * Z -> OM A) (f : A -> OM B), bind (bind (trapOf rt nameOf names a trap) k) f w = (Throw TypeError, w)).
  { intros A B trap k f. unfold trapOf, bind at 1 2 3. rewrite (proxyData_run w a o p Ha Hc), Hh. reflexivity. }
  assert (Hv : forall {A B} (k : Object -> OM A) (f : A -> OM B), bind (bind (readObject a) k) f w = bind (k o) f w)
    by (intros A B k f; unfold bind; rewrite (readObject_run w a o Ha); reflexivity).
  assert (Hat : forall {A B} (k : bool -> OM A) (f : A -> OM B), bind (bind (isProxyAt a) k) f w = bind (k true) f w)
    by (intros A B k f; unfold isProxyAt, bind, gets; rewrite Ha, Hp; reflexivity).
  destruct op; cbn [aimedAt] in Hop; try discriminate; apply Z.eqb_eq in Hop; subst; cbn [perform].
  1-11: first [unfold getOwnProperty at 1|unfold defineOwnProperty at 1|unfold deleteOwnProperty at 1|unfold hasProperty at 1
    |unfold get at 1|unfold set at 1|unfold ownPropertyKeys at 1|unfold isExtensible at 1|unfold preventExtensions at 1
    |unfold getPrototype at 1|unfold setPrototypeOf at 1]; rewrite Hv, Hp; exact (Ht _ _ _ _ _).
  - unfold Object_call. destruct (negb (isPointerValue callee)); [reflexivity|]. cbn [call outside proxyRuntime]. rewrite Hat.
    unfold ProxyObject_call. unfold bind at 1 2. rewrite (proxyData_run w _ o p Ha Hc).
    destruct (negb (m_isCallable p)); [reflexivity|]. exact (Ht _ _ _ _ _).
  - cbn [construct proxyRuntime]. rewrite Hat. exact (Ht _ _ _ _ _).
Qed.
End Forwarding.

(** Once a proxy is revoked, in every world that any scripts lead to, every internal
    method of it, calls and constructions throw a TypeError and change nothing. *)
Theorem revoked_proxy_rejects {heap : Heap} valid validP nameOf nameOfKey
    {Hnames : ObjectNames heap valid validP nameOf nameOfKey} names {Names : NamesLaws validP nameOfKey names}
    dS prototypeOfObjects program {Prog : ProgramLaws validP program} w a o p slot w1 w2 steps depth op :
  good valid dS w -> objects w !! a = Some o -> m_objectClass o = ProxyObject p ->
  builtinProxyRevoke (Some a) w = (Ret slot, w1) ->
  rtc (program_step validP nameOf nameOfKey names dS prototypeOfObjects program) w1 w2 -> aimedAt a op = true ->
  perform nameOf (engine nameOf nameOfKey names dS prototypeOfObjects program steps (S depth)) op w2 = (Throw TypeError, w2).
Proof.
  intros Hg Ha Hc E Hs Hop.
  pose proof (revoke_polite valid dS (Some a) w Hg) as H1. unfold after in H1. rewrite E in H1. destruct H1 as [Hg1 _].
  destruct (steps_evolve valid validP nameOf nameOfKey names dS prototypeOfObjects program w1 w2 Hg1 Hs) as [_ He].
  cbn [builtinProxyRevoke] in E. rewrite (bind_run _ _ _ p w (proxyData_run w a o p Ha Hc)) in E.
  rewrite (bind_run _ _ _ o w (readObject_run w a o Ha)), (bind_run _ _ _ tt _ (writeObject_run w a _)) in E. injection E as _ <-.
  edestruct (ev_class _ _ He a) as (o' & Ha' & K); [apply lookup_insert_eq|]. cbn [withClass m_objectClass] in K.
  inversion K; subst; eapply without_handler; eauto.
Qed.

(** ** More examples *)

(** A handler without traps, and a proxy with it. *)
Definition emptyHandler : Z := 16448.
Definition clearProxy : Z := 16464.
Definition clearWorld : World := runs [OpNewObject; OpNewProxy theTarget emptyHandler] proxyWorld.

Lemma clearWorld_good : good pxValid 0 clearWorld.
Proof.
  eapply steps_evolve; [exact _..|exact proxyWorld_good|]. apply runs_steps.
  repeat (apply Forall_cons_2; [exact I|]). apply Forall_nil_2.
Qed.

Lemma emptyHandler_chain : chain clearWorld emptyHandler [emptyHandler] /\ Forall (ordinaryAt clearWorld) [emptyHandler].
Proof.
  assert (E : objects clearWorld !! emptyHandler = Some (objectIn clearWorld emptyHandler)) by (vm_compute; reflexivity).
  split.
  - apply (chain_last _ _ _ E). vm_compute. reflexivity.
  - apply Forall_cons_2; [|apply Forall_nil_2]. exists (objectIn clearWorld emptyHandler). split; [exact E|vm_compute; reflexivity].
Qed.

Lemma emptyHandler_clear trap : chainLookup clearWorld [emptyHandler] (propertyKey (pxNameOf (trapName pxNames trap))) = None.
Proof. destruct trap; vm_compute; reflexivity. Qed.

Lemma empty_handler_is_transparent_witness :
  deleteOwnProperty (pxRunning 10 6) pxNameOf clearProxy px_k clearWorld =
  deleteOwnProperty (pxRunning 10 5) pxNameOf theTarget px_k clearWorld.
Proof.
  pose (rt := pxRunning 10 5). pose (run entry := script pxNameOf rt pxProgram entry [] 10).
  assert (E1 : objects clearWorld !! clearProxy = Some (objectIn clearWorld clearProxy)) by (vm_compute; reflexivity).
  assert (E2 : m_objectClass (objectIn clearWorld clearProxy) = ProxyObject (proxyOf theTarget emptyHandler)) by (vm_compute; reflexivity).
  destruct emptyHandler_chain as [Hl Ho].
  exact (proj1 (proj2 (proj2 (proj1 (empty_handler_is_transparent pxValid pxValidP pxNameOf pxNameOfKey pxNames rt
    (fun callee receiver argv => if callableAt pxProgram callee then run (CallEntry callee receiver argv) else throw TypeError)
    (fun callee argv newTarget => run (ConstructEntry callee argv newTarget))
    (fun v => lengthFrom (run (LengthEntry v)) v) (arrayFromList pxNameOf pxNames rt)
    clearWorld clearProxy _ _ emptyHandler theTarget [emptyHandler] (proj1 clearWorld_good) E1 E2 eq_refl eq_refl Hl Ho
    emptyHandler_clear) px_k)))).
Defined.

Lemma revoked_proxy_rejects_witness : exists w,
  pxPerforms (OpGet outerProxy px_k outerProxy) w = (Throw TypeError, w).
Proof.
  assert (E1 : objects proxyWorld !! outerProxy = Some (objectIn proxyWorld outerProxy)) by (vm_compute; reflexivity).
  assert (E2 : m_objectClass (objectIn proxyWorld outerProxy) = ProxyObject (proxyOf theProxy theHandler)) by (vm_compute; reflexivity).
  assert (E3 : builtinProxyRevoke (Some outerProxy) proxyWorld = (Ret None, snd (builtinProxyRevoke (Some outerProxy) proxyWorld)))
    by (apply ran; vm_compute; reflexivity).
  exists (snd (builtinProxyRevoke (Some outerProxy) proxyWorld)).
  exact (revoked_proxy_rejects pxValid pxValidP pxNameOf pxNameOfKey pxNames 0 None pxProgram proxyWorld outerProxy _ _ None _ _ 10 4
    (OpGet outerProxy px_k outerProxy) proxyWorld_good E1 E2 E3 (rtc_refl _ _) eq_refl).
Defined.

(** A property that is not configurable and whose value is undefined: a handler may
    report it as deleted, though it is still there. *)
Definition undefinedWorld : World :=
  runs [OpNewObject; OpDefineOwnProperty theTarget px_k (dataDescriptor ValueUndefined 0); OpNewObject;
        OpDefineOwnProperty theHandler (trapName pxNames TrapDeleteProperty) (dataDescriptor oneTrap AllPresent);
        OpNewProxy theTarget theHandler] startWorld.

Lemma undefined_property_reported_deleted :
  fst (pxPerforms (OpDelete theProxy px_k) undefinedWorld) = Ret (AnswerBool true) /\
  lookupKey (listOf (snd (pxPerforms (OpDelete theProxy px_k) undefinedWorld)) theTarget) (propertyKey (pxNameOf px_k)) =
    Some (DataProperty ValueUndefined false false false).
Proof. split; vm_compute; reflexivity. Qed.

(** An object that inherits from a proxy: the trap [get] is given the proxy as the
    receiver, not the object. *)
Definition childObject : Z := 16432.
Definition childWorld : World :=
  runs [OpNewObject; OpNewObject;
        OpDefineOwnProperty theHandler (trapName pxNames TrapGet) (dataDescriptor receiverTrap AllPresent);
        OpNewProxy theTarget theHandler; OpNewObject; OpSetPrototype childObject (Some theProxy)] startWorld.

Lemma trap_is_given_the_proxy :
  fst (pxPerforms (OpGet childObject px_k childObject) childWorld) = Ret (AnswerValue theProxy).
Proof. vm_compute. reflexivity. Qed.
