(* ===== verification/Uri.v ===== *)
(** * URI coding and [escape] ([runtime/GlobalObject.cpp])

    [encodeURI], [decodeURI] and their component forms, [escape] and [unescape] on
    the text of their argument.  A text is the list of its UTF-16 units; the loops
    run on the rest of the text, so [rest] after [i] units is what lies from index
    [i] on.  A byte or a [char16_t] is a [Z] of its range. *)

From Stdlib Require Import String.
From S2P Require Import Prelude.
Local Open Scope Z_scope.
Local Open Scope esc_scope.

(** What the functions throw: [ErrorCode::URIError] and [ErrorCode::RangeError]. *)
Inductive CodingError : Type := URIError | RangeError.

Definition STRING_MAXIMUM_LENGTH : Z := 1024 * 1024 * 512.

(** A function of the text of its argument, [ToString(argv[0])]; without an argument
    it answers undefined, which is [None]. *)
Definition onArgument {A} (argv : option (list Z)) (f : list Z -> outcome CodingError A) : outcome CodingError (option A) :=
  match argv with
  | None => Ret None
  | Some text => match f text with Ret r => Ret (Some r) | Throw e => Throw e | Fuel => Fuel end
  end.

(** ** Character classes *)

Definition isURIReservedOrSharp (ch : Z) : bool :=
  (ch =? 59) || (ch =? 47) || (ch =? 63) || (ch =? 58) || (ch =? 64) || (ch =? 38)
  || (ch =? 61) || (ch =? 43) || (ch =? 36) || (ch =? 44) || (ch =? 35).

Definition isURIAlpha (ch : Z) : bool :=
  ((97 <=? ch) && (ch <=? 122)) || ((65 <=? ch) && (ch <=? 90)).

Definition isURIMark (ch : Z) : bool :=
  (ch =? 45) || (ch =? 95) || (ch =? 46) || (ch =? 33) || (ch =? 126) || (ch =? 42)
  || (ch =? 39) || (ch =? 40) || (ch =? 41).

Definition isDecimalDigit (ch : Z) : bool := (48 <=? ch) && (ch <=? 57).

Definition isHexadecimalDigit (ch : Z) : bool :=
  isDecimalDigit ch || ((65 <=? ch) && (ch <=? 70)) || ((97 <=? ch) && (ch <=? 102)).

(** ** Hexadecimal digits *)

(** One of the two halves of [twocharToHexaDecimal]. *)
Definition charToHexaDecimal (ch : Z) : Z :=
  if negb (Z.land ch 0x10 =? 0) then Z.land ch 0xf else Z.land ch 0xf + 9.

(** The [bool] and the output parameter [res] as an option. *)
Definition twocharToHexaDecimal (ch1 ch2 : Z) : option Z :=
  if negb (isHexadecimalDigit ch1) || negb (isHexadecimalDigit ch2) then None
  else Some (Z.lor (Z.shiftl (charToHexaDecimal ch1) 4) (charToHexaDecimal ch2)).

(** The continuation byte that a text starts with, and the text after it. *)
Definition codeUnitToHexaDecimal (str : list Z) : option (Z * list Z) :=
  match str with
  | c0 :: c1 :: c2 :: rest =>
    if negb (c0 =? 37) then None
    else match twocharToHexaDecimal c1 c2 with
         | Some res => if Z.land res 0xC0 =? 0x80 then Some (res, rest) else None
         | None => None
         end
  | _ => None
  end.

(** ** [decode] *)

(** The loop that counts the leading ones of [b], at most five. *)
Fixpoint countLeadingOnes (fuel : nat) (b_tmp n : Z) : Z :=
  match fuel with
  | O => n
  | S fuel =>
    if negb (n <? 5) then n
    else let b_tmp := (b_tmp * 2) mod 256 in
         if Z.land b_tmp 0x80 =? 0 then n else countLeadingOnes fuel b_tmp (n + 1)
  end.

(** [while (j < n)]: the other octets of a sequence. *)
Fixpoint readOctets (k : nat) (str : list Z) : option (list Z * list Z) :=
  match k with
  | O => Some ([], str)
  | S k =>
    match codeUnitToHexaDecimal str with
    | None => None
    | Some (b, str) =>
      match readOctets k str with
      | None => None
      | Some (octets, str) => Some (b :: octets, str)
      end
    end
  end.

(** The value of a sequence of [n] octets, or [None] where the code throws. *)
Definition octetsValue (octets : list Z) : option Z :=
  match octets with
  | [o0; o1] =>
    if (o0 =? 0xC0) || (o0 =? 0xC1) then None
    else Some (Z.lor (Z.shiftl (Z.land o0 0x1F) 6) (Z.land o1 0x3F))
  | [o0; o1; o2] =>
    let v := Z.lor (Z.lor (Z.shiftl (Z.land o0 0x0F) 12) (Z.shiftl (Z.land o1 0x3F) 6)) (Z.land o2 0x3F) in
    if ((0xD800 <=? v) && (v <=? 0xDFFF))
       || ((o0 =? 0xE0) && ((o1 <? 0xA0) || (0xBF <? o1))) then None
    else Some v
  | [o0; o1; o2; o3] =>
    let v := Z.lor (Z.lor (Z.lor (Z.shiftl (Z.land o0 0x07) 18) (Z.shiftl (Z.land o1 0x3F) 12))
                          (Z.shiftl (Z.land o2 0x3F) 6)) (Z.land o3 0x3F) in
    if (o0 =? 0xF0) && ((o1 <? 0x90) || (0xBF <? o1)) then None else Some v
  | _ => Some 0
  end.

(** The units that are appended for the value [v]. *)
Definition unitsOfValue (v : Z) : list Z :=
  if 0x10000 <=? v then
    [Z.land (Z.shiftr (v - 0x10000) 10) 0x3ff + 0xd800; Z.land (v - 0x10000) 0x3ff + 0xdc00]
  else [Z.land v 0xFFFF].

(** One turn of the loop at a [%]: what is appended, and the text after it. *)
Definition decodeEscape (noComponent : bool) (t : Z) (rest : list Z) : option (list Z * list Z) :=
  match rest with
  | next :: nextnext :: rest =>
    match twocharToHexaDecimal next nextnext with
    | None => None
    | Some b =>
      if Z.land b 0x80 =? 0 then
        let c := Z.land b 0x7f in
        if noComponent && isURIReservedOrSharp c then Some ([t; next; nextnext], rest)
        else Some ([c], rest)
      else
        let n := countLeadingOnes 5 b 1 in
        if (n =? 1) || (n =? 5) || (Z.of_nat (length rest) + 1 <=? 3 * (n - 1)) then None
        else match readOctets (Z.to_nat (n - 1)) rest with
             | None => None
             | Some (octets, rest) =>
               match octetsValue (b :: octets) with
               | None => None
               | Some v => Some (unitsOfValue v, rest)
               end
             end
    end
  | _ => None
  end.

(** The loop over the text. *)
Fixpoint decodeLoop (fuel : nat) (noComponent : bool) (rest unescaped : list Z) : outcome CodingError (list Z) :=
  match rest with
  | [] => Ret unescaped
  | t :: rest =>
    match fuel with
    | O => Fuel
    | S fuel =>
      if negb (t =? 37) then decodeLoop fuel noComponent rest (unescaped ++ [t])
      else match decodeEscape noComponent t rest with
           | None => Throw URIError
           | Some (units, rest) => decodeLoop fuel noComponent rest (unescaped ++ units)
           end
    end
  end.

(** [StringBuilder::finalize] with a state, for a builder of the text [content]. *)
Definition finalize (content : list Z) : outcome CodingError (list Z) :=
  if STRING_MAXIMUM_LENGTH <? Z.of_nat (length content) then Throw RangeError else Ret content.

Definition decode (uriString : list Z) (noComponent : bool) : outcome CodingError (list Z) :=
  match decodeLoop (length uriString) noComponent uriString [] with
  | Ret unescaped => finalize unescaped
  | Throw e => Throw e
  | Fuel => Fuel
  end.

Definition builtinDecodeURI (argv : option (list Z)) : outcome CodingError (option (list Z)) :=
  onArgument argv (fun text => decode text true).
Definition builtinDecodeURIComponent (argv : option (list Z)) : outcome CodingError (option (list Z)) :=
  onArgument argv (fun text => decode text false).

(** ** [encode] *)

Definition hexDigitOf (dig : Z) : Z := if dig <=? 9 then dig + 48 else dig - 10 + 65.

(** The three units that [convertAndAppendCodeUnit] appends. *)
Definition convertAndAppendCodeUnit (ch : Z) : list Z :=
  let dig1 := Z.shiftr (Z.land ch 0xF0) 4 in
  let dig2 := Z.land ch 0x0F in
  [37; hexDigitOf dig1; hexDigitOf dig2].

Fixpoint encodeLoop (noComponent : bool) (bad escaped : list Z) : outcome CodingError (list Z) :=
  match bad with
  | [] => Ret escaped
  | t :: rest =>
    if isDecimalDigit t || isURIAlpha t || isURIMark t || (noComponent && isURIReservedOrSharp t) then
      encodeLoop noComponent rest (escaped ++ [t])
    else if t <=? 0x7F then
      encodeLoop noComponent rest (escaped ++ convertAndAppendCodeUnit t)
    else if (0x80 <=? t) && (t <=? 0x7FF) then
      encodeLoop noComponent rest
        (escaped ++ convertAndAppendCodeUnit (0xC0 + Z.land t 0x07C0 ÷ 0x40)
                 ++ convertAndAppendCodeUnit (0x80 + Z.land t 0x3F))
    else if ((0x800 <=? t) && (t <=? 0xD7FF)) || (0xE000 <=? t) then
      encodeLoop noComponent rest
        (escaped ++ convertAndAppendCodeUnit (0xE0 + Z.land t 0xF000 ÷ 0x1000)
                 ++ convertAndAppendCodeUnit (0x80 + Z.land t 0x0FC0 ÷ 0x40)
                 ++ convertAndAppendCodeUnit (0x80 + Z.land t 0x3F))
    else if (0xD800 <=? t) && (t <=? 0xDBFF) then
      match rest with
      | t2 :: rest =>
        if (0xDC00 <=? t2) && (t2 <=? 0xDFFF) then
          let index := (t - 0xD800) * 0x400 + (t2 - 0xDC00) + 0x10000 in
          encodeLoop noComponent rest
            (escaped ++ convertAndAppendCodeUnit (0xF0 + Z.land index 0x1C0000 ÷ 0x40000)
                     ++ convertAndAppendCodeUnit (0x80 + Z.land index 0x3F000 ÷ 0x1000)
                     ++ convertAndAppendCodeUnit (0x80 + Z.land index 0x0FC0 ÷ 0x40)
                     ++ convertAndAppendCodeUnit (0x80 + Z.land index 0x3F))
        else Throw URIError
      | [] => Throw URIError
      end
    else (* a trailing surrogate: [char16_t] leaves no other unit *) Throw URIError
  end.

Definition encode (uriString : list Z) (noComponent : bool) : outcome CodingError (list Z) :=
  encodeLoop noComponent uriString [].

Definition builtinEncodeURI (argv : option (list Z)) : outcome CodingError (option (list Z)) :=
  onArgument argv (fun text => encode text true).
Definition builtinEncodeURIComponent (argv : option (list Z)) : outcome CodingError (option (list Z)) :=
  onArgument argv (fun text => encode text false).

(** ** [escape] *)

(** A digit of [char2hex] and [char2hex4digit], added to in place. *)
Definition hexChar (dig : Z) : Z :=
  let dig := if dig <=? 9 then dig + 48 else dig in
  if (10 <=? dig) && (dig <=? 15) then dig + (65 - 10) else dig.

Definition char2hex (dec : Z) : list Z :=
  [hexChar (Z.shiftr (Z.land dec 0xF0) 4); hexChar (Z.land dec 0x0F)].

Definition char2hex4digit (dec : Z) : list Z :=
  map (fun i => hexChar (Z.shiftr (Z.land dec (Z.shiftr 0xF000 (i * 4))) (12 - i * 4))) [0; 1; 2; 3].

(** The units that [escape] leaves as they are. *)
Definition isEscapeUnreserved (t : Z) : bool :=
  ((48 <=? t) && (t <=? 57)) || ((65 <=? t) && (t <=? 90)) || ((97 <=? t) && (t <=? 122))
  || (t =? 64) || (t =? 42) || (t =? 95) || (t =? 43) || (t =? 45) || (t =? 46) || (t =? 47).

Definition escapeUnit (t : Z) : list Z :=
  if isEscapeUnreserved t then [t]
  else if t <? 256 then 37 :: char2hex t
  else 37 :: 117 :: char2hex4digit t.

(** The loop; the length is looked at after every unit. *)
Fixpoint escapeLoop (str R : list Z) : outcome CodingError (list Z) :=
  match str with
  | [] => Ret R
  | t :: rest =>
    let R := R ++ escapeUnit t in
    if STRING_MAXIMUM_LENGTH <? Z.of_nat (length R) then Throw RangeError
    else escapeLoop rest R
  end.

Definition builtinEscape (str : list Z) : outcome CodingError (list Z) := escapeLoop str [].

(** ** [unescape] *)

Definition isHexDig (c : Z) : bool :=
  ((48 <=? c) && (c <=? 57)) || ((65 <=? c) && (c <=? 70)) || ((97 <=? c) && (c <=? 102)).

(** The subtractions that turn one digit of [hex2char] into its value, in place. *)
Definition hexDigitValue (dig : Z) : Z :=
  let dig := if (48 <=? dig) && (dig <=? 57) then dig - 48 else dig in
  let dig := if (65 <=? dig) && (dig <=? 70) then dig - (65 - 10) else dig in
  if (97 <=? dig) && (dig <=? 102) then dig - (97 - 10) else dig.

Definition hex2char (first second : Z) : Z :=
  Z.lor (Z.land (Z.shiftl (hexDigitValue first) 4) 0xFFFF) (hexDigitValue second).

(** What one turn appends at a [%], and how many units it steps over besides it. *)
Definition unescapeAt (str : list Z) : option (Z * nat) :=
  if (6 <=? length str)%nat then
    match str with
    | _ :: second :: third :: fourth :: fifth :: sixth :: _ =>
      if second =? 117 then
        if isHexDig third && isHexDig fourth && isHexDig fifth && isHexDig sixth then
          Some (Z.lor (Z.land (Z.shiftl (hex2char third fourth) 8) 0xFFFF) (hex2char fifth sixth), 5%nat)
        else None
      else if isHexDig second && isHexDig third then Some (hex2char second third, 2%nat)
      else None
    | _ => None
    end
  else if (3 <=? length str)%nat then
    match str with
    | _ :: second :: third :: _ =>
      if isHexDig second && isHexDig third then Some (hex2char second third, 2%nat) else None
    | _ => None
    end
  else None.

(** The loop: [R] and the flag [gotNonASCIIString]. *)
Fixpoint unescapeLoop (fuel : nat) (str : list Z) (gotNonASCIIString : bool) (R : list Z) : outcome CodingError (bool * list Z) :=
  match str with
  | [] => Ret (gotNonASCIIString, R)
  | first :: rest =>
    match fuel with
    | O => Fuel
    | S fuel =>
      match (if first =? 37 then unescapeAt str else None) with
      | Some (l, k) => unescapeLoop fuel (drop k rest) (if 128 <? l then true else gotNonASCIIString) (R ++ [l])
      | None => unescapeLoop fuel rest (if 128 <? first then true else gotNonASCIIString) (R ++ [first])
      end
    end
  end.

(** The string that is made: of 16-bit units, or of [char]s read as ASCII. *)
Inductive NewString : Type :=
| UTF16String (units : list Z)
| ASCIIString (chars : list Z).

Definition builtinUnescape (str : list Z) : outcome CodingError NewString :=
  match unescapeLoop (length str) str false [] with
  | Ret (true, R) => Ret (UTF16String R)
  | Ret (false, R) => Ret (ASCIIString (map (fun u => u mod 256) R))
  | Throw e => Throw e
  | Fuel => Fuel
  end.

(** The units of a string: a [char] of an ASCII string is read as an unsigned one. *)
Definition textOf (s : NewString) : list Z :=
  match s with UTF16String l => l | ASCIIString l => l end.
