(* ===== verification/UriSpec.v ===== *)
(** * What URI coding promises

    The UTF-8 and UTF-16 forms of a code point, the Encode and Decode operations of
    the language on them, and the proofs that [encode] and [decode] are these
    operations and inverse to each other. *)

From Stdlib Require Import String.
From S2P Require Import Prelude Uri.
Local Open Scope Z_scope.
Local Open Scope esc_scope.

(** ** Code points, UTF-8 and UTF-16 *)

Definition is_unit (u : Z) : Prop := 0 <= u < 0x10000.

Definition scalar_below (limit cp : Z) : Prop :=
  0 <= cp <= limit /\ ~ (0xD800 <= cp <= 0xDFFF).

(** The Unicode scalar values. *)
Definition scalar (cp : Z) : Prop := scalar_below 0x10FFFF cp.

Definition utf16 (cp : Z) : list Z :=
  if cp <? 0x10000 then [cp]
  else [0xD800 + (cp - 0x10000) / 0x400; 0xDC00 + (cp - 0x10000) mod 0x400].

Definition utf8 (cp : Z) : list Z :=
  if cp <? 0x80 then [cp]
  else if cp <? 0x800 then [0xC0 + cp / 0x40; 0x80 + cp mod 0x40]
  else if cp <? 0x10000 then [0xE0 + cp / 0x1000; 0x80 + cp / 0x40 mod 0x40; 0x80 + cp mod 0x40]
  else [0xF0 + cp / 0x40000; 0x80 + cp / 0x1000 mod 0x40; 0x80 + cp / 0x40 mod 0x40; 0x80 + cp mod 0x40].

(** ** Percent encoding *)

(** The value of a hexadecimal digit of either case. *)
Definition hexValue (d : Z) : option Z :=
  if (48 <=? d) && (d <=? 57) then Some (d - 48)
  else if (65 <=? d) && (d <=? 70) then Some (d - 55)
  else if (97 <=? d) && (d <=? 102) then Some (d - 87)
  else None.

(** A text of escapes [%XY], and the bytes it stands for. *)
Inductive Percents : list Z -> list Z -> Prop :=
| Percents_nil : Percents [] []
| Percents_cons d1 d2 hi lo h bs :
    hexValue d1 = Some hi -> hexValue d2 = Some lo -> Percents h bs ->
    Percents (37 :: d1 :: d2 :: h) (16 * hi + lo :: bs).

(** The escape with upper-case digits. *)
Definition percent (b : Z) : list Z :=
  let digit d := nth (Z.to_nat d) (bytes "0123456789ABCDEF") 0 in
  [37; digit (b / 16); digit (b mod 16)].

(** ** Encode and Decode of the language *)

Definition uriReservedAndSharp : list Z := bytes ";/?:@&=+$,#".
Definition uriUnescaped : list Z :=
  bytes "abcdefghijklmnopqrstuvwxyzABCDEFGHIJKLMNOPQRSTUVWXYZ0123456789-_.!~*'()".

(** The units that Encode leaves as they are: with [noComponent], for [encodeURI]. *)
Definition unescapedSet (noComponent : bool) : list Z :=
  if noComponent then uriReservedAndSharp ++ uriUnescaped else uriUnescaped.

Definition inUnescapedSet (noComponent : bool) (t : Z) : bool := bool_decide (t ∈ unescapedSet noComponent).

Definition encodePoint (noComponent : bool) (cp : Z) : list Z :=
  if inUnescapedSet noComponent cp then [cp]
  else concat (map percent (utf8 cp)).

(** What Decode makes of one piece of a text, code points up to [limit] being
    written by [units]. *)
Inductive Piece (limit : Z) (units : Z -> list Z) (noComponent : bool) : list Z -> list Z -> Prop :=
| Piece_unit c : c <> 37 -> Piece limit units noComponent [c] [c]
| Piece_escapes cp h :
    scalar_below limit cp -> Percents h (utf8 cp) ->
    noComponent && bool_decide (cp ∈ uriReservedAndSharp) = false ->
    Piece limit units noComponent h (units cp)
| Piece_reserved cp h :
    cp ∈ uriReservedAndSharp -> Percents h [cp] -> noComponent = true ->
    Piece limit units noComponent h h.

Inductive Decodes (limit : Z) (units : Z -> list Z) (noComponent : bool) : list Z -> list Z -> Prop :=
| Decodes_nil : Decodes limit units noComponent [] []
| Decodes_piece h u s r :
    Piece limit units noComponent h u -> Decodes limit units noComponent s r ->
    Decodes limit units noComponent (h ++ s) (u ++ r).

(** ** Bits as arithmetic *)

(** A property of bytes that holds of all 256 of them. *)
Lemma all_bytes (P : Z -> bool) :
  forallb (fun n => P (Z.of_nat n)) (seq 0 256) = true -> forall b, 0 <= b < 256 -> P b = true.
Proof.
  intros H b Hb. rewrite forallb_forall in H.
  rewrite <- (Z2Nat.id b) by lia. apply H, in_seq. lia.
Qed.

Lemma lor_shiftl_add a b k : 0 <= k -> 0 <= b < 2 ^ k -> Z.lor (Z.shiftl a k) b = a * 2 ^ k + b.
Proof.
  intros Hk Hb. assert (H : Z.land (a * 2 ^ k) b = 0).
  { apply Z.bits_inj'. intros n Hn. rewrite Z.land_spec, Z.bits_0. destruct (Z.ltb_spec n k).
    - rewrite Z.mul_pow2_bits_low by lia. reflexivity.
    - rewrite <- (Z.mod_small b (2 ^ k)), Z.mod_pow2_bits_high by lia. apply andb_false_r. }
  rewrite Z.shiftl_mul_pow2, Z.add_nocarry_lxor, Z.lxor_lor by (exact H || lia). reflexivity.
Qed.

Lemma land_low v k : 0 <= k -> Z.land v (2 ^ k - 1) = v mod 2 ^ k.
Proof. intros Hk. rewrite <- Z.land_ones, Z.ones_equiv by lia. f_equal. Qed.

(** A mask of [n] bits from bit [k] on. *)
Lemma land_field v k n : 0 <= k -> 0 <= n ->
  Z.land v (Z.shiftl (2 ^ n - 1) k) = (v / 2 ^ k) mod 2 ^ n * 2 ^ k.
Proof.
  intros Hk Hn. rewrite <- land_low, <- Z.shiftr_div_pow2, <- Z.shiftl_mul_pow2 by lia.
  apply Z.bits_inj'. intros i Hi. rewrite Z.land_spec, !Z.shiftl_spec, Z.land_spec by lia.
  destruct (Z.ltb_spec i k).
  - rewrite !(Z.testbit_neg_r _ (i - k)) by lia. rewrite !andb_false_r. reflexivity.
  - rewrite Z.shiftr_spec by lia. do 2 f_equal. lia.
Qed.

(** ** Hexadecimal digits *)

Lemma hexValue_range d v : hexValue d = Some v -> 0 <= v < 16 /\ 48 <= d <= 102.
Proof. unfold hexValue. repeat case_if; intros [= <-]; to_prop; lia. Qed.

Lemma isHexadecimalDigit_value d :
  isHexadecimalDigit d = match hexValue d with Some _ => true | None => false end.
Proof.
  unfold isHexadecimalDigit, isDecimalDigit, hexValue.
  destruct ((48 <=? d) && (d <=? 57)), ((65 <=? d) && (d <=? 70)), ((97 <=? d) && (d <=? 102)); reflexivity.
Qed.

Lemma charToHexaDecimal_value d v : hexValue d = Some v -> charToHexaDecimal d = v.
Proof.
  intros H. destruct (hexValue_range _ _ H) as [_ Hd].
  assert (E : (match hexValue d with Some v => charToHexaDecimal d =? v | None => true end) = true).
  { apply (all_bytes (fun d => match hexValue d with Some v => charToHexaDecimal d =? v | None => true end));
      [vm_compute; reflexivity|lia]. }
  rewrite H in E. to_prop. exact E.
Qed.

Lemma twocharToHexaDecimal_value c1 c2 :
  twocharToHexaDecimal c1 c2 =
  match hexValue c1, hexValue c2 with Some hi, Some lo => Some (16 * hi + lo) | _, _ => None end.
Proof.
  unfold twocharToHexaDecimal. rewrite !isHexadecimalDigit_value.
  destruct (hexValue c1) as [hi|] eqn:E1, (hexValue c2) as [lo|] eqn:E2; try reflexivity. cbn [negb orb].
  rewrite (charToHexaDecimal_value _ _ E1), (charToHexaDecimal_value _ _ E2).
  apply hexValue_range in E1 as [? _], E2 as [? _]. rewrite lor_shiftl_add by lia. f_equal. lia.
Qed.

Lemma Percents_app h1 b1 h2 b2 : Percents h1 b1 -> Percents h2 b2 -> Percents (h1 ++ h2) (b1 ++ b2).
Proof. intros H1 H2. induction H1; [exact H2|]. cbn. constructor; assumption. Qed.

Lemma Percents_bytes h bs : Percents h bs -> Forall (fun b => 0 <= b < 256) bs.
Proof.
  induction 1 as [|d1 d2 hi lo h bs H1 H2 _ IH]; constructor; [|exact IH].
  apply hexValue_range in H1, H2. lia.
Qed.

Lemma Percents_length h bs : Percents h bs -> length h = (3 * length bs)%nat.
Proof. induction 1; cbn; lia. Qed.

(** ** The octets of a sequence *)

Definition continuation (b : Z) : Prop := 0x80 <= b < 0xC0.

(** The number of octets of a sequence, by its first one. *)
Definition sequenceLength (b : Z) : Z :=
  if b <? 0xC0 then 1 else if b <? 0xE0 then 2 else if b <? 0xF0 then 3 else if b <? 0xF8 then 4 else 5.

Lemma sequenceLength_range b : 1 <= sequenceLength b <= 5.
Proof. unfold sequenceLength. repeat case_if; lia. Qed.

Lemma countLeadingOnes_length b : 0x80 <= b < 0x100 -> countLeadingOnes 5 b 1 = sequenceLength b.
Proof.
  intros Hb. pose proof (all_bytes (fun b => (b <? 0x80) || (countLeadingOnes 5 b 1 =? sequenceLength b))) as H.
  specialize (H eq_refl b ltac:(lia)). cbv beta in H. apply orb_true_iff in H as [H|H]; to_prop; lia.
Qed.

Lemma land_C0 b : 0 <= b < 256 -> (Z.land b 0xC0 =? 0x80) = true <-> continuation b.
Proof.
  intros Hb. unfold continuation.
  pose proof (all_bytes (fun b => Bool.eqb (Z.land b 0xC0 =? 0x80) ((0x80 <=? b) && (b <? 0xC0))) eq_refl b Hb) as H.
  apply eqb_prop in H. rewrite H. split; [intros ?; to_prop; lia|]. intros ?. apply andb_true_iff; split; lia.
Qed.

Lemma land_80 b : 0 <= b < 256 -> (Z.land b 0x80 =? 0) = (b <? 0x80).
Proof.
  intros Hb. apply eqb_prop, (all_bytes (fun b => Bool.eqb (Z.land b 0x80 =? 0) (b <? 0x80)) eq_refl b Hb).
Qed.

Lemma codeUnitToHexaDecimal_sound str b rest :
  codeUnitToHexaDecimal str = Some (b, rest) ->
  exists h, str = h ++ rest /\ Percents h [b] /\ continuation b.
Proof.
  unfold codeUnitToHexaDecimal. destruct str as [|c0 [|c1 [|c2 str]]]; try discriminate.
  destruct (Z.eqb_spec c0 37) as [->|]; [|discriminate]. cbn [negb]. rewrite twocharToHexaDecimal_value.
  destruct (hexValue c1) as [hi|] eqn:E1; [|discriminate]. destruct (hexValue c2) as [lo|] eqn:E2; [|discriminate].
  destruct (_ =? 0x80) eqn:Ec; [|discriminate]. intros [= <- <-].
  exists [37; c1; c2]. split; [reflexivity|]. split; [constructor; [exact E1|exact E2|constructor]|].
  apply hexValue_range in E1, E2. apply land_C0; [lia|exact Ec].
Qed.

Lemma codeUnitToHexaDecimal_complete h b rest :
  Percents h [b] -> continuation b -> codeUnitToHexaDecimal (h ++ rest) = Some (b, rest).
Proof.
  intros H Hb. inversion H as [|d1 d2 hi lo h' bs H1 H2 Hn]; subst. inversion Hn; subst.
  unfold codeUnitToHexaDecimal. cbn [app]. rewrite twocharToHexaDecimal_value, H1, H2.
  pose proof (hexValue_range _ _ H1). pose proof (hexValue_range _ _ H2).
  rewrite (proj2 (land_C0 (16 * hi + lo) ltac:(lia)) Hb). reflexivity.
Qed.

Lemma readOctets_sound k str octets rest :
  readOctets k str = Some (octets, rest) ->
  exists h, str = h ++ rest /\ Percents h octets /\ length octets = k /\ Forall continuation octets.
Proof.
  revert str octets. induction k as [|k IH]; intros str octets; cbn [readOctets].
  { intros [= <- <-]. exists []. repeat split; constructor. }
  destruct (codeUnitToHexaDecimal str) as [[b str']|] eqn:E; [|discriminate].
  destruct (readOctets k str') as [[os str'']|] eqn:E'; [|discriminate]. intros [= <- <-].
  apply codeUnitToHexaDecimal_sound in E as (h & -> & Hh & Hb). apply IH in E' as (h' & -> & Hh' & Hl & Hc).
  exists (h ++ h'). rewrite app_assoc. repeat split; [apply (Percents_app _ [b] _ os); assumption|cbn; lia|].
  constructor; assumption.
Qed.

Lemma readOctets_complete octets h rest :
  Percents h octets -> Forall continuation octets ->
  readOctets (length octets) (h ++ rest) = Some (octets, rest).
Proof.
  intros H. induction H as [|d1 d2 hi lo h bs H1 H2 H IH]; intros Hc; [reflexivity|].
  inversion Hc; subst. cbn [length readOctets app].
  change (37 :: d1 :: d2 :: h ++ rest) with ([37; d1; d2] ++ (h ++ rest)).
  rewrite (codeUnitToHexaDecimal_complete [37; d1; d2] (16 * hi + lo) (h ++ rest)), IH; try assumption; [reflexivity|].
  constructor; [exact H1|exact H2|constructor].
Qed.

(** ** The value of a sequence *)

Lemma land_mod v k : 0 <= k -> Z.land v (Z.ones k) = v mod 2 ^ k.
Proof. intros Hk. apply Z.land_ones; lia. Qed.

Lemma lor_add3 a b c :
  0 <= b < 64 -> 0 <= c < 64 ->
  Z.lor (Z.lor (Z.shiftl a 12) (Z.shiftl b 6)) c = a * 4096 + b * 64 + c.
Proof.
  intros Hb Hc. rewrite (Z.shiftl_mul_pow2 b) by lia. rewrite (lor_shiftl_add a) by (change (2 ^ 6) with 64; lia).
  replace (a * 2 ^ 12 + b * 2 ^ 6) with (Z.shiftl (a * 64 + b) 6) by (rewrite Z.shiftl_mul_pow2; lia).
  rewrite lor_shiftl_add by lia. lia.
Qed.

Lemma lor_add4 a b c d :
  0 <= b < 64 -> 0 <= c < 64 -> 0 <= d < 64 ->
  Z.lor (Z.lor (Z.lor (Z.shiftl a 18) (Z.shiftl b 12)) (Z.shiftl c 6)) d = a * 262144 + b * 4096 + c * 64 + d.
Proof.
  intros Hb Hc Hd. rewrite (Z.shiftl_mul_pow2 b) by lia. rewrite (lor_shiftl_add a) by (change (2 ^ 12) with 4096; lia).
  replace (a * 2 ^ 18 + b * 2 ^ 12) with (Z.shiftl (a * 64 + b) 12) by (rewrite Z.shiftl_mul_pow2; lia).
  rewrite lor_add3 by lia. lia.
Qed.

(** The octets as the code reads them, without bit operations. *)
Definition octetsSum (octets : list Z) : option Z :=
  match octets with
  | [o0; o1] =>
    if o0 <? 0xC2 then None else Some (o0 mod 32 * 64 + o1 mod 64)
  | [o0; o1; o2] =>
    let v := o0 mod 16 * 4096 + o1 mod 64 * 64 + o2 mod 64 in
    if ((0xD800 <=? v) && (v <=? 0xDFFF)) || (v <? 0x800) then None else Some v
  | [o0; o1; o2; o3] =>
    let v := o0 mod 8 * 262144 + o1 mod 64 * 4096 + o2 mod 64 * 64 + o3 mod 64 in
    if v <? 0x10000 then None else Some v
  | _ => Some 0
  end.

(** Case analysis on every comparison of the goal. *)
Ltac compare_cases :=
  repeat match goal with
  | |- context [?a =? ?b] => destruct (Z.eqb_spec a b)
  | |- context [?a <? ?b] => destruct (Z.ltb_spec a b)
  | |- context [?a <=? ?b] => destruct (Z.leb_spec a b)
  end; cbn [andb orb negb].

Ltac mod_ranges :=
  repeat match goal with
  | |- context [?a mod ?b] =>
    lazymatch goal with
    | _ : 0 <= a mod b < b |- _ => fail
    | _ => pose proof (Z.mod_pos_bound a b ltac:(lia))
    end
  end.

Lemma octetsValue_sum b octets :
  sequenceLength b = Z.of_nat (length (b :: octets)) -> (2 <= length (b :: octets) <= 4)%nat ->
  0x80 <= b < 0x100 -> Forall continuation octets ->
  octetsValue (b :: octets) = octetsSum (b :: octets).
Proof.
  intros Hn Hl Hb Hc. unfold sequenceLength in Hn.
  destruct octets as [|o1 [|o2 [|o3 [|]]]]; cbn [length] in *; try lia;
    rewrite ?Forall_cons_iff in Hc; destruct_and?;
    unfold continuation in *; cbn [octetsValue octetsSum];
    change 0x1F with (Z.ones 5); change 0x3F with (Z.ones 6); change 0x0F with (Z.ones 4); change 0x07 with (Z.ones 3);
    rewrite !land_mod by lia; change (2 ^ 6) with 64; change (2 ^ 5) with 32; change (2 ^ 4) with 16; change (2 ^ 3) with 8;
    mod_ranges.
  - rewrite lor_shiftl_add by lia. change (2 ^ 6) with 64.
    revert Hn; compare_cases; intros; try reflexivity; exfalso; lia.
  - rewrite lor_add3 by lia. revert Hn; compare_cases; intros; try reflexivity; exfalso; lia.
  - rewrite lor_add4 by lia. revert Hn; compare_cases; intros; try reflexivity; exfalso; lia.
Qed.

(** The UTF-8 form of a number written in base 64. *)
Lemma utf8_2 x y : 2 <= x < 32 -> 0 <= y < 64 -> utf8 (x * 64 + y) = [0xC0 + x; 0x80 + y].
Proof. intros Hx Hy. unfold utf8. compare_cases; try lia. repeat f_equal; lia. Qed.

Lemma utf8_3 x y z : 0 <= x < 16 -> 0 <= y < 64 -> 0 <= z < 64 -> 0x800 <= x * 4096 + y * 64 + z ->
  utf8 (x * 4096 + y * 64 + z) = [0xE0 + x; 0x80 + y; 0x80 + z].
Proof.
  intros Hx Hy Hz Hv. unfold utf8. compare_cases; try lia.
  assert (E : (x * 4096 + y * 64 + z) / 64 = x * 64 + y) by lia. rewrite E. repeat f_equal; lia.
Qed.

Lemma utf8_4 x y z w : 0 <= x < 8 -> 0 <= y < 64 -> 0 <= z < 64 -> 0 <= w < 64 ->
  0x10000 <= x * 262144 + y * 4096 + z * 64 + w ->
  utf8 (x * 262144 + y * 4096 + z * 64 + w) = [0xF0 + x; 0x80 + y; 0x80 + z; 0x80 + w].
Proof.
  intros Hx Hy Hz Hw Hv. unfold utf8. compare_cases; try lia.
  assert (E1 : (x * 262144 + y * 4096 + z * 64 + w) / 64 = x * 4096 + y * 64 + z) by lia.
  assert (E2 : (x * 262144 + y * 4096 + z * 64 + w) / 4096 = x * 64 + y) by lia.
  rewrite E1, E2. repeat f_equal; lia.
Qed.

Lemma octetsSum_sound b octets v :
  sequenceLength b = Z.of_nat (length (b :: octets)) -> (2 <= length (b :: octets) <= 4)%nat ->
  0x80 <= b < 0x100 -> Forall continuation octets ->
  octetsSum (b :: octets) = Some v -> utf8 v = b :: octets /\ scalar_below 0x1FFFFF v /\ 0x80 <= v.
Proof.
  intros Hn Hl Hb Hc. unfold sequenceLength in Hn. revert Hn. unfold scalar_below.
  destruct octets as [|o1 [|o2 [|o3 [|]]]]; cbn [length] in *; try lia;
    rewrite ?Forall_cons_iff in Hc; destruct_and?; unfold continuation in *; cbn [octetsSum];
    rewrite !(Z.mod_eq _ 64) by lia.
  - compare_cases; intros; try lia; simplify_eq.
    replace (b mod 32) with (b - 0xC0) by lia. replace (o1 - 64 * (o1 / 64)) with (o1 - 0x80) by lia.
    rewrite utf8_2 by lia. split_and!; try lia. repeat f_equal; lia.
  - replace (o1 - 64 * (o1 / 64)) with (o1 - 0x80) by lia. replace (o2 - 64 * (o2 / 64)) with (o2 - 0x80) by lia.
    compare_cases; intros; try lia; simplify_eq; replace (b mod 16) with (b - 0xE0) in * by lia;
      (rewrite utf8_3 by lia; split_and!; try lia; repeat f_equal; lia).
  - replace (o1 - 64 * (o1 / 64)) with (o1 - 0x80) by lia. replace (o2 - 64 * (o2 / 64)) with (o2 - 0x80) by lia.
    replace (o3 - 64 * (o3 / 64)) with (o3 - 0x80) by lia.
    compare_cases; intros; try lia; simplify_eq; replace (b mod 8) with (b - 0xF0) in * by lia.
    rewrite utf8_4 by lia. split_and!; try lia. repeat f_equal; lia.
Qed.

(** The digits in base 64 of a code point past ASCII. *)
Lemma utf8_octets cp : scalar_below 0x1FFFFF cp -> 0x80 <= cp ->
  exists b octets, utf8 cp = b :: octets /\ sequenceLength b = Z.of_nat (length (b :: octets)) /\
    (2 <= length (b :: octets) <= 4)%nat /\ 0x80 <= b < 0x100 /\ Forall continuation octets /\
    octetsSum (b :: octets) = Some cp.
Proof.
  unfold scalar_below. intros [Hcp Hs] Hlo. unfold utf8. compare_cases; try lia.
  - eexists _, _. split; [reflexivity|]. unfold sequenceLength, continuation. cbn [octetsSum length].
    split_and!; try lia; [compare_cases; lia|repeat constructor; lia|].
    compare_cases; [lia|]. f_equal. lia.
  - eexists _, _. split; [reflexivity|]. unfold sequenceLength, continuation. cbn [octetsSum length].
    split_and!; try lia; [compare_cases; lia|repeat constructor; lia|].
    replace ((0xE0 + cp / 4096) mod 16) with (cp / 4096) by lia.
    replace ((0x80 + cp / 64 mod 64) mod 64) with (cp / 64 mod 64) by lia.
    replace ((0x80 + cp mod 64) mod 64) with (cp mod 64) by lia.
    replace (cp / 4096 * 4096 + cp / 64 mod 64 * 64 + cp mod 64) with cp by lia.
    compare_cases; try lia; reflexivity.
  - eexists _, _. split; [reflexivity|]. unfold sequenceLength, continuation. cbn [octetsSum length].
    split_and!; try lia; [compare_cases; lia|repeat constructor; lia|].
    replace ((0xF0 + cp / 262144) mod 8) with (cp / 262144) by lia.
    replace ((0x80 + cp / 4096 mod 64) mod 64) with (cp / 4096 mod 64) by lia.
    replace ((0x80 + cp / 64 mod 64) mod 64) with (cp / 64 mod 64) by lia.
    replace ((0x80 + cp mod 64) mod 64) with (cp mod 64) by lia.
    replace (cp / 262144 * 262144 + cp / 4096 mod 64 * 4096 + cp / 64 mod 64 * 64 + cp mod 64) with cp by lia.
    compare_cases; try lia; reflexivity.
Qed.

(** ** The sets of characters *)

Lemma isURIReservedOrSharp_spec c : isURIReservedOrSharp c = bool_decide (c ∈ uriReservedAndSharp).
Proof.
  apply eq_true_iff_eq. rewrite bool_decide_eq_true. unfold isURIReservedOrSharp, uriReservedAndSharp.
  change (bytes ";/?:@&=+$,#") with [59; 47; 63; 58; 64; 38; 61; 43; 36; 44; 35].
  rewrite !orb_true_iff, !Z.eqb_eq, !elem_of_cons, elem_of_nil. tauto.
Qed.

Lemma unescapedSet_spec nc t :
  isDecimalDigit t || isURIAlpha t || isURIMark t || (nc && isURIReservedOrSharp t)
  = inUnescapedSet nc t.
Proof.
  assert (Hr : forall l : list Z, Forall (fun c => 0 <= c < 256) l -> t ∈ l -> 0 <= t < 256).
  { intros l Hl Ht. rewrite List.Forall_forall in Hl. apply Hl. apply list_elem_of_In, Ht. }
  destruct (decide (0 <= t < 256)) as [Ht|Ht].
  - apply eqb_prop. destruct nc; revert t Ht Hr; intros t Ht _.
    + exact (all_bytes (fun t => Bool.eqb (isDecimalDigit t || isURIAlpha t || isURIMark t || (true && isURIReservedOrSharp t))
        (inUnescapedSet true t)) ltac:(vm_compute; reflexivity) t Ht).
    + exact (all_bytes (fun t => Bool.eqb (isDecimalDigit t || isURIAlpha t || isURIMark t || (false && isURIReservedOrSharp t))
        (inUnescapedSet false t)) ltac:(vm_compute; reflexivity) t Ht).
  - unfold inUnescapedSet. rewrite bool_decide_eq_false_2.
    + unfold isDecimalDigit, isURIAlpha, isURIMark, isURIReservedOrSharp.
      repeat match goal with |- context [t =? ?b] => replace (t =? b) with false by lia end.
      destruct (Z.ltb_spec t 0);
        repeat match goal with
        | |- context [?a <=? t] => replace (a <=? t) with false by lia
        | |- context [t <=? ?b] => replace (t <=? b) with false by lia
        end; cbn [andb orb]; rewrite ?andb_false_r; reflexivity.
    + intros Hin. apply Ht, (Hr (unescapedSet nc)); [|exact Hin].
      destruct nc; apply (bool_decide_unpack _); vm_compute; exact I.
Qed.

(** ** [decode] is Decode *)

Section Decoding.
Context (noComponent : bool).

(** The pieces and the texts that the code decodes: it takes four octets for any
    number below 2 ^ 21. *)
Abbreviation CodePiece := (Piece 0x1FFFFF unitsOfValue noComponent).
Abbreviation CodeDecodes := (Decodes 0x1FFFFF unitsOfValue noComponent).

Lemma utf8_ascii cp : 0 <= cp < 0x80 -> utf8 cp = [cp].
Proof. intros H. unfold utf8. replace (cp <? 0x80) with true by lia. reflexivity. Qed.

Lemma unitsOfValue_bmp v : 0 <= v < 0x10000 -> unitsOfValue v = [v].
Proof.
  intros H. unfold unitsOfValue. compare_cases; [lia|]. change 0xFFFF with (2 ^ 16 - 1).
  rewrite land_low, Z.mod_small by lia. reflexivity.
Qed.

Lemma land_7f b : 0 <= b < 0x80 -> Z.land b 0x7f = b.
Proof. intros H. change 0x7f with (2 ^ 7 - 1). rewrite land_low by lia. apply Z.mod_small. lia. Qed.

Lemma ascii_no_surrogate cp limit : 0 <= cp < 0x80 -> 0x80 <= limit -> scalar_below limit cp.
Proof. unfold scalar_below. lia. Qed.

Lemma decodeEscape_sound rest u rest' :
  decodeEscape noComponent 37 rest = Some (u, rest') ->
  exists h, 37 :: rest = h ++ rest' /\ h <> [] /\ CodePiece h u.
Proof.
  unfold decodeEscape. destruct rest as [|c1 [|c2 rest]]; try discriminate. rewrite twocharToHexaDecimal_value.
  destruct (hexValue c1) as [hi|] eqn:E1; [|discriminate]. destruct (hexValue c2) as [lo|] eqn:E2; [|discriminate].
  assert (Hp : Percents [37; c1; c2] [16 * hi + lo]) by (constructor; [exact E1|exact E2|constructor]).
  apply hexValue_range in E1 as [Hhi _], E2 as [Hlo _]. set (b := 16 * hi + lo) in *.
  rewrite land_80 by lia. destruct (Z.ltb_spec b 0x80) as [Hb|Hb].
  - rewrite land_7f by lia. rewrite isURIReservedOrSharp_spec.
    destruct (noComponent && bool_decide (b ∈ uriReservedAndSharp)) eqn:Er; intros [= <- <-];
      exists [37; c1; c2]; (split_and!; [reflexivity|discriminate|]).
    + apply andb_true_iff in Er as [En Er]. apply bool_decide_eq_true in Er.
      exact (Piece_reserved _ _ _ b _ Er Hp En).
    + rewrite <- (unitsOfValue_bmp b) by lia. apply Piece_escapes; [apply ascii_no_surrogate; lia| |exact Er].
      rewrite utf8_ascii by lia. exact Hp.
  - rewrite countLeadingOnes_length by lia.
    destruct (_ || _) eqn:En; [discriminate|]. apply orb_false_elim in En as [En Hlen]. to_prop.
    destruct (readOctets _ rest) as [[os rest'']|] eqn:Er; [|discriminate].
    apply readOctets_sound in Er as (h & -> & Hh & Hl & Hc).
    pose proof (sequenceLength_range b).
    assert (Hsl : sequenceLength b = Z.of_nat (length (b :: os))) by (cbn [length]; lia).
    assert (Hr : (2 <= length (b :: os) <= 4)%nat) by lia.
    rewrite octetsValue_sum by (assumption || lia). destruct (octetsSum (b :: os)) as [v|] eqn:Ev; [|discriminate].
    apply octetsSum_sound in Ev as (Hu & Hs & Hv); [|assumption..|lia|assumption]. intros [= <- <-].
    exists ([37; c1; c2] ++ h). split_and!; [rewrite <- app_assoc; reflexivity|discriminate|].
    apply Piece_escapes; [exact Hs|rewrite Hu; apply (Percents_app _ [b]); assumption|].
    rewrite bool_decide_eq_false_2, andb_false_r; [reflexivity|]. intros Hin.
    assert (Hlt : forallb (fun c => c <? 0x80) uriReservedAndSharp = true) by reflexivity.
    rewrite List.forallb_forall in Hlt. specialize (Hlt v ltac:(apply list_elem_of_In, Hin)). to_prop. lia.
Qed.

Lemma reserved_ascii c : c ∈ uriReservedAndSharp -> 0 <= c < 0x80.
Proof.
  intros Hin. assert (H : forallb (fun c => (0 <=? c) && (c <? 0x80)) uriReservedAndSharp = true) by reflexivity.
  rewrite List.forallb_forall in H. specialize (H c ltac:(apply list_elem_of_In, Hin)). to_prop. lia.
Qed.

Lemma decodeEscape_complete h u s :
  CodePiece (37 :: h) u -> decodeEscape noComponent 37 (h ++ s) = Some (u, s).
Proof.
  intros Hp. inversion Hp as [c Hc|cp h' Hs Hh Hr|cp h' Hr Hh Hn]; [congruence|subst h' u|subst h' u].
  - destruct (Z.ltb_spec cp 0x80) as [Hcp|Hcp].
    + unfold scalar_below in Hs. rewrite utf8_ascii in Hh by lia.
      inversion Hh as [|d1 d2 hi lo h' bs H1 H2 Hnil]; subst. inversion Hnil; subst. cbn [app].
      unfold decodeEscape. rewrite twocharToHexaDecimal_value, H1, H2, land_80 by lia.
      replace (16 * hi + lo <? 128) with true by lia.
      rewrite land_7f, isURIReservedOrSharp_spec, Hr, unitsOfValue_bmp by lia. reflexivity.
    + destruct (utf8_octets cp Hs Hcp) as (b & os & Eu & Hsl & Hl & Hb & Hc & Hv). rewrite Eu in Hh.
      inversion Hh as [|d1 d2 hi lo h' bs H1 H2 Hos]; subst. cbn [app].
      unfold decodeEscape. rewrite twocharToHexaDecimal_value, H1, H2, land_80 by lia.
      replace (16 * hi + lo <? 128) with false by lia. rewrite countLeadingOnes_length, Hsl by lia.
      pose proof (Percents_length _ _ Hos). rewrite length_app. cbn [length] in *.
      rewrite !(proj2 (Z.eqb_neq _ _)) by lia. rewrite (proj2 (Z.leb_gt _ _)) by lia. cbn [orb].
      replace (Z.to_nat (Z.of_nat (S (length os)) - 1)) with (length os) by lia.
      rewrite readOctets_complete, octetsValue_sum, Hv; try (assumption || lia || (cbn [length]; lia)). reflexivity.
  - pose proof (reserved_ascii _ Hr) as Hcp.
    inversion Hh as [|d1 d2 hi lo h' bs H1 H2 Hnil]; subst. inversion Hnil; subst. cbn [app].
    unfold decodeEscape. rewrite twocharToHexaDecimal_value, H1, H2, land_80 by lia.
    replace (16 * hi + lo <? 128) with true by lia.
    rewrite land_7f, isURIReservedOrSharp_spec, bool_decide_eq_true_2 by (assumption || lia). reflexivity.
Qed.

(** A piece is one unit, or starts with a percent sign. *)
Lemma CodePiece_head h u : CodePiece h u ->
  (exists c, c <> 37 /\ h = [c] /\ u = [c]) \/ exists h', h = 37 :: h'.
Proof.
  intros [c Hc|cp h' Hs Hh Hr|cp h' Hr Hh Hn]; [left; eauto|right..].
  - assert (exists b bs, utf8 cp = b :: bs) as (b & bs & E) by (unfold utf8; repeat case_if; eauto).
    rewrite E in Hh. inversion Hh. eauto.
  - inversion Hh. eauto.
Qed.

Lemma decodeLoop_complete s r : CodeDecodes s r -> forall fuel acc,
  (length s <= fuel)%nat -> decodeLoop fuel noComponent s acc = Ret (acc ++ r).
Proof.
  induction 1 as [|h u s r Hp H IH]; intros fuel acc Hf; [destruct fuel; cbn; rewrite app_nil_r; reflexivity|].
  destruct (CodePiece_head _ _ Hp) as [(c & Hc & -> & ->)|(h' & ->)]; cbn [app] in *;
    (destruct fuel as [|fuel]; cbn [length] in Hf; [lia|]); cbn [decodeLoop].
  - rewrite (proj2 (Z.eqb_neq c 37) Hc). cbn [negb]. rewrite IH by lia. rewrite <- app_assoc. reflexivity.
  - cbn [Z.eqb Pos.eqb negb]. rewrite (decodeEscape_complete _ _ _ Hp).
    rewrite length_app in Hf. rewrite IH by lia. rewrite <- app_assoc. reflexivity.
Qed.

Lemma decodeLoop_sound fuel : forall s acc, (length s <= fuel)%nat ->
  match decodeLoop fuel noComponent s acc with
  | Ret r => exists u, r = acc ++ u /\ CodeDecodes s u
  | Throw e => e = URIError
  | Fuel => False
  end.
Proof.
  induction fuel as [|fuel IH]; intros [|t s] acc Hf; cbn [decodeLoop]; cbn [length] in Hf; try lia;
    try (exists []; rewrite app_nil_r; split; [reflexivity|constructor]).
  destruct (Z.eqb_spec t 37) as [->|Ht]; cbn [negb].
  - destruct (decodeEscape noComponent 37 s) as [[u s']|] eqn:E; [|reflexivity].
    apply decodeEscape_sound in E as (h & Eh & Hh & Hp).
    assert (length s' <= fuel)%nat.
    { apply (f_equal length) in Eh. rewrite length_app in Eh. cbn [length] in Eh. destruct h; [congruence|cbn in Eh; lia]. }
    specialize (IH s' (acc ++ u)). destruct (decodeLoop fuel noComponent s' (acc ++ u)); auto.
    destruct IH as (u' & -> & Hd); [assumption|]. exists (u ++ u'). rewrite app_assoc, Eh. split; [reflexivity|].
    constructor; assumption.
  - specialize (IH s (acc ++ [t])). destruct (decodeLoop fuel noComponent s (acc ++ [t])); auto with lia.
    destruct IH as (u & -> & Hd); [lia|]. exists ([t] ++ u). rewrite app_assoc. split; [reflexivity|].
    apply (Decodes_piece _ _ _ [t]); [constructor; exact Ht|exact Hd].
Qed.
End Decoding.

(** ** Against the language *)

Lemma unitsOfValue_utf16 v : 0 <= v <= 0x10FFFF -> unitsOfValue v = utf16 v.
Proof.
  intros Hv. unfold utf16. destruct (Z.ltb_spec v 0x10000) as [H|H]; [apply unitsOfValue_bmp; lia|].
  unfold unitsOfValue. replace (0x10000 <=? v) with true by lia.
  change 0x3ff with (2 ^ 10 - 1). rewrite !land_low, Z.shiftr_div_pow2 by lia.
  change (2 ^ 10) with 0x400. f_equal; [lia|]. f_equal. lia.
Qed.

(** Some piece of the text is the escape of a number past the last code point. *)
Definition escapes_past_unicode (text : list Z) : Prop :=
  exists pre h post cp, text = pre ++ h ++ post /\ Percents h (utf8 cp) /\ 0x10FFFF < cp <= 0x1FFFFF.

Lemma Decodes_code noComponent text r :
  Decodes 0x10FFFF utf16 noComponent text r -> Decodes 0x1FFFFF unitsOfValue noComponent text r.
Proof.
  induction 1 as [|h u s r Hp _ IH]; [constructor|]. constructor; [|exact IH].
  destruct Hp as [c Hc|cp h Hs Hh Hr|cp h Hr Hh Hn]; [constructor; exact Hc| |exact (Piece_reserved _ _ _ cp h Hr Hh Hn)].
  unfold scalar_below in Hs. rewrite <- unitsOfValue_utf16 by lia. constructor; [unfold scalar_below; lia|exact Hh|exact Hr].
Qed.

Lemma Decodes_language noComponent text r :
  Decodes 0x1FFFFF unitsOfValue noComponent text r ->
  Decodes 0x10FFFF utf16 noComponent text r \/ escapes_past_unicode text.
Proof.
  induction 1 as [|h u s r Hp _ [IH|(pre & h' & post & cp & -> & Hh & Hcp)]]; [left; constructor| |].
  - destruct Hp as [c Hc|cp h Hs Hh Hr|cp h Hr Hh Hn].
    + left. apply (Decodes_piece _ _ _ [c]); [constructor; exact Hc|exact IH].
    + destruct (Z.leb_spec cp 0x10FFFF) as [Hcp|Hcp].
      * left. constructor; [|exact IH]. unfold scalar_below in Hs. rewrite unitsOfValue_utf16 by lia.
        constructor; [unfold scalar_below; lia|exact Hh|exact Hr].
      * right. exists [], h, s, cp. unfold scalar_below in Hs. split_and!; [reflexivity|exact Hh|lia|lia].
    + left. constructor; [exact (Piece_reserved _ _ _ cp h Hr Hh Hn)|exact IH].
  - right. exists (h ++ pre), h', post, cp. rewrite <- app_assoc. auto.
Qed.

Lemma Decodes_length limit noComponent text r :
  Decodes limit unitsOfValue noComponent text r -> (length r <= length text)%nat.
Proof.
  induction 1 as [|h u s r Hp _ IH]; [reflexivity|]. rewrite !length_app.
  enough (length u <= length h)%nat by lia. destruct Hp as [c Hc|cp h Hs Hh Hr|cp h Hr Hh Hn]; [reflexivity| |reflexivity].
  rewrite (Percents_length _ _ Hh). assert (length (unitsOfValue cp) <= 2)%nat by (unfold unitsOfValue; case_if; cbn; lia).
  assert (1 <= length (utf8 cp))%nat by (unfold utf8; repeat case_if; cbn; lia). lia.
Qed.

Lemma decode_code text noComponent r :
  Z.of_nat (length text) <= STRING_MAXIMUM_LENGTH ->
  decode text noComponent = Ret r <-> Decodes 0x1FFFFF unitsOfValue noComponent text r.
Proof.
  intros Hmax. unfold decode, finalize. split.
  - pose proof (decodeLoop_sound noComponent (length text) text [] ltac:(lia)) as H.
    destruct (decodeLoop _ _ _ _) as [u|e|]; try discriminate. destruct H as (u' & -> & Hd). cbn [app].
    case_if; [discriminate|]. intros [= <-]. exact Hd.
  - intros Hd. rewrite (decodeLoop_complete _ _ _ Hd) by lia. cbn [app].
    apply Decodes_length in Hd. case_if; [to_prop; lia|reflexivity].
Qed.

Lemma decode_total text noComponent :
  Z.of_nat (length text) <= STRING_MAXIMUM_LENGTH ->
  (exists r, decode text noComponent = Ret r) \/ decode text noComponent = Throw URIError.
Proof.
  intros Hmax. pose proof (decodeLoop_sound noComponent (length text) text [] ltac:(lia)) as H.
  unfold decode. destruct (decodeLoop _ _ _ _) as [u|e|] eqn:E; [|subst e; right; reflexivity|contradiction].
  left. exists u. destruct H as (u' & -> & Hd). apply Decodes_length in Hd. cbn [app]. unfold finalize.
  case_if; [to_prop; lia|reflexivity].
Qed.

(** C20: on every text, [decode] is the Decode operation of the language, except for
    what it accepts too much.  Where Decode has an answer, [decode] has that answer;
    where [decode] has an answer, Decode has the same or the text holds the escape
    of a number past the last code point; and where [decode] has no answer, it
    throws a URIError. *)
Theorem decode_is_Decode text noComponent :
  Z.of_nat (length text) <= STRING_MAXIMUM_LENGTH ->
  (forall r, Decodes 0x10FFFF utf16 noComponent text r -> decode text noComponent = Ret r) /\
  (forall r, decode text noComponent = Ret r ->
     Decodes 0x10FFFF utf16 noComponent text r \/ escapes_past_unicode text) /\
  ((exists r, decode text noComponent = Ret r) \/ decode text noComponent = Throw URIError).
Proof.
  intros Hmax. split_and!.
  - intros r Hd. apply decode_code, Decodes_code, Hd. exact Hmax.
  - intros r Hr. apply Decodes_language, (decode_code _ _ _ Hmax), Hr.
  - apply decode_total, Hmax.
Qed.

Lemma decode_is_Decode_witness :
  decode (bytes "a%C3%a9%23") false = Ret [97; 0xE9; 35] /\
  (Decodes 0x10FFFF utf16 false (bytes "a%C3%a9%23") [97; 0xE9; 35] \/ escapes_past_unicode (bytes "a%C3%a9%23")).
Proof.
  split; [reflexivity|].
  exact (proj1 (proj2 (decode_is_Decode (bytes "a%C3%a9%23") false ltac:(vm_compute; discriminate)))
           [97; 0xE9; 35] ltac:(vm_compute; reflexivity)).
Defined.

(** The escapes of 0x110000, past the last code point, decode to U+10000; the
    language throws a URIError. *)
Lemma decode_past_unicode :
  decode (bytes "%F4%90%80%80") false = Ret (utf16 0x10000) /\
  decode (bytes "%F0%90%80%80") false = Ret (utf16 0x10000).
Proof. split; vm_compute; reflexivity. Qed.

(** ** [encode] is Encode *)

Lemma convertAndAppendCodeUnit_percent b : 0 <= b < 256 -> convertAndAppendCodeUnit b = percent b.
Proof.
  intros Hb.
  assert (H : forallb (fun i => nth i (convertAndAppendCodeUnit b) 0 =? nth i (percent b) 0) [1; 2]%nat = true).
  { apply (all_bytes (fun b => forallb (fun i => nth i (convertAndAppendCodeUnit b) 0 =? nth i (percent b) 0) [1; 2]%nat)
      ltac:(vm_compute; reflexivity) b Hb). }
  cbn [forallb nth] in H. to_prop. unfold convertAndAppendCodeUnit, percent in *. cbn [nth] in *. congruence.
Qed.

(** A field of bits, moved down by a division. *)
Lemma field_div v k n : 0 <= k -> 0 <= n -> 0 <= v ->
  Z.land v (Z.shiftl (2 ^ n - 1) k) ÷ 2 ^ k = v / 2 ^ k mod 2 ^ n.
Proof.
  intros Hk Hn Hv. rewrite land_field by lia. apply Z.quot_mul. lia.
Qed.

(** The text of a list of code points in UTF-16. *)
Definition utf16_text (cps : list Z) : list Z := concat (map utf16 cps).

Lemma field_6_0 t : 0 <= t -> Z.land t 0x3F = t mod 0x40.
Proof. intros Ht. change 0x3F with (2 ^ 6 - 1). apply land_low. lia. Qed.

Lemma field_6_6 t : 0 <= t -> Z.land t 0xFC0 ÷ 0x40 = t / 0x40 mod 0x40.
Proof. intros Ht. exact (field_div t 6 6 ltac:(lia) ltac:(lia) Ht). Qed.

Lemma field_5_6 t : 0 <= t -> Z.land t 0x7C0 ÷ 0x40 = t / 0x40 mod 0x20.
Proof. intros Ht. exact (field_div t 6 5 ltac:(lia) ltac:(lia) Ht). Qed.

Lemma field_4_12 t : 0 <= t -> Z.land t 0xF000 ÷ 0x1000 = t / 0x1000 mod 0x10.
Proof. intros Ht. exact (field_div t 12 4 ltac:(lia) ltac:(lia) Ht). Qed.

Lemma field_6_12 t : 0 <= t -> Z.land t 0x3F000 ÷ 0x1000 = t / 0x1000 mod 0x40.
Proof. intros Ht. exact (field_div t 12 6 ltac:(lia) ltac:(lia) Ht). Qed.

Lemma field_3_18 t : 0 <= t -> Z.land t 0x1C0000 ÷ 0x40000 = t / 0x40000 mod 8.
Proof. intros Ht. exact (field_div t 18 3 ltac:(lia) ltac:(lia) Ht). Qed.

Section Encoding.
Context (noComponent : bool).

Lemma encodeLoop_unescaped t rest acc :
  inUnescapedSet noComponent t = true ->
  encodeLoop noComponent (t :: rest) acc = encodeLoop noComponent rest (acc ++ [t]).
Proof. intros H. cbn [encodeLoop]. rewrite unescapedSet_spec, H. reflexivity. Qed.

(** Only ASCII is left as it is. *)
Lemma unescaped_ascii t : 0x80 <= t -> inUnescapedSet noComponent t = false.
Proof.
  intros Ht. rewrite <- unescapedSet_spec. unfold isDecimalDigit, isURIAlpha, isURIMark, isURIReservedOrSharp.
  repeat match goal with
  | |- context [t =? ?b] => replace (t =? b) with false by lia
  | |- context [t <=? ?b] => replace (t <=? b) with false by lia
  end. rewrite ?andb_false_r. reflexivity.
Qed.

(** One code point, whichever of the branches it takes. *)
Lemma encodeLoop_point cp rest acc : scalar cp ->
  encodeLoop noComponent (utf16 cp ++ rest) acc = encodeLoop noComponent rest (acc ++ encodePoint noComponent cp).
Proof.
  unfold scalar, scalar_below. intros [Hcp Hs]. unfold encodePoint.
  destruct (inUnescapedSet noComponent cp) eqn:Eu.
  { assert (cp < 0x80) by (destruct (Z.ltb_spec cp 0x80); [assumption|rewrite unescaped_ascii in Eu by lia; discriminate]).
    unfold utf16. replace (cp <? 0x10000) with true by lia. apply encodeLoop_unescaped, Eu. }
  unfold utf16, utf8. destruct (Z.ltb_spec cp 0x10000) as [Hb|Hb].
  - cbn [app encodeLoop]. rewrite unescapedSet_spec, Eu. 
    destruct (Z.ltb_spec cp 0x80).
    { replace (cp <=? 0x7F) with true by lia. cbn [map concat]. rewrite app_nil_r, convertAndAppendCodeUnit_percent by lia. reflexivity. }
    replace (cp <=? 0x7F) with false by lia.
    destruct (Z.ltb_spec cp 0x800).
    { replace (0x80 <=? cp) with true by lia. replace (cp <=? 0x7FF) with true by lia. cbn [andb map concat].
      rewrite field_5_6, field_6_0, (Z.mod_small (cp / 0x40)) by lia.
      rewrite !convertAndAppendCodeUnit_percent, app_nil_r by lia. reflexivity. }
    replace (cp <=? 0x7FF) with false by lia. rewrite andb_false_r.
    replace (((0x800 <=? cp) && (cp <=? 0xD7FF)) || (0xE000 <=? cp)) with true by (compare_cases; lia).
    cbn [map concat]. rewrite field_4_12, field_6_6, field_6_0, (Z.mod_small (cp / 0x1000)) by lia.
    rewrite !convertAndAppendCodeUnit_percent, app_nil_r by lia. reflexivity.
  - replace (cp <? 0x80) with false by lia. replace (cp <? 0x800) with false by lia.
    cbn [app encodeLoop]. set (hi := 0xD800 + (cp - 0x10000) / 0x400). set (lo := 0xDC00 + (cp - 0x10000) mod 0x400).
    rewrite unescapedSet_spec.
    assert (Eh : inUnescapedSet noComponent hi = false) by (apply unescaped_ascii; lia).
    rewrite Eh. replace (hi <=? 0x7F) with false by lia. replace (hi <=? 0x7FF) with false by lia.
    replace (hi <=? 0xD7FF) with false by lia. replace (0xE000 <=? hi) with false by lia.
    replace (0xD800 <=? hi) with true by lia. replace (hi <=? 0xDBFF) with true by lia.
    replace (0xDC00 <=? lo) with true by lia. replace (lo <=? 0xDFFF) with true by lia.
    rewrite ?andb_false_r. cbn [andb orb map concat].
    replace ((hi - 0xD800) * 0x400 + (lo - 0xDC00) + 0x10000) with cp by lia.
    rewrite field_3_18, field_6_12, field_6_6, field_6_0, (Z.mod_small (cp / 0x40000)) by lia.
    rewrite !convertAndAppendCodeUnit_percent, app_nil_r by lia. reflexivity.
Qed.

Lemma encodeLoop_points cps rest acc : Forall scalar cps ->
  encodeLoop noComponent (utf16_text cps ++ rest) acc
  = encodeLoop noComponent rest (acc ++ concat (map (encodePoint noComponent) cps)).
Proof.
  intros H. revert acc. induction H as [|cp cps Hcp _ IH]; intros acc; [cbn; rewrite app_nil_r; reflexivity|].
  unfold utf16_text in *. cbn [map concat]. rewrite <- app_assoc, encodeLoop_point, IH, <- app_assoc by exact Hcp. reflexivity.
Qed.

(** A surrogate without its other half stops the loop. *)
Lemma encodeLoop_lone t rest acc :
  0xD800 <= t <= 0xDFFF -> ~ (t <= 0xDBFF /\ exists t2 rest', rest = t2 :: rest' /\ 0xDC00 <= t2 <= 0xDFFF) ->
  encodeLoop noComponent (t :: rest) acc = Throw URIError.
Proof.
  intros Ht Hlone. cbn [encodeLoop]. rewrite unescapedSet_spec, unescaped_ascii by lia.
  replace (t <=? 0x7F) with false by lia. replace (t <=? 0x7FF) with false by lia.
  replace (t <=? 0xD7FF) with false by lia. replace (0xE000 <=? t) with false by lia.
  replace (0xD800 <=? t) with true by lia. rewrite ?andb_false_r. cbn [andb orb].
  destruct (Z.leb_spec t 0xDBFF) as [Hd|Hd]; [|reflexivity]. destruct rest as [|t2 rest]; [reflexivity|].
  destruct (Z.leb_spec 0xDC00 t2), (Z.leb_spec t2 0xDFFF); try reflexivity. exfalso. apply Hlone. eauto 6.
Qed.

Lemma encodeLoop_total n text : (length text <= n)%nat -> Forall is_unit text ->
  (exists cps, Forall scalar cps /\ text = utf16_text cps) \/
  (forall acc, encodeLoop noComponent text acc = Throw URIError).
Proof.
  revert text. induction n as [|n IH]; intros [|t rest] Hl Ht; cbn [length] in Hl; try lia;
    try (left; exists []; split; [constructor|reflexivity]).
  assert (Hpoint : forall cp rest', scalar cp -> t :: rest = utf16 cp ++ rest' -> Forall is_unit rest' -> (length rest' <= n)%nat ->
    (exists cps, Forall scalar cps /\ t :: rest = utf16_text cps) \/
    (forall acc, encodeLoop noComponent (t :: rest) acc = Throw URIError)).
  { intros cp rest' Hcp E Hu Hl'. rewrite E. destruct (IH rest' Hl' Hu) as [(cps & Hc & ->)|Hthrow].
    - left. exists (cp :: cps). split; [constructor; assumption|reflexivity].
    - right. intros acc. rewrite encodeLoop_point by exact Hcp. apply Hthrow. }
  apply Forall_cons_iff in Ht as [Ht Hrest]. unfold is_unit in Ht.
  destruct (decide (0xD800 <= t <= 0xDFFF)) as [Hs|Hs].
  - destruct (decide (t <= 0xDBFF)) as [Hd|Hd]; [|right; intros; apply encodeLoop_lone; lia].
    destruct rest as [|t2 rest]; [right; intros; apply encodeLoop_lone; [lia|]; intros (_ & ? & ? & ? & _); discriminate|].
    destruct (decide (0xDC00 <= t2 <= 0xDFFF)) as [H2|H2].
    + apply (Hpoint ((t - 0xD800) * 0x400 + (t2 - 0xDC00) + 0x10000) rest); unfold scalar, scalar_below; try lia.
      * unfold utf16. replace (_ <? 0x10000) with false by lia. cbn [app]. f_equal; [lia|]. f_equal. lia.
      * apply Forall_cons_iff in Hrest. tauto.
      * cbn [length] in Hl. lia.
    + right. intros. apply encodeLoop_lone; [lia|]. intros (_ & t3 & r3 & E & H3). simplify_eq. lia.
  - apply (Hpoint t rest); [unfold scalar, scalar_below; lia| |exact Hrest|lia].
    unfold utf16. replace (t <? 0x10000) with true by lia. reflexivity.
Qed.
End Encoding.

Lemma encode_points cps noComponent : Forall scalar cps ->
  encode (utf16_text cps) noComponent = Ret (concat (map (encodePoint noComponent) cps)).
Proof.
  intros H. unfold encode. rewrite <- (app_nil_r (utf16_text cps)), encodeLoop_points by exact H. reflexivity.
Qed.

(** ** The round trip *)

Lemma percent_Percents b : 0 <= b < 256 -> Percents (percent b) [b].
Proof.
  intros Hb. unfold percent.
  assert (H : forall d, 0 <= d < 16 -> hexValue (nth (Z.to_nat d) (bytes "0123456789ABCDEF") 0) = Some d).
  { intros d Hd. pose proof (all_bytes (fun d => (16 <=? d) || match hexValue (nth (Z.to_nat d) (bytes "0123456789ABCDEF") 0) with
      Some v => v =? d | None => false end) ltac:(vm_compute; reflexivity) d ltac:(lia)) as E.
    cbv beta in E. apply orb_true_iff in E as [E|E]; [to_prop; lia|]. destruct (hexValue _); [|discriminate]. to_prop. congruence. }
  replace [b] with [16 * (b / 16) + b mod 16] by (f_equal; lia). constructor; [apply H; lia|apply H; lia|constructor].
Qed.

Lemma percents_Percents bs : Forall (fun b => 0 <= b < 256) bs -> Percents (concat (map percent bs)) bs.
Proof.
  induction 1 as [|b bs Hb _ IH]; [constructor|]. apply (Percents_app _ [b]); [apply percent_Percents, Hb|exact IH].
Qed.

Lemma utf8_bytes cp : 0 <= cp <= 0x1FFFFF -> Forall (fun b => 0 <= b < 256) (utf8 cp).
Proof. intros H. unfold utf8. repeat case_if; to_prop; repeat constructor; lia. Qed.

Lemma encodePoint_Piece noComponent cp : scalar cp ->
  Piece 0x10FFFF utf16 noComponent (encodePoint noComponent cp) (utf16 cp).
Proof.
  intros Hcp. pose proof Hcp as [Hr _]. unfold encodePoint. destruct (inUnescapedSet noComponent cp) eqn:E.
  - assert (cp < 0x80) by (destruct (Z.ltb_spec cp 0x80); [assumption|rewrite unescaped_ascii in E by lia; discriminate]).
    unfold utf16. replace (cp <? 0x10000) with true by lia. constructor. intros ->.
    destruct noComponent; vm_compute in E; discriminate.
  - constructor; [exact Hcp|apply percents_Percents, utf8_bytes; lia|].
    destruct noComponent; [|reflexivity]. rewrite <- isURIReservedOrSharp_spec.
    rewrite <- unescapedSet_spec in E. apply orb_false_elim in E as [_ E]. exact E.
Qed.

(** C21: [encode] gives the escapes of the UTF-8 form of the text, with the units of
    the unescaped set left as they are, and throws a URIError exactly for the texts
    that are not well-formed UTF-16. *)
Theorem encode_is_Encode text noComponent : Forall is_unit text ->
  (forall cps, Forall scalar cps -> text = utf16_text cps ->
     encode text noComponent = Ret (concat (map (encodePoint noComponent) cps))) /\
  (encode text noComponent = Throw URIError <-> ~ exists cps, Forall scalar cps /\ text = utf16_text cps).
Proof.
  intros Ht. split; [intros cps Hc ->; apply encode_points, Hc|]. split.
  - intros E (cps & Hc & ->). rewrite encode_points in E by exact Hc. discriminate.
  - intros Hn. destruct (encodeLoop_total noComponent _ text ltac:(reflexivity) Ht) as [H|H]; [contradiction|apply H].
Qed.

Lemma encode_is_Encode_witness :
  encode [97; 32; 0xD83D; 0xDE00] false = Ret (bytes "a%20%F0%9F%98%80") /\
  (encode [97; 0xDE00] false = Throw URIError <-> ~ exists cps, Forall scalar cps /\ [97; 0xDE00] = utf16_text cps).
Proof.
  split.
  - exact (proj1 (encode_is_Encode [97; 32; 0xD83D; 0xDE00] false ltac:(repeat constructor; lia || discriminate))
      [97; 32; 0x1F600] ltac:(repeat constructor; unfold scalar, scalar_below; lia) ltac:(reflexivity)).
  - exact (proj2 (encode_is_Encode [97; 0xDE00] false ltac:(repeat constructor; lia || discriminate))).
Defined.

(** Decoding inverts encoding: whatever [encodeURI] or [encodeURIComponent] gives
    for a text decodes to the text with the function of the same kind. *)
Theorem uri_roundtrip text noComponent escaped : Forall is_unit text ->
  encode text noComponent = Ret escaped -> Z.of_nat (length escaped) <= STRING_MAXIMUM_LENGTH ->
  decode escaped noComponent = Ret text.
Proof.
  intros Ht E Hmax. apply decode_code; [exact Hmax|]. apply Decodes_code.
  destruct (encodeLoop_total noComponent _ text ltac:(reflexivity) Ht) as [(cps & Hc & ->)|H];
    [|unfold encode in E; rewrite H in E; discriminate].
  rewrite encode_points in E by exact Hc. injection E as <-. clear Ht Hmax.
  induction Hc as [|cp cps Hcp _ IH]; [constructor|]. unfold utf16_text in *. cbn [map concat].
  constructor; [apply encodePoint_Piece, Hcp|exact IH].
Qed.

Lemma uri_roundtrip_witness :
  encode [0x4E2D; 0x26; 0x25] false = Ret (bytes "%E4%B8%AD%26%25") /\
  decode (bytes "%E4%B8%AD%26%25") false = Ret [0x4E2D; 0x26; 0x25].
Proof.
  split; [reflexivity|]. apply uri_roundtrip; [repeat constructor; lia || discriminate|reflexivity|vm_compute; discriminate].
Defined.

(** * [escape] and [unescape]

    [unescape] inverts [escape], and what [unescape] gets wrong about U+0080. *)

(** ** Digits *)

(** A digit that [escape] prints, as [unescape] reads it. *)
Lemma hexChar_reads d : 0 <= d < 16 ->
  isHexDig (hexChar d) = true /\ hexDigitValue (hexChar d) = d /\ hexChar d <> 117.
Proof.
  intros Hd. pose proof (all_bytes (fun d => (16 <=? d) ||
    (isHexDig (hexChar d) && (hexDigitValue (hexChar d) =? d) && negb (hexChar d =? 117)))
    ltac:(vm_compute; reflexivity) d ltac:(lia)) as H.
  cbv beta in H. apply orb_true_iff in H as [H|H]; to_prop; [lia|tauto].
Qed.

Lemma hex2char_digits d1 d2 : 0 <= d1 < 16 -> 0 <= d2 < 16 ->
  hex2char (hexChar d1) (hexChar d2) = 16 * d1 + d2.
Proof.
  intros H1 H2. unfold hex2char.
  destruct (hexChar_reads d1 H1) as (_ & -> & _), (hexChar_reads d2 H2) as (_ & -> & _).
  change 0xFFFF with (2 ^ 16 - 1). rewrite land_low by lia.
  rewrite Z.mod_small by (rewrite Z.shiftl_mul_pow2 by lia; lia). rewrite lor_shiftl_add by lia. lia.
Qed.

Lemma digit_field t k : 0 <= k -> Z.shiftr (Z.land t (Z.shiftl 15 k)) k = t / 2 ^ k mod 16.
Proof.
  intros Hk. change 15 with (2 ^ 4 - 1). rewrite land_field, Z.shiftr_div_pow2, Z.div_mul by lia. reflexivity.
Qed.

Lemma char2hex_digits t : 0 <= t < 256 -> char2hex t = [hexChar (t / 16); hexChar (t mod 16)].
Proof.
  intros Ht. unfold char2hex. change 0xF0 with (Z.shiftl 15 4). rewrite (digit_field t 4) by lia.
  replace (Z.land t 0x0F) with (t mod 16) by (symmetry; exact (land_low t 4 ltac:(lia))).
  do 2 f_equal. change (2 ^ 4) with 16. lia.
Qed.

Lemma char2hex4digit_digits t : is_unit t ->
  char2hex4digit t = [hexChar (t / 4096); hexChar (t / 256 mod 16); hexChar (t / 16 mod 16); hexChar (t mod 16)].
Proof.
  unfold is_unit. intros Ht. unfold char2hex4digit. cbn [map].
  change (Z.shiftr 0xF000 (0 * 4)) with (Z.shiftl 15 12). change (Z.shiftr 0xF000 (1 * 4)) with (Z.shiftl 15 8).
  change (Z.shiftr 0xF000 (2 * 4)) with (Z.shiftl 15 4). change (Z.shiftr 0xF000 (3 * 4)) with (Z.shiftl 15 0).
  change (12 - 0 * 4) with 12. change (12 - 1 * 4) with 8. change (12 - 2 * 4) with 4. change (12 - 3 * 4) with 0.
  rewrite !digit_field by lia. repeat (f_equal; try (cbn; lia)).
Qed.

(** ** The round trip *)

(** One unit that [escape] printed, at the front of a text that [unescape] reads. *)
Lemma unescapeLoop_unit t rest fuel got R : is_unit t ->
  (length (escapeUnit t ++ rest) <= fuel)%nat ->
  exists fuel', (length rest <= fuel')%nat /\
    unescapeLoop fuel (escapeUnit t ++ rest) got R
    = unescapeLoop fuel' rest (if 128 <? t then true else got) (R ++ [t]).
Proof.
  unfold is_unit. intros Ht Hf. destruct fuel as [|fuel].
  { unfold escapeUnit in Hf. destruct (isEscapeUnreserved t), (t <? 256); cbn in Hf; lia. }
  unfold escapeUnit in *. destruct (isEscapeUnreserved t) eqn:Eu; [|destruct (Z.ltb_spec t 256) as [H8|H8]].
  - exists fuel. cbn [app length] in *. split; [lia|]. cbn [unescapeLoop].
    destruct (Z.eqb_spec t 37) as [->|]; [discriminate|reflexivity].
  - rewrite char2hex_digits in * by lia. cbn [app length] in *. exists fuel. split; [lia|].
    cbn [unescapeLoop Z.eqb Pos.eqb]. unfold unescapeAt.
    destruct (hexChar_reads (t / 16) ltac:(lia)) as (H1 & _ & H117), (hexChar_reads (t mod 16) ltac:(lia)) as (H2 & _ & _).
    rewrite H1, H2, (proj2 (Z.eqb_neq _ 117) H117), hex2char_digits by lia.
    replace (16 * (t / 16) + t mod 16) with t by lia. cbn [length andb].
    destruct (Nat.leb_spec 6 (S (S (S (length rest))))) as [H6|H6].
    + destruct rest as [|a [|b [|c rest]]]; cbn [length] in H6; try lia. reflexivity.
    + reflexivity.
  - rewrite char2hex4digit_digits in * by (unfold is_unit; lia). cbn [app length] in *. exists fuel. split; [lia|].
    cbn [unescapeLoop Z.eqb Pos.eqb]. unfold unescapeAt. cbn [length Nat.leb Z.eqb Pos.eqb].
    destruct (hexChar_reads (t / 4096) ltac:(lia)) as (H1 & _), (hexChar_reads (t / 256 mod 16) ltac:(lia)) as (H2 & _),
      (hexChar_reads (t / 16 mod 16) ltac:(lia)) as (H3 & _), (hexChar_reads (t mod 16) ltac:(lia)) as (H4 & _).
    rewrite H1, H2, H3, H4, !hex2char_digits by lia. cbn [andb].
    replace (Z.lor _ _) with t; [reflexivity|]. change 0xFFFF with (2 ^ 16 - 1). rewrite land_low by lia.
    rewrite Z.mod_small by (rewrite Z.shiftl_mul_pow2 by lia; lia). rewrite lor_shiftl_add by lia. lia.
Qed.

Lemma unescapeLoop_text text : Forall is_unit text -> forall fuel got R,
  (length (concat (map escapeUnit text)) <= fuel)%nat ->
  unescapeLoop fuel (concat (map escapeUnit text)) got R
  = Ret (got || existsb (fun u => 128 <? u) text, R ++ text).
Proof.
  induction 1 as [|t text Ht _ IH]; intros fuel got R Hf.
  { cbn. rewrite app_nil_r, orb_false_r. destruct fuel; reflexivity. }
  cbn [map concat] in *. destruct (unescapeLoop_unit t _ fuel got R Ht Hf) as (fuel' & Hf' & ->).
  rewrite IH, <- app_assoc by exact Hf'. cbn [existsb app]. destruct (128 <? t), got; reflexivity.
Qed.

Lemma escapeLoop_text text R :
  Z.of_nat (length (R ++ concat (map escapeUnit text))) <= STRING_MAXIMUM_LENGTH ->
  escapeLoop text R = Ret (R ++ concat (map escapeUnit text)).
Proof.
  revert R. induction text as [|t text IH]; intros R Hmax; cbn [escapeLoop map concat]; [rewrite app_nil_r; reflexivity|].
  cbn [map concat] in Hmax. rewrite app_assoc in *. rewrite IH by exact Hmax.
  rewrite length_app in Hmax. case_if; [to_prop; lia|reflexivity].
Qed.

Lemma escapeLoop_long text R : Z.of_nat (length R) <= STRING_MAXIMUM_LENGTH ->
  STRING_MAXIMUM_LENGTH < Z.of_nat (length (R ++ concat (map escapeUnit text))) ->
  escapeLoop text R = Throw RangeError.
Proof.
  revert R. induction text as [|t text IH]; intros R Hr Hmax; cbn [escapeLoop map concat] in *.
  { rewrite app_nil_r in Hmax. lia. }
  rewrite app_assoc in Hmax. case_if; [reflexivity|]. to_prop. apply IH; assumption.
Qed.

(** [escape] gives every text its escaped form, or throws a RangeError when that
    form is longer than a string may be; and [unescape] of an escaped text is the
    text, stored as 16-bit units exactly when one of them is above 128. *)
Theorem escape_roundtrip text : Forall is_unit text ->
  let escaped := concat (map escapeUnit text) in
  (Z.of_nat (length escaped) <= STRING_MAXIMUM_LENGTH -> builtinEscape text = Ret escaped) /\
  (STRING_MAXIMUM_LENGTH < Z.of_nat (length escaped) -> builtinEscape text = Throw RangeError) /\
  exists s, builtinUnescape escaped = Ret s /\ textOf s = text /\
    (s = UTF16String text <-> Exists (fun u => 128 < u) text).
Proof.
  intros Ht escaped. split_and!.
  - intros Hmax. apply (escapeLoop_text text []), Hmax.
  - intros Hmax. apply (escapeLoop_long text []); [discriminate|exact Hmax].
  - unfold builtinUnescape. subst escaped. rewrite unescapeLoop_text by (exact Ht || lia). cbn [orb app].
    assert (Hex : existsb (fun u => 128 <? u) text = true <-> Exists (fun u => 128 < u) text).
    { rewrite List.existsb_exists, List.Exists_exists. split; intros (u & Hin & Hu); exists u; split; auto; to_prop; lia. }
    destruct (existsb _ text) eqn:E; eexists; (split; [reflexivity|]); cbn [textOf]; (split; [try reflexivity|]).
    + tauto.
    + rewrite <- (map_id text) at 2. apply List.map_ext_in. intros u Hu. apply Z.mod_small.
      pose proof (proj1 (List.Forall_forall _ _) Ht u Hu) as Hr. unfold is_unit in Hr.
      destruct (Z.ltb_spec 128 u); [|lia]. exfalso. apply diff_true_false. symmetry. rewrite <- E.
      apply List.existsb_exists. exists u. split; [exact Hu|]. apply Z.ltb_lt. lia.
    + split; [discriminate|]. intros H. apply Hex in H. discriminate.
Qed.

Lemma escape_roundtrip_witness :
  concat (map escapeUnit [0x4E2D; 32; 97]) = bytes "%u4E2D%20a" /\
  exists s, builtinUnescape (concat (map escapeUnit [0x4E2D; 32; 97])) = Ret s /\ textOf s = [0x4E2D; 32; 97] /\
    (s = UTF16String [0x4E2D; 32; 97] <-> Exists (fun u => 128 < u) [0x4E2D; 32; 97]).
Proof.
  split; [reflexivity|].
  exact (proj2 (proj2 (escape_roundtrip [0x4E2D; 32; 97] ltac:(repeat constructor; lia || discriminate)))).
Defined.

(** The flag misses U+0080, which is not ASCII: its string is made of [char]s. *)
Lemma unescape_80 : builtinUnescape (bytes "%80") = Ret (ASCIIString [0x80]).
Proof. vm_compute. reflexivity. Qed.
