(* ===== verification/Utf8.v ===== *)
(** * UTF-8, UTF-16 and the contents of strings ([runtime/String.cpp], [String.h])

    Conversions between bytes and UTF-16 units, and the searches and comparisons of
    strings on their text.  The decoder reads past the end of its buffer, so a
    buffer is what memory holds from its address on, with a length. *)

From S2P Require Import Prelude LexChars Uri UriSpec.
Local Open Scope Z_scope.

Definition REPLACEMENT : Z := 0xFFFD.

(** ** Reading UTF-8 *)

(** Memory from an address on, byte by byte. *)
Definition Memory := nat -> Z.

Definition offsetsFromUTF8 : list Z := [0; 0x3080; 0xE2080; 0x3C82080; 0xFA082080; 0x82082080].

(** The number of bytes that the bytes at [sequence] announce and continue; each
    further byte is read when the ones before did not decide. *)
Definition sequenceLengthAt (mem : Memory) (sequence : nat) : option nat :=
  let sch := mem sequence in
  if Z.land sch 0x80 =? 0 then Some 1%nat
  else
    let ch2 := mem (sequence + 1)%nat in
    if (Z.land sch 0xE0 =? 0xC0) && (Z.land ch2 0xC0 =? 0x80) then Some 2%nat
    else
      let ch3 := mem (sequence + 2)%nat in
      if (Z.land sch 0xF0 =? 0xE0) && (Z.land ch2 0xC0 =? 0x80) && (Z.land ch3 0xC0 =? 0x80) then Some 3%nat
      else
        let ch4 := mem (sequence + 3)%nat in
        if (Z.land sch 0xF8 =? 0xF0) && (Z.land ch2 0xC0 =? 0x80) && (Z.land ch3 0xC0 =? 0x80)
           && (Z.land ch4 0xC0 =? 0x80) then Some 4%nat
        else None.

(** The cases of the switch, from the one for [n] bytes down: [ch += *sequence++],
    and a shift before the next. *)
Fixpoint addBytes (mem : Memory) (sequence n : nat) (ch : Z) : Z :=
  match n with
  | O => ch
  | S n' =>
    let ch := to_unsigned 32 (ch + mem sequence) in
    match n' with
    | O => ch
    | S _ => addBytes mem (sequence + 1) n' (to_unsigned 32 (Z.shiftl ch 6))
    end
  end.

(** The character and the number of bytes of it; [None] for [valid == false], where
    the pointer moves on by one. *)
Definition readUTF8Sequence (mem : Memory) (sequence : nat) : option (Z * nat) :=
  match sequenceLengthAt mem sequence with
  | None => None
  | Some n =>
    Some (to_unsigned 32 (addBytes mem sequence n 0 - nth (n - 1) offsetsFromUTF8 0), n)
  end.

(** One turn of the loop of [utf8StringToUTF16StringNonGC]: what is appended, and
    where [source] is after it. *)
Definition utf8Turn (mem : Memory) (source : nat) : list Z * nat :=
  match readUTF8Sequence mem source with
  | None => ([REPLACEMENT], (source + 1)%nat)
  | Some (ch, charlen) =>
    let after := (source + charlen)%nat in
    if ch <=? 0xffff then
      if Z.land ch 0xfffff800 =? 0xd800 then ([REPLACEMENT], (after - (charlen - 1))%nat)
      else ([ch], after)
    else if to_unsigned 32 (ch - 0x10000) <=? 0xfffff then
      ([to_unsigned 16 (Z.shiftr ch 10 + 0xd7c0); Z.lor (Z.land ch 0x3ff) 0xdc00], after)
    else ([REPLACEMENT], (after - (charlen - 1))%nat)
  end.

Fixpoint utf8Loop (fuel : nat) (mem : Memory) (len source : nat) (str : list Z) : option (list Z) :=
  if (source <? len)%nat then
    match fuel with
    | O => None
    | S fuel =>
      match utf8Turn mem source with
      | (units, source) => utf8Loop fuel mem len source (str ++ units)
      end
    end
  else Some str.

Definition utf8StringToUTF16StringNonGC (buf : Memory) (len : nat) : option (list Z) :=
  utf8Loop len buf len 0 [].

(** ** Writing UTF-8 and UTF-16 *)

(** The bytes that are written, cast to [char]; the terminating NUL is left out. *)
Fixpoint utf32ToUtf8 (fuel : nat) (uc : Z) : list Z :=
  let char z := z mod 256 in
  if uc <=? 0x7f then [char uc]
  else if uc <=? 0x7ff then [char (0xc0 + uc / 2 ^ 6); char (0x80 + uc mod 2 ^ 6)]
  else if uc <=? 0xffff then
    [char (0xe0 + uc / 2 ^ 12); char (0x80 + uc / 2 ^ 6 mod 2 ^ 6); char (0x80 + uc mod 2 ^ 6)]
  else if uc <=? 0x1fffff then
    [char (0xf0 + uc / 2 ^ 18); char (0x80 + uc / 2 ^ 12 mod 2 ^ 12); char (0x80 + uc / 2 ^ 6 mod 2 ^ 6);
     char (0x80 + uc mod 2 ^ 6)]
  else if uc <=? 0x3ffffff then
    [char (0xf8 + uc / 2 ^ 24); char (0x80 + uc / 2 ^ 18 mod 2 ^ 18); char (0x80 + uc / 2 ^ 12 mod 2 ^ 12);
     char (0x80 + uc / 2 ^ 6 mod 2 ^ 6); char (0x80 + uc mod 2 ^ 6)]
  else if uc <=? 0x7fffffff then
    [char (0xfc + uc / 2 ^ 30); char (0x80 + uc / 2 ^ 24 mod 2 ^ 24); char (0x80 + uc / 2 ^ 18 mod 2 ^ 18);
     char (0x80 + uc / 2 ^ 12 mod 2 ^ 12); char (0x80 + uc / 2 ^ 6 mod 2 ^ 6); char (0x80 + uc mod 2 ^ 6)]
  else match fuel with O => [] | S fuel => utf32ToUtf8 fuel REPLACEMENT end.

Definition utf32ToUtf16 (i : Z) : list Z :=
  if i <=? 0xffff then
    if (0xd800 <=? i) && (i <=? 0xdfff) then [REPLACEMENT] else [Z.land i 0xffff]
  else if i <=? 0x10ffff then
    let i := i - 0x10000 in [Z.lor 0xd800 (Z.shiftr i 10); Z.lor 0xdc00 (Z.land i 0x3ff)]
  else [REPLACEMENT].

Definition U16_IS_LEAD (c : Z) : bool := Z.land c 0xfffffc00 =? 0xd800.
Definition U16_IS_TRAIL (c : Z) : bool := Z.land c 0xfffffc00 =? 0xdc00.
Definition U16_SURROGATE_OFFSET : Z := Z.shiftl 0xd800 10 + 0xdc00 - 0x10000.
Definition U16_GET_SUPPLEMENTARY (lead trail : Z) : Z := Z.shiftl lead 10 + trail - U16_SURROGATE_OFFSET.

(** [StringBufferAccessData::toUTF8String] on the units of the string; the option is
    [ReplaceInvalidUtf8] or none. *)
Fixpoint toUTF8String (replaceInvalidUtf8 : bool) (text : list Z) : list Z :=
  match text with
  | [] => []
  | ch :: rest =>
    if ch <? 0x80 then ch :: toUTF8String replaceInvalidUtf8 rest
    else if U16_IS_LEAD ch then
      match rest with
      | [] => utf32ToUtf8 1 (if replaceInvalidUtf8 then REPLACEMENT else ch)
      | c2 :: rest' =>
        if U16_IS_TRAIL c2 then
          utf32ToUtf8 1 (U16_GET_SUPPLEMENTARY ch c2) ++ toUTF8String replaceInvalidUtf8 rest'
        else
          utf32ToUtf8 1 (if replaceInvalidUtf8 then REPLACEMENT else ch)
            ++ toUTF8String replaceInvalidUtf8 rest
      end
    else
      utf32ToUtf8 1 (if replaceInvalidUtf8 && U16_IS_TRAIL ch then REPLACEMENT else ch)
        ++ toUTF8String replaceInvalidUtf8 rest
  end.

(** [Latin1String::toUTF8StringData]. *)
Definition latin1ToUTF8 (text : list Z) : list Z :=
  concat (map (fun ch => if ch <? 0x80 then [ch] else utf32ToUtf8 1 ch) text).

(** ** Making strings *)

Definition isAllASCII8 (buf : Memory) (len : nat) : bool :=
  forallb (fun i => Z.land (buf i) 0x80 =? 0) (seq 0 len).

(** [String::fromUTF8]: the text of the string. *)
Definition fromUTF8 (src : Memory) (len : nat) (maybeASCII : bool) : option (list Z) :=
  if maybeASCII && isAllASCII8 src len then Some (map src (seq 0 len))
  else utf8StringToUTF16StringNonGC src len.

Definition fromCharCode (code : Z) : list Z :=
  if code <? 128 then [code]
  else if code <? 0x10000 then [code]
  else [to_unsigned 16 (0xD800 + Z.shiftr (code - 0x10000) 10); to_unsigned 16 (0xDC00 + Z.land (code - 0x10000) 1023)].

(** * What the UTF-8 conversions promise

    Whatever bytes are read, well-formed UTF-16 comes out, and of valid UTF-8 the
    right one; and the bytes that are written are read back, up to U+3FFFF. *)

(** ** Reading *)

Definition is_bytes (mem : Memory) : Prop := forall i, 0 <= mem i < 256.

(** The text [l] lies in memory at [source]. *)
Definition holds_at (mem : Memory) (source : nat) (l : list Z) : Prop :=
  forall i b, l !! i = Some b -> mem (source + i)%nat = b.

Lemma holds_at_app mem source l l' :
  holds_at mem source (l ++ l') -> holds_at mem source l /\ holds_at mem (source + length l) l'.
Proof.
  intros H. split; intros i b Hi; [apply H, lookup_app_l_Some, Hi|].
  rewrite <- Nat.add_assoc. apply H. rewrite lookup_app_r by lia. rewrite <- Hi. f_equal. lia.
Qed.

Lemma land_byte m v lo hi : 
  forallb (fun n => Bool.eqb (Z.land (Z.of_nat n) m =? v) ((lo <=? Z.of_nat n) && (Z.of_nat n <? hi))) (seq 0 256) = true ->
  forall b, 0 <= b < 256 -> (Z.land b m =? v) = ((lo <=? b) && (b <? hi)).
Proof.
  intros H b Hb. apply eqb_prop.
  exact (all_bytes (fun b => Bool.eqb (Z.land b m =? v) ((lo <=? b) && (b <? hi))) H b Hb).
Qed.

Definition isTail (b : Z) : bool := (0x80 <=? b) && (b <? 0xC0).

(** The tests of [readUTF8Sequence] as ranges of bytes. *)
Lemma sequenceLengthAt_ranges mem s : is_bytes mem ->
  sequenceLengthAt mem s =
  let b := mem s in
  if b <? 0x80 then Some 1%nat
  else if ((0xC0 <=? b) && (b <? 0xE0)) && isTail (mem (s + 1)%nat) then Some 2%nat
  else if ((0xE0 <=? b) && (b <? 0xF0)) && isTail (mem (s + 1)%nat) && isTail (mem (s + 2)%nat) then Some 3%nat
  else if ((0xF0 <=? b) && (b <? 0xF8)) && isTail (mem (s + 1)%nat) && isTail (mem (s + 2)%nat)
          && isTail (mem (s + 3)%nat) then Some 4%nat
  else None.
Proof.
  intros Hm. unfold sequenceLengthAt, isTail. cbv zeta.
  rewrite land_80 by apply Hm.
  rewrite (land_byte 0xE0 0xC0 0xC0 0xE0 eq_refl (mem s) (Hm _)), (land_byte 0xF0 0xE0 0xE0 0xF0 eq_refl (mem s) (Hm _)),
    (land_byte 0xF8 0xF0 0xF0 0xF8 eq_refl (mem s) (Hm _)).
  rewrite !(fun i => land_byte 0xC0 0x80 0x80 0xC0 eq_refl (mem (s + i)%nat) (Hm _)). reflexivity.
Qed.

(** The number that the bytes of a sequence stand for. *)
Definition valueAt (mem : Memory) (s n : nat) : Z :=
  match n with
  | 1%nat => mem s
  | 2%nat => (mem s - 0xC0) * 64 + (mem (s + 1)%nat - 0x80)
  | 3%nat => (mem s - 0xE0) * 4096 + (mem (s + 1)%nat - 0x80) * 64 + (mem (s + 2)%nat - 0x80)
  | _ => (mem s - 0xF0) * 262144 + (mem (s + 1)%nat - 0x80) * 4096 + (mem (s + 2)%nat - 0x80) * 64 + (mem (s + 3)%nat - 0x80)
  end.

Lemma readUTF8Sequence_value mem s ch n : is_bytes mem ->
  readUTF8Sequence mem s = Some (ch, n) ->
  sequenceLengthAt mem s = Some n /\ ch = valueAt mem s n /\ (1 <= n <= 4)%nat /\ 0 <= ch < 0x200000.
Proof.
  intros Hm. unfold readUTF8Sequence. rewrite sequenceLengthAt_ranges by exact Hm. cbv zeta. unfold isTail.
  pose proof (Hm s). pose proof (Hm (s + 1)%nat). pose proof (Hm (s + 2)%nat). pose proof (Hm (s + 3)%nat).
  repeat case_if; intros [= <- <-]; to_prop; (split; [reflexivity|]);
    cbn [addBytes valueAt nth offsetsFromUTF8 Nat.sub]; unfold to_unsigned; rewrite ?Z.shiftl_mul_pow2 by lia;
    change (2 ^ 6) with 64; change (2 ^ 32) with 4294967296;
    rewrite <- ?(Nat.add_assoc s 1 1); cbn [Nat.add]; rewrite <- ?(Nat.add_assoc s 2 1); cbn [Nat.add];
    rewrite ?(Z.mod_small (0 + mem s)) by lia; rewrite ?Z.add_0_l.
  - rewrite Z.mod_small by lia. lia.
  - rewrite (Z.mod_small (mem s * 64)) by lia. rewrite !Z.mod_small by lia. lia.
  - rewrite (Z.mod_small (mem s * 64)) by lia. rewrite (Z.mod_small (mem s * 64 + _)) by lia.
    rewrite (Z.mod_small ((mem s * 64 + _) * 64)) by lia. rewrite !Z.mod_small by lia. lia.
  - rewrite (Z.mod_small (mem s * 64)) by lia. rewrite (Z.mod_small (mem s * 64 + _)) by lia.
    rewrite (Z.mod_small ((mem s * 64 + _) * 64)) by lia. rewrite (Z.mod_small ((mem s * 64 + _) * 64 + _)) by lia.
    rewrite (Z.mod_small (((mem s * 64 + _) * 64 + _) * 64)) by lia. rewrite !Z.mod_small by lia. lia.
Qed.

Lemma surrogate_mask ch : 0 <= ch < 0x10000 ->
  (Z.land ch 0xfffff800 =? 0xd800) = ((0xD800 <=? ch) && (ch <=? 0xDFFF)).
Proof.
  intros Hch. change 0xfffff800 with (Z.shiftl (2 ^ 21 - 1) 11). rewrite land_field by lia.
  rewrite Z.mod_small by (change (2 ^ 11) with 2048; lia). change (2 ^ 11) with 2048. compare_cases; lia.
Qed.

(** A sequence that stands for a scalar value gives the units of it. *)
Lemma utf8Turn_value mem s ch n :
  readUTF8Sequence mem s = Some (ch, n) -> scalar ch -> utf8Turn mem s = (utf16 ch, (s + n)%nat).
Proof.
  unfold scalar, scalar_below. intros E [Hch Hs]. unfold utf8Turn, utf16. rewrite E.
  destruct (Z.leb_spec ch 0xffff).
  - rewrite surrogate_mask by lia. replace (ch <? 0x10000) with true by lia.
    destruct (Z.leb_spec 0xD800 ch), (Z.leb_spec ch 0xDFFF); try reflexivity. lia.
  - unfold to_unsigned at 1. rewrite Z.mod_small by lia. replace (ch - 0x10000 <=? 0xfffff) with true by lia.
    replace (ch <? 0x10000) with false by lia. f_equal. f_equal.
    + unfold to_unsigned. rewrite Z.shiftr_div_pow2 by lia. change (2 ^ 10) with 1024. rewrite Z.mod_small by lia. lia.
    + f_equal. change 0x3ff with (2 ^ 10 - 1). rewrite land_low by lia. change (2 ^ 10) with 0x400.
      rewrite Z.lor_comm. change 0xdc00 with (Z.shiftl 55 10).
      rewrite lor_shiftl_add by (change (2 ^ 10) with 1024; lia). change (Z.shiftl 55 10) with 0xdc00. lia.
Qed.

(** One turn of the loop: the units of a code point, and up to four bytes on. *)
Lemma utf8Turn_scalar mem s : is_bytes mem ->
  exists cp after, scalar cp /\ utf8Turn mem s = (utf16 cp, after) /\ (s < after <= s + 4)%nat.
Proof.
  intros Hm. assert (Hr : scalar REPLACEMENT) by (unfold scalar, scalar_below, REPLACEMENT; lia).
  destruct (readUTF8Sequence mem s) as [[ch n]|] eqn:E.
  - pose proof (readUTF8Sequence_value _ _ _ _ Hm E) as (_ & _ & Hn & Hch).
    destruct (decide (0 <= ch <= 0x10FFFF)) as [Hc|Hc]; [destruct (decide (0xD800 <= ch <= 0xDFFF)) as [Hs|Hs]|].
    + exists REPLACEMENT, (s + n - (n - 1))%nat. split; [exact Hr|]. split; [|lia]. unfold utf8Turn. rewrite E.
      replace (ch <=? 0xffff) with true by lia. rewrite surrogate_mask by lia.
      replace (0xD800 <=? ch) with true by lia. replace (ch <=? 0xDFFF) with true by lia. reflexivity.
    + exists ch, (s + n)%nat. assert (scalar ch) by (unfold scalar, scalar_below; lia).
      split; [assumption|]. split; [apply utf8Turn_value; assumption|lia].
    + exists REPLACEMENT, (s + n - (n - 1))%nat. split; [exact Hr|]. split; [|lia]. unfold utf8Turn. rewrite E.
      replace (ch <=? 0xffff) with false by lia. unfold to_unsigned at 1. rewrite Z.mod_small by lia.
      replace (ch - 0x10000 <=? 0xfffff) with false by lia. reflexivity.
  - exists REPLACEMENT, (s + 1)%nat. split; [exact Hr|]. unfold utf8Turn. rewrite E. split; [reflexivity|lia].
Qed.

Lemma utf8Loop_total mem len : is_bytes mem -> forall fuel source str,
  (len - source <= fuel)%nat ->
  exists cps, Forall scalar cps /\ utf8Loop fuel mem len source str = Some (str ++ utf16_text cps).
Proof.
  intros Hm fuel. induction fuel as [|fuel IH]; intros source str Hf; cbn [utf8Loop];
    (destruct (Nat.ltb_spec source len); [|exists []; split; [constructor|cbn; rewrite app_nil_r; reflexivity]]); [lia|].
  destruct (utf8Turn_scalar mem source Hm) as (cp & after & Hcp & -> & Ha).
  destruct (IH after (str ++ utf16 cp) ltac:(lia)) as (cps & Hc & ->).
  exists (cp :: cps). split; [constructor; assumption|]. rewrite <- app_assoc. reflexivity.
Qed.

(** Only the bytes of the buffer and three more are looked at. *)
Lemma utf8Turn_reads mem mem' s : (forall i, (i < 4)%nat -> mem (s + i)%nat = mem' (s + i)%nat) ->
  utf8Turn mem s = utf8Turn mem' s.
Proof.
  intros H. unfold utf8Turn, readUTF8Sequence.
  pose proof (H 0%nat ltac:(lia)) as H0. rewrite Nat.add_0_r in H0.
  assert (El : sequenceLengthAt mem s = sequenceLengthAt mem' s)
    by (unfold sequenceLengthAt; rewrite H0, !H by lia; reflexivity).
  rewrite El. destruct (sequenceLengthAt mem' s) as [n|] eqn:En; [|reflexivity].
  assert (Hn : (n <= 4)%nat) by (revert En; unfold sequenceLengthAt; repeat case_if; intros [= <-]; lia).
  replace (addBytes mem s n 0) with (addBytes mem' s n 0); [reflexivity|].
  clear En El H0. revert s n Hn H.
  assert (Hadd : forall n s ch, (forall i, (i < n)%nat -> mem (s + i)%nat = mem' (s + i)%nat) -> addBytes mem' s n ch = addBytes mem s n ch).
  { induction n as [|n IH]; intros s ch Hs; [reflexivity|]. cbn [addBytes].
    pose proof (Hs 0%nat ltac:(lia)) as H0. rewrite Nat.add_0_r in H0. rewrite H0. destruct n; [reflexivity|].
    apply IH. intros i Hi. rewrite <- Nat.add_assoc. apply Hs. lia. }
  intros s n Hn H. apply Hadd. intros i Hi. apply H. lia.
Qed.

Lemma utf8Loop_reads mem mem' len : (forall i, (i < len + 3)%nat -> mem i = mem' i) ->
  forall fuel source str, utf8Loop fuel mem len source str = utf8Loop fuel mem' len source str.
Proof.
  intros H fuel. induction fuel as [|fuel IH]; intros source str; cbn [utf8Loop];
    destruct (Nat.ltb_spec source len); try reflexivity.
  rewrite (utf8Turn_reads mem mem') by (intros i Hi; apply H; lia). destruct (utf8Turn mem' source). apply IH.
Qed.

(** Reading UTF-8 ends on all bytes, and gives well-formed UTF-16: no lone
    surrogate ever comes out of it.  It reads at most three bytes past the end of
    the buffer, and only what lies in those can make a difference. *)
Theorem utf8_reading_safe mem len : is_bytes mem ->
  (exists cps, Forall scalar cps /\ utf8StringToUTF16StringNonGC mem len = Some (utf16_text cps)) /\
  forall mem', (forall i, (i < len + 3)%nat -> mem i = mem' i) ->
    utf8StringToUTF16StringNonGC mem' len = utf8StringToUTF16StringNonGC mem len.
Proof.
  intros Hm. split.
  - destruct (utf8Loop_total mem len Hm len 0 [] ltac:(lia)) as (cps & Hc & E). eauto.
  - intros mem' H. symmetry. apply utf8Loop_reads, H.
Qed.

(** A buffer that ends in memory full of zeros. *)
Definition buffer (bs : list Z) : Memory := fun i => nth i bs 0.

Lemma buffer_bytes bs : Forall (fun b => 0 <= b < 256) bs -> is_bytes (buffer bs).
Proof.
  intros H i. unfold buffer. destruct (nth_in_or_default i bs 0) as [Hin| ->]; [|lia].
  exact (proj1 (List.Forall_forall _ _) H _ Hin).
Qed.

Lemma utf8_reading_safe_witness :
  exists cps, Forall scalar cps /\
    utf8StringToUTF16StringNonGC (buffer [0xED; 0xA0; 0x80; 0xFF]) 4 = Some (utf16_text cps).
Proof.
  apply (utf8_reading_safe (buffer [0xED; 0xA0; 0x80; 0xFF]) 4).
  apply buffer_bytes. repeat constructor; lia || discriminate.
Defined.

(** The byte past the end of a buffer of one byte makes a difference. *)
Lemma utf8_reads_past_the_end :
  utf8StringToUTF16StringNonGC (buffer [0xC3; 0xA9]) 1 = Some [0xE9] /\
  utf8StringToUTF16StringNonGC (buffer [0xC3; 0x00]) 1 = Some [REPLACEMENT].
Proof. split; vm_compute; reflexivity. Qed.

(** Overlong sequences, which are not UTF-8, are read as if they were. *)
Lemma utf8_overlong_accepted :
  utf8StringToUTF16StringNonGC (buffer [0xC0; 0xAF]) 2 = Some [0x2F].
Proof. vm_compute. reflexivity. Qed.

(** ** Valid UTF-8 *)

(** A comparison that arithmetic decides. *)
Ltac decide_ranges :=
  repeat match goal with
  | |- context [?a <? ?b] => first [replace (a <? b) with true by lia | replace (a <? b) with false by lia]
  | |- context [?a <=? ?b] => first [replace (a <=? b) with true by lia | replace (a <=? b) with false by lia]
  end; cbn [andb orb].

(** The digits of a code point in base 64. *)
Lemma base64_2 cp : 0x80 <= cp < 0x800 ->
  cp = cp / 64 * 64 + cp mod 64 /\ 2 <= cp / 64 < 32 /\ 0 <= cp mod 64 < 64.
Proof. lia. Qed.

Lemma base64_3 cp : 0x800 <= cp < 0x10000 ->
  cp = cp / 4096 * 4096 + cp / 64 mod 64 * 64 + cp mod 64 /\
  0 <= cp / 4096 < 16 /\ 0 <= cp / 64 mod 64 < 64 /\ 0 <= cp mod 64 < 64.
Proof. lia. Qed.

Lemma base64_4 cp : 0x10000 <= cp < 0x200000 ->
  cp = cp / 262144 * 262144 + cp / 4096 mod 64 * 4096 + cp / 64 mod 64 * 64 + cp mod 64 /\
  0 <= cp / 262144 < 8 /\ 0 <= cp / 4096 mod 64 < 64 /\ 0 <= cp / 64 mod 64 < 64 /\ 0 <= cp mod 64 < 64.
Proof. lia. Qed.

Lemma utf8Turn_utf8 mem s cp : is_bytes mem -> scalar cp -> holds_at mem s (utf8 cp) ->
  utf8Turn mem s = (utf16 cp, (s + length (utf8 cp))%nat).
Proof.
  intros Hm Hcp Hh. pose proof Hcp as [Hr Hs].
  assert (E : sequenceLengthAt mem s = Some (length (utf8 cp)) /\ valueAt mem s (length (utf8 cp)) = cp).
  { pose proof (fun b => Hh 0%nat b) as H0. pose proof (fun b => Hh 1%nat b) as H1.
    pose proof (fun b => Hh 2%nat b) as H2. pose proof (fun b => Hh 3%nat b) as H3.
    rewrite Nat.add_0_r in H0. rewrite sequenceLengthAt_ranges by exact Hm. cbv zeta. unfold isTail, utf8 in *.
    destruct (Z.ltb_spec cp 0x80); [|destruct (Z.ltb_spec cp 0x800); [|destruct (Z.ltb_spec cp 0x10000)]];
      cbn [lookup list_lookup length valueAt] in *; rewrite (H0 _ eq_refl); rewrite ?(H1 _ eq_refl), ?(H2 _ eq_refl), ?(H3 _ eq_refl).
    - replace (cp <? 0x80) with true by lia. split; reflexivity.
    - generalize (base64_2 cp ltac:(lia)). generalize (cp / 64), (cp mod 64). clear. intros.
      decide_ranges. split; [reflexivity|lia].
    - generalize (base64_3 cp ltac:(lia)). generalize (cp / 4096), (cp / 64 mod 64), (cp mod 64). clear. intros.
      decide_ranges. split; [reflexivity|lia].
    - generalize (base64_4 cp ltac:(lia)). generalize (cp / 262144), (cp / 4096 mod 64), (cp / 64 mod 64), (cp mod 64).
      clear. intros. decide_ranges. split; [reflexivity|lia]. }
  destruct E as [El Ev]. assert (E : exists ch, readUTF8Sequence mem s = Some (ch, length (utf8 cp)))
    by (unfold readUTF8Sequence; rewrite El; eauto).
  destruct E as [ch E]. pose proof (readUTF8Sequence_value _ _ _ _ Hm E) as (_ & Ech & _). rewrite Ev in Ech. subst ch.
  apply utf8Turn_value; assumption.
Qed.

(** What [concat (map utf8 cps)] in memory is read as, whatever comes after it. *)
Lemma utf8Loop_utf8 mem cps : is_bytes mem -> Forall scalar cps -> forall fuel len source str,
  holds_at mem source (concat (map utf8 cps)) -> len = (source + length (concat (map utf8 cps)))%nat ->
  (len - source <= fuel)%nat ->
  utf8Loop fuel mem len source str = Some (str ++ utf16_text cps).
Proof.
  intros Hm Hc. induction Hc as [|cp cps Hcp _ IH]; intros fuel len source str Hh Hl Hf; cbn [map concat length] in *.
  { destruct fuel; cbn [utf8Loop]; (destruct (Nat.ltb_spec source len); [lia|]); cbn; rewrite app_nil_r; reflexivity. }
  rewrite length_app in Hl. apply holds_at_app in Hh as [H1 H2].
  assert (1 <= length (utf8 cp))%nat by (unfold utf8; repeat case_if; cbn; lia).
  destruct fuel as [|fuel]; [lia|]. cbn [utf8Loop]. destruct (Nat.ltb_spec source len); [|lia].
  rewrite utf8Turn_utf8 with (cp := cp) by assumption. rewrite IH by (assumption || lia).
  rewrite <- app_assoc. reflexivity.
Qed.

(** ** Writing *)

(** The code points of a text; a surrogate without its other half counts as one. *)
Fixpoint codePoints (text : list Z) : list Z :=
  match text with
  | [] => []
  | h :: rest =>
    match rest with
    | [] => [h]
    | t :: rest' =>
      if ((0xD800 <=? h) && (h <=? 0xDBFF)) && ((0xDC00 <=? t) && (t <=? 0xDFFF)) then
        ((h - 0xD800) * 0x400 + (t - 0xDC00) + 0x10000) :: codePoints rest'
      else h :: codePoints rest
    end
  end.

Definition toScalar (cp : Z) : Z := if (0xD800 <=? cp) && (cp <=? 0xDFFF) then REPLACEMENT else cp.

(** The planes whose code points [utf32ToUtf8] writes right. *)
Definition utf8_writable (cp : Z) : Prop := cp < 0x40000 \/ 0x100000 <= cp.

Lemma utf32ToUtf8_utf8 cp : 0 <= cp <= 0x10FFFF -> utf8_writable cp -> utf32ToUtf8 1 cp = utf8 cp.
Proof.
  unfold utf8_writable. intros Hcp Hw. unfold utf8. cbn [utf32ToUtf8].
  change (2 ^ 6) with 64. change (2 ^ 12) with 4096. change (2 ^ 18) with 262144.
  destruct (Z.ltb_spec cp 0x80); [replace (cp <=? 0x7f) with true by lia; f_equal; apply Z.mod_small; lia|].
  replace (cp <=? 0x7f) with false by lia.
  destruct (Z.ltb_spec cp 0x800); [replace (cp <=? 0x7ff) with true by lia; repeat f_equal; apply Z.mod_small; lia|].
  replace (cp <=? 0x7ff) with false by lia.
  destruct (Z.ltb_spec cp 0x10000); [replace (cp <=? 0xffff) with true by lia; repeat f_equal; apply Z.mod_small; lia|].
  replace (cp <=? 0xffff) with false by lia. replace (cp <=? 0x1fffff) with true by lia.
  rewrite (Z.mod_small (cp / 4096) 4096) by lia.
  assert (E : (0x80 + cp / 4096) mod 256 = 0x80 + cp / 4096 mod 64) by lia. rewrite E.
  repeat f_equal; apply Z.mod_small; lia.
Qed.

Lemma U16_IS_LEAD_range c : is_unit c -> U16_IS_LEAD c = ((0xD800 <=? c) && (c <=? 0xDBFF)).
Proof.
  unfold is_unit. intros Hc. unfold U16_IS_LEAD. change 0xfffffc00 with (Z.shiftl (2 ^ 22 - 1) 10).
  rewrite land_field by lia. rewrite Z.mod_small by (change (2 ^ 10) with 1024; lia). change (2 ^ 10) with 1024.
  compare_cases; lia.
Qed.

Lemma U16_IS_TRAIL_range c : is_unit c -> U16_IS_TRAIL c = ((0xDC00 <=? c) && (c <=? 0xDFFF)).
Proof.
  unfold is_unit. intros Hc. unfold U16_IS_TRAIL. change 0xfffffc00 with (Z.shiftl (2 ^ 22 - 1) 10).
  rewrite land_field by lia. rewrite Z.mod_small by (change (2 ^ 10) with 1024; lia). change (2 ^ 10) with 1024.
  compare_cases; lia.
Qed.

Lemma U16_GET_SUPPLEMENTARY_value h t :
  U16_GET_SUPPLEMENTARY h t = (h - 0xD800) * 0x400 + (t - 0xDC00) + 0x10000.
Proof.
  unfold U16_GET_SUPPLEMENTARY, U16_SURROGATE_OFFSET. rewrite !Z.shiftl_mul_pow2 by lia. lia.
Qed.

(** What a code point of the text is written as. *)
Definition written (replaceInvalidUtf8 : bool) (cp : Z) : list Z :=
  utf32ToUtf8 1 (if replaceInvalidUtf8 then toScalar cp else cp).

Lemma toUTF8String_points r n : forall text, (length text <= n)%nat -> Forall is_unit text ->
  toUTF8String r text = concat (map (written r) (codePoints text)).
Proof.
  assert (Hlow : forall ch, 0 <= ch < 0x80 -> written r ch = [ch]).
  { intros ch Hch. unfold written, toScalar. replace (0xD800 <=? ch) with false by lia.
    replace (if r then (if false && _ then _ else ch) else ch) with ch by (destruct r; reflexivity).
    cbn. replace (ch <=? 127) with true by lia. rewrite Z.mod_small by lia. reflexivity. }
  induction n as [|n IH]; intros [|ch rest] Hl Ht; cbn [length] in Hl; try lia; try reflexivity.
  apply Forall_cons_iff in Ht as [Hch Hrest]. cbn [toUTF8String codePoints].
  rewrite U16_IS_LEAD_range, U16_IS_TRAIL_range by exact Hch. unfold is_unit in Hch.
  assert (Hsingle : forall rest', (length rest' <= n)%nat -> Forall is_unit rest' -> ~ (ch < 0x80) ->
    ((0xD800 <=? ch) && (ch <=? 0xDBFF) = false) ->
    utf32ToUtf8 1 (if r && ((0xDC00 <=? ch) && (ch <=? 0xDFFF)) then REPLACEMENT else ch) ++ toUTF8String r rest'
    = concat (map (written r) (ch :: codePoints rest'))).
  { intros rest' Hl' Hr Hge Hlead. cbn [map concat]. rewrite (IH rest' Hl' Hr). f_equal. unfold written, toScalar.
    destruct r; [|reflexivity]. revert Hlead. cbn [andb]. compare_cases; intros; try reflexivity; try discriminate; lia. }
  destruct (Z.ltb_spec ch 0x80) as [Hlo|Hlo].
  - rewrite (IH rest) by (assumption || lia). replace (0xD800 <=? ch) with false by lia. cbn [andb].
    destruct rest; cbn [map concat]; rewrite Hlow by lia; reflexivity.
  - destruct ((0xD800 <=? ch) && (ch <=? 0xDBFF)) eqn:Elead; cbn [andb].
    + assert (Elone : utf32ToUtf8 1 (if r then REPLACEMENT else ch) = written r ch).
      { unfold written, toScalar. to_prop. replace (0xD800 <=? ch) with true by lia. replace (ch <=? 0xDFFF) with true by lia.
        reflexivity. }
      destruct rest as [|c2 rest]; [cbn; rewrite app_nil_r; exact Elone|].
      apply Forall_cons_iff in Hrest as [Hc2 Hrest]. rewrite U16_IS_TRAIL_range by exact Hc2. cbn [length] in Hl.
      destruct ((0xDC00 <=? c2) && (c2 <=? 0xDFFF)) eqn:Etrail; cbn [map concat].
      * rewrite (IH rest) by (assumption || lia). f_equal. rewrite U16_GET_SUPPLEMENTARY_value. unfold written, toScalar.
        to_prop. replace (_ <=? 0xDFFF) with false by lia. rewrite andb_false_r. destruct r; reflexivity.
      * rewrite Elone. f_equal. apply (IH (c2 :: rest)); [cbn; lia|constructor; assumption].
    + specialize (Hsingle rest ltac:(lia) Hrest ltac:(lia) eq_refl). destruct rest; exact Hsingle.
Qed.

Lemma codePoints_range n : forall text, (length text <= n)%nat -> Forall is_unit text ->
  Forall (fun cp => 0 <= cp <= 0x10FFFF) (codePoints text).
Proof.
  induction n as [|n IH]; intros [|h rest] Hl Ht; cbn [length] in Hl; try lia; try constructor.
  apply Forall_cons_iff in Ht as [Hh Hrest]. unfold is_unit in Hh. cbn [codePoints].
  destruct rest as [|t rest]; [repeat constructor; lia|]. apply Forall_cons_iff in Hrest as [Ht Hrest].
  unfold is_unit in Ht. cbn [length] in Hl. case_if; to_prop; constructor; try lia; apply IH; try (cbn; lia); try assumption.
  constructor; assumption.
Qed.

Lemma toScalar_scalar cp : 0 <= cp <= 0x10FFFF -> scalar (toScalar cp).
Proof.
  intros H. unfold toScalar, scalar, scalar_below, REPLACEMENT.
  destruct (Z.leb_spec 0xD800 cp), (Z.leb_spec cp 0xDFFF); cbn [andb]; lia.
Qed.

Lemma utf16_text_codePoints n : forall text, (length text <= n)%nat -> Forall is_unit text ->
  Forall scalar (codePoints text) -> utf16_text (codePoints text) = text.
Proof.
  induction n as [|n IH]; intros [|h rest] Hl Ht; cbn [length] in Hl; try lia; try reflexivity.
  apply Forall_cons_iff in Ht as [Hh Hrest]. unfold is_unit in Hh. cbn [codePoints].
  assert (H1 : utf16 h = [h]) by (unfold utf16; replace (h <? 0x10000) with true by lia; reflexivity).
  destruct rest as [|t rest]; [intros _; unfold utf16_text; cbn [map concat]; rewrite H1; reflexivity|].
  pose proof Hrest as Hrest'. apply Forall_cons_iff in Hrest' as [Ht Hrest']. unfold is_unit in Ht. cbn [length] in Hl.
  case_if; intros Hs; apply Forall_cons_iff in Hs as [_ Hs]; unfold utf16_text in *; cbn [map concat].
  - to_prop. rewrite (IH rest) by (assumption || lia). unfold utf16. replace (_ <? 0x10000) with false by lia.
    cbn [app]. f_equal; [lia|]. f_equal. lia.
  - rewrite H1, (IH (t :: rest)); [reflexivity|cbn; lia|assumption|exact Hs].
Qed.

(** C22: a text written as UTF-8 with replacement and read again is the text with
    every lone surrogate replaced by U+FFFD, and a well-formed text comes back as it
    is, with or without replacement, whatever lies in memory after the bytes; as
    long as no code point lies from U+40000 to U+FFFFF. *)
Theorem utf8_roundtrip text mem replace : Forall is_unit text ->
  Forall utf8_writable (codePoints text) -> is_bytes mem ->
  (replace = true \/ Forall scalar (codePoints text)) ->
  holds_at mem 0 (toUTF8String replace text) ->
  utf8StringToUTF16StringNonGC mem (length (toUTF8String replace text))
    = Some (utf16_text (map toScalar (codePoints text))) /\
  (Forall scalar (codePoints text) -> utf16_text (map toScalar (codePoints text)) = text).
Proof.
  intros Ht Hp Hm Hr Hh. pose proof (codePoints_range _ text ltac:(reflexivity) Ht) as Hrange.
  assert (Hs : Forall scalar (codePoints text) -> map toScalar (codePoints text) = codePoints text).
  { intros Hs. rewrite <- map_id. apply List.map_ext_in. intros cp Hin.
    apply (proj1 (List.Forall_forall _ _) Hs) in Hin as [? Hn]. unfold toScalar.
    destruct (Z.leb_spec 0xD800 cp), (Z.leb_spec cp 0xDFFF); try reflexivity. lia. }
  split; [|intros Hsc; rewrite Hs by exact Hsc; apply (utf16_text_codePoints (length text)); auto].
  assert (E : toUTF8String replace text = concat (map utf8 (map toScalar (codePoints text)))).
  { rewrite (toUTF8String_points replace (length text)) by auto. rewrite List.map_map. f_equal. apply List.map_ext_in.
    intros cp Hin. pose proof (proj1 (List.Forall_forall _ _) Hrange cp Hin) as H1. cbv beta in H1.
    pose proof (proj1 (List.Forall_forall _ _) Hp cp Hin) as H2. cbv beta in H2. unfold written.
    assert (Ets : 0 <= toScalar cp <= 0x10FFFF /\ utf8_writable (toScalar cp))
      by (unfold utf8_writable, toScalar, REPLACEMENT in *; repeat case_if; lia).
    destruct Hr as [->|Hr]; [apply utf32ToUtf8_utf8; apply Ets|].
    assert (Ec : toScalar cp = cp).
    { apply (proj1 (List.Forall_forall _ _) Hr) in Hin as [? Hn]. unfold toScalar.
      destruct (Z.leb_spec 0xD800 cp), (Z.leb_spec cp 0xDFFF); try reflexivity. lia. }
    rewrite Ec in *. destruct replace; apply utf32ToUtf8_utf8; apply Ets. }
  rewrite E in *. unfold utf8StringToUTF16StringNonGC.
  apply (utf8Loop_utf8 mem (map toScalar (codePoints text)) Hm); [|exact Hh|reflexivity|lia].
  apply List.Forall_map. eapply List.Forall_impl; [|exact Hrange]. exact toScalar_scalar.
Qed.

Lemma utf8_roundtrip_witness :
  toUTF8String true [0xE9; 0xD83D; 0xDE00; 0xD800] = [0xC3; 0xA9; 0xF0; 0x9F; 0x98; 0x80; 0xEF; 0xBF; 0xBD] /\
  utf8StringToUTF16StringNonGC (buffer [0xC3; 0xA9; 0xF0; 0x9F; 0x98; 0x80; 0xEF; 0xBF; 0xBD]) 9
    = Some [0xE9; 0xD83D; 0xDE00; 0xFFFD].
Proof.
  split; [vm_compute; reflexivity|].
  refine (proj1 (utf8_roundtrip [0xE9; 0xD83D; 0xDE00; 0xD800] _ true _ _ _ (or_introl eq_refl) _)).
  - repeat constructor; lia || discriminate.
  - repeat constructor; unfold utf8_writable; lia.
  - apply buffer_bytes. repeat constructor; lia || discriminate.
  - intros i b Hi. apply (nth_lookup_Some _ _ 0) in Hi. exact Hi.
Defined.

(** From U+40000 to U+FFFFF, the second byte is wrong: [uc / 2 ^ 12] is not cut to six bits. *)
Lemma utf32ToUtf8_wrong cp : 0x40000 <= cp < 0x100000 -> utf32ToUtf8 1 cp <> utf8 cp.
Proof.
  intros Hcp. unfold utf8. cbn [utf32ToUtf8]. decide_ranges.
  change (2 ^ 12) with 4096. intros E. injection E as _ E _ _.
  rewrite (Z.mod_small (cp / 4096) 4096) in E by lia. lia.
Qed.

(** A tag character, as in the flag of England, is not read back. *)
Lemma utf8_tag_lost :
  toUTF8String true (utf16 0xE0067) = [0xF3; 0x60; 0x81; 0xA7] /\
  utf8StringToUTF16StringNonGC (buffer [0xF3; 0x60; 0x81; 0xA7]) 4
    = Some [REPLACEMENT; 0x60; REPLACEMENT; REPLACEMENT].
Proof. split; vm_compute; reflexivity. Qed.
