(* ===== verification/Rope.v ===== *)
(** * Strings that share storage ([runtime/String.h], [RopeString.cpp], [StringView.h], [StringBuilder.cpp])

    A string is a cell: its own units, a concatenation that has not been written out
    yet, or a range of another string.  Reading the units of a rope writes them out
    and changes the cell, which every string that refers to it sees.  The cells are a
    store with a bump allocator; [StringBuilder] collects pieces and makes one cell. *)

From S2P Require Import Prelude Uri.
Local Open Scope Z_scope.
Local Open Scope esc_scope.

(** ** The state *)

(** [has8BitContent] is the flag of [StringBufferData].  A [RopeString] is [Rope]
    while [hasSpecialImpl] is set, and [FlatRope] afterwards. *)
Inductive StringCell : Type :=
| Flat (has8BitContent : bool) (buffer : list Z)
| FlatRope (has8BitContent : bool) (buffer : list Z)
| Rope (has8BitContent : bool) (length : nat) (m_left m_right : nat)
| View (has8BitContent : bool) (length : nat) (bufferAsString : nat) (m_start : nat).

(** The strings, and the two variables of the thread that [RopeString::charAt] keeps. *)
Record World := {
  cells : list StringCell;
  g_lastUsedString : option nat;
  g_headOfCharAt : bool
}.

(** The only thing thrown: the length of a string is invalid. *)
Inductive StringError : Type := String_InvalidStringLength.

Definition SM (A : Type) : Type := M World StringError A.

Definition setCells (l : list StringCell) (w : World) : World :=
  {| cells := l; g_lastUsedString := g_lastUsedString w; g_headOfCharAt := g_headOfCharAt w |}.

(** [String::emptyString], the string that is made first. *)
Definition emptyString : nat := 0.

(** Reading a cell; there is no answer for an address without one. *)
Definition cellAt (a : nat) : SM StringCell := fun w =>
  match cells w !! a with Some c => (Ret c, w) | None => (Fuel, w) end.

Definition writeCell (a : nat) (c : StringCell) : SM unit :=
  modify (fun w => setCells (<[a := c]> (cells w)) w).

Definition newString (c : StringCell) : SM nat := fun w =>
  (Ret (length (cells w)), setCells (cells w ++ [c]) w).

(** ** The fields every string has *)

Definition has8BitContent (c : StringCell) : bool :=
  match c with Flat b _ | FlatRope b _ | Rope b _ _ _ | View b _ _ _ => b end.

Definition String_length (c : StringCell) : nat :=
  match c with
  | Flat _ u | FlatRope _ u => length u
  | Rope _ n _ _ | View _ n _ _ => n
  end.

Definition isRopeString (c : StringCell) : bool :=
  match c with Rope _ _ _ _ | FlatRope _ _ => true | _ => false end.

Definition wasFlattened (c : StringCell) : bool :=
  match c with Rope _ _ _ _ => false | _ => true end.

(** ** Flattening *)

(** [result[i + pos] = ptr[i]] for all units of [data]. *)
Definition writeUnits (result : list Z) (pos : nat) (data : list Z) : list Z :=
  take pos result ++ data ++ drop (pos + length data) result.

Section Flattening.
(** [bufferAccessData] of the strings that are not ropes to be written out. *)
Context (access : nat -> SM (bool * list Z)).
(** Whether [ResultType] is [LChar]: a wider unit is cut. *)
Context (resultIs8Bit : bool).

Definition castUnit (u : Z) : Z := if resultIs8Bit then u mod 256 else u.

(** One turn of the loop; the back of the vector [queue] is the head of the list. *)
Definition flatten_turn (s : list nat * nat * list Z) : SM (list nat * nat * list Z + list Z) :=
  match s with
  | (queue, pos, result) =>
    match queue with
    | [] => break result
    | cur :: queue =>
      let! c := cellAt cur in
      match c with
      | Rope _ _ lhs rhs => continue (rhs :: lhs :: queue, pos, result)
      | _ =>
        let! data := access cur in
        let pos := (pos - length (snd data))%nat in
        continue (queue, pos, writeUnits result pos (map castUnit (snd data)))
      end
    end
  end.

(** The units of a rope of [length] units.  A rope has less than twice as many nodes
    as units. *)
Definition flattenRopeStringWorker (length lhs rhs : nat) : SM (list Z) :=
  loop (2 * length) flatten_turn ([rhs; lhs], length, repeat 0 length).
End Flattening.

(** [String::bufferAccessData]: the flag and the units.  The fuel bounds how deep
    strings refer to each other. *)
Fixpoint bufferAccessData (fuel : nat) (a : nat) : SM (bool * list Z) :=
  match fuel with
  | O => out_of_fuel
  | S fuel =>
    let! c := cellAt a in
    match c with
    | Flat b units | FlatRope b units => ret (b, units)
    | Rope b n lhs rhs =>
      let! result := flattenRopeStringWorker (bufferAccessData fuel) b n lhs rhs in
      do! writeCell a (FlatRope b result) in
      ret (b, result)
    | View _ n base start =>
      let! data := bufferAccessData fuel base in
      ret (fst data, take n (drop start (snd data)))
    end
  end.

(** [bufferAccessData] of a string of the world: no string refers to a later one. *)
Definition accessData (a : nat) : SM (bool * list Z) := bufferAccessData (S a) a.

(** ** [charAt] *)

(** [String::charAt] of a string that is not a rope to be written out. *)
Definition charAtAccess (a : nat) (idx : nat) : SM Z :=
  let! data := accessData a in
  ret (nth idx (snd data) 0).

(** One turn of [charAtWorker] at a rope that was not flattened. *)
Definition charAtWorker_turn (s : nat * nat) : SM (nat * nat + Z) :=
  match s with
  | (self, idx) =>
    let! c := cellAt self in
    match c with
    | Rope _ _ lhs rhs =>
      let! l := cellAt lhs in
      let leftLength := String_length l in
      if (idx <? leftLength)%nat then
        if isRopeString l && negb (wasFlattened l) then continue (lhs, idx)
        else let! ch := charAtAccess lhs idx in break ch
      else
        let! r := cellAt rhs in
        if isRopeString r && negb (wasFlattened r) then continue (rhs, idx - leftLength)%nat
        else let! ch := charAtAccess rhs (idx - leftLength)%nat in break ch
    | _ => out_of_fuel
    end
  end.

(** The worker goes down from [self], which refers to earlier strings only. *)
Definition charAtWorker (idx self : nat) : SM Z := loop (S self) charAtWorker_turn (self, idx).

(** [RopeStringUsageChecker]: constructor, [isOftenUsed] and destructor. *)
Definition enterChecker : SM bool := fun w =>
  (Ret (g_headOfCharAt w),
   {| cells := cells w; g_lastUsedString := g_lastUsedString w; g_headOfCharAt := false |}).

Definition isOftenUsed (m_headOfCharAt : bool) (rs : nat) : SM bool := fun w =>
  (Ret (bool_decide (g_lastUsedString w = Some rs)),
   if m_headOfCharAt then
     {| cells := cells w; g_lastUsedString := Some rs; g_headOfCharAt := g_headOfCharAt w |}
   else w).

Definition leaveChecker (m_headOfCharAt : bool) : SM unit := modify (fun w =>
  {| cells := cells w; g_lastUsedString := g_lastUsedString w; g_headOfCharAt := m_headOfCharAt |}).

(** [charAt] of any string; that of a rope writes it out when the rope is the one
    that was read last. *)
Definition charAt (a idx : nat) : SM Z :=
  let! c := cellAt a in
  match c with
  | Rope _ _ _ _ =>
    let! head := enterChecker in
    let! often := isOftenUsed head a in
    let! ch := (if often then charAtAccess a idx else charAtWorker idx a) in
    do! leaveChecker head in
    ret ch
  | _ => charAtAccess a idx
  end.

(** ** [StringBuilder] *)

(** The pieces; the three types of pieces of a string differ in nothing that
    [finalizeBase] looks at. *)
Inductive StringBuilderPiece : Type :=
| StringPiece (m_string m_start m_end : nat)
| ConstChar (m_raw : list Z)
| Char (m_ch : Z).

(** The two storages of pieces are one list: the inline one is filled first. *)
Record StringBuilder := {
  m_has8BitContent : bool;
  m_contentLength : nat;
  m_pieces : list StringBuilderPiece
}.

Definition newStringBuilder : StringBuilder :=
  {| m_has8BitContent := true; m_contentLength := 0; m_pieces := [] |}.

Definition pushPiece (b : StringBuilder) (p : StringBuilderPiece) (has8 : bool) (n : nat) : StringBuilder :=
  {| m_has8BitContent := m_has8BitContent b && has8;
     m_contentLength := m_contentLength b + n;
     m_pieces := m_pieces b ++ [p] |}.

(** [appendSubString], for [s <= e]. *)
Definition appendSubString (b : StringBuilder) (str s e : nat) : SM StringBuilder :=
  if (0 <? e - s)%nat then
    let! data := accessData str in
    let has8 := if negb (fst data) then forallb (fun u => negb (255 <? u)) (take (e - s) (drop s (snd data))) else true in
    ret (pushPiece b (StringPiece str s e) has8 (e - s))
  else ret b.

Definition appendString (b : StringBuilder) (str : nat) : SM StringBuilder :=
  let! c := cellAt str in appendSubString b str 0 (String_length c).

Definition appendConstChar (b : StringBuilder) (str : list Z) : StringBuilder :=
  if negb (length str =? 0)%nat then pushPiece b (ConstChar str) true (length str) else b.

Definition appendChar (b : StringBuilder) (ch : Z) : StringBuilder :=
  pushPiece b (Char ch) (negb (255 <? ch)) 1.

(** What a piece adds to an 8-bit result. *)
Definition piece8 (p : StringBuilderPiece) : SM (list Z) :=
  match p with
  | Char ch => ret [ch mod 256]
  | ConstChar data => ret data
  | StringPiece str s e =>
    let! data := accessData str in
    ret (map (fun u => u mod 256) (take (e - s) (drop s (snd data))))
  end.

(** What a piece adds to a 16-bit result; a [char] is signed when it is widened. *)
Definition piece16 (p : StringBuilderPiece) : SM (list Z) :=
  match p with
  | Char ch => ret [ch]
  | ConstChar data => ret (map (fun c => to_unsigned 16 (to_signed 8 c)) data)
  | StringPiece str s e =>
    let! data := accessData str in
    ret (take (e - s) (drop s (snd data)))
  end.

Fixpoint collectPieces (piece : StringBuilderPiece -> SM (list Z)) (ps : list StringBuilderPiece) : SM (list Z) :=
  match ps with
  | [] => ret []
  | p :: ps =>
    let! units := piece p in
    let! rest := collectPieces piece ps in
    ret (units ++ rest)
  end.

(** [finalizeBase]; [state] tells whether there is one to throw in. *)
Definition finalizeBuilder (b : StringBuilder) (state : bool) : SM nat :=
  if (m_contentLength b =? 0)%nat then ret emptyString
  else if state && (STRING_MAXIMUM_LENGTH <? Z.of_nat (m_contentLength b)) then throw String_InvalidStringLength
  else if m_has8BitContent b then
    let! units := collectPieces piece8 (m_pieces b) in newString (Flat true units)
  else
    let! units := collectPieces piece16 (m_pieces b) in newString (Flat false units).

(** ** Ropes and views *)

Definition LATIN1_LARGE_INLINE_BUFFER_MAX_SIZE : nat := 24.
Definition STRING_SUB_STRING_MIN_VIEW_LENGTH : nat := 32.

Definition createRopeString (lstr rstr : nat) (state : bool) : SM nat :=
  let! l := cellAt lstr in
  let llen := String_length l in
  if (llen =? 0)%nat then ret rstr else
  let! r := cellAt rstr in
  let rlen := String_length r in
  if (rlen =? 0)%nat then ret lstr else
  if (llen + rlen <=? LATIN1_LARGE_INLINE_BUFFER_MAX_SIZE)%nat then
    let! lData := accessData lstr in
    let! rData := accessData rstr in
    if fst lData && fst rData then newString (Flat true (snd lData ++ snd rData))
    else
      let! builder := appendString newStringBuilder lstr in
      let! builder := appendString builder rstr in
      finalizeBuilder builder false
  else if state && (STRING_MAXIMUM_LENGTH <? Z.of_nat (llen + rlen)) then throw String_InvalidStringLength
  else
    let result8Bit := has8BitContent l && has8BitContent r in
    newString (Rope result8Bit (llen + rlen) lstr rstr).

(** [new StringView(str, s, e)]. *)
Definition newView (str s e : nat) : SM nat :=
  let! c := cellAt str in
  newString (View (has8BitContent c) (e - s) str s).

Definition substring (str from to : nat) : SM nat :=
  if (STRING_SUB_STRING_MIN_VIEW_LENGTH <? to - from)%nat then newView str from to
  else
    let! builder := appendSubString newStringBuilder str from to in
    finalizeBuilder builder false.
