(* ===== verification/RopeSpec.v ===== *)
(** * The texts of strings

    Every string stands for a text.  Writing out a rope changes no text, although it
    changes cells that other strings refer to; and the operations on ropes, views and
    builders are the operations on texts. *)

From stdpp Require Import relations.
From S2P Require Import Prelude Uri Rope.
Local Open Scope Z_scope.
Local Open Scope esc_scope.

(** ** The text of a string *)

Fixpoint textN (n : nat) (st : list StringCell) (a : nat) : list Z :=
  match n with
  | O => []
  | S n =>
    match st !! a with
    | None => []
    | Some (Flat _ u) | Some (FlatRope _ u) => u
    | Some (Rope _ _ l r) => textN n st l ++ textN n st r
    | Some (View _ k base s) => take k (drop s (textN n st base))
    end
  end.

Definition textAt (st : list StringCell) (a : nat) : list Z := textN (S a) st a.
Arguments textAt : simpl never.

Definition latin1 (u : Z) : Prop := 0 <= u < 256.
Definition unit16 (u : Z) : Prop := 0 <= u < 65536.

(** A cell refers to earlier cells, and its fields are right about its text. *)
Definition cell_ok (st : list StringCell) (a : nat) (c : StringCell) : Prop :=
  Forall unit16 (textAt st a) /\
  (has8BitContent c = true -> Forall latin1 (textAt st a)) /\
  match c with
  | Flat _ _ | FlatRope _ _ => True
  | Rope _ n l r =>
    (l < a)%nat /\ (r < a)%nat /\ textAt st l <> [] /\ textAt st r <> [] /\
    n = (length (textAt st l) + length (textAt st r))%nat
  | View b k base s =>
    (base < a)%nat /\ (s + k <= length (textAt st base))%nat /\
    exists c', st !! base = Some c' /\ has8BitContent c' = b
  end.

Definition wf_cells (st : list StringCell) : Prop :=
  st !! emptyString = Some (Flat true []) /\ forall a c, st !! a = Some c -> cell_ok st a c.

Lemma textN_enough st : wf_cells st -> forall n a, (a < n)%nat -> textN n st a = textAt st a.
Proof.
  intros [_ Hwf]. assert (H : forall k n m a, (a < k)%nat -> (a < n)%nat -> (a < m)%nat -> textN n st a = textN m st a).
  { induction k as [|k IH]; intros n m a Hk Hn Hm; [lia|]. destruct n as [|n], m as [|m]; try lia. cbn [textN].
    destruct (st !! a) as [[b u|b u|b l x y|b l x y]|] eqn:E; try reflexivity; apply Hwf in E as (_ & _ & E).
    - f_equal; apply IH; lia.
    - do 2 f_equal. apply IH; lia. }
  intros n a Ha. apply (H (S a)); lia.
Qed.

Lemma textAt_cell st a c : wf_cells st -> st !! a = Some c ->
  textAt st a = match c with
                | Flat _ u | FlatRope _ u => u
                | Rope _ _ l r => textAt st l ++ textAt st r
                | View _ k base s => take k (drop s (textAt st base))
                end.
Proof.
  intros Hwf E. pose proof (proj2 Hwf _ _ E) as (_ & _ & H). unfold textAt at 1. cbn [textN]. rewrite E.
  destruct c; try reflexivity; rewrite !(textN_enough st Hwf) by lia; reflexivity.
Qed.

Lemma String_length_text st a c : wf_cells st -> st !! a = Some c -> String_length c = length (textAt st a).
Proof.
  intros Hwf E. rewrite (textAt_cell st a c Hwf E). pose proof (proj2 Hwf _ _ E) as (_ & _ & H).
  destruct c; cbn [String_length]; [reflexivity|reflexivity| |].
  - rewrite length_app. tauto.
  - rewrite length_take, length_drop. lia.
Qed.

(** ** Changes that nobody sees *)

(** The same strings with the same texts and flags; the globals may differ. *)
Definition same_texts (st st' : list StringCell) : Prop :=
  length st' = length st /\ wf_cells st' /\
  (forall a, textAt st' a = textAt st a) /\
  (forall a, has8BitContent <$> st' !! a = has8BitContent <$> st !! a).

Lemma same_texts_refl st : wf_cells st -> same_texts st st.
Proof. intros H. split; [reflexivity|]. split; [exact H|]. split; reflexivity. Qed.

Lemma same_texts_trans st st' st'' : same_texts st st' -> same_texts st' st'' -> same_texts st st''.
Proof.
  intros (L1 & W1 & T1 & F1) (L2 & W2 & T2 & F2). split; [congruence|]. split; [exact W2|].
  split; intros a; [rewrite T2|rewrite F2]; auto.
Qed.

Lemma textN_insert st a c : wf_cells st -> st !! a <> None ->
  match c with FlatRope _ u => u = textAt st a | _ => False end ->
  forall n x, textN n (<[a := c]> st) x = textN n st x \/ (n <= x)%nat.
Proof.
  intros Hwf Ha Hc. destruct c as [|b u| |]; try contradiction. subst u.
  induction n as [|n IH]; intros x; [right; lia|]. destruct (decide (x < S n)%nat) as [Hx|Hx]; [left|right; lia].
  cbn [textN]. destruct (decide (x = a)) as [->|Hxa].
  - rewrite list_lookup_insert_eq by (apply lookup_lt_is_Some; destruct (st !! a); [eauto|congruence]).
    rewrite <- (textN_enough st Hwf (S n)) by lia. reflexivity.
  - rewrite list_lookup_insert_ne by congruence.
    destruct (st !! x) as [[b' u|b' u|b' l y z|b' l y z]|] eqn:E; try reflexivity;
      apply (proj2 Hwf) in E as (_ & _ & E).
    + destruct (IH y) as [->|]; [|lia]. destruct (IH z) as [->|]; [reflexivity|lia].
    + destruct (IH y) as [->|]; [reflexivity|lia].
Qed.

(** Writing a rope out. *)
Lemma flatten_same st a b c0 : wf_cells st -> st !! a = Some c0 -> has8BitContent c0 = b -> a <> emptyString ->
  same_texts st (<[a := FlatRope b (textAt st a)]> st).
Proof.
  intros Hwf E Hb Hne. set (c := FlatRope b (textAt st a)).
  assert (Ht : forall x, textAt (<[a := c]> st) x = textAt st x).
  { intros x. unfold textAt at 1. destruct (textN_insert st a c Hwf ltac:(rewrite E; discriminate) eq_refl (S x) x) as [->|]; [reflexivity|lia]. }
  assert (Hf : forall x, has8BitContent <$> <[a := c]> st !! x = has8BitContent <$> st !! x).
  { intros x. destruct (decide (x = a)) as [->|Hx]; [|rewrite list_lookup_insert_ne by congruence; reflexivity].
    rewrite list_lookup_insert_eq by (apply lookup_lt_is_Some; eauto). rewrite E. cbn. rewrite Hb. reflexivity. }
  split; [apply length_insert|]. split; [|split; [exact Ht|exact Hf]]. split.
  - rewrite list_lookup_insert_ne; [apply Hwf|exact Hne].
  - intros x c' Hx. unfold cell_ok. rewrite Ht. destruct (decide (x = a)) as [->|Hxa].
    + rewrite list_lookup_insert_eq in Hx by (apply lookup_lt_is_Some; eauto). injection Hx as <-.
      destruct (proj2 Hwf _ _ E) as (H1 & H2 & _). split; [exact H1|]. split; [cbn; rewrite <- Hb; exact H2|exact I].
    + rewrite list_lookup_insert_ne in Hx by congruence. destruct (proj2 Hwf _ _ Hx) as (H1 & H2 & H3).
      split; [exact H1|]. split; [exact H2|]. destruct c'; try exact I; rewrite !Ht; [exact H3|].
      destruct H3 as (H3 & H4 & c' & H5 & H6). split; [exact H3|]. split; [exact H4|].
      specialize (Hf bufferAsString). rewrite H5 in Hf. destruct (_ !! bufferAsString) as [c''|] eqn:E'; [|discriminate].
      exists c''. split; [reflexivity|]. cbn in Hf. congruence.
Qed.

Definition quiet (w w' : World) : Prop :=
  same_texts (cells w) (cells w') /\ g_lastUsedString w' = g_lastUsedString w /\ g_headOfCharAt w' = g_headOfCharAt w.

Lemma text_quiet_refl w : wf_cells (cells w) -> quiet w w.
Proof. intros H. split; [apply same_texts_refl, H|]. split; reflexivity. Qed.

Lemma text_quiet_trans w w' w'' : quiet w w' -> quiet w' w'' -> quiet w w''.
Proof.
  intros (S1 & L1 & H1) (S2 & L2 & H2). split; [eapply same_texts_trans; eassumption|]. split; congruence.
Qed.

(** Nothing is thrown. *)
Definition never {A : Type} : A -> World -> Prop := fun _ _ => False.

Lemma wp_cellAt a c w Q X : cells w !! a = Some c -> Q c w -> wp (cellAt a) w Q X.
Proof. intros E H. unfold wp, cellAt. rewrite E. exact H. Qed.

(** What reading a string answers: its flag and its text. *)
Definition answers (w : World) (a : nat) (d : bool * list Z) (w' : World) : Prop :=
  has8BitContent <$> cells w !! a = Some (fst d) /\ snd d = textAt (cells w) a /\ quiet w w'.

(** ** The loop that writes a rope out *)

Section FlattenLoop.
Context (access : nat -> SM (bool * list Z)) (bound : nat).
Hypothesis access_answers : forall w a, wf_cells (cells w) -> (a < bound)%nat -> (a < length (cells w))%nat ->
  wp (access a) w (answers w a) never.
Context (w : World) (b : bool) (n : nat).

Abbreviation text := (textAt (cells w)).

Definition flatten_inv (s : list nat * nat * list Z) (w' : World) : Prop :=
  match s with
  | (queue, pos, result) =>
    quiet w w' /\ length result = n /\ (pos <= n)%nat /\
    Forall (fun q => (q < bound)%nat /\ (q < length (cells w))%nat /\ text q <> [] /\ (b = true -> Forall latin1 (text q))) queue /\
    pos = length (concat (map text (rev queue)))
  end.

Definition flatten_done (s : list nat * nat * list Z) : list Z :=
  match s with (queue, pos, result) => concat (map text (rev queue)) ++ drop pos result end.

Definition flatten_measure (s : list nat * nat * list Z) (_ : World) : nat :=
  match s with (queue, _, _) => list_sum (map (fun q => 2 * length (text q) - 1)%nat queue) end.

Lemma nonempty_length {A} (l : list A) : l <> [] -> (1 <= length l)%nat.
Proof. destruct l; [congruence|cbn; lia]. Qed.

Lemma cast_latin1 l : (b = true -> Forall latin1 l) -> map (castUnit b) l = l.
Proof.
  intros H. unfold castUnit. destruct b; [|apply map_id]. specialize (H eq_refl).
  induction H as [|u l Hu _ IH]; [reflexivity|]. cbn. rewrite IH. f_equal. apply Z.mod_small. exact Hu.
Qed.

Lemma writeUnits_drop (result data : list Z) (pos : nat) :
  (pos + length data <= length result)%nat ->
  length (writeUnits result pos data) = length result /\
  drop pos (writeUnits result pos data) = data ++ drop (pos + length data) result.
Proof.
  intros H. unfold writeUnits. split.
  - rewrite !length_app, length_take, length_drop. lia.
  - rewrite drop_app_ge by (rewrite length_take; lia). rewrite length_take.
    replace (pos - pos `min` length result)%nat with 0%nat by lia. reflexivity.
Qed.

Lemma flatten_turn_ok s w' : flatten_inv s w' ->
  wp (flatten_turn access b s) w'
     (fun r w'' => match r with
        | inl s' => (flatten_inv s' w'' /\ flatten_done s' = flatten_done s) /\ (flatten_measure s' w'' < flatten_measure s w')%nat
        | inr result => quiet w w'' /\ result = flatten_done s
        end) never.
Proof.
  destruct s as [[queue pos] result]. cbn [flatten_inv flatten_turn]. intros (Hq & Hn & Hpn & Hall & Hpos).
  destruct queue as [|cur queue]; [cbn in *; subst pos; split; [exact Hq|reflexivity]|].
  apply Forall_cons_iff in Hall as [(Hb & Hl & Hne & Hlat) Hall]. pose proof (nonempty_length _ Hne) as Hlen.
  destruct (Hq) as ((Hlen' & Hwf' & Ht & Hf) & _).
  destruct (lookup_lt_is_Some_2 (cells w') cur ltac:(lia)) as [c Ec].
  apply wp_bind, (wp_cellAt _ c); [exact Ec|]. cbn [rev] in *.
  assert (Ecur : concat (map text (rev queue ++ [cur])) = concat (map text (rev queue)) ++ text cur)
    by (rewrite map_app, concat_app; cbn [map concat]; rewrite app_nil_r; reflexivity).
  rewrite Ecur, length_app in Hpos.
  destruct c as [b' u|b' u|b' k l r|b' k l r];
    [apply wp_bind; eapply wp_mono; [apply access_answers; [exact Hwf'|lia|lia]|intros [b'' data] w''; cbn [fst snd]|auto]..| |
     apply wp_bind; eapply wp_mono; [apply access_answers; [exact Hwf'|lia|lia]|intros [b'' data] w''; cbn [fst snd]|auto]].
  3: { (* an inner rope *)
    pose proof (textAt_cell _ _ _ Hwf' Ec) as Et. cbn beta iota in Et.
    destruct (proj2 Hwf' _ _ Ec) as (_ & _ & H1 & H2 & Hl1 & Hr1 & _). rewrite !Ht in *.
    pose proof (nonempty_length _ Hl1). pose proof (nonempty_length _ Hr1).
    assert (Eq : concat (map text ((rev queue ++ [l]) ++ [r])) = concat (map text (rev queue)) ++ text l ++ text r).
    { rewrite <- app_assoc, !map_app, !concat_app. cbn [map concat app]. rewrite !app_nil_r. reflexivity. }
    rewrite Et, length_app in Hpos, Hlen. apply wp_ret.
    cbn [flatten_inv flatten_done flatten_measure rev map list_sum fold_right concat]. split_and!; try assumption; try lia.
    - apply Forall_cons; [|apply Forall_cons; [|exact Hall]]; (split_and!; [lia|lia|assumption|]);
        intros Hb'; specialize (Hlat Hb'); rewrite Et in Hlat; apply Forall_app in Hlat; tauto.
    - rewrite Eq, !length_app. lia.
    - rewrite Eq, Ecur, Et, <- !app_assoc. reflexivity.
    - rewrite Et, !length_app. lia. }
  all: intros (_ & Ed & Hq'); rewrite Ht in Ed; cbn [snd] in Ed; subst data; cbn [snd]; apply wp_ret;
    cbn [flatten_inv flatten_done flatten_measure rev map list_sum fold_right].
  all: rewrite cast_latin1 by exact Hlat; replace (pos - length (text cur))%nat with (length (concat (map text (rev queue)))) by lia.
  all: destruct (writeUnits_drop result (text cur) (length (concat (map text (rev queue)))) ltac:(lia)) as [Hw1 Hw2].
  all: split_and!; try assumption; try lia; [eapply text_quiet_trans; eassumption| |cbv [list_sum]; lia].
  all: rewrite Hw2, Ecur, <- app_assoc; do 3 f_equal; lia.
Qed.
End FlattenLoop.

(** ** Reading a string *)

Lemma bufferAccessData_answers fuel : forall w a, wf_cells (cells w) -> (a < fuel)%nat -> (a < length (cells w))%nat ->
  wp (bufferAccessData fuel a) w (answers w a) never.
Proof.
  induction fuel as [|fuel IH]; intros w a Hwf Ha Hl; [lia|]. cbn [bufferAccessData].
  destruct (lookup_lt_is_Some_2 _ _ Hl) as [c Ec]. apply wp_bind, (wp_cellAt _ c); [exact Ec|].
  pose proof (textAt_cell _ _ _ Hwf Ec) as Et. destruct (proj2 Hwf _ _ Ec) as (_ & Hlat & Hc).
  destruct c as [b u|b u|b n l r|b k base s].
  1, 2: apply wp_ret; unfold answers; rewrite Ec, Et; split_and!; [reflexivity|reflexivity|apply text_quiet_refl, Hwf].
  - destruct Hc as (Hlt & Hrt & Hnl & Hnr & Hn). apply wp_bind. unfold flattenRopeStringWorker.
    pose proof (nonempty_length _ Hnl). pose proof (nonempty_length _ Hnr).
    assert (Hlat2 : b = true -> Forall latin1 (textAt (cells w) l) /\ Forall latin1 (textAt (cells w) r)).
    { intros Hb. specialize (Hlat Hb). rewrite Et in Hlat. apply Forall_app in Hlat. exact Hlat. }
    eapply wp_mono; [apply (wp_loop
      (fun s w' => flatten_inv fuel w b n s w' /\ flatten_done w s = textAt (cells w) a) (flatten_measure w) _
      (fun result w' => quiet w w' /\ result = textAt (cells w) a) never)| |auto].
    + intros s w' [HI Hd]. eapply wp_mono; [apply (flatten_turn_ok _ fuel); [|exact HI]| |auto].
      * intros w0 a0 Hwf0 Ha0 Hl0. apply IH; assumption.
      * intros [s'|result] w''; cbn beta iota; rewrite Hd; tauto.
    + cbn [flatten_inv flatten_done rev app map concat]. rewrite app_nil_r, Et, length_app, repeat_length.
      rewrite drop_ge, app_nil_r by (rewrite repeat_length; lia).
      split; [|reflexivity]. split_and!; [apply text_quiet_refl, Hwf|reflexivity|lia| |lia].
      repeat apply Forall_cons; try apply Forall_nil; (split_and!; [lia|lia|assumption|tauto]).
    + cbn [flatten_measure map list_sum fold_right]. lia.
    + intros result w' [Hq Hr]. destruct (Hq) as ((Hl' & Hwf' & Ht & Hf) & Hg1 & Hg2). apply wp_bind. cbn.
      pose proof (Hf a) as Hfa. rewrite Ec in Hfa. cbn in Hfa.
      destruct (lookup_lt_is_Some_2 (cells w') a ltac:(lia)) as [c' Ec']. 
      assert (Hs : same_texts (cells w') (<[a := FlatRope b result]> (cells w'))).
      { rewrite Hr, <- Ht. apply (flatten_same _ _ _ c'); [exact Hwf'|exact Ec'| |].
        - rewrite Ec' in Hfa. cbn in Hfa. congruence.
        - intros ->. rewrite (proj1 Hwf) in Ec. discriminate. }
      unfold answers. cbn [fst snd]. rewrite Ec. split_and!; [reflexivity|exact Hr|].
      apply (text_quiet_trans _ w'); [exact Hq|]. split; [exact Hs|split; reflexivity].
  - destruct Hc as (Hb & Hk & c' & Ec' & Hf'). apply wp_bind. eapply wp_mono; [apply IH; [exact Hwf|lia|]| |auto].
    + apply lookup_lt_is_Some. eauto.
    + intros [b' u] w' (Hf1 & Hu & Hq). cbn [fst snd] in *. apply wp_ret. unfold answers. cbn [fst snd].
      rewrite Ec, Et, Hu. rewrite Ec' in Hf1. cbn in *. split_and!; [congruence|reflexivity|exact Hq].
Qed.

Lemma accessData_answers w a : wf_cells (cells w) -> (a < length (cells w))%nat ->
  wp (accessData a) w (answers w a) never.
Proof. intros Hwf Ha. apply bufferAccessData_answers; [exact Hwf|lia|exact Ha]. Qed.

(** ** New strings *)

(** The old strings keep their texts; there may be new ones. *)
Definition extends (st st' : list StringCell) : Prop :=
  (length st <= length st')%nat /\ wf_cells st' /\
  forall a, (a < length st)%nat ->
    textAt st' a = textAt st a /\ has8BitContent <$> st' !! a = has8BitContent <$> st !! a.

Lemma text_extends_refl st : wf_cells st -> extends st st.
Proof. intros H. split; [lia|]. split; [exact H|]. auto. Qed.

Lemma same_extends st st' : same_texts st st' -> extends st st'.
Proof. intros (L & W & T & F). split; [lia|]. split; [exact W|]. auto. Qed.

Lemma text_extends_trans st st' st'' : extends st st' -> extends st' st'' -> extends st st''.
Proof.
  intros (L1 & W1 & H1) (L2 & W2 & H2). split; [lia|]. split; [exact W2|]. intros a Ha.
  destruct (H1 a Ha) as [<- <-]. apply H2. lia.
Qed.

Lemma quiet_extends w w' : quiet w w' -> extends (cells w) (cells w').
Proof. intros [H _]. apply same_extends, H. Qed.

(** The text that a new cell stands for. *)
Definition cellText (st : list StringCell) (c : StringCell) : list Z :=
  match c with
  | Flat _ u | FlatRope _ u => u
  | Rope _ _ l r => textAt st l ++ textAt st r
  | View _ k base s => take k (drop s (textAt st base))
  end.

(** What a new cell must satisfy. *)
Definition new_ok (st : list StringCell) (c : StringCell) : Prop :=
  Forall unit16 (cellText st c) /\
  (has8BitContent c = true -> Forall latin1 (cellText st c)) /\
  match c with
  | Flat _ _ | FlatRope _ _ => True
  | Rope _ n l r =>
    (l < length st)%nat /\ (r < length st)%nat /\ textAt st l <> [] /\ textAt st r <> [] /\
    n = (length (textAt st l) + length (textAt st r))%nat
  | View b k base s =>
    (base < length st)%nat /\ (s + k <= length (textAt st base))%nat /\
    exists c', st !! base = Some c' /\ has8BitContent c' = b
  end.

Lemma textAt_app st c a : wf_cells st -> (a < length st)%nat -> textAt (st ++ [c]) a = textAt st a.
Proof.
  intros Hwf. assert (H : forall n x, (x < n)%nat -> (x < length st)%nat -> textN n (st ++ [c]) x = textN n st x).
  { induction n as [|n IH]; intros x Hx Hl; [lia|]. cbn [textN]. rewrite lookup_app_l by exact Hl.
    destruct (st !! x) as [[b u|b u|b k y z|b k y z]|] eqn:E; try reflexivity;
      apply (proj2 Hwf) in E as (_ & _ & E); [f_equal|do 2 f_equal]; apply IH; lia. }
  intros Ha. apply H; lia.
Qed.

Lemma new_extends st c : wf_cells st -> new_ok st c ->
  extends st (st ++ [c]) /\ textAt (st ++ [c]) (length st) = cellText st c.
Proof.
  intros Hwf (H1 & H2 & H3).
  assert (Hnew : textAt (st ++ [c]) (length st) = cellText st c).
  { unfold textAt. cbn [textN]. rewrite lookup_app_r, Nat.sub_diag by lia. cbn [lookup list_lookup].
    assert (Hsub : forall x, (x < length st)%nat -> textN (length st) (st ++ [c]) x = textAt st x).
    { intros x Hx. rewrite <- (textAt_app st c x) by assumption.
      assert (Hn : forall n m y, (y < n)%nat -> (y < m)%nat -> (y < length st)%nat -> textN n (st ++ [c]) y = textN m (st ++ [c]) y).
      { induction n as [|n IH]; intros m y Hn Hm Hy; [lia|]. destruct m as [|m]; [lia|]. cbn [textN].
        rewrite lookup_app_l by exact Hy. destruct (st !! y) as [[b u|b u|b k p q|b k p q]|] eqn:E; try reflexivity;
          apply (proj2 Hwf) in E as (_ & _ & E); [f_equal|do 2 f_equal]; apply IH; lia. }
      apply Hn; lia. }
    destruct c; cbn [cellText]; try reflexivity; rewrite !Hsub by lia; reflexivity. }
  split; [|exact Hnew]. split; [rewrite length_app; cbn; lia|]. split.
  - split; [rewrite lookup_app_l; [apply Hwf|apply lookup_lt_is_Some; rewrite (proj1 Hwf); eauto]|].
    intros a c' Ha. destruct (decide (a < length st)%nat) as [Hl|Hl].
    + rewrite lookup_app_l in Ha by exact Hl. destruct (proj2 Hwf _ _ Ha) as (K1 & K2 & K3). unfold cell_ok.
      rewrite textAt_app by assumption. split; [exact K1|]. split; [exact K2|].
      destruct c'; try exact I; rewrite !textAt_app by (assumption || lia); [exact K3|].
      rewrite lookup_app_l by lia. exact K3.
    + pose proof (lookup_lt_Some _ _ _ Ha) as Hl'. rewrite length_app in Hl'. cbn in Hl'.
      assert (a = length st) by lia. subst a. rewrite lookup_app_r, Nat.sub_diag in Ha by lia. injection Ha as <-.
      unfold cell_ok. rewrite Hnew. split; [exact H1|]. split; [exact H2|].
      destruct c; try exact I; rewrite !textAt_app by (assumption || lia); [exact H3|].
      rewrite lookup_app_l by lia. exact H3.
  - intros a Ha. rewrite lookup_app_l by exact Ha. split; [apply textAt_app; assumption|reflexivity].
Qed.

(** The answer of an operation that makes a string of the text [t]. *)
Definition makes (w : World) (t : list Z) (a : nat) (w' : World) : Prop :=
  extends (cells w) (cells w') /\ (a < length (cells w'))%nat /\ textAt (cells w') a = t.

Lemma newString_makes w w0 c : extends (cells w0) (cells w) -> new_ok (cells w) c ->
  wp (newString c) w (makes w0 (cellText (cells w) c)) never.
Proof.
  intros He Hc. destruct (new_extends (cells w) c (proj1 (proj2 He)) Hc) as [He' Ht]. unfold wp, newString, makes. cbn [cells setCells].
  split; [eapply text_extends_trans; eassumption|]. split; [rewrite length_app; cbn; lia|exact Ht].
Qed.

(** ** The string builder *)

Definition pieceText (st : list StringCell) (p : StringBuilderPiece) : list Z :=
  match p with
  | StringPiece str s e => take (e - s) (drop s (textAt st str))
  | ConstChar data => data
  | Char ch => [ch]
  end.

Definition piece_ok (st : list StringCell) (p : StringBuilderPiece) : Prop :=
  match p with
  | StringPiece str s e => (str < length st)%nat /\ (s <= e)%nat /\ (e <= length (textAt st str))%nat
  | ConstChar data => Forall (fun c => 0 <= c < 128) data
  | Char ch => unit16 ch
  end.

(** The text in a builder. *)
Definition builderText (st : list StringCell) (b : StringBuilder) : list Z := concat (map (pieceText st) (m_pieces b)).

Definition builder_ok (st : list StringCell) (b : StringBuilder) : Prop :=
  Forall (piece_ok st) (m_pieces b) /\
  m_contentLength b = length (builderText st b) /\
  (m_has8BitContent b = true -> Forall latin1 (builderText st b)).

Lemma piece_extends st st' p : extends st st' -> piece_ok st p -> piece_ok st' p /\ pieceText st' p = pieceText st p.
Proof.
  intros (L & W & H) Hp. destruct p as [str s e|data|ch]; cbn in *; auto.
  destruct Hp as (H1 & H2 & H3). destruct (H str H1) as [-> _]. split; [|reflexivity]. split_and!; lia.
Qed.

Lemma builder_extends st st' b : extends st st' -> builder_ok st b ->
  builder_ok st' b /\ builderText st' b = builderText st b.
Proof.
  intros He (H1 & H2 & H3). assert (Ht : builderText st' b = builderText st b).
  { unfold builderText. f_equal. apply List.map_ext_in. intros p Hp. apply (piece_extends st); [exact He|].
    exact (proj1 (List.Forall_forall _ _) H1 p Hp). }
  split; [|exact Ht]. unfold builder_ok. rewrite Ht. split; [|auto]. eapply List.Forall_impl; [|exact H1].
  intros p Hp. apply (piece_extends st); assumption.
Qed.

Lemma pushPiece_ok st b p has8 n : builder_ok st b -> piece_ok st p -> n = length (pieceText st p) ->
  (has8 = true -> Forall latin1 (pieceText st p)) ->
  builder_ok st (pushPiece b p has8 n) /\ builderText st (pushPiece b p has8 n) = builderText st b ++ pieceText st p.
Proof.
  intros (H1 & H2 & H3) Hp -> H8.
  assert (Ht : builderText st (pushPiece b p has8 (length (pieceText st p))) = builderText st b ++ pieceText st p).
  { unfold builderText, pushPiece. cbn [m_pieces]. rewrite map_app, concat_app. cbn [map concat]. rewrite app_nil_r. reflexivity. }
  split; [|exact Ht]. unfold builder_ok. rewrite Ht. cbn [m_pieces m_contentLength m_has8BitContent pushPiece].
  split; [apply Forall_app; split; [exact H1|repeat constructor; exact Hp]|]. split; [rewrite length_app; lia|].
  intros Hb. apply andb_true_iff in Hb as [Hb1 Hb2]. apply Forall_app. auto.
Qed.

Lemma textAt_units st a : wf_cells st -> Forall unit16 (textAt st a).
Proof.
  intros Hwf. destruct (st !! a) as [c|] eqn:E; [apply (proj2 Hwf _ _ E)|]. unfold textAt. cbn [textN]. rewrite E. constructor.
Qed.

Lemma appendSubString_ok w b str s e : wf_cells (cells w) -> builder_ok (cells w) b ->
  (str < length (cells w))%nat -> (s <= e)%nat -> (e <= length (textAt (cells w) str))%nat ->
  wp (appendSubString b str s e) w
     (fun b' w' => quiet w w' /\ builder_ok (cells w') b' /\
        builderText (cells w') b' = builderText (cells w) b ++ take (e - s) (drop s (textAt (cells w) str))) never.
Proof.
  intros Hwf Hb Hstr Hse He. unfold appendSubString. destruct (Nat.ltb_spec 0 (e - s)) as [Hlt|Hge].
  2: { apply wp_ret. replace (e - s)%nat with 0%nat by lia. cbn [take]. rewrite app_nil_r. split_and!; [apply text_quiet_refl, Hwf|exact Hb|reflexivity]. }
  apply wp_bind. eapply wp_mono; [apply accessData_answers; assumption| |auto]. intros [b8 u] w' (Hf & Hu & Hq). cbn [fst snd] in *.
  apply wp_ret. pose proof (quiet_extends _ _ Hq) as Hext. destruct (builder_extends _ _ _ Hext Hb) as [Hb' Ht].
  destruct (proj2 (proj2 Hext) str Hstr) as [Hts _].
  assert (Hp : pieceText (cells w') (StringPiece str s e) = take (e - s) (drop s (textAt (cells w) str))) by (cbn; rewrite Hts; reflexivity).
  split; [exact Hq|]. rewrite <- Ht, <- Hp. apply pushPiece_ok; [exact Hb'| | |].
  - cbn. rewrite Hts. split_and!; [destruct Hext; lia|lia|lia].
  - rewrite Hp, length_take, length_drop. lia.
  - rewrite Hp. subst u. intros H8. destruct (lookup_lt_is_Some_2 _ _ Hstr) as [c Ec]. rewrite Ec in Hf. cbn in Hf. injection Hf as <-.
    destruct (has8BitContent c) eqn:E8; cbn [negb] in H8.
    + apply Forall_take, Forall_drop. apply (proj2 Hwf _ _ Ec). exact E8.
    + rewrite List.forallb_forall in H8. apply List.Forall_forall. intros x Hx. pose proof (H8 x Hx) as Hle.
      pose proof (proj1 (List.Forall_forall _ _) (Forall_take _ (e - s) _ (Forall_drop _ s _ (textAt_units _ str Hwf))) x Hx) as H16.
      unfold unit16, latin1 in *. to_prop. lia.
Qed.

Lemma appendString_ok w b str : wf_cells (cells w) -> builder_ok (cells w) b -> (str < length (cells w))%nat ->
  wp (appendString b str) w
     (fun b' w' => quiet w w' /\ builder_ok (cells w') b' /\
        builderText (cells w') b' = builderText (cells w) b ++ textAt (cells w) str) never.
Proof.
  intros Hwf Hb Hstr. destruct (lookup_lt_is_Some_2 _ _ Hstr) as [c Ec].
  apply wp_bind, (wp_cellAt _ c); [exact Ec|]. rewrite (String_length_text _ _ _ Hwf Ec).
  eapply wp_mono; [apply appendSubString_ok; (assumption || lia)| |auto].
  cbn beta. intros b' w'. rewrite Nat.sub_0_r, drop_0, take_ge by lia. auto.
Qed.

Lemma appendChar_ok st b ch : builder_ok st b -> unit16 ch ->
  builder_ok st (appendChar b ch) /\ builderText st (appendChar b ch) = builderText st b ++ [ch].
Proof.
  intros Hb Hc. apply (pushPiece_ok st b (Char ch)); [exact Hb|exact Hc|reflexivity|].
  unfold unit16 in Hc. intros H. to_prop. repeat constructor; lia.
Qed.

Lemma appendConstChar_ok st b data : builder_ok st b -> Forall (fun c => 0 <= c < 128) data ->
  builder_ok st (appendConstChar b data) /\ builderText st (appendConstChar b data) = builderText st b ++ data.
Proof.
  intros Hb Hd. unfold appendConstChar. destruct data as [|c data]; [cbn; rewrite app_nil_r; auto|].
  apply (pushPiece_ok st b (ConstChar (c :: data))); [exact Hb|exact Hd|reflexivity|].
  intros _. eapply List.Forall_impl; [|exact Hd]. unfold latin1. cbn. lia.
Qed.

Lemma new_builder_ok st : builder_ok st newStringBuilder /\ builderText st newStringBuilder = [].
Proof. repeat split; constructor. Qed.

Lemma map_mod_latin1 l : Forall latin1 l -> map (fun u => u mod 256) l = l.
Proof.
  induction 1 as [|u l Hu _ IH]; [reflexivity|]. cbn. rewrite IH. f_equal. apply Z.mod_small, Hu.
Qed.

Lemma collect_ok (piece : StringBuilderPiece -> SM (list Z)) (good : list Z -> Prop) ps :
  (forall w p, wf_cells (cells w) -> piece_ok (cells w) p -> good (pieceText (cells w) p) ->
     wp (piece p) w (fun u w' => u = pieceText (cells w) p /\ quiet w w') never) ->
  forall w, wf_cells (cells w) -> Forall (piece_ok (cells w)) ps -> Forall (fun p => good (pieceText (cells w) p)) ps ->
  wp (collectPieces piece ps) w (fun u w' => u = concat (map (pieceText (cells w)) ps) /\ quiet w w') never.
Proof.
  intros Hpiece. induction ps as [|p ps IH]; intros w Hwf Hok Hgood; cbn [collectPieces].
  { apply wp_ret. split; [reflexivity|apply text_quiet_refl, Hwf]. }
  apply Forall_cons_iff in Hok as [Hp Hok], Hgood as [Hg Hgood].
  apply wp_bind. eapply wp_mono; [apply Hpiece; assumption| |auto]. intros u w' [-> Hq].
  pose proof (quiet_extends _ _ Hq) as He. pose proof (fun p => piece_extends _ _ p He) as Hx.
  apply wp_bind. eapply wp_mono; [apply IH| |auto].
  - apply He.
  - eapply List.Forall_impl; [|exact Hok]. intros p'. apply Hx.
  - apply List.Forall_forall. intros p' Hin. destruct (Hx p') as [_ ->].
    + exact (proj1 (List.Forall_forall _ _) Hok p' Hin).
    + exact (proj1 (List.Forall_forall _ _) Hgood p' Hin).
  - intros rest w'' [-> Hq']. apply wp_ret. split; [|eapply text_quiet_trans; eassumption]. cbn [map concat]. f_equal. f_equal.
    apply List.map_ext_in. intros p' Hin. apply Hx. exact (proj1 (List.Forall_forall _ _) Hok p' Hin).
Qed.

Lemma piece8_ok w p : wf_cells (cells w) -> piece_ok (cells w) p -> Forall latin1 (pieceText (cells w) p) ->
  wp (piece8 p) w (fun u w' => u = pieceText (cells w) p /\ quiet w w') never.
Proof.
  intros Hwf Hp Hl. destruct p as [str s e|data|ch]; cbn [piece8 pieceText piece_ok] in *.
  - apply wp_bind. eapply wp_mono; [apply accessData_answers; [exact Hwf|tauto]| |auto].
    intros [b u] w' (_ & -> & Hq). apply wp_ret. split; [apply map_mod_latin1, Hl|exact Hq].
  - apply wp_ret. split; [reflexivity|apply text_quiet_refl, Hwf].
  - apply wp_ret. apply Forall_cons_iff in Hl as [Hl _]. split; [f_equal; apply Z.mod_small, Hl|apply text_quiet_refl, Hwf].
Qed.

Lemma piece16_ok w p : wf_cells (cells w) -> piece_ok (cells w) p -> True ->
  wp (piece16 p) w (fun u w' => u = pieceText (cells w) p /\ quiet w w') never.
Proof.
  intros Hwf Hp _. destruct p as [str s e|data|ch]; cbn [piece16 pieceText piece_ok] in *.
  - apply wp_bind. eapply wp_mono; [apply accessData_answers; [exact Hwf|tauto]| |auto].
    intros [b u] w' (_ & -> & Hq). apply wp_ret. split; [reflexivity|exact Hq].
  - apply wp_ret. split; [|apply text_quiet_refl, Hwf]. induction Hp as [|c data Hc _ IH]; [reflexivity|]. cbn. rewrite IH. f_equal.
    unfold to_unsigned, to_signed. cbn. lia.
  - apply wp_ret. split; [reflexivity|apply text_quiet_refl, Hwf].
Qed.

Lemma pieceText_units st p : wf_cells st -> piece_ok st p -> Forall unit16 (pieceText st p).
Proof.
  intros Hwf Hp. destruct p as [str s e|data|ch]; cbn in *.
  - apply Forall_take, Forall_drop, textAt_units, Hwf.
  - eapply List.Forall_impl; [|exact Hp]. unfold unit16. cbn. lia.
  - repeat constructor; apply Hp.
Qed.

Lemma Forall_concat_map {A} (P : Z -> Prop) (f : A -> list Z) l : Forall P (concat (map f l)) <-> Forall (fun a => Forall P (f a)) l.
Proof.
  induction l as [|a l IH]; cbn; [split; constructor|]. rewrite Forall_app, Forall_cons_iff, IH. reflexivity.
Qed.

(** [finalize]: a string of the text in the builder, or the exception. *)
Lemma finalizeBuilder_ok w b state : wf_cells (cells w) -> builder_ok (cells w) b ->
  wp (finalizeBuilder b state) w
     (fun a w' => makes w (builderText (cells w) b) a w' /\
        (state = true -> Z.of_nat (length (builderText (cells w) b)) <= STRING_MAXIMUM_LENGTH))
     (fun _ w' => w' = w /\ state = true /\ STRING_MAXIMUM_LENGTH < Z.of_nat (length (builderText (cells w) b))).
Proof.
  intros Hwf Hb. destruct Hb as (Hok & Hlen & H8). unfold finalizeBuilder. rewrite Hlen.
  destruct (Nat.eqb_spec (length (builderText (cells w) b)) 0) as [H0|H0].
  { apply wp_ret. destruct (builderText (cells w) b) as [|z t]; [|discriminate]. split; [|intros _; discriminate].
    split; [apply text_extends_refl, Hwf|]. pose proof (proj1 Hwf) as He. split; [apply lookup_lt_is_Some; eauto|].
    rewrite (textAt_cell _ _ _ Hwf He). reflexivity. }
  destruct (state && _) eqn:Emax.
  { apply andb_true_iff in Emax as [Es Em]. apply wp_throw. to_prop. auto. }
  assert (Hmax : state = true -> Z.of_nat (length (builderText (cells w) b)) <= STRING_MAXIMUM_LENGTH)
    by (intros ->; cbn in Emax; to_prop; exact Emax).
  assert (Hunits : Forall unit16 (builderText (cells w) b)).
  { unfold builderText. apply Forall_concat_map. eapply List.Forall_impl; [|exact Hok]. intros p. apply pieceText_units, Hwf. }
  assert (Hnew : forall b8 (u : list Z) w', u = builderText (cells w) b -> quiet w w' -> (b8 = true -> Forall latin1 u) ->
    wp (newString (Flat b8 u)) w' (fun a w' => makes w (builderText (cells w) b) a w' /\
       (state = true -> Z.of_nat (length (builderText (cells w) b)) <= STRING_MAXIMUM_LENGTH)) (fun _ w' => w' = w /\ state = true /\
       STRING_MAXIMUM_LENGTH < Z.of_nat (length (builderText (cells w) b)))).
  { intros b8 u w' -> Hq Hl. eapply wp_mono; [apply (newString_makes _ w); [apply quiet_extends, Hq|]| |contradiction].
    - split; [exact Hunits|]. split; [exact Hl|exact I].
    - intros a w'' Hm. split; [exact Hm|exact Hmax]. }
  destruct (m_has8BitContent b) eqn:E8; apply wp_bind.
  - eapply wp_mono; [apply (collect_ok _ (Forall latin1) _ piece8_ok _ Hwf Hok)| |contradiction].
    + apply Forall_concat_map. apply H8. reflexivity.
    + intros u w' [-> Hq]. apply Hnew; [reflexivity|exact Hq|intros _; apply H8; reflexivity].
  - eapply wp_mono; [apply (collect_ok _ (fun _ => True) _ piece16_ok _ Hwf Hok)| |contradiction].
    + apply List.Forall_forall. auto.
    + intros u w' [-> Hq]. apply Hnew; [reflexivity|exact Hq|discriminate].
Qed.

(** ** Concatenation, views and single units *)

Lemma has8_read w a b : has8BitContent <$> cells w !! a = Some b -> wf_cells (cells w) -> b = true ->
  Forall latin1 (textAt (cells w) a).
Proof.
  intros Hf Hwf ->. destruct (cells w !! a) as [c|] eqn:E; [|discriminate]. cbn in Hf. apply (proj2 Hwf _ _ E). congruence.
Qed.

(** [createRopeString] of two strings with units, [total] of them in all, when that
    is more than one buffer holds. *)
Definition tooLong (state : bool) (total : nat) : Prop :=
  state = true /\ (LATIN1_LARGE_INLINE_BUFFER_MAX_SIZE < total)%nat /\ STRING_MAXIMUM_LENGTH < Z.of_nat total.

Lemma shortRope_makes w l r : wf_cells (cells w) -> (l < length (cells w))%nat -> (r < length (cells w))%nat ->
  wp (let! lData := accessData l in
      let! rData := accessData r in
      if fst lData && fst rData then newString (Flat true (snd lData ++ snd rData))
      else
        let! builder := appendString newStringBuilder l in
        let! builder := appendString builder r in
        finalizeBuilder builder false) w
     (makes w (textAt (cells w) l ++ textAt (cells w) r)) never.
Proof.
  intros Hwf Hl Hr. apply wp_bind. eapply wp_mono; [apply accessData_answers; assumption| |contradiction].
  intros [lb lu] w1 (Hlf & Hlu & Hq1). cbn [fst snd] in *. destruct (quiet_extends _ _ Hq1) as (L1 & W1 & T1).
  apply wp_bind. eapply wp_mono; [apply accessData_answers; [exact W1|lia]| |contradiction].
  intros [rb ru] w2 (Hrf & Hru & Hq2). cbn [fst snd] in *. pose proof (text_quiet_trans _ _ _ Hq1 Hq2) as Hq.
  destruct (T1 r Hr) as [Tr Fr]. rewrite Tr in Hru. rewrite Fr in Hrf. destruct (quiet_extends _ _ Hq) as (L2 & W2 & T2).
  destruct (lb && rb) eqn:Eb.
  - apply andb_true_iff in Eb as [-> ->]. eapply wp_mono; [apply (newString_makes _ w)| |contradiction].
    + apply quiet_extends, Hq.
    + subst lu ru. pose proof (has8_read _ _ _ Hlf Hwf eq_refl) as H1. pose proof (has8_read _ _ _ Hrf Hwf eq_refl) as H2.
      split; [|split; [intros _; apply Forall_app; split; assumption|exact I]]. cbn [cellText].
      apply Forall_app. split; apply textAt_units, Hwf.
    + intros a w3 Hm. cbn [cellText] in Hm. subst lu ru. exact Hm.
  - destruct (new_builder_ok (cells w2)) as [Hn Hnt].
    apply wp_bind. eapply wp_mono; [apply appendString_ok; [exact W2|exact Hn|lia]| |contradiction].
    intros b1 w3 (Hq3 & Hb1 & Ht1). destruct (quiet_extends _ _ Hq3) as (L3 & W3 & T3).
    apply wp_bind. eapply wp_mono; [apply appendString_ok; [exact W3|exact Hb1|lia]| |contradiction].
    intros b2 w4 (Hq4 & Hb2 & Ht2). destruct (quiet_extends _ _ Hq4) as (L4 & W4 & T4).
    eapply wp_mono; [apply finalizeBuilder_ok; [exact W4|exact Hb2]| |intros e w5 (_ & [=] & _)].
    intros a w5 [(He & Ha & Ht) _]. pose proof (text_quiet_trans _ _ _ Hq (text_quiet_trans _ _ _ Hq3 Hq4)) as Hq5.
    split; [eapply text_extends_trans; [apply quiet_extends, Hq5|exact He]|]. split; [exact Ha|].
    rewrite Ht, Ht2, Ht1, Hnt. destruct (T3 r ltac:(lia)) as [-> _]. destruct (T2 r Hr) as [-> _], (T2 l Hl) as [-> _]. reflexivity.
Qed.

Lemma createRopeString_makes w l r state : wf_cells (cells w) -> (l < length (cells w))%nat -> (r < length (cells w))%nat ->
  wp (createRopeString l r state) w
     (fun a w' => makes w (textAt (cells w) l ++ textAt (cells w) r) a w' /\
        (textAt (cells w) l <> [] -> textAt (cells w) r <> [] ->
         ~ tooLong state (length (textAt (cells w) l) + length (textAt (cells w) r))))
     (fun _ w' => w' = w /\ tooLong state (length (textAt (cells w) l) + length (textAt (cells w) r))).
Proof.
  intros Hwf Hl Hr. destruct (lookup_lt_is_Some_2 _ _ Hl) as [lc El], (lookup_lt_is_Some_2 _ _ Hr) as [rc Er].
  unfold createRopeString. apply wp_bind, (wp_cellAt _ lc); [exact El|]. rewrite (String_length_text _ _ _ Hwf El).
  destruct (Nat.eqb_spec (length (textAt (cells w) l)) 0) as [Hl0|Hl0].
  { apply wp_ret. destruct (textAt (cells w) l); [|discriminate]. split; [|congruence].
    split; [apply text_extends_refl, Hwf|]. split; [exact Hr|reflexivity]. }
  apply wp_bind, (wp_cellAt _ rc); [exact Er|]. rewrite (String_length_text _ _ _ Hwf Er).
  destruct (Nat.eqb_spec (length (textAt (cells w) r)) 0) as [Hr0|Hr0].
  { apply wp_ret. destruct (textAt (cells w) r); [|discriminate]. split; [|congruence].
    split; [apply text_extends_refl, Hwf|]. split; [exact Hl|]. rewrite app_nil_r. reflexivity. }
  destruct (Nat.leb_spec (length (textAt (cells w) l) + length (textAt (cells w) r)) LATIN1_LARGE_INLINE_BUFFER_MAX_SIZE) as [Hs|Hs].
  { eapply wp_mono; [apply shortRope_makes; assumption| |contradiction]. intros a w' Hm. split; [exact Hm|]. unfold tooLong. lia. }
  destruct (state && _) eqn:Emax.
  { apply andb_true_iff in Emax as [-> Em]. apply wp_throw. to_prop. unfold tooLong. auto. }
  assert (Hn : ~ tooLong state (length (textAt (cells w) l) + length (textAt (cells w) r))).
  { intros (-> & _ & Hm). cbn [andb] in Emax. to_prop. lia. }
  eapply wp_mono; [apply (newString_makes w w)| |contradiction].
  - apply text_extends_refl, Hwf.
  - destruct (proj2 Hwf _ _ El) as (U1 & B1 & _), (proj2 Hwf _ _ Er) as (U2 & B2 & _).
    split; [apply Forall_app; split; assumption|]. split.
    + cbn [has8BitContent cellText]. intros Hb. apply andb_true_iff in Hb as [Hb1 Hb2]. apply Forall_app. auto.
    + split_and!; try assumption; try reflexivity; intros E; rewrite E in *; cbn in *; lia.
  - intros a w' Hm. split; [exact Hm|auto].
Qed.

Lemma newView_makes w str s e : wf_cells (cells w) -> (str < length (cells w))%nat ->
  (s <= e)%nat -> (e <= length (textAt (cells w) str))%nat ->
  wp (newView str s e) w (makes w (take (e - s) (drop s (textAt (cells w) str)))) never.
Proof.
  intros Hwf Hstr Hse He. destruct (lookup_lt_is_Some_2 _ _ Hstr) as [c Ec].
  unfold newView. apply wp_bind, (wp_cellAt _ c); [exact Ec|]. apply (newString_makes w w); [apply text_extends_refl, Hwf|].
  split; [apply Forall_take, Forall_drop, textAt_units, Hwf|]. split.
  - cbn [has8BitContent cellText]. intros Hb. apply Forall_take, Forall_drop. apply (proj2 Hwf _ _ Ec), Hb.
  - split; [exact Hstr|]. split; [lia|]. eauto.
Qed.

Lemma substring_makes w str from to : wf_cells (cells w) -> (str < length (cells w))%nat ->
  (from <= to)%nat -> (to <= length (textAt (cells w) str))%nat ->
  wp (substring str from to) w (makes w (take (to - from) (drop from (textAt (cells w) str)))) never.
Proof.
  intros Hwf Hstr Hse He. unfold substring. destruct (_ <? _)%nat; [apply newView_makes; assumption|].
  destruct (new_builder_ok (cells w)) as [Hn Hnt]. apply wp_bind.
  eapply wp_mono; [apply appendSubString_ok; eassumption| |contradiction]. intros b w1 (Hq & Hb & Ht).
  eapply wp_mono; [apply finalizeBuilder_ok; [apply (quiet_extends _ _ Hq)|exact Hb]| |intros e w5 (_ & [=] & _)].
  intros a w2 [(He2 & Ha & Ht2) _]. split; [eapply text_extends_trans; [apply quiet_extends, Hq|exact He2]|].
  split; [exact Ha|]. rewrite Ht2, Ht, Hnt. reflexivity.
Qed.

(** What [charAt] may change: how ropes are stored, and the string that was read last. *)
Definition unseen (w w' : World) : Prop :=
  same_texts (cells w) (cells w') /\ g_headOfCharAt w' = g_headOfCharAt w.

Lemma quiet_unseen w w' : quiet w w' -> unseen w w'.
Proof. intros (H1 & _ & H2). split; assumption. Qed.

Lemma charAtAccess_reads w a idx : wf_cells (cells w) -> (a < length (cells w))%nat ->
  wp (charAtAccess a idx) w (fun ch w' => ch = nth idx (textAt (cells w) a) 0 /\ quiet w w') never.
Proof.
  intros Hwf Ha. apply wp_bind. eapply wp_mono; [apply accessData_answers; assumption| |contradiction].
  intros [b u] w' (_ & Hu & Hq). apply wp_ret. cbn [snd] in *. subst u. auto.
Qed.

Lemma isRope_cell c : isRopeString c && negb (wasFlattened c) = true <-> exists b n l r, c = Rope b n l r.
Proof. destruct c; cbn; split; try discriminate; try (intros (? & ? & ? & ? & [=])); eauto. Qed.

(** The worker goes down without changing anything, and reads the right unit. *)
Lemma charAtWorker_reads w a b n l r idx : wf_cells (cells w) -> cells w !! a = Some (Rope b n l r) ->
  (idx < length (textAt (cells w) a))%nat ->
  wp (charAtWorker idx a) w (fun ch w' => ch = nth idx (textAt (cells w) a) 0 /\ quiet w w') never.
Proof.
  intros Hwf Ea Hidx. unfold charAtWorker.
  apply (wp_loop (fun s w' => w' = w /\ (exists b n l r, cells w !! fst s = Some (Rope b n l r)) /\
      (snd s < length (textAt (cells w) (fst s)))%nat /\
      nth (snd s) (textAt (cells w) (fst s)) 0 = nth idx (textAt (cells w) a) 0) (fun s _ => fst s));
    [|cbn; split_and!; eauto|cbn; lia].
  clear b n l r Ea. intros [self i] w' (-> & (b & n & l & r & E) & Hi & Hnth). cbn [fst snd charAtWorker_turn] in *.
  apply wp_bind, (wp_cellAt _ _ _ _ _ E). pose proof (textAt_cell _ _ _ Hwf E) as Et. cbn beta iota in Et.
  destruct (proj2 Hwf _ _ E) as (_ & _ & Hl & Hr & _). pose proof (lookup_lt_Some _ _ _ E) as Hself.
  destruct (lookup_lt_is_Some_2 (cells w) l ltac:(lia)) as [lc El], (lookup_lt_is_Some_2 (cells w) r ltac:(lia)) as [rc Er].
  apply wp_bind, (wp_cellAt _ _ _ _ _ El). rewrite (String_length_text _ _ _ Hwf El).
  rewrite Et in Hnth, Hi. rewrite length_app in Hi. destruct (Nat.ltb_spec i (length (textAt (cells w) l))) as [Hlt|Hge].
  - rewrite app_nth1 in Hnth by exact Hlt. destruct (isRopeString lc && _) eqn:Ec.
    + apply isRope_cell in Ec as (b' & n' & l' & r' & ->). apply wp_ret. cbn [fst snd]. split_and!; eauto.
    + apply wp_bind. eapply wp_mono; [apply charAtAccess_reads; [exact Hwf|lia]| |contradiction].
      intros ch w' [-> Hq]. apply wp_ret. auto.
  - rewrite app_nth2 in Hnth by lia.
    apply wp_bind, (wp_cellAt _ _ _ _ _ Er). destruct (isRopeString rc && _) eqn:Ec.
    + apply isRope_cell in Ec as (b' & n' & l' & r' & ->). apply wp_ret. cbn [fst snd]. split_and!; eauto. lia.
    + apply wp_bind. eapply wp_mono; [apply charAtAccess_reads; [exact Hwf|lia]| |contradiction].
      intros ch w' [-> Hq]. apply wp_ret. auto.
Qed.

Lemma charAt_reads w a idx : wf_cells (cells w) -> (idx < length (textAt (cells w) a))%nat ->
  wp (charAt a idx) w (fun ch w' => ch = nth idx (textAt (cells w) a) 0 /\ unseen w w') never.
Proof.
  intros Hwf Hidx. assert (Ha : (a < length (cells w))%nat).
  { destruct (cells w !! a) eqn:E; [apply lookup_lt_Some in E; exact E|]. unfold textAt in Hidx. cbn [textN] in Hidx.
    rewrite E in Hidx. cbn in Hidx. lia. }
  destruct (lookup_lt_is_Some_2 _ _ Ha) as [c Ec]. apply wp_bind, (wp_cellAt _ _ _ _ _ Ec).
  assert (Hplain : wp (charAtAccess a idx) w (fun ch w' => ch = nth idx (textAt (cells w) a) 0 /\ unseen w w') never).
  { eapply wp_mono; [apply charAtAccess_reads; assumption| |contradiction]. intros ch w' [-> Hq]. auto using quiet_unseen. }
  destruct c as [| |b n l r|]; try exact Hplain.
  set (w1 := {| cells := cells w; g_lastUsedString := g_lastUsedString w; g_headOfCharAt := false |}).
  apply wp_bind. change (wp (isOftenUsed (g_headOfCharAt w) a) w1
    (fun often w' => wp (let! ch := if often then charAtAccess a idx else charAtWorker idx a in
       do! leaveChecker (g_headOfCharAt w) in ret ch) w' (fun ch w' => ch = nth idx (textAt (cells w) a) 0 /\ unseen w w') never) never).
  unfold isOftenUsed, wp at 1. 
  set (w2 := if g_headOfCharAt w then _ else w1). assert (Hc2 : cells w2 = cells w) by (subst w2; destruct (g_headOfCharAt w); reflexivity).
  apply wp_bind. eapply (wp_mono _ _ _ (fun ch w' => ch = nth idx (textAt (cells w) a) 0 /\ quiet w2 w') _ never); [| |contradiction].
  - rewrite <- Hc2 in *. destruct (bool_decide _); [apply charAtAccess_reads; assumption|].
    apply (charAtWorker_reads _ _ b n l r); assumption.
  - intros ch w3 [-> Hq]. cbn. split; [reflexivity|]. destruct Hq as [Hq _]. rewrite Hc2 in Hq. split; [exact Hq|reflexivity].
Qed.

(** * What shared strings guarantee

    Over any sequence of operations every string keeps its text, although ropes are
    written out in place; and concatenation and building do what they say. *)

(** ** Sequences of operations *)

Inductive step : World -> World -> Prop :=
| step_literal b u a w w' :
    Forall unit16 u -> (b = true -> Forall latin1 u) -> newString (Flat b u) w = (Ret a, w') -> step w w'
| step_concatenate l r state o w w' :
    (l < length (cells w))%nat -> (r < length (cells w))%nat -> createRopeString l r state w = (o, w') -> step w w'
| step_substring str from to a w w' :
    (str < length (cells w))%nat -> (from <= to <= length (textAt (cells w) str))%nat ->
    substring str from to w = (Ret a, w') -> step w w'
| step_view str from to a w w' :
    (str < length (cells w))%nat -> (from <= to <= length (textAt (cells w) str))%nat ->
    newView str from to w = (Ret a, w') -> step w w'
| step_read str d w w' :
    (str < length (cells w))%nat -> accessData str w = (Ret d, w') -> step w w'
| step_charAt str idx ch w w' :
    (idx < length (textAt (cells w) str))%nat -> charAt str idx w = (Ret ch, w') -> step w w'.

(** A run that a postcondition describes. *)
Lemma wp_result {A} (m : SM A) w Q X o w' : wp m w Q X -> m w = (o, w') ->
  match o with Ret a => Q a w' | Throw e => X e w' | Fuel => False end.
Proof. unfold wp. intros H E. rewrite E in H. destruct o; exact H. Qed.

Lemma step_extends w w' : wf_cells (cells w) -> step w w' -> extends (cells w) (cells w').
Proof.
  intros Hwf Hs. destruct Hs as [b u a w w' Hu Hb E|l r state o w w' Hl Hr E|str from to a w w' Hs Hr E|str from to a w w' Hs Hr E
    |str d w w' Hs E|str idx ch w w' Hi E].
  - refine (proj1 (wp_result _ _ _ _ _ _ (newString_makes w w (Flat b u) (text_extends_refl _ Hwf) _) E)).
    split; [exact Hu|]. split; [exact Hb|exact I].
  - pose proof (wp_result _ _ _ _ _ _ (createRopeString_makes w l r state Hwf Hl Hr) E) as H.
    destruct o as [a|e|]; [apply H|destruct H as [-> _]; apply text_extends_refl, Hwf|contradiction].
  - apply (wp_result _ _ _ _ _ _ (substring_makes w str from to Hwf Hs ltac:(lia) ltac:(lia)) E).
  - apply (wp_result _ _ _ _ _ _ (newView_makes w str from to Hwf Hs ltac:(lia) ltac:(lia)) E).
  - apply quiet_extends. apply (wp_result _ _ _ _ _ _ (accessData_answers w str Hwf Hs) E).
  - apply same_extends. apply (wp_result _ _ _ _ _ _ (charAt_reads w str idx Hwf Hi) E).
Qed.

Lemma steps_extend w w' : rtc step w w' -> wf_cells (cells w) -> extends (cells w) (cells w').
Proof.
  induction 1 as [w|w w1 w2 H1 _ IH]; intros Hwf; [apply text_extends_refl, Hwf|].
  pose proof (step_extends _ _ Hwf H1) as He. eapply text_extends_trans; [exact He|]. apply IH, He.
Qed.

(** C23: a string keeps its text for ever: after any sequence of concatenations,
    substrings, views and reads, which write ropes out in place, reading the whole
    string or one of its units ends and answers the text the string always had. *)
Theorem strings_keep_their_texts w w' a : wf_cells (cells w) -> rtc step w w' -> (a < length (cells w))%nat ->
  wp (accessData a) w' (fun d w'' => snd d = textAt (cells w) a /\ same_texts (cells w') (cells w'')) never /\
  forall idx, (idx < length (textAt (cells w) a))%nat ->
    wp (charAt a idx) w' (fun ch w'' => ch = nth idx (textAt (cells w) a) 0 /\ same_texts (cells w') (cells w'')) never.
Proof.
  intros Hwf Hs Ha. destruct (steps_extend _ _ Hs Hwf) as (L & W & T). destruct (T a Ha) as [Ht _]. split.
  - eapply wp_mono; [apply accessData_answers; [exact W|lia]| |contradiction].
    intros d w'' (_ & -> & Hq). split; [exact Ht|apply Hq].
  - intros idx Hi. rewrite <- Ht in *. eapply wp_mono; [apply charAt_reads; [exact W|exact Hi]| |contradiction].
    intros ch w'' [-> Hq]. split; [reflexivity|apply Hq].
Qed.

(** Concatenation of two strings gives a string whose text is the one text after
    the other, and leaves every string as it was; it throws exactly when there is a
    state to throw in, both strings have units, and there are more than the longest
    string may have. *)
Theorem concatenation w l r state : wf_cells (cells w) -> (l < length (cells w))%nat -> (r < length (cells w))%nat ->
  let lt := textAt (cells w) l in
  let rt := textAt (cells w) r in
  if state && negb (length lt =? 0)%nat && negb (length rt =? 0)%nat && (STRING_MAXIMUM_LENGTH <? Z.of_nat (length lt + length rt))
  then createRopeString l r state w = (Throw String_InvalidStringLength, w)
  else exists a w', createRopeString l r state w = (Ret a, w') /\ makes w (lt ++ rt) a w'.
Proof.
  intros Hwf Hl Hr lt rt. pose proof (createRopeString_makes w l r state Hwf Hl Hr) as H. fold lt rt in H.
  apply wp_run in H as [(a & w' & E & Hm & Hn)|([] & w' & E & -> & Hs & Ht)].
  - destruct (state && _ && _ && _) eqn:Ec; [|eauto]. exfalso.
    apply andb_true_iff in Ec as [Ec Em]. apply andb_true_iff in Ec as [Ec Er]. apply andb_true_iff in Ec as [Es El].
    to_prop. apply Hn; [intros E0; rewrite E0 in *; cbn in *; congruence..|]. split; [exact Es|]. split; [|lia].
    unfold STRING_MAXIMUM_LENGTH, LATIN1_LARGE_INLINE_BUFFER_MAX_SIZE in *. lia.
  - rewrite Hs in *. destruct Ht as [Ht Hmax].
    assert (Hne : length lt <> 0%nat /\ length rt <> 0%nat).
    { unfold createRopeString in E. destruct (lookup_lt_is_Some_2 _ _ Hl) as [lc El], (lookup_lt_is_Some_2 _ _ Hr) as [rc Er].
      unfold bind, cellAt in E. rewrite El, (String_length_text _ _ _ Hwf El) in E. fold lt in E.
      destruct (Nat.eqb_spec (length lt) 0) as [|Hl0]; [discriminate|]. rewrite Er, (String_length_text _ _ _ Hwf Er) in E. fold rt in E.
      destruct (Nat.eqb_spec (length rt) 0) as [|Hr0]; [discriminate|]. auto. }
    rewrite (proj2 (Nat.eqb_neq _ _) (proj1 Hne)), (proj2 (Nat.eqb_neq _ _) (proj2 Hne)). cbn [andb negb].
    rewrite (proj2 (Z.ltb_lt _ _) Hmax). exact E.
Qed.

(** ** Building *)

(** [appendString], [appendSubString] and [appendChar] by the kind of piece. *)
Definition appendPiece (b : StringBuilder) (p : StringBuilderPiece) : SM StringBuilder :=
  match p with
  | StringPiece str s e => appendSubString b str s e
  | ConstChar data => ret (appendConstChar b data)
  | Char ch => ret (appendChar b ch)
  end.

Fixpoint appendPieces (b : StringBuilder) (ps : list StringBuilderPiece) : SM StringBuilder :=
  match ps with
  | [] => ret b
  | p :: ps => let! b := appendPiece b p in appendPieces b ps
  end.

Lemma appendPiece_ok w b p : wf_cells (cells w) -> builder_ok (cells w) b -> piece_ok (cells w) p ->
  wp (appendPiece b p) w (fun b' w' => quiet w w' /\ builder_ok (cells w') b' /\
     builderText (cells w') b' = builderText (cells w) b ++ pieceText (cells w) p) never.
Proof.
  intros Hwf Hb Hp. destruct p as [str s e|data|ch]; cbn [appendPiece pieceText piece_ok] in *.
  - apply appendSubString_ok; tauto.
  - apply wp_ret. split; [apply text_quiet_refl, Hwf|]. apply appendConstChar_ok; assumption.
  - apply wp_ret. split; [apply text_quiet_refl, Hwf|]. apply appendChar_ok; assumption.
Qed.

Lemma appendPieces_ok ps : forall w b, wf_cells (cells w) -> builder_ok (cells w) b -> Forall (piece_ok (cells w)) ps ->
  wp (appendPieces b ps) w (fun b' w' => quiet w w' /\ builder_ok (cells w') b' /\
     builderText (cells w') b' = builderText (cells w) b ++ concat (map (pieceText (cells w)) ps)) never.
Proof.
  induction ps as [|p ps IH]; intros w b Hwf Hb Hps; cbn [appendPieces map concat].
  { apply wp_ret. rewrite app_nil_r. split; [apply text_quiet_refl, Hwf|auto]. }
  apply Forall_cons_iff in Hps as [Hp Hps]. apply wp_bind. eapply wp_mono; [apply appendPiece_ok; assumption| |contradiction].
  intros b1 w1 (Hq1 & Hb1 & Ht1). pose proof (quiet_extends _ _ Hq1) as He. pose proof (fun p => piece_extends _ _ p He) as Hx.
  eapply wp_mono; [apply IH; [apply He|exact Hb1|]| |contradiction].
  - eapply List.Forall_impl; [|exact Hps]. intros p'. apply Hx.
  - intros b2 w2 (Hq2 & Hb2 & Ht2). split; [eapply text_quiet_trans; eassumption|]. split; [exact Hb2|].
    rewrite Ht2, Ht1, <- app_assoc. do 3 f_equal. apply List.map_ext_in. intros p' Hin. apply Hx.
    exact (proj1 (List.Forall_forall _ _) Hps p' Hin).
Qed.

(** A builder gives the concatenation of its pieces, in 8-bit or 16-bit storage
    without losing a unit, and leaves every string as it was; it throws exactly when
    there is a state to throw in and the text is longer than a string may be. *)
Theorem builder_concatenates w ps state : wf_cells (cells w) -> Forall (piece_ok (cells w)) ps ->
  let text := concat (map (pieceText (cells w)) ps) in
  wp (let! b := appendPieces newStringBuilder ps in finalizeBuilder b state) w
     (fun a w' => makes w text a w' /\ (state = true -> Z.of_nat (length text) <= STRING_MAXIMUM_LENGTH))
     (fun _ w' => same_texts (cells w) (cells w') /\ state = true /\ STRING_MAXIMUM_LENGTH < Z.of_nat (length text)).
Proof.
  intros Hwf Hps text. destruct (new_builder_ok (cells w)) as [Hn Hnt]. apply wp_bind.
  eapply wp_mono; [apply appendPieces_ok; eassumption| |contradiction]. intros b w1 (Hq & Hb & Ht).
  rewrite Hnt in Ht. cbn [app] in Ht. fold text in Ht.
  eapply wp_mono; [apply finalizeBuilder_ok; [apply (quiet_extends _ _ Hq)|exact Hb]| |]; rewrite Ht.
  - intros a w2 [(He & Ha & Ht2) Hmax]. split; [|exact Hmax]. split; [eapply text_extends_trans; [apply quiet_extends, Hq|exact He]|auto].
  - intros e w2 (-> & Hs & Hm). split; [apply Hq|auto].
Qed.

(** ** A world with a rope in a view *)

Definition exampleWorld : World :=
  {| cells := [Flat true []; Flat true (repeat 97 20); Flat false (repeat 0x4E2D 10); Rope false 30 1 2; View false 12 3 15];
     g_lastUsedString := None; g_headOfCharAt := true |}.

Lemma below_Forall bound l : forallb (fun u => (0 <=? u) && (u <? bound)) l = true -> Forall (fun u => 0 <= u < bound) l.
Proof.
  intros H. rewrite List.forallb_forall in H. apply List.Forall_forall. intros u Hu. specialize (H u Hu). to_prop. lia.
Qed.

Lemma example_wf : wf_cells (cells exampleWorld).
Proof.
  split; [reflexivity|]. intros a c Ha. assert (Hl := lookup_lt_Some _ _ _ Ha). cbn in Hl.
  destruct a as [|[|[|[|[|a]]]]]; try lia; cbn in Ha; injection Ha as <-;
    (split; [apply (below_Forall 65536); vm_compute; reflexivity|]);
    (split; [try (intros [=]; fail); intros _; apply (below_Forall 256); vm_compute; reflexivity|]); try exact I.
  - split_and!; [lia|lia|vm_compute; discriminate|vm_compute; discriminate|reflexivity].
  - split_and!; [lia|vm_compute; lia|]. eexists. split; reflexivity.
Qed.

Lemma strings_keep_their_texts_witness :
  wp (accessData 4) exampleWorld
     (fun d w'' => snd d = repeat 97 5 ++ repeat 0x4E2D 7 /\ same_texts (cells exampleWorld) (cells w'')) never.
Proof.
  exact (proj1 (strings_keep_their_texts exampleWorld exampleWorld 4 example_wf (rtc_refl _ _) ltac:(cbn; lia))).
Defined.

Lemma concatenation_witness :
  exists a w', createRopeString 4 1 true exampleWorld = (Ret a, w') /\
    makes exampleWorld (repeat 97 5 ++ repeat 0x4E2D 7 ++ repeat 97 20) a w'.
Proof. exact (concatenation exampleWorld 4 1 true example_wf ltac:(cbn; lia) ltac:(cbn; lia)). Defined.

Lemma builder_concatenates_witness :
  wp (let! b := appendPieces newStringBuilder [StringPiece 4 3 6; Char 33] in finalizeBuilder b true) exampleWorld
     (fun a w' => makes exampleWorld [97; 97; 0x4E2D; 33] a w' /\ (true = true -> 4 <= STRING_MAXIMUM_LENGTH))
     (fun _ w' => same_texts (cells exampleWorld) (cells w') /\ true = true /\ STRING_MAXIMUM_LENGTH < 4).
Proof.
  exact (builder_concatenates exampleWorld [StringPiece 4 3 6; Char 33] true example_wf
    ltac:(repeat constructor; cbn; lia || discriminate)).
Defined.
