(* ===== verification/ParseInt.v ===== *)
(** * [parseInt] ([runtime/GlobalObject.cpp])

    [builtinParseInt] on the text of its first argument and the int32 of its second,
    0 without one.  The number is accumulated in a [double], an operation at a time;
    it is an integer throughout ([Number]: [None] is infinity). *)

From Stdlib Require Import String.
From S2P Require Import Prelude Float64 LexChars LexState LexNumber NumberSpec.
Local Open Scope Z_scope.

Definition parseDigit (c radix : Z) : Z :=
  let digit :=
    if (48 <=? c) && (c <=? 57) then c - 48
    else if (65 <=? c) && (c <=? 90) then c - 65 + 10
    else if (97 <=? c) && (c <=? 122) then c - 97 + 10
    else -1 in
  if radix <=? digit then -1 else digit.

(** The value: NaN, or a sign and an integral double; [-0] is [Parsed true (Some 0)]. *)
Inductive ParsedNumber : Type :=
| ParsedNaN
| Parsed (negative : bool) (number : Number).

(** [for (; p < strLen; p++)] over white space. *)
Fixpoint skipWhiteSpace (s : list Z) : list Z :=
  match s with
  | c :: rest => if negb (isWhiteSpaceOrLineTerminator c) then s else skipWhiteSpace rest
  | [] => []
  end.

Definition readSign (s : list Z) : bool * list Z :=
  match s with
  | c :: rest => if c =? 43 then (false, rest) else if c =? 45 then (true, rest) else (false, s)
  | [] => (false, s)
  end.

(** The prefix [0x], which makes the radix 16. *)
Definition stripPrefix (radix : Z) (s : list Z) : Z * list Z :=
  match s with
  | c0 :: c1 :: rest =>
    if ((radix =? 0) || (radix =? 16)) && (c0 =? 48) && ((c1 =? 120) || (c1 =? 88)) then (16, rest) else (radix, s)
  | _ => (radix, s)
  end.

(** [number *= radix; number += digit]. *)
Definition accumulate (number : Number) (radix digit : Z) : Number :=
  match number with
  | None => None
  | Some x => match to_double (x * radix) with
              | None => None
              | Some y => to_double (y + digit)
              end
  end.

(** The loop over the digits: [sawDigit] and [number]. *)
Fixpoint readDigits (radix : Z) (s : list Z) (sawDigit : bool) (number : Number) : bool * Number :=
  match s with
  | [] => (sawDigit, number)
  | c :: rest =>
    let digit := parseDigit c radix in
    if digit =? -1 then (sawDigit, number) else readDigits radix rest true (accumulate number radix digit)
  end.

Definition builtinParseInt (s : list Z) (radix : Z) : ParsedNumber :=
  let s := skipWhiteSpace s in
  let '(negative, s) := readSign s in
  let '(radix, s) := stripPrefix radix s in
  let radix := if radix =? 0 then 10 else radix in
  if (radix <? 2) || (36 <? radix) then ParsedNaN
  else match readDigits radix s false (Some 0) with
       | (false, _) => ParsedNaN
       | (true, number) => Parsed negative number
       end.

(** ** Exactness *)

(** The thirty-six numerals in order, and their capital forms. *)
Definition numerals : list Z := bytes "0123456789abcdefghijklmnopqrstuvwxyz".
Definition capitals : list Z := bytes "0123456789ABCDEFGHIJKLMNOPQRSTUVWXYZ".

(** The character [c] is the digit [v] of the radix. *)
Definition numeral (radix c v : Z) : Prop :=
  0 <= v < radix /\ (nth_error numerals (Z.to_nat v) = Some c \/ nth_error capitals (Z.to_nat v) = Some c).

(** The number that digits stand for. *)
Definition digitsNumber (radix : Z) (vs : list Z) : Z := fold_left (fun n v => n * radix + v) vs 0.

(** The value of a character whatever the radix, and the limit of the radix. *)
Definition anyDigit (c : Z) : Z :=
  if (48 <=? c) && (c <=? 57) then c - 48 else if (65 <=? c) && (c <=? 90) then c - 65 + 10
  else if (97 <=? c) && (c <=? 122) then c - 97 + 10 else -1.

Lemma parseDigit_at c radix : parseDigit c radix = if radix <=? anyDigit c then -1 else anyDigit c.
Proof. reflexivity. Qed.

Lemma numeral_parseDigit radix c v : 2 <= radix <= 36 -> numeral radix c v -> parseDigit c radix = v.
Proof.
  intros Hr [Hv H]. assert (E : exists n, v = Z.of_nat n /\ (n < 36)%nat) by (exists (Z.to_nat v); lia).
  destruct E as (n & -> & Hn). rewrite Nat2Z.id in H.
  assert (E : parseDigit c 36 = Z.of_nat n).
  { clear Hv. do 36 (destruct n as [|n]; [destruct H as [[= <-]|[= <-]]; vm_compute; reflexivity|]). lia. }
  rewrite parseDigit_at in E |- *. destruct (36 <=? anyDigit c) eqn:E36; repeat case_if; to_prop; lia.
Qed.

Lemma parseDigit_range c radix : 2 <= radix -> parseDigit c radix = -1 \/ 0 <= parseDigit c radix < radix.
Proof. intros Hr. unfold parseDigit. repeat case_if; to_prop; lia. Qed.

Lemma parseDigit_codes c radix : parseDigit c radix <> -1 -> 48 <= c <= 122.
Proof.
  unfold parseDigit. intros H.
  destruct ((48 <=? c) && (c <=? 57)) eqn:E1; [to_prop; lia|].
  destruct ((65 <=? c) && (c <=? 90)) eqn:E2; [to_prop; lia|].
  destruct ((97 <=? c) && (c <=? 122)) eqn:E3; [to_prop; lia|].
  exfalso. apply H. destruct (radix <=? -1); reflexivity.
Qed.

Lemma parseDigit_numeral c radix : 2 <= radix <= 36 -> parseDigit c radix <> -1 -> numeral radix c (parseDigit c radix).
Proof.
  intros Hr H. destruct (parseDigit_range c radix ltac:(lia)) as [|Hd]; [contradiction|]. split; [exact Hd|].
  pose proof (parseDigit_codes c radix H) as Hc.
  assert (E : parseDigit c radix = parseDigit c 36).
  { rewrite parseDigit_at in H |- *. rewrite (parseDigit_at c 36). destruct (radix <=? anyDigit c) eqn:Er; repeat case_if; to_prop; lia. }
  rewrite E in *. clear E.
  assert (T : forallb (fun n => let c := Z.of_nat n in let d := parseDigit c 36 in
    (d =? -1) || bool_decide (nth_error numerals (Z.to_nat d) = Some c) || bool_decide (nth_error capitals (Z.to_nat d) = Some c))
    (seq 48 75) = true) by (vm_compute; reflexivity).
  rewrite List.forallb_forall in T. specialize (T (Z.to_nat c) ltac:(apply in_seq; lia)).
  cbv zeta in T. rewrite Z2Nat.id in T by lia.
  apply orb_prop in T as [T|T]; [apply orb_prop in T as [T|T]|].
  - apply Z.eqb_eq in T. contradiction.
  - left. exact (bool_decide_eq_true_1 _ T).
  - right. exact (bool_decide_eq_true_1 _ T).
Qed.

Lemma to_double_small z : 0 <= z < 2 ^ 53 -> to_double z = Some z.
Proof.
  intros Hz. rewrite to_double_64 by lia. f_equal. unfold round53.
  assert (E : Z.max 0 (Z.log2 z - 52) = 0).
  { destruct (Z.eq_dec z 0) as [->|]; [reflexivity|]. assert (Z.log2 z < 53) by (apply Z.log2_lt_pow2; lia). lia. }
  rewrite E. change (2 ^ 0) with 1. rewrite round_even_exact, Z.div_1_r by (lia || apply Z.mod_1_r). lia.
Qed.

Section Exactness.
Context (radix : Z) (Hradix : 2 <= radix <= 36).

Lemma number_from_le ds vs n : Forall2 (numeral radix) ds vs -> 0 <= n -> n <= fold_left (fun n v => n * radix + v) vs n.
Proof.
  intros H. revert n. induction H as [|c v ds vs [Hv _] _ IH]; intros n Hn; cbn [fold_left]; [lia|].
  etransitivity; [|apply IH; nia]. nia.
Qed.

(** No character, or one that is no digit. *)
Definition no_digit_first (rest : list Z) : Prop :=
  match rest with c :: _ => forall v, ~ numeral radix c v | [] => True end.

Lemma readDigits_exact ds vs rest : Forall2 (numeral radix) ds vs -> no_digit_first rest -> forall n saw, 0 <= n ->
  fold_left (fun n v => n * radix + v) vs n < 2 ^ 53 ->
  readDigits radix (ds ++ rest) saw (Some n)
  = (match ds with [] => saw | _ => true end, Some (fold_left (fun n v => n * radix + v) vs n)).
Proof.
  intros Hds Hrest. induction Hds as [|c v ds vs Hc Hds IH]; intros n saw Hn Hmax; cbn [app fold_left] in *.
  - destruct rest as [|c rest]; cbn [readDigits]; [reflexivity|]. cbn in Hrest.
    destruct (Z.eq_dec (parseDigit c radix) (-1)) as [->|H]; [reflexivity|].
    destruct (Hrest _ (parseDigit_numeral c radix Hradix H)).
  - cbn [readDigits]. rewrite (numeral_parseDigit _ _ _ Hradix Hc). destruct Hc as [Hv _].
    replace (v =? -1) with false by lia.
    pose proof (number_from_le ds vs (n * radix + v) Hds ltac:(nia)) as Hle.
    cbn [accumulate]. rewrite !to_double_small by nia. rewrite IH by (nia || exact Hmax). destruct ds; reflexivity.
Qed.
End Exactness.

(** The text of a sign. *)
Definition signText (negative : bool) (plus : bool) : list Z :=
  if negative then [45] else if plus then [43] else [].

Lemma skipWhiteSpace_app spaces s : Forall (fun c => isWhiteSpaceOrLineTerminator c = true) spaces ->
  match s with c :: _ => isWhiteSpaceOrLineTerminator c = false | [] => True end ->
  skipWhiteSpace (spaces ++ s) = s.
Proof.
  intros H Hs. induction H as [|c spaces Hc _ IH]; cbn [app skipWhiteSpace].
  - destruct s as [|c s]; [reflexivity|]. cbn. rewrite Hs. reflexivity.
  - rewrite Hc. exact IH.
Qed.

Lemma digit_not_space c : 43 <= c <= 122 -> isWhiteSpaceOrLineTerminator c = false.
Proof.
  intros Hc. assert (H : forallb (fun n => negb (isWhiteSpaceOrLineTerminator (Z.of_nat n))) (seq 43 80) = true) by (vm_compute; reflexivity).
  rewrite List.forallb_forall in H. specialize (H (Z.to_nat c) ltac:(apply in_seq; lia)).
  rewrite Z2Nat.id in H by lia. to_prop. exact H.
Qed.

(** The text starts with the prefix of hexadecimal numbers. *)
Definition prefixed (s : list Z) : Prop := exists x rest, s = 48 :: x :: rest /\ (x = 120 \/ x = 88).

(** How the radix of the digits comes about: it was given or left to be 10, and no
    prefix that counts stands before the digits; or there is the prefix [0x] and no
    other radix. *)
Inductive Radix (radix given : Z) (digits : list Z) : list Z -> Prop :=
| Radix_given : given = radix -> (given = 16 -> ~ prefixed digits) -> Radix radix given digits []
| Radix_default : given = 0 -> radix = 10 -> ~ prefixed digits -> Radix radix given digits []
| Radix_prefix x : given = 0 \/ given = 16 -> radix = 16 -> x = 120 \/ x = 88 -> Radix radix given digits [48; x].

Lemma stripPrefix_none given s : (given = 0 \/ given = 16 -> ~ prefixed s) -> stripPrefix given s = (given, s).
Proof.
  intros H. unfold stripPrefix. destruct s as [|c0 [|c1 s]]; [reflexivity..|].
  destruct (((given =? 0) || (given =? 16)) && (c0 =? 48) && ((c1 =? 120) || (c1 =? 88))) eqn:E; [|reflexivity].
  exfalso. to_prop. apply H; [lia|]. exists c1, s. split; [congruence|lia].
Qed.

Lemma readSign_text negative plus s : match s with c :: _ => 48 <= c <= 122 | [] => True end ->
  readSign (signText negative plus ++ s) = (negative, s).
Proof.
  intros Hs. unfold signText. destruct negative; [reflexivity|]. destruct plus; [reflexivity|].
  destruct s as [|c s]; [reflexivity|]. cbn. replace (c =? 43) with false by lia. replace (c =? 45) with false by lia. reflexivity.
Qed.

Lemma stripPrefix_radix radix given digits prefix : Radix radix given digits prefix -> 2 <= radix <= 36 ->
  exists r, stripPrefix given (prefix ++ digits) = (r, digits) /\ (if r =? 0 then 10 else r) = radix.
Proof.
  intros H Hr. destruct H as [ -> H| -> -> H|x Hg -> Hx]; [exists radix|exists 0|exists 16].
  - split; [apply stripPrefix_none; intros [|]; [lia|auto]|]. replace (radix =? 0) with false by lia. reflexivity.
  - split; [apply stripPrefix_none; auto|reflexivity].
  - split; [|reflexivity]. cbn [app stripPrefix]. destruct Hg as [->| ->], Hx as [->| ->]; reflexivity.
Qed.

(** [parseInt] reads white space, a sign, a prefix, and digits up to the first
    character that is no digit of the radix, and answers exactly the number that the
    digits stand for, with its sign, as long as that number is below 2 ^ 53. *)
Theorem parseInt_exact spaces negative plus prefix ds vs rest radix given :
  Forall (fun c => isWhiteSpaceOrLineTerminator c = true) spaces -> 2 <= radix <= 36 ->
  ds <> [] -> Forall2 (numeral radix) ds vs -> no_digit_first radix rest ->
  Radix radix given (ds ++ rest) prefix -> digitsNumber radix vs < 2 ^ 53 ->
  builtinParseInt (spaces ++ signText negative plus ++ prefix ++ ds ++ rest) given
  = Parsed negative (Some (digitsNumber radix vs)).
Proof.
  intros Hsp Hr Hne Hds Hrest Hradix Hmax.
  assert (Hhead : exists c s, prefix ++ ds ++ rest = c :: s /\ 48 <= c <= 122).
  { destruct Hradix; [..|exists 48; eexists; split; [reflexivity|lia]].
    all: destruct Hds as [|c v ds vs Hc Hds]; [congruence|]; exists c; eexists; split; [reflexivity|].
    all: apply (parseDigit_codes c radix); rewrite (numeral_parseDigit _ _ _ Hr Hc); destruct Hc; lia. }
  destruct Hhead as (c & s & Es & Hc). unfold builtinParseInt.
  rewrite skipWhiteSpace_app; [|exact Hsp|rewrite Es; unfold signText; destruct negative, plus; cbn [app]; apply digit_not_space; lia].
  rewrite readSign_text by (rewrite Es; exact Hc).
  destruct (stripPrefix_radix _ _ _ _ Hradix Hr) as (r & -> & ->).
  replace ((radix <? 2) || (36 <? radix)) with false by (symmetry; apply orb_false_intro; lia).
  rewrite (readDigits_exact radix Hr ds vs rest Hds Hrest 0 false ltac:(lia) Hmax). destruct ds; [congruence|reflexivity].
Qed.

Lemma parseInt_exact_witness :
  builtinParseInt (bytes "  -0xFfg") 0 = Parsed true (Some 255).
Proof.
  refine (parseInt_exact [32; 32] true false [48; 120] [70; 102] [15; 15] [103] 16 0 _ _ _ _ _ _ _).
  - repeat constructor.
  - lia.
  - discriminate.
  - apply Forall2_cons; [split; [lia|right; reflexivity]|].
    apply Forall2_cons; [split; [lia|left; reflexivity]|constructor].
  - intros v [Hv H]. assert (E : parseDigit 103 16 = v) by (apply numeral_parseDigit; [lia|split; assumption]).
    vm_compute in E. lia.
  - apply Radix_prefix; [left; reflexivity|reflexivity|left; reflexivity].
  - reflexivity.
Defined.

(** Beyond 2 ^ 53 every step rounds: the result is not the double nearest to the
    number, not even for 18 decimal digits, or in radix 2. *)
Lemma parseInt_rounds_twice :
  builtinParseInt (bytes "457403802562782197") 10 = Parsed false (Some 457403802562782144) /\
  to_double 457403802562782197 = Some 457403802562782208 /\
  builtinParseInt (bytes "1000000000000000000000000000000000000000000000000000011") 2 = Parsed false (Some (2 ^ 54)) /\
  to_double (2 ^ 54 + 3) = Some (2 ^ 54 + 4).
Proof. repeat split; vm_compute; reflexivity. Qed.
