(* ===== verification/Sort.v ===== *)
(** * Merge sort ([util/Util.h]) and the order of [Array.prototype.sort]

    [mergeSort] merges runs of width 1, 2, 4, … from one buffer into the other and
    back.  A buffer is a list that is read and written by index; the comparator is
    any code: it can change the state, throw, give inconsistent answers, or end the
    sort by returning false.  Indices are natural numbers: the size of a buffer is
    far below the range of [size_t]. *)

From stdpp Require Import list sorting.
From Stdlib Require Import Sorting.Permutation.
From S2P Require Import Prelude Value.
Local Open Scope esc_scope.
Local Open Scope nat_scope.

(** An access outside of a buffer, or what the comparator threw. *)
Inductive SortError (E : Type) := OutOfBuffer | Raised (e : E).
Arguments OutOfBuffer {E}.
Arguments Raised {E} e.

Section MergeSort.
Context {W E T : Type}.
Abbreviation SortM := (M W (SortError E)).
(** [c(a, b, &lessOrEqual)]: the answer of the comparison, or [None] when [c] returns
    false. *)
Context (c : T -> T -> SortM (option bool)).

Definition readAt (src : list T) (i : nat) : SortM T :=
  match src !! i with Some x => ret x | None => throw OutOfBuffer end.
Definition writeAt (dst : list T) (i : nat) (x : T) : SortM (list T) :=
  if i <? length dst then ret (<[i := x]> dst) else throw OutOfBuffer.

(** The loop of [merge] for [n] more elements; [None] is [return false]. *)
Fixpoint merge_loop (n : nat) (src : list T) (leftEnd rightEnd dstIndex left right : nat) (dst : list T)
    : SortM (option (list T)) :=
  match n with
  | O => ret (Some dst)
  | S n =>
    let takeRight :=
      let! x := readAt src right in
      let! dst := writeAt dst dstIndex x in
      merge_loop n src leftEnd rightEnd (S dstIndex) left (S right) dst in
    let takeLeft :=
      let! x := readAt src left in
      let! dst := writeAt dst dstIndex x in
      merge_loop n src leftEnd rightEnd (S dstIndex) (S left) right dst in
    if right <? rightEnd then
      if leftEnd <=? left then takeRight
      else
        let! r := readAt src right in
        let! l := readAt src left in
        let! result := c r l in
        match result with
        | None => ret None
        | Some lessOrEqual => if lessOrEqual then takeRight else takeLeft
        end
    else takeLeft
  end.

Definition merge (dst src : list T) (srcIndex srcEnd width : nat) : SortM (option (list T)) :=
  let left := srcIndex in
  let leftEnd := Nat.min (left + width) srcEnd in
  let right := leftEnd in
  let rightEnd := Nat.min (right + width) srcEnd in
  merge_loop (rightEnd - left) src leftEnd rightEnd left left right dst.

(** The inner loop: one pass over the runs. *)
Fixpoint merge_pass (fuel : nat) (src : list T) (nelems width srcIndex : nat) (dst : list T)
    : SortM (option (list T)) :=
  if srcIndex <? nelems then
    match fuel with
    | O => out_of_fuel
    | S fuel =>
      let! r := merge dst src srcIndex nelems width in
      match r with
      | None => ret None
      | Some dst => merge_pass fuel src nelems width (srcIndex + 2 * width) dst
      end
    end
  else ret (Some dst).

(** The outer loop: the pass, then the buffers change places.  The flag says that
    [src] is [array]. *)
Fixpoint merge_passes (fuel : nat) (nelems width : nat) (src dst : list T) (srcIsArray : bool)
    : SortM (option (list T * list T * bool)) :=
  if width <? nelems then
    match fuel with
    | O => out_of_fuel
    | S fuel =>
      let! r := merge_pass nelems src nelems width 0 dst in
      match r with
      | None => ret None
      | Some dst => merge_passes fuel nelems (width * 2) dst src (negb srcIsArray)
      end
    end
  else ret (Some (src, dst, srcIsArray)).

(** [array[i] = src[i]] for the elements below [nelems]. *)
Definition copyBack (nelems : nat) (array src : list T) : SortM (list T) :=
  if (nelems <=? length array) && (nelems <=? length src) then ret (take nelems src ++ drop nelems array)
  else throw OutOfBuffer.

(** [mergeSort]: the contents of [array] afterwards, or [None] for [return false]. *)
Definition mergeSort (array : list T) (nelems : nat) (scratch : list T) : SortM (option (list T)) :=
  let! r := merge_passes nelems nelems 1 array scratch true in
  match r with
  | None => ret None
  | Some (src, dst, srcIsArray) =>
    if srcIsArray : bool then ret (Some src)
    else let! array := copyBack nelems dst src in ret (Some array)
  end.
End MergeSort.

(** ** The comparator of [builtinArraySort] *)

Section SortCompare.
Context {W E : Type}.
(** The last part of the comparator: the comparison of strings, or the call of
    [cmpfn] and the test [< 0]. *)
Context (compareValues : Z -> Z -> M W E bool).

Definition sortCompare (a b : Z) : M W E bool :=
  if isEmpty a && isUndefined b then ret false
  else if isUndefined a && isEmpty b then ret true
  else if isEmpty a || isUndefined a then ret false
  else if isEmpty b || isUndefined b then ret true
  else compareValues a b.
End SortCompare.

(** ** The calls of [mergeSort] *)

Section SortValues.
Context {W E : Type} (comp : Z -> Z -> M W E bool).

Definition raising {A} (m : M W E A) : M W (SortError E) A := fun s =>
  match m s with
  | (Ret a, s) => (Ret a, s)
  | (Throw e, s) => (Throw (Raised e), s)
  | (Fuel, s) => (Fuel, s)
  end.

(** The lambda of [Object::sort] and [ArrayObject::sort], which returns true. *)
Definition sortLambda (a b : Z) : M W (SortError E) (option bool) :=
  let! lessOrEqual := raising (comp a b) in ret (Some lessOrEqual).

(** [mergeSort] on a buffer of [length buffer] elements with a scratch buffer of the
    same size, whatever that holds. *)
Definition sortBuffer (buffer scratch : list Z) : M W (SortError E) (option (list Z)) :=
  mergeSort sortLambda buffer (length buffer) scratch.
End SortValues.

(** * What merge sort promises

    With any comparator the sort ends, stays inside its buffers and permutes the
    array; with a strict weak order it is the stable sort. *)

(** ** Merged lists *)

Section Merged.
Context {T : Type}.

(** [m] is merged from [l] and [r]; [ok y x b] says that the comparison of [y] of the
    right run with [x] of the left can have been answered by [b]. *)
Inductive Merged (ok : T -> T -> bool -> Prop) : list T -> list T -> list T -> Prop :=
| merged_nil : Merged ok [] [] []
| merged_left x l m : Merged ok l [] m -> Merged ok (x :: l) [] (x :: m)
| merged_right y r m : Merged ok [] r m -> Merged ok [] (y :: r) (y :: m)
| merged_takeRight x l y r m : ok y x true -> Merged ok (x :: l) r m -> Merged ok (x :: l) (y :: r) (y :: m)
| merged_takeLeft x l y r m : ok y x false -> Merged ok l (y :: r) m -> Merged ok (x :: l) (y :: r) (x :: m).

Lemma merged_perm ok l r m : Merged ok l r m -> Permutation (l ++ r) m.
Proof.
  induction 1 as [|x l m _ IH|y r m _ IH|x l y r m _ _ IH|x l y r m _ _ IH]; cbn in *; try constructor; auto.
  rewrite <- IH. symmetry. apply (Permutation_middle (x :: l) r y).
Qed.

(** One pass over runs of width [w]. *)
Inductive Passed (ok : T -> T -> bool -> Prop) (w : nat) : list T -> list T -> Prop :=
| passed_nil : Passed ok w [] []
| passed_step l m l' : l <> [] -> Merged ok (take w l) (take w (drop w l)) m ->
    Passed ok w (drop (2 * w) l) l' -> Passed ok w l (m ++ l').

Lemma split_runs w (l : list T) : l = take w l ++ take w (drop w l) ++ drop (2 * w) l.
Proof.
  rewrite <- (take_drop w l) at 1. f_equal. rewrite <- (take_drop w (drop w l)) at 1. f_equal.
  rewrite drop_drop. f_equal. lia.
Qed.

Lemma passed_perm ok w l l' : Passed ok w l l' -> Permutation l l'.
Proof.
  induction 1 as [|l m l' _ Hm _ IH]; [constructor|]. rewrite (split_runs w l) at 1.
  rewrite <- IH, <- (merged_perm _ _ _ _ Hm), <- app_assoc. reflexivity.
Qed.

(** All passes from width [w] on. *)
Inductive Passes (ok : T -> T -> bool -> Prop) : nat -> list T -> list T -> Prop :=
| passes_end w l : length l <= w -> Passes ok w l l
| passes_step w l l1 l2 : w < length l -> Passed ok w l l1 -> Passes ok (w * 2) l1 l2 -> Passes ok w l l2.

Lemma passes_perm ok w l l' : Passes ok w l l' -> Permutation l l'.
Proof. induction 1 as [|w l l1 l2 _ H _ IH]; [reflexivity|]. rewrite (passed_perm _ _ _ _ H). exact IH. Qed.

End Merged.

(** ** The code against the merged lists *)

Section Code.
Context {W E T : Type} (c : T -> T -> M W (SortError E) (option bool)) (ok : T -> T -> bool -> Prop).
(** What the comparator keeps of the state. *)
Context (I : W -> Prop).

(** What holds when it throws; the code of the sort throws nothing of its own. *)
Context (raised : SortError E -> W -> Prop).

(** The comparator ends; its answers are [ok]. *)
Definition answers : Prop := forall a b s, I s ->
  wp (c a b) s (fun r s' => I s' /\ match r with Some v => ok a b v | None => True end) raised.
Context (Hc : answers).

Definition slice (i j : nat) (l : list T) : list T := take (j - i) (drop i l).

Lemma slice_cons i j (l : list T) x : l !! i = Some x -> i < j -> slice i j l = x :: slice (S i) j l.
Proof.
  intros Hx Hij. unfold slice. rewrite (drop_S l x i Hx). replace (j - i) with (S (j - S i)) by lia. reflexivity.
Qed.
Lemma slice_nil i j (l : list T) : j <= i -> slice i j l = [].
Proof. intros H. unfold slice. replace (j - i) with 0 by lia. reflexivity. Qed.

Lemma readAt_wp src i s (Q : T -> W -> Prop) :
  i < length src -> (forall x, src !! i = Some x -> Q x s) -> wp (readAt (E := E) src i) s Q raised.
Proof. intros H1 H2. unfold readAt. destruct (lookup_lt_is_Some_2 src i H1) as [x Hx]. rewrite Hx. apply wp_ret. auto. Qed.

Lemma writeAt_wp dst i x s (Q : list T -> W -> Prop) :
  i < length dst -> Q (<[i := x]> dst) s -> wp (writeAt (E := E) dst i x) s Q raised.
Proof. intros H1 H2. unfold writeAt. rewrite (proj2 (Nat.ltb_lt _ _) H1). exact H2. Qed.

(** The merged elements stand from [dstIndex] on. *)
Definition written (dst : list T) (dstIndex : nat) (m : list T) (dst' : list T) : Prop :=
  dst' = take dstIndex dst ++ m ++ drop (dstIndex + length m) dst.

Lemma written_cons dst i x m dst' : i < length dst -> written (<[i := x]> dst) (S i) m dst' -> written dst i (x :: m) dst'.
Proof.
  intros Hi ->. unfold written. rewrite (take_S_r _ i x) by (apply list_lookup_insert_eq; exact Hi).
  rewrite take_insert_ge, drop_insert_lt by lia. rewrite <- app_assoc. cbn. rewrite Nat.add_succ_r. reflexivity.
Qed.

(** What the rest of a merge of [l] and [r] into [dst] answers. *)
Definition merges (l r : list T) (dstIndex : nat) (dst : list T) (result : option (list T)) (s : W) : Prop :=
  I s /\ match result with
  | Some dst' => exists m, Merged ok l r m /\ written dst dstIndex m dst'
  | None => True
  end.

(** One element is moved, whichever run it is from. *)
Lemma move_wp src j x dst dstIndex k s l r l' r' : src !! j = Some x -> dstIndex < length dst ->
  (forall m, Merged ok l' r' m -> Merged ok l r (x :: m)) ->
  wp (k (<[dstIndex := x]> dst)) s (merges l' r' (S dstIndex) (<[dstIndex := x]> dst)) raised ->
  wp (let! y := readAt (E := E) src j in let! dst := writeAt dst dstIndex y in k dst) s (merges l r dstIndex dst) raised.
Proof.
  intros Hx Hd Hm Hk. apply wp_bind, readAt_wp; [eapply lookup_lt_Some; exact Hx|]. intros y Hy. replace y with x by congruence.
  apply wp_bind, writeAt_wp; [exact Hd|]. eapply wp_mono; [exact Hk| |auto].
  intros [dst'|] s'; [|intros [HI _]; split; auto]. intros (HI & m & H1 & H2). split; [exact HI|]. exists (x :: m).
  split; [auto|]. apply written_cons; assumption.
Qed.

Lemma merge_loop_ok n src leftEnd rightEnd : rightEnd <= length src -> leftEnd <= length src ->
  forall dstIndex left right dst s, I s -> n = (leftEnd - left) + (rightEnd - right) -> dstIndex + n <= length dst ->
  wp (merge_loop c n src leftEnd rightEnd dstIndex left right dst) s
     (merges (slice left leftEnd src) (slice right rightEnd src) dstIndex dst) raised.
Proof.
  intros HR HL. induction n as [|n IH]; intros dstIndex left right dst s HI Hn Hd.
  - apply wp_ret. split; [exact HI|]. exists []. rewrite !slice_nil by lia. split; [constructor|]. unfold written. cbn.
    rewrite Nat.add_0_r, take_drop. reflexivity.
  - assert (Hat : forall i j, i < j -> j <= length src -> exists x, src !! i = Some x)
      by (intros i j H1 H2; apply lookup_lt_is_Some_2; lia).
    cbn [merge_loop]. destruct (Nat.ltb_spec right rightEnd) as [Hlt|Hge].
    + destruct (Hat right rightEnd Hlt HR) as [y Hy]. rewrite (slice_cons right rightEnd src y Hy Hlt).
      destruct (Nat.leb_spec leftEnd left) as [Hle|Hlt'].
      * rewrite (slice_nil left) by lia. apply (move_wp src right y _ _ _ _ _ _ (slice left leftEnd src) (slice (S right) rightEnd src));
          [exact Hy|lia| |apply IH; rewrite ?length_insert; auto; lia].
        intros m. rewrite (slice_nil left) by lia. apply merged_right.
      * destruct (Hat left leftEnd Hlt' HL) as [x Hx]. rewrite (slice_cons left leftEnd src x Hx Hlt').
        apply wp_bind, readAt_wp; [lia|]. intros y' Hy'. replace y' with y by congruence.
        apply wp_bind, readAt_wp; [lia|]. intros x' Hx'. replace x' with x by congruence.
        apply wp_bind. eapply wp_mono; [apply Hc; exact HI| |auto]. intros [[|]|] s' [HI' Hok]; [| |split; auto].
        -- eapply (move_wp src right y); [exact Hy|lia|intros m; apply merged_takeRight; exact Hok|].
           rewrite <- (slice_cons left leftEnd src x Hx Hlt'). apply IH; rewrite ?length_insert; auto; lia.
        -- eapply (move_wp src left x); [exact Hx|lia|intros m; apply merged_takeLeft; exact Hok|].
           rewrite <- (slice_cons right rightEnd src y Hy Hlt). apply IH; rewrite ?length_insert; auto; lia.
    + rewrite (slice_nil right) by lia. destruct (Hat left leftEnd ltac:(lia) HL) as [x Hx].
      rewrite (slice_cons left leftEnd src x Hx) by lia.
      apply (move_wp src left x _ _ _ _ _ _ (slice (S left) leftEnd src) (slice right rightEnd src));
        [exact Hx|lia| |apply IH; rewrite ?length_insert; auto; lia].
      intros m. rewrite (slice_nil right) by lia. apply merged_left.
Qed.

(** ** Passes *)

Lemma slice_left w (l : list T) n i : slice i (Nat.min (i + w) n) l = take w (drop i (take n l)).
Proof. unfold slice. rewrite skipn_firstn_comm, take_take. f_equal. lia. Qed.

Lemma slice_right w (l : list T) n i (j := Nat.min (i + w) n) :
  slice j (Nat.min (j + w) n) l = take w (drop w (drop i (take n l))).
Proof.
  unfold slice, j. rewrite drop_drop, skipn_firstn_comm, take_take. destruct (Nat.le_gt_cases (i + w) n) as [H|H].
  - rewrite (Nat.min_l (i + w) n) by lia. f_equal. lia.
  - rewrite (Nat.min_r (i + w) n) by lia. replace (Nat.min (n + w) n - n) with 0 by lia.
    replace (Nat.min w (n - (i + w))) with 0 by lia. reflexivity.
Qed.

Lemma merge_ok dst src i n w s : I s -> i <= n -> n <= length src -> n <= length dst ->
  wp (merge c dst src i n w) s
     (merges (take w (drop i (take n src))) (take w (drop w (drop i (take n src)))) i dst) raised.
Proof.
  intros HI Hi Hs Hd. unfold merge. rewrite <- slice_left, <- (slice_right w src n i). apply merge_loop_ok; auto; lia.
Qed.

(** The merged elements of a step are as many as the runs. *)
Lemma merged_length l r m : Merged ok l r m -> length m = length l + length r.
Proof. intros H. rewrite <- (Permutation_length (merged_perm _ _ _ _ H)), length_app. reflexivity. Qed.

Lemma passed_length w l l' : Passed ok w l l' -> length l' = length l.
Proof. intros H. symmetry. exact (Permutation_length (passed_perm _ _ _ _ H)). Qed.

(** After a pass the merged runs stand in [dst] below [n]. *)
Definition passes (w : nat) (src dst : list T) (i n : nat) (result : option (list T)) (s : W) : Prop :=
  I s /\ match result with
  | Some dst' => exists l', Passed ok w (drop i (take n src)) l' /\ dst' = take (Nat.min i n) dst ++ l' ++ drop n dst
  | None => True
  end.

Lemma merge_pass_ok n w src : 0 < w -> n <= length src -> forall fuel i dst s, I s -> n <= i + fuel -> n <= length dst ->
  wp (merge_pass c fuel src n w i dst) s (passes w src dst i n) raised.
Proof.
  intros Hw Hs fuel. induction fuel as [|fuel IH]; intros i dst s HI Hf Hd; cbn [merge_pass];
    (destruct (Nat.ltb_spec i n) as [Hlt|Hge]; [|apply wp_ret; split; [exact HI|]; exists []; rewrite drop_ge, Nat.min_r by (rewrite ?length_take; lia);
      split; [constructor|cbn; rewrite take_drop; reflexivity]]); [lia|].
  apply wp_bind. eapply wp_mono; [apply merge_ok; auto; lia| |auto]. intros [dst1|] s1; [|intros [HI1 _]; split; auto].
  intros (HI1 & m & Hm & ->). pose proof (merged_length _ _ _ Hm) as Hlen. rewrite !length_take, !length_drop, !length_take in Hlen.
  set (dst1 := take i dst ++ m ++ drop (i + length m) dst).
  assert (Hd1 : length dst1 = length dst) by (unfold dst1; rewrite !length_app, length_take, length_drop; lia).
  eapply wp_mono; [apply IH; auto; lia| |auto]. intros [dst'|] s'; [|intros [HI' _]; split; auto]. intros (HI' & l' & Hp & ->).
  split; [exact HI'|]. exists (m ++ l'). split.
  - constructor; [|exact Hm|rewrite drop_drop; exact Hp]. intros Enil. apply (f_equal length) in Enil.
    rewrite length_drop, length_take in Enil. cbn in Enil. lia.
  - rewrite (Nat.min_l i n) by lia. assert (Hn : Nat.min (i + 2 * w) n = i + length m) by lia. rewrite Hn.
    assert (Ht : length (take i dst ++ m) = i + length m) by (rewrite length_app, length_take; lia).
    assert (E1 : dst1 = (take i dst ++ m) ++ drop (i + length m) dst) by (unfold dst1; rewrite <- app_assoc; reflexivity).
    rewrite E1, take_app_length' by (symmetry; exact Ht). rewrite (drop_app_ge _ (drop _ _)), drop_drop, Ht by lia.
    rewrite <- !app_assoc. do 4 f_equal. lia.
Qed.

(** Both buffers keep what lies from [n] on, and their lengths. *)
Definition swapped (w n : nat) (src dst : list T) (b : bool) (result : option (list T * list T * bool)) (s : W) : Prop :=
  I s /\ match result with
  | Some (src', dst', b') =>
    Passes ok w (take n src) (take n src') /\ n <= length dst' /\ n <= length src' /\
    drop n src' = drop n (if Bool.eqb b' b then src else dst) /\ drop n dst' = drop n (if Bool.eqb b' b then dst else src)
  | None => True
  end.

Lemma merge_passes_ok n : forall fuel w src dst b s, I s -> 0 < w -> n <= w + fuel -> n <= length src -> n <= length dst ->
  wp (merge_passes c fuel n w src dst b) s (swapped w n src dst b) raised.
Proof.
  induction fuel as [|fuel IH]; intros w src dst b s HI Hw Hf Hs Hd; cbn [merge_passes];
    (destruct (Nat.ltb_spec w n) as [Hlt|Hge]; [|apply wp_ret; unfold swapped; rewrite Bool.eqb_reflx; split_and!; auto;
      constructor; rewrite length_take; lia]); [lia|].
  apply wp_bind. eapply wp_mono; [apply (merge_pass_ok n w src Hw Hs n 0 dst); auto; lia| |auto].
  intros [dst1|] s1; [|intros [HI1 _]; split; auto]. intros (HI1 & l1 & Hp & Edst). rewrite drop_0 in Hp. cbn in Edst. subst dst1.
  pose proof (passed_length _ _ _ Hp) as Hl. rewrite length_take, Nat.min_l in Hl by exact Hs.
  eapply wp_mono; [apply IH; rewrite ?length_app, ?length_drop; auto; lia| |auto].
  intros [[[src' dst'] b']|] s'; [|intros [HI' _]; split; auto]. intros (HI' & H1 & H2 & H3 & H4 & H5).
  change (take 0 dst ++ l1 ++ drop n dst) with (l1 ++ drop n dst) in *. rewrite take_app_length' in H1 by (symmetry; exact Hl).
  split; [exact HI'|]. split; [|split_and!; auto].
  - econstructor; [rewrite length_take; lia|exact Hp|exact H1].
  - rewrite H4. destruct b, b'; cbn; rewrite ?drop_app_length' by (symmetry; exact Hl); reflexivity.
  - rewrite H5. destruct b, b'; cbn; rewrite ?drop_app_length' by (symmetry; exact Hl); reflexivity.
Qed.

(** The sort ends without an access outside of its buffers, and the elements below
    [nelems] are what the passes make of them. *)
Lemma mergeSort_ok array n scratch s : I s -> n <= length array -> n <= length scratch ->
  wp (mergeSort c array n scratch) s
     (fun result s' => I s' /\ match result with
                      | Some array' => exists l, Passes ok 1 (take n array) l /\ array' = l ++ drop n array
                      | None => True
                      end) raised.
Proof.
  intros HI Ha Hs. unfold mergeSort. apply wp_bind. eapply wp_mono; [apply (merge_passes_ok n n 1); auto; lia| |auto].
  intros [[[src dst] b]|] s'; [|intros [HI' _]; split; auto]. intros (HI' & H1 & H2 & H3 & H4 & H5). destruct b; cbn in H4, H5.
  - apply wp_ret. split; [exact HI'|]. exists (take n src). split; [exact H1|]. rewrite <- H4. symmetry. apply take_drop.
  - apply wp_bind. unfold copyBack. rewrite (proj2 (Nat.leb_le _ _) H2), (proj2 (Nat.leb_le _ _) H3). apply wp_ret.
    apply wp_ret. split; [exact HI'|]. exists (take n src). rewrite H5. auto.
Qed.
End Code.

(** ** The stable sort *)

(** A strict weak order: what the language asks of a consistent comparator. *)
Record strict_weak {T} (lt : T -> T -> bool) : Prop := {
  weak_asym : forall a b, lt a b = true -> lt b a = false;
  weak_trans : forall a b c, lt b a = false -> lt c b = false -> lt c a = false
}.

Section Stable.
Context {T : Type} (lt : T -> T -> bool).

(** The reference: insertion from the right, before the first element that is not
    smaller. *)
Fixpoint insertStable (x : T) (l : list T) : list T :=
  match l with
  | [] => [x]
  | y :: rest => if lt y x then y :: insertStable x rest else x :: l
  end.
Definition insertionSort (l : list T) : list T := fold_right insertStable [] l.

Context (Hlt : strict_weak lt).

Definition le (a b : T) : Prop := lt b a = false.
Definition same (a b : T) : bool := negb (lt a b) && negb (lt b a).
(** The elements that compare as [x], in their order. *)
Definition class (x : T) (l : list T) : list T := List.filter (same x) l.

Lemma le_refl a : le a a.
Proof. unfold le. destruct (lt a a) eqn:Eq; [|reflexivity]. rewrite <- Eq at 1. exact (weak_asym _ Hlt a a Eq). Qed.
Lemma le_trans a b c : le a b -> le b c -> le a c.
Proof. apply (weak_trans _ Hlt). Qed.
Lemma lt_le a b : lt a b = true -> le a b.
Proof. apply (weak_asym _ Hlt). Qed.
Lemma same_le a b : same a b = true <-> le a b /\ le b a.
Proof. unfold same, le. rewrite andb_true_iff, !negb_true_iff. tauto. Qed.
Lemma same_refl a : same a a = true.
Proof. apply same_le. split; apply le_refl. Qed.

(** What a sorted list says of its classes: below the head they are empty. *)
Lemma class_below x l : Forall (fun y => lt x y = true) l -> class x l = [].
Proof.
  induction 1 as [|y l Hy _ IH]; [reflexivity|]. unfold class in *. cbn. unfold same at 1. rewrite Hy. exact IH.
Qed.

Lemma class_app x l1 l2 : class x (l1 ++ l2) = class x l1 ++ class x l2.
Proof. apply List.filter_app. Qed.

(** A stable rearrangement keeps every class. *)
Definition stable (l l' : list T) : Prop := forall x, class x l' = class x l.

Lemma stable_trans l1 l2 l3 : stable l1 l2 -> stable l2 l3 -> stable l1 l3.
Proof. intros H1 H2 x. rewrite H2. apply H1. Qed.

(** Elements that are smaller can move over a sorted run. *)
Lemma stable_swap y x l r : lt y x = true -> Forall (le x) l -> stable (x :: l ++ y :: r) (y :: x :: l ++ r).
Proof.
  intros Hy Hl z. change (y :: x :: l ++ r) with ([y] ++ (x :: l) ++ r).
  change (x :: l ++ y :: r) with ((x :: l) ++ [y] ++ r). rewrite !class_app. destruct (same z y) eqn:Ez.
  - rewrite (class_below z (x :: l)); [reflexivity|]. apply same_le in Ez as [H1 H2].
    assert (Hz : forall a, le x a -> lt z a = true).
    { intros a Ha. destruct (lt z a) eqn:Eq; [reflexivity|]. pose proof (le_trans _ _ _ Ha (le_trans _ _ _ Eq H1)) as H.
      unfold le in H. congruence. }
    constructor; [apply Hz, le_refl|]. eapply Forall_impl; [|exact Hl]. exact Hz.
  - unfold class at 1 5. cbn. rewrite Ez. reflexivity.
Qed.

(** Both runs sorted, the merge with [lt] is sorted and stable. *)
Definition compared (y x : T) (b : bool) : Prop := b = lt y x.

Lemma merged_stable l r m : Merged compared l r m -> StronglySorted le l -> stable (l ++ r) m.
Proof.
  intros H. induction H as [|x l m _ IH|y r m _ IH|x l y r m Hb _ IH|x l y r m Hb _ IH]; intros Hl z.
  - reflexivity.
  - apply StronglySorted_inv in Hl as [Hl _]. specialize (IH Hl z). unfold class in *. cbn. rewrite IH. reflexivity.
  - specialize (IH Hl z). unfold class in *. cbn in *. rewrite IH. reflexivity.
  - specialize (IH Hl z). apply StronglySorted_inv in Hl as [_ Hx]. change ((x :: l) ++ y :: r) with (x :: l ++ y :: r).
    rewrite <- (stable_swap y x l r (eq_sym Hb) Hx z).
    change (y :: m) with ([y] ++ m). change (y :: x :: l ++ r) with ([y] ++ (x :: l) ++ r). rewrite !class_app, IH, !class_app.
    reflexivity.
  - apply StronglySorted_inv in Hl as [Hl _]. specialize (IH Hl z). unfold class in *. cbn. rewrite IH. reflexivity.
Qed.

Lemma merged_sorted l r m : Merged compared l r m -> StronglySorted le l -> StronglySorted le r -> StronglySorted le m.
Proof.
  intros H. induction H as [|x l m H IH|y r m H IH|x l y r m Hb H IH|x l y r m Hb H IH]; intros Hl Hr.
  - constructor.
  - apply StronglySorted_inv in Hl as [Hl Hx]. constructor; [auto|]. rewrite <- (merged_perm _ _ _ _ H), app_nil_r. exact Hx.
  - apply StronglySorted_inv in Hr as [Hr Hy]. constructor; [auto|]. rewrite <- (merged_perm _ _ _ _ H). exact Hy.
  - apply StronglySorted_inv in Hr as [Hr Hy]. constructor; [auto|]. rewrite <- (merged_perm _ _ _ _ H).
    apply Forall_app. split; [|exact Hy]. pose proof (lt_le y x (eq_sym Hb)) as Hyx.
    apply StronglySorted_inv in Hl as [_ Hx]. constructor; [exact Hyx|].
    eapply Forall_impl; [|exact Hx]. intros a. apply le_trans. exact Hyx.
  - apply StronglySorted_inv in Hl as [Hl Hx]. constructor; [auto|]. rewrite <- (merged_perm _ _ _ _ H).
    apply Forall_app. split; [exact Hx|]. apply StronglySorted_inv in Hr as [_ Hy]. assert (Hxy : le x y) by (symmetry; exact Hb).
    constructor; [exact Hxy|]. eapply Forall_impl; [|exact Hy]. intros a. apply le_trans. exact Hxy.
Qed.

(** Runs of width [w] are sorted. *)
Inductive Runs (w : nat) : list T -> Prop :=
| runs_nil : Runs w []
| runs_cons l : l <> [] -> StronglySorted le (take w l) -> Runs w (drop w l) -> Runs w l.

Lemma runs_head w l : Runs w l -> StronglySorted le (take w l) /\ Runs w (drop w l).
Proof. intros [|l' _ H1 H2]; [rewrite take_nil, drop_nil; split; constructor|auto]. Qed.

Lemma runs_one l : Runs 1 l.
Proof. induction l as [|x l IH]; constructor; [discriminate| |exact IH]. cbn. rewrite take_0. repeat constructor. Qed.

Lemma runs_prefix w m l : StronglySorted le m -> length m <= w -> (length m < w -> l = []) -> Runs w l -> Runs w (m ++ l).
Proof.
  intros Hm Hw Hshort Hl. destruct (decide (length m = w)) as [E|Hne].
  - destruct (m ++ l) as [|x ml] eqn:Eml; [constructor|]. rewrite <- Eml. constructor; [rewrite Eml; discriminate| |].
    + rewrite take_app_length' by congruence. exact Hm.
    + rewrite drop_app_length' by congruence. exact Hl.
  - rewrite Hshort, app_nil_r by lia. destruct m as [|x m]; [constructor|]. constructor; [discriminate| |].
    + rewrite take_ge by exact Hw. exact Hm.
    + rewrite drop_ge by exact Hw. constructor.
Qed.

Lemma passed_runs w l l' : 0 < w -> Passed compared w l l' -> Runs w l -> Runs (w * 2) l' /\ stable l l'.
Proof.
  intros Hw. induction 1 as [|l m l' _ Hm Hp IH]; intros Hr; [split; [constructor|intros x; reflexivity]|].
  destruct (runs_head _ _ Hr) as [H1 Hr1]. destruct (runs_head _ _ Hr1) as [H2 Hr2]. rewrite drop_drop in Hr2.
  replace (w + w) with (2 * w) in Hr2 by lia. destruct (IH Hr2) as [IH1 IH2].
  pose proof (merged_length _ _ _ _ Hm) as Hlen. rewrite !length_take, length_drop in Hlen. split.
  - apply runs_prefix; [eapply merged_sorted; eassumption|lia| |exact IH1]. intros Hshort.
    apply nil_length_inv. rewrite (passed_length _ _ _ _ Hp), length_drop. lia.
  - intros x. rewrite (split_runs w l) at 1. rewrite app_assoc, !class_app, (IH2 x). f_equal.
    rewrite <- class_app. exact (merged_stable _ _ _ Hm H1 x).
Qed.

Lemma passes_stable w l l' : 0 < w -> Passes compared w l l' -> Runs w l -> StronglySorted le l' /\ stable l l'.
Proof.
  intros Hw H. revert Hw. induction H as [w l Hl|w l l1 l2 _ Hp _ IH]; intros Hw Hr.
  - split; [|intros x; reflexivity]. destruct (runs_head _ _ Hr) as [H _]. rewrite take_ge in H by exact Hl. exact H.
  - destruct (passed_runs w l l1 Hw Hp Hr) as [H1 H2]. destruct (IH ltac:(lia) H1) as [H3 H4].
    split; [exact H3|]. eapply stable_trans; eassumption.
Qed.

(** ** Only one list is sorted and stable *)

Lemma insertStable_in x l : Permutation (x :: l) (insertStable x l).
Proof.
  induction l as [|y l IH]; [reflexivity|]. cbn. destruct (lt y x); [|reflexivity]. rewrite <- IH. constructor.
Qed.

Lemma insertStable_sorted x l : StronglySorted le l -> StronglySorted le (insertStable x l).
Proof.
  induction l as [|y l IH]; intros Hs; [repeat constructor|]. cbn. pose proof Hs as Hs'.
  apply StronglySorted_inv in Hs as [Hs Hy]. destruct (lt y x) eqn:Eq.
  - constructor; [auto|]. rewrite <- insertStable_in. constructor; [apply lt_le; exact Eq|exact Hy].
  - constructor; [exact Hs'|]. constructor; [exact Eq|]. eapply Forall_impl; [|exact Hy]. intros a. apply le_trans. exact Eq.
Qed.

Lemma insertStable_stable x l : stable (x :: l) (insertStable x l).
Proof.
  induction l as [|y l IH]; intros z; [reflexivity|]. cbn [insertStable]. destruct (lt y x) eqn:Eq; [|reflexivity].
  pose proof (stable_swap y x [] l Eq (Forall_nil_2 _) z) as Hz. specialize (IH z). unfold class in *. cbn [List.filter app] in *.
  rewrite IH, <- Hz. reflexivity.
Qed.

Lemma insertionSort_ok l : StronglySorted le (insertionSort l) /\ stable l (insertionSort l).
Proof.
  induction l as [|x l [IH1 IH2]]; [split; [constructor|intros x; reflexivity]|]. cbn [insertionSort fold_right].
  split; [apply insertStable_sorted; exact IH1|]. eapply stable_trans; [|apply insertStable_stable].
  intros z. specialize (IH2 z). unfold class in *. cbn. fold (insertionSort l). rewrite IH2. reflexivity.
Qed.

Lemma class_head x l : exists l', class x (x :: l) = x :: l'.
Proof. unfold class. cbn. rewrite same_refl. eauto. Qed.

Lemma class_member x y l l' : class x l = y :: l' -> In y l /\ same x y = true.
Proof. intros E. apply List.filter_In. unfold class in E. rewrite E. left. reflexivity. Qed.

Lemma stable_unique l1 l2 : StronglySorted le l1 -> StronglySorted le l2 -> stable l1 l2 -> l1 = l2.
Proof.
  revert l2. induction l1 as [|x l1 IH]; intros l2 H1 H2 Hst.
  - destruct l2 as [|y l2]; [reflexivity|]. destruct (class_head y l2) as [l' E]. rewrite (Hst y) in E. discriminate.
  - destruct (class_head x l1) as [l' E]. rewrite <- (Hst x) in E. destruct (class_member _ _ _ _ E) as [Hin _].
    destruct l2 as [|y l2]; [destruct Hin|]. apply StronglySorted_inv in H1 as [H1 Hx]. apply StronglySorted_inv in H2 as [H2 Hy].
    assert (Hyx : le y x) by (destruct Hin as [->|Hin]; [apply le_refl|exact (proj1 (List.Forall_forall _ _) Hy x Hin)]).
    destruct (class_head y l2) as [l2' E2]. rewrite (Hst y) in E2. destruct (class_member _ _ _ _ E2) as [Hin2 _].
    assert (Hxy : le x y) by (destruct Hin2 as [->|Hin2]; [apply le_refl|exact (proj1 (List.Forall_forall _ _) Hx y Hin2)]).
    assert (Hsame : same x y = true) by (apply same_le; auto).
    assert (y = x) as -> by (unfold class in E; cbn in E; rewrite Hsame in E; congruence).
    f_equal. apply IH; [exact H1|exact H2|]. intros z. specialize (Hst z). unfold class in *. cbn in Hst.
    destruct (same z x); [injection Hst as Hst|]; exact Hst.
Qed.
End Stable.

(** ** The order of [Array.prototype.sort] *)

Section ValueOrder.
Context (lt : Z -> Z -> bool).

Definition isValue (v : Z) : bool := negb (isEmpty v) && negb (isUndefined v).

(** The comparator without effects. *)
Definition sortLess (a b : Z) : bool :=
  if isEmpty a && isUndefined b then false
  else if isUndefined a && isEmpty b then true
  else if isEmpty a || isUndefined a then false
  else if isEmpty b || isUndefined b then true
  else lt a b.

Lemma sortCompare_pure {W E} a b (s : W) : sortCompare (E := E) (fun a b => ret (lt a b)) a b s = (Ret (sortLess a b), s).
Proof. unfold sortCompare, sortLess. repeat case_if; reflexivity. Qed.

Lemma empty_undefined a : isEmpty a = true -> isUndefined a = true -> False.
Proof. unfold isEmpty, isUndefined. intros H1 H2. to_prop. subst. discriminate. Qed.

Lemma sortLess_weak : strict_weak lt -> strict_weak sortLess.
Proof.
  intros [H1 H2]. pose proof empty_undefined as Hx. constructor.
  - intros a b. unfold sortLess.
    destruct (isEmpty a), (isUndefined a), (isEmpty b), (isUndefined b); cbn; try discriminate; auto.
  - intros a b c. specialize (H2 a b c). specialize (Hx b). unfold sortLess.
    destruct (isEmpty a), (isUndefined a), (isEmpty b), (isUndefined b), (isEmpty c), (isUndefined c);
      cbn; try discriminate; auto; intros; exfalso; auto.
Qed.

(** Values first, in the order of [lt], then undefined, then holes. *)
Definition sortedValues (l : list Z) : list Z :=
  insertionSort lt (List.filter isValue l) ++ List.filter isUndefined l ++ List.filter isEmpty l.

Lemma insert_before x l rest : Forall (fun y => sortLess y x = lt y x) l -> Forall (fun y => sortLess y x = false) rest ->
  insertStable sortLess x (l ++ rest) = insertStable lt x l ++ rest.
Proof.
  induction 1 as [|y l Hy _ IH]; intros Hr.
  - destruct Hr as [|y rest Hy _]; [reflexivity|]. cbn. rewrite Hy. reflexivity.
  - cbn. rewrite Hy. destruct (lt y x); [rewrite IH by exact Hr|]; reflexivity.
Qed.

Lemma insert_after x l rest : Forall (fun y => sortLess y x = true) l -> Forall (fun y => sortLess y x = false) rest ->
  insertStable sortLess x (l ++ rest) = l ++ x :: rest.
Proof.
  induction 1 as [|y l Hy _ IH]; intros Hr.
  - destruct Hr as [|y rest Hy _]; [reflexivity|]. cbn. rewrite Hy. reflexivity.
  - cbn. rewrite Hy, IH by exact Hr. reflexivity.
Qed.

Lemma insertionSort_in l : Permutation l (insertionSort lt l).
Proof. induction l as [|x l IH]; [constructor|]. cbn. fold (insertionSort lt l). rewrite <- insertStable_in, <- IH. reflexivity. Qed.

Lemma filter_all (p : Z -> bool) l : Forall (fun y => p y = true) (List.filter p l).
Proof. apply List.Forall_forall. intros y Hy. apply List.filter_In in Hy. apply Hy. Qed.

Lemma sorted_all l : Forall (fun y => isValue y = true) (insertionSort lt (List.filter isValue l)).
Proof. rewrite <- insertionSort_in. apply filter_all. Qed.

Lemma sortLess_cases y x :
  sortLess y x = if isValue y then (if isValue x then lt y x else true) else if isUndefined y then isEmpty x else false.
Proof.
  pose proof (empty_undefined y) as Hy. pose proof (empty_undefined x) as Hx. unfold sortLess, isValue.
  destruct (isEmpty y), (isUndefined y), (isEmpty x), (isUndefined x); cbn; try reflexivity; exfalso; auto.
Qed.

Lemma undefined_empty a : isUndefined a = true -> isEmpty a = false /\ isValue a = false.
Proof.
  intros H. assert (E : isEmpty a = false) by (destruct (isEmpty a) eqn:E; [destruct (empty_undefined a E H)|reflexivity]).
  split; [exact E|]. unfold isValue. rewrite E, H. reflexivity.
Qed.
Lemma empty_value a : isEmpty a = true -> isUndefined a = false /\ isValue a = false.
Proof.
  intros H. assert (E : isUndefined a = false) by (destruct (isUndefined a) eqn:E; [destruct (empty_undefined a H E)|reflexivity]).
  split; [exact E|]. unfold isValue. rewrite H. reflexivity.
Qed.

Lemma sortedValues_ok l : insertionSort sortLess l = sortedValues l.
Proof.
  induction l as [|x l IH]; [reflexivity|]. cbn [insertionSort fold_right]. fold (insertionSort sortLess l). rewrite IH.
  unfold sortedValues. pose proof (sorted_all l) as Hv. pose proof (filter_all isUndefined l) as Hu.
  pose proof (filter_all isEmpty l) as He. cbn [List.filter]. destruct (isEmpty x) eqn:E1.
  - destruct (empty_value x E1) as [E2 E3]. rewrite E2, E3, !app_assoc. apply insert_after; [apply Forall_app; split|];
      (eapply Forall_impl; [|eassumption]); intros y Hy; cbn in Hy; rewrite sortLess_cases, ?Hy, ?E1, ?E3; try reflexivity.
    + rewrite (proj2 (undefined_empty y Hy)). reflexivity.
    + destruct (empty_value y Hy) as [-> ->]. reflexivity.
  - destruct (isUndefined x) eqn:E2.
    + rewrite (proj2 (undefined_empty x E2)). apply insert_after; [|apply Forall_app; split];
        (eapply Forall_impl; [|eassumption]); intros y Hy; cbn in Hy; rewrite sortLess_cases, ?Hy, ?E1, ?(proj2 (undefined_empty x E2)).
      * reflexivity.
      * rewrite (proj2 (undefined_empty y Hy)). reflexivity.
      * destruct (empty_value y Hy) as [-> ->]. reflexivity.
    + assert (E3 : isValue x = true) by (unfold isValue; rewrite E1, E2; reflexivity). rewrite E3. cbn [insertionSort fold_right].
      apply insert_before; [|apply Forall_app; split]; (eapply Forall_impl; [|eassumption]); intros y Hy; cbn in Hy;
        rewrite sortLess_cases, ?Hy, ?E3, ?E1.
      * reflexivity.
      * rewrite (proj2 (undefined_empty y Hy)). reflexivity.
      * destruct (empty_value y Hy) as [-> ->]. reflexivity.
Qed.
End ValueOrder.

(** ** The sort *)

(** A comparator that ends and does not access the buffers. *)
Definition well_behaved {W E} (comp : Z -> Z -> M W E bool) : Prop := forall a b s, fst (comp a b s) <> Fuel.

Lemma sortLambda_answers {W E} (comp : Z -> Z -> M W E bool) : well_behaved comp ->
  answers (sortLambda comp) (fun _ _ _ => True) (fun _ => True) (fun e _ => e <> OutOfBuffer).
Proof.
  intros Hc a b s _. specialize (Hc a b s). unfold sortLambda, raising. apply wp_bind. unfold wp.
  destruct (comp a b s) as [[r|e|] s']; cbn in *; [auto|discriminate|congruence].
Qed.

(** The lambda never returns false, and so the sort does not. *)
Definition completes {W E A} (m : M W (SortError E) (option A)) : Prop := forall s, fst (m s) <> Ret None.

Lemma completes_bind {W E A B} (m : M W (SortError E) A) (k : A -> M W (SortError E) (option B)) :
  (forall a, completes (k a)) -> completes (bind m k).
Proof. intros Hk s. unfold bind. destruct (m s) as [[a|e|] s']; [apply Hk|discriminate..]. Qed.

Lemma completes_cases {W E A B} (m : M W (SortError E) (option A)) (k : option A -> M W (SortError E) (option B)) :
  completes m -> (forall a, completes (k (Some a))) -> completes (bind m k).
Proof.
  intros Hm Hk s. specialize (Hm s). unfold bind. destruct (m s) as [[[a|]|e|] s']; [apply Hk|destruct (Hm eq_refl)|discriminate..].
Qed.

Lemma completes_some {W E A} (a : A) : completes (W := W) (E := E) (ret (Some a)).
Proof. intros s. discriminate. Qed.

Section Completes.
Context {W E : Type} (comp : Z -> Z -> M W E bool).

Lemma completes_loop n src leftEnd rightEnd : forall dstIndex left right dst,
  completes (merge_loop (sortLambda comp) n src leftEnd rightEnd dstIndex left right dst).
Proof.
  induction n as [|n IH]; intros dstIndex left right dst; [apply completes_some|]. cbn [merge_loop].
  assert (Ht : forall j i l r, completes (let! x := readAt src j in let! dst := writeAt dst i x in
    merge_loop (sortLambda comp) n src leftEnd rightEnd (S dstIndex) l r dst))
    by (intros; apply completes_bind; intros x; apply completes_bind; intros dst'; apply IH).
  repeat case_if; [apply Ht| |apply Ht]. apply completes_bind. intros r. apply completes_bind. intros l.
  apply completes_cases; [|intros [|]; apply Ht]. unfold sortLambda. apply completes_bind. intros b. apply completes_some.
Qed.

Lemma completes_pass fuel src n w : forall i dst, completes (merge_pass (sortLambda comp) fuel src n w i dst).
Proof.
  induction fuel as [|fuel IH]; intros i dst; cbn [merge_pass]; case_if; try apply completes_some; [intros s; discriminate|].
  apply completes_cases; [apply completes_loop|]. intros dst'. apply IH.
Qed.

Lemma completes_passes n fuel : forall w src dst b, completes (merge_passes (sortLambda comp) fuel n w src dst b).
Proof.
  induction fuel as [|fuel IH]; intros w src dst b; cbn [merge_passes]; case_if; try apply completes_some; [intros s; discriminate|].
  apply completes_cases; [apply completes_pass|]. intros dst'. apply IH.
Qed.

Lemma sortLambda_some n array scratch : completes (mergeSort (sortLambda comp) array n scratch).
Proof.
  unfold mergeSort. apply completes_cases; [apply completes_passes|]. intros [[src dst] [|]]; [apply completes_some|].
  apply completes_bind. intros array'. apply completes_some.
Qed.
End Completes.

(** C29: Sorting ends whatever the comparator does: it may change the state, throw, or give
    inconsistent answers.  No access is outside of the two buffers, and when nothing was
    thrown the buffer holds a permutation of what it held. *)
Theorem sort_permutes {W E} (comp : Z -> Z -> M W E bool) buffer scratch s : well_behaved comp ->
  length buffer <= length scratch ->
  (exists buffer' s', sortBuffer comp buffer scratch s = (Ret (Some buffer'), s') /\ Permutation buffer buffer') \/
  (exists e s', sortBuffer comp buffer scratch s = (Throw (Raised e), s')).
Proof.
  intros Hc Hlen.
  pose proof (mergeSort_ok _ _ _ _ (sortLambda_answers comp Hc) buffer (length buffer) scratch s I (le_n _) Hlen) as H.
  pose proof (sortLambda_some comp (length buffer) buffer scratch s) as Hsome. fold (sortBuffer comp buffer scratch) in H, Hsome.
  unfold wp in H. destruct (sortBuffer comp buffer scratch s) as [[[buffer'|]|[|e]|] s'].
  - left. destruct H as (_ & l & Hp & ->). exists (l ++ drop (length buffer) buffer), s'. split; [reflexivity|].
    rewrite firstn_all, drop_all, app_nil_r in *. exact (passes_perm _ _ _ _ Hp).
  - destruct (Hsome eq_refl).
  - destruct (H eq_refl).
  - right. eauto.
  - destruct H.
Qed.

(** A comparator that counts its calls and says that everything is smaller than
    everything else. *)
Definition countingComparator (a b : Z) : M nat unit bool := let! _ := modify S in ret true.

Lemma sort_permutes_witness : well_behaved countingComparator /\
  exists buffer', sortBuffer countingComparator [3; 1; 2]%Z [0; 0; 0]%Z 0 = (Ret (Some buffer'), 2) /\
  Permutation [3; 1; 2]%Z buffer'.
Proof.
  assert (Hw : well_behaved countingComparator) by (intros a b s; discriminate). split; [exact Hw|].
  destruct (sort_permutes countingComparator [3; 1; 2]%Z [0; 0; 0]%Z 0 Hw (le_n _)) as [(b & s & E & Hp)|(e & s & E)].
  - exists b. split; [|exact Hp]. rewrite E. f_equal. apply (f_equal snd) in E. cbn in E. symmetry. exact E.
  - apply (f_equal fst) in E. cbn in E. discriminate.
Defined.

(** C30: With a consistent comparator, a strict weak order, [Array.prototype.sort] is the
    stable sort of the language: the values in the order of insertion sort, which keeps
    equal ones in their order, then the undefined elements, then the holes. *)
Theorem sort_is_stable {W E} (lt : Z -> Z -> bool) buffer scratch (s : W) : strict_weak lt -> length buffer <= length scratch ->
  sortBuffer (sortCompare (E := E) (fun a b => ret (lt a b))) buffer scratch s = (Ret (Some (sortedValues lt buffer)), s).
Proof.
  intros Hlt Hlen. set (comp := sortCompare (E := E) (fun a b => ret (lt a b))).
  assert (Ha : answers (W := W) (sortLambda comp) (compared (sortLess lt)) (fun s' => s' = s) (fun _ _ => False)).
  { intros a b s' ->. unfold sortLambda, raising. apply wp_bind. unfold wp, comp. rewrite sortCompare_pure. split; reflexivity. }
  pose proof (mergeSort_ok _ _ _ _ Ha buffer (length buffer) scratch s eq_refl (le_n _) Hlen) as H.
  pose proof (sortLambda_some comp (length buffer) buffer scratch s) as Hsome. fold (sortBuffer comp buffer scratch) in H, Hsome.
  unfold wp in H. destruct (sortBuffer comp buffer scratch s) as [[[buffer'|]|e|] s'] eqn:Es.
  - destruct H as (-> & l & Hp & ->). rewrite firstn_all, drop_all, app_nil_r in *. do 3 f_equal.
    destruct (passes_stable _ (sortLess_weak lt Hlt) 1 buffer l Nat.lt_0_1 Hp (runs_one _ _)) as [H1 H2].
    destruct (insertionSort_ok _ (sortLess_weak lt Hlt) buffer) as [H3 H4]. rewrite <- sortedValues_ok.
    apply (stable_unique _ (sortLess_weak lt Hlt)); [exact H1|exact H3|]. intros x. rewrite H2. apply H4.
  - destruct (Hsome eq_refl).
  - destruct H.
  - destruct H.
Qed.

(** Numbers as small integers, compared by their tens. *)
Definition tensLess (a b : Z) : bool := (asInt32 a / 10 <? asInt32 b / 10)%Z.
Definition exampleBuffer : list Z := [Value_int 25; ValueUndefined; Value_int 13; ValueEmpty; Value_int 21; Value_int 12].

Lemma tensLess_weak : strict_weak tensLess.
Proof. unfold tensLess. constructor; intros; to_prop; apply Z.ltb_ge; lia. Qed.

Lemma sort_is_stable_witness : strict_weak tensLess /\ length exampleBuffer <= length exampleBuffer /\
  sortBuffer (sortCompare (E := unit) (fun a b => ret (tensLess a b))) exampleBuffer exampleBuffer tt =
    (Ret (Some (sortedValues tensLess exampleBuffer)), tt) /\
  sortedValues tensLess exampleBuffer =
    [Value_int 13; Value_int 12; Value_int 25; Value_int 21; ValueUndefined; ValueEmpty].
Proof.
  split; [exact tensLess_weak|]. split; [apply le_n|].
  split; [exact (sort_is_stable tensLess exampleBuffer exampleBuffer tt tensLess_weak (le_n _))|reflexivity].
Defined.
