(* ===== verification/ArrayStorage.v ===== *)
(** * The storage of arrays ([runtime/ArrayObject.h], [ArrayObject.cpp], [util/Vector.h])

    An array in fast mode keeps its elements in a buffer that can be larger than the
    array.  [resizeFastMode] is the part of [ArrayObject::setArrayLength] that changes
    the buffer, in both of its configurations; an access outside of the buffer is
    [None]. *)

From S2P Require Import Prelude Float64 Value.
Local Open Scope Z_scope.

Definition ESCARGOT_ARRAY_NON_FASTMODE_MIN_SIZE : Z := 65536 * 16.
Definition ESCARGOT_ARRAY_NON_FASTMODE_START_MIN_GAP : Z := 1024.

(** What [new] memory holds: a value, as the slot reads, or nothing that was written. *)
Abbreviation Buffer := (list (option Z)).

(** An array, with the part of its rare data that is its own.  [m_fastModeData] is
    [None] for [&DummyArrayElement].  The flags have the values of the constructor of
    the rare data as long as there is none. *)
Record Array := {
  m_arrayLength : Z;
  m_fastModeData : option Buffer;
  m_isArrayObjectLengthWritable : bool;
  m_isSpreadArrayObject : bool;
  m_hasRareData : bool;
  m_arrayObjectFastModeBufferCapacity : Z;
  m_arrayObjectFastModeBufferExpandCount : Z
}.

Definition isFastModeArray (d : Array) : bool := match m_fastModeData d with Some _ => true | None => false end.

Definition withLength (d : Array) (n : Z) : Array :=
  {| m_arrayLength := n; m_fastModeData := m_fastModeData d;
     m_isArrayObjectLengthWritable := m_isArrayObjectLengthWritable d; m_isSpreadArrayObject := m_isSpreadArrayObject d;
     m_hasRareData := m_hasRareData d; m_arrayObjectFastModeBufferCapacity := m_arrayObjectFastModeBufferCapacity d;
     m_arrayObjectFastModeBufferExpandCount := m_arrayObjectFastModeBufferExpandCount d |}.
Definition withData (d : Array) (b : option Buffer) : Array :=
  {| m_arrayLength := m_arrayLength d; m_fastModeData := b;
     m_isArrayObjectLengthWritable := m_isArrayObjectLengthWritable d; m_isSpreadArrayObject := m_isSpreadArrayObject d;
     m_hasRareData := m_hasRareData d; m_arrayObjectFastModeBufferCapacity := m_arrayObjectFastModeBufferCapacity d;
     m_arrayObjectFastModeBufferExpandCount := m_arrayObjectFastModeBufferExpandCount d |}.
(** [ensureRareData()], then [m_isArrayObjectLengthWritable = false]. *)
Definition withLengthReadOnly (d : Array) : Array :=
  {| m_arrayLength := m_arrayLength d; m_fastModeData := m_fastModeData d;
     m_isArrayObjectLengthWritable := false; m_isSpreadArrayObject := m_isSpreadArrayObject d;
     m_hasRareData := true; m_arrayObjectFastModeBufferCapacity := m_arrayObjectFastModeBufferCapacity d;
     m_arrayObjectFastModeBufferExpandCount := m_arrayObjectFastModeBufferExpandCount d |}.
Definition withCapacity (d : Array) (hasRareData : bool) (capacity expandCount : Z) : Array :=
  {| m_arrayLength := m_arrayLength d; m_fastModeData := m_fastModeData d;
     m_isArrayObjectLengthWritable := m_isArrayObjectLengthWritable d; m_isSpreadArrayObject := m_isSpreadArrayObject d;
     m_hasRareData := hasRareData; m_arrayObjectFastModeBufferCapacity := capacity;
     m_arrayObjectFastModeBufferExpandCount := expandCount |}.

(** An array without elements, fast or not, with rare data or without. *)
Definition emptyArray (fast : bool) : Array :=
  {| m_arrayLength := 0; m_fastModeData := if fast then Some [] else None; m_isArrayObjectLengthWritable := true;
     m_isSpreadArrayObject := false; m_hasRareData := false; m_arrayObjectFastModeBufferCapacity := 0;
     m_arrayObjectFastModeBufferExpandCount := 0 |}.
Definition spreadArray : Array :=
  {| m_arrayLength := 0; m_fastModeData := Some []; m_isArrayObjectLengthWritable := true;
     m_isSpreadArrayObject := true; m_hasRareData := true; m_arrayObjectFastModeBufferCapacity := 0;
     m_arrayObjectFastModeBufferExpandCount := 0 |}.

(** ** Capacities *)

(** The [float] nearest to an integer. *)
Definition round24 (z : Z) : Z :=
  let e := Z.max 0 (Z.log2 z - 23) in round_even z (2 ^ e) * 2 ^ e.

(** [newSize * (130 / 100.f)] in [float]s: the factor is 10905190 / 2^23. *)
Definition ComputeReservedCapacityFunctionWithPercent130 (newSize : Z) : Z :=
  round24 (round24 newSize * 10905190) / 2 ^ 23.

Definition FAST_LOG2_UINT (x : Z) : Z := Z.log2 x.
Definition ComputeReservedCapacityFunctionWithLog2 (newSize : Z) : Z :=
  if newSize =? 0 then 0
  else let base := FAST_LOG2_UINT newSize in 2 ^ (base + 1).

(** ** Memory *)

(** [GC_MALLOC] gives cleared memory, and a cleared slot reads as the empty value; the
    memory of [CustomAllocator] and what [GC_REALLOC] adds have not been written. *)
Definition GC_MALLOC (n : Z) : Buffer := repeat (Some ValueEmpty) (Z.to_nat n).
Definition GC_REALLOC (b : Buffer) (n : Z) : Buffer :=
  take (Z.to_nat n) b ++ repeat None (Z.to_nat n - length b)%nat.

(** [TightVectorWithNoSize::resizeWithUninitializedValues]. *)
Definition resizeWithUninitializedValues (b : Buffer) (oldSize newSize : Z) : option Buffer :=
  if newSize =? 0 then Some []
  else
    let size := Z.min oldSize newSize in
    if size <=? Z.of_nat (length b)
    then Some (take (Z.to_nat size) b ++ repeat None (Z.to_nat (newSize - size)))
    else None.

(** [memset] of the slots from [from] to [to] by 0. *)
Definition clearSlots (b : Buffer) (from to : Z) : option Buffer :=
  if to <=? Z.of_nat (length b)
  then Some (take (Z.to_nat from) b ++ repeat (Some ValueEmpty) (Z.to_nat (to - from)) ++ drop (Z.to_nat to) b)
  else None.

(** [memcpy] of the first [n] slots of [src] to [dst]. *)
Definition copySlots (dst src : Buffer) (n : Z) : option Buffer :=
  if (n <=? Z.of_nat (length src)) && (n <=? Z.of_nat (length dst))
  then Some (take (Z.to_nat n) src ++ drop (Z.to_nat n) dst)
  else None.

(** ** [setArrayLength] in fast mode *)

Section Storage.
(** [ESCARGOT_USE_32BIT_IN_64BIT] on a 64-bit target, which is the default of x64. *)
Context (use32BitIn64Bit : bool).

Definition clearNew (b : Buffer) (oldLength newLength : Z) : option Buffer :=
  if oldLength <? newLength then clearSlots b oldLength newLength else Some b.

(** [useFitStorage], or a small array: exactly the new length. *)
Definition fitStorage (d : Array) (b : Buffer) (oldLength newLength : Z) : option Buffer :=
  if use32BitIn64Bit then
    b ← resizeWithUninitializedValues b oldLength newLength; clearNew b oldLength newLength
  else
    let oldCapacity := if m_hasRareData d then m_arrayObjectFastModeBufferCapacity d else 0 in
    if negb (oldCapacity =? 0) then
      if oldCapacity <? newLength then clearNew (GC_REALLOC b newLength) oldLength newLength
      else Some (GC_REALLOC b newLength)
    else clearNew (GC_REALLOC b newLength) oldLength newLength.

Definition minExpandCountForUsingLog2Function : Z := 3.

Definition newCapacity (d : Array) (newLength : Z) : Z :=
  if minExpandCountForUsingLog2Function <=? m_arrayObjectFastModeBufferExpandCount d
  then ComputeReservedCapacityFunctionWithLog2 newLength
  else ComputeReservedCapacityFunctionWithPercent130 newLength.

(** A larger buffer with room to grow. *)
Definition growStorage (b : Buffer) (oldLength newLength capacity : Z) : option Buffer :=
  b ← (if use32BitIn64Bit then resizeWithUninitializedValues b oldLength capacity
       else copySlots (GC_MALLOC capacity) b oldLength);
  clearNew b oldLength newLength.

Definition resizeFastMode (d : Array) (b : Buffer) (newLength : Z) (useFitStorage : bool) : option Array :=
  let oldLength := m_arrayLength d in
  if oldLength =? newLength then Some d
  else
    let d := withLength d newLength in
    if useFitStorage || (oldLength =? 0) || (newLength <=? 128) then
      b ← fitStorage d b oldLength newLength;
      Some (withCapacity (withData d (Some b)) (m_hasRareData d)
              (if m_hasRareData d then 0 else m_arrayObjectFastModeBufferCapacity d)
              (m_arrayObjectFastModeBufferExpandCount d))
    else
      let oldCapacity := if m_hasRareData d then m_arrayObjectFastModeBufferCapacity d else oldLength in
      if oldCapacity <? newLength then
        let capacity := newCapacity d newLength in
        let count := m_arrayObjectFastModeBufferExpandCount d in
        b ← growStorage b oldLength newLength capacity;
        Some (withCapacity (withData d (Some b)) true capacity
                (if count <? minExpandCountForUsingLog2Function then count + 1 else count))
      else
        b ← clearNew b oldLength newLength;
        Some (withCapacity (withData d (Some b)) true oldCapacity (m_arrayObjectFastModeBufferExpandCount d)).
End Storage.

(** ** The buffer is large enough, and new slots are holes *)

Lemma round_even_bounds n d : 0 < d -> 0 <= n -> n / d <= round_even n d <= n / d + 1.
Proof. intros Hd Hn. unfold round_even. repeat case_match; lia. Qed.

(** Rounding to 24 bits loses less than one part in 2^23. *)
Lemma round24_lower z : 0 < z -> z * (2 ^ 23 - 1) <= round24 z * 2 ^ 23.
Proof.
  intros Hz. unfold round24. set (e := Z.max 0 (Z.log2 z - 23)).
  pose proof (Z.pow_pos_nonneg 2 e ltac:(lia) ltac:(lia)) as He.
  pose proof (round_even_bounds z (2 ^ e) He ltac:(lia)) as [H _].
  assert (Hbig : e = 0 \/ 2 ^ e * 2 ^ 23 <= z).
  { destruct (Z.le_gt_cases (Z.log2 z) 23) as [Hl|Hl]; [left; lia|right].
    unfold e. rewrite Z.max_r, <- Z.pow_add_r by lia. replace (Z.log2 z - 23 + 23) with (Z.log2 z) by lia.
    apply Z.log2_spec. exact Hz. }
  pose proof (Z.div_mod z (2 ^ e) ltac:(lia)) as Hdm. pose proof (Z.mod_pos_bound z (2 ^ e) He) as Hm.
  destruct Hbig as [E|Hbig].
  - rewrite E in *. change (2 ^ 0) with 1 in *. rewrite Z.div_1_r in H. lia.
  - nia.
Qed.

Lemma capacity130_large n : 128 < n -> n <= ComputeReservedCapacityFunctionWithPercent130 n.
Proof.
  intros Hn. unfold ComputeReservedCapacityFunctionWithPercent130. pose proof (round24_lower n ltac:(lia)) as H1.
  pose proof (round24_lower (round24 n * 10905190) ltac:(lia)) as H2. apply Z.div_le_lower_bound; lia.
Qed.

Lemma capacityLog2_large n : 0 < n -> n <= ComputeReservedCapacityFunctionWithLog2 n.
Proof.
  intros Hn. unfold ComputeReservedCapacityFunctionWithLog2, FAST_LOG2_UINT. rewrite (proj2 (Z.eqb_neq n 0)) by lia.
  pose proof (Z.log2_spec n Hn). rewrite Z.add_1_r. lia.
Qed.

(** A slot that was written. *)
Definition written (s : option Z) : Prop := is_Some s.

(** The buffer covers the array and what the rare data says of the capacity. *)
Record storage_ok (d : Array) (b : Buffer) : Prop := {
  storage_length : 0 <= m_arrayLength d <= Z.of_nat (length b);
  storage_written : Forall written (take (Z.to_nat (m_arrayLength d)) b);
  storage_capacity : 0 <= m_arrayObjectFastModeBufferCapacity d <= Z.of_nat (length b);
  storage_rare : m_hasRareData d = false -> m_arrayObjectFastModeBufferCapacity d = 0;
  storage_large : m_arrayObjectFastModeBufferCapacity d <> 0 -> 128 < m_arrayLength d
}.

(** The elements of an array with a buffer, and of the array with another length. *)
Definition elements (n : Z) (b : Buffer) : Buffer := take (Z.to_nat n) b.
Definition resized (oldLength newLength : Z) (b : Buffer) : Buffer :=
  take (Z.to_nat newLength) (elements oldLength b) ++ repeat (Some ValueEmpty) (Z.to_nat (newLength - oldLength)).

Lemma written_resized o n b : Forall written (elements o b) -> Forall written (resized o n b).
Proof.
  intros H. apply Forall_app. split; [apply Forall_take; exact H|]. apply List.Forall_forall. intros x Hx%List.repeat_spec.
  subst x. eexists. reflexivity.
Qed.

Lemma clearNew_ok b o n : 0 <= o <= Z.of_nat (length b) -> 0 <= n <= Z.of_nat (length b) ->
  exists b', clearNew b o n = Some b' /\ length b' = length b /\ elements n b' = resized o n b.
Proof.
  intros Ho Hn. unfold clearNew, clearSlots, elements, resized, elements. rewrite (proj2 (Z.leb_le n _)) by lia.
  destruct (Z.ltb_spec o n) as [H|H].
  - eexists. split; [reflexivity|]. split.
    + rewrite !length_app, length_take, repeat_length, length_drop. lia.
    + rewrite app_assoc, take_app_length' by (rewrite length_app, length_take, repeat_length; lia).
      rewrite (take_ge (take _ _)) by (rewrite length_take; lia). reflexivity.
  - exists b. split; [reflexivity|]. split; [reflexivity|]. rewrite take_take, Nat.min_l by lia.
    replace (Z.to_nat (n - o)) with 0%nat by lia. rewrite app_nil_r. reflexivity.
Qed.

(** The old length can be beyond the buffer when the array shrinks. *)
Lemma clearSmall_ok b o n : 0 <= o -> 0 <= n <= Z.of_nat (length b) ->
  exists b', clearNew b o n = Some b' /\ length b' = length b /\ elements n b' = resized o n b.
Proof.
  intros Ho Hn. destruct (Z.le_gt_cases o (Z.of_nat (length b))) as [H|H]; [apply clearNew_ok; lia|].
  unfold clearNew. rewrite (proj2 (Z.ltb_ge o n)) by lia. exists b. split; [reflexivity|]. split; [reflexivity|].
  unfold resized, elements. rewrite take_take, Nat.min_l by lia. replace (Z.to_nat (n - o)) with 0%nat by lia.
  rewrite app_nil_r. reflexivity.
Qed.

(** What counts are the slots below the old length. *)
Lemma resized_prefix o n b b' : elements (Z.min o n) b' = elements (Z.min o n) b -> resized o n b' = resized o n b.
Proof.
  unfold resized, elements. rewrite !take_take. intros H. f_equal.
  replace (Nat.min (Z.to_nat n) (Z.to_nat o)) with (Z.to_nat (Z.min o n)) by lia. exact H.
Qed.

Lemma realloc_ok b n : 0 <= n -> Z.of_nat (length (GC_REALLOC b n)) = n /\
  forall k, k <= Z.of_nat (length b) -> k <= n -> elements k (GC_REALLOC b n) = elements k b.
Proof.
  intros Hn. unfold GC_REALLOC, elements. split; [rewrite length_app, length_take, repeat_length; lia|].
  intros k H1 H2. rewrite take_app_le, take_take, Nat.min_l by (rewrite ?length_take; lia). reflexivity.
Qed.

Lemma resizeUninitialized_ok b o n : 0 <= o <= Z.of_nat (length b) -> 0 <= n ->
  exists b', resizeWithUninitializedValues b o n = Some b' /\ Z.of_nat (length b') = n /\
    elements (Z.min o n) b' = elements (Z.min o n) b.
Proof.
  intros Ho Hn. unfold resizeWithUninitializedValues, elements. destruct (Z.eqb_spec n 0) as [->|Hne].
  - exists []. split; [reflexivity|]. split; [reflexivity|]. rewrite Z.min_r by lia. reflexivity.
  - rewrite (proj2 (Z.leb_le _ _)) by lia. eexists. split; [reflexivity|]. split.
    + rewrite length_app, length_take, repeat_length. lia.
    + rewrite take_app_le, take_take, Nat.min_l by (rewrite ?length_take; lia). reflexivity.
Qed.

Lemma copySlots_ok dst src n : 0 <= n <= Z.of_nat (length src) -> n <= Z.of_nat (length dst) ->
  exists b', copySlots dst src n = Some b' /\ length b' = length dst /\ elements n b' = elements n src.
Proof.
  intros H1 H2. unfold copySlots, elements. rewrite (proj2 (Z.leb_le n _)), (proj2 (Z.leb_le n _)) by lia.
  eexists. split; [reflexivity|]. split; [rewrite length_app, length_take, length_drop; lia|].
  rewrite take_app_le, take_take, Nat.min_l by (rewrite ?length_take; lia). reflexivity.
Qed.

(** ** [setArrayLength] *)

Section Resize.
Context (use32BitIn64Bit : bool).

(** The case in which the buffer of [GC_REALLOC] keeps what lies behind the array: the
    length grows inside of the capacity that is left from before. *)
Definition growsIntoCapacity (d : Array) (newLength : Z) (useFitStorage : bool) : bool :=
  negb use32BitIn64Bit && m_hasRareData d && negb (m_arrayObjectFastModeBufferCapacity d =? 0)
  && (useFitStorage || (m_arrayLength d =? 0) || (newLength <=? 128))
  && (m_arrayLength d <? newLength) && (newLength <=? m_arrayObjectFastModeBufferCapacity d).

(** The case in which [memcpy] writes more elements than the new buffer has room for:
    the array shrinks, and what the rare data says of the capacity is less than the
    new length. *)
Definition overflowsNewBuffer (d : Array) (newLength : Z) (useFitStorage : bool) : bool :=
  negb use32BitIn64Bit && negb (useFitStorage || (m_arrayLength d =? 0) || (newLength <=? 128))
  && ((if m_hasRareData d then m_arrayObjectFastModeBufferCapacity d else m_arrayLength d) <? newLength)
  && (newCapacity d newLength <? m_arrayLength d).

Lemma fitStorage_ok d b n (o := m_arrayLength d) : storage_ok d b -> 0 <= n ->
  (negb use32BitIn64Bit && m_hasRareData d && negb (m_arrayObjectFastModeBufferCapacity d =? 0) && (o <? n)
   && (n <=? m_arrayObjectFastModeBufferCapacity d)) = false ->
  exists b', fitStorage use32BitIn64Bit (withLength d n) b o n = Some b' /\ Z.of_nat (length b') = n /\
    elements n b' = resized o n b.
Proof.
  intros [H1 H2 H3 H4 _] Hn Hstale. fold o in H1. unfold fitStorage. cbn [m_hasRareData m_arrayObjectFastModeBufferCapacity withLength].
  assert (Hre : forall b1, Z.of_nat (length b1) = n -> elements (Z.min o n) b1 = elements (Z.min o n) b ->
    exists b', (if o <? n then clearSlots b1 o n else Some b1) = Some b' /\ Z.of_nat (length b') = n /\
      elements n b' = resized o n b).
  { intros b1 Hl He. destruct (Z.ltb_spec o n) as [Hlt|Hge].
    - destruct (clearNew_ok b1 o n) as (b' & E & Hl' & He'); [lia|lia|]. unfold clearNew in E. rewrite (proj2 (Z.ltb_lt o n) Hlt) in E.
      exists b'. split; [exact E|]. split; [lia|]. rewrite He'. apply resized_prefix. exact He.
    - exists b1. split; [reflexivity|]. split; [exact Hl|]. rewrite Z.min_r in He by lia. rewrite He. unfold resized, elements.
      rewrite take_take, Nat.min_l by lia. replace (Z.to_nat (n - o)) with 0%nat by lia. rewrite app_nil_r. reflexivity. }
  destruct (realloc_ok b n Hn) as [Hr1 Hr2].
  destruct use32BitIn64Bit; cbn [negb andb] in Hstale.
  - destruct (resizeUninitialized_ok b o n) as (b1 & -> & Hl & He); [lia|lia|]. exact (Hre b1 Hl He).
  - assert (Hg : exists b', clearNew (GC_REALLOC b n) o n = Some b' /\ Z.of_nat (length b') = n /\ elements n b' = resized o n b)
      by (apply Hre; [exact Hr1|apply Hr2; lia]).
    destruct (m_hasRareData d) eqn:Erd; [|exact Hg]. cbn [andb] in Hstale.
    destruct (m_arrayObjectFastModeBufferCapacity d =? 0) eqn:Ecap; [exact Hg|]. cbn [negb andb] in Hstale |- *.
    destruct (Z.ltb_spec (m_arrayObjectFastModeBufferCapacity d) n) as [Hlt|Hge]; [exact Hg|].
    rewrite (proj2 (Z.leb_le _ _) Hge), andb_true_r in Hstale. specialize (Hre (GC_REALLOC b n) Hr1).
    rewrite Hstale in Hre. apply Hre, Hr2; lia.
Qed.

Lemma growStorage_ok b o n capacity : 0 <= o <= Z.of_nat (length b) -> 0 <= n <= capacity ->
  (use32BitIn64Bit = false -> o <= capacity) ->
  exists b', growStorage use32BitIn64Bit b o n capacity = Some b' /\ Z.of_nat (length b') = capacity /\
    elements n b' = resized o n b.
Proof.
  intros Ho Hn Hc. unfold growStorage. set (m := Z.min o capacity).
  assert (Hb : exists b1, (if use32BitIn64Bit then resizeWithUninitializedValues b o capacity
      else copySlots (GC_MALLOC capacity) b o) = Some b1 /\ Z.of_nat (length b1) = capacity /\ elements m b1 = elements m b).
  { destruct use32BitIn64Bit.
    - destruct (resizeUninitialized_ok b o capacity) as (b1 & E & Hl & He); [lia|lia|]. eauto.
    - specialize (Hc eq_refl). unfold m. rewrite Z.min_l by lia. destruct (copySlots_ok (GC_MALLOC capacity) b o) as (b1 & E & Hl & He); [lia|unfold GC_MALLOC; rewrite repeat_length; lia|].
      unfold GC_MALLOC in Hl. rewrite repeat_length in Hl. exists b1. split; [exact E|]. split; [lia|exact He]. }
  destruct Hb as (b1 & -> & Hl & He). cbn.
  destruct (clearSmall_ok b1 o n) as (b' & E & Hl' & He'); [lia|lia|]. exists b'. split; [exact E|]. split; [lia|]. rewrite He'.
  apply resized_prefix. apply (f_equal (elements (Z.min o n))) in He. unfold elements in *. rewrite !take_take in He.
  replace (Nat.min (Z.to_nat (Z.min o n)) (Z.to_nat m)) with (Z.to_nat (Z.min o n)) in He by lia. exact He.
Qed.

Lemma newCapacity_large d n : 128 < n -> n <= newCapacity d n.
Proof. intros H. unfold newCapacity. case_if; [apply capacityLog2_large; lia|apply capacity130_large; exact H]. Qed.

(** The length changes, the elements below both lengths stay, and the others are holes. *)
Lemma resize_ok d b n useFitStorage : storage_ok d b -> m_fastModeData d = Some b -> 0 <= n ->
  growsIntoCapacity d n useFitStorage = false -> overflowsNewBuffer d n useFitStorage = false ->
  exists d' b', resizeFastMode use32BitIn64Bit d b n useFitStorage = Some d' /\ m_fastModeData d' = Some b' /\
    storage_ok d' b' /\ m_arrayLength d' = n /\ elements n b' = resized (m_arrayLength d) n b /\
    m_isArrayObjectLengthWritable d' = m_isArrayObjectLengthWritable d /\
    m_isSpreadArrayObject d' = m_isSpreadArrayObject d.
Proof.
  intros Hd Hb Hn Hstale Hover. pose proof Hd as [H1 H2 H3 H4 H5]. pose proof (written_resized _ n b H2) as Hw. unfold resizeFastMode.
  destruct (Z.eqb_spec (m_arrayLength d) n) as [E|Hne].
  { exists d, b. split_and!; auto. unfold resized, elements. rewrite E, take_take, Nat.min_id.
    replace (Z.to_nat (n - n)) with 0%nat by lia. rewrite app_nil_r. reflexivity. }
  destruct (useFitStorage || (m_arrayLength d =? 0) || (n <=? 128)) eqn:Efit.
  - unfold growsIntoCapacity in Hstale. rewrite Efit, andb_true_r in Hstale.
    destruct (fitStorage_ok d b n Hd Hn Hstale) as (b' & -> & Hl & He). cbn. eexists _, b'.
    split; [reflexivity|]. split; [reflexivity|]. split; [|split_and!; auto]. constructor; cbn; try lia.
    + fold (elements n b'). rewrite He. exact Hw.
    + destruct (m_hasRareData d); [lia|]. rewrite H4 by reflexivity. lia.
    + intros E. rewrite E. apply H4. exact E.
    + destruct (m_hasRareData d); [lia|]. rewrite H4 by reflexivity. lia.
  - unfold overflowsNewBuffer in Hover. rewrite Efit in Hover. apply orb_false_elim in Efit as [_ Hn128]. apply Z.leb_gt in Hn128.
    cbn [withLength m_hasRareData m_arrayObjectFastModeBufferCapacity m_arrayObjectFastModeBufferExpandCount].
    destruct (Z.ltb_spec (if m_hasRareData d then m_arrayObjectFastModeBufferCapacity d else m_arrayLength d) n) as [Hlt|Hge].
    + rewrite andb_true_r in Hover. pose proof (newCapacity_large (withLength d n) n Hn128) as Hcap.
      set (capacity := newCapacity (withLength d n) n) in *. change (newCapacity d n) with capacity in Hover.
      destruct (growStorage_ok b (m_arrayLength d) n capacity) as (b' & -> & Hl & He); [lia|lia| |].
      { intros E. rewrite E in Hover. apply Z.ltb_ge in Hover. exact Hover. }
      cbn. eexists _, b'. split; [reflexivity|]. split; [reflexivity|]. split; [|split_and!; auto].
      constructor; cbn; try lia. fold (elements n b'). rewrite He. exact Hw.
    + assert (Hn' : n <= Z.of_nat (length b)) by (destruct (m_hasRareData d); lia).
      destruct (clearNew_ok b (m_arrayLength d) n) as (b' & E & Hl & He); [lia|lia|]. rewrite E. cbn. eexists _, b'.
      split; [reflexivity|]. split; [reflexivity|]. split; [|split_and!; auto]. constructor; cbn; try lia.
      * fold (elements n b'). rewrite He. exact Hw.
      * destruct (m_hasRareData d); lia.
Qed.
End Resize.

(** What the buffer of [GC_REALLOC] does wrong needs an assignment to the length, or a
    smaller length. *)
Lemma growth_is_safe use32BitIn64Bit d b n : storage_ok d b -> m_arrayLength d <= n ->
  growsIntoCapacity use32BitIn64Bit d n false = false /\ overflowsNewBuffer use32BitIn64Bit d n false = false.
Proof.
  intros [H1 H2 H3 H4 H5] Hn. unfold growsIntoCapacity, overflowsNewBuffer. split.
  - destruct (Z.eqb_spec (m_arrayObjectFastModeBufferCapacity d) 0) as [E|E]; [rewrite ?andb_false_r; reflexivity|].
    specialize (H5 E). cbn [orb]. destruct (Z.eqb_spec (m_arrayLength d) 0); [lia|]. cbn [orb].
    destruct (Z.leb_spec n 128); [lia|]. rewrite ?andb_false_r. reflexivity.
  - destruct (Z.leb_spec n 128) as [H|H]; [rewrite orb_true_r, ?andb_false_r; reflexivity|].
    pose proof (newCapacity_large d n H). rewrite (proj2 (Z.ltb_ge (newCapacity d n) _)) by lia. apply andb_false_r.
Qed.

Lemma default_is_safe d n useFitStorage :
  growsIntoCapacity true d n useFitStorage = false /\ overflowsNewBuffer true d n useFitStorage = false.
Proof. split; reflexivity. Qed.

(** ** What goes wrong without [ESCARGOT_USE_32BIT_IN_64BIT] *)

(** An array of [n] ones whose rare data says that its buffer has the capacity. *)
Definition onesArray (n capacity : Z) : Array :=
  withCapacity (withData (withLength (emptyArray true) n)
    (Some (repeat (Some (Value_int 1)) (Z.to_nat n) ++ repeat (Some ValueEmpty) (Z.to_nat (capacity - n))))) true capacity 1.

(** The elements from 140 on are cut off and come back with the length. *)
Lemma cut_elements_return :
  (d ← resizeFastMode false (onesArray 160 167) (default [] (m_fastModeData (onesArray 160 167))) 140 false;
   b ← m_fastModeData d; d ← resizeFastMode false d b 160 true; b ← m_fastModeData d; elements 160 b !! 150%nat)
  = Some (Some (Value_int 1)).
Proof. vm_compute. reflexivity. Qed.

(** An array of 1000 elements with a capacity of 0, which an assignment to its length
    leaves, is cut to 200: [memcpy] writes 1000 slots to a buffer for 260. *)
Lemma shrinking_overflows :
  resizeFastMode false (onesArray 1000 0) (default [] (m_fastModeData (onesArray 1000 0))) 200 false = None /\
  newCapacity (onesArray 1000 0) 200 = 260.
Proof. split; vm_compute; reflexivity. Qed.
