(* ===== verification/ArrayObject.v ===== *)
(** * Array objects ([runtime/ArrayObject.h], [ArrayObject.cpp])

    An array is an object whose elements are in a buffer (fast mode) or are properties
    like any other; its length is not among its properties.  The state is the world of
    the objects with the arrays among them; the methods of [Object] that a virtual call
    can lead to an array are given again, with that dispatch. *)

From stdpp Require Import gmap.
From S2P Require Import Prelude Ieee754 Value PropertyName PropertyDescriptor ObjectStructure Object.
From S2P Require Import Sort ArrayStorage.
Local Open Scope Z_scope.
Local Open Scope esc_scope.

(** ** The state *)

Record ArrayWorld := { base : World; arrays : gmap Z Array }.

Inductive ArrayError := ObjectFailure (e : ObjectError) | RangeError.

Abbreviation AM := (M ArrayWorld ArrayError).

Definition withBase (w : ArrayWorld) (b : World) : ArrayWorld := {| base := b; arrays := arrays w |}.

(** An operation on the objects. *)
Definition lift {A} (m : OM A) : AM A := fun w =>
  match m (base w) with
  | (Ret a, b) => (Ret a, withBase w b)
  | (Throw e, b) => (Throw (ObjectFailure e), withBase w b)
  | (Fuel, b) => (Fuel, withBase w b)
  end.

Definition undefinedBehaviour {A} : AM A := throw (ObjectFailure (UndefinedBehaviour OutOfRange)).
Definition throwTypeError {A} : AM A := throw (ObjectFailure TypeError).

Definition readArray (a : Z) : AM Array :=
  let! d := gets (fun w => arrays w !! a) in orThrow (ObjectFailure (UndefinedBehaviour BadAddress)) d.
Definition writeArray (a : Z) (d : Array) : AM unit :=
  modify (fun w => {| base := base w; arrays := <[a := d]> (arrays w) |}).
Definition isArrayObject (a : Z) : AM bool := gets (fun w => bool_decide (is_Some (arrays w !! a))).

(** The value of a slot below the length. *)
Definition slotOf (b : Buffer) (idx : Z) : AM Z :=
  match b !! Z.to_nat idx with Some (Some v) => ret v | _ => undefinedBehaviour end.
(** [m_fastModeData[idx] = v]. *)
Definition storeSlot (a : Z) (idx : Z) (v : Z) : AM unit :=
  let! d := readArray a in
  match m_fastModeData d with
  | Some b => if idx <? Z.of_nat (length b) then writeArray a (withData d (Some (<[Z.to_nat idx := Some v]> b)))
              else undefinedBehaviour
  | None => undefinedBehaviour
  end.

Section Arrays.
Context {heap : Heap}.
Context (out : Outside) (nameOf : Z -> Z).
(** [staticStrings().length], the conversion of a value that is not an integer to a
    property name, the number of an index that such a value stands for, the integer
    that the text of a name is cast to, and ToNumber of strings and objects. *)
Context (lengthString : Z) (nameOfOther indexOfOther : Z -> Z) (integerOfName : Z -> Z) (toNumberSlowCase : Z -> AM Z).
Context (use32BitIn64Bit : bool).

(** [ObjectPropertyName(state, value)], and of an integer. *)
Definition propertyName (v : Z) : Z :=
  if isUInt32 v && (asInt32 v <=? MAXIMUM_UINT_FOR_32BIT_PROPERTY_NAME) then setUIntValue (asInt32 v) else nameOfOther v.
Definition indexName (i : Z) : Z := propertyName (Value_unsigned_long i).
Definition value_tryToUseAsIndexProperty (v : Z) : Z := if isUInt32 v then asInt32 v else indexOfOther v.

Definition isLengthName (P : Z) : bool := negb (isUIntType P) && name_eq_atomic P lengthString.

(** ** Own properties *)

Definition getVirtualValue (a P : Z) : AM ObjectGetResult :=
  let! d := readArray a in
  if isLengthName P then
    ret (DataResult (Value_unsigned (m_arrayLength d)) (m_isArrayObjectLengthWritable d) false false)
  else
    match m_fastModeData d with
    | Some b =>
      let idx := objectName_tryToUseAsIndexProperty P in
      if negb (idx =? InvalidIndexPropertyValue) && (idx <? m_arrayLength d) then
        let! v := slotOf b idx in
        if isEmpty v then ret NoProperty else ret (DataResult v true true true)
      else ret NoProperty
    | None => ret NoProperty
    end.

Definition array_getOwnProperty (a P : Z) : AM ObjectGetResult :=
  let! v := getVirtualValue a P in
  if hasValue v then ret v else lift (Object_getOwnProperty nameOf a P).

(** The virtual call. *)
Definition virtual_getOwnProperty (a P : Z) : AM ObjectGetResult :=
  let! isArray := isArrayObject a in
  if isArray : bool then array_getOwnProperty a P else lift (getOwnProperty out nameOf a P).

(** [Object::deleteOwnProperty] of an array: the lookup is the virtual one. *)
Definition object_deleteOwnProperty (a P : Z) : AM bool :=
  let! result := array_getOwnProperty a P in
  if hasValue result && result_isConfigurable result then
    let! o := lift (readObject a) in
    let! findResult := lift (runS (findProperty (m_structure o) (nameOf P))) in
    match findResult with
    | None => undefinedBehaviour
    | Some (idx, _) => do! lift (deleteOwnPropertyAt a idx) in ret true
    end
  else if hasValue result && negb (result_isConfigurable result) then ret false
  else ret true.

Definition array_deleteOwnProperty (a P : Z) : AM bool :=
  if isLengthName P then ret false
  else
    let! d := readArray a in
    match m_fastModeData d with
    | Some b =>
      let idx := objectName_tryToUseAsIndexProperty P in
      if negb (idx =? InvalidIndexPropertyValue) && (idx <? m_arrayLength d) then
        let! v := slotOf b idx in
        do! (when! negb (isEmpty v) then storeSlot a idx ValueEmpty) in
        ret true
      else object_deleteOwnProperty a P
    | None => object_deleteOwnProperty a P
    end.

(** ** [nextIndexBackward] *)

(** The integers of the keys that [enumeration] gives, without symbols. *)
Definition namesOf (items : list ObjectStructureItem) : list Z :=
  List.filter (fun m => negb (isSymbol m)) (map m_propertyName items).
Fixpoint filledIndices (b : Buffer) (i : Z) (n : nat) : list Z :=
  match n with
  | O => []
  | Datatypes.S n =>
    match b !! Z.to_nat i with
    | Some (Some v) => (if isEmpty v then [] else [i]) ++ filledIndices b (i + 1) n
    | _ => filledIndices b (i + 1) n
    end
  end.
Definition enumeratedIntegers (a : Z) : AM (list Z) :=
  let! o := lift (readObject a) in
  let! items := lift (runS (properties (m_structure o))) in
  let! d := gets (fun w => arrays w !! a) in
  let elements := match d with
                  | Some d => match m_fastModeData d with
                              | Some b => filledIndices b 0 (Z.to_nat (m_arrayLength d))
                              | None => []
                              end ++ [integerOfName (nameOfAtomic lengthString)]
                  | None => []
                  end in
  ret (elements ++ map integerOfName (namesOf items)).

Definition maxBelow (cur : Z) (ret0 : Z) (l : list Z) : Z :=
  fold_left (fun r index => if negb (to_unsigned 64 index =? InvalidIndexValue) && (index <? cur) then Z.max index r else r) l ret0.

Fixpoint nextIndexLoop (fuel : nat) (ptr : option Z) (cur end_ ret0 : Z) : AM Z :=
  match fuel with
  | O => out_of_fuel
  | Datatypes.S fuel =>
    match ptr with
    | None => ret (Z.min ret0 (cur - 1))
    | Some p =>
      let! o := lift (readObject p) in
      if negb (isOrdinary o) then ret (Z.max end_ (cur - 1))
      else
        let! l := enumeratedIntegers p in
        let! next := lift (getPrototypeObject out p) in
        nextIndexLoop fuel next cur end_ (maxBelow cur ret0 l)
    end
  end.
Definition nextIndexBackward (obj cur end_ : Z) : AM Z :=
  let! fuel := lift chainFuel in nextIndexLoop (Datatypes.S fuel) (Some obj) cur end_ end_.

(** ** [setArrayLength] of an array that is not in fast mode *)

Fixpoint deleteFrom (fuel : nat) (a oldLen newLen : Z) : AM bool :=
  let finish := let! d := readArray a in do! writeArray a (withLength d newLen) in ret true in
  if newLen <? oldLen then
    match fuel with
    | O => out_of_fuel
    | Datatypes.S fuel =>
      let deleteAt (oldLen : Z) :=
        let! deleteSucceeded := array_deleteOwnProperty a (indexName oldLen) in
        if negb deleteSucceeded then
          let! d := readArray a in do! writeArray a (withLength d (oldLen + 1)) in ret false
        else deleteFrom fuel a oldLen newLen in
      let oldLen := oldLen - 1 in
      let! r := array_getOwnProperty a (indexName oldLen) in
      if negb (hasValue r) then
        let! result := nextIndexBackward a oldLen (-1) in
        if result <? newLen then finish else deleteAt result
      else deleteAt oldLen
    end
  else finish.

Definition setLengthOfProperties (a newLength : Z) : AM bool :=
  let! d := readArray a in
  deleteFrom (Z.to_nat (m_arrayLength d)) a (m_arrayLength d) newLength.

(** ** Definition of properties *)

Section Raise.
(** What raising the flag of indexed prototypes does to the arrays. *)
Context (somePrototypeObjectDefineIndexedProperty : AM unit).

(** [DerivedObject::defineOwnProperty] of an array. *)
Definition derived_defineOwnProperty (a P : Z) (desc : ObjectPropertyDescriptor) : AM bool :=
  let! o := lift (readObject a) in
  let! did := gets (fun w => m_didSomePrototypeObjectDefineIndexedProperty (base w)) in
  do! (when! m_isEverSetAsPrototypeObject o && negb did && objectName_isIndexString P
       then somePrototypeObjectDefineIndexedProperty) in
  lift (defineOwnPropertyMethod out nameOf a P desc).

(** [defineOwnProperty] from the label [NonFastPath] on. *)
Definition nonFastPath (setArrayLength : Z -> AM bool) (a P : Z) (desc : ObjectPropertyDescriptor) : AM bool :=
  let! d := readArray a in
  let oldLen := m_arrayLength d in
  let idx := objectName_tryToUseAsIndexProperty P in
  if negb (idx =? InvalidIndexPropertyValue) then
    if (oldLen <=? idx) && negb (m_isArrayObjectLengthWritable d) then ret false
    else
      let! succeeded := derived_defineOwnProperty a P desc in
      if negb succeeded then ret false
      else if oldLen <=? idx then setArrayLength (idx + 1)
      else ret true
  else derived_defineOwnProperty a P desc.

(** The elements of the buffer become properties.  The array is not in fast mode any
    more, so that [defineOwnProperty] goes to [NonFastPath], and each index is below the
    length. *)
Fixpoint defineElements (a : Z) (temp : Buffer) (i : Z) (n : nat) : AM unit :=
  match n with
  | O => ret tt
  | Datatypes.S n =>
    let! v := slotOf temp i in
    do! (when! negb (isEmpty v) then (
          let! ok := nonFastPath (setLengthOfProperties a) a (indexName i) (dataDescriptor v AllPresent) in
          when! negb ok then throwTypeError)) in
    defineElements a temp (i + 1) n
  end.

Definition convertIntoNonFastMode (a : Z) : AM unit :=
  let! d := readArray a in
  match m_fastModeData d with
  | None => ret tt
  | Some tempFastModeData =>
    do! lift (markThisObjectDontNeedStructureTransitionTable a) in
    do! writeArray a (withData d None) in
    defineElements a tempFastModeData 0 (Z.to_nat (m_arrayLength d))
  end.
End Raise.

(** Every array leaves its fast mode.  The flag is set before, so that no conversion
    raises it again. *)
Fixpoint convertAll (l : list Z) : AM unit :=
  match l with
  | [] => ret tt
  | a :: rest => do! convertIntoNonFastMode undefinedBehaviour a in convertAll rest
  end.
Definition somePrototypeObjectDefineIndexedProperty : AM unit :=
  do! modify (fun w => withBase w {| structures := structures (base w); objects := objects (base w);
                                     m_didSomePrototypeObjectDefineIndexedProperty := true |}) in
  let! all := gets (fun w => map fst (map_to_list (arrays w))) in
  convertAll all.

Definition convert (a : Z) : AM unit := convertIntoNonFastMode somePrototypeObjectDefineIndexedProperty a.

Definition maxSize : Z := (2 ^ 32 - 1) / 2.

Definition setArrayLength (a newLength : Z) (useFitStorage considerHole : bool) : AM bool :=
  let! d := readArray a in
  let orgLength := m_arrayLength d in
  do! (when! isFastModeArray d && (ESCARGOT_ARRAY_NON_FASTMODE_MIN_SIZE <? newLength) && considerHole
             && (orgLength <? newLength)
             && ((ESCARGOT_ARRAY_NON_FASTMODE_START_MIN_GAP <? newLength - orgLength) || (maxSize <=? newLength))
       then convert a) in
  let! d := readArray a in
  match m_fastModeData d with
  | Some b =>
    if m_arrayLength d =? newLength then ret true
    else
      let! d := orThrow (ObjectFailure (UndefinedBehaviour OutOfRange))
                        (resizeFastMode use32BitIn64Bit d b newLength useFitStorage) in
      do! writeArray a d in
      do! (when! negb (m_isArrayObjectLengthWritable d) then convert a) in
      ret true
  | None => setLengthOfProperties a newLength
  end.

(** ToNumber and ToUint32 of a value, which can run a script. *)
Definition valueToNumber (v : Z) : AM Z :=
  match toNumber v with Some d => ret d | None => toNumberSlowCase v end.
Definition valueToUint32 (v : Z) : AM Z :=
  if isInt32 v then ret (to_unsigned 32 (asInt32 v))
  else let! d := valueToNumber v in ret (to_unsigned 32 (toInt32SlowCase d)).

(** [newLen], or a [RangeError]. *)
Definition lengthOfValue (v : Z) : AM Z :=
  let! newLen := valueToUint32 v in
  let! number := valueToNumber v in
  if negb (feq (of_integer newLen) number) then throw RangeError else ret newLen.

(** [defineOwnProperty] of the length. *)
Definition defineLength (a : Z) (desc : ObjectPropertyDescriptor) : AM bool :=
  let! newLen := if isValuePresent desc then lengthOfValue (m_value desc) else ret 0 in
  let! d := readArray a in
  let writable := m_isArrayObjectLengthWritable d in
  let changes := isValuePresent desc && negb (m_arrayLength d =? newLen) in
  if negb writable && changes then ret false
  else if isConfigurablePresent desc && isConfigurable desc then ret false
  else if isEnumerablePresent desc && isEnumerable desc then ret false
  else if isAccessorDescriptor desc then ret false
  else if negb writable && isWritable desc then ret false
  else
    do! (when! isWritablePresent desc && negb (isWritable desc) then writeArray a (withLengthReadOnly d)) in
    if changes then setArrayLength a newLen false true else ret true.

Definition array_defineOwnProperty (a P : Z) (desc : ObjectPropertyDescriptor) : AM bool :=
  if isLengthName P then defineLength a desc
  else
    let NonFastPath :=
      nonFastPath somePrototypeObjectDefineIndexedProperty (fun n => setArrayLength a n false true) a P desc in
    let idx := objectName_tryToUseAsIndexProperty P in
    let! d := readArray a in
    match m_fastModeData d with
    | Some b =>
      if negb (idx =? InvalidIndexPropertyValue) then
        let len := m_arrayLength d in
        let! filled := if idx <? len then let! v := slotOf b idx in ret (negb (isEmpty v)) else ret false in
        if filled && negb (isValuePresentAlone desc || isDataWritableEnumerableConfigurable desc)
        then do! convert a in NonFastPath
        else if negb filled && negb (isDataWritableEnumerableConfigurable desc)
        then do! convert a in NonFastPath
        else if negb (isValuePresent desc) then do! convert a in NonFastPath
        else if len <=? idx then
          let! extensible := lift (isExtensible out a) in
          if negb extensible then NonFastPath
          else
            let! ok := setArrayLength a (idx + 1) false true in
            let! d := readArray a in
            if negb ok || negb (isFastModeArray d) then NonFastPath
            else do! storeSlot a idx (m_value desc) in ret true
        else do! storeSlot a idx (m_value desc) in ret true
      else NonFastPath
    | None => NonFastPath
    end.

(** The virtual call. *)
Definition virtual_defineOwnProperty (a P : Z) (desc : ObjectPropertyDescriptor) : AM bool :=
  let! isArray := isArrayObject a in
  if isArray : bool then array_defineOwnProperty a P desc
  else
    let! o := lift (readObject a) in
    if isProxyObject o then lift (proxy_defineOwnProperty out a P desc)
    else if m_isEverSetAsPrototypeObject o then
      derived_defineOwnProperty somePrototypeObjectDefineIndexedProperty a P desc
    else lift (defineOwnPropertyMethod out nameOf a P desc).

(** ** [Get], [HasProperty] and [Set] *)

Fixpoint array_get (fuel : nat) (iter P receiver : Z) : AM ObjectGetResult :=
  match fuel with
  | O => out_of_fuel
  | Datatypes.S fuel =>
    let! desc := virtual_getOwnProperty iter P in
    if hasValue desc then ret desc
    else
      let! next := lift (getPrototypeObject out iter) in
      match next with
      | None => ret NoProperty
      | Some p =>
        let! o := lift (readObject p) in
        if isProxyObject o then lift (proxy_get out p P receiver) else array_get fuel p P receiver
      end
  end.
Definition virtual_get (a P receiver : Z) : AM ObjectGetResult :=
  let! fuel := lift chainFuel in array_get fuel a P receiver.

(** [Object::hasProperty]; that of arrays looks at the virtual value first, which is
    what the lookup of the own property does. *)
Fixpoint array_hasProperty (fuel : nat) (a P : Z) : AM bool :=
  match fuel with
  | O => out_of_fuel
  | Datatypes.S fuel =>
    let! hasOwn := virtual_getOwnProperty a P in
    if hasValue hasOwn then ret true
    else
      let! parent := lift (getPrototypeObject out a) in
      match parent with
      | None => ret false
      | Some p =>
        let! o := lift (readObject p) in
        if isProxyObject o then lift (proxy_hasProperty out p P) else array_hasProperty fuel p P
      end
  end.
Definition virtual_hasProperty (a P : Z) : AM bool :=
  let! fuel := lift chainFuel in array_hasProperty fuel a P.

Definition array_setOnReceiver (a P v receiver : Z) (hasOwn : bool) : AM bool :=
  if hasOwn && (a =? receiver) then virtual_defineOwnProperty receiver P (dataDescriptor v 0)
  else
    let! existingDesc := virtual_getOwnProperty receiver P in
    if hasValue existingDesc then
      if negb (result_isDataProperty existingDesc) then ret false
      else if negb (result_isWritable existingDesc) then ret false
      else virtual_defineOwnProperty receiver P (dataDescriptor v 0)
    else virtual_defineOwnProperty receiver P (dataDescriptor v AllPresent).

(** [set] after the lookup; native data that acts like a setter is left to [Object]. *)
Definition array_setWith (a P v receiver : Z) (hasOwn : bool) (ownDesc : ObjectGetResult) : AM bool :=
  if result_isDataProperty ownDesc then
    if negb (result_isWritable ownDesc) then ret false
    else if negb (isObject receiver) then ret false
    else
      match ownDesc with
      | NativeResult data _ _ _ _ _ =>
        if m_actsLikeJSGetterSetter data then lift (setWith out nameOf a P v receiver hasOwn ownDesc)
        else array_setOnReceiver a P v receiver hasOwn
      | _ => array_setOnReceiver a P v receiver hasOwn
      end
  else
    let gs := jsGetterSetter ownDesc in
    let setter := if hasSetter gs then m_setter gs else ValueUndefined in
    if isUndefined setter then ret false
    else do! lift (call out setter receiver [v]) in ret true.

Fixpoint array_set (fuel : nat) (a P v receiver : Z) : AM bool :=
  match fuel with
  | O => out_of_fuel
  | Datatypes.S fuel =>
    let! ownDesc := virtual_getOwnProperty a P in
    if hasValue ownDesc then array_setWith a P v receiver true ownDesc
    else
      let! parent := lift (getPrototypeObject out a) in
      match parent with
      | Some p =>
        let! o := lift (readObject p) in
        if isProxyObject o then lift (proxy_set out p P v receiver) else array_set fuel p P v receiver
      | None => array_setWith a P v receiver false (DataResult ValueUndefined true true true)
      end
  end.
Definition virtual_set (a P v receiver : Z) : AM bool :=
  let! fuel := lift chainFuel in array_set fuel a P v receiver.

(** ** Elements by index *)

(** The element of an array in fast mode, if the index is inside and not a hole. *)
Definition fastElement (a property : Z) : AM (option Z) :=
  let! d := readArray a in
  match m_fastModeData d with
  | Some b =>
    let idx := value_tryToUseAsIndexProperty property in
    if negb (idx =? InvalidIndexPropertyValue) && (idx <? m_arrayLength d) then
      let! v := slotOf b idx in ret (if isEmpty v then None else Some v)
    else ret None
  | None => ret None
  end.

Definition hasIndexedProperty (a property : Z) : AM bool :=
  let! v := fastElement a property in
  match v with Some _ => ret true | None => virtual_hasProperty a (propertyName property) end.

Definition getIndexedProperty (a property receiver : Z) : AM ObjectGetResult :=
  let! v := fastElement a property in
  match v with
  | Some v => ret (DataResult v true true true)
  | None => virtual_get a (propertyName property) receiver
  end.

Definition setIndexedProperty (a property v receiver : Z) : AM bool :=
  let slow := virtual_set a (propertyName property) v receiver in
  let! d := readArray a in
  if isFastModeArray d && isUInt32 property then
    let idx := value_tryToUseAsIndexProperty property in
    if negb (idx =? InvalidIndexPropertyValue) then
      if m_arrayLength d <=? idx then
        let! extensible := lift (isExtensible out a) in
        if negb extensible then ret false
        else
          let! ok := setArrayLength a (idx + 1) false true in
          let! d := readArray a in
          if negb ok || negb (isFastModeArray d) then virtual_set a (propertyName property) v a
          else do! storeSlot a idx v in ret true
      else do! storeSlot a idx v in ret true
    else slow
  else slow.

Definition defineOwnIndexedPropertyWithoutExpanding (a index v : Z) : AM unit :=
  let! d := readArray a in
  if isFastModeArray d then storeSlot a index v
  else
    do! derived_defineOwnProperty somePrototypeObjectDefineIndexedProperty a (indexName index) (dataDescriptor v AllPresent) in
    ret tt.

(** ** Extensibility, prototypes, construction *)

Definition array_preventExtensions (a : Z) : AM bool :=
  do! convert a in lift (preventExtensions out a).

Definition array_markAsPrototypeObject (a : Z) : AM unit :=
  let! o := lift (readObject a) in
  do! lift (writeObject a (withFlags o (Object.m_isExtensible o) true (m_isInlineCacheable o))) in
  let! did := gets (fun w => m_didSomePrototypeObjectDefineIndexedProperty (base w)) in
  let! hasIndex := lift (runS (hasIndexPropertyName (m_structure o))) in
  do! (when! negb did && hasIndex then somePrototypeObjectDefineIndexedProperty) in
  convert a.

(** The constructor with a size: [a] is the address of the new array. *)
Definition newArray (defaultStructureForObject : nat) (a : Z) (proto : option Z) : AM unit :=
  do! lift (writeObject a (newObject defaultStructureForObject proto)) in
  let! did := gets (fun w => m_didSomePrototypeObjectDefineIndexedProperty (base w)) in
  writeArray a (emptyArray (negb did)).
Definition newArrayOfSize (defaultStructureForObject : nat) (a : Z) (proto : option Z) (size : Z)
    (shouldConsiderHole : bool) : AM unit :=
  do! newArray defaultStructureForObject a proto in
  if 2 ^ 32 - 1 <? size then throw RangeError
  else do! setArrayLength a size true shouldConsiderHole in ret tt.

Fixpoint storeElements (a : Z) (n : Z) (src : list Z) : AM unit :=
  match src with
  | [] => ret tt
  | v :: rest => do! storeSlot a n v in storeElements a (n + 1) rest
  end.
Fixpoint defineValues (a : Z) (n : Z) (src : list Z) : AM unit :=
  match src with
  | [] => ret tt
  | v :: rest =>
    do! virtual_defineOwnProperty a (indexName n) (dataDescriptor v AllPresent) in defineValues a (n + 1) rest
  end.
Definition newArrayOf (defaultStructureForObject : nat) (a : Z) (proto : option Z) (src : list Z) : AM unit :=
  do! newArrayOfSize defaultStructureForObject a proto (Z.of_nat (length src)) false in
  let! d := readArray a in
  if isFastModeArray d then storeElements a 0 src else defineValues a 0 src.

Definition createSpreadArray (defaultStructureForObject : nat) (a : Z) : AM unit :=
  do! lift (writeObject a (newObject defaultStructureForObject None)) in
  writeArray a spreadArray.

(** ** [sort] in fast mode *)

Definition raiseSort {A} (m : M ArrayWorld (SortError ArrayError) A) : AM A := fun w =>
  match m w with
  | (Ret a, w) => (Ret a, w)
  | (Throw OutOfBuffer, w) => (Throw (ObjectFailure (UndefinedBehaviour OutOfRange)), w)
  | (Throw (Raised e), w) => (Throw e, w)
  | (Fuel, w) => (Fuel, w)
  end.

(** The elements below [n], holes as the empty value. *)
Fixpoint readSlots (b : Buffer) (i : Z) (n : nat) : AM (list Z) :=
  match n with
  | O => ret []
  | Datatypes.S n =>
    let! v := slotOf b i in let! rest := readSlots b (i + 1) n in ret (v :: rest)
  end.

Definition sortFast (comp : Z -> Z -> AM bool) (a : Z) (b : Buffer) (length : Z) : AM unit :=
  if length =? 0 then ret tt
  else
    let! tempBuffer := readSlots b 0 (Z.to_nat length) in
    let! sorted := raiseSort (sortBuffer comp tempBuffer tempBuffer) in
    let tempBuffer := default tempBuffer sorted in
    let! d := readArray a in
    do! (when! negb (m_arrayLength d =? length) then
           let! _ := setArrayLength a length false true in ret tt) in
    let! d := readArray a in
    if isFastModeArray d then storeElements a 0 tempBuffer else ret tt.
End Arrays.
