(* ===== verification/ArraySpec.v ===== *)
(** * The properties of an object as a client sees them

    What the methods of ordinary objects do to the list of properties of one object, in
    worlds that are well-formed before and after: the interface on which the arrays are
    built. *)

From stdpp Require Import gmap.
From S2P Require Import Prelude Value PropertyName PropertyDescriptor ObjectStructure StructureSpec Object.
From S2P Require Import ObjectSpec ObjectDefine ObjectMethods ObjectPrototype ObjectHistory ArrayStorage.
From S2P Require Import ArrayObject.
Local Open Scope Z_scope.
Local Open Scope esc_scope.

(** ** Array indices among the keys *)

Definition keyIndex (k : PropertyKey) : option Z :=
  match k with
  | KString s => let n := tryToUseAsIndexProperty s in if n =? InvalidIndexPropertyValue then None else Some n
  | KSymbol _ => None
  end.

Lemma keyIndex_spec k i : keyIndex k = Some i <-> k = KString (decimal i) /\ 0 <= i < InvalidIndexPropertyValue.
Proof.
  unfold keyIndex. destruct k as [s|p]; [|split; [discriminate|intros [H _]; discriminate H]].
  assert (H0 : 0 <= 0 < InvalidIndexPropertyValue) by (unfold InvalidIndexPropertyValue; lia).
  destruct (index_of_digits s InvalidIndexPropertyValue 0 (or_introl eq_refl) H0) as (_ & Hb & _).
  fold (tryToUseAsIndexProperty s) in Hb. destruct (Z.eqb_spec (tryToUseAsIndexProperty s) InvalidIndexPropertyValue) as [E|Hne].
  - split; [discriminate|]. intros [[= ->] Hi].
    pose proof (index_of_digits (decimal i) InvalidIndexPropertyValue i (or_introl eq_refl) Hi) as (H & _ & _).
    unfold tryToUseAsIndexProperty in E. rewrite (proj2 H eq_refl) in E. lia.
  - split.
    + intros [= <-]. split; [|lia]. f_equal. apply index_of_text; auto.
    + intros [[= ->] Hi]. f_equal. unfold tryToUseAsIndexProperty.
      apply (index_of_digits (decimal i) InvalidIndexPropertyValue i (or_introl eq_refl) Hi). reflexivity.
Qed.

Lemma keyIndex_decimal i : 0 <= i < InvalidIndexPropertyValue -> keyIndex (KString (decimal i)) = Some i.
Proof. intros H. apply keyIndex_spec. auto. Qed.

Lemma keyIndex_isIndex k i : keyIndex k = Some i -> isIndexKey k = true.
Proof.
  intros H. apply keyIndex_spec in H as [-> Hi]. cbn.
  apply (index_of_digits (decimal i) InvalidIndexPropertyValue i (or_introl eq_refl) Hi). reflexivity.
Qed.

Lemma keyIndex_inj k k' i : keyIndex k = Some i -> keyIndex k' = Some i -> k = k'.
Proof. intros H H'. apply keyIndex_spec in H as [-> _]. apply keyIndex_spec in H' as [-> _]. reflexivity. Qed.

(** ** Keys are distinct *)

Lemma lookup_absent l key : ~ In key (map fst l) -> lookupKey l key = None.
Proof.
  induction l as [|[k p] l IH]; [reflexivity|]. cbn. intros H. rewrite decide_False by (intros ->; apply H; auto). auto.
Qed.

Lemma lookup_removed l key : List.NoDup (map fst l) -> lookupKey (removeKey l key) key = None.
Proof.
  induction l as [|[k p] l IH]; [reflexivity|]. cbn. intros Hn. apply List.NoDup_cons_iff in Hn as [Hk Hn].
  case_decide as E; [subst; apply lookup_absent; exact Hk|]. cbn. rewrite decide_False by exact E. auto.
Qed.

Section Part.
Context {heap : Heap} (valid validP : Z -> Prop) (out : Outside) (nameOf : Z -> Z) (nameOfKey : OwnKey -> Z).
Context {Hnames : ObjectNames heap valid validP nameOf nameOfKey}.

Abbreviation keyOf P := (propertyKey (nameOf P)).

Lemma listOf_distinct w a : wf_world valid w -> List.NoDup (map fst (listOf w a)).
Proof.
  intros Hw. destruct (objects w !! a) as [o|] eqn:Ho.
  - destruct (world_objects _ _ Hw a o Ho) as [c Hc]. rewrite (listOf_object w a o c Hc).
    destruct (object_items valid w a o c Hw Hc) as (items & _ & Ec & Hit). subst c.
    assert (E : forall (c : list (PropertyKey * ObjectStructurePropertyDescriptor)) vs, length c = length vs ->
      map fst (viewOf c vs) = map fst c).
    { intros c. induction c as [|[k d] c IH]; intros [|s vs] Hl; try discriminate Hl; [reflexivity|].
      rewrite view_cons. cbn. f_equal. apply IH. injection Hl as Hl. exact Hl. }
    rewrite E by exact (content_length _ _ (proj2 (proj2 Hc))).
    unfold contentOf. rewrite map_map. exact (items_distinct _ _ _ Hit).
  - unfold listOf. rewrite Ho. constructor.
Qed.

Definition extensibleOf (w : World) (a : Z) : bool :=
  match objects w !! a with Some o => Object.m_isExtensible o | None => false end.

(** The properties of [a] become [l]; nothing else of an object changes. *)
Record part_step (w w' : World) (a : Z) (l : list (PropertyKey * Property)) : Prop := {
  part_ok : world_ok valid w';
  part_frame : frame a w w';
  part_flag : m_didSomePrototypeObjectDefineIndexedProperty w' = m_didSomePrototypeObjectDefineIndexedProperty w;
  part_list : listOf w' a = l;
  part_header : exists o o', objects w !! a = Some o /\ objects w' !! a = Some o' /\ sameButProperties o o'
}.

Lemma changes_part w a o c c' values w' : world_ok valid w -> object_at w a o c -> changes valid w a o c' values w' ->
  (anyIndexKey (viewOf c' values) = true -> anyIndexKey (listOf w a) = true \/
     (m_isEverSetAsPrototypeObject o && negb (m_didSomePrototypeObjectDefineIndexedProperty w)) = false) ->
  part_step w w' a (viewOf c' values).
Proof.
  intros Hok Ho Hc Hix. pose proof Hc as [H1 H2 H3 [r H4]].
  constructor; [|exact H2|exact H3|apply (listOf_object _ _ _ _ H4)|].
  - rewrite (listOf_object w a o c Ho) in Hix.
    apply (changes_ok valid w (negb (m_isEverSetAsPrototypeObject o && negb (m_didSomePrototypeObjectDefineIndexedProperty w)))
             a o c c' values w' Hok Ho).
    + replace (flagFor _ _ w) with w; [exact Hc|]. unfold flagFor.
      destruct (m_isEverSetAsPrototypeObject o && negb (m_didSomePrototypeObjectDefineIndexedProperty w)); reflexivity.
    + intros Hany. destruct (Hix Hany) as [H|H]; [auto|]. right. rewrite H. reflexivity.
  - eexists o, _. split; [apply Ho|]. split; [apply H4|]. reflexivity.
Qed.

(** [defineOwnPropertyMethod], when no prototype gets its first index. *)
Lemma part_define w a P desc (verdict := ValidateAndApply (extensibleOf w a) (lookupKey (listOf w a) (keyOf P)) (descriptorOf desc)) :
  world_ok valid w -> is_Some (objects w !! a) -> validP P -> wf_descriptor desc ->
  (marked w a && negb (m_didSomePrototypeObjectDefineIndexedProperty w) && isIndexKey (keyOf P)) = false ->
  exists w', defineOwnPropertyMethod out nameOf a P desc w = (Ret (bool_decide (is_Some verdict)), w') /\
    part_step w w' a (definedList (listOf w a) (keyOf P) verdict).
Proof.
  intros Hok Ha HP Hwf Hquiet. destruct (object_of valid w a Hok Ha) as (o & c & Ho & Hprox).
  destruct (define_ok valid validP out nameOf nameOfKey w a o c P desc (ok_wf valid w Hok) Ho Hprox HP Hwf) as (b & w' & E & H).
  pose proof (listOf_object w a o c Ho) as El. unfold marked in Hquiet.
  assert (Ee : extensibleOf w a = Object.m_isExtensible o) by (unfold extensibleOf; rewrite (proj1 Ho); reflexivity).
  rewrite (proj1 Ho) in Hquiet. subst verdict. rewrite Ee, El. destruct (ValidateAndApply _ _ _) as [p|] eqn:Ev.
  - destruct H as (-> & c' & values & Hc & Hv). exists w'. split; [exact E|]. cbn [definedList]. rewrite <- Hv.
    apply (changes_part w a o c c' values w' Hok Ho Hc). rewrite Hv, El. intros Hany.
    apply anyIndexKey_put in Hany as [Hany|Hany]; [auto|]. right. rewrite Hany, andb_true_r in Hquiet. exact Hquiet.
  - destruct H as (-> & ->). exists w. split; [exact E|]. cbn [definedList]. rewrite <- El.
    constructor; [exact Hok|apply frame_refl|reflexivity|reflexivity|].
    exists o, o. split; [apply Ho|]. split; [apply Ho|]. destruct o; reflexivity.
Qed.

(** [deleteOwnPropertyAt] of a property that was found. *)
Lemma part_find w a P : world_ok valid w -> is_Some (objects w !! a) -> validP P ->
  exists o, objects w !! a = Some o /\
  exists found, runS (findProperty (m_structure o) (nameOf P)) w = (Ret found, w) /\
    match found with
    | None => lookupKey (listOf w a) (keyOf P) = None
    | Some (i, _) => is_Some (lookupKey (listOf w a) (keyOf P)) /\
        exists w', deleteOwnPropertyAt a i w = (Ret tt, w') /\ part_step w w' a (removeKey (listOf w a) (keyOf P))
    end.
Proof.
  intros Hok Ha HP. destruct (object_of valid w a Hok Ha) as (o & c & Ho & Hprox). exists o. split; [apply Ho|].
  destruct (find_run valid validP nameOf nameOfKey w a o c P (ok_wf valid w Hok) Ho HP) as (found & E & Hf).
  pose proof (view_lookup c (m_values o) (keyOf P) (proj2 (proj2 Ho))) as Hlook. pose proof (listOf_object w a o c Ho) as El.
  exists found. split; [exact E|]. destruct (contentIndex c (keyOf P)) as [i|] eqn:Hix.
  - destruct Hf as (item & -> & Hi). destruct Hlook as (d & s & Hi' & Hs & Hsok & Elook). rewrite El. split; [rewrite Elook; eauto|].
    destruct (deleteAt_ok valid validP nameOf nameOfKey w a o c i _ (ok_wf valid w Hok) Ho Hi) as (w' & E' & Hc). exists w'. split; [exact E'|].
    rewrite <- (view_remove c (m_values o) (keyOf P) i (content_length _ _ (proj2 (proj2 Ho))) Hix).
    apply (changes_part w a o c _ _ w' Hok Ho Hc). rewrite El.
    rewrite (view_remove c (m_values o) (keyOf P) i (content_length _ _ (proj2 (proj2 Ho))) Hix).
    intros Hany. left. eapply anyIndexKey_remove. exact Hany.
  - subst found. rewrite El. exact Hlook.
Qed.

(** What a step leaves alone. *)
Lemma part_others w w' a l b : world_ok valid w -> part_step w w' a l -> b <> a -> listOf w' b = listOf w b.
Proof.
  intros Hok Hp Hb. destruct (objects w !! b) as [o|] eqn:Ho.
  - destruct (world_objects _ _ (ok_wf valid w Hok) b o Ho) as [c Hc].
    rewrite (listOf_object w b o c Hc). apply (listOf_object w' b o c). apply (frame_content _ _ _ (part_frame _ _ _ _ Hp) b o c Hb Hc).
  - unfold listOf. rewrite (frame_objects _ _ _ (part_frame _ _ _ _ Hp) b Hb), Ho. reflexivity.
Qed.

Lemma part_headers w w' a l b : part_step w w' a l ->
  extensibleOf w' b = extensibleOf w b /\ marked w' b = marked w b /\ protoOf w' b = protoOf w b /\
  (is_Some (objects w' !! b) <-> is_Some (objects w !! b)).
Proof.
  intros [_ Hf _ _ (o & o' & Ho & Ho' & E)]. unfold extensibleOf, marked, protoOf. destruct (decide (b = a)) as [->|Hne].
  - rewrite Ho, Ho', E. cbn. repeat split; eauto.
  - rewrite (frame_objects _ _ _ Hf b Hne). repeat split; auto.
Qed.

Lemma part_refl w a : world_ok valid w -> is_Some (objects w !! a) -> part_step w w a (listOf w a).
Proof.
  intros Hok [o Ho]. constructor; [exact Hok|apply frame_refl|reflexivity|reflexivity|].
  exists o, o. split; [exact Ho|]. split; [exact Ho|]. destruct o; reflexivity.
Qed.

(** [markThisObjectDontNeedStructureTransitionTable] changes no property. *)
Lemma part_structure w a : world_ok valid w -> is_Some (objects w !! a) ->
  exists w', markThisObjectDontNeedStructureTransitionTable a w = (Ret tt, w') /\ part_step w w' a (listOf w a).
Proof.
  intros Hok Ha. destruct (object_of valid w a Hok Ha) as (o & c & Ho & _).
  destruct (markNoTransition_ok valid w a o c (ok_wf valid w Hok) Ho) as (w' & r & E & Hw' & Hf & Ho' & Hflag).
  exists w'. split; [exact E|].
  assert (Hc : changes valid w a o c (m_values o) w').
  { constructor; [exact Hw'|exact Hf|exact Hflag|]. exists r. destruct o. exact Ho'. }
  rewrite (listOf_object w a o c Ho). apply (changes_part w a o c c (m_values o) w' Hok Ho Hc).
  rewrite (listOf_object w a o c Ho). auto.
Qed.

(** The lookup. *)
Lemma part_get w a P : world_ok valid w -> is_Some (objects w !! a) -> validP P ->
  exists r, Object_getOwnProperty nameOf a P w = (Ret r, w) /\ propertyOfResult r = lookupKey (listOf w a) (keyOf P) /\
    (forall data self v wr e c, r <> NativeResult data self v wr e c).
Proof.
  intros Hok Ha HP. destruct (object_of valid w a Hok Ha) as (o & c & Ho & Hprox).
  assert (Hord : ordinaryAt w a) by (exists o; split; [apply Ho|exact Hprox]).
  destruct (getOwn_plain valid validP out nameOf nameOfKey w a P (ok_wf valid w Hok) Hord HP) as (r & E & H).
  exists r. split; [|exact H]. revert E. unfold getOwnProperty.
  rewrite (bind_run _ _ _ o w (readObject_run _ _ _ (proj1 Ho))), Hprox. exact id.
Qed.
End Part.

(** * What arrays promise

    An array is seen as a length with its attribute and a partial map from keys to
    properties, the same in and out of fast mode.  Here: the invariant of arrays, the
    lookup, the conversion out of fast mode and the definition of properties. *)

(** ** The interface to names *)

(** The key [length]. *)
Definition lengthKey : PropertyKey := KString [108; 101; 110; 103; 116; 104].

(** What arrays need of names: each index below [limit] has one, the name of the length
    is recognised, and ToNumber of the text of an index is the index. *)
Class ArrayNames (heap : Heap) (valid validP : Z -> Prop) (nameOf : Z -> Z) (lengthString : Z) (nameOfOther integerOfName : Z -> Z)
    (limit : Z) : Prop := {
  limit_range : 0 <= limit <= InvalidIndexPropertyValue;
  index_valid : forall i, 0 <= i < limit -> validP (indexName nameOfOther i) /\
    propertyKey (nameOf (indexName nameOfOther i)) = KString (decimal i);
  name_keyIndex : forall P, validP P -> objectName_tryToUseAsIndexProperty P =
    default InvalidIndexPropertyValue (keyIndex (propertyKey (nameOf P)));
  name_isLength : forall P, validP P -> isLengthName lengthString P = bool_decide (propertyKey (nameOf P) = lengthKey);
  name_integer : forall m i, valid m -> keyIndex (propertyKey m) = Some i -> integerOfName m = i
}.

(** ** The view of an array *)

Definition elementOf (b : Buffer) (i : Z) : option Property :=
  match b !! Z.to_nat i with
  | Some (Some v) => if isEmpty v then None else Some (DataProperty v true true true)
  | _ => None
  end.

Definition lengthProperty (d : Array) : Property :=
  DataProperty (Value_unsigned (m_arrayLength d)) (m_isArrayObjectLengthWritable d) false false.

(** The properties of an array with the list [l] of properties as an object. *)
Definition arrayProperty (d : Array) (l : list (PropertyKey * Property)) (key : PropertyKey) : option Property :=
  if decide (key = lengthKey) then Some (lengthProperty d)
  else
    match m_fastModeData d, keyIndex key with
    | Some b, Some i => if i <? m_arrayLength d then elementOf b i else lookupKey l key
    | _, _ => lookupKey l key
    end.

Lemma length_no_index : keyIndex lengthKey = None.
Proof. reflexivity. Qed.

Lemma bind_throw {S E A B} (e : E) (k : A -> M S E B) s : bind (throw e) k s = (Throw e, s).
Proof. reflexivity. Qed.

Section Spec.
Context {heap : Heap} (valid validP : Z -> Prop) (out : Outside) (nameOf : Z -> Z) (nameOfKey : OwnKey -> Z).
Context {Hnames : ObjectNames heap valid validP nameOf nameOfKey}.
Context (lengthString : Z) (nameOfOther integerOfName : Z -> Z) (limit : Z).
Context {Harray : ArrayNames heap valid validP nameOf lengthString nameOfOther integerOfName limit}.

Abbreviation keyOf P := (propertyKey (nameOf P)).
Abbreviation world_ok := (world_ok valid).
Abbreviation part_step := (part_step valid).

(** ** The invariant *)

Record array_ok (w : World) (d : Array) (a : Z) : Prop := {
  array_object : is_Some (objects w !! a);
  array_range : 0 <= m_arrayLength d <= limit;
  array_no_length : lookupKey (listOf w a) lengthKey = None;
  array_indices : forall k i, keyIndex k = Some i -> is_Some (lookupKey (listOf w a) k) -> i < m_arrayLength d;
  array_fast : forall b, m_fastModeData d = Some b -> storage_ok d b /\ extensibleOf w a = true /\ marked w a = false /\
    forall k i, keyIndex k = Some i -> lookupKey (listOf w a) k = None
}.

Record arrays_ok (w : ArrayWorld) : Prop := {
  arrays_base : world_ok (base w);
  arrays_each : forall a d, arrays w !! a = Some d -> array_ok (base w) d a
}.

Definition withArray (w : ArrayWorld) (a : Z) (d : Array) : ArrayWorld :=
  {| base := base w; arrays := <[a := d]> (arrays w) |}.

(** ** Running the operations *)

Lemma lift_run {A} (m : OM A) w (r : A) b : m (base w) = (Ret r, b) -> lift m w = (Ret r, withBase w b).
Proof. intros E. unfold lift. rewrite E. reflexivity. Qed.

Lemma lift_read {A} (m : OM A) w (r : A) : m (base w) = (Ret r, base w) -> lift m w = (Ret r, w).
Proof. intros E. rewrite (lift_run m w r _ E). destruct w. reflexivity. Qed.

Lemma readArray_run w a d : arrays w !! a = Some d -> readArray a w = (Ret d, w).
Proof. intros E. unfold readArray. rewrite bind_gets, E. reflexivity. Qed.

Lemma slotOf_run d b i w : storage_ok d b -> 0 <= i < m_arrayLength d ->
  exists v, b !! Z.to_nat i = Some (Some v) /\ slotOf b i w = (Ret v, w).
Proof.
  intros [H1 H2 _ _ _] Hi. assert (Hlt : (Z.to_nat i < length b)%nat) by lia.
  destruct (lookup_lt_is_Some_2 b (Z.to_nat i) Hlt) as [s Hs].
  assert (Hw : written s).
  { apply (proj1 (list.Forall_lookup _ _) H2 (Z.to_nat i)). rewrite lookup_take_lt by lia. exact Hs. }
  destruct Hw as [v ->]. exists v. split; [exact Hs|]. unfold slotOf. rewrite Hs. reflexivity.
Qed.

Lemma elementOf_slot b i v : b !! Z.to_nat i = Some (Some v) ->
  elementOf b i = if isEmpty v then None else Some (DataProperty v true true true).
Proof. intros E. unfold elementOf. rewrite E. reflexivity. Qed.

(** ** Names *)

(** The key of a name is an index, the length, or neither. *)
Lemma index_of_name P : validP P ->
  match keyIndex (keyOf P) with
  | Some i => objectName_tryToUseAsIndexProperty P = i /\ (i =? InvalidIndexPropertyValue) = false /\ 0 <= i /\
      isLengthName lengthString P = false /\ keyOf P <> lengthKey
  | None => objectName_tryToUseAsIndexProperty P = InvalidIndexPropertyValue
  end.
Proof.
  intros HP. rewrite (name_keyIndex P HP). destruct (keyIndex (keyOf P)) as [i|] eqn:E; [|reflexivity].
  pose proof (proj1 (keyIndex_spec _ _) E) as [_ Hi]. cbn. split; [reflexivity|]. split; [lia|]. split; [lia|].
  assert (Hne : keyOf P <> lengthKey) by (intros H; rewrite H, length_no_index in E; discriminate).
  split; [|exact Hne]. rewrite name_isLength by exact HP. apply bool_decide_eq_false. exact Hne.
Qed.

Lemma index_name_key i : 0 <= i < limit -> keyIndex (keyOf (indexName nameOfOther i)) = Some i.
Proof.
  intros Hi. rewrite (proj2 (index_valid i Hi)). pose proof (limit_range (ArrayNames := Harray)).
  apply keyIndex_decimal. lia.
Qed.

(** ** [GetOwnProperty] *)

Lemma virtualValue_run w a d P : array_ok (base w) d a -> arrays w !! a = Some d -> validP P ->
  exists r, getVirtualValue lengthString a P w = (Ret r, w) /\
    (hasValue r = false -> arrayProperty d (listOf (base w) a) (keyOf P) = lookupKey (listOf (base w) a) (keyOf P)) /\
    (hasValue r = true -> propertyOfResult r = arrayProperty d (listOf (base w) a) (keyOf P) /\
       (forall data self v wr e c, r <> NativeResult data self v wr e c)).
Proof.
  intros Hok Ha HP. unfold getVirtualValue. rewrite (bind_run _ _ _ d w (readArray_run w a d Ha)).
  rewrite (name_isLength P HP). unfold arrayProperty. destruct (decide (keyOf P = lengthKey)) as [E|Hne].
  { rewrite bool_decide_eq_true_2 by exact E. eexists. split; [reflexivity|]. split; [discriminate|]. intros _. split; [reflexivity|discriminate]. }
  rewrite bool_decide_eq_false_2 by exact Hne. pose proof (index_of_name P HP) as Hix.
  assert (Hnone : exists r, ret NoProperty w = (Ret (E := ArrayError) r, w) /\
    (hasValue r = false -> lookupKey (listOf (base w) a) (keyOf P) = lookupKey (listOf (base w) a) (keyOf P)) /\
    (hasValue r = true -> propertyOfResult r = lookupKey (listOf (base w) a) (keyOf P) /\
       (forall data self v wr e c, r <> NativeResult data self v wr e c)))
    by (exists NoProperty; split; [reflexivity|]; split; [reflexivity|discriminate]).
  destruct (m_fastModeData d) as [b|] eqn:Eb; [|exact Hnone]. destruct (array_fast _ _ _ Hok b Eb) as (Hst & _ & _ & Hno).
  destruct (keyIndex (keyOf P)) as [i|] eqn:Ei.
  - destruct Hix as (-> & -> & Hi & _). cbn [negb andb]. destruct (Z.ltb_spec i (m_arrayLength d)) as [Hlt|Hge]; [|exact Hnone].
    destruct (slotOf_run d b i w Hst ltac:(lia)) as (v & Hv & E). rewrite (bind_run _ _ _ v w E), (elementOf_slot b i v Hv).
    destruct (isEmpty v); eexists; (split; [reflexivity|]); (split; [|try discriminate]); try discriminate.
    + intros _. symmetry. exact (Hno _ i Ei).
    + intros _. split; [reflexivity|discriminate].
  - rewrite Hix, Z.eqb_refl. exact Hnone.
Qed.

(** The lookup answers the property of the view and changes nothing. *)
Lemma array_get_ok w a d P : arrays_ok w -> arrays w !! a = Some d -> validP P ->
  exists r, array_getOwnProperty nameOf lengthString a P w = (Ret r, w) /\
    propertyOfResult r = arrayProperty d (listOf (base w) a) (keyOf P) /\
    (forall data self v wr e c, r <> NativeResult data self v wr e c).
Proof.
  intros Hw Ha HP. pose proof (arrays_each w Hw a d Ha) as Hok.
  destruct (virtualValue_run w a d P Hok Ha HP) as (r & E & H0 & H1). unfold array_getOwnProperty.
  rewrite (bind_run _ _ _ r w E). destruct (hasValue r); [exists r; split; [reflexivity|apply H1; reflexivity]|].
  destruct (part_get valid validP out nameOf nameOfKey (base w) a P (arrays_base w Hw) (array_object _ _ _ Hok) HP)
    as (r' & E' & Hr & Hn). exists r'. split; [apply lift_read; exact E'|]. rewrite H0 by reflexivity. auto.
Qed.

(** ** Steps of one object under the arrays *)

Lemma same_trans o o1 o2 : sameButProperties o o1 -> sameButProperties o1 o2 -> sameButProperties o o2.
Proof. unfold sameButProperties. intros -> ->. reflexivity. Qed.

Lemma part_trans w w1 w2 a l1 l2 : part_step w w1 a l1 -> part_step w1 w2 a l2 -> part_step w w2 a l2.
Proof.
  intros [H1 H2 H3 H4 (o & o1 & E1 & E2 & S1)] [K1 K2 K3 K4 (o1' & o2 & F1 & F2 & S2)].
  replace o1' with o1 in * by congruence. constructor; [exact K1|eapply frame_trans; eassumption|congruence|exact K4|].
  exists o, o2. split; [exact E1|]. split; [exact F2|]. eapply same_trans; eassumption.
Qed.

Lemma array_ok_other w w' a l d b : world_ok w -> part_step w w' a l -> b <> a -> array_ok w d b -> array_ok w' d b.
Proof.
  intros Hw Hp Hb [H1 H2 H3 H4 H5]. pose proof (part_others valid w w' a l b Hw Hp Hb) as El.
  destruct (part_headers valid w w' a l b Hp) as (E1 & E2 & _ & E4). constructor; rewrite ?El; auto; [apply E4; exact H1|].
  intros buf Hbuf. rewrite E1, E2. apply H5. exact Hbuf.
Qed.

(** One object and its array change. *)
Lemma arrays_part w w1 a d l : arrays_ok w -> part_step (base w) w1 a l -> array_ok w1 d a ->
  arrays_ok {| base := w1; arrays := <[a := d]> (arrays w) |}.
Proof.
  intros [H1 H2] Hp Hd. constructor; [apply Hp|]. intros b db Hb. cbn in Hb. apply lookup_insert_Some in Hb as [[<- <-]|[Hne Hb]].
  - exact Hd.
  - eapply array_ok_other; [exact H1|exact Hp|congruence|apply H2; exact Hb].
Qed.

(** Only the array changes. *)
Lemma arrays_write w a d : arrays_ok w -> array_ok (base w) d a -> arrays_ok (withArray w a d).
Proof.
  intros Hw Hd. apply (arrays_part w (base w) a d (listOf (base w) a) Hw); [|exact Hd].
  apply part_refl; [apply Hw|apply Hd].
Qed.

(** An array out of fast mode, after a step of its object. *)
Lemma array_ok_slow w w' a l d : part_step w w' a l -> m_fastModeData d = None -> 0 <= m_arrayLength d <= limit ->
  lookupKey l lengthKey = None -> (forall k i, keyIndex k = Some i -> is_Some (lookupKey l k) -> i < m_arrayLength d) ->
  array_ok w' d a.
Proof.
  intros Hp Hd Hr Hl Hi. pose proof (part_list _ _ _ _ _ Hp) as El. destruct (part_header _ _ _ _ _ Hp) as (o & o' & _ & Ho & _).
  constructor; rewrite ?El; eauto. intros b Hb. congruence.
Qed.

(** ** [DerivedObject::defineOwnProperty] without the flag *)

Definition quiet (w : World) (a : Z) (key : PropertyKey) : Prop :=
  (marked w a && negb (m_didSomePrototypeObjectDefineIndexedProperty w) && isIndexKey key) = false.

Lemma quiet_step w w' a l key : part_step w w' a l -> quiet w a key -> quiet w' a key.
Proof.
  intros Hp. unfold quiet. rewrite (part_flag _ _ _ _ _ Hp). destruct (part_headers valid w w' a l a Hp) as (_ & -> & _). exact id.
Qed.

Abbreviation verdict w a P desc :=
  (ValidateAndApply (extensibleOf w a) (lookupKey (listOf w a) (keyOf P)) (descriptorOf desc)).

Lemma derived_run raise w a P desc : arrays_ok w -> is_Some (objects (base w) !! a) -> validP P -> wf_descriptor desc ->
  quiet (base w) a (keyOf P) ->
  exists b, derived_defineOwnProperty out nameOf raise a P desc w =
      (Ret (bool_decide (is_Some (verdict (base w) a P desc))), withBase w b) /\
    part_step (base w) b a (definedList (listOf (base w) a) (keyOf P) (verdict (base w) a P desc)).
Proof.
  intros Hw [o Ho] HP Hwf Hq. unfold derived_defineOwnProperty.
  rewrite (bind_run _ _ _ o w (lift_read _ _ _ (readObject_run _ _ _ Ho))), bind_gets.
  assert (Hnot : m_isEverSetAsPrototypeObject o && negb (m_didSomePrototypeObjectDefineIndexedProperty (base w))
                 && objectName_isIndexString P = false).
  { rewrite (name_index P HP), name_index_key. unfold quiet, marked in Hq. rewrite Ho in Hq. exact Hq. }
  rewrite Hnot. cbv iota. rewrite bind_ret.
  destruct (part_define valid validP out nameOf nameOfKey (base w) a P desc (arrays_base w Hw) (ex_intro _ o Ho) HP Hwf Hq)
    as (b & E & Hp). exists b. split; [apply lift_run; exact E|exact Hp].
Qed.

(** ** [NonFastPath] *)

(** The definition of an index past a length that is read-only is refused. *)
Definition blocked (d : Array) (key : PropertyKey) : bool :=
  match keyIndex key with Some i => (m_arrayLength d <=? i) && negb (m_isArrayObjectLengthWritable d) | None => false end.

(** The length after the definition of a key. *)
Definition lengthAfter (d : Array) (key : PropertyKey) (defined : bool) : Z :=
  match keyIndex key with Some i => if defined && (m_arrayLength d <=? i) then i + 1 else m_arrayLength d | None => m_arrayLength d end.

Definition arrayVerdict (w : World) (d : Array) (a P : Z) (desc : ObjectPropertyDescriptor) : option Property :=
  if blocked d (keyOf P) then None else verdict w a P desc.

(** [setArrayLength] to a length that is not smaller, out of fast mode. *)
Definition grows (setLen : Z -> AM bool) (a : Z) : Prop := forall w d n, arrays w !! a = Some d -> m_fastModeData d = None ->
  m_arrayLength d <= n -> setLen n w = (Ret true, withArray w a (withLength d n)).

Lemma withLength_same d : withLength d (m_arrayLength d) = d.
Proof. destruct d. reflexivity. Qed.

Lemma definedList_none l key : definedList l key None = l.
Proof. reflexivity. Qed.

Lemma nonFast_run raise setLen w a d P desc (p := arrayVerdict (base w) d a P desc) : arrays_ok w -> grows setLen a ->
  arrays w !! a = Some d -> m_fastModeData d = None -> validP P -> keyOf P <> lengthKey ->
  (forall i, keyIndex (keyOf P) = Some i -> i < limit) -> wf_descriptor desc -> quiet (base w) a (keyOf P) ->
  exists b, let d' := withLength d (lengthAfter d (keyOf P) (bool_decide (is_Some p))) in
    nonFastPath out nameOf raise setLen a P desc w =
      (Ret (bool_decide (is_Some p)), {| base := b; arrays := <[a := d']> (arrays w) |}) /\
    part_step (base w) b a (definedList (listOf (base w) a) (keyOf P) p) /\
    arrays_ok {| base := b; arrays := <[a := d']> (arrays w) |}.
Proof.
  intros Hw Hset Ha Hd HP Hne Hlim Hwf Hq. pose proof (arrays_each w Hw a d Ha) as Hok. set (key := keyOf P) in *.
  destruct (derived_run raise w a P desc Hw (array_object _ _ _ Hok) HP Hwf Hq) as (b & E & Hp).
  set (v := verdict (base w) a P desc) in *. fold key in v, Hp. pose proof (index_of_name P HP) as Hix. fold key in Hix.
  set (d' := withLength d (lengthAfter d key (bool_decide (is_Some p)))).
  assert (Hlen : 0 <= m_arrayLength d' <= limit).
  { pose proof (array_range _ _ _ Hok). cbn. unfold lengthAfter. destruct (keyIndex key) as [i|] eqn:Ei; [|lia].
    specialize (Hlim i eq_refl). destruct Hix as (_ & _ & Hi & _). case_if; lia. }
  assert (Hfin : forall q, p = q -> part_step (base w) b a (definedList (listOf (base w) a) key q) ->
    arrays_ok {| base := b; arrays := <[a := d']> (arrays w) |}).
  { intros q Eq Hpq. apply (arrays_part w b a d' _ Hw Hpq). eapply array_ok_slow; [exact Hpq|exact Hd|exact Hlen| |].
    - destruct q as [q|]; cbn; [rewrite lookup_put, decide_False by exact Hne|]; apply (array_no_length _ _ _ Hok).
    - intros k i Hk Hs. cbn. unfold lengthAfter. subst q. destruct p as [q|] eqn:Ep; cbn in Hs |- *.
      + rewrite lookup_put in Hs. case_decide as Ek.
        * subst k. rewrite Hk. destruct (Z.leb_spec (m_arrayLength d) i); lia.
        * pose proof (array_indices _ _ _ Hok k i Hk Hs). destruct (keyIndex key); [case_if; to_prop|]; lia.
      + pose proof (array_indices _ _ _ Hok k i Hk Hs). destruct (keyIndex key); lia. }
  assert (Hsame : forall b1, d' = d -> {| base := b1; arrays := <[a := d']> (arrays w) |} = withBase w b1)
    by (intros b1 ->; rewrite insert_id by exact Ha; reflexivity).
  assert (Ep : p = if blocked d key then None else v) by reflexivity.
  assert (Ed : (if bool_decide (is_Some p) then negb (bool_decide (is_Some (keyIndex key))) else true) = true -> d' = d).
  { unfold d', lengthAfter. destruct (keyIndex key), (bool_decide (is_Some p)); cbn; intros; try discriminate; apply withLength_same. }
  unfold nonFastPath. destruct (blocked d key) eqn:Eb.
  - exists (base w). cbn zeta. fold d'. rewrite Ep in *. rewrite Hsame by (apply Ed; reflexivity). unfold blocked in Eb.
    rewrite (bind_run _ _ _ d w (readArray_run w a d Ha)). destruct (keyIndex key) as [i|]; [|discriminate].
    destruct Hix as (-> & -> & _). cbn [negb]. rewrite Eb. destruct w as [wb wa].
    split; [reflexivity|]. split; [apply part_refl; [apply Hw|apply Hok]|exact Hw].
  - exists b. cbn zeta. fold d'. split; [|split; [rewrite Ep; exact Hp|exact (Hfin v Ep Hp)]].
    rewrite (bind_run _ _ _ d w (readArray_run w a d Ha)). unfold blocked in Eb. destruct (keyIndex key) as [i|] eqn:Ei.
    + destruct Hix as (-> & -> & Hi & _). cbn [negb]. rewrite Eb, (bind_run _ _ _ _ _ E), Ep. destruct v as [q|] eqn:Ev; cbn [bool_decide negb].
      * destruct (Z.leb_spec (m_arrayLength d) i) as [Hle|Hgt]; cbn.
        -- rewrite (Hset (withBase w b) d (i + 1)); [|exact Ha|exact Hd|lia]. unfold d', lengthAfter. rewrite Ei, Ep. cbn.
           rewrite (proj2 (Z.leb_le _ _) Hle). reflexivity.
        -- rewrite Hsame; [reflexivity|]. unfold d', lengthAfter. rewrite Ei, (proj2 (Z.leb_gt _ _) Hgt), andb_false_r. apply withLength_same.
      * rewrite Hsame; [reflexivity|]. apply Ed. rewrite Ep. reflexivity.
    + rewrite Hix, Z.eqb_refl. cbn [negb]. rewrite E, Ep, Hsame; [reflexivity|]. apply Ed. case_if; reflexivity.
Qed.
End Spec.
