(* ===== verification/ArrayConvert.v ===== *)
(** * Leaving the fast mode

    [convertIntoNonFastMode] turns the elements of the buffer into properties, and
    [somePrototypeObjectDefineIndexedProperty] does so for every array.  Neither can be
    seen in the properties of an array. *)

From stdpp Require Import gmap.
From S2P Require Import Prelude Value PropertyName PropertyDescriptor ObjectStructure StructureSpec Object.
From S2P Require Import ObjectSpec ObjectDefine ObjectMethods ObjectPrototype ObjectHistory ArrayStorage.
From S2P Require Import ArrayObject ArraySpec.
Local Open Scope Z_scope.
Local Open Scope esc_scope.

Lemma insert_same {A} (m : gmap Z A) a d : m !! a = Some d -> <[a := d]> m = m.
Proof. apply insert_id. Qed.

(** ** Descriptors that the fast mode accepts *)

Lemma wf_element {heap : Heap} v : wf_descriptor (dataDescriptor v AllPresent).
Proof. split; [reflexivity|discriminate]. Qed.

Lemma element_verdict {heap : Heap} v : ValidateAndApply true None (descriptorOf (dataDescriptor v AllPresent)) = Some (DataProperty v true true true).
Proof. reflexivity. Qed.

(** The properties of an object, those of arrays included. *)
Definition viewAt {heap : Heap} (w : ArrayWorld) (a : Z) (key : PropertyKey) : option Property :=
  match arrays w !! a with
  | Some d => arrayProperty d (listOf (base w) a) key
  | None => lookupKey (listOf (base w) a) key
  end.

Definition fastAt (w : ArrayWorld) (a : Z) : bool :=
  match arrays w !! a with Some d => isFastModeArray d | None => false end.

Lemma viewAt_array {heap : Heap} w a d key : arrays w !! a = Some d -> viewAt w a key = arrayProperty d (listOf (base w) a) key.
Proof. intros E. unfold viewAt. rewrite E. reflexivity. Qed.

Lemma arrayProperty_slow d l key : m_fastModeData d = None ->
  arrayProperty d l key = if decide (key = lengthKey) then Some (lengthProperty d) else lookupKey l key.
Proof. intros E. unfold arrayProperty. rewrite E. reflexivity. Qed.

Lemma bind_same {S E A B} (m : M S E A) (k : A -> M S E B) s s1 : m s = m s1 -> bind m k s = bind m k s1.
Proof. unfold bind. intros ->. reflexivity. Qed.

Section Convert.
Context {heap : Heap} (valid validP : Z -> Prop) (out : Outside) (nameOf : Z -> Z) (nameOfKey : OwnKey -> Z).
Context {Hnames : ObjectNames heap valid validP nameOf nameOfKey}.
Context (lengthString : Z) (nameOfOther : Z -> Z) (integerOfName : Z -> Z) (limit : Z).
Context {Harray : ArrayNames heap valid validP nameOf lengthString nameOfOther integerOfName limit}.

Abbreviation keyOf P := (propertyKey (nameOf P)).
Abbreviation arrays_ok := (arrays_ok valid limit).
Abbreviation array_ok := (array_ok limit).
Abbreviation part_step := (part_step valid).
Abbreviation setLengthOfProperties := (setLengthOfProperties out nameOf lengthString nameOfOther integerOfName).

(** ** The steps of an array *)

(** The array [a] changes; of the other objects nothing is seen to change, and no array
    goes into fast mode. *)
Record array_step (w w' : ArrayWorld) (a : Z) : Prop := {
  step_ok : arrays_ok w';
  step_views : forall b key, b <> a -> viewAt w' b key = viewAt w b key;
  step_arrays : forall b, is_Some (arrays w' !! b) <-> is_Some (arrays w !! b);
  step_fast : forall b, b <> a -> fastAt w' b = true -> fastAt w b = true;
  step_headers : forall b, extensibleOf (base w') b = extensibleOf (base w) b /\ marked (base w') b = marked (base w) b /\
    protoOf (base w') b = protoOf (base w) b /\ (is_Some (objects (base w') !! b) <-> is_Some (objects (base w) !! b))
}.

Lemma array_step_refl w a : arrays_ok w -> array_step w w a.
Proof. intros H. constructor; auto. Qed.

Lemma array_step_trans w w1 w2 a : array_step w w1 a -> array_step w1 w2 a -> array_step w w2 a.
Proof using Type.
  intros [H1 H2 H3 H4 H5] [K1 K2 K3 K4 K5]. constructor; auto.
  - intros b key Hb. rewrite K2 by exact Hb. apply H2. exact Hb.
  - intros b. rewrite K3. apply H3.
  - intros b. destruct (H5 b) as (A1 & A2 & A3 & A4), (K5 b) as (B1 & B2 & B3 & B4).
    split_and!; [congruence|congruence|congruence|tauto].
Qed.

(** A step of one object under the arrays. *)
Lemma part_array_step w a b d l : arrays_ok w -> is_Some (arrays w !! a) -> part_step (base w) b a l -> array_ok b d a ->
  array_step w {| base := b; arrays := <[a := d]> (arrays w) |} a.
Proof.
  intros Hw Ha Hp Hd. constructor; cbn.
  - eapply arrays_part; eassumption.
  - intros c key Hc. unfold viewAt. cbn. rewrite lookup_insert_ne by congruence.
    rewrite (part_others valid (base w) b a l c (arrays_base _ _ _ Hw) Hp Hc). reflexivity.
  - intros c. destruct (decide (c = a)) as [->|Hne]; [rewrite lookup_insert_eq; split; eauto|rewrite lookup_insert_ne by congruence; reflexivity].
  - intros c Hc. unfold fastAt. cbn. rewrite lookup_insert_ne by congruence. exact id.
  - intros c. exact (part_headers valid (base w) b a l c Hp).
Qed.

(** ** [setArrayLength] that deletes nothing *)

Lemma setLength_grows a : grows (setLengthOfProperties a) a.
Proof.
  intros w d n Ha Hd Hn. unfold ArrayObject.setLengthOfProperties. rewrite (bind_run _ _ _ d w (readArray_run w a d Ha)).
  assert (E : (n <? m_arrayLength d) = false) by lia.
  destruct (Z.to_nat (m_arrayLength d)); cbn [deleteFrom]; rewrite E, (bind_run _ _ _ d w (readArray_run w a d Ha)); reflexivity.
Qed.

(** ** The elements become properties *)

(** The properties [l] and the elements from [i] on. *)
Definition mergedList (temp : Buffer) (i len : Z) (l : list (PropertyKey * Property)) (key : PropertyKey) : option Property :=
  match keyIndex key with
  | Some j => if (i <=? j) && (j <? len) then elementOf temp j else lookupKey l key
  | None => lookupKey l key
  end.

Lemma merged_empty temp i len l key : i = len -> mergedList temp i len l key = lookupKey l key.
Proof.
  intros ->. unfold mergedList. destruct (keyIndex key) as [j|]; [|reflexivity].
  replace ((len <=? j) && (j <? len)) with false; [reflexivity|]. destruct (Z.leb_spec len j), (Z.ltb_spec j len); lia || reflexivity.
Qed.

(** One element more, and the others as before. *)
Lemma merged_next temp i len l l' key : i < len -> (forall k, keyIndex k <> Some i -> lookupKey l' k = lookupKey l k) ->
  (forall k, keyIndex k = Some i -> lookupKey l' k = elementOf temp i) ->
  mergedList temp (i + 1) len l' key = mergedList temp i len l key.
Proof.
  intros Hi H1 H2. unfold mergedList. destruct (keyIndex key) as [j|] eqn:E; [|apply H1; congruence].
  destruct (Z.eq_dec j i) as [->|Hne].
  - replace (i + 1 <=? i) with false by lia. replace (i <=? i) with true by lia. replace (i <? len) with true by lia. cbn.
    apply H2. exact E.
  - replace (i + 1 <=? j) with (i <=? j) by lia. case_if; [reflexivity|]. apply H1. congruence.
Qed.

Lemma defineElements_run raise a d temp n : forall i w, arrays_ok w -> arrays w !! a = Some d -> m_fastModeData d = None ->
  0 <= i -> i + Z.of_nat n = m_arrayLength d -> storage_ok d temp -> extensibleOf (base w) a = true -> marked (base w) a = false ->
  (forall k j, keyIndex k = Some j -> i <= j -> lookupKey (listOf (base w) a) k = None) ->
  exists b l, defineElements out nameOf lengthString nameOfOther integerOfName raise a temp i n w = (Ret tt, withBase w b) /\
    part_step (base w) b a l /\ arrays_ok (withBase w b) /\
    forall key, lookupKey l key = mergedList temp i (m_arrayLength d) (listOf (base w) a) key.
Proof.
  induction n as [|n IH]; intros i w Hw Ha Hd Hi Hn Hst Hext Hmark Hno; cbn [defineElements].
  - exists (base w), (listOf (base w) a). split; [destruct w; reflexivity|]. split; [apply part_refl; [apply Hw|apply (arrays_each _ _ _ Hw a d Ha)]|].
    split; [destruct w; exact Hw|]. intros key. symmetry. apply merged_empty. lia.
  - pose proof (arrays_each _ _ _ Hw a d Ha) as Hok. pose proof (array_range _ _ _ _ Hok) as Hr.
    assert (Hlim : 0 <= i < limit) by lia. set (P := indexName nameOfOther i).
    assert (Hk : keyIndex (keyOf P) = Some i) by exact (index_name_key valid validP nameOf lengthString nameOfOther integerOfName limit i Hlim).
    destruct (slotOf_run d temp i w Hst ltac:(lia)) as (v & Hv & Ev). rewrite (bind_run _ _ _ v w Ev).
    pose proof (elementOf_slot temp i v Hv) as He. destruct (isEmpty v); cbv iota; cbn [negb].
    + rewrite bind_ret. destruct (IH (i + 1) w Hw Ha Hd ltac:(lia) ltac:(lia) Hst Hext Hmark) as (b & l & E & Hp & Hb & Hl).
      { intros k j Hkj Hj. apply (Hno k j Hkj). lia. }
      exists b, l. split; [exact E|]. split; [exact Hp|]. split; [exact Hb|]. intros key. rewrite Hl.
      apply merged_next; [lia|auto|]. intros k Hki. rewrite He. apply (Hno k i Hki). lia.
    + assert (HP : validP P) by apply (index_valid (ArrayNames := Harray) i Hlim).
      assert (Hnone : lookupKey (listOf (base w) a) (keyOf P) = None) by (apply (Hno _ i Hk); lia).
      destruct (nonFast_run valid validP out nameOf nameOfKey lengthString nameOfOther integerOfName limit raise
        (setLengthOfProperties a) w a d P (dataDescriptor v AllPresent) Hw (setLength_grows a) Ha Hd HP) as (b1 & E1 & Hp1 & Hb1).
      { intros E. rewrite E in Hk. discriminate. }
      { intros j Hj. replace j with i by congruence. lia. }
      { apply wf_element. }
      { unfold quiet. rewrite Hmark. reflexivity. }
      revert E1 Hp1 Hb1. unfold arrayVerdict, blocked. rewrite Hk, Hnone, Hext, element_verdict.
      replace (m_arrayLength d <=? i) with false by lia. cbn [andb]. unfold lengthAfter. rewrite Hk.
      replace (m_arrayLength d <=? i) with false by lia. rewrite andb_false_r, withLength_same, insert_same by exact Ha.
      change {| base := b1; arrays := arrays w |} with (withBase w b1). intros E1 Hp1 Hb1.
      rewrite (bind_run _ _ _ tt (withBase w b1)) by (rewrite (bind_run _ _ _ _ _ E1); reflexivity).
      destruct (part_headers valid _ _ _ _ a Hp1) as (Hx & Hm & _).
      pose proof (part_list _ _ _ _ _ Hp1) as Hl1. cbn [definedList] in Hl1.
      destruct (IH (i + 1) (withBase w b1) Hb1 Ha Hd ltac:(lia) ltac:(lia) Hst) as (b & l & E & Hp & Hb & Hl).
      { cbn. congruence. }
      { cbn. congruence. }
      { cbn. intros k j Hkj Hj. rewrite Hl1, lookup_put, decide_False by (intros <-; rewrite Hk in Hkj; injection Hkj; lia). apply (Hno k j Hkj). lia. }
      exists b, l. split; [exact E|]. split; [eapply part_trans; eassumption|]. split; [exact Hb|]. intros key. rewrite Hl. cbn. rewrite Hl1.
      apply merged_next; [lia| |].
      * intros k Hki. rewrite lookup_put, decide_False by congruence. reflexivity.
      * intros k Hki. rewrite lookup_put, decide_True by (apply (keyIndex_inj _ _ i); assumption). symmetry. exact He.
Qed.

(** ** [convertIntoNonFastMode] *)

Lemma slow_withData d : m_fastModeData d = None -> withData d None = d.
Proof. destruct d. cbn. intros ->. reflexivity. Qed.

Lemma convert_run raise w a d : arrays_ok w -> arrays w !! a = Some d ->
  exists b l, convertIntoNonFastMode out nameOf lengthString nameOfOther integerOfName raise a w =
      (Ret tt, {| base := b; arrays := <[a := withData d None]> (arrays w) |}) /\
    part_step (base w) b a l /\ arrays_ok {| base := b; arrays := <[a := withData d None]> (arrays w) |} /\
    forall key, arrayProperty (withData d None) l key = arrayProperty d (listOf (base w) a) key.
Proof.
  intros Hw Ha. pose proof (arrays_each _ _ _ Hw a d Ha) as Hok. unfold convertIntoNonFastMode.
  rewrite (bind_run _ _ _ d w (readArray_run w a d Ha)). destruct (m_fastModeData d) as [temp|] eqn:Ed.
  - destruct (array_fast _ _ _ _ Hok temp Ed) as (Hst & Hext & Hmark & Hno).
    destruct (part_structure valid (base w) a (arrays_base _ _ _ Hw) (array_object _ _ _ _ Hok)) as (b1 & E1 & Hp1).
    rewrite (bind_run _ _ _ tt (withBase w b1) (lift_run _ _ _ _ E1)).
    set (w1 := {| base := b1; arrays := <[a := withData d None]> (arrays w) |}).
    rewrite (bind_run (writeArray a (withData d None)) _ (withBase w b1) tt w1 eq_refl). pose proof (part_list _ _ _ _ _ Hp1) as Hl1.
    assert (Hw1 : arrays_ok w1).
    { eapply arrays_part; [exact Hw|exact Hp1|]. eapply array_ok_slow; [exact Hp1|reflexivity|exact (array_range _ _ _ _ Hok)|apply Hok|].
      intros k i Hk [p Hs]. rewrite (Hno k i Hk) in Hs. discriminate. }
    destruct (part_headers valid _ _ _ _ a Hp1) as (Hx & Hm & _).
    destruct (defineElements_run raise a (withData d None) temp (Z.to_nat (m_arrayLength d)) 0 w1 Hw1) as (b & l & E & Hp & Hb & Hl).
    { apply lookup_insert_eq. }
    { reflexivity. }
    { lia. }
    { pose proof (array_range _ _ _ _ Hok). cbn. lia. }
    { destruct Hst. constructor; assumption. }
    { cbn. congruence. }
    { cbn. congruence. }
    { cbn. intros k j Hk _. rewrite Hl1. exact (Hno k j Hk). }
    exists b, l. split; [exact E|]. split; [eapply part_trans; eassumption|]. split; [exact Hb|].
    intros key. rewrite arrayProperty_slow by reflexivity. unfold arrayProperty. rewrite Ed, Hl. case_decide; [reflexivity|].
    cbn. rewrite Hl1. unfold mergedList. destruct (keyIndex key) as [j|] eqn:Ej; [|reflexivity].
    pose proof (proj1 (keyIndex_spec _ _) Ej) as [_ Hj]. cbn. replace (0 <=? j) with true by lia. reflexivity.
  - rewrite slow_withData by exact Ed. exists (base w), (listOf (base w) a). rewrite insert_same by exact Ha.
    destruct w as [wb wa]. split; [reflexivity|]. split; [apply part_refl; [apply Hw|apply Hok]|]. split; [exact Hw|reflexivity].
Qed.

(** Nothing is seen to change; arrays can have left their fast mode. *)
Record unseen (w w' : ArrayWorld) : Prop := {
  unseen_ok : arrays_ok w';
  unseen_views : forall b key, viewAt w' b key = viewAt w b key;
  unseen_arrays : forall b, arrays w' !! b = arrays w !! b \/ arrays w' !! b = (fun d => withData d None) <$> arrays w !! b;
  unseen_headers : forall b, extensibleOf (base w') b = extensibleOf (base w) b /\ marked (base w') b = marked (base w) b /\
    protoOf (base w') b = protoOf (base w) b /\ (is_Some (objects (base w') !! b) <-> is_Some (objects (base w) !! b))
}.

Lemma unseen_step w w' a : unseen w w' -> array_step w w' a.
Proof.
  intros [H1 H2 H3 H4]. constructor; auto.
  - intros b. destruct (H3 b) as [->| ->]; [reflexivity|]. destruct (arrays w !! b); cbn; split; intros []; eauto; discriminate.
  - intros b _. unfold fastAt. destruct (H3 b) as [->| ->]; [auto|]. destruct (arrays w !! b); cbn; [discriminate|auto].
Qed.

Lemma unseen_refl w : arrays_ok w -> unseen w w.
Proof. intros H. constructor; auto. Qed.

Lemma unseen_trans w w1 w2 : unseen w w1 -> unseen w1 w2 -> unseen w w2.
Proof using Type.
  intros [H1 H2 H3 H4] [K1 K2 K3 K4]. constructor; auto.
  - intros b key. rewrite K2. apply H2.
  - intros b. destruct (H3 b) as [E|E], (K3 b) as [F|F]; rewrite F, E; auto. right. destruct (arrays w !! b); reflexivity.
  - intros b. destruct (H4 b) as (A1 & A2 & A3 & A4), (K4 b) as (B1 & B2 & B3 & B4).
    split_and!; [congruence|congruence|congruence|tauto].
Qed.

Lemma unseen_slow w w' b d : unseen w w' -> arrays w !! b = Some d -> m_fastModeData d = None -> arrays w' !! b = Some d.
Proof. intros Hu Hb Hd. destruct (unseen_arrays _ _ Hu b) as [->| ->]; rewrite Hb; cbn; rewrite ?slow_withData by exact Hd; reflexivity. Qed.

Lemma convert_unseen raise w a d : arrays_ok w -> arrays w !! a = Some d ->
  exists w', convertIntoNonFastMode out nameOf lengthString nameOfOther integerOfName raise a w = (Ret tt, w') /\ unseen w w' /\
    arrays w' !! a = Some (withData d None) /\
    m_didSomePrototypeObjectDefineIndexedProperty (base w') = m_didSomePrototypeObjectDefineIndexedProperty (base w).
Proof.
  intros Hw Ha. destruct (convert_run raise w a d Hw Ha) as (b & l & E & Hp & Hok & Hv). eexists. split; [exact E|].
  split; [|split; [apply lookup_insert_eq|exact (part_flag _ _ _ _ _ Hp)]].
  assert (Hd : array_ok b (withData d None) a) by (apply (arrays_each _ _ _ Hok); apply lookup_insert_eq).
  pose proof (part_array_step w a b _ l Hw (ex_intro _ d Ha) Hp Hd) as Hs. constructor.
  - exact Hok.
  - intros c key. destruct (decide (c = a)) as [->|Hne]; [|exact (step_views _ _ _ Hs c key Hne)].
    rewrite (viewAt_array _ a (withData d None)) by apply lookup_insert_eq. rewrite (viewAt_array w a d key Ha), <- Hv. cbn.
    rewrite (part_list _ _ _ _ _ Hp). reflexivity.
  - intros c. cbn. destruct (decide (c = a)) as [->|Hne]; [right; rewrite lookup_insert_eq, Ha; reflexivity|].
    left. apply lookup_insert_ne. congruence.
  - exact (step_headers _ _ _ Hs).
Qed.

(** ** [somePrototypeObjectDefineIndexedProperty] *)

Lemma raised_world_ok w : world_ok valid w -> world_ok valid (raised w).
Proof.
  intros [H1 H2 H3 H4 H5]. constructor; [apply raised_wf; exact H1|exact H2| |exact H4|discriminate].
  intros a Ha. destruct (H3 a Ha) as [l Hl]. exists l. clear -Hl. induction Hl; econstructor; eassumption.
Qed.

Lemma raised_unseen w : arrays_ok w -> unseen w (withBase w (raised (base w))).
Proof.
  intros [H1 H2]. constructor; auto. constructor; [apply raised_world_ok; exact H1|].
  intros a d Ha. destruct (H2 a d Ha) as [A1 A2 A3 A4 A5]. constructor; assumption.
Qed.

Abbreviation convertAll := (convertAll out nameOf lengthString nameOfOther integerOfName).
Abbreviation raise := (somePrototypeObjectDefineIndexedProperty out nameOf lengthString nameOfOther integerOfName).

Lemma unseen_some w w' b : unseen w w' -> is_Some (arrays w' !! b) <-> is_Some (arrays w !! b).
Proof. intros H. exact (step_arrays _ _ _ (unseen_step _ _ b H) b). Qed.

Lemma unseen_fast w w' b : unseen w w' -> fastAt w b = false -> fastAt w' b = false.
Proof.
  intros H E. unfold fastAt in *. destruct (unseen_arrays _ _ H b) as [->| ->]; [exact E|].
  destruct (arrays w !! b); reflexivity.
Qed.

Lemma convertAll_run l : forall w, arrays_ok w -> (forall a, In a l -> is_Some (arrays w !! a)) ->
  exists w', convertAll l w = (Ret tt, w') /\ unseen w w' /\ (forall a, In a l -> fastAt w' a = false) /\
    m_didSomePrototypeObjectDefineIndexedProperty (base w') = m_didSomePrototypeObjectDefineIndexedProperty (base w).
Proof.
  induction l as [|a l IH]; intros w Hw Hl; cbn [ArrayObject.convertAll].
  - exists w. split; [reflexivity|]. split; [apply unseen_refl; exact Hw|]. split; [intros a []|reflexivity].
  - destruct (Hl a (or_introl eq_refl)) as [d Ha].
    destruct (convert_unseen undefinedBehaviour w a d Hw Ha) as (w1 & E1 & Hu1 & Ha1 & Hf1).
    rewrite (bind_run _ _ _ tt w1 E1). destruct (IH w1 (unseen_ok _ _ Hu1)) as (w' & E & Hu & Hs & Hf).
    { intros b Hb. apply (unseen_some w w1 b Hu1). exact (Hl b (or_intror Hb)). }
    exists w'. split; [exact E|]. split; [eapply unseen_trans; eassumption|]. split; [|congruence].
    intros b [<-|Hb]; [|auto]. apply (unseen_fast w1 w' a Hu). unfold fastAt. rewrite Ha1. reflexivity.
Qed.

(** No conversion raises the flag again, and all arrays are out of fast mode. *)
Lemma raise_run w : arrays_ok w -> exists w', raise w = (Ret tt, w') /\ unseen w w' /\ (forall a, fastAt w' a = false) /\
  m_didSomePrototypeObjectDefineIndexedProperty (base w') = true.
Proof.
  intros Hw. unfold somePrototypeObjectDefineIndexedProperty. pose proof (raised_unseen w Hw) as Hu0.
  set (w0 := withBase w (raised (base w))) in *.
  erewrite (bind_run (modify _) _ w tt w0) by reflexivity. rewrite bind_gets.
  destruct (convertAll_run (map fst (map_to_list (arrays w0))) w0 (unseen_ok _ _ Hu0)) as (w' & E & Hu & Hs & Hf).
  { intros a Ha. apply in_map_iff in Ha as ([b d] & <- & Hb). apply list_elem_of_In, elem_of_map_to_list in Hb. eauto. }
  exists w'. split; [exact E|]. split; [eapply unseen_trans; eassumption|]. split; [|exact Hf].
  intros a. destruct (arrays w0 !! a) as [d|] eqn:Ea.
  - apply Hs. apply in_map_iff. exists (a, d). split; [reflexivity|]. apply list_elem_of_In, elem_of_map_to_list. exact Ea.
  - unfold fastAt. destruct (unseen_arrays _ _ Hu a) as [->| ->]; rewrite Ea; reflexivity.
Qed.

(** ** Definition of a property out of fast mode *)

(** The view after the definition of [key], with the length [n]. *)
Definition definedView (w : ArrayWorld) (a : Z) (d : Array) (key : PropertyKey) (p : option Property) (n : Z) (k : PropertyKey) : option Property :=
  if decide (k = lengthKey) then Some (lengthProperty (withLength d n))
  else if decide (k = key) then match p with Some p => Some p | None => viewAt w a k end
  else viewAt w a k.

Definition arrayVerdictAt (w : ArrayWorld) (d : Array) (a P : Z) (desc : ObjectPropertyDescriptor) : option Property :=
  if blocked d (keyOf P) then None else ValidateAndApply (extensibleOf (base w) a) (viewAt w a (keyOf P)) (descriptorOf desc).

Lemma derived_raises w w1 a P desc : is_Some (objects (base w) !! a) -> is_Some (objects (base w1) !! a) -> validP P ->
  ~ quiet (base w) a (keyOf P) -> raise w = (Ret tt, w1) -> m_didSomePrototypeObjectDefineIndexedProperty (base w1) = true ->
  derived_defineOwnProperty out nameOf raise a P desc w = derived_defineOwnProperty out nameOf raise a P desc w1.
Proof.
  intros [o Ho] [o1 Ho1] HP Hq Hr Hf. unfold derived_defineOwnProperty.
  assert (Hc : m_isEverSetAsPrototypeObject o && negb (m_didSomePrototypeObjectDefineIndexedProperty (base w))
               && objectName_isIndexString P = true).
  { rewrite (name_index P HP), name_index_key. apply not_false_is_true in Hq. unfold marked in Hq. rewrite Ho in Hq. exact Hq. }
  rewrite (bind_run _ _ _ o w (lift_read _ _ _ (readObject_run _ _ _ Ho))), bind_gets, Hc.
  rewrite (bind_run _ _ _ o1 w1 (lift_read _ _ _ (readObject_run _ _ _ Ho1))), bind_gets, Hf, andb_false_r. cbn [andb].
  cbv iota. rewrite (bind_run _ _ _ tt w1 Hr), bind_ret. reflexivity.
Qed.

(** What [NonFastPath] promises of the definition of [P]. *)
Definition defines (setLen : Z -> AM bool) (w : ArrayWorld) (d : Array) (a P : Z) (desc : ObjectPropertyDescriptor) (w0 : ArrayWorld) : Prop :=
  let p := arrayVerdictAt w d a P desc in
  let n := lengthAfter d (keyOf P) (bool_decide (is_Some p)) in
  exists w', nonFastPath out nameOf raise setLen a P desc w0 = (Ret (bool_decide (is_Some p)), w') /\ array_step w w' a /\
    arrays w' !! a = Some (withLength d n) /\ forall k, viewAt w' a k = definedView w a d (keyOf P) p n k.

Lemma nonFast_quiet setLen w w1 a d P desc : unseen w w1 -> quiet (base w1) a (keyOf P) -> grows setLen a ->
  arrays w !! a = Some d -> m_fastModeData d = None -> validP P -> keyOf P <> lengthKey ->
  (forall i, keyIndex (keyOf P) = Some i -> i < limit) -> wf_descriptor desc -> defines setLen w d a P desc w1.
Proof.
  intros Hu Hq Hset Ha Hd HP Hne Hlim Hwf. unfold defines. set (p := arrayVerdictAt w d a P desc).
  set (n := lengthAfter d (keyOf P) (bool_decide (is_Some p))). cbn zeta.
  pose proof (unseen_slow w w1 a d Hu Ha Hd) as Ha1. pose proof (unseen_ok _ _ Hu) as Hw1.
  assert (Hv : forall k, lookupKey (listOf (base w1) a) k = if decide (k = lengthKey) then None else viewAt w a k).
  { intros k. rewrite <- (unseen_views _ _ Hu), (viewAt_array w1 a d k Ha1), arrayProperty_slow by exact Hd.
    case_decide as E; [subst k; apply (array_no_length _ _ _ _ (arrays_each _ _ _ Hw1 a d Ha1))|reflexivity]. }
  destruct (nonFast_run valid validP out nameOf nameOfKey lengthString nameOfOther integerOfName limit raise setLen
    w1 a d P desc Hw1 Hset Ha1 Hd HP Hne Hlim Hwf Hq) as (b & E & Hp & Hok). revert E Hp Hok. cbn zeta.
  assert (Ep : arrayVerdict nameOf (base w1) d a P desc = p).
  { unfold p, arrayVerdictAt, arrayVerdict. destruct (unseen_headers _ _ Hu a) as (-> & _). rewrite Hv, decide_False by exact Hne. reflexivity. }
  rewrite Ep. fold n. intros E Hp Hok. eexists. split; [exact E|]. split; [|split; [apply lookup_insert_eq|]].
  - eapply array_step_trans; [exact (unseen_step w w1 a Hu)|]. eapply part_array_step; [exact Hw1|eauto|exact Hp|].
    apply (arrays_each _ _ _ Hok). apply lookup_insert_eq.
  - intros k. rewrite (viewAt_array _ a (withLength d n)) by apply lookup_insert_eq. rewrite arrayProperty_slow by exact Hd.
    unfold definedView. case_decide as Ek; [reflexivity|]. cbn. rewrite (part_list _ _ _ _ _ Hp).
    destruct p as [q|]; cbn [definedList]; [rewrite lookup_put|]; rewrite Hv, (decide_False (P := k = lengthKey)) by exact Ek;
      repeat case_decide; congruence.
Qed.

Lemma definedView_same w a d key k : arrays w !! a = Some d -> definedView w a d key None (m_arrayLength d) k = viewAt w a k.
Proof.
  intros Ha. unfold definedView. rewrite withLength_same. repeat case_decide; auto. subst k. rewrite (viewAt_array w a d _ Ha).
  unfold arrayProperty. rewrite decide_True by reflexivity. reflexivity.
Qed.

Lemma nonFast_any setLen w a d P desc : arrays_ok w -> grows setLen a ->
  arrays w !! a = Some d -> m_fastModeData d = None -> validP P -> keyOf P <> lengthKey ->
  (forall i, keyIndex (keyOf P) = Some i -> i < limit) -> wf_descriptor desc -> defines setLen w d a P desc w.
Proof.
  intros Hw Hset Ha Hd HP Hne Hlim Hwf.
  destruct (bool_dec (marked (base w) a && negb (m_didSomePrototypeObjectDefineIndexedProperty (base w)) && isIndexKey (keyOf P)) false) as [Hq|Hq].
  { apply (nonFast_quiet setLen w w); auto using unseen_refl. }
  destruct (raise_run w Hw) as (w1 & Er & Hu & _ & Hf). pose proof (unseen_slow w w1 a d Hu Ha Hd) as Ha1.
  pose proof (array_object _ _ _ _ (arrays_each _ _ _ Hw a d Ha)) as Ho.
  pose proof (proj2 (proj2 (proj2 (proj2 (unseen_headers _ _ Hu a)))) Ho) as Ho1.
  assert (Hd1 : defines setLen w d a P desc w1).
  { apply nonFast_quiet; auto. unfold quiet. rewrite Hf. cbn. rewrite andb_false_r. reflexivity. }
  unfold defines in *. cbn zeta in *. revert Hd1. unfold nonFastPath.
  rewrite (bind_run _ _ _ d w (readArray_run w a d Ha)), (bind_run _ _ _ d w1 (readArray_run w1 a d Ha1)).
  pose proof (index_of_name valid validP nameOf lengthString nameOfOther integerOfName limit P HP) as Hix.
  pose proof (derived_raises w w1 a P desc Ho Ho1 HP Hq Er Hf) as Ed. unfold arrayVerdictAt, blocked, lengthAfter.
  destruct (keyIndex (keyOf P)) as [i|] eqn:Ei.
  - destruct Hix as (-> & -> & _). cbn [negb]. destruct ((m_arrayLength d <=? i) && negb (m_isArrayObjectLengthWritable d)) eqn:Eb.
    + intros _. exists w. split; [reflexivity|]. split; [apply array_step_refl; exact Hw|]. cbn [is_Some_None bool_decide andb].
      split; [rewrite withLength_same; exact Ha|]. intros k. symmetry. apply definedView_same. exact Ha.
    + rewrite (bind_same _ _ w w1 Ed). exact id.
  - rewrite Hix, Z.eqb_refl. cbn [negb]. rewrite Ed. exact id.
Qed.
End Convert.
