(* ===== verification/ArrayDefine.v ===== *)
(** * The length and the elements of an array

    [setArrayLength] and [defineOwnProperty] as the view of an array sees them. *)

From stdpp Require Import gmap.
From S2P Require Import Prelude Value PropertyName PropertyDescriptor ObjectStructure StructureSpec Object.
From S2P Require Import ObjectSpec ObjectDefine ObjectMethods ObjectPrototype ObjectHistory ArrayStorage.
From S2P Require Import ArrayObject ArraySpec ArrayConvert.
Local Open Scope Z_scope.
Local Open Scope esc_scope.

(** ** The slots of a buffer that was resized *)

Lemma elements_lookup n b i : 0 <= i < n -> elements n b !! Z.to_nat i = b !! Z.to_nat i.
Proof. intros Hi. unfold elements. apply lookup_take_lt. lia. Qed.

Lemma element_resized o n b b' i : elements n b' = resized o n b -> 0 <= i < n -> 0 <= o <= Z.of_nat (length b) ->
  elementOf b' i = if i <? o then elementOf b i else None.
Proof.
  intros E Hi Ho. unfold elementOf. rewrite <- (elements_lookup n b' i Hi), E. unfold resized.
  destruct (Z.ltb_spec i o) as [Hlt|Hge].
  - rewrite lookup_app_l by (unfold elements; rewrite !length_take; lia).
    rewrite lookup_take_lt by lia. rewrite elements_lookup by lia. reflexivity.
  - rewrite lookup_app_r by (unfold elements; rewrite !length_take; lia).
    destruct (repeat _ _ !! _) as [s|] eqn:Es; [|reflexivity].
    apply list_elem_of_lookup_2, list_elem_of_In, List.repeat_spec in Es. subst s. reflexivity.
Qed.

Lemma element_stored b i j v : 0 <= i < Z.of_nat (length b) -> 0 <= j ->
  elementOf (<[Z.to_nat i := Some v]> b) j =
  if i =? j then (if isEmpty v then None else Some (DataProperty v true true true)) else elementOf b j.
Proof.
  intros Hi Hj. unfold elementOf. destruct (Z.eqb_spec i j) as [->|Hne].
  - rewrite list_lookup_insert_eq by lia. reflexivity.
  - rewrite list_lookup_insert_ne by lia. reflexivity.
Qed.

(** The slot holds a value or a hole. *)
Lemma storage_stored d b i v : storage_ok d b -> 0 <= i < m_arrayLength d ->
  storage_ok (withData d (Some (<[Z.to_nat i := Some v]> b))) (<[Z.to_nat i := Some v]> b).
Proof.
  intros [H1 H2 H3 H4 H5] Hi. constructor; cbn; rewrite ?length_insert; auto.
  rewrite take_insert_lt by lia. apply Forall_insert; [exact H2|]. eexists. reflexivity.
Qed.

(** ** What the fast definitions decide *)


Lemma alone_verdict {heap : Heap} v0 desc : isValuePresentAlone desc = true -> m_isDataProperty desc = true ->
  ValidateAndApply true (Some (DataProperty v0 true true true)) (descriptorOf desc) = Some (DataProperty (m_value desc) true true true).
Proof.
  unfold isValuePresentAlone, descriptorOf, isValuePresent, isWritablePresent, isEnumerablePresent, isConfigurablePresent.
  intros E%Z.eqb_eq Hd. rewrite E, Hd. reflexivity.
Qed.

Lemma full_present desc : isDataWritableEnumerableConfigurable desc = true ->
  descriptorOf desc = fullDescriptor (DataProperty (m_value desc) true true true).
Proof.
  unfold isDataWritableEnumerableConfigurable, descriptorOf, fullDescriptor.
  intros ((((H1 & H2)%andb_prop & H3)%andb_prop & H4)%andb_prop & H5)%andb_prop.
  unfold isWritablePresent, isEnumerablePresent, isConfigurablePresent. unfold isWritable, isEnumerable, isConfigurable in *.
  rewrite H1, H2, H3, H4, H5. reflexivity.
Qed.

Lemma full_verdict {heap : Heap} v0 desc : isDataWritableEnumerableConfigurable desc = true ->
  ValidateAndApply true None (descriptorOf desc) = Some (DataProperty (m_value desc) true true true) /\
  ValidateAndApply true (Some (DataProperty v0 true true true)) (descriptorOf desc) = Some (DataProperty (m_value desc) true true true).
Proof. intros H. rewrite (full_present desc H). split; reflexivity. Qed.

Section Define.
Context {heap : Heap} (valid validP : Z -> Prop) (out : Outside) (nameOf : Z -> Z) (nameOfKey : OwnKey -> Z).
Context {Hnames : ObjectNames heap valid validP nameOf nameOfKey}.
Context (lengthString : Z) (nameOfOther : Z -> Z) (integerOfName : Z -> Z) (use32BitIn64Bit : bool) (limit : Z).
Context {Harray : ArrayNames heap valid validP nameOf lengthString nameOfOther integerOfName limit}.

Abbreviation keyOf P := (propertyKey (nameOf P)).
Abbreviation arrays_ok := (arrays_ok valid limit).
Abbreviation array_ok := (array_ok limit).
Abbreviation array_step := (array_step valid limit).
Abbreviation unseen := (unseen valid limit).
Abbreviation setArrayLength := (setArrayLength out nameOf lengthString nameOfOther integerOfName use32BitIn64Bit).
Abbreviation array_defineOwnProperty := (array_defineOwnProperty out nameOf lengthString nameOfOther integerOfName).

(** ** The view of an array *)

Lemma view_length w a d : arrays w !! a = Some d -> viewAt w a lengthKey = Some (lengthProperty d).
Proof. intros Ha. rewrite (viewAt_array w a d _ Ha). unfold arrayProperty. rewrite decide_True by reflexivity. reflexivity. Qed.

(** No element is past the length. *)
Lemma view_bound w a d k i : arrays_ok w -> arrays w !! a = Some d -> keyIndex k = Some i -> m_arrayLength d <= i -> viewAt w a k = None.
Proof.
  intros Hw Ha Hk Hi. pose proof (arrays_each _ _ _ Hw a d Ha) as Hok. rewrite (viewAt_array w a d k Ha). unfold arrayProperty.
  rewrite decide_False by (intros ->; discriminate). rewrite Hk.
  assert (Hn : lookupKey (listOf (base w) a) k = None).
  { apply eq_None_not_Some. intros Hs. pose proof (array_indices _ _ _ _ Hok k i Hk Hs). lia. }
  destruct (m_fastModeData d); [|exact Hn]. replace (i <? m_arrayLength d) with false by lia. exact Hn.
Qed.

(** The array of a slot that is not a hole. *)
Lemma view_fast w a d b k i : arrays_ok w -> arrays w !! a = Some d -> m_fastModeData d = Some b -> keyIndex k = Some i ->
  viewAt w a k = if i <? m_arrayLength d then elementOf b i else None.
Proof.
  intros Hw Ha Hb Hk. pose proof (arrays_each _ _ _ Hw a d Ha) as Hok. destruct (array_fast _ _ _ _ Hok b Hb) as (_ & _ & _ & Hno).
  rewrite (viewAt_array w a d k Ha). unfold arrayProperty. rewrite decide_False by (intros ->; discriminate).
  rewrite Hb, Hk, (Hno k i Hk). reflexivity.
Qed.

Lemma view_other w a d k : arrays w !! a = Some d -> k <> lengthKey -> keyIndex k = None -> viewAt w a k = lookupKey (listOf (base w) a) k.
Proof.
  intros Ha Hk Hi. rewrite (viewAt_array w a d k Ha). unfold arrayProperty. rewrite decide_False by exact Hk. rewrite Hi.
  destruct (m_fastModeData d); reflexivity.
Qed.

(** ** Changes of a buffer *)

(** The array [a] has the buffer [b'] and the header [d'] instead. *)
Lemma fast_step w a d b d' b' : arrays_ok w -> arrays w !! a = Some d -> m_fastModeData d = Some b ->
  m_fastModeData d' = Some b' -> storage_ok d' b' -> m_arrayLength d' <= limit ->
  array_step w (withArray w a d') a /\
  forall k, viewAt (withArray w a d') a k =
    if decide (k = lengthKey) then Some (lengthProperty d')
    else match keyIndex k with
         | Some i => if i <? m_arrayLength d' then elementOf b' i else None
         | None => viewAt w a k
         end.
Proof.
  intros Hw Ha Hb Hb' Hst Hlim. pose proof (arrays_each _ _ _ Hw a d Ha) as Hok.
  destruct (array_fast _ _ _ _ Hok b Hb) as (_ & Hx & Hm & Hno).
  assert (Hd' : array_ok (base w) d' a).
  { constructor; [apply Hok|split; [apply Hst|exact Hlim]|apply Hok| |].
    - intros k i Hk [p Hs]. rewrite (Hno k i Hk) in Hs. discriminate.
    - intros b1 E. rewrite Hb' in E. injection E as <-. auto. }
  assert (Hs : array_step w (withArray w a d') a).
  { eapply part_array_step; [exact Hw|eauto|apply part_refl; [apply Hw|apply Hok]|exact Hd']. }
  split; [exact Hs|]. intros k. assert (Ha' : arrays (withArray w a d') !! a = Some d') by apply lookup_insert_eq.
  case_decide as Ek; [subst k; apply view_length; exact Ha'|]. destruct (keyIndex k) as [i|] eqn:Ei.
  - rewrite (view_fast _ a d' b' k i (step_ok _ _ _ _ _ Hs) Ha' Hb' Ei). reflexivity.
  - rewrite (view_other _ a d' k Ha' Ek Ei), (view_other w a d k Ha Ek Ei). reflexivity.
Qed.

(** [m_fastModeData[idx] = v]. *)
Lemma storeSlot_run w a d b i v : arrays_ok w -> arrays w !! a = Some d -> m_fastModeData d = Some b ->
  0 <= i < m_arrayLength d ->
  exists d', storeSlot a i v w = (Ret tt, withArray w a d') /\ array_step w (withArray w a d') a /\
    m_arrayLength d' = m_arrayLength d /\ m_isArrayObjectLengthWritable d' = m_isArrayObjectLengthWritable d /\
    isFastModeArray d' = true /\ forall k, viewAt (withArray w a d') a k =
      if decide (keyIndex k = Some i) then (if isEmpty v then None else Some (DataProperty v true true true)) else viewAt w a k.
Proof.
  intros Hw Ha Hb Hi. pose proof (arrays_each _ _ _ Hw a d Ha) as Hok.
  destruct (array_fast _ _ _ _ Hok b Hb) as (Hst & _). pose proof (storage_length _ _ Hst) as Hl.
  exists (withData d (Some (<[Z.to_nat i := Some v]> b))). split.
  { unfold storeSlot. rewrite (bind_run _ _ _ d w (readArray_run w a d Ha)), Hb.
    replace (i <? Z.of_nat (length b)) with true by lia. reflexivity. }
  destruct (fast_step w a d b (withData d (Some (<[Z.to_nat i := Some v]> b))) (<[Z.to_nat i := Some v]> b) Hw Ha Hb eq_refl
    (storage_stored d b i v Hst Hi) (proj2 (array_range _ _ _ _ Hok))) as [Hs Hview].
  split; [exact Hs|]. split; [reflexivity|]. split; [reflexivity|]. split; [reflexivity|]. intros k. rewrite Hview. cbn.
  case_decide as Ek; [subst k; rewrite decide_False by discriminate; symmetry; exact (view_length w a d Ha)|].
  destruct (keyIndex k) as [j|] eqn:Ej; [|rewrite decide_False by discriminate; reflexivity].
  pose proof (proj1 (keyIndex_spec _ _) Ej) as [_ Hj]. rewrite (view_fast w a d b k j Hw Ha Hb Ej), element_stored by lia.
  destruct (Z.eqb_spec i j) as [->|Hne]; [rewrite decide_True by reflexivity; case_match; [reflexivity|lia]|].
  rewrite decide_False by congruence. reflexivity.
Qed.

(** ** [setArrayLength] *)

(** The view after the length became [n]: the elements past it are gone. *)
Definition cutView (w : ArrayWorld) (a : Z) (d : Array) (n : Z) (k : PropertyKey) : option Property :=
  if decide (k = lengthKey) then Some (lengthProperty (withLength d n))
  else match keyIndex k with
       | Some i => if i <? n then viewAt w a k else None
       | None => viewAt w a k
       end.

(** The array [a] of [w], which was [d], has the length [n] in [w']. *)
Record lengthSet (w : ArrayWorld) (a : Z) (d : Array) (n : Z) (w' : ArrayWorld) (d' : Array) : Prop := {
  set_step : array_step w w' a;
  set_array : arrays w' !! a = Some d';
  set_length : m_arrayLength d' = n;
  set_writable : m_isArrayObjectLengthWritable d' = m_isArrayObjectLengthWritable d;
  set_slow : m_fastModeData d = None -> m_fastModeData d' = None;
  set_view : forall k, viewAt w' a k = cutView w a d n k
}.

Lemma lengthProperty_eq d d' n : m_arrayLength d' = n -> m_isArrayObjectLengthWritable d' = m_isArrayObjectLengthWritable d ->
  lengthProperty d' = lengthProperty (withLength d n).
Proof. unfold lengthProperty. cbn. intros -> ->. reflexivity. Qed.

(** Nothing is cut. *)
Lemma cutView_same w a d k : arrays_ok w -> arrays w !! a = Some d -> cutView w a d (m_arrayLength d) k = viewAt w a k.
Proof.
  intros Hw Ha. unfold cutView. rewrite withLength_same. case_decide as Ek; [subst; symmetry; apply view_length; exact Ha|].
  destruct (keyIndex k) as [i|] eqn:Ei; [|reflexivity]. destruct (Z.ltb_spec i (m_arrayLength d)) as [Hlt|Hge]; [reflexivity|].
  symmetry. eapply view_bound; eassumption.
Qed.

Lemma resize_run w a d b n useFitStorage : arrays_ok w -> arrays w !! a = Some d -> m_fastModeData d = Some b ->
  0 <= n <= limit -> growsIntoCapacity use32BitIn64Bit d n useFitStorage = false ->
  overflowsNewBuffer use32BitIn64Bit d n useFitStorage = false ->
  exists d', resizeFastMode use32BitIn64Bit d b n useFitStorage = Some d' /\ isFastModeArray d' = true /\
    lengthSet w a d n (withArray w a d') d'.
Proof.
  intros Hw Ha Hb Hn Hg Ho. pose proof (arrays_each _ _ _ Hw a d Ha) as Hok.
  destruct (array_fast _ _ _ _ Hok b Hb) as (Hst & _). pose proof (storage_length _ _ Hst) as Hl.
  destruct (resize_ok use32BitIn64Bit d b n useFitStorage Hst Hb ltac:(lia) Hg Ho) as (d' & b' & E & Hb' & Hst' & Hlen & He & Hwr & _).
  exists d'. split; [exact E|]. split; [unfold isFastModeArray; rewrite Hb'; reflexivity|].
  destruct (fast_step w a d b d' b' Hw Ha Hb Hb' Hst') as [Hs Hview]; [lia|].
  constructor; auto; [apply lookup_insert_eq|intros H; congruence|]. intros k. rewrite Hview. unfold cutView.
  rewrite (lengthProperty_eq d d' n Hlen Hwr). case_decide; [reflexivity|]. destruct (keyIndex k) as [i|] eqn:Ei; [|reflexivity].
  rewrite Hlen. destruct (Z.ltb_spec i n) as [Hlt|Hge]; [|reflexivity]. pose proof (proj1 (keyIndex_spec _ _) Ei) as [_ Hi].
  rewrite (element_resized _ _ _ _ _ He) by lia. rewrite (view_fast w a d b k i Hw Ha Hb Ei). reflexivity.
Qed.

(** A step that nobody sees, before or after. *)
Lemma unseen_set w w1 a d d1 n w' d' : unseen w w1 -> arrays w !! a = Some d -> d1 = d \/ d1 = withData d None ->
  lengthSet w1 a d1 n w' d' -> lengthSet w a d n w' d'.
Proof.
  intros Hu Ha Hd [H1 H2 H3 H4 H5 H6]. constructor; auto.
  - eapply array_step_trans; [exact (unseen_step valid limit _ _ a Hu)|exact H1].
  - rewrite H4. destruct Hd as [->| ->]; reflexivity.
  - intros E. apply H5. destruct Hd as [->| ->]; [exact E|reflexivity].
  - intros k. rewrite H6. unfold cutView. rewrite (unseen_views _ _ _ _ Hu).
    replace (lengthProperty (withLength d1 n)) with (lengthProperty (withLength d n)); [reflexivity|]. destruct Hd as [->| ->]; reflexivity.
Qed.

Lemma set_unseen w a d n w1 d1 w' d' : lengthSet w a d n w1 d1 -> unseen w1 w' -> arrays w' !! a = Some d' ->
  d' = withData d1 None -> lengthSet w a d n w' d'.
Proof.
  intros [H1 H2 H3 H4 H5 H6] Hu Ha' ->. constructor; auto.
  - eapply array_step_trans; [exact H1|exact (unseen_step valid limit _ _ a Hu)].
  - intros k. rewrite (unseen_views _ _ _ _ Hu). apply H6.
Qed.

(** The length of an array out of fast mode, without an element past it. *)
Lemma cut_set w a d n : arrays_ok w -> arrays w !! a = Some d -> m_fastModeData d = None -> 0 <= n <= limit ->
  (forall k i, keyIndex k = Some i -> n <= i -> viewAt w a k = None) ->
  lengthSet w a d n (withArray w a (withLength d n)) (withLength d n).
Proof.
  intros Hw Ha Hd Hn Hcut. pose proof (arrays_each _ _ _ Hw a d Ha) as Hok.
  pose proof (part_refl valid (base w) a (arrays_base _ _ _ Hw) (array_object _ _ _ _ Hok)) as Hp.
  assert (E : forall k, k <> lengthKey -> viewAt w a k = lookupKey (listOf (base w) a) k)
    by (intros k Hk; rewrite (viewAt_array w a d k Ha), arrayProperty_slow, decide_False by assumption; reflexivity).
  assert (Hd' : array_ok (base w) (withLength d n) a).
  { eapply array_ok_slow; [exact Hp|exact Hd|exact Hn|apply Hok|]. intros k i Hk [q Hs]. cbn.
    destruct (Z.lt_ge_cases i n) as [Hlt|Hge]; [exact Hlt|]. specialize (Hcut k i Hk Hge).
    rewrite E in Hcut by (intros ->; discriminate). congruence. }
  constructor; [|apply lookup_insert_eq|reflexivity|reflexivity|auto|].
  - eapply part_array_step; [exact Hw|eauto|exact Hp|exact Hd'].
  - intros k. rewrite (viewAt_array _ a (withLength d n)) by apply lookup_insert_eq. rewrite arrayProperty_slow by exact Hd.
    unfold cutView. case_decide as Ek; [reflexivity|]. cbn. rewrite <- E by exact Ek.
    destruct (keyIndex k) as [i|] eqn:Ei; [|reflexivity]. destruct (Z.ltb_spec i n) as [Hlt|Hge]; [reflexivity|].
    exact (Hcut k i Ei Hge).
Qed.

Lemma slow_set w a d n : arrays_ok w -> arrays w !! a = Some d -> m_fastModeData d = None -> m_arrayLength d <= n <= limit ->
  lengthSet w a d n (withArray w a (withLength d n)) (withLength d n).
Proof.
  intros Hw Ha Hd Hn. pose proof (array_range _ _ _ _ (arrays_each _ _ _ Hw a d Ha)) as Hr. apply cut_set; auto; [lia|].
  intros k i Hk Hi. eapply view_bound; [exact Hw|exact Ha|exact Hk|lia].
Qed.

Lemma same_set w a d n : arrays_ok w -> arrays w !! a = Some d -> m_arrayLength d = n -> lengthSet w a d n w d.
Proof.
  intros Hw Ha <-. constructor; auto; [apply array_step_refl; exact Hw|]. intros k. symmetry. apply cutView_same; assumption.
Qed.

(** An array in fast mode takes any length, and one that is not takes one that is not
    smaller. *)
Lemma setArrayLength_run w a d n useFitStorage considerHole : arrays_ok w -> arrays w !! a = Some d -> 0 <= n <= limit ->
  (isFastModeArray d = true -> growsIntoCapacity use32BitIn64Bit d n useFitStorage = false /\
     overflowsNewBuffer use32BitIn64Bit d n useFitStorage = false) ->
  (isFastModeArray d = false -> m_arrayLength d <= n) ->
  exists w' d', setArrayLength a n useFitStorage considerHole w = (Ret true, w') /\ lengthSet w a d n w' d'.
Proof.
  intros Hw Ha Hn Hfast Hslow. unfold ArrayObject.setArrayLength. rewrite (bind_run _ _ _ d w (readArray_run w a d Ha)).
  match goal with |- context [when! ?c then _] => set (hole := c) end.
  assert (Hgrow : forall w1 d1, unseen w w1 -> arrays w1 !! a = Some d1 -> m_fastModeData d1 = None -> d1 = d \/ d1 = withData d None ->
    m_arrayLength d <= n -> exists w' d', setLengthOfProperties out nameOf lengthString nameOfOther integerOfName a n w1 = (Ret true, w') /\
      lengthSet w a d n w' d').
  { intros w1 d1 Hu Ha1 Hd1 Hor Hle. assert (Hl : m_arrayLength d1 = m_arrayLength d) by (destruct Hor as [->| ->]; reflexivity).
    rewrite (setLength_grows out nameOf lengthString nameOfOther integerOfName a w1 d1 n Ha1 Hd1) by lia. eexists _, _. split; [reflexivity|].
    apply (unseen_set w w1 a d d1 n _ _ Hu Ha Hor). apply slow_set; [apply Hu|exact Ha1|exact Hd1|lia]. }
  destruct hole eqn:Eh.
  - subst hole. repeat (apply andb_prop in Eh as [Eh ?]). to_prop.
    destruct (convert_unseen valid validP out nameOf nameOfKey lengthString nameOfOther integerOfName limit
      (somePrototypeObjectDefineIndexedProperty out nameOf lengthString nameOfOther integerOfName) w a d Hw Ha) as (w1 & E1 & Hu & Ha1 & _).
    cbv iota. rewrite (bind_run _ _ _ tt w1 E1), (bind_run _ _ _ _ w1 (readArray_run w1 a _ Ha1)). cbn [m_fastModeData withData].
    apply (Hgrow w1 (withData d None)); auto. lia.
  - cbv iota. rewrite bind_ret, (bind_run _ _ _ d w (readArray_run w a d Ha)). unfold isFastModeArray in Hfast, Hslow.
    destruct (m_fastModeData d) as [b|] eqn:Eb; [|apply (Hgrow w d); auto using unseen_refl].
    destruct (Z.eqb_spec (m_arrayLength d) n) as [En|Hne]; [exists w, d; split; [reflexivity|apply same_set; assumption]|].
    destruct (Hfast eq_refl) as [Hg Ho].
    destruct (resize_run w a d b n useFitStorage Hw Ha Eb Hn Hg Ho) as (d' & -> & _ & Hset). set (w1 := withArray w a d') in *.
    erewrite (bind_run (orThrow _ _) _ w d' w) by reflexivity. erewrite (bind_run (writeArray a d') _ w tt w1) by reflexivity.
    destruct (m_isArrayObjectLengthWritable d'); cbn [negb].
    + exists w1, d'. split; [reflexivity|exact Hset].
    + destruct (convert_unseen valid validP out nameOf nameOfKey lengthString nameOfOther integerOfName limit
        (somePrototypeObjectDefineIndexedProperty out nameOf lengthString nameOfOther integerOfName) w1 a d'
        (step_ok _ _ _ _ _ (set_step _ _ _ _ _ _ Hset)) (set_array _ _ _ _ _ _ Hset)) as (w2 & E2 & Hu & Ha2 & _).
      cbv iota. rewrite (bind_run _ _ _ tt w2 E2). exists w2, (withData d' None). split; [reflexivity|].
      exact (set_unseen w a d n w1 d' w2 _ Hset Hu Ha2 eq_refl).
Qed.

Lemma setArrayLength_grows a : grows (fun n => setArrayLength a n false true) a.
Proof using Type.
  intros w d n Ha Hd Hn. unfold ArrayObject.setArrayLength. rewrite (bind_run _ _ _ d w (readArray_run w a d Ha)).
  unfold isFastModeArray. rewrite Hd. cbn [andb]. cbv iota. rewrite bind_ret, (bind_run _ _ _ d w (readArray_run w a d Ha)), Hd.
  apply setLength_grows; assumption.
Qed.

Lemma isExtensible_run w a : arrays_ok w -> is_Some (objects (base w) !! a) ->
  lift (isExtensible out a) w = (Ret (extensibleOf (base w) a), w).
Proof.
  intros Hw [o Ho]. apply lift_read. unfold isExtensible. rewrite (bind_run _ _ _ o (base w) (readObject_run _ _ _ Ho)).
  rewrite (ok_ordinary _ _ (arrays_base _ _ _ Hw) a o Ho). unfold extensibleOf. rewrite Ho. reflexivity.
Qed.

(** ** [defineOwnProperty] of an element or a property other than the length *)

Abbreviation verdictOf := (arrayVerdictAt nameOf).

(** The code [m] runs in [w0] as the definition of [P] on the array [d] of [w]. *)
Definition definesIn (w : ArrayWorld) (d : Array) (a P : Z) (desc : ObjectPropertyDescriptor) (m : AM bool) (w0 : ArrayWorld) : Prop :=
  let p := verdictOf w d a P desc in
  let n := lengthAfter d (keyOf P) (bool_decide (is_Some p)) in
  exists w' d', m w0 = (Ret (bool_decide (is_Some p)), w') /\ array_step w w' a /\ arrays w' !! a = Some d' /\
    m_arrayLength d' = n /\ m_isArrayObjectLengthWritable d' = m_isArrayObjectLengthWritable d /\
    forall k, viewAt w' a k = definedView w a d (keyOf P) p n k.

Abbreviation raise := (somePrototypeObjectDefineIndexedProperty out nameOf lengthString nameOfOther integerOfName).
Abbreviation convert := (convert out nameOf lengthString nameOfOther integerOfName).
Abbreviation slowDefine a P desc := (nonFastPath out nameOf raise (fun n => setArrayLength a n false true) a P desc).

(** What the definition of [P] needs. *)
Record definable (P : Z) (desc : ObjectPropertyDescriptor) : Prop := {
  def_name : validP P;
  def_not_length : keyOf P <> lengthKey;
  def_index : forall i, keyIndex (keyOf P) = Some i -> i < limit;
  def_descriptor : wf_descriptor desc;
  def_value : isValuePresent desc = true -> isEmpty (m_value desc) = false
}.

Lemma slow_defines w d a P desc : arrays_ok w -> arrays w !! a = Some d -> m_fastModeData d = None -> definable P desc ->
  definesIn w d a P desc (slowDefine a P desc) w.
Proof.
  intros Hw Ha Hd [HP Hne Hlim Hwf _].
  destruct (nonFast_any valid validP out nameOf nameOfKey lengthString nameOfOther integerOfName limit
    (fun n => setArrayLength a n false true) w a d P desc Hw (setArrayLength_grows a) Ha Hd HP Hne Hlim Hwf) as (w' & E & Hs & Ha' & Hv).
  exists w', (withLength d (lengthAfter d (keyOf P) (bool_decide (is_Some (verdictOf w d a P desc))))). split_and!; auto.
Qed.

(** The array leaves its fast mode before. *)
Lemma converted_defines w d a P desc : arrays_ok w -> arrays w !! a = Some d -> definable P desc ->
  definesIn w d a P desc (do! convert a in slowDefine a P desc) w.
Proof.
  intros Hw Ha HP.
  destruct (convert_unseen valid validP out nameOf nameOfKey lengthString nameOfOther integerOfName limit raise w a d Hw Ha)
    as (w1 & E1 & Hu & Ha1 & _).
  destruct (slow_defines w1 (withData d None) a P desc (unseen_ok _ _ _ _ Hu) Ha1 eq_refl HP) as (w' & d' & E & Hs & Ha' & Hl & Hw' & Hv).
  assert (Ep : verdictOf w1 (withData d None) a P desc = verdictOf w d a P desc).
  { unfold arrayVerdictAt. destruct (unseen_headers _ _ _ _ Hu a) as (-> & _). rewrite (unseen_views _ _ _ _ Hu). reflexivity. }
  rewrite Ep in *. exists w', d'. rewrite (bind_run _ _ _ tt w1 E1). split; [exact E|].
  split; [eapply array_step_trans; [exact (unseen_step valid limit _ _ a Hu)|exact Hs]|]. split_and!; auto.
  intros k. rewrite Hv. unfold definedView. rewrite (unseen_views _ _ _ _ Hu). reflexivity.
Qed.

(** The element is stored in the buffer. *)
Lemma store_defines w d a P desc b i : arrays_ok w -> arrays w !! a = Some d -> m_fastModeData d = Some b ->
  keyIndex (keyOf P) = Some i -> 0 <= i < m_arrayLength d -> isEmpty (m_value desc) = false ->
  verdictOf w d a P desc = Some (DataProperty (m_value desc) true true true) ->
  definesIn w d a P desc (do! storeSlot a i (m_value desc) in ret true) w.
Proof.
  intros Hw Ha Hb Hi Hlt Hv Ep. destruct (storeSlot_run w a d b i (m_value desc) Hw Ha Hb Hlt) as (d' & E & Hs & Hl & Hwr & _ & Hview).
  rewrite Hv in Hview.
  unfold definesIn. rewrite Ep. unfold lengthAfter. rewrite Hi. cbn [bool_decide]. replace (m_arrayLength d <=? i) with false by lia.
  rewrite andb_false_r. cbn zeta. eexists _, d'. rewrite (bind_run _ _ _ tt _ E). split; [reflexivity|].
  split; [exact Hs|]. split; [apply lookup_insert_eq|]. split; [exact Hl|]. split; [exact Hwr|].
  intros k. rewrite Hview. unfold definedView. rewrite withLength_same. destruct (decide (k = keyOf P)) as [->|Hk].
  - rewrite (decide_True (P := keyIndex _ = _)) by exact Hi. rewrite decide_False; [reflexivity|]. intros E'. rewrite E' in Hi. discriminate.
  - rewrite decide_False by (intros H; apply Hk; exact (keyIndex_inj _ _ i H Hi)).
    case_decide as Ek; [subst k; exact (view_length w a d Ha)|reflexivity].
Qed.

(** The array grows before. *)
Lemma set_defines w d a P desc i w1 d1 m q : arrays_ok w -> arrays w !! a = Some d -> lengthSet w a d (i + 1) w1 d1 ->
  keyIndex (keyOf P) = Some i -> m_arrayLength d <= i -> verdictOf w d a P desc = Some q -> verdictOf w1 d1 a P desc = Some q ->
  definesIn w1 d1 a P desc m w1 -> definesIn w d a P desc (fun _ => m w1) w.
Proof.
  intros Hw Ha Hset Hi Hlen Ep Ep1 (w' & d' & E & Hs & Ha' & Hl & Hwr & Hv). pose proof Hset as [H1 H2 H3 H4 _ H6].
  unfold definesIn. rewrite Ep. rewrite Ep1 in *. unfold lengthAfter in *. rewrite Hi in *. cbn [bool_decide] in *.
  replace (m_arrayLength d1 <=? i) with false in * by lia. rewrite andb_false_r in *. replace (m_arrayLength d <=? i) with true by lia.
  change (bool_decide (is_Some (Some q)) && true) with true. cbv iota zeta. exists w', d'. split; [exact E|].
  split; [eapply array_step_trans; eassumption|]. split; [exact Ha'|].
  split; [congruence|]. split; [congruence|]. intros k. rewrite Hv. unfold definedView.
  rewrite (lengthProperty_eq d (withLength d1 (m_arrayLength d1)) (i + 1)) by assumption. repeat case_decide; auto.
  rewrite H6. unfold cutView. rewrite decide_False by assumption. destruct (keyIndex k) as [j|] eqn:Ej; [|reflexivity].
  destruct (Z.ltb_spec j (i + 1)) as [Hlt|Hge]; [reflexivity|]. symmetry. eapply view_bound; [exact Hw|exact Ha|exact Ej|lia].
Qed.

Lemma definesIn_run w d a P desc m m' w0 w0' : m w0 = m' w0' -> definesIn w d a P desc m w0 -> definesIn w d a P desc m' w0'.
Proof. unfold definesIn. cbn zeta. intros ->. exact id. Qed.

Lemma fast_verdict w d a b P desc i : arrays_ok w -> arrays w !! a = Some d -> m_fastModeData d = Some b ->
  keyIndex (keyOf P) = Some i -> blocked d (keyOf P) = false ->
  verdictOf w d a P desc = ValidateAndApply true (if i <? m_arrayLength d then elementOf b i else None) (descriptorOf desc).
Proof.
  intros Hw Ha Hb Hi Hbl. unfold arrayVerdictAt. rewrite Hbl, (view_fast w a d b _ i Hw Ha Hb Hi).
  destruct (array_fast _ _ _ _ (arrays_each _ _ _ Hw a d Ha) b Hb) as (_ & -> & _). reflexivity.
Qed.

Lemma grow_defines w d a P desc b i : arrays_ok w -> arrays w !! a = Some d -> m_fastModeData d = Some b -> definable P desc ->
  keyIndex (keyOf P) = Some i -> m_arrayLength d <= i -> blocked d (keyOf P) = false ->
  isDataWritableEnumerableConfigurable desc = true -> isEmpty (m_value desc) = false ->
  definesIn w d a P desc (
    let! extensible := lift (isExtensible out a) in
    if negb extensible then slowDefine a P desc
    else
      let! ok := setArrayLength a (i + 1) false true in
      let! d := readArray a in
      if negb ok || negb (isFastModeArray d) then slowDefine a P desc
      else do! storeSlot a i (m_value desc) in ret true) w.
Proof.
  intros Hw Ha Hb HP Hi Hlen Hbl Hfull Hv. pose proof (arrays_each _ _ _ Hw a d Ha) as Hok.
  destruct (array_fast _ _ _ _ Hok b Hb) as (Hst & Hx & _). pose proof (def_index _ _ HP i Hi) as Hlim.
  pose proof (array_range _ _ _ _ Hok) as Hr. set (q := DataProperty (m_value desc) true true true).
  assert (Ep : verdictOf w d a P desc = Some q).
  { rewrite (fast_verdict w d a b P desc i Hw Ha Hb Hi Hbl). replace (i <? m_arrayLength d) with false by lia.
    apply (full_verdict ValueUndefined desc Hfull). }
  destruct (setArrayLength_run w a d (i + 1) false true Hw Ha ltac:(lia)) as (w1 & d1 & E1 & Hset).
  { intros _. apply (growth_is_safe use32BitIn64Bit d b); [exact Hst|lia]. }
  { intros _. lia. }
  pose proof Hset as [H1 H2 H3 H4 _ H6]. pose proof (step_ok _ _ _ _ _ H1) as Hw1.
  assert (Ep1 : verdictOf w1 d1 a P desc = Some q).
  { unfold arrayVerdictAt, blocked. rewrite Hi, H3. replace (i + 1 <=? i) with false by lia. cbn [andb].
    destruct (step_headers _ _ _ _ _ H1 a) as (-> & _). rewrite Hx, H6. unfold cutView. rewrite decide_False by apply (def_not_length _ _ HP).
    rewrite Hi. replace (i <? i + 1) with true by lia. rewrite (view_bound w a d _ i Hw Ha Hi Hlen). apply (full_verdict ValueUndefined desc Hfull). }
  destruct (m_fastModeData d1) as [b1|] eqn:Eb1.
  - eapply definesIn_run; [|eapply (set_defines w d a P desc i w1 d1); [..|apply (store_defines w1 d1 a P desc b1 i Hw1 H2 Eb1 Hi ltac:(lia) Hv Ep1)]; eassumption].
    rewrite (bind_run _ _ _ _ w (isExtensible_run w a Hw (array_object _ _ _ _ Hok))), Hx. cbn [negb].
    rewrite (bind_run _ _ _ _ w1 E1), (bind_run _ _ _ d1 w1 (readArray_run w1 a d1 H2)). unfold isFastModeArray. rewrite Eb1. reflexivity.
  - eapply definesIn_run; [|eapply (set_defines w d a P desc i w1 d1); [..|apply (slow_defines w1 d1 a P desc Hw1 H2 Eb1 HP)]; eassumption].
    rewrite (bind_run _ _ _ _ w (isExtensible_run w a Hw (array_object _ _ _ _ Hok))), Hx. cbn [negb].
    rewrite (bind_run _ _ _ _ w1 E1), (bind_run _ _ _ d1 w1 (readArray_run w1 a d1 H2)). unfold isFastModeArray. rewrite Eb1. reflexivity.
Qed.

(** A property that is not an element, of an array in fast mode. *)
Lemma lookup_defined l key p k : lookupKey (definedList l key p) k =
  if decide (k = key) then match p with Some p => Some p | None => lookupKey l k end else lookupKey l k.
Proof using Type. destruct p as [q|]; cbn [definedList]; [rewrite lookup_put|]; repeat case_decide; congruence. Qed.

Lemma array_named_ok w w1 d a key l : array_ok w d a -> key <> lengthKey -> keyIndex key = None -> isFastModeArray d = true ->
  part_step valid w w1 a l -> (forall k, k <> key -> lookupKey l k = lookupKey (listOf w a) k) -> array_ok w1 d a.
Proof using Type.
  intros Hok Hne Hi Hfast Hp Hl. pose proof (part_list _ _ _ _ _ Hp) as El. destruct (part_headers valid _ _ _ _ a Hp) as (Ex & Em & _ & Eo).
  unfold isFastModeArray in Hfast. destruct (m_fastModeData d) as [b|] eqn:Hb; [|discriminate].
  destruct (array_fast _ _ _ _ Hok b Hb) as (Hst & Hx & Hm & Hno).
  assert (Hidx : forall k i, keyIndex k = Some i -> lookupKey (listOf w1 a) k = None).
  { intros k i Hk. rewrite El, Hl by congruence. exact (Hno k i Hk). }
  constructor; [apply Eo, Hok|apply Hok| | |].
  - rewrite El, Hl by congruence. apply Hok.
  - intros k i Hk [q Hs]. rewrite (Hidx k i Hk) in Hs. discriminate.
  - intros b0 Eb. rewrite Ex, Em. rewrite Hb in Eb. injection Eb as <-. auto.
Qed.

Lemma named_defines w d a P desc b : arrays_ok w -> arrays w !! a = Some d -> m_fastModeData d = Some b -> definable P desc ->
  keyIndex (keyOf P) = None -> definesIn w d a P desc (slowDefine a P desc) w.
Proof.
  intros Hw Ha Hb [HP Hne _ Hwf _] Hi. pose proof (arrays_each _ _ _ Hw a d Ha) as Hok.
  destruct (array_fast _ _ _ _ Hok b Hb) as (_ & _ & Hm & _).
  destruct (derived_run valid validP out nameOf nameOfKey limit raise w a P desc Hw (array_object _ _ _ _ Hok) HP Hwf) as (b1 & E & Hp).
  { unfold quiet. rewrite Hm. reflexivity. }
  assert (Ep : ValidateAndApply (extensibleOf (base w) a) (lookupKey (listOf (base w) a) (keyOf P)) (descriptorOf desc) =
               verdictOf w d a P desc).
  { unfold arrayVerdictAt, blocked. rewrite Hi, (view_other w a d _ Ha Hne Hi). reflexivity. }
  rewrite Ep in *. unfold definesIn. set (p := verdictOf w d a P desc) in *. unfold lengthAfter. rewrite Hi. cbn zeta.
  assert (Hd1 : array_ok b1 d a).
  { eapply (array_named_ok (base w) b1 d a (keyOf P) _ Hok Hne Hi); [unfold isFastModeArray; rewrite Hb; reflexivity|exact Hp|].
    intros k Hk. rewrite lookup_defined, decide_False by exact Hk. reflexivity. }
  pose proof (part_array_step valid limit w a b1 d _ Hw (ex_intro _ d Ha) Hp Hd1) as Hs. rewrite insert_same in Hs by exact Ha.
  change {| base := b1; arrays := arrays w |} with (withBase w b1) in Hs.
  exists (withBase w b1), d. split.
  { unfold nonFastPath. rewrite (bind_run _ _ _ d w (readArray_run w a d Ha)).
    pose proof (index_of_name valid validP nameOf lengthString nameOfOther integerOfName limit P HP) as Hix. rewrite Hi in Hix.
    rewrite Hix, Z.eqb_refl. exact E. }
  split; [exact Hs|]. split; [exact Ha|]. split; [reflexivity|]. split; [reflexivity|].
  intros k. unfold definedView. rewrite withLength_same. case_decide as Ek; [subst k; apply view_length; exact Ha|].
  destruct (keyIndex k) as [i|] eqn:Ei.
  - rewrite decide_False by congruence. rewrite (view_fast _ a d b k i (step_ok _ _ _ _ _ Hs) Ha Hb Ei), (view_fast w a d b k i Hw Ha Hb Ei). reflexivity.
  - rewrite (view_other (withBase w b1) a d k Ha Ek Ei), (view_other w a d k Ha Ek Ei). change (base (withBase w b1)) with b1.
    rewrite (part_list _ _ _ _ _ Hp), lookup_defined. reflexivity.
Qed.

(** An index of an array in fast mode: the branches of [defineOwnProperty] before
    [NonFastPath]. *)
Definition fastDefine (a P idx : Z) (desc : ObjectPropertyDescriptor) (len : Z) (filled : bool) : AM bool :=
  if filled && negb (isValuePresentAlone desc || isDataWritableEnumerableConfigurable desc) then do! convert a in slowDefine a P desc
  else if negb filled && negb (isDataWritableEnumerableConfigurable desc) then do! convert a in slowDefine a P desc
  else if negb (isValuePresent desc) then do! convert a in slowDefine a P desc
  else if len <=? idx then
    let! extensible := lift (isExtensible out a) in
    if negb extensible then slowDefine a P desc
    else
      let! ok := setArrayLength a (idx + 1) false true in
      let! d := readArray a in
      if negb ok || negb (isFastModeArray d) then slowDefine a P desc
      else do! storeSlot a idx (m_value desc) in ret true
  else do! storeSlot a idx (m_value desc) in ret true.

Lemma fast_defines w d a P desc b i v : arrays_ok w -> arrays w !! a = Some d -> m_fastModeData d = Some b -> definable P desc ->
  keyIndex (keyOf P) = Some i -> 0 <= i -> blocked d (keyOf P) = false -> (i < m_arrayLength d -> b !! Z.to_nat i = Some (Some v)) ->
  definesIn w d a P desc (fastDefine a P i desc (m_arrayLength d) ((i <? m_arrayLength d) && negb (isEmpty v))) w.
Proof.
  intros Hw Ha Hb HP Hi Hi0 Hbl Hslot. pose proof (fast_verdict w d a b P desc i Hw Ha Hb Hi Hbl) as Hver.
  pose proof (converted_defines w d a P desc Hw Ha HP) as Hconv. unfold fastDefine.
  destruct (isValuePresent desc) eqn:Evp; [|destruct ((i <? m_arrayLength d) && negb (isEmpty v)), (isValuePresentAlone desc), (isDataWritableEnumerableConfigurable desc); exact Hconv].
  pose proof (def_value _ _ HP Evp) as Hv.
  assert (Hstore : i < m_arrayLength d -> verdictOf w d a P desc = Some (DataProperty (m_value desc) true true true) ->
    definesIn w d a P desc (do! storeSlot a i (m_value desc) in ret true) w) by (intros; apply (store_defines w d a P desc b i); auto).
  destruct (Z.ltb_spec i (m_arrayLength d)) as [Hlt|Hge]; cbn [andb].
  - rewrite (proj2 (Z.leb_gt _ _) Hlt). rewrite (elementOf_slot b i v (Hslot Hlt)) in Hver. destruct (isEmpty v); cbn [negb andb].
    + destruct (isDataWritableEnumerableConfigurable desc) eqn:Ef; cbn [negb]; [|exact Hconv].
      apply (Hstore Hlt). rewrite Hver. apply (full_verdict ValueUndefined desc Ef).
    + destruct (isDataWritableEnumerableConfigurable desc) eqn:Ef; [rewrite orb_true_r|rewrite orb_false_r]; cbn [negb].
      * apply (Hstore Hlt). rewrite Hver. apply (full_verdict v desc Ef).
      * destruct (isValuePresentAlone desc) eqn:Ea; cbn [negb]; [|exact Hconv].
        apply (Hstore Hlt). rewrite Hver. apply alone_verdict; [exact Ea|].
        pose proof (proj1 (def_descriptor _ _ HP)) as Hck. unfold isValuePresentAlone in Ea. apply Z.eqb_eq in Ea.
        unfold checkProperty in Hck. rewrite Ea in Hck. destruct (m_isDataProperty desc); [reflexivity|discriminate].
  - rewrite (proj2 (Z.leb_le _ _) Hge). cbn [negb andb]. destruct (isDataWritableEnumerableConfigurable desc) eqn:Ef; cbn [negb]; [|exact Hconv].
    exact (grow_defines w d a P desc b i Hw Ha Hb HP Hi Hge Hbl Ef Hv).
Qed.

Lemma array_define_run toNumberSlowCase w d a P desc : arrays_ok w -> arrays w !! a = Some d -> definable P desc ->
  (isFastModeArray d = true -> blocked d (keyOf P) = false) ->
  definesIn w d a P desc (array_defineOwnProperty toNumberSlowCase use32BitIn64Bit a P desc) w.
Proof.
  intros Hw Ha HP Hblock. pose proof (def_name _ _ HP) as HvP. unfold ArrayObject.array_defineOwnProperty.
  rewrite (name_isLength (ArrayNames := Harray) P HvP), bool_decide_eq_false_2 by apply (def_not_length _ _ HP). cbv zeta.
  assert (Hread : forall (k : Array -> AM bool), (let! d := readArray a in k d) w = k d w) by (intros k; apply bind_run, readArray_run, Ha).
  pose proof (index_of_name valid validP nameOf lengthString nameOfOther integerOfName limit P HvP) as Hix.
  destruct (m_fastModeData d) as [b|] eqn:Eb.
  2: { eapply definesIn_run; [|exact (slow_defines w d a P desc Hw Ha Eb HP)]. rewrite Hread, Eb. reflexivity. }
  destruct (keyIndex (keyOf P)) as [i|] eqn:Ei.
  2: { eapply definesIn_run; [|exact (named_defines w d a P desc b Hw Ha Eb HP Ei)]. rewrite Hread, Eb, Hix, Z.eqb_refl. reflexivity. }
  destruct Hix as (-> & -> & Hi & _). pose proof (arrays_each _ _ _ Hw a d Ha) as Hok. destruct (array_fast _ _ _ _ Hok b Eb) as (Hst & _).
  assert (Hbl : blocked d (keyOf P) = false) by (apply Hblock; unfold isFastModeArray; rewrite Eb; reflexivity).
  destruct (Z.lt_ge_cases i (m_arrayLength d)) as [Hlt|Hge].
  - destruct (slotOf_run d b i w Hst (conj Hi Hlt)) as (v & Hv & Es).
    eapply definesIn_run; [|apply (fast_defines w d a P desc b i v); auto].
    rewrite Hread, Eb. cbn [negb]. unfold fastDefine. rewrite (proj2 (Z.ltb_lt _ _) Hlt). rewrite (bind_run _ _ _ (negb (isEmpty v)) w); [reflexivity|].
    rewrite (bind_run _ _ _ v w Es). reflexivity.
  - eapply definesIn_run; [|apply (fast_defines w d a P desc b i ValueUndefined); auto; lia].
    rewrite Hread, Eb. cbn [negb]. unfold fastDefine. rewrite (proj2 (Z.ltb_ge _ _) Hge), bind_ret. reflexivity.
Qed.
End Define.
