(* ===== verification/ArrayLength.v ===== *)
(** * Deletion of elements and the length of an array

    [deleteOwnProperty], [nextIndexBackward] and the part of [setArrayLength] that
    deletes the elements past the new length from the end. *)

From stdpp Require Import gmap.
From S2P Require Import Prelude Value PropertyName PropertyDescriptor ObjectStructure StructureSpec Object.
From S2P Require Import ObjectSpec ObjectDefine ObjectMethods ObjectPrototype ObjectHistory ObjectKeys.
From S2P Require Import ArrayStorage ArrayObject ArraySpec ArrayConvert ArrayDefine.
Local Open Scope Z_scope.
Local Open Scope esc_scope.

(** ** The largest index below a bound *)

Lemma maxBelow_spec cur l : forall r, r <= maxBelow cur r l /\
  forall i, In i l -> 0 <= i < InvalidIndexValue -> i < cur -> i <= maxBelow cur r l.
Proof.
  unfold maxBelow. induction l as [|x l IH]; intros r; cbn [fold_left]; [split; [lia|intros i []]|].
  match goal with |- context [fold_left ?f l ?q] => set (r' := q) end. destruct (IH r') as [H1 H2]. split.
  - assert (r <= r') by (unfold r'; case_if; lia). lia.
  - intros i [<-|Hi] Hr Hc; [|auto]. enough (x <= r') by lia. unfold r', to_unsigned.
    rewrite Z.mod_small by (unfold InvalidIndexValue in Hr; lia).
    destruct (Z.eqb_spec x InvalidIndexValue); [lia|]. rewrite (proj2 (Z.ltb_lt _ _) Hc). cbn. lia.
Qed.

Section Length.
Context {heap : Heap} (valid validP : Z -> Prop) (out : Outside) (nameOf : Z -> Z) (nameOfKey : OwnKey -> Z).
Context {Hnames : ObjectNames heap valid validP nameOf nameOfKey}.
Context (lengthString : Z) (nameOfOther : Z -> Z) (integerOfName : Z -> Z) (limit : Z).
Context {Harray : ArrayNames heap valid validP nameOf lengthString nameOfOther integerOfName limit}.

Abbreviation keyOf P := (propertyKey (nameOf P)).
Abbreviation arrays_ok := (arrays_ok valid limit).
Abbreviation array_ok := (array_ok limit).
Abbreviation array_step := (array_step valid limit).
Abbreviation lengthSet := (lengthSet valid limit).

(** ** [deleteOwnProperty] *)

(** The view without [key], if that can be deleted. *)
Definition deletedView (w : ArrayWorld) (a : Z) (key k : PropertyKey) : option Property :=
  if mayDelete (viewAt w a key) && bool_decide (k = key) then None else viewAt w a k.

(** The code [m] deletes the property [key] of the array [d] of [w]. *)
Definition deletes (w : ArrayWorld) (d : Array) (a : Z) (key : PropertyKey) (m : AM bool) : Prop :=
  exists w' d', m w = (Ret (mayDelete (viewAt w a key)), w') /\ array_step w w' a /\ arrays w' !! a = Some d' /\
    m_arrayLength d' = m_arrayLength d /\ m_isArrayObjectLengthWritable d' = m_isArrayObjectLengthWritable d /\
    isFastModeArray d' = isFastModeArray d /\ (isFastModeArray d = false -> d' = d) /\
    forall k, viewAt w' a k = deletedView w a key k.

(** Nothing is there, or it has to stay. *)
Lemma deletes_nothing w d a key (m : AM bool) : arrays_ok w -> arrays w !! a = Some d -> m w = (Ret (mayDelete (viewAt w a key)), w) ->
  viewAt w a key = None \/ mayDelete (viewAt w a key) = false -> deletes w d a key m.
Proof.
  intros Hw Ha E Hor. exists w, d. split; [exact E|]. split; [apply array_step_refl; exact Hw|]. split; [exact Ha|].
  split_and!; auto. intros k. unfold deletedView. destruct Hor as [H|H]; rewrite H; cbn; [|reflexivity].
  case_bool_decide; congruence.
Qed.

(** The property is one of the object. *)
Lemma removed_part w d a key b : arrays_ok w -> arrays w !! a = Some d -> key <> lengthKey ->
  (isFastModeArray d = true -> keyIndex key = None) -> part_step valid (base w) b a (removeKey (listOf (base w) a) key) ->
  array_step w (withBase w b) a /\ forall k, viewAt (withBase w b) a k = if decide (k = key) then None else viewAt w a k.
Proof.
  intros Hw Ha Hne Hnamed Hp. pose proof (arrays_each _ _ _ Hw a d Ha) as Hok. pose proof (ok_wf _ _ (arrays_base _ _ _ Hw)) as Hwf.
  assert (Hl : forall k, lookupKey (removeKey (listOf (base w) a) key) k = if decide (k = key) then None else lookupKey (listOf (base w) a) k).
  { intros k. case_decide as Ek; [subst k; apply lookup_removed; apply (listOf_distinct valid); exact Hwf|].
    apply lookup_remove. congruence. }
  assert (Hd : array_ok b d a).
  { destruct (isFastModeArray d) eqn:Ef.
    - eapply (array_named_ok valid limit (base w) b d a key); eauto. intros k Hk. rewrite Hl, decide_False by exact Hk. reflexivity.
    - eapply (array_ok_slow valid limit); [exact Hp| |apply Hok| |].
      + unfold isFastModeArray in Ef. destruct (m_fastModeData d); [discriminate|reflexivity].
      + rewrite Hl. case_decide; [reflexivity|apply Hok].
      + intros k i Hk Hs. rewrite Hl in Hs. case_decide; [destruct Hs; discriminate|]. exact (array_indices _ _ _ _ Hok k i Hk Hs). }
  pose proof (part_array_step valid limit w a b d _ Hw (ex_intro _ d Ha) Hp Hd) as Hs. rewrite insert_same in Hs by exact Ha.
  split; [exact Hs|]. intros k. rewrite (viewAt_array (withBase w b) a d k Ha), (viewAt_array w a d k Ha). unfold arrayProperty.
  change (base (withBase w b)) with b. rewrite (part_list _ _ _ _ _ Hp), Hl. repeat case_decide; try congruence; try reflexivity.
  - unfold isFastModeArray in Hnamed. destruct (m_fastModeData d); [|reflexivity]. subst key. rewrite Hnamed by reflexivity. reflexivity.
Qed.

Lemma object_delete_code w a P r q : array_getOwnProperty nameOf lengthString a P w = (Ret r, w) -> propertyOfResult r = Some q ->
  object_deleteOwnProperty nameOf lengthString a P w =
    if p_configurable q then (let! o := lift (readObject a) in
               let! findResult := lift (runS (findProperty (m_structure o) (nameOf P))) in
               match findResult with
               | None => undefinedBehaviour
               | Some (idx, _) => do! lift (deleteOwnPropertyAt a idx) in ret true
               end) w else (Ret false, w).
Proof.
  intros E Er. unfold object_deleteOwnProperty. rewrite (bind_run _ _ _ r w E).
  destruct q, r; try discriminate Er; injection Er; intros; subst; cbn;
    match goal with |- context [if ?c then _ else _] => destruct c end; reflexivity.
Qed.

Lemma object_delete_run w d a P : arrays_ok w -> arrays w !! a = Some d -> validP P -> keyOf P <> lengthKey ->
  (isFastModeArray d = true -> forall i, keyIndex (keyOf P) = Some i -> m_arrayLength d <= i) ->
  deletes w d a (keyOf P) (object_deleteOwnProperty nameOf lengthString a P).
Proof.
  intros Hw Ha HP Hne Hfast. pose proof (arrays_each _ _ _ Hw a d Ha) as Hok.
  destruct (array_get_ok valid validP out nameOf nameOfKey lengthString nameOfOther integerOfName limit w a d P Hw Ha HP) as (r & E & Er & _).
  rewrite <- (viewAt_array w a d _ Ha) in Er. destruct (viewAt w a (keyOf P)) as [q|] eqn:Ev.
  2: { apply deletes_nothing; auto. rewrite Ev. unfold object_deleteOwnProperty. rewrite (bind_run _ _ _ r w E).
       destruct r; try discriminate. reflexivity. }
  assert (Hnamed : isFastModeArray d = true -> keyIndex (keyOf P) = None).
  { intros Hf. destruct (keyIndex (keyOf P)) as [i|] eqn:Ei; [|reflexivity].
    rewrite (view_bound valid limit w a d _ i Hw Ha Ei (Hfast Hf i eq_refl)) in Ev. discriminate. }
  assert (El : lookupKey (listOf (base w) a) (keyOf P) = Some q).
  { rewrite <- Ev, (viewAt_array w a d _ Ha). unfold arrayProperty. rewrite decide_False by exact Hne.
    unfold isFastModeArray in Hnamed. destruct (m_fastModeData d); [rewrite Hnamed by reflexivity|]; reflexivity. }
  pose proof (object_delete_code w a P r q E Er) as Hcode. destruct (p_configurable q) eqn:Ec.
  2: { apply deletes_nothing; auto; rewrite Ev; cbn; rewrite Ec; auto. }
  destruct (part_find valid validP nameOf nameOfKey (base w) a P (arrays_base _ _ _ Hw) (array_object _ _ _ _ Hok) HP)
    as (o & Ho & found & Ef & Hfound).
  destruct found as [[idx x]|]; [|congruence]. destruct Hfound as (_ & b & Ed & Hp).
  destruct (removed_part w d a (keyOf P) b Hw Ha Hne Hnamed Hp) as [Hs Hv]. exists (withBase w b), d. rewrite Ev, Hcode. cbn [mayDelete]. rewrite Ec.
  split.
  { rewrite (bind_run _ _ _ o w (lift_read _ _ _ (readObject_run _ _ _ Ho))), (bind_run _ _ _ _ w (lift_read _ _ _ Ef)).
    rewrite (bind_run _ _ _ tt _ (lift_run _ _ _ _ Ed)). reflexivity. }
  split; [exact Hs|]. split; [exact Ha|]. split_and!; auto. intros k. rewrite Hv. unfold deletedView. rewrite Ev. cbn. rewrite Ec.
  case_decide; case_bool_decide; cbn; congruence.
Qed.

(** What may be deleted is deleted, the length never. *)
Lemma array_delete_run w d a P : arrays_ok w -> arrays w !! a = Some d -> validP P ->
  deletes w d a (keyOf P) (array_deleteOwnProperty nameOf lengthString a P).
Proof.
  intros Hw Ha HP. unfold array_deleteOwnProperty. rewrite (name_isLength (ArrayNames := Harray) P HP).
  case_bool_decide as Hne.
  { apply deletes_nothing; auto; rewrite Hne, (view_length w a d Ha); auto. }
  assert (Hread : forall m : Array -> AM bool, deletes w d a (keyOf P) (m d) -> deletes w d a (keyOf P) (let! d := readArray a in m d)).
  { intros m. unfold deletes. rewrite (bind_run _ _ _ d w (readArray_run w a d Ha)). exact id. }
  apply Hread. pose proof (index_of_name valid validP nameOf lengthString nameOfOther integerOfName limit P HP) as Hix.
  destruct (m_fastModeData d) as [b|] eqn:Eb.
  2: { apply object_delete_run; auto. unfold isFastModeArray. rewrite Eb. discriminate. }
  destruct (keyIndex (keyOf P)) as [i|] eqn:Ei.
  2: { rewrite Hix, Z.eqb_refl. apply object_delete_run; auto. rewrite Ei. discriminate. }
  destruct Hix as (-> & -> & Hi & _). cbn [negb andb]. destruct (Z.ltb_spec i (m_arrayLength d)) as [Hlt|Hge].
  2: { apply object_delete_run; auto. rewrite Ei. intros _ j [= <-]. exact Hge. }
  pose proof (arrays_each _ _ _ Hw a d Ha) as Hok. destruct (array_fast _ _ _ _ Hok b Eb) as (Hst & _).
  destruct (slotOf_run d b i w Hst (conj Hi Hlt)) as (v & Hv & Es).
  pose proof (view_fast valid limit w a d b _ i Hw Ha Eb Ei) as Hview. rewrite (proj2 (Z.ltb_lt _ _) Hlt), (elementOf_slot b i v Hv) in Hview.
  assert (Hmay : mayDelete (viewAt w a (keyOf P)) = true) by (rewrite Hview; destruct (isEmpty v); reflexivity).
  destruct (isEmpty v) eqn:Ee.
  - apply deletes_nothing; auto. rewrite (bind_run _ _ _ v w Es), Ee, Hmay. reflexivity.
  - destruct (storeSlot_run valid limit w a d b i ValueEmpty Hw Ha Eb (conj Hi Hlt)) as (d' & E & Hs & Hl & Hwr & Hf & Hview').
    exists (withArray w a d'), d'. rewrite (bind_run _ _ _ v w Es), Ee, Hmay. cbn [negb]. cbv iota. rewrite (bind_run _ _ _ tt _ E).
    split; [reflexivity|]. split; [exact Hs|]. split; [apply lookup_insert_eq|]. split; [exact Hl|]. split; [exact Hwr|].
    split; [unfold isFastModeArray in *; rewrite Eb; exact Hf|]. split; [unfold isFastModeArray; rewrite Eb; discriminate|].
    intros k. rewrite Hview'. unfold deletedView. rewrite Hmay. cbn [andb]. change (isEmpty ValueEmpty) with true. cbv iota.
    case_decide as Ek; case_bool_decide as Ek'; try reflexivity; exfalso; [|subst k; contradiction].
    apply Ek'. exact (keyIndex_inj _ _ i Ek Ei).
Qed.

(** ** [nextIndexBackward] *)

(** The keys of the object, as integers, are among the integers of the enumeration. *)
Lemma enumerated_run w p : arrays_ok w -> is_Some (objects (base w) !! p) ->
  exists l, enumeratedIntegers lengthString integerOfName p w = (Ret l, w) /\
    forall k i, keyIndex k = Some i -> is_Some (lookupKey (listOf (base w) p) k) -> In i l.
Proof.
  intros Hw Hp. pose proof (ok_wf _ _ (arrays_base _ _ _ Hw)) as Hwf.
  destruct (object_of valid (base w) p (arrays_base _ _ _ Hw) Hp) as (o & c & Ho & _).
  destruct (object_items valid (base w) p o c Hwf Ho) as (items & Hlive & Ec & Hit). unfold enumeratedIntegers.
  rewrite (bind_run _ _ _ o w (lift_read _ _ _ (readObject_run _ _ _ (proj1 Ho)))).
  rewrite (bind_run _ _ _ items w (lift_read _ _ _ (properties_run (base w) o items Hlive))), bind_gets.
  eexists. split; [reflexivity|]. intros k i Hk Hs. apply in_or_app. right.
  rewrite (listOf_object (base w) p o c Ho) in Hs. pose proof (view_lookup c (m_values o) k (proj2 (proj2 Ho))) as Hv.
  destruct (contentIndex c k) as [n|]; [|rewrite Hv in Hs; destruct Hs; discriminate]. destruct Hv as (dd & s & Hn & _).
  subst c. unfold contentOf in Hn. rewrite list_lookup_fmap in Hn. destruct (items !! n) as [item|] eqn:Ei; [|discriminate].
  cbn in Hn. injection Hn as Hkey _. change (propertyKey (m_propertyName item) = k) in Hkey. pose proof (keyIndex_spec k i) as [Hks _]. specialize (Hks Hk) as [Ek _].
  pose proof (proj1 (list.Forall_lookup _ _) (items_valid _ _ _ Hit) n item Ei) as [Hval _].
  assert (Hsym : isSymbol (m_propertyName item) = false).
  { unfold propertyKey in Hkey. rewrite Ek in Hkey. destruct (isSymbol (m_propertyName item)); [discriminate Hkey|reflexivity]. }
  apply in_map_iff. exists (m_propertyName item). split.
  - apply (name_integer (ArrayNames := Harray)); [exact Hval|]. rewrite <- Hk. f_equal. exact Hkey.
  - unfold namesOf. apply filter_In. split; [|rewrite Hsym; reflexivity]. apply in_map. apply list_elem_of_In.
    exact (list_elem_of_lookup_2 _ _ _ Ei).
Qed.

Lemma nextIndexLoop_run w p l : arrays_ok w -> chain (base w) p l -> forall fuel cur e ret0, (length l < fuel)%nat ->
  exists r, nextIndexLoop out lengthString integerOfName fuel (Some p) cur e ret0 w = (Ret (Z.min r (cur - 1)), w) /\ ret0 <= r /\
    forall k i, keyIndex k = Some i -> is_Some (lookupKey (listOf (base w) p) k) -> i < cur -> i <= r.
Proof.
  intros Hw Hc. induction Hc as [p o Ho Hn|p o q l Ho Hn Hc IH]; intros [|fuel] cur e ret0 Hf; cbn [length] in Hf; try lia.
  all: destruct (enumerated_run w p Hw (ex_intro _ o Ho)) as (ints & E & Hin).
  all: pose proof (ok_ordinary _ _ (arrays_base _ _ _ Hw) p o Ho) as Hprox.
  all: pose proof (getPrototype_run out (base w) p o Ho Hprox) as Ep; rewrite Hn in Ep.
  all: destruct (maxBelow_spec cur ints ret0) as [Hm1 Hm2].
  all: assert (Hown : forall k i, keyIndex k = Some i -> is_Some (lookupKey (listOf (base w) p) k) -> i < cur -> i <= maxBelow cur ret0 ints)
    by (intros k i Hk Hs Hi; apply Hm2; [exact (Hin k i Hk Hs)|pose proof (proj1 (keyIndex_spec _ _) Hk) as [_ Hr];
        unfold InvalidIndexPropertyValue, InvalidIndexValue in *; lia|exact Hi]).
  all: cbn [nextIndexLoop]; rewrite (bind_run _ _ _ o w (lift_read _ _ _ (readObject_run _ _ _ Ho))).
  all: assert (Hord : isOrdinary o = true) by (unfold isOrdinary; rewrite Hprox; reflexivity); rewrite Hord; cbn [negb].
  all: rewrite (bind_run _ _ _ ints w E), (bind_run _ _ _ _ w (lift_read _ _ _ Ep)).
  - destruct fuel; [lia|]. cbn [nextIndexLoop]. exists (maxBelow cur ret0 ints). auto.
  - destruct (IH fuel cur e (maxBelow cur ret0 ints) ltac:(lia)) as (r & Er & Hr & _). exists r. split; [exact Er|]. split; [lia|].
    intros k i Hk Hs Hi. specialize (Hown k i Hk Hs Hi). lia.
Qed.

Lemma nextIndexBackward_run w a cur : arrays_ok w -> is_Some (objects (base w) !! a) ->
  exists r, nextIndexBackward out lengthString integerOfName a cur (-1) w = (Ret r, w) /\ r < cur /\
    forall k i, keyIndex k = Some i -> is_Some (lookupKey (listOf (base w) a) k) -> i < cur -> i <= r.
Proof.
  intros Hw Ha. destruct (ok_chains _ _ (arrays_base _ _ _ Hw) a Ha) as [l Hl]. pose proof (chain_length _ _ _ Hl) as Hlen.
  destruct (nextIndexLoop_run w a l Hw Hl (Datatypes.S (Datatypes.S (size (objects (base w))))) cur (-1) (-1) ltac:(lia)) as (r & E & _ & Hr).
  exists (Z.min r (cur - 1)). split.
  - unfold nextIndexBackward, chainFuel. rewrite (bind_run _ _ _ (Datatypes.S (size (objects (base w)))) w); [exact E|].
    apply lift_read. reflexivity.
  - split; [lia|]. intros k i Hk Hs Hi. specialize (Hr k i Hk Hs Hi). lia.
Qed.

(** ** [setArrayLength] out of fast mode *)

(** The array [d] of [w] was cut from the end to the length [n]: to [newLen], or to the
    last element that has to stay. *)
Record cut (w : ArrayWorld) (a : Z) (d : Array) (newLen : Z) (ok : bool) (n : Z) (w' : ArrayWorld) (d' : Array) : Prop := {
  cut_length : lengthSet w a d n w' d';
  cut_deletable : forall k i, keyIndex k = Some i -> n <= i -> mayDelete (viewAt w a k) = true;
  cut_result : if ok then n = newLen
               else newLen < n /\ exists k, keyIndex k = Some (n - 1) /\ mayDelete (viewAt w a k) = false
}.

(** No element of the array is at [n] or past it. *)
Definition emptyFrom (w : ArrayWorld) (a n : Z) : Prop := forall k i, keyIndex k = Some i -> n <= i -> viewAt w a k = None.

(** A deletion past the new length is not seen after. *)
Lemma step_set w w1 a d n w' d' : array_step w w1 a ->
  (forall k, (forall i, keyIndex k = Some i -> i < n) -> viewAt w1 a k = viewAt w a k) ->
  lengthSet w1 a d n w' d' -> lengthSet w a d n w' d'.
Proof.
  intros Hs Hv [H1 H2 H3 H4 H5 H6]. constructor; auto; [eapply array_step_trans; eassumption|].
  intros k. rewrite H6. unfold cutView. case_decide; [reflexivity|]. destruct (keyIndex k) as [i|] eqn:Ei.
  - destruct (Z.ltb_spec i n); [|reflexivity]. apply Hv. intros j. congruence.
  - apply Hv. intros j. congruence.
Qed.

Lemma finish_run w a d newLen oldLen : arrays_ok w -> arrays w !! a = Some d -> m_fastModeData d = None -> 0 <= newLen <= limit ->
  emptyFrom w a newLen ->
  exists w' d', (let! d := readArray a in do! writeArray a (withLength d newLen) in ret true) w = (Ret true, w') /\
    newLen <= Z.max oldLen newLen /\ cut w a d newLen true newLen w' d'.
Proof.
  intros Hw Ha Hd Hn He. exists (withArray w a (withLength d newLen)), (withLength d newLen).
  rewrite (bind_run _ _ _ d w (readArray_run w a d Ha)). split; [reflexivity|]. split; [lia|]. constructor; [|intros k i Hk Hi|reflexivity].
  - apply cut_set; auto.
  - rewrite (He k i Hk Hi). reflexivity.
Qed.

Abbreviation deleteFrom := (deleteFrom out nameOf lengthString nameOfOther integerOfName).

(** What the loop promises. *)
Definition cuts (m : AM bool) (w : ArrayWorld) (a : Z) (d : Array) (oldLen newLen : Z) : Prop :=
  exists ok n w' d', m w = (Ret ok, w') /\ n <= Z.max oldLen newLen /\ cut w a d newLen ok n w' d'.

Lemma deleteAt_run fuel w a d j newLen : arrays_ok w -> arrays w !! a = Some d -> m_fastModeData d = None ->
  0 <= newLen <= j -> j < limit -> emptyFrom w a (j + 1) ->
  (forall w1, arrays_ok w1 -> arrays w1 !! a = Some d -> emptyFrom w1 a j -> cuts (deleteFrom fuel a j newLen) w1 a d j newLen) ->
  cuts (let! deleteSucceeded := array_deleteOwnProperty nameOf lengthString a (indexName nameOfOther j) in
        if negb deleteSucceeded then
          let! d := readArray a in do! writeArray a (withLength d (j + 1)) in ret false
        else deleteFrom fuel a j newLen) w a d (j + 1) newLen.
Proof.
  intros Hw Ha Hd Hj Hlim He IH. set (P := indexName nameOfOther j).
  pose proof (index_name_key valid validP nameOf lengthString nameOfOther integerOfName limit j ltac:(lia)) as Hk. fold P in Hk.
  assert (HP : validP P) by apply (index_valid (ArrayNames := Harray) j ltac:(lia)).
  destruct (array_delete_run w d a P Hw Ha HP) as (w1 & d1 & E & Hs & Ha1 & _ & _ & _ & Hsame & Hv).
  unfold isFastModeArray in Hsame. rewrite Hd in Hsame. rewrite (Hsame eq_refl) in Ha1. unfold cuts. rewrite (bind_run _ _ _ _ _ E).
  unfold deletedView in Hv. destruct (mayDelete (viewAt w a (keyOf P))) eqn:Em; cbn [negb andb] in *.
  - assert (He1 : emptyFrom w1 a j).
    { intros k i Hki Hi. rewrite Hv. case_bool_decide as Ek; [reflexivity|]. apply (He k i Hki).
      assert (i <> j); [intros ->; apply Ek; exact (keyIndex_inj _ _ j Hki Hk)|lia]. }
    destruct (IH w1 (step_ok _ _ _ _ _ Hs) Ha1 He1) as (ok & n & w' & d' & E' & Hn & [H1 H2 H3]).
    exists ok, n, w', d'. split; [exact E'|]. split; [lia|].
    assert (Hother : forall k, (forall i, keyIndex k = Some i -> i < n) -> viewAt w1 a k = viewAt w a k).
    { intros k Hki. rewrite Hv, bool_decide_eq_false_2; [reflexivity|]. intros ->. specialize (Hki j Hk). lia. }
    constructor; [exact (step_set w w1 a d n w' d' Hs Hother H1)| |].
    + intros k i Hki Hi. specialize (H2 k i Hki Hi). rewrite Hv in H2. case_bool_decide; [subst k; exact Em|exact H2].
    + destruct ok; [exact H3|]. destruct H3 as [H3 (k & Hki & Hm)]. split; [exact H3|]. exists k. split; [exact Hki|].
      rewrite <- Hother; [exact Hm|]. intros i. rewrite Hki. intros [= <-]. lia.
  - exists false, (j + 1), (withArray w1 a (withLength d (j + 1))), (withLength d (j + 1)).
    rewrite (bind_run _ _ _ d w1 (readArray_run w1 a d Ha1)). split; [reflexivity|]. split; [lia|]. constructor.
    + apply (step_set w w1 a d (j + 1) _ _ Hs); [auto|]. apply cut_set; [exact (step_ok _ _ _ _ _ Hs)|exact Ha1|exact Hd|lia|].
      intros k i Hki Hi. rewrite Hv. exact (He k i Hki Hi).
    + intros k i Hki Hi. rewrite (He k i Hki Hi). reflexivity.
    + split; [lia|]. exists (keyOf P). replace (j + 1 - 1) with j by lia. auto.
Qed.

Lemma cuts_weaken m m' w a d oldLen oldLen' newLen : m w = m' w -> oldLen <= oldLen' -> cuts m w a d oldLen newLen -> cuts m' w a d oldLen' newLen.
Proof. intros E Hl (ok & n & w' & d' & Er & Hn & Hc). exists ok, n, w', d'. rewrite <- E. split; [exact Er|]. split; [lia|exact Hc]. Qed.

Lemma deleteFrom_run a d newLen fuel : forall w oldLen, arrays_ok w -> arrays w !! a = Some d -> m_fastModeData d = None ->
  0 <= newLen <= limit -> oldLen <= limit -> oldLen <= Z.of_nat fuel -> emptyFrom w a oldLen ->
  cuts (deleteFrom fuel a oldLen newLen) w a d oldLen newLen.
Proof.
  induction fuel as [|fuel IH]; intros w oldLen Hw Ha Hd Hn Hlim Hf He; cbn [ArrayObject.deleteFrom]; cbv zeta.
  all: destruct (Z.ltb_spec newLen oldLen) as [Hlt|Hge]; [try lia|].
  1, 3: destruct (finish_run w a d newLen oldLen Hw Ha Hd Hn) as (w' & d' & E & H); [intros k i Hk Hi; apply (He k i Hk); lia|];
    exists true, newLen, w', d'; split; [exact E|exact H].
  set (j := oldLen - 1) in *. assert (HP : validP (indexName nameOfOther j)) by (apply (index_valid (ArrayNames := Harray)); lia).
  pose proof (index_name_key valid validP nameOf lengthString nameOfOther integerOfName limit j ltac:(lia)) as Hk.
  destruct (array_get_ok valid validP out nameOf nameOfKey lengthString nameOfOther integerOfName limit w a d _ Hw Ha HP) as (r & E & Er & _).
  rewrite <- (viewAt_array w a d _ Ha) in Er.
  assert (Hj : forall j', newLen <= j' -> j' < oldLen -> emptyFrom w a (j' + 1) ->
    cuts (let! deleteSucceeded := array_deleteOwnProperty nameOf lengthString a (indexName nameOfOther j') in
        if negb deleteSucceeded then
          let! d := readArray a in do! writeArray a (withLength d (j' + 1)) in ret false
        else deleteFrom fuel a j' newLen) w a d (j' + 1) newLen).
  { intros j' H1 H2 H3. apply deleteAt_run; auto; try lia. intros w1 Hw1 Ha1 He1. apply IH; auto; lia. }
  assert (Hlast : emptyFrom w a (j + 1)) by (intros k i Hki Hi; apply (He k i Hki); lia).
  destruct (hasValue r) eqn:Ehv.
  - eapply cuts_weaken; [|..|apply (Hj j); auto; lia]; [|lia]. rewrite (bind_run _ _ _ r w E), Ehv. reflexivity.
  - destruct (nextIndexBackward_run w a j Hw (array_object _ _ _ _ (arrays_each _ _ _ Hw a d Ha))) as (x & Ex & Hx1 & Hx2).
    assert (Hx : emptyFrom w a (x + 1)).
    { intros k i Hki Hi. destruct (Z.lt_ge_cases i j) as [Hij|Hij].
      - apply eq_None_not_Some. intros Hs. rewrite (viewAt_array w a d k Ha), arrayProperty_slow, decide_False in Hs;
          [|intros ->; discriminate|exact Hd]. specialize (Hx2 k i Hki Hs Hij). lia.
      - destruct (Z.eq_dec i j) as [->|Hne]; [|apply (He k i Hki); lia]. rewrite (keyIndex_inj _ _ j Hki Hk), <- Er.
        destruct r; try discriminate. reflexivity. }
    destruct (Z.ltb_spec x newLen) as [Hlt'|Hge].
    + destruct (finish_run w a d newLen oldLen Hw Ha Hd Hn) as (w' & d' & E' & H); [intros k i Hk' Hi; apply (Hx k i Hk'); lia|].
      exists true, newLen, w', d'. split; [|exact H]. rewrite (bind_run _ _ _ r w E), Ehv. cbn [negb].
      rewrite (bind_run _ _ _ x w Ex), (proj2 (Z.ltb_lt _ _) Hlt'). exact E'.
    + eapply cuts_weaken; [|..|apply (Hj x); auto; lia]; [|lia]. rewrite (bind_run _ _ _ r w E), Ehv. cbn [negb].
      rewrite (bind_run _ _ _ x w Ex), (proj2 (Z.ltb_ge _ _) Hge). reflexivity.
Qed.
End Length.

(** * ArraySetLength

    [defineOwnProperty] of the length of an array: which descriptors it takes, what it
    makes of the length and of the elements, and the two cases in which it stops. *)

(** ** Which descriptors *)

Definition withoutValue (d : PropertyDescriptor) : PropertyDescriptor :=
  {| d_value := None; d_writable := d_writable d; d_get := d_get d; d_set := d_set d;
     d_enumerable := d_enumerable d; d_configurable := d_configurable d |}.

(** The definition changes the length from that of [d] to [newLen]. *)
Definition changesLength (d : Array) (desc : ObjectPropertyDescriptor) (newLen : Z) : bool :=
  isValuePresent desc && negb (m_arrayLength d =? newLen).

(** The attributes are compatible with those of the length, and a length that is
    read-only stays. *)
Definition acceptsLength {heap : Heap} (d : Array) (desc : ObjectPropertyDescriptor) (newLen : Z) : bool :=
  compatible (lengthProperty d) (withoutValue (descriptorOf desc)) &&
  (m_isArrayObjectLengthWritable d || negb (changesLength d desc newLen)).

(** The array with the attribute that the descriptor asks for. *)
Definition withWritable (d : Array) (desc : ObjectPropertyDescriptor) : Array :=
  if isWritablePresent desc && negb (isWritable desc) then withLengthReadOnly d else d.

Lemma accepts_code {heap : Heap} d desc newLen : wf_descriptor desc ->
  (if negb (m_isArrayObjectLengthWritable d) && changesLength d desc newLen then false
   else if isConfigurablePresent desc && isConfigurable desc then false
   else if isEnumerablePresent desc && isEnumerable desc then false
   else if isAccessorDescriptor desc then false
   else negb (negb (m_isArrayObjectLengthWritable d) && isWritable desc)) = acceptsLength d desc newLen.
Proof.
  intros Hwf. pose proof (IsAccessor_descriptorOf desc Hwf) as Ea. unfold acceptsLength, compatible.
  change (IsAccessor (withoutValue (descriptorOf desc))) with (IsAccessor (descriptorOf desc)). rewrite Ea.
  assert (Ed : IsData (withoutValue (descriptorOf desc)) = isWritablePresent desc).
  { unfold IsData. cbn. apply eq_true_iff_eq. rewrite bool_decide_eq_true, is_Some_presentIf. split; [intros [[? [=]]|H]; exact H|auto]. }
  rewrite Ed. cbn. unfold isAccessorDescriptor. generalize (changesLength d desc newLen) as c. intros c.
  assert (Ew : isWritable desc = true -> isWritablePresent desc = true).
  { unfold isWritable, isWritablePresent. intros ->. reflexivity. }
  destruct (isWritablePresent desc), (isWritable desc); try (specialize (Ew eq_refl); discriminate);
    destruct (isEnumerablePresent desc), (isEnumerable desc), (isConfigurablePresent desc), (isConfigurable desc),
      (m_isDataProperty desc), (m_isArrayObjectLengthWritable d), c; reflexivity.
Qed.

Section SetLength.
Context {heap : Heap} (valid validP : Z -> Prop) (out : Outside) (nameOf : Z -> Z) (nameOfKey : OwnKey -> Z).
Context {Hnames : ObjectNames heap valid validP nameOf nameOfKey}.
Context (lengthString : Z) (nameOfOther : Z -> Z) (integerOfName : Z -> Z) (toNumberSlowCase : Z -> AM Z).
Context (use32BitIn64Bit : bool) (limit : Z).
Context {Harray : ArrayNames heap valid validP nameOf lengthString nameOfOther integerOfName limit}.

Abbreviation keyOf P := (propertyKey (nameOf P)).
Abbreviation arrays_ok := (arrays_ok valid limit).
Abbreviation array_step := (array_step valid limit).
Abbreviation lengthSet := (lengthSet valid limit).
Abbreviation cut := (cut valid limit).
Abbreviation setArrayLength := (setArrayLength out nameOf lengthString nameOfOther integerOfName use32BitIn64Bit).
Abbreviation defineLength := (defineLength out nameOf lengthString nameOfOther integerOfName toNumberSlowCase use32BitIn64Bit).

(** Elements in the buffer can be deleted. *)
Lemma fast_deletable w a d k i : arrays_ok w -> arrays w !! a = Some d -> isFastModeArray d = true -> keyIndex k = Some i ->
  mayDelete (viewAt w a k) = true.
Proof using Type.
  intros Hw Ha Hf Hk. unfold isFastModeArray in Hf. destruct (m_fastModeData d) as [b|] eqn:Eb; [|discriminate].
  rewrite (view_fast valid limit w a d b k i Hw Ha Eb Hk). unfold elementOf. case_match; [|reflexivity].
  destruct (b !! _) as [[v|]|]; try reflexivity. destruct (isEmpty v); reflexivity.
Qed.

Lemma setArrayLength_cuts w a d n : arrays_ok w -> arrays w !! a = Some d -> 0 <= n <= limit ->
  (isFastModeArray d = true -> use32BitIn64Bit = true \/ m_arrayLength d <= n) ->
  exists ok r w' d', setArrayLength a n false true w = (Ret ok, w') /\ cut w a d n ok r w' d'.
Proof.
  intros Hw Ha Hn Hsafe. pose proof (arrays_each _ _ _ Hw a d Ha) as Hok.
  assert (Hrun : (isFastModeArray d = false -> m_arrayLength d <= n) -> exists ok r w' d', setArrayLength a n false true w = (Ret ok, w') /\
    cut w a d n ok r w' d').
  { intros Hslow. destruct (setArrayLength_run valid validP out nameOf nameOfKey lengthString nameOfOther integerOfName use32BitIn64Bit
      limit w a d n false true Hw Ha Hn) as (w' & d' & E & Hset); [|exact Hslow|].
    - intros Hf. destruct (Hsafe Hf) as [->|Hle]; [apply default_is_safe|]. unfold isFastModeArray in Hf.
      destruct (m_fastModeData d) as [b|] eqn:Eb; [|discriminate]. apply (growth_is_safe _ d b); [apply (array_fast _ _ _ _ Hok b Eb)|exact Hle].
    - exists true, n, w', d'. split; [exact E|]. constructor; [exact Hset| |reflexivity]. intros k i Hk Hi.
      destruct (isFastModeArray d) eqn:Ef; [exact (fast_deletable w a d k i Hw Ha Ef Hk)|].
      rewrite (view_bound valid limit w a d k i Hw Ha Hk); [reflexivity|]. specialize (Hslow eq_refl). lia. }
  destruct (isFastModeArray d) eqn:Ef; [apply Hrun; discriminate|].
  assert (Hd : m_fastModeData d = None) by (unfold isFastModeArray in Ef; destruct (m_fastModeData d); [discriminate|reflexivity]).
  pose proof (array_range _ _ _ _ Hok) as Hr.
  destruct (deleteFrom_run valid validP out nameOf nameOfKey lengthString nameOfOther integerOfName limit a d n (Z.to_nat (m_arrayLength d))
    w (m_arrayLength d) Hw Ha Hd Hn ltac:(lia) ltac:(lia)) as (ok & r & w' & d' & E & _ & Hc).
  { intros k i Hk Hi. exact (view_bound valid limit w a d k i Hw Ha Hk Hi). }
  exists ok, r, w', d'. split; [|exact Hc]. unfold ArrayObject.setArrayLength.
  rewrite (bind_run _ _ _ d w (readArray_run w a d Ha)), Ef. cbn [andb]. cbv iota.
  rewrite bind_ret, (bind_run _ _ _ d w (readArray_run w a d Ha)), Hd. unfold setLengthOfProperties.
  rewrite (bind_run _ _ _ d w (readArray_run w a d Ha)). exact E.
Qed.

(** The definition of the length of [d], which asks for the length [target], ended with
    the length [n]. *)
Record lengthDefined (w : ArrayWorld) (a : Z) (d : Array) (desc : ObjectPropertyDescriptor) (target : Z) (ok : bool) (n : Z)
    (w' : ArrayWorld) : Prop := {
  defined_step : array_step w w' a;
  defined_view : forall k, viewAt w' a k =
    if decide (k = lengthKey)
    then Some (DataProperty (Value_unsigned n) (m_isArrayObjectLengthWritable (withWritable d desc)) false false)
    else match keyIndex k with Some i => if i <? n then viewAt w a k else None | None => viewAt w a k end;
  defined_deletable : forall k i, keyIndex k = Some i -> n <= i -> mayDelete (viewAt w a k) = true;
  defined_result : if ok then n = target
                   else target < n /\ exists k, keyIndex k = Some (n - 1) /\ mayDelete (viewAt w a k) = false
}.

(** Only the attribute changes. *)
Lemma writable_step w a d desc (d0 := withWritable d desc) : arrays_ok w -> arrays w !! a = Some d ->
  array_step w (withArray w a d0) a /\ forall k, k <> lengthKey -> viewAt (withArray w a d0) a k = viewAt w a k.
Proof.
  intros Hw Ha. pose proof (arrays_each _ _ _ Hw a d Ha) as Hok.
  assert (Hd0 : ArraySpec.array_ok limit (base w) d0 a).
  { unfold d0, withWritable. case_if; [|exact Hok]. destruct Hok as [H1 H2 H3 H4 H5]. constructor; auto.
    intros b Hb. destruct (H5 b Hb) as ([S1 S2 S3 S4 S5] & H). split; [|exact H]. constructor; auto. discriminate. }
  split.
  - eapply part_array_step; [exact Hw|eauto|apply part_refl; [apply Hw|apply Hok]|exact Hd0].
  - intros k Hk. rewrite (viewAt_array _ a d0 k) by apply lookup_insert_eq. rewrite (viewAt_array w a d k Ha). unfold arrayProperty.
    rewrite !decide_False by exact Hk. unfold d0, withWritable. case_if; reflexivity.
Qed.

Lemma cut_defined w a d desc target ok n w' d' (w0 := withArray w a (withWritable d desc)) : arrays_ok w -> arrays w !! a = Some d ->
  cut w0 a (withWritable d desc) target ok n w' d' -> lengthDefined w a d desc target ok n w'.
Proof.
  intros Hw Ha [[H1 _ H3 H4 _ H6] H7 H8]. destruct (writable_step w a d desc Hw Ha) as [Hs Hv]. fold w0 in Hs, Hv.
  assert (Hne : forall k i, keyIndex k = Some i -> k <> lengthKey) by (intros k i Hk ->; discriminate).
  constructor.
  - eapply array_step_trans; eassumption.
  - intros k. rewrite H6. unfold cutView. case_decide; [reflexivity|]. rewrite Hv by assumption. reflexivity.
  - intros k i Hk Hi. rewrite <- Hv by exact (Hne k i Hk). exact (H7 k i Hk Hi).
  - destruct ok; [exact H8|]. destruct H8 as [H8 (k & Hk & Hm)]. split; [exact H8|]. exists k. split; [exact Hk|].
    rewrite <- Hv by exact (Hne k _ Hk). exact Hm.
Qed.

(** What the definition asks for. *)
Definition targetLength (d : Array) (desc : ObjectPropertyDescriptor) (newLen : Z) : Z :=
  if changesLength d desc newLen then newLen else m_arrayLength d.

Lemma defineLength_run w a d desc newLen : arrays_ok w -> arrays w !! a = Some d -> wf_descriptor desc ->
  (if isValuePresent desc then lengthOfValue toNumberSlowCase (m_value desc) w = (Ret newLen, w) /\ 0 <= newLen <= limit else newLen = 0) ->
  (isFastModeArray d = true -> use32BitIn64Bit = true \/ m_arrayLength d <= newLen) ->
  if acceptsLength d desc newLen
  then exists ok n w', defineLength a desc w = (Ret ok, w') /\ lengthDefined w a d desc (targetLength d desc newLen) ok n w'
  else defineLength a desc w = (Ret false, w).
Proof.
  intros Hw Ha Hwf Hval Hsafe. rewrite <- (accepts_code d desc newLen Hwf). unfold ArrayObject.defineLength.
  rewrite (bind_run _ _ _ newLen w), (bind_run _ _ _ d w (readArray_run w a d Ha)).
  2: { destruct (isValuePresent desc); [apply Hval|]. subst newLen. reflexivity. }
  cbv zeta. fold (changesLength d desc newLen). unfold targetLength. set (d0 := withWritable d desc). set (w0 := withArray w a d0).
  assert (Hwrite : (when! isWritablePresent desc && negb (isWritable desc) then writeArray a (withLengthReadOnly d)) w = (Ret tt, w0)).
  { unfold w0, d0, withWritable. case_if; [reflexivity|]. unfold withArray. rewrite insert_same by exact Ha. destruct w; reflexivity. }
  pose proof (proj1 (writable_step w a d desc Hw Ha)) as Hs0.
  assert (Ha0 : arrays w0 !! a = Some d0) by apply lookup_insert_eq.
  assert (Hd0 : m_arrayLength d0 = m_arrayLength d /\ isFastModeArray d0 = isFastModeArray d) by (unfold d0, withWritable; case_if; auto).
  assert (Hend : exists ok n w', (do! when! isWritablePresent desc && negb (isWritable desc) then writeArray a (withLengthReadOnly d) in
    if changesLength d desc newLen then setArrayLength a newLen false true else ret true) w = (Ret ok, w') /\
    lengthDefined w a d desc (if changesLength d desc newLen then newLen else m_arrayLength d) ok n w').
  { rewrite (bind_run _ _ _ tt w0 Hwrite). destruct (changesLength d desc newLen) eqn:Ec.
    - destruct (setArrayLength_cuts w0 a d0 newLen (step_ok _ _ _ _ _ Hs0) Ha0) as (ok & n & w' & d' & E & Hc).
      { unfold changesLength in Ec. destruct (isValuePresent desc); [apply Hval|discriminate]. }
      { destruct Hd0 as [-> ->]. exact Hsafe. }
      exists ok, n, w'. split; [exact E|]. exact (cut_defined w a d desc newLen ok n w' d' Hw Ha Hc).
    - exists true, (m_arrayLength d), w0. split; [reflexivity|]. apply (cut_defined w a d desc _ true _ w0 d0 Hw Ha).
      constructor; [|intros k i Hk Hi|reflexivity].
      + apply same_set; [exact (step_ok _ _ _ _ _ Hs0)|exact Ha0|apply Hd0].
      + apply (f_equal mayDelete (y := None)), (view_bound valid limit w0 a d0 k i (step_ok _ _ _ _ _ Hs0) Ha0 Hk).
        destruct Hd0 as [-> _]. exact Hi. }
  destruct (negb (m_isArrayObjectLengthWritable d) && changesLength d desc newLen); [reflexivity|].
  destruct (isConfigurablePresent desc && isConfigurable desc); [reflexivity|].
  destruct (isEnumerablePresent desc && isEnumerable desc); [reflexivity|].
  destruct (isAccessorDescriptor desc); [reflexivity|].
  destruct (negb (m_isArrayObjectLengthWritable d) && isWritable desc); [reflexivity|]. exact Hend.
Qed.
End SetLength.
