(* ===== verification/ArrayProperties.v ===== *)
(** * The names of arrays in a context

    The interface [ArrayNames] holds in a context whose table has the string of the
    length and the texts of the indices; and a small context in which arrays run. *)

From stdpp Require Import gmap.
From S2P Require Import Prelude Value AtomicString PropertyName PropertyDescriptor ObjectStructure.
From S2P Require Import StructureSpec Object ObjectSpec ObjectDefine ObjectMethods ObjectPrototype ObjectHistory.
From S2P Require Import ObjectProperties ArrayStorage ArrayObject ArraySpec ArrayConvert ArrayDefine.
From S2P Require Import ArrayLength.
Local Open Scope Z_scope.
Local Open Scope esc_scope.

Section Context.
Context (st : Strings) (symbols : gset Z) (atomicForm : PropertyKey -> bool).
Context (Hst : wf_strings st) (Hsym : symbols_below st symbols).
Context (Hatomic : forall n, atomicForm (KString (decimal n)) = true).
Context (lengthString limit : Z) (nameOfOther : Z -> Z).
Context (Hlength : lengthString ∈ atomicStringMap st) (Htext : KString (textOf st lengthString) = lengthKey).
Context (Hlimit : 0 <= limit <= MAXIMUM_UINT_FOR_32BIT_PROPERTY_NAME).
Context (Hindex : forall i, 0 <= i < limit -> contextValidP st symbols atomicForm (setUIntValue i)).
Local Instance names_heap : Heap := heapOf st symbols.

Abbreviation nameOf := (contextNameOf st symbols).

(** ToNumber of the text of a name, where it is an index. *)
Definition indexOfName (m : Z) : Z := default (-1) (keyIndex (propertyKey m)).

Lemma indexName_uint i : 0 <= i <= MAXIMUM_UINT_FOR_32BIT_PROPERTY_NAME -> indexName nameOfOther i = setUIntValue i.
Proof using Type.
  unfold MAXIMUM_UINT_FOR_32BIT_PROPERTY_NAME. intros Hi. unfold indexName, propertyName, Value_unsigned_long, to_unsigned.
  rewrite Z.mod_small, Z.eqb_refl by lia. cbn [negb]. unfold Value_unsigned.
  assert (E : to_int32 i = i) by (unfold to_int32, to_signed; lia). rewrite E. replace (i <? 0) with false by lia.
  destruct (Value_int_word i) as [_ Hf]. rewrite asInt32_int by (unfold in_int32; lia). unfold isUInt32, isInt32. rewrite Hf.
  rewrite asInt32_int by (unfold in_int32; lia). cbn [Z.eqb Pos.eqb andb]. replace (0 <=? i) with true by lia.
  unfold MAXIMUM_UINT_FOR_32BIT_PROPERTY_NAME. replace (i <=? _) with true by lia. reflexivity.
Qed.

(** The name of a small integer is the atomic string of its text. *)
Lemma uint_key v : 0 <= v <= MAXIMUM_UINT_FOR_32BIT_PROPERTY_NAME -> contextValidP st symbols atomicForm (setUIntValue v) ->
  propertyKey (nameOf (setUIntValue v)) = KString (decimal v).
Proof.
  intros Hv [HP|(u & a & Hu & E & Hf & En)].
  - pose proof (proj2 (contextNameOf_valid st symbols atomicForm Hst Hsym _ HP)) as H. rewrite (proj1 (uint_bits v Hv)) in H. discriminate.
  - assert (v = u) as <- by (rewrite <- (proj2 (uint_bits v Hv)), E; apply uint_bits; exact Hu). rewrite En.
    apply (index_name st symbols atomicForm Hst Hatomic v a Hf).
Qed.

Lemma context_arrays : ArrayNames names_heap (contextValid st symbols atomicForm) (contextValidP st symbols atomicForm) nameOf
  lengthString nameOfOther indexOfName limit.
Proof.
  assert (Hcase : forall P, contextValidP st symbols atomicForm P ->
    (contextValid st symbols atomicForm P /\ isUIntType P = false /\ nameOf P = P) \/
    (exists v, 0 <= v <= MAXIMUM_UINT_FOR_32BIT_PROPERTY_NAME /\ P = setUIntValue v /\ isUIntType P = true /\ uintValue P = v /\
       propertyKey (nameOf P) = KString (decimal v))).
  { intros P HP. pose proof HP as HP'. destruct HP as [HP|(v & a & Hv & -> & _)].
    - left. destruct (contextNameOf_valid st symbols atomicForm Hst Hsym P HP). auto.
    - right. exists v. destruct (uint_bits v Hv). split_and!; auto; try apply Hv. apply uint_key; assumption. }
  constructor.
  - unfold MAXIMUM_UINT_FOR_32BIT_PROPERTY_NAME, InvalidIndexPropertyValue in *. lia.
  - intros i Hi. rewrite indexName_uint by lia. split; [auto|]. apply uint_key; [lia|auto].
  - intros P HP. unfold objectName_tryToUseAsIndexProperty. destruct (Hcase P HP) as [(_ & -> & ->)|(v & Hv & _ & -> & -> & ->)].
    + rewrite tryToUse_key. unfold keyIndex. destruct (propertyKey P) as [s|]; [|reflexivity]. cbn zeta.
      destruct (Z.eqb_spec (tryToUseAsIndexProperty s) InvalidIndexPropertyValue) as [E|E]; [exact E|reflexivity].
    + rewrite keyIndex_decimal; [reflexivity|]. unfold MAXIMUM_UINT_FOR_32BIT_PROPERTY_NAME, InvalidIndexPropertyValue in *. lia.
  - intros P HP. unfold isLengthName. rewrite <- Htext. destruct (Hcase P HP) as [([Hw _] & -> & ->)|(v & Hv & _ & -> & _ & Ek)].
    + cbn [negb andb]. apply (name_eq_atomic_correct st symbols Hst (symbols_below_wf _ _ Hsym)); assumption.
    + cbn [negb andb]. symmetry. apply bool_decide_eq_false. rewrite Ek, Htext. intros E.
      assert (keyIndex (KString (decimal v)) = None) as Hn by (rewrite E; reflexivity).
      rewrite keyIndex_decimal in Hn; [discriminate|]. unfold MAXIMUM_UINT_FOR_32BIT_PROPERTY_NAME, InvalidIndexPropertyValue in *. lia.
  - intros m i _ Hk. unfold indexOfName. rewrite Hk. reflexivity.
Qed.
End Context.

(** ** The example *)

(** The strings [length], [k] and the digits below 8. *)
Definition arrayStrings : Strings :=
  fold_left (fun st text => snd (initLatin1 st text)) ([[108; 101; 110; 103; 116; 104]; [107]] ++ map decimal (seqZ 0 8)) (initialStrings 8192).
#[export] Instance arrayHeap : Heap := heapOf arrayStrings objectSymbols.
Definition lengthName : Z := default 0 (map_find arrayStrings [108; 101; 110; 103; 116; 104]).
Definition nameK : Z := nameOfAtomic (default 0 (map_find arrayStrings [107])).

Abbreviation arrValid := (contextValid arrayStrings objectSymbols atomicTexts).
Abbreviation arrValidP := (contextValidP arrayStrings objectSymbols atomicTexts).
Abbreviation arrNameOf := (contextNameOf arrayStrings objectSymbols).
Abbreviation arrNameOfKey := (contextNameOfKey arrayStrings).
Abbreviation arrNameOfOther := (fun _ : Z => 0).
Abbreviation arrInteger := (indexOfName arrayStrings objectSymbols).

Lemma initialized_ok texts : forall st, wf_strings st -> wf_strings (fold_left (fun st text => snd (initLatin1 st text)) texts st).
Proof. induction texts as [|t texts IH]; intros st H; [exact H|]. apply IH, initLatin1_ok, H. Qed.

Lemma arrayStrings_ok : wf_strings arrayStrings /\ symbols_below arrayStrings objectSymbols.
Proof.
  split.
  - apply initialized_ok, initialStrings_wf. split; reflexivity.
  - intros p ->%elem_of_singleton. split_and!; vm_compute; split || idtac; reflexivity.
Qed.

#[export] Instance array_objects : ObjectNames arrayHeap arrValid arrValidP arrNameOf arrNameOfKey.
Proof. apply context_objects; [apply arrayStrings_ok|apply arrayStrings_ok|reflexivity]. Qed.

Lemma index_name_valid i : 0 <= i < 8 -> arrValidP (setUIntValue i).
Proof.
  intros Hi. right. exists i, (default 0 (map_find arrayStrings (decimal i))).
  split; [unfold MAXIMUM_UINT_FOR_32BIT_PROPERTY_NAME; lia|]. split; [reflexivity|].
  assert (Hc : i = 0 \/ i = 1 \/ i = 2 \/ i = 3 \/ i = 4 \/ i = 5 \/ i = 6 \/ i = 7) by lia.
  destruct Hc as [->|[->|[->|[->|[->|[->|[->| ->]]]]]]]; split; vm_compute; reflexivity.
Qed.

#[export] Instance array_names : ArrayNames arrayHeap arrValid arrValidP arrNameOf lengthName arrNameOfOther arrInteger 8.
Proof.
  apply context_arrays.
  - apply arrayStrings_ok.
  - apply arrayStrings_ok.
  - reflexivity.
  - apply list_elem_of_In. vm_compute. auto 20.
  - vm_compute. reflexivity.
  - unfold MAXIMUM_UINT_FOR_32BIT_PROPERTY_NAME. lia.
  - exact index_name_valid.
Qed.

Lemma nameK_valid : arrValidP nameK.
Proof.
  left. split; [|vm_compute; reflexivity]. apply wf_atomic. apply list_elem_of_In. vm_compute. auto 20.
Qed.
Lemma length_valid : arrValidP (nameOfAtomic lengthName).
Proof.
  left. split; [|vm_compute; reflexivity]. apply wf_atomic. apply list_elem_of_In. vm_compute. auto 20.
Qed.

(** Strings and objects are not converted to numbers here. *)
Definition noNumber : Z -> AM Z := fun _ => throw RangeError.

Abbreviation arrDefine := (array_defineOwnProperty nothingOutside arrNameOf lengthName arrNameOfOther arrInteger noNumber true).
Abbreviation arrDelete := (array_deleteOwnProperty arrNameOf lengthName).

(** An array without elements, and the same with the values 1 and 2 and a hole between. *)
Definition theArray : Z := 16384.
Definition emptyArrayWorld : ArrayWorld :=
  {| base := withObject theArray (newObject 0 None) emptyWorld; arrays := {[ theArray := emptyArray true ]} |}.
Definition element (v : Z) : ObjectPropertyDescriptor := dataDescriptor (Value_int v) AllPresent.
Definition defined (P : Z) (desc : ObjectPropertyDescriptor) (w : ArrayWorld) : ArrayWorld := snd (arrDefine theArray P desc w).
Definition twoElements : ArrayWorld := defined (setUIntValue 2) (element 2) (defined (setUIntValue 0) (element 1) emptyArrayWorld).

Lemma firstArray_ok : world_ok arrValid (withObject theArray (newObject 0 None) emptyWorld).
Proof.
  refine (proj1 (steps_keep arrValid arrValidP nothingOutside arrNameOf arrNameOfKey 0 emptyWorld _ _ (proj2 emptyWorld_ok) _)).
  - constructor.
    + constructor; [apply root_wf|intros a o H|intros a b o o' H]; rewrite emptyWorld_none in H; discriminate.
    + intros a o H. rewrite emptyWorld_none in H. discriminate.
    + intros a [o H]. rewrite emptyWorld_none in H. discriminate.
    + intros a p H. unfold protoOf in H. rewrite emptyWorld_none in H. discriminate.
    + intros _ a H. unfold marked in H. rewrite emptyWorld_none in H. discriminate.
  - apply rtc_once, step_new; [reflexivity|discriminate].
Qed.

Lemma emptyArrayWorld_ok : arrays_ok arrValid 8 emptyArrayWorld.
Proof.
  constructor; [exact firstArray_ok|]. intros a d H. cbn in H. apply lookup_singleton_Some in H as [<- <-]. constructor.
  - eexists. vm_compute. reflexivity.
  - cbn. lia.
  - vm_compute. reflexivity.
  - intros k i _ [p H]. vm_compute in H. discriminate.
  - intros b [= <-]. split; [constructor; cbn; try lia; auto; constructor|]. split; [vm_compute; reflexivity|].
    split; [vm_compute; reflexivity|]. intros k i _. vm_compute. reflexivity.
Qed.

(** The array and the definition of an index. *)
Lemma element_definable i v : 0 <= i < 8 -> in_int32 v -> definable arrValidP arrNameOf 8 (setUIntValue i) (element v).
Proof.
  intros Hi Hv. pose proof (index_name_valid i Hi) as HP.
  pose proof (index_name_key arrValid arrValidP arrNameOf lengthName arrNameOfOther arrInteger 8 i Hi) as Hk.
  rewrite (indexName_uint arrNameOfOther i) in Hk by (unfold MAXIMUM_UINT_FOR_32BIT_PROPERTY_NAME; lia). constructor.
  - exact HP.
  - intros E. rewrite E in Hk. discriminate.
  - intros j Hj. rewrite Hk in Hj. injection Hj as <-. lia.
  - apply wf_element.
  - intros _. unfold element, isEmpty. cbn. apply Z.eqb_neq. rewrite Value_int_eq. unfold ValueEmpty. cbn. lia.
Qed.

(** A definition that the arrays survive. *)
Lemma defined_ok w d P desc : arrays_ok arrValid 8 w -> arrays w !! theArray = Some d -> definable arrValidP arrNameOf 8 P desc ->
  m_isArrayObjectLengthWritable d = true ->
  arrays_ok arrValid 8 (defined P desc w) /\ exists d', arrays (defined P desc w) !! theArray = Some d' /\ m_isArrayObjectLengthWritable d' = true.
Proof.
  intros Hw Ha HP Hwr. destruct (array_define_run arrValid arrValidP nothingOutside arrNameOf arrNameOfKey lengthName arrNameOfOther
    arrInteger true 8 noNumber w d theArray P desc Hw Ha HP) as (w' & d' & E & Hs & Ha' & _ & Hwr' & _).
  { intros _. unfold blocked. rewrite Hwr. destruct (keyIndex _); [apply andb_false_r|reflexivity]. }
  unfold defined. rewrite E. cbn. split; [exact (step_ok _ _ _ _ _ Hs)|]. exists d'. split; [exact Ha'|congruence].
Qed.

Lemma twoElements_ok : arrays_ok arrValid 8 twoElements.
Proof.
  destruct (defined_ok emptyArrayWorld (emptyArray true) (setUIntValue 0) (element 1) emptyArrayWorld_ok) as (H1 & d & Ha & Hw);
    [reflexivity|apply element_definable; [lia|unfold in_int32; lia]|reflexivity|].
  apply (defined_ok _ d (setUIntValue 2) (element 2) H1 Ha); [apply element_definable; [lia|unfold in_int32; lia]|exact Hw].
Qed.

Definition arrayAt (w : ArrayWorld) : Array := default (emptyArray false) (arrays w !! theArray).

Example twoElements_view :
  (map (fun i => viewAt twoElements theArray (KString (decimal i))) [0; 1; 2; 3], m_arrayLength (arrayAt twoElements)) =
  ([Some (DataProperty (Value_int 1) true true true); None; Some (DataProperty (Value_int 2) true true true); None], 3).
Proof. vm_compute. reflexivity. Qed.

(** * What arrays guarantee

    The theorems on the methods of arrays, each with a small context in which it is
    used, and what the code does where it leaves the language. *)

(** ** The buffer *)




(** ** The methods *)

Section Methods.
Context {heap : Heap} (valid validP : Z -> Prop) (out : Outside) (nameOf : Z -> Z) (nameOfKey : OwnKey -> Z).
Context {Hnames : ObjectNames heap valid validP nameOf nameOfKey}.
Context (lengthString : Z) (nameOfOther : Z -> Z) (integerOfName : Z -> Z) (toNumberSlowCase : Z -> AM Z).
Context (use32BitIn64Bit : bool) (limit : Z).
Context {Harray : ArrayNames heap valid validP nameOf lengthString nameOfOther integerOfName limit}.

Abbreviation keyOf P := (propertyKey (nameOf P)).
Abbreviation arrays_ok := (arrays_ok valid limit).
Abbreviation array_step := (array_step valid limit).
Abbreviation array_define a P desc :=
  (array_defineOwnProperty out nameOf lengthString nameOfOther integerOfName toNumberSlowCase use32BitIn64Bit a P desc).

(** C31: the definition of an element, or of another property that is not the length, on
    an array in fast mode or not is the definition of the language: an index past a
    length that is read-only is refused, ValidateAndApplyPropertyDescriptor decides the
    rest on the property as a script sees it, and the length becomes the index plus one
    when that is more.  It always returns; what the other objects and arrays show stays
    as it was even where the definition takes this array, or every array, out of fast
    mode.  One case is excluded by the third hypothesis: an array that is still in fast
    mode while its length is read-only, and an index past the length, where the code
    makes the length grow (see [read_only_length_grows]). *)
Theorem define_element_refines w d a P desc
    (current := viewAt w a (keyOf P))
    (refused := blocked d (keyOf P))
    (p := if refused then None else ValidateAndApply (extensibleOf (base w) a) current (descriptorOf desc))
    (n := lengthAfter d (keyOf P) (bool_decide (is_Some p))) :
  arrays_ok w -> arrays w !! a = Some d -> (isFastModeArray d = true -> refused = false) ->
  validP P -> keyOf P <> lengthKey -> (forall i, keyIndex (keyOf P) = Some i -> i < limit) -> wf_descriptor desc ->
  (isValuePresent desc = true -> isEmpty (m_value desc) = false) ->
  exists w', array_define a P desc w = (Ret (bool_decide (is_Some p)), w') /\ array_step w w' a /\
    forall k, viewAt w' a k =
      if decide (k = lengthKey) then Some (DataProperty (Value_unsigned n) (m_isArrayObjectLengthWritable d) false false)
      else if decide (k = keyOf P) then match p with Some q => Some q | None => current end
      else viewAt w a k.
Proof.
  intros Hw Ha Hblock HP Hne Hlim Hwf Hv.
  destruct (array_define_run valid validP out nameOf nameOfKey lengthString nameOfOther integerOfName use32BitIn64Bit limit
    toNumberSlowCase w d a P desc Hw Ha ltac:(constructor; assumption) Hblock) as (w' & d' & E & Hs & _ & _ & _ & Hview).
  exists w'. split; [exact E|]. split; [exact Hs|]. intros k. rewrite Hview. unfold definedView.
  case_decide; [reflexivity|]. case_decide as Ek; [subst k|]; reflexivity.
Qed.

(** C32: the definition of the length of an array is ArraySetLength of the language.  A
    descriptor whose attributes are not compatible with those of the length, or that
    changes a length that is read-only, is refused and changes nothing.  Otherwise the
    elements past the new length are deleted from the end: when all of them can be, the
    length is the new one and the answer true; else the answer is false, the length is
    one more than the index of the last element that can not be deleted, and that
    element stays.  Elements below the length, other properties, other objects and
    arrays stay as they were.  An array in fast mode has to be in a build with
    [ESCARGOT_USE_32BIT_IN_64BIT], or to grow (the other builds can overflow the storage).
    Lengths go up to the limit below which the names of indices are valid, and a value
    that is given converts to one without running scripts. *)
Theorem define_length_refines w d a P desc newLen (target := targetLength d desc newLen) :
  arrays_ok w -> arrays w !! a = Some d -> validP P -> keyOf P = lengthKey -> wf_descriptor desc ->
  (if isValuePresent desc then lengthOfValue toNumberSlowCase (m_value desc) w = (Ret newLen, w) /\ 0 <= newLen <= limit else newLen = 0) ->
  (isFastModeArray d = true -> use32BitIn64Bit = true \/ m_arrayLength d <= newLen) ->
  if acceptsLength d desc newLen
  then exists ok n w', array_define a P desc w = (Ret ok, w') /\ array_step w w' a /\
    (forall k, viewAt w' a k =
      if decide (k = lengthKey)
      then Some (DataProperty (Value_unsigned n) (m_isArrayObjectLengthWritable (withWritable d desc)) false false)
      else match keyIndex k with Some i => if i <? n then viewAt w a k else None | None => viewAt w a k end) /\
    (forall k i, keyIndex k = Some i -> n <= i -> mayDelete (viewAt w a k) = true) /\
    if ok then n = target
    else target < n /\ exists k, keyIndex k = Some (n - 1) /\ mayDelete (viewAt w a k) = false
  else array_define a P desc w = (Ret false, w).
Proof.
  intros Hw Ha HP HL Hwf Hval Hsafe.
  assert (E : array_define a P desc w = defineLength out nameOf lengthString nameOfOther integerOfName toNumberSlowCase use32BitIn64Bit a desc w).
  { unfold array_defineOwnProperty. rewrite (name_isLength (ArrayNames := Harray) P HP), bool_decide_eq_true_2 by exact HL. reflexivity. }
  rewrite E. pose proof (defineLength_run valid validP out nameOf nameOfKey lengthString nameOfOther integerOfName toNumberSlowCase
    use32BitIn64Bit limit w a d desc newLen Hw Ha Hwf Hval Hsafe) as H.
  destruct (acceptsLength d desc newLen); [|exact H]. destruct H as (ok & n & w' & Er & [H1 H2 H3 H4]).
  exists ok, n, w'. split_and!; assumption.
Qed.

(** [ArrayObject::deleteOwnProperty] deletes what can be deleted, in the buffer or
    among the properties, and nothing else: it answers whether the property may go or
    is not there, the array keeps its length and its mode, and all other properties,
    objects and arrays stay as they were. *)
Theorem delete_element w d a P (ok := mayDelete (viewAt w a (keyOf P))) : arrays_ok w -> arrays w !! a = Some d -> validP P ->
  exists w', array_deleteOwnProperty nameOf lengthString a P w = (Ret ok, w') /\ array_step w w' a /\ fastAt w' a = fastAt w a /\
    forall k, viewAt w' a k = if ok && bool_decide (k = keyOf P) then None else viewAt w a k.
Proof.
  intros Hw Ha HP. destruct (array_delete_run valid validP out nameOf nameOfKey lengthString nameOfOther integerOfName limit w d a P Hw Ha HP)
    as (w' & d' & E & Hs & Ha' & _ & _ & Hf & _ & Hv).
  exists w'. split; [exact E|]. split; [exact Hs|]. split; [unfold fastAt; rewrite Ha', Ha; exact Hf|exact Hv].
Qed.

(** C33: fast mode cannot be seen.  [convertIntoNonFastMode] of one array, and
    [somePrototypeObjectDefineIndexedProperty], which takes every array out of fast
    mode, return, and every property of every object and array, the lengths and their
    attributes, extensibility and prototypes are what they were; after the second no
    array is in fast mode. *)
Theorem fast_mode_is_unseen w : arrays_ok w ->
  (forall raise a, is_Some (arrays w !! a) ->
     exists w', convertIntoNonFastMode out nameOf lengthString nameOfOther integerOfName raise a w = (Ret tt, w') /\
       unseen valid limit w w' /\ fastAt w' a = false) /\
  exists w', somePrototypeObjectDefineIndexedProperty out nameOf lengthString nameOfOther integerOfName w = (Ret tt, w') /\
    unseen valid limit w w' /\ (forall a, fastAt w' a = false) /\
    m_didSomePrototypeObjectDefineIndexedProperty (base w') = true.
Proof.
  intros Hw. split; [intros raise a [d Ha]|exact (raise_run valid validP out nameOf nameOfKey lengthString nameOfOther integerOfName limit w Hw)].
  destruct (convert_unseen valid validP out nameOf nameOfKey lengthString nameOfOther integerOfName limit raise w a d Hw Ha)
    as (w' & E & Hu & Ha' & _).
  exists w'. split; [exact E|]. split; [exact Hu|]. unfold fastAt. rewrite Ha'. reflexivity.
Qed.
End Methods.

(** ** The example *)

Lemma twoElements_array : arrays twoElements !! theArray = Some (arrayAt twoElements).
Proof. vm_compute. reflexivity. Qed.

(** The index 5 of an array with three slots. *)
Lemma define_element_refines_witness : let w' := snd (arrDefine theArray (setUIntValue 5) (element 3) twoElements) in
  viewAt w' theArray (KString (decimal 5)) = Some (DataProperty (Value_int 3) true true true) /\
  viewAt w' theArray (KString (decimal 2)) = Some (DataProperty (Value_int 2) true true true) /\
  viewAt w' theArray lengthKey = Some (DataProperty (Value_unsigned 6) true false false).
Proof.
  cbn zeta. destruct (element_definable 5 3 ltac:(lia) ltac:(unfold in_int32; lia)) as [HP Hne Hlim Hwf Hv].
  destruct (define_element_refines arrValid arrValidP nothingOutside arrNameOf arrNameOfKey lengthName arrNameOfOther arrInteger
    noNumber true 8 twoElements (arrayAt twoElements) theArray (setUIntValue 5) (element 3) twoElements_ok twoElements_array)
    as (w' & -> & _ & Hview); [intros _; vm_compute; reflexivity|exact HP|exact Hne|exact Hlim|exact Hwf|exact Hv|].
  cbn [snd]. rewrite !Hview. vm_compute. split; [reflexivity|]. split; reflexivity.
Defined.

(** The length 1, which cuts off the last element, and is read-only. *)
Definition lengthOne : ObjectPropertyDescriptor := dataDescriptor (Value_int 1) NonWritablePresent.

Lemma define_length_refines_witness : let r := arrDefine theArray (nameOfAtomic lengthName) lengthOne twoElements in
  viewAt (snd r) theArray (KString (decimal 0)) = Some (DataProperty (Value_int 1) true true true) /\
  viewAt (snd r) theArray (KString (decimal 2)) = None /\
  viewAt (snd r) theArray lengthKey = Some (DataProperty (Value_unsigned 1) false false false).
Proof.
  cbn zeta.
  pose proof (define_length_refines arrValid arrValidP nothingOutside arrNameOf arrNameOfKey lengthName arrNameOfOther arrInteger
    noNumber true 8 twoElements (arrayAt twoElements) theArray (nameOfAtomic lengthName) lengthOne 1 twoElements_ok twoElements_array
    length_valid ltac:(vm_compute; reflexivity) ltac:(split; [reflexivity|discriminate])
    ltac:(split; [vm_compute; reflexivity|lia]) ltac:(intros _; left; reflexivity)) as H.
  change (acceptsLength (arrayAt twoElements) lengthOne 1) with true in H. cbv iota in H.
  destruct H as (ok & n & w' & -> & _ & Hview & Hmay & Hn).
  destruct ok; [|exfalso].
  - cbn [snd]. change (targetLength (arrayAt twoElements) lengthOne 1) with 1 in Hn. subst n. rewrite !Hview. vm_compute.
    split; [reflexivity|]. split; reflexivity.
  - destruct Hn as [Hlt (k & Hk & Hd)]. apply keyIndex_spec in Hk as [-> Hr].
    rewrite (fast_deletable arrValid 8 twoElements theArray (arrayAt twoElements) _ (n - 1) twoElements_ok twoElements_array) in Hd;
      [discriminate|vm_compute; reflexivity|apply keyIndex_decimal; exact Hr].
Defined.

Lemma delete_element_witness : let r := arrDelete theArray (setUIntValue 2) twoElements in
  fst r = Ret true /\ viewAt (snd r) theArray (KString (decimal 2)) = None /\
  viewAt (snd r) theArray (KString (decimal 0)) = Some (DataProperty (Value_int 1) true true true).
Proof.
  cbn zeta.
  destruct (delete_element arrValid arrValidP nothingOutside arrNameOf arrNameOfKey lengthName arrNameOfOther arrInteger 8 twoElements
    (arrayAt twoElements) theArray (setUIntValue 2) twoElements_ok twoElements_array (index_name_valid 2 ltac:(lia)))
    as (w' & -> & _ & _ & Hview).
  cbn [fst snd]. rewrite !Hview. vm_compute. split; [reflexivity|]. split; reflexivity.
Defined.

Lemma fast_mode_is_unseen_witness : exists w',
  convert nothingOutside arrNameOf lengthName arrNameOfOther arrInteger theArray twoElements = (Ret tt, w') /\
  fastAt w' theArray = false /\ fastAt twoElements theArray = true /\
  viewAt w' theArray (KString (decimal 2)) = Some (DataProperty (Value_int 2) true true true).
Proof.
  destruct (fast_mode_is_unseen arrValid arrValidP nothingOutside arrNameOf arrNameOfKey lengthName arrNameOfOther arrInteger 8
    twoElements twoElements_ok) as [H _].
  destruct (H (somePrototypeObjectDefineIndexedProperty nothingOutside arrNameOf lengthName arrNameOfOther arrInteger) theArray
    ltac:(eexists; exact twoElements_array)) as (w' & E & Hu & Hf).
  exists w'. split; [exact E|]. split; [exact Hf|]. split; [vm_compute; reflexivity|].
  rewrite (unseen_views _ _ _ _ Hu). vm_compute. reflexivity.
Defined.

(** ** What goes wrong with a length that is read-only *)

(** The length becomes read-only and the array stays in fast mode; then the assignment
    to an index past the length, and the definition of it, set the length first. *)
Definition readOnlyLength : ArrayWorld := defined (nameOfAtomic lengthName) (dataDescriptor (Value_int 3) NonWritablePresent) twoElements.

Lemma read_only_length_grows :
  let r := arrDefine theArray (setUIntValue 5) (element 3) readOnlyLength in
  let s := setIndexedProperty nothingOutside arrNameOf lengthName arrNameOfOther (fun _ => 0) arrInteger noNumber true theArray
             (Value_int 5) (Value_int 3) theArray readOnlyLength in
  viewAt readOnlyLength theArray lengthKey = Some (DataProperty (Value_unsigned 3) false false false) /\
  (fst r, viewAt (snd r) theArray lengthKey) = (Ret true, Some (DataProperty (Value_unsigned 6) false false false)) /\
  (fst s, viewAt (snd s) theArray lengthKey, viewAt (snd s) theArray (KString (decimal 5))) =
    (Ret true, Some (DataProperty (Value_unsigned 6) false false false), Some (DataProperty (Value_int 3) true true true)).
Proof. vm_compute. split_and!; reflexivity. Qed.
