(* ===== verification/Promise.v ===== *)
(** * Promises and jobs ([runtime/PromiseObject.cpp], [Job.cpp], [JobQueue.cpp], [builtins/BuiltinPromise.cpp])

    A heap of cells holds the promises, the native functions with their internal
    slots, and what those share (flags, counters, vectors).  Natives call scripts at
    many places, and scripts call natives: a script is a transition system that makes
    requests (calls, constructions, property reads), and one interpreter answers
    requests of natives and of scripts alike, by fuel. *)

From S2P Require Import Prelude.
Local Open Scope esc_scope.

(** ** Values and cells *)

(** The functions of the Promise constructor and of its prototype. *)
Inductive BuiltinFunction : Type :=
| builtinPromiseConstructor_ | builtinPromiseAll_ | builtinPromiseRace_ | builtinPromiseReject_
| builtinPromiseResolve_ | builtinPromiseCatch_ | builtinPromiseFinally_ | builtinPromiseThen_
| builtinPromiseAllSettled_ | builtinPromiseAny_.

(** Numbers, strings, symbols and bigints are only told apart: [Primitive]. *)
Inductive Value : Type :=
| Undefined
| Null
| Boolean (b : bool)
| Primitive (z : Z)
| Obj (a : nat)
| Builtin (b : BuiltinFunction).

#[export] Instance builtinFunction_eq_dec : EqDecision BuiltinFunction.
Proof. solve_decision. Defined.
#[export] Instance value_eq_dec : EqDecision Value.
Proof. solve_decision. Defined.

Definition isObject (v : Value) : bool := match v with Obj _ | Builtin _ => true | _ => false end.
Definition isUndefined (v : Value) : bool := match v with Undefined => true | _ => false end.
Definition isUndefinedOrNull (v : Value) : bool := match v with Undefined | Null => true | _ => false end.

Inductive PromiseState : Type := Pending | FulFilled | Rejected.

#[export] Instance promiseState_eq_dec : EqDecision PromiseState.
Proof. solve_decision. Defined.

(** [PromiseReaction::Capability]; a capability of null pointers is [None] where it is used. *)
Record Capability := {
  m_promise : Value;
  m_resolveFunction : Value;
  m_rejectFunction : Value
}.

(** [m_handler]: the pointers 1 and 2 stand for the identity and the thrower. *)
Inductive Handler : Type := Identity | Thrower | Callable (f : Value).

Record PromiseReaction := {
  m_capability : option Capability;
  m_handler : Handler
}.

(** The functions that a combinator makes for its elements. *)
Inductive ElementKind : Type := AllResolve | AllSettledResolve | AllSettledReject | AnyReject.

Inductive ErrorCode : Type := TypeError | AggregateError.

Inductive Cell : Type :=
| PromiseObject (m_state : PromiseState) (m_promiseResult : Value) (m_fulfillReactions m_rejectReactions : list PromiseReaction)
| AlreadyResolved (value : bool)
| ResolveFunction (promise alreadyResolved : nat)
| RejectFunction (promise alreadyResolved : nat)
| CapabilityObject (resolve reject : Value)
| ExecutorFunction (capability : nat)
| AlreadyCalled (value : bool)
| RemainingElements (value : nat)
| ValueVector (values : list Value)
| ElementFunction (kind : ElementKind) (alreadyCalled index values : nat) (resolve reject : Value) (remainingElements : nat)
| ThenFinally (constructor onFinally : Value)
| CatchFinally (constructor onFinally : Value)
| ValueThunk (value : Value)
| ValueThrower (reason : Value)
| SettledObject (fulfilled : bool) (value : Value)
| ArrayObject (elements : list Value)
| ErrorObject (code : ErrorCode) (errors : option Value)
| IteratorRecord (m_iterator m_nextMethod : Value) (m_done : bool)
| UserObject (callable constructor : bool).

Inductive Job : Type :=
| PromiseReactionJob (m_reaction : PromiseReaction) (m_argument : Value)
| PromiseResolveThenableJob (m_promise : nat) (m_thenable m_then : Value).

(** What the callback for rejections is told. *)
Inductive PromiseRejectEvent : Type := PromiseRejectWithNoHandler | PromiseHandlerAddedAfterReject.

(** ** Scripts *)

(** The property names that natives read. *)
Inductive Name : Type :=
| name_then | name_constructor | name_species | name_resolve | name_prototype
| name_iterator | name_next | name_done | name_value | name_return.

Inductive Request : Type :=
| Call (callee thisValue : Value) (argv : list Value)
| Construct (constructor : Value) (argv : list Value) (newTarget : Value)
| Get (object : Value) (name : Name).

(** One action of a running script; a request is answered by a result or an exception. *)
Inductive Action (Local : Type) : Type :=
| Return (v : Value)
| ThrowValue (v : Value)
| Ask (r : Request) (k : Value + Value -> Local)
| NewObject (callable constructor : bool) (k : Value -> Local).
Arguments Return {Local} v.
Arguments ThrowValue {Local} v.
Arguments Ask {Local} r k.
Arguments NewObject {Local} callable constructor k.

(** A program: what runs on a request to an object of the script, and on every
    property read, with a state of its own that all of its activations share. *)
Class Program := {
  User : Type;
  Local : Type;
  onRequest : Request -> Local;
  turn : Local -> User -> User * Action Local;
  truthy : Z -> bool
}.

Section Promises.
Context {Prog : Program}.

Record World := {
  heap : list Cell;
  m_jobs : list Job;
  rejectEvents : list (nat * PromiseRejectEvent);
  user : User
}.

Definition setHeap (h : list Cell) (w : World) : World :=
  {| heap := h; m_jobs := m_jobs w; rejectEvents := rejectEvents w; user := user w |}.
Definition setJobs (l : list Job) (w : World) : World :=
  {| heap := heap w; m_jobs := l; rejectEvents := rejectEvents w; user := user w |}.
Definition setRejectEvents (l : list (nat * PromiseRejectEvent)) (w : World) : World :=
  {| heap := heap w; m_jobs := m_jobs w; rejectEvents := l; user := user w |}.
Definition setUser (u : User) (w : World) : World :=
  {| heap := heap w; m_jobs := m_jobs w; rejectEvents := rejectEvents w; user := u |}.

(** A thrown value, or what must not happen: an assertion, a cast or an index that is
    wrong, a counter below zero. *)
Inductive Thrown : Type := Exception (v : Value) | Crash.

Definition PM (A : Type) : Type := M World Thrown A.

Definition newCell (c : Cell) : PM nat := fun w => (Ret (length (heap w)), setHeap (heap w ++ [c]) w).
Definition writeCell (a : nat) (c : Cell) : PM unit := modify (fun w => setHeap (<[a := c]> (heap w)) w).
Definition readCell (a : nat) : PM Cell := fun w =>
  match heap w !! a with Some c => (Ret c, w) | None => (Throw Crash, w) end.

(** [state.throwException]. *)
Definition throwException {A} (v : Value) : PM A := throw (Exception v).

(** [ErrorObject::throwBuiltinError] with a TypeError. *)
Definition throwTypeError {A} : PM A :=
  let! e := newCell (ErrorObject TypeError None) in throwException (Obj e).

(** [SandBox::run], and the handlers of C++ for [const Value&]. *)
Definition attempt {A} (m : PM A) : PM (A + Value) := fun w =>
  match m w with
  | (Ret a, w') => (Ret (inl a), w')
  | (Throw (Exception v), w') => (Ret (inr v), w')
  | (Throw Crash, w') => (Throw Crash, w')
  | (Fuel, w') => (Fuel, w')
  end.

Definition isCallable (h : list Cell) (v : Value) : bool :=
  match v with
  | Builtin _ => true
  | Obj a =>
    match h !! a with
    | Some (ResolveFunction _ _ | RejectFunction _ _ | ExecutorFunction _ | ElementFunction _ _ _ _ _ _ _
           | ThenFinally _ _ | CatchFinally _ _ | ValueThunk _ | ValueThrower _) => true
    | Some (UserObject callable _) => callable
    | _ => false
    end
  | _ => false
  end.

Definition isConstructor (h : list Cell) (v : Value) : bool :=
  match v with
  | Builtin builtinPromiseConstructor_ => true
  | Obj a => match h !! a with Some (UserObject _ c) => c | _ => false end
  | _ => false
  end.

(** [isObject() && asObject()->isPromiseObject()], and the promise. *)
Definition asPromiseObject (h : list Cell) (v : Value) : option nat :=
  match v with
  | Obj a => match h !! a with Some (PromiseObject _ _ _ _) => Some a | _ => None end
  | _ => None
  end.

Definition toBoolean (v : Value) : bool :=
  match v with
  | Undefined | Null => false
  | Boolean b => b
  | Primitive z => truthy z
  | Obj _ | Builtin _ => true
  end.

(** [Value::toObject]; the wrapper of a primitive is a new object. *)
Definition toObject (v : Value) : PM Value :=
  match v with
  | Undefined | Null => throwTypeError
  | Boolean _ | Primitive _ => let! a := newCell (UserObject false false) in ret (Obj a)
  | Obj _ | Builtin _ => ret v
  end.

(** [argv[i]]: a call fills the arguments that are declared up with undefined. *)
Definition arg (i : nat) (argv : list Value) : Value := nth i argv Undefined.

(** ** Settling ([PromiseObject.cpp]) *)

Definition enqueueJob (j : Job) : PM unit := modify (fun w => setJobs (m_jobs w ++ [j]) w).

Definition triggerPromiseRejectCallback (p : nat) (e : PromiseRejectEvent) : PM unit :=
  modify (fun w => setRejectEvents (rejectEvents w ++ [(p, e)]) w).

Fixpoint triggerPromiseReactions (reactions : list PromiseReaction) (result : Value) : PM unit :=
  match reactions with
  | [] => ret tt
  | r :: reactions =>
    do! enqueueJob (PromiseReactionJob r result) in triggerPromiseReactions reactions result
  end.

Definition fulfill (p : nat) (value : Value) : PM unit :=
  let! c := readCell p in
  match c with
  | PromiseObject _ _ fulfillReactions rejectReactions =>
    do! writeCell p (PromiseObject FulFilled value fulfillReactions rejectReactions) in
    do! triggerPromiseReactions fulfillReactions value in
    writeCell p (PromiseObject FulFilled value [] [])
  | _ => throw Crash
  end.

Definition reject (p : nat) (reason : Value) : PM unit :=
  let! c := readCell p in
  match c with
  | PromiseObject _ _ fulfillReactions rejectReactions =>
    do! writeCell p (PromiseObject Rejected reason fulfillReactions rejectReactions) in
    do! (if (0 <? length rejectReactions)%nat then triggerPromiseReactions rejectReactions reason
         else triggerPromiseRejectCallback p PromiseRejectWithNoHandler) in
    writeCell p (PromiseObject Rejected reason [] [])
  | _ => throw Crash
  end.

Definition newPromiseObject : PM nat := newCell (PromiseObject Pending Undefined [] []).

Definition createResolvingFunctions (p : nat) : PM Capability :=
  let! alreadyResolved := newCell (AlreadyResolved false) in
  let! resolve := newCell (ResolveFunction p alreadyResolved) in
  let! reject := newCell (RejectFunction p alreadyResolved) in
  ret {| m_promise := Obj p; m_resolveFunction := Obj resolve; m_rejectFunction := Obj reject |}.

(** [PromiseObject::then] with its four arguments. *)
Definition performThen (p : nat) (onFulfilledValue onRejectedValue : Value) (resultCapability : option Capability)
    : PM (option Value) :=
  let! h := gets heap in
  let onFulfilled := if isCallable h onFulfilledValue then Callable onFulfilledValue else Identity in
  let onRejected := if isCallable h onRejectedValue then Callable onRejectedValue else Thrower in
  let fulfillReaction := {| m_capability := resultCapability; m_handler := onFulfilled |} in
  let rejectReaction := {| m_capability := resultCapability; m_handler := onRejected |} in
  let! c := readCell p in
  do! match c with
      | PromiseObject Pending v fulfillReactions rejectReactions =>
        writeCell p (PromiseObject Pending v (fulfillReactions ++ [fulfillReaction]) (rejectReactions ++ [rejectReaction]))
      | PromiseObject FulFilled v _ _ => enqueueJob (PromiseReactionJob fulfillReaction v)
      | PromiseObject Rejected v _ _ =>
        do! enqueueJob (PromiseReactionJob rejectReaction v) in
        triggerPromiseRejectCallback p PromiseHandlerAddedAfterReject
      | _ => throw Crash
      end in
  ret (option_map m_promise resultCapability).

Section Natives.
(** The answer to a request. *)
Context (ask : Request -> PM Value).

(** [NewPromiseCapability]. *)
Definition newPromiseCapability (constructor : Value) : PM Capability :=
  if decide (constructor = Builtin builtinPromiseConstructor_) then
    let! promise := newPromiseObject in createResolvingFunctions promise
  else
    let! h := gets heap in
    if negb (isConstructor h constructor) then throwTypeError
    else
      let! capability := newCell (CapabilityObject Undefined Undefined) in
      let! executor := newCell (ExecutorFunction capability) in
      let! constructed := ask (Construct constructor [Obj executor] constructor) in
      let! promise := toObject constructed in
      let! c := readCell capability in
      match c with
      | CapabilityObject resolveFunction rejectFunction =>
        let! h := gets heap in
        if negb (isCallable h resolveFunction) || negb (isCallable h rejectFunction) then throwTypeError
        else ret {| m_promise := promise; m_resolveFunction := resolveFunction; m_rejectFunction := rejectFunction |}
      | _ => throw Crash
      end.

(** [Object::speciesConstructor]. *)
Definition speciesConstructor (object defaultConstructor : Value) : PM Value :=
  let! C := ask (Get object name_constructor) in
  if isUndefined C then ret defaultConstructor
  else if negb (isObject C) then throwTypeError
  else
    let! S := ask (Get C name_species) in
    if isUndefinedOrNull S then ret defaultConstructor
    else
      let! h := gets heap in
      if isConstructor h S then ret S else throwTypeError.

Definition promiseResolve (C x : Value) : PM Value :=
  let! h := gets heap in
  let! same :=
    match asPromiseObject h x with
    | Some _ => let! constructor := ask (Get x name_constructor) in ret (bool_decide (constructor = C))
    | None => ret false
    end in
  if same : bool then ret x
  else
    let! capability := newPromiseCapability C in
    do! ask (Call (m_resolveFunction capability) Undefined [x]) in
    ret (m_promise capability).

(** ** Native functions with slots *)

Definition getCapabilitiesExecutorFunction (capability : nat) (argv : list Value) : PM Value :=
  let! c := readCell capability in
  match c with
  | CapabilityObject resolve reject =>
    if negb (isUndefined resolve) || negb (isUndefined reject) then throwTypeError
    else
      do! writeCell capability (CapabilityObject (arg 0 argv) (arg 1 argv)) in
      ret Undefined
  | _ => throw Crash
  end.

(** [alreadyResolved.value]. *)
Definition readAlreadyResolved (alreadyResolved : nat) : PM bool :=
  let! c := readCell alreadyResolved in
  match c with AlreadyResolved b => ret b | _ => throw Crash end.

Definition promiseResolveFunctions (promise alreadyResolved : nat) (argv : list Value) : PM Value :=
  let! resolved := readAlreadyResolved alreadyResolved in
  if resolved : bool then ret Undefined
  else
    do! writeCell alreadyResolved (AlreadyResolved true) in
    let resolutionValue := arg 0 argv in
    if bool_decide (resolutionValue = Obj promise) then
      let! error := newCell (ErrorObject TypeError None) in
      do! reject promise (Obj error) in ret Undefined
    else if negb (isObject resolutionValue) then
      do! fulfill promise resolutionValue in ret Undefined
    else
      let! res := attempt (ask (Get resolutionValue name_then)) in
      match res with
      | inr error => do! reject promise error in ret Undefined
      | inl then_ =>
        let! h := gets heap in
        do! (if isCallable h then_ then enqueueJob (PromiseResolveThenableJob promise resolutionValue then_)
             else fulfill promise resolutionValue) in
        ret Undefined
      end.

Definition promiseRejectFunctions (promise alreadyResolved : nat) (argv : list Value) : PM Value :=
  let! resolved := readAlreadyResolved alreadyResolved in
  if resolved : bool then ret Undefined
  else
    do! writeCell alreadyResolved (AlreadyResolved true) in
    do! reject promise (arg 0 argv) in
    ret Undefined.

(** The value that a cell of a list of values holds. *)
Definition readValues (values : nat) : PM (list Value) :=
  let! c := readCell values in
  match c with ValueVector l => ret l | _ => throw Crash end.

(** [values->at(index) = x]. *)
Definition setValue (values index : nat) (x : Value) : PM unit :=
  let! l := readValues values in
  if (index <? length l)%nat then writeCell values (ValueVector (<[index := x]> l)) else throw Crash.

Definition readRemaining (remainingElements : nat) : PM nat :=
  let! c := readCell remainingElements in
  match c with RemainingElements n => ret n | _ => throw Crash end.

(** [*remainingElementsCount = *remainingElementsCount - 1], and the new count. *)
Definition decrementRemaining (remainingElements : nat) : PM nat :=
  let! n := readRemaining remainingElements in
  match n with
  | O => throw Crash
  | S n => do! writeCell remainingElements (RemainingElements n) in ret n
  end.

Definition incrementRemaining (remainingElements : nat) : PM unit :=
  let! n := readRemaining remainingElements in
  writeCell remainingElements (RemainingElements (S n)).

Definition createArrayFromList (l : list Value) : PM Value :=
  let! a := newCell (ArrayObject l) in ret (Obj a).

(** The test and set of [alreadyCalled]. *)
Definition readAlreadyCalled (alreadyCalled : nat) : PM bool :=
  let! c := readCell alreadyCalled in
  match c with AlreadyCalled b => ret b | _ => throw Crash end.

(** [ErrorObject::createBuiltinError] of an AggregateError, with its property errors. *)
Definition newAggregateError (values : nat) : PM Value :=
  let! l := readValues values in
  let! errors := createArrayFromList l in
  let! error := newCell (ErrorObject AggregateError (Some errors)) in
  ret (Obj error).

(** What an element writes into the vector. *)
Definition elementValue (kind : ElementKind) (x : Value) : PM Value :=
  match kind with
  | AllResolve | AnyReject => ret x
  | AllSettledResolve => let! obj := newCell (SettledObject true x) in ret (Obj obj)
  | AllSettledReject => let! obj := newCell (SettledObject false x) in ret (Obj obj)
  end.

(** The call when the last element is there. *)
Definition elementsComplete (kind : ElementKind) (values : nat) (resolve reject : Value) : PM Value :=
  match kind with
  | AnyReject =>
    let! error := newAggregateError values in
    ask (Call reject Undefined [error])
  | _ =>
    let! l := readValues values in
    let! valuesArray := createArrayFromList l in
    ask (Call resolve Undefined [valuesArray])
  end.

(** [promiseAllResolveElementFunction], [promiseAllSettledResolveElementFunction],
    [promiseAllSettledRejectElementFunction], [promiseAnyRejectElementFunction]. *)
Definition promiseElementFunction (kind : ElementKind) (alreadyCalled index values : nat) (resolve reject : Value)
    (remainingElements : nat) (argv : list Value) : PM Value :=
  let! called := readAlreadyCalled alreadyCalled in
  if called : bool then ret Undefined
  else
    do! writeCell alreadyCalled (AlreadyCalled true) in
    let! x := elementValue kind (arg 0 argv) in
    do! setValue values index x in
    let! remaining := decrementRemaining remainingElements in
    if (remaining =? 0)%nat then elementsComplete kind values resolve reject
    else ret Undefined.

(** [ASSERT]. *)
Definition assert (b : bool) : PM unit := if b then ret tt else throw Crash.

(** [promiseThenFinally] and [promiseCatchFinally]: [thunk] is the function that they
    hand to then. *)
Definition promiseFinallyFunction (constructor onFinally : Value) (thunk : Value -> Cell) (argv : list Value) : PM Value :=
  let! h := gets heap in
  do! assert (isCallable h onFinally) in
  let! result := ask (Call onFinally Undefined []) in
  let! h := gets heap in
  do! assert (isConstructor h constructor) in
  let! promise := promiseResolve constructor result in
  let! valueThunk := newCell (thunk (arg 0 argv)) in
  let! then_ := ask (Get promise name_then) in
  ask (Call then_ promise [Obj valueThunk]).

(** ** Iterators ([IteratorObject.cpp]) *)

Definition getMethod (O : Value) (name : Name) : PM (option Value) :=
  if isUndefinedOrNull O then throwTypeError
  else
    let! func := ask (Get O name) in
    if isUndefinedOrNull func then ret None
    else
      let! h := gets heap in
      if negb (isCallable h func) then throwTypeError else ret (Some func).

(** [Value(Optional)]: nothing is undefined. *)
Definition fromOption (v : option Value) : Value := match v with Some v => v | None => Undefined end.

Definition getIterator (obj : Value) : PM nat :=
  let! method := getMethod obj name_iterator in
  let! iterator := ask (Call (fromOption method) obj []) in
  if negb (isObject iterator) then throwTypeError
  else
    let! nextMethod := ask (Get iterator name_next) in
    newCell (IteratorRecord iterator nextMethod false).

Definition readIteratorRecord (record : nat) : PM (Value * Value * bool) :=
  let! c := readCell record in
  match c with IteratorRecord iterator nextMethod done => ret (iterator, nextMethod, done) | _ => throw Crash end.

(** [iteratorRecord->m_done = true]. *)
Definition setDone (record : nat) : PM unit :=
  let! r := readIteratorRecord record in
  writeCell record (IteratorRecord r.1.1 r.1.2 true).

Definition iteratorNext (record : nat) : PM Value :=
  let! r := readIteratorRecord record in
  let! result := ask (Call r.1.2 r.1.1 []) in
  if negb (isObject result) then throwTypeError else ret result.

Definition iteratorComplete (iterResult : Value) : PM bool :=
  let! result := ask (Get iterResult name_done) in ret (toBoolean result).

Definition iteratorValue (iterResult : Value) : PM Value := ask (Get iterResult name_value).

Definition iteratorStep (record : nat) : PM (option Value) :=
  let! result := iteratorNext record in
  let! done := iteratorComplete result in
  ret (if done : bool then None else Some result).

(** [iteratorClose] with a completion that throws: it never returns. *)
Definition iteratorCloseThrowing {A} (record : nat) (completionValue : Value) : PM A :=
  let! r := readIteratorRecord record in
  let! returnFunction := getMethod r.1.1 name_return in
  match returnFunction with
  | None => throwException completionValue
  | Some returnFunction =>
    let! innerResult := attempt (ask (Call returnFunction r.1.1 [])) in
    throwException completionValue
  end.

(** ** The functions of the constructor ([BuiltinPromise.cpp]) *)

(** Every builtin that made a capability ends so when something throws. *)
Definition rejectCapability (capability : Capability) (exceptionValue : Value) : PM Value :=
  do! ask (Call (m_rejectFunction capability) Undefined [exceptionValue]) in
  ret (m_promise capability).

Definition builtinPromiseConstructor (argv : list Value) (newTarget : option Value) : PM Value :=
  match newTarget with
  | None => throwTypeError
  | Some newTarget =>
    let! h := gets heap in
    let executor := arg 0 argv in
    if negb (isCallable h executor) then throwTypeError
    else
      do! ask (Get newTarget name_prototype) in
      let! promise := newPromiseObject in
      let! capability := createResolvingFunctions promise in
      let! res := attempt (ask (Call executor Undefined [m_resolveFunction capability; m_rejectFunction capability])) in
      match res with
      | inr error => do! ask (Call (m_rejectFunction capability) Undefined [error]) in ret (Obj promise)
      | inl _ => ret (Obj promise)
      end
  end.

Definition getPromiseResolve (promiseConstructor : Value) : PM Value :=
  let! promiseResolve := ask (Get promiseConstructor name_resolve) in
  let! h := gets heap in
  if negb (isCallable h promiseResolve) then throwTypeError else ret promiseResolve.

(** The start of the four combinators: the capability, the method resolve of the
    constructor, the iterator; what throws after the capability rejects it. *)
Definition withIterator (C iterable : Value) (perform : Capability -> Value -> nat -> PM Value) : PM Value :=
  if negb (isObject C) then throwTypeError
  else
    let! promiseCapability := newPromiseCapability C in
    let! promiseResolve := attempt (getPromiseResolve C) in
    match promiseResolve with
    | inr thrownValue => rejectCapability promiseCapability thrownValue
    | inl promiseResolve =>
      let! iteratorRecord := attempt (getIterator iterable) in
      match iteratorRecord with
      | inr thrownValue => rejectCapability promiseCapability thrownValue
      | inl iteratorRecord => perform promiseCapability promiseResolve iteratorRecord
      end
    end.

(** The start of a turn of their loops: the next value, or nothing at the end; the
    record is done at the end, and when the iterator throws. *)
Definition nextElement (iteratorRecord : nat) : PM (option Value) :=
  let! next := attempt (iteratorStep iteratorRecord) in
  match next with
  | inr e => do! setDone iteratorRecord in throwException e
  | inl None => do! setDone iteratorRecord in ret None
  | inl (Some next) =>
    let! nextValue := attempt (iteratorValue next) in
    match nextValue with
    | inr e => do! setDone iteratorRecord in throwException e
    | inl nextValue => ret (Some nextValue)
    end
  end.

(** [values->pushBack(Value())]. *)
Definition pushUndefined (values : nat) : PM unit :=
  let! l := readValues values in writeCell values (ValueVector (l ++ [Undefined])).

(** The end of the loops of all and allSettled. *)
Definition resolveWithValues (capability : Capability) (values remainingElements : nat) : PM Value :=
  let! remaining := decrementRemaining remainingElements in
  if (remaining =? 0)%nat then
    let! l := readValues values in
    let! valuesArray := createArrayFromList l in
    do! ask (Call (m_resolveFunction capability) Undefined [valuesArray]) in
    ret (m_promise capability)
  else ret (m_promise capability).

Definition elementFunction (kind : ElementKind) (alreadyCalled index values : nat) (capability : Capability)
    (remainingElements : nat) : PM Value :=
  let! a := newCell (ElementFunction kind alreadyCalled index values (m_resolveFunction capability)
                       (m_rejectFunction capability) remainingElements) in
  ret (Obj a).

Definition promiseAll_turn (C : Value) (capability : Capability) (promiseResolve : Value) (iteratorRecord values remaining : nat)
    (index : nat) : PM (nat + Value) :=
  let! next := nextElement iteratorRecord in
  match next with
  | None => let! result := resolveWithValues capability values remaining in break result
  | Some nextValue =>
    do! pushUndefined values in
    let! nextPromise := ask (Call promiseResolve C [nextValue]) in
    let! alreadyCalled := newCell (AlreadyCalled false) in
    let! resolveElement := elementFunction AllResolve alreadyCalled index values capability remaining in
    do! incrementRemaining remaining in
    let! nextPromiseObject := toObject nextPromise in
    let! then_ := ask (Get nextPromiseObject name_then) in
    do! ask (Call then_ nextPromiseObject [resolveElement; m_rejectFunction capability]) in
    continue (S index)
  end.

Definition promiseRace_turn (C : Value) (capability : Capability) (resolve : Value) (iteratorRecord : nat)
    (_ : unit) : PM (unit + Value) :=
  let! next := nextElement iteratorRecord in
  match next with
  | None => break (m_promise capability)
  | Some nextValue =>
    let! nextPromise := ask (Call resolve C [nextValue]) in
    let! nextPromiseObject := toObject nextPromise in
    let! then_ := ask (Get nextPromiseObject name_then) in
    do! ask (Call then_ nextPromiseObject [m_resolveFunction capability; m_rejectFunction capability]) in
    continue tt
  end.

Definition promiseAllSettled_turn (C : Value) (capability : Capability) (promiseResolve : Value)
    (iteratorRecord values remaining : nat) (index : nat) : PM (nat + Value) :=
  let! next := nextElement iteratorRecord in
  match next with
  | None => let! result := resolveWithValues capability values remaining in break result
  | Some nextValue =>
    do! pushUndefined values in
    let! nextPromise := ask (Call promiseResolve C [nextValue]) in
    let! alreadyCalled := newCell (AlreadyCalled false) in
    let! resolveElement := elementFunction AllSettledResolve alreadyCalled index values capability remaining in
    let! rejectElement := elementFunction AllSettledReject alreadyCalled index values capability remaining in
    do! incrementRemaining remaining in
    let! then_ := getMethod nextPromise name_then in
    do! ask (Call (fromOption then_) nextPromise [resolveElement; rejectElement]) in
    continue (S index)
  end.

Definition promiseAny_turn (C : Value) (capability : Capability) (promiseResolve : Value)
    (iteratorRecord errors remaining : nat) (index : nat) : PM (nat + Value) :=
  let! next := nextElement iteratorRecord in
  match next with
  | None =>
    let! n := decrementRemaining remaining in
    if (n =? 0)%nat then let! error := newAggregateError errors in throwException error
    else break (m_promise capability)
  | Some nextValue =>
    do! pushUndefined errors in
    let! nextPromise := ask (Call promiseResolve C [nextValue]) in
    let! alreadyCalled := newCell (AlreadyCalled false) in
    let! rejectElement := elementFunction AnyReject alreadyCalled index errors capability remaining in
    do! incrementRemaining remaining in
    let! nextPromiseObject := toObject nextPromise in
    let! then_ := ask (Get nextPromiseObject name_then) in
    do! ask (Call then_ nextPromiseObject [m_resolveFunction capability; rejectElement]) in
    continue (S index)
  end.

(** The handler of all, race and any: the iterator is closed unless it is done, and
    what that throws is the reason. *)
Definition closeAndReject (capability : Capability) (iteratorRecord : nat) (v : Value) : PM Value :=
  let! r := readIteratorRecord iteratorRecord in
  let! closed := attempt (if r.2 then ret tt else iteratorCloseThrowing iteratorRecord v) in
  rejectCapability capability (match closed with inl _ => v | inr thrown => thrown end).

(** The handler of allSettled: the reason is the exception that ended the loop. *)
Definition closeAndRejectSettled (capability : Capability) (iteratorRecord : nat) (v : Value) : PM Value :=
  let! r := readIteratorRecord iteratorRecord in
  if negb r.2 then
    let! closed := attempt (iteratorCloseThrowing iteratorRecord v) in
    match closed with
    | inl result => ret result
    | inr _ => rejectCapability capability v
    end
  else rejectCapability capability v.

(** The loops with their vectors and counters, and the handlers around them. *)
Section Combinators.
Context (fuel : nat).

Definition performCombinator (turn : nat -> nat -> nat -> PM (nat + Value)) : PM Value :=
  let! values := newCell (ValueVector []) in
  let! remainingElementsCount := newCell (RemainingElements 1) in
  loop fuel (turn values remainingElementsCount) 0%nat.

Definition builtinPromiseAll (C : Value) (argv : list Value) : PM Value :=
  withIterator C (arg 0 argv) (fun capability promiseResolve iteratorRecord =>
    let! result := attempt (performCombinator (promiseAll_turn C capability promiseResolve iteratorRecord)) in
    match result with inl v => ret v | inr v => closeAndReject capability iteratorRecord v end).

Definition builtinPromiseRace (C : Value) (argv : list Value) : PM Value :=
  withIterator C (arg 0 argv) (fun capability resolve iteratorRecord =>
    let! result := attempt (loop fuel (promiseRace_turn C capability resolve iteratorRecord) tt) in
    match result with inl v => ret v | inr v => closeAndReject capability iteratorRecord v end).

Definition builtinPromiseAllSettled (C : Value) (argv : list Value) : PM Value :=
  withIterator C (arg 0 argv) (fun capability promiseResolve iteratorRecord =>
    let! result := attempt (performCombinator (promiseAllSettled_turn C capability promiseResolve iteratorRecord)) in
    match result with inl v => ret v | inr v => closeAndRejectSettled capability iteratorRecord v end).

Definition builtinPromiseAny (C : Value) (argv : list Value) : PM Value :=
  withIterator C (arg 0 argv) (fun capability promiseResolve iteratorRecord =>
    let! result := attempt (performCombinator (promiseAny_turn C capability promiseResolve iteratorRecord)) in
    match result with inl v => ret v | inr v => closeAndReject capability iteratorRecord v end).
End Combinators.

Definition builtinPromiseReject (thisValue : Value) (argv : list Value) : PM Value :=
  let! thisObject := toObject thisValue in
  let! capability := newPromiseCapability thisObject in
  do! ask (Call (m_rejectFunction capability) Undefined [arg 0 argv]) in
  ret (m_promise capability).

Definition builtinPromiseResolve (C : Value) (argv : list Value) : PM Value :=
  if negb (isObject C) then throwTypeError else promiseResolve C (arg 0 argv).

Definition builtinPromiseCatch (thisValue : Value) (argv : list Value) : PM Value :=
  let! thisObject := toObject thisValue in
  let! then_ := ask (Get thisObject name_then) in
  ask (Call then_ thisObject [Undefined; arg 0 argv]).

Definition builtinPromiseFinally (thisValue : Value) (argv : list Value) : PM Value :=
  if negb (isObject thisValue) then throwTypeError
  else
    let! C := speciesConstructor thisValue (Builtin builtinPromiseConstructor_) in
    let onFinally := arg 0 argv in
    let! h := gets heap in
    let! arguments :=
      (if isCallable h onFinally then
         let! thenFinally := newCell (ThenFinally C onFinally) in
         let! catchFinally := newCell (CatchFinally C onFinally) in
         ret [Obj thenFinally; Obj catchFinally]
       else ret [onFinally; onFinally]) in
    let! then_ := ask (Get thisValue name_then) in
    ask (Call then_ thisValue arguments).

Definition builtinPromiseThen (thisValue : Value) (argv : list Value) : PM Value :=
  let! h := gets heap in
  match asPromiseObject h thisValue with
  | None => throwTypeError
  | Some p =>
    let! C := speciesConstructor thisValue (Builtin builtinPromiseConstructor_) in
    let! promiseCapability := newPromiseCapability C in
    let! result := performThen p (arg 0 argv) (arg 1 argv) (Some promiseCapability) in
    ret (fromOption result)
  end.

(** ** Requests *)

(** One action of a running script. *)
Definition script_turn (l : Local) : PM (Local + Value) := fun w =>
  let '(u, action) := turn l (user w) in
  let w := setUser u w in
  match action with
  | Return v => break v w
  | ThrowValue v => throwException v w
  | Ask r k => (let! answer := attempt (ask r) in continue (k answer)) w
  | NewObject callable constructor k => (let! a := newCell (UserObject callable constructor) in continue (k (Obj a))) w
  end.

Definition runScript (fuel : nat) (r : Request) : PM Value := loop fuel script_turn (onRequest r).

Definition builtinFunction (fuel : nat) (b : BuiltinFunction) (thisValue : Value) (argv : list Value) : PM Value :=
  match b with
  | builtinPromiseConstructor_ => builtinPromiseConstructor argv None
  | builtinPromiseAll_ => builtinPromiseAll fuel thisValue argv
  | builtinPromiseRace_ => builtinPromiseRace fuel thisValue argv
  | builtinPromiseReject_ => builtinPromiseReject thisValue argv
  | builtinPromiseResolve_ => builtinPromiseResolve thisValue argv
  | builtinPromiseCatch_ => builtinPromiseCatch thisValue argv
  | builtinPromiseFinally_ => builtinPromiseFinally thisValue argv
  | builtinPromiseThen_ => builtinPromiseThen thisValue argv
  | builtinPromiseAllSettled_ => builtinPromiseAllSettled fuel thisValue argv
  | builtinPromiseAny_ => builtinPromiseAny fuel thisValue argv
  end.

(** [call] of the object in a cell. *)
Definition callCell (fuel : nat) (c : option Cell) (callee thisValue : Value) (argv : list Value) : PM Value :=
  match c with
  | Some (ResolveFunction p f) => promiseResolveFunctions p f argv
  | Some (RejectFunction p f) => promiseRejectFunctions p f argv
  | Some (ExecutorFunction capability) => getCapabilitiesExecutorFunction capability argv
  | Some (ElementFunction kind f i values resolve reject n) => promiseElementFunction kind f i values resolve reject n argv
  | Some (ThenFinally C onFinally) => promiseFinallyFunction C onFinally ValueThunk argv
  | Some (CatchFinally C onFinally) => promiseFinallyFunction C onFinally ValueThrower argv
  | Some (ValueThunk v) => ret v
  | Some (ValueThrower v) => throwException v
  | Some (UserObject true _) => runScript fuel (Call callee thisValue argv)
  | _ => throwTypeError
  end.

(** The answer to a request; a property read runs what the program says. *)
Definition answer (fuel : nat) (r : Request) : PM Value :=
  match r with
  | Get _ _ => runScript fuel r
  | Call callee thisValue argv =>
    match callee with
    | Builtin b => builtinFunction fuel b thisValue argv
    | Obj a => let! h := gets heap in callCell fuel (h !! a) callee thisValue argv
    | _ => throwTypeError
    end
  | Construct constructor argv newTarget =>
    let! h := gets heap in
    if negb (isConstructor h constructor) then throwTypeError
    else
      match constructor with
      | Builtin _ => builtinPromiseConstructor argv (Some newTarget)
      | _ => runScript fuel r
      end
  end.

(** ** Jobs ([Job.cpp], [JobQueue.cpp]) *)

(** The call of a function of a capability; there is none to call in a null capability. *)
Definition callCapability (capability : option Capability) (f : Capability -> Value) (x : Value) : PM Value :=
  match capability with
  | Some capability => ask (Call (f capability) Undefined [x])
  | None => throw Crash
  end.

Definition PromiseReactionJob_run (reaction : PromiseReaction) (argument : Value) : PM (Value + Value) :=
  attempt (
    match m_handler reaction with
    | Identity => callCapability (m_capability reaction) m_resolveFunction argument
    | Thrower => callCapability (m_capability reaction) m_rejectFunction argument
    | Callable handler =>
      let! res := attempt (
        let! res := ask (Call handler Undefined [argument]) in
        match m_capability reaction with
        | None => ret Undefined
        | Some capability => ask (Call (m_resolveFunction capability) Undefined [res])
        end) in
      match res with
      | inl result => ret result
      | inr error =>
        match m_capability reaction with
        | Some capability => ask (Call (m_rejectFunction capability) Undefined [error])
        | None => throwException error
        end
      end
    end).

Definition PromiseResolveThenableJob_run (promise : nat) (thenable then_ : Value) : PM (Value + Value) :=
  attempt (
    let! capability := createResolvingFunctions promise in
    let! res := attempt (ask (Call then_ thenable [m_resolveFunction capability; m_rejectFunction capability])) in
    match res with
    | inl result => ret result
    | inr error => ask (Call (m_rejectFunction capability) Undefined [error])
    end).

Definition runJob (j : Job) : PM (Value + Value) :=
  match j with
  | PromiseReactionJob reaction argument => PromiseReactionJob_run reaction argument
  | PromiseResolveThenableJob promise thenable then_ => PromiseResolveThenableJob_run promise thenable then_
  end.

(** [JobQueue::nextJob]. *)
Definition nextJob : PM Job := fun w =>
  match m_jobs w with
  | [] => (Throw Crash, w)
  | job :: jobs => (Ret job, setJobs jobs w)
  end.

(** [VMInstance::hasPendingJob] and [VMInstance::executePendingJob]. *)
Definition hasPendingJob (w : World) : bool := match m_jobs w with [] => false | _ => true end.
Definition executePendingJob : PM (Value + Value) := let! job := nextJob in runJob job.
End Natives.

(** Requests are answered by natives and scripts that make requests. *)
Fixpoint interpret (fuel : nat) (r : Request) : PM Value :=
  match fuel with
  | O => out_of_fuel
  | S fuel => answer (interpret fuel) fuel r
  end.
End Promises.
