(* ===== verification/PromiseSpec.v ===== *)
(** * What natives and scripts do to promises

    A world is well-formed when every cell refers to cells of the right kind and every
    promise has at most one token: an unresolved pair of functions, a job that will
    make another pair, or the settlement itself.  Whatever answers a request keeps this,
    gives no promise a second token, and never crashes. *)

From S2P Require Import Prelude Promise.
Local Open Scope esc_scope.

(** ** Neighbouring cells *)

(** The number of neighbours in a list that satisfy [P]. *)
Fixpoint pairs {A} (P : A -> A -> bool) (l : list A) : nat :=
  match l with
  | c1 :: ((c2 :: _) as rest) => (if P c1 c2 then 1 else 0) + pairs P rest
  | _ => 0
  end.

(** What the neighbours at [i] contribute. *)
Definition pairAt {A} (P : A -> A -> bool) (c : A) (next : option A) : nat :=
  match next with Some c' => if P c c' then 1 else 0 | None => 0 end.

Section Pairs.
Context {A : Type} (P : A -> A -> bool).

Lemma pairs_cons c l : pairs P (c :: l) = pairAt P c (head l) + pairs P l.
Proof. destruct l; reflexivity. Qed.

Lemma pairs_app l1 l2 : (match l2 with c2 :: _ => forall c1, P c1 c2 = false | [] => True end) ->
  pairs P (l1 ++ l2) = pairs P l1 + pairs P l2.
Proof.
  intros H. induction l1 as [|c l1 IH]; [reflexivity|]. change ((c :: l1) ++ l2) with (c :: (l1 ++ l2)).
  rewrite !pairs_cons, IH.
  enough (pairAt P c (head (l1 ++ l2)) = pairAt P c (head l1)) by lia.
  destruct l1; [|reflexivity]. destruct l2 as [|c2 l2]; [reflexivity|]. cbn. rewrite H. reflexivity.
Qed.

Lemma pairs_snoc l c1 c2 : pairs P ((l ++ [c1]) ++ [c2]) = pairs P (l ++ [c1]) + (if P c1 c2 then 1 else 0).
Proof.
  induction l as [|c l IH]; [cbn; lia|]. cbn [app]. rewrite !pairs_cons.
  rewrite IH. enough (head ((l ++ [c1]) ++ [c2]) = head (l ++ [c1])) as -> by lia. destruct l; reflexivity.
Qed.

Lemma pairs_insert l i c c' : l !! i = Some c -> (forall d, P d c = P d c') ->
  pairs P (<[i := c']> l) + pairAt P c (l !! S i) = pairs P l + pairAt P c' (l !! S i).
Proof.
  intros Hi Hd. revert i Hi. induction l as [|d l IH]; intros [|i] Hi; cbn in Hi; try discriminate.
  - injection Hi as ->. cbn [insert list_insert]. rewrite !pairs_cons.
    assert (E : head l = (c :: l) !! 1%nat) by (destruct l; reflexivity). rewrite E. lia.
  - change (<[S i := c']> (d :: l)) with (d :: <[i := c']> l).
    change ((d :: l) !! S (S i)) with (l !! S i). rewrite !pairs_cons. specialize (IH i Hi).
    enough (pairAt P d (head (<[i := c']> l)) = pairAt P d (head l)) by lia.
    destruct l as [|e l]; [discriminate|]. destruct i as [|i]; [|reflexivity].
    cbn in Hi. injection Hi as ->. cbn. rewrite (Hd d). reflexivity.
Qed.

Lemma pairs_witness l : pairs P l <> 0 -> exists i c c', l !! i = Some c /\ l !! S i = Some c' /\ P c c' = true.
Proof.
  induction l as [|c l IH]; [cbn; lia|]. rewrite pairs_cons. intros H.
  destruct (Nat.eq_dec (pairs P l) 0) as [E|E].
  - exists 0. destruct l as [|c' l]; cbn in H; [lia|]. exists c, c'.
    destruct (P c c') eqn:Ec; [auto|]. cbn in E, H. destruct l; cbn in *; lia.
  - destruct (IH E) as (i & d & d' & H1 & H2 & H3). exists (S i), d, d'. auto.
Qed.
End Pairs.

(** Case analysis on a first neighbour. *)
Ltac first_neighbour_of d := destruct d as [| [] | | | | | [] | | | | | | | | | | | |]; reflexivity.
Ltac first_neighbour := let d := fresh "d" in intros d; first_neighbour_of d.

Section Safety.
Context {Prog : Program}.

(** ** Well-formed worlds *)

(** An unresolved pair of functions of [p]: the flag, and the resolve function next to it. *)
Definition unresolvedPair (p : nat) (c1 c2 : Cell) : bool :=
  match c1, c2 with AlreadyResolved false, ResolveFunction p' _ => p' =? p | _, _ => false end%nat.

(** An element of the counter [n] that has not been called: its flag, and its function. *)
Definition uncalledPair (n : nat) (c1 c2 : Cell) : bool :=
  match c1, c2 with AlreadyCalled false, ElementFunction _ _ _ _ _ _ n' => n' =? n | _, _ => false end%nat.

Definition unresolved (h : list Cell) (p : nat) : nat := pairs (unresolvedPair p) h.
Definition uncalled (h : list Cell) (n : nat) : nat := pairs (uncalledPair n) h.

Arguments unresolved : simpl never.
Arguments uncalled : simpl never.

(** The jobs that will make functions for [p]. *)
Fixpoint thenableJobs (jobs : list Job) (p : nat) : nat :=
  match jobs with
  | [] => 0
  | PromiseResolveThenableJob p' _ _ :: jobs => (if p' =? p then 1 else 0)%nat + thenableJobs jobs p
  | _ :: jobs => thenableJobs jobs p
  end.

Definition settled (h : list Cell) (p : nat) : nat :=
  match h !! p with Some (PromiseObject (FulFilled | Rejected) _ _ _) => 1 | _ => 0 end.
Arguments settled : simpl never.

(** The tokens of a promise. *)
Definition tokens (w : World) (p : nat) : nat :=
  unresolved (heap w) p + thenableJobs (m_jobs w) p + settled (heap w) p.

Arguments tokens : simpl never.

Definition isPromise (h : list Cell) (p : nat) : Prop := exists s v f r, h !! p = Some (PromiseObject s v f r).

(** A reaction without a capability has a function as its handler. *)
Definition wf_reaction (r : PromiseReaction) : Prop :=
  m_capability r = None -> exists f, m_handler r = Callable f.

Definition wf_cell (h : list Cell) (a : nat) (c : Cell) : Prop :=
  match c with
  | PromiseObject s _ f r => (s = Pending \/ f = [] /\ r = []) /\ Forall wf_reaction f /\ Forall wf_reaction r
  | ResolveFunction p f => a = S f /\ isPromise h p /\ exists b, h !! f = Some (AlreadyResolved b)
  | RejectFunction p f => h !! S f = Some (ResolveFunction p f)
  | ExecutorFunction k => exists r j, h !! k = Some (CapabilityObject r j)
  | ElementFunction _ f i values _ _ n =>
    (exists k r j, h !! S f = Some (ElementFunction k f i values r j n)) /\
    (exists b, h !! f = Some (AlreadyCalled b)) /\
    (exists l, h !! values = Some (ValueVector l) /\ i < length l) /\
    exists m, h !! n = Some (RemainingElements m)
  | ThenFinally C onFinally | CatchFinally C onFinally => isConstructor h C = true /\ isCallable h onFinally = true
  | _ => True
  end.

Definition wf_job (h : list Cell) (j : Job) : Prop :=
  match j with
  | PromiseReactionJob r _ => wf_reaction r
  | PromiseResolveThenableJob p _ _ => isPromise h p
  end.

Record wf (w : World) : Prop := {
  wf_cells : forall a c, heap w !! a = Some c -> wf_cell (heap w) a c;
  wf_jobs : Forall (wf_job (heap w)) (m_jobs w);
  wf_tokens : forall p, tokens w p <= 1;
  wf_counters : forall n m, heap w !! n = Some (RemainingElements m) -> uncalled (heap w) n <= m
}.

(** ** What may become of a world *)

Definition evolves (c c' : Cell) : Prop :=
  match c, c' with
  | PromiseObject s v f r, PromiseObject s' v' f' r' => s = Pending \/ s' = s /\ v' = v
  | AlreadyResolved b, AlreadyResolved b' => b = true -> b' = true
  | AlreadyCalled b, AlreadyCalled b' => b = true -> b' = true
  | CapabilityObject _ _, CapabilityObject _ _ => True
  | RemainingElements _, RemainingElements _ => True
  | ValueVector l, ValueVector l' => length l <= length l'
  | IteratorRecord i n _, IteratorRecord i' n' _ => i' = i /\ n' = n
  | _, _ => c' = c
  end.

Definition cells_evolve (h h' : list Cell) : Prop :=
  forall a c, h !! a = Some c -> exists c', h' !! a = Some c' /\ evolves c c'.

(** No promise but those of [P] gets tokens, and no counter but those of [N] comes
    closer to its elements that were not called. *)
Record laterBut (P N : nat -> Prop) (w w' : World) : Prop := {
  later_cells : cells_evolve (heap w) (heap w');
  later_tokens : forall p, isPromise (heap w) p -> P p \/ tokens w' p <= tokens w p;
  later_counters : forall n m, heap w !! n = Some (RemainingElements m) ->
    N n \/ exists m', heap w' !! n = Some (RemainingElements m') /\
           m + uncalled (heap w') n <= m' + uncalled (heap w) n;
  later_jobs : exists new, m_jobs w' = m_jobs w ++ new
}.

Definition none : nat -> Prop := fun _ => False.

(** [w'] is a well-formed world that [w] may become. *)
Definition later (w w' : World) : Prop := wf w' /\ laterBut none none w w'.

Lemma evolves_refl c : evolves c c.
Proof. destruct c; cbn; auto. Qed.

Lemma evolves_trans c1 c2 c3 : evolves c1 c2 -> evolves c2 c3 -> evolves c1 c3.
Proof.
  destruct c1, c2; cbn; intros H1; try discriminate H1; try (rewrite H1; exact id);
    destruct c3; cbn; intros H2; try discriminate H2; auto; try lia.
  - destruct H1 as [|[-> ->]]; auto. 
  - destruct H1 as [-> ->]. exact H2.
Qed.

Lemma cells_evolve_refl h : cells_evolve h h.
Proof. intros a c H. exists c. split; [exact H|apply evolves_refl]. Qed.

Lemma cells_evolve_trans h1 h2 h3 : cells_evolve h1 h2 -> cells_evolve h2 h3 -> cells_evolve h1 h3.
Proof.
  intros H1 H2 a c Ha. destruct (H1 a c Ha) as (c' & Ha' & E). destruct (H2 a c' Ha') as (c'' & Ha'' & E').
  exists c''. split; [exact Ha''|exact (evolves_trans _ _ _ E E')].
Qed.

(** The cells that never change. *)
Definition fixed (c : Cell) : Prop := forall c', evolves c c' -> c' = c.

Lemma evolve_fixed h h' a c : cells_evolve h h' -> h !! a = Some c -> fixed c -> h' !! a = Some c.
Proof. intros H Ha Hc. destruct (H a c Ha) as (c' & Ha' & E). rewrite Ha'. f_equal. exact (Hc _ E). Qed.

Lemma evolve_promise h h' p : cells_evolve h h' -> isPromise h p -> isPromise h' p.
Proof.
  intros H (s & v & f & r & Hp). destruct (H p _ Hp) as (c & Hc & E). destruct c; cbn in E; try discriminate E.
  repeat eexists. exact Hc.
Qed.

Lemma evolve_flag h h' a b : cells_evolve h h' -> h !! a = Some (AlreadyResolved b) -> exists b', h' !! a = Some (AlreadyResolved b').
Proof. intros H Ha. destruct (H a _ Ha) as (c & Hc & E). destruct c; cbn in E; try discriminate E. eauto. Qed.

Lemma evolve_called h h' a b : cells_evolve h h' -> h !! a = Some (AlreadyCalled b) -> exists b', h' !! a = Some (AlreadyCalled b').
Proof. intros H Ha. destruct (H a _ Ha) as (c & Hc & E). destruct c; cbn in E; try discriminate E. eauto. Qed.

Lemma evolve_values h h' a l : cells_evolve h h' -> h !! a = Some (ValueVector l) ->
  exists l', h' !! a = Some (ValueVector l') /\ length l <= length l'.
Proof. intros H Ha. destruct (H a _ Ha) as (c & Hc & E). destruct c; cbn in E; try discriminate E. eauto. Qed.

Lemma evolve_remaining h h' a m : cells_evolve h h' -> h !! a = Some (RemainingElements m) ->
  exists m', h' !! a = Some (RemainingElements m').
Proof. intros H Ha. destruct (H a _ Ha) as (c & Hc & E). destruct c; cbn in E; try discriminate E. eauto. Qed.

Lemma evolve_capability h h' a r j : cells_evolve h h' -> h !! a = Some (CapabilityObject r j) ->
  exists r' j', h' !! a = Some (CapabilityObject r' j').
Proof. intros H Ha. destruct (H a _ Ha) as (c & Hc & E). destruct c; cbn in E; try discriminate E. eauto. Qed.

Lemma evolve_record h h' a i n d : cells_evolve h h' -> h !! a = Some (IteratorRecord i n d) ->
  exists d', h' !! a = Some (IteratorRecord i n d').
Proof.
  intros H Ha. destruct (H a _ Ha) as (c & Hc & E). destruct c; cbn in E; try discriminate E.
  destruct E as [-> ->]. eauto.
Qed.

Lemma fixed_resolve p f : fixed (ResolveFunction p f).
Proof. intros c' E. exact E. Qed.

Lemma fixed_element k f i v r j n : fixed (ElementFunction k f i v r j n).
Proof. intros c' E. exact E. Qed.

Lemma evolve_callable h h' v : cells_evolve h h' -> isCallable h v = true -> isCallable h' v = true.
Proof.
  intros H. destruct v as [| | | |a|]; cbn; try exact id. destruct (h !! a) as [c|] eqn:Ea; [|discriminate].
  destruct (H a c Ea) as (c' & -> & E). destruct c; try discriminate; cbn in E; rewrite E; exact id.
Qed.

Lemma evolve_constructor h h' v : cells_evolve h h' -> isConstructor h v = true -> isConstructor h' v = true.
Proof.
  intros H. destruct v as [| | | |a|]; cbn; try exact id. destruct (h !! a) as [c|] eqn:Ea; [|discriminate].
  destruct (H a c Ea) as (c' & -> & E). destruct c; try discriminate; cbn in E; rewrite E; exact id.
Qed.

Lemma evolve_wf_cell h h' a c : cells_evolve h h' -> wf_cell h a c -> wf_cell h' a c.
Proof.
  intros H. destruct c; cbn; auto.
  - intros (-> & Hp & b & Hb). split; [reflexivity|]. split; [exact (evolve_promise _ _ _ H Hp)|].
    exact (evolve_flag _ _ _ _ H Hb).
  - intros Hr. exact (evolve_fixed _ _ _ _ H Hr (fixed_resolve _ _)).
  - intros (r & j & Hk). exact (evolve_capability _ _ _ _ _ H Hk).
  - intros ((k & r & j & He) & (b & Hb) & (l & Hl & Hi) & m & Hm). repeat split.
    + exists k, r, j. exact (evolve_fixed _ _ _ _ H He (fixed_element _ _ _ _ _ _ _)).
    + exact (evolve_called _ _ _ _ H Hb).
    + destruct (evolve_values _ _ _ _ H Hl) as (l' & Hl' & Hlen). exists l'. split; [exact Hl'|lia].
    + exact (evolve_remaining _ _ _ _ H Hm).
  - intros [HC Hf]. exact (conj (evolve_constructor _ _ _ H HC) (evolve_callable _ _ _ H Hf)).
  - intros [HC Hf]. exact (conj (evolve_constructor _ _ _ H HC) (evolve_callable _ _ _ H Hf)).
Qed.

Lemma evolve_wf_job h h' j : cells_evolve h h' -> wf_job h j -> wf_job h' j.
Proof. intros H. destruct j; cbn; [exact id|]. apply evolve_promise, H. Qed.

Lemma evolve_wf_jobs h h' jobs : cells_evolve h h' -> Forall (wf_job h) jobs -> Forall (wf_job h') jobs.
Proof. intros H. induction 1; constructor; [exact (evolve_wf_job _ _ _ H H0)|assumption]. Qed.

(** ** [laterBut] and [later] *)

Lemma laterBut_refl P N w : laterBut P N w w.
Proof.
  constructor; [apply cells_evolve_refl|intros; right; lia| |exists []; symmetry; apply app_nil_r].
  intros n m Hn. right. exists m. split; [exact Hn|lia].
Qed.

Lemma laterBut_trans P N w1 w2 w3 : laterBut P N w1 w2 -> laterBut P N w2 w3 -> laterBut P N w1 w3.
Proof.
  intros [C1 T1 K1 J1] [C2 T2 K2 J2]. constructor.
  - exact (cells_evolve_trans _ _ _ C1 C2).
  - intros p Hp. destruct (T1 p Hp) as [|H1]; [auto|].
    destruct (T2 p (evolve_promise _ _ _ C1 Hp)) as [|H2]; [auto|]. right. lia.
  - intros n m Hn. destruct (K1 n m Hn) as [|(m' & Hn' & H1)]; [auto|].
    destruct (K2 n m' Hn') as [|(m'' & Hn'' & H2)]; [auto|]. right. exists m''. split; [exact Hn''|lia].
  - destruct J1 as [l1 J1], J2 as [l2 J2]. exists (l1 ++ l2). rewrite J2, J1. symmetry. apply app_assoc.
Qed.

Lemma laterBut_weaken (P P' N N' : nat -> Prop) w w' : (forall p, P p -> P' p) -> (forall n, N n -> N' n) ->
  laterBut P N w w' -> laterBut P' N' w w'.
Proof.
  intros HP HN [C T K J]. constructor; [exact C| | |exact J].
  - intros p Hp. destruct (T p Hp); auto.
  - intros n m Hn. destruct (K n m Hn); auto.
Qed.

(** What is exempt in [laterBut] is bounded otherwise. *)
Lemma laterBut_close (P N : nat -> Prop) w w' : laterBut P N w w' ->
  (forall p, isPromise (heap w) p -> P p -> tokens w' p <= tokens w p) ->
  (forall n m, heap w !! n = Some (RemainingElements m) -> N n -> exists m', heap w' !! n = Some (RemainingElements m') /\
     m + uncalled (heap w') n <= m' + uncalled (heap w) n) ->
  laterBut none none w w'.
Proof.
  intros [C T K J] HP HN. constructor; [exact C| | |exact J].
  - intros p Hp. destruct (T p Hp) as [H|H]; right; auto.
  - intros n m Hn. destruct (K n m Hn) as [H|H]; right; eauto.
Qed.

Lemma later_refl w : wf w -> later w w.
Proof. intros H. split; [exact H|apply laterBut_refl]. Qed.

Lemma later_trans w1 w2 w3 : later w1 w2 -> later w2 w3 -> later w1 w3.
Proof. intros [_ H1] [Hw H2]. split; [exact Hw|exact (laterBut_trans _ _ _ _ _ H1 H2)]. Qed.

Lemma later_wf w w' : later w w' -> wf w'.
Proof. intros H. exact (proj1 H). Qed.

Lemma later_evolve w w' : later w w' -> cells_evolve (heap w) (heap w').
Proof. intros H. exact (later_cells _ _ _ _ (proj2 H)). Qed.

(** ** Allocation *)

Lemma evolve_app h l : cells_evolve h (h ++ l).
Proof. intros a c H. exists c. split; [apply lookup_app_l_Some, H|apply evolves_refl]. Qed.

Lemma evolve_insert h a c c' : h !! a = Some c -> evolves c c' -> cells_evolve h (<[a := c']> h).
Proof.
  intros Ha E b d Hb. destruct (Nat.eq_dec a b) as [<-|Hne].
  - rewrite Ha in Hb. injection Hb as <-. exists c'. split; [|exact E].
    apply list_lookup_insert_eq, (lookup_lt_Some _ _ _ Ha).
  - exists d. split; [|apply evolves_refl]. rewrite list_lookup_insert_ne by exact Hne. exact Hb.
Qed.

Lemma no_pairs_beyond w n : wf w -> length (heap w) <= n -> unresolved (heap w) n = 0 /\ uncalled (heap w) n = 0.
Proof.
  intros Hwf Hn. split; apply Nat.le_0_r, Nat.nlt_ge; intros H.
  - destruct (pairs_witness _ _ (Nat.neq_sym _ _ (Nat.lt_neq _ _ H))) as (i & c & c' & _ & H2 & H3).
    destruct c, c'; cbn in H3; try (destruct value; discriminate); try discriminate.
    destruct value; [discriminate|]. apply Nat.eqb_eq in H3. subst promise.
    destruct (wf_cells _ Hwf _ _ H2) as (_ & (s & v & f & r & Hp) & _). apply lookup_lt_Some in Hp. lia.
  - destruct (pairs_witness _ _ (Nat.neq_sym _ _ (Nat.lt_neq _ _ H))) as (i & c & c' & _ & H2 & H3).
    destruct c, c'; cbn in H3; try (destruct value; discriminate); try discriminate.
    destruct value; [discriminate|]. apply Nat.eqb_eq in H3. subst remainingElements.
    destruct (wf_cells _ Hwf _ _ H2) as (_ & _ & _ & m & Hm). apply lookup_lt_Some in Hm. lia.
Qed.

Lemma no_jobs_beyond w p : wf w -> ~ isPromise (heap w) p -> thenableJobs (m_jobs w) p = 0.
Proof.
  intros Hwf Hp. pose proof (wf_jobs _ Hwf) as HJ. induction HJ as [|j jobs Hj _ IH]; [reflexivity|].
  destruct j as [r v|q t th]; cbn [thenableJobs]; [exact IH|]. cbn in Hj. rewrite IH.
  destruct (Nat.eqb_spec q p) as [->|]; [contradiction|reflexivity].
Qed.

(** A cell that may be made at any time. *)
Definition fresh (c : Cell) : Prop :=
  match c with
  | ResolveFunction _ _ | ElementFunction _ _ _ _ _ _ _ => False
  | PromiseObject s _ _ _ => s = Pending
  | _ => True
  end.

Lemma fresh_unresolved h c p : fresh c -> unresolved (h ++ [c]) p = unresolved h p.
Proof.
  intros Hc. unfold unresolved. rewrite pairs_app by (intros c1; destruct c1 as [| [] | | | | | | | | | | | | | | | | |], c; cbn in *; tauto || reflexivity).
  cbn. lia.
Qed.

Lemma fresh_uncalled h c n : fresh c -> uncalled (h ++ [c]) n = uncalled h n.
Proof.
  intros Hc. unfold uncalled. rewrite pairs_app by (intros c1; destruct c1 as [| | | | | | [] | | | | | | | | | | | |], c; cbn in *; tauto || reflexivity).
  cbn. lia.
Qed.

Lemma settled_app h c p : fresh c -> settled (h ++ [c]) p = settled h p.
Proof.
  intros Hc. unfold settled. destruct (Nat.lt_ge_cases p (length h)) as [H|H].
  - rewrite lookup_app_l by exact H. reflexivity.
  - rewrite lookup_app_r, (lookup_ge_None_2 h p) by exact H. destruct (p - length h) as [|[]]; cbn; [|reflexivity..].
    destruct c as [[]| | | | | | | | | | | | | | | | | |]; cbn in Hc; congruence || reflexivity.
Qed.

Lemma wf_cells_app w cs : wf w ->
  (forall i c, cs !! i = Some c -> wf_cell (heap w ++ cs) (length (heap w) + i) c) ->
  forall a c, (heap w ++ cs) !! a = Some c -> wf_cell (heap w ++ cs) a c.
Proof.
  intros Hwf Hcs a c Ha. destruct (Nat.lt_ge_cases a (length (heap w))) as [H|H].
  - rewrite lookup_app_l in Ha by exact H.
    apply (evolve_wf_cell (heap w)); [apply evolve_app|exact (wf_cells _ Hwf _ _ Ha)].
  - rewrite lookup_app_r in Ha by exact H. specialize (Hcs _ _ Ha). replace (length (heap w) + (a - length (heap w))) with a in Hcs by lia. exact Hcs.
Qed.

Lemma new_cell_ok w c : wf w -> fresh c -> wf_cell (heap w ++ [c]) (length (heap w)) c ->
  later w (setHeap (heap w ++ [c]) w).
Proof.
  intros Hwf Hc Hcell.
  assert (Ht : forall p, tokens (setHeap (heap w ++ [c]) w) p = tokens w p).
  { intros p. unfold tokens. cbn. rewrite fresh_unresolved, settled_app by exact Hc. reflexivity. }
  split; [|constructor].
  - constructor; cbn.
    + apply (wf_cells_app w [c] Hwf). intros [|i] d Hi; [|destruct i; discriminate]. injection Hi as <-.
      rewrite Nat.add_0_r. exact Hcell.
    + exact (evolve_wf_jobs _ _ _ (evolve_app _ _) (wf_jobs _ Hwf)).
    + intros p. rewrite Ht. apply (wf_tokens _ Hwf).
    + intros n m Hn. rewrite fresh_uncalled by exact Hc. destruct (Nat.lt_ge_cases n (length (heap w))) as [H|H].
      * rewrite lookup_app_l in Hn by exact H. exact (wf_counters _ Hwf _ _ Hn).
      * destruct (no_pairs_beyond w n Hwf H) as [_ ->]. lia.
  - apply evolve_app.
  - intros p _. right. rewrite Ht. lia.
  - intros n m Hn. right. exists m. cbn. split; [apply lookup_app_l_Some, Hn|]. rewrite fresh_uncalled by exact Hc. lia.
  - exists []. symmetry. apply app_nil_r.
Qed.

(** ** Writes *)

Definition settledCell (c : Cell) : nat :=
  match c with PromiseObject (FulFilled | Rejected) _ _ _ => 1 | _ => 0 end.

Lemma settled_cell h p : settled h p = match h !! p with Some c => settledCell c | None => 0 end.
Proof. reflexivity. Qed.

(** The two cells are the same as second neighbours. *)
Definition same_second (c c' : Cell) : Prop :=
  (forall p d, unresolvedPair p d c = unresolvedPair p d c') /\ (forall n d, uncalledPair n d c = uncalledPair n d c').

Lemma tokens_write w a c c' p : heap w !! a = Some c -> same_second c c' ->
  tokens (setHeap (<[a := c']> (heap w)) w) p
  + (pairAt (unresolvedPair p) c (heap w !! S a) + (if a =? p then settledCell c else 0))%nat
  = (tokens w p + (pairAt (unresolvedPair p) c' (heap w !! S a) + (if a =? p then settledCell c' else 0)))%nat.
Proof.
  intros Ha [H1 _]. unfold tokens. cbn.
  pose proof (pairs_insert (unresolvedPair p) (heap w) a c c' Ha (fun d => H1 p d)) as Hp. fold (unresolved (heap w) p) in Hp.
  assert (Hs : settled (<[a := c']> (heap w)) p + (if a =? p then settledCell c else 0)
               = settled (heap w) p + (if a =? p then settledCell c' else 0)).
  { rewrite !settled_cell. destruct (Nat.eqb_spec a p) as [<-|Hne].
    - rewrite list_lookup_insert_eq by exact (lookup_lt_Some _ _ _ Ha). rewrite Ha. lia.
    - rewrite list_lookup_insert_ne by exact Hne. reflexivity. }
  unfold unresolved in *. lia.
Qed.

Lemma uncalled_write h a c c' n : h !! a = Some c -> same_second c c' ->
  uncalled (<[a := c']> h) n + pairAt (uncalledPair n) c (h !! S a) = uncalled h n + pairAt (uncalledPair n) c' (h !! S a).
Proof. intros Ha [_ H]. exact (pairs_insert (uncalledPair n) h a c c' Ha (fun d => H n d)). Qed.

Lemma wf_cells_insert h a c c' : (forall b d, h !! b = Some d -> wf_cell h b d) -> h !! a = Some c -> evolves c c' ->
  wf_cell (<[a := c']> h) a c' -> forall b d, <[a := c']> h !! b = Some d -> wf_cell (<[a := c']> h) b d.
Proof.
  intros Hwf Ha E Hc b d Hb. destruct (Nat.eq_dec a b) as [<-|Hne].
  - rewrite list_lookup_insert_eq in Hb by exact (lookup_lt_Some _ _ _ Ha). injection Hb as <-. exact Hc.
  - rewrite list_lookup_insert_ne in Hb by exact Hne.
    apply (evolve_wf_cell h); [exact (evolve_insert _ _ _ _ Ha E)|exact (Hwf _ _ Hb)].
Qed.

(** A write of a cell that is no counter leaves the counters. *)
Lemma remaining_insert (h : list Cell) a c c' n m : h !! a = Some c ->
  (forall m, c <> RemainingElements m) -> (forall m, c' <> RemainingElements m) ->
  (<[a := c']> h) !! n = Some (RemainingElements m) <-> h !! n = Some (RemainingElements m).
Proof.
  intros Ha Hc Hc'. destruct (Nat.eq_dec a n) as [<-|Hne]; [|rewrite list_lookup_insert_ne by exact Hne; reflexivity].
  rewrite list_lookup_insert_eq by exact (lookup_lt_Some _ _ _ Ha). rewrite Ha.
  split; intros [= He]; [destruct (Hc' m He)|destruct (Hc m He)].
Qed.

(** A write of a cell that is no counter is all right when the tokens and the
    elements are. *)
Lemma write_later (P N : nat -> Prop) w a c c' : wf w -> heap w !! a = Some c -> evolves c c' ->
  (forall m, c <> RemainingElements m) -> (forall m, c' <> RemainingElements m) ->
  wf_cell (<[a := c']> (heap w)) a c' ->
  let w' := setHeap (<[a := c']> (heap w)) w in
  (forall q, tokens w' q <= 1 /\ (P q \/ tokens w' q <= tokens w q)) ->
  (forall n, uncalled (heap w') n <= uncalled (heap w) n) ->
  wf w' /\ laterBut P N w w'.
Proof.
  intros Hwf Ha E Hc Hc' Hcell w' Ht Hu. pose proof (fun n m => remaining_insert (heap w) a c c' n m Ha Hc Hc') as Hk.
  split; constructor; cbn.
  - exact (wf_cells_insert _ _ _ _ (wf_cells _ Hwf) Ha E Hcell).
  - exact (evolve_wf_jobs _ _ _ (evolve_insert _ _ _ _ Ha E) (wf_jobs _ Hwf)).
  - intros q. apply Ht.
  - intros n m Hn. etransitivity; [apply Hu|]. apply (wf_counters _ Hwf), Hk, Hn.
  - exact (evolve_insert _ _ _ _ Ha E).
  - intros q _. apply Ht.
  - intros n m Hn. right. exists m. split; [apply Hk, Hn|]. specialize (Hu n). cbn in Hu. lia.
  - exists []. symmetry. apply app_nil_r.
Qed.

(** A write that counts for nothing. *)
Definition neutral (c c' : Cell) : Prop :=
  match c, c' with
  | PromiseObject s v _ _, PromiseObject s' v' _ _ => s = Pending /\ s' = Pending
  | CapabilityObject _ _, CapabilityObject _ _ => True
  | ValueVector l, ValueVector l' => length l <= length l'
  | IteratorRecord i n _, IteratorRecord i' n' _ => i' = i /\ n' = n
  | _, _ => False
  end.

Lemma neutral_facts c c' : neutral c c' ->
  evolves c c' /\ same_second c c' /\ settledCell c = settledCell c' /\
  (forall P next, (P = unresolvedPair \/ P = uncalledPair) -> forall n, pairAt (P n) c next = 0 /\ pairAt (P n) c' next = 0) /\
  (forall m, c <> RemainingElements m) /\ (forall m, c' <> RemainingElements m).
Proof.
  destruct c, c'; cbn; try contradiction; intros H; (repeat split; cbn; auto; try discriminate);
    try (intros ? d; first_neighbour_of d);
    try (destruct next as [[]|]; destruct H0 as [->| ->]; reflexivity).
  all: intuition (subst; auto).
Qed.

Lemma write_neutral w a c c' : wf w -> heap w !! a = Some c -> neutral c c' ->
  wf_cell (<[a := c']> (heap w)) a c' -> later w (setHeap (<[a := c']> (heap w)) w).
Proof.
  intros Hwf Ha Hc Hcell. destruct (neutral_facts _ _ Hc) as (E & Hs & Hst & Hp & Hm & Hm').
  assert (Ht : forall p, tokens (setHeap (<[a := c']> (heap w)) w) p = tokens w p).
  { intros p. pose proof (tokens_write w a c c' p Ha Hs) as H.
    destruct (Hp unresolvedPair (heap w !! S a) (or_introl eq_refl) p) as [H1 H2]. rewrite H1, H2 in H.
    destruct (a =? p); lia. }
  assert (Hu : forall n, uncalled (<[a := c']> (heap w)) n = uncalled (heap w) n).
  { intros n. pose proof (uncalled_write (heap w) a c c' n Ha Hs) as H.
    destruct (Hp uncalledPair (heap w !! S a) (or_intror eq_refl) n) as [H1 H2]. lia. }
  apply (write_later none none _ _ _ _ Hwf Ha E Hm Hm' Hcell).
  - intros q. rewrite Ht. split; [apply (wf_tokens _ Hwf)|right; lia].
  - intros n. cbn. rewrite Hu. lia.
Qed.

Lemma thenableJobs_app j1 j2 p : thenableJobs (j1 ++ j2) p = thenableJobs j1 p + thenableJobs j2 p.
Proof. induction j1 as [|[r v|q t th] j1 IH]; cbn; [reflexivity|exact IH|rewrite IH; lia]. Qed.

Lemma thenableJobs_reactions rs v p : thenableJobs (map (fun r => PromiseReactionJob r v) rs) p = 0.
Proof. induction rs; cbn; auto. Qed.

(** Jobs of reactions, events and the state of the scripts count for nothing. *)
Lemma same_later w w' rs v : wf w -> heap w' = heap w -> Forall wf_reaction rs ->
  m_jobs w' = m_jobs w ++ map (fun r => PromiseReactionJob r v) rs -> later w w'.
Proof.
  intros Hwf Hh Hrs Hj.
  assert (Ht : forall p, tokens w' p = tokens w p).
  { intros p. unfold tokens. rewrite Hh, Hj, thenableJobs_app, thenableJobs_reactions. lia. }
  split; constructor; rewrite ?Hh.
  - exact (wf_cells _ Hwf).
  - rewrite Hj. apply Forall_app. split; [exact (wf_jobs _ Hwf)|]. clear Hj. induction Hrs; constructor; assumption.
  - intros p. rewrite Ht. apply (wf_tokens _ Hwf).
  - exact (wf_counters _ Hwf).
  - apply cells_evolve_refl.
  - intros p _. right. rewrite Ht. lia.
  - intros n m Hn. right. exists m. split; [exact Hn|lia].
  - eexists. exact Hj.
Qed.

Lemma same_second_flag b b' : same_second (AlreadyResolved b) (AlreadyResolved b').
Proof. split; intros ? d; first_neighbour_of d. Qed.

Lemma same_second_called b b' : same_second (AlreadyCalled b) (AlreadyCalled b').
Proof. split; intros ? d; first_neighbour_of d. Qed.

Lemma same_second_remaining m m' : same_second (RemainingElements m) (RemainingElements m').
Proof. split; intros ? d; first_neighbour_of d. Qed.

Lemma same_second_promise s v f r s' v' f' r' : same_second (PromiseObject s v f r) (PromiseObject s' v' f' r').
Proof. split; intros ? d; first_neighbour_of d. Qed.

(** The first function that is called takes the token of its pair. *)
Lemma mark_resolved w p f : wf w -> heap w !! f = Some (AlreadyResolved false) -> heap w !! S f = Some (ResolveFunction p f) ->
  let w' := setHeap (<[f := AlreadyResolved true]> (heap w)) w in
  later w w' /\ tokens w' p = 0 /\ tokens w p = 1.
Proof.
  intros Hwf Hf Hr w'.
  assert (E : evolves (AlreadyResolved false) (AlreadyResolved true)) by (cbn; auto).
  assert (Ht : forall q, tokens w' q + (if p =? q then 1 else 0) = tokens w q).
  { intros q. pose proof (tokens_write w f _ _ q Hf (same_second_flag false true)) as H. rewrite Hr in H.
    cbn in H. subst w'. destruct (f =? q), (p =? q); lia. }
  assert (Hu : forall n, uncalled (<[f := AlreadyResolved true]> (heap w)) n = uncalled (heap w) n).
  { intros n. pose proof (uncalled_write (heap w) f _ _ n Hf (same_second_flag false true)) as H. rewrite Hr in H. cbn in H. lia. }
  split; [|specialize (Ht p); rewrite Nat.eqb_refl in Ht; pose proof (wf_tokens _ Hwf p); split; lia].
  apply (write_later none none _ _ _ _ Hwf Hf E); [discriminate|discriminate|exact I| |].
  - intros q. specialize (Ht q). pose proof (wf_tokens _ Hwf q). subst w'. lia.
  - intros n. cbn. rewrite Hu. lia.
Qed.

(** Settling needs the token of the promise, and keeps it. *)
Lemma settle_write w p s v s0 v0 f0 r0 : wf w -> heap w !! p = Some (PromiseObject s0 v0 f0 r0) -> tokens w p = 0 -> s <> Pending ->
  let w' := setHeap (<[p := PromiseObject s v [] []]> (heap w)) w in
  wf w' /\ laterBut (eq p) none w w' /\ tokens w' p = 1 /\ s0 = Pending.
Proof.
  intros Hwf Hp Htok Hs w'.
  assert (Hpend : s0 = Pending).
  { assert (Hz : settled (heap w) p = 0) by (unfold tokens in Htok; lia). unfold settled in Hz. rewrite Hp in Hz.
    destruct s0; [reflexivity|discriminate..]. }
  subst s0.
  assert (E : evolves (PromiseObject Pending v0 f0 r0) (PromiseObject s v [] [])) by (cbn; auto).
  assert (Hpair : forall P, P = unresolvedPair \/ P = uncalledPair -> forall n s v f r next, pairAt (P n) (PromiseObject s v f r) next = 0).
  { intros P [-> | ->] n ? ? ? ? [[]|]; reflexivity. }
  assert (Ht : forall q, tokens w' q = tokens w q + (if p =? q then 1 else 0)).
  { intros q. pose proof (tokens_write w p _ _ q Hp (same_second_promise Pending v0 f0 r0 s v [] [])) as H.
    rewrite !(Hpair unresolvedPair) in H by auto. subst w'. destruct s; [congruence|..]; cbn in H; destruct (p =? q); lia. }
  assert (Hu : forall n, uncalled (<[p := PromiseObject s v [] []]> (heap w)) n = uncalled (heap w) n).
  { intros n. pose proof (uncalled_write (heap w) p _ _ n Hp (same_second_promise Pending v0 f0 r0 s v [] [])) as H.
    rewrite !(Hpair uncalledPair) in H by auto. lia. }
  assert (Hp1 : tokens w' p = 1) by (rewrite Ht, Nat.eqb_refl, Htok; reflexivity).
  destruct (write_later (eq p) none w p _ _ Hwf Hp E) as [Hwf' HL]; [discriminate|discriminate|cbn; auto| | |auto].
  - intros q. fold w'. destruct (Nat.eqb_spec p q) as [<-|Hne]; [split; [rewrite Hp1; lia|auto]|].
    pose proof (wf_tokens _ Hwf q). rewrite Ht, (proj2 (Nat.eqb_neq p q) Hne). lia.
  - intros n. cbn. rewrite Hu. lia.
Qed.

(** A job that will make functions needs the token. *)
Lemma thenable_enqueued w p t th : wf w -> isPromise (heap w) p -> tokens w p = 0 ->
  let w' := setJobs (m_jobs w ++ [PromiseResolveThenableJob p t th]) w in
  wf w' /\ laterBut (eq p) none w w' /\ tokens w' p = 1.
Proof.
  intros Hwf Hp Htok w'.
  assert (Ht : forall q, tokens w' q = tokens w q + (if p =? q then 1 else 0)).
  { intros q. subst w'. unfold tokens. cbn. rewrite thenableJobs_app. cbn. lia. }
  split; [constructor; cbn|split; [constructor; cbn|]].
  - exact (wf_cells _ Hwf).
  - apply Forall_app. split; [exact (wf_jobs _ Hwf)|]. constructor; [exact Hp|constructor].
  - intros q. change (tokens w' q <= 1). rewrite Ht. destruct (Nat.eqb_spec p q) as [<-|]; [lia|].
    pose proof (wf_tokens _ Hwf q). lia.
  - exact (wf_counters _ Hwf).
  - apply cells_evolve_refl.
  - intros q _. destruct (Nat.eqb_spec p q) as [|Hne]; [auto|]. right. rewrite Ht.
    rewrite (proj2 (Nat.eqb_neq p q) Hne). lia.
  - intros n m Hn. right. exists m. split; [exact Hn|lia].
  - eexists. reflexivity.
  - rewrite Ht, Nat.eqb_refl, Htok. reflexivity.
Qed.

(** Making a pair of functions gives a promise a token. *)
Lemma resolving_made w p : wf w -> isPromise (heap w) p -> tokens w p = 0 ->
  let f := length (heap w) in
  let w' := setHeap (heap w ++ [AlreadyResolved false; ResolveFunction p f; RejectFunction p f]) w in
  wf w' /\ laterBut (eq p) none w w' /\ tokens w' p = 1.
Proof.
  intros Hwf Hp Htok f w'. set (cs := [AlreadyResolved false; ResolveFunction p f; RejectFunction p f]) in *.
  assert (Hu : forall n, uncalled (heap w') n = uncalled (heap w) n).
  { intros n. unfold uncalled. cbn [w' setHeap heap]. rewrite pairs_app by first_neighbour. cbn. lia. }
  assert (Ht : forall q, tokens w' q = tokens w q + (if p =? q then 1 else 0)).
  { intros q. assert (H1 : unresolved (heap w') q = unresolved (heap w) q + (if p =? q then 1 else 0)).
    { unfold unresolved. cbn [w' setHeap heap]. rewrite pairs_app by first_neighbour. cbn. lia. }
    assert (H2 : settled (heap w') q = settled (heap w) q).
    { unfold settled. cbn [w' setHeap heap]. destruct (Nat.lt_ge_cases q (length (heap w))) as [H|H].
      - rewrite lookup_app_l by exact H. reflexivity.
      - rewrite lookup_app_r, (lookup_ge_None_2 (heap w) q) by exact H. unfold cs.
        destruct (q - length (heap w)) as [|[|[|]]]; reflexivity. }
    unfold tokens. rewrite H1, H2. cbn. lia. }
  assert (Hf : (heap w ++ cs) !! f = Some (AlreadyResolved false)) by (rewrite lookup_app_r, Nat.sub_diag by lia; reflexivity).
  assert (Hr : (heap w ++ cs) !! S f = Some (ResolveFunction p f)).
  { rewrite lookup_app_r by lia. replace (S f - length (heap w)) with 1 by lia. reflexivity. }
  split; [constructor; cbn|split; [constructor; cbn|]].
  - apply (wf_cells_app w cs Hwf). intros [|[|[|i]]] c Hi; cbn in Hi; try discriminate; injection Hi as <-; cbn.
    + exact I.
    + split; [lia|]. split; [exact (evolve_promise _ _ _ (evolve_app _ _) Hp)|exists false; exact Hf].
    + exact Hr.
  - exact (evolve_wf_jobs _ _ _ (evolve_app _ _) (wf_jobs _ Hwf)).
  - intros q. change (tokens w' q <= 1). rewrite Ht. destruct (Nat.eqb_spec p q) as [<-|]; [lia|].
    pose proof (wf_tokens _ Hwf q). lia.
  - intros n m Hn. change (uncalled (heap w') n <= m). rewrite Hu. destruct (Nat.lt_ge_cases n (length (heap w))) as [H|H].
    + rewrite lookup_app_l in Hn by exact H. exact (wf_counters _ Hwf _ _ Hn).
    + destruct (no_pairs_beyond w n Hwf H) as [_ ->]. lia.
  - apply evolve_app.
  - intros q _. destruct (Nat.eqb_spec p q) as [|Hne]; [auto|]. right. rewrite Ht.
    rewrite (proj2 (Nat.eqb_neq p q) Hne). lia.
  - intros n m Hn. right. exists m. split; [apply lookup_app_l_Some, Hn|]. change (m + uncalled (heap w') n <= m + uncalled (heap w) n). rewrite Hu. lia.
  - exists []. symmetry. apply app_nil_r.
  - rewrite Ht, Nat.eqb_refl, Htok. reflexivity.
Qed.

(** A new promise has no tokens. *)
Lemma new_promise w : wf w ->
  let p := length (heap w) in
  let w' := setHeap (heap w ++ [PromiseObject Pending Undefined [] []]) w in
  later w w' /\ isPromise (heap w') p /\ tokens w' p = 0.
Proof.
  intros Hwf p w'.
  assert (Hp : heap w' !! p = Some (PromiseObject Pending Undefined [] [])) by (cbn; rewrite lookup_app_r, Nat.sub_diag by lia; reflexivity).
  assert (Hn : ~ isPromise (heap w) p).
  { intros (s & v & f & r & H). apply lookup_lt_Some in H. lia. }
  split; [apply new_cell_ok; [exact Hwf|reflexivity|cbn; auto]|]. split; [repeat eexists; exact Hp|].
  unfold tokens. cbn. rewrite fresh_unresolved by reflexivity. destruct (no_pairs_beyond w p Hwf ltac:(lia)) as [-> _].
  rewrite (no_jobs_beyond w p Hwf Hn). unfold settled. cbn in Hp. rewrite Hp. reflexivity.
Qed.

(** ** Counters *)

Lemma mark_called w f k i values r j n : wf w -> heap w !! f = Some (AlreadyCalled false) ->
  heap w !! S f = Some (ElementFunction k f i values r j n) ->
  let w' := setHeap (<[f := AlreadyCalled true]> (heap w)) w in
  later w w' /\ heap w' !! n = heap w !! n /\ S (uncalled (heap w') n) = uncalled (heap w) n.
Proof.
  intros Hwf Hf He w'.
  assert (E : evolves (AlreadyCalled false) (AlreadyCalled true)) by (cbn; auto).
  assert (Ht : forall q, tokens w' q = tokens w q).
  { intros q. pose proof (tokens_write w f _ _ q Hf (same_second_called false true)) as H. rewrite He in H.
    cbn in H. subst w'. destruct (f =? q); lia. }
  assert (Hu : forall q, uncalled (heap w') q + (if n =? q then 1 else 0) = uncalled (heap w) q).
  { intros q. pose proof (uncalled_write (heap w) f _ _ q Hf (same_second_called false true)) as H. rewrite He in H. cbn in H. cbn. lia. }
  split; [|split].
  - apply (write_later none none _ _ _ _ Hwf Hf E); [discriminate|discriminate|exact I| |].
    + intros q. fold w'. rewrite Ht. split; [apply (wf_tokens _ Hwf)|right; lia].
    + intros q. specialize (Hu q). fold w'. lia.
  - destruct (wf_cells _ Hwf _ _ He) as (_ & _ & _ & m & Hm). cbn. apply list_lookup_insert_ne. intros ->. rewrite Hm in Hf. discriminate.
  - specialize (Hu n). rewrite Nat.eqb_refl in Hu. lia.
Qed.

(** A counter is written, and stays above its elements. *)
Lemma write_remaining w n m m' : wf w -> heap w !! n = Some (RemainingElements m) -> uncalled (heap w) n <= m' ->
  let w' := setHeap (<[n := RemainingElements m']> (heap w)) w in
  wf w' /\ laterBut none (eq n) w w' /\ heap w' !! n = Some (RemainingElements m') /\ uncalled (heap w') n = uncalled (heap w) n.
Proof.
  intros Hwf Hn Hm w'.
  assert (E : evolves (RemainingElements m) (RemainingElements m')) by (cbn; auto).
  assert (Hp0 : forall P, P = unresolvedPair \/ P = uncalledPair -> forall q m next, pairAt (P q) (RemainingElements m) next = 0).
  { intros P [-> | ->] q ? [[]|]; reflexivity. }
  assert (Ht : forall q, tokens w' q = tokens w q).
  { intros q. pose proof (tokens_write w n _ _ q Hn (same_second_remaining m m')) as H.
    rewrite !(Hp0 unresolvedPair) in H by auto. cbn in H. subst w'. destruct (n =? q); lia. }
  assert (Hu : forall q, uncalled (heap w') q = uncalled (heap w) q).
  { intros q. pose proof (uncalled_write (heap w) n _ _ q Hn (same_second_remaining m m')) as H.
    rewrite !(Hp0 uncalledPair) in H by auto. cbn. lia. }
  assert (Hn' : heap w' !! n = Some (RemainingElements m')) by exact (list_lookup_insert_eq _ _ _ (lookup_lt_Some _ _ _ Hn)).
  split; [constructor|split; [constructor|split; [exact Hn'|apply Hu]]].
  - apply (wf_cells_insert _ _ _ _ (wf_cells _ Hwf) Hn E). exact I.
  - exact (evolve_wf_jobs _ _ _ (evolve_insert _ _ _ _ Hn E) (wf_jobs _ Hwf)).
  - intros q. rewrite Ht. apply (wf_tokens _ Hwf).
  - intros q k Hq. rewrite Hu. destruct (Nat.eq_dec n q) as [<-|Hne].
    + rewrite Hn' in Hq. injection Hq as <-. exact Hm.
    + cbn in Hq. rewrite list_lookup_insert_ne in Hq by exact Hne. exact (wf_counters _ Hwf _ _ Hq).
  - exact (evolve_insert _ _ _ _ Hn E).
  - intros q _. right. rewrite Ht. lia.
  - intros q k Hq. destruct (Nat.eq_dec n q) as [|Hne]; [auto|]. right. exists k. rewrite Hu.
    split; [cbn; rewrite list_lookup_insert_ne by exact Hne; exact Hq|lia].
  - exists []. symmetry. apply app_nil_r.
Qed.

Lemma lookup_last {A} (h : list A) f x : h !! f = Some x -> length h = S f -> h = take f h ++ [x].
Proof. intros Hf Hlen. rewrite <- (take_S_r h f x Hf), <- Hlen. symmetry. apply firstn_all. Qed.

(** The functions of one element. *)
Definition elementsOf (f i values n : nat) (es : list Cell) : Prop :=
  es <> [] /\ Forall (fun c => exists k r j, c = ElementFunction k f i values r j n) es.

Lemma elements_pairs P f i values n es : (P = unresolvedPair \/ P = uncalledPair) -> elementsOf f i values n es ->
  forall q, pairs (P q) es = 0.
Proof.
  intros HP [_ He] q. induction He as [|c es (k & r & j & ->) _ IH]; [reflexivity|].
  rewrite pairs_cons, IH. destruct HP as [-> | ->]; destruct es as [|[] es]; reflexivity.
Qed.

Lemma elements_uncalled h f i values n es q : h !! f = Some (AlreadyCalled false) -> length h = S f -> elementsOf f i values n es ->
  uncalled (h ++ es) q = uncalled h q + (if n =? q then 1 else 0).
Proof.
  intros Hf Hlen He. pose proof (elements_pairs uncalledPair _ _ _ _ _ (or_intror eq_refl) He q) as Hz.
  unfold uncalled. rewrite (lookup_last _ _ _ Hf Hlen), <- app_assoc.
  rewrite (pairs_app _ (take f h) ([_] ++ es)), (pairs_app _ (take f h) [_]) by first_neighbour.
  change ([AlreadyCalled false] ++ es) with (AlreadyCalled false :: es). rewrite !pairs_cons, Hz.
  destruct He as [Hne He]. destruct He as [|c es (k & r & j & ->) _]; [congruence|]. cbn. lia.
Qed.

Lemma elements_tokens w f i values n es q : elementsOf f i values n es ->
  tokens (setHeap (heap w ++ es) w) q = tokens w q.
Proof.
  intros He. pose proof (elements_pairs unresolvedPair _ _ _ _ _ (or_introl eq_refl) He q) as Hz. destruct He as [_ He].
  assert (H1 : unresolved (heap w ++ es) q = unresolved (heap w) q).
  { unfold unresolved. rewrite pairs_app, Hz; [lia|]. destruct He as [|c es (k & r & j & ->) _]; [exact I|]. first_neighbour. }
  assert (H2 : settled (heap w ++ es) q = settled (heap w) q).
  { unfold settled. destruct (Nat.lt_ge_cases q (length (heap w))) as [H|H].
    - rewrite lookup_app_l by exact H. reflexivity.
    - rewrite lookup_app_r, (lookup_ge_None_2 (heap w) q) by exact H.
      destruct (es !! (q - length (heap w))) as [c|] eqn:Ec; [|reflexivity].
      destruct (Forall_lookup_1 _ _ _ _ He Ec) as (k & r & j & ->). reflexivity. }
  unfold tokens. cbn. rewrite H1, H2. reflexivity.
Qed.

Lemma elements_cells w f i values n es l m : wf w -> heap w !! f = Some (AlreadyCalled false) -> length (heap w) = S f ->
  heap w !! values = Some (ValueVector l) -> i < length l -> heap w !! n = Some (RemainingElements m) -> elementsOf f i values n es ->
  forall a c, (heap w ++ es) !! a = Some c -> wf_cell (heap w ++ es) a c.
Proof.
  intros Hwf Hf Hlen Hl Hi Hn [Hne He]. apply (wf_cells_app w es Hwf). intros b c Hb.
  destruct (Forall_lookup_1 _ _ _ _ He Hb) as (k & r & j & ->). cbn.
  split; [|split; [exists false; apply lookup_app_l_Some, Hf|split;
    [exists l; split; [apply lookup_app_l_Some, Hl|exact Hi]|exists m; apply lookup_app_l_Some, Hn]]].
  destruct He as [|c es (k1 & r1 & j1 & ->) _]; [congruence|]. exists k1, r1, j1.
  rewrite lookup_app_r by lia. rewrite Hlen, Nat.sub_diag. reflexivity.
Qed.

(** The functions of an element are made and counted. *)
Lemma elements_made w f i values n es l m : wf w -> heap w !! f = Some (AlreadyCalled false) -> length (heap w) = S f ->
  heap w !! values = Some (ValueVector l) -> i < length l -> heap w !! n = Some (RemainingElements m) ->
  elementsOf f i values n es -> later w (setHeap (<[n := RemainingElements (S m)]> (heap w ++ es)) w).
Proof.
  intros Hwf Hf Hlen Hl Hi Hn He. set (w1 := setHeap (heap w ++ es) w).
  assert (Hn1 : heap w1 !! n = Some (RemainingElements m)) by (apply lookup_app_l_Some, Hn).
  assert (E : evolves (RemainingElements m) (RemainingElements (S m))) by (cbn; auto).
  assert (Hevo : cells_evolve (heap w) (<[n := RemainingElements (S m)]> (heap w1))).
  { eapply cells_evolve_trans; [apply evolve_app|exact (evolve_insert _ _ _ _ Hn1 E)]. }
  pose proof (elements_cells w f i values n es l m Hwf Hf Hlen Hl Hi Hn He) as Hcells.
  set (w' := setHeap (<[n := RemainingElements (S m)]> (heap w ++ es)) w).
  assert (Ht : forall q, tokens w' q = tokens w q).
  { intros q. pose proof (tokens_write w1 n _ _ q Hn1 (same_second_remaining m (S m))) as H.
    pose proof (elements_tokens w f i values n es q He) as Hw1. fold w1 in Hw1. rewrite Hw1 in H.
    change (tokens (setHeap (<[n := RemainingElements (S m)]> (heap w1)) w1) q) with (tokens w' q) in H. cbn in H.
    destruct ((heap w ++ es) !! S n) as [[]|], (n =? q); cbn in H; lia. }
  assert (Hu : forall q, uncalled (heap w') q = uncalled (heap w) q + (if n =? q then 1 else 0)).
  { intros q. pose proof (uncalled_write (heap w1) n _ _ q Hn1 (same_second_remaining m (S m))) as H. cbn in H.
    rewrite (elements_uncalled _ _ _ _ _ _ q Hf Hlen He) in H. cbn. destruct ((heap w ++ es) !! S n) as [[]|]; cbn in H; lia. }
  assert (Hn' : heap w' !! n = Some (RemainingElements (S m))) by exact (list_lookup_insert_eq _ _ _ (lookup_lt_Some _ _ _ Hn1)).
  pose proof (wf_counters _ Hwf _ _ Hn) as Hc.
  split; constructor.
  - apply (wf_cells_insert _ _ _ _ Hcells Hn1 E). exact I.
  - exact (evolve_wf_jobs _ _ _ Hevo (wf_jobs _ Hwf)).
  - intros q. rewrite Ht. apply (wf_tokens _ Hwf).
  - intros q k Hq. rewrite Hu. destruct (Nat.eqb_spec n q) as [<-|Hne].
    + rewrite Hn' in Hq. injection Hq as <-. lia.
    + cbn in Hq. rewrite list_lookup_insert_ne in Hq by exact Hne. rewrite Nat.add_0_r.
      destruct (Nat.lt_ge_cases q (length (heap w))) as [H|H].
      * rewrite lookup_app_l in Hq by exact H. exact (wf_counters _ Hwf _ _ Hq).
      * destruct (no_pairs_beyond w q Hwf H) as [_ ->]. lia.
  - exact Hevo.
  - intros q _. right. rewrite Ht. lia.
  - intros q k Hq. right. destruct (Nat.eq_dec n q) as [<-|Hne].
    + rewrite Hn in Hq. injection Hq as <-. exists (S m). rewrite Hu, Nat.eqb_refl. split; [exact Hn'|lia].
    + exists k. rewrite Hu, (proj2 (Nat.eqb_neq n q) Hne). split; [|lia]. cbn. rewrite list_lookup_insert_ne by exact Hne.
      apply lookup_app_l_Some, Hq.
  - exists []. symmetry. apply app_nil_r.
Qed.
End Safety.
