(* ===== verification/PromiseSafety.v ===== *)
(** * No request crashes or settles a promise twice

    Every native, and with them every script, keeps worlds well-formed and gives
    promises no tokens: proved for the natives against any [ask] that does so, and
    then for the interpreter by its fuel. *)

From S2P Require Import Prelude Promise PromiseSpec.
Local Open Scope esc_scope.

Section Safety.
Context {Prog : Program}.

(** ** Outcomes *)

(** [Q] when the code returns, [X] when it throws a value, [F] when the fuel of the
    model runs out; it does not crash. *)
Definition wpc {A} (m : PM A) (w : World) (Q : A -> World -> Prop) (X F : World -> Prop) : Prop :=
  match m w with
  | (Ret a, w') => Q a w'
  | (Throw (Exception _), w') => X w'
  | (Throw Crash, _) => False
  | (Fuel, w') => F w'
  end.

Definition safe {A} (m : PM A) (w : World) : Prop := wpc m w (fun _ => later w) (later w) (later w).

Lemma wpc_bind {A B} (m : PM A) (k : A -> PM B) w Q X F :
  wpc m w (fun a w' => wpc (k a) w' Q X F) X F -> wpc (bind m k) w Q X F.
Proof. unfold wpc, bind. destruct (m w) as [[a|[v|]|] w']; exact id. Qed.

Lemma wpc_ret {A} (a : A) w (Q : A -> World -> Prop) (X F : World -> Prop) : Q a w -> wpc (ret a) w Q X F.
Proof. exact id. Qed.

Lemma wpc_throw {A} v w (Q : A -> World -> Prop) (X F : World -> Prop) : X w -> wpc (throwException v) w Q X F.
Proof. exact id. Qed.

Lemma wpc_mono {A} (m : PM A) w (Q Q' : A -> World -> Prop) (X X' F F' : World -> Prop) : wpc m w Q X F ->
  (forall a w', Q a w' -> Q' a w') -> (forall w', X w' -> X' w') -> (forall w', F w' -> F' w') -> wpc m w Q' X' F'.
Proof. unfold wpc. destruct (m w) as [[a|[v|]|] w']; auto. Qed.

Lemma wpc_attempt {A} (m : PM A) w (Q : A + Value -> World -> Prop) X F :
  wpc m w (fun a => Q (inl a)) (fun w' => forall v, Q (inr v) w') F -> wpc (attempt m) w Q X F.
Proof. unfold wpc, attempt. destruct (m w) as [[a|[v|]|] w']; auto. Qed.

(** A step of a proof from the world [w0]: [w] is where it stands. *)
Section Steps.
Context (w0 : World).

Lemma step_safe {A B} w (m : PM A) (k : A -> PM B) Q : later w0 w -> (wf w -> safe m w) ->
  (forall a w', later w w' -> later w0 w' -> wpc (k a) w' Q (later w0) (later w0)) ->
  wpc (bind m k) w Q (later w0) (later w0).
Proof.
  intros H Hm Hk. apply wpc_bind. refine (wpc_mono _ _ _ _ _ _ _ _ (Hm (later_wf _ _ H)) _ _ _).
  - intros a w' H'. exact (Hk a w' H' (later_trans _ _ _ H H')).
  - intros w' H'. exact (later_trans _ _ _ H H').
  - intros w' H'. exact (later_trans _ _ _ H H').
Qed.

Lemma step_last {A} w (m : PM A) : later w0 w -> (wf w -> safe m w) -> wpc m w (fun _ => later w0) (later w0) (later w0).
Proof.
  intros H Hm. refine (wpc_mono _ _ _ _ _ _ _ _ (Hm (later_wf _ _ H)) _ _ _); intros; eauto using later_trans.
Qed.

Lemma step_attempt {A B} w (m : PM A) (k : A + Value -> PM B) Q : later w0 w -> (wf w -> safe m w) ->
  (forall r w', later w w' -> later w0 w' -> wpc (k r) w' Q (later w0) (later w0)) ->
  wpc (bind (attempt m) k) w Q (later w0) (later w0).
Proof.
  intros H Hm Hk. apply wpc_bind, wpc_attempt. refine (wpc_mono _ _ _ _ _ _ _ _ (Hm (later_wf _ _ H)) _ _ _).
  - intros a w' H'. exact (Hk _ w' H' (later_trans _ _ _ H H')).
  - intros w' H' v. exact (Hk _ w' H' (later_trans _ _ _ H H')).
  - intros w' H'. exact (later_trans _ _ _ H H').
Qed.

Lemma step_new {B} w c (k : nat -> PM B) Q : later w0 w -> fresh c -> wf_cell (heap w ++ [c]) (length (heap w)) c ->
  (forall w', later w w' -> later w0 w' -> heap w' !! length (heap w) = Some c -> length (heap w') = S (length (heap w)) ->
     wpc (k (length (heap w))) w' Q (later w0) (later w0)) ->
  wpc (bind (newCell c) k) w Q (later w0) (later w0).
Proof.
  intros H Hc Hcell Hk. pose proof (new_cell_ok w c (later_wf _ _ H) Hc Hcell) as HL.
  apply (Hk _ HL (later_trans _ _ _ H HL)); cbn; [rewrite lookup_app_r, Nat.sub_diag by lia; reflexivity|].
  rewrite length_app. cbn. lia.
Qed.

Lemma step_read {B} w a c (k : Cell -> PM B) Q X F : heap w !! a = Some c -> wpc (k c) w Q X F -> wpc (bind (readCell a) k) w Q X F.
Proof. intros Ha Hk. apply wpc_bind. unfold wpc at 1, readCell. rewrite Ha. exact Hk. Qed.

Lemma step_write {B} w a c c' (k : unit -> PM B) Q : later w0 w -> heap w !! a = Some c -> neutral c c' ->
  wf_cell (<[a := c']> (heap w)) a c' ->
  (forall w', later w w' -> later w0 w' -> heap w' !! a = Some c' -> wpc (k tt) w' Q (later w0) (later w0)) ->
  wpc (bind (writeCell a c') k) w Q (later w0) (later w0).
Proof.
  intros H Ha Hc Hcell Hk. pose proof (write_neutral w a c c' (later_wf _ _ H) Ha Hc Hcell) as HL.
  apply (Hk _ HL (later_trans _ _ _ H HL)). apply list_lookup_insert_eq, (lookup_lt_Some _ _ _ Ha).
Qed.

Lemma step_heap {B} w (k : list Cell -> PM B) Q X F : wpc (k (heap w)) w Q X F -> wpc (bind (gets heap) k) w Q X F.
Proof. exact id. Qed.
End Steps.

Lemma safe_ret {A} w (a : A) : wf w -> safe (ret a) w.
Proof. apply later_refl. Qed.

Lemma safe_throw {A} w v : wf w -> safe (throwException v : PM A) w.
Proof. apply later_refl. Qed.

Lemma safe_typeError {A} w : wf w -> safe (throwTypeError : PM A) w.
Proof. intros H. apply step_new; cbn; auto using later_refl. Qed.

Lemma step_typeError {A} w0 w (Q : A -> World -> Prop) : later w0 w -> wpc throwTypeError w Q (later w0) (later w0).
Proof.
  intros H. unfold throwTypeError. eapply step_new; [exact H|exact I|exact I|]. intros w1 _ HL _ _. exact HL.
Qed.

Lemma safe_toObject w v : wf w -> safe (toObject v) w.
Proof.
  intros H. destruct v; cbn [toObject]; auto using safe_typeError, safe_ret.
  all: apply step_new; cbn; auto using later_refl.
Qed.

(** ** What stays true *)

Lemma later_promise w w' p : later w w' -> isPromise (heap w) p -> isPromise (heap w') p.
Proof. intros H. apply evolve_promise, later_evolve, H. Qed.

Lemma later_token w w' p : later w w' -> isPromise (heap w) p -> tokens w p = 0 -> tokens w' p = 0.
Proof. intros [_ H] Hp Ht. destruct (later_tokens _ _ _ _ H p Hp) as [[]|]; lia. Qed.

Lemma later_values w w' a l : later w w' -> heap w !! a = Some (ValueVector l) ->
  exists l', heap w' !! a = Some (ValueVector l') /\ length l <= length l'.
Proof. intros H. apply evolve_values, later_evolve, H. Qed.

Lemma later_record w w' a i n d : later w w' -> heap w !! a = Some (IteratorRecord i n d) ->
  exists d', heap w' !! a = Some (IteratorRecord i n d').
Proof. intros H. apply evolve_record, later_evolve, H. Qed.

Lemma later_slack w w' n m : later w w' -> heap w !! n = Some (RemainingElements m) ->
  exists m', heap w' !! n = Some (RemainingElements m') /\ m + uncalled (heap w') n <= m' + uncalled (heap w) n.
Proof. intros [_ H] Hn. destruct (later_counters _ _ _ _ H n m Hn) as [[]|]; auto. Qed.

(** ** Settling *)

Lemma trigger_run rs v w : triggerPromiseReactions rs v w
  = (Ret tt, setJobs (m_jobs w ++ map (fun r => PromiseReactionJob r v) rs) w).
Proof.
  revert w. induction rs as [|r rs IH]; intros w; cbn.
  - rewrite app_nil_r. destruct w; reflexivity.
  - unfold bind, enqueueJob, modify. rewrite IH. cbn. rewrite <- app_assoc. reflexivity.
Qed.

(** A promise that was settled with its token. *)
Definition settles (p : nat) (s : PromiseState) (v : Value) (w w' : World) : Prop :=
  wf w' /\ laterBut (eq p) none w w' /\ tokens w' p = 1 /\ heap w' = <[p := PromiseObject s v [] []]> (heap w).

Lemma settles_reactions w w' p s v s0 v0 f0 r0 rs u : wf w -> heap w !! p = Some (PromiseObject s0 v0 f0 r0) -> tokens w p = 0 ->
  s <> Pending -> Forall wf_reaction rs -> heap w' = <[p := PromiseObject s v [] []]> (heap w) ->
  m_jobs w' = m_jobs w ++ map (fun r => PromiseReactionJob r u) rs -> settles p s v w w'.
Proof.
  intros Hwf Hp Ht Hs Hrs Hh Hj.
  destruct (settle_write w p s v _ _ _ _ Hwf Hp Ht Hs) as (Hwf1 & HL1 & Ht1 & _).
  set (w1 := setHeap (<[p := PromiseObject s v [] []]> (heap w)) w) in *.
  destruct (same_later w1 w' rs u Hwf1 Hh Hrs Hj) as [Hwf' HL'].
  split; [exact Hwf'|]. split; [|split; [|exact Hh]].
  - eapply laterBut_trans; [exact HL1|]. refine (laterBut_weaken none _ none _ _ _ _ _ HL'); intros ? [].
  - unfold tokens in *. rewrite Hh, Hj, thenableJobs_app, thenableJobs_reactions. unfold w1 in Ht1. cbn [setHeap heap m_jobs] in Ht1. lia.
Qed.

Lemma fulfill_run w p v : wf w -> isPromise (heap w) p -> tokens w p = 0 ->
  exists w', fulfill p v w = (Ret tt, w') /\ settles p FulFilled v w w'.
Proof.
  intros Hwf (s0 & v0 & f0 & r0 & Hp) Ht. unfold fulfill, bind, readCell. rewrite Hp. cbn. rewrite trigger_run. cbn.
  eexists. split; [reflexivity|]. destruct (wf_cells _ Hwf _ _ Hp) as (_ & Hf & _).
  eapply (settles_reactions w _ p FulFilled v _ _ _ _ f0 v Hwf Hp Ht); [discriminate|exact Hf| |reflexivity].
  cbn. apply list_insert_insert_eq.
Qed.

Lemma reject_run w p v : wf w -> isPromise (heap w) p -> tokens w p = 0 ->
  exists w', reject p v w = (Ret tt, w') /\ settles p Rejected v w w'.
Proof.
  intros Hwf (s0 & v0 & f0 & r0 & Hp) Ht. unfold reject, bind, readCell. rewrite Hp.
  destruct (wf_cells _ Hwf _ _ Hp) as (_ & _ & Hr).
  destruct (0 <? length r0)%nat; cbn; [rewrite trigger_run|]; cbn; (eexists; split; [reflexivity|]).
  - eapply (settles_reactions w _ p Rejected v _ _ _ _ r0 v Hwf Hp Ht); [discriminate|exact Hr| |reflexivity].
    cbn. apply list_insert_insert_eq.
  - eapply (settles_reactions w _ p Rejected v _ _ _ _ [] v Hwf Hp Ht); [discriminate|constructor| |].
    + cbn. apply list_insert_insert_eq.
    + cbn. symmetry. apply app_nil_r.
Qed.

(** The token that was taken is put back. *)
Lemma token_back w0 w w' p : later w0 w -> tokens w0 p = 1 -> wf w' -> laterBut (eq p) none w w' -> tokens w' p = 1 -> later w0 w'.
Proof.
  intros [_ H0] Ht0 Hwf' HL Ht'. split; [exact Hwf'|].
  apply (laterBut_close (eq p) none w0 w').
  - eapply laterBut_trans; [|exact HL]. refine (laterBut_weaken none _ none _ _ _ _ _ H0); intros ? [].
  - intros q _ <-. lia.
  - intros n m _ [].
Qed.

Lemma settle_back w0 w p s v (m : PM unit) (k : unit -> PM Value) Q : later w0 w -> tokens w0 p = 1 ->
  (exists w', m w = (Ret tt, w') /\ settles p s v w w') ->
  (forall w', later w0 w' -> wpc (k tt) w' Q (later w0) (later w0)) -> wpc (bind m k) w Q (later w0) (later w0).
Proof.
  intros H Ht (w' & E & Hwf & HL & Ht' & _) Hk. unfold wpc, bind. rewrite E. apply Hk. exact (token_back _ _ _ _ H Ht Hwf HL Ht').
Qed.

(** ** Natives *)

Ltac done_later := solve [assumption | eauto using later_wf, later_refl, later_trans].
(** A request or another safe call: its answer, the world after it, how it came about. *)
Tactic Notation "use" constr(lem) ident(a) ident(w1) ident(L) := first
  [ eapply step_attempt; [done_later|solve [intros; apply lem; auto]|intros a w1 L ?; cbn beta iota]
  | eapply step_safe; [done_later|solve [intros; apply lem; auto]|intros a w1 L ?; cbn beta iota] ].
Tactic Notation "final" constr(lem) := apply step_last; [done_later|solve [intros; apply lem; auto]].
(** The ends of a native. *)
Ltac finish := unfold safe; first
  [ solve [apply step_typeError; done_later]
  | solve [apply wpc_ret; done_later]
  | solve [apply wpc_throw; done_later] ].
(** A new cell: the world after it, and the cell. *)
Tactic Notation "alloc" ident(w1) ident(C) :=
  eapply step_new; [done_later|exact I|first [exact I|cbn]|intros w1 ? ? C ?; cbn beta iota].
Tactic Notation "read" constr(H) := eapply step_read; [exact H|cbn beta iota].
Tactic Notation "write" constr(H) ident(w1) ident(C) :=
  eapply step_write; [done_later|exact H|first [exact I|cbn]|first [exact I|cbn]|intros w1 ? ? C; cbn beta iota].
Ltac heap_read := apply step_heap; cbn beta iota.

Section Natives.
Context (ask : Request -> PM Value) (Hask : forall r w, wf w -> safe (ask r) w).

Lemma createResolving_run p w : createResolvingFunctions p w
  = (let f := length (heap w) in
     (Ret {| m_promise := Obj p; m_resolveFunction := Obj (S f); m_rejectFunction := Obj (S (S f)) |},
      setHeap (heap w ++ [AlreadyResolved false; ResolveFunction p f; RejectFunction p f]) w)).
Proof.
  unfold createResolvingFunctions, bind, newCell. cbn. rewrite <- !app_assoc. cbn. rewrite !length_app. cbn.
  rewrite Nat.add_1_r, Nat.add_succ_r, Nat.add_1_r. reflexivity.
Qed.

(** The functions of a promise without tokens. *)
Lemma resolving_safe w0 w p : later w0 w -> isPromise (heap w) p -> tokens w p = 0 ->
  (isPromise (heap w0) p -> tokens w0 p = 1) ->
  later w0 (setHeap (heap w ++ [AlreadyResolved false; ResolveFunction p (length (heap w)); RejectFunction p (length (heap w))]) w).
Proof.
  intros H Hp Ht H0. destruct (resolving_made w p (later_wf _ _ H) Hp Ht) as (Hwf' & HL & Ht').
  split; [exact Hwf'|]. apply (laterBut_close (eq p) none).
  - eapply laterBut_trans; [|exact HL]. refine (laterBut_weaken none _ none _ _ _ _ _ (proj2 H)); intros ? [].
  - intros q Hq <-. rewrite Ht', (H0 Hq). lia.
  - intros n m _ [].
Qed.

Lemma safe_newCapability w : wf w -> safe (let! promise := newPromiseObject in createResolvingFunctions promise) w.
Proof.
  intros Hwf. unfold safe, wpc, bind, newPromiseObject, newCell. rewrite createResolving_run.
  destruct (new_promise w Hwf) as (HL & Hp & Ht). apply resolving_safe; [exact HL|exact Hp|exact Ht|].
  intros (s & v & f & r & H). apply lookup_lt_Some in H. lia.
Qed.

Lemma safe_executor w k argv : wf w -> (exists r j, heap w !! k = Some (CapabilityObject r j)) ->
  safe (getCapabilitiesExecutorFunction k argv) w.
Proof.
  intros Hwf (r & j & Hk). unfold safe, getCapabilitiesExecutorFunction. read Hk.
  case_if; [finish|]. write Hk w1 C. finish.
Qed.

Lemma safe_newPromiseCapability w C : wf w -> safe (newPromiseCapability ask C) w.
Proof.
  intros Hwf. unfold newPromiseCapability. destruct (decide _); [exact (safe_newCapability w Hwf)|].
  heap_read. case_if; [finish|]. alloc w1 Hk. alloc w2 He; [eauto using lookup_app_l_Some|].
  use Hask a w3 L3. use safe_toObject p w4 L4.
  destruct (evolve_capability _ _ _ _ _ (later_evolve w1 w4 ltac:(done_later)) Hk) as (r & j & Hk4).
  read Hk4. heap_read. case_if; finish.
Qed.

(** The species constructor is a constructor. *)
Lemma speciesConstructor_ok w o d : wf w -> isConstructor (heap w) d = true ->
  wpc (speciesConstructor ask o d) w (fun C w' => later w w' /\ isConstructor (heap w') C = true) (later w) (later w).
Proof.
  intros Hwf Hd. assert (Hret : forall w', later w w' -> later w w' /\ isConstructor (heap w') d = true)
    by (intros w' L; exact (conj L (evolve_constructor _ _ _ (later_evolve _ _ L) Hd))).
  unfold speciesConstructor. use Hask C w1 L1. case_if; [apply wpc_ret, Hret; done_later|]. case_if; [finish|].
  use Hask S w2 L2. case_if; [apply wpc_ret, Hret; done_later|]. heap_read. case_if; [|finish].
  apply wpc_ret. split; [done_later|assumption].
Qed.

Lemma safe_speciesConstructor w o d : wf w -> isConstructor (heap w) d = true -> safe (speciesConstructor ask o d) w.
Proof.
  intros Hwf Hd. refine (wpc_mono _ _ _ _ _ _ _ _ (speciesConstructor_ok w o d Hwf Hd) _ _ _); tauto.
Qed.

Lemma safe_promiseResolve w C x : wf w -> safe (promiseResolve ask C x) w.
Proof.
  intros Hwf. unfold promiseResolve. heap_read.
  eapply (step_safe w w); [done_later| |].
  - intros _. destruct (asPromiseObject _ _); [use Hask c w1 L1; finish|finish].
  - intros same w1 L1 _. destruct same; [finish|]. use safe_newPromiseCapability k w2 L2. use Hask a w3 L3. finish.
Qed.

(** ** The functions of a promise *)

(** The first call of a pair marks it, and holds the token of the promise. *)
Lemma mark_step {B} w p f (k : unit -> PM B) Q : wf w -> heap w !! S f = Some (ResolveFunction p f) ->
  heap w !! f = Some (AlreadyResolved false) -> isPromise (heap w) p ->
  (forall w1, later w w1 -> isPromise (heap w1) p -> tokens w1 p = 0 -> tokens w p = 1 ->
     wpc (k tt) w1 Q (later w) (later w)) ->
  wpc (bind (writeCell f (AlreadyResolved true)) k) w Q (later w) (later w).
Proof.
  intros Hwf Hr Hf Hp Hk. destruct (mark_resolved w p f Hwf Hf Hr) as (HL & Ht1 & Ht).
  exact (Hk _ HL (later_promise _ _ _ HL Hp) Ht1 Ht).
Qed.

Lemma safe_resolveFunctions w p f argv : wf w -> (exists a, heap w !! a = Some (ResolveFunction p f)) ->
  safe (promiseResolveFunctions ask p f argv) w.
Proof.
  intros Hwf (a & Ha). destruct (wf_cells _ Hwf _ _ Ha) as (-> & Hp & b & Hf).
  unfold promiseResolveFunctions, readAlreadyResolved. apply wpc_bind. read Hf. apply wpc_ret.
  destruct b; [finish|]. apply (mark_step w p f _ _ Hwf Ha Hf Hp). intros w1 L1 Hp1 Ht1 Ht. cbn beta iota.
  case_if; [|case_if].
  - alloc w2 C2. eapply settle_back; [done_later|exact Ht| |intros; finish].
    apply reject_run; eauto using later_wf, later_promise, later_token.
  - eapply settle_back; [done_later|exact Ht| |intros; finish]. apply fulfill_run; eauto using later_wf.
  - use Hask r w2 L2. destruct r as [then_|error].
    + heap_read. case_if.
      * destruct (thenable_enqueued w2 p (arg 0 argv) then_) as (Hwf' & HL & Ht'); eauto using later_wf, later_promise, later_token.
        exact (token_back _ _ _ _ ltac:(done_later) Ht Hwf' HL Ht').
      * eapply settle_back; [done_later|exact Ht| |intros; finish].
        apply fulfill_run; eauto using later_wf, later_promise, later_token.
    + eapply settle_back; [done_later|exact Ht| |intros; finish].
      apply reject_run; eauto using later_wf, later_promise, later_token.
Qed.

Lemma safe_rejectFunctions w p f argv : wf w -> (exists a, heap w !! a = Some (RejectFunction p f)) ->
  safe (promiseRejectFunctions p f argv) w.
Proof.
  intros Hwf (a & Ha). pose proof (wf_cells _ Hwf _ _ Ha : heap w !! S f = _) as Hr.
  destruct (wf_cells _ Hwf _ _ Hr) as (_ & Hp & b & Hf).
  unfold promiseRejectFunctions, readAlreadyResolved. apply wpc_bind. read Hf. apply wpc_ret.
  destruct b; [finish|]. apply (mark_step w p f _ _ Hwf Hr Hf Hp). intros w1 L1 Hp1 Ht1 Ht. cbn beta iota.
  eapply settle_back; [done_later|exact Ht| |intros; finish]. apply reject_run; eauto using later_wf.
Qed.

Lemma later_jobs_reaction w r v : wf w -> wf_reaction r -> later w (setJobs (m_jobs w ++ [PromiseReactionJob r v]) w).
Proof. intros Hwf Hr. apply (same_later w _ [r] v Hwf); [reflexivity|constructor; [exact Hr|constructor]|reflexivity]. Qed.

Lemma safe_performThen w p f r k : wf w -> isPromise (heap w) p -> safe (performThen p f r (Some k)) w.
Proof.
  intros Hwf (s & v & fr & rr & Hp). unfold performThen. heap_read. read Hp.
  destruct (wf_cells _ Hwf _ _ Hp) as (Hsr & Hf & Hr).
  assert (Hreact : forall h, wf_reaction {| m_capability := Some k; m_handler := h |}) by (intros h; discriminate).
  apply wpc_bind. destruct s.
  - apply write_neutral with (c := PromiseObject Pending v fr rr); [exact Hwf|exact Hp|cbn; auto|].
    cbn. split; [auto|]. split; apply Forall_app; auto.
  - apply later_jobs_reaction; auto.
  - pose proof (later_jobs_reaction w _ v Hwf (Hreact (if isCallable (heap w) r then Callable r else Thrower))) as HL.
    eapply later_trans; [exact HL|]. apply (same_later _ _ [] v (later_wf _ _ HL)); [reflexivity|constructor|].
    symmetry. apply app_nil_r.
Qed.

(** ** The functions of elements *)

Lemma safe_elementValue w kind x : wf w -> safe (elementValue kind x) w.
Proof. intros Hwf. destruct kind; cbn [elementValue]; try finish; alloc w1 C1; finish. Qed.

Lemma step_values {B} w values l (k : list Value -> PM B) Q X F : heap w !! values = Some (ValueVector l) ->
  wpc (k l) w Q X F -> wpc (bind (readValues values) k) w Q X F.
Proof. intros Hl Hk. apply wpc_bind. unfold readValues. read Hl. exact Hk. Qed.

Lemma step_remaining {B} w n m (k : nat -> PM B) Q X F : heap w !! n = Some (RemainingElements m) ->
  wpc (k m) w Q X F -> wpc (bind (readRemaining n) k) w Q X F.
Proof. intros Hn Hk. apply wpc_bind. unfold readRemaining. read Hn. exact Hk. Qed.

Lemma safe_elementsComplete w kind values resolve reject : wf w -> (exists l, heap w !! values = Some (ValueVector l)) ->
  safe (elementsComplete ask kind values resolve reject) w.
Proof.
  intros Hwf (l & Hl). destruct kind; cbn [elementsComplete]; unfold safe.
  1-3: (eapply step_values; [exact Hl|]; unfold createArrayFromList; apply wpc_bind; alloc w1 C1; apply wpc_ret; final Hask).
  apply wpc_bind. unfold newAggregateError. eapply step_values; [exact Hl|]. apply wpc_bind. unfold createArrayFromList.
  alloc w1 C1. apply wpc_ret. alloc w2 C2. apply wpc_ret. final Hask.
Qed.

(** A count that is above the elements goes down by one. *)
Lemma decrement_step {B} w0 w n m (k : nat -> PM B) Q : later w0 w -> heap w !! n = Some (RemainingElements m) ->
  uncalled (heap w) n < m ->
  (forall k0, heap w0 !! n = Some (RemainingElements k0) -> S k0 + uncalled (heap w) n <= m + uncalled (heap w0) n) ->
  (forall w', later w0 w' -> cells_evolve (heap w) (heap w') -> heap w' !! n = Some (RemainingElements (pred m)) ->
     wpc (k (pred m)) w' Q (later w0) (later w0)) ->
  wpc (bind (decrementRemaining n) k) w Q (later w0) (later w0).
Proof.
  intros H Hn Hm H0 Hk. unfold decrementRemaining. apply wpc_bind. eapply step_remaining; [exact Hn|].
  destruct m as [|m]; [lia|]. destruct (write_remaining w n (S m) m (later_wf _ _ H) Hn ltac:(lia)) as (Hwf' & HL & Hn' & Hu).
  cbn [pred] in Hk. apply Hk; [|exact (later_cells _ _ _ _ HL)|exact Hn'].
  split; [exact Hwf'|]. apply (laterBut_close none (eq n)).
  - eapply laterBut_trans; [|exact HL]. refine (laterBut_weaken _ none none _ _ _ _ _ (proj2 H)); intros ? [].
  - intros p _ [].
  - intros q k0 Hq <-. exists m. split; [exact Hn'|]. rewrite Hu. specialize (H0 _ Hq). lia.
Qed.

Lemma safe_elementFunction w kind f i values r j n argv : wf w ->
  (exists a, heap w !! a = Some (ElementFunction kind f i values r j n)) ->
  safe (promiseElementFunction ask kind f i values r j n argv) w.
Proof.
  intros Hwf (a & Ha). destruct (wf_cells _ Hwf _ _ Ha) as ((k1 & r1 & j1 & He) & (b & Hf) & (l & Hl & Hi) & m & Hn).
  unfold promiseElementFunction, readAlreadyCalled, safe. apply wpc_bind. read Hf. apply wpc_ret. destruct b; [finish|].
  destruct (mark_called w f k1 i values r1 j1 n Hwf Hf He) as (L1 & Hn1 & Hu1).
  apply wpc_bind. set (w1 := setHeap (<[f := AlreadyCalled true]> (heap w)) w) in *.
  change (wpc (let! x := elementValue kind (arg 0 argv) in do! setValue values i x in
     let! remaining := decrementRemaining n in if (remaining =? 0)%nat then elementsComplete ask kind values r j else ret Undefined)
     w1 (fun _ => later w) (later w) (later w)).
  use safe_elementValue x w2 L2.
  destruct (later_values w w2 _ _ ltac:(done_later) Hl) as (l2 & Hl2 & Hlen).
  unfold setValue. apply wpc_bind. eapply step_values; [exact Hl2|]. rewrite (proj2 (Nat.ltb_lt _ _)) by lia.
  pose proof (write_neutral w2 values _ (ValueVector (<[i := x]> l2)) (later_wf _ _ L2) Hl2) as L3.
  cbn [neutral wf_cell] in L3. rewrite length_insert in L3. specialize (L3 ltac:(lia) I).
  match type of L3 with later _ ?w => set (w3 := w) in * end.
  rewrite Hn in Hn1. destruct (later_slack w1 w3 n m ltac:(done_later) Hn1) as (m3 & Hn3 & Hs).
  pose proof (wf_counters _ Hwf _ _ Hn).
  change (wpc (let! remaining := decrementRemaining n in if (remaining =? 0)%nat then elementsComplete ask kind values r j else ret Undefined)
     w3 (fun _ => later w) (later w) (later w)).
  eapply decrement_step; [done_later|exact Hn3|lia|intros k0 Hk0; rewrite Hn in Hk0; injection Hk0 as <-; lia|].
  intros w4 L4 C4 Hn4. case_if; [|finish].
  assert (Hl3 : heap w3 !! values = Some (ValueVector (<[i := x]> l2))) by exact (list_lookup_insert_eq _ _ _ (lookup_lt_Some _ _ _ Hl2)).
  destruct (evolve_values _ _ _ _ C4 Hl3) as (l4 & Hl4 & _).
  apply step_last; [exact L4|]. intros Hwf4. apply safe_elementsComplete; eauto.
Qed.

Lemma step_assert {B} w b (k : unit -> PM B) Q X F : b = true -> wpc (k tt) w Q X F -> wpc (bind (assert b) k) w Q X F.
Proof. intros -> H. exact H. Qed.

Lemma safe_finallyFunction w C onFinally thunk argv : wf w -> isConstructor (heap w) C = true -> isCallable (heap w) onFinally = true ->
  (forall v, thunk v = ValueThunk v) \/ (forall v, thunk v = ValueThrower v) -> safe (promiseFinallyFunction ask C onFinally thunk argv) w.
Proof.
  intros Hwf HC Hf Hthunk. unfold promiseFinallyFunction, safe. heap_read. apply step_assert; [exact Hf|]. use Hask x w1 L1. heap_read.
  apply step_assert; [exact (evolve_constructor _ _ _ (later_evolve _ _ L1) HC)|]. use safe_promiseResolve p w2 L2.
  destruct Hthunk as [-> | ->]; (alloc w3 C3; use Hask t w4 L4; final Hask).
Qed.

(** ** Iterators *)

Lemma safe_getMethod w O name : wf w -> safe (getMethod ask O name) w.
Proof.
  intros Hwf. unfold getMethod. case_if; [finish|]. use Hask func w1 L1. case_if; [finish|]. heap_read. case_if; finish.
Qed.

(** An iterator record is in its cell. *)
Definition hasRecord (w : World) (r : nat) : Prop := exists i n d, heap w !! r = Some (IteratorRecord i n d).

Lemma later_hasRecord w w' r : later w w' -> hasRecord w r -> hasRecord w' r.
Proof. intros H (i & n & d & Hr). destruct (later_record _ _ _ _ _ _ H Hr) as (d' & Hr'). repeat eexists. exact Hr'. Qed.

Lemma step_record {B} w r i n d (k : Value * Value * bool -> PM B) Q X F : heap w !! r = Some (IteratorRecord i n d) ->
  wpc (k (i, n, d)) w Q X F -> wpc (bind (readIteratorRecord r) k) w Q X F.
Proof. intros Hr Hk. apply wpc_bind. unfold readIteratorRecord. read Hr. exact Hk. Qed.

(** [getIterator] makes a record. *)
Lemma getIterator_ok w obj : wf w ->
  wpc (getIterator ask obj) w (fun r w' => later w w' /\ hasRecord w' r) (later w) (later w).
Proof.
  intros Hwf. unfold getIterator. use safe_getMethod m w1 L1. use Hask it w2 L2. case_if; [finish|]. use Hask nx w3 L3.
  pose proof (new_cell_ok w3 (IteratorRecord it nx false) (later_wf _ _ L3) I I) as L4.
  split; [done_later|]. repeat eexists. cbn. rewrite lookup_app_r, Nat.sub_diag by lia. reflexivity.
Qed.

Lemma safe_setDone w r : wf w -> hasRecord w r -> safe (setDone r) w.
Proof.
  intros Hwf (i & n & d & Hr). unfold setDone. eapply step_record; [exact Hr|]. cbn [fst snd].
  apply (write_neutral w r _ (IteratorRecord i n true) Hwf Hr); cbn; auto.
Qed.

Lemma safe_iteratorStep w r : wf w -> hasRecord w r -> safe (iteratorStep ask r) w.
Proof.
  intros Hwf (i & n & d & Hr). unfold iteratorStep, iteratorNext, iteratorComplete. apply wpc_bind.
  eapply step_record; [exact Hr|]. cbn [fst snd]. use Hask x w1 L1. case_if; [finish|]. apply wpc_ret.
  apply wpc_bind. use Hask y w2 L2. apply wpc_ret. finish.
Qed.

Lemma safe_iteratorValue w x : wf w -> safe (iteratorValue ask x) w.
Proof. apply Hask. Qed.

Lemma safe_closeThrowing {A} w r v : wf w -> hasRecord w r -> safe (iteratorCloseThrowing ask r v : PM A) w.
Proof.
  intros Hwf (i & n & d & Hr). unfold iteratorCloseThrowing. eapply step_record; [exact Hr|]. cbn [fst snd].
  use safe_getMethod m w1 L1. destruct m as [m|]; [|finish]. use Hask x w2 L2. finish.
Qed.

Lemma safe_nextElement w r : wf w -> hasRecord w r -> safe (nextElement ask r) w.
Proof.
  intros Hwf Hr. unfold nextElement.
  eapply step_attempt; [done_later|intros; apply safe_iteratorStep; auto|]. intros x w1 L1 _. cbn beta iota.
  assert (Hr1 : hasRecord w1 r) by exact (later_hasRecord _ _ _ L1 Hr).
  destruct x as [[x|]|e].
  - use safe_iteratorValue y w2 L2. destruct y as [y|e]; [finish|].
    eapply step_safe; [done_later|intros; apply safe_setDone; eauto using later_hasRecord|]. intros _ w3 L3 _. finish.
  - eapply step_safe; [done_later|intros; apply safe_setDone; eauto using later_hasRecord|]. intros _ w3 L3 _. finish.
  - eapply step_safe; [done_later|intros; apply safe_setDone; eauto using later_hasRecord|]. intros _ w3 L3 _. finish.
Qed.

(** ** Combinators *)

Lemma safe_rejectCapability w k v : wf w -> safe (rejectCapability ask k v) w.
Proof. intros Hwf. unfold rejectCapability. use Hask x w1 L1. finish. Qed.

Lemma safe_getPromiseResolve w C : wf w -> safe (getPromiseResolve ask C) w.
Proof. intros Hwf. unfold getPromiseResolve. use Hask x w1 L1. heap_read. case_if; finish. Qed.

Lemma safe_withIterator w C iterable perform : wf w ->
  (forall k f r w', wf w' -> hasRecord w' r -> safe (perform k f r) w') -> safe (withIterator ask C iterable perform) w.
Proof.
  intros Hwf Hperform. unfold withIterator. case_if; [finish|]. use safe_newPromiseCapability k w1 L1.
  use safe_getPromiseResolve f w2 L2. destruct f as [f|e]; [|apply step_last; [done_later|intros; apply safe_rejectCapability; auto]].
  apply wpc_bind, wpc_attempt.
  refine (wpc_mono _ _ _ _ _ _ _ _ (getIterator_ok w2 iterable (later_wf _ _ L2)) _ _ _).
  - intros r w3 [L3 Hr]. apply step_last; [done_later|]. intros. apply Hperform; assumption.
  - intros w3 L3 e. apply step_last; [done_later|intros; apply safe_rejectCapability; auto].
  - intros w3 L3. done_later.
Qed.

(** What holds before every turn of a loop over elements that started from [w0]. *)
Record looping (w0 : World) (r values n : nat) (i : nat) (w : World) : Prop := {
  looping_later : later w0 w;
  looping_record : hasRecord w r;
  looping_values : exists l, heap w !! values = Some (ValueVector l) /\ i <= length l;
  looping_remaining : exists m, heap w !! n = Some (RemainingElements m) /\ uncalled (heap w) n < m;
  looping_new : heap w0 !! n = None
}.

Lemma looping_step w0 r values n i w w' : looping w0 r values n i w -> later w w' -> looping w0 r values n i w'.
Proof.
  intros [H1 H2 (l & Hl & Hi) (m & Hm & Hu) H5] L. constructor; [done_later|exact (later_hasRecord _ _ _ L H2)| | |exact H5].
  - destruct (later_values _ _ _ _ L Hl) as (l' & Hl' & Hlen). exists l'. split; [exact Hl'|lia].
  - destruct (later_slack _ _ _ _ L Hm) as (m' & Hm' & Hs). exists m'. split; [exact Hm'|lia].
Qed.

Lemma wpc_loop {A B} (I : A -> World -> Prop) w0 (body : A -> PM (A + B)) Q X : (forall a w, I a w -> later w0 w) ->
  (forall a w, I a w -> wpc (body a) w (fun r w' => match r with inl a' => I a' w' | inr b => Q b w' end) X (later w0)) ->
  forall fuel a w, I a w -> wpc (loop fuel body a) w Q X (later w0).
Proof.
  intros HI Hbody fuel. induction fuel as [|fuel IH]; intros a w Ha; cbn [loop]; [exact (HI a w Ha)|].
  apply wpc_bind. refine (wpc_mono _ _ _ _ _ _ _ _ (Hbody a w Ha) _ _ _); auto.
  intros [a'|b] w' H; [apply IH, H|exact H].
Qed.

Lemma safe_pushUndefined w values l : wf w -> heap w !! values = Some (ValueVector l) ->
  wpc (pushUndefined values) w (fun _ w' => later w w' /\ heap w' !! values = Some (ValueVector (l ++ [Undefined]))) (later w) (later w).
Proof.
  intros Hwf Hl. unfold pushUndefined. eapply step_values; [exact Hl|]. split.
  - apply (write_neutral w values _ (ValueVector (l ++ [Undefined])) Hwf Hl); cbn; [rewrite length_app; lia|exact I].
  - apply list_lookup_insert_eq, (lookup_lt_Some _ _ _ Hl).
Qed.

(** The end of the loops: the count of the loop itself is taken back. *)
Lemma loop_end w0 r values n i w B (k : nat -> PM B) Q : looping w0 r values n i w ->
  (forall m w', later w0 w' -> cells_evolve (heap w) (heap w') -> wpc (k m) w' Q (later w0) (later w0)) ->
  wpc (bind (decrementRemaining n) k) w Q (later w0) (later w0).
Proof.
  intros [H1 _ _ (m & Hm & Hu) H5] Hk. eapply decrement_step; [exact H1|exact Hm|exact Hu| |].
  - intros k0 Hk0. rewrite H5 in Hk0. discriminate.
  - intros w' L C _. exact (Hk _ _ L C).
Qed.

(** The functions of an element are made and counted in one go. *)
Lemma element_step {B} w kind f i values k n l m (kont : Value -> PM B) Q X F : wf w -> heap w !! f = Some (AlreadyCalled false) ->
  length (heap w) = S f -> heap w !! values = Some (ValueVector l) -> i < length l -> heap w !! n = Some (RemainingElements m) ->
  (forall w', later w w' -> wpc (kont (Obj (S f))) w' Q X F) ->
  wpc (let! e := elementFunction kind f i values k n in do! incrementRemaining n in kont e) w Q X F.
Proof.
  intros Hwf Hf Hlen Hl Hi Hn Hk. set (E := ElementFunction kind f i values (m_resolveFunction k) (m_rejectFunction k) n).
  assert (He : elementsOf f i values n [E]) by (split; [discriminate|constructor; [repeat eexists|constructor]]).
  specialize (Hk _ (elements_made w f i values n [E] l m Hwf Hf Hlen Hl Hi Hn He)).
  apply wpc_bind. unfold elementFunction. apply wpc_bind.
  change (wpc (do! incrementRemaining n in kont (Obj (length (heap w)))) (setHeap (heap w ++ [E]) w) Q X F).
  rewrite Hlen. apply wpc_bind. unfold incrementRemaining.
  eapply step_remaining; [exact (lookup_app_l_Some _ _ _ _ Hn)|exact Hk].
Qed.

Lemma elements_step {B} w k1 k2 f i values k n l m (kont : Value -> Value -> PM B) Q X F : wf w -> heap w !! f = Some (AlreadyCalled false) ->
  length (heap w) = S f -> heap w !! values = Some (ValueVector l) -> i < length l -> heap w !! n = Some (RemainingElements m) ->
  (forall w', later w w' -> wpc (kont (Obj (S f)) (Obj (S (S f)))) w' Q X F) ->
  wpc (let! e1 := elementFunction k1 f i values k n in let! e2 := elementFunction k2 f i values k n in
       do! incrementRemaining n in kont e1 e2) w Q X F.
Proof.
  intros Hwf Hf Hlen Hl Hi Hn Hk. set (E1 := ElementFunction k1 f i values (m_resolveFunction k) (m_rejectFunction k) n).
  set (E2 := ElementFunction k2 f i values (m_resolveFunction k) (m_rejectFunction k) n).
  assert (He : elementsOf f i values n [E1; E2]) by (split; [discriminate|repeat (constructor; [repeat eexists|]); constructor]).
  specialize (Hk _ (elements_made w f i values n [E1; E2] l m Hwf Hf Hlen Hl Hi Hn He)).
  apply wpc_bind. unfold elementFunction. apply wpc_bind.
  change (wpc (let! a := newCell E2 in let! e2 := ret (Obj a) in
    do! incrementRemaining n in kont (Obj (length (heap w))) e2) (setHeap (heap w ++ [E1]) w) Q X F).
  apply wpc_bind.
  change (wpc (do! incrementRemaining n in kont (Obj (length (heap w))) (Obj (length (heap w ++ [E1]))))
            (setHeap ((heap w ++ [E1]) ++ [E2]) w) Q X F).
  rewrite length_app, Hlen, Nat.add_1_r, <- app_assoc. apply wpc_bind. unfold incrementRemaining.
  eapply step_remaining; [exact (lookup_app_l_Some _ _ _ _ Hn)|exact Hk].
Qed.

Section Turns.
Context (w0 : World) (C : Value) (k : Capability) (f : Value) (r values n : nat).

(** The result of a turn. *)
Definition turned (r' : nat + Value) (w : World) : Prop :=
  match r' with inl i => looping w0 r values n i w | inr _ => later w0 w end.

Lemma element_turn (atEnd : PM (nat + Value)) (element : Value -> PM (nat + Value)) i w : looping w0 r values n i w ->
  (forall w1, looping w0 r values n i w1 -> wpc atEnd w1 turned (later w0) (later w0)) ->
  (forall v w1, looping w0 r values n (S i) w1 -> wpc (element v) w1 turned (later w0) (later w0)) ->
  wpc (let! next := nextElement ask r in
       match next with None => atEnd | Some v => do! pushUndefined values in element v end) w turned (later w0) (later w0).
Proof.
  intros Hi Hend Helement. pose proof (looping_later _ _ _ _ _ _ Hi) as L.
  eapply step_safe; [exact L|intros; apply safe_nextElement; [assumption|exact (looping_record _ _ _ _ _ _ Hi)]|].
  intros next w1 L1 _. pose proof (looping_step _ _ _ _ _ _ _ Hi L1) as Hi1. destruct next as [v|]; [|exact (Hend w1 Hi1)].
  destruct (looping_values _ _ _ _ _ _ Hi1) as (l & Hl & Hlen). pose proof (looping_later _ _ _ _ _ _ Hi1) as L01.
  apply wpc_bind. refine (wpc_mono _ _ _ _ _ _ _ _ (safe_pushUndefined w1 values l (later_wf _ _ L01) Hl) _ _ _).
  - intros _ w2 [L2 Hl2]. apply Helement. destruct (looping_step _ _ _ _ _ _ _ Hi1 L2) as [H1 H2 _ H4 H5].
    constructor; [exact H1|exact H2| |exact H4|exact H5]. eexists. split; [exact Hl2|]. rewrite length_app. cbn. lia.
  - intros; done_later.
  - intros; done_later.
Qed.

Lemma resolve_end i w : looping w0 r values n i w ->
  wpc (let! result := resolveWithValues ask k values n in break result) w turned (later w0) (later w0).
Proof.
  intros Hi. apply wpc_bind. unfold resolveWithValues. eapply loop_end; [exact Hi|]. intros m w1 L1 C1. cbn beta.
  destruct (looping_values _ _ _ _ _ _ Hi) as (l & Hl & _). destruct (evolve_values _ _ _ _ C1 Hl) as (l1 & Hl1 & _).
  case_if; [|exact L1]. eapply step_values; [exact Hl1|]. apply wpc_bind. unfold createArrayFromList.
  alloc w2 C2. apply wpc_ret. use Hask x w3 L3. apply wpc_ret. done_later.
Qed.

(** The call of then on the promise of an element, and the next turn. *)
Lemma invoke_then i w (thenArgs : list Value) nextPromise : looping w0 r values n i w ->
  wpc (let! nextPromiseObject := toObject nextPromise in
       let! then_ := ask (Get nextPromiseObject name_then) in
       do! ask (Call then_ nextPromiseObject thenArgs) in continue i) w turned (later w0) (later w0).
Proof.
  intros Hi. pose proof (looping_later _ _ _ _ _ _ Hi) as L. use safe_toObject o w1 L1. use Hask t w2 L2. use Hask x w3 L3.
  apply (looping_step _ _ _ _ _ w); [exact Hi|done_later].
Qed.

(** The flag and the facts that the functions of an element need. *)
Lemma new_element {B} i w (kont : nat -> PM B) Q : looping w0 r values n (S i) w ->
  (forall fl w1 l m, looping w0 r values n (S i) w1 -> heap w1 !! fl = Some (AlreadyCalled false) -> length (heap w1) = S fl ->
     heap w1 !! values = Some (ValueVector l) -> i < length l -> heap w1 !! n = Some (RemainingElements m) ->
     wpc (kont fl) w1 Q (later w0) (later w0)) ->
  wpc (bind (newCell (AlreadyCalled false)) kont) w Q (later w0) (later w0).
Proof.
  intros Hi Hk. pose proof (looping_later _ _ _ _ _ _ Hi) as L. eapply step_new; [exact L|exact I|exact I|].
  intros w1 L1 _ Hf Hlen. pose proof (looping_step _ _ _ _ _ _ _ Hi L1) as Hi1.
  destruct (looping_values _ _ _ _ _ _ Hi1) as (l & Hl & Hlt). destruct (looping_remaining _ _ _ _ _ _ Hi1) as (m & Hm & _).
  eapply Hk; eauto.
Qed.

Lemma safe_all_turn i w : looping w0 r values n i w ->
  wpc (promiseAll_turn ask C k f r values n i) w turned (later w0) (later w0).
Proof.
  intros Hi. apply (element_turn _ _ i w Hi); [exact (resolve_end i)|]. intros v w1 H1. pose proof (looping_later _ _ _ _ _ _ H1) as L1.
  use Hask np w2 L2. pose proof (looping_step _ _ _ _ _ _ _ H1 L2) as H2.
  apply (new_element i w2 _ _ H2). intros fl w3 l m H3 Hf Hlen Hl Hlt Hm.
  eapply element_step; eauto using looping_later, later_wf. intros w4 L4. apply invoke_then.
  exact (looping_step _ _ _ _ _ _ _ H3 L4).
Qed.

Lemma safe_any_turn i w : looping w0 r values n i w ->
  wpc (promiseAny_turn ask C k f r values n i) w turned (later w0) (later w0).
Proof.
  intros Hi. apply (element_turn _ _ i w Hi).
  - intros w1 H1. eapply loop_end; [exact H1|]. intros m w2 L2 C2. cbn beta.
    destruct (looping_values _ _ _ _ _ _ H1) as (l & Hl & _). destruct (evolve_values _ _ _ _ C2 Hl) as (l2 & Hl2 & _).
    case_if; [|exact L2]. apply wpc_bind. unfold newAggregateError. eapply step_values; [exact Hl2|].
    apply wpc_bind. unfold createArrayFromList. alloc w3 C3. apply wpc_ret. alloc w4 C4. apply wpc_ret. finish.
  - intros v w1 H1. pose proof (looping_later _ _ _ _ _ _ H1) as L1.
    use Hask np w2 L2. pose proof (looping_step _ _ _ _ _ _ _ H1 L2) as H2.
    apply (new_element i w2 _ _ H2). intros fl w3 l m H3 Hf Hlen Hl Hlt Hm.
    eapply element_step; eauto using looping_later, later_wf. intros w4 L4. apply invoke_then.
    exact (looping_step _ _ _ _ _ _ _ H3 L4).
Qed.

Lemma safe_allSettled_turn i w : looping w0 r values n i w ->
  wpc (promiseAllSettled_turn ask C k f r values n i) w turned (later w0) (later w0).
Proof.
  intros Hi. apply (element_turn _ _ i w Hi); [exact (resolve_end i)|]. intros v w1 H1. pose proof (looping_later _ _ _ _ _ _ H1) as L1.
  use Hask np w2 L2. pose proof (looping_step _ _ _ _ _ _ _ H1 L2) as H2.
  apply (new_element i w2 _ _ H2). intros fl w3 l m H3 Hf Hlen Hl Hlt Hm.
  eapply elements_step; eauto using looping_later, later_wf. intros w4 L4.
  pose proof (looping_step _ _ _ _ _ _ _ H3 L4) as H4. pose proof (looping_later _ _ _ _ _ _ H4) as L04.
  use safe_getMethod t w5 L5. use Hask x w6 L6. apply (looping_step _ _ _ _ _ w4); [exact H4|done_later].
Qed.
End Turns.

(** A combinator: its vector and counter are new, so that its loop has what it needs. *)
Lemma safe_performCombinator w r fuel turn : wf w -> hasRecord w r ->
  (forall values n i w', looping w r values n i w' -> wpc (turn values n i) w' (turned w r values n) (later w) (later w)) ->
  safe (performCombinator fuel turn) w.
Proof.
  intros Hwf Hr Hturn. unfold performCombinator, safe. alloc w1 C1. assert (Hwf1 : wf w1) by done_later.
  pose proof (new_cell_ok w1 (RemainingElements 1) Hwf1 I I) as L2.
  apply wpc_bind. change (wpc (loop fuel (turn (length (heap w)) (length (heap w1))) 0) (setHeap (heap w1 ++ [RemainingElements 1]) w1)
    (fun _ => later w) (later w) (later w)).
  set (w2 := setHeap (heap w1 ++ [RemainingElements 1]) w1) in *.
  refine (wpc_loop (fun i w' => looping w r (length (heap w)) (length (heap w1)) i w') w _ _ _ _ _ fuel 0 w2 _).
  - intros i w' H'. exact (looping_later _ _ _ _ _ _ H').
  - intros i w' H'. refine (wpc_mono _ _ _ _ _ _ _ _ (Hturn _ _ i w' H') _ _ _); auto.
  - constructor; [done_later|apply (later_hasRecord w); [done_later|exact Hr]| | |].
    + destruct (later_values w1 w2 _ _ ltac:(done_later) C1) as (l & Hl & _). exists l. split; [exact Hl|lia].
    + exists 1. split; [cbn; rewrite lookup_app_r, Nat.sub_diag by lia; reflexivity|].
      change (heap w2) with (heap w1 ++ [RemainingElements 1]). rewrite fresh_uncalled by exact I. destruct (no_pairs_beyond w1 (length (heap w1)) Hwf1 ltac:(lia)) as [_ ->]. lia.
    + apply lookup_ge_None_2. lia.
Qed.

Lemma safe_race_turn w0 C k f r w : later w0 w -> hasRecord w r ->
  wpc (promiseRace_turn ask C k f r tt) w
    (fun r' w' => match r' with inl _ => later w0 w' /\ hasRecord w' r | inr _ => later w0 w' end) (later w0) (later w0).
Proof.
  intros L Hr. unfold promiseRace_turn.
  eapply step_safe; [exact L|intros; apply safe_nextElement; assumption|]. intros next w1 L1 H1.
  destruct next as [v|]; [|exact H1]. use Hask np w2 L2. use safe_toObject o w3 L3. use Hask t w4 L4. use Hask x w5 L5.
  split; [done_later|]. apply (later_hasRecord w); [done_later|exact Hr].
Qed.

Lemma safe_race_loop w C k f r fuel : wf w -> hasRecord w r -> safe (loop fuel (promiseRace_turn ask C k f r) tt) w.
Proof.
  intros Hwf Hr. refine (wpc_loop (fun _ w' => later w w' /\ hasRecord w' r) w _ _ _ _ _ fuel tt w _).
  - intros _ w' [L _]. exact L.
  - intros [] w' [L Hr']. apply safe_race_turn; assumption.
  - split; [apply later_refl, Hwf|exact Hr].
Qed.

Lemma safe_closeAndReject w k r v : wf w -> hasRecord w r -> safe (closeAndReject ask k r v) w.
Proof.
  intros Hwf Hr. unfold closeAndReject. pose proof Hr as (i & n & d & Hd). eapply step_record; [exact Hd|]. cbn [fst snd].
  eapply step_attempt; [done_later|intros; destruct d; [apply safe_ret|apply safe_closeThrowing]; assumption|].
  intros c w1 L1 _. apply step_last; [exact L1|intros; apply safe_rejectCapability; assumption].
Qed.

Lemma safe_closeAndRejectSettled w k r v : wf w -> hasRecord w r -> safe (closeAndRejectSettled ask k r v) w.
Proof.
  intros Hwf Hr. unfold closeAndRejectSettled. pose proof Hr as (i & n & d & Hd). eapply step_record; [exact Hd|]. cbn [fst snd].
  case_if; [|apply safe_rejectCapability, Hwf].
  eapply step_attempt; [done_later|intros; apply safe_closeThrowing; assumption|].
  intros c w1 L1 _. destruct c; [finish|]. apply step_last; [exact L1|intros; apply safe_rejectCapability; assumption].
Qed.

(** A combinator with its handler. *)
Lemma safe_combinator w C iterable (perform : Capability -> Value -> nat -> PM Value) (handler : Capability -> nat -> Value -> PM Value) :
  wf w -> (forall k f r w', wf w' -> hasRecord w' r -> safe (perform k f r) w') ->
  (forall k r v w', wf w' -> hasRecord w' r -> safe (handler k r v) w') ->
  safe (withIterator ask C iterable (fun k f r =>
    let! result := attempt (perform k f r) in match result with inl v => ret v | inr v => handler k r v end)) w.
Proof.
  intros Hwf Hp Hh. apply safe_withIterator; [exact Hwf|]. intros k f r w' Hwf' Hr. unfold safe.
  eapply step_attempt; [done_later|intros; apply Hp; assumption|]. intros [v|v] w1 L1 _; [finish|].
  apply step_last; [exact L1|]. intros. apply Hh; [assumption|exact (later_hasRecord _ _ _ L1 Hr)].
Qed.

(** ** The functions of the constructor *)

Lemma step_newPromise {B} w0 w (kont : nat -> Capability -> PM B) Q : later w0 w ->
  (forall p k w', later w w' -> later w0 w' -> wpc (kont p k) w' Q (later w0) (later w0)) ->
  wpc (let! p := newPromiseObject in let! k := createResolvingFunctions p in kont p k) w Q (later w0) (later w0).
Proof.
  intros L Hk. pose proof (safe_newCapability w (later_wf _ _ L)) as Hs.
  unfold safe, wpc, bind, newPromiseObject, newCell in *. rewrite createResolving_run in *.
  exact (Hk _ _ _ Hs (later_trans _ _ _ L Hs)).
Qed.

Lemma safe_builtinPromiseConstructor w argv newTarget : wf w -> safe (builtinPromiseConstructor ask argv newTarget) w.
Proof.
  intros Hwf. unfold builtinPromiseConstructor. destruct newTarget as [nt|]; [|finish]. heap_read. case_if; [finish|].
  use Hask x w1 L1. eapply step_newPromise; [done_later|]. intros p k w2 L2 _. use Hask res w3 L3.
  destruct res; [finish|]. use Hask y w4 L4. finish.
Qed.

Lemma safe_builtinPromiseReject w thisValue argv : wf w -> safe (builtinPromiseReject ask thisValue argv) w.
Proof.
  intros Hwf. unfold builtinPromiseReject. use safe_toObject o w1 L1. use safe_newPromiseCapability k w2 L2.
  use Hask x w3 L3. finish.
Qed.

Lemma safe_builtinPromiseCatch w thisValue argv : wf w -> safe (builtinPromiseCatch ask thisValue argv) w.
Proof. intros Hwf. unfold builtinPromiseCatch. use safe_toObject o w1 L1. use Hask t w2 L2. final Hask. Qed.

Lemma safe_builtinPromiseFinally w thisValue argv : wf w -> safe (builtinPromiseFinally ask thisValue argv) w.
Proof.
  intros Hwf. unfold builtinPromiseFinally. case_if; [finish|]. apply wpc_bind.
  refine (wpc_mono _ _ _ _ _ _ _ _ (speciesConstructor_ok w thisValue (Builtin builtinPromiseConstructor_) Hwf eq_refl) _ (fun _ => id) (fun _ => id)).
  intros C w1 [L1 HC]. heap_read. eapply (step_safe w w1); [done_later| |].
  - intros Hwf1. unfold safe. destruct (isCallable (heap w1) (arg 0 argv)) eqn:Hf; [|finish].
    alloc w2 C2; [exact (conj (evolve_constructor _ _ _ (evolve_app _ _) HC) (evolve_callable _ _ _ (evolve_app _ _) Hf))|].
    pose proof (later_evolve w1 w2 ltac:(done_later)) as E. alloc w3 C3; [|finish].
    pose proof (cells_evolve_trans _ _ _ E (evolve_app (heap w2) [CatchFinally C (arg 0 argv)])) as E'.
    exact (conj (evolve_constructor _ _ _ E' HC) (evolve_callable _ _ _ E' Hf)).
  - intros args w2 L2 _. use Hask t w3 L3. final Hask.
Qed.

Lemma safe_builtinPromiseThen w thisValue argv : wf w -> safe (builtinPromiseThen ask thisValue argv) w.
Proof.
  intros Hwf. unfold builtinPromiseThen. heap_read.
  destruct (asPromiseObject (heap w) thisValue) as [p|] eqn:E; [|finish].
  assert (Hp : isPromise (heap w) p).
  { destruct thisValue as [| | | |a|]; try discriminate. cbn in E. destruct (heap w !! a) as [[]|] eqn:Ea; try discriminate.
    injection E as <-. repeat eexists. exact Ea. }
  use safe_speciesConstructor C w1 L1. use safe_newPromiseCapability k w2 L2.
  eapply step_safe; [done_later|intros; apply safe_performThen; [assumption|apply (later_promise w); [done_later|exact Hp]]|].
  intros v w3 L3 _. finish.
Qed.

Lemma safe_builtinFunction w fuel b thisValue argv : wf w -> safe (builtinFunction ask fuel b thisValue argv) w.
Proof.
  intros Hwf. destruct b; cbn [builtinFunction].
  - apply safe_builtinPromiseConstructor, Hwf.
  - apply (safe_combinator w _ _ (fun k f r => performCombinator fuel (promiseAll_turn ask thisValue k f r)) (closeAndReject ask) Hwf).
    + intros k f r w' Hwf' Hr. apply (safe_performCombinator w' r); [assumption..|]. intros. apply safe_all_turn. assumption.
    + intros. apply safe_closeAndReject; assumption.
  - apply (safe_combinator w _ _ (fun k f r => loop fuel (promiseRace_turn ask thisValue k f r) tt) (closeAndReject ask) Hwf).
    + intros. apply safe_race_loop; assumption.
    + intros. apply safe_closeAndReject; assumption.
  - apply safe_builtinPromiseReject, Hwf.
  - unfold builtinPromiseResolve. case_if; [finish|]. apply safe_promiseResolve, Hwf.
  - apply safe_builtinPromiseCatch, Hwf.
  - apply safe_builtinPromiseFinally, Hwf.
  - apply safe_builtinPromiseThen, Hwf.
  - apply (safe_combinator w _ _ (fun k f r => performCombinator fuel (promiseAllSettled_turn ask thisValue k f r)) (closeAndRejectSettled ask) Hwf).
    + intros k f r w' Hwf' Hr. apply (safe_performCombinator w' r); [assumption..|]. intros. apply safe_allSettled_turn. assumption.
    + intros. apply safe_closeAndRejectSettled; assumption.
  - apply (safe_combinator w _ _ (fun k f r => performCombinator fuel (promiseAny_turn ask thisValue k f r)) (closeAndReject ask) Hwf).
    + intros k f r w' Hwf' Hr. apply (safe_performCombinator w' r); [assumption..|]. intros. apply safe_any_turn. assumption.
    + intros. apply safe_closeAndReject; assumption.
Qed.

(** ** Requests *)

Lemma later_setUser w u : wf w -> later w (setUser u w).
Proof. intros Hwf. apply (same_later w _ [] Undefined Hwf); [reflexivity|constructor|]. symmetry. apply app_nil_r. Qed.

Lemma safe_runScript w fuel r : wf w -> safe (runScript ask fuel r) w.
Proof.
  intros Hwf. unfold runScript. apply (wpc_loop (fun _ w' => later w w') w); [auto| |apply later_refl, Hwf].
  intros l w1 L1. unfold script_turn, wpc. destruct (turn l (user w1)) as [u [v|v|rq k|cl ct k]].
  - apply (later_trans _ _ _ L1), later_setUser, (later_wf _ _ L1).
  - apply (later_trans _ _ _ L1), later_setUser, (later_wf _ _ L1).
  - pose proof (later_setUser w1 u (later_wf _ _ L1)) as L2.
    change (wpc (let! answer := attempt (ask rq) in continue (k answer)) (setUser u w1)
      (fun (r' : Local + Value) w' => match r' with inl _ => later w w' | inr _ => later w w' end) (later w) (later w)).
    eapply step_attempt; [done_later|intros; apply Hask; assumption|]. intros a w3 L3 L03. exact L03.
  - pose proof (later_setUser w1 u (later_wf _ _ L1)) as L2.
    change (wpc (let! a := newCell (UserObject cl ct) in continue (k (Obj a))) (setUser u w1)
      (fun (r' : Local + Value) w' => match r' with inl _ => later w w' | inr _ => later w w' end) (later w) (later w)).
    eapply step_new; [done_later|exact I|exact I|]. intros w3 L3 L03 _ _. exact L03.
Qed.

Lemma safe_callCell w fuel a callee thisValue argv : wf w -> safe (callCell ask fuel (heap w !! a) callee thisValue argv) w.
Proof.
  intros Hwf. destruct (heap w !! a) as [[]|] eqn:Ea; cbn [callCell]; try (apply safe_typeError, Hwf).
  - apply safe_resolveFunctions; eauto.
  - apply safe_rejectFunctions; eauto.
  - apply safe_executor; [exact Hwf|]. exact (wf_cells _ Hwf _ _ Ea).
  - apply safe_elementFunction; eauto.
  - destruct (wf_cells _ Hwf _ _ Ea). apply safe_finallyFunction; auto.
  - destruct (wf_cells _ Hwf _ _ Ea). apply safe_finallyFunction; auto.
  - apply safe_ret, Hwf.
  - apply safe_throw, Hwf.
  - destruct callable; [apply safe_runScript, Hwf|apply safe_typeError, Hwf].
Qed.

Lemma safe_answer w fuel r : wf w -> safe (answer ask fuel r) w.
Proof.
  intros Hwf. destruct r as [callee thisValue argv|c argv nt|o name]; cbn [answer].
  - destruct callee; try (apply safe_typeError, Hwf).
    + heap_read. apply safe_callCell, Hwf.
    + apply safe_builtinFunction, Hwf.
  - heap_read. case_if; [finish|]. destruct c; try (apply safe_runScript, Hwf). apply safe_builtinPromiseConstructor, Hwf.
  - apply safe_runScript, Hwf.
Qed.

(** ** Jobs *)

Lemma safe_attempt {A} w (m : PM A) : safe m w -> safe (attempt m) w.
Proof. intros H. apply wpc_attempt. exact (wpc_mono _ _ _ _ _ _ _ _ H (fun _ _ L => L) (fun _ L _ => L) (fun _ L => L)). Qed.

Lemma safe_reactionJob w r v : wf w -> wf_reaction r -> safe (PromiseReactionJob_run ask r v) w.
Proof.
  intros Hwf Hr. apply safe_attempt.
  assert (Hcall : forall f x w', wf w' -> m_capability r <> None -> safe (callCapability ask (m_capability r) f x) w').
  { intros f x w' Hwf' Hc. unfold callCapability. destruct (m_capability r); [apply Hask, Hwf'|congruence]. }
  destruct (m_handler r) eqn:Eh.
  1-2: apply Hcall; [exact Hwf|]; intros Hn; destruct (Hr Hn) as [f' E]; congruence.
  eapply (step_attempt w w); [done_later| |].
  - intros _. unfold safe. use Hask res w1 L1. destruct (m_capability r); [final Hask|finish].
  - intros res w1 L1 _. destruct res; [finish|]. destruct (m_capability r); [final Hask|finish].
Qed.

Lemma thenableJob_ok w1 p t th : wf w1 -> isPromise (heap w1) p -> tokens w1 p = 0 ->
  wpc (PromiseResolveThenableJob_run ask p t th) w1 (fun _ w' => wf w' /\ cells_evolve (heap w1) (heap w') /\ exists new, m_jobs w' = m_jobs w1 ++ new)
    (fun _ => False) (fun w' => wf w' /\ cells_evolve (heap w1) (heap w') /\ exists new, m_jobs w' = m_jobs w1 ++ new).
Proof.
  intros Hwf Hp Ht. destruct (resolving_made w1 p Hwf Hp Ht) as (Hwf2 & HL & _).
  unfold PromiseResolveThenableJob_run. apply wpc_attempt, wpc_bind. unfold wpc at 1. rewrite createResolving_run. cbv beta iota zeta.
  match goal with |- wpc _ ?w _ _ _ => set (w2 := w) in * end.
  assert (Hend : forall w', later w2 w' -> wf w' /\ cells_evolve (heap w1) (heap w') /\ exists new, m_jobs w' = m_jobs w1 ++ new).
  { intros w' L. split; [exact (later_wf _ _ L)|]. split.
    - eapply cells_evolve_trans; [exact (later_cells _ _ _ _ HL)|exact (later_evolve _ _ L)].
    - destruct (later_jobs _ _ _ _ (proj2 L)) as [new Hn]. exists new. exact Hn. }
  refine (wpc_mono _ _ (fun _ => later w2) _ (later w2) _ (later w2) _ _ _ _ _).
  - eapply (step_attempt w2 w2); [apply later_refl, Hwf2|intros; apply Hask; assumption|].
    intros res w3 L3 _. destruct res; [finish|final Hask].
  - intros _ w' L. exact (Hend w' L).
  - intros w' L v. exact (Hend w' L).
  - intros w' L. exact (Hend w' L).
Qed.

(** The world without its first job. *)
Lemma popped w j rest : wf w -> m_jobs w = j :: rest -> wf (setJobs rest w) /\
  match j with PromiseResolveThenableJob p _ _ => isPromise (heap w) p /\ tokens (setJobs rest w) p = 0 | PromiseReactionJob r _ => wf_reaction r end.
Proof.
  intros Hwf Hj. pose proof (wf_jobs _ Hwf) as HJ. rewrite Hj in HJ. apply Forall_cons_1 in HJ as [Hj1 HJ].
  assert (Ht : forall p, tokens (setJobs rest w) p + thenableJobs [j] p = tokens w p).
  { intros p. unfold tokens. cbn [setJobs heap m_jobs]. rewrite Hj. change (j :: rest) with ([j] ++ rest). rewrite thenableJobs_app. lia. }
  split.
  - constructor; cbn; [exact (wf_cells _ Hwf)|exact HJ| |exact (wf_counters _ Hwf)].
    intros p. change (tokens (setJobs rest w) p <= 1). specialize (Ht p). pose proof (wf_tokens _ Hwf p). lia.
  - destruct j as [r v|p t th]; [exact Hj1|]. split; [exact Hj1|]. specialize (Ht p). pose proof (wf_tokens _ Hwf p).
    cbn [thenableJobs] in Ht. rewrite Nat.eqb_refl in Ht. lia.
Qed.

(** A job that runs takes the first place of the queue; what it enqueues goes to the end. *)
Definition ran (w w' : World) : Prop :=
  wf w' /\ cells_evolve (heap w) (heap w') /\ exists j rest new, m_jobs w = j :: rest /\ m_jobs w' = rest ++ new.

Lemma executePendingJob_ok w : wf w -> m_jobs w <> [] -> wpc (executePendingJob ask) w (fun _ => ran w) (fun _ => False) (ran w).
Proof.
  intros Hwf Hne. destruct (m_jobs w) as [|j rest] eqn:Hj; [congruence|]. destruct (popped w j rest Hwf Hj) as [Hwf1 Hj1].
  unfold executePendingJob. apply wpc_bind. unfold wpc at 1, nextJob. rewrite Hj. cbv beta iota.
  set (w1 := setJobs rest w) in *.
  assert (Hran : forall w', wf w' -> cells_evolve (heap w1) (heap w') -> (exists new, m_jobs w' = m_jobs w1 ++ new) -> ran w w').
  { intros w' Hwf' He [new Hn]. split; [exact Hwf'|]. split; [exact He|]. exists j, rest, new. auto. }
  destruct j as [r v|p t th]; cbn [runJob].
  - assert (Hend : forall w', later w1 w' -> ran w w').
    { intros w' L. apply Hran; [exact (later_wf _ _ L)|exact (later_evolve _ _ L)|exact (later_jobs _ _ _ _ (proj2 L))]. }
    pose proof (safe_reactionJob w1 r v Hwf1 Hj1) as Hs. unfold PromiseReactionJob_run, safe, wpc in *.
    revert Hs. match goal with |- context [attempt ?m w1] => generalize m end. intros m. unfold attempt.
    destruct (m w1) as [[a|[e|]|] w']; auto.
  - refine (wpc_mono _ _ _ _ _ _ _ _ (thenableJob_ok w1 p t th Hwf1 (proj1 Hj1) (proj2 Hj1)) _ _ _); [|tauto|].
    + intros _ w' (H1 & H2 & H3). auto.
    + intros w' (H1 & H2 & H3). auto.
Qed.
End Natives.

(** ** The interpreter *)

Lemma interpret_safe fuel : forall r w, wf w -> safe (interpret fuel r) w.
Proof.
  induction fuel as [|fuel IH]; intros r w Hwf; [exact (later_refl _ Hwf)|]. cbn [interpret]. apply safe_answer; [exact IH|exact Hwf].
Qed.
End Safety.
