(* ===== verification/PromiseHistory.v ===== *)
(** * Histories of requests and jobs

    The host makes requests and runs pending jobs, in any order; what natives and
    scripts do in between is whatever the program says.  The properties of promises,
    jobs and combinators hold after every such history. *)

From S2P Require Import Prelude Promise PromiseSpec PromiseSafety.
Local Open Scope esc_scope.

Section Histories.
Context {Prog : Program}.

(** The world before anything happened. *)
Definition start (u : User) : World := {| heap := []; m_jobs := []; rejectEvents := []; user := u |}.

(** What the host did from one world to another: requests, and jobs, which are listed
    in the order in which they ran. *)
Inductive history : World -> list Job -> World -> Prop :=
| history_nil w : history w [] w
| history_ask w fuel r o w1 ran w2 :
    interpret fuel r w = (o, w1) -> o <> Fuel -> history w1 ran w2 -> history w ran w2
| history_job w fuel j rest o w1 ran w2 :
    m_jobs w = j :: rest -> executePendingJob (interpret fuel) w = (o, w1) -> o <> Fuel -> history w1 ran w2 ->
    history w (j :: ran) w2.

Lemma start_wf u : wf (start u).
Proof.
  constructor; cbn.
  - intros a c H. discriminate.
  - constructor.
  - intros p. cbv. lia.
  - intros n m H. discriminate.
Qed.

(** What [safe] says about a run. *)
Lemma safe_run {A} (m : PM A) w o w' : safe m w -> m w = (o, w') -> later w w' /\ o <> Throw Crash.
Proof. unfold safe, wpc. intros H E. rewrite E in H. destruct o as [a|[v|]|]; [split; [exact H|discriminate]..|destruct H|split; [exact H|discriminate]]. Qed.

Lemma request_later fuel r w o w' : wf w -> interpret fuel r w = (o, w') -> later w w' /\ o <> Throw Crash.
Proof. intros Hwf. apply safe_run, interpret_safe, Hwf. Qed.

Lemma job_ran fuel w o w' : wf w -> m_jobs w <> [] -> executePendingJob (interpret fuel) w = (o, w') ->
  ran w w' /\ o <> Throw Crash.
Proof.
  intros Hwf Hne E. pose proof (executePendingJob_ok _ (fun r w => interpret_safe fuel r w) w Hwf Hne) as H.
  unfold wpc in H. rewrite E in H. destruct o as [a|[v|]|]; [split; [exact H|discriminate]|destruct H..|split; [exact H|discriminate]].
Qed.

(** A history only makes cells evolve, and takes jobs from the front of the queue. *)
Lemma history_keeps w l w' : history w l w' -> wf w ->
  wf w' /\ cells_evolve (heap w) (heap w') /\ exists enqueued, m_jobs w ++ enqueued = l ++ m_jobs w'.
Proof.
  induction 1 as [w|w fuel r o w1 l w2 E _ _ IH|w fuel j rest o w1 l w2 Hj E _ _ IH]; intros Hwf.
  - split; [exact Hwf|]. split; [apply cells_evolve_refl|]. exists []. apply app_nil_r.
  - destruct (request_later _ _ _ _ _ Hwf E) as [[Hwf1 L] _]. destruct (IH Hwf1) as (Hwf2 & C & e & He).
    split; [exact Hwf2|]. split; [exact (cells_evolve_trans _ _ _ (later_cells _ _ _ _ L) C)|].
    destruct (later_jobs _ _ _ _ L) as [new Hn]. exists (new ++ e). rewrite app_assoc, <- Hn. exact He.
  - destruct (job_ran _ _ _ _ Hwf ltac:(rewrite Hj; discriminate) E) as [(Hwf1 & C1 & j' & rest' & new & Hj' & Hn) _].
    rewrite Hj in Hj'. injection Hj' as <- <-. destruct (IH Hwf1) as (Hwf2 & C & e & He).
    split; [exact Hwf2|]. split; [exact (cells_evolve_trans _ _ _ C1 C)|].
    exists (new ++ e). rewrite Hj. cbn. f_equal. rewrite app_assoc, <- Hn. exact He.
Qed.

Lemma reached_wf u l w : history (start u) l w -> wf w.
Proof. intros H. exact (proj1 (history_keeps _ _ _ H (start_wf u))). Qed.

(** ** Promises *)

(** The flag of a pair is set when the promise is settled. *)
Lemma settled_flag w p f s v fr rr : wf w -> heap w !! p = Some (PromiseObject s v fr rr) -> s <> Pending ->
  heap w !! S f = Some (ResolveFunction p f) -> heap w !! f = Some (AlreadyResolved true).
Proof.
  intros Hwf Hp Hs Hr. destruct (wf_cells _ Hwf _ _ Hr) as (_ & _ & [] & Hf); [exact Hf|]. exfalso.
  destruct (mark_resolved w p f Hwf Hf Hr) as (_ & _ & Ht).
  assert (H1 : settled (heap w) p = 1) by (unfold settled; rewrite Hp; destruct s; congruence).
  destruct (mark_resolved w p f Hwf Hf Hr) as (_ & Ht' & _).
  assert (Hne : f <> p) by (intros ->; rewrite Hp in Hf; discriminate).
  unfold tokens in Ht'. unfold settled in H1, Ht'. cbn [setHeap heap] in Ht'.
  rewrite list_lookup_insert_ne in Ht' by exact Hne. lia.
Qed.

(** A call of a function whose flag is set does nothing. *)
Lemma late_call w p f s v fr rr a fuel thisValue argv : wf w -> heap w !! p = Some (PromiseObject s v fr rr) -> s <> Pending ->
  heap w !! a = Some (ResolveFunction p f) \/ heap w !! a = Some (RejectFunction p f) ->
  interpret (S fuel) (Call (Obj a) thisValue argv) w = (Ret Undefined, w).
Proof.
  intros Hwf Hp Hs Ha.
  assert (Hf : heap w !! f = Some (AlreadyResolved true)).
  { destruct Ha as [Ha|Ha]; [destruct (wf_cells _ Hwf _ _ Ha) as [-> _]|pose proof (wf_cells _ Hwf _ _ Ha : heap w !! S f = _) as Ha'];
      eapply settled_flag; eassumption. }
  cbn [interpret answer]. unfold bind at 1, gets. destruct Ha as [-> | ->]; cbn [callCell];
    unfold promiseResolveFunctions, promiseRejectFunctions, readAlreadyResolved, readCell, bind; rewrite Hf; reflexivity.
Qed.

(** C24: a promise is settled at most once.  Whatever requests and jobs follow, a
    promise that is fulfilled or rejected keeps its state and its result, stores no
    reactions, and calls of its resolving functions change nothing at all. *)
Theorem promises_settle_once u l w l' w' p s v fr rr : history (start u) l w -> history w l' w' ->
  heap w !! p = Some (PromiseObject s v fr rr) -> s <> Pending ->
  heap w' !! p = Some (PromiseObject s v [] []) /\
  forall a f fuel thisValue argv, heap w' !! a = Some (ResolveFunction p f) \/ heap w' !! a = Some (RejectFunction p f) ->
    interpret (S fuel) (Call (Obj a) thisValue argv) w' = (Ret Undefined, w').
Proof.
  intros H1 H2 Hp Hs. destruct (history_keeps _ _ _ H2 (reached_wf _ _ _ H1)) as (Hwf' & C & _).
  destruct (C p _ Hp) as (c & Hc & E). destruct c as [s' v' fr' rr'| | | | | | | | | | | | | | | | | |]; cbn in E; try discriminate E.
  destruct E as [E|[-> ->]]; [contradiction|].
  destruct (wf_cells _ Hwf' _ _ Hc) as [[E|[-> ->]] _]; [contradiction|].
  split; [exact Hc|]. intros a f fuel thisValue argv. exact (late_call w' p f s v [] [] a fuel thisValue argv Hwf' Hc Hs).
Qed.

(** ** Crashes *)

(** C25: no request and no job of any history fails an assertion, reads a slot that
    holds something else, indexes outside of a vector or counts below zero. *)
Theorem natives_never_crash u l w fuel r : history (start u) l w ->
  fst (interpret fuel r w) <> Throw Crash /\
  (hasPendingJob w = true -> fst (executePendingJob (interpret fuel) w) <> Throw Crash).
Proof.
  intros H. pose proof (reached_wf _ _ _ H) as Hwf. split.
  - destruct (interpret fuel r w) as [o w'] eqn:E. exact (proj2 (request_later _ _ _ _ _ Hwf E)).
  - intros Hj. destruct (executePendingJob (interpret fuel) w) as [o w'] eqn:E. refine (proj2 (job_ran _ _ _ _ Hwf _ E)).
    intros Hn. unfold hasPendingJob in Hj. rewrite Hn in Hj. discriminate.
Qed.

(** ** Jobs *)

(** C26: jobs run in the order in which they were enqueued: what was in the queue,
    followed by what a history enqueued, is what the history ran, followed by what is
    in the queue now; and a request runs no job, but only adds to the queue. *)
Theorem jobs_run_in_order u l w l' w' : history (start u) l w -> history w l' w' ->
  (exists enqueued, m_jobs w ++ enqueued = l' ++ m_jobs w') /\
  forall fuel r o w1, interpret fuel r w' = (o, w1) -> exists new, m_jobs w1 = m_jobs w' ++ new.
Proof.
  intros H1 H2. pose proof (reached_wf _ _ _ H1) as Hwf. destruct (history_keeps _ _ _ H2 Hwf) as (Hwf' & _ & He).
  split; [exact He|]. intros fuel r o w1 E. destruct (request_later _ _ _ _ _ Hwf' E) as [[_ L] _]. exact (later_jobs _ _ _ _ L).
Qed.

(** ** Combinators *)

(** An element function that has not been called is counted. *)
Lemma uncalled_counted h k f i values r j n : h !! f = Some (AlreadyCalled false) -> h !! S f = Some (ElementFunction k f i values r j n) ->
  uncalled h n <> 0.
Proof.
  intros Hf He. unfold uncalled. rewrite <- (take_drop_middle h f _ Hf).
  rewrite pairs_app by first_neighbour. rewrite pairs_cons.
  assert (Hd : head (drop (S f) h) = Some (ElementFunction k f i values r j n)).
  { rewrite <- He. rewrite <- (Nat.add_0_r (S f)) at 2. rewrite <- lookup_drop. destruct (drop (S f) h); reflexivity. }
  rewrite Hd. cbn. rewrite Nat.eqb_refl. lia.
Qed.

(** C27: the count of all, allSettled and any never falls below the number of elements
    whose functions were not called: when it is zero, each of them was called, and
    its place in the vector of values exists. *)
Theorem combinators_wait u l w a k f i values r j n m : history (start u) l w ->
  heap w !! a = Some (ElementFunction k f i values r j n) -> heap w !! n = Some (RemainingElements m) ->
  uncalled (heap w) n <= m /\ (m = 0 -> heap w !! f = Some (AlreadyCalled true)) /\
  exists vs, heap w !! values = Some (ValueVector vs) /\ i < length vs.
Proof.
  intros H Ha Hn. pose proof (reached_wf _ _ _ H) as Hwf. pose proof (wf_counters _ Hwf _ _ Hn) as Hm.
  destruct (wf_cells _ Hwf _ _ Ha) as ((k' & r' & j' & He) & (b & Hf) & Hv & _). split; [exact Hm|]. split; [|exact Hv].
  intros ->. destruct b; [exact Hf|]. pose proof (uncalled_counted _ _ _ _ _ _ _ _ Hf He). lia.
Qed.
End Histories.

(** ** An example *)

(** Reads of then and of resolve give the builtins; every object iterates over one
    element, the number 5; calls of objects of the script answer the number 6. *)
Definition exampleTurn (r : Request) (u : nat) : nat * Action Request :=
  match r with
  | Get _ name_then => (u, Return (Builtin builtinPromiseThen_))
  | Get _ (name_resolve | name_iterator) => (u, Return (Builtin builtinPromiseResolve_))
  | Get _ name_next => (u, Return (Builtin builtinPromiseThen_))
  | Get _ name_done => (S u, Return (Boolean (1 <=? u)%nat))
  | Get _ name_value => (u, Return (Primitive 5))
  | Call _ _ _ => (u, Return (Primitive 6))
  | _ => (u, Return Undefined)
  end.

#[local] Instance exampleProgram : Program :=
  {| User := nat; Local := Request; onRequest := id; turn := exampleTurn; truthy := fun z => negb (z =? 0)%Z |}.

Definition exampleUser : @User exampleProgram := 0.

(** The worlds after a request and after a job. *)
Definition afterRequest (r : Request) (w : World) : World := snd (interpret 20 r w).
Definition afterJob (w : World) : World := snd (executePendingJob (interpret 20) w).

(** [Promise.resolve(7)], then [Promise.all] over the one element. *)
Definition resolvedWorld : World :=
  afterRequest (Call (Builtin builtinPromiseResolve_) (Builtin builtinPromiseConstructor_) [Primitive 7]) (start exampleUser).
Definition thenWorld : World := afterRequest (Call (Builtin builtinPromiseThen_) (Obj 0) []) resolvedWorld.
Definition allWorld : World :=
  afterRequest (Call (Builtin builtinPromiseAll_) (Builtin builtinPromiseConstructor_) [Builtin builtinPromiseConstructor_]) (start exampleUser).
Definition allCalledWorld : World := afterJob (afterJob allWorld).

Lemma request_history r w : fst (interpret 20 r w) <> Fuel -> history w [] (afterRequest r w).
Proof.
  intros H. unfold afterRequest. destruct (interpret 20 r w) as [o w1] eqn:E.
  exact (history_ask w 20 r o w1 [] w1 E H (history_nil w1)).
Qed.

Lemma history_app w l1 w1 l2 w2 : history w l1 w1 -> history w1 l2 w2 -> history w (l1 ++ l2) w2.
Proof. intros H1 H2. induction H1; [exact H2|eapply history_ask; eauto|eapply history_job; eauto]. Qed.

Lemma job_history w j rest : m_jobs w = j :: rest -> fst (executePendingJob (interpret 20) w) <> Fuel -> history w [j] (afterJob w).
Proof.
  intros Hj H. unfold afterJob. destruct (executePendingJob (interpret 20) w) as [o w1] eqn:E.
  exact (history_job w 20 j rest o w1 [] w1 Hj E H (history_nil w1)).
Qed.

Lemma resolvedWorld_reached : history (start exampleUser) [] resolvedWorld.
Proof. apply request_history. vm_compute. discriminate. Qed.

Lemma thenWorld_reached : history resolvedWorld [] thenWorld.
Proof. apply request_history. vm_compute. discriminate. Qed.

Lemma allWorld_reached : history (start exampleUser) [] allWorld.
Proof. apply request_history. vm_compute. discriminate. Qed.

Lemma allCalledWorld_reached : exists l, history allWorld l allCalledWorld.
Proof.
  eexists. unfold allCalledWorld. eapply history_app; eapply job_history; vm_compute; try reflexivity; discriminate.
Qed.

Lemma promises_settle_once_witness :
  heap thenWorld !! 0 = Some (PromiseObject FulFilled (Primitive 7) [] []) /\
  interpret 1 (Call (Obj 3) Undefined [Primitive 8]) thenWorld = (Ret Undefined, thenWorld).
Proof.
  destruct (promises_settle_once exampleUser [] resolvedWorld [] thenWorld 0 FulFilled (Primitive 7) [] []
              resolvedWorld_reached thenWorld_reached ltac:(reflexivity) ltac:(discriminate)) as [H1 H2].
  split; [exact H1|]. apply (H2 3 1 0 Undefined [Primitive 8]). right. reflexivity.
Defined.

Lemma natives_never_crash_witness :
  fst (interpret 20 (Call (Obj 20) Undefined []) allCalledWorld) <> Throw Crash.
Proof.
  destruct allCalledWorld_reached as [l H].
  exact (proj1 (natives_never_crash exampleUser ([] ++ l) allCalledWorld 20 _ (history_app _ _ _ _ _ allWorld_reached H))).
Defined.

Lemma jobs_run_in_order_witness : exists enqueued ran, m_jobs allWorld ++ enqueued = ran ++ m_jobs allCalledWorld.
Proof.
  destruct allCalledWorld_reached as [l H].
  destruct (jobs_run_in_order exampleUser [] allWorld l allCalledWorld allWorld_reached H) as [[e He] _]. exists e, l. exact He.
Defined.

Lemma combinators_wait_witness : heap allCalledWorld !! 19 = Some (AlreadyCalled true).
Proof.
  destruct allCalledWorld_reached as [l H].
  refine (proj1 (proj2 (combinators_wait exampleUser ([] ++ l) allCalledWorld 20 AllResolve 19 0 9 (Obj 2) (Obj 3) 10 0
    (history_app _ _ _ _ _ allWorld_reached H) _ _)) _); reflexivity.
Defined.

(** * What then passes on, and that fuel does not matter

    The answer of the interpreter is the same with all fuel that is enough; and the
    promise that [then] gives is settled, by one job, with what its handler answers. *)

Section Fuel.
Context {Prog : Program}.

(** ** More fuel *)

(** Where [m] has an answer, [m'] has the same. *)
Definition extends {A} (m m' : PM A) : Prop := forall w, fst (m w) = Fuel \/ m w = m' w.

Lemma extends_same {A} (m : PM A) : extends m m.
Proof. intros w. auto. Qed.

Lemma extends_bind {A B} (m m' : PM A) (k k' : A -> PM B) : extends m m' -> (forall a, extends (k a) (k' a)) ->
  extends (bind m k) (bind m' k').
Proof.
  intros Hm Hk w. unfold bind. destruct (Hm w) as [H|<-].
  - destruct (m w) as [[a|e|] w']; try discriminate. auto.
  - destruct (m w) as [[a|e|] w']; [apply Hk|auto|auto].
Qed.

Lemma extends_attempt {A} (m m' : PM A) : extends m m' -> extends (attempt m) (attempt m').
Proof.
  intros Hm w. unfold attempt. destruct (Hm w) as [H|<-]; [|auto].
  destruct (m w) as [[a|e|] w']; try discriminate. auto.
Qed.

Lemma extends_loop {A B} (body body' : A -> PM (A + B)) : (forall a, extends (body a) (body' a)) ->
  forall n n' a, n <= n' -> extends (loop n body a) (loop n' body' a).
Proof.
  intros Hb n. induction n as [|n IH]; intros n' a Hn; [intros w; left; reflexivity|].
  destruct n' as [|n']; [lia|]. cbn [loop]. apply extends_bind; [apply Hb|]. intros [a'|b]; [apply IH; lia|apply extends_same].
Qed.

Ltac head_of t := lazymatch t with ?f _ => head_of f | _ => t end.

(** Descends into the code, down to the requests. *)
Ltac extend :=
  repeat first
    [ assumption
    | apply extends_same
    | match goal with H : forall r, extends (_ r) (_ r) |- _ => apply H end
    | apply extends_attempt
    | apply extends_bind; [|intros]
    | apply extends_loop; [intros|assumption]
    | match goal with |- extends (let _ := _ in _) _ => cbv zeta end
    | match goal with |- extends (if ?b then _ else _) _ => destruct b end
    | match goal with |- extends (match ?x with _ => _ end) _ => destruct x end
    | match goal with |- extends ?m _ => let f := head_of m in unfold f end ].

Section Requests.
Context (ask ask' : Request -> PM Value) (Hask : forall r, extends (ask r) (ask' r)).

Lemma script_turn_extends l : extends (script_turn ask l) (script_turn ask' l).
Proof.
  intros w. unfold script_turn. destruct (turn l (user w)) as [u [v|v|rq k|c1 c2 k]]; auto.
  exact (extends_bind _ _ _ _ (extends_attempt _ _ (Hask rq)) (fun _ => extends_same _) (setUser u w)).
Qed.

Lemma runScript_extends n n' r : n <= n' -> extends (runScript ask n r) (runScript ask' n' r).
Proof. apply extends_loop, script_turn_extends. Qed.

Lemma answer_extends n n' r : n <= n' -> extends (answer ask n r) (answer ask' n' r).
Proof.
  intros Hn. pose proof (fun r => runScript_extends n n' r Hn) as Hscript.
  destruct r as [callee thisValue argv|c argv nt|o name]; cbn [answer]; [|extend|apply Hscript].
  destruct callee; try apply extends_same; [|extend].
  apply extends_bind; [apply extends_same|]. intros h. extend.
Qed.
End Requests.

Lemma interpret_extends n : forall n' r, n <= n' -> extends (interpret n r) (interpret n' r).
Proof.
  induction n as [|n IH]; intros n' r Hn; [intros w; left; reflexivity|]. destruct n' as [|n']; [lia|].
  cbn [interpret]. apply answer_extends; [|lia]. intros r'. apply IH. lia.
Qed.

Lemma executePendingJob_extends n n' : n <= n' -> extends (executePendingJob (interpret n)) (executePendingJob (interpret n')).
Proof.
  intros Hn. pose proof (fun r => interpret_extends n n' r Hn) as Hask. unfold executePendingJob.
  apply extends_bind; [apply extends_same|]. intros j. extend.
Qed.

(** The fuel of the interpreter does not matter: a request or a job that has an
    answer has the same answer, with the same effects, with all larger fuel; so the
    answers are those of the code, whose calls have no fuel. *)
Theorem fuel_does_not_matter n n' : n <= n' ->
  (forall r w, fst (interpret n r w) <> Fuel -> interpret n' r w = interpret n r w) /\
  (forall w, fst (executePendingJob (interpret n) w) <> Fuel ->
     executePendingJob (interpret n') w = executePendingJob (interpret n) w).
Proof.
  intros Hn. split.
  - intros r w H. destruct (interpret_extends n n' r Hn w) as [E|E]; [contradiction|exact (eq_sym E)].
  - intros w H. destruct (executePendingJob_extends n n' Hn w) as [E|E]; [contradiction|exact (eq_sym E)].
Qed.
End Fuel.

Section Then.
Context {Prog : Program}.

(** ** Calls of a live pair *)

(** The promise [d] is pending with these reactions, and the pair at [f] is live. *)
Record livePair (w : World) (d f : nat) (u : Value) (fr rr : list PromiseReaction) : Prop := {
  live_promise : heap w !! d = Some (PromiseObject Pending u fr rr);
  live_flag : heap w !! f = Some (AlreadyResolved false);
  live_resolve : heap w !! S f = Some (ResolveFunction d f);
  live_reject : heap w !! S (S f) = Some (RejectFunction d f)
}.

(** The promise is settled, and the reactions it had are jobs, in their order. *)
Definition settledWith (w w' : World) (d : nat) (s : PromiseState) (v : Value) (reactions : list PromiseReaction) : Prop :=
  heap w' !! d = Some (PromiseObject s v [] []) /\
  m_jobs w' = m_jobs w ++ map (fun r => PromiseReactionJob r v) reactions.

(** The flag of the pair is set. *)
Definition marked (f : nat) (w : World) : World := setHeap (<[f := AlreadyResolved true]> (heap w)) w.

Lemma live_marked w d f u fr rr : livePair w d f u fr rr -> heap (marked f w) !! d = Some (PromiseObject Pending u fr rr).
Proof.
  intros [Hd Hf _ _]. cbn. rewrite list_lookup_insert_ne; [exact Hd|]. intros ->. rewrite Hd in Hf. discriminate.
Qed.

Lemma fulfill_settles w d v s u fr rr : heap w !! d = Some (PromiseObject s u fr rr) ->
  exists w', fulfill d v w = (Ret tt, w') /\ settledWith w w' d FulFilled v fr.
Proof.
  intros Hd. unfold fulfill, bind, readCell. rewrite Hd. cbn. rewrite trigger_run. cbn. eexists. split; [reflexivity|].
  split; cbn; [|reflexivity]. apply list_lookup_insert_eq. rewrite length_insert. exact (lookup_lt_Some _ _ _ Hd).
Qed.

Lemma reject_settles w d v s u fr rr : heap w !! d = Some (PromiseObject s u fr rr) ->
  exists w', reject d v w = (Ret tt, w') /\ settledWith w w' d Rejected v rr.
Proof.
  intros Hd. unfold reject, bind, readCell. rewrite Hd.
  destruct rr as [|r rr]; cbn; [|rewrite (trigger_run rr)]; (eexists; split; [reflexivity|]; split; cbn).
  1, 3: apply list_lookup_insert_eq; rewrite length_insert; exact (lookup_lt_Some _ _ _ Hd).
  - symmetry. apply app_nil_r.
  - rewrite <- app_assoc. reflexivity.
Qed.

(** The resolve function of a live pair, called with what is no object. *)
Lemma resolve_primitive w d f u fr rr fuel thisValue x : livePair w d f u fr rr -> isObject x = false ->
  exists w', interpret (S fuel) (Call (Obj (S f)) thisValue [x]) w = (Ret Undefined, w') /\ settledWith w w' d FulFilled x fr.
Proof.
  intros H Hx. destruct (fulfill_settles (marked f w) d x _ _ _ _ (live_marked _ _ _ _ _ _ H)) as (w' & E & Hw').
  exists w'. split; [|exact Hw']. cbn [interpret answer]. unfold bind at 1, gets. rewrite (live_resolve _ _ _ _ _ _ H). cbn [callCell].
  unfold promiseResolveFunctions, readAlreadyResolved. unfold bind at 1 2, readCell at 1. rewrite (live_flag _ _ _ _ _ _ H).
  cbn [arg nth ret]. unfold bind at 1, writeCell, modify. fold (marked f w).
  rewrite bool_decide_eq_false_2 by (intros ->; discriminate Hx). rewrite Hx. cbn [negb]. unfold bind. rewrite E. reflexivity.
Qed.

(** The reject function of a live pair. *)
Lemma reject_live w d f u fr rr fuel thisValue e : livePair w d f u fr rr ->
  exists w', interpret (S fuel) (Call (Obj (S (S f))) thisValue [e]) w = (Ret Undefined, w') /\ settledWith w w' d Rejected e rr.
Proof.
  intros H. destruct (reject_settles (marked f w) d e _ _ _ _ (live_marked _ _ _ _ _ _ H)) as (w' & E & Hw').
  exists w'. split; [|exact Hw']. cbn [interpret answer]. unfold bind at 1, gets. rewrite (live_reject _ _ _ _ _ _ H). cbn [callCell].
  unfold promiseRejectFunctions, readAlreadyResolved. unfold bind at 1 2, readCell at 1. rewrite (live_flag _ _ _ _ _ _ H).
  cbn [arg nth ret]. unfold bind at 1, writeCell, modify. fold (marked f w). unfold bind. rewrite E. reflexivity.
Qed.

(** ** Reactions *)

Definition pairCapability (d f : nat) : Capability :=
  {| m_promise := Obj d; m_resolveFunction := Obj (S f); m_rejectFunction := Obj (S (S f)) |}.

(** What the handler of a reaction answers for [v]: a missing handler passes it on. *)
Definition handlerAnswer (fuel : nat) (h : Handler) (v : Value) (w : World) : outcome Thrown Value * World :=
  match h with
  | Identity => (Ret v, w)
  | Thrower => (Throw (Exception v), w)
  | Callable f => interpret fuel (Call f Undefined [v]) w
  end.

(** The state that the answer of a handler gives to the promise of the capability. *)
Definition answered (o : outcome Thrown Value) : option (PromiseState * Value) :=
  match o with
  | Ret x => if isObject x then None else Some (FulFilled, x)
  | Throw (Exception e) => Some (Rejected, e)
  | _ => None
  end.

(** The reactions that the settlement sets off. *)
Definition triggered (s : PromiseState) (fr rr : list PromiseReaction) : list PromiseReaction :=
  match s with FulFilled => fr | _ => rr end.

Lemma attempt_ret {A} (m : PM A) w a w' : m w = (Ret a, w') -> attempt m w = (Ret (inl a), w').
Proof. intros H. unfold attempt. rewrite H. reflexivity. Qed.

Lemma attempt_throw {A} (m : PM A) w v w' : m w = (Throw (Exception v), w') -> attempt m w = (Ret (inr v), w').
Proof. intros H. unfold attempt. rewrite H. reflexivity. Qed.

Lemma reaction_settles w fuel d f h v o w1 u fr rr s x : handlerAnswer (S fuel) h v w = (o, w1) -> livePair w1 d f u fr rr ->
  answered o = Some (s, x) ->
  exists w2, PromiseReactionJob_run (interpret (S fuel)) {| m_capability := Some (pairCapability d f); m_handler := h |} v w
             = (Ret (inl Undefined), w2) /\ settledWith w1 w2 d s x (triggered s fr rr).
Proof.
  intros Hh Hlive Ha. unfold PromiseReactionJob_run.
  destruct h as [| |g]; cbn [m_handler m_capability callCapability pairCapability m_resolveFunction m_rejectFunction handlerAnswer] in *.
  - injection Hh as <- <-. cbn in Ha. destruct (isObject v) eqn:Ev; [discriminate|]. injection Ha as <- <-.
    destruct (resolve_primitive _ _ _ _ _ _ fuel Undefined v Hlive Ev) as (w2 & E & Hs). exists w2. split; [|exact Hs].
    apply attempt_ret, E.
  - injection Hh as <- <-. injection Ha as <- <-.
    destruct (reject_live _ _ _ _ _ _ fuel Undefined v Hlive) as (w2 & E & Hs). exists w2. split; [|exact Hs].
    apply attempt_ret, E.
  - destruct o as [y|[e|]|]; cbn in Ha; try discriminate.
    + destruct (isObject y) eqn:Ey; [discriminate|]. injection Ha as <- <-.
      destruct (resolve_primitive _ _ _ _ _ _ fuel Undefined y Hlive Ey) as (w2 & E & Hs). exists w2. split; [|exact Hs].
      apply attempt_ret. unfold bind at 1. erewrite attempt_ret; [reflexivity|]. unfold bind. rewrite Hh. exact E.
    + injection Ha as <- <-.
      destruct (reject_live _ _ _ _ _ _ fuel Undefined e Hlive) as (w2 & E & Hs). exists w2. split; [|exact Hs].
      apply attempt_ret. unfold bind at 1. erewrite attempt_throw; [exact E|]. unfold bind. rewrite Hh. reflexivity.
Qed.

(** The handler that [then] takes for the state of its promise. *)
Definition handlerFor (h : list Cell) (s : PromiseState) (onFulfilled onRejected : Value) : Handler :=
  match s with
  | Rejected => if isCallable h onRejected then Callable onRejected else Thrower
  | _ => if isCallable h onFulfilled then Callable onFulfilled else Identity
  end.

(** The reaction that [then] makes for a state. *)
Definition reactionFor (h : list Cell) (s : PromiseState) (onFulfilled onRejected : Value) (k : Capability) : PromiseReaction :=
  {| m_capability := Some k; m_handler := handlerFor h s onFulfilled onRejected |}.

Lemma then_reacts w p s v fr0 rr0 onFulfilled onRejected k (reaction := fun s => reactionFor (heap w) s onFulfilled onRejected k) :
  heap w !! p = Some (PromiseObject s v fr0 rr0) ->
  exists w1, performThen p onFulfilled onRejected (Some k) w = (Ret (Some (m_promise k)), w1) /\
    match s with
    | Pending => heap w1 = <[p := PromiseObject Pending v (fr0 ++ [reaction FulFilled]) (rr0 ++ [reaction Rejected])]> (heap w) /\
                 m_jobs w1 = m_jobs w
    | _ => heap w1 = heap w /\ m_jobs w1 = m_jobs w ++ [PromiseReactionJob (reaction s) v]
    end.
Proof.
  intros Hp. unfold performThen, bind, gets, readCell. rewrite Hp. destruct s; cbn; (eexists; split; [reflexivity|]; split; reflexivity).
Qed.

(** C28: the promise that [then] gives is settled by one job, when it is of an intrinsic constructor: [then] of a
    settled promise enqueues that job, and [then] of a pending promise stores its reactions after those it had, which
    the settlement makes jobs of.  When the job comes to the head of the queue, it calls the handler for the state of
    the promise, or passes the result on when there is none.  The promise of the pair, if it is still live afterwards,
    is fulfilled with an answer that is no object and rejected with an exception, and its own reactions are enqueued
    in the order in which they were registered. *)
Theorem then_settles_derived w p s v fr0 rr0 onFulfilled onRejected d f
    (reaction := fun s => reactionFor (heap w) s onFulfilled onRejected (pairCapability d f)) :
  heap w !! p = Some (PromiseObject s v fr0 rr0) ->
  exists w1, performThen p onFulfilled onRejected (Some (pairCapability d f)) w = (Ret (Some (Obj d)), w1) /\
  match s with
  | Pending => heap w1 = <[p := PromiseObject Pending v (fr0 ++ [reaction FulFilled]) (rr0 ++ [reaction Rejected])]> (heap w) /\
               m_jobs w1 = m_jobs w
  | _ => heap w1 = heap w /\ m_jobs w1 = m_jobs w ++ [PromiseReactionJob (reaction s) v]
  end /\
  forall s' v' wx rest fuel o w2 u fr rr st x, m_jobs wx = PromiseReactionJob (reaction s') v' :: rest ->
    handlerAnswer (S fuel) (m_handler (reaction s')) v' (setJobs rest wx) = (o, w2) ->
    livePair w2 d f u fr rr -> answered o = Some (st, x) ->
    exists w3, executePendingJob (interpret (S fuel)) wx = (Ret (inl Undefined), w3) /\
      settledWith w2 w3 d st x (triggered st fr rr).
Proof.
  intros Hp. destruct (then_reacts w p s v fr0 rr0 onFulfilled onRejected (pairCapability d f) Hp) as (w1 & E & Hs).
  exists w1. split; [exact E|]. split; [exact Hs|]. intros s' v' wx rest fuel o w2 u fr rr st x Hj Ho Hlive Ha.
  destruct (reaction_settles _ _ _ _ _ _ _ _ _ _ _ _ _ Ho Hlive Ha) as (w3 & E3 & Hs3). exists w3. split; [|exact Hs3].
  unfold executePendingJob, bind at 1, nextJob. rewrite Hj. exact E3.
Qed.
End Then.

(** When the resolve function of a capability throws, the reject function is called
    with what it threw. *)
Lemma resolve_failure_rejects {Prog : Program} (ask : Request -> PM Value) k g v w x w1 e w2 :
  ask (Call g Undefined [v]) w = (Ret x, w1) -> ask (Call (m_resolveFunction k) Undefined [x]) w1 = (Throw (Exception e), w2) ->
  PromiseReactionJob_run ask {| m_capability := Some k; m_handler := Callable g |} v w
  = attempt (ask (Call (m_rejectFunction k) Undefined [e])) w2.
Proof.
  intros H1 H2. unfold PromiseReactionJob_run. cbn [m_handler m_capability]. unfold attempt at 1, bind at 1.
  erewrite attempt_throw; [reflexivity|]. unfold bind. rewrite H1. exact H2.
Qed.

(** ** An example *)

#[local] Existing Instance exampleProgram.

(** The promise 0 is fulfilled with 7; the promise 1 is pending, with its pair from 2. *)
Definition derivedWorld : World :=
  {| heap := [PromiseObject FulFilled (Primitive 7) [] []; PromiseObject Pending Undefined [] [];
              AlreadyResolved false; ResolveFunction 1 2; RejectFunction 1 2; UserObject true false];
     m_jobs := []; rejectEvents := []; user := (0 : User) |}.

(** The handler, an object of the script, answers 6. *)
Lemma then_settles_derived_witness : exists w1 w3,
  performThen 0 (Obj 5) Undefined (Some (pairCapability 1 2)) derivedWorld = (Ret (Some (Obj 1)), w1) /\
  executePendingJob (interpret 3) w1 = (Ret (inl Undefined), w3) /\ heap w3 !! 1 = Some (PromiseObject FulFilled (Primitive 6) [] []).
Proof.
  destruct (then_settles_derived derivedWorld 0 FulFilled (Primitive 7) [] [] (Obj 5) Undefined 1 2 eq_refl) as (w1 & E & (Hh & Hj) & H).
  assert (E1 : w1 = snd (performThen 0 (Obj 5) Undefined (Some (pairCapability 1 2)) derivedWorld)) by (rewrite E; reflexivity).
  exists w1. subst w1.
  destruct (H FulFilled (Primitive 7) _ [] 2 (Ret (Primitive 6)) (setJobs [] (snd (performThen 0 (Obj 5) Undefined (Some (pairCapability 1 2)) derivedWorld)))
              Undefined [] [] FulFilled (Primitive 6) Hj) as (w3 & E3 & Hs & _).
  - vm_compute. reflexivity.
  - constructor; reflexivity.
  - reflexivity.
  - exists w3. split; [exact E|]. split; [exact E3|exact Hs].
Defined.
