(* ===== verification/Sha1.v ===== *)
(** * SHA-1 of the debugger's handshake

    [debugger/DebuggerSha1.cpp]: the context, the rounds over the message schedule, the
    buffering of the input and the padding; a 32-bit word is a [Z] in [0, 2^32). *)

From stdpp Require Import list.
From S2P Require Import Prelude.
Local Open Scope Z_scope.

(** A [uint32_t] sum and shift wrap. *)
Definition u32 (z : Z) : Z := to_unsigned 32 z.
(** A cast to [uint8_t]. *)
Definition u8 (z : Z) : Z := to_unsigned 8 z.

Record Sha1Context := mkSha1Context {
  data : list Z;
  dataLength : nat;
  state : list Z;
  k : list Z
}.

Definition setData (ctx : Sha1Context) (d : list Z) : Sha1Context :=
  mkSha1Context d (dataLength ctx) (state ctx) (k ctx).
Definition setDataLength (ctx : Sha1Context) (n : nat) : Sha1Context :=
  mkSha1Context (data ctx) n (state ctx) (k ctx).
Definition setState (ctx : Sha1Context) (h : list Z) : Sha1Context :=
  mkSha1Context (data ctx) (dataLength ctx) h (k ctx).

(** The context is on the stack: [ctx] is whatever lay there. *)
Definition sha1Init (ctx : Sha1Context) : Sha1Context :=
  mkSha1Context (data ctx) 0
    [0x67452301; 0xEFCDAB89; 0x98BADCFE; 0x10325476; 0xc3d2e1f0]
    [0x5a827999; 0x6ed9eba1; 0x8f1bbcdc; 0xca62c1d6].

Definition SHA1_ROTATE_LEFT (a b : Z) : Z := Z.lor (u32 (Z.shiftl a b)) (Z.shiftr a (32 - b)).

(** [~b] of a [uint32_t]. *)
Definition not32 (b : Z) : Z := u32 (Z.lnot b).

(** [m[i]] of the first loop: the bytes of [data] are promoted to [int]; the sum is stored in a [uint32_t]. *)
Definition bigEndianWord (d : list Z) (i : nat) : Z :=
  u32 (Z.shiftl (nth (4 * i) d 0) 24 + Z.shiftl (nth (4 * i + 1) d 0) 16
       + Z.shiftl (nth (4 * i + 2) d 0) 8 + nth (4 * i + 3) d 0).

Definition copyWords (d : list Z) (m : list Z) : list Z :=
  fold_left (fun m i => <[i := bigEndianWord d i]> m) (seq 0 16) m.

(** The body of the second loop. *)
Definition extendWord (m : list Z) (i : nat) : list Z :=
  let m := <[i := Z.lxor (Z.lxor (Z.lxor (nth (i - 3) m 0) (nth (i - 8) m 0)) (nth (i - 14) m 0)) (nth (i - 16) m 0)]> m in
  <[i := Z.lor (u32 (Z.shiftl (nth i m 0) 1)) (Z.shiftr (nth i m 0) 31)]> m.

Definition extendWords (m : list Z) : list Z := fold_left extendWord (seq 16 64) m.

(** The five working variables. *)
Record Work := mkWork { wa : Z; wb : Z; wc : Z; wd : Z; we : Z }.

(** One round; [f] is the function of the round's loop, [kt] its constant. *)
Definition round (f : Z -> Z -> Z -> Z) (kt mi : Z) (w : Work) : Work :=
  let t := u32 (SHA1_ROTATE_LEFT (wa w) 5 + f (wb w) (wc w) (wd w) + we w + kt + mi) in
  mkWork t (wa w) (SHA1_ROTATE_LEFT (wb w) 30) (wc w) (wd w).

Definition choose (b c d : Z) : Z := Z.lxor (Z.land b c) (Z.land (not32 b) d).
Definition parity (b c d : Z) : Z := Z.lxor (Z.lxor b c) d.
Definition majority (b c d : Z) : Z := Z.lxor (Z.lxor (Z.land b c) (Z.land b d)) (Z.land c d).

Definition rounds (f : Z -> Z -> Z -> Z) (kt : Z) (m : list Z) (from : nat) (w : Work) : Work :=
  fold_left (fun w i => round f kt (nth i m 0) w) (seq from 20) w.

(** [stack]: the uninitialised array [m[80]]. *)
Definition sha1Transform (stack : list Z) (ctx : Sha1Context) : Sha1Context :=
  let m := extendWords (copyWords (data ctx) stack) in
  let s i := nth i (state ctx) 0 in
  let w := mkWork (s 0%nat) (s 1%nat) (s 2%nat) (s 3%nat) (s 4%nat) in
  let w := rounds choose (nth 0 (k ctx) 0) m 0 w in
  let w := rounds parity (nth 1 (k ctx) 0) m 20 w in
  let w := rounds majority (nth 2 (k ctx) 0) m 40 w in
  let w := rounds parity (nth 3 (k ctx) 0) m 60 w in
  setState ctx
    [u32 (s 0%nat + wa w); u32 (s 1%nat + wb w); u32 (s 2%nat + wc w); u32 (s 3%nat + wd w); u32 (s 4%nat + we w)].

(** One turn of the loop of [sha1Update]; [dataLength] is the local copy until the end. *)
Definition updateByte (stack : list Z) (ctx : Sha1Context) (b : Z) : Sha1Context :=
  let ctx := setData ctx (<[dataLength ctx := b]> (data ctx)) in
  let ctx := setDataLength ctx (S (dataLength ctx)) in
  if Nat.eqb (dataLength ctx) 64 then setDataLength (sha1Transform stack ctx) 0 else ctx.

Definition sha1Update (stack : list Z) (ctx : Sha1Context) (source : list Z) : Sha1Context :=
  fold_left (updateByte stack) source ctx.

(** [memset(data + from, 0, n)]. *)
Definition memset0 (d : list Z) (from n : nat) : list Z :=
  fold_left (fun d i => <[i := 0]> d) (seq from n) d.

(** The padding loop of [sha1Finish]. *)
Definition padBuffer (stack : list Z) (ctx : Sha1Context) : Sha1Context :=
  let n := S (dataLength ctx) in
  let ctx := setData ctx (<[dataLength ctx := 0x80]> (data ctx)) in
  if (n <=? 56)%nat
  then setData ctx (memset0 (data ctx) n (56 - n))
  else let ctx := sha1Transform stack (setData ctx (memset0 (data ctx) n (64 - n))) in
       setData ctx (memset0 (data ctx) 0 56).

(** The length in bits, big-endian in the last eight bytes; [totalLength] is a [size_t]. *)
Definition storeLength (d : list Z) (totalLength : Z) : list Z :=
  let bits := to_unsigned 64 (Z.shiftl totalLength 3) in
  let d := <[63%nat := u8 bits]> d in
  let d := <[62%nat := u8 (Z.shiftr bits 8)]> d in
  let d := <[61%nat := u8 (Z.shiftr bits 16)]> d in
  let d := <[60%nat := u8 (Z.shiftr bits 24)]> d in
  let d := <[59%nat := 0]> d in
  let d := <[58%nat := 0]> d in
  let d := <[57%nat := 0]> d in
  <[56%nat := 0]> d.

Definition wordBytes (w : Z) : list Z :=
  [u8 (Z.shiftr w 24); u8 (Z.shiftr w 16); u8 (Z.shiftr w 8); u8 w].

(** The [hash] written by [sha1Finish]. *)
Definition sha1Finish (stack : list Z) (ctx : Sha1Context) (totalLength : Z) : list Z :=
  let ctx := padBuffer stack ctx in
  let ctx := setData ctx (storeLength (data ctx) totalLength) in
  let ctx := sha1Transform stack ctx in
  flat_map (fun i => wordBytes (nth i (state ctx) 0)) (seq 0 5).

Definition computeSha1 (stack : list Z) (frame : Sha1Context) (source1 source2 : list Z) : list Z :=
  let ctx := sha1Init frame in
  let ctx := sha1Update stack ctx source1 in
  let ctx := sha1Update stack ctx source2 in
  sha1Finish stack ctx (Z.of_nat (List.length source1 + List.length source2)).

(** ** The standard's definition (FIPS 180-4, sections 4.1.1, 5.1.1, 6.1.2) *)

Module Fips.

Definition ROTL (n x : Z) : Z := (x * 2 ^ n) mod 2 ^ 32 + x / 2 ^ (32 - n).
Definition complement (x : Z) : Z := 2 ^ 32 - 1 - x.

(** Equation (4.1). *)
Definition f (t : nat) (x y z : Z) : Z :=
  if (t <? 20)%nat then Z.lxor (Z.land x y) (Z.land (complement x) z)
  else if (t <? 40)%nat then Z.lxor x (Z.lxor y z)
  else if (t <? 60)%nat then Z.lxor (Z.land x y) (Z.lxor (Z.land x z) (Z.land y z))
  else Z.lxor x (Z.lxor y z).

(** Equation (4.14). *)
Definition K (t : nat) : Z :=
  if (t <? 20)%nat then 0x5a827999 else if (t <? 40)%nat then 0x6ed9eba1
  else if (t <? 60)%nat then 0x8f1bbcdc else 0xca62c1d6.

(** The word [W t] of the schedule of a block, from the words before it. *)
Definition W_next (block : list Z) (before : list Z) (t : nat) : Z :=
  if (t <? 16)%nat
  then nth (4 * t) block 0 * 2 ^ 24 + nth (4 * t + 1) block 0 * 2 ^ 16
       + nth (4 * t + 2) block 0 * 2 ^ 8 + nth (4 * t + 3) block 0
  else ROTL 1 (Z.lxor (Z.lxor (Z.lxor (nth (t - 3) before 0) (nth (t - 8) before 0)) (nth (t - 14) before 0)) (nth (t - 16) before 0)).

Fixpoint W (block : list Z) (n : nat) : list Z :=
  match n with
  | O => []
  | S t => let before := W block t in before ++ [W_next block before t]
  end.

(** Section 6.1.2, step 3. *)
Definition step (w : list Z) (v : Work) (t : nat) : Work :=
  let T := (ROTL 5 (wa v) + f t (wb v) (wc v) (wd v) + we v + K t + nth t w 0) mod 2 ^ 32 in
  mkWork T (wa v) (ROTL 30 (wb v)) (wc v) (wd v).

(** Steps 1 to 4 for a block. *)
Definition compress (H : Work) (block : list Z) : Work :=
  let v := fold_left (step (W block 80)) (seq 0 80) H in
  mkWork ((wa v + wa H) mod 2 ^ 32) ((wb v + wb H) mod 2 ^ 32) ((wc v + wc H) mod 2 ^ 32)
         ((wd v + wd H) mod 2 ^ 32) ((we v + we H) mod 2 ^ 32).

Definition H0 : Work := mkWork 0x67452301 0xefcdab89 0x98badcfe 0x10325476 0xc3d2e1f0.

(** [n] bytes of a number, the most significant first. *)
Fixpoint big_endian (n : nat) (z : Z) : list Z :=
  match n with
  | O => []
  | S n => (z / 2 ^ (8 * Z.of_nat n)) mod 256 :: big_endian n z
  end.

(** The padding: a one bit, [k] zero bits so that [l + 1 + k = 448 (mod 512)], the length in 64 bits. *)
Definition zeroBits (l : Z) : Z := (448 - (l + 1)) mod 512.
Definition padding (message : list Z) : list Z :=
  let l := 8 * Z.of_nat (List.length message) in
  0x80 :: replicate (Z.to_nat ((zeroBits l - 7) / 8)) 0 ++ big_endian 8 l.

(** The blocks of 64 bytes of a padded message. *)
Fixpoint blocks (fuel : nat) (l : list Z) : list (list Z) :=
  match fuel, l with
  | O, _ | _, [] => []
  | S fuel, _ => take 64 l :: blocks fuel (drop 64 l)
  end.

Definition sha1 (message : list Z) : list Z :=
  let padded := message ++ padding message in
  let H := fold_left compress (blocks (List.length padded) padded) H0 in
  flat_map (big_endian 4) [wa H; wb H; wc H; wd H; we H].

End Fips.
