(* ===== verification/Sha1Spec.v ===== *)
(** * The digest of the debugger is SHA-1

    Whatever the stack held and however the message is split in two, the twenty bytes
    that [computeSha1] leaves are those of the standard. *)

From stdpp Require Import list strings.
From S2P Require Import Prelude UriSpec Sha1.
Local Open Scope Z_scope.

Definition is_word (z : Z) : Prop := 0 <= z < 2 ^ 32.
Definition is_byte (z : Z) : Prop := 0 <= z < 256.

(** ** Words *)

Lemma u32_word z : is_word (u32 z).
Proof. unfold is_word, u32, to_unsigned. apply Z.mod_pos_bound. lia. Qed.

Lemma u32_id z : is_word z -> u32 z = z.
Proof. intros H. apply Z.mod_small, H. Qed.

(** The bits that a shift keeps, and those that it drops. *)
Lemma shift_split a n : is_word a -> 0 < n < 32 ->
  (a * 2 ^ n) mod 2 ^ 32 = (a mod 2 ^ (32 - n)) * 2 ^ n /\ 0 <= a / 2 ^ (32 - n) < 2 ^ n /\
  2 ^ 32 = 2 ^ (32 - n) * 2 ^ n /\ 0 < 2 ^ (32 - n).
Proof.
  intros Ha Hn. assert (E : 2 ^ 32 = 2 ^ (32 - n) * 2 ^ n) by (rewrite <- Z.pow_add_r by lia; f_equal; lia).
  assert (0 < 2 ^ (32 - n)) by (apply Z.pow_pos_nonneg; lia).
  split; [rewrite E; apply Zmult_mod_distr_r|]. unfold is_word in Ha.
  split; [split; [apply Z.div_pos|apply Z.div_lt_upper_bound]; lia|auto].
Qed.

Lemma rotate_ROTL a n : is_word a -> 0 < n < 32 -> SHA1_ROTATE_LEFT a n = Fips.ROTL n a.
Proof.
  intros Ha Hn. destruct (shift_split a n Ha Hn) as (E & Hq & _ & _).
  unfold SHA1_ROTATE_LEFT, Fips.ROTL, u32, to_unsigned.
  rewrite Z.shiftl_mul_pow2, Z.shiftr_div_pow2, E, <- Z.shiftl_mul_pow2, lor_shiftl_add by lia.
  rewrite Z.shiftl_mul_pow2 by lia. reflexivity.
Qed.

Lemma ROTL_word a n : is_word a -> 0 < n < 32 -> is_word (Fips.ROTL n a).
Proof.
  intros Ha Hn. destruct (shift_split a n Ha Hn) as (E & Hq & Ep & Hp). unfold Fips.ROTL, is_word.
  rewrite E, Ep. pose proof (Z.mod_pos_bound a (2 ^ (32 - n)) Hp). nia.
Qed.

Lemma not32_complement b : is_word b -> not32 b = Fips.complement b.
Proof.
  unfold is_word, not32, Fips.complement, u32, to_unsigned, Z.lnot. intros H.
  replace (Z.pred (- b)) with (2 ^ 32 - 1 - b + (-1) * 2 ^ 32) by lia.
  rewrite Z.mod_add, Z.mod_small by lia. reflexivity.
Qed.

(** The function of each loop is the standard's. *)
Lemma choose_f t b c d : (t < 20)%nat -> is_word b -> choose b c d = Fips.f t b c d.
Proof.
  intros Ht Hb. unfold choose, Fips.f. rewrite (proj2 (Nat.ltb_lt t 20)), not32_complement by assumption. reflexivity.
Qed.

Lemma parity_f t b c d : (20 <= t < 40 \/ 60 <= t)%nat -> parity b c d = Fips.f t b c d.
Proof. intros Ht. unfold parity, Fips.f. repeat case_if; to_prop; try lia; apply Z.lxor_assoc. Qed.

Lemma majority_f t b c d : (40 <= t < 60)%nat -> majority b c d = Fips.f t b c d.
Proof. intros Ht. unfold majority, Fips.f. repeat case_if; to_prop; try lia; apply Z.lxor_assoc. Qed.

Lemma lxor_word a b : is_word a -> is_word b -> is_word (Z.lxor a b).
Proof.
  unfold is_word. intros Ha Hb. split; [apply Z.lxor_nonneg; lia|].
  destruct (Z.eq_dec (Z.lxor a b) 0) as [->|]; [lia|].
  apply Z.log2_lt_pow2; [assert (0 <= Z.lxor a b) by (apply Z.lxor_nonneg; lia); lia|].
  eapply Z.le_lt_trans; [apply Z.log2_lxor; lia|].
  destruct (Z.eq_dec a 0), (Z.eq_dec b 0); subst; cbn [Z.log2]; try lia;
    apply Z.max_lub_lt; try (apply Z.log2_lt_pow2; lia); cbn; lia.
Qed.

(** ** The schedule *)

Lemma W_length block n : List.length (Fips.W block n) = n.
Proof. induction n; cbn; [reflexivity|]. rewrite length_app. cbn. lia. Qed.

Lemma W_prefix block n t : (t < n)%nat ->
  nth t (Fips.W block n) 0 = Fips.W_next block (Fips.W block t) t.
Proof.
  induction n as [|n IH]; intros Ht; [lia|]. cbn [Fips.W]. cbv zeta.
  destruct (Nat.eq_dec t n) as [->|].
  - rewrite app_nth2 by (rewrite W_length; lia). rewrite W_length, Nat.sub_diag. reflexivity.
  - rewrite app_nth1 by (rewrite W_length; lia). apply IH. lia.
Qed.

(** An older word of the schedule read in a shorter one. *)
Lemma W_stable block n n' t : (t < n)%nat -> (t < n')%nat -> nth t (Fips.W block n) 0 = nth t (Fips.W block n') 0.
Proof. intros H H'. rewrite !W_prefix by assumption. reflexivity. Qed.

Lemma nth_insert_eq (m : list Z) i v : (i < List.length m)%nat -> nth i (<[i := v]> m) 0 = v.
Proof. intros H. apply nth_lookup_Some. apply list_lookup_insert_eq. exact H. Qed.

Lemma nth_insert_ne (m : list Z) i j v : i <> j -> nth j (<[i := v]> m) 0 = nth j m 0.
Proof. intros H. rewrite !nth_lookup, list_lookup_insert_ne by assumption. reflexivity. Qed.

(** [m] holds the first [n] words of the schedule. *)
Definition scheduled (block m : list Z) (n : nat) : Prop :=
  List.length m = 80%nat /\ forall t, (t < n)%nat -> nth t m 0 = nth t (Fips.W block 80) 0.

Lemma scheduled_step block m n v : (n < 80)%nat -> scheduled block m n ->
  v = Fips.W_next block (Fips.W block n) n -> scheduled block (<[n := v]> m) (S n).
Proof.
  intros Hn [Hl H] ->. split; [rewrite length_insert; exact Hl|]. intros t Ht.
  destruct (Nat.eq_dec t n) as [->|].
  - rewrite nth_insert_eq by lia. symmetry. apply W_prefix. lia.
  - rewrite nth_insert_ne by lia. apply H. lia.
Qed.

Lemma nth_Forall (P : Z -> Prop) l i : P 0 -> Forall P l -> P (nth i l 0).
Proof.
  intros H0 H. rewrite nth_lookup. destruct (l !! i) eqn:E; [|exact H0]. exact (Forall_lookup_1 _ _ _ _ H E).
Qed.

Section Block.
Variable block : list Z.
Hypothesis bytes : Forall is_byte block.

Lemma bigEndianWord_next before i : (i < 16)%nat -> bigEndianWord block i = Fips.W_next block before i.
Proof using bytes.
  intros Hi. unfold bigEndianWord, Fips.W_next. rewrite (proj2 (Nat.ltb_lt i 16)) by assumption.
  rewrite !Z.shiftl_mul_pow2 by lia. apply u32_id. unfold is_word.
  assert (H : forall j, is_byte (nth j block 0)) by (intros j; apply nth_Forall; [split; lia|exact bytes]).
  pose proof (H (4 * i)%nat). pose proof (H (4 * i + 1)%nat). pose proof (H (4 * i + 2)%nat). pose proof (H (4 * i + 3)%nat).
  unfold is_byte in *. lia.
Qed.

Lemma W_next_word t before : Forall is_word before -> is_word (Fips.W_next block before t).
Proof using bytes.
  intros H. destruct (Nat.ltb_spec t 16).
  - rewrite <- bigEndianWord_next by assumption. apply u32_word.
  - unfold Fips.W_next. rewrite (proj2 (Nat.ltb_ge t 16)) by assumption.
    apply ROTL_word; [|lia]. repeat apply lxor_word; (apply nth_Forall; [split; lia|exact H]).
Qed.

Lemma W_words n : Forall is_word (Fips.W block n).
Proof using bytes.
  induction n as [|n IH]; [constructor|]. cbn [Fips.W]. cbv zeta. apply Forall_app_2; [exact IH|].
  constructor; [|constructor]. apply W_next_word, IH.
Qed.

(** A loop over consecutive indices that writes one word a turn. *)
Lemma scheduled_loop (body : list Z -> nat -> list Z) from count m :
  (from + count <= 80)%nat ->
  (forall m i, (from <= i < from + count)%nat -> scheduled block m i ->
     body m i = <[i := Fips.W_next block (Fips.W block i) i]> m) ->
  scheduled block m from -> scheduled block (fold_left body (seq from count) m) (from + count).
Proof using Type.
  revert from m. induction count as [|count IH]; intros from m Hc Hb Hm; cbn; [rewrite Nat.add_0_r; exact Hm|].
  rewrite Hb by (assumption || lia). replace (from + S count)%nat with (S from + count)%nat by lia.
  apply IH; [lia|intros; apply Hb; [lia|assumption]|]. apply scheduled_step; [lia|exact Hm|reflexivity].
Qed.

Lemma extendWord_next m i : (16 <= i < 80)%nat -> scheduled block m i ->
  extendWord m i = <[i := Fips.W_next block (Fips.W block i) i]> m.
Proof using bytes.
  intros Hi [Hl H]. unfold extendWord. cbv zeta. rewrite nth_insert_eq, list_insert_insert_eq by lia. f_equal.
  unfold Fips.W_next. rewrite (proj2 (Nat.ltb_ge i 16)) by lia.
  rewrite !H, !(W_stable block 80 i) by lia.
  change (Z.lor (u32 (Z.shiftl ?x 1)) (Z.shiftr ?x 31)) with (SHA1_ROTATE_LEFT x 1).
  apply rotate_ROTL; [|lia]. repeat apply lxor_word; (apply nth_Forall; [split; lia|apply W_words]).
Qed.

Lemma schedule_spec stack : List.length stack = 80%nat ->
  forall t, (t < 80)%nat -> nth t (extendWords (copyWords block stack)) 0 = nth t (Fips.W block 80) 0.
Proof using bytes.
  intros Hs. apply (scheduled_loop extendWord 16 64); [lia|intros; apply extendWord_next; [lia|assumption]|].
  apply (scheduled_loop (fun m i => <[i := bigEndianWord block i]> m) 0 16); [lia| |split; [exact Hs|lia]].
  intros m i Hi _. f_equal. apply bigEndianWord_next. lia.
Qed.

End Block.

(** ** The rounds *)

Definition words (w : Work) : Prop :=
  is_word (wa w) /\ is_word (wb w) /\ is_word (wc w) /\ is_word (wd w) /\ is_word (we w).

(** The five words as the array [state]. *)
Definition stateOf (w : Work) : list Z := [wa w; wb w; wc w; wd w; we w].

Lemma round_step f w m t v : words v ->
  f (wb v) (wc v) (wd v) = Fips.f t (wb v) (wc v) (wd v) -> nth t m 0 = nth t w 0 ->
  round f (Fips.K t) (nth t m 0) v = Fips.step w v t /\ words (Fips.step w v t).
Proof.
  intros (Ha & Hb & Hc & Hd & He) Hf Hm. unfold round, Fips.step. cbv zeta.
  rewrite Hf, Hm, !rotate_ROTL by (assumption || lia). split; [reflexivity|].
  repeat split; cbn [wa wb wc wd we]; try assumption; try (apply Z.mod_pos_bound; lia); try (apply Ha || apply Hc || apply Hd);
    apply ROTL_word; (assumption || lia).
Qed.

Definition steps (w : list Z) (from : nat) (v : Work) : Work := fold_left (Fips.step w) (seq from 20) v.

Lemma rounds_steps f w m from v kt :
  (forall t b c d, (from <= t < from + 20)%nat -> is_word b -> f b c d = Fips.f t b c d) ->
  (forall t, (from <= t < from + 20)%nat -> Fips.K t = kt /\ nth t m 0 = nth t w 0) ->
  words v ->
  rounds f kt m from v = steps w from v /\ words (steps w from v).
Proof.
  unfold rounds, steps. generalize 20%nat as n. intros n. revert from v.
  induction n as [|n IH]; intros from v Hf Hm Hv; cbn [seq fold_left]; [auto|].
  destruct (Hm from) as [<- E]; [lia|].
  destruct (round_step f w m from v Hv) as [Er Hv']; [apply Hf; [lia|apply Hv]|exact E|].
  rewrite Er. apply IH; [intros; apply Hf; [lia|assumption]|intros; apply Hm; lia|exact Hv'].
Qed.

Lemma K_values t : (t < 80)%nat ->
  Fips.K t = nth (t / 20) [0x5a827999; 0x6ed9eba1; 0x8f1bbcdc; 0xca62c1d6] 0.
Proof.
  intros H. assert (E : (t / 20 = 0 /\ t < 20 \/ t / 20 = 1 /\ 20 <= t < 40 \/ t / 20 = 2 /\ 40 <= t < 60 \/ t / 20 = 3 /\ 60 <= t)%nat).
  { pose proof (Nat.div_mod t 20 ltac:(lia)). pose proof (Nat.mod_upper_bound t 20 ltac:(lia)). lia. }
  unfold Fips.K. destruct E as [[-> ?]|[[-> ?]|[[-> ?]|[-> ?]]]]; repeat case_if; to_prop; (lia || reflexivity).
Qed.

Definition constants : list Z := [0x5a827999; 0x6ed9eba1; 0x8f1bbcdc; 0xca62c1d6].

Lemma steps_80 w v : fold_left (Fips.step w) (seq 0 80) v = steps w 60 (steps w 40 (steps w 20 (steps w 0 v))).
Proof. unfold steps. rewrite <- !fold_left_app. reflexivity. Qed.

(** The four loops, one after the other. *)
Lemma all_rounds w m v : words v -> (forall t, (t < 80)%nat -> nth t m 0 = nth t w 0) ->
  rounds parity (nth 3 constants 0) m 60 (rounds majority (nth 2 constants 0) m 40
    (rounds parity (nth 1 constants 0) m 20 (rounds choose (nth 0 constants 0) m 0 v)))
  = fold_left (Fips.step w) (seq 0 80) v /\ words (fold_left (Fips.step w) (seq 0 80) v).
Proof.
  intros Hv Hm. rewrite steps_80.
  assert (K : forall i t, (i < 4)%nat -> (20 * i <= t < 20 * i + 20)%nat -> Fips.K t = nth i constants 0 /\ nth t m 0 = nth t w 0).
  { intros i t Hi Ht. split; [|apply Hm; lia]. rewrite K_values by lia. unfold constants. f_equal.
    symmetry. apply Nat.div_unique with (t - 20 * i)%nat; lia. }
  destruct (rounds_steps choose w m 0 v (nth 0 constants 0)) as [E0 H0];
    [intros; apply choose_f; [lia|assumption]|intros; apply (K 0%nat); lia|exact Hv|].
  destruct (rounds_steps parity w m 20 (steps w 0 v) (nth 1 constants 0)) as [E1 H1];
    [intros; apply parity_f; lia|intros; apply (K 1%nat); lia|exact H0|].
  destruct (rounds_steps majority w m 40 (steps w 20 (steps w 0 v)) (nth 2 constants 0)) as [E2 H2];
    [intros; apply majority_f; lia|intros; apply (K 2%nat); lia|exact H1|].
  destruct (rounds_steps parity w m 60 (steps w 40 (steps w 20 (steps w 0 v))) (nth 3 constants 0)) as [E3 H3];
    [intros; apply parity_f; lia|intros; apply (K 3%nat); lia|exact H2|].
  rewrite E0, E1, E2, E3. split; [reflexivity|exact H3].
Qed.

Lemma take_insert_S (l : list Z) n v : (n < List.length l)%nat -> take (S n) (<[n := v]> l) = take n l ++ [v].
Proof.
  intros H. rewrite (take_S_r _ n v) by (apply list_lookup_insert_eq; exact H). rewrite take_insert_ge by lia. reflexivity.
Qed.

Section Digest.
Variable stack : list Z.
Hypothesis stack_length : List.length stack = 80%nat.

(** A context whose hash is [H] and whose buffer is well formed. *)
Definition hashing (ctx : Sha1Context) (H : Work) : Prop :=
  state ctx = stateOf H /\ k ctx = constants /\ words H /\ List.length (data ctx) = 64%nat.

Lemma sha1Transform_spec ctx H : hashing ctx H -> Forall is_byte (data ctx) ->
  sha1Transform stack ctx = setState ctx (stateOf (Fips.compress H (data ctx))) /\ words (Fips.compress H (data ctx)).
Proof using stack_length.
  intros (Hs & Hk & Hw & Hl) Hb. unfold sha1Transform. rewrite Hs, Hk. cbv zeta. unfold stateOf. cbn [nth].
  destruct H as [a b c d e]. cbn [wa wb wc wd we].
  destruct (all_rounds (Fips.W (data ctx) 80) (extendWords (copyWords (data ctx) stack)) (mkWork a b c d e)) as [E _];
    [exact Hw|apply schedule_spec; assumption|].
  rewrite E. unfold Fips.compress, words. cbv zeta. cbn [wa wb wc wd we]. split.
  - generalize (fold_left (Fips.step (Fips.W (data ctx) 80)) (seq 0 80) (mkWork a b c d e)). intros v.
    unfold u32, to_unsigned. rewrite (Z.add_comm a), (Z.add_comm b), (Z.add_comm c), (Z.add_comm d), (Z.add_comm e). reflexivity.
  - repeat split; apply Z.mod_pos_bound; lia.
Qed.

(** [bs] are the blocks already hashed, [r] the bytes in the buffer. *)
Definition absorbed (ctx : Sha1Context) (bs : list (list Z)) (r : list Z) : Prop :=
  hashing ctx (fold_left Fips.compress bs Fips.H0) /\ dataLength ctx = List.length r /\
  take (List.length r) (data ctx) = r /\ (List.length r < 64)%nat /\ Forall is_byte r.

Lemma hashing_data ctx H d n : hashing ctx H -> List.length d = 64%nat ->
  hashing (mkSha1Context d n (state ctx) (k ctx)) H.
Proof using Type. intros (?&?&?&?) Hd. repeat split; assumption || apply H2. Qed.

Lemma updateByte_absorbed ctx bs r b : absorbed ctx bs r -> is_byte b ->
  (S (List.length r) < 64)%nat /\ absorbed (updateByte stack ctx b) bs (r ++ [b]) \/
  S (List.length r) = 64%nat /\ absorbed (updateByte stack ctx b) (bs ++ [r ++ [b]]) [].
Proof using stack_length.
  intros (Hh & Hn & Ht & Hr & Hb) Hbyte. pose proof Hh as (Es & Ek & Hw & Hl).
  unfold updateByte, setData, setDataLength. cbn [data dataLength state k]. rewrite Hn.
  assert (Hins : take (S (List.length r)) (<[List.length r := b]> (data ctx)) = r ++ [b])
    by (rewrite take_insert_S, Ht by lia; reflexivity).
  destruct (Nat.eqb_spec (S (List.length r)) 64) as [E|E]; [right; split; [exact E|]|left; split; [lia|]].
  - set (ctx1 := mkSha1Context (<[List.length r := b]> (data ctx)) (S (List.length r)) (state ctx) (k ctx)).
    assert (H1 : hashing ctx1 (fold_left Fips.compress bs Fips.H0)) by (apply hashing_data; [exact Hh|rewrite length_insert; exact Hl]).
    assert (Ed : data ctx1 = r ++ [b]).
    { cbn [ctx1 data]. rewrite <- Hins, E. symmetry. apply take_ge. rewrite length_insert. lia. }
    destruct (sha1Transform_spec ctx1 _ H1) as [-> Hw1]; [rewrite Ed; apply Forall_app_2; [exact Hb|auto]|].
    unfold absorbed. rewrite fold_left_app. cbn [fold_left]. rewrite <- Ed.
    split; [|repeat split; cbn; lia || constructor].
    split; [reflexivity|]. split; [exact Ek|]. split; [exact Hw1|].
    cbn. rewrite length_insert. exact Hl.
  - unfold absorbed. rewrite length_app. cbn [List.length data dataLength]. replace (List.length r + 1)%nat with (S (List.length r)) by lia.
    split; [apply hashing_data; [exact Hh|rewrite length_insert; exact Hl]|].
    split; [reflexivity|]. split; [exact Hins|]. split; [lia|]. apply Forall_app_2; auto.
Qed.

(** The message absorbed so far, whole blocks first. *)
Definition holds (ctx : Sha1Context) (message : list Z) : Prop :=
  exists bs r, message = concat bs ++ r /\ Forall (fun b => List.length b = 64%nat) bs /\ absorbed ctx bs r.

Lemma updateByte_holds ctx message b : holds ctx message -> is_byte b -> holds (updateByte stack ctx b) (message ++ [b]).
Proof using stack_length.
  intros (bs & r & -> & Hbs & Ha) Hb. destruct (updateByte_absorbed ctx bs r b Ha Hb) as [[H1 H2]|[H1 H2]].
  - exists bs, (r ++ [b]). rewrite app_assoc. auto.
  - exists (bs ++ [r ++ [b]]), []. rewrite concat_app. cbn. rewrite !app_nil_r, app_assoc. split; [reflexivity|].
    split; [|exact H2]. apply Forall_app_2; [exact Hbs|]. constructor; [|constructor]. rewrite length_app. cbn. lia.
Qed.

Lemma sha1Update_holds source : forall ctx message, holds ctx message -> Forall is_byte source ->
  holds (sha1Update stack ctx source) (message ++ source).
Proof using stack_length.
  induction source as [|b source IH]; intros ctx message H Hb; cbn; [rewrite app_nil_r; exact H|].
  inversion Hb; subst. replace (message ++ b :: source) with ((message ++ [b]) ++ source) by (rewrite <- app_assoc; reflexivity).
  apply IH; [|assumption]. apply updateByte_holds; assumption.
Qed.

Lemma sha1Init_holds frame : List.length (data frame) = 64%nat -> holds (sha1Init frame) [].
Proof using stack_length.
  intros Hl. exists [], []. split; [reflexivity|]. split; [constructor|].
  unfold absorbed, hashing, words, is_word. cbn. repeat split; (assumption || lia || constructor).
Qed.


End Digest.

(** ** The padding *)

Lemma memset0_spec d from n : (from + n <= List.length d)%nat ->
  memset0 d from n = take from d ++ replicate n 0 ++ drop (from + n) d.
Proof.
  unfold memset0. revert from d. induction n as [|n IH]; intros from d H; cbn [seq fold_left replicate].
  - rewrite Nat.add_0_r. symmetry. apply take_drop.
  - rewrite IH by (rewrite length_insert; lia). rewrite take_insert_S by lia.
    rewrite drop_insert_lt by lia. cbn [app]. rewrite <- app_assoc. cbn [app]. do 4 f_equal. lia.
Qed.

(** The bytes that [sha1Finish] writes after the hashed blocks. *)
Definition tail (r : list Z) (l : Z) : list Z :=
  r ++ 0x80 :: replicate (Z.to_nat ((55 - Z.of_nat (List.length r)) mod 64)) 0 ++ Fips.big_endian 8 l.

Lemma zeroBits_bytes n m : 0 <= n -> n mod 64 = m -> (Fips.zeroBits (8 * n) - 7) / 8 = (55 - m) mod 64.
Proof. intros Hn <-. unfold Fips.zeroBits. lia. Qed.

Lemma concat_length (bs : list (list Z)) :
  Forall (fun b => List.length b = 64%nat) bs -> List.length (concat bs) = (64 * List.length bs)%nat.
Proof.
  induction 1 as [|b bs Hb _ IH]; [reflexivity|]. cbn. rewrite length_app, IH, Hb. lia.
Qed.

Lemma padded_tail bs r :
  Forall (fun b => List.length b = 64%nat) bs -> (List.length r < 64)%nat ->
  (concat bs ++ r) ++ Fips.padding (concat bs ++ r)
  = concat bs ++ tail r (8 * Z.of_nat (List.length (concat bs ++ r))).
Proof.
  intros Hbs Hr. rewrite <- app_assoc. f_equal. unfold tail, Fips.padding. do 5 f_equal.
  apply zeroBits_bytes; [lia|]. rewrite length_app, (concat_length bs Hbs). lia.
Qed.

Lemma blocks_concat bs rest fuel :
  Forall (fun b => List.length b = 64%nat) bs -> (List.length bs <= fuel)%nat ->
  Fips.blocks fuel (concat bs ++ rest) = bs ++ Fips.blocks (fuel - List.length bs) rest.
Proof.
  intros Hbs. revert fuel. induction Hbs as [|b bs Hb Hbs IH]; intros fuel Hf; [cbn; rewrite Nat.sub_0_r; reflexivity|].
  destruct fuel as [|fuel]; [cbn in Hf; lia|]. cbn [concat]. rewrite <- app_assoc.
  destruct b as [|x b]; [discriminate Hb|]. cbn [app Fips.blocks List.length Nat.sub].
  change (x :: b ++ concat bs ++ rest) with ((x :: b) ++ concat bs ++ rest).
  rewrite take_app_length' by exact (eq_sym Hb). rewrite drop_app_length' by exact (eq_sym Hb).
  cbn [app]. f_equal. apply IH. cbn in Hf. lia.
Qed.


Lemma storeLength_spec d L : List.length d = 64%nat -> 0 <= L < 2 ^ 29 ->
  storeLength d L = take 56 d ++ Fips.big_endian 8 (8 * L).
Proof.
  intros Hd HL. rewrite <- (take_drop 56 d) at 1. assert (Hq : List.length (drop 56 d) = 8%nat) by (rewrite length_drop; lia).
  assert (Hp : List.length (take 56 d) = 56%nat) by (rewrite length_take; lia).
  revert Hp Hq. generalize (take 56 d) (drop 56 d). intros p q Hp Hq.
  assert (Hi : forall i v q, <[(56 + i)%nat := v]> (p ++ q) = p ++ <[i := v]> q)
    by (intros i v q'; rewrite <- Hp at 1; apply insert_app_r).
  do 8 (destruct q as [|? q]; [discriminate Hq|]). destruct q; [|discriminate Hq].
  unfold storeLength. cbv zeta. rewrite (Hi 7%nat), (Hi 6%nat), (Hi 5%nat), (Hi 4%nat), (Hi 3%nat), (Hi 2%nat), (Hi 1%nat), (Hi 0%nat).
  f_equal. cbn [insert list_insert Fips.big_endian]. unfold u8. rewrite !Z.shiftr_div_pow2, Z.shiftl_mul_pow2 by lia.
  unfold to_unsigned. rewrite (Z.mod_small (L * 2 ^ 3) (2 ^ 64)) by lia. replace (L * 2 ^ 3) with (8 * L) by lia.
  change (8 * Z.of_nat 7) with 56. change (8 * Z.of_nat 6) with 48. change (8 * Z.of_nat 5) with 40.
  change (8 * Z.of_nat 4) with 32. change (8 * Z.of_nat 3) with 24. change (8 * Z.of_nat 2) with 16.
  change (8 * Z.of_nat 1) with 8. change (8 * Z.of_nat 0) with 0. change (2 ^ 8) with 256.
  rewrite (Z.div_small (8 * L) (2 ^ 56)), (Z.div_small (8 * L) (2 ^ 48)), (Z.div_small (8 * L) (2 ^ 40)),
    (Z.div_small (8 * L) (2 ^ 32)), Z.pow_0_r, Z.div_1_r by lia. reflexivity.
Qed.

Lemma big_endian_bytes n z : Forall is_byte (Fips.big_endian n z).
Proof. induction n; cbn; constructor; [apply Z.mod_pos_bound; lia|assumption]. Qed.

Lemma big_endian_length n z : List.length (Fips.big_endian n z) = n.
Proof. induction n; cbn; congruence. Qed.

Lemma zeros_bytes n : Forall is_byte (replicate n 0).
Proof. apply Forall_replicate. unfold is_byte. lia. Qed.

Lemma tail_bytes r l : Forall is_byte r -> Forall is_byte (tail r l).
Proof.
  intros H. unfold tail. apply Forall_app_2; [exact H|]. constructor; [unfold is_byte; lia|].
  apply Forall_app_2; [apply zeros_bytes|apply big_endian_bytes].
Qed.

Lemma wordBytes_big_endian w : wordBytes w = Fips.big_endian 4 w.
Proof.
  unfold wordBytes, u8, to_unsigned. cbn [Fips.big_endian]. rewrite !Z.shiftr_div_pow2 by lia.
  change (8 * Z.of_nat 3) with 24. change (8 * Z.of_nat 2) with 16. change (8 * Z.of_nat 1) with 8.
  change (8 * Z.of_nat 0) with 0. rewrite Z.pow_0_r, Z.div_1_r. reflexivity.
Qed.

(** The last blocks: one when the padding fits, two otherwise. *)
Definition lastBlocks (r : list Z) (l : Z) : list (list Z) :=
  if (List.length r <=? 55)%nat then [tail r l]
  else [r ++ 0x80 :: replicate (63 - List.length r) 0; replicate 56 0 ++ Fips.big_endian 8 l].

Lemma lastBlocks_tail r l : (List.length r < 64)%nat ->
  concat (lastBlocks r l) = tail r l /\ Forall (fun b => List.length b = 64%nat) (lastBlocks r l).
Proof.
  intros Hr. unfold lastBlocks, tail. destruct (Nat.leb_spec (List.length r) 55).
  - cbn [concat]. rewrite app_nil_r. split; [reflexivity|]. repeat constructor.
    rewrite !length_app. cbn [List.length]. rewrite length_app, length_replicate, big_endian_length. lia.
  - replace (Z.to_nat ((55 - Z.of_nat (List.length r)) mod 64)) with (63 - List.length r + 56)%nat by lia.
    rewrite replicate_add. split; [cbn [concat]; rewrite app_nil_r; repeat (rewrite <- app_assoc; cbn [app]); reflexivity|].
    repeat constructor; rewrite length_app; cbn [List.length]; rewrite ?length_replicate, ?big_endian_length; lia.
Qed.

Lemma blocks_nil n : Fips.blocks n [] = [].
Proof. destruct n; reflexivity. Qed.

(** The blocks of the padded message. *)
Lemma padded_blocks bs r : Forall (fun b => List.length b = 64%nat) bs -> (List.length r < 64)%nat ->
  let message := concat bs ++ r in
  let padded := message ++ Fips.padding message in
  Fips.blocks (List.length padded) padded = bs ++ lastBlocks r (8 * Z.of_nat (List.length message)).
Proof.
  intros Hbs Hr. cbv zeta. rewrite padded_tail by assumption.
  destruct (lastBlocks_tail r (8 * Z.of_nat (List.length (concat bs ++ r))) Hr) as [E Hl].
  set (l := 8 * Z.of_nat _) in *. set (all := bs ++ lastBlocks r l).
  assert (Ha : Forall (fun b => List.length b = 64%nat) all) by (apply Forall_app_2; assumption).
  assert (Ec : concat bs ++ tail r l = concat all ++ []) by (rewrite <- E, <- concat_app, app_nil_r; reflexivity).
  rewrite Ec, blocks_concat, blocks_nil, app_nil_r; [reflexivity|exact Ha|].
  rewrite app_nil_r, (concat_length all Ha). lia.
Qed.

Section Finish.
Variable stack : list Z.
Hypothesis stack_length : List.length stack = 80%nat.

Lemma filled_from (d r : list Z) n : take (List.length r) d = r -> (List.length r < List.length d)%nat ->
  (S (List.length r) + n <= List.length d)%nat ->
  memset0 (<[List.length r := 0x80]> d) (S (List.length r)) n
  = r ++ 0x80 :: replicate n 0 ++ drop (S (List.length r) + n) d.
Proof using Type.
  clear stack_length. intros Ht Hl Hn. rewrite memset0_spec by (rewrite length_insert; lia). rewrite take_insert_S, Ht, <- app_assoc by lia.
  rewrite drop_insert_lt by lia. reflexivity.
Qed.

(** The context after the padding and the length are in place. *)
Lemma padBuffer_spec ctx bs r : absorbed ctx bs r ->
  exists ctx' bs' d, padBuffer stack ctx = ctx' /\ hashing ctx' (fold_left Fips.compress bs' Fips.H0) /\
    data ctx' = d /\ List.length d = 64%nat /\
    forall l, bs' ++ [take 56 d ++ Fips.big_endian 8 l] = bs ++ lastBlocks r l.
Proof using stack_length.
  intros (Hh & Hn & Ht & Hr & Hb). pose proof Hh as (Es & Ek & Hw & Hl).
  unfold padBuffer, setData. cbv zeta. cbn [data dataLength state k]. rewrite Hn. unfold lastBlocks.
  destruct (Nat.leb_spec (S (List.length r)) 56) as [H|H].
  - rewrite (proj2 (Nat.leb_le _ 55)), (filled_from _ _ _ Ht) by lia. do 2 eexists. exists (r ++ 0x80 :: replicate (56 - S (List.length r)) 0 ++ drop 56 (data ctx)).
    replace (S (List.length r) + (56 - S (List.length r)))%nat with 56%nat by lia.
    assert (L : List.length (r ++ 0x80 :: replicate (56 - S (List.length r)) 0 ++ drop 56 (data ctx)) = 64%nat)
      by (rewrite length_app; cbn [List.length]; rewrite length_app, length_replicate, length_drop; lia).
    split; [reflexivity|]. split; [apply hashing_data; [exact Hh|exact L]|]. split; [reflexivity|]. split; [exact L|].
    intros l. do 2 f_equal. unfold tail. rewrite (app_comm_cons _ (drop _ _)), app_assoc, take_app_length'
      by (rewrite length_app; cbn [List.length]; rewrite length_replicate; lia).
    rewrite <- app_assoc. cbn [app]. do 5 f_equal. lia.
  - rewrite (proj2 (Nat.leb_gt _ 55)), (filled_from _ _ _ Ht) by lia.
    rewrite (drop_ge (data ctx)), app_nil_r by lia. set (b := r ++ _).
    assert (Lb : List.length b = 64%nat) by (unfold b; rewrite length_app; cbn [List.length]; rewrite length_replicate; lia).
    set (c := mkSha1Context b (List.length r) (state ctx) (k ctx)). assert (Hc : hashing c (fold_left Fips.compress bs Fips.H0)) by (apply hashing_data; assumption).
    destruct (sha1Transform_spec stack stack_length c _ Hc) as [-> Hw'];
      [apply Forall_app_2; [exact Hb|constructor; [unfold is_byte; lia|apply zeros_bytes]]|].
    eexists. exists (bs ++ [b]), (replicate 56 0 ++ drop 56 b). unfold setState. cbn [data dataLength state k].
    rewrite fold_left_app. cbn [fold_left]. cbn [c data]. rewrite memset0_spec by lia. cbn [take app Nat.add].
    assert (L : List.length (replicate 56 0 ++ drop 56 b) = 64%nat) by (rewrite length_app, length_replicate, length_drop; lia).
    split; [reflexivity|]. split; [split; [reflexivity|]; split; [exact Ek|]; split; [exact Hw'|exact L]|]. split; [reflexivity|]. split; [exact L|].
    intros l. rewrite <- app_assoc. cbn [app]. rewrite take_app_length' by (rewrite length_replicate; reflexivity).
    reflexivity.
Qed.

Lemma sha1Finish_spec ctx message : holds ctx message -> Z.of_nat (List.length message) < 2 ^ 29 ->
  sha1Finish stack ctx (Z.of_nat (List.length message)) = Fips.sha1 message.
Proof using stack_length.
  intros (bs & r & -> & Hbs & Ha) Hlen. pose proof Ha as (_ & _ & _ & Hr & Hb).
  destruct (padBuffer_spec ctx bs r Ha) as (c & bs' & d & Ep & Hc & Ed & Hd & Hblocks).
  unfold sha1Finish, Fips.sha1. cbv zeta. rewrite padded_blocks, Ep, Ed, storeLength_spec by (assumption || lia).
  set (L := Z.of_nat _) in *. rewrite <- Hblocks, fold_left_app. cbn [fold_left].
  set (last := take 56 d ++ Fips.big_endian 8 (8 * L)) in *.
  assert (Hl : Forall is_byte last).
  { pose proof (tail_bytes r (8 * L) Hb) as Ht. destruct (lastBlocks_tail r (8 * L) Hr) as [Et _]. rewrite <- Et in Ht.
    assert (Hin : last ∈ lastBlocks r (8 * L)).
    { unfold lastBlocks in *. specialize (Hblocks (8 * L)). fold last in Hblocks.
      destruct (_ <=? _)%nat; [apply app_inj_tail in Hblocks as [_ ->]; left|].
      change (bs ++ [?x; ?y]) with (bs ++ [x] ++ [y]) in Hblocks. rewrite app_assoc in Hblocks.
      apply app_inj_tail in Hblocks as [_ ->]. right; left. }
    rewrite Forall_forall in Ht |- *. intros x Hx. apply Ht.
    apply in_concat. exists last. split; [apply list_elem_of_In; exact Hin|exact Hx]. }
  destruct (sha1Transform_spec stack stack_length (setData c last) (fold_left Fips.compress bs' Fips.H0)) as [-> _];
    [apply (hashing_data c _ last); [exact Hc|]|exact Hl|].
  - unfold last. rewrite length_app, length_take, big_endian_length. lia.
  - cbn [setState state data setData]. cbn [seq flat_map nth stateOf app].
    rewrite !wordBytes_big_endian. reflexivity.
Qed.

End Finish.

(** C35: the debugger's [computeSha1] is the SHA-1 of FIPS 180-4 of its two sources one after
    the other, whatever the uninitialised context and message schedule held before,
    for every message that its assertion allows (under 2^29 - 1 bytes). *)
Theorem computeSha1_is_SHA1 (stack : list Z) (frame : Sha1Context) (source1 source2 : list Z) :
  List.length stack = 80%nat -> List.length (data frame) = 64%nat ->
  Forall is_byte source1 -> Forall is_byte source2 ->
  Z.of_nat (List.length source1 + List.length source2) < 2 ^ 29 - 1 ->
  computeSha1 stack frame source1 source2 = Fips.sha1 (source1 ++ source2).
Proof.
  intros Hs Hf H1 H2 Hl. unfold computeSha1. cbv zeta. rewrite <- length_app in *.
  apply sha1Finish_spec; [exact Hs| |lia].
  apply (sha1Update_holds stack Hs source2 _ source1); [|exact H2].
  apply (sha1Update_holds stack Hs source1 _ []); [|exact H1]. exact (sha1Init_holds stack Hs frame Hf).
Qed.

Lemma bytes_are_bytes s : Forall is_byte (bytes s).
Proof.
  induction s as [|c s IH]; cbn [bytes]; constructor; [|exact IH].
  pose proof (Ascii.nat_ascii_bounded c). unfold is_byte. lia.
Qed.

(** The sample of RFC 6455, section 1.3: the key, and the GUID that every server appends. *)
Definition sampleKey : list Z := bytes "dGhlIHNhbXBsZSBub25jZQ==".
Definition GUID : list Z := bytes "258EAFA5-E914-47DA-95CA-C5AB0DC85B11".

Lemma computeSha1_is_SHA1_witness :
  let stack := replicate 80 7 in
  let frame := mkSha1Context (replicate 64 9) 5 [] [] in
  computeSha1 stack frame sampleKey GUID = Fips.sha1 (sampleKey ++ GUID) /\
  Fips.sha1 (sampleKey ++ GUID)
  = [0xb3; 0x7a; 0x4f; 0x2c; 0xc0; 0x62; 0x4f; 0x16; 0x90; 0xf6; 0x46; 0x06; 0xcf; 0x38; 0x59; 0x45; 0xb2; 0xbe; 0xc4; 0xea].
Proof.
  intros stack frame. split; [|vm_compute; reflexivity].
  apply (computeSha1_is_SHA1 stack frame sampleKey GUID); [reflexivity|reflexivity|..|reflexivity];
    apply bytes_are_bytes.
Defined.
