(* ===== verification/DebuggerTcp.v ===== *)
(** * The debugger's connection

    [debugger/DebuggerTcp.cpp] and the strings of [debugger/Debugger.cpp]: sending and
    receiving on a non-blocking socket, the websocket handshake, frames out ([send]) and in
    ([receive]), the close codes.  The socket is a parameter. *)

From stdpp Require Import list strings.
From S2P Require Import Prelude Sha1.
Local Open Scope esc_scope.
Local Open Scope Z_scope.

(** ** The socket

    The calls of the operating system: what [recv] and [send] answer, and the
    bytes of the stream that have been handed over ([consumed]) and taken ([sent]). *)

Inductive SocketError := WouldBlock | OtherError.

Inductive RecvResult :=
| RecvBytes (l : list Z)            (* [l] empty: the peer has shut the stream down *)
| RecvFailed (e : SocketError).

Inductive SendResult :=
| SentBytes (n : nat)
| SendFailed (e : SocketError).

Class Socket (W : Type) := {
  recv : W -> nat -> RecvResult * W;
  sendBytes : W -> list Z -> SendResult * W;
  peekFailed : W -> bool;                (* the [MSG_PEEK] test of [tcpSend] *)
  consumed : W -> list Z;
  sent : W -> list Z;
  patience : W -> nat                    (* how often the calls can still answer [EWOULDBLOCK] *)
}.

(** Documented behaviour: a stream of bytes each way, never more than asked for,
    and a blocked call can be tried again only so often. *)
Class SocketLaws (W : Type) `{Socket W} := {
  recv_bytes : forall w n l w', recv w n = (RecvBytes l, w') ->
    (List.length l <= n)%nat /\ Forall (fun b => 0 <= b < 256) l /\
    consumed w' = consumed w ++ l /\ sent w' = sent w /\ (patience w' <= patience w)%nat;
  recv_failed : forall w n e w', recv w n = (RecvFailed e, w') ->
    consumed w' = consumed w /\ sent w' = sent w /\ (patience w' <= patience w)%nat /\
    (e = WouldBlock -> (patience w' < patience w)%nat);
  send_bytes : forall w l n w', sendBytes w l = (SentBytes n, w') ->
    (n <= List.length l)%nat /\ (l <> [] -> 0 < n)%nat /\
    sent w' = sent w ++ take n l /\ consumed w' = consumed w /\ (patience w' <= patience w)%nat;
  send_failed : forall w l e w', sendBytes w l = (SendFailed e, w') ->
    sent w' = sent w /\ consumed w' = consumed w /\ (patience w' <= patience w)%nat /\
    (e = WouldBlock -> (patience w' < patience w)%nat)
}.

(** ** The object *)

Definition MAX_MESSAGE_LENGTH : nat := 125.

Record DebuggerTcp (W : Type) := mkTcp {
  socket : W;
  enabled : bool;
  receiveBuffer : list Z;
  receiveBufferFill : nat;
  messageLength : nat
}.
Arguments mkTcp {W}.
Arguments socket {W}.
Arguments enabled {W}.
Arguments receiveBuffer {W}.
Arguments receiveBufferFill {W}.
Arguments messageLength {W}.

Inductive CloseReason := CloseEndConnection | CloseAbortConnection | CloseProtocolUnsupported | CloseProtocolError.

(** A cast to [uint8_t] of a length. *)
Definition u8n (n : nat) : nat := n mod 256.

(** [memcpy(d + at, l, length of l)]. *)
Fixpoint copyTo (d : list Z) (at_ : nat) (l : list Z) : list Z :=
  match l with
  | [] => d
  | b :: l => copyTo (<[at_ := b]> d) (S at_) l
  end.

Section Connection.
Context {W : Type} `{Socket W}.
(** The turns that [tcpSend] and the handshake are given. *)
Variable fuel : nat.

#[local] Abbreviation Tcp := (DebuggerTcp W).
(** Nothing throws. *)
Definition TcpM (A : Type) : Type := M Tcp Empty_set A.

Definition setSocket (t : Tcp) (w : W) : Tcp :=
  mkTcp w (enabled t) (receiveBuffer t) (receiveBufferFill t) (messageLength t).
Definition setBuffer (t : Tcp) (b : list Z) (fill : nat) : Tcp :=
  mkTcp (socket t) (enabled t) b fill (messageLength t).
Definition setMessageLength (t : Tcp) (n : nat) : Tcp :=
  mkTcp (socket t) (enabled t) (receiveBuffer t) (receiveBufferFill t) n.
Definition disable (t : Tcp) : Tcp :=
  mkTcp (socket t) false (receiveBuffer t) (receiveBufferFill t) (messageLength t).

(** A call on the socket. *)
Definition call {A} (f : W -> A * W) : TcpM A :=
  fun t => (Ret (fst (f (socket t))), setSocket t (snd (f (socket t)))).

(** One turn of [do ... while (messageLength > 0)]. *)
Definition tcpSend_turn (message : list Z) : TcpM (list Z + bool) :=
  let! failed := gets (fun t => peekFailed (socket t)) in
  if failed then break false
  else
    let! r := call (fun w => sendBytes w message) in
    match r with
    | SendFailed WouldBlock => if (0 <? List.length message)%nat then continue message else break true
    | SendFailed OtherError => break false
    | SentBytes n =>
      let message := drop n message in
      if (0 <? List.length message)%nat then continue message else break true
    end.

Definition tcpSend (message : list Z) : TcpM bool := loop fuel tcpSend_turn message.

(** [None]: false; [Some l]: true with [l] in the buffer. *)
Definition tcpReceive (maxLength : nat) : TcpM (option (list Z)) :=
  let! r := call (fun w => recv w maxLength) in
  ret match r with
      | RecvBytes [] => None
      | RecvBytes l => Some l
      | RecvFailed WouldBlock => Some []
      | RecvFailed OtherError => None
      end.

Definition FIN_BIT : Z := 0x80.
Definition BINARY_FRAME : Z := 2.
Definition CLOSE_FRAME : Z := 8.
Definition OPCODE_MASK : Z := 0x0f.
Definition LENGTH_MASK : Z := 0x7f.
Definition ONE_BYTE_LEN_MAX : nat := 125.
Definition MASK_BIT : Z := 0x80.

Definition closeFrame (reason : CloseReason) : list Z :=
  let reasonID := match reason with
                  | CloseProtocolUnsupported => 1003
                  | CloseProtocolError => 1002
                  | _ => 1000
                  end in
  [Z.lor FIN_BIT CLOSE_FRAME; 2; u8 (Z.shiftr reasonID 8); u8 reasonID].

Definition close (reason : CloseReason) : TcpM unit :=
  let! e := gets enabled in
  if negb e then ret tt
  else
    do! match reason with
        | CloseAbortConnection => ret tt
        | _ => do! tcpSend (closeFrame reason) in ret tt
        end in
    modify disable.

Definition send (type : Z) (buffer : list Z) : TcpM bool :=
  let message := [Z.lor FIN_BIT BINARY_FRAME; u8 (Z.of_nat (List.length buffer + 1)); type] ++ buffer in
  let! r := tcpSend message in
  if r then ret true else do! close CloseAbortConnection in ret false.

(** ** Receiving *)

(** The first block of [receive]: false when the call is over. *)
Definition fillBuffer : TcpM bool :=
  let! t := get in
  if (messageLength t =? 0)%nat || (receiveBufferFill t <? 2 + 4 + messageLength t)%nat
  then
    let! r := tcpReceive (MAX_MESSAGE_LENGTH + 2 + 4 - receiveBufferFill t) in
    match r with
    | None => do! close CloseAbortConnection in ret false
    | Some l =>
      if (List.length l =? 0)%nat && (receiveBufferFill t <? 2 + 4)%nat then ret false
      else
        do! modify (fun t => setBuffer t (copyTo (receiveBuffer t) (receiveBufferFill t) l)
                                         (u8n (receiveBufferFill t + List.length l))) in
        ret true
    end
  else ret true.

(** The second block: the header of a frame. *)
Definition readHeader : TcpM bool :=
  let! t := get in
  if negb (messageLength t =? 0)%nat then ret true
  else if (receiveBufferFill t <? 3)%nat then ret false
  else
    let b0 := nth 0 (receiveBuffer t) 0 in
    let b1 := nth 1 (receiveBuffer t) 0 in
    if negb (Z.land b0 OPCODE_MASK =? BINARY_FRAME)
    then if Z.land b0 OPCODE_MASK =? CLOSE_FRAME
         then do! close CloseEndConnection in ret false
         else do! close CloseProtocolUnsupported in ret false
    else if negb (Z.land b0 (Z.lnot OPCODE_MASK) =? FIN_BIT) || (Z.land b1 MASK_BIT =? 0)
    then do! close CloseProtocolUnsupported in ret false
    else
      let n := Z.to_nat (u8 (Z.land b1 LENGTH_MASK)) in
      do! modify (fun t => setMessageLength t n) in
      if (n =? 0)%nat || (ONE_BYTE_LEN_MAX <? n)%nat
      then do! close CloseProtocolUnsupported in ret false
      else ret true.

(** The unmasking loop: [source] and [mask] are offsets in the receive buffer. *)
Fixpoint unmask (b : list Z) (n source mask : nat) : list Z :=
  match n with
  | O => []
  | S n =>
    Z.lxor (nth source b 0) (nth mask b 0)
    :: unmask b n (S source) (if (2 + 4 <=? S mask)%nat then S mask - 4 else S mask)
  end.

(** The third block: a whole frame leaves the buffer. *)
Definition takeMessage : TcpM (option (list Z)) :=
  let! t := get in
  let totalSize := (2 + 4 + messageLength t)%nat in
  if (receiveBufferFill t <? totalSize)%nat then ret None
  else
    let message := unmask (receiveBuffer t) (messageLength t) (2 + 4) 2 in
    do! modify (fun t => setMessageLength t 0) in
    if (receiveBufferFill t =? totalSize)%nat
    then do! modify (fun t => setBuffer t (receiveBuffer t) 0) in ret (Some message)
    else
      let fill := u8n (receiveBufferFill t - totalSize) in
      do! modify (fun t => setBuffer t (copyTo (receiveBuffer t) 0 (take fill (drop totalSize (receiveBuffer t)))) fill) in
      ret (Some message).

(** [Some message]: true, with the bytes that were written to the caller's buffer. *)
Definition receive : TcpM (option (list Z)) :=
  let! go := fillBuffer in
  if negb go then ret None
  else
    let! go := readHeader in
    if negb go then ret None else takeMessage.

(** ** The handshake *)

Definition toBase64Character (value : Z) : Z :=
  if value <? 26 then u8 (value + 65)
  else if value <? 52 then u8 (value - 26 + 97)
  else if value <? 62 then u8 (value - 52 + 48)
  else if value =? 62 then 43
  else 47.

(** The source and the destination do not overlap. *)
Fixpoint toBase64 (source : list Z) : list Z :=
  match source with
  | s0 :: s1 :: s2 :: source =>
    toBase64Character (u8 (Z.shiftr s0 2))
    :: toBase64Character (u8 (Z.land (Z.lor (Z.shiftl s0 4) (Z.shiftr s1 4)) 0x3f))
    :: toBase64Character (u8 (Z.land (Z.lor (Z.shiftl s1 2) (Z.shiftr s2 6)) 0x3f))
    :: toBase64Character (u8 (Z.land s2 0x3f))
    :: toBase64 source
  | _ => []
  end.

Definition CRLF : list Z := [13; 10].
Definition expectedProtocol : list Z := bytes "GET /escargot-debugger".
Definition expectedWebsocketKey : list Z := bytes "Sec-WebSocket-Key:".
Definition GUID : list Z := bytes "258EAFA5-E914-47DA-95CA-C5AB0DC85B11".
Definition responsePrefix : list Z :=
  bytes "HTTP/1.1 101 Switching Protocols" ++ CRLF ++ bytes "Upgrade: websocket" ++ CRLF
  ++ bytes "Connection: Upgrade" ++ CRLF ++ bytes "Sec-WebSocket-Accept: ".
Definition responseSuffix : list Z := bytes "=" ++ CRLF ++ CRLF.

(** [memcmp(b + at, l, length of l) == 0] *)
Definition memcmpEqual (b : list Z) (at_ : nat) (l : list Z) : bool :=
  bool_decide (take (List.length l) (drop at_ b) = l).

(** One turn of the loop that reads the request; the argument is what [buffer] holds up to [message]. *)
Definition readRequest_turn (buffer : list Z) : TcpM (list Z + option (list Z)) :=
  let! r := tcpReceive (1024 - List.length buffer) in
  match r with
  | None => break None
  | Some l =>
    let buffer := buffer ++ l in
    if (4 <? List.length buffer)%nat && memcmpEqual buffer (List.length buffer - 4) (CRLF ++ CRLF)
    then break (Some buffer)
    else if (1024 - List.length buffer =? 0)%nat then break None
    else continue buffer
  end.

(** The search for the header; [b] is the buffer and [n] the bytes received. *)
Fixpoint findKey (turns : nat) (b : list Z) (n p : nat) : option nat :=
  match turns with
  | O => None
  | S turns =>
    if (n - p <? List.length expectedWebsocketKey)%nat then None
    else if (nth p b 0 =? 83) && (nth (p - 1) b 0 =? 10) && (nth (p - 2) b 0 =? 13)
            && memcmpEqual b p expectedWebsocketKey
    then Some (p + List.length expectedWebsocketKey)%nat
    else findKey turns b n (S p)
  end.

(** A scan over the buffer; [None]: it has left the buffer. *)
Fixpoint skipWhile (test : Z -> bool) (b : list Z) (p : nat) (turns : nat) : option nat :=
  match turns, b !! p with
  | S turns, Some c => if test c then skipWhile test b (S p) turns else Some p
  | _, _ => None
  end.

Inductive Request := NoKey | OutOfBuffer | Key (key : list Z).

(** Everything between the reading and the digest. *)
Definition parseRequest (b : list Z) (n : nat) : Request :=
  if (n <? List.length expectedProtocol)%nat || negb (memcmpEqual b 0 expectedProtocol) then NoKey
  else match findKey (S n) b n (List.length expectedProtocol) with
       | None => NoKey
       | Some p =>
         match skipWhile (fun c => c =? 32) b p (S (List.length b)) with
         | None => OutOfBuffer
         | Some p =>
           match skipWhile (fun c => 32 <? c) b p (S (List.length b)) with
           | None => OutOfBuffer
           | Some e => Key (take (e - p) (drop p b))
           end
         end
       end.

(** [junk] is what the uninitialised part of the buffer holds, [stack] and [frame] what SHA-1 finds on its stack. *)
Definition webSocketHandshake (junk stack : list Z) (frame : Sha1Context) : TcpM bool :=
  let! request := loop fuel readRequest_turn [] in
  match request with
  | None => ret false
  | Some b =>
    match parseRequest (b ++ junk) (List.length b) with
    | NoKey | OutOfBuffer => ret false
    | Key key =>
      let digest := computeSha1 stack frame key GUID in
      let encoded := toBase64 (digest ++ [0]) in
      let! ok := tcpSend responsePrefix in
      if negb ok then ret false
      else
        let! ok := tcpSend (take 27 encoded) in
        if negb ok then ret false else tcpSend responseSuffix
    end
  end.

(** ** Strings (DebuggerRemote::sendString)

    [units] are the bytes of the string; [size] the bytes of a character. *)

Definition sendString_turn (type : Z) (maxBytes : nat) (units : list Z) : TcpM (list Z + unit) :=
  if (maxBytes <? List.length units)%nat
  then
    let! ok := send type (take maxBytes units) in
    if negb ok then break tt else continue (drop maxBytes units)
  else do! send (type + 1) units in break tt.

Definition sendString (type : Z) (has8BitContent : bool) (units : list Z) : TcpM unit :=
  if has8BitContent
  then loop (S (List.length units)) (sendString_turn type (MAX_MESSAGE_LENGTH - 1)) units
  else loop (S (List.length units)) (sendString_turn (type + 2) ((MAX_MESSAGE_LENGTH - 1) / 2 * 2)) units.

End Connection.
