(* ===== verification/DebuggerTcpSpec.v ===== *)
(** * What the debugger's connection promises

    The frames of the client's byte stream come out of [receive] one by one, in order and
    unmasked, however the stream was cut up; the handshake is answered with the accept
    key of RFC 6455. *)

From stdpp Require Import list strings.
From S2P Require Import Prelude UriSpec Sha1 Sha1Spec DebuggerTcp.
Local Open Scope esc_scope.
Local Open Scope Z_scope.

(** ** Frames of the client (RFC 6455, section 5) *)

Record Frame := mkFrame { mask : list Z; payload : list Z }.

(** The octet [i] of the payload is combined with octet [i mod 4] of the mask. *)
Definition masked (m l : list Z) : list Z := imap (fun i b => Z.lxor b (nth (i mod 4) m 0)) l.

Definition encode (f : Frame) : list Z :=
  [0x82; 0x80 + Z.of_nat (List.length (payload f))] ++ mask f ++ masked (mask f) (payload f).

Definition wf_frame (f : Frame) : Prop :=
  List.length (mask f) = 4%nat /\ (1 <= List.length (payload f) <= 125)%nat.

(** No whole frame at the beginning of [l]. *)
Definition incomplete (l : list Z) : Prop := forall f rest, wf_frame f -> l <> encode f ++ rest.

(** ** The loop that unmasks *)

Lemma unmask_spec b n : forall i,
  unmask b n (6 + i) (2 + i mod 4) = imap (fun j c => Z.lxor c (nth (2 + (i + j) mod 4) b 0)) (map (fun j => nth j b 0) (seq (6 + i) n)).
Proof.
  induction n as [|n IH]; intros i; [reflexivity|]. cbn [unmask seq map imap].
  rewrite Nat.add_0_r. f_equal.
  replace (if (2 + 4 <=? S (2 + i mod 4))%nat then (S (2 + i mod 4) - 4)%nat else S (2 + i mod 4)) with (2 + S i mod 4)%nat.
  - change (S (6 + i)) with (6 + S i)%nat. rewrite IH. apply imap_ext. intros j x _. cbn [compose].
    replace (i + S j)%nat with (S i + j)%nat by lia. reflexivity.
  - pose proof (Nat.div_mod i 4). pose proof (Nat.div_mod (S i) 4).
    pose proof (Nat.mod_upper_bound i 4). pose proof (Nat.mod_upper_bound (S i) 4).
    destruct (Nat.leb_spec (2 + 4) (S (2 + i mod 4))); lia.
Qed.

Lemma masked_twice m l : masked m (masked m l) = l.
Proof.
  apply list_eq. intros i. unfold masked. rewrite !list_lookup_imap. destruct (l !! i) as [x|]; cbn; [|reflexivity].
  rewrite Z.lxor_assoc, Z.lxor_nilpotent, Z.lxor_0_r. reflexivity.
Qed.

Lemma copyTo_spec l : forall d i, (i + List.length l <= List.length d)%nat ->
  copyTo d i l = take i d ++ l ++ drop (i + List.length l) d.
Proof.
  induction l as [|b l IH]; intros d i Hl; cbn in *; [rewrite Nat.add_0_r; symmetry; apply take_drop|].
  rewrite IH by (rewrite length_insert; lia). rewrite take_insert_S, <- app_assoc by lia. cbn [app].
  rewrite drop_insert_lt by lia. do 4 f_equal. lia.
Qed.

(** ** Sending *)

Section Connection.
Context {W : Type} `{Laws : SocketLaws W}.
Variable fuel : nat.

#[local] Abbreviation wpT m t Q := (wp (E := Empty_set) m t Q (fun _ _ => False)).

(** What sending leaves alone; [l] is what went out. *)
Definition sends (l : list Z) (t t' : DebuggerTcp W) : Prop :=
  t' = setSocket t (socket t') /\ consumed (socket t') = consumed (socket t) /\
  sent (socket t') = sent (socket t) ++ l /\ (patience (socket t') <= patience (socket t))%nat.

Lemma sends_refl t : sends [] t t.
Proof using Type. clear Laws. destruct t. repeat split; cbn; rewrite ?app_nil_r; lia || reflexivity. Qed.

Lemma sends_trans l l' t t' t'' : sends l t t' -> sends l' t' t'' -> sends (l ++ l') t t''.
Proof using Type.
  intros (E & Hc & Hs & Hp) (E' & Hc' & Hs' & Hp'). split; [rewrite E', E; reflexivity|].
  split; [congruence|]. split; [rewrite Hs', Hs, app_assoc; reflexivity|]. etransitivity; eassumption.
Qed.

Lemma wpT_gets {A} (f : DebuggerTcp W -> A) t (Q : A -> DebuggerTcp W -> Prop) : Q (f t) t -> wpT (gets f) t Q.
Proof using Type. exact id. Qed.

Lemma wpT_modify (f : DebuggerTcp W -> DebuggerTcp W) t (Q : unit -> DebuggerTcp W -> Prop) : Q tt (f t) -> wpT (modify f) t Q.
Proof using Type. exact id. Qed.

Lemma wp_call {A} (f : W -> A * W) t (Q : A -> DebuggerTcp W -> Prop) :
  (forall a w', f (socket t) = (a, w') -> Q a (setSocket t w')) -> wpT (call f) t Q.
Proof using Type. intros HQ. apply HQ. destruct (f (socket t)); reflexivity. Qed.

(** Either the whole message went out, or a part of it and the answer is false. *)
Lemma tcpSend_spec message t : (patience (socket t) + List.length message < fuel)%nat ->
  wpT (tcpSend fuel message) t (fun ok t' => exists l, sends l t t' /\ (if ok : bool then l = message else exists rest, message = l ++ rest)).
Proof using Laws.
  intros Hf. unfold tcpSend.
  apply (wp_loop (fun rest s => exists l, message = l ++ rest /\ sends l t s)
                 (fun rest s => patience (socket s) + List.length rest)%nat);
    [|exists []; split; [reflexivity|apply sends_refl]|exact Hf].
  clear Hf. intros rest s (l & -> & Hs). unfold tcpSend_turn, continue, break. apply wp_bind, wpT_gets.
  destruct (peekFailed (socket s)); [apply wp_ret; exists l; split; [exact Hs|exists rest; reflexivity]|].
  apply wp_bind, wp_call. intros [n|e] w' Ew.
  - destruct (send_bytes _ _ _ _ Ew) as (Hn & Hpos & Hst & Hc & Hp).
    assert (Hs' : sends (l ++ take n rest) t (setSocket s w'))
      by (apply (sends_trans _ _ _ s); [exact Hs|]; repeat split; assumption).
    assert (E : l ++ rest = (l ++ take n rest) ++ drop n rest) by (rewrite <- app_assoc, take_drop; reflexivity).
    cbv zeta. rewrite length_drop. destruct (Nat.ltb_spec 0 (List.length rest - n)) as [Hlt|Hge].
    + apply wp_ret. split; [exists (l ++ take n rest); auto|].
      rewrite length_drop. cbn [socket setSocket]. assert (0 < n)%nat by (apply Hpos; intros ->; cbn in Hlt; lia). lia.
    + apply wp_ret. exists (l ++ take n rest). split; [exact Hs'|]. rewrite E, (drop_ge rest n), app_nil_r by lia. reflexivity.
  - destruct (send_failed _ _ _ _ Ew) as (Hst & Hc & Hp & Hb).
    assert (Hs' : sends l t (setSocket s w')).
    { rewrite <- (app_nil_r l). apply (sends_trans _ _ _ s); [exact Hs|]. repeat split; cbn; rewrite ?app_nil_r; assumption. }
    destruct e; [|apply wp_ret; exists l; split; [exact Hs'|exists rest; reflexivity]].
    destruct (Nat.ltb_spec 0 (List.length rest)).
    + apply wp_ret. split; [exists l; auto|]. cbn [socket setSocket]. specialize (Hb eq_refl). lia.
    + apply wp_ret. exists l. split; [exact Hs'|]. destruct rest; [symmetry; apply app_nil_r|cbn in *; lia].
Qed.

(** After [close] the connection is off. *)
Lemma close_spec reason t : (patience (socket t) + 4 < fuel)%nat ->
  wpT (close fuel reason) t (fun _ t' => enabled t' = false /\ consumed (socket t') = consumed (socket t)).
Proof using Laws.
  intros Hf. unfold close. apply wp_bind, wpT_gets. destruct (enabled t) eqn:E; cbn [negb]; [|apply wp_ret; auto].
  apply wp_bind. apply wp_mono with (fun _ t' => consumed (socket t') = consumed (socket t)) (fun _ _ => False); [| |intros []].
  - destruct reason; [|apply wp_ret; reflexivity| |];
      (apply wp_bind; eapply wp_mono; [apply (tcpSend_spec (closeFrame _) t); cbn; exact Hf| |intros []];
       intros ok t' (l & (_ & Hc & _) & _); apply wp_ret; exact Hc).
  - intros _ t' Hc. apply wpT_modify. split; [reflexivity|exact Hc].
Qed.

(** [send] puts one unmasked binary frame on the stream. *)
Definition serverFrame (type : Z) (l : list Z) : list Z := [0x82; Z.of_nat (List.length l + 1); type] ++ l.

Lemma send_spec type l t : (List.length l < 125)%nat -> (patience (socket t) + List.length l + 7 < fuel)%nat ->
  wpT (send fuel type l) t (fun ok t' =>
    if ok : bool then sends (serverFrame type l) t t'
    else enabled t' = false /\ consumed (socket t') = consumed (socket t)).
Proof using Laws.
  intros Hl Hf. unfold send. cbv zeta.
  assert (E : [Z.lor FIN_BIT BINARY_FRAME; u8 (Z.of_nat (List.length l + 1)); type] ++ l = serverFrame type l).
  { unfold serverFrame, u8, to_unsigned. rewrite Z.mod_small by lia. reflexivity. }
  rewrite E. apply wp_bind. eapply wp_mono; [apply (tcpSend_spec (serverFrame type l) t); cbn; lia| |intros []].
  intros [] t' (m & Hs & Hm); [apply wp_ret; rewrite Hm in Hs; exact Hs|].
  apply wp_bind. eapply wp_mono; [apply (close_spec CloseAbortConnection t'); destruct Hs as (_ & _ & _ & Hp); lia| |intros []].
  intros _ t'' (He & Hc). apply wp_ret. split; [exact He|]. destruct Hs as (_ & Hc' & _). congruence.
Qed.

(** ** Receiving *)

(** The bytes waiting in the receive buffer. *)
Definition buffered (t : DebuggerTcp W) : list Z := take (receiveBufferFill t) (receiveBuffer t).

Definition supportedHeader (b : list Z) (n : nat) : Prop :=
  nth 0 b 0 = 0x82 /\ nth 1 b 0 = 0x80 + Z.of_nat n /\ (1 <= n <= 125)%nat.

(** The buffer has its size, and a length that was read is that of the frame at its front. *)
Definition wf_buffer (t : DebuggerTcp W) : Prop :=
  List.length (receiveBuffer t) = 131%nat /\ Forall is_byte (receiveBuffer t) /\ (receiveBufferFill t <= 131)%nat /\
  (messageLength t = 0%nat \/ (3 <= receiveBufferFill t)%nat /\ supportedHeader (receiveBuffer t) (messageLength t)).

(** Between two calls there is room for more. *)
Definition ready (t : DebuggerTcp W) : Prop :=
  wf_buffer t /\ (messageLength t = 0%nat -> (receiveBufferFill t < 131)%nat).

(** The stream: the frames [p] that are done with, then the buffer. *)
Definition tracks (p : list Z) (t : DebuggerTcp W) : Prop := consumed (socket t) = p ++ buffered t.

(** The socket says that the connection is over. *)
Definition failing (t : DebuggerTcp W) : Prop :=
  let r := fst (recv (socket t) (MAX_MESSAGE_LENGTH + 2 + 4 - receiveBufferFill t)) in
  r = RecvBytes [] \/ r = RecvFailed OtherError.

Lemma buffered_fill t l : wf_buffer t -> (receiveBufferFill t + List.length l <= 131)%nat -> Forall is_byte l ->
  let t' := setBuffer t (copyTo (receiveBuffer t) (receiveBufferFill t) l) (u8n (receiveBufferFill t + List.length l)) in
  wf_buffer t' /\ buffered t' = buffered t ++ l /\ (receiveBufferFill t <= receiveBufferFill t')%nat.
Proof using Type.
  clear Laws. intros (Hl & Hb & Hf & Hm) Hn Hbl. cbv zeta. unfold wf_buffer, buffered, setBuffer.
  cbn [receiveBuffer receiveBufferFill messageLength].
  unfold u8n. rewrite Nat.mod_small by lia. rewrite copyTo_spec by lia.
  set (b := receiveBuffer t) in *. set (n := receiveBufferFill t) in *.
  assert (Ht : take n b ++ l = take (n + List.length l) (take n b ++ l ++ drop (n + List.length l) b)).
  { rewrite app_assoc, take_app_length'; [reflexivity|]. rewrite length_app, length_take. lia. }
  split; [|split; [symmetry; exact Ht|lia]]. split; [rewrite !length_app, length_take, length_drop; lia|].
  split; [repeat apply Forall_app_2; [apply Forall_take, Hb|exact Hbl|apply Forall_drop, Hb]|].
  split; [lia|]. destruct Hm as [Hm|[H3 (H0 & H1 & Hr)]]; [left; exact Hm|right]. split; [lia|].
  unfold supportedHeader. rewrite !nth_lookup, !lookup_app_l by (rewrite length_take; lia).
  rewrite !lookup_take_lt by lia. rewrite <- !nth_lookup. auto.
Qed.

Definition fillBuffer_post (p : list Z) (t : DebuggerTcp W) (go : bool) (t' : DebuggerTcp W) : Prop :=
  if go then wf_buffer t' /\ tracks p t' /\ enabled t' = enabled t
  else (enabled t' = false /\ failing t) \/ (ready t' /\ tracks p t' /\ enabled t' = enabled t /\ (receiveBufferFill t' < 6)%nat).

Definition fillBuffer_result (p : list Z) (t : DebuggerTcp W) (go : bool) (t' : DebuggerTcp W) : Prop :=
  fillBuffer_post p t go t' /\ (exists rest, consumed (socket t') = p ++ rest) /\
  (enabled t' = true -> (patience (socket t') <= patience (socket t))%nat).

Lemma fillBuffer_closes p t w' : (patience w' + 4 < fuel)%nat -> tracks p (setSocket t w') -> failing t ->
  wpT (bind (close fuel CloseAbortConnection) (fun _ => ret false)) (setSocket t w') (fillBuffer_result p t).
Proof using Laws.
  intros Hf Ht Hfail. apply wp_bind. eapply wp_mono; [apply (close_spec CloseAbortConnection (setSocket t w')); exact Hf| |intros []].
  intros _ t' (He & Hc). apply wp_ret. split; [left; auto|]. split; [rewrite Hc; eexists; exact Ht|congruence].
Qed.

(** [l] arrived. *)
Lemma fillBuffer_stores p t w' l : wf_buffer t -> tracks p t -> consumed w' = consumed (socket t) ++ l ->
  (receiveBufferFill t + List.length l <= 131)%nat -> Forall is_byte l -> (patience w' <= patience (socket t))%nat ->
  fillBuffer_result p t true
    (setBuffer (setSocket t w') (copyTo (receiveBuffer t) (receiveBufferFill t) l) (u8n (receiveBufferFill t + List.length l))).
Proof using Type.
  clear Laws. intros Hw Ht Hc Hn Hbl Hp. destruct (buffered_fill (setSocket t w') l Hw Hn Hbl) as (Hw' & Hb' & _).
  set (t' := setBuffer _ _ _) in *.
  assert (Ht' : tracks p t').
  { unfold tracks. rewrite Hb'. change (consumed w' = p ++ buffered t ++ l). rewrite Hc, Ht, app_assoc. reflexivity. }
  split; [split; [exact Hw'|split; [exact Ht'|reflexivity]]|]. split; [eexists; exact Ht'|intros _; exact Hp].
Qed.

Lemma fillBuffer_spec p t : ready t -> tracks p t -> (patience (socket t) + 4 < fuel)%nat ->
  wpT (fillBuffer fuel) t (fillBuffer_result p t).
Proof using Laws.
  intros [Hw Hroom] Ht Hf. pose proof Hw as (Hl & Hb & H131 & Hm). unfold fillBuffer.
  apply wp_bind. apply (wpT_gets (fun t => t)). cbv beta.
  destruct (_ || _) eqn:Eread; [|apply wp_ret; split; [repeat split; assumption|split; [eexists; exact Ht|reflexivity]]].
  apply wp_bind. unfold tcpReceive. apply wp_bind, wp_call. intros r w' Er.
  assert (Hrecv : fst (recv (socket t) (MAX_MESSAGE_LENGTH + 2 + 4 - receiveBufferFill t)) = r) by (rewrite Er; reflexivity).
  apply wp_ret. destruct r as [l|e].
  - destruct (recv_bytes _ _ _ _ Er) as (Hn & Hbl & Hc & _ & Hp). unfold MAX_MESSAGE_LENGTH in Hn.
    destruct l as [|b l].
    + apply fillBuffer_closes; [lia| |left; exact Hrecv]. rewrite app_nil_r in Hc. unfold tracks. cbn. rewrite Hc. exact Ht.
    + apply wp_bind, wpT_modify, wp_ret. apply (fillBuffer_stores p t w' (b :: l)); (assumption || lia).
  - destruct (recv_failed _ _ _ _ Er) as (Hc & _ & Hp & _).
    assert (Ht' : tracks p (setSocket t w')) by (unfold tracks; cbn; rewrite Hc; exact Ht).
    destruct e; [|apply fillBuffer_closes; [lia|exact Ht'|right; exact Hrecv]].
    cbn [List.length Nat.eqb andb]. destruct (Nat.ltb_spec (receiveBufferFill t) (2 + 4)) as [Hlt|Hge].
    + apply wp_ret. split; [right|split; [eexists; exact Ht'|intros _; exact Hp]].
      split; [split; [exact Hw|exact Hroom]|]. split; [exact Ht'|]. split; [reflexivity|exact Hlt].
    + apply wp_bind, wpT_modify, wp_ret.
      apply (fillBuffer_stores p t w' []); try assumption; [rewrite app_nil_r; exact Hc|cbn; lia|constructor].
Qed.

(** The tests of [readHeader] on the two header bytes. *)
Definition headerOk (b0 b1 : Z) : bool :=
  (Z.land b0 OPCODE_MASK =? BINARY_FRAME) && (Z.land b0 (Z.lnot OPCODE_MASK) =? FIN_BIT) && negb (Z.land b1 MASK_BIT =? 0).

Lemma headerOk_spec b0 b1 : is_byte b0 -> is_byte b1 ->
  (headerOk b0 b1 = true <-> b0 = 0x82 /\ 0x80 <= b1) /\
  (0x80 <= b1 -> u8 (Z.land b1 LENGTH_MASK) = b1 - 0x80).
Proof using Type.
  clear Laws. intros H0 H1. unfold headerOk.
  pose proof (all_bytes (fun b => Bool.eqb ((Z.land b OPCODE_MASK =? BINARY_FRAME) && (Z.land b (Z.lnot OPCODE_MASK) =? FIN_BIT)) (b =? 0x82)) eq_refl b0 H0) as E0.
  pose proof (all_bytes (fun b => Bool.eqb (negb (Z.land b MASK_BIT =? 0)) (0x80 <=? b)) eq_refl b1 H1) as E1.
  pose proof (all_bytes (fun b => (b <? 0x80) || (u8 (Z.land b LENGTH_MASK) =? b - 0x80)) eq_refl b1 H1) as E2.
  cbv beta in *. apply eqb_prop in E0, E1. rewrite E0, E1.
  rewrite andb_true_iff, Z.eqb_eq, Z.leb_le. split; [reflexivity|]. intros Hge.
  apply orb_true_iff in E2 as [E2|E2]; [apply Z.ltb_lt in E2; lia|apply Z.eqb_eq, E2].
Qed.

(** What the client may send next. *)
Definition begins_frame (l : list Z) : Prop :=
  (List.length l < 3)%nat \/ nth 0 l 0 = 0x82 /\ 0x81 <= nth 1 l 0 <= 0x80 + 125.

Lemma encode_length f : List.length (encode f) = (2 + List.length (mask f) + List.length (payload f))%nat.
Proof using Type. clear Laws. unfold encode, masked. rewrite !length_app, length_imap. reflexivity. Qed.

Lemma short_incomplete l n : (List.length l < 6 + n)%nat -> (n = 1 \/ supportedHeader l n)%nat -> incomplete l.
Proof using Type.
  clear Laws. intros Hl Hn f rest [Hm Hp] ->. rewrite length_app, encode_length in Hl.
  destruct Hn as [->|(_ & H1 & _)]; [lia|]. cbn in H1. lia.
Qed.

Lemma nth_buffered t i : (i < receiveBufferFill t)%nat -> nth i (buffered t) 0 = nth i (receiveBuffer t) 0.
Proof using Type. clear Laws. intros Hi. unfold buffered. rewrite !nth_lookup, lookup_take_lt by lia. reflexivity. Qed.

Lemma buffered_length t : wf_buffer t -> List.length (buffered t) = receiveBufferFill t.
Proof using Type. clear Laws. intros (Hl & _ & Hf & _). unfold buffered. rewrite length_take. lia. Qed.

(** What came after the frames [p] is not a frame that the code supports. *)
Definition violation (p : list Z) (t' : DebuggerTcp W) : Prop :=
  exists rest, consumed (socket t') = p ++ rest /\ ~ begins_frame rest.

Definition readHeader_post (p : list Z) (t : DebuggerTcp W) (go : bool) (t' : DebuggerTcp W) : Prop :=
  if go then wf_buffer t' /\ tracks p t' /\ enabled t' = enabled t /\ socket t' = socket t /\ messageLength t' <> 0%nat
  else (enabled t' = false /\ violation p t') \/
       (ready t' /\ tracks p t' /\ enabled t' = enabled t /\ socket t' = socket t /\ incomplete (buffered t')).

Lemma readHeader_closes p t t' reason : (patience (socket t') + 4 < fuel)%nat ->
  tracks p t -> socket t' = socket t -> ~ begins_frame (buffered t) ->
  wpT (bind (close fuel reason) (fun _ => ret false)) t' (readHeader_post p t).
Proof using Laws.
  intros Hf Ht Es Hb. apply wp_bind. eapply wp_mono; [apply close_spec; exact Hf| |intros []].
  intros _ t'' (He & Hc). apply wp_ret. left. split; [exact He|]. exists (buffered t). split; [|exact Hb].
  rewrite Hc, Es. exact Ht.
Qed.

Lemma readHeader_spec p t : wf_buffer t -> tracks p t -> (patience (socket t) + 4 < fuel)%nat ->
  wpT (readHeader fuel) t (readHeader_post p t).
Proof using Laws.
  intros Hw Ht Hf. pose proof Hw as (Hl & Hb & H131 & Hm). unfold readHeader.
  apply wp_bind. apply (wpT_gets (fun t => t)). cbv beta zeta.
  destruct (Nat.eqb_spec (messageLength t) 0) as [E0|E0]; cbn [negb]; [|apply wp_ret; split; [exact Hw|repeat split; assumption]].
  destruct (Nat.ltb_spec (receiveBufferFill t) 3) as [H3|H3].
  { apply wp_ret. right. split; [split; [exact Hw|lia]|]. split; [exact Ht|]. split; [reflexivity|].
    split; [reflexivity|]. apply (short_incomplete _ 1); [rewrite buffered_length by exact Hw; lia|left; reflexivity]. }
  assert (Hbyte : forall i, is_byte (nth i (receiveBuffer t) 0)) by (intros i; apply nth_Forall; [split; lia|exact Hb]).
  destruct (headerOk_spec _ _ (Hbyte 0%nat) (Hbyte 1%nat)) as [Hok Hlen]. unfold headerOk in Hok.
  unfold begins_frame in *. set (b0 := nth 0 (receiveBuffer t) 0) in *. set (b1 := nth 1 (receiveBuffer t) 0) in *.
  assert (Hbad : ~ (b0 = 0x82 /\ 0x81 <= b1 <= 0x80 + 125) -> ~ begins_frame (buffered t)).
  { unfold begins_frame. rewrite buffered_length, !nth_buffered by (assumption || lia). fold b0 b1. intros Hn [?|?]; [lia|tauto]. }
  destruct (Z.eqb_spec (Z.land b0 OPCODE_MASK) BINARY_FRAME) as [Eo|Eo]; cbn [negb andb] in *.
  2: { assert (Hnb : ~ begins_frame (buffered t)) by (apply Hbad; intros [H0 ?]; rewrite H0 in Eo; apply Eo; reflexivity).
       destruct (_ =? _); apply readHeader_closes; assumption || reflexivity. }
  destruct (Z.eqb_spec (Z.land b0 (Z.lnot OPCODE_MASK)) FIN_BIT) as [Ef|Ef]; cbn [negb orb andb] in *.
  2: { apply readHeader_closes; [assumption|exact Ht|reflexivity|]. apply Hbad. intros [H0 ?]. rewrite H0 in Ef. apply Ef. reflexivity. }
  destruct (Z.land b1 MASK_BIT =? 0) eqn:Em; cbn [negb] in *.
  { apply readHeader_closes; [assumption|exact Ht|reflexivity|]. apply Hbad. intros [H0 ?]. destruct Hok as [_ Hok]. discriminate Hok. lia. }
  destruct (proj1 Hok eq_refl) as [H0 H1]. rewrite (Hlen H1) in *. specialize (Hbyte 1%nat). fold b1 in Hbyte. unfold is_byte in Hbyte.
  apply wp_bind, wpT_modify. destruct (_ || _) eqn:Es; to_prop.
  { apply readHeader_closes; [assumption|exact Ht|reflexivity|]. apply Hbad. unfold ONE_BYTE_LEN_MAX in Es.
    apply orb_prop in Es as [Es|Es]; to_prop; lia. }
  unfold ONE_BYTE_LEN_MAX in *. apply wp_ret. unfold readHeader_post. cbn [enabled setMessageLength messageLength].
  split; [|split; [exact Ht|split; [reflexivity|split; [reflexivity|lia]]]].
  split; [exact Hl|]. split; [exact Hb|]. split; [exact H131|]. right. split; [exact H3|].
  split; [exact H0|]. cbn [messageLength receiveBuffer setMessageLength]. fold b1. split; lia.
Qed.

(** A buffer that holds a whole frame. *)
Lemma front_frame t : wf_buffer t -> messageLength t <> 0%nat -> (6 + messageLength t <= receiveBufferFill t)%nat ->
  let f := mkFrame (take 4 (drop 2 (receiveBuffer t))) (unmask (receiveBuffer t) (messageLength t) (2 + 4) 2) in
  wf_frame f /\
  buffered t = encode f ++ take (receiveBufferFill t - (6 + messageLength t)) (drop (6 + messageLength t) (receiveBuffer t)).
Proof using Type.
  clear Laws. intros (Hl & _ & Hf & Hm) Hn Hle. cbv zeta.
  destruct Hm as [Hm|[_ (H0 & H1 & Hr)]]; [contradiction|]. unfold buffered.
  set (b := receiveBuffer t) in *. set (n := messageLength t) in *. set (fill := receiveBufferFill t) in *.
  set (m := take 4 (drop 2 b)). set (source := take n (drop 6 b)).
  assert (Eu : unmask b n (2 + 4) 2 = masked m source).
  { transitivity (unmask b n (6 + 0) (2 + 0 mod 4)); [reflexivity|]. rewrite unmask_spec.
    assert (Es : map (fun j => nth j b 0) (seq (6 + 0) n) = source).
    { apply list_eq. intros i. unfold source. destruct (Nat.lt_ge_cases i n).
      - rewrite lookup_take_lt, lookup_drop by lia.
        rewrite list_lookup_fmap, lookup_seq_lt by lia. cbn [fmap option_fmap option_map].
        destruct (lookup_lt_is_Some_2 b (6 + i)) as [x Hx]; [lia|].
        rewrite Hx. apply (f_equal Some). apply nth_lookup_Some. exact Hx.
      - rewrite !lookup_ge_None_2; [reflexivity|rewrite length_take; lia|rewrite length_map, length_seq; lia]. }
    rewrite Es. unfold masked. apply imap_ext. intros i x _. cbn [Nat.add]. f_equal. unfold m.
    pose proof (Nat.mod_upper_bound i 4 ltac:(lia)). rewrite !nth_lookup, lookup_take_lt, lookup_drop by lia. reflexivity. }
  assert (Ls : List.length source = n) by (unfold source; rewrite length_take, length_drop; lia).
  assert (Lm : List.length m = 4%nat) by (unfold m; rewrite length_take, length_drop; lia).
  rewrite Eu. unfold wf_frame, encode. cbn [mask payload]. rewrite masked_twice. unfold masked. rewrite length_imap, Ls.
  split; [auto|]. rewrite <- H1, <- H0.
  assert (Eb : b = [nth 0 b 0; nth 1 b 0] ++ m ++ source ++ drop (6 + n) b).
  { unfold m, source. rewrite <- drop_drop, take_drop. change 6%nat with (2 + 4)%nat. rewrite <- drop_drop, take_drop.
    destruct b as [|x [|y b']]; [discriminate Hl|discriminate Hl|reflexivity]. }
  rewrite Eb at 1. rewrite !app_assoc. rewrite take_app_ge by (rewrite !length_app, Lm, Ls; cbn; lia).
  do 2 f_equal. rewrite !length_app, Lm, Ls. cbn. lia.
Qed.

Definition takeMessage_post (p : list Z) (t : DebuggerTcp W) (r : option (list Z)) (t' : DebuggerTcp W) : Prop :=
  ready t' /\ enabled t' = enabled t /\ socket t' = socket t /\
  match r with
  | None => tracks p t' /\ incomplete (buffered t')
  | Some m => exists f, wf_frame f /\ payload f = m /\ tracks (p ++ encode f) t'
  end.

Lemma takeMessage_spec p t : wf_buffer t -> messageLength t <> 0%nat -> tracks p t ->
  wpT takeMessage t (takeMessage_post p t).
Proof using Type.
  clear Laws fuel. intros Hw Hn Ht. unfold takeMessage. apply wp_bind. apply (wpT_gets (fun t => t)). cbv beta zeta.
  pose proof Hw as (Hl & Hb & H131 & Hm). destruct Hm as [Hm|[H3 Hh]]; [contradiction|].
  destruct (Nat.ltb_spec (receiveBufferFill t) (2 + 4 + messageLength t)) as [Hlt|Hge].
  { apply wp_ret. split; [split; [exact Hw|contradiction]|]. do 2 (split; [reflexivity|]). split; [exact Ht|].
    apply (short_incomplete _ (messageLength t)); [rewrite buffered_length by exact Hw; lia|right].
    destruct Hh as (H0 & H1 & Hr). unfold supportedHeader. rewrite !nth_buffered by lia. auto. }
  destruct (front_frame t Hw Hn Hge) as [Hf Eb]. cbv zeta in Hf, Eb. set (f := mkFrame _ _) in *.
  destruct Hh as (_ & _ & Hr). set (total := (6 + messageLength t)%nat) in *.
  apply wp_bind, wpT_modify. destruct (Nat.eqb_spec (receiveBufferFill t) (2 + 4 + messageLength t)) as [E|E].
  - apply wp_bind, wpT_modify, wp_ret. unfold takeMessage_post. split.
    + split; [split; [exact Hl|split; [exact Hb|split; [cbn; lia|left; reflexivity]]]|cbn; lia].
    + do 2 (split; [reflexivity|]). exists f. split; [exact Hf|split; [reflexivity|]]. unfold tracks in *. cbn.
      rewrite Ht, Eb, E. replace (2 + 4 + messageLength t - total)%nat with 0%nat by lia. cbn. rewrite !app_nil_r. reflexivity.
  - change (2 + 4 + messageLength t)%nat with total in *. unfold u8n. rewrite Nat.mod_small by lia.
    set (rest := take (receiveBufferFill t - total) (drop total (receiveBuffer t))) in *.
    assert (Lr : List.length rest = (receiveBufferFill t - total)%nat) by (unfold rest; rewrite length_take, length_drop; lia).
    apply wp_bind, wpT_modify, wp_ret. unfold takeMessage_post, setBuffer, setMessageLength.
    cbn [socket enabled receiveBuffer receiveBufferFill messageLength]. fold rest.
    rewrite copyTo_spec by lia. change (take 0 (receiveBuffer t)) with (@nil Z). cbn [app Nat.add]. split; [|do 2 (split; [reflexivity|])].
    + split; [split; [|split; [|split; [cbn; lia|left; reflexivity]]]|cbn; lia]; cbn [receiveBuffer].
      * rewrite length_app, length_drop. lia.
      * apply Forall_app_2; [unfold rest; apply Forall_take, Forall_drop, Hb|apply Forall_drop, Hb].
    + exists f. split; [exact Hf|split; [reflexivity|]]. unfold tracks, buffered in *. cbn [socket receiveBuffer receiveBufferFill].
      rewrite take_app_length' by lia. rewrite Ht, Eb, app_assoc. reflexivity.
Qed.

(** One call. *)
Definition receive_post (p : list Z) (t : DebuggerTcp W) (r : option (list Z)) (t' : DebuggerTcp W) : Prop :=
  match r with
  | Some m => exists f, wf_frame f /\ payload f = m /\ tracks (p ++ encode f) t' /\ ready t' /\ enabled t' = true
  | None => enabled t' = false /\ (failing t \/ violation p t') \/
            (ready t' /\ tracks p t' /\ enabled t' = true /\ incomplete (buffered t'))
  end /\
  (exists rest, consumed (socket t') = p ++ rest) /\
  (enabled t' = true -> (patience (socket t') <= patience (socket t))%nat).

Lemma receive_spec p t : enabled t = true -> ready t -> tracks p t -> (patience (socket t) + 4 < fuel)%nat ->
  wpT (receive fuel) t (receive_post p t).
Proof using Laws.
  intros He Hr Ht Hf. unfold receive. apply wp_bind.
  eapply wp_mono; [apply (fillBuffer_spec p t); assumption| |intros []]. intros go t1 (H1 & Hx1 & Hp1).
  destruct go; cbn [negb].
  2: { apply wp_ret. split; [|split; [exact Hx1|exact Hp1]].
       destruct H1 as [[E1 Hfail]|(Hr1 & Ht1 & E1 & H6)]; [left; auto|right]. split; [exact Hr1|]. split; [exact Ht1|].
       split; [congruence|]. apply (short_incomplete _ 1); [rewrite buffered_length by apply Hr1; lia|left; reflexivity]. }
  destruct H1 as (Hw1 & Ht1 & E1). specialize (Hp1 (eq_trans E1 He)). apply wp_bind.
  eapply wp_mono; [apply (readHeader_spec p t1); [exact Hw1|exact Ht1|lia]| |intros []]. intros go t2 H2.
  destruct go; cbn [negb].
  2: { apply wp_ret. destruct H2 as [[E2 Hv]|(Hr2 & Ht2 & E2 & Es2 & Hi)].
       - split; [left; auto|]. split; [destruct Hv as (rest & Hc & _); exists rest; exact Hc|congruence].
       - split; [right; repeat split; try assumption; congruence || apply Hr2|].
         split; [eexists; exact Ht2|intros _; rewrite Es2; exact Hp1]. }
  destruct H2 as (Hw2 & Ht2 & E2 & Es2 & Hn2).
  eapply wp_mono; [apply (takeMessage_spec p t2); assumption| |intros []]. intros r t3 (Hr3 & E3 & Es3 & H3).
  split; [|split; [|intros _; rewrite Es3, Es2; exact Hp1]].
  - destruct r as [m|]; cbn.
    + destruct H3 as (f & Hwf & Hm & Ht3). exists f. split; [exact Hwf|]. split; [exact Hm|]. split; [exact Ht3|].
      split; [exact Hr3|congruence].
    + right. destruct H3 as [Ht3 Hi]. split; [exact Hr3|]. split; [exact Ht3|]. split; [congruence|exact Hi].
  - rewrite Es3, Es2. eexists. rewrite <- Es2. exact Ht2.
Qed.

(** ** A connection after its handshake *)

(** [w] is the socket when [init] enabled the connection; then calls of [send] and [receive] in any order,
    as long as the connection is on. *)
Inductive Session (w : W) : DebuggerTcp W -> list (list Z) -> Prop :=
| session_init : Session w (mkTcp w true (replicate 131 0) 0 0) []
| session_receive t ms r t' : Session w t ms -> enabled t = true -> receive fuel t = (Ret r, t') ->
    Session w t' (ms ++ match r with Some m => [m] | None => [] end)
| session_send t ms type l ok t' : Session w t ms -> enabled t = true -> (List.length l < 125)%nat ->
    send fuel type l t = (Ret ok, t') -> Session w t' ms.

Definition stream (w : W) (frames : list Frame) : list Z := consumed w ++ concat (map encode frames).

Definition inSession (w : W) (t : DebuggerTcp W) (ms : list (list Z)) : Prop :=
  exists frames, Forall wf_frame frames /\ map payload frames = ms /\
  (exists rest, consumed (socket t) = stream w frames ++ rest) /\
  (enabled t = true -> ready t /\ tracks (stream w frames) t /\ (patience (socket t) <= patience w)%nat).

Lemma stream_snoc w frames f : stream w (frames ++ [f]) = stream w frames ++ encode f.
Proof using Type. clear Laws. unfold stream. rewrite map_app, concat_app. cbn. rewrite app_nil_r, app_assoc. reflexivity. Qed.

Lemma wp_ends {A} (m : TcpM (W := W) A) t Q : wpT m t Q -> exists a t', m t = (Ret a, t') /\ Q a t'.
Proof using Type. clear Laws. intros Hm. destruct (wp_run m t Q _ Hm) as [?|(e & _)]; [assumption|destruct e]. Qed.

Lemma session_invariant w t ms : (patience w + 132 < fuel)%nat -> Session w t ms -> inSession w t ms.
Proof using Laws.
  intros Hf. induction 1 as [|t ms r t' _ (frames & Hw & Hm & _ & He) Hon E|t ms type l ok t' _ (frames & Hw & Hm & _ & He) Hon Hl E].
  - exists []. split; [constructor|]. split; [reflexivity|]. unfold stream. cbn. rewrite app_nil_r.
    split; [exists []; symmetry; apply app_nil_r|]. intros _.
    split; [|split; [symmetry; apply app_nil_r|lia]].
    split; [|cbn; lia]. split; [reflexivity|]. split; [apply (zeros_bytes 131)|]. split; [cbn; lia|left; reflexivity].
  - destruct (He Hon) as (Hr & Ht & Hp). destruct (wp_ends _ _ _ (receive_spec _ t Hon Hr Ht ltac:(lia))) as (r' & t'' & E' & Hpost).
    rewrite E' in E. injection E as -> ->. destruct Hpost as (Hpost & Hrest & Hp'). destruct r as [m|].
    + destruct Hpost as (f & Hf' & Hfm & Ht' & Hr' & Hon'). exists (frames ++ [f]). rewrite stream_snoc.
      split; [apply Forall_app_2; auto|]. split; [rewrite map_app, Hm, <- Hfm; reflexivity|]. split; [eexists; exact Ht'|].
      intros _. split; [exact Hr'|]. split; [exact Ht'|]. specialize (Hp' Hon'). lia.
    + exists frames. rewrite app_nil_r. split; [exact Hw|]. split; [exact Hm|]. split; [exact Hrest|]. intros Hon'.
      destruct Hpost as [[Hoff _]|(Hr' & Ht' & _)]; [congruence|]. split; [exact Hr'|]. split; [exact Ht'|]. specialize (Hp' Hon'). lia.
  - destruct (He Hon) as (Hr & Ht & Hp). destruct (wp_ends _ _ _ (send_spec type l t Hl ltac:(lia))) as (ok' & t'' & E' & Hpost).
    rewrite E' in E. injection E as -> ->. exists frames. split; [exact Hw|]. split; [exact Hm|]. destruct ok.
    + destruct Hpost as (Es & Hc & _ & Hp'). rewrite Es.
      assert (Ht' : tracks (stream w frames) (setSocket t (socket t'))) by (unfold tracks; cbn; rewrite Hc; exact Ht).
      split; [eexists; exact Ht'|]. intros _. split; [exact Hr|]. split; [exact Ht'|]. cbn. lia.
    + destruct Hpost as [Hoff Hc]. split; [rewrite Hc; eexists; exact Ht|congruence].
Qed.

End Connection.

(** C36: however the client's bytes arrive, [receive] hands out the payloads of its frames, unmasked, whole and
    in order; it never runs out of the receive buffer or asks [recv] for nothing; when it hands out nothing, no whole
    frame is waiting; and it only closes when the socket has failed or what follows the frames is not one it supports. *)
Theorem messages_in_order {W} `{Laws : SocketLaws W} (fuel : nat) (w : W) (t : DebuggerTcp W) (ms : list (list Z)) :
  (patience w + 132 < fuel)%nat -> Session fuel w t ms ->
  exists frames, Forall wf_frame frames /\ map payload frames = ms /\
  (exists rest, consumed (socket t) = stream w frames ++ rest) /\
  (enabled t = true ->
   (receiveBufferFill t <= 131)%nat /\
   (messageLength t = 0%nat \/ (receiveBufferFill t < 6 + messageLength t)%nat -> (receiveBufferFill t < 131)%nat) /\
   exists r t', receive fuel t = (Ret r, t') /\
   match r with
   | Some m => exists f, wf_frame f /\ payload f = m /\ exists rest, consumed (socket t') = stream w (frames ++ [f]) ++ rest
   | None => enabled t' = false /\ (failing t \/ violation (stream w frames) t') \/
             enabled t' = true /\ consumed (socket t') = stream w frames ++ buffered t' /\ incomplete (buffered t')
   end).
Proof.
  intros Hf Hs. destruct (session_invariant fuel w t ms Hf Hs) as (frames & Hw & Hm & Hrest & He).
  exists frames. split; [exact Hw|]. split; [exact Hm|]. split; [exact Hrest|]. intros Hon.
  destruct (He Hon) as (Hr & Ht & Hp). pose proof Hr as [(_ & _ & H131 & Hml) Hroom].
  split; [exact H131|]. split; [intros [H0|H0]; [auto|destruct Hml as [?|[_ (_ & _ & ?)]]; [auto|lia]]|].
  destruct (wp_ends _ _ _ (receive_spec fuel _ t Hon Hr Ht ltac:(lia))) as (r & t' & E & Hpost & _).
  exists r, t'. split; [exact E|]. destruct r as [m|].
  - destruct Hpost as (f & Hf' & Hfm & Ht' & _). exists f. rewrite stream_snoc. repeat split; [apply Hf'..|exact Hfm|].
    eexists. exact Ht'.
  - destruct Hpost as [Hoff|(_ & Ht' & Hon' & Hi)]; [left; exact Hoff|right; auto].
Qed.

(** A socket that follows a script: the chunks in which the stream arrives. *)
Record Script := mkScript { chunks : list (list Z); got : list Z; out : list Z; waits : nat }.

#[export] Instance script_socket : Socket Script := {
  recv s n :=
    match chunks s with
    | [] => match waits s with
            | O => (RecvFailed OtherError, s)
            | S k => (RecvFailed WouldBlock, mkScript [] (got s) (out s) k)
            end
    | c :: cs =>
      let l := map u8 (take n c) in
      (RecvBytes l, mkScript (match drop n c with [] => cs | c => c :: cs end) (got s ++ l) (out s) (waits s))
    end;
  sendBytes s l := (SentBytes (List.length l), mkScript (chunks s) (got s) (out s ++ l) (waits s));
  peekFailed _ := false;
  consumed := got;
  sent := out;
  patience := waits
}.

#[export] Instance script_laws : SocketLaws Script.
Proof.
  split.
  - intros s n l s' E. cbn in *. destruct (chunks s) as [|c cs]; [destruct (waits s); discriminate E|].
    injection E as <- <-. cbn. rewrite length_map, length_take. split; [lia|]. split; [|auto].
    apply Forall_map, Forall_forall. intros b _. cbn. unfold u8, to_unsigned. apply Z.mod_pos_bound. lia.
  - intros s n e s' E. cbn in *. destruct (chunks s) as [|c cs]; [|discriminate E].
    destruct (waits s) eqn:Ew; injection E as <- <-; cbn; repeat split; (lia || discriminate).
  - intros s l n s' E. cbn in *. injection E as <- <-. cbn. rewrite firstn_all. repeat split; try lia.
    destruct l; cbn; [congruence|lia].
  - intros s l e s' E. discriminate E.
Defined.

(** Two frames that arrive in three pieces, a reply in between. *)
Definition frame1 : Frame := mkFrame [1; 2; 3; 4] [10; 20; 30; 40; 50].
Definition frame2 : Frame := mkFrame [9; 9; 0; 255] [7].
Definition script : Script :=
  let s := encode frame1 ++ encode frame2 in mkScript [take 4 s; take 10 (drop 4 s); drop 14 s] [] [] 3.

Lemma messages_in_order_witness :
  exists t, Session 500 script t [payload frame1; payload frame2] /\ enabled t = true /\
  exists frames, map payload frames = [payload frame1; payload frame2] /\
    exists rest, consumed (socket t) = stream script frames ++ rest.
Proof.
  pose (t1 := snd (receive 500 (mkTcp script true (replicate 131 0) 0 0))).
  pose (t2 := snd (receive 500 t1)). pose (t3 := snd (send 500 1 [5; 6] t2)). pose (t4 := snd (receive 500 t3)).
  assert (S4 : Session 500 script t4 [payload frame1; payload frame2]).
  { apply (session_receive 500 script t3 [payload frame1] (Some (payload frame2))); [|reflexivity|vm_compute; reflexivity].
    apply (session_send 500 script t2 [payload frame1] 1 [5; 6] true); [|reflexivity|cbn; lia|vm_compute; reflexivity].
    apply (session_receive 500 script t1 [] (Some (payload frame1))); [|reflexivity|vm_compute; reflexivity].
    apply (session_receive 500 script (mkTcp script true (replicate 131 0) 0 0) [] None);
      [apply session_init|reflexivity|vm_compute; reflexivity]. }
  exists t4. split; [exact S4|]. split; [vm_compute; reflexivity|].
  assert (Hf : (patience script + 132 < 500)%nat) by (cbn; lia).
  destruct (messages_in_order 500 script t4 _ Hf S4) as (frames & _ & Hm & Hrest & _).
  exists frames. auto.
Defined.
