(* ===== verification/DebuggerHandshake.v ===== *)
(** * The handshake of the debugger

    The request is read up to its empty line, searched for the key inside the buffer only,
    and answered with the base64 of the SHA-1 of the key and the GUID (RFC 6455, section 4.2.2). *)

From stdpp Require Import list strings.
From S2P Require Import Prelude UriSpec Sha1 Sha1Spec DebuggerTcp DebuggerTcpSpec.
Local Open Scope esc_scope.
Local Open Scope Z_scope.

(** ** Base64 (RFC 4648, section 4) *)

Definition alphabet : list Z := bytes "ABCDEFGHIJKLMNOPQRSTUVWXYZabcdefghijklmnopqrstuvwxyz0123456789+/".

(** The [i]th group of six bits, from the left, of 24 bits. *)
Definition sextet (i : Z) (n : Z) : Z := nth (Z.to_nat (n / 2 ^ (18 - 6 * i) mod 64)) alphabet 0.
Definition bits24 (a b c : Z) : Z := a * 2 ^ 16 + b * 2 ^ 8 + c.

Fixpoint base64 (l : list Z) : list Z :=
  match l with
  | a :: b :: c :: l =>
    let n := bits24 a b c in sextet 0 n :: sextet 1 n :: sextet 2 n :: sextet 3 n :: base64 l
  | [a; b] => let n := bits24 a b 0 in [sextet 0 n; sextet 1 n; sextet 2 n] ++ bytes "="
  | [a] => let n := bits24 a 0 0 in [sextet 0 n; sextet 1 n] ++ bytes "=="
  | [] => []
  end.

Lemma toBase64Character_spec v : 0 <= v < 64 -> toBase64Character v = nth (Z.to_nat v) alphabet 0.
Proof.
  intros Hv. pose proof (all_bytes (fun v => (64 <=? v) || (toBase64Character v =? nth (Z.to_nat v) alphabet 0)) eq_refl v ltac:(lia)) as E.
  cbv beta in E. apply orb_prop in E as [E|E]; to_prop; lia.
Qed.

(** The shifts of [toBase64] select the sextets. *)
Lemma sextets a b c : is_byte a -> is_byte b -> is_byte c ->
  let n := bits24 a b c in
  u8 (Z.shiftr a 2) = n / 2 ^ 18 mod 64 /\
  u8 (Z.land (Z.lor (Z.shiftl a 4) (Z.shiftr b 4)) 0x3f) = n / 2 ^ 12 mod 64 /\
  u8 (Z.land (Z.lor (Z.shiftl b 2) (Z.shiftr c 6)) 0x3f) = n / 2 ^ 6 mod 64 /\
  u8 (Z.land c 0x3f) = n / 2 ^ 0 mod 64.
Proof.
  unfold is_byte, u8, to_unsigned, bits24. intros Ha Hb Hc. cbv zeta.
  change 0x3f with (2 ^ 6 - 1). rewrite !land_low, !Z.shiftr_div_pow2 by lia.
  rewrite !lor_shiftl_add by lia. repeat split; lia.
Qed.

Lemma toBase64_app3 l : Forall is_byte l -> (List.length l mod 3 = 0)%nat -> toBase64 l = base64 l.
Proof.
  assert (H : forall n l, (List.length l = 3 * n)%nat -> Forall is_byte l -> toBase64 l = base64 l).
  { induction n as [|n IH]; intros l0 Hl Hb; [destruct l0; [reflexivity|discriminate Hl]|].
    destruct l0 as [|a [|b [|c l0]]]; cbn in Hl; try lia. inversion Hb as [|? ? Ha Hb1]. inversion Hb1 as [|? ? Hb' Hb2].
    inversion Hb2 as [|? ? Hc Hb3]. subst. cbn [toBase64 base64]. cbv zeta.
    destruct (sextets a b c Ha Hb' Hc) as (-> & -> & -> & ->).
    rewrite !toBase64Character_spec by (apply Z.mod_pos_bound; lia). rewrite (IH l0) by (assumption || lia). reflexivity. }
  intros Hb Hm. apply (H (List.length l / 3)%nat); [|exact Hb]. apply Nat.Div0.div_exact in Hm. exact Hm.
Qed.

(** With two bytes left over, the code's trailing zero and the standard's padding agree but for the last character. *)
Lemma base64_two_left n : forall l, (List.length l = 3 * n + 2)%nat ->
  exists s c, base64 (l ++ [0]) = s ++ [c] /\ base64 l = s ++ bytes "=" /\ List.length s = (4 * n + 3)%nat.
Proof.
  induction n as [|n IH]; intros l Hl.
  - destruct l as [|a [|b [|? ?]]]; try discriminate Hl. cbn [app base64]. cbv zeta.
    exists [sextet 0 (bits24 a b 0); sextet 1 (bits24 a b 0); sextet 2 (bits24 a b 0)]. eexists. repeat split.
  - destruct l as [|a [|b [|c l]]]; cbn in Hl; try lia. destruct (IH l) as (s & x & E1 & E2 & E3); [lia|].
    cbn [app base64]. cbv zeta. rewrite E1, E2. set (m := bits24 a b c).
    exists (sextet 0 m :: sextet 1 m :: sextet 2 m :: sextet 3 m :: s), x. repeat split. cbn. lia.
Qed.

(** The accept key that is sent in two parts. *)
Lemma accept_base64 digest : List.length digest = 20%nat -> Forall is_byte digest ->
  take 27 (toBase64 (digest ++ [0])) ++ bytes "=" = base64 digest.
Proof.
  intros Hl Hb. rewrite toBase64_app3.
  - destruct (base64_two_left 6 digest Hl) as (s & c & -> & -> & Hs). rewrite take_app_length' by exact (eq_sym Hs). reflexivity.
  - apply Forall_app_2; [exact Hb|]. constructor; [split; lia|constructor].
  - rewrite length_app, Hl. reflexivity.
Qed.

(** ** The search for the key *)

(** The header line starts at [p]. *)
Definition keyAt (b : list Z) (p : nat) : Prop :=
  (22 <= p)%nat /\ (p + 18 <= List.length b)%nat /\ take 20 (drop (p - 2) b) = CRLF ++ expectedWebsocketKey.

(** The request asks for the debugger, and [key] is what stands in the first key header. *)
Definition headerKey (b key : list Z) : Prop :=
  take 22 b = expectedProtocol /\
  exists p n c post, keyAt b p /\ (forall q, keyAt b q -> (p <= q)%nat) /\
    drop (p + 18) b = replicate n 32 ++ key ++ c :: post /\
    Forall (fun x => 32 < x) key /\ c <= 32 /\ (key = [] -> c <> 32).

Lemma memcmp_app b junk p l : (p + List.length l <= List.length b)%nat -> memcmpEqual (b ++ junk) p l = memcmpEqual b p l.
Proof.
  intros Hl. unfold memcmpEqual. rewrite drop_app_le, take_app_le by (rewrite ?length_drop; lia). reflexivity.
Qed.

(** The four tests at [p]. *)
Lemma key_test b junk p : (22 <= p)%nat -> (p + 18 <= List.length b)%nat ->
  (nth p (b ++ junk) 0 =? 83) && (nth (p - 1) (b ++ junk) 0 =? 10) && (nth (p - 2) (b ++ junk) 0 =? 13)
    && memcmpEqual (b ++ junk) p expectedWebsocketKey = true <-> keyAt b p.
Proof.
  intros H22 Hp. rewrite memcmp_app by (cbn; lia). rewrite !app_nth1 by lia. unfold keyAt, memcmpEqual.
  assert (Ed : drop (p - 2) b = nth (p - 2) b 0 :: nth (p - 1) b 0 :: drop p b).
  { destruct (lookup_lt_is_Some_2 b (p - 2)) as [x Hx]; [lia|]. destruct (lookup_lt_is_Some_2 b (p - 1)) as [y Hy]; [lia|].
    rewrite (nth_lookup_Some _ _ _ _ Hx), (nth_lookup_Some _ _ _ _ Hy), (drop_S b x (p - 2)) by exact Hx.
    replace (S (p - 2)) with (p - 1)%nat by lia. rewrite (drop_S b y (p - 1)) by exact Hy.
    replace (S (p - 1)) with p by lia. reflexivity. }
  rewrite Ed. change (List.length expectedWebsocketKey) with 18%nat. rewrite !andb_true_iff, !Z.eqb_eq, bool_decide_eq_true.
  change (take 20 (?x :: ?y :: ?l)) with (x :: y :: take 18 l). split.
  - intros [[[_ ->] ->] ->]. auto.
  - intros (_ & _ & E). change (CRLF ++ expectedWebsocketKey) with (13 :: 10 :: expectedWebsocketKey) in E.
    assert (Ek : take 18 (drop p b) = expectedWebsocketKey) by congruence.
    split; [|exact Ek]. split; [|congruence]. split; [|congruence].
    assert (Hn : (drop p b) !! 0%nat = Some 83).
    { rewrite <- (lookup_take_lt _ 18) by lia. rewrite Ek. reflexivity. }
    rewrite lookup_drop, Nat.add_0_r in Hn. apply nth_lookup_Some. exact Hn.
Qed.

Lemma findKey_spec b junk turns : forall p, (22 <= p <= List.length b)%nat -> (List.length b < turns + p)%nat ->
  match findKey turns (b ++ junk) (List.length b) p with
  | Some q => exists p0, q = (p0 + 18)%nat /\ keyAt b p0 /\ (p <= p0)%nat /\ forall r, (p <= r < p0)%nat -> ~ keyAt b r
  | None => forall r, (p <= r)%nat -> ~ keyAt b r
  end.
Proof.
  induction turns as [|turns IH]; intros p Hp Ht; [lia|]. cbn [findKey].
  change (List.length expectedWebsocketKey) with 18%nat.
  destruct (Nat.ltb_spec (List.length b - p) 18) as [Hs|Hs].
  { intros r Hr (_ & Hl & _). lia. }
  pose proof (key_test b junk p ltac:(lia) ltac:(lia)) as Hk.
  destruct ((_ =? 83) && _ && _ && _).
  - exists p. split; [reflexivity|]. split; [apply Hk; reflexivity|]. split; [lia|]. intros r Hr. lia.
  - assert (Hn : ~ keyAt b p) by (intros Hc; apply Hk in Hc; discriminate).
    specialize (IH (S p) ltac:(lia) ltac:(lia)). destruct (findKey _ _ _ _).
    + destruct IH as (p0 & E & Hp0 & Hle & Hb). exists p0. split; [exact E|]. split; [exact Hp0|]. split; [lia|].
      intros r Hr. destruct (Nat.eq_dec r p) as [->|]; [exact Hn|apply Hb; lia].
    + intros r Hr. destruct (Nat.eq_dec r p) as [->|]; [exact Hn|apply IH; lia].
Qed.

Lemma skipWhile_spec test b s turns : forall p, (p <= s < List.length b)%nat -> test (nth s b 0) = false -> (s < turns + p)%nat ->
  exists e, skipWhile test b p turns = Some e /\ (p <= e <= s)%nat /\ test (nth e b 0) = false /\
    forall i, (p <= i < e)%nat -> test (nth i b 0) = true.
Proof.
  induction turns as [|turns IH]; intros p Hp Hs Ht; [lia|]. cbn [skipWhile].
  destruct (lookup_lt_is_Some_2 b p) as [c Hc]; [lia|]. rewrite Hc. apply nth_lookup_Some with (d := 0) in Hc as En.
  destruct (test c) eqn:E.
  - assert (p <> s) by congruence. destruct (IH (S p)) as (e & -> & He & Hf & Hi); [lia|exact Hs|lia|].
    exists e. split; [reflexivity|]. split; [lia|]. split; [exact Hf|]. intros i Hi'.
    destruct (Nat.eq_dec i p) as [->|]; [congruence|apply Hi; lia].
  - exists p. split; [reflexivity|]. split; [lia|]. split; [congruence|]. lia.
Qed.

Lemma nth_Forall_range (P : Z -> Prop) l : (forall i, (i < List.length l)%nat -> P (nth i l 0)) -> Forall P l.
Proof.
  intros H. apply Forall_lookup. intros i x Hx. rewrite <- (nth_lookup_Some _ _ 0 _ Hx). apply H.
  apply lookup_lt_Some in Hx. exact Hx.
Qed.

Lemma drop_nth (l : list Z) i : (i < List.length l)%nat -> drop i l = nth i l 0 :: drop (S i) l.
Proof.
  intros Hi. destruct (lookup_lt_is_Some_2 l i Hi) as [x Hx]. rewrite (nth_lookup_Some _ _ 0 _ Hx). apply drop_S, Hx.
Qed.

Lemma nth_drop (l : list Z) i j : nth j (drop i l) 0 = nth (i + j) l 0.
Proof. rewrite !nth_lookup, lookup_drop. reflexivity. Qed.

Lemma nth_take (l : list Z) n j : (j < n)%nat -> nth j (take n l) 0 = nth j l 0.
Proof. intros Hj. rewrite !nth_lookup, lookup_take_lt by lia. reflexivity. Qed.

(** A request ends with an empty line. *)
Definition complete (b : list Z) : Prop := exists pre, b = pre ++ CRLF ++ CRLF.

Lemma complete_nth b : complete b -> (4 <= List.length b)%nat /\
  nth (List.length b - 4) b 0 = 13 /\ nth (List.length b - 3) b 0 = 10 /\ nth (List.length b - 2) b 0 = 13 /\ nth (List.length b - 1) b 0 = 10.
Proof.
  intros [pre ->]. rewrite length_app. change (List.length (CRLF ++ CRLF)) with 4%nat. split; [lia|].
  repeat split; rewrite app_nth2 by lia;
    match goal with |- nth (?a + 4 - ?k - ?a) _ _ = _ => replace (a + 4 - k - a)%nat with (4 - k)%nat by lia; reflexivity end.
Qed.

Lemma key_before_end b p : complete b -> keyAt b p -> (p + 18 <= List.length b - 4)%nat.
Proof.
  intros Hc (H22 & Hl & E). destruct (complete_nth b Hc) as (H4 & N4 & N3 & N2 & N1).
  assert (E58 : nth (p + 17) b 0 = 58).
  { replace (p + 17)%nat with (p - 2 + 19)%nat by lia. rewrite <- nth_drop, <- (nth_take _ 20) by lia. rewrite E. reflexivity. }
  destruct (Nat.le_gt_cases (p + 18) (List.length b - 4)) as [?|Hgt]; [assumption|exfalso].
  assert (Hk : (p + 17 = List.length b - 4 \/ p + 17 = List.length b - 3 \/ p + 17 = List.length b - 2 \/ p + 17 = List.length b - 1)%nat) by lia.
  destruct Hk as [K|[K|[K|K]]]; rewrite K in E58; congruence.
Qed.

(** The bytes between two scans. *)
Lemma drop_split (b : list Z) p e : (p <= e)%nat -> (e <= List.length b)%nat -> drop p b = take (e - p) (drop p b) ++ drop e b.
Proof. intros H1 H2. rewrite <- (take_drop (e - p) (drop p b)) at 1. rewrite drop_drop. do 2 f_equal. lia. Qed.

Lemma take_replicate_range (x : Z) b p e : (p <= e <= List.length b)%nat ->
  (forall i, (p <= i < e)%nat -> nth i b 0 = x) -> take (e - p) (drop p b) = replicate (e - p) x.
Proof.
  intros He H. apply list_eq. intros i. destruct (Nat.lt_ge_cases i (e - p)).
  - rewrite lookup_take_lt, lookup_drop, lookup_replicate_2 by lia.
    destruct (lookup_lt_is_Some_2 b (p + i)) as [y Hy]; [lia|]. rewrite Hy. f_equal.
    rewrite <- (H (p + i)%nat) by lia. symmetry. apply nth_lookup_Some. exact Hy.
  - rewrite !lookup_ge_None_2; [reflexivity|rewrite length_replicate; lia|rewrite length_take; lia].
Qed.

(** The two scans after the header. *)
Lemma scans_spec b junk p : (forall q, keyAt b q -> (p <= q)%nat) -> complete b -> take 22 b = expectedProtocol -> keyAt b p ->
  exists e1 e2, skipWhile (fun c => c =? 32) (b ++ junk) (p + 18) (S (List.length (b ++ junk))) = Some e1 /\
    skipWhile (fun c => 32 <? c) (b ++ junk) e1 (S (List.length (b ++ junk))) = Some e2 /\
    headerKey b (take (e2 - e1) (drop e1 (b ++ junk))).
Proof.
  intros Hfirst Hc Hpro Hk. pose proof (key_before_end b p Hc Hk) as Hend. destruct (complete_nth b Hc) as (H4 & N4 & _).
  set (s := (List.length b - 4)%nat) in *. assert (Hlen : (s < List.length b)%nat) by lia.
  assert (Hin : forall i, (i <= s)%nat -> nth i (b ++ junk) 0 = nth i b 0) by (intros i Hi; apply app_nth1; lia).
  assert (Hs : nth s (b ++ junk) 0 = 13) by (rewrite Hin by lia; exact N4).
  assert (Hall : (s < List.length (b ++ junk))%nat) by (rewrite length_app; lia).
  destruct (skipWhile_spec (fun c => c =? 32) (b ++ junk) s (S (List.length (b ++ junk))) (p + 18)) as (e1 & E1 & He1 & F1 & A1);
    [lia|rewrite Hs; reflexivity|lia|].
  destruct (skipWhile_spec (fun c => 32 <? c) (b ++ junk) s (S (List.length (b ++ junk))) e1) as (e2 & E2 & He2 & F2 & A2);
    [lia|rewrite Hs; reflexivity|lia|].
  exists e1, e2. split; [exact E1|]. split; [exact E2|]. rewrite Hin in F1, F2 by lia. to_prop.
  rewrite drop_app_le, take_app_le by (rewrite ?length_drop; lia).
  split; [exact Hpro|]. exists p, (e1 - (p + 18))%nat, (nth e2 b 0), (drop (S e2) b).
  split; [exact Hk|]. split; [exact Hfirst|]. split; [|split; [|split; [exact F2|]]].
  - rewrite <- (take_replicate_range 32 b) by (try lia; intros i Hi; rewrite <- Hin by lia; apply Z.eqb_eq, A1; lia).
    rewrite <- drop_nth by lia. rewrite <- drop_split by lia. apply drop_split; lia.
  - apply nth_Forall_range. intros i Hi. rewrite length_take, length_drop in Hi. rewrite nth_take, nth_drop by lia.
    rewrite <- Hin by lia. apply Z.ltb_lt, A2. lia.
  - intros Hnil. apply (f_equal (@List.length Z)) in Hnil. rewrite length_take, length_drop in Hnil. cbn in Hnil.
    replace e2 with e1 by lia. exact F1.
Qed.

Lemma parseRequest_spec b junk : complete b ->
  match parseRequest (b ++ junk) (List.length b) with
  | Key key => headerKey b key
  | NoKey => forall key, ~ headerKey b key
  | OutOfBuffer => False
  end.
Proof.
  intros Hc. unfold parseRequest. change (List.length expectedProtocol) with 22%nat.
  destruct (Nat.ltb_spec (List.length b) 22) as [Hs|Hs]; cbn [orb].
  { intros key [E _]. apply (f_equal (@List.length Z)) in E. rewrite length_take in E.
    change (List.length expectedProtocol) with 22%nat in E. lia. }
  rewrite memcmp_app by (cbn; lia). unfold memcmpEqual. change (List.length expectedProtocol) with 22%nat. rewrite drop_0.
  destruct (bool_decide_reflect (take 22 b = expectedProtocol)) as [Hp|Hp]; cbn [negb]; [|intros key [E _]; contradiction].
  pose proof (findKey_spec b junk (S (List.length b)) 22 ltac:(lia) ltac:(lia)) as Hf.
  destruct (findKey _ _ _ _) as [q|].
  - destruct Hf as (p & -> & Hk & Hle & Hb).
    destruct (scans_spec b junk p) as (e1 & e2 & -> & -> & Hkey); [|exact Hc|exact Hp|exact Hk|exact Hkey].
    intros r Hr. destruct (Nat.le_gt_cases p r) as [?|Hgt]; [assumption|exfalso].
    apply (Hb r); [split; [apply Hr|exact Hgt]|exact Hr].
  - intros key (_ & p & n & c & post & Hk & _). apply (Hf p); [apply Hk|exact Hk].
Qed.

Lemma ends_complete b : memcmpEqual b (List.length b - 4) (CRLF ++ CRLF) = true -> complete b.
Proof.
  unfold memcmpEqual. intros E. apply bool_decide_eq_true in E. exists (take (List.length b - 4) b).
  rewrite <- E. change (List.length (CRLF ++ CRLF)) with 4%nat.
  rewrite (take_ge (drop _ _)) by (rewrite length_drop; lia). symmetry. apply take_drop.
Qed.

(** ** The answer *)

Section Handshake.
Context {W : Type} `{Laws : SocketLaws W}.
Variable fuel : nat.

#[local] Abbreviation wpT m t Q := (wp (E := Empty_set) m t Q (fun _ _ => False)).

(** The request has arrived in full. *)
Definition requested (t : DebuggerTcp W) (r : option (list Z)) (t' : DebuggerTcp W) : Prop :=
  sent (socket t') = sent (socket t) /\ (patience (socket t') <= patience (socket t))%nat /\
  match r with
  | Some b => consumed (socket t') = consumed (socket t) ++ b /\ complete b /\ (List.length b <= 1024)%nat /\ Forall is_byte b
  | None => True
  end.

Lemma readRequest_spec t : (patience (socket t) + 1024 < fuel)%nat ->
  wpT (loop fuel readRequest_turn []) t (requested t).
Proof using Laws.
  intros Hf.
  apply (wp_loop (fun b s => consumed (socket s) = consumed (socket t) ++ b /\ sent (socket s) = sent (socket t) /\
                             (patience (socket s) <= patience (socket t))%nat /\ (List.length b < 1024)%nat /\ Forall is_byte b)
                 (fun b s => patience (socket s) + (1024 - List.length b))%nat); [|
      split; [symmetry; apply app_nil_r|split; [reflexivity|split; [reflexivity|split; [cbn [List.length]; lia|constructor]]]]|cbn [List.length]; lia].
  clear Hf. intros b s (Hc & Hs & Hp & Hb & Hby). unfold readRequest_turn, tcpReceive, continue, break.
  apply wp_bind, wp_bind, wp_call. intros r w' Er. apply wp_ret.
  destruct r as [l|[]].
  - destruct (recv_bytes _ _ _ _ Er) as (Hn & Hbl & Hc' & Hs' & Hp'). assert (Hby' := Forall_app_2 _ _ _ Hby Hbl). destruct l as [|x l]; [apply wp_ret; split; [|split]; cbn; congruence || lia || exact I|].
    cbv zeta. destruct (_ && _) eqn:Et.
    + apply wp_ret. split; [cbn; congruence|]. split; [cbn; lia|]. split; [cbn; rewrite Hc', Hc, app_assoc; reflexivity|].
      apply andb_prop in Et as [_ Et]. split; [apply ends_complete, Et|]. split; [rewrite length_app; lia|exact Hby'].
    + destruct (Nat.eqb_spec (1024 - List.length (b ++ x :: l)) 0) as [E0|E0];
        [apply wp_ret; split; [|split]; cbn; congruence || lia || exact I|].
      apply wp_ret. cbn [socket setSocket]. rewrite Hc', Hc, Hs', app_assoc. rewrite length_app in *. cbn in *. repeat split; try assumption; lia.
  - destruct (recv_failed _ _ _ _ Er) as (Hc' & Hs' & Hp' & Hw). specialize (Hw eq_refl). cbv zeta. rewrite app_nil_r.
    destruct (_ && _) eqn:Et.
    + apply wp_ret. split; [cbn; congruence|]. split; [cbn; lia|]. split; [cbn; congruence|].
      apply andb_prop in Et as [_ Et]. split; [apply ends_complete, Et|]. split; [lia|exact Hby].
    + destruct (Nat.eqb_spec (1024 - List.length b) 0); [apply wp_ret; split; [|split]; cbn; congruence || lia || exact I|].
      apply wp_ret. cbn [socket setSocket]. rewrite Hc', Hc, Hs'. repeat split; try assumption; lia.
  - destruct (recv_failed _ _ _ _ Er) as (Hc' & Hs' & Hp' & _).
    apply wp_ret. split; [|split]; cbn; congruence || lia || exact I.
Qed.

(** The three parts of the answer. *)
Definition answer (key : list Z) : list Z :=
  responsePrefix ++ base64 (Fips.sha1 (key ++ GUID)) ++ CRLF ++ CRLF.

Lemma sha1_bytes m : List.length (Fips.sha1 m) = 20%nat /\ Forall is_byte (Fips.sha1 m).
Proof using Type.
  clear Laws fuel. unfold Fips.sha1. cbv zeta. cbn [flat_map]. rewrite !length_app, !big_endian_length. split; [reflexivity|].
  repeat apply Forall_app_2; try apply big_endian_bytes. constructor.
Qed.

Lemma header_bytes b key : headerKey b key -> Forall is_byte b -> Forall is_byte key /\ (List.length key <= List.length b)%nat.
Proof using Type.
  clear Laws fuel. intros (_ & p & n & c & post & _ & _ & E & _) Hb.
  apply (Forall_drop _ (p + 18)) in Hb. apply (f_equal (@List.length Z)) in E as El. rewrite E in Hb.
  apply Forall_app in Hb as [_ Hb]. apply Forall_app in Hb as [Hb _]. split; [exact Hb|].
  rewrite length_drop, !length_app in El. cbn in El. lia.
Qed.

Lemma wp_send3 l1 l2 l3 t (Q : bool -> DebuggerTcp W -> Prop) :
  (patience (socket t) + List.length l1 + List.length l2 + List.length l3 < fuel)%nat ->
  (forall t', sends (l1 ++ l2 ++ l3) t t' -> Q true t') -> (forall t', consumed (socket t') = consumed (socket t) -> Q false t') ->
  wpT (let! ok := tcpSend fuel l1 in if negb ok then ret false
       else let! ok := tcpSend fuel l2 in if negb ok then ret false else tcpSend fuel l3) t Q.
Proof using Laws.
  intros Hf Hok Hno. apply wp_bind. eapply wp_mono; [apply (tcpSend_spec fuel l1 t); lia| |intros []].
  intros [] t1 (m1 & H1 & E1); cbn [negb]; [subst m1|apply wp_ret, Hno, H1].
  pose proof H1 as (_ & C1 & _ & P1).
  apply wp_bind. eapply wp_mono; [apply (tcpSend_spec fuel l2 t1); lia| |intros []].
  intros [] t2 (m2 & H2 & E2); cbn [negb]; [subst m2|apply wp_ret, Hno; rewrite <- C1; apply H2].
  pose proof H2 as (_ & C2 & _ & P2).
  eapply wp_mono; [apply (tcpSend_spec fuel l3 t2); lia| |intros []].
  intros [] t3 (m3 & H3 & E3); [subst m3|apply Hno; rewrite <- C1, <- C2; apply H3].
  apply Hok. exact (sends_trans _ _ _ _ _ H1 (sends_trans _ _ _ _ _ H2 H3)).
Qed.

Definition handshaken (t : DebuggerTcp W) (ok : bool) (t' : DebuggerTcp W) : Prop :=
  ok = true -> exists b key, consumed (socket t') = consumed (socket t) ++ b /\ headerKey b key /\
                             sent (socket t') = sent (socket t) ++ answer key.

Lemma handshake_spec junk stack frame t :
  List.length stack = 80%nat -> List.length (data frame) = 64%nat -> (patience (socket t) + 1024 < fuel)%nat ->
  wpT (webSocketHandshake fuel junk stack frame) t (handshaken t).
Proof using Laws.
  intros Hst Hfr Hf. unfold webSocketHandshake. apply wp_bind. eapply wp_mono; [apply readRequest_spec; exact Hf| |intros []].
  intros [b|] t1 (Hs & Hp & Hb); [|apply wp_ret; discriminate]. destruct Hb as (Hc & Hcomp & Hlen & Hbytes).
  pose proof (parseRequest_spec b junk Hcomp) as Hk. destruct (parseRequest _ _) as [| |key]; try (apply wp_ret; discriminate).
  destruct (header_bytes b key Hk Hbytes) as [Hkb Hkl]. cbv zeta.
  assert (Hg : Forall is_byte GUID) by apply bytes_are_bytes.
  assert (El : List.length GUID = 36%nat) by reflexivity.
  assert (Ed : computeSha1 stack frame key GUID = Fips.sha1 (key ++ GUID)).
  { unfold computeSha1. cbv zeta. rewrite <- length_app. apply sha1Finish_spec; [exact Hst| |rewrite length_app; lia].
    apply (sha1Update_holds stack Hst GUID _ key); [|exact Hg]. apply (sha1Update_holds stack Hst key _ []); [|exact Hkb].
    exact (sha1Init_holds stack Hst frame Hfr). }
  rewrite Ed. destruct (sha1_bytes (key ++ GUID)) as [Hl20 Hby20].
  apply wp_send3.
  - rewrite length_take. change (List.length responsePrefix) with 97%nat. change (List.length responseSuffix) with 5%nat. lia.
  - intros t' (_ & Hc' & Hs' & _) _. exists b, key. split; [congruence|]. split; [exact Hk|].
    rewrite Hs', Hs. unfold answer. rewrite <- (accept_base64 _ Hl20 Hby20), <- app_assoc. reflexivity.
  - intros t' _. discriminate.
Qed.

End Handshake.

(** The debugger's handshake always comes to an answer, and says yes only after it has read a request that asks
    for the debugger and sent the reply of RFC 6455 to its first key: the base64 of the SHA-1 of the key and the GUID. *)
Theorem handshake_accepts {W} `{Laws : SocketLaws W} (fuel : nat) (junk stack : list Z) (frame : Sha1Context) (t : DebuggerTcp W) :
  List.length stack = 80%nat -> List.length (data frame) = 64%nat -> (patience (socket t) + 1024 < fuel)%nat ->
  exists ok t', webSocketHandshake fuel junk stack frame t = (Ret ok, t') /\
  (ok = true -> exists b key, consumed (socket t') = consumed (socket t) ++ b /\ headerKey b key /\
     sent (socket t') = sent (socket t) ++ responsePrefix ++ base64 (Fips.sha1 (key ++ GUID)) ++ CRLF ++ CRLF).
Proof. intros Hs Hd Hf. apply wp_ends. apply handshake_spec; assumption. Qed.

(** The request of RFC 6455, section 1.3, in two pieces. *)
Definition sampleRequest : list Z :=
  expectedProtocol ++ bytes " HTTP/1.1" ++ CRLF ++ expectedWebsocketKey ++ bytes " dGhlIHNhbXBsZSBub25jZQ==" ++ CRLF ++ CRLF.
Definition sampleConnection : DebuggerTcp Script :=
  mkTcp (mkScript [take 30 sampleRequest; drop 30 sampleRequest] [] [] 2) false (replicate 131 0) 0 0.

Lemma handshake_accepts_witness :
  let stack := replicate 80 7 in
  let frame := mkSha1Context (replicate 64 9) 5 [] [] in
  (exists ok t', webSocketHandshake 1100 [] stack frame sampleConnection = (Ret ok, t') /\
    (ok = true -> exists b key, consumed (socket t') = consumed (socket sampleConnection) ++ b /\ headerKey b key /\
       sent (socket t') = sent (socket sampleConnection) ++ responsePrefix ++ base64 (Fips.sha1 (key ++ GUID)) ++ CRLF ++ CRLF)) /\
  fst (webSocketHandshake 1100 [] stack frame sampleConnection) = Ret true /\
  out (socket (snd (webSocketHandshake 1100 [] stack frame sampleConnection)))
  = responsePrefix ++ bytes "s3pPLMBiTxaQ9kYGzzhZRbK+xOo=" ++ CRLF ++ CRLF.
Proof.
  intros stack frame. split; [|split; vm_compute; reflexivity].
  apply (handshake_accepts 1100 [] stack frame sampleConnection); [reflexivity|reflexivity|cbn; lia].
Defined.
