(* ===== verification/ArrayBuffer.v ===== *)
(** * Array buffers

    [runtime/BackingStore.{h,cpp}], [runtime/ArrayBuffer.h] and [runtime/ArrayBufferObject.cpp]: the blocks of
    memory, the backing stores that own them, the array buffers attached to the stores, the
    views on the buffers, and the observers through which a change of a store reaches the
    pointers that the views keep.  Stores of worker threads (SharedBackingStore) are left out. *)

From stdpp Require Import list.
From S2P Require Import Prelude.
Local Open Scope esc_scope.
Local Open Scope Z_scope.

(** [size_t]. *)
Definition usize (z : Z) : Z := to_unsigned 64 z.

(** ** Observers (BufferAddressObserverManager)

    An item is the object to call, or empty when it was removed; the callback is
    determined by the kind of object. *)

Record Observers := mkObservers {
  m_removedObserverCount : nat;
  m_observerItems : list (option nat)
}.

(** The first empty item. *)
Fixpoint fillSlot (items : list (option nat)) (from : nat) : list (option nat) :=
  match items with
  | [] => []
  | None :: items => Some from :: items
  | item :: items => item :: fillSlot items from
  end.

Definition addObserver (o : Observers) (from : nat) : Observers :=
  if (0 <? m_removedObserverCount o)%nat
  then mkObservers (m_removedObserverCount o - 1) (fillSlot (m_observerItems o) from)
  else mkObservers (m_removedObserverCount o) (m_observerItems o ++ [Some from]).

(** The first item of [from] is emptied; [None] when there is none. *)
Fixpoint clearSlot (items : list (option nat)) (from : nat) : option (list (option nat)) :=
  match items with
  | [] => None
  | item :: items =>
    if bool_decide (item = Some from) then Some (None :: items)
    else option_map (cons item) (clearSlot items from)
  end.

Definition removeObserver (o : Observers) (from : nat) : Observers :=
  match clearSlot (m_observerItems o) from with
  | Some items => mkObservers (S (m_removedObserverCount o)) items
  | None => o
  end.

Definition noObservers : Observers := mkObservers 0 [].

(** ** Objects *)

Record BackingStore := mkStore {
  m_data : nat;                     (* the block of memory *)
  m_storeLength : Z;                (* m_byteLength *)
  m_maxByteLength : Z;
  m_isAllocatedByPlatform : bool;
  m_isResizable : bool;
  storeObservers : Observers        (* array buffers *)
}.

Record ArrayBuffer := mkBuffer {
  m_backingStore : option nat;
  bufferObservers : Observers       (* views *)
}.

Inductive TypedArrayType :=
| Int8 | Int16 | Int32 | Uint8 | Uint16 | Uint32 | Uint8Clamped | Float32 | Float64 | BigInt64 | BigUint64.

(** A typed array of a type, or a DataView. *)
Inductive ViewKind := TypedArrayObject (type : TypedArrayType) | DataViewObject.

Record ArrayBufferView := mkView {
  viewKind : ViewKind;
  m_buffer : option nat;
  m_cachedRawBufferAddress : option (nat * Z);  (* a block and an offset in it, or a null pointer *)
  m_byteLength : Z;
  m_byteOffset : Z;
  m_arrayLength : Z;
  m_auto : bool
}.

(** A block is freed when it is [None]. *)
Record World := mkWorld {
  memory : list (option (list Z));
  stores : list BackingStore;
  buffers : list ArrayBuffer;
  views : list ArrayBufferView
}.

(** The exceptions of the language; a null pointer that is followed, which ends the process; an access at an offset
    from a null pointer, which need not end it and can be anywhere; an access to memory that may be freed; and one
    outside of a block. *)
Inductive Error := TypeError | RangeError | ScriptError | NullPointer | NullAddress (offset : Z) | UseAfterFree | OutOfBounds.

Definition WM (A : Type) : Type := M World Error A.

Definition setMemory (w : World) (m : list (option (list Z))) : World := mkWorld m (stores w) (buffers w) (views w).
Definition setStores (w : World) (s : list BackingStore) : World := mkWorld (memory w) s (buffers w) (views w).
Definition setBuffers (w : World) (b : list ArrayBuffer) : World := mkWorld (memory w) (stores w) b (views w).
Definition setViews (w : World) (v : list ArrayBufferView) : World := mkWorld (memory w) (stores w) (buffers w) v.

Definition setStoreObservers (s : BackingStore) (o : Observers) : BackingStore :=
  mkStore (m_data s) (m_storeLength s) (m_maxByteLength s) (m_isAllocatedByPlatform s) (m_isResizable s) o.
Definition setStoreData (s : BackingStore) (block : nat) (n : Z) : BackingStore :=
  mkStore block n (m_maxByteLength s) true (m_isResizable s) (storeObservers s).
Definition setStoreLength (s : BackingStore) (n : Z) : BackingStore :=
  mkStore (m_data s) n (m_maxByteLength s) (m_isAllocatedByPlatform s) (m_isResizable s) (storeObservers s).
Definition setBufferObservers (b : ArrayBuffer) (o : Observers) : ArrayBuffer := mkBuffer (m_backingStore b) o.
Definition setBackingStore (b : ArrayBuffer) (s : option nat) : ArrayBuffer := mkBuffer s (bufferObservers b).

Definition updateStore (s : nat) (f : BackingStore -> BackingStore) (w : World) : World := setStores w (alter f s (stores w)).
Definition updateBuffer (b : nat) (f : ArrayBuffer -> ArrayBuffer) (w : World) : World := setBuffers w (alter f b (buffers w)).
Definition updateView (v : nat) (f : ArrayBufferView -> ArrayBufferView) (w : World) : World := setViews w (alter f v (views w)).

(** A dangling reference does not occur; see the invariant of [ArrayBufferSpec]. *)
Definition theStore (s : nat) : WM BackingStore :=
  let! w := get in match stores w !! s with Some x => ret x | None => throw NullPointer end.
Definition theBuffer (b : nat) : WM ArrayBuffer :=
  let! w := get in match buffers w !! b with Some x => ret x | None => throw NullPointer end.
Definition theView (v : nat) : WM ArrayBufferView :=
  let! w := get in match views w !! v with Some x => ret x | None => throw NullPointer end.

(** ** Memory *)

(** [onMallocArrayBufferObjectDataBuffer]: zeroed memory. *)
Definition platformMalloc (n : Z) : WM nat :=
  let! w := get in
  do! modify (fun w => setMemory w (memory w ++ [Some (replicate (Z.to_nat n) 0)])) in
  ret (List.length (memory w)).

Definition platformFree (block : nat) : WM unit :=
  modify (fun w => setMemory w (<[block := None]> (memory w))).

(** [onReallocArrayBufferObjectDataBuffer]: the old bytes, cut or followed by zeroes, in a new block. *)
Definition platformRealloc (block : nat) (n : Z) : WM nat :=
  let! w := get in
  let old := default [] (default None (memory w !! block)) in
  let new := take (Z.to_nat n) (old ++ replicate (Z.to_nat n - List.length old) 0) in
  do! platformFree block in
  let! w := get in
  do! modify (fun w => setMemory w (memory w ++ [Some new])) in
  ret (List.length (memory w)).

(** What a pointer to bytes holds: a place in a block, or null and an offset that was added. *)
Inductive Address := InBlock (block : nat) (offset : Z) | NullPlus (offset : Z).
Definition addressIn (data : option nat) (offset : Z) : Address :=
  match data with Some block => InBlock block offset | None => NullPlus offset end.

(** The block of a store that no array buffer has any more is freed by the finalizer of the store, whenever the
    collector runs; so it may not be there. *)
Definition owned (w : World) (block : nat) : bool :=
  existsb (fun buffer => match m_backingStore buffer with
                         | Some s => match stores w !! s with Some store => (m_data store =? block)%nat | None => false end
                         | None => false
                         end) (buffers w).

Definition inRange (bytes : list Z) (offset : Z) (n : nat) : bool :=
  (0 <=? offset) && (offset + Z.of_nat n <=? Z.of_nat (List.length bytes)).

Definition readBytes (p : Address) (n : nat) : WM (list Z) :=
  match p with
  | NullPlus offset => match n with O => ret [] | _ => throw (NullAddress offset) end
  | InBlock block offset =>
    let! w := get in
    match memory w !! block with
    | Some (Some bytes) =>
      if negb (owned w block) then throw UseAfterFree
      else if inRange bytes offset n then ret (take n (drop (Z.to_nat offset) bytes)) else throw OutOfBounds
    | _ => throw UseAfterFree
    end
  end.

Definition splice (bytes : list Z) (at_ : nat) (l : list Z) : list Z :=
  take at_ bytes ++ l ++ drop (at_ + List.length l) bytes.

(** A store writes to its own block. *)
Definition writeBlock (block : nat) (offset : Z) (l : list Z) : WM unit :=
  let! w := get in
  match memory w !! block with
  | Some (Some bytes) =>
    if inRange bytes offset (List.length l)
    then modify (fun w => setMemory w (<[block := Some (splice bytes (Z.to_nat offset) l)]> (memory w)))
    else throw OutOfBounds
  | _ => throw UseAfterFree
  end.

Definition writeBytes (p : Address) (l : list Z) : WM unit :=
  match p with
  | NullPlus offset => match l with [] => ret tt | _ => throw (NullAddress offset) end
  | InBlock block offset =>
    let! held := gets (fun w => owned w block) in
    if held then writeBlock block offset l else throw UseAfterFree
  end.

(** ** Notifications *)

(** [updateCachedAddress]. *)
Definition cachedAddress (bufferStartAddress : option nat) (byteOffset : Z) : option (nat * Z) :=
  match bufferStartAddress with
  | Some block => Some (block, byteOffset)
  | None => None
  end.

Definition SIZE_MAX : Z := 2 ^ 64 - 1.

(** [arrayBufferObserver] on a view. *)
Definition arrayBufferObserver (newAddress : option nat) (newByteLength : Z) (self : ArrayBufferView) : ArrayBufferView :=
  let reset := if m_auto self then newByteLength <? m_byteOffset self
               else newByteLength <? usize (m_byteOffset self + m_byteLength self) in
  let self :=
    if reset then mkView (viewKind self) (m_buffer self) (m_cachedRawBufferAddress self) 0 0 0 (m_auto self)
    else if m_auto self then
      let elementSize := if m_arrayLength self =? 0 then SIZE_MAX else m_byteLength self / m_arrayLength self in
      let byteLength := usize (newByteLength - m_byteOffset self) in
      mkView (viewKind self) (m_buffer self) (m_cachedRawBufferAddress self)
             byteLength (m_byteOffset self) (if elementSize =? SIZE_MAX then 0 else byteLength / elementSize) (m_auto self)
    else self in
  mkView (viewKind self) (m_buffer self) (cachedAddress newAddress (m_byteOffset self))
         (m_byteLength self) (m_byteOffset self) (m_arrayLength self) (m_auto self).

(** [bufferUpdated] of an array buffer: every view is called. *)
Definition notifyViews (items : list (option nat)) (newAddress : option nat) (newByteLength : Z) (w : World) : World :=
  fold_left (fun w item =>
    match item with
    | Some v => updateView v (arrayBufferObserver newAddress newByteLength) w
    | None => w
    end) items w.

(** [backingStoreObserver]. *)
Definition bufferUpdated (b : nat) (newAddress : option nat) (newByteLength : Z) (w : World) : World :=
  match buffers w !! b with
  | Some buffer => notifyViews (m_observerItems (bufferObservers buffer)) newAddress newByteLength w
  | None => w
  end.

(** [bufferUpdated] of a backing store: every array buffer is called. *)
Definition storeUpdated (s : nat) (w : World) : World :=
  match stores w !! s with
  | Some store =>
    fold_left (fun w item =>
      match item with
      | Some b => bufferUpdated b (Some (m_data store)) (m_storeLength store) w
      | None => w
      end) (m_observerItems (storeObservers store)) w
  | None => w
  end.

(** ** Backing stores *)

Definition newStore (s : BackingStore) : WM nat :=
  let! w := get in
  do! modify (fun w => setStores w (stores w ++ [s])) in
  ret (List.length (stores w)).

Definition createDefaultNonSharedBackingStore (byteLength : Z) : WM nat :=
  let! block := platformMalloc byteLength in
  newStore (mkStore block byteLength 0 true false noObservers).

Definition createDefaultResizableNonSharedBackingStore (byteLength maxByteLength : Z) : WM nat :=
  let! block := platformMalloc maxByteLength in
  newStore (mkStore block byteLength maxByteLength true true noObservers).

(** The embedder's memory: [data]. *)
Definition createNonSharedBackingStore (data : list Z) : WM nat :=
  let! w := get in
  let block := List.length (memory w) in
  do! modify (fun w => setMemory w (memory w ++ [Some data])) in
  newStore (mkStore block (Z.of_nat (List.length data)) 0 false false noObservers).

Definition resize (s : nat) (newByteLength : Z) : WM unit :=
  let! store := theStore s in
  do! when! m_storeLength store <? newByteLength then
        writeBlock (m_data store) (m_storeLength store)
                   (replicate (Z.to_nat (newByteLength - m_storeLength store)) 0) in
  do! modify (updateStore s (fun store => setStoreLength store newByteLength)) in
  modify (storeUpdated s).

Definition reallocate (s : nat) (newByteLength : Z) : WM unit :=
  let! store := theStore s in
  if m_storeLength store =? newByteLength then ret tt
  else
    do! if m_isAllocatedByPlatform store then
          let! block := platformRealloc (m_data store) newByteLength in
          modify (updateStore s (fun store => setStoreData store block newByteLength))
        else
          do! platformFree (m_data store) in
          let! block := platformMalloc newByteLength in
          modify (updateStore s (fun store => setStoreData store block newByteLength)) in
    modify (storeUpdated s).

(** ** Array buffers *)

(** [data()] and [byteLength()] through the store. *)
Definition storeOf (w : World) (b : nat) : option BackingStore :=
  match buffers w !! b with
  | Some buffer => match m_backingStore buffer with Some s => stores w !! s | None => None end
  | None => None
  end.
Definition dataOf (w : World) (b : nat) : option nat := option_map m_data (storeOf w b).
Definition byteLengthOf (w : World) (b : nat) : Z := match storeOf w b with Some s => m_storeLength s | None => 0 end.
Definition isDetachedBuffer (w : World) (b : nat) : bool := bool_decide (dataOf w b = None).
Definition isResizableArrayBuffer (w : World) (b : nat) : bool :=
  match storeOf w b with Some s => m_isResizable s | None => false end.

Definition throwTypeErrorIfDetached (b : nat) : WM unit :=
  let! detached := gets (fun w => isDetachedBuffer w b) in
  when! detached then throw TypeError.

Definition updateBackingStore (b : nat) (bs : option nat) : WM unit :=
  let! buffer := theBuffer b in
  do! match m_backingStore buffer with
      | Some s => modify (updateStore s (fun store => setStoreObservers store (removeObserver (storeObservers store) b)))
      | None => ret tt
      end in
  do! modify (updateBuffer b (fun buffer => setBackingStore buffer bs)) in
  match bs with
  | Some s =>
    do! modify (updateStore s (fun store => setStoreObservers store (addObserver (storeObservers store) b))) in
    let! store := theStore s in
    modify (bufferUpdated b (Some (m_data store)) (m_storeLength store))
  | None => modify (bufferUpdated b None 0)
  end.

Definition detachArrayBuffer (b : nat) : WM unit := updateBackingStore b None.

Definition newBuffer : WM nat :=
  let! w := get in
  do! modify (fun w => setBuffers w (buffers w ++ [mkBuffer None noObservers])) in
  ret (List.length (buffers w)).

Definition allocateBuffer (b : nat) (byteLength : Z) : WM unit :=
  do! detachArrayBuffer b in
  let! s := createDefaultNonSharedBackingStore byteLength in
  updateBackingStore b (Some s).

Definition allocateResizableBuffer (b : nat) (byteLength maxByteLength : Z) : WM unit :=
  do! detachArrayBuffer b in
  let! s := createDefaultResizableNonSharedBackingStore byteLength maxByteLength in
  updateBackingStore b (Some s).

Definition attachBuffer (b s : nat) : WM unit :=
  do! detachArrayBuffer b in
  updateBackingStore b (Some s).

Definition maxArrayBufferSize : Z := 210000000.

(** After the prototype has been looked up. *)
Definition allocateArrayBuffer (byteLength : Z) (maxByteLength : option Z) : WM nat :=
  if maxArrayBufferSize <=? byteLength then throw RangeError
  else
    let! obj := newBuffer in
    match maxByteLength with
    | Some maxLength =>
      if maxArrayBufferSize <=? maxLength then throw RangeError
      else do! allocateResizableBuffer obj byteLength maxLength in ret obj
    | None => do! allocateBuffer obj byteLength in ret obj
    end.

(** The buffer's data as a pointer, and an offset. *)
Definition dataPointer (b : nat) (offset : Z) : WM Address :=
  gets (fun w => addressIn (dataOf w b) offset).

(** [fillData(source + offset, length)] with the data of another buffer. *)
Definition fillData (b : nat) (source : Address) (length : nat) : WM unit :=
  let! bytes := readBytes source length in
  let! p := dataPointer b 0 in
  writeBytes p bytes.

(** [prototype] looks up the prototype of the constructor, which can call scripts. *)
Definition cloneArrayBuffer (prototype : WM unit) (srcBuffer : nat) (srcByteOffset srcLength : Z) : WM nat :=
  do! prototype in
  let! target := allocateArrayBuffer srcLength None in
  do! throwTypeErrorIfDetached srcBuffer in
  let! p := dataPointer srcBuffer srcByteOffset in
  do! fillData target p (Z.to_nat srcLength) in
  ret target.

(** ** Views *)

(** [setBuffer] *)
Definition setBuffer (v : nat) (bo : option nat) (byteOffset byteLength arrayLength : Z) (isAuto : bool) : WM unit :=
  let! view := theView v in
  do! match m_buffer view with
      | Some b => modify (updateBuffer b (fun buffer => setBufferObservers buffer (removeObserver (bufferObservers buffer) v)))
      | None => ret tt
      end in
  let! data := gets (fun w => match bo with Some b => dataOf w b | None => None end) in
  do! modify (updateView v (fun view =>
        mkView (viewKind view) bo (cachedAddress data byteOffset) byteLength byteOffset arrayLength isAuto)) in
  match bo with
  | Some b => modify (updateBuffer b (fun buffer => setBufferObservers buffer (addObserver (bufferObservers buffer) v)))
  | None => ret tt
  end.

Definition newView (kind : ViewKind) : WM nat :=
  let! w := get in
  do! modify (fun w => setViews w (views w ++ [mkView kind None None 0 0 0 false])) in
  ret (List.length (views w)).
