(* ===== verification/ArrayBufferSpec.v ===== *)
(** * The invariant of array buffers

    Every array buffer observes its store and every view its array buffer, once each; so
    every view knows the address of its bytes, and they lie in memory that its store owns. *)

From stdpp Require Import list sorting.
From S2P Require Import Prelude ArrayBuffer.
Local Open Scope esc_scope.
Local Open Scope Z_scope.

(** ** Observers *)

Fixpoint somes (items : list (option nat)) : list nat :=
  match items with [] => [] | Some x :: items => x :: somes items | None :: items => somes items end.
Fixpoint empties (items : list (option nat)) : nat :=
  match items with [] => O | Some _ :: items => empties items | None :: items => S (empties items) end.

Lemma somes_snoc items x : somes (items ++ [Some x]) = somes items ++ [x] /\ empties (items ++ [Some x]) = empties items.
Proof. induction items as [|[y|] items [IH IH']]; cbn; [split; reflexivity|rewrite IH; split; auto|split; congruence]. Qed.

(** The observers are exactly the objects of [P], each of them once. *)
Definition observed (o : Observers) (P : nat -> Prop) : Prop :=
  m_removedObserverCount o = empties (m_observerItems o) /\ NoDup (somes (m_observerItems o)) /\
  forall x, x ∈ somes (m_observerItems o) <-> P x.

Lemma fillSlot_spec items x : (0 < empties items)%nat ->
  somes (fillSlot items x) ≡ₚ x :: somes items /\ S (empties (fillSlot items x)) = empties items.
Proof.
  induction items as [|[y|] items IH]; cbn; intros H; [lia| |split; reflexivity].
  destruct (IH H) as [Hp He]. split; [|exact He]. rewrite Hp. apply perm_swap.
Qed.

Lemma clearSlot_spec items x : x ∈ somes items ->
  exists items', clearSlot items x = Some items' /\ somes items ≡ₚ x :: somes items' /\ empties items' = S (empties items).
Proof.
  induction items as [|item items IH]; cbn; intros H; [apply elem_of_nil in H; contradiction|].
  destruct (bool_decide_reflect (item = Some x)) as [->|Hne]; [exists (None :: items); auto|].
  assert (Hx : x ∈ somes items).
  { destruct item as [y|]; [|exact H]. apply elem_of_cons in H as [->|H]; [congruence|exact H]. }
  destruct (IH Hx) as (items' & E & Hp & He). exists (item :: items'). rewrite E. split; [reflexivity|].
  destruct item as [y|]; cbn; [|split; [exact Hp|lia]]. rewrite Hp. split; [apply perm_swap|exact He].
Qed.

Lemma observed_ext o P Q : (forall x, P x <-> Q x) -> observed o P -> observed o Q.
Proof. intros H (H1 & H2 & H3). split; [exact H1|]. split; [exact H2|]. intros x. rewrite H3. apply H. Qed.

Lemma observed_none : observed noObservers (fun _ => False).
Proof. split; [reflexivity|]. split; [constructor|]. intros x. cbn. split; [intros H; apply elem_of_nil in H; exact H|contradiction]. Qed.

Lemma observed_add o P x : observed o P -> ~ P x -> observed (addObserver o x) (fun y => y = x \/ P y).
Proof.
  intros (Hc & Hd & Hi) Hx. unfold addObserver, observed. rewrite <- Hi in Hx.
  assert (Hmem : forall l, l ≡ₚ x :: somes (m_observerItems o) -> NoDup l /\ forall y, y ∈ l <-> y = x \/ P y).
  { intros l Hl. split; [rewrite Hl; constructor; assumption|]. intros y. rewrite Hl, elem_of_cons, Hi. reflexivity. }
  destruct (Nat.ltb_spec 0 (m_removedObserverCount o)) as [H0|H0]; cbn [m_removedObserverCount m_observerItems].
  - destruct (fillSlot_spec (m_observerItems o) x) as [Hp He]; [lia|]. destruct (Hmem _ Hp). repeat split; try assumption; [lia|apply H1..].
  - assert (Hp : somes (m_observerItems o ++ [Some x]) ≡ₚ x :: somes (m_observerItems o)).
    { rewrite (proj1 (somes_snoc _ _)). symmetry. apply Permutation_cons_append. }
    destruct (Hmem _ Hp). repeat split; try assumption; [|apply H1..].
    rewrite (proj2 (somes_snoc _ _)). exact Hc.
Qed.

Lemma observed_remove o P x : observed o P -> P x -> observed (removeObserver o x) (fun y => y <> x /\ P y).
Proof.
  intros (Hc & Hd & Hi) Hx. unfold removeObserver. destruct (clearSlot_spec (m_observerItems o) x) as (items & -> & Hp & He); [apply Hi, Hx|].
  unfold observed. cbn [m_removedObserverCount m_observerItems]. rewrite Hp in Hd. apply list.NoDup_cons in Hd as [Hn Hd].
  split; [lia|]. split; [exact Hd|]. intros y. rewrite <- Hi, Hp, elem_of_cons. split.
  - intros Hy. split; [intros ->; contradiction|auto].
  - intros [Hne [->|Hy]]; [congruence|exact Hy].
Qed.

(** ** The invariant *)

Definition elementSize (type : TypedArrayType) : Z :=
  match type with
  | Int8 => 1 | Int16 => 2 | Int32 => 4 | Uint8 => 1 | Uint16 => 2 | Uint32 => 4 | Uint8Clamped => 1
  | Float32 => 4 | Float64 => 8 | BigInt64 => 8 | BigUint64 => 8
  end.

Definition sizeLimit : Z := 2 ^ 53.

(** The numbers of a view: its elements fit in its bytes. *)
Definition shaped (view : ArrayBufferView) : Prop :=
  0 <= m_byteOffset view /\ 0 <= m_byteLength view /\ 0 <= m_arrayLength view /\
  m_byteOffset view + m_byteLength view < sizeLimit /\
  match viewKind view with
  | TypedArrayObject type => m_arrayLength view * elementSize type <= m_byteLength view
  | DataViewObject => m_arrayLength view = 0 /\ m_auto view = false
  end.

Definition blockSize (w : World) (block : nat) : Z := Z.of_nat (List.length (default [] (default None (memory w !! block)))).
Definition capacityOf (w : World) (b : nat) : Z := match dataOf w b with Some block => blockSize w block | None => 0 end.

(** A view's pointer is that of its buffer's data, and its window is in the memory behind it (when there is any). *)
Definition view_ok (w : World) (view : ArrayBufferView) : Prop :=
  shaped view /\
  match m_buffer view with
  | None => m_cachedRawBufferAddress view = None
  | Some b => m_cachedRawBufferAddress view = cachedAddress (dataOf w b) (m_byteOffset view) /\
              (is_Some (dataOf w b) -> m_byteOffset view + m_byteLength view <= capacityOf w b)
  end.

Definition attached (w : World) (s b : nat) : Prop := exists buffer, buffers w !! b = Some buffer /\ m_backingStore buffer = Some s.
Definition viewing (w : World) (b v : nat) : Prop := exists view, views w !! v = Some view /\ m_buffer view = Some b.

Definition store_ok (w : World) (s : nat) (store : BackingStore) : Prop :=
  observed (storeObservers store) (attached w s) /\
  (exists bytes, memory w !! m_data store = Some (Some bytes) /\ Z.of_nat (List.length bytes) < sizeLimit /\
     0 <= m_storeLength store <= Z.of_nat (List.length bytes) /\
     (m_isResizable store = true -> m_storeLength store <= m_maxByteLength store <= Z.of_nat (List.length bytes))).

Record Structure (w : World) : Prop := {
  st_store : forall s store, stores w !! s = Some store -> store_ok w s store;
  st_blocks : forall s s' store store', stores w !! s = Some store -> stores w !! s' = Some store' ->
                m_data store = m_data store' -> s = s';
  st_buffer : forall b buffer, buffers w !! b = Some buffer -> observed (bufferObservers buffer) (viewing w b);
  st_attached : forall s b, attached w s b -> is_Some (stores w !! s);
  st_viewing : forall b v, viewing w b v -> is_Some (buffers w !! b)
}.

Record Inv (w : World) : Prop := {
  inv_structure : Structure w;
  inv_views : forall v view, views w !! v = Some view -> view_ok w view
}.

(** ** A view that is called back *)

Lemma elementSize_pos type : 1 <= elementSize type.
Proof. destruct type; cbn; lia. Qed.

(** The element size that [arrayBufferObserver] works out is never too small. *)
Lemma derived_length n a e m : 0 < a -> 1 <= e -> a * e <= n -> 0 <= m -> 0 <= m / (n / a) /\ m / (n / a) * e <= m.
Proof.
  intros Ha He Hn Hm. assert (e <= n / a) by (apply Z.div_le_lower_bound; lia).
  split; [apply Z.div_pos; lia|]. transitivity (m / (n / a) * (n / a)); [apply Z.mul_le_mono_nonneg_l; [apply Z.div_pos; lia|lia]|].
  rewrite Z.mul_comm. apply Z.mul_div_le. lia.
Qed.

Lemma arrayBufferObserver_spec view newAddress newByteLength :
  shaped view -> 0 <= newByteLength < sizeLimit ->
  let view' := arrayBufferObserver newAddress newByteLength view in
  shaped view' /\ viewKind view' = viewKind view /\ m_buffer view' = m_buffer view /\
  m_cachedRawBufferAddress view' = cachedAddress newAddress (m_byteOffset view') /\
  m_byteOffset view' + m_byteLength view' <= newByteLength.
Proof.
  intros (Ho & Hl & Ha & Hs & Hk) Hn. unfold arrayBufferObserver, sizeLimit in *. cbv zeta.
  unfold usize, to_unsigned. rewrite (Z.mod_small (m_byteOffset view + m_byteLength view)) by lia.
  destruct (m_auto view) eqn:Ea.
  - destruct (Z.ltb_spec newByteLength (m_byteOffset view)) as [Hr|Hr]; cbn.
    + unfold shaped, sizeLimit. cbn. destruct (viewKind view) as [type|]; [|destruct Hk; congruence]. repeat split; try lia.
    + rewrite Z.mod_small by lia. unfold shaped, sizeLimit. cbn.
      destruct (viewKind view) as [type|]; [|destruct Hk; congruence]. pose proof (elementSize_pos type) as Hp.
      set (a := if _ =? SIZE_MAX then 0 else _).
      assert (Harr : 0 <= a /\ a * elementSize type <= newByteLength - m_byteOffset view).
      { unfold a. destruct (Z.eqb_spec (m_arrayLength view) 0) as [E0|E0]; [rewrite Z.eqb_refl; lia|].
        destruct (_ =? SIZE_MAX); [lia|]. apply derived_length; lia. }
      clearbody a. repeat split; lia.
  - destruct (Z.ltb_spec newByteLength (m_byteOffset view + m_byteLength view)) as [Hr|Hr]; cbn.
    + unfold shaped, sizeLimit. cbn. destruct (viewKind view); repeat split; lia || assumption.
    + split; [unfold shaped; cbn; rewrite Ea; exact (conj Ho (conj Hl (conj Ha (conj Hs Hk))))|]. repeat split. exact Hr.
Qed.

(** ** Notifications reach each view once *)

Lemma alter_eq {A} (f : A -> A) i (l : list A) j :
  alter f i l !! j = if decide (i = j) then f <$> l !! j else l !! j.
Proof.
  case_decide as H; [subst; apply list_lookup_alter_eq|apply list_lookup_alter_ne; exact H].
Qed.

(** What a notification of the views of [b] does to the views of a world. *)
Definition viewUpdate (b : nat) (a : option nat) (n : Z) (view : ArrayBufferView) : ArrayBufferView :=
  if decide (m_buffer view = Some b) then arrayBufferObserver a n view else view.

Lemma m_buffer_observer a n view : m_buffer (arrayBufferObserver a n view) = m_buffer view.
Proof. unfold arrayBufferObserver. cbv zeta. repeat case_if; reflexivity. Qed.

Lemma notifyViews_frame items a n : forall w,
  memory (notifyViews items a n w) = memory w /\ stores (notifyViews items a n w) = stores w /\
  buffers (notifyViews items a n w) = buffers w.
Proof. induction items as [|[v|] items IH]; intros w; cbn; [auto|apply (IH (updateView v _ w))|apply IH]. Qed.

Lemma notifyViews_views items a n : forall w v, NoDup (somes items) ->
  views (notifyViews items a n w) !! v
  = if decide (v ∈ somes items) then arrayBufferObserver a n <$> views w !! v else views w !! v.
Proof.
  induction items as [|[x|] items IH]; intros w v Hd; cbn [somes] in *.
  - destruct (decide _) as [H|]; [apply elem_of_nil in H; contradiction|reflexivity].
  - apply list.NoDup_cons in Hd as [Hx Hd]. change (notifyViews (Some x :: items) a n w)
      with (notifyViews items a n (updateView x (arrayBufferObserver a n) w)).
    rewrite IH by exact Hd. cbn [updateView setViews views]. rewrite alter_eq.
    destruct (decide (x = v)) as [->|Hne].
    + rewrite decide_False by exact Hx. rewrite decide_True by left. reflexivity.
    + destruct (decide (v ∈ somes items)) as [Hv|Hv]; [rewrite decide_True by (right; exact Hv); reflexivity|].
      rewrite decide_False; [reflexivity|]. intros H. apply elem_of_cons in H as [->|H]; congruence.
  - apply (IH w v Hd).
Qed.

Lemma bufferUpdated_frame b a n w :
  memory (bufferUpdated b a n w) = memory w /\ stores (bufferUpdated b a n w) = stores w /\
  buffers (bufferUpdated b a n w) = buffers w.
Proof. unfold bufferUpdated. destruct (buffers w !! b); [apply notifyViews_frame|auto]. Qed.

(** The observers of the buffers of [w] are right. *)
Definition buffers_observed (w : World) : Prop :=
  (forall b buffer, buffers w !! b = Some buffer -> observed (bufferObservers buffer) (viewing w b)) /\
  (forall b v, viewing w b v -> is_Some (buffers w !! b)).

Lemma bufferUpdated_views b a n w v : buffers_observed w ->
  views (bufferUpdated b a n w) !! v = viewUpdate b a n <$> views w !! v.
Proof.
  intros [Ho Hv]. unfold bufferUpdated. destruct (buffers w !! b) as [buffer|] eqn:Eb.
  - destruct (Ho b buffer Eb) as (_ & Hd & Hi). rewrite notifyViews_views by exact Hd.
    destruct (views w !! v) as [view|] eqn:Ev; [|destruct (decide _); reflexivity].
    cbn. unfold viewUpdate. destruct (decide (m_buffer view = Some b)) as [Hm|Hm].
    + rewrite decide_True; [reflexivity|]. apply Hi. exists view. auto.
    + rewrite decide_False; [reflexivity|]. intros H. apply Hi in H as (view' & E & H). congruence.
  - destruct (views w !! v) as [view|] eqn:Ev; [|reflexivity]. cbn. unfold viewUpdate. rewrite decide_False; [reflexivity|].
    intros Hm. destruct (Hv b v) as [? ?]; [exists view; auto|congruence].
Qed.

(** [viewing] only depends on which buffer each view has. *)
Lemma viewing_map w w' (f : ArrayBufferView -> ArrayBufferView) b v :
  (forall v, views w' !! v = f <$> views w !! v) -> (forall view, m_buffer (f view) = m_buffer view) ->
  viewing w' b v <-> viewing w b v.
Proof.
  intros Hf Hm. unfold viewing. rewrite Hf. split.
  - intros (view & E & H). destruct (views w !! v) as [x|]; [|discriminate]. injection E as <-. exists x. rewrite Hm in H. auto.
  - intros (view & E & H). rewrite E. exists (f view). rewrite Hm. auto.
Qed.

Lemma viewUpdate_buffer b a n view : m_buffer (viewUpdate b a n view) = m_buffer view.
Proof. unfold viewUpdate. destruct (decide _); [apply m_buffer_observer|reflexivity]. Qed.

Lemma buffers_observed_updated b a n w : buffers_observed w -> buffers_observed (bufferUpdated b a n w).
Proof.
  intros Hb. destruct (bufferUpdated_frame b a n w) as (_ & _ & Eb).
  assert (Hv : forall b0 v, viewing (bufferUpdated b a n w) b0 v <-> viewing w b0 v)
    by (intros b0 v; apply (viewing_map _ _ (viewUpdate b a n)); [intros; apply bufferUpdated_views, Hb|apply viewUpdate_buffer]).
  split.
  - intros b0 buffer E. rewrite Eb in E. eapply observed_ext; [|exact (proj1 Hb b0 buffer E)]. intros v. symmetry. apply Hv.
  - intros b0 v H. rewrite Eb. apply (proj2 Hb b0 v), Hv, H.
Qed.

(** All the buffers of a list, one after the other. *)
Definition notifyBuffers (items : list (option nat)) (a : option nat) (n : Z) (w : World) : World :=
  fold_left (fun w item => match item with Some b => bufferUpdated b a n w | None => w end) items w.

Definition viewsUpdate (bs : list nat) (a : option nat) (n : Z) (view : ArrayBufferView) : ArrayBufferView :=
  match m_buffer view with
  | Some b => if decide (b ∈ bs) then arrayBufferObserver a n view else view
  | None => view
  end.

Lemma notifyBuffers_spec items a n : forall w, NoDup (somes items) -> buffers_observed w ->
  let w' := notifyBuffers items a n w in
  memory w' = memory w /\ stores w' = stores w /\ buffers w' = buffers w /\
  forall v, views w' !! v = viewsUpdate (somes items) a n <$> views w !! v.
Proof.
  induction items as [|[b|] items IH]; intros w Hd Hb; cbv zeta.
  - repeat split. intros v. cbn. destruct (views w !! v) as [view|]; [|reflexivity]. cbn. unfold viewsUpdate.
    destruct (m_buffer view); [|reflexivity]. rewrite decide_False; [reflexivity|]. intros H. apply elem_of_nil in H. exact H.
  - cbn [somes] in *. apply list.NoDup_cons in Hd as [Hx Hd].
    change (notifyBuffers (Some b :: items) a n w) with (notifyBuffers items a n (bufferUpdated b a n w)).
    destruct (bufferUpdated_frame b a n w) as (E1 & E2 & E3).
    destruct (IH (bufferUpdated b a n w) Hd (buffers_observed_updated b a n w Hb)) as (F1 & F2 & F3 & F4).
    rewrite F1, F2, F3. repeat split; try assumption. intros v. rewrite F4, bufferUpdated_views by exact Hb.
    destruct (views w !! v) as [view|]; [|reflexivity]. cbn. f_equal. unfold viewsUpdate. rewrite viewUpdate_buffer.
    unfold viewUpdate. destruct (m_buffer view) as [b'|]; [|reflexivity].
    destruct (decide (Some b' = Some b)) as [[= ->]|Hne].
    + rewrite decide_False by exact Hx. rewrite decide_True by left. reflexivity.
    + destruct (decide (b' ∈ somes items)) as [H|H]; [rewrite decide_True by (right; exact H); reflexivity|].
      rewrite decide_False; [reflexivity|]. intros H'. apply elem_of_cons in H' as [->|H']; [congruence|contradiction].
  - apply (IH w Hd Hb).
Qed.

(** ** Worlds that differ in their views or stores only *)

Lemma dataOf_stores w w' b :
  buffers w' = buffers w -> (forall s, m_data <$> stores w' !! s = m_data <$> stores w !! s) -> dataOf w' b = dataOf w b.
Proof.
  intros Hb Hs. unfold dataOf, storeOf. rewrite Hb. destruct (buffers w !! b) as [buffer|]; [|reflexivity].
  destruct (m_backingStore buffer) as [s|]; [|reflexivity]. specialize (Hs s).
  destruct (stores w !! s), (stores w' !! s); cbn in *; congruence.
Qed.

Lemma view_ok_frame w w' view :
  (forall b, m_buffer view = Some b -> dataOf w' b = dataOf w b /\ capacityOf w b <= capacityOf w' b) ->
  view_ok w view -> view_ok w' view.
Proof.
  intros Hf [Hs Hv]. split; [exact Hs|]. destruct (m_buffer view) as [b|]; [|exact Hv].
  destruct (Hf b eq_refl) as [Hd Hc]. destruct Hv as [Ha Hl]. rewrite Hd. split; [exact Ha|].
  intros Hs'. specialize (Hl Hs'). lia.
Qed.

Lemma structure_buffers w : Structure w -> buffers_observed w.
Proof. intros H. split; [apply H|apply H]. Qed.

(** Changing the numbers of views leaves the structure alone. *)
Lemma structure_views w w' f :
  memory w' = memory w -> stores w' = stores w -> buffers w' = buffers w ->
  (forall v, views w' !! v = f <$> views w !! v) -> (forall view, m_buffer (f view) = m_buffer view) ->
  Structure w -> Structure w'.
Proof.
  intros Em Es Eb Hf Hm H.
  assert (Hv : forall b v, viewing w' b v <-> viewing w b v) by (intros b v; exact (viewing_map _ _ f b v Hf Hm)).
  assert (Ha : forall s b, attached w' s b <-> attached w s b) by (intros s b; unfold attached; rewrite Eb; reflexivity).
  split.
  - intros s store E. rewrite Es in E. destruct (st_store _ H s store E) as [Ho Hmem]. split; [|rewrite Em; exact Hmem].
    eapply observed_ext; [|exact Ho]. intros x. symmetry. apply Ha.
  - intros s s' store store'. rewrite Es. apply H.
  - intros b buffer E. rewrite Eb in E. eapply observed_ext; [|exact (st_buffer _ H b buffer E)]. intros v. symmetry. apply Hv.
  - intros s b Hs. rewrite Es. apply (st_attached _ H s b), Ha, Hs.
  - intros b v Hv'. rewrite Eb. apply (st_viewing _ H b v), Hv, Hv'.
Qed.

Lemma store_capacity w b store : Structure w -> storeOf w b = Some store ->
  dataOf w b = Some (m_data store) /\ 0 <= m_storeLength store <= capacityOf w b /\ capacityOf w b < sizeLimit.
Proof.
  intros H E. unfold capacityOf, dataOf. rewrite E. cbn. split; [reflexivity|]. unfold storeOf in E.
  destruct (buffers w !! b) as [buffer|]; [|discriminate]. destruct (m_backingStore buffer) as [s|]; [|discriminate].
  destruct (st_store _ H s store E) as [_ (bytes & Em & Hs & Hl & _)]. unfold blockSize. rewrite Em. cbn. lia.
Qed.

(** ** The views of a buffer after its data changed *)

(** Every view of [w'] is good when the views of the buffers [bs] have been called back with the
    address and length that these buffers have in [w'], and the data of the others is unchanged. *)
Lemma views_notified w w1 w' (bs : list nat) a n :
  (forall v view, views w !! v = Some view -> view_ok w view) ->
  views w1 = views w -> 0 <= n < sizeLimit ->
  (forall v, views w' !! v = viewsUpdate bs a n <$> views w1 !! v) ->
  (forall b, b ∈ bs -> dataOf w' b = a /\ n <= capacityOf w' b) ->
  (forall b, b ∉ bs -> is_Some (buffers w !! b) -> dataOf w' b = dataOf w b /\ capacityOf w b <= capacityOf w' b) ->
  (forall b v, viewing w b v -> is_Some (buffers w !! b)) ->
  forall v view, views w' !! v = Some view -> view_ok w' view.
Proof.
  intros Hw Ew1 Hn Hv' Hin Hout Hvw v view' E. rewrite Hv', Ew1 in E.
  destruct (views w !! v) as [view|] eqn:Ev; [|discriminate]. cbn in E. injection E as <-.
  pose proof (Hw v view Ev) as Hok. unfold viewsUpdate. destruct (m_buffer view) as [b|] eqn:Em.
  2: { apply (view_ok_frame w); [|exact Hok]. rewrite Em. discriminate. }
  destruct (decide (b ∈ bs)) as [Hb|Hb].
  - destruct (Hin b Hb) as [Hd Hc]. destruct (arrayBufferObserver_spec view a n (proj1 Hok) Hn) as (Hs & _ & Hm & Hca & Hl).
    cbv zeta in *. split; [exact Hs|]. rewrite Hm, Em. rewrite Hd. split; [exact Hca|]. intros _. lia.
  - apply (view_ok_frame w); [|exact Hok]. intros b' Eb'. rewrite Em in Eb'. injection Eb' as <-.
    apply Hout; [exact Hb|]. apply (Hvw b v). exists view. auto.
Qed.

(** [bufferUpdated] is the case of one buffer. *)
Lemma viewUpdate_one b a n view : viewUpdate b a n view = viewsUpdate [b] a n view.
Proof.
  unfold viewUpdate, viewsUpdate. destruct (m_buffer view) as [b'|]; [|reflexivity].
  destruct (decide (Some b' = Some b)) as [[= ->]|H].
  - rewrite decide_True by left. reflexivity.
  - rewrite decide_False; [reflexivity|]. intros Hin. apply list_elem_of_singleton in Hin. congruence.
Qed.

(** ** Attaching and detaching *)

Lemma wp_modify (f : World -> World) w (Q : unit -> World -> Prop) (X : Error -> World -> Prop) : Q tt (f w) -> wp (modify f) w Q X.
Proof. exact id. Qed.
Lemma wp_get w (Q : World -> World -> Prop) (X : Error -> World -> Prop) : Q w w -> wp get w Q X.
Proof. exact id. Qed.
Lemma wp_gets {A} (f : World -> A) w (Q : A -> World -> Prop) (X : Error -> World -> Prop) : Q (f w) w -> wp (gets f) w Q X.
Proof. exact id. Qed.
Lemma wp_theBuffer b buffer w (Q : ArrayBuffer -> World -> Prop) (X : Error -> World -> Prop) :
  buffers w !! b = Some buffer -> Q buffer w -> wp (theBuffer b) w Q X.
Proof. intros E H. unfold theBuffer. apply wp_bind, wp_get. rewrite E. exact H. Qed.
Lemma wp_theStore s store w (Q : BackingStore -> World -> Prop) (X : Error -> World -> Prop) :
  stores w !! s = Some store -> Q store w -> wp (theStore s) w Q X.
Proof. intros E H. unfold theStore. apply wp_bind, wp_get. rewrite E. exact H. Qed.
Lemma wp_theView v view w (Q : ArrayBufferView -> World -> Prop) (X : Error -> World -> Prop) :
  views w !! v = Some view -> Q view w -> wp (theView v) w Q X.
Proof. intros E H. unfold theView. apply wp_bind, wp_get. rewrite E. exact H. Qed.

Definition setObserversOf (f : Observers -> Observers) (s : BackingStore) : BackingStore := setStoreObservers s (f (storeObservers s)).

(** The world with another backing store for [b] and other observers for the store [s]. *)
Definition reattached (w : World) (s b : nat) (f : Observers -> Observers) (bs : option nat) : World :=
  mkWorld (memory w) (alter (setObserversOf f) s (stores w)) (alter (fun buffer => setBackingStore buffer bs) b (buffers w)) (views w).

Lemma reattached_attached w s b f bs s' x buffer : buffers w !! b = Some buffer ->
  attached (reattached w s b f bs) s' x <-> (x = b /\ bs = Some s') \/ (x <> b /\ attached w s' x).
Proof.
  intros E. unfold attached. cbn. rewrite alter_eq. destruct (decide (b = x)) as [<-|Hne].
  - rewrite E. cbn. split.
    + intros (y & [= <-] & H). left. auto.
    + intros [[_ H]|[H _]]; [|congruence]. exists (setBackingStore buffer bs). auto.
  - split; [intros H; right; auto|]. intros [[-> _]|[_ H]]; [congruence|exact H].
Qed.

Lemma reattached_structure w s b f bs buffer : Structure w -> buffers w !! b = Some buffer ->
  (forall s' store, stores w !! s' = Some store -> observed (storeObservers store) (attached w s') ->
     observed (if decide (s = s') then f (storeObservers store) else storeObservers store)
              (fun x => (x = b /\ bs = Some s') \/ (x <> b /\ attached w s' x))) ->
  (forall s', bs = Some s' -> is_Some (stores w !! s')) ->
  Structure (reattached w s b f bs).
Proof.
  intros H Eb Hf Hbs. split.
  - intros s' store' E. cbn in E. rewrite alter_eq in E.
    assert (Hst : exists store, stores w !! s' = Some store /\ store' = if decide (s = s') then setObserversOf f store else store).
    { destruct (decide (s = s')); [|exists store'; auto]. destruct (stores w !! s') as [store|]; [|discriminate].
      injection E as <-. exists store. auto. }
    destruct Hst as (store & Es & ->). destruct (st_store _ H s' store Es) as [Ho Hm].
    specialize (Hf s' store Es Ho). split.
    + eapply observed_ext; [intros x; symmetry; apply (reattached_attached w s b f bs s' x buffer Eb)|].
      destruct (decide (s = s')); exact Hf.
    + destruct (decide (s = s')); exact Hm.
  - intros s1 s2 st1 st2 E1 E2 Ed. cbn in E1, E2. rewrite alter_eq in E1, E2. 
    apply (f_equal (fmap m_data)) in E1, E2.
    assert (D : forall s0, m_data <$> (if decide (s = s0) then setObserversOf f <$> stores w !! s0 else stores w !! s0) = m_data <$> stores w !! s0)
      by (intros s0; destruct (decide (s = s0)), (stores w !! s0); reflexivity).
    rewrite D in E1, E2. cbn in E1, E2.
    destruct (stores w !! s1) as [x1|] eqn:X1; [|discriminate]. destruct (stores w !! s2) as [x2|] eqn:X2; [|discriminate].
    apply (st_blocks _ H s1 s2 x1 x2 X1 X2). cbn in *. congruence.
  - intros b0 buffer0 E. cbn in E. rewrite alter_eq in E. destruct (decide (b = b0)) as [<-|].
    + rewrite Eb in E. cbn in E. injection E as <-. exact (st_buffer _ H b buffer Eb).
    + exact (st_buffer _ H b0 buffer0 E).
  - intros s' x Hx. apply (reattached_attached w s b f bs s' x buffer Eb) in Hx. cbn. rewrite alter_eq.
    assert (Hs : is_Some (stores w !! s')) by (destruct Hx as [[_ Hx]|[_ Hx]]; [apply Hbs, Hx|apply (st_attached _ H s' x), Hx]).
    destruct (decide (s = s')); [apply fmap_is_Some|]; exact Hs.
  - intros b0 v Hv. cbn. rewrite alter_eq. assert (Hb : is_Some (buffers w !! b0)) by exact (st_viewing _ H b0 v Hv).
    destruct (decide (b = b0)); [apply fmap_is_Some|]; exact Hb.
Qed.

Lemma reattached_data w s b f bs b' : b' <> b -> dataOf (reattached w s b f bs) b' = dataOf w b'.
Proof.
  intros Hne. unfold dataOf, storeOf. cbn. rewrite alter_eq, decide_False by congruence.
  destruct (buffers w !! b') as [buffer|]; [|reflexivity]. destruct (m_backingStore buffer) as [s'|]; [|reflexivity].
  rewrite alter_eq. destruct (decide (s = s')), (stores w !! s'); reflexivity.
Qed.

Lemma dataOf_same w w' b : buffers w' = buffers w -> stores w' = stores w -> dataOf w' b = dataOf w b.
Proof. intros Eb Es. unfold dataOf, storeOf. rewrite Eb, Es. reflexivity. Qed.

Lemma capacityOf_same w w' b : memory w' = memory w -> dataOf w' b = dataOf w b -> capacityOf w' b = capacityOf w b.
Proof. intros Em Ed. unfold capacityOf, blockSize. rewrite Ed, Em. reflexivity. Qed.

(** The views of [b] are called back after [b] got other data. *)
Lemma notified_inv w w1 b a n :
  Inv w -> Structure w1 -> memory w1 = memory w -> views w1 = views w -> 0 <= n < sizeLimit ->
  dataOf w1 b = a -> n <= capacityOf w1 b -> (forall b', b' <> b -> dataOf w1 b' = dataOf w b') ->
  Inv (bufferUpdated b a n w1).
Proof.
  intros Hw H1 Em Ev Hn Ha Hc Hd. pose proof (structure_buffers w1 H1) as Hb.
  destruct (bufferUpdated_frame b a n w1) as (Fm & Fs & Fb).
  assert (Hv : forall v, views (bufferUpdated b a n w1) !! v = viewsUpdate [b] a n <$> views w1 !! v).
  { intros v. rewrite bufferUpdated_views by exact Hb. destruct (views w1 !! v); [|reflexivity]. cbn. rewrite viewUpdate_one. reflexivity. }
  split.
  - apply (structure_views w1 _ (viewUpdate b a n)); try assumption; [|apply viewUpdate_buffer].
    intros v. apply bufferUpdated_views, Hb.
  - apply (views_notified w w1 _ [b] a n); try assumption; [apply Hw| | |apply Hw].
    + intros b' Hin. apply list_elem_of_singleton in Hin as ->. rewrite (dataOf_same _ _ _ Fb Fs). split; [exact Ha|].
      rewrite (capacityOf_same w1 _ b Fm (dataOf_same _ _ _ Fb Fs)). exact Hc.
    + intros b' Hnin _. assert (Hne : b' <> b) by (intros ->; apply Hnin; left).
      assert (E : dataOf (bufferUpdated b a n w1) b' = dataOf w b') by (rewrite (dataOf_same _ _ _ Fb Fs); apply Hd, Hne).
      split; [exact E|]. rewrite (capacityOf_same w _ b' (eq_trans Fm Em) E). lia.
Qed.

(** What an operation on buffer [b] leaves alone: the memory, the stores up to their observers, the other
    buffers, and which views there are. *)
Definition core (s : BackingStore) : nat * Z * Z * bool * bool :=
  (m_data s, m_storeLength s, m_maxByteLength s, m_isAllocatedByPlatform s, m_isResizable s).
Definition face (v : ArrayBufferView) : ViewKind * option nat := (viewKind v, m_buffer v).
(** What becomes of a view: it keeps its buffer, and its start or moves to the start of the buffer; without a
    buffer nothing happens to it. *)
Definition narrower (view view' : ArrayBufferView) : Prop :=
  face view' = face view /\ (m_byteOffset view' = m_byteOffset view \/ m_byteOffset view' = 0) /\
  (m_buffer view = None -> view' = view).

Definition same_world_but (b : nat) (w w' : World) : Prop :=
  memory w' = memory w /\ (forall s, core <$> stores w' !! s = core <$> stores w !! s) /\
  List.length (stores w') = List.length (stores w) /\ List.length (buffers w') = List.length (buffers w) /\
  (forall b', b' <> b -> buffers w' !! b' = buffers w !! b') /\
  List.length (views w') = List.length (views w) /\ (forall v, option_Forall2 narrower (views w !! v) (views w' !! v)).

Lemma narrower_refl view : narrower view view.
Proof. split; auto. Qed.

Lemma narrower_same view : option_Forall2 narrower view view.
Proof. destruct view; constructor. apply narrower_refl. Qed.

Lemma narrower_observer a n view b : m_buffer view = Some b -> narrower view (arrayBufferObserver a n view).
Proof.
  intros Eb. unfold narrower, face. split; [|split; [|congruence]].
  - rewrite m_buffer_observer. unfold arrayBufferObserver. cbv zeta. repeat case_if; reflexivity.
  - unfold arrayBufferObserver. cbv zeta. repeat case_if; cbn; auto.
Qed.

Lemma notifyViews_length items a n : forall w, List.length (views (notifyViews items a n w)) = List.length (views w).
Proof.
  induction items as [|[v|] items IH]; intros w; cbn; [reflexivity| |apply IH].
  etransitivity; [apply (IH (updateView v _ w))|]. apply length_alter.
Qed.

Lemma same_world_updated b w a n f bs s buffer : Structure (reattached w s b f bs) -> buffers w !! b = Some buffer ->
  let w' := bufferUpdated b a n (reattached w s b f bs) in
  same_world_but b w w' /\ buffers w' !! b = Some (setBackingStore buffer bs).
Proof.
  intros H Eb. cbv zeta. set (w1 := reattached w s b f bs) in *. destruct (bufferUpdated_frame b a n w1) as (Fm & Fs & Fb).
  unfold same_world_but. rewrite Fm, Fs, Fb. cbn. rewrite !length_alter, alter_eq, decide_True, Eb by reflexivity.
  split; [|reflexivity]. split; [reflexivity|]. split; [|split; [reflexivity|split; [reflexivity|split; [|split]]]].
  - intros s'. rewrite alter_eq. destruct (decide (s = s')), (stores w !! s'); reflexivity.
  - intros b' Hne. rewrite alter_eq, decide_False by congruence. reflexivity.
  - unfold bufferUpdated. destruct (buffers w1 !! b); [exact (notifyViews_length _ a n w1)|reflexivity].
  - intros v. rewrite (bufferUpdated_views b a n w1 v (structure_buffers w1 H)). cbn. destruct (views w !! v) as [view|]; [|constructor].
    cbn. constructor. unfold viewUpdate. destruct (decide _) as [Em|]; [exact (narrower_observer _ _ _ _ Em)|apply narrower_refl].
Qed.

Lemma alter_out {A} (f : A -> A) (l : list A) i : l !! i = None -> alter f i l = l.
Proof. intros H. apply list_eq. intros j. rewrite alter_eq. case_decide as E; [subst; rewrite H; reflexivity|reflexivity]. Qed.

Definition detached (b : nat) (w w' : World) : Prop :=
  same_world_but b w w' /\ forall buffer, buffers w !! b = Some buffer -> buffers w' !! b = Some (setBackingStore buffer None).

Lemma detach_structure w b buffer s : Structure w -> buffers w !! b = Some buffer -> m_backingStore buffer = Some s ->
  Structure (reattached w s b (fun o => removeObserver o b) None).
Proof.
  intros H Eb Es. apply (reattached_structure w s b _ None buffer H Eb); [|discriminate].
  intros s' store Est Ho. destruct (decide (s = s')) as [<-|Hne].
  - eapply observed_ext; [|apply (observed_remove _ _ b Ho); exists buffer; auto]. intros x. cbn. split; [intros [? ?]; auto|].
    intros [[_ ?]|?]; [discriminate|assumption].
  - eapply observed_ext; [|exact Ho]. intros x. split; [|intros [[_ ?]|[_ ?]]; [discriminate|assumption]].
    intros Hx. right. split; [|exact Hx]. intros ->. destruct Hx as (y & Ey & Hy). congruence.
Qed.

Lemma detach_structure_none w b buffer s : Structure w -> buffers w !! b = Some buffer -> m_backingStore buffer = None ->
  stores w !! s = None -> Structure (reattached w s b id None).
Proof.
  intros H Eb Es Hs. apply (reattached_structure w s b _ None buffer H Eb); [|discriminate].
  intros s' store Est Ho. assert (E : (if decide (s = s') then id (storeObservers store) else storeObservers store) = storeObservers store)
    by (destruct (decide _); reflexivity). rewrite E.
  eapply observed_ext; [|exact Ho]. intros x. split; [|intros [[_ ?]|[_ ?]]; [discriminate|assumption]].
  intros Hx. right. split; [|exact Hx]. intros ->. destruct Hx as (y & Ey & Hy). congruence.
Qed.

Lemma detachArrayBuffer_spec b w (X : Error -> World -> Prop) : Inv w -> is_Some (buffers w !! b) ->
  wp (detachArrayBuffer b) w (fun _ w' => Inv w' /\ detached b w w') X.
Proof.
  intros Hi [buffer Eb]. pose proof (inv_structure _ Hi) as Hst. unfold detachArrayBuffer, updateBackingStore.
  assert (Hgoal : forall s f, Structure (reattached w s b f None) -> Inv (bufferUpdated b None 0 (reattached w s b f None)) /\
                              detached b w (bufferUpdated b None 0 (reattached w s b f None))).
  { intros s f H1. assert (Ed : dataOf (reattached w s b f None) b = None).
    { unfold dataOf, storeOf. cbn. rewrite alter_eq, decide_True, Eb by reflexivity. reflexivity. }
    split.
    - apply (notified_inv w); try assumption; try reflexivity; [unfold sizeLimit; lia|unfold capacityOf; rewrite Ed; lia|].
      intros b' Hne. apply reattached_data, Hne.
    - destruct (same_world_updated b w None 0 f None s buffer H1 Eb) as [Hsame Hb]. split; [exact Hsame|].
      intros buffer' E. rewrite Eb in E. injection E as <-. exact Hb. }
  apply wp_bind. eapply wp_theBuffer; [exact Eb|]. destruct (m_backingStore buffer) as [s|] eqn:Es.
  - apply wp_bind, wp_modify, wp_bind, wp_modify, wp_modify.
    apply (Hgoal s (fun o => removeObserver o b)). exact (detach_structure w b buffer s Hst Eb Es).
  - apply wp_bind, wp_ret, wp_bind, wp_modify, wp_modify.
    pose proof (lookup_ge_None_2 (stores w) (List.length (stores w)) ltac:(lia)) as Hnone.
    specialize (Hgoal (List.length (stores w)) id (detach_structure_none w b buffer _ Hst Eb Es Hnone)).
    unfold reattached in Hgoal. rewrite (alter_out _ (stores w) _ Hnone) in Hgoal. exact Hgoal.
Qed.

Definition attachedTo (s b : nat) (w w' : World) : Prop :=
  same_world_but b w w' /\ forall buffer, buffers w !! b = Some buffer -> buffers w' !! b = Some (setBackingStore buffer (Some s)).

(** A buffer without a store gets one. *)
Lemma attach_spec b s buffer store w (X : Error -> World -> Prop) :
  Inv w -> buffers w !! b = Some buffer -> m_backingStore buffer = None -> stores w !! s = Some store ->
  wp (updateBackingStore b (Some s)) w (fun _ w' => Inv w' /\ attachedTo s b w w') X.
Proof.
  intros Hi Eb Enone Es. pose proof (inv_structure _ Hi) as Hst. unfold updateBackingStore.
  apply wp_bind. eapply wp_theBuffer; [exact Eb|]. rewrite Enone. apply wp_bind, wp_ret, wp_bind, wp_modify, wp_bind, wp_modify.
  set (f := fun o => addObserver o b).
  assert (Hnot : forall s', ~ attached w s' b) by (intros s' (y & Ey & Hy); congruence).
  assert (H1 : Structure (reattached w s b f (Some s))).
  { apply (reattached_structure w s b f (Some s) buffer Hst Eb); [|intros s' [= <-]; eexists; exact Es].
    intros s' store' E' Ho. destruct (decide (s = s')) as [<-|Hne].
    - eapply observed_ext; [|exact (observed_add _ _ b Ho (Hnot s))]. intros x. cbn. split.
      + intros [->|Hx]; [left; auto|right; split; [intros ->; exact (Hnot s Hx)|exact Hx]].
      + intros [[? _]|[_ ?]]; auto.
    - eapply observed_ext; [|exact Ho]. intros x. split.
      + intros Hx. right. split; [intros ->; exact (Hnot s' Hx)|exact Hx].
      + intros [[_ [= ?]]|[_ ?]]; [congruence|assumption]. }
  apply wp_bind. eapply wp_theStore; [cbn; rewrite alter_eq, decide_True, Es by reflexivity; reflexivity|]. apply wp_modify.
  set (w1 := reattached w s b f (Some s)) in *.
  assert (Ed : storeOf w1 b = Some (setObserversOf f store)).
  { unfold storeOf, w1. cbn. rewrite alter_eq, decide_True, Eb by reflexivity. cbn. rewrite alter_eq, decide_True, Es by reflexivity. reflexivity. }
  destruct (store_capacity w1 b _ H1 Ed) as (Hd & Hl & Hc).
  change (Inv (bufferUpdated b (Some (m_data store)) (m_storeLength store) w1) /\
          attachedTo s b w (bufferUpdated b (Some (m_data store)) (m_storeLength store) w1)).
  split.
  - apply (notified_inv w w1); try assumption; try reflexivity; [cbn in Hl; unfold sizeLimit in *; lia|exact (proj2 Hl)|].
    intros b' Hne. apply reattached_data, Hne.
  - destruct (same_world_updated b w (Some (m_data store)) (m_storeLength store) f (Some s) s buffer H1 Eb) as [Hsame Hb].
    split; [exact Hsame|]. intros buffer' E. rewrite Eb in E. injection E as <-. exact Hb.
Qed.

(** ** New objects *)

(** [w'] has everything of [w], and perhaps more blocks. *)
Lemma view_ok_memory w w' view :
  stores w' = stores w -> buffers w' = buffers w ->
  (forall block, blockSize w block <= blockSize w' block) -> view_ok w view -> view_ok w' view.
Proof.
  intros Es Eb Hm. apply view_ok_frame. intros b _. pose proof (dataOf_same w w' b Eb Es) as Ed. split; [exact Ed|].
  unfold capacityOf. rewrite Ed. destruct (dataOf w b); [apply Hm|lia].
Qed.

Definition extendMemory (w : World) (bytes : list Z) : World := setMemory w (memory w ++ [Some bytes]).

Lemma extendMemory_inv w bytes : Inv w -> Inv (extendMemory w bytes).
Proof.
  intros [H Hv].
  assert (Hold : forall block x, memory w !! block = Some x -> memory (extendMemory w bytes) !! block = Some x)
    by (intros block x E; apply lookup_app_l_Some, E).
  split.
  - destruct H as [A B C D E]. split; try assumption.
    intros s store Es. destruct (A s store Es) as [Ho (l & Em & Hl)]. split; [exact Ho|]. exists l. split; [apply Hold, Em|exact Hl].
  - intros v view Ev. apply (view_ok_memory w); try reflexivity; [|exact (Hv v view Ev)].
    intros block. unfold blockSize. destruct (memory w !! block) as [x|] eqn:Em; [rewrite (Hold _ _ Em); lia|cbn; lia].
Qed.

Lemma snoc_lookup {A} (l : list A) x i y : (l ++ [x]) !! i = Some y -> l !! i = Some y \/ i = List.length l /\ y = x.
Proof.
  intros H. apply lookup_app_Some in H as [H|[Hle H]]; [auto|right]. apply list_lookup_singleton_Some in H as [Hi ->].
  split; [lia|reflexivity].
Qed.

Lemma attached_length w s b : Structure w -> attached w s b -> (s < List.length (stores w))%nat.
Proof. intros H Ha. apply lookup_lt_is_Some_1, (st_attached _ H s b Ha). Qed.

Lemma newStore_inv w store bytes : Inv w ->
  memory w !! m_data store = Some (Some bytes) -> Z.of_nat (List.length bytes) < sizeLimit ->
  0 <= m_storeLength store <= Z.of_nat (List.length bytes) ->
  (m_isResizable store = true -> m_storeLength store <= m_maxByteLength store <= Z.of_nat (List.length bytes)) ->
  storeObservers store = noObservers -> (forall s store', stores w !! s = Some store' -> m_data store' <> m_data store) ->
  Inv (setStores w (stores w ++ [store])).
Proof.
  intros [H Hv] Em Hl Hs Hr Ho Hfresh. set (w' := setStores w _).
  assert (Hold : forall s x, stores w !! s = Some x -> stores w' !! s = Some x) by (intros s x E; apply lookup_app_l_Some, E).
  split.
  - split; [| | apply H | | apply H].
    + intros s store' E. apply snoc_lookup in E as [E|[-> ->]]; [exact (st_store _ H s store' E)|].
      split; [|exists bytes; auto]. rewrite Ho. eapply observed_ext; [|exact observed_none]. intros x. split; [contradiction|].
      intros Hx. apply (attached_length w _ x H) in Hx. lia.
    + intros s s' x x' E E' Ed. apply snoc_lookup in E as [E|[-> ->]], E' as [E'|[-> ->]].
      * exact (st_blocks _ H s s' x x' E E' Ed).
      * destruct (Hfresh s x E Ed).
      * destruct (Hfresh s' x' E' (eq_sym Ed)).
      * reflexivity.
    + intros s b Hs'. destruct (st_attached _ H s b Hs') as [x E]. exists x. apply Hold, E.
  - intros v view Ev. apply (view_ok_frame w); [|exact (Hv v view Ev)]. intros b Hb.
    assert (E : dataOf w' b = dataOf w b).
    { unfold dataOf, storeOf. destruct (buffers w !! b) as [buffer|] eqn:Eb; [|cbn; rewrite Eb; reflexivity]. cbn. rewrite Eb.
      destruct (m_backingStore buffer) as [s|] eqn:Es; [|reflexivity].
      destruct (st_attached _ H s b) as [x Ex]; [exists buffer; auto|]. rewrite Ex.
      change ((stores w ++ [store]) !! s) with (stores w' !! s). rewrite (Hold s x Ex). reflexivity. }
    split; [exact E|]. rewrite (capacityOf_same w w' b eq_refl E). lia.
Qed.

Lemma newBuffer_inv w : Inv w -> Inv (setBuffers w (buffers w ++ [mkBuffer None noObservers])).
Proof.
  intros [H Hv]. set (w' := setBuffers w _).
  assert (Hold : forall b x, buffers w !! b = Some x -> buffers w' !! b = Some x) by (intros b x E; apply lookup_app_l_Some, E).
  assert (Ha : forall s b, attached w' s b <-> attached w s b).
  { intros s b. split; intros (y & E & Hy); [|exists y; split; [apply Hold, E|exact Hy]].
    apply snoc_lookup in E as [E|[-> ->]]; [exists y; auto|discriminate Hy]. }
  split.
  - split.
    + intros s store E. destruct (st_store _ H s store E) as [Ho Hm]. split; [|exact Hm].
      eapply observed_ext; [|exact Ho]. intros x. symmetry. apply Ha.
    + apply (st_blocks _ H).
    + intros b buffer E. apply snoc_lookup in E as [E|[-> ->]]; [exact (st_buffer _ H b buffer E)|].
      eapply observed_ext; [|exact observed_none]. intros v. split; [contradiction|]. intros Hx.
      destruct (st_viewing _ H _ _ Hx) as [? E]. apply lookup_lt_Some in E. lia.
    + intros s b Hs. apply (st_attached _ H s b), Ha, Hs.
    + intros b v Hx. destruct (st_viewing _ H b v Hx) as [x E]. exists x. apply Hold, E.
  - intros v view Ev. apply (view_ok_frame w); [|exact (Hv v view Ev)]. intros b Hb.
    destruct (st_viewing _ H b v) as [x Ex]; [exists view; auto|].
    assert (E : dataOf w' b = dataOf w b) by (unfold dataOf, storeOf; rewrite Ex, (Hold b x Ex); reflexivity).
    split; [exact E|]. rewrite (capacityOf_same w w' b eq_refl E). lia.
Qed.

Lemma newView_inv w kind : Inv w -> Inv (setViews w (views w ++ [mkView kind None None 0 0 0 false])).
Proof.
  intros [H Hv]. set (w' := setViews w _).
  assert (Hx : forall b v, viewing w' b v <-> viewing w b v).
  { intros b v. split; intros (y & E & Hy); [|exists y; split; [apply lookup_app_l_Some, E|exact Hy]].
    apply snoc_lookup in E as [E|[-> ->]]; [exists y; auto|discriminate Hy]. }
  split.
  - split; [apply H|apply H| |apply H|].
    + intros b buffer E. eapply observed_ext; [|exact (st_buffer _ H b buffer E)]. intros v. symmetry. apply Hx.
    + intros b v Hv'. apply (st_viewing _ H b v), Hx, Hv'.
  - intros v view Ev. apply snoc_lookup in Ev as [E|[-> ->]].
    + apply (view_ok_frame w); [|exact (Hv v view E)]. intros b _. split; [reflexivity|]. reflexivity.
    + split; [|reflexivity]. unfold shaped, sizeLimit. cbn. destruct kind; repeat split; lia.
Qed.
