(* ===== verification/ArrayBufferOps.v ===== *)
(** * Operations on array buffers keep the invariant

    Resizing and reallocating a store, allocating a buffer, writing bytes and giving a
    view its buffer: each ends in a world where every view knows its bytes. *)

From stdpp Require Import list sorting.
From S2P Require Import Prelude ArrayBuffer ArrayBufferSpec.
Local Open Scope esc_scope.
Local Open Scope Z_scope.

(** ** A store that changes *)

(** The world with the store [s] changed, and memory [m]. *)
Definition changedStore (w : World) (m : list (option (list Z))) (s : nat) (f : BackingStore -> BackingStore) : World :=
  mkWorld m (alter f s (stores w)) (buffers w) (views w).

Definition bytes_ok (m : list (option (list Z))) (store : BackingStore) : Prop :=
  exists bytes, m !! m_data store = Some (Some bytes) /\ Z.of_nat (List.length bytes) < sizeLimit /\
     0 <= m_storeLength store <= Z.of_nat (List.length bytes) /\
     (m_isResizable store = true -> m_storeLength store <= m_maxByteLength store <= Z.of_nat (List.length bytes)).

(** The other stores keep their bytes. *)
Definition others_keep (w : World) (m : list (option (list Z))) (s : nat) : Prop :=
  forall s' store', s' <> s -> stores w !! s' = Some store' -> m !! m_data store' = memory w !! m_data store'.

Lemma changedStore_structure w m s f store : Structure w -> stores w !! s = Some store ->
  storeObservers (f store) = storeObservers store -> bytes_ok m (f store) -> others_keep w m s ->
  (forall s' store', s' <> s -> stores w !! s' = Some store' -> m_data store' <> m_data (f store)) ->
  Structure (changedStore w m s f).
Proof.
  intros H Es Ho Hb Hk Hd.
  assert (Hlook : forall s' x, stores (changedStore w m s f) !! s' = Some x ->
            (s' = s /\ x = f store) \/ (s' <> s /\ stores w !! s' = Some x)).
  { intros s' x E. cbn in E. rewrite alter_eq in E. case_decide as D; [subst|right; auto].
    left. rewrite Es in E. injection E as <-. auto. }
  split.
  - intros s' x E. destruct (Hlook s' x E) as [[-> ->]|[Hne E']].
    + split; [|exact Hb]. rewrite Ho. exact (proj1 (st_store _ H s store Es)).
    + destruct (st_store _ H s' x E') as [Hx (bytes & Em & Hrest)]. split; [exact Hx|].
      exists bytes. cbn. rewrite (Hk s' x Hne E'). auto.
  - intros s1 s2 x1 x2 E1 E2 Ed. destruct (Hlook s1 x1 E1) as [[-> ->]|[N1 F1]], (Hlook s2 x2 E2) as [[-> ->]|[N2 F2]].
    + reflexivity.
    + destruct (Hd s2 x2 N2 F2 (eq_sym Ed)).
    + destruct (Hd s1 x1 N1 F1 Ed).
    + exact (st_blocks _ H s1 s2 x1 x2 F1 F2 Ed).
  - apply (st_buffer _ H).
  - intros s' b Ha. destruct (st_attached _ H s' b Ha) as [x E]. cbn. rewrite alter_eq, E. destruct (decide _); eexists; reflexivity.
  - apply (st_viewing _ H).
Qed.

Lemma storeOf_attached w s b store : attached w s b -> stores w !! s = Some store -> storeOf w b = Some store.
Proof. intros (buffer & Eb & Es) E. unfold storeOf. rewrite Eb, Es. exact E. Qed.

Lemma attached_of w b : (exists s store, attached w s b /\ stores w !! s = Some store /\ storeOf w b = Some store) \/ storeOf w b = None.
Proof.
  destruct (storeOf w b) as [store|] eqn:E; [left|right; reflexivity]. unfold storeOf in E.
  destruct (buffers w !! b) as [buffer|] eqn:Eb; [|discriminate]. destruct (m_backingStore buffer) as [s|] eqn:Es; [|discriminate].
  exists s, store. split; [exists buffer; auto|auto].
Qed.

Lemma storeOf_changed w m s f b : (forall store, attached w s b -> stores w !! s = Some store ->
    storeOf (changedStore w m s f) b = Some (f store)) /\
  (~ attached w s b -> storeOf (changedStore w m s f) b = storeOf w b).
Proof.
  split.
  - intros store Ha E. apply (storeOf_attached _ s); [exact Ha|]. cbn. rewrite alter_eq, decide_True, E by reflexivity. reflexivity.
  - intros Hn. unfold storeOf. cbn. destruct (buffers w !! b) as [buffer|] eqn:Eb; [|reflexivity].
    destruct (m_backingStore buffer) as [s'|] eqn:Es; [|reflexivity]. rewrite alter_eq. rewrite decide_False; [reflexivity|].
    intros ->. apply Hn. exists buffer. auto.
Qed.

(** Which worlds a change of a store leads to: the same objects, with the same links between them. *)
Definition same_links (w w' : World) : Prop :=
  buffers w' = buffers w /\ List.length (stores w') = List.length (stores w) /\
  List.length (views w') = List.length (views w) /\ (forall v, option_Forall2 narrower (views w !! v) (views w' !! v)).

(** The observers of the store are told. *)
Lemma storeUpdated_inv w m s f store : Inv w -> stores w !! s = Some store ->
  storeObservers (f store) = storeObservers store -> bytes_ok m (f store) -> others_keep w m s ->
  (forall s' store', s' <> s -> stores w !! s' = Some store' -> m_data store' <> m_data (f store)) ->
  let w' := storeUpdated s (changedStore w m s f) in
  Inv w' /\ memory w' = m /\ stores w' = alter f s (stores w) /\ same_links w w'.
Proof.
  intros Hi Es Ho Hb Hk Hd. pose proof (inv_structure _ Hi) as H. set (w1 := changedStore w m s f). cbv zeta.
  assert (H1 : Structure w1) by (apply (changedStore_structure w m s f store); assumption).
  assert (Es1 : stores w1 !! s = Some (f store)) by (cbn; rewrite alter_eq, decide_True, Es by reflexivity; reflexivity).
  destruct (st_store _ H1 s _ Es1) as [(_ & Hnd & Hobs) _].
  destruct Hb as (bytes & Em & Hlim & Hlen & _).
  unfold storeUpdated. rewrite Es1. set (items := m_observerItems _) in *. set (n := m_storeLength (f store)) in *.
  destruct (notifyBuffers_spec items (Some (m_data (f store))) n w1 Hnd (structure_buffers w1 H1)) as (F1 & F2 & F3 & F4).
  set (w2 := notifyBuffers _ _ _ _) in *. change (fold_left _ items w1) with w2.
  assert (Ed : forall b, dataOf w2 b = dataOf w1 b) by (intros b; apply dataOf_same; assumption).
  assert (Ec : forall b, capacityOf w2 b = capacityOf w1 b) by (intros b; apply capacityOf_same; [exact F1|apply Ed]).
  split; [|split; [exact F1|split; [exact F2|]]].
  - split.
    + apply (structure_views w1 w2 (viewsUpdate (somes items) (Some (m_data (f store))) n)); try assumption.
      intros view. unfold viewsUpdate. destruct (m_buffer view) as [b|] eqn:Eb; [|exact Eb].
      destruct (decide _); [rewrite m_buffer_observer|]; exact Eb.
    + apply (views_notified w w1 w2 (somes items) (Some (m_data (f store))) n); try assumption; try reflexivity; [apply Hi|lia| | |apply H].
      * intros b Hin. apply Hobs in Hin. destruct (storeOf_changed w m s f b) as [Hat _]. specialize (Hat store Hin Es).
        rewrite Ed, Ec. fold w1 in Hat. unfold capacityOf, dataOf. rewrite Hat. cbn. split; [reflexivity|].
        unfold blockSize. cbn. rewrite Em. cbn. lia.
      * intros b Hnin _. assert (Hna : ~ attached w s b) by (intros Ha; apply Hnin, Hobs, Ha).
        destruct (storeOf_changed w m s f b) as [_ Hsame]. specialize (Hsame Hna). fold w1 in Hsame.
        assert (E : dataOf w1 b = dataOf w b) by (unfold dataOf; rewrite Hsame; reflexivity).
        rewrite Ed, Ec. split; [exact E|]. unfold capacityOf. rewrite E. unfold dataOf.
        destruct (attached_of w b) as [(s' & x & Ha & Ex & ->)| ->]; [|cbn; lia]. cbn.
        unfold blockSize. cbn. rewrite (Hk s' x); [lia| |exact Ex]. intros ->. contradiction.
  - split; [exact F3|]. split; [rewrite F2; apply length_alter|].
    assert (Hf : forall v, option_Forall2 narrower (views w !! v) (views w2 !! v)).
    { intros v. rewrite F4. cbn. destruct (views w !! v) as [view|]; [|constructor]. cbn. constructor. unfold viewsUpdate.
      destruct (m_buffer view) as [b|] eqn:Em'; [|apply narrower_refl].
      destruct (decide _); [exact (narrower_observer _ _ _ _ Em')|apply narrower_refl]. }
    split; [|exact Hf].
    apply Nat.le_antisymm; apply Nat.le_ngt; intros Hlt.
    + destruct (lookup_lt_is_Some_2 _ _ Hlt) as [x Hx]. specialize (Hf (List.length (views w))). rewrite Hx in Hf.
      rewrite (lookup_ge_None_2 (views w)) in Hf by lia. inversion Hf.
    + destruct (lookup_lt_is_Some_2 _ _ Hlt) as [x Hx]. specialize (Hf (List.length (views w2))). rewrite Hx in Hf.
      rewrite (lookup_ge_None_2 (views w2)) in Hf by lia. inversion Hf.
Qed.

(** ** What scripts cannot undo

    Objects stay, a view keeps its buffer and its start (or loses it), a buffer keeps its store or loses it, and
    a store keeps its block.  A view without a buffer is still being made, and scripts do not see it. *)

Record descends_on (P : nat -> Prop) (w w' : World) : Prop := {
  d_store : forall s store, stores w !! s = Some store -> exists store', stores w' !! s = Some store' /\
    m_data store' = m_data store /\ m_isResizable store' = m_isResizable store /\ m_maxByteLength store' = m_maxByteLength store;
  d_block : forall block bytes, memory w !! block = Some (Some bytes) ->
    exists bytes', memory w' !! block = Some (Some bytes') /\ List.length bytes' = List.length bytes;
  d_buffer : forall b buffer, P b -> buffers w !! b = Some buffer -> exists buffer', buffers w' !! b = Some buffer' /\
    (m_backingStore buffer' = m_backingStore buffer \/ m_backingStore buffer' = None);
  d_view : forall v view, views w !! v = Some view -> exists view', views w' !! v = Some view' /\
    viewKind view' = viewKind view /\ (forall b, m_buffer view = Some b -> m_buffer view' = Some b /\
      (m_byteOffset view' = m_byteOffset view \/ m_byteOffset view' = 0)) /\ (m_buffer view = None -> view' = view)
}.

Definition descends : World -> World -> Prop := descends_on (fun _ => True).

Lemma descends_refl w : descends w w.
Proof. split; eauto 9. Qed.

Lemma descends_on_trans P w w' w'' : descends_on P w w' -> descends_on P w' w'' -> descends_on P w w''.
Proof.
  intros [A B C D] [A' B' C' D']. split.
  - intros s x E. destruct (A s x E) as (y & Ey & ? & ? & ?). destruct (A' s y Ey) as (z & Ez & ? & ? & ?).
    exists z. repeat split; congruence.
  - intros k x E. destruct (B k x E) as (y & Ey & ?). destruct (B' k y Ey) as (z & Ez & ?). exists z. split; congruence.
  - intros b x HP E. destruct (C b x HP E) as (y & Ey & Hy). destruct (C' b y HP Ey) as (z & Ez & Hz). exists z. split; [exact Ez|].
    destruct Hz as [->|?]; auto.
  - intros v x E. destruct (D v x E) as (y & Ey & ? & Hy & Hn). destruct (D' v y Ey) as (z & Ez & ? & Hz & Hn'). exists z.
    split; [exact Ez|]. split; [congruence|]. split; [|intros Hx; rewrite (Hn' ltac:(rewrite (Hn Hx); exact Hx)); exact (Hn Hx)]. intros b Hb. destruct (Hy b Hb) as [Hb' Ho]. destruct (Hz b Hb') as [Hb'' Ho'].
    split; [exact Hb''|]. destruct Ho', Ho; intuition congruence.
Qed.

Lemma descends_trans w w' w'' : descends w w' -> descends w' w'' -> descends w w''.
Proof. apply descends_on_trans. Qed.

Lemma descends_weaken (P : nat -> Prop) w w' : descends w w' -> descends_on P w w'.
Proof. intros [A B C D]. split; auto. Qed.

(** The same links, the same blocks up to their bytes, and stores that only changed their length. *)
Lemma descends_links w w' : same_links w w' ->
  (forall s store, stores w !! s = Some store -> exists store', stores w' !! s = Some store' /\
    m_data store' = m_data store /\ m_isResizable store' = m_isResizable store /\ m_maxByteLength store' = m_maxByteLength store) ->
  (forall block bytes, memory w !! block = Some (Some bytes) ->
    exists bytes', memory w' !! block = Some (Some bytes') /\ List.length bytes' = List.length bytes) ->
  descends w w'.
Proof.
  intros (Eb & _ & _ & Hf) Hs Hm. split; [exact Hs|exact Hm| |].
  - intros b buffer _ E. exists buffer. rewrite Eb. auto.
  - intros v view E. specialize (Hf v). rewrite E in Hf. inversion Hf as [? view' (Hn & Ho & Hnone)|]; subst.
    injection Hn as Hk Hb. exists view'. split; [reflexivity|]. split; [exact Hk|]. split; [|exact Hnone]. split; [congruence|exact Ho].
Qed.

Lemma splice_length bytes at_ l : (at_ + List.length l <= List.length bytes)%nat -> List.length (splice bytes at_ l) = List.length bytes.
Proof. intros H. unfold splice. rewrite !length_app, length_take, length_drop. lia. Qed.

(** ** Writing *)

Lemma writeBlock_spec block offset l bytes w (X : Error -> World -> Prop) :
  Inv w -> memory w !! block = Some (Some bytes) -> 0 <= offset -> offset + Z.of_nat (List.length l) <= Z.of_nat (List.length bytes) ->
  wp (writeBlock block offset l) w (fun _ w' =>
    w' = setMemory w (<[block := Some (splice bytes (Z.to_nat offset) l)]> (memory w)) /\ Inv w' /\ descends w w') X.
Proof.
  intros Hi Em H0 Hl. unfold writeBlock, inRange. apply wp_bind, wp_get. rewrite Em.
  rewrite (proj2 (Z.leb_le 0 offset)), (proj2 (Z.leb_le _ _)) by lia. cbn [andb]. apply wp_modify.
  split; [reflexivity|]. set (new := splice _ _ _). set (m := <[block := Some new]> (memory w)).
  assert (Ln : List.length new = List.length bytes) by (apply splice_length; lia).
  assert (Hlt : (block < List.length (memory w))%nat) by (apply lookup_lt_Some in Em; exact Em).
  assert (Hm : forall k x, memory w !! k = Some (Some x) -> exists x', m !! k = Some (Some x') /\ List.length x' = List.length x).
  { intros k x E. unfold m. destruct (decide (block = k)) as [<-|Hne].
    - rewrite list_lookup_insert_eq by exact Hlt. exists new. split; [reflexivity|congruence].
    - rewrite list_lookup_insert_ne by exact Hne. exists x. auto. }
  split; [|apply descends_links; [repeat split; intros v; apply narrower_same|eauto 6|exact Hm]].
  destruct Hi as [[A B C D E] Hv]. split.
  - split; try assumption. intros s store Es. destruct (A s store Es) as [Ho (x & Ex & Hx)]. split; [exact Ho|].
    destruct (Hm _ _ Ex) as (x' & Ex' & Hlx). exists x'. rewrite Hlx. auto.
  - intros v view Ev. apply (view_ok_memory w); try reflexivity; [|exact (Hv v view Ev)].
    intros k. unfold blockSize. cbn. unfold m. destruct (decide (block = k)) as [<-|Hne].
    + rewrite list_lookup_insert_eq, Em by exact Hlt. cbn. lia.
    + rewrite list_lookup_insert_ne by exact Hne. lia.
Qed.

(** ** Resizing *)

Lemma resize_spec s n store w (X : Error -> World -> Prop) :
  Inv w -> stores w !! s = Some store -> m_isResizable store = true -> 0 <= n <= m_maxByteLength store ->
  wp (resize s n) w (fun _ w' => Inv w' /\ descends w w' /\ stores w' = alter (fun store => setStoreLength store n) s (stores w) /\
    exists bytes, memory w !! m_data store = Some (Some bytes) /\
      memory w' = <[m_data store := Some (if m_storeLength store <? n
         then splice bytes (Z.to_nat (m_storeLength store)) (replicate (Z.to_nat (n - m_storeLength store)) 0) else bytes)]> (memory w)) X.
Proof.
  intros Hi Es Hr Hn. pose proof (inv_structure _ Hi) as H. destruct (st_store _ H s store Es) as [_ (bytes & Em & Hlim & Hlen & Hres)].
  specialize (Hres Hr). assert (Hlt : (m_data store < List.length (memory w))%nat) by (apply lookup_lt_Some in Em; exact Em).
  assert (Hend : forall new, List.length new = List.length bytes ->
    let w' := storeUpdated s (changedStore w (<[m_data store := Some new]> (memory w)) s (fun store => setStoreLength store n)) in
    Inv w' /\ descends w w' /\ stores w' = alter (fun store => setStoreLength store n) s (stores w) /\
    memory w' = <[m_data store := Some new]> (memory w)).
  { intros new Hnew. cbv zeta. set (f := fun store => setStoreLength store n).
    destruct (storeUpdated_inv w (<[m_data store := Some new]> (memory w)) s f store Hi Es) as (H1 & H2 & H3 & H4); try reflexivity.
    - exists new. cbn. rewrite list_lookup_insert_eq by exact Hlt. repeat split; lia.
    - intros s' x Hne Ex. apply list_lookup_insert_ne. intros Ed. apply Hne, (st_blocks _ H s' s x store Ex Es). congruence.
    - intros s' x Hne Ex Ed. apply Hne, (st_blocks _ H s' s x store Ex Es Ed).
    - split; [exact H1|]. split; [|auto]. apply descends_links; [exact H4| |].
      + intros s' x Ex. rewrite H3, alter_eq. destruct (decide (s = s')); [rewrite Ex; exists (f x)|exists x]; auto.
      + intros k x Ex. rewrite H2. destruct (decide (m_data store = k)) as [<-|Hne].
        * rewrite list_lookup_insert_eq by exact Hlt. exists new. split; [reflexivity|congruence].
        * rewrite list_lookup_insert_ne by exact Hne. exists x. auto. }
  unfold resize. apply wp_bind. eapply wp_theStore; [exact Es|]. apply wp_bind. destruct (Z.ltb_spec (m_storeLength store) n) as [Hg|Hg].
  - set (zeros := replicate _ 0). assert (Lz : Z.of_nat (List.length zeros) = n - m_storeLength store) by (unfold zeros; rewrite length_replicate; lia).
    eapply wp_mono; [apply (writeBlock_spec (m_data store) (m_storeLength store) zeros bytes w X); (assumption || lia)| |auto].
    intros _ w1 (-> & _). apply wp_bind, wp_modify, wp_modify.
    destruct (Hend (splice bytes (Z.to_nat (m_storeLength store)) zeros)) as (H1 & H2 & H3 & H4); [apply splice_length; lia|].
    split; [exact H1|]. split; [exact H2|]. split; [exact H3|]. exists bytes. auto.
  - apply wp_ret, wp_bind, wp_modify, wp_modify.
    destruct (Hend bytes eq_refl) as (H1 & H2 & H3 & H4).
    assert (Eid : <[m_data store := Some bytes]> (memory w) = memory w) by (apply list_insert_id, Em).
    rewrite Eid in *. split; [exact H1|]. split; [exact H2|]. split; [exact H3|]. exists bytes. split; [exact Em|]. rewrite Eid. exact H4.
Qed.

(** ** Allocating *)

Lemma blocks_bounded w s store : Structure w -> stores w !! s = Some store -> (m_data store < List.length (memory w))%nat.
Proof. intros H Es. destruct (st_store _ H s store Es) as [_ (bytes & Em & _)]. apply lookup_lt_Some in Em. exact Em. Qed.

(** A new block and a new store for it. *)
Lemma newStore_spec w bytes n max platform resizable (X : Error -> World -> Prop) :
  Inv w -> Z.of_nat (List.length bytes) < sizeLimit -> 0 <= n <= Z.of_nat (List.length bytes) ->
  (resizable = true -> n <= max <= Z.of_nat (List.length bytes)) ->
  wp (newStore (mkStore (List.length (memory w)) n max platform resizable noObservers)) (extendMemory w bytes)
     (fun s w' => s = List.length (stores w) /\ Inv w' /\ descends w w' /\
        memory w' = memory w ++ [Some bytes] /\ buffers w' = buffers w /\ views w' = views w /\
        stores w' !! s = Some (mkStore (List.length (memory w)) n max platform resizable noObservers)) X.
Proof.
  intros Hi Hlim Hn Hr. unfold newStore. apply wp_bind, wp_get, wp_bind, wp_modify, wp_ret. split; [reflexivity|]. split.
  - apply (newStore_inv _ _ bytes); try assumption; [apply extendMemory_inv, Hi| |reflexivity|].
    + cbn. rewrite lookup_app_r, Nat.sub_diag by lia. reflexivity.
    + intros s store Es Ed. pose proof (blocks_bounded w s store (inv_structure _ Hi) Es). cbn in Ed. lia.
  - split; [|repeat split; cbn; rewrite lookup_app_r, Nat.sub_diag by lia; reflexivity]. split; cbn.
    + intros s store Es. exists store. rewrite lookup_app_l by (apply lookup_lt_Some in Es; exact Es). auto.
    + intros k x E. exists x. rewrite lookup_app_l by (apply lookup_lt_Some in E; exact E). auto.
    + eauto.
    + eauto 9.
Qed.

Definition freshStore (w : World) (bytes : list Z) (n max : Z) (platform resizable : bool) (s : nat) (w' : World) : Prop :=
  s = List.length (stores w) /\ Inv w' /\ descends w w' /\
  memory w' = memory w ++ [Some bytes] /\ buffers w' = buffers w /\ views w' = views w /\
  stores w' !! s = Some (mkStore (List.length (memory w)) n max platform resizable noObservers).

Lemma zeros_length n : 0 <= n -> Z.of_nat (List.length (replicate (Z.to_nat n) 0)) = n.
Proof. intros H. rewrite length_replicate. lia. Qed.

Lemma createDefault_spec w n (X : Error -> World -> Prop) : Inv w -> 0 <= n < sizeLimit ->
  wp (createDefaultNonSharedBackingStore n) w (freshStore w (replicate (Z.to_nat n) 0) n 0 true false) X.
Proof.
  intros Hi Hn. unfold createDefaultNonSharedBackingStore, platformMalloc. apply wp_bind, wp_bind, wp_get, wp_bind, wp_modify, wp_ret.
  apply newStore_spec; [exact Hi|rewrite zeros_length; lia|rewrite zeros_length; lia|discriminate].
Qed.

Lemma createResizable_spec w n max (X : Error -> World -> Prop) : Inv w -> 0 <= n <= max -> max < sizeLimit ->
  wp (createDefaultResizableNonSharedBackingStore n max) w (freshStore w (replicate (Z.to_nat max) 0) n max true true) X.
Proof.
  intros Hi Hn Hm. unfold createDefaultResizableNonSharedBackingStore, platformMalloc.
  apply wp_bind, wp_bind, wp_get, wp_bind, wp_modify, wp_ret.
  apply newStore_spec; [exact Hi|rewrite zeros_length; lia|rewrite zeros_length; lia|intros _; rewrite zeros_length; lia].
Qed.

Lemma createNonShared_spec w bytes (X : Error -> World -> Prop) : Inv w -> Z.of_nat (List.length bytes) < sizeLimit ->
  wp (createNonSharedBackingStore bytes) w (freshStore w bytes (Z.of_nat (List.length bytes)) 0 false false) X.
Proof.
  intros Hi Hn. unfold createNonSharedBackingStore. apply wp_bind, wp_get. cbv zeta. apply wp_bind, wp_modify.
  apply newStore_spec; [exact Hi|exact Hn|lia|discriminate].
Qed.

Lemma newBuffer_descends w : descends w (setBuffers w (buffers w ++ [mkBuffer None noObservers])).
Proof.
  split; cbn; eauto 9. intros b buffer _ E. exists buffer. rewrite lookup_app_l by (apply lookup_lt_Some in E; exact E). auto.
Qed.

Lemma newView_descends w kind : descends w (setViews w (views w ++ [mkView kind None None 0 0 0 false])).
Proof.
  split; cbn; eauto 9. intros v view E. exists view. rewrite lookup_app_l by (apply lookup_lt_Some in E; exact E). auto 9.
Qed.

(** Operations on one buffer. *)
Lemma same_but_descends b P w w' : same_world_but b w w' ->
  (forall buffer, P b -> buffers w !! b = Some buffer -> exists buffer', buffers w' !! b = Some buffer' /\
     (m_backingStore buffer' = m_backingStore buffer \/ m_backingStore buffer' = None)) -> descends_on P w w'.
Proof.
  intros (Em & Es & _ & _ & Eb & _ & Ev) Hb. split.
  - intros s store E. specialize (Es s). rewrite E in Es. destruct (stores w' !! s) as [store'|]; [|discriminate].
    injection Es as ? ? ? ? ?. exists store'. auto.
  - intros k x E. rewrite Em. eauto.
  - intros b' buffer HP E. destruct (decide (b' = b)) as [->|Hne]; [exact (Hb buffer HP E)|].
    exists buffer. rewrite Eb by exact Hne. auto.
  - intros v view E. specialize (Ev v). rewrite E in Ev. inversion Ev as [? view' (Hn & Ho & Hnone)|]; subst.
    injection Hn as Hk Hb'. exists view'. split; [reflexivity|]. split; [exact Hk|]. split; [|exact Hnone]. split; [congruence|exact Ho].
Qed.

Lemma detached_descends b w w' : detached b w w' -> descends w w'.
Proof. intros [Hs Hb]. apply (same_but_descends b); [exact Hs|]. intros buffer _ E. eexists. split; [exact (Hb buffer E)|right; reflexivity]. Qed.

(** What happens to a buffer that is not of [w] does not matter to [w]. *)
Lemma descends_new_buffer w w' : descends_on (fun b => b <> List.length (buffers w)) w w' -> descends w w'.
Proof.
  intros [A B C D]. split; auto. intros b buffer _ E. apply C; [|exact E]. apply lookup_lt_Some in E. lia.
Qed.

(** [b] has a store of its own, with [bytes] in a new block. *)
Definition allocated (b : nat) (w : World) (bytes : list Z) (n : Z) (w' : World) : Prop :=
  Inv w' /\ descends_on (fun b' => b' <> b) w w' /\ List.length (buffers w') = List.length (buffers w) /\
  memory w' = memory w ++ [Some bytes] /\
  (exists store, storeOf w' b = Some store /\ m_data store = List.length (memory w) /\ m_storeLength store = n).

(** [detachArrayBuffer], a new store, [updateBackingStore]. *)
Lemma allocate_spec b (create : WM nat) w bytes n max platform resizable (X : Error -> World -> Prop) :
  Inv w -> is_Some (buffers w !! b) ->
  (forall w1, Inv w1 -> wp create w1 (freshStore w1 bytes n max platform resizable) X) ->
  wp (bind (detachArrayBuffer b) (fun _ => bind create (fun s => updateBackingStore b (Some s)))) w
     (fun _ w' => allocated b w bytes n w') X.
Proof.
  intros Hi Hb Hc. apply wp_bind. eapply wp_mono; [apply (detachArrayBuffer_spec b w X Hi Hb)| |auto].
  intros _ w1 (Hi1 & [Hsame1 Hb1]). apply wp_bind. eapply wp_mono; [exact (Hc w1 Hi1)| |auto].
  intros s w2 (_ & Hi2 & Hd2 & Em2 & Eb2 & _ & Es2). destruct Hb as [buffer Eb]. specialize (Hb1 buffer Eb). rewrite <- Eb2 in Hb1.
  eapply wp_mono; [apply (attach_spec b s _ _ w2 X Hi2 Hb1 eq_refl Es2)| |auto].
  intros _ w3 (Hi3 & [Hsame3 Hb3]). specialize (Hb3 _ Hb1).
  assert (D1 : descends_on (fun b' => b' <> b) w w1) by (apply (same_but_descends b); [exact Hsame1|congruence]).
  assert (D3 : descends_on (fun b' => b' <> b) w2 w3) by (apply (same_but_descends b); [exact Hsame3|congruence]).
  destruct Hsame1 as (M1 & S1 & L1 & B1 & _). destruct Hsame3 as (M3 & S3 & L3 & B3 & _).
  split; [exact Hi3|]. split; [exact (descends_on_trans _ _ _ _ (descends_on_trans _ _ _ _ D1 (descends_weaken _ _ _ Hd2)) D3)|].
  split; [rewrite B3, Eb2, B1; reflexivity|]. split; [rewrite M3, Em2, M1; reflexivity|].
  specialize (S3 s). rewrite Es2 in S3. destruct (stores w3 !! s) as [store|] eqn:E3; [|discriminate]. injection S3 as E ? ? ? ?.
  exists store. split; [unfold storeOf; rewrite Hb3; exact E3|]. split; [rewrite E, M1; reflexivity|assumption].
Qed.

(** A new array buffer, or a RangeError. *)
Definition newArrayBuffer (w : World) (bytes : list Z) (n : Z) (b : nat) (w' : World) : Prop :=
  b = List.length (buffers w) /\ Inv w' /\ descends w w' /\ memory w' = memory w ++ [Some bytes] /\
  exists store, storeOf w' b = Some store /\ m_data store = List.length (memory w) /\ m_storeLength store = n.

Lemma allocateArrayBuffer_spec n max w : Inv w -> 0 <= n -> (forall m, max = Some m -> n <= m) ->
  wp (allocateArrayBuffer n max) w
     (fun b w' => newArrayBuffer w (replicate (Z.to_nat (default n max)) 0) n b w' /\ n < maxArrayBufferSize)
     (fun e w' => e = RangeError /\ Inv w' /\ descends w w').
Proof.
  intros Hi Hn Hm. unfold allocateArrayBuffer, newBuffer.
  destruct (Z.leb_spec maxArrayBufferSize n) as [Hbig|Hsmall]; [apply wp_throw; auto using descends_refl|].
  apply wp_bind, wp_bind, wp_get, wp_bind, wp_modify, wp_ret. set (w1 := setBuffers w _). set (b := List.length (buffers w)).
  assert (Hi1 : Inv w1) by apply newBuffer_inv, Hi. assert (Hd1 : descends w w1) by apply newBuffer_descends.
  assert (Hb1 : is_Some (buffers w1 !! b)) by (exists (mkBuffer None noObservers); cbn; rewrite lookup_app_r, Nat.sub_diag by lia; reflexivity).
  assert (Hend : forall bytes w', allocated b w1 bytes n w' -> newArrayBuffer w bytes n b w').
  { intros bytes w' (Hi' & Hd' & _ & Em & Hs). split; [reflexivity|]. split; [exact Hi'|]. split; [|split; [exact Em|exact Hs]].
    apply descends_new_buffer. exact (descends_on_trans _ _ _ _ (descends_weaken _ _ _ Hd1) Hd'). }
  unfold maxArrayBufferSize in *. destruct max as [m|]; cbn [default].
  - destruct (Z.leb_spec 210000000 m); [apply wp_throw; auto|]. specialize (Hm m eq_refl). apply wp_bind.
    eapply wp_mono; [apply (allocate_spec b _ w1 (replicate (Z.to_nat m) 0) n m true true); [exact Hi1|exact Hb1|]| |exact (fun _ _ H => H)].
    + intros w2 Hi2. apply createResizable_spec; [exact Hi2|lia|unfold sizeLimit; lia].
    + intros [] w' H'. apply wp_ret. split; [apply Hend, H'|assumption].
  - apply wp_bind. eapply wp_mono; [apply (allocate_spec b _ w1 (replicate (Z.to_nat n) 0) n 0 true false); [exact Hi1|exact Hb1|]| |exact (fun _ _ H => H)].
    + intros w2 Hi2. apply createDefault_spec; [exact Hi2|unfold sizeLimit; lia].
    + intros [] w' H'. apply wp_ret. split; [apply Hend, H'|assumption].
Qed.

(** ** Giving a view its buffer *)

Definition viewOn (kind : ViewKind) (b : nat) (data : option nat) (off len n : Z) (auto : bool) : ArrayBufferView :=
  mkView kind (Some b) (cachedAddress data off) len off n auto.

(** The world with the view [v] on the buffer [b]. *)
Definition viewed (w : World) (v b : nat) (view : ArrayBufferView) : World :=
  mkWorld (memory w) (stores w)
    (alter (fun buffer => setBufferObservers buffer (addObserver (bufferObservers buffer) v)) b (buffers w))
    (alter (fun _ => view) v (views w)).

Lemma viewed_data w v b view b' : dataOf (viewed w v b view) b' = dataOf w b'.
Proof.
  unfold dataOf, storeOf. cbn. rewrite alter_eq. destruct (decide (b = b')), (buffers w !! b'); reflexivity.
Qed.

Lemma viewed_inv w v b buffer old view : Inv w -> views w !! v = Some old -> m_buffer old = None ->
  buffers w !! b = Some buffer -> m_buffer view = Some b -> view_ok w view -> Inv (viewed w v b view).
Proof.
  intros [H Hv] Ev En Eb Hb Hok.
  assert (Hattached : forall s x, attached (viewed w v b view) s x <-> attached w s x).
  { intros s x. unfold attached. cbn. rewrite alter_eq. destruct (decide (b = x)) as [<-|]; [|reflexivity]. rewrite Eb. cbn.
    split; intros (y & [= <-] & E); eexists; split; eauto. }
  assert (Hviewing : forall b' x, viewing (viewed w v b view) b' x <-> (x = v /\ b' = b) \/ viewing w b' x).
  { intros b' x. unfold viewing. cbn. rewrite alter_eq. destruct (decide (v = x)) as [<-|Hne].
    - rewrite Ev. cbn. split; [intros (y & [= <-] & E); left; split; congruence|].
      intros [[_ ->]|(y & [= <-] & E)]; [exists view; auto|congruence].
    - split; [auto|]. intros [[-> _]|E]; [congruence|exact E]. }
  assert (Hnot : forall b', ~ viewing w b' v) by (intros b' (y & Ey & E); congruence).
  split.
  - split.
    + intros s store E. destruct (st_store _ H s store E) as [Ho Hm]. split; [|exact Hm].
      eapply observed_ext; [|exact Ho]. intros x. symmetry. apply Hattached.
    + apply H.
    + intros b' buffer' E. cbn in E. rewrite alter_eq in E. destruct (decide (b = b')) as [<-|Hne].
      * rewrite Eb in E. injection E as <-. cbn. eapply observed_ext; [|exact (observed_add _ _ v (st_buffer _ H b buffer Eb) (Hnot b))].
        intros x. rewrite Hviewing. tauto.
      * eapply observed_ext; [|exact (st_buffer _ H b' buffer' E)]. intros x. rewrite Hviewing. split; [auto|].
        intros [[_ ->]|Hx]; [congruence|exact Hx].
    + intros s x Hx. apply (st_attached _ H s x), Hattached, Hx.
    + intros b' x Hx. cbn. rewrite alter_eq. apply Hviewing in Hx as [[_ ->]|Hx].
      * rewrite decide_True, Eb by reflexivity. eexists. reflexivity.
      * destruct (st_viewing _ H b' x Hx) as [y Ey]. rewrite Ey. destruct (decide _); eexists; reflexivity.
  - assert (Hf : forall x, view_ok w x -> view_ok (viewed w v b view) x).
    { intros x. apply view_ok_frame. intros b' _. pose proof (viewed_data w v b view b') as Ed. split; [exact Ed|].
      rewrite (capacityOf_same w (viewed w v b view) b' eq_refl Ed). lia. }
    intros v' x E. cbn in E. rewrite alter_eq in E. destruct (decide (v = v')) as [<-|Hne].
    + rewrite Ev in E. injection E as <-. apply Hf, Hok.
    + apply Hf, (Hv v' x E).
Qed.

(** Nothing that [w0] has is touched when [v] is newer. *)
Lemma viewed_descends w0 w v b view : descends w0 w -> (List.length (views w0) <= v)%nat ->
  descends w0 (viewed w v b view).
Proof.
  intros [A B C D] Hv. split; cbn; [exact A|exact B| |].
  - intros b' buffer Hp E. destruct (C b' buffer Hp E) as (y & Ey & Hy). rewrite alter_eq, Ey.
    destruct (decide (b = b')); eexists; (split; [reflexivity|exact Hy]).
  - intros v' x E. pose proof (lookup_lt_Some _ _ _ E) as Hlt. rewrite alter_eq, decide_False by lia. exact (D v' x E).
Qed.

Definition shapedAs (kind : ViewKind) (off len n : Z) (auto : bool) : Prop :=
  0 <= off /\ 0 <= len /\ 0 <= n /\
  match kind with
  | TypedArrayObject type => n * elementSize type <= len
  | DataViewObject => n = 0 /\ auto = false
  end.

Lemma setBuffer_spec v b old buffer off len n auto w (X : Error -> World -> Prop) :
  Inv w -> views w !! v = Some old -> m_buffer old = None -> buffers w !! b = Some buffer ->
  shapedAs (viewKind old) off len n auto -> off + len < sizeLimit -> (is_Some (dataOf w b) -> off + len <= capacityOf w b) ->
  wp (setBuffer v (Some b) off len n auto) w (fun _ w' =>
    Inv w' /\ (forall w0, descends w0 w -> (List.length (views w0) <= v)%nat -> descends w0 w') /\ w' = viewed w v b (viewOn (viewKind old) b (dataOf w b) off len n auto)) X.
Proof.
  intros Hi Ev En Eb (Ho & Hl & Hn & Hk) Hlim Hc. unfold setBuffer. apply wp_bind. eapply wp_theView; [exact Ev|]. rewrite En.
  apply wp_bind, wp_ret, wp_bind, wp_gets, wp_bind, wp_modify, wp_modify.
  assert (E : updateBuffer b (fun buffer => setBufferObservers buffer (addObserver (bufferObservers buffer) v))
       (updateView v (fun view => mkView (viewKind view) (Some b) (cachedAddress (dataOf w b) off) len off n auto) w)
     = viewed w v b (viewOn (viewKind old) b (dataOf w b) off len n auto)).
  { unfold updateBuffer, updateView, viewed, viewOn, setBuffers, setViews. cbn [memory stores buffers views]. f_equal. apply list_eq. intros i. rewrite !alter_eq.
    destruct (decide (v = i)) as [<-|]; [rewrite Ev|]; reflexivity. }
  rewrite E. split; [|split; [|reflexivity]].
  - apply (viewed_inv w v b buffer old); try assumption; [reflexivity|]. split; [|split; [reflexivity|exact Hc]].
    exact (conj Ho (conj Hl (conj Hn (conj Hlim Hk)))).
  - intros w0 Hd Hv. apply viewed_descends; assumption.
Qed.

(** ** Reallocating (the embedder's operation) *)

Lemma reallocate_spec s n store w (X : Error -> World -> Prop) :
  Inv w -> stores w !! s = Some store -> m_isResizable store = false -> 0 <= n < sizeLimit ->
  wp (reallocate s n) w (fun _ w' => Inv w' /\ same_links w w') X.
Proof.
  intros Hi Es Hr Hn. pose proof (inv_structure _ Hi) as H. destruct (st_store _ H s store Es) as [_ (bytes & Em & _)].
  assert (Hlt : (m_data store < List.length (memory w))%nat) by (apply lookup_lt_Some in Em; exact Em).
  unfold reallocate. apply wp_bind. eapply wp_theStore; [exact Es|].
  destruct (Z.eqb_spec (m_storeLength store) n) as [E|E]; [apply wp_ret; split; [exact Hi|repeat split; intros v; apply narrower_same]|].
  assert (Hend : forall new, List.length new = Z.to_nat n ->
    let m := <[m_data store := None]> (memory w) ++ [Some new] in
    let w' := storeUpdated s (changedStore w m s (fun store => setStoreData store (List.length (memory w)) n)) in
    Inv w' /\ same_links w w').
  { intros new Hnew. cbv zeta. set (m := _ ++ [Some new]). set (f := fun store => setStoreData store (List.length (memory w)) n).
    assert (Em' : m !! List.length (memory w) = Some (Some new))
      by (unfold m; rewrite lookup_app_r, length_insert, Nat.sub_diag by (rewrite length_insert; lia); reflexivity).
    destruct (storeUpdated_inv w m s f store Hi Es) as (H1 & _ & _ & H4); try (split; assumption); try reflexivity.
    - exists new. cbn. rewrite Hr, Hnew. split; [exact Em'|]. split; [lia|]. split; [lia|]. discriminate.
    - intros s' x Hne Ex. pose proof (blocks_bounded w s' x H Ex). unfold m. rewrite lookup_app_l by (rewrite length_insert; lia).
      apply list_lookup_insert_ne. intros Ed. apply Hne, (st_blocks _ H s' s x store Ex Es). congruence.
    - intros s' x Hne Ex Ed. pose proof (blocks_bounded w s' x H Ex). cbn in Ed. lia. }
  assert (Hlen : List.length (<[m_data store := @None (list Z)]> (memory w)) = List.length (memory w)) by apply length_insert.
  apply wp_bind. destruct (m_isAllocatedByPlatform store).
  - apply wp_bind. unfold platformRealloc, platformFree. apply wp_bind, wp_get. cbv zeta. apply wp_bind, wp_modify, wp_bind, wp_get, wp_bind, wp_modify, wp_ret.
    apply wp_modify, wp_modify. cbn [memory setMemory]. rewrite Hlen.
    apply (Hend (take (Z.to_nat n) (default [] (default None (memory w !! m_data store)) ++ replicate _ 0))).
    rewrite length_take, length_app, length_replicate. lia.
  - apply wp_bind. unfold platformMalloc, platformFree. apply wp_modify, wp_bind, wp_bind, wp_get, wp_bind, wp_modify, wp_ret.
    apply wp_modify, wp_modify. cbn [memory setMemory]. rewrite Hlen. apply (Hend (replicate (Z.to_nat n) 0)). apply length_replicate.
Qed.
