(* ===== verification/ArrayElement.v ===== *)
(** * Elements of typed arrays

    [runtime/TypedArrayInlines.h]: the conversion of a value to the element type (the adaptors), its
    bytes, and [getValueFromBuffer]/[setValueInBuffer] of [runtime/ArrayBufferObject.cpp].  The
    conversion of an object calls scripts, which are parameters.  The assertions of the last
    two compare with the length of the buffer; they are those of debug builds and are left out:
    what matters for memory is the block, which is not shorter. *)

From stdpp Require Import list.
From S2P Require Import Prelude Float64 Ieee754 Value ArrayBuffer.
Local Open Scope esc_scope.
Local Open Scope Z_scope.

#[global] Instance TypedArrayType_eq_dec : EqDecision TypedArrayType.
Proof. solve_decision. Defined.

(** ** Values *)

(** A double is its bit pattern; [OtherValue] is a string, a boolean, null, a symbol or an object. *)
Inductive JSValue :=
| Int32Value (i : Z)
| DoubleValue (d : Z)
| BigIntValue (z : Z)
| Undefined
| OtherValue (n : nat).

(** [Value(DoubleToIntConvertibleTestNeeds, d)]. *)
Definition valueOfDouble (d : Z) : JSValue :=
  let '(convertible, i) := isInt32ConvertibleDouble d in
  if convertible then Int32Value i
  else if Z.land d DoubleInvalidBeginning =? DoubleInvalidBeginning then DoubleValue quiet_NaN
  else DoubleValue d.

(** [Value(uint32_t)]. *)
Definition valueOfUnsigned (u : Z) : JSValue := if to_int32 u <? 0 then DoubleValue (of_integer u) else Int32Value (to_int32 u).

(** What [toNumber] (a double) and [toBigInt] make of the primitive value of an object, or what they throw. *)
Record Primitive := mkPrimitive { numberOf : Z + Error; bigIntOf : Z + Error }.

(** The engine outside of this component, scripts included. *)
Class Scripts := {
  userToPrimitive : nat -> WM Primitive;
  userPrototype : WM unit;                          (* [getPrototypeFromConstructor] *)
  userSpecies : nat -> WM unit;                     (* [speciesConstructor] of an array buffer *)
  userConstruct : nat -> Z -> WM (option nat);      (* [construct] of the species with a length: an array buffer, or another object *)
  userOption : nat -> WM JSValue;                   (* the property [maxByteLength] of an object *)
  userIterate : nat -> WM (option (list JSValue));  (* [iterableToList], when the object has an iterator *)
  userLength : nat -> WM Z;
  userGet : nat -> Z -> WM JSValue;
  undefinedCast : TypedArrayType -> Z -> Z          (* [static_cast] of a double out of the range of the type *)
}.

Section Elements.
Context `{Scripts}.

Definition orThrow (r : Z + Error) : WM Z := match r with inl z => ret z | inr e => throw e end.

Definition toNumber (v : JSValue) : WM Z :=
  match v with
  | Int32Value i => ret (of_integer i)
  | DoubleValue d => ret d
  | Undefined => ret quiet_NaN
  | BigIntValue _ => throw TypeError
  | OtherValue n => let! p := userToPrimitive n in orThrow (numberOf p)
  end.

Definition toBigInt (v : JSValue) : WM Z :=
  match v with
  | BigIntValue z => ret z
  | Int32Value _ | DoubleValue _ | Undefined => throw TypeError
  | OtherValue n => let! p := userToPrimitive n in orThrow (bigIntOf p)
  end.

(** Only its effects and errors are used. *)
Definition toNumeric (v : JSValue) : WM unit :=
  match v with
  | OtherValue n =>
    let! p := userToPrimitive n in
    match numberOf p, bigIntOf p with
    | inr e, inr _ => throw e
    | _, _ => ret tt
    end
  | _ => ret tt
  end.

(** An integral double, or an infinity. *)
Inductive Integer := Finite (z : Z) | PlusInfinity | MinusInfinity.

Definition integerOfDouble (d : Z) : Integer :=
  if isnan d then Finite 0
  else if isinf d then (if signbit d then MinusInfinity else PlusInfinity)
  else Finite (truncated d).

Definition toInteger (v : JSValue) : WM Integer :=
  match v with
  | Int32Value i => ret (Finite i)
  | _ => let! d := toNumber v in ret (integerOfDouble d)
  end.

Definition maximumLength : Z := 2 ^ 53 - 1.

(** [None]: [InvalidIndexValue]. *)
Definition indexOfInteger (n : Integer) : option Z :=
  match n with
  | Finite z => if (z <? 0) || negb (z =? Z.min (Z.max 0 z) maximumLength) then None else Some z
  | _ => None
  end.

Definition toIndex (v : JSValue) : WM (option Z) :=
  match v with
  | Int32Value i => if 0 <=? i then ret (Some i) else ret (indexOfInteger (Finite i))
  | Undefined => ret (Some 0)
  | _ => let! n := toInteger v in ret (indexOfInteger n)
  end.

(** ** The adaptors *)

(** [TypedArrayHelper::elementSizeTable]. *)
Definition elementSizeTable (type : TypedArrayType) : Z :=
  match type with
  | Int8 => 1 | Int16 => 2 | Int32 => 4 | Uint8 => 1 | Uint16 => 2 | Uint32 => 4 | Uint8Clamped => 1
  | Float32 => 4 | Float64 => 8 | BigInt64 => 8 | BigUint64 => 8
  end.

Definition isSignedType (type : TypedArrayType) : bool :=
  match type with Int8 | Int16 | Int32 | BigInt64 => true | _ => false end.

(** [static_cast] of an integer to the native type of an integral element. *)
Definition castInteger (type : TypedArrayType) (z : Z) : Z :=
  if isSignedType type then to_signed (8 * elementSizeTable type) z else to_unsigned (8 * elementSizeTable type) z.

(** [static_cast] of a double: truncated when that is in range. *)
Definition castDouble (type : TypedArrayType) (d : Z) : Z :=
  if negb (isinf d) && (castInteger type (truncated d) =? truncated d) then truncated d else undefinedCast type d.

(** [IntegralTypedArrayAdapter]. *)
Definition toNativeFromDouble (type : TypedArrayType) (d : Z) : Z :=
  let result := cast_int32 d in
  castInteger type (if feq (of_integer result) d then result else toInt32SlowCase d).

Definition toNativeIntegral (type : TypedArrayType) (v : JSValue) : WM Z :=
  match v with
  | Int32Value i => ret (castInteger type i)
  | DoubleValue d => ret (toNativeFromDouble type d)
  | _ => let! number := toNumber v in if isnan number then ret 0 else ret (castDouble type number)
  end.

(** [static_cast<float>] of a double; floats are bit patterns too. *)
Definition float32_of_double (d : Z) : Z :=
  let sign := if signbit d then 2 ^ 31 else 0 in
  if isnan d then sign + 0x7fc00000 + fractionField d / 2 ^ 29 mod 2 ^ 22
  else if isinf d then sign + 0x7f800000
  else
    (* a unit of the float, in units of [2 ^ -1074] *)
    let e := Z.max 925 (Z.log2 (magnitude d) - 23) in
    sign + Z.min 0x7f800000 ((e - 925) * 2 ^ 23 + round_even (magnitude d) (2 ^ e)).

(** The conversion back, which is exact. *)
Definition double_of_float32 (f : Z) : Z :=
  let sign := if 2 ^ 31 <=? f then 2 ^ 63 else 0 in
  let e := f / 2 ^ 23 mod 256 in
  let m := f mod 2 ^ 23 in
  if e =? 255 then (if m =? 0 then sign + infinity else sign + quiet_NaN + m mod 2 ^ 22 * 2 ^ 29)
  else if e =? 0 then
    (if m =? 0 then sign else sign + (874 + Z.log2 m) * 2 ^ 52 + (m * 2 ^ (52 - Z.log2 m) - 2 ^ 52))
  else sign + (e + 896) * 2 ^ 52 + m * 2 ^ 29.

(** [FloatTypedArrayAdaptor]. *)
Definition toNativeFloat (narrow : Z -> Z) (v : JSValue) : WM Z :=
  match v with
  | Int32Value i => ret (narrow (of_integer i))
  | DoubleValue d => ret (narrow d)
  | _ => let! number := toNumber v in ret (narrow number)
  end.

(** [Uint8ClampedAdaptor]. *)
Definition clampedFromDouble (d : Z) : Z :=
  if isnan d then 0
  else if scaled d <? 0 then 0
  else if 255 * 2 ^ 1074 <? scaled d then 255
  else to_unsigned 8 (round_even (scaled d) (2 ^ 1074)).

Definition toNativeClamped (v : JSValue) : WM Z :=
  match v with
  | Int32Value i => ret (if i <? 0 then 0 else if 255 <? i then 255 else to_unsigned 8 i)
  | DoubleValue d => ret (clampedFromDouble d)
  | _ => let! number := toNumber v in ret (clampedFromDouble number)
  end.

(** [BigIntegralArrayAdaptor]. *)
Definition toNativeBigInt (type : TypedArrayType) (v : JSValue) : WM Z :=
  let! z := toBigInt v in ret (castInteger type z).

Definition toNative (type : TypedArrayType) (v : JSValue) : WM Z :=
  match type with
  | Int8 | Int16 | Int32 | Uint8 | Uint16 | Uint32 => toNativeIntegral type v
  | Uint8Clamped => toNativeClamped v
  | Float32 => toNativeFloat float32_of_double v
  | Float64 => toNativeFloat (fun d => d) v
  | BigInt64 | BigUint64 => toNativeBigInt type v
  end.

(** ** Bytes *)

Fixpoint littleEndian (n : nat) (z : Z) : list Z :=
  match n with O => [] | S n => z mod 256 :: littleEndian n (z / 256) end.

Fixpoint fromLittleEndian (l : list Z) : Z :=
  match l with [] => 0 | b :: l => b + 256 * fromLittleEndian l end.

Definition elementBytes (type : TypedArrayType) : nat := Z.to_nat (elementSizeTable type).

(** [numberToRawBytes]. *)
Definition numberToRawBytes (type : TypedArrayType) (v : JSValue) : WM (list Z) :=
  let! native := toNative type v in ret (littleEndian (elementBytes type) native).

Definition rawBytesToNumber (type : TypedArrayType) (bytes : list Z) : JSValue :=
  let u := fromLittleEndian bytes in
  match type with
  | Int8 | Int16 | Int32 => Int32Value (castInteger type u)
  | Uint8 | Uint8Clamped | Uint16 => Int32Value u
  | Uint32 => valueOfUnsigned u
  | Float32 => valueOfDouble (double_of_float32 u)
  | Float64 => valueOfDouble u
  | BigInt64 | BigUint64 => BigIntValue (castInteger type u)
  end.

Definition inOrder (isLittleEndian : bool) (bytes : list Z) : list Z := if isLittleEndian then bytes else rev bytes.

(** ** Elements of a buffer *)

Definition getValueFromBuffer (b : nat) (byteindex : Z) (type : TypedArrayType) (isLittleEndian : bool) : WM JSValue :=
  let! rawStart := dataPointer b byteindex in
  let! bytes := readBytes rawStart (elementBytes type) in
  ret (rawBytesToNumber type (inOrder isLittleEndian bytes)).

(** The address is computed before the value is converted. *)
Definition setValueInBuffer (b : nat) (byteindex : Z) (type : TypedArrayType) (v : JSValue) (isLittleEndian : bool) : WM unit :=
  let! rawStart := dataPointer b byteindex in
  let! rawBytes := numberToRawBytes type v in
  writeBytes rawStart (inOrder isLittleEndian rawBytes).

End Elements.

(** * Floats as elements: the nearest one

    [float32_of_double] answers the float nearest to a double, ties to even. *)

(** The fields of a float with sign [s]. *)
Lemma float_fields s p : s = 0 \/ s = 2 ^ 31 -> 0 <= p < 2 ^ 31 ->
  (2 ^ 31 <=? s + p) = (s =? 2 ^ 31) /\ (s + p) / 2 ^ 23 mod 256 = p / 2 ^ 23 /\ (s + p) mod 2 ^ 23 = p mod 2 ^ 23.
Proof.
  intros Hs Hp. change (2 ^ 31) with 2147483648 in *. change (2 ^ 23) with 8388608.
  destruct Hs as [-> | ->]; (split; [|split]); try lia;
    match goal with |- (_ <=? _) = ?b => destruct (Z.leb_spec 2147483648 (0 + p)) || destruct (Z.leb_spec 2147483648 (2147483648 + p)) end;
    try lia; reflexivity.
Qed.

Lemma double_bits s e f : s = 0 \/ s = 2 ^ 63 -> 0 <= e < 2047 -> 0 <= f < 2 ^ 52 ->
  let d := s + e * 2 ^ 52 + f in
  is_bits64 d /\ isnan d = false /\ isinf d = false /\ signbit d = (s =? 2 ^ 63) /\
  magnitude d = if e =? 0 then f else (2 ^ 52 + f) * 2 ^ (e - 1).
Proof.
  intros Hs He Hf. destruct (fields_of e f ltac:(lia) Hf s Hs) as (Hb & E & F & S). cbv zeta in *.
  unfold isnan, isinf, magnitude. rewrite E, F, (proj2 (Z.eqb_neq e 2047)) by lia. auto.
Qed.

Definition signOf (b : bool) : Z := if b then 2 ^ 63 else 0.

Lemma signOf_cases b : signOf b = 0 \/ signOf b = 2 ^ 63.
Proof. destruct b; auto. Qed.
Lemma signOf_test b : (signOf b =? 2 ^ 63) = b.
Proof. destruct b; reflexivity. Qed.

(** The value of a finite float, in units of [2 ^ -1074]. *)
Definition floatMagnitude (p : Z) : Z :=
  if p / 2 ^ 23 =? 0 then p mod 2 ^ 23 * 2 ^ 925 else (2 ^ 23 + p mod 2 ^ 23) * 2 ^ (p / 2 ^ 23 + 924).

Lemma subnormal_magnitude m : 0 < m < 2 ^ 23 ->
  let l := Z.log2 m in
  0 <= l <= 22 /\ 0 <= m * 2 ^ (52 - l) - 2 ^ 52 < 2 ^ 52 /\
  (2 ^ 52 + (m * 2 ^ (52 - l) - 2 ^ 52)) * 2 ^ (874 + l - 1) = m * 2 ^ 925.
Proof.
  intros Hm. cbv zeta. pose proof (Z.log2_spec m ltac:(lia)) as [H1 H2]. pose proof (Z.log2_nonneg m) as H0.
  assert (Hl : Z.log2 m < 23) by (apply Z.log2_lt_pow2; lia). set (l := Z.log2 m) in *.
  assert (Hp : 2 ^ 52 = 2 ^ l * 2 ^ (52 - l)) by (rewrite <- Z.pow_add_r by lia; f_equal; lia).
  assert (0 < 2 ^ (52 - l)) by (apply Z.pow_pos_nonneg; lia).
  rewrite Z.pow_succ_r in H2 by lia. split; [lia|]. split.
  - set (p := 2 ^ (52 - l)) in *. set (q := 2 ^ l) in *. clearbody p q. nia.
  - replace (2 ^ 52 + (m * 2 ^ (52 - l) - 2 ^ 52)) with (m * 2 ^ (52 - l)) by lia.
    rewrite <- Z.mul_assoc, <- Z.pow_add_r by lia. f_equal. f_equal. lia.
Qed.

Lemma double_of_float32_spec (neg : bool) p : 0 <= p < 0x7f800000 ->
  let d := double_of_float32 ((if neg then 2 ^ 31 else 0) + p) in
  is_bits64 d /\ isnan d = false /\ isinf d = false /\ magnitude d = floatMagnitude p /\ (p <> 0 -> signbit d = neg).
Proof.
  intros Hp. cbv zeta. unfold double_of_float32, floatMagnitude.
  destruct (float_fields (if neg then 2 ^ 31 else 0) p) as (Hsg & He & Hm); [destruct neg; auto|lia|].
  rewrite Hsg, He, Hm. replace ((if neg then 2 ^ 31 else 0) =? 2 ^ 31) with neg by (destruct neg; reflexivity).
  fold (signOf neg). pose proof (Z.mod_pos_bound p (2 ^ 23) ltac:(lia)) as Hmr. pose proof (Z.div_mod p (2 ^ 23) ltac:(lia)) as Hdm.
  set (m := p mod 2 ^ 23) in *. set (e := p / 2 ^ 23) in *. change (2 ^ 23) with 8388608 in *.
  assert (He' : 0 <= e < 255) by lia. rewrite (proj2 (Z.eqb_neq e 255)) by lia.
  destruct (Z.eqb_spec e 0) as [E0|E0].
  - destruct (Z.eqb_spec m 0) as [M0|M0].
    + destruct (double_bits (signOf neg) 0 0 (signOf_cases neg) ltac:(lia) ltac:(lia)) as (B & N & I & S & V). rewrite signOf_test in S.
      cbv zeta in *. rewrite !Z.add_0_r in *. rewrite M0. auto 6.
    + destruct (subnormal_magnitude m ltac:(lia)) as (Hl & Hf & Hv).
      destruct (double_bits (signOf neg) (874 + Z.log2 m) _ (signOf_cases neg) ltac:(lia) Hf) as (B & N & I & S & V).
      rewrite signOf_test in S. cbv zeta in *. rewrite (proj2 (Z.eqb_neq (874 + Z.log2 m) 0)) in V by lia.
      rewrite V, Hv. auto 6.
  - destruct (double_bits (signOf neg) (e + 896) (m * 2 ^ 29) (signOf_cases neg) ltac:(lia) ltac:(lia)) as (B & N & I & S & V).
    rewrite signOf_test in S. cbv zeta in *. rewrite (proj2 (Z.eqb_neq (e + 896) 0)) in V by lia.
    split; [exact B|]. split; [exact N|]. split; [exact I|]. split; [|auto]. rewrite V.
    replace (2 ^ 52 + m * 2 ^ 29) with ((8388608 + m) * 2 ^ 29) by lia.
    rewrite <- Z.mul_assoc, <- Z.pow_add_r by lia. f_equal. f_equal. lia.
Qed.

(** A multiple of the unit at [e] is the float at that place. *)
Lemma floatMagnitude_at e m : 925 <= e -> 0 <= m <= 2 ^ 24 -> (925 < e -> 2 ^ 23 <= m) ->
  floatMagnitude ((e - 925) * 2 ^ 23 + m) = m * 2 ^ e.
Proof.
  intros He Hm Hn. unfold floatMagnitude. change (2 ^ 24) with 16777216 in *. change (2 ^ 23) with 8388608 in *.
  destruct (Z.eq_dec m 16777216) as [->|Hne].
  - replace (((e - 925) * 8388608 + 16777216) / 8388608) with (e - 923) by lia.
    replace (((e - 925) * 8388608 + 16777216) mod 8388608) with 0 by lia.
    rewrite (proj2 (Z.eqb_neq _ _)) by lia. replace (e - 923 + 924) with (Z.succ e) by lia. rewrite Z.pow_succ_r by lia. ring.
  - destruct (Z.ltb_spec m 8388608) as [Hs|Hs].
    + replace e with 925 by lia. replace (((925 - 925) * 8388608 + m) / 8388608) with 0 by lia.
      replace (((925 - 925) * 8388608 + m) mod 8388608) with m by lia. reflexivity.
    + replace (((e - 925) * 8388608 + m) / 8388608) with (e - 924) by lia.
      replace (((e - 925) * 8388608 + m) mod 8388608) with (m - 8388608) by lia.
      rewrite (proj2 (Z.eqb_neq _ _)) by lia. replace (e - 924 + 924) with e by lia. f_equal. lia.
Qed.

(** ** The nearest float *)

(** The unit of the floats around a double, in units of [2 ^ -1074]. *)
Definition floatUnit (d : Z) : Z := Z.max 925 (Z.log2 (magnitude d) - 23).

(** [f] is the float for [d]: NaN, an infinity, or the multiple of the unit nearest to it (the even one of two),
    unless that is past the largest float. *)
Definition nearestFloat (d f : Z) : Prop :=
  if isnan d then isnan (double_of_float32 f) = true
  else if isinf d then f = (if signbit d then 2 ^ 31 else 0) + 0x7f800000
  else exists m,
    Z.abs (2 * (m * 2 ^ floatUnit d - magnitude d)) <= 2 ^ floatUnit d /\
    (Z.abs (2 * (m * 2 ^ floatUnit d - magnitude d)) = 2 ^ floatUnit d -> Z.even m = true) /\
    if m * 2 ^ floatUnit d <? 2 ^ 128 * 2 ^ 1074
    then isnan (double_of_float32 f) = false /\ isinf (double_of_float32 f) = false /\
         magnitude (double_of_float32 f) = m * 2 ^ floatUnit d /\ (m <> 0 -> signbit (double_of_float32 f) = signbit d)
    else f = (if signbit d then 2 ^ 31 else 0) + 0x7f800000.

Lemma round_even_tie n d : 0 < d -> 0 <= n -> Z.abs (2 * (round_even n d * d - n)) = d -> Z.even (round_even n d) = true.
Proof.
  intros Hd Hn. unfold round_even. pose proof (Z.div_mod n d ltac:(lia)) as Hq. pose proof (Z.mod_pos_bound n d Hd) as Hr.
  destruct (Z.ltb_spec (2 * (n mod d)) d); [intros ?; exfalso; nia|].
  destruct (Z.ltb_spec d (2 * (n mod d))); [intros ?; exfalso; nia|].
  destruct (Z.even (n / d)) eqn:E; [auto|]. intros _. rewrite Z.even_add, E. reflexivity.
Qed.

Lemma nan_float neg f : 0 <= f < 2 ^ 22 ->
  isnan (double_of_float32 ((if neg : bool then 2 ^ 31 else 0) + 0x7fc00000 + f)) = true.
Proof.
  intros Hf. unfold double_of_float32.
  replace ((if neg then 2 ^ 31 else 0) + 0x7fc00000 + f) with ((if neg then 2 ^ 31 else 0) + (0x7fc00000 + f)) by lia.
  destruct (float_fields (if neg then 2 ^ 31 else 0) (0x7fc00000 + f)) as (_ & He & Hm); [destruct neg; auto|lia|].
  rewrite He, Hm. change (2 ^ 23) with 8388608 in *. replace ((0x7fc00000 + f) / 8388608) with 255 by lia. rewrite Z.eqb_refl.
  replace ((0x7fc00000 + f) mod 8388608) with (4194304 + f) by lia. rewrite (proj2 (Z.eqb_neq (4194304 + f) 0)) by lia.
  set (s := if 2 ^ 31 <=? _ then _ else _). assert (Hs : s = 0 \/ s = 2 ^ 63) by (unfold s; destruct (_ <=? _); auto).
  set (g := (4194304 + f) mod 2 ^ 22 * 2 ^ 29). assert (Hg : 0 <= g < 2 ^ 51) by (unfold g; lia).
  destruct (fields_of 2047 (2 ^ 51 + g) ltac:(lia) ltac:(lia) s Hs) as (_ & E & F & _). cbv zeta in *.
  replace (s + quiet_NaN + g) with (s + 2047 * 2 ^ 52 + (2 ^ 51 + g)) by (change quiet_NaN with 9221120237041090560; lia).
  unfold isnan. rewrite E, F. rewrite (proj2 (Z.eqb_neq (2 ^ 51 + g) 0)) by lia. reflexivity.
Qed.

(** The float that the code computes for a finite double. *)
Lemma float32_finite d : is_bits64 d -> isnan d = false -> isinf d = false ->
  let e := floatUnit d in let m := round_even (magnitude d) (2 ^ e) in
  0 <= m <= 2 ^ 24 /\ (925 < e -> 2 ^ 23 <= m) /\ Z.abs (2 * (m * 2 ^ e - magnitude d)) <= 2 ^ e.
Proof.
  intros Hd Hn Hi. cbv zeta. set (e := floatUnit d). pose proof (magnitude_nonneg d) as H0.
  assert (He : 925 <= e) by (unfold e, floatUnit; lia).
  assert (Hpos : 0 < 2 ^ e) by (apply Z.pow_pos_nonneg; lia).
  pose proof (round_even_near (magnitude d) (2 ^ e) Hpos) as Hnear. set (m := round_even _ _) in *.
  assert (Hup : magnitude d < 2 ^ 24 * 2 ^ e).
  { destruct (Z.eq_dec (magnitude d) 0) as [->|Hne]; [lia|].
    pose proof (Z.log2_spec (magnitude d) ltac:(lia)) as [_ Hl]. rewrite <- Z.pow_add_r by lia.
    eapply Z.lt_le_trans; [exact Hl|]. apply Z.pow_le_mono_r; [lia|]. unfold e, floatUnit. lia. }
  assert (Hlow : 925 < e -> 2 ^ 23 * 2 ^ e <= magnitude d).
  { intros Hgt. unfold e, floatUnit in Hgt |- *. set (l := Z.log2 (magnitude d)) in *. assert (Hl : l - 23 > 925) by lia.
    replace (Z.max 925 (l - 23)) with (l - 23) by lia. rewrite <- Z.pow_add_r by lia.
    replace (23 + (l - 23)) with l by lia. destruct (Z.eq_dec (magnitude d) 0) as [E|E]; [unfold l in Hl; rewrite E in Hl; cbn in Hl; lia|].
    apply Z.log2_spec. lia. }
  set (u := 2 ^ e) in *. clearbody u. change (2 ^ 24) with 16777216 in *. change (2 ^ 23) with 8388608 in *.
  clearbody m. split; [nia|]. split; [intros Hgt; specialize (Hlow Hgt); nia|exact Hnear].
Qed.

Lemma float32_nearest d : is_bits64 d -> nearestFloat d (float32_of_double d).
Proof.
  intros Hd. unfold nearestFloat, float32_of_double. cbv zeta.
  destruct (isnan d) eqn:Hn; [apply nan_float, Z.mod_pos_bound; lia|].
  destruct (isinf d) eqn:Hi; [reflexivity|].
  destruct (float32_finite d Hd Hn Hi) as (Hm & Hlow & Hnear). cbv zeta in *. fold (floatUnit d).
  set (e := floatUnit d) in *. set (m := round_even (magnitude d) (2 ^ e)) in *.
  assert (He : 925 <= e) by (unfold e, floatUnit; lia).
  exists m. split; [exact Hnear|]. split.
  { apply round_even_tie; [apply Z.pow_pos_nonneg; lia|apply magnitude_nonneg]. }
  pose proof (floatMagnitude_at e m He Hm Hlow) as Hv. set (p := (e - 925) * 2 ^ 23 + m) in *.
  (* the pattern is that of a finite float when the value is below 2 ^ 128 *)
  assert (Hcmp : m * 2 ^ e < 2 ^ 128 * 2 ^ 1074 <-> p < 0x7f800000).
  { assert (Hp : p = (e - 925) * 8388608 + m) by reflexivity. change (2 ^ 23) with 8388608 in *. change (2 ^ 24) with 16777216 in *.
    rewrite <- Z.pow_add_r by lia. split; intros Hlt.
    - destruct (Z.ltb_spec e 1179) as [?|Hge]; [destruct (Z.eq_dec e 1178) as [E|E]; [|lia]|].
      + subst e. rewrite E in Hlt. assert (m < 2 ^ 24); [|lia]. apply (Z.mul_lt_mono_pos_r (2 ^ 1178)); [apply Z.pow_pos_nonneg; lia|].
        rewrite <- Z.pow_add_r by lia. exact Hlt.
      + exfalso. specialize (Hlow ltac:(lia)). assert (2 ^ (128 + 1074) <= 8388608 * 2 ^ e); [|nia].
        change 8388608 with (2 ^ 23). rewrite <- Z.pow_add_r by lia. apply Z.pow_le_mono_r; lia.
    - assert (Hem : e <= 1177 \/ e = 1178 /\ m < 16777216) by lia. destruct Hem as [Hem|[-> Hem]].
      + apply Z.le_lt_trans with (2 ^ 24 * 2 ^ 1177); [|vm_compute; reflexivity].
        apply Z.mul_le_mono_nonneg; [lia|exact (proj2 Hm)|apply Z.pow_nonneg; lia|apply Z.pow_le_mono_r; lia].
      + apply Z.lt_le_trans with (2 ^ 24 * 2 ^ 1178); [|vm_compute; discriminate].
        apply Z.mul_lt_mono_pos_r; [apply Z.pow_pos_nonneg; lia|exact Hem]. }
  assert (Hp0 : 0 <= p) by (unfold p; lia).
  destruct (Z.ltb_spec (m * 2 ^ e) (2 ^ 128 * 2 ^ 1074)) as [Hlt|Hge].
  - apply Hcmp in Hlt. rewrite Z.min_r by lia.
    destruct (double_of_float32_spec (signbit d) p ltac:(lia)) as (_ & N & I & V & S). cbv zeta in *.
    split; [exact N|]. split; [exact I|]. split; [rewrite V; exact Hv|]. intros Hne. apply S.
    intros E. apply Hne. unfold p in E. lia.
  - rewrite Z.min_l by lia. reflexivity.
Qed.

(** * What the elements of typed arrays stand for

    The conversions of the specification (modulo a power of two, clamped, rounded), and the bytes. *)

(** ** Bytes *)

Definition is_octet (b : Z) : Prop := 0 <= b < 256.

Lemma littleEndian_length n z : List.length (littleEndian n z) = n.
Proof. revert z. induction n as [|n IH]; intros z; cbn; [reflexivity|]. f_equal. apply IH. Qed.

Lemma littleEndian_octets n z : Forall is_octet (littleEndian n z).
Proof. revert z. induction n as [|n IH]; intros z; cbn [littleEndian]; constructor; [unfold is_octet; lia|apply IH]. Qed.

Lemma fromLittleEndian_littleEndian n z : fromLittleEndian (littleEndian n z) = z mod 256 ^ Z.of_nat n.
Proof.
  revert z. induction n as [|n IH]; intros z; cbn [littleEndian fromLittleEndian]; [rewrite Z.mod_1_r; reflexivity|].
  rewrite IH, Nat2Z.inj_succ, Z.pow_succ_r by lia.
  assert (0 < 256 ^ Z.of_nat n) by (apply Z.pow_pos_nonneg; lia). rewrite Z.rem_mul_r by lia. reflexivity.
Qed.

Lemma fromLittleEndian_range l : Forall is_octet l -> 0 <= fromLittleEndian l < 256 ^ Z.of_nat (List.length l).
Proof.
  induction 1 as [|b l Hb Hl IH]; cbn [fromLittleEndian List.length]; [lia|]. unfold is_octet in Hb.
  rewrite Nat2Z.inj_succ, Z.pow_succ_r by lia. lia.
Qed.

Lemma littleEndian_fromLittleEndian l : Forall is_octet l -> littleEndian (List.length l) (fromLittleEndian l) = l.
Proof.
  induction 1 as [|b l Hb Hl IH]; cbn [fromLittleEndian List.length littleEndian]; [reflexivity|]. unfold is_octet in Hb.
  f_equal; [rewrite Z.mul_comm, Z.mod_add by lia; apply Z.mod_small, Hb|].
  rewrite Z.mul_comm, Z.div_add, Z.div_small, Z.add_0_l by lia. exact IH.
Qed.

Lemma inOrder_involutive le bytes : inOrder le (inOrder le bytes) = bytes.
Proof. destruct le; [reflexivity|apply rev_involutive]. Qed.

Lemma inOrder_length le bytes : List.length (inOrder le bytes) = List.length bytes.
Proof. destruct le; [reflexivity|apply length_rev]. Qed.

(** ** Integers of a type *)

(** The values of an element: integers of its width, or bit patterns. *)
Definition typeBits (type : TypedArrayType) : Z := 8 * elementSizeTable type.
Definition is_native (type : TypedArrayType) (n : Z) : Prop :=
  if isSignedType type then - 2 ^ (typeBits type - 1) <= n < 2 ^ (typeBits type - 1) else 0 <= n < 2 ^ typeBits type.

(** [n] is [z] modulo the width of the type. *)
Definition congruent (type : TypedArrayType) (n z : Z) : Prop := exists k, n = z + k * 2 ^ typeBits type.

Lemma elementBytes_bits type : 256 ^ Z.of_nat (elementBytes type) = 2 ^ typeBits type.
Proof. destruct type; reflexivity. Qed.

Lemma castInteger_spec type z : is_native type (castInteger type z) /\ congruent type (castInteger type z) z.
Proof.
  unfold is_native, congruent, castInteger, typeBits, to_signed, to_unsigned.
  destruct (isSignedType type) eqn:Es; (split; [|]).
  - destruct type; try discriminate Es; cbn; lia.
  - set (b := 2 ^ (_ - 1)). set (m := 2 ^ (8 * _)). assert (0 < m) by (apply Z.pow_pos_nonneg; destruct type; cbn; lia).
    exists (- ((z + b) / m)). pose proof (Z.div_mod (z + b) m ltac:(lia)). lia.
  - apply Z.mod_pos_bound, Z.pow_pos_nonneg; destruct type; cbn; lia.
  - set (m := 2 ^ (8 * _)). assert (0 < m) by (apply Z.pow_pos_nonneg; destruct type; cbn; lia).
    exists (- (z / m)). pose proof (Z.div_mod z m ltac:(lia)). lia.
Qed.

(** Two native values that are congruent are the same. *)
Lemma native_unique type n m : is_native type n -> is_native type m -> congruent type n m -> n = m.
Proof.
  unfold is_native, congruent, typeBits. intros Hn Hm [k Hk]. destruct type; cbn in *; lia.
Qed.

Lemma congruent_trans type a b c : congruent type a b -> congruent type b c -> congruent type a c.
Proof. intros [k ->] [l ->]. exists (k + l). lia. Qed.
Lemma congruent_sym type a b : congruent type a b -> congruent type b a.
Proof. intros [k ->]. exists (- k). lia. Qed.

Lemma castInteger_congruent type a b : congruent type a b -> castInteger type a = castInteger type b.
Proof.
  intros H. destruct (castInteger_spec type a) as [Ha Ca], (castInteger_spec type b) as [Hb Cb].
  apply (native_unique type); [exact Ha|exact Hb|]. eapply congruent_trans; [exact Ca|].
  eapply congruent_trans; [exact H|]. apply congruent_sym, Cb.
Qed.

Lemma castInteger_native type n : is_native type n -> castInteger type n = n.
Proof.
  intros H. destruct (castInteger_spec type n) as [Hn Hc]. apply (native_unique type); assumption.
Qed.

Definition isIntegralType (type : TypedArrayType) : bool :=
  match type with Int8 | Int16 | Int32 | Uint8 | Uint16 | Uint32 => true | _ => false end.

Lemma to_int32_congruent_type type z : isIntegralType type = true -> congruent type (to_int32 z) z.
Proof.
  intros Ht. destruct (to_int32_congr z) as [k Hk]. exists (k * 2 ^ (32 - typeBits type)).
  rewrite Hk, <- Z.mul_assoc, <- Z.pow_add_r by (destruct type; cbn in *; try discriminate; lia).
  do 3 f_equal. lia.
Qed.

(** ** Reading an element back *)

(** The JavaScript value of a native value. *)
Definition elementValue (type : TypedArrayType) (n : Z) : JSValue :=
  match type with
  | Int8 | Int16 | Int32 | Uint8 | Uint16 | Uint8Clamped => Int32Value n
  | Uint32 => if n <? 2 ^ 31 then Int32Value n else DoubleValue (of_integer n)
  | Float32 => valueOfDouble (double_of_float32 n)
  | Float64 => valueOfDouble n
  | BigInt64 | BigUint64 => BigIntValue n
  end.

Lemma valueOfUnsigned_spec n : 0 <= n < 2 ^ 32 ->
  valueOfUnsigned n = if n <? 2 ^ 31 then Int32Value n else DoubleValue (of_integer n).
Proof.
  intros Hn. unfold valueOfUnsigned. destruct (to_int32_congr n) as [k Hk]. pose proof (to_int32_range n) as Hr. unfold in_int32 in Hr.
  destruct (Z.ltb_spec n (2 ^ 31)).
  - assert (E : to_int32 n = n) by lia. rewrite E. case_if; to_prop; [lia|reflexivity].
  - case_if; to_prop; [reflexivity|lia].
Qed.

Lemma rawBytes_roundtrip type n : is_native type n ->
  rawBytesToNumber type (littleEndian (elementBytes type) n) = elementValue type n.
Proof.
  intros Hn. unfold rawBytesToNumber. cbv zeta. rewrite fromLittleEndian_littleEndian, elementBytes_bits.
  assert (Hc : congruent type (n mod 2 ^ typeBits type) n).
  { set (m := 2 ^ typeBits type). assert (0 < m) by (apply Z.pow_pos_nonneg; [lia|destruct type; vm_compute; discriminate]).
    exists (- (n / m)). rewrite Z.mod_eq by lia. fold m. ring. }
  pose proof (castInteger_native type n Hn) as Hcast. rewrite <- (castInteger_congruent _ _ _ Hc) in Hcast.
  assert (Hu : isSignedType type = false -> n mod 2 ^ typeBits type = n).
  { intros Es. apply Z.mod_small. unfold is_native in Hn. rewrite Es in Hn. exact Hn. }
  destruct type; cbn [isSignedType] in Hu; try (rewrite Hcast; reflexivity); rewrite Hu by reflexivity; try reflexivity.
  apply valueOfUnsigned_spec. exact Hn.
Qed.

(** ** Conversions *)

Definition wf_value (v : JSValue) : Prop :=
  match v with Int32Value i => in_int32 i | DoubleValue d => is_bits64 d | _ => True end.

(** A number as a double; undefined is NaN. *)
Definition numberBits (v : JSValue) : option Z :=
  match v with Int32Value i => Some (of_integer i) | DoubleValue d => Some d | Undefined => Some quiet_NaN | _ => None end.

(** The integer that the modular conversions start from: the number truncated, zero for NaN and the infinities. *)
Definition integerPart (d : Z) : Z := if isnan d || isinf d then 0 else truncated d.

(** ToUint8Clamp: between 0 and 255, the nearest integer, the even one of two. *)
Definition clamped (d n : Z) : Prop :=
  0 <= n <= 255 /\
  if isnan d then n = 0
  else (scaled d <= 0 -> n = 0) /\ (255 * 2 ^ 1074 <= scaled d -> n = 255) /\
       (0 <= scaled d <= 255 * 2 ^ 1074 ->
        Z.abs (2 * (n * 2 ^ 1074 - scaled d)) <= 2 ^ 1074 /\
        (Z.abs (2 * (n * 2 ^ 1074 - scaled d)) = 2 ^ 1074 -> Z.even n = true)).

(** What the specification stores for a number or a BigInt; [None]: a TypeError. *)
Definition specified (type : TypedArrayType) (v : JSValue) (r : option Z) : Prop :=
  match type, numberBits v, v with
  | (BigInt64 | BigUint64), None, BigIntValue z => exists n, r = Some n /\ is_native type n /\ congruent type n z
  | (BigInt64 | BigUint64), _, _ => r = None
  | _, None, _ => r = None
  | Uint8Clamped, Some d, _ => exists n, r = Some n /\ clamped d n
  | Float32, Some d, _ => exists f, r = Some f /\ nearestFloat d f
  | Float64, Some d, _ => r = Some d
  | _, Some d, _ => exists n, r = Some n /\ is_native type n /\ congruent type n (integerPart d)
  end.

Lemma toNativeFromDouble_spec type d : isIntegralType type = true -> is_bits64 d ->
  toNativeFromDouble type d = castInteger type (integerPart d).
Proof.
  intros Ht Hd. unfold toNativeFromDouble. cbv zeta. pose proof (cast_int32_range d) as Hr. set (r := cast_int32 d) in *.
  clearbody r. unfold in_int32 in Hr. destruct (feq (of_integer r) d) eqn:Ef.
  - apply feq_integer in Ef; [|exact Hd|lia]. f_equal. unfold integerPart. destruct Ef as [->|[E0 ->]].
    + destruct (of_integer_value r ltac:(lia)) as (_ & Hn & Hi & Hs & _). rewrite Hn, Hi. symmetry. apply truncated_integer, Hs.
    + rewrite E0. reflexivity.
  - rewrite toInt32SlowCase_spec by exact Hd. unfold integerPart. destruct (isnan d || isinf d); [reflexivity|].
    apply castInteger_congruent, to_int32_congruent_type, Ht.
Qed.

Lemma int32_integerPart i : in_int32 i -> integerPart (of_integer i) = i.
Proof.
  unfold in_int32. intros Hi. destruct (of_integer_value i ltac:(lia)) as (_ & Hn & Hf & Hs & _).
  unfold integerPart. rewrite Hn, Hf. apply truncated_integer, Hs.
Qed.

Lemma clampedFromDouble_spec d : clamped d (clampedFromDouble d).
Proof.
  unfold clamped, clampedFromDouble. destruct (isnan d); [repeat split; lia|].
  assert (Hu : 0 < 2 ^ 1074) by (apply Z.pow_pos_nonneg; lia).
  pose proof (round_even_near (scaled d) (2 ^ 1074) Hu) as Hn.
  pose proof (round_even_tie (scaled d) (2 ^ 1074) Hu) as Ht. set (u := 2 ^ 1074) in *. clearbody u.
  set (n := round_even (scaled d) u) in *. clearbody n.
  destruct (Z.ltb_spec (scaled d) 0); [repeat split; lia|]. destruct (Z.ltb_spec (255 * u) (scaled d)); [repeat split; lia|].
  assert (Hr : 0 <= n <= 255) by nia. unfold to_unsigned. rewrite Z.mod_small by (change (2 ^ 8) with 256; lia).
  split; [exact Hr|]. repeat split; intros; try nia. apply Ht; assumption.
Qed.

(** An [int32_t] clamped without a detour. *)
Lemma clamped_int32 i : in_int32 i -> clamped (of_integer i) (if i <? 0 then 0 else if 255 <? i then 255 else to_unsigned 8 i).
Proof.
  unfold in_int32. intros Hi. destruct (of_integer_value i ltac:(lia)) as (_ & Hn & _ & Hs & _).
  unfold clamped. rewrite Hn, Hs. assert (Hu : 0 < 2 ^ 1074) by (apply Z.pow_pos_nonneg; lia).
  set (u := 2 ^ 1074) in *. clearbody u. unfold to_unsigned. change (2 ^ 8) with 256.
  destruct (Z.ltb_spec i 0); [repeat split; nia|]. destruct (Z.ltb_spec 255 i); [repeat split; nia|].
  rewrite Z.mod_small by lia. repeat split; intros; nia.
Qed.

Lemma of_integer_bits i : in_int32 i -> is_bits64 (of_integer i).
Proof. unfold in_int32. intros Hi. apply (of_integer_value i ltac:(lia)). Qed.

Section Conversions.
Context `{Scripts}.

Definition converts (type : TypedArrayType) (v : JSValue) (w : World) : Prop :=
  exists r, specified type v r /\ toNative type v w = (match r with Some n => Ret n | None => Throw TypeError end, w).

Lemma converts_to type v w n : toNative type v w = (Ret n, w) -> specified type v (Some n) -> converts type v w.
Proof. intros E H0. exists (Some n). auto. Qed.
Lemma converts_not type v w : toNative type v w = (Throw TypeError, w) -> specified type v None -> converts type v w.
Proof. intros E H0. exists None. auto. Qed.

(** C40: a number or a BigInt becomes what the specification stores for it, for every type: the integer part modulo
    2^8, 2^16, 2^32 or 2^64, the clamped nearest integer, the nearest float, the double itself; mixing numbers and
    BigInts is a TypeError; and nothing else happens. *)
Theorem conversions_are_specified (type : TypedArrayType) (v : JSValue) (w : World) :
  wf_value v -> (forall n, v <> OtherValue n) ->
  exists r, specified type v r /\ toNative type v w = (match r with Some n => Ret n | None => Throw TypeError end, w).
Proof.
  intros Hv Ho. change (converts type v w). destruct v as [i|d|z| |n]; [| | | |destruct (Ho n eq_refl)]; cbn [wf_value] in Hv.
  - pose proof (of_integer_bits i Hv) as Hb. pose proof (castInteger_spec type i) as Hc. pose proof (int32_integerPart i Hv) as Ei.
    destruct type; (eapply converts_not; reflexivity) || (eapply converts_to; [reflexivity|]);
      cbn -[is_native integerPart nearestFloat clamped castInteger]; rewrite ?Ei; eauto using clamped_int32, float32_nearest.
  - pose proof (castInteger_spec type (integerPart d)) as Hc.
    destruct type; (eapply converts_not; reflexivity)
      || (eapply converts_to; [cbn -[castInteger]; rewrite toNativeFromDouble_spec by (reflexivity || exact Hv); reflexivity|])
      || (eapply converts_to; [reflexivity|]);
      cbn -[is_native integerPart nearestFloat clamped castInteger]; eauto using clampedFromDouble_spec, float32_nearest.
  - pose proof (castInteger_spec type z) as Hc.
    destruct type; (eapply converts_not; reflexivity) || (eapply converts_to; [reflexivity|]); cbn -[is_native castInteger]; eauto.
  - assert (Hq : is_bits64 quiet_NaN) by (split; vm_compute; [discriminate|reflexivity]).
    destruct type; (eapply converts_not; reflexivity) || (eapply converts_to; [reflexivity|]);
      cbn -[nearestFloat clamped]; eauto using float32_nearest, clampedFromDouble_spec;
      exists 0; (split; [reflexivity|]); (split; [vm_compute; split; [discriminate|reflexivity]|exists 0; reflexivity]).
Qed.
End Conversions.

(** An engine whose scripts do nothing. *)
#[local] Instance quiet : Scripts := {|
  userToPrimitive := fun _ => ret (mkPrimitive (inl quiet_NaN) (inr TypeError));
  userPrototype := ret tt;
  userSpecies := fun _ => ret tt;
  userConstruct := fun _ _ => ret None;
  userOption := fun _ => ret Undefined;
  userIterate := fun _ => ret None;
  userLength := fun _ => ret 0;
  userGet := fun _ _ => ret Undefined;
  undefinedCast := fun _ _ => 0
|}.

Lemma conversions_are_specified_witness :
  let w := mkWorld [] [] [] [] in
  (exists r, specified Int8 (DoubleValue 0x4079000000000000) r /\
     toNative Int8 (DoubleValue 0x4079000000000000) w = (match r with Some n => Ret n | None => Throw TypeError end, w)) /\
  toNative Int8 (DoubleValue 0x4079000000000000) w = (Ret (-112), w) /\
  toNative Uint8Clamped (DoubleValue 0x4004000000000000) w = (Ret 2, w).
Proof.
  intros w. split; [|split; vm_compute; reflexivity].
  apply (conversions_are_specified Int8 (DoubleValue 0x4079000000000000) w).
  - split; vm_compute; [discriminate|reflexivity].
  - discriminate.
Defined.
