(* ===== verification/TypedArray.v ===== *)
(** * Typed arrays, data views and their builtins

    [runtime/TypedArrayObject.cpp], [runtime/DataViewObject.h] and the parts of
    [builtins/BuiltinTypedArray.cpp], [BuiltinDataView.cpp] and [BuiltinArrayBuffer.cpp] that touch memory.
    An index of an element is a double, the value of a canonical numeric string.  The
    assertions, which release builds do not have, are left out. *)

From stdpp Require Import list.
From S2P Require Import Prelude Float64 Ieee754 Value ArrayBuffer ArrayElement.
Local Open Scope esc_scope.
Local Open Scope Z_scope.

(** An [ObjectGetResult]; there may be none. *)
Record ElementResult := elementResult {
  resultValue : JSValue;
  resultWritable : bool;
  resultEnumerable : bool;
  resultConfigurable : bool
}.

(** [ObjectGetResult::value]. *)
Definition valueOfResult (r : option ElementResult) : JSValue := match r with Some r => resultValue r | None => Undefined end.

Section TypedArrays.
Context `{Scripts}.

(** [this] as a typed array with its type (RESOLVE_THIS_BINDING_TO_TYPEDARRAY); [buffer()] of a view. *)
Definition theTypedArray (v : nat) : WM (ArrayBufferView * TypedArrayType) :=
  let! view := theView v in
  match viewKind view with TypedArrayObject type => ret (view, type) | DataViewObject => throw TypeError end.
Definition theDataView (v : nat) : WM ArrayBufferView :=
  let! view := theView v in
  match viewKind view with DataViewObject => ret view | TypedArrayObject _ => throw TypeError end.
Definition bufferOf (view : ArrayBufferView) : WM nat :=
  match m_buffer view with Some b => ret b | None => throw NullPointer end.
Definition isDetached (view : ArrayBufferView) : WM bool :=
  let! b := bufferOf view in gets (fun w => isDetachedBuffer w b).

(** ** Integer-indexed elements *)

(** [Value(...).isInteger()]. *)
Definition isInteger (d : Z) : bool := negb (isnan d) && negb (isinf d) && (scaled d mod 2 ^ 1074 =? 0).

(** The sentinel that [canonicalNumericIndexString] answers for "-0". *)
Definition MinusZeroIndex : Z := 0x0010000000000000.

Definition outOfRange (view : ArrayBufferView) (index : Z) : bool :=
  negb (isInteger index) || feq index MinusZeroIndex || (scaled index <? 0) || (m_arrayLength view * 2 ^ 1074 <=? scaled index).

(** [None]: no property. *)
Definition integerIndexedElementGet (v : nat) (index : Z) : WM (option ElementResult) :=
  let! '(view, type) := theTypedArray v in
  let! detached := isDetached view in
  if detached || outOfRange view index then ret None
  else
    let indexedPosition := truncated index * elementSizeTable type + m_byteOffset view in
    let! b := bufferOf view in
    let! value := getValueFromBuffer b indexedPosition type true in
    ret (Some (elementResult value true true true)).

Definition isBigIntType (type : TypedArrayType) : bool := match type with BigInt64 | BigUint64 => true | _ => false end.

(** What the specification calls numValue: converted once, before anything is looked at. *)
Definition numericValue (type : TypedArrayType) (value : JSValue) : WM JSValue :=
  if isBigIntType type then let! z := toBigInt value in ret (BigIntValue z)
  else let! d := toNumber value in ret (valueOfDouble d).

Definition integerIndexedElementSet (v : nat) (index : Z) (value : JSValue) : WM bool :=
  let! '(_, type) := theTypedArray v in
  let! numValue := numericValue type value in
  let! view := theView v in
  let! detached := isDetached view in
  if detached || outOfRange view index then ret false
  else
    let indexedPosition := truncated index * elementSizeTable type + m_byteOffset view in
    let! b := bufferOf view in
    do! setValueInBuffer b indexedPosition type numValue true in
    ret true.

(** ** The internal methods, for a property whose name is a canonical numeric string *)

Definition typedArray_hasProperty (v : nat) (index : Z) : WM bool :=
  let! r := integerIndexedElementGet v index in ret (bool_decide (is_Some r)).
Definition typedArray_getOwnProperty (v : nat) (index : Z) : WM (option ElementResult) := integerIndexedElementGet v index.
Definition typedArray_get (v : nat) (index : Z) : WM (option ElementResult) := integerIndexedElementGet v index.
Definition typedArray_set (v : nat) (index : Z) (value : JSValue) : WM bool :=
  do! integerIndexedElementSet v index value in ret true.

(** The descriptor that is given; an attribute that is not present is [None]. *)
Record ElementDescriptor := mkElementDescriptor {
  isAccessorDescriptor : bool;
  configurable : option bool;
  enumerable : option bool;
  writable : option bool;
  descriptorValue : option JSValue
}.
Definition refused (attribute : option bool) : bool := match attribute with Some false => true | _ => false end.

Definition typedArray_defineOwnProperty (v : nat) (index : Z) (desc : ElementDescriptor) : WM bool :=
  let! view := theView v in
  let! detached := isDetached view in
  if detached || outOfRange view index || isAccessorDescriptor desc then ret false
  else if refused (configurable desc) then ret false
  else if refused (enumerable desc) then ret false
  else if refused (writable desc) then ret false
  else match descriptorValue desc with
       | Some value => integerIndexedElementSet v index value
       | None => ret true
       end.

Definition typedArray_deleteOwnProperty (v : nat) (index : Z) : WM bool :=
  let! view := theView v in
  let! detached := isDetached view in
  ret (detached || outOfRange view index).

(** ** The fast path, through the cached address *)

(** [rawBuffer() + byteindex]. *)
Definition rawAddress (view : ArrayBufferView) (byteindex : Z) : Address :=
  match m_cachedRawBufferAddress view with
  | Some (block, offset) => InBlock block (offset + byteindex)
  | None => NullPlus byteindex
  end.

Definition getDirectValueFromBuffer (v : nat) (type : TypedArrayType) (byteindex : Z) : WM JSValue :=
  let! view := theView v in
  match m_cachedRawBufferAddress view with
  | None => ret Undefined
  | Some _ =>
    let! bytes := readBytes (rawAddress view byteindex) (elementBytes type) in
    ret (rawBytesToNumber type bytes)
  end.

(** The value is converted first, and nothing is looked at again. *)
Definition setDirectValueInBuffer (v : nat) (type : TypedArrayType) (byteindex : Z) (value : JSValue) : WM unit :=
  let! native := toNative type value in
  let! view := theView v in
  writeBytes (rawAddress view byteindex) (littleEndian (elementBytes type) native).

(** [property.isUInt32()], for a property that is an index. *)
Definition isUInt32Index (i : Z) : bool := i <? 2 ^ 31.

Definition getIndexedProperty (v : nat) (i : Z) : WM (option ElementResult) :=
  let! '(view, type) := theTypedArray v in
  if isUInt32Index i && (i <? m_arrayLength view)
  then
    let! detached := isDetached view in
    if detached then ret None
    else let! value := getDirectValueFromBuffer v type (i * elementSizeTable type) in ret (Some (elementResult value true true false))
  else typedArray_get v (of_integer i).

Definition getIndexedPropertyValue (v : nat) (i : Z) : WM JSValue :=
  let! '(view, type) := theTypedArray v in
  if isUInt32Index i && (i <? m_arrayLength view)
  then
    let! detached := isDetached view in
    if detached then ret Undefined else getDirectValueFromBuffer v type (i * elementSizeTable type)
  else let! r := typedArray_get v (of_integer i) in ret (valueOfResult r).

Definition setIndexedProperty (v : nat) (i : Z) (value : JSValue) : WM bool :=
  let! '(view, type) := theTypedArray v in
  let! fast := if isUInt32Index i && (i <? m_arrayLength view)
               then let! detached := isDetached view in ret (negb detached)
               else ret false in
  if fast then do! setDirectValueInBuffer v type (i * elementSizeTable type) value in ret true
  else typedArray_set v (of_integer i) value.

Definition setIndexedPropertyThrowsException (v : nat) (i : Z) (value : JSValue) : WM unit :=
  let! ok := setIndexedProperty v i value in
  if ok then ret tt else throw TypeError.

(** ** Data views *)

(** Of [view] and a converted index: the offset in the buffer, or a RangeError. *)
Definition viewIndex (view : ArrayBufferView) (numberIndex : Z) (type : TypedArrayType) : WM Z :=
  if m_byteLength view <? numberIndex + elementSizeTable type then throw RangeError
  else ret (numberIndex + m_byteOffset view).

Definition getViewValue (v : nat) (index : JSValue) (isLittleEndian : bool) (type : TypedArrayType) : WM JSValue :=
  let! numberIndex := toIndex index in
  match numberIndex with
  | None => throw RangeError
  | Some numberIndex =>
    let! view := theView v in
    let! b := bufferOf view in
    do! throwTypeErrorIfDetached b in
    let! bufferIndex := viewIndex view numberIndex type in
    getValueFromBuffer b bufferIndex type isLittleEndian
  end.

(** The value is converted here and once more when it is stored. *)
Definition setViewValue (v : nat) (index : JSValue) (isLittleEndian : bool) (type : TypedArrayType) (val : JSValue) : WM unit :=
  let! numberIndex := toIndex index in
  match numberIndex with
  | None => throw RangeError
  | Some numberIndex =>
    do! toNumeric val in
    let! view := theView v in
    let! b := bufferOf view in
    do! throwTypeErrorIfDetached b in
    let! bufferIndex := viewIndex view numberIndex type in
    setValueInBuffer b bufferIndex type val isLittleEndian
  end.

Definition arg (argv : list JSValue) (n : nat) : JSValue := nth n argv Undefined.

Definition isUndefined (v : JSValue) : bool := match v with Undefined => true | _ => false end.

(** The arguments are the ones after the buffer; the bounds are not looked at after the prototype. *)
Definition builtinDataViewConstructor (buffer : nat) (argv : list JSValue) : WM nat :=
  let! byteOffset := toIndex (arg argv 0) in
  match byteOffset with
  | None => throw RangeError
  | Some byteOffset =>
    do! throwTypeErrorIfDetached buffer in
    let! bufferByteLength := gets (fun w => byteLengthOf w buffer) in
    if bufferByteLength <? byteOffset then throw RangeError
    else
      let! byteLength :=
        if isUndefined (arg argv 1) then ret (bufferByteLength - byteOffset)
        else
          let! n := toIndex (arg argv 1) in
          match n with
          | None => throw RangeError
          | Some n => if bufferByteLength <? byteOffset + n then throw RangeError else ret n
          end in
      do! userPrototype in
      let! obj := newView DataViewObject in
      do! setBuffer obj (Some buffer) byteOffset byteLength 0 false in
      do! throwTypeErrorIfDetached buffer in
      ret obj
  end.

Definition builtinDataViewGet (v : nat) (argv : list JSValue) (isLittleEndian : bool) (type : TypedArrayType) : WM JSValue :=
  do! theDataView v in getViewValue v (arg argv 0) isLittleEndian type.
Definition builtinDataViewSet (v : nat) (argv : list JSValue) (isLittleEndian : bool) (type : TypedArrayType) : WM unit :=
  do! theDataView v in setViewValue v (arg argv 0) isLittleEndian type (arg argv 1).

End TypedArrays.
