(* ===== verification/TypedArrayBuiltins.v ===== *)
(** * The builtins of array buffers and typed arrays

    [builtins/BuiltinArrayBuffer.cpp] and, of [builtins/BuiltinTypedArray.cpp], the constructors
    and the methods that move bytes: [copyWithin], [set], [fill], [reverse]. *)

From stdpp Require Import list.
From S2P Require Import Prelude Float64 Ieee754 Value ArrayBuffer ArrayElement TypedArray.
Local Open Scope esc_scope.
Local Open Scope Z_scope.

Section Builtins.
Context `{Scripts}.

(** ** Relative indices

    [(relative < 0) ? max(len + relative, 0) : min(relative, len)] on doubles. *)

Definition clampIndex (relative : Integer) (len : Z) : Z :=
  match relative with
  | MinusInfinity => 0
  | PlusInfinity => len
  | Finite z => if z <? 0 then Z.max (len + z) 0 else Z.min z len
  end.

(** The same of an argument that counts as [len] when it is undefined. *)
Definition relativeEnd (v : JSValue) (len : Z) : WM Z :=
  if isUndefined v then ret len else let! n := toInteger v in ret (clampIndex n len).
Definition relativeStart (v : JSValue) (len : Z) : WM Z := let! n := toInteger v in ret (clampIndex n len).

(** ** ArrayBuffer *)

Definition builtinArrayBufferConstructor (length : JSValue) (options : option nat) : WM nat :=
  let! byteLength := toIndex length in
  match byteLength with
  | None => throw RangeError
  | Some byteLength =>
    let! maxByteLength :=
      match options with
      | None => ret None
      | Some o =>
        let! maxLengthValue := userOption o in
        if isUndefined maxLengthValue then ret None
        else
          let! m := toIndex maxLengthValue in
          match m with
          | None => throw RangeError
          | Some m => if m <? byteLength then throw RangeError else ret (Some m)
          end
      end in
    do! userPrototype in
    allocateArrayBuffer byteLength maxByteLength
  end.

Definition builtinArrayBufferByteLengthGetter (obj : nat) : WM Z :=
  gets (fun w => if isDetachedBuffer w obj then 0 else byteLengthOf w obj).

(** [maxByteLength()], through the pointer to the store. *)
Definition maxByteLengthOf (obj : nat) : WM Z :=
  let! w := get in match storeOf w obj with Some s => ret (m_maxByteLength s) | None => throw NullPointer end.

Definition builtinArrayBufferMaxByteLengthGetter (obj : nat) : WM Z :=
  let! detached := gets (fun w => isDetachedBuffer w obj) in
  if detached then ret 0
  else
    let! resizable := gets (fun w => isResizableArrayBuffer w obj) in
    if resizable then maxByteLengthOf obj else gets (fun w => byteLengthOf w obj).

Definition builtinArrayBufferResizableGetter (obj : nat) : WM bool := gets (fun w => isResizableArrayBuffer w obj).

(** A negative double. *)
Definition isNegative (n : Integer) : bool := match n with Finite z => z <? 0 | PlusInfinity => false | MinusInfinity => true end.

Definition backingStore (obj : nat) : WM nat :=
  let! buffer := theBuffer obj in
  match m_backingStore buffer with Some s => ret s | None => throw NullPointer end.

Definition builtinArrayBufferResize (obj : nat) (argv : list JSValue) : WM unit :=
  do! throwTypeErrorIfDetached obj in
  let! resizable := gets (fun w => isResizableArrayBuffer w obj) in
  if negb resizable then throw TypeError
  else
    let! newByteLength := toInteger (arg argv 0) in
    if isNegative newByteLength then throw RangeError
    else
      let! maxByteLength := maxByteLengthOf obj in
      match newByteLength with
      | Finite n =>
        if maxByteLength <? n then throw RangeError
        else let! s := backingStore obj in resize s n
      | _ => throw RangeError
      end.

Definition builtinArrayBufferTransfer (obj : nat) (argv : list JSValue) : WM nat :=
  do! throwTypeErrorIfDetached obj in
  let! len := gets (fun w => byteLengthOf w obj) in
  let! newByteLength := if isUndefined (arg argv 0) then ret (Finite len) else toInteger (arg argv 0) in
  (* construct of %ArrayBuffer% with the number *)
  match indexOfInteger newByteLength with
  | None => throw RangeError
  | Some n =>
    let! newValue := allocateArrayBuffer n None in
    let! source := dataPointer obj 0 in
    let! byteLength := gets (fun w => byteLengthOf w obj) in
    do! fillData newValue source (Z.to_nat (Z.min n byteLength)) in
    do! detachArrayBuffer obj in
    ret newValue
  end.

(** [(int)] of a double and of a [size_t]; out of range the 64-bit target answers the lowest integer for a double. *)
Definition intOfDouble (z : Z) : Z := if (- 2 ^ 31 <=? z) && (z <? 2 ^ 31) then z else - 2 ^ 31.

Definition builtinArrayBufferSlice (obj : nat) (argv : list JSValue) : WM nat :=
  do! throwTypeErrorIfDetached obj in
  let! len := gets (fun w => byteLengthOf w obj) in
  let! first := relativeStart (arg argv 0) len in
  let! final := relativeEnd (arg argv 1) len in
  let newLen := Z.max (to_int32 (intOfDouble final - to_int32 first)) 0 in
  do! userSpecies obj in
  let! newValue := userConstruct obj newLen in
  match newValue with
  | None => throw TypeError
  | Some newObject =>
    do! throwTypeErrorIfDetached newObject in
    if (newObject =? obj)%nat then throw TypeError
    else
      let! newObjectLength := gets (fun w => byteLengthOf w newObject) in
      if newObjectLength <? newLen then throw TypeError
      else
        do! throwTypeErrorIfDetached obj in
        let! source := dataPointer obj first in
        do! fillData newObject source (Z.to_nat newLen) in
        ret newObject
  end.

(** ** Making typed arrays *)

(** [allocateTypedArray]: without a length the array has no buffer yet. *)
Definition allocateTypedArray (type : TypedArrayType) (length : option Z) : WM nat :=
  do! userPrototype in
  let! obj := newView (TypedArrayObject type) in
  match length with
  | None => do! setBuffer obj None 0 0 0 false in ret obj
  | Some length =>
    let! buffer := allocateArrayBuffer (usize (length * elementSizeTable type)) None in
    do! setBuffer obj (Some buffer) 0 (usize (length * elementSizeTable type)) length false in
    ret obj
  end.

Definition typeOf (v : nat) : WM TypedArrayType := let! '(_, type) := theTypedArray v in ret type.

(** [count] elements, from one buffer to another. *)
Fixpoint convertElements (count : nat) (srcData : nat) (srcByteIndex : Z) (srcType : TypedArrayType)
    (data : nat) (targetByteIndex : Z) (type : TypedArrayType) : WM unit :=
  match count with
  | O => ret tt
  | S count =>
    let! value := getValueFromBuffer srcData srcByteIndex srcType true in
    do! setValueInBuffer data targetByteIndex type value true in
    convertElements count srcData (srcByteIndex + elementSizeTable srcType) srcType
                    data (targetByteIndex + elementSizeTable type) type
  end.

(** [count] bytes one by one, as elements of type Uint8; [direction] is 1 or -1. *)
Fixpoint copyBytes (count : nat) (srcBuffer : nat) (srcByteIndex : Z) (targetBuffer : nat) (targetByteIndex direction : Z) : WM unit :=
  match count with
  | O => ret tt
  | S count =>
    let! value := getValueFromBuffer srcBuffer srcByteIndex Uint8 true in
    do! setValueInBuffer targetBuffer targetByteIndex Uint8 value true in
    copyBytes count srcBuffer (srcByteIndex + direction) targetBuffer (targetByteIndex + direction) direction
  end.

Definition initializeTypedArrayFromTypedArray (obj srcArray : nat) : WM unit :=
  let! '(src, srcType) := theTypedArray srcArray in
  let! srcData := bufferOf src in
  do! throwTypeErrorIfDetached srcData in
  let! type := typeOf obj in
  let elementLength := m_arrayLength src in
  let srcByteOffset := m_byteOffset src in
  let byteLength := usize (elementSizeTable type * elementLength) in
  do! userSpecies srcData in
  let! data :=
    if decide (type = srcType) then cloneArrayBuffer userPrototype srcData srcByteOffset byteLength
    else
      do! userPrototype in
      let! data := allocateArrayBuffer byteLength None in
      do! throwTypeErrorIfDetached srcData in
      do! convertElements (Z.to_nat elementLength) srcData srcByteOffset srcType data 0 type in
      ret data in
  setBuffer obj (Some data) 0 byteLength elementLength false.

Definition initializeTypedArrayFromArrayBuffer (obj buffer : nat) (byteOffset length : JSValue) : WM unit :=
  let! type := typeOf obj in
  let elementSize := elementSizeTable type in
  let! offset := toIndex byteOffset in
  match offset with
  | None => throw RangeError
  | Some offset =>
    if negb (offset mod elementSize =? 0) then throw RangeError
    else
      let! newLength := if isUndefined length then ret (Some 0) else toIndex length in
      match newLength with
      | None => throw RangeError
      | Some newLength =>
        do! throwTypeErrorIfDetached buffer in
        let! bufferByteLength := gets (fun w => byteLengthOf w buffer) in
        let! newByteLength :=
          if isUndefined length then
            if negb (bufferByteLength mod elementSize =? 0) || (bufferByteLength <? offset) then throw RangeError
            else ret (bufferByteLength - offset)
          else
            let newByteLength := usize (newLength * elementSize) in
            if bufferByteLength <? usize (offset + newByteLength) then throw RangeError else ret newByteLength in
        setBuffer obj (Some buffer) offset newByteLength (newByteLength / elementSize) (isUndefined length)
      end
  end.

(** A fresh buffer of [len] elements for [obj]. *)
Definition allocateTypedArrayBuffer (obj : nat) (len : Z) : WM unit :=
  let! type := typeOf obj in
  let byteLength := usize (len * elementSizeTable type) in
  let! buffer := allocateArrayBuffer byteLength None in
  setBuffer obj (Some buffer) 0 byteLength len false.

Fixpoint storeValues (obj : nat) (k : Z) (values : list JSValue) : WM unit :=
  match values with
  | [] => ret tt
  | value :: values => do! setIndexedPropertyThrowsException obj k value in storeValues obj (k + 1) values
  end.

Definition initializeTypedArrayFromList (obj : nat) (values : list JSValue) : WM unit :=
  do! allocateTypedArrayBuffer obj (Z.of_nat (List.length values)) in
  storeValues obj 0 values.

Fixpoint copyFromObject (obj arrayLike : nat) (k : Z) (count : nat) : WM unit :=
  match count with
  | O => ret tt
  | S count =>
    let! value := userGet arrayLike k in
    do! setIndexedPropertyThrowsException obj k value in
    copyFromObject obj arrayLike (k + 1) count
  end.

Definition initializeTypedArrayFromArrayLike (obj arrayLike : nat) : WM unit :=
  let! len := userLength arrayLike in
  do! allocateTypedArrayBuffer obj len in
  copyFromObject obj arrayLike 0 (Z.to_nat len).

Inductive FirstArgument :=
| NoArgument
| PrimitiveArgument (v : JSValue)
| TypedArrayArgument (v : nat)
| ArrayBufferArgument (b : nat) (byteOffset length : JSValue)
| ObjectArgument (n : nat).

Definition builtinTypedArrayConstructor (type : TypedArrayType) (firstArg : FirstArgument) : WM nat :=
  match firstArg with
  | NoArgument => allocateTypedArray type (Some 0)
  | PrimitiveArgument v =>
    let! elemlen := toIndex v in
    match elemlen with
    | None => throw RangeError
    | Some elemlen => allocateTypedArray type (Some elemlen)
    end
  | TypedArrayArgument srcArray =>
    let! obj := allocateTypedArray type None in
    do! initializeTypedArrayFromTypedArray obj srcArray in ret obj
  | ArrayBufferArgument buffer byteOffset length =>
    let! obj := allocateTypedArray type None in
    do! initializeTypedArrayFromArrayBuffer obj buffer byteOffset length in ret obj
  | ObjectArgument n =>
    let! obj := allocateTypedArray type None in
    let! values := userIterate n in
    do! match values with
        | Some values => initializeTypedArrayFromList obj values
        | None => initializeTypedArrayFromArrayLike obj n
        end in
    ret obj
  end.

(** ** The getters *)

Definition builtinTypedArrayNumberGetter (number : ArrayBufferView -> Z) (v : nat) : WM Z :=
  let! '(view, _) := theTypedArray v in
  let! detached := isDetached view in
  ret (if detached then 0 else number view).
Definition builtinTypedArrayByteLengthGetter : nat -> WM Z := builtinTypedArrayNumberGetter m_byteLength.
Definition builtinTypedArrayByteOffsetGetter : nat -> WM Z := builtinTypedArrayNumberGetter m_byteOffset.
Definition builtinTypedArrayLengthGetter : nat -> WM Z := builtinTypedArrayNumberGetter m_arrayLength.

(** ** Moving elements *)

Definition validateTypedArray (v : nat) : WM (ArrayBufferView * TypedArrayType) :=
  let! '(view, type) := theTypedArray v in
  let! b := bufferOf view in
  do! throwTypeErrorIfDetached b in
  ret (view, type).

Definition builtinTypedArrayCopyWithin (v : nat) (argv : list JSValue) : WM unit :=
  let! '(view, type) := validateTypedArray v in
  let len := m_arrayLength view in
  let! to_ := relativeStart (arg argv 0) len in
  let! from := relativeStart (arg argv 1) len in
  let! finalEnd := relativeEnd (arg argv 2) len in
  let count := Z.min (finalEnd - from) (len - to_) in
  if 0 <? count then
    let! view := theView v in
    let! buffer := bufferOf view in
    do! throwTypeErrorIfDetached buffer in
    let elementSize := elementSizeTable type in
    let toByteIndex := to_ * elementSize + m_byteOffset view in
    let fromByteIndex := from * elementSize + m_byteOffset view in
    let countBytes := count * elementSize in
    if (fromByteIndex <? toByteIndex) && (toByteIndex <? fromByteIndex + countBytes)
    then copyBytes (Z.to_nat countBytes) buffer (fromByteIndex + countBytes - 1) buffer (toByteIndex + countBytes - 1) (-1)
    else copyBytes (Z.to_nat countBytes) buffer fromByteIndex buffer toByteIndex 1
  else ret tt.

Fixpoint fillLoop (v : nat) (k : Z) (count : nat) (value : JSValue) : WM unit :=
  match count with
  | O => ret tt
  | S count => do! setIndexedPropertyThrowsException v k value in fillLoop v (k + 1) count value
  end.

Definition builtinTypedArrayFill (v : nat) (argv : list JSValue) : WM unit :=
  let! '(view, type) := validateTypedArray v in
  let len := m_arrayLength view in
  let! value := numericValue type (arg argv 0) in
  let! k := if isUndefined (arg argv 1) then ret 0 else relativeStart (arg argv 1) len in
  let! fin := relativeEnd (arg argv 2) len in
  let! view := theView v in
  let! buffer := bufferOf view in
  do! throwTypeErrorIfDetached buffer in
  fillLoop v k (Z.to_nat (fin - k)) value.

(** [set], for a source that is an object: every turn calls scripts. *)
Fixpoint setFromObject (count : nat) (src : nat) (k : Z) (targetBuffer : nat) (targetByteIndex : Z) (type : TypedArrayType) : WM unit :=
  match count with
  | O => ret tt
  | S count =>
    let! value := userGet src k in
    let! value := numericValue type value in
    do! throwTypeErrorIfDetached targetBuffer in
    do! setValueInBuffer targetBuffer targetByteIndex type value true in
    setFromObject count src (k + 1) targetBuffer (targetByteIndex + elementSizeTable type) type
  end.

Inductive SetSource := SetFromTypedArray (v : nat) | SetFromObject (n : nat).

(** The typed source, after the checks. *)
Definition setFromTypedArray (targetBuffer : nat) (targetByteIndex : Z) (type : TypedArrayType) (src : ArrayBufferView)
    (srcType : TypedArrayType) (srcBuffer : nat) : WM unit :=
  let! '(srcBuffer, srcByteIndex) :=
    if (srcBuffer =? targetBuffer)%nat
    then let! clone := cloneArrayBuffer (ret tt) targetBuffer (m_byteOffset src) (m_byteLength src) in ret (clone, 0)
    else ret (srcBuffer, m_byteOffset src) in
  if decide (srcType = type)
  then copyBytes (Z.to_nat (elementSizeTable type * m_arrayLength src)) srcBuffer srcByteIndex targetBuffer targetByteIndex 1
  else convertElements (Z.to_nat (m_arrayLength src)) srcBuffer srcByteIndex srcType targetBuffer targetByteIndex type.

Definition builtinTypedArraySet (v : nat) (source : SetSource) (offset : JSValue) : WM unit :=
  do! theTypedArray v in
  let! targetOffset := if isUndefined offset then ret (Finite 0) else toInteger offset in
  if isNegative targetOffset then throw RangeError
  else
    let! '(target, type) := theTypedArray v in
    let! targetBuffer := bufferOf target in
    do! throwTypeErrorIfDetached targetBuffer in
    match source with
    | SetFromObject n =>
      let! srcLength := userLength n in
      match targetOffset with
      | Finite targetOffset =>
        if m_arrayLength target <? srcLength + targetOffset then throw RangeError
        else setFromObject (Z.to_nat srcLength) n 0 targetBuffer
                           (targetOffset * elementSizeTable type + m_byteOffset target) type
      | _ => throw RangeError
      end
    | SetFromTypedArray s =>
      let! '(src, srcType) := theTypedArray s in
      let! srcBuffer := bufferOf src in
      do! throwTypeErrorIfDetached srcBuffer in
      match targetOffset with
      | Finite targetOffset =>
        if m_arrayLength target <? m_arrayLength src + targetOffset then throw RangeError
        else if negb (Bool.eqb (isBigIntType type) (isBigIntType srcType)) then throw TypeError
        else setFromTypedArray targetBuffer (targetOffset * elementSizeTable type + m_byteOffset target) type src srcType srcBuffer
      | _ => throw RangeError
      end
    end.

(** One turn of [reverse] for every [lower]. *)
Fixpoint reverseLoop (v : nat) (len lower : Z) (count : nat) : WM unit :=
  match count with
  | O => ret tt
  | S count =>
    let upper := len - lower - 1 in
    let! upperResult := getIndexedProperty v upper in
    let! lowerResult := getIndexedProperty v lower in
    match upperResult, lowerResult with
    | Some upperValue, Some lowerValue =>
      do! setIndexedPropertyThrowsException v lower (resultValue upperValue) in
      do! setIndexedPropertyThrowsException v upper (resultValue lowerValue) in
      reverseLoop v len (lower + 1) count
    | _, _ => throw NullPointer  (* RELEASE_ASSERT *)
    end
  end.

Definition builtinTypedArrayReverse (v : nat) : WM unit :=
  let! '(view, _) := validateTypedArray v in
  let len := m_arrayLength view in
  reverseLoop v len 0 (Z.to_nat (len / 2)).

End Builtins.
