(* ===== verification/TypedArraySpec.v ===== *)
(** * Typed arrays stay in memory: the tools

    What scripts may do ([ScriptLaws]), operations that keep the invariant ([safely]), and the reads and
    writes of elements as equations. *)

From stdpp Require Import list.
From S2P Require Import Prelude Float64 Ieee754 Value ArrayBuffer ArrayBufferSpec ArrayBufferOps ArrayElement.
From S2P Require Import TypedArray TypedArrayBuiltins.
Local Open Scope esc_scope.
Local Open Scope Z_scope.

(** ** What operations may do *)

(** The exceptions of the language. *)
Definition jsError (e : Error) : Prop := match e with TypeError | RangeError | ScriptError => True | _ => False end.

(** Between two worlds a script took the memory of an array buffer away. *)
Definition memoryLost (w w' : World) : Prop :=
  exists w1 b, descends w w1 /\ descends w1 w' /\ isDetachedBuffer w1 b = false /\ isDetachedBuffer w' b = true.

(** How an operation that begins in [w] may fail: with an exception, or, when a script took memory away from an
    operation that was using it, with an access through a pointer that is null or stale. *)
Definition pointerError (e : Error) : Prop := match e with NullPointer | NullAddress _ | UseAfterFree => True | _ => False end.
Definition mayFail (w : World) (e : Error) (w' : World) : Prop := jsError e \/ pointerError e /\ memoryLost w w'.

Lemma js_mayFail w e w' : jsError e -> mayFail w e w'.
Proof. left. assumption. Qed.

Lemma mayFail_later w0 w e w' : descends w0 w -> mayFail w e w' -> mayFail w0 e w'.
Proof.
  intros Hd [H|(He & w1 & b & H1 & H)]; [left; exact H|right]. split; [exact He|]. exists w1, b. split; [exact (descends_trans _ _ _ Hd H1)|exact H].
Qed.

(** [m] ends, keeps the invariant, and leaves the objects of [w] with their memory. *)
Definition safely {A} (w : World) (m : WM A) (Q : A -> World -> Prop) : Prop :=
  wp m w (fun a w' => Inv w' /\ descends w w' /\ Q a w') (fun e w' => mayFail w e w' /\ Inv w' /\ descends w w').

#[global] Arguments safely : simpl never.

Definition polite {A} (m : WM A) (Q : A -> World -> Prop) : Prop := forall w, Inv w -> safely w m Q.

Definition errorOf (r : Z + Error) : Prop := match r with inl _ => True | inr e => jsError e end.

(** An [int32_t] that is given is a number of 32 bits. *)
Definition int32_ok (v : JSValue) : Prop := match v with Int32Value i => in_int32 i | _ => True end.

Class ScriptLaws `{Scripts} := {
  polite_primitive : forall n, polite (userToPrimitive n) (fun p _ => errorOf (numberOf p) /\ errorOf (bigIntOf p));
  polite_prototype : polite userPrototype (fun _ _ => True);
  polite_species : forall b, polite (userSpecies b) (fun _ _ => True);
  polite_construct : forall b n, polite (userConstruct b n) (fun r w => forall b', r = Some b' -> is_Some (buffers w !! b'));
  polite_option : forall n, polite (userOption n) (fun v _ => int32_ok v);
  polite_iterate : forall n, polite (userIterate n) (fun r _ => forall l, r = Some l -> Z.of_nat (List.length l) <= maximumLength);
  polite_length : forall n, polite (userLength n) (fun l _ => 0 <= l <= maximumLength);
  polite_get : forall n k, polite (userGet n k) (fun _ _ => True)
}.

Lemma safely_mono {A} w (m : WM A) (Q Q' : A -> World -> Prop) :
  safely w m Q -> (forall a w', Inv w' -> descends w w' -> Q a w' -> Q' a w') -> safely w m Q'.
Proof.
  intros H HQ. eapply wp_mono; [exact H| |exact (fun _ _ H => H)]. intros a w' (Hi & Hd & Hq). auto.
Qed.

Lemma safely_ret {A} w (a : A) (Q : A -> World -> Prop) : Inv w -> Q a w -> safely w (ret a) Q.
Proof. intros Hi Hq. apply wp_ret. auto using descends_refl. Qed.

Lemma safely_throw {A} w e (Q : A -> World -> Prop) : Inv w -> jsError e -> safely w (throw e) Q.
Proof. intros Hi He. apply wp_throw. auto using descends_refl, js_mayFail. Qed.

Lemma safely_bind {A B} w (m : WM A) (k : A -> WM B) (Q : A -> World -> Prop) (R : B -> World -> Prop) :
  safely w m Q -> (forall a w', Inv w' -> descends w w' -> Q a w' -> safely w' (k a) R) -> safely w (bind m k) R.
Proof.
  intros Hm Hk. apply wp_bind. eapply wp_mono; [exact Hm| |exact (fun _ _ H => H)]. intros a w' (Hi & Hd & Hq).
  eapply wp_mono; [exact (Hk a w' Hi Hd Hq)| |].
  - intros b w'' (Hi' & Hd' & Hr). split; [exact Hi'|]. split; [exact (descends_trans _ _ _ Hd Hd')|exact Hr].
  - intros e w'' (He & Hi' & Hd'). split; [exact (mayFail_later _ _ _ _ Hd He)|]. split; [exact Hi'|exact (descends_trans _ _ _ Hd Hd')].
Qed.

(** A step that only looks. *)
Lemma safely_pure {A B} w (m : WM A) (k : A -> WM B) a (R : B -> World -> Prop) :
  m w = (Ret a, w) -> safely w (k a) R -> safely w (bind m k) R.
Proof. intros E H. unfold safely, wp, bind in *. rewrite E. exact H. Qed.

Lemma safely_fails {A B} w (m : WM A) (k : A -> WM B) e (R : B -> World -> Prop) :
  Inv w -> m w = (Throw e, w) -> jsError e -> safely w (bind m k) R.
Proof. intros Hi E He. unfold safely, wp, bind. rewrite E. auto using descends_refl, js_mayFail. Qed.

(** ** Operations that make a view

    The world [w0] in which the operation began is not touched, whatever happens to the new view. *)

Definition retains {A} (w0 w : World) (m : WM A) (Q : A -> World -> Prop) : Prop :=
  wp m w (fun a w' => Inv w' /\ descends w0 w' /\ Q a w') (fun e w' => mayFail w0 e w' /\ Inv w' /\ descends w0 w').

#[global] Arguments retains : simpl never.

Section Retains.
Context (w0 : World).

Lemma retains_bind {A B} w (m : WM A) (k : A -> WM B) (Q : A -> World -> Prop) (R : B -> World -> Prop) :
  retains w0 w m Q -> (forall a w', Inv w' -> descends w0 w' -> Q a w' -> retains w0 w' (k a) R) -> retains w0 w (bind m k) R.
Proof.
  intros Hm Hk. apply wp_bind. eapply wp_mono; [exact Hm| |exact (fun _ _ H => H)]. intros a w' (Hi & Hd & Hq). exact (Hk a w' Hi Hd Hq).
Qed.

Lemma retains_ret {A} w (a : A) (Q : A -> World -> Prop) : Inv w -> descends w0 w -> Q a w -> retains w0 w (ret a) Q.
Proof. intros Hi Hd Hq. apply wp_ret. auto. Qed.

Lemma retains_pure {A B} w (m : WM A) (k : A -> WM B) a (R : B -> World -> Prop) :
  m w = (Ret a, w) -> retains w0 w (k a) R -> retains w0 w (bind m k) R.
Proof. intros E H. unfold retains, wp, bind in *. rewrite E. exact H. Qed.

(** A step from a later world, with what [safely] knows about it. *)
Lemma retains_step {A B} w (m : WM A) (k : A -> WM B) (Q : A -> World -> Prop) (R : B -> World -> Prop) :
  descends w0 w -> safely w m Q ->
  (forall a w', Inv w' -> descends w0 w' -> descends w w' -> Q a w' -> retains w0 w' (k a) R) -> retains w0 w (bind m k) R.
Proof.
  intros Hd Hm Hk. apply wp_bind. eapply wp_mono; [exact Hm| |].
  - intros a w' (Hi & Hd' & Hq). exact (Hk a w' Hi (descends_trans _ _ _ Hd Hd') Hd' Hq).
  - intros e w' (He & Hi & Hd'). split; [exact (mayFail_later _ _ _ _ Hd He)|]. split; [exact Hi|exact (descends_trans _ _ _ Hd Hd')].
Qed.

Lemma retains_mono {A} w (m : WM A) (Q Q' : A -> World -> Prop) :
  retains w0 w m Q -> (forall a w', Inv w' -> descends w0 w' -> Q a w' -> Q' a w') -> retains w0 w m Q'.
Proof.
  intros H HQ. eapply wp_mono; [exact H| |exact (fun _ _ H => H)]. intros a w' (Hi & Hd & Hq). auto.
Qed.
End Retains.

Lemma safely_retains {A} w (m : WM A) Q : retains w w m Q -> safely w m Q.
Proof. exact (fun H => H). Qed.

Lemma retains_safely {A} w0 w (m : WM A) Q : descends w0 w -> safely w m Q -> retains w0 w m (fun a w' => descends w w' /\ Q a w').
Proof.
  intros Hd Hm. eapply wp_mono; [exact Hm| |].
  - intros a w' (Hi & Hd' & Hq). split; [exact Hi|]. split; [exact (descends_trans _ _ _ Hd Hd')|exact (conj Hd' Hq)].
  - intros e w' (He & Hi & Hd'). split; [exact (mayFail_later _ _ _ _ Hd He)|]. split; [exact Hi|exact (descends_trans _ _ _ Hd Hd')].
Qed.

Lemma retains_throw {A} w0 w e (Q : A -> World -> Prop) : Inv w -> descends w0 w -> jsError e -> retains w0 w (throw e) Q.
Proof. intros Hi Hd He. apply wp_throw. auto using js_mayFail. Qed.

(** ** Buffers and views across scripts *)

Lemma theView_eq v view w : views w !! v = Some view -> theView v w = (Ret view, w).
Proof. intros E. unfold theView, bind, get. rewrite E. reflexivity. Qed.

Lemma bufferOf_eq view b w : m_buffer view = Some b -> bufferOf view w = (Ret b, w).
Proof. intros E. unfold bufferOf. rewrite E. reflexivity. Qed.

Lemma isDetached_eq view b w : m_buffer view = Some b -> isDetached view w = (Ret (isDetachedBuffer w b), w).
Proof. intros E. unfold isDetached, bind. rewrite (bufferOf_eq view b w E). reflexivity. Qed.

Lemma theTypedArray_eq v view type w : views w !! v = Some view -> viewKind view = TypedArrayObject type ->
  theTypedArray v w = (Ret (view, type), w).
Proof. intros E K. unfold theTypedArray, bind. rewrite (theView_eq v view w E), K. reflexivity. Qed.

Lemma theDataView_eq v view w : views w !! v = Some view -> viewKind view = DataViewObject -> theDataView v w = (Ret view, w).
Proof. intros E K. unfold theDataView, bind. rewrite (theView_eq v view w E), K. reflexivity. Qed.

Lemma attached_iff w b : isDetachedBuffer w b = false <-> exists block, dataOf w b = Some block.
Proof.
  unfold isDetachedBuffer. rewrite bool_decide_eq_false. destruct (dataOf w b) as [block|]; split; intros H; eauto; try congruence.
  destruct H as [? H]. discriminate.
Qed.

Lemma throwIfDetached_eq w b :
  throwTypeErrorIfDetached b w = (if isDetachedBuffer w b then Throw TypeError else Ret tt, w).
Proof. unfold throwTypeErrorIfDetached, bind, gets. destruct (isDetachedBuffer w b); reflexivity. Qed.

(** The block of a buffer. *)
Lemma data_block w b block : Inv w -> dataOf w b = Some block ->
  exists bytes, memory w !! block = Some (Some bytes) /\ capacityOf w b = Z.of_nat (List.length bytes).
Proof.
  intros Hi E. unfold capacityOf. rewrite E. unfold dataOf, storeOf in E.
  destruct (buffers w !! b) as [buffer|]; [|discriminate]. destruct (m_backingStore buffer) as [s|]; [|discriminate].
  destruct (stores w !! s) as [store|] eqn:Es; [|discriminate]. injection E as <-.
  destruct (st_store _ (inv_structure _ Hi) s store Es) as [_ (bytes & Em & _)]. exists bytes. split; [exact Em|].
  unfold blockSize. rewrite Em. reflexivity.
Qed.

(** A buffer that still has memory has the memory it had. *)
Lemma descends_data w w' b block : descends w w' -> Inv w -> is_Some (buffers w !! b) -> dataOf w' b = Some block ->
  dataOf w b = Some block /\ capacityOf w' b = capacityOf w b /\
  exists s store store', storeOf w b = Some store /\ storeOf w' b = Some store' /\ attached w s b /\ stores w' !! s = Some store' /\
    m_isResizable store' = m_isResizable store /\ m_maxByteLength store' = m_maxByteLength store.
Proof.
  intros [Ds Dk Db _] Hi [buffer Eb] E. destruct (Db b buffer I Eb) as (buffer' & Eb' & Hs).
  assert (Estore : exists s store, m_backingStore buffer = Some s /\ stores w !! s = Some store /\
    exists store', stores w' !! s = Some store' /\ m_backingStore buffer' = Some s /\ m_data store' = m_data store /\
      m_isResizable store' = m_isResizable store /\ m_maxByteLength store' = m_maxByteLength store).
  { unfold dataOf, storeOf in E. rewrite Eb' in E. destruct Hs as [Hs|Hs]; [|rewrite Hs in E; discriminate].
    destruct (m_backingStore buffer') as [s|] eqn:Es; [|discriminate].
    destruct (st_attached _ (inv_structure _ Hi) s b) as [store Est]; [exists buffer; split; [exact Eb|congruence]|].
    destruct (Ds s store Est) as (store' & Est' & ? & ? & ?). exists s, store. split; [congruence|]. split; [exact Est|].
    exists store'. auto. }
  destruct Estore as (s & store & Hb & Est & store' & Est' & Hb' & Hd & Hr & Hm).
  assert (S : storeOf w b = Some store) by (unfold storeOf; rewrite Eb, Hb; exact Est).
  assert (S' : storeOf w' b = Some store') by (unfold storeOf; rewrite Eb', Hb'; exact Est').
  assert (D : dataOf w b = Some block) by (unfold dataOf in *; rewrite S; rewrite S' in E; cbn in *; congruence).
  split; [exact D|]. split.
  - destruct (data_block w b block Hi D) as (bytes & Em & Hc). destruct (Dk block bytes Em) as (bytes' & Em' & Hl).
    rewrite Hc. unfold capacityOf. rewrite E. unfold blockSize. rewrite Em'. cbn. lia.
  - exists s, store, store'. repeat split; try assumption. exists buffer. auto.
Qed.

Lemma view_after w w' v view b : descends w w' -> views w !! v = Some view -> m_buffer view = Some b ->
  exists view', views w' !! v = Some view' /\ viewKind view' = viewKind view /\ m_buffer view' = Some b /\
    (m_byteOffset view' = m_byteOffset view \/ m_byteOffset view' = 0).
Proof. intros [_ _ _ Dv] E Hb. destruct (Dv v view E) as (view' & E' & Hk & Hv & _). destruct (Hv b Hb). exists view'. auto. Qed.

(** Views that are still being made stay as they are. *)
Lemma bare_after w w' v view : descends w w' -> views w !! v = Some view -> m_buffer view = None -> views w' !! v = Some view.
Proof. intros [_ _ _ Dv] E Hn. destruct (Dv v view E) as (view' & E' & _ & _ & Hs). rewrite (Hs Hn) in E'. exact E'. Qed.

Lemma views_longer w w' : descends w w' -> (List.length (views w) <= List.length (views w'))%nat.
Proof.
  intros [_ _ _ Dv]. destruct (views w) as [|x l] eqn:El; [cbn; lia|]. rewrite <- El in *.
  destruct (lookup_lt_is_Some_2 (views w) (List.length (views w) - 1)) as [y Ey]; [rewrite El; cbn; lia|].
  destruct (Dv _ y Ey) as (y' & Ey' & _). apply lookup_lt_Some in Ey'. rewrite El in *. cbn in *. lia.
Qed.

Lemma view_buffer w v view b : Inv w -> views w !! v = Some view -> m_buffer view = Some b -> is_Some (buffers w !! b).
Proof. intros Hi E Hb. apply (st_viewing _ (inv_structure _ Hi) b v). exists view. auto. Qed.

Lemma buffer_after w w' b : descends w w' -> is_Some (buffers w !! b) -> is_Some (buffers w' !! b).
Proof. intros [_ _ Db _] [buffer E]. destruct (Db b buffer I E) as (buffer' & E' & _). eauto. Qed.

(** The window of a view that has memory. *)
Lemma view_window w v view b block : Inv w -> views w !! v = Some view -> m_buffer view = Some b -> dataOf w b = Some block ->
  shaped view /\ m_cachedRawBufferAddress view = Some (block, m_byteOffset view) /\
  m_byteOffset view + m_byteLength view <= capacityOf w b.
Proof.
  intros Hi E Hb Hd. destruct (inv_views _ Hi v view E) as [Hs Hok]. rewrite Hb, Hd in Hok. destruct Hok as [Hc Hl].
  split; [exact Hs|]. split; [exact Hc|]. apply Hl. eauto.
Qed.

(** ** Elements of a block *)

Lemma owned_data w b block : dataOf w b = Some block -> owned w block = true.
Proof.
  unfold dataOf, storeOf, owned. destruct (buffers w !! b) as [buffer|] eqn:Eb; [|discriminate].
  destruct (m_backingStore buffer) as [s|] eqn:Es; [|discriminate]. destruct (stores w !! s) as [store|] eqn:E; [|discriminate].
  intros [= <-]. apply existsb_exists. exists buffer. split; [apply list_elem_of_In; exact (list_elem_of_lookup_2 _ _ _ Eb)|].
  rewrite Es, E. apply Nat.eqb_refl.
Qed.

Lemma inRange_true (bytes : list Z) offset n : 0 <= offset -> offset + Z.of_nat n <= Z.of_nat (List.length bytes) ->
  inRange bytes offset n = true.
Proof. intros H1 H2. unfold inRange. rewrite (proj2 (Z.leb_le 0 offset)), (proj2 (Z.leb_le _ _)) by lia. reflexivity. Qed.

Lemma readBytes_eq b block offset n bytes w : dataOf w b = Some block -> memory w !! block = Some (Some bytes) -> 0 <= offset ->
  offset + Z.of_nat n <= Z.of_nat (List.length bytes) ->
  readBytes (InBlock block offset) n w = (Ret (take n (drop (Z.to_nat offset) bytes)), w).
Proof.
  intros D Em H0 Hn. unfold readBytes, bind, get. rewrite Em, (owned_data w b block D), inRange_true by assumption. reflexivity.
Qed.

Definition written (w : World) (block : nat) (bytes : list Z) (offset : Z) (l : list Z) : World :=
  setMemory w (<[block := Some (splice bytes (Z.to_nat offset) l)]> (memory w)).

Lemma writeBlock_eq block offset l bytes w : memory w !! block = Some (Some bytes) -> 0 <= offset ->
  offset + Z.of_nat (List.length l) <= Z.of_nat (List.length bytes) ->
  writeBlock block offset l w = (Ret tt, written w block bytes offset l).
Proof. intros Em H0 Hn. unfold writeBlock, bind, get. rewrite Em, inRange_true by assumption. reflexivity. Qed.

Lemma writeBytes_eq b block offset l bytes w : dataOf w b = Some block -> memory w !! block = Some (Some bytes) -> 0 <= offset ->
  offset + Z.of_nat (List.length l) <= Z.of_nat (List.length bytes) ->
  writeBytes (InBlock block offset) l w = (Ret tt, written w block bytes offset l).
Proof.
  intros D Em H0 Hn. unfold writeBytes, bind at 1, gets. rewrite (owned_data w b block D). apply writeBlock_eq; assumption.
Qed.

Lemma written_inv w block bytes offset l : Inv w -> memory w !! block = Some (Some bytes) -> 0 <= offset ->
  offset + Z.of_nat (List.length l) <= Z.of_nat (List.length bytes) ->
  Inv (written w block bytes offset l) /\ descends w (written w block bytes offset l).
Proof.
  intros Hi Em H0 Hn. pose proof (writeBlock_spec block offset l bytes w (fun _ _ => True) Hi Em H0 Hn) as H.
  unfold wp in H. rewrite (writeBlock_eq block offset l bytes w Em H0 Hn) in H. destruct H as (_ & H). exact H.
Qed.

Lemma elementBytes_size type : Z.of_nat (elementBytes type) = elementSizeTable type.
Proof. destruct type; reflexivity. Qed.
Lemma elementSize_table type : elementSize type = elementSizeTable type.
Proof. destruct type; reflexivity. Qed.
Lemma elementSizeTable_pos type : 1 <= elementSizeTable type <= 8.
Proof. destruct type; cbn; lia. Qed.

(** ** Values *)

(** A value whose conversion calls no script. *)
Definition plain (v : JSValue) : Prop := forall n, v <> OtherValue n.

Lemma rawBytes_plain type l : plain (rawBytesToNumber type l).
Proof.
  assert (Hd : forall d, plain (valueOfDouble d)).
  { intros d n. unfold valueOfDouble. destruct (isInt32ConvertibleDouble d) as [[|] i]; [discriminate|]. case_if; discriminate. }
  intros n. unfold rawBytesToNumber, valueOfUnsigned. cbv zeta. destruct type; try discriminate; try apply Hd. case_if; discriminate.
Qed.

Section Ops.
Context `{Laws : ScriptLaws}.

(** Plain values convert to the same everywhere, or never. *)
Lemma toNative_plain type v : plain v ->
  (exists n, forall w, toNative type v w = (Ret n, w)) \/ forall w, toNative type v w = (Throw TypeError, w).
Proof using Type.
  clear Laws. intros Hv. destruct v as [i|d|z| |n]; [| | | |destruct (Hv n eq_refl)];
    destruct type; (right; intros w; reflexivity) || (left; eexists; intros w; reflexivity).
Qed.

Lemma orThrow_safe w r : Inv w -> errorOf r -> safely w (orThrow r) (fun _ _ => True).
Proof using Type. intros Hi Hr. destruct r; [apply safely_ret; auto|apply safely_throw; assumption]. Qed.

Lemma toNumber_safe v w : Inv w -> safely w (toNumber v) (fun _ _ => True).
Proof using Laws.
  intros Hi. destruct v; cbn; try (apply safely_ret; auto); [apply safely_throw; cbn; auto|].
  eapply safely_bind; [apply polite_primitive, Hi|]. intros p w' Hi' _ [Hn _]. apply orThrow_safe; assumption.
Qed.

Lemma toBigInt_safe v w : Inv w -> safely w (toBigInt v) (fun _ _ => True).
Proof using Laws.
  intros Hi. destruct v; cbn; try (apply safely_throw; cbn; auto); [apply safely_ret; auto|].
  eapply safely_bind; [apply polite_primitive, Hi|]. intros p w' Hi' _ [_ Hn]. apply orThrow_safe; assumption.
Qed.

Lemma toNumeric_safe v w : Inv w -> safely w (toNumeric v) (fun _ _ => True).
Proof using Laws.
  intros Hi. destruct v; cbn; try (apply safely_ret; auto).
  eapply safely_bind; [apply polite_primitive, Hi|]. intros p w' Hi' _ [Hn _].
  destruct (numberOf p), (bigIntOf p); try (apply safely_ret; auto). apply safely_throw; assumption.
Qed.

Lemma toInteger_safe v w : Inv w -> safely w (toInteger v) (fun _ _ => True).
Proof using Laws.
  intros Hi. destruct v; try (apply safely_ret; auto; fail);
    (eapply safely_bind; [apply toNumber_safe, Hi|]; intros d w' Hi' _ _; apply safely_ret; auto).
Qed.

Definition isIndex (n : option Z) : Prop := forall z, n = Some z -> 0 <= z <= maximumLength.

Lemma indexOfInteger_index n : isIndex (indexOfInteger n).
Proof using Type.
  clear Laws. intros z. unfold indexOfInteger. destruct n as [i| |]; try discriminate. unfold maximumLength.
  destruct (Z.ltb_spec i 0); [discriminate|]. cbn [orb]. destruct (Z.eqb_spec i (Z.min (Z.max 0 i) (2 ^ 53 - 1))); [|discriminate].
  intros [= <-]. lia.
Qed.

Lemma toIndex_safe v w : Inv w -> int32_ok v -> safely w (toIndex v) (fun n _ => isIndex n).
Proof using Laws.
  intros Hi Hv. assert (Hgen : forall m, safely w m (fun _ _ => True) ->
    safely w (let! n := m in ret (indexOfInteger n)) (fun n _ => isIndex n)).
  { intros m Hm. eapply safely_bind; [exact Hm|]. intros n w' Hi' _ _. apply safely_ret; [exact Hi'|apply indexOfInteger_index]. }
  destruct v; cbn [toIndex]; try (apply Hgen, toInteger_safe, Hi).
  - destruct (Z.leb_spec 0 i); (apply safely_ret; [exact Hi|]); [|apply indexOfInteger_index].
    intros z [= <-]. cbn in Hv. unfold in_int32, maximumLength in *. lia.
  - apply safely_ret; [exact Hi|]. intros z [= <-]. unfold maximumLength. lia.
Qed.

Lemma numericValue_safe type v w : Inv w -> safely w (numericValue type v) (fun v' _ => plain v').
Proof using Laws.
  intros Hi. unfold numericValue. destruct (isBigIntType type).
  - eapply safely_bind; [apply toBigInt_safe, Hi|]. intros z w' Hi' _ _. apply safely_ret; [exact Hi'|discriminate].
  - eapply safely_bind; [apply toNumber_safe, Hi|]. intros d w' Hi' _ _. apply safely_ret; [exact Hi'|].
    intros n. unfold valueOfDouble. destruct (isInt32ConvertibleDouble d) as [[|] i]; [discriminate|]. case_if; discriminate.
Qed.

Lemma toNative_safe type v w : Inv w -> safely w (toNative type v) (fun _ _ => True).
Proof using Laws.
  intros Hi. assert (Hn : forall f : Z -> Z, safely w (let! d := toNumber v in ret (f d)) (fun _ _ => True)).
  { intros f. eapply safely_bind; [apply toNumber_safe, Hi|]. intros d w' Hi' _ _. apply safely_ret; auto. }
  assert (Hi' : isIntegralType type = true -> safely w (toNativeIntegral type v) (fun _ _ => True)).
  { intros _. unfold toNativeIntegral. destruct v; try (apply safely_ret; auto; fail);
      (eapply safely_bind; [apply toNumber_safe, Hi|]; intros d w' Hi' _ _; destruct (isnan d); apply safely_ret; auto). }
  assert (Hb : safely w (toNativeBigInt type v) (fun _ _ => True)).
  { eapply safely_bind; [apply toBigInt_safe, Hi|]. intros d w' Hi'' _ _. apply safely_ret; auto. }
  destruct type; cbn [toNative]; try (apply Hi'; reflexivity); try exact Hb;
    destruct v; try (apply safely_ret; auto; fail); apply Hn.
Qed.

(** ** Elements of buffers *)

Lemma dataPointer_eq w b offset : dataPointer b offset w = (Ret (addressIn (dataOf w b) offset), w).
Proof using Type. reflexivity. Qed.

Definition sliceOf (bytes : list Z) (offset : Z) (type : TypedArrayType) : list Z :=
  take (elementBytes type) (drop (Z.to_nat offset) bytes).

Lemma getValueFromBuffer_eq w b block bytes off type le : dataOf w b = Some block -> memory w !! block = Some (Some bytes) ->
  0 <= off -> off + elementSizeTable type <= Z.of_nat (List.length bytes) ->
  getValueFromBuffer b off type le w = (Ret (rawBytesToNumber type (inOrder le (sliceOf bytes off type))), w).
Proof using Type.
  clear Laws. intros Hd Em H0 Hl. unfold getValueFromBuffer, bind at 1. rewrite dataPointer_eq, Hd. cbn [addressIn].
  unfold bind. rewrite (readBytes_eq b block off _ bytes w Hd Em H0) by (rewrite elementBytes_size; exact Hl). reflexivity.
Qed.

Lemma setValueInBuffer_eq w b block bytes off type v n le : dataOf w b = Some block -> memory w !! block = Some (Some bytes) ->
  0 <= off -> off + elementSizeTable type <= Z.of_nat (List.length bytes) -> toNative type v w = (Ret n, w) ->
  setValueInBuffer b off type v le w = (Ret tt, written w block bytes off (inOrder le (littleEndian (elementBytes type) n))).
Proof using Type.
  clear Laws. intros Hd Em H0 Hl En. unfold setValueInBuffer, bind at 1. rewrite dataPointer_eq, Hd. cbn [addressIn].
  unfold numberToRawBytes, bind. rewrite En. unfold ret. apply (writeBytes_eq b); [exact Hd|exact Em|exact H0|].
  rewrite inOrder_length, littleEndian_length, elementBytes_size. exact Hl.
Qed.

Lemma getValueFromBuffer_safe w b block off type le : Inv w -> dataOf w b = Some block ->
  0 <= off -> off + elementSizeTable type <= capacityOf w b ->
  exists v, getValueFromBuffer b off type le w = (Ret v, w) /\ plain v.
Proof using Type.
  clear Laws. intros Hi Hd H0 Hl. destruct (data_block w b block Hi Hd) as (bytes & Em & Hc). rewrite Hc in Hl.
  eexists. split; [apply (getValueFromBuffer_eq w b block bytes); assumption|apply rawBytes_plain].
Qed.

(** Writes change one block, and nothing else. *)
Definition rewritten (w w' : World) : Prop :=
  Inv w' /\ descends w w' /\ stores w' = stores w /\ buffers w' = buffers w /\ views w' = views w.

Lemma rewritten_refl w : Inv w -> rewritten w w.
Proof using Type. intros H'. exact (conj H' (conj (descends_refl w) (conj eq_refl (conj eq_refl eq_refl)))). Qed.
Lemma rewritten_trans w w' w'' : rewritten w w' -> rewritten w' w'' -> rewritten w w''.
Proof using Type.
  intros (_ & D & S & B & V) (I' & D' & S' & B' & V'). split; [exact I'|]. split; [exact (descends_trans _ _ _ D D')|].
  repeat split; congruence.
Qed.

Lemma rewritten_data w w' b : rewritten w w' -> dataOf w' b = dataOf w b.
Proof using Type. intros (_ & _ & S & B & _). apply dataOf_same; assumption. Qed.
Lemma rewritten_capacity w w' b block : Inv w -> rewritten w w' -> dataOf w b = Some block -> capacityOf w' b = capacityOf w b.
Proof using Type.
  clear Laws. intros Hi R E. pose proof (rewritten_data w w' b R) as Ed. destruct R as (_ & D & S & B & V).
  destruct (data_block w b block Hi E) as (bytes & Em & Hc). destruct (d_block _ _ _ D block bytes Em) as (bytes' & Em' & Hl).
  rewrite Hc. unfold capacityOf. rewrite Ed, E. unfold blockSize. rewrite Em'. cbn. lia.
Qed.

Lemma written_rewritten w block bytes offset l : Inv w -> memory w !! block = Some (Some bytes) -> 0 <= offset ->
  offset + Z.of_nat (List.length l) <= Z.of_nat (List.length bytes) -> rewritten w (written w block bytes offset l).
Proof using Type.
  intros Hi Em H0 Hl. destruct (written_inv w block bytes offset l Hi Em H0 Hl) as [H1 H2].
  exact (conj H1 (conj H2 (conj eq_refl (conj eq_refl eq_refl)))).
Qed.

(** Storing a plain value: done, or refused with nothing done. *)
Lemma setValueInBuffer_plain w b block off type v le : Inv w -> dataOf w b = Some block ->
  0 <= off -> off + elementSizeTable type <= capacityOf w b -> plain v ->
  (exists w', setValueInBuffer b off type v le w = (Ret tt, w') /\ rewritten w w') \/
  setValueInBuffer b off type v le w = (Throw TypeError, w).
Proof using Type.
  clear Laws. intros Hi Hd H0 Hl Hv. destruct (data_block w b block Hi Hd) as (bytes & Em & Hc). rewrite Hc in Hl.
  destruct (toNative_plain type v Hv) as [[n En]|En].
  - left. eexists. split; [apply (setValueInBuffer_eq w b block bytes off type v n); auto|].
    apply written_rewritten; try assumption. rewrite inOrder_length, littleEndian_length, elementBytes_size. exact Hl.
  - right. unfold setValueInBuffer, numberToRawBytes, bind, dataPointer, gets. rewrite En. reflexivity.
Qed.

End Ops.
