(* ===== verification/TypedArraySafe.v ===== *)
(** * Typed arrays stay in memory: element access and data views

    Every operation on an element keeps the invariant, and reads and writes inside of the memory
    of the array's buffer, whatever the scripts do that its conversions call. *)

From stdpp Require Import list.
From S2P Require Import Prelude Float64 Ieee754 Value ArrayBuffer ArrayBufferSpec ArrayBufferOps ArrayElement.
From S2P Require Import TypedArray TypedArrayBuiltins TypedArraySpec.
Local Open Scope esc_scope.
Local Open Scope Z_scope.

(** The view [v] is a typed array of a type (a data view) on the array buffer [b]. *)
Definition isTypedArrayOn (w : World) (v b : nat) (type : TypedArrayType) : Prop :=
  exists view, views w !! v = Some view /\ viewKind view = TypedArrayObject type /\ m_buffer view = Some b.
Definition isDataViewOn (w : World) (v b : nat) : Prop :=
  exists view, views w !! v = Some view /\ viewKind view = DataViewObject /\ m_buffer view = Some b.

Lemma typedArray_after w w' v b type : descends w w' -> isTypedArrayOn w v b type -> isTypedArrayOn w' v b type.
Proof.
  intros Hd (view & E & K & B). destruct (view_after w w' v view b Hd E B) as (view' & E' & K' & B' & _).
  exists view'. split; [exact E'|]. split; [congruence|exact B'].
Qed.
Lemma dataView_after w w' v b : descends w w' -> isDataViewOn w v b -> isDataViewOn w' v b.
Proof.
  intros Hd (view & E & K & B). destruct (view_after w w' v view b Hd E B) as (view' & E' & K' & B' & _).
  exists view'. split; [exact E'|]. split; [congruence|exact B'].
Qed.

Lemma outOfRange_in view index : outOfRange view index = false -> 0 <= truncated index < m_arrayLength view /\
  scaled index = truncated index * 2 ^ 1074.
Proof.
  unfold outOfRange, isInteger. intros H. apply orb_false_iff in H as [H H3]. apply orb_false_iff in H as [H H2].
  apply orb_false_iff in H as [H1 _]. apply negb_false_iff, andb_true_iff in H1 as [_ H1]. apply Z.eqb_eq in H1.
  apply Z.ltb_ge in H2. apply Z.leb_gt in H3. assert (Hu : 0 < 2 ^ 1074) by (apply Z.pow_pos_nonneg; lia).
  unfold truncated. rewrite Z.quot_div_nonneg by lia. pose proof (Z.div_mod (scaled index) (2 ^ 1074) ltac:(lia)) as Hd.
  rewrite H1 in Hd. set (u := 2 ^ 1074) in *. set (q := scaled index / u) in *. clearbody u q. split; [nia|lia].
Qed.

(** The bytes of an element. *)
Lemma element_fits w v view b block type i : Inv w -> views w !! v = Some view -> viewKind view = TypedArrayObject type ->
  m_buffer view = Some b -> dataOf w b = Some block -> 0 <= i < m_arrayLength view ->
  0 <= i * elementSizeTable type + m_byteOffset view /\
  i * elementSizeTable type + m_byteOffset view + elementSizeTable type <= m_byteOffset view + m_byteLength view <= capacityOf w b.
Proof.
  intros Hi E K B D Hr. destruct (view_window w v view b block Hi E B D) as ((Ho & Hl & Ha & _ & Hk) & _ & Hw).
  rewrite K, elementSize_table in Hk. pose proof (elementSizeTable_pos type). nia.
Qed.

Lemma data_buffer w b block : dataOf w b = Some block -> is_Some (buffers w !! b).
Proof. unfold dataOf, storeOf. destruct (buffers w !! b); [eauto|discriminate]. Qed.

Lemma detached_lost w w' b block : dataOf w b = Some block -> descends w w' -> dataOf w' b = None -> memoryLost w w'.
Proof.
  intros D Hd D'. exists w, b. split; [apply descends_refl|]. split; [exact Hd|]. split; [apply attached_iff; eauto|].
  unfold isDetachedBuffer. rewrite D'. apply bool_decide_eq_true. reflexivity.
Qed.

Section Safe.
Context `{Laws : ScriptLaws}.

(** ** Integer-indexed elements *)

Lemma elementGet_safe w v b type index : Inv w -> isTypedArrayOn w v b type ->
  exists r, integerIndexedElementGet v index w = (Ret r, w) /\
    (forall result, r = Some result -> exists x, result = elementResult x true true true /\ plain x).
Proof using Type.
  clear Laws. intros Hi (view & E & K & B). unfold integerIndexedElementGet, bind at 1. rewrite (theTypedArray_eq v view type w E K).
  unfold bind at 1. rewrite (isDetached_eq view b w B).
  destruct (isDetachedBuffer w b) eqn:D; [exists None; split; [reflexivity|discriminate]|]. cbn [orb].
  destruct (outOfRange view index) eqn:O; [exists None; split; [reflexivity|discriminate]|].
  apply attached_iff in D as [block D]. destruct (outOfRange_in view index O) as [Hr _].
  destruct (element_fits w v view b block type _ Hi E K B D Hr) as (H0 & H1 & H2).
  unfold bind. rewrite (bufferOf_eq view b w B).
  destruct (getValueFromBuffer_safe w b block _ type true Hi D H0 ltac:(lia)) as (x & -> & Hx).
  eexists. split; [reflexivity|]. intros y [= <-]. exists x. auto.
Qed.

Lemma elementSet_safe w v b type index value : Inv w -> isTypedArrayOn w v b type ->
  safely w (integerIndexedElementSet v index value) (fun _ _ => True).
Proof using Laws.
  intros Hi Hv. pose proof Hv as (view0 & E0 & K0 & B0). unfold integerIndexedElementSet.
  eapply safely_pure; [apply (theTypedArray_eq v view0 type w E0 K0)|].
  eapply safely_bind; [apply (numericValue_safe type value w Hi)|]. intros x w1 Hi1 D1 Hx.
  destruct (typedArray_after _ _ _ _ _ D1 Hv) as (view & E & K & B).
  eapply safely_pure; [apply (theView_eq v view w1 E)|]. eapply safely_pure; [apply (isDetached_eq view b w1 B)|].
  destruct (isDetachedBuffer w1 b) eqn:D; [apply safely_ret; auto|]. cbn [orb].
  destruct (outOfRange view index) eqn:O; [apply safely_ret; auto|].
  apply attached_iff in D as [block D]. destruct (outOfRange_in view index O) as [Hr _].
  destruct (element_fits w1 v view b block type _ Hi1 E K B D Hr) as (H0 & H1 & H2).
  eapply safely_pure; [apply (bufferOf_eq view b w1 B)|].
  destruct (setValueInBuffer_plain w1 b block _ type x true Hi1 D H0 ltac:(lia) Hx) as [(w2 & Es & Hi2 & D2 & _)|Es].
  - unfold safely, wp, bind. rewrite Es. cbn. auto.
  - eapply safely_fails; [exact Hi1|exact Es|cbn; auto].
Qed.

Lemma defineElement_safe w v b type index desc : Inv w -> isTypedArrayOn w v b type ->
  safely w (typedArray_defineOwnProperty v index desc) (fun _ _ => True).
Proof using Laws.
  intros Hi Hv. pose proof Hv as (view & E & K & B). unfold typedArray_defineOwnProperty.
  eapply safely_pure; [apply (theView_eq v view w E)|]. eapply safely_pure; [apply (isDetached_eq view b w B)|].
  destruct (_ || isAccessorDescriptor desc); [apply safely_ret; auto|].
  repeat (destruct (refused _); [apply safely_ret; auto|]).
  destruct (descriptorValue desc); [apply (elementSet_safe w v b type); assumption|apply safely_ret; auto].
Qed.

Lemma set_safe w v b type index value : Inv w -> isTypedArrayOn w v b type ->
  safely w (typedArray_set v index value) (fun _ _ => True).
Proof using Laws.
  intros Hi Hv. eapply safely_bind; [apply (elementSet_safe w v b type); assumption|]. intros r w' Hi' _ _. apply safely_ret; auto.
Qed.

(** ** The fast path *)

Lemma getDirect_eq w v view b block bytes type i : Inv w -> views w !! v = Some view -> viewKind view = TypedArrayObject type ->
  m_buffer view = Some b -> dataOf w b = Some block -> memory w !! block = Some (Some bytes) -> 0 <= i < m_arrayLength view ->
  getDirectValueFromBuffer v type (i * elementSizeTable type) w
  = (Ret (rawBytesToNumber type (sliceOf bytes (i * elementSizeTable type + m_byteOffset view) type)), w).
Proof using Type.
  clear Laws. intros Hi E K B D Em Hr. destruct (view_window w v view b block Hi E B D) as (_ & Hc & _).
  destruct (element_fits w v view b block type i Hi E K B D Hr) as (H0 & H1 & H2).
  destruct (data_block w b block Hi D) as (bytes' & Em' & Hcap). rewrite Em in Em'. injection Em' as <-.
  unfold getDirectValueFromBuffer, bind at 1. rewrite (theView_eq v view w E). unfold rawAddress. rewrite Hc. unfold bind.
  rewrite (Z.add_comm (m_byteOffset view)), (readBytes_eq b block _ _ bytes w D Em H0) by (rewrite elementBytes_size; lia). reflexivity.
Qed.

Lemma of_integer_inRange view i : 0 <= i < 2 ^ 53 -> i < m_arrayLength view -> outOfRange view (of_integer i) = false /\ truncated (of_integer i) = i.
Proof using Type.
  clear Laws. intros Hi Hr. destruct (of_integer_value i ltac:(lia)) as (Hb & Hn & Hf & Hs & _).
  split; [|apply truncated_integer, Hs]. unfold outOfRange, isInteger. rewrite Hn, Hf, Hs, Z.mod_mul by (apply Z.pow_nonzero; lia).
  assert (Hu : 0 < 2 ^ 1074) by (apply Z.pow_pos_nonneg; lia).
  assert (Hm : feq (of_integer i) MinusZeroIndex = false).
  { destruct (feq (of_integer i) MinusZeroIndex) eqn:Ef; [|reflexivity]. exfalso.
    apply feq_integer in Ef; [|vm_compute; split; [discriminate|reflexivity]|lia].
    destruct Ef as [Ef|[_ Ef]]; [|vm_compute in Ef; discriminate Ef].
    assert (Hs' : scaled MinusZeroIndex = 2 ^ 52) by (vm_compute; reflexivity). rewrite Ef, Hs in Hs'.
    assert (2 ^ 52 < 2 ^ 1074) by (apply Z.pow_lt_mono_r; lia). set (u := 2 ^ 1074) in *. clearbody u.
    change (2 ^ 52) with 4503599627370496 in *. assert (Hc : i = 0 \/ 1 <= i) by lia. destruct Hc as [->|Hc]; [lia|nia]. }
  rewrite Hm. cbn [negb andb orb Z.eqb]. set (u := 2 ^ 1074) in *. clearbody u.
  rewrite (proj2 (Z.ltb_ge _ _)) by nia. rewrite (proj2 (Z.leb_gt _ _)) by nia. reflexivity.
Qed.

Lemma getIndexed_safe w v b type i : Inv w -> isTypedArrayOn w v b type -> 0 <= i ->
  exists r, getIndexedProperty v i w = (Ret r, w) /\
    (forall result, r = Some result -> exists x c, result = elementResult x true true c /\ plain x).
Proof using Type.
  clear Laws. intros Hi Hv Hi0. pose proof Hv as (view & E & K & B). unfold getIndexedProperty, bind at 1.
  rewrite (theTypedArray_eq v view type w E K). destruct (isUInt32Index i && (i <? m_arrayLength view)) eqn:Ef.
  - apply andb_true_iff in Ef as [_ Hl]. apply Z.ltb_lt in Hl. unfold bind at 1. rewrite (isDetached_eq view b w B).
    destruct (isDetachedBuffer w b) eqn:D; [exists None; split; [reflexivity|discriminate]|]. apply attached_iff in D as [block D].
    destruct (data_block w b block Hi D) as (bytes & Em & _). unfold bind.
    rewrite (getDirect_eq w v view b block bytes type i Hi E K B D Em ltac:(lia)). eexists. split; [reflexivity|].
    intros x [= <-]. do 2 eexists. split; [reflexivity|apply rawBytes_plain].
  - destruct (elementGet_safe w v b type (of_integer i) Hi Hv) as (r & E1 & Hr). exists r. split; [exact E1|].
    intros x E2. destruct (Hr x E2) as (y & Hy). exists y, true. exact Hy.
Qed.

Lemma setDirect_safe w v b block type i value view : Inv w -> views w !! v = Some view -> viewKind view = TypedArrayObject type ->
  m_buffer view = Some b -> dataOf w b = Some block -> 0 <= i < m_arrayLength view ->
  safely w (setDirectValueInBuffer v type (i * elementSizeTable type) value) (fun _ _ => True).
Proof using Laws.
  intros Hi E K B D Hr. unfold setDirectValueInBuffer.
  apply safely_retains. eapply retains_step; [apply descends_refl|apply (toNative_safe type value w Hi)|]. intros n w1 Hi1 _ D1 _.
  destruct (view_after w w1 v view b D1 E B) as (view' & E' & K' & B' & Ho).
  eapply retains_pure; [apply (theView_eq v view' w1 E')|].
  destruct (dataOf w1 b) as [block'|] eqn:D'.
  - destruct (descends_data w w1 b block' D1 Hi (view_buffer w v view b Hi E B) D') as (Dw & Hcap & _). rewrite D in Dw. injection Dw as <-.
    destruct (element_fits w v view b block type i Hi E K B D Hr) as (H0 & H1 & H2).
    destruct (view_window w1 v view' b block Hi1 E' B' D') as ((Ho' & _) & Hc & _).
    destruct (view_window w v view b block Hi E B D) as ((Ho0 & _) & _).
    destruct (data_block w1 b block Hi1 D') as (bytes & Em & Hl). unfold rawAddress. rewrite Hc.
    assert (Hlen : Z.of_nat (List.length (littleEndian (elementBytes type) n)) = elementSizeTable type) by (rewrite littleEndian_length; apply elementBytes_size).
    assert (0 <= i * elementSizeTable type) by (pose proof (elementSizeTable_pos type); nia).
    unfold retains, wp. rewrite (writeBytes_eq b block _ _ bytes w1 D' Em) by lia.
    destruct (written_inv w1 block bytes (m_byteOffset view' + i * elementSizeTable type) _ Hi1 Em ltac:(lia) ltac:(rewrite Hlen; lia)) as [G1 G2].
    split; [exact G1|]. split; [exact (descends_trans _ _ _ D1 G2)|exact I].
  - destruct (inv_views _ Hi1 v view' E') as [_ Hok]. rewrite B', D' in Hok. destruct Hok as [Hc _]. cbn [cachedAddress] in Hc. unfold rawAddress. rewrite Hc.
    unfold retains, wp, writeBytes. pose proof (elementSizeTable_pos type) as Hp.
    destruct (littleEndian (elementBytes type) n) as [|x l] eqn:El.
    { apply (f_equal (@List.length Z)) in El. rewrite littleEndian_length in El. pose proof (elementBytes_size type). cbn in El. lia. }
    cbn. split; [right; split; [exact I|exact (detached_lost w w1 b block D D1 D')]|auto].
Qed.

Lemma setIndexed_safe w v b type i value : Inv w -> isTypedArrayOn w v b type -> 0 <= i ->
  safely w (setIndexedProperty v i value) (fun _ _ => True).
Proof using Laws.
  intros Hi Hv Hi0. pose proof Hv as (view & E & K & B). unfold setIndexedProperty.
  eapply safely_pure; [apply (theTypedArray_eq v view type w E K)|]. cbv beta iota.
  destruct (isUInt32Index i && (i <? m_arrayLength view)) eqn:Ef.
  - apply andb_true_iff in Ef as [_ Hl]. apply Z.ltb_lt in Hl.
    apply (safely_pure w _ _ (negb (isDetachedBuffer w b))); [unfold bind; rewrite (isDetached_eq view b w B); reflexivity|].
    destruct (isDetachedBuffer w b) eqn:D; cbn [negb]; [apply (set_safe w v b type); assumption|].
    apply attached_iff in D as [block D].
    eapply safely_bind; [apply (setDirect_safe w v b block type i value view); auto with lia|].
    intros u w' Hi' _ _. apply safely_ret; auto.
  - eapply safely_pure; [reflexivity|]. apply (set_safe w v b type); assumption.
Qed.

End Safe.

(** ** The fast path is the slow path *)

(** What a [Value] can hold: doubles in the canonical form of the constructor. *)
Definition canonical (v : JSValue) : Prop :=
  match v with
  | Int32Value i => in_int32 i
  | DoubleValue d => is_bits64 d /\ Z.land d DoubleInvalidBeginning <> DoubleInvalidBeginning
  | _ => True
  end.

Lemma valueOfDouble_int i : in_int32 i -> valueOfDouble (of_integer i) = Int32Value i.
Proof.
  intros Hi. pose proof (of_integer_bits i Hi) as Hb. unfold valueOfDouble.
  destruct (isInt32Convertible_spec (of_integer i) Hb) as [Hiff _]. rewrite <- (cast_of_integer i Hi) at 2.
  destruct (isInt32ConvertibleDouble (of_integer i)) as [c j] eqn:E.
  assert (c = true) by (apply Hiff; eauto). subst c. unfold isInt32ConvertibleDouble in E. injection E as _ <-. reflexivity.
Qed.

Lemma clampedFromDouble_int i : in_int32 i ->
  clampedFromDouble (of_integer i) = if i <? 0 then 0 else if 255 <? i then 255 else to_unsigned 8 i.
Proof.
  unfold in_int32. intros Hi. destruct (of_integer_value i ltac:(lia)) as (_ & Hn & _ & Hs & _).
  unfold clampedFromDouble. rewrite Hn, Hs. assert (Hu : 0 < 2 ^ 1074) by (apply Z.pow_pos_nonneg; lia).
  rewrite round_even_exact by (exact Hu || (apply Z.mod_mul; lia)). rewrite Z.div_mul by lia. set (u := 2 ^ 1074) in *. clearbody u.
  destruct (Z.ltb_spec i 0), (Z.ltb_spec (i * u) 0); try nia.
  destruct (Z.ltb_spec 255 i), (Z.ltb_spec (255 * u) (i * u)); try nia; reflexivity.
Qed.

Section Equivalence.
Context `{Scripts}.

(** An integral double is converted like the integer. *)
Lemma toNative_int type i w : in_int32 i -> toNative type (DoubleValue (of_integer i)) w = toNative type (Int32Value i) w.
Proof.
  intros Hi. pose proof (of_integer_bits i Hi) as Hb. pose proof (int32_integerPart i Hi) as Ep.
  destruct type; try reflexivity; cbn -[clampedFromDouble toNativeFromDouble];
    try (rewrite toNativeFromDouble_spec, Ep by (reflexivity || exact Hb); reflexivity).
  rewrite clampedFromDouble_int by exact Hi. reflexivity.
Qed.

(** Converting to a number first, as the slow path does, changes nothing. *)
Lemma numericValue_converts type v w : canonical v -> plain v ->
  (exists x, numericValue type v w = (Ret x, w) /\ toNative type x w = toNative type v w) \/
  (numericValue type v w = (Throw TypeError, w) /\ toNative type v w = (Throw TypeError, w)).
Proof.
  intros Hc Hv. destruct v as [i|d|z| |n]; [| | | |destruct (Hv n eq_refl)]; cbn [canonical] in Hc.
  - destruct (isBigIntType type) eqn:Eb; [right; destruct type; try discriminate Eb; split; reflexivity|left].
    unfold numericValue. rewrite Eb. eexists. split; [reflexivity|]. rewrite valueOfDouble_int by exact Hc. reflexivity.
  - destruct (isBigIntType type) eqn:Eb; [right; destruct type; try discriminate Eb; split; reflexivity|left].
    unfold numericValue. rewrite Eb. eexists. split; [reflexivity|]. destruct Hc as [Hb Hn]. unfold valueOfDouble.
    destruct (isInt32Convertible_spec d Hb) as [Hiff Hback]. destruct (isInt32ConvertibleDouble d) as [c j] eqn:E. cbn [fst] in *.
    destruct c; [|rewrite (proj2 (Z.eqb_neq _ _)) by exact Hn; reflexivity].
    assert (Ej : j = cast_int32 d) by (unfold isInt32ConvertibleDouble in E; congruence). rewrite Ej.
    rewrite (Hback eq_refl) at 2. symmetry. apply toNative_int, cast_int32_range.
  - destruct (isBigIntType type) eqn:Eb; [left|right; unfold numericValue; rewrite Eb; destruct type; try discriminate Eb; split; reflexivity].
    unfold numericValue. rewrite Eb. eexists. split; reflexivity.
  - destruct (isBigIntType type) eqn:Eb; [right; destruct type; try discriminate Eb; split; reflexivity|left].
    unfold numericValue. rewrite Eb. eexists. split; [reflexivity|]. destruct type; try discriminate Eb; reflexivity.
Qed.

(** Only the attribute is different. *)
Lemma get_fast_slow w v b type i : Inv w -> isTypedArrayOn w v b type -> 0 <= i < 2 ^ 53 ->
  exists r c, typedArray_get v (of_integer i) w = (Ret (option_map (fun x => elementResult x true true true) r), w) /\
    getIndexedProperty v i w = (Ret (option_map (fun x => elementResult x true true c) r), w) /\
    (forall view, views w !! v = Some view -> c = negb (isUInt32Index i && (i <? m_arrayLength view))).
Proof.
  intros Hi Hv Hi0. pose proof Hv as (view & E & K & B). destruct (elementGet_safe w v b type (of_integer i) Hi Hv) as (r & Es & Hr).
  assert (Er : r = option_map (fun x => elementResult x true true true) (option_map resultValue r)).
  { destruct r as [x|]; [|reflexivity]. destruct (Hr x eq_refl) as (y & -> & _). reflexivity. }
  exists (option_map resultValue r), (negb (isUInt32Index i && (i <? m_arrayLength view))). split; [unfold typedArray_get; rewrite <- Er; exact Es|].
  split; [|intros view'; rewrite E; intros [= <-]; reflexivity]. unfold getIndexedProperty, bind at 1.
  rewrite (theTypedArray_eq v view type w E K). destruct (isUInt32Index i && (i <? m_arrayLength view)) eqn:Ef; cbn [negb];
    [|rewrite <- Er; exact Es].
  apply andb_true_iff in Ef as [_ Hl]. apply Z.ltb_lt in Hl. destruct (of_integer_inRange view i Hi0 Hl) as [Hr' Ht].
  unfold integerIndexedElementGet, bind at 1 in Es. rewrite (theTypedArray_eq v view type w E K) in Es.
  unfold bind at 1 in Es. rewrite (isDetached_eq view b w B), Hr', Ht, orb_false_r in Es.
  unfold bind at 1. rewrite (isDetached_eq view b w B). destruct (isDetachedBuffer w b) eqn:D; [injection Es as <-; reflexivity|].
  apply attached_iff in D as [block D]. destruct (data_block w b block Hi D) as (bytes & Em & Hcap).
  destruct (element_fits w v view b block type i Hi E K B D ltac:(lia)) as (H0 & H1 & H2).
  unfold bind in Es |- *. rewrite (bufferOf_eq view b w B), (getValueFromBuffer_eq w b block bytes) in Es by (assumption || lia).
  rewrite (getDirect_eq w v view b block bytes type i Hi E K B D Em ltac:(lia)). injection Es as <-. reflexivity.
Qed.

(** The two writes are the same write. *)
Lemma setDirect_eq w v view b block type i value : Inv w -> views w !! v = Some view -> viewKind view = TypedArrayObject type ->
  m_buffer view = Some b -> dataOf w b = Some block -> 0 <= i < m_arrayLength view -> plain value ->
  setDirectValueInBuffer v type (i * elementSizeTable type) value w
  = setValueInBuffer b (i * elementSizeTable type + m_byteOffset view) type value true w.
Proof.
  intros Hi E K B D Hr Hv. destruct (view_window w v view b block Hi E B D) as (_ & Hc & _).
  unfold setDirectValueInBuffer, setValueInBuffer, numberToRawBytes, bind at 1 3. rewrite dataPointer_eq, D.
  unfold bind. destruct (toNative_plain type value Hv) as [[n En]|En]; rewrite En; [|reflexivity].
  rewrite (theView_eq v view w E). unfold ret, rawAddress. rewrite Hc. cbn [addressIn inOrder].
  rewrite (Z.add_comm (m_byteOffset view)). reflexivity.
Qed.

Lemma setValueInBuffer_converted b off type x v le w : toNative type x w = toNative type v w ->
  setValueInBuffer b off type x le w = setValueInBuffer b off type v le w.
Proof. intros E. unfold setValueInBuffer, numberToRawBytes, bind, dataPointer, gets. rewrite E. reflexivity. Qed.

Lemma setValueInBuffer_refused b off type v le w : toNative type v w = (Throw TypeError, w) ->
  setValueInBuffer b off type v le w = (Throw TypeError, w).
Proof. intros E. unfold setValueInBuffer, numberToRawBytes, bind, dataPointer, gets. rewrite E. reflexivity. Qed.

Lemma set_fast_slow w v b type i value : Inv w -> isTypedArrayOn w v b type -> 0 <= i < 2 ^ 53 -> canonical value -> plain value ->
  setIndexedProperty v i value w = typedArray_set v (of_integer i) value w.
Proof.
  intros Hi (view & E & K & B) Hi0 Hcan Hv. unfold setIndexedProperty. unfold bind at 1. rewrite (theTypedArray_eq v view type w E K).
  destruct (isUInt32Index i && (i <? m_arrayLength view)) eqn:Ef; [|reflexivity].
  apply andb_true_iff in Ef as [_ Hl]. apply Z.ltb_lt in Hl. destruct (of_integer_inRange view i Hi0 Hl) as [Hr Ht].
  unfold bind at 1 2. rewrite (isDetached_eq view b w B). destruct (isDetachedBuffer w b) eqn:D; cbn [negb ret]; [reflexivity|].
  apply attached_iff in D as [block D'].
  unfold typedArray_set, integerIndexedElementSet, bind at 1 2 3. rewrite (theTypedArray_eq v view type w E K).
  rewrite (setDirect_eq w v view b block type i value Hi E K B D' ltac:(lia) Hv). unfold bind at 1.
  destruct (numericValue_converts type value w Hcan Hv) as [(x & -> & Hx)|[-> Hx]].
  - unfold bind. rewrite (theView_eq v view w E), (isDetached_eq view b w B). rewrite (proj2 (attached_iff w b) (ex_intro _ block D')).
    rewrite Hr, Ht. cbn [orb]. rewrite (bufferOf_eq view b w B), (setValueInBuffer_converted _ _ _ _ _ _ _ Hx).
    destruct (setValueInBuffer b _ type value true w) as [[u|e|] w']; reflexivity.
  - unfold bind. rewrite (setValueInBuffer_refused _ _ _ _ _ _ Hx). reflexivity.
Qed.
End Equivalence.

(** * Typed arrays stay in memory: buffers, data views, constructors

    The builtins that make and change array buffers and views keep the invariant. *)

Section Memory.
Context `{Laws : ScriptLaws}.

Lemma throwIfDetached_safe w b : Inv w -> safely w (throwTypeErrorIfDetached b) (fun _ w' => w' = w /\ isDetachedBuffer w b = false).
Proof using Type.
  intros Hi. unfold safely, wp. rewrite throwIfDetached_eq. destruct (isDetachedBuffer w b); cbn; [|auto using descends_refl].
  split; [left; exact I|auto using descends_refl].
Qed.

(** Goes on in the same world, with the block of the buffer. *)
Lemma unlessDetached {B} w b (k : unit -> WM B) (R : B -> World -> Prop) : Inv w ->
  (forall block, dataOf w b = Some block -> safely w (k tt) R) -> safely w (bind (throwTypeErrorIfDetached b) k) R.
Proof using Type.
  clear Laws. intros Hi Hk. eapply safely_bind; [apply (throwIfDetached_safe w b Hi)|].
  intros [] w' _ _ [-> D]. apply attached_iff in D as [block D]. exact (Hk block D).
Qed.

(** ** Data views *)

Lemma viewIndex_safe w view i type : Inv w -> 0 <= i -> 0 <= m_byteOffset view ->
  safely w (viewIndex view i type) (fun n w' => w' = w /\ 0 <= n /\ n + elementSizeTable type <= m_byteOffset view + m_byteLength view).
Proof using Type.
  clear Laws. intros Hi H0 Ho. unfold viewIndex. destruct (Z.ltb_spec (m_byteLength view) (i + elementSizeTable type)).
  - apply safely_throw; cbn; auto.
  - apply safely_ret; [exact Hi|]. split; [reflexivity|lia].
Qed.

Lemma getViewValue_safe w v b index le type : Inv w -> isDataViewOn w v b -> int32_ok index ->
  safely w (getViewValue v index le type) (fun _ _ => True).
Proof using Laws.
  intros Hi Hv Hx. unfold getViewValue. eapply safely_bind; [apply (toIndex_safe index w Hi Hx)|].
  intros [i|] w1 Hi1 D1 Hr; [|apply safely_throw; cbn; auto]. specialize (Hr i eq_refl).
  destruct (dataView_after _ _ _ _ D1 Hv) as (view & E & K & B). eapply safely_pure; [apply (theView_eq v view w1 E)|].
  eapply safely_pure; [apply (bufferOf_eq view b w1 B)|]. apply unlessDetached; [exact Hi1|]. intros block D.
  destruct (view_window w1 v view b block Hi1 E B D) as ((Ho & _) & _ & Hw).
  eapply safely_bind; [apply (viewIndex_safe w1 view i type Hi1); lia|]. intros n w2 _ _ (-> & Hn0 & Hn).
  destruct (getValueFromBuffer_safe w1 b block n type le Hi1 D Hn0 ltac:(lia)) as (x & Ex & _).
  unfold safely, wp. rewrite Ex. auto using descends_refl.
Qed.

(** The conversion in [setValueInBuffer] is made with the address in hand: when it detaches the buffer, the block of the
    address may be freed. *)
Lemma setValueInBuffer_safe w b block off type v le : Inv w -> dataOf w b = Some block -> 0 <= off ->
  off + elementSizeTable type <= capacityOf w b -> safely w (setValueInBuffer b off type v le) (fun _ _ => True).
Proof using Laws.
  intros Hi D H0 Hl. destruct (data_block w b block Hi D) as (bytes & Em & Hc). unfold setValueInBuffer.
  eapply safely_pure; [apply dataPointer_eq|]. rewrite D. cbn [addressIn].
  apply safely_retains. eapply retains_step; [apply descends_refl| |].
  { unfold numberToRawBytes. eapply safely_bind; [apply (toNative_safe type v w Hi)|]. intros n w' Hi' _ _.
    apply (safely_ret w' _ (fun l _ => Z.of_nat (List.length l) = elementSizeTable type)); [exact Hi'|].
    cbv beta. rewrite littleEndian_length. apply elementBytes_size. }
  intros l w1 Hi1 _ D1 Hlen. cbv beta in Hlen. destruct (d_block _ _ _ D1 block bytes Em) as (bytes1 & Em1 & Hl1).
  assert (Hfit : off + Z.of_nat (List.length (inOrder le l)) <= Z.of_nat (List.length bytes1)) by (rewrite inOrder_length; lia).
  unfold retains, wp, writeBytes, bind at 1, gets. destruct (owned w1 block) eqn:O.
  - rewrite (writeBlock_eq block off _ bytes1 w1 Em1 H0 Hfit). destruct (written_inv w1 block bytes1 off _ Hi1 Em1 H0 Hfit) as [G1 G2].
    split; [exact G1|]. split; [exact (descends_trans _ _ _ D1 G2)|exact I].
  - cbn. split; [|auto]. right. split; [exact I|]. apply (detached_lost w w1 b block D D1).
    destruct (dataOf w1 b) as [block'|] eqn:D'; [|reflexivity].
    destruct (descends_data w w1 b block' D1 Hi (data_buffer w b block D) D') as (Dw & _). rewrite D in Dw. injection Dw as <-.
    rewrite (owned_data w1 b block D') in O. discriminate.
Qed.

Lemma setViewValue_safe w v b index le type val : Inv w -> isDataViewOn w v b -> int32_ok index ->
  safely w (setViewValue v index le type val) (fun _ _ => True).
Proof using Laws.
  intros Hi Hv Hx. unfold setViewValue. eapply safely_bind; [apply (toIndex_safe index w Hi Hx)|].
  intros [i|] w1 Hi1 D1 Hr; [|apply safely_throw; cbn; auto]. specialize (Hr i eq_refl).
  eapply safely_bind; [apply (toNumeric_safe val w1 Hi1)|]. intros _ w2 Hi2 D2 _.
  destruct (dataView_after _ _ _ _ (descends_trans _ _ _ D1 D2) Hv) as (view & E & K & B).
  eapply safely_pure; [apply (theView_eq v view w2 E)|]. eapply safely_pure; [apply (bufferOf_eq view b w2 B)|].
  apply unlessDetached; [exact Hi2|]. intros block D.
  destruct (view_window w2 v view b block Hi2 E B D) as ((Ho & _) & _ & Hw).
  eapply safely_bind; [apply (viewIndex_safe w2 view i type Hi2); lia|]. intros n w3 _ _ (-> & Hn0 & Hn).
  apply (setValueInBuffer_safe w2 b block); auto with lia.
Qed.

(** ** New views *)

Lemma newView_safe w kind : Inv w -> safely w (newView kind) (fun v w' =>
  w' = setViews w (views w ++ [mkView kind None None 0 0 0 false]) /\ v = List.length (views w)).
Proof using Type.
  intros Hi. unfold newView. apply wp_bind, wp_get, wp_bind, wp_modify, wp_ret.
  split; [apply newView_inv, Hi|]. split; [apply newView_descends|auto].
Qed.

Lemma newView_lookup w kind : views (setViews w (views w ++ [mkView kind None None 0 0 0 false])) !! List.length (views w)
  = Some (mkView kind None None 0 0 0 false).
Proof using Type. cbn. rewrite lookup_app_r, Nat.sub_diag by lia. reflexivity. Qed.

(** A new view without a buffer gets one. *)
Definition bareView (w : World) (v : nat) (kind : ViewKind) : Prop := views w !! v = Some (mkView kind None None 0 0 0 false).

Lemma setBuffer_retains w0 w v kind b off len n auto : Inv w -> bareView w v kind -> descends w0 w -> (List.length (views w0) <= v)%nat ->
  is_Some (buffers w !! b) -> shapedAs kind off len n auto -> off + len < sizeLimit ->
  (is_Some (dataOf w b) -> off + len <= capacityOf w b) ->
  retains w0 w (setBuffer v (Some b) off len n auto) (fun _ w' => dataOf w' b = dataOf w b /\
    views w' !! v = Some (viewOn kind b (dataOf w b) off len n auto)).
Proof using Type.
  clear Laws. intros Hi E Hd0 Hv [buffer Eb] Hs Hlim Hc.
  eapply wp_mono; [apply (setBuffer_spec v b _ buffer off len n auto w (fun _ _ => False) Hi E eq_refl Eb Hs Hlim Hc)| |contradiction].
  intros _ w' (Hi' & Hd & ->). split; [exact Hi'|]. split; [exact (Hd w0 Hd0 Hv)|]. split; [apply viewed_data|].
  cbn. rewrite alter_eq, decide_True, E by reflexivity. reflexivity.
Qed.

Lemma bareView_after w w' v kind : descends w w' -> bareView w v kind -> bareView w' v kind.
Proof using Type. intros Hd E. apply (bare_after w w' v _ Hd E). reflexivity. Qed.

Lemma newView_bare w kind : Inv w -> safely w (newView kind) (fun v w' => v = List.length (views w) /\ bareView w' v kind).
Proof using Type.
  intros Hi. eapply safely_mono; [apply (newView_safe w kind Hi)|]. intros v w' _ _ [-> ->]. split; [reflexivity|apply newView_lookup].
Qed.

Lemma length_bounded w b block : Inv w -> dataOf w b = Some block ->
  0 <= byteLengthOf w b <= capacityOf w b /\ capacityOf w b < sizeLimit.
Proof using Type.
  clear Laws. intros Hi D. unfold byteLengthOf. unfold dataOf in D. destruct (storeOf w b) as [store|] eqn:Es; [|discriminate].
  destruct (store_capacity w b store (inv_structure _ Hi) Es) as (_ & Hl & Hm). auto.
Qed.

Lemma dataViewConstructor_safe w b argv : Inv w -> is_Some (buffers w !! b) -> (forall n, int32_ok (arg argv n)) ->
  safely w (builtinDataViewConstructor b argv) (fun v w' => isDataViewOn w' v b).
Proof using Laws.
  intros Hi Hb Ha. unfold builtinDataViewConstructor. eapply safely_bind; [apply (toIndex_safe _ w Hi (Ha 0%nat))|].
  intros [off|] w1 Hi1 D1 Hr; [|apply safely_throw; cbn; auto]. specialize (Hr off eq_refl).
  apply unlessDetached; [exact Hi1|]. intros block D. pose proof (buffer_after _ _ _ D1 Hb) as Hb1.
  eapply safely_pure; [reflexivity|]. destruct (length_bounded w1 b block Hi1 D) as [Hlen Hcap]. set (len := byteLengthOf w1 b) in *.
  destruct (Z.ltb_spec len off); [apply safely_throw; cbn; auto|].
  eapply (safely_bind _ _ _ (fun n _ => 0 <= n /\ off + n <= len)).
  { destruct (isUndefined (arg argv 1)); [apply safely_ret; [exact Hi1|lia]|].
    eapply safely_bind; [apply (toIndex_safe _ w1 Hi1 (Ha 1%nat))|]. intros [n|] w2 Hi2 D2 Hn; [|apply safely_throw; cbn; auto].
    specialize (Hn n eq_refl). destruct (Z.ltb_spec len (off + n)); [apply safely_throw; cbn; auto|apply safely_ret; [exact Hi2|lia]]. }
  intros n w2 Hi2 D2 Hn. eapply safely_bind; [apply (polite_prototype w2 Hi2)|]. intros _ w3 Hi3 D3 _.
  pose proof (descends_trans _ _ _ D2 D3) as D13. apply safely_retains.
  eapply retains_step; [apply descends_refl|apply (newView_bare w3 DataViewObject Hi3)|].
  intros v w4 Hi4 D4 _ [Ev Ew]. eapply retains_bind.
  { apply (setBuffer_retains w3 w4 v DataViewObject b off n 0 false Hi4 Ew D4); [lia| | |lia|].
    - apply (buffer_after w1); [exact (descends_trans _ _ _ D13 D4)|exact Hb1].
    - split; [lia|]. split; [lia|]. split; [lia|]. split; reflexivity.
    - intros [block' Db]. destruct (descends_data w1 w4 b block' (descends_trans _ _ _ D13 D4) Hi1 Hb1 Db) as (_ & -> & _). lia. }
  intros _ w5 Hi5 D5 (_ & E). eapply retains_step; [exact D5|apply (throwIfDetached_safe w5 b Hi5)|].
  intros [] w6 _ _ _ [-> _]. apply retains_ret; [exact Hi5|exact D5|]. eexists. split; [exact E|]. split; reflexivity.
Qed.
End Memory.
