(* ===== verification/TypedArrayMethods.v ===== *)
(** * Typed arrays stay in memory: the builtins of array buffers and typed arrays *)

From stdpp Require Import list.
From S2P Require Import Prelude Float64 Ieee754 Value ArrayBuffer ArrayBufferSpec ArrayBufferOps ArrayElement.
From S2P Require Import TypedArray TypedArrayBuiltins TypedArraySpec TypedArraySafe.
Local Open Scope esc_scope.
Local Open Scope Z_scope.

Section Methods.
Context `{Laws : ScriptLaws}.

(** ** New array buffers *)

Definition freshBuffer (n : Z) (b : nat) (w' : World) : Prop :=
  is_Some (buffers w' !! b) /\ n < maxArrayBufferSize /\ byteLengthOf w' b = n /\
  exists block, dataOf w' b = Some block /\ n <= capacityOf w' b.

Lemma allocate_safe w n max : Inv w -> 0 <= n -> (forall m, max = Some m -> n <= m) ->
  safely w (allocateArrayBuffer n max) (fun b w' => b = List.length (buffers w) /\ freshBuffer n b w').
Proof using Type.
  clear Laws. intros Hi Hn Hm. eapply wp_mono; [apply (allocateArrayBuffer_spec n max w Hi Hn Hm)| |].
  - intros b w' [(Eb & Hi' & Hd & Em & store & Es & Ed & El) Hmax]. split; [exact Hi'|]. split; [exact Hd|]. split; [exact Eb|].
    split; [|split; [exact Hmax|split]].
    + unfold storeOf in Es. destruct (buffers w' !! b); [eauto|discriminate].
    + unfold byteLengthOf. rewrite Es. exact El.
    + destruct (store_capacity w' b store (inv_structure _ Hi') Es) as (D & Hl & _). exists (m_data store). split; [exact D|]. lia.
  - intros e w' (-> & Hi' & Hd). split; [left; exact I|auto].
Qed.

Lemma fresh_after n b w w' block : Inv w -> descends w w' -> freshBuffer n b w -> dataOf w' b = Some block ->
  n <= capacityOf w' b /\ dataOf w b = Some block.
Proof using Type.
  clear Laws. intros Hi Hd (Hb & _ & _ & block' & D & Hc) E. destruct (descends_data w w' b block Hd Hi Hb E) as (D' & -> & _). auto.
Qed.

Lemma freshBuffer_rewritten n b w w' : Inv w -> rewritten w w' -> freshBuffer n b w -> freshBuffer n b w'.
Proof using Type.
  clear Laws. intros Hi R (Hb & Hmax & Hlen & block & D & Hcap). pose proof R as (R1 & R2 & R3 & R4 & R5).
  split; [exact (buffer_after _ _ _ R2 Hb)|]. split; [exact Hmax|]. split.
  - unfold byteLengthOf, storeOf in *. rewrite R4, R3. exact Hlen.
  - exists block. split; [rewrite (rewritten_data _ _ _ R); exact D|]. rewrite (rewritten_capacity w w' b block Hi R D). exact Hcap.
Qed.

Lemma constructor_safe w length options : Inv w -> int32_ok length ->
  safely w (builtinArrayBufferConstructor length options) (fun b w' => is_Some (buffers w' !! b)).
Proof using Laws.
  intros Hi Hl. unfold builtinArrayBufferConstructor. eapply safely_bind; [apply (toIndex_safe length w Hi Hl)|].
  intros [n|] w1 Hi1 D1 Hn; [|apply safely_throw; cbn; auto]. specialize (Hn n eq_refl).
  eapply (safely_bind _ _ _ (fun m _ => forall x, m = Some x -> n <= x)).
  { destruct options as [o|]; [|apply safely_ret; [exact Hi1|discriminate]].
    eapply safely_bind; [apply (polite_option o w1 Hi1)|]. intros v w2 Hi2 D2 Hv.
    destruct (isUndefined v); [apply safely_ret; [exact Hi2|discriminate]|].
    eapply safely_bind; [apply (toIndex_safe v w2 Hi2 Hv)|]. intros [m|] w3 Hi3 D3 Hm; [|apply safely_throw; cbn; auto].
    destruct (Z.ltb_spec m n); [apply safely_throw; cbn; auto|]. apply safely_ret; [exact Hi3|]. intros x [= <-]. lia. }
  intros m w2 Hi2 D2 Hm. eapply safely_bind; [apply (polite_prototype w2 Hi2)|]. intros _ w3 Hi3 D3 _.
  eapply safely_mono; [apply (allocate_safe w3 n m Hi3); [lia|exact Hm]|]. intros b w4 _ _ (_ & Hb & _). exact Hb.
Qed.

(** ** Copying into a buffer *)

Lemma fillData_safe w b block source n : Inv w -> dataOf w b = Some block -> Z.of_nat n <= capacityOf w b ->
  (exists l, readBytes source n w = (Ret l, w) /\ List.length l = n) ->
  safely w (fillData b source n) (fun _ w' => rewritten w w').
Proof using Type.
  clear Laws. intros Hi D Hn (l & El & Hl). destruct (data_block w b block Hi D) as (bytes & Em & Hc).
  unfold fillData. eapply safely_pure; [exact El|]. eapply safely_pure; [apply dataPointer_eq|]. rewrite D. cbn [addressIn].
  unfold safely, wp. rewrite (writeBytes_eq b block 0 l bytes w D Em) by lia.
  pose proof (written_rewritten w block bytes 0 l Hi Em ltac:(lia) ltac:(lia)) as R.
  split; [exact (proj1 R)|]. split; [exact (proj1 (proj2 R))|exact R].
Qed.

Lemma read_range w b block off n : Inv w -> dataOf w b = Some block -> 0 <= off -> off + Z.of_nat n <= capacityOf w b ->
  exists l, readBytes (addressIn (dataOf w b) off) n w = (Ret l, w) /\ List.length l = n.
Proof using Type.
  clear Laws. intros Hi D H0 Hn. destruct (data_block w b block Hi D) as (bytes & Em & Hc). pose proof D as Ed. rewrite D. cbn [addressIn].
  eexists. split; [apply (readBytes_eq b block off n bytes w Ed Em); lia|]. rewrite length_take, length_drop. lia.
Qed.

(** [range_ok w b off n]: the bytes are there while the buffer has memory. *)
Definition range_ok (w : World) (b : nat) (off n : Z) : Prop :=
  is_Some (buffers w !! b) /\ 0 <= off /\ 0 <= n /\ (is_Some (dataOf w b) -> off + n <= capacityOf w b).

Lemma range_after w w' b off n : Inv w -> descends w w' -> range_ok w b off n -> range_ok w' b off n.
Proof using Type.
  clear Laws. intros Hi Hd (Hb & H0 & Hn & Hc). split; [exact (buffer_after w w' b Hd Hb)|]. split; [exact H0|]. split; [exact Hn|].
  intros [block D]. destruct (descends_data w w' b block Hd Hi Hb D) as (D' & -> & _). apply Hc. eauto.
Qed.

Lemma cloneArrayBuffer_safe w proto src off n : Inv w -> safely w proto (fun _ _ => True) -> range_ok w src off n ->
  safely w (cloneArrayBuffer proto src off n) (fun b w' => freshBuffer n b w' /\ is_Some (dataOf w' src)).
Proof using Type.
  clear Laws. intros Hi Hp Hr. pose proof Hr as (_ & H0 & Hn & _). unfold cloneArrayBuffer.
  eapply safely_bind; [exact Hp|]. intros _ w1 Hi1 D1 _.
  eapply safely_bind; [apply (allocate_safe w1 n None Hi1 Hn); discriminate|]. intros b w2 Hi2 D2 [_ Hf].
  apply unlessDetached; [exact Hi2|]. intros block D. eapply safely_pure; [apply dataPointer_eq|].
  destruct (range_after w w2 src off n Hi (descends_trans _ _ _ D1 D2) Hr) as (_ & _ & _ & Hc).
  pose proof Hf as (Hb & Hmax & Hlen & block' & D' & Hcap).
  eapply safely_bind; [apply (fillData_safe w2 b block'); [exact Hi2|exact D'|lia|]|].
  - apply (read_range w2 src block); [exact Hi2|exact D|exact H0|]. rewrite Z2Nat.id by lia. apply Hc. eauto.
  - intros u w3 Hi3 D3 R. apply safely_ret; [exact Hi3|]. split; [exact (freshBuffer_rewritten _ _ _ _ Hi2 R Hf)|].
    rewrite (rewritten_data _ _ src R), D. eauto.
Qed.

(** ** ArrayBuffer.prototype *)

Lemma clampIndex_range n len : 0 <= len -> 0 <= clampIndex n len <= len.
Proof using Type. clear Laws. intros Hl. destruct n as [z| |]; cbn; [|lia..]. destruct (Z.ltb_spec z 0); lia. Qed.

Lemma relativeStart_safe w v len : Inv w -> 0 <= len -> safely w (relativeStart v len) (fun n _ => 0 <= n <= len).
Proof using Laws.
  intros Hi Hl. eapply safely_bind; [apply (toInteger_safe v w Hi)|]. intros n w' Hi' _ _. apply safely_ret; [exact Hi'|apply clampIndex_range, Hl].
Qed.
Lemma relativeEnd_safe w v len : Inv w -> 0 <= len -> safely w (relativeEnd v len) (fun n _ => 0 <= n <= len).
Proof using Laws.
  intros Hi Hl. unfold relativeEnd. destruct (isUndefined v); [apply safely_ret; [exact Hi|lia]|]. apply relativeStart_safe; assumption.
Qed.

(** The store behind a buffer that has memory. *)
Lemma storeOf_data w b block : dataOf w b = Some block -> exists store, storeOf w b = Some store.
Proof using Type. unfold dataOf. destruct (storeOf w b); [eauto|discriminate]. Qed.

Lemma resize_safe w b argv : Inv w -> is_Some (buffers w !! b) ->
  safely w (builtinArrayBufferResize b argv) (fun _ _ => True).
Proof using Laws.
  intros Hi Hb. unfold builtinArrayBufferResize. eapply safely_bind; [apply (throwIfDetached_safe w b Hi)|].
  intros [] w0 _ _ [-> Hd0]. pose proof (proj1 (attached_iff w b) Hd0) as [block D].
  eapply safely_pure; [reflexivity|]. destruct (isResizableArrayBuffer w b) eqn:Er; cbn [negb]; [|apply safely_throw; cbn; auto].
  apply safely_retains. eapply retains_step; [apply descends_refl|apply (toInteger_safe _ w Hi)|]. intros n w1 Hi1 _ D1 _.
  destruct (isNegative n) eqn:En; [apply retains_throw; cbn; auto|].
  destruct (dataOf w1 b) as [block1|] eqn:Ed.
  - apply (retains_mono w w1 _ (fun _ w2 => descends w1 w2 /\ True)); [apply (retains_safely _ _ _ _ D1)|auto].
    destruct (descends_data w w1 b block1 D1 Hi Hb Ed) as (_ & _ & s & store & store' & Es & Es' & Ha & Est & Hr & Hm).
    eapply safely_pure; [unfold maxByteLengthOf, bind, get; rewrite Es'; reflexivity|].
    destruct n as [z| |]; cbn in En; try discriminate; [|apply safely_throw; cbn; auto].
    apply Z.ltb_ge in En. destruct (Z.ltb_spec (m_maxByteLength store') z); [apply safely_throw; cbn; auto|].
    assert (Ebs : backingStore b w1 = (Ret s, w1)).
    { unfold storeOf in Es'. unfold backingStore, theBuffer, bind, get. destruct (buffers w1 !! b) as [buffer1|] eqn:Eb1; [|discriminate].
      destruct Ha as (buffer & Eb & Hs). cbn. destruct (d_buffer _ _ _ D1 b buffer I Eb) as (buffer1' & Eb1' & Hk).
      rewrite Eb1 in Eb1'. injection Eb1' as <-. destruct (m_backingStore buffer1) as [s1|]; [|discriminate].
      destruct Hk as [Hk|Hk]; [|discriminate]. unfold ret. do 2 f_equal. congruence. }
    eapply safely_pure; [exact Ebs|]. eapply wp_mono;
      [apply (resize_spec s z store' w1 (fun _ _ => False) Hi1 Est); [|lia]| |contradiction].
    + rewrite Hr. unfold isResizableArrayBuffer in Er. rewrite Es in Er. exact Er.
    + intros u w2 (G1 & G2 & _). auto.
  - assert (Es : storeOf w1 b = None) by (unfold dataOf in Ed; destruct (storeOf w1 b); [discriminate|reflexivity]).
    assert (Em : maxByteLengthOf b w1 = (Throw NullPointer, w1)) by (unfold maxByteLengthOf, bind, get; rewrite Es; reflexivity).
    unfold retains, wp, bind. rewrite Em. split; [right; split; [exact I|exact (detached_lost w w1 b block D D1 Ed)]|auto].
Qed.

Lemma detach_safe w b : Inv w -> is_Some (buffers w !! b) -> safely w (detachArrayBuffer b) (fun _ _ => True).
Proof using Type.
  clear Laws. intros Hi Hb. eapply wp_mono; [apply (detachArrayBuffer_spec b w (fun _ _ => False) Hi Hb)| |contradiction].
  intros u w' [Hi' Hd]. split; [exact Hi'|]. split; [exact (detached_descends b w w' Hd)|exact I].
Qed.

Lemma transfer_safe w b argv : Inv w -> is_Some (buffers w !! b) ->
  safely w (builtinArrayBufferTransfer b argv) (fun b' w' => is_Some (buffers w' !! b')).
Proof using Laws.
  intros Hi Hb. unfold builtinArrayBufferTransfer. apply unlessDetached; [exact Hi|]. intros block D.
  eapply safely_pure; [reflexivity|]. eapply (safely_bind _ _ _ (fun _ _ => True)).
  { destruct (isUndefined (arg argv 0)); [apply safely_ret; auto|apply toInteger_safe, Hi]. }
  intros n w1 Hi1 D1 _. destruct (indexOfInteger n) as [z|] eqn:En; [|apply safely_throw; cbn; auto].
  pose proof (indexOfInteger_index n z En) as Hz.
  eapply safely_bind; [apply (allocate_safe w1 z None Hi1); [lia|discriminate]|]. intros b' w2 Hi2 D2 [_ Hf].
  eapply safely_pure; [apply dataPointer_eq|]. eapply safely_pure; [reflexivity|]. pose proof Hf as (Hb' & _ & _ & block' & D' & Hcap).
  eapply safely_bind; [apply (fillData_safe w2 b' block' _ _ Hi2 D')|].
  - lia.
  - destruct (dataOf w2 b) as [block2|] eqn:E2.
    + rewrite <- E2. destruct (length_bounded w2 b block2 Hi2 E2). apply (read_range w2 b block2 0 _ Hi2 E2); lia.
    + exists []. unfold byteLengthOf. unfold dataOf in E2. destruct (storeOf w2 b); [discriminate|].
      replace (Z.to_nat (Z.min z 0)) with O by lia. split; reflexivity.
  - intros _ w3 Hi3 D3 _. eapply safely_bind; [apply (detach_safe w3 b Hi3)|].
    + apply (buffer_after w); [|exact Hb]. exact (descends_trans _ _ _ D1 (descends_trans _ _ _ D2 D3)).
    + intros _ w4 Hi4 D4 _. apply safely_ret; [exact Hi4|]. apply (buffer_after w2); [exact (descends_trans _ _ _ D3 D4)|exact Hb'].
Qed.

(** Buffers of 2^31 bytes and more, which only an embedder can make, overflow the [int]s of [slice]. *)
Lemma sliceLength_spec first final : 0 <= first < 2 ^ 31 -> 0 <= final < 2 ^ 31 ->
  Z.max (to_int32 (intOfDouble final - to_int32 first)) 0 = Z.max (final - first) 0.
Proof using Type.
  clear Laws. intros H1 H2. unfold intOfDouble. rewrite (proj2 (Z.leb_le _ _)), (proj2 (Z.ltb_lt _ _)) by lia. cbn [andb].
  rewrite (to_int32_id first), to_int32_id by (unfold in_int32; lia). reflexivity.
Qed.

Lemma slice_safe w b argv : Inv w -> is_Some (buffers w !! b) -> byteLengthOf w b < 2 ^ 31 ->
  safely w (builtinArrayBufferSlice b argv) (fun b' w' => is_Some (buffers w' !! b')).
Proof using Laws.
  intros Hi Hb Hsmall. unfold builtinArrayBufferSlice. apply unlessDetached; [exact Hi|]. intros block D.
  destruct (length_bounded w b block Hi D) as [Hlen _]. eapply safely_pure; [reflexivity|]. set (len := byteLengthOf w b) in *.
  eapply safely_bind; [apply (relativeStart_safe w _ len Hi); lia|]. intros first w1 Hi1 D1 Hfirst.
  eapply safely_bind; [apply (relativeEnd_safe w1 _ len Hi1); lia|]. intros final w2 Hi2 D2 Hfinal.
  cbv beta in Hfirst, Hfinal. cbv zeta. rewrite sliceLength_spec by lia. set (newLen := Z.max (final - first) 0).
  eapply safely_bind; [apply (polite_species b w2 Hi2)|]. intros _ w3 Hi3 D3 _.
  eapply safely_bind; [apply (polite_construct b newLen w3 Hi3)|]. intros [b'|] w4 Hi4 D4 Hb'; [|apply safely_throw; cbn; auto].
  specialize (Hb' b' eq_refl). apply unlessDetached; [exact Hi4|]. intros block' D'.
  destruct (Nat.eqb_spec b' b); [apply safely_throw; cbn; auto|]. eapply safely_pure; [reflexivity|].
  destruct (Z.ltb_spec (byteLengthOf w4 b') newLen); [apply safely_throw; cbn; auto|].
  apply unlessDetached; [exact Hi4|]. intros block4 D4b. eapply safely_pure; [apply dataPointer_eq|].
  pose proof (descends_trans _ _ _ D1 (descends_trans _ _ _ D2 (descends_trans _ _ _ D3 D4))) as D14.
  destruct (descends_data w w4 b block4 D14 Hi Hb D4b) as (_ & Hcap & _).
  destruct (length_bounded w4 b' block' Hi4 D') as [Hl' _].
  eapply safely_bind; [apply (fillData_safe w4 b' block'); [exact Hi4|exact D'|lia|]|].
  - apply (read_range w4 b block4); [exact Hi4|exact D4b|lia|]. rewrite Hcap. unfold newLen. lia.
  - intros _ w5 Hi5 D5 _. apply safely_ret; [exact Hi5|]. exact (buffer_after _ _ _ D5 Hb').
Qed.
End Methods.

(** * Typed arrays stay in memory: constructors, and the methods that move elements *)

Section Construct.
Context `{Laws : ScriptLaws}.

(** ** Loops over elements *)

(** Steps that only write, in a row. *)
Definition rewrites (w : World) (m : WM unit) : Prop := safely w m (fun _ w' => rewritten w w').

Lemma rewrites_bind w (m : WM unit) (k : unit -> WM unit) : rewrites w m ->
  (forall w', Inv w' -> rewritten w w' -> rewrites w' (k tt)) -> rewrites w (bind m k).
Proof using Type.
  clear Laws. intros Hm Hk. eapply safely_bind; [exact Hm|]. intros [] w' Hi _ R. eapply safely_mono; [exact (Hk w' Hi R)|].
  intros [] w'' _ _ R'. exact (rewritten_trans _ _ _ R R').
Qed.

Lemma setValue_rewrites w b block off type v le : Inv w -> dataOf w b = Some block -> 0 <= off ->
  off + elementSizeTable type <= capacityOf w b -> plain v -> rewrites w (setValueInBuffer b off type v le).
Proof using Type.
  clear Laws. intros Hi D H0 Hl Hv. unfold rewrites, safely, wp.
  destruct (setValueInBuffer_plain w b block off type v le Hi D H0 Hl Hv) as [(w' & -> & R)| ->].
  - split; [exact (proj1 R)|]. split; [exact (proj1 (proj2 R))|exact R].
  - split; [left; exact I|auto using descends_refl].
Qed.

Lemma rewrites_ret w : Inv w -> rewrites w (ret tt).
Proof using Type. intros Hi. apply safely_ret; [exact Hi|apply rewritten_refl, Hi]. Qed.

(** Bytes [i], [i + d], [i + 2 * d] and so on are in the buffer. *)
Definition steps_ok (w : World) (b : nat) (i d : Z) (count : nat) : Prop :=
  exists block, dataOf w b = Some block /\ forall k, 0 <= k < Z.of_nat count -> 0 <= i + d * k < capacityOf w b.

Lemma steps_next w w' b i d count : Inv w -> rewritten w w' -> steps_ok w b i d (S count) -> steps_ok w' b (i + d) d count.
Proof using Type.
  clear Laws. intros Hi R (block & D & Hk). exists block. split; [rewrite (rewritten_data _ _ b R); exact D|].
  rewrite (rewritten_capacity _ _ b block Hi R D). intros k Hr. specialize (Hk (k + 1) ltac:(lia)). lia.
Qed.

Lemma copyBytes_rewrites count : forall w src i tgt j d, Inv w -> steps_ok w src i d count -> steps_ok w tgt j d count ->
  rewrites w (copyBytes count src i tgt j d).
Proof using Type.
  clear Laws. induction count as [|count IH]; intros w src i tgt j d Hi Hs Ht; cbn [copyBytes]; [apply rewrites_ret, Hi|].
  pose proof Hs as (block & D & Hk). specialize (Hk 0 ltac:(lia)).
  destruct (getValueFromBuffer_safe w src block i Uint8 true Hi D) as (v & Ev & Hv); [lia|cbn; lia|].
  eapply safely_pure; [exact Ev|]. pose proof Ht as (block' & D' & Hk'). specialize (Hk' 0 ltac:(lia)).
  apply rewrites_bind; [apply (setValue_rewrites w tgt block'); [exact Hi|exact D'|lia|cbn; lia|exact Hv]|].
  intros w' Hi' R. apply IH; [exact Hi'|exact (steps_next w w' _ _ _ _ Hi R Hs)|exact (steps_next w w' _ _ _ _ Hi R Ht)].
Qed.

(** [count] elements at [i]. *)
Definition elements_ok (w : World) (b : nat) (i size : Z) (count : nat) : Prop :=
  exists block, dataOf w b = Some block /\ 0 <= i /\ i + size * Z.of_nat count <= capacityOf w b.

Lemma elements_next w w' b i size count : 0 <= size -> Inv w -> rewritten w w' ->
  elements_ok w b i size (S count) -> elements_ok w' b (i + size) size count.
Proof using Type.
  clear Laws. intros Hs Hi R (block & D & H0 & Hk). exists block. split; [rewrite (rewritten_data _ _ b R); exact D|].
  rewrite (rewritten_capacity _ _ b block Hi R D). split; lia.
Qed.

Lemma convertElements_rewrites count : forall w src i srcType tgt j type, Inv w ->
  elements_ok w src i (elementSizeTable srcType) count -> elements_ok w tgt j (elementSizeTable type) count ->
  rewrites w (convertElements count src i srcType tgt j type).
Proof using Type.
  clear Laws. induction count as [|count IH]; intros w src i srcType tgt j type Hi Hs Ht; cbn [convertElements]; [apply rewrites_ret, Hi|].
  pose proof (elementSizeTable_pos srcType) as Hp. pose proof (elementSizeTable_pos type) as Hp'.
  pose proof Hs as (block & D & H0 & Hk). destruct (getValueFromBuffer_safe w src block i srcType true Hi D) as (v & Ev & Hv); [lia|lia|].
  eapply safely_pure; [exact Ev|]. pose proof Ht as (block' & D' & H0' & Hk').
  apply rewrites_bind; [apply (setValue_rewrites w tgt block'); [exact Hi|exact D'|lia|lia|exact Hv]|].
  intros w' Hi' R. apply IH; [exact Hi'|apply (elements_next w w'); (assumption || lia)..].
Qed.

Lemma setThrows_safe w v b type i value : Inv w -> isTypedArrayOn w v b type -> 0 <= i ->
  safely w (setIndexedPropertyThrowsException v i value) (fun _ _ => True).
Proof using Laws.
  intros Hi Hv H0. eapply safely_bind; [apply (setIndexed_safe w v b type); assumption|]. intros [] w' Hi' _ _;
    [apply safely_ret; auto|apply safely_throw; cbn; auto].
Qed.

Lemma storeValues_safe values : forall w v b type k, Inv w -> isTypedArrayOn w v b type -> 0 <= k ->
  safely w (storeValues v k values) (fun _ _ => True).
Proof using Laws.
  induction values as [|x values IH]; intros w v b type k Hi Hv H0; cbn [storeValues]; [apply safely_ret; auto|].
  eapply safely_bind; [apply (setThrows_safe w v b type); assumption|]. intros _ w' Hi' Hd _.
  apply (IH w' v b type); [exact Hi'|exact (typedArray_after _ _ _ _ _ Hd Hv)|lia].
Qed.

Lemma copyFromObject_safe count : forall w v b type n k, Inv w -> isTypedArrayOn w v b type -> 0 <= k ->
  safely w (copyFromObject v n k count) (fun _ _ => True).
Proof using Laws.
  induction count as [|count IH]; intros w v b type n k Hi Hv H0; cbn [copyFromObject]; [apply safely_ret; auto|].
  eapply safely_bind; [apply (polite_get n k w Hi)|]. intros x w1 Hi1 D1 _.
  pose proof (typedArray_after _ _ _ _ _ D1 Hv) as Hv1.
  eapply safely_bind; [apply (setThrows_safe w1 v b type); assumption|]. intros _ w' Hi' Hd _.
  apply (IH w' v b type); [exact Hi'|exact (typedArray_after _ _ _ _ _ Hd Hv1)|lia].
Qed.

(** ** Constructors *)

Lemma bare_again w v kind : bareView w v kind -> updateView v (fun view => mkView (viewKind view) None None 0 0 0 false) w = w.
Proof using Type.
  clear Laws. intros E. destruct w as [m s b l]. unfold updateView, setViews, bareView in *. cbn in *. f_equal.
  apply list_eq. intros i. rewrite alter_eq. case_decide as H0; [subst i; rewrite E|]; reflexivity.
Qed.

Lemma setBuffer_none w v kind : bareView w v kind -> setBuffer v None 0 0 0 false w = (Ret tt, w).
Proof using Type.
  clear Laws. intros E. unfold setBuffer, bind at 1. rewrite (theView_eq v _ w E). cbn. rewrite (bare_again w v kind E). reflexivity.
Qed.

Lemma usize_small z : 0 <= z < 2 ^ 64 -> usize z = z.
Proof using Type. intros Hz. apply Z.mod_small, Hz. Qed.

Lemma usize_size length type : 0 <= length <= maximumLength -> usize (length * elementSizeTable type) = length * elementSizeTable type.
Proof using Type.
  clear Laws. intros Hl. unfold usize, to_unsigned, maximumLength in *. apply Z.mod_small. pose proof (elementSizeTable_pos type). nia.
Qed.

(** A buffer of its own for a new array. *)
Lemma ownBuffer_retains {B} w0 w v type n (k : unit -> WM B) R : Inv w -> descends w0 w ->
  (List.length (views w0) <= v)%nat -> bareView w v (TypedArrayObject type) -> 0 <= n <= maximumLength ->
  (forall b w', Inv w' -> descends w0 w' -> isTypedArrayOn w' v b type -> retains w0 w' (k tt) R) ->
  retains w0 w (let! buffer := allocateArrayBuffer (usize (n * elementSizeTable type)) None in
                bind (setBuffer v (Some buffer) 0 (usize (n * elementSizeTable type)) n false) k) R.
Proof using Type.
  clear Laws. intros Hi Hd Hv Eb Hn Hk. rewrite usize_size by exact Hn. pose proof (elementSizeTable_pos type).
  eapply retains_step; [exact Hd|apply (allocate_safe w _ None Hi); [nia|discriminate]|].
  intros b w1 Hi1 D1 D1' [_ (Hb & Hmax & Hlen & block & D & Hc)]. unfold maxArrayBufferSize in Hmax. eapply retains_bind.
  - apply (setBuffer_retains w0 w1 v (TypedArrayObject type) b 0 (n * elementSizeTable type) n false Hi1); [exact (bareView_after _ _ _ _ D1' Eb)|exact D1|exact Hv|exact Hb| | |].
    + split; [lia|]. split; [nia|]. split; [lia|]. rewrite elementSize_table. lia.
    + unfold sizeLimit. lia.
    + intros _. lia.
  - intros [] w2 Hi2 D2 (_ & E). apply (Hk b w2 Hi2 D2). eexists. split; [exact E|]. split; reflexivity.
Qed.

Lemma allocateTypedArray_retains w type length : Inv w -> (forall n, length = Some n -> 0 <= n <= maximumLength) ->
  retains w w (allocateTypedArray type length) (fun v w' => (List.length (views w) <= v)%nat /\
    match length with Some _ => exists b, isTypedArrayOn w' v b type | None => bareView w' v (TypedArrayObject type) end).
Proof using Laws.
  intros Hi Hl. unfold allocateTypedArray.
  eapply retains_step; [apply descends_refl|apply (polite_prototype w Hi)|]. intros _ w1 Hi1 D1 _ _.
  eapply retains_step; [exact D1|apply (newView_bare w1 (TypedArrayObject type) Hi1)|].
  intros v w2 Hi2 D2 _ [Ev Eb]. pose proof (views_longer _ _ D1) as Hlong.
  destruct length as [n|].
  - apply ownBuffer_retains; [exact Hi2|exact D2|lia|exact Eb|exact (Hl n eq_refl)|].
    intros b w3 Hi3 D3 Ht. apply retains_ret; [exact Hi3|exact D3|]. split; [lia|eauto].
  - eapply retains_pure; [exact (setBuffer_none w2 v _ Eb)|]. apply retains_ret; [exact Hi2|exact D2|]. split; [lia|exact Eb].
Qed.

Lemma typeOf_bare w v type : bareView w v (TypedArrayObject type) -> typeOf v w = (Ret type, w).
Proof using Type. intros E. unfold typeOf, bind. rewrite (theTypedArray_eq v _ type w E eq_refl). reflexivity. Qed.

(** The window of an array, before anything happens. *)
Lemma window_range w v view b type : Inv w -> views w !! v = Some view -> viewKind view = TypedArrayObject type -> m_buffer view = Some b ->
  range_ok w b (m_byteOffset view) (m_byteLength view) /\ 0 <= m_arrayLength view /\
  m_arrayLength view * elementSizeTable type <= m_byteLength view < sizeLimit.
Proof using Type.
  clear Laws. intros Hi E K B. destruct (inv_views _ Hi v view E) as [(Ho & Hl & Ha & Hs & Hk) Hok]. rewrite K, elementSize_table in Hk.
  rewrite B in Hok. destruct Hok as [_ Hok]. split; [|lia]. split; [exact (view_buffer w v view b Hi E B)|]. auto.
Qed.

Lemma fromArrayBuffer_retains w0 w v type b byteOffset length : Inv w -> descends w0 w -> (List.length (views w0) <= v)%nat ->
  bareView w v (TypedArrayObject type) -> is_Some (buffers w !! b) -> int32_ok byteOffset -> int32_ok length ->
  retains w0 w (initializeTypedArrayFromArrayBuffer v b byteOffset length) (fun _ w' => isTypedArrayOn w' v b type).
Proof using Laws.
  intros Hi Hd Hv Eb Hb Ho Hl. unfold initializeTypedArrayFromArrayBuffer. pose proof (elementSizeTable_pos type) as Hes.
  eapply retains_pure; [exact (typeOf_bare w v type Eb)|]. cbv zeta.
  assert (Hfail : forall w', Inv w' -> descends w0 w' -> retains w0 w' (throw RangeError) (fun (_ : unit) w'' => isTypedArrayOn w'' v b type)).
  { intros w' Hi' Hd'. apply wp_throw. split; [left; exact I|]. auto. }
  eapply retains_step; [exact Hd|apply (toIndex_safe _ w Hi Ho)|].
  intros [off|] w1 Hi1 D1 D1' Hoff; [|apply Hfail; assumption]. specialize (Hoff off eq_refl).
  destruct (negb (off mod elementSizeTable type =? 0)); [apply Hfail; assumption|].
  eapply (retains_step w0 w1 _ _ (fun n _ => isIndex n)); [exact D1| |].
  { destruct (isUndefined length); [apply safely_ret; [exact Hi1|intros z [= <-]; unfold maximumLength; lia]|apply (toIndex_safe _ w1 Hi1 Hl)]. }
  intros [n|] w2 Hi2 D2 D2' Hn; [|apply Hfail; assumption]. specialize (Hn n eq_refl). unfold maximumLength in *.
  eapply retains_step; [exact D2|apply (throwIfDetached_safe w2 b Hi2)|]. intros [] w3 _ _ _ [-> Hd2].
  apply attached_iff in Hd2 as [block D]. destruct (length_bounded w2 b block Hi2 D) as [Hlen Hcap].
  eapply retains_pure; [reflexivity|]. set (len := byteLengthOf w2 b) in *.
  pose proof (descends_trans _ _ _ D1' D2') as D12. unfold sizeLimit in Hcap.
  eapply (retains_bind w0 w2 _ _ (fun m w' => w' = w2 /\ 0 <= m /\ off + m <= len)).
  { destruct (isUndefined length).
    - destruct (_ || (len <? off)) eqn:E; [apply wp_throw; split; [left; exact I|auto]|]. apply orb_false_iff in E as [_ E]. apply Z.ltb_ge in E.
      apply retains_ret; [exact Hi2|exact D2|]. repeat split; lia.
    - rewrite (usize_small (n * elementSizeTable type)), usize_small by nia.
      destruct (Z.ltb_spec len (off + n * elementSizeTable type)); [apply wp_throw; split; [left; exact I|auto]|].
      apply retains_ret; [exact Hi2|exact D2|]. repeat split; nia. }
  intros m w3 _ _ (-> & Hm0 & Hm). eapply retains_mono.
  - apply (setBuffer_retains w0 w2 v (TypedArrayObject type) b off m (m / elementSizeTable type) (isUndefined length) Hi2
             (bareView_after _ _ _ _ D12 Eb) D2 Hv (buffer_after _ _ _ D12 Hb)).
    + split; [lia|]. split; [lia|]. split; [apply Z.div_pos; lia|]. rewrite (elementSize_table type), Z.mul_comm. apply Z.mul_div_le. lia.
    + unfold sizeLimit. lia.
    + intros _. lia.
  - intros _ w3 _ _ (_ & E). eexists. split; [exact E|]. split; reflexivity.
Qed.

Lemma retains_assoc {A B C} w0 w (m : WM A) (f : A -> WM B) (k : B -> WM C) R :
  retains w0 w (bind m (fun a => bind (f a) k)) R -> retains w0 w (bind (bind m f) k) R.
Proof using Type. unfold retains, wp, bind. destruct (m w) as [[a|e|] w']; exact (fun H => H). Qed.

(** The new array on a buffer made for it. *)
Lemma freshWindow_retains w0 w v type data n m : Inv w -> descends w0 w -> (List.length (views w0) <= v)%nat ->
  bareView w v (TypedArrayObject type) -> freshBuffer m data w -> 0 <= n -> n * elementSizeTable type <= m ->
  retains w0 w (setBuffer v (Some data) 0 m n false) (fun _ w' => isTypedArrayOn w' v data type).
Proof using Type.
  clear Laws. intros Hi Hd Hv Eb (Hb & Hmax & Hlen & block & D & Hc) Hn Hm. unfold maxArrayBufferSize in Hmax.
  pose proof (elementSizeTable_pos type). eapply retains_mono.
  - apply (setBuffer_retains w0 w v (TypedArrayObject type) data 0 m n false Hi Eb Hd Hv Hb).
    + split; [lia|]. split; [nia|]. split; [lia|]. rewrite (elementSize_table type). lia.
    + unfold sizeLimit. lia.
    + intros _. lia.
  - intros _ w' _ _ (_ & E). eexists. split; [exact E|]. split; reflexivity.
Qed.

(** The elements of the source, converted into a new buffer. *)
Definition convertedCopy (srcData : nat) (srcByteOffset : Z) (srcType : TypedArrayType) (elementLength byteLength : Z) (type : TypedArrayType) : WM nat :=
  do! userPrototype in
  let! data := allocateArrayBuffer byteLength None in
  do! throwTypeErrorIfDetached srcData in
  do! convertElements (Z.to_nat elementLength) srcData srcByteOffset srcType data 0 type in
  ret data.

Lemma convertedCopy_safe w b off n srcType type : Inv w -> range_ok w b off (elementSizeTable srcType * n) -> 0 <= n ->
  safely w (convertedCopy b off srcType n (elementSizeTable type * n) type) (freshBuffer (elementSizeTable type * n)).
Proof using Laws.
  intros Hi Hr Hn. unfold convertedCopy. pose proof (elementSizeTable_pos type) as Hp.
  eapply safely_bind; [apply (polite_prototype w Hi)|]. intros _ w1 Hi1 D1 _.
  eapply safely_bind; [apply (allocate_safe w1 _ None Hi1); [nia|discriminate]|]. intros data w2 Hi2 D2 [_ Hf].
  apply unlessDetached; [exact Hi2|]. intros block D.
  destruct (range_after w w2 b off _ Hi (descends_trans _ _ _ D1 D2) Hr) as (_ & H0' & _ & Hc).
  pose proof Hf as (Hb & Hmax & Hlen & block' & D' & Hcap). specialize (Hc (ex_intro _ block D)).
  eapply safely_bind; [apply (convertElements_rewrites _ w2 b off srcType data 0 type Hi2)|].
  - exists block. split; [exact D|]. rewrite Z2Nat.id by lia. lia.
  - exists block'. split; [exact D'|]. rewrite Z2Nat.id by lia. lia.
  - intros u w3 Hi3 D3 R. apply safely_ret; [exact Hi3|]. exact (freshBuffer_rewritten _ _ _ _ Hi2 R Hf).
Qed.

Lemma fromTypedArray_retains w0 w v type src b srcType : Inv w -> descends w0 w -> (List.length (views w0) <= v)%nat ->
  bareView w v (TypedArrayObject type) -> isTypedArrayOn w src b srcType ->
  retains w0 w (initializeTypedArrayFromTypedArray v src) (fun _ w' => exists data, isTypedArrayOn w' v data type).
Proof using Laws.
  intros Hi Hd Hv Eb (view & E & K & B). unfold initializeTypedArrayFromTypedArray.
  destruct (window_range w src view b srcType Hi E K B) as ((Hb & H0' & Hl0 & Hr) & Hn & Hlim).
  pose proof (elementSizeTable_pos type) as Hp. pose proof (elementSizeTable_pos srcType) as Hp'. unfold sizeLimit in Hlim.
  eapply retains_pure; [exact (theTypedArray_eq src view srcType w E K)|]. cbv beta iota.
  eapply retains_pure; [exact (bufferOf_eq view b w B)|].
  eapply retains_step; [exact Hd|apply (throwIfDetached_safe w b Hi)|]. intros [] w1 _ _ _ [-> _].
  eapply retains_pure; [exact (typeOf_bare w v type Eb)|]. cbv zeta. rewrite usize_small by nia.
  eapply retains_step; [exact Hd|apply (polite_species b w Hi)|]. intros _ w2 Hi2 D2 D2' _.
  pose proof (range_after w w2 b (m_byteOffset view) (elementSizeTable srcType * m_arrayLength view) Hi D2') as Hr2.
  specialize (Hr2 ltac:(split; [exact Hb|]; split; [lia|]; split; [nia|]; intros Hx; specialize (Hr Hx); lia)).
  eapply (retains_step w0 w2 _ _ (freshBuffer (elementSizeTable type * m_arrayLength view))); [exact D2| |].
  { destruct (decide (type = srcType)) as [->|_].
    - eapply safely_mono; [apply (cloneArrayBuffer_safe w2 _ b _ _ Hi2 (polite_prototype w2 Hi2) Hr2)|]. intros data w3 _ _ [Hf _]. exact Hf.
    - apply (convertedCopy_safe w2 b); assumption. }
  intros data w3 Hi3 D3 D3' Hf. eapply retains_mono; [|intros u w4 G1 G2 Ht; exists data; exact Ht].
  apply freshWindow_retains; try assumption; try lia. exact (bareView_after _ _ _ _ (descends_trans _ _ _ D2' D3') Eb).
Qed.

Lemma allocateTypedArrayBuffer_retains w0 w v type n : Inv w -> descends w0 w -> (List.length (views w0) <= v)%nat ->
  bareView w v (TypedArrayObject type) -> 0 <= n <= maximumLength ->
  retains w0 w (allocateTypedArrayBuffer v n) (fun _ w' => exists b, isTypedArrayOn w' v b type).
Proof using Type.
  clear Laws. intros Hi Hd Hv Eb Hn. unfold allocateTypedArrayBuffer. eapply retains_pure; [exact (typeOf_bare w v type Eb)|].
  cbv zeta. rewrite usize_size by exact Hn. pose proof (elementSizeTable_pos type).
  eapply retains_step; [exact Hd|apply (allocate_safe w _ None Hi); [nia|discriminate]|].
  intros b w1 Hi1 D1 D1' [_ Hf]. eapply retains_mono; [|intros u w2 G1 G2 Ht; exists b; exact Ht].
  apply freshWindow_retains; try assumption; try lia. exact (bareView_after _ _ _ _ D1' Eb).
Qed.

Lemma fromList_retains w0 w v type values : Inv w -> descends w0 w -> (List.length (views w0) <= v)%nat ->
  bareView w v (TypedArrayObject type) -> Z.of_nat (List.length values) <= maximumLength ->
  retains w0 w (initializeTypedArrayFromList v values) (fun _ w' => exists b, isTypedArrayOn w' v b type).
Proof using Laws.
  intros Hi Hd Hv Eb Hn. eapply retains_bind; [apply (allocateTypedArrayBuffer_retains w0 w v type); try assumption; lia|].
  intros _ w1 Hi1 D1 [b Ht]. eapply retains_mono; [apply (retains_safely _ _ _ _ D1 (storeValues_safe values w1 v b type 0 Hi1 Ht ltac:(lia)))|].
  intros _ w2 _ _ [D2 _]. exists b. exact (typedArray_after _ _ _ _ _ D2 Ht).
Qed.

Lemma fromArrayLike_retains w0 w v type n : Inv w -> descends w0 w -> (List.length (views w0) <= v)%nat ->
  bareView w v (TypedArrayObject type) ->
  retains w0 w (initializeTypedArrayFromArrayLike v n) (fun _ w' => exists b, isTypedArrayOn w' v b type).
Proof using Laws.
  intros Hi Hd Hv Eb. eapply retains_step; [exact Hd|apply (polite_length n w Hi)|].
  intros len w1 Hi1 D1 D1' Hlen. cbv beta in Hlen.
  eapply retains_bind; [apply (allocateTypedArrayBuffer_retains w0 w1 v type); try assumption; exact (bareView_after _ _ _ _ D1' Eb)|].
  intros _ w2 Hi2 D2 [b Ht].
  eapply retains_mono; [apply (retains_safely _ _ _ _ D2 (copyFromObject_safe (Z.to_nat len) w2 v b type n 0 Hi2 Ht ltac:(lia)))|].
  intros _ w3 _ _ [D3 _]. exists b. exact (typedArray_after _ _ _ _ _ D3 Ht).
Qed.

(** What the engine has made sure of before it calls a constructor. *)
Definition argument_ok (w : World) (firstArg : FirstArgument) : Prop :=
  match firstArg with
  | PrimitiveArgument x => int32_ok x
  | TypedArrayArgument src => exists b type, isTypedArrayOn w src b type
  | ArrayBufferArgument b byteOffset length => is_Some (buffers w !! b) /\ int32_ok byteOffset /\ int32_ok length
  | NoArgument | ObjectArgument _ => True
  end.

Lemma typedArrayConstructor_safe w type firstArg : Inv w -> argument_ok w firstArg ->
  safely w (builtinTypedArrayConstructor type firstArg) (fun v w' => exists b, isTypedArrayOn w' v b type).
Proof using Laws.
  intros Hi Ha.
  assert (Hsome : forall n, 0 <= n <= maximumLength ->
    forall w1, Inv w1 -> safely w1 (allocateTypedArray type (Some n)) (fun v w' => exists b, isTypedArrayOn w' v b type)).
  { intros n Hn w1 Hi1. eapply retains_mono; [apply (allocateTypedArray_retains w1 type (Some n) Hi1)|intros v w' _ _ [_ Hv]; exact Hv].
    intros m [= <-]. exact Hn. }
  assert (Hbare : forall init : nat -> WM unit,
    (forall v w', Inv w' -> descends w w' -> (List.length (views w) <= v)%nat -> bareView w' v (TypedArrayObject type) ->
       retains w w' (init v) (fun _ w'' => exists b, isTypedArrayOn w'' v b type)) ->
    safely w (let! obj := allocateTypedArray type None in do! init obj in ret obj) (fun v w' => exists b, isTypedArrayOn w' v b type)).
  { intros init Hinit. eapply retains_bind; [apply (allocateTypedArray_retains w type None Hi); discriminate|].
    intros v w1 Hi1 D1 [Hv Eb]. eapply retains_bind; [exact (Hinit v w1 Hi1 D1 Hv Eb)|].
    intros u w2 Hi2 D2 Ht. apply retains_ret; assumption. }
  destruct firstArg as [|x|src|b byteOffset length|n]; cbn [builtinTypedArrayConstructor argument_ok] in *.
  - apply Hsome; [unfold maximumLength; lia|exact Hi].
  - eapply safely_bind; [apply (toIndex_safe x w Hi Ha)|]. intros [n|] w1 Hi1 _ Hn; [|apply safely_throw; cbn; auto].
    exact (Hsome n (Hn n eq_refl) w1 Hi1).
  - destruct Ha as (b & srcType & Ht). apply (Hbare (fun obj => initializeTypedArrayFromTypedArray obj src)).
    intros v w1 Hi1 D1 Hv Eb. apply (fromTypedArray_retains w w1 v type src b srcType); try assumption. exact (typedArray_after _ _ _ _ _ D1 Ht).
  - destruct Ha as (Hb & Ho & Hl). apply (Hbare (fun obj => initializeTypedArrayFromArrayBuffer obj b byteOffset length)).
    intros v w1 Hi1 D1 Hv Eb. eapply retains_mono; [|intros u w' G1 G2 Ht; exists b; exact Ht].
    apply fromArrayBuffer_retains; try assumption. exact (buffer_after _ _ _ D1 Hb).
  - eapply retains_bind; [apply (allocateTypedArray_retains w type None Hi); discriminate|].
    intros v w1 Hi1 D1 [Hv Eb]. eapply retains_step; [exact D1|apply (polite_iterate n w1 Hi1)|].
    intros values w2 Hi2 D2 D2' Hval. pose proof (bareView_after _ _ _ _ D2' Eb) as Eb2.
    eapply retains_bind; [|intros u w3 Hi3 D3 Ht; apply retains_ret; [exact Hi3|exact D3|exact Ht]].
    destruct values as [values|]; [apply fromList_retains|apply fromArrayLike_retains]; try assumption. exact (Hval values eq_refl).
Qed.
End Construct.
