(* ===== verification/TypedArrayMove.v ===== *)
(** * Typed arrays stay in memory: copyWithin, fill, set, reverse *)

From stdpp Require Import list.
From S2P Require Import Prelude Float64 Ieee754 Value ArrayBuffer ArrayBufferSpec ArrayBufferOps ArrayElement.
From S2P Require Import TypedArray TypedArrayBuiltins TypedArraySpec TypedArraySafe TypedArrayMethods.
Local Open Scope esc_scope.
Local Open Scope Z_scope.

Section Move.
Context `{Laws : ScriptLaws}.

(** ** Values that call no script *)

Lemma numericValue_plain type value w : plain value ->
  (exists x, numericValue type value w = (Ret x, w) /\ plain x) \/ numericValue type value w = (Throw TypeError, w).
Proof using Type.
  clear Laws. intros Hv. assert (Hd : forall d, plain (valueOfDouble d)).
  { intros d n. unfold valueOfDouble. destruct (isInt32ConvertibleDouble d) as [[|] i]; [discriminate|]. case_if; discriminate. }
  unfold numericValue. destruct value as [i|d|z| |n]; [| | | |destruct (Hv n eq_refl)]; destruct (isBigIntType type);
    (right; reflexivity) || (left; eexists; split; [reflexivity|first [apply Hd|discriminate]]).
Qed.

Lemma elementSet_plain w v b type index value : Inv w -> isTypedArrayOn w v b type -> plain value ->
  safely w (integerIndexedElementSet v index value) (fun _ w' => rewritten w w').
Proof using Type.
  clear Laws. intros Hi (view & E & K & B) Hv. unfold integerIndexedElementSet.
  assert (Hret : forall r : bool, safely w (ret r) (fun _ w' => rewritten w w')) by (intros r; apply safely_ret; [exact Hi|apply rewritten_refl, Hi]).
  eapply safely_pure; [apply (theTypedArray_eq v view type w E K)|]. cbv beta iota.
  destruct (numericValue_plain type value w Hv) as [(x & Ex & Hx)|Ex]; [|eapply safely_fails; [exact Hi|exact Ex|exact I]].
  eapply safely_pure; [exact Ex|].
  eapply safely_pure; [apply (theView_eq v view w E)|]. eapply safely_pure; [apply (isDetached_eq view b w B)|].
  destruct (isDetachedBuffer w b) eqn:D; [apply Hret|]. cbn [orb]. destruct (outOfRange view index) eqn:O; [apply Hret|].
  apply attached_iff in D as [block D]. destruct (outOfRange_in view index O) as [Hr _].
  destruct (element_fits w v view b block type _ Hi E K B D Hr) as (H0 & H1 & H2).
  eapply safely_pure; [apply (bufferOf_eq view b w B)|].
  eapply safely_bind; [exact (setValue_rewrites w b block _ type x true Hi D H0 ltac:(lia) Hx)|].
  intros u w' Hi' _ R. apply safely_ret; [exact Hi'|exact R].
Qed.

(** A plain value is stored without a script, on either path. *)
Lemma setIndexed_plain w v b type i value : Inv w -> isTypedArrayOn w v b type -> 0 <= i -> plain value ->
  rewrites w (setIndexedPropertyThrowsException v i value).
Proof using Type.
  clear Laws. intros Hi Ht Hi0 Hv. pose proof Ht as (view & E & K & B).
  assert (Hslow : safely w (typedArray_set v (of_integer i) value) (fun _ w' => rewritten w w')).
  { eapply safely_bind; [apply (elementSet_plain w v b type); assumption|]. intros r w' Hi' _ R. apply safely_ret; assumption. }
  unfold setIndexedPropertyThrowsException. eapply (safely_bind _ _ _ (fun _ w' => rewritten w w')).
  2:{ intros [] w' Hi' _ R; [apply safely_ret; assumption|apply safely_throw; [exact Hi'|exact I]]. }
  unfold setIndexedProperty. eapply safely_pure; [apply (theTypedArray_eq v view type w E K)|]. cbv beta iota.
  destruct (isUInt32Index i && (i <? m_arrayLength view)) eqn:Ef; [|eapply safely_pure; [reflexivity|exact Hslow]].
  apply andb_true_iff in Ef as [_ Hl]. apply Z.ltb_lt in Hl.
  apply (safely_pure w _ _ (negb (isDetachedBuffer w b))); [unfold bind; rewrite (isDetached_eq view b w B); reflexivity|].
  destruct (isDetachedBuffer w b) eqn:D; cbn [negb]; [exact Hslow|]. apply attached_iff in D as [block D].
  destruct (element_fits w v view b block type i Hi E K B D ltac:(lia)) as (H0 & H1 & H2).
  eapply (safely_bind _ _ _ (fun _ w' => rewritten w w')).
  - unfold safely, wp. rewrite (setDirect_eq w v view b block type i value Hi E K B D ltac:(lia) Hv).
    exact (setValue_rewrites w b block _ type value true Hi D H0 ltac:(lia) Hv).
  - intros u w' Hi' _ R. apply safely_ret; assumption.
Qed.

Lemma rewritten_typedArray w w' v b type : rewritten w w' -> isTypedArrayOn w v b type -> isTypedArrayOn w' v b type.
Proof using Type. intros (_ & _ & _ & _ & Ev) Ht. unfold isTypedArrayOn. rewrite Ev. exact Ht. Qed.

(** ** fill *)

Lemma fillLoop_rewrites count : forall w v b type k value, Inv w -> isTypedArrayOn w v b type -> 0 <= k -> plain value ->
  rewrites w (fillLoop v k count value).
Proof using Type.
  clear Laws. induction count as [|count IH]; intros w v b type k value Hi Ht Hk Hv; cbn [fillLoop]; [apply rewrites_ret, Hi|].
  apply rewrites_bind; [apply (setIndexed_plain w v b type); assumption|].
  intros w' Hi' R. apply (IH w' v b type); [exact Hi'|exact (rewritten_typedArray _ _ _ _ _ R Ht)|lia|exact Hv].
Qed.

Lemma rewrites_safely w (m : WM unit) : rewrites w m -> safely w m (fun _ _ => True).
Proof using Type. intros H'. eapply safely_mono; [exact H'|trivial]. Qed.

(** What [validateTypedArray] answers. *)
Lemma validate_safe w v b type : Inv w -> isTypedArrayOn w v b type ->
  safely w (validateTypedArray v) (fun r w' => w' = w /\ snd r = type /\ views w !! v = Some (fst r) /\
    viewKind (fst r) = TypedArrayObject type /\ m_buffer (fst r) = Some b /\ exists block, dataOf w b = Some block).
Proof using Type.
  clear Laws. intros Hi (view & E & K & B). unfold validateTypedArray.
  eapply safely_pure; [apply (theTypedArray_eq v view type w E K)|]. cbv beta iota.
  eapply safely_pure; [apply (bufferOf_eq view b w B)|]. apply unlessDetached; [exact Hi|]. intros block D.
  apply safely_ret; [exact Hi|]. cbn. eauto 10.
Qed.

Lemma fill_safe w v b type argv : Inv w -> isTypedArrayOn w v b type -> safely w (builtinTypedArrayFill v argv) (fun _ _ => True).
Proof using Laws.
  intros Hi Ht. unfold builtinTypedArrayFill. eapply safely_bind; [exact (validate_safe w v b type Hi Ht)|].
  intros [view type'] w0 _ _ (-> & Et & E & K & B & block & D). cbn [fst snd] in *. subst type'.
  destruct (window_range w v view b type Hi E K B) as (_ & Hlen & _).
  eapply safely_bind; [apply (numericValue_safe type _ w Hi)|]. intros value w1 Hi1 D1 Hv.
  eapply (safely_bind _ _ _ (fun n _ => 0 <= n <= m_arrayLength view)).
  { destruct (isUndefined _); [apply safely_ret; [exact Hi1|lia]|apply relativeStart_safe; assumption]. }
  intros k w2 Hi2 D2 Hk. eapply safely_bind; [apply (relativeEnd_safe w2 _ _ Hi2 Hlen)|]. intros fin w3 Hi3 D3 _.
  pose proof (typedArray_after _ _ _ _ _ (descends_trans _ _ _ D1 (descends_trans _ _ _ D2 D3)) Ht) as Ht3.
  pose proof Ht3 as (view3 & E3 & K3 & B3). eapply safely_pure; [apply (theView_eq v view3 w3 E3)|].
  eapply safely_pure; [apply (bufferOf_eq view3 b w3 B3)|]. apply unlessDetached; [exact Hi3|]. intros _ _.
  cbv beta in Hk. apply rewrites_safely, (fillLoop_rewrites _ w3 v b type); (assumption || lia).
Qed.

(** ** copyWithin *)

Lemma copyWithin_safe w v b type argv : Inv w -> isTypedArrayOn w v b type -> safely w (builtinTypedArrayCopyWithin v argv) (fun _ _ => True).
Proof using Laws.
  intros Hi Ht. unfold builtinTypedArrayCopyWithin. eapply safely_bind; [exact (validate_safe w v b type Hi Ht)|].
  intros [view type'] w0 _ _ (-> & Et & E & K & B & block & D). cbn [fst snd] in *. subst type'.
  destruct (window_range w v view b type Hi E K B) as (_ & Hlen & _). set (len := m_arrayLength view) in *.
  eapply safely_bind; [apply (relativeStart_safe w _ len Hi Hlen)|]. intros to_ w1 Hi1 D1 Hto.
  eapply safely_bind; [apply (relativeStart_safe w1 _ len Hi1 Hlen)|]. intros from w2 Hi2 D2 Hfrom.
  eapply safely_bind; [apply (relativeEnd_safe w2 _ len Hi2 Hlen)|]. intros fin w3 Hi3 D3 Hfin. cbv beta in *. cbv zeta.
  destruct (Z.ltb_spec 0 (Z.min (fin - from) (len - to_))) as [Hc|_]; [|apply safely_ret; auto].
  set (count := Z.min _ _) in *. pose proof (descends_trans _ _ _ D1 (descends_trans _ _ _ D2 D3)) as D03.
  destruct (view_after w w3 v view b D03 E B) as (view3 & E3 & K3 & B3 & Ho).
  eapply safely_pure; [apply (theView_eq v view3 w3 E3)|]. eapply safely_pure; [apply (bufferOf_eq view3 b w3 B3)|].
  apply unlessDetached; [exact Hi3|]. intros block3 D3b.
  destruct (descends_data w w3 b block3 D03 Hi (view_buffer w v view b Hi E B) D3b) as (_ & Hcap & _).
  destruct (element_fits w v view b block type (len - 1) Hi E K B D ltac:(lia)) as (_ & H1 & H2).
  destruct (view_window w v view b block Hi E B D) as ((Ho0 & _) & _).
  pose proof (elementSizeTable_pos type) as Hp. set (es := elementSizeTable type) in *. set (off := m_byteOffset view3) in *.
  assert (Hin : forall i k, 0 <= i -> i + count <= len -> 0 <= k < count * es -> 0 <= i * es + off + k < capacityOf w3 b) by (intros; nia).
  assert (Hd : forall i j d n, (forall k, 0 <= k < count * es -> 0 <= i + d * k < capacityOf w3 b) ->
                  (forall k, 0 <= k < count * es -> 0 <= j + d * k < capacityOf w3 b) -> Z.of_nat n = count * es ->
                  safely w3 (copyBytes n b i b j d) (fun _ _ => True)).
  { intros i j d n H3 H4 Hn. apply rewrites_safely, copyBytes_rewrites; [exact Hi3|exists block3..]; (split; [exact D3b|rewrite Hn; assumption]). }
  assert (Hn : Z.of_nat (Z.to_nat (count * es)) = count * es) by (apply Z2Nat.id; nia).
  destruct (_ && _); apply Hd; try exact Hn; intros k Hk;
    (pose proof (Hin from (count * es - 1 - k) ltac:(lia) ltac:(lia) ltac:(lia)); pose proof (Hin to_ (count * es - 1 - k) ltac:(lia) ltac:(lia) ltac:(lia));
     pose proof (Hin from k ltac:(lia) ltac:(lia) Hk); pose proof (Hin to_ k ltac:(lia) ltac:(lia) Hk); lia).
Qed.

(** ** set *)

Lemma setFromObject_safe count : forall w src k b i type, Inv w -> range_ok w b i (elementSizeTable type * Z.of_nat count) ->
  safely w (setFromObject count src k b i type) (fun _ _ => True).
Proof using Laws.
  induction count as [|count IH]; intros w src k b i type Hi Hr; cbn [setFromObject]; [apply safely_ret; auto|].
  pose proof (elementSizeTable_pos type) as Hp.
  eapply safely_bind; [apply (polite_get src k w Hi)|]. intros x w1 Hi1 D1 _.
  eapply safely_bind; [apply (numericValue_safe type x w1 Hi1)|]. intros value w2 Hi2 D2 Hv.
  apply unlessDetached; [exact Hi2|]. intros block D.
  pose proof (range_after w w2 b i _ Hi (descends_trans _ _ _ D1 D2) Hr) as (Hb & H0' & H1 & Hc). specialize (Hc (ex_intro _ block D)).
  eapply safely_bind; [exact (setValue_rewrites w2 b block i type value true Hi2 D H0' ltac:(lia) Hv)|].
  intros _ w3 Hi3 D3 _. apply IH; [exact Hi3|]. apply (range_after w2 w3); [exact Hi2|exact D3|].
  split; [exact Hb|]. split; [lia|]. split; [lia|]. intros _. lia.
Qed.

Lemma setFromTypedArray_safe w b i type src srcType srcBuffer n blockT blockS : Inv w -> dataOf w b = Some blockT ->
  dataOf w srcBuffer = Some blockS -> range_ok w b i (elementSizeTable type * n) ->
  range_ok w srcBuffer (m_byteOffset src) (m_byteLength src) -> n = m_arrayLength src -> 0 <= n ->
  n * elementSizeTable srcType <= m_byteLength src ->
  safely w (setFromTypedArray b i type src srcType srcBuffer) (fun _ _ => True).
Proof using Type.
  clear Laws. intros Hi DT DS Hr Hs Hn Hn0 Hfit. unfold setFromTypedArray. pose proof (elementSizeTable_pos type) as Hp.
  pose proof (elementSizeTable_pos srcType) as Hp'.
  eapply (safely_bind _ _ _ (fun r w' => is_Some (dataOf w' b) /\ is_Some (dataOf w' (fst r)) /\
            range_ok w' b i (elementSizeTable type * n) /\ range_ok w' (fst r) (snd r) (m_byteLength src))).
  { destruct (Nat.eqb_spec srcBuffer b) as [->|_]; [|apply safely_ret; [exact Hi|]; rewrite DT; cbn; rewrite DS; eauto 8].
    eapply safely_bind; [apply (cloneArrayBuffer_safe w (ret tt) b _ _ Hi); [apply safely_ret; auto|exact Hs]|].
    intros clone w1 Hi1 D1 [(Hc & _ & _ & block & Dc & Hcap) HT]. apply safely_ret; [exact Hi1|]. cbn [fst snd]. rewrite Dc.
    split; [exact HT|]. split; [eauto|]. split; [exact (range_after w w1 b i _ Hi D1 Hr)|].
    split; [exact Hc|]. split; [lia|]. split; [lia|]. intros _. lia. }
  intros [sb si] w1 Hi1 D1 ([bt DT1] & [bs DS1] & (_ & Hi0 & _ & HcT) & (_ & Hs0 & _ & HcS)). cbn [fst snd] in *.
  specialize (HcT (ex_intro _ bt DT1)). specialize (HcS (ex_intro _ bs DS1)). subst n.
  destruct (decide (srcType = type)) as [->|_]; apply rewrites_safely.
  - apply copyBytes_rewrites; [exact Hi1|exists bs|exists bt]; (split; [assumption|]); intros k Hk; rewrite Z2Nat.id in Hk by nia; lia.
  - apply convertElements_rewrites; [exact Hi1|exists bs|exists bt]; (split; [assumption|]); rewrite Z2Nat.id by lia; lia.
Qed.

Definition source_ok (w : World) (source : SetSource) : Prop :=
  match source with SetFromTypedArray s => exists b type, isTypedArrayOn w s b type | SetFromObject _ => True end.

Lemma target_range w v view b type i n : Inv w -> views w !! v = Some view -> viewKind view = TypedArrayObject type ->
  m_buffer view = Some b -> 0 <= i -> 0 <= n -> n + i <= m_arrayLength view ->
  range_ok w b (i * elementSizeTable type + m_byteOffset view) (elementSizeTable type * n).
Proof using Type.
  clear Laws. intros Hi E K B H0' Hn Hl. destruct (window_range w v view b type Hi E K B) as ((Hb & Ho & _ & Hc) & Ha & Hs).
  pose proof (elementSizeTable_pos type). split; [exact Hb|]. split; [nia|]. split; [nia|]. intros Hd. specialize (Hc Hd). nia.
Qed.

Lemma set_typed_safe w v b type s sb srcType (o : Integer) target : Inv w -> views w !! v = Some target ->
  viewKind target = TypedArrayObject type -> m_buffer target = Some b -> isTypedArrayOn w s sb srcType -> isNegative o = false ->
  (exists block, dataOf w b = Some block) ->
  safely w (let! '(src, srcType) := theTypedArray s in
      let! srcBuffer := bufferOf src in
      do! throwTypeErrorIfDetached srcBuffer in
      match o with
      | Finite targetOffset =>
        if m_arrayLength target <? m_arrayLength src + targetOffset then throw RangeError
        else if negb (Bool.eqb (isBigIntType type) (isBigIntType srcType)) then throw TypeError
        else setFromTypedArray b (targetOffset * elementSizeTable type + m_byteOffset target) type src srcType srcBuffer
      | _ => throw RangeError
      end) (fun _ _ => True).
Proof using Type.
  clear Laws. intros Hi E K B (src & Es & Ks & Bs) Ho [block D].
  eapply safely_pure; [apply (theTypedArray_eq s src srcType w Es Ks)|]. cbv beta iota.
  eapply safely_pure; [apply (bufferOf_eq src sb w Bs)|]. apply unlessDetached; [exact Hi|]. intros blockS DS.
  destruct o as [o| |]; [|apply safely_throw; [exact Hi|exact I]..]. cbn in Ho. apply Z.ltb_ge in Ho.
  destruct (Z.ltb_spec (m_arrayLength target) (m_arrayLength src + o)); [apply safely_throw; [exact Hi|exact I]|].
  destruct (negb _); [apply safely_throw; [exact Hi|exact I]|].
  destruct (window_range w s src sb srcType Hi Es Ks Bs) as (Hr & Ha & Hf & _).
  apply (setFromTypedArray_safe w b _ type src srcType sb (m_arrayLength src) block blockS); try assumption; try reflexivity.
  apply (target_range w v); (assumption || lia).
Qed.

Lemma set_safe_all w v b type source offset : Inv w -> isTypedArrayOn w v b type -> source_ok w source ->
  safely w (builtinTypedArraySet v source offset) (fun _ _ => True).
Proof using Laws.
  intros Hi Ht Hs. unfold builtinTypedArraySet. pose proof Ht as (view0 & E0 & K0 & B0).
  eapply safely_pure; [apply (theTypedArray_eq v view0 type w E0 K0)|].
  eapply (safely_bind _ _ _ (fun _ _ => True)).
  { destruct (isUndefined offset); [apply safely_ret; auto|apply toInteger_safe, Hi]. }
  intros o w1 Hi1 D1 _. destruct (isNegative o) eqn:Ho; [apply safely_throw; [exact Hi1|exact I]|].
  pose proof (typedArray_after _ _ _ _ _ D1 Ht) as (view & E & K & B).
  eapply safely_pure; [apply (theTypedArray_eq v view type w1 E K)|]. cbv beta iota.
  eapply safely_pure; [apply (bufferOf_eq view b w1 B)|]. apply unlessDetached; [exact Hi1|]. intros block D.
  destruct source as [s|n].
  - destruct Hs as (sb & srcType & Hs). apply (set_typed_safe w1 v b type s sb srcType); eauto. exact (typedArray_after _ _ _ _ _ D1 Hs).
  - eapply safely_bind; [apply (polite_length n w1 Hi1)|]. intros len w2 Hi2 D2 Hlen. cbv beta in Hlen.
    destruct o as [o| |]; [|apply safely_throw; [exact Hi2|exact I]..]. cbn in Ho. apply Z.ltb_ge in Ho.
    destruct (Z.ltb_spec (m_arrayLength view) (len + o)); [apply safely_throw; [exact Hi2|exact I]|].
    apply setFromObject_safe; [exact Hi2|]. rewrite Z2Nat.id by lia.
    apply (range_after w1 w2); [exact Hi1|exact D2|]. apply (target_range w1 v); (assumption || lia).
Qed.

(** ** reverse *)

Lemma getIndexed_some w v view b block type i : Inv w -> views w !! v = Some view -> viewKind view = TypedArrayObject type ->
  m_buffer view = Some b -> dataOf w b = Some block -> 0 <= i < m_arrayLength view ->
  exists x c, getIndexedProperty v i w = (Ret (Some (elementResult x true true c)), w) /\ plain x.
Proof using Type.
  clear Laws. intros Hi E K B D Hr. destruct (window_range w v view b type Hi E K B) as (_ & _ & Hf).
  pose proof (elementSizeTable_pos type) as Hp. unfold sizeLimit in Hf. assert (Hv : isTypedArrayOn w v b type) by (exists view; auto).
  destruct (get_fast_slow w v b type i Hi Hv ltac:(nia)) as (r & c & Es & Ef & _).
  unfold typedArray_get, integerIndexedElementGet, bind at 1 in Es. rewrite (theTypedArray_eq v view type w E K) in Es.
  unfold bind at 1 in Es. rewrite (isDetached_eq view b w B), (proj2 (attached_iff w b) (ex_intro _ block D)) in Es. cbn [orb] in Es.
  destruct (of_integer_inRange view i ltac:(nia) ltac:(lia)) as [R1 R2]. rewrite R1, R2 in Es.
  unfold bind in Es. rewrite (bufferOf_eq view b w B) in Es. destruct (element_fits w v view b block type i Hi E K B D Hr) as (H0' & H1 & H2).
  destruct (getValueFromBuffer_safe w b block _ type true Hi D H0' ltac:(lia)) as (x & Ex & Hx). rewrite Ex in Es.
  destruct r as [y|]; cbn in Es; [|discriminate]. injection Es as <-. exists x, c. auto.
Qed.

Lemma reverseLoop_rewrites count : forall w v view b block type lower, Inv w -> views w !! v = Some view ->
  viewKind view = TypedArrayObject type -> m_buffer view = Some b -> dataOf w b = Some block ->
  0 <= lower -> 2 * (lower + Z.of_nat count) <= m_arrayLength view -> rewrites w (reverseLoop v (m_arrayLength view) lower count).
Proof using Type.
  clear Laws. induction count as [|count IH]; intros w v view b block type lower Hi E K B D Hl Hc; cbn [reverseLoop]; [apply rewrites_ret, Hi|].
  cbv zeta. set (upper := m_arrayLength view - lower - 1).
  destruct (getIndexed_some w v view b block type upper Hi E K B D ltac:(lia)) as (x & cx & Ex & Hx).
  destruct (getIndexed_some w v view b block type lower Hi E K B D ltac:(lia)) as (y & cy & Ey & Hy).
  eapply safely_pure; [exact Ex|]. eapply safely_pure; [exact Ey|].
  assert (Ht : isTypedArrayOn w v b type) by (exists view; auto).
  apply rewrites_bind; [apply (setIndexed_plain w v b type); assumption|]. intros w1 Hi1 R1.
  apply rewrites_bind; [apply (setIndexed_plain w1 v b type); [exact Hi1|exact (rewritten_typedArray _ _ _ _ _ R1 Ht)|lia|exact Hy]|].
  intros w2 Hi2 R2. pose proof (rewritten_trans _ _ _ R1 R2) as R.
  apply (IH w2 v view b block type); try assumption; try lia; [|rewrite (rewritten_data _ _ b R); exact D].
  destruct R as (_ & _ & _ & _ & ->). exact E.
Qed.

Lemma reverse_safe w v b type : Inv w -> isTypedArrayOn w v b type -> safely w (builtinTypedArrayReverse v) (fun _ _ => True).
Proof using Type.
  clear Laws. intros Hi Ht. unfold builtinTypedArrayReverse. eapply safely_bind; [exact (validate_safe w v b type Hi Ht)|].
  intros [view type'] w0 _ _ (-> & Et & E & K & B & block & D). cbn [fst snd] in *. subst type'. cbv zeta.
  destruct (window_range w v view b type Hi E K B) as (_ & Hlen & _).
  apply rewrites_safely, (reverseLoop_rewrites _ w v view b block type); try assumption; [lia|].
  rewrite Z2Nat.id by (apply Z.div_pos; lia). pose proof (Z.mul_div_le (m_arrayLength view) 2). lia.
Qed.
End Move.
