(* ===== verification/TypedArrayHistory.v ===== *)
(** * Typed arrays stay in memory: programs

    The operations of scripts on buffers and views as data, the scripts that conversions call as
    sequences of operations in turn, and the worlds that can be reached. *)

From stdpp Require Import list.
From S2P Require Import Prelude Float64 Ieee754 Value ArrayBuffer ArrayBufferSpec ArrayBufferOps ArrayElement.
From S2P Require Import TypedArray TypedArrayBuiltins TypedArraySpec TypedArraySafe TypedArrayMethods.
From S2P Require Import TypedArrayMove.
Local Open Scope esc_scope.
Local Open Scope Z_scope.

(** ** Operations *)

Inductive Operation :=
| NewArrayBuffer (length : JSValue) (options : option nat)
| BufferByteLength (b : nat)
| BufferMaxByteLength (b : nat)
| BufferResize (b : nat) (argv : list JSValue)
| BufferTransfer (b : nat) (argv : list JSValue)
| BufferSlice (b : nat) (argv : list JSValue)
| NewDataView (b : nat) (argv : list JSValue)
| DataViewGet (v : nat) (argv : list JSValue) (isLittleEndian : bool) (type : TypedArrayType)
| DataViewSet (v : nat) (argv : list JSValue) (isLittleEndian : bool) (type : TypedArrayType)
| NewTypedArray (type : TypedArrayType) (firstArg : FirstArgument)
| IndexedGet (v : nat) (i : Z)
| IndexedSet (v : nat) (i : Z) (value : JSValue)
| HasElement (v : nat) (index : Z)
| GetElement (v : nat) (index : Z)
| SetElement (v : nat) (index : Z) (value : JSValue)
| DefineElement (v : nat) (index : Z) (desc : ElementDescriptor)
| DeleteElement (v : nat) (index : Z)
| ArrayNumber (v : nat) (number : ArrayBufferView -> Z)
| ArrayCopyWithin (v : nat) (argv : list JSValue)
| ArrayFill (v : nat) (argv : list JSValue)
| ArraySet (v : nat) (source : SetSource) (offset : JSValue)
| ArrayReverse (v : nat).

Section Run.
Context `{Scripts}.

Definition done {A} (m : WM A) : WM unit := let! _ := m in ret tt.

Definition run (op : Operation) : WM unit :=
  match op with
  | NewArrayBuffer length options => done (builtinArrayBufferConstructor length options)
  | BufferByteLength b => done (builtinArrayBufferByteLengthGetter b)
  | BufferMaxByteLength b => done (builtinArrayBufferMaxByteLengthGetter b)
  | BufferResize b argv => builtinArrayBufferResize b argv
  | BufferTransfer b argv => done (builtinArrayBufferTransfer b argv)
  | BufferSlice b argv => done (builtinArrayBufferSlice b argv)
  | NewDataView b argv => done (builtinDataViewConstructor b argv)
  | DataViewGet v argv le type => done (builtinDataViewGet v argv le type)
  | DataViewSet v argv le type => builtinDataViewSet v argv le type
  | NewTypedArray type firstArg => done (builtinTypedArrayConstructor type firstArg)
  | IndexedGet v i => done (getIndexedProperty v i)
  | IndexedSet v i value => done (setIndexedProperty v i value)
  | HasElement v index => done (typedArray_hasProperty v index)
  | GetElement v index => done (typedArray_get v index)
  | SetElement v index value => done (typedArray_set v index value)
  | DefineElement v index desc => done (typedArray_defineOwnProperty v index desc)
  | DeleteElement v index => done (typedArray_deleteOwnProperty v index)
  | ArrayNumber v number => done (builtinTypedArrayNumberGetter number v)
  | ArrayCopyWithin v argv => builtinTypedArrayCopyWithin v argv
  | ArrayFill v argv => builtinTypedArrayFill v argv
  | ArraySet v source offset => builtinTypedArraySet v source offset
  | ArrayReverse v => builtinTypedArrayReverse v
  end.
End Run.

(** The objects that an operation names exist, and were given to scripts: a view that is still being
    constructed has no buffer.  A buffer that is sliced has less than 2^31 bytes. *)
Definition hasBuffer (w : World) (b : nat) : bool := bool_decide (is_Some (buffers w !! b)).
Definition hasView (isTyped : bool) (w : World) (v : nat) : bool :=
  match views w !! v with
  | Some view => bool_decide (is_Some (m_buffer view)) &&
                 Bool.eqb isTyped (match viewKind view with TypedArrayObject _ => true | DataViewObject => false end)
  | None => false
  end.
(** An [int32_t] is one. *)
Definition isNormal (v : JSValue) : bool := match v with Int32Value i => (- 2 ^ 31 <=? i) && (i <? 2 ^ 31) | _ => true end.

Definition enabledArgument (w : World) (firstArg : FirstArgument) : bool :=
  match firstArg with
  | PrimitiveArgument x => isNormal x
  | TypedArrayArgument src => hasView true w src
  | ArrayBufferArgument b byteOffset length => hasBuffer w b && isNormal byteOffset && isNormal length
  | NoArgument | ObjectArgument _ => true
  end.

Definition enabled (w : World) (op : Operation) : bool :=
  match op with
  | NewArrayBuffer length _ => isNormal length
  | BufferByteLength b | BufferMaxByteLength b | BufferResize b _ | BufferTransfer b _ => hasBuffer w b
  | BufferSlice b _ => hasBuffer w b && (byteLengthOf w b <? 2 ^ 31)
  | NewDataView b argv => hasBuffer w b && forallb isNormal argv
  | DataViewGet v argv _ _ | DataViewSet v argv _ _ => hasView false w v && forallb isNormal argv
  | NewTypedArray _ firstArg => enabledArgument w firstArg
  | IndexedGet v i | IndexedSet v i _ => hasView true w v && (0 <=? i)
  | HasElement v _ | GetElement v _ | SetElement v _ _ | DefineElement v _ _ | DeleteElement v _ | ArrayNumber v _ => hasView true w v
  | ArrayCopyWithin v _ | ArrayFill v _ | ArrayReverse v => hasView true w v
  | ArraySet v source _ => hasView true w v && match source with SetFromTypedArray s => hasView true w s | SetFromObject _ => true end
  end.

Definition perform `{Scripts} (op : Operation) : WM unit :=
  let! ok := gets (fun w => enabled w op) in when! ok then run op.

Lemma isNormal_ok v : isNormal v = true -> int32_ok v.
Proof. destruct v; cbn; try trivial. unfold in_int32. intros H. apply andb_true_iff in H as [H1 H2]. lia. Qed.

Lemma normal_args argv n : forallb isNormal argv = true -> int32_ok (arg argv n).
Proof.
  intros H. apply isNormal_ok. unfold arg. destruct (nth_in_or_default n argv Undefined) as [Hin| ->]; [|reflexivity].
  exact (proj1 (forallb_forall isNormal argv) H _ Hin).
Qed.

Lemma hasBuffer_is w b : hasBuffer w b = true -> is_Some (buffers w !! b).
Proof. apply bool_decide_eq_true. Qed.

Lemma hasView_typed w v : hasView true w v = true -> exists b type, isTypedArrayOn w v b type.
Proof.
  unfold hasView. destruct (views w !! v) as [view|] eqn:E; [|discriminate]. intros H. apply andb_true_iff in H as [H K].
  apply bool_decide_eq_true in H as [b B]. destruct (viewKind view) as [type|] eqn:Ek; [|discriminate]. exists b, type, view. auto.
Qed.
Lemma hasView_data w v : hasView false w v = true -> exists b, isDataViewOn w v b.
Proof.
  unfold hasView. destruct (views w !! v) as [view|] eqn:E; [|discriminate]. intros H. apply andb_true_iff in H as [H K].
  apply bool_decide_eq_true in H as [b B]. destruct (viewKind view) as [type|] eqn:Ek; [discriminate|]. exists b, view. auto.
Qed.

(** ** Every operation is safe *)

Section RunSafe.
Context `{Laws : ScriptLaws}.

Lemma done_safe {A} w (m : WM A) Q : safely w m Q -> safely w (done m) (fun _ _ => True).
Proof using Type. intros Hm. eapply safely_bind; [exact Hm|]. intros a w' Hi _ _. apply safely_ret; auto. Qed.

Lemma done_reads {A} w (m : WM A) a : Inv w -> m w = (Ret a, w) -> safely w (done m) (fun _ _ => True).
Proof using Type. intros Hi E. eapply safely_pure; [exact E|]. apply safely_ret; auto. Qed.

Lemma maxByteLength_reads w b : exists z, builtinArrayBufferMaxByteLengthGetter b w = (Ret z, w).
Proof using Type.
  clear Laws. unfold builtinArrayBufferMaxByteLengthGetter, maxByteLengthOf, bind, gets, get, isResizableArrayBuffer.
  destruct (isDetachedBuffer w b) eqn:D; [eexists; reflexivity|]. apply attached_iff in D as [block D].
  unfold dataOf in D. destruct (storeOf w b) as [store|] eqn:E; [|discriminate]. destruct (m_isResizable store); [rewrite E|]; eexists; reflexivity.
Qed.

Lemma numberGetter_reads w v b type number : isTypedArrayOn w v b type -> exists z, builtinTypedArrayNumberGetter number v w = (Ret z, w).
Proof using Type.
  intros (view & E & K & B). unfold builtinTypedArrayNumberGetter, bind at 1. rewrite (theTypedArray_eq v view type w E K).
  unfold bind. rewrite (isDetached_eq view b w B). eauto.
Qed.

Lemma delete_reads w v b type index : isTypedArrayOn w v b type -> exists r, typedArray_deleteOwnProperty v index w = (Ret r, w).
Proof using Type.
  intros (view & E & K & B). unfold typedArray_deleteOwnProperty, bind at 1. rewrite (theView_eq v view w E).
  unfold bind. rewrite (isDetached_eq view b w B). eauto.
Qed.

Lemma run_elements_safe op w v b type : Inv w -> isTypedArrayOn w v b type ->
  match op with
  | HasElement v' _ | GetElement v' _ | SetElement v' _ _ | DefineElement v' _ _ | DeleteElement v' _ | ArrayNumber v' _
  | ArrayCopyWithin v' _ | ArrayFill v' _ | ArrayReverse v' => v' = v
  | IndexedGet v' i | IndexedSet v' i _ => v' = v /\ 0 <= i
  | ArraySet v' source _ => v' = v /\ source_ok w source
  | _ => False
  end -> safely w (run op) (fun _ _ => True).
Proof using Laws.
  intros Hi Ht. destruct op; cbn [run]; try contradiction; [intros [-> Ho]|intros [-> Ho]|intros ->..|intros [-> Ho]|intros ->].
  - destruct (getIndexed_safe w v b type i Hi Ht Ho) as (r & E & _). exact (done_reads w _ _ Hi E).
  - eapply done_safe, setIndexed_safe; eassumption.
  - destruct (elementGet_safe w v b type index Hi Ht) as (r & E & _). eapply (done_reads w _ _ Hi). unfold typedArray_hasProperty, bind. rewrite E. reflexivity.
  - destruct (elementGet_safe w v b type index Hi Ht) as (r & E & _). exact (done_reads w _ _ Hi E).
  - eapply done_safe, set_safe; eassumption.
  - eapply done_safe, defineElement_safe; eassumption.
  - destruct (delete_reads w v b type index Ht) as (r & E). exact (done_reads w _ _ Hi E).
  - destruct (numberGetter_reads w v b type number Ht) as (r & E). exact (done_reads w _ _ Hi E).
  - eapply copyWithin_safe; eassumption.
  - eapply fill_safe; eassumption.
  - eapply set_safe_all; eassumption.
  - eapply reverse_safe; eassumption.
Qed.

Lemma dataView_checked w v b {A} (m : WM A) Q : isDataViewOn w v b -> safely w m Q -> safely w (do! theDataView v in m) Q.
Proof using Type. intros (view & E & K & _) Hm. eapply safely_pure; [exact (theDataView_eq v view w E K)|exact Hm]. Qed.

Lemma perform_safe op w : Inv w -> safely w (perform op) (fun _ _ => True).
Proof using Laws.
  intros Hi. unfold perform. eapply safely_pure; [reflexivity|]. destruct (enabled w op) eqn:E; [|apply safely_ret; auto].
  assert (Hel : forall v, hasView true w v = true -> forall Q, (forall b type, isTypedArrayOn w v b type -> safely w (run op) Q) -> safely w (run op) Q).
  { intros v Hv Q HQ. apply hasView_typed in Hv as (b & type & Hv). exact (HQ b type Hv). }
  destruct op; cbn [enabled] in E; repeat (apply andb_true_iff in E as [E ?]);
    try (apply (Hel v E); intros b' type' Ht; apply (run_elements_safe _ w v b' type' Hi Ht); cbn; auto;
         try (split; [reflexivity|]); try (apply Z.leb_le; assumption)); cbn [run].
  - eapply done_safe, constructor_safe; [exact Hi|apply isNormal_ok, E].
  - exact (done_reads w _ _ Hi eq_refl).
  - destruct (maxByteLength_reads w b) as [z Ez]. exact (done_reads w _ _ Hi Ez).
  - apply resize_safe; [exact Hi|apply hasBuffer_is, E].
  - eapply done_safe, transfer_safe; [exact Hi|apply hasBuffer_is, E].
  - eapply done_safe, slice_safe; [exact Hi|apply hasBuffer_is, E|apply Z.ltb_lt; assumption].
  - eapply done_safe, dataViewConstructor_safe; [exact Hi|apply hasBuffer_is, E|intros n; apply normal_args; assumption].
  - apply hasView_data in E as [b Hv]. eapply done_safe, dataView_checked; [exact Hv|].
    apply (getViewValue_safe w v b); [exact Hi|exact Hv|apply normal_args; assumption].
  - apply hasView_data in E as [b Hv]. eapply dataView_checked; [exact Hv|].
    apply (setViewValue_safe w v b); [exact Hi|exact Hv|apply normal_args; assumption].
  - eapply done_safe, typedArrayConstructor_safe; [exact Hi|]. destruct firstArg as [|x|src|b byteOffset length|n]; cbn in *; auto.
    + apply isNormal_ok, E.
    + apply hasView_typed in E as (b & t & Ht). eauto.
    + apply andb_true_iff in E as [E E3]. apply andb_true_iff in E as [E1 E2]. split; [apply hasBuffer_is, E1|split; apply isNormal_ok; assumption].
  - destruct source as [s|n]; [|exact I]. cbn. apply hasView_typed; assumption.
Qed.
End RunSafe.

(** ** Programs

    A script is a sequence of operations: the next one depends on the world and on the number of steps
    that were made.  Its answers depend on the world. *)

Inductive Hook :=
| ToPrimitive (n : nat) | GetPrototype | GetSpecies (b : nat) | ConstructSpecies (b : nat) (n : Z)
| GetOption (n : nat) | IterateOver (n : nat) | GetLength (n : nat) | GetItem (n : nat) (k : Z).

Record Program := {
  nextOperation : Hook -> World -> nat -> option Operation;
  catches : Hook -> World -> nat -> bool;             (* an exception of that operation *)
  throws : Hook -> World -> bool;                     (* in the end *)
  numberAnswer : World -> nat -> option Z;            (* no answer: an exception *)
  bigIntAnswer : World -> nat -> option Z;
  constructAnswer : World -> nat -> Z -> option nat;
  valueAnswer : Hook -> World -> JSValue;
  listAnswer : World -> nat -> option (list JSValue);
  lengthAnswer : World -> nat -> Z;                   (* before ToLength *)
  castAnswer : TypedArrayType -> Z -> Z
}.

(** After these nothing is known of the process, if it goes on: no script catches them. *)
Definition fatal (e : Error) : bool := match e with TypeError | RangeError | ScriptError => false | _ => true end.

(** [steps] operations at most; a longer script is interrupted. *)
Fixpoint script (perform : Operation -> WM unit) (P : Program) (hook : Hook) (step steps : nat) : WM unit :=
  match steps with
  | O => throw ScriptError
  | S steps =>
    let! next := gets (fun w => nextOperation P hook w step) in
    match next with
    | None => let! t := gets (throws P hook) in when! t then throw ScriptError
    | Some op =>
      let! caught := gets (fun w => catches P hook w step) in
      do! try_catch (perform op) (fun e =>
            if fatal e then throw e else if caught then ret tt else throw e) in
      script perform P hook (S step) steps
    end
  end.

Definition answerOf (r : option Z) : Z + Error := match r with Some z => inl z | None => inr ScriptError end.
Definition normal (v : JSValue) : JSValue := if isNormal v then v else Undefined.

(** The engine in which conversions run the scripts of [P], to a depth: deeper calls overflow the stack. *)
Definition overflow (P : Program) : Scripts := {|
  userToPrimitive := fun _ => throw RangeError;
  userPrototype := throw RangeError;
  userSpecies := fun _ => throw RangeError;
  userConstruct := fun _ _ => throw RangeError;
  userOption := fun _ => throw RangeError;
  userIterate := fun _ => throw RangeError;
  userLength := fun _ => throw RangeError;
  userGet := fun _ _ => throw RangeError;
  undefinedCast := castAnswer P
|}.

Definition calling (perform : Operation -> WM unit) (P : Program) (steps : nat) : Scripts :=
  let call hook := script perform P hook 0 steps in {|
  userToPrimitive := fun n => do! call (ToPrimitive n) in
                              gets (fun w => mkPrimitive (answerOf (numberAnswer P w n)) (answerOf (bigIntAnswer P w n)));
  userPrototype := call GetPrototype;
  userSpecies := fun b => call (GetSpecies b);
  userConstruct := fun b n => do! call (ConstructSpecies b n) in
                              gets (fun w => match constructAnswer P w b n with
                                             | Some b' => if hasBuffer w b' then Some b' else None
                                             | None => None
                                             end);
  userOption := fun n => do! call (GetOption n) in gets (fun w => normal (valueAnswer P (GetOption n) w));
  userIterate := fun n => do! call (IterateOver n) in
                          gets (fun w => match listAnswer P w n with
                                         | Some l => if Z.of_nat (List.length l) <=? maximumLength then Some l else None
                                         | None => None
                                         end);
  userLength := fun n => do! call (GetLength n) in gets (fun w => Z.max 0 (Z.min (lengthAnswer P w n) maximumLength));
  userGet := fun n k => do! call (GetItem n k) in gets (fun w => valueAnswer P (GetItem n k) w);
  undefinedCast := castAnswer P
|}.

Fixpoint engine (P : Program) (steps depth : nat) : Scripts :=
  match depth with
  | O => overflow P
  | S depth => calling (@perform (engine P steps depth)) P steps
  end.

Definition performWith (P : Program) (steps depth : nat) (op : Operation) : WM unit := @perform (engine P steps depth) op.

Section Programs.
Context (P : Program).

Lemma safely_gets {A B} w (f : World -> A) (k : A -> WM B) Q : safely w (k (f w)) Q -> safely w (bind (gets f) k) Q.
Proof. intros H. eapply safely_pure; [reflexivity|exact H]. Qed.

Lemma script_safe (perform : Operation -> WM unit) hook : (forall op, polite (perform op) (fun _ _ => True)) ->
  forall steps step, polite (script perform P hook step steps) (fun _ _ => True).
Proof.
  intros Hp. induction steps as [|steps IH]; intros step w Hi; cbn [script]; [apply safely_throw; cbn; auto|].
  apply safely_gets. destruct (nextOperation P hook w step) as [op|].
  - apply safely_gets. eapply (safely_bind _ _ _ (fun _ _ => True)); [|intros u w' Hi' _ _; exact (IH (S step) w' Hi')].
    unfold safely. apply wp_try_catch. eapply wp_mono; [exact (Hp op w Hi)|exact (fun _ _ H => H)|].
    intros e w' (He & Hi' & Hd).
    destruct (fatal e); [apply wp_throw; auto|]. destruct (catches P hook w step); [apply wp_ret; auto|apply wp_throw; auto].
  - apply safely_gets. destruct (throws P hook w); [apply safely_throw; cbn; auto|apply safely_ret; auto].
Qed.

Lemma calls_then {A} (m : WM unit) (f : World -> A) (Q : A -> World -> Prop) : polite m (fun _ _ => True) ->
  (forall w, Q (f w) w) -> polite (do! m in gets f) Q.
Proof.
  intros Hm HQ w Hi. eapply safely_bind; [exact (Hm w Hi)|]. intros u w' Hi' _ _. unfold safely, wp, gets. auto using descends_refl.
Qed.

Lemma overflow_laws : @ScriptLaws (overflow P).
Proof. split; intros; intros w Hi; apply safely_throw; cbn; auto. Qed.

Lemma calling_laws perform steps : (forall op, polite (perform op) (fun _ _ => True)) -> @ScriptLaws (calling perform P steps).
Proof.
  intros Hp. assert (Hc : forall hook, polite (script perform P hook 0 steps) (fun _ _ => True)) by (intros hook; apply script_safe, Hp).
  split; try exact (fun _ => Hc _); try exact (Hc _); intros; apply calls_then; try apply Hc; intros w.
  - cbn. destruct (numberAnswer P w n), (bigIntAnswer P w n); cbn; auto.
  - intros b'. destruct (constructAnswer P w b n) as [b1|]; [|discriminate]. destruct (hasBuffer w b1) eqn:E; [|discriminate].
    intros [= <-]. apply hasBuffer_is, E.
  - unfold normal. destruct (isNormal _) eqn:E; [apply isNormal_ok, E|exact I].
  - intros l. destruct (listAnswer P w n) as [l'|]; [|discriminate]. destruct (Z.leb_spec (Z.of_nat (List.length l')) maximumLength); [|discriminate].
    intros [= <-]. assumption.
  - unfold maximumLength. lia.
  - exact I.
Qed.

(** Whatever the scripts are, and however deep they call each other. *)
Lemma engine_laws steps depth : @ScriptLaws (engine P steps depth).
Proof.
  induction depth as [|depth IH]; cbn [engine]; [apply overflow_laws|]. apply calling_laws. intros op w Hi. exact (@perform_safe _ IH op w Hi).
Qed.

Lemma performWith_safe steps depth op w : Inv w -> safely w (performWith P steps depth op) (fun _ _ => True).
Proof. exact (@perform_safe _ (engine_laws steps depth) op w). Qed.
End Programs.

(** ** Worlds *)

Definition noWorld : World := mkWorld [] [] [] [].

(** An operation of a script that ends with an answer or an exception, or one of the embedder: a new array buffer, a store for memory of its own,
    a buffer that is attached to a store or loses its store, and other memory for a store that is not resizable. *)
Inductive Step : World -> World -> Prop :=
| step_script P steps depth op r w w' : performWith P steps depth op w = (r, w') -> (forall e, r = Throw e -> fatal e = false) -> Step w w'
| step_buffer w b w' : newBuffer w = (Ret b, w') -> Step w w'
| step_store bytes w s w' : Z.of_nat (List.length bytes) < sizeLimit -> createNonSharedBackingStore bytes w = (Ret s, w') -> Step w w'
| step_attach b s w w' : is_Some (buffers w !! b) -> is_Some (stores w !! s) -> attachBuffer b s w = (Ret tt, w') -> Step w w'
| step_detach b w w' : is_Some (buffers w !! b) -> detachArrayBuffer b w = (Ret tt, w') -> Step w w'
| step_reallocate s n store w w' : stores w !! s = Some store -> m_isResizable store = false -> 0 <= n < sizeLimit ->
    reallocate s n w = (Ret tt, w') -> Step w w'.

Inductive reachable : World -> Prop :=
| reachable_start : reachable noWorld
| reachable_step w w' : reachable w -> Step w w' -> reachable w'.

Lemma noWorld_inv : Inv noWorld.
Proof.
  split; [split|]; cbn; try (intros; discriminate).
  - intros s b (buffer & E & _). discriminate E.
  - intros b v (view & E & _). discriminate E.
Qed.

Lemma wp_outcome {A} (m : WM A) w r w' Q (X : Error -> World -> Prop) : wp m w Q X -> m w = (r, w') ->
  match r with Ret a => Q a w' | Throw e => X e w' | _ => False end.
Proof. unfold wp. intros H E. rewrite E in H. destruct r; exact H. Qed.

Lemma attachBuffer_inv b s w (X : Error -> World -> Prop) : Inv w -> is_Some (buffers w !! b) -> is_Some (stores w !! s) ->
  wp (attachBuffer b s) w (fun _ w' => Inv w') X.
Proof.
  intros Hi [buffer Eb] [store Es]. apply wp_bind. eapply wp_mono; [apply (detachArrayBuffer_spec b w X Hi); eauto| |auto].
  intros _ w1 (Hi1 & [Hs Hb]). specialize (Hb buffer Eb). destruct Hs as (_ & S1 & _). specialize (S1 s). rewrite Es in S1.
  destruct (stores w1 !! s) as [store1|] eqn:E1; [|discriminate].
  eapply wp_mono; [apply (attach_spec b s _ store1 w1 X Hi1 Hb eq_refl E1)| |auto]. intros _ w2 (Hi2 & _). exact Hi2.
Qed.

Lemma step_inv w w' : Inv w -> Step w w' -> Inv w'.
Proof.
  intros Hi Hs. destruct Hs as [P steps depth op r w w' E Hr|w b w' E|bytes w s w' Hb E|b s w w' Hb Hs E|b w w' Hb E|s n store w w' Es Hr Hn E].
  - pose proof (wp_outcome _ _ _ _ _ _ (performWith_safe P steps depth op w Hi) E) as H. destruct r; [apply H| |destruct H].
    destruct H as (_ & H & _). exact H.
  - injection E as _ <-. apply newBuffer_inv, Hi.
  - pose proof (wp_outcome _ _ _ _ _ _ (createNonShared_spec w bytes (fun _ _ => False) Hi Hb) E) as H. apply H.
  - exact (wp_outcome _ _ _ _ _ _ (attachBuffer_inv b s w (fun _ _ => False) Hi Hb Hs) E).
  - pose proof (wp_outcome _ _ _ _ _ _ (detachArrayBuffer_spec b w (fun _ _ => False) Hi Hb) E) as H. apply H.
  - pose proof (wp_outcome _ _ _ _ _ _ (reallocate_spec s n store w (fun _ _ => False) Hi Es Hr Hn) E) as H. apply H.
Qed.

Lemma reachable_inv w : reachable w -> Inv w.
Proof. induction 1 as [|w w' _ IH Hs]; [exact noWorld_inv|exact (step_inv w w' IH Hs)]. Qed.
