(* ===== verification/TypedArrayProperties.v ===== *)
(** * The bytes that typed arrays and data views write

    What one element, and a loop over bytes, make of the bytes of a block. *)

From stdpp Require Import list.
From S2P Require Import Prelude Float64 Ieee754 Value ArrayBuffer ArrayBufferSpec ArrayBufferOps ArrayElement.
From S2P Require Import TypedArray TypedArrayBuiltins TypedArraySpec TypedArraySafe TypedArrayMethods.
From S2P Require Import TypedArrayMove TypedArrayHistory.
Local Open Scope esc_scope.
Local Open Scope Z_scope.

(** ** One element *)

Lemma splice_read bytes at_ l : (at_ + List.length l <= List.length bytes)%nat ->
  take (List.length l) (drop at_ (splice bytes at_ l)) = l.
Proof.
  intros H. unfold splice. rewrite drop_app_length' by (rewrite length_take; lia). apply take_app_length'. reflexivity.
Qed.

Lemma splice_lookup bytes at_ l k : (at_ + List.length l <= List.length bytes)%nat ->
  splice bytes at_ l !! k = if decide (at_ <= k < at_ + List.length l)%nat then l !! (k - at_)%nat else bytes !! k.
Proof.
  intros H. unfold splice. destruct (decide (k < at_)%nat).
  - rewrite lookup_app_l by (rewrite length_take; lia). rewrite lookup_take_lt by lia. rewrite decide_False by lia. reflexivity.
  - rewrite lookup_app_r by (rewrite length_take; lia). rewrite length_take, Nat.min_l by lia. case_decide.
    + apply lookup_app_l. lia.
    + rewrite lookup_app_r, lookup_drop by lia. f_equal. lia.
Qed.

(** Bytes that are not in the range. *)
Lemma splice_elsewhere bytes at_ l from n : (at_ + List.length l <= List.length bytes)%nat ->
  (from + n <= at_ \/ at_ + List.length l <= from)%nat ->
  take n (drop from (splice bytes at_ l)) = take n (drop from bytes).
Proof.
  intros H Hd. apply list_eq. intros k. destruct (decide (k < n)%nat).
  - rewrite !lookup_take_lt, !lookup_drop, splice_lookup by lia. rewrite decide_False by lia. reflexivity.
  - rewrite !lookup_take_ge by lia. reflexivity.
Qed.

Lemma float32_range d : 0 <= float32_of_double d < 2 ^ 32.
Proof.
  unfold float32_of_double. cbv zeta. assert (Hs : 0 <= (if signbit d then 2 ^ 31 else 0) <= 2 ^ 31) by (destruct (signbit d); lia).
  set (sign := if signbit d then 2 ^ 31 else 0) in *. clearbody sign.
  destruct (isnan d); [pose proof (Z.mod_pos_bound (fractionField d / 2 ^ 29) (2 ^ 22)); lia|].
  destruct (isinf d); [lia|]. set (e := Z.max 925 _). assert (Hu : 0 < 2 ^ e) by (apply Z.pow_pos_nonneg; lia).
  assert (Hr : 0 <= round_even (magnitude d) (2 ^ e)).
  { pose proof (round_even_near (magnitude d) (2 ^ e) Hu). pose proof (magnitude_nonneg d). nia. }
  lia.
Qed.

Section Natives.
Context `{Scripts}.

Lemma toNative_native type v n w w' : wf_value v -> plain v -> toNative type v w = (Ret n, w') -> is_native type n.
Proof.
  intros Hv Hp E. assert (Hc : forall z, is_native type (castInteger type z)) by (intros z; apply castInteger_spec).
  assert (H8 : forall d m, clamped d m -> is_native Uint8Clamped m) by (intros d m [Hm _]; change (0 <= m < 256); lia).
  assert (Hq : is_bits64 quiet_NaN) by (split; vm_compute; [discriminate|reflexivity]).
  destruct v as [i|d|z| |m]; [| | | |destruct (Hp m eq_refl)]; cbn [wf_value] in Hv; [pose proof (of_integer_bits i Hv) as Hb| | |].
  all: destruct type; try discriminate E;
    cbn -[castInteger clampedFromDouble toNativeFromDouble float32_of_double of_integer quiet_NaN] in E; injection E as <- _; first
      [ apply Hc | exact (float32_range _) | exact Hq | assumption | exact (H8 _ _ (clampedFromDouble_spec _))
      | exact (H8 _ _ (clamped_int32 i Hv)) | split; vm_compute; [discriminate|reflexivity] ].
Qed.
End Natives.

(** ** A loop over bytes *)

(** [copyBytes] on the bytes of one block. *)
Fixpoint moves (count : nat) (i j d : Z) (bytes : list Z) : list Z :=
  match count with
  | O => bytes
  | S count => moves count (i + d) (j + d) d (<[Z.to_nat j := default 0 (bytes !! Z.to_nat i)]> bytes)
  end.

Definition withBlock (w : World) (block : nat) (bytes : list Z) : World := setMemory w (<[block := Some bytes]> (memory w)).

Lemma splice_one bytes at_ x : (at_ < List.length bytes)%nat -> splice bytes at_ [x] = <[at_ := x]> bytes.
Proof.
  intros H. apply list_eq. intros k. rewrite splice_lookup by (cbn; lia). cbn [List.length]. case_decide.
  - replace k with at_ by lia. rewrite Nat.sub_diag, list_lookup_insert_eq by exact H. reflexivity.
  - rewrite list_lookup_insert_ne by lia. reflexivity.
Qed.

Lemma octet_at bytes i : Forall is_octet bytes -> 0 <= i < Z.of_nat (List.length bytes) ->
  exists x, bytes !! Z.to_nat i = Some x /\ is_octet x.
Proof.
  intros Ho Hi. destruct (lookup_lt_is_Some_2 bytes (Z.to_nat i)) as [x Ex]; [lia|]. exists x. split; [exact Ex|].
  exact (proj1 (Forall_lookup _ _) Ho _ _ Ex).
Qed.

Section Loop.
Context `{Scripts}.

Lemma getByte w b block bytes i x : dataOf w b = Some block -> memory w !! block = Some (Some bytes) ->
  0 <= i < Z.of_nat (List.length bytes) -> bytes !! Z.to_nat i = Some x -> getValueFromBuffer b i Uint8 true w = (Ret (Int32Value x), w).
Proof.
  intros D Em Hi Ex. rewrite (getValueFromBuffer_eq w b block bytes) by (assumption || (cbn; lia)).
  unfold sliceOf, inOrder. cbn [elementBytes elementSizeTable Z.to_nat Pos.to_nat Pos.iter_op].
  rewrite (drop_S bytes x _ Ex). change (elementBytes Uint8) with 1%nat. cbn. rewrite take_0. cbn. rewrite Z.add_0_r. reflexivity.
Qed.

Lemma setByte w b block bytes j x : dataOf w b = Some block -> memory w !! block = Some (Some bytes) ->
  0 <= j < Z.of_nat (List.length bytes) -> is_octet x ->
  setValueInBuffer b j Uint8 (Int32Value x) true w = (Ret tt, withBlock w block (<[Z.to_nat j := x]> bytes)).
Proof.
  intros D Em Hj Hx. rewrite (setValueInBuffer_eq w b block bytes j Uint8 (Int32Value x) x) by
    (assumption || (cbn; lia) || (unfold is_octet in Hx; cbn; unfold ret; do 2 f_equal; unfold castInteger; cbn; unfold to_unsigned; apply Z.mod_small; exact Hx)).
  unfold written, withBlock. change (elementBytes Uint8) with 1%nat. cbn [inOrder littleEndian].
  unfold is_octet in Hx. rewrite Z.mod_small by exact Hx. rewrite splice_one by lia. reflexivity.
Qed.

Lemma withBlock_twice w block bytes bytes' : withBlock (withBlock w block bytes) block bytes' = withBlock w block bytes'.
Proof. unfold withBlock, setMemory. cbn. rewrite list_insert_insert_eq. reflexivity. Qed.

Lemma copyBytes_moves count : forall w b block bytes i j d, dataOf w b = Some block -> memory w !! block = Some (Some bytes) ->
  Forall is_octet bytes -> (forall k, 0 <= k < Z.of_nat count -> 0 <= i + d * k < Z.of_nat (List.length bytes)) ->
  (forall k, 0 <= k < Z.of_nat count -> 0 <= j + d * k < Z.of_nat (List.length bytes)) ->
  copyBytes count b i b j d w = (Ret tt, withBlock w block (moves count i j d bytes)).
Proof.
  induction count as [|count IH]; intros w b block bytes i j d D Em Ho Hi Hj; cbn [copyBytes moves].
  - unfold withBlock, ret. rewrite list_insert_id by exact Em. destruct w; reflexivity.
  - pose proof (Hi 0 ltac:(lia)) as Hi0. pose proof (Hj 0 ltac:(lia)) as Hj0.
    destruct (octet_at bytes i Ho ltac:(lia)) as (x & Ex & Hx). unfold bind at 1.
    rewrite (getByte w b block bytes i x D Em ltac:(lia) Ex). unfold bind.
    rewrite (setByte w b block bytes j x D Em ltac:(lia) Hx), Ex. cbn [default].
    assert (Hlt : (block < List.length (memory w))%nat) by (apply lookup_lt_Some in Em; exact Em).
    rewrite (IH (withBlock w block (<[Z.to_nat j := x]> bytes)) b block (<[Z.to_nat j := x]> bytes)).
    + rewrite withBlock_twice. reflexivity.
    + exact D.
    + cbn. apply list_lookup_insert_eq, Hlt.
    + apply Forall_insert; assumption.
    + intros k Hk. rewrite length_insert. specialize (Hi (k + 1) ltac:(lia)). lia.
    + intros k Hk. rewrite length_insert. specialize (Hj (k + 1) ltac:(lia)). lia.
Qed.
End Loop.

Lemma insert_at (bytes : list Z) (p k : Z) x : 0 <= p < Z.of_nat (List.length bytes) -> 0 <= k ->
  <[Z.to_nat p := x]> bytes !! Z.to_nat k = if decide (k = p) then Some x else bytes !! Z.to_nat k.
Proof.
  intros Hp Hk. case_decide as E; [subst k; apply list_lookup_insert_eq; lia|apply list_lookup_insert_ne; lia].
Qed.

(** The bytes are moved as if through a copy. *)
Definition moved (count i j : Z) (bytes : list Z) (k : Z) : option Z :=
  if decide (j <= k < j + count) then bytes !! Z.to_nat (k - j + i) else bytes !! Z.to_nat k.

Lemma moves_forward count : forall bytes i j k, 0 <= i -> 0 <= j -> 0 <= k -> i + Z.of_nat count <= Z.of_nat (List.length bytes) ->
  j + Z.of_nat count <= Z.of_nat (List.length bytes) -> j <= i \/ i + Z.of_nat count <= j ->
  moves count i j 1 bytes !! Z.to_nat k = moved (Z.of_nat count) i j bytes k.
Proof.
  induction count as [|count IH]; intros bytes i j k Hi Hj Hk Li Lj Hd; cbn [moves]; unfold moved; [rewrite decide_False by lia; reflexivity|].
  destruct (lookup_lt_is_Some_2 bytes (Z.to_nat i)) as [x Ex]; [lia|].
  rewrite IH by (rewrite ?length_insert; lia). unfold moved. rewrite Ex. cbn [default].
  destruct (decide (k = j)) as [->|Hne].
  - rewrite decide_False, decide_True, insert_at, decide_True by lia. replace (j - j + i) with i by lia. rewrite Ex. reflexivity.
  - destruct (decide (j + 1 <= k < j + 1 + Z.of_nat count)).
    + rewrite decide_True, insert_at, decide_False by lia. do 2 f_equal. lia.
    + rewrite decide_False, insert_at, decide_False by lia. reflexivity.
Qed.

Lemma moves_backward count : forall bytes i j k, 0 <= i -> i <= j -> 0 <= k -> j + Z.of_nat count <= Z.of_nat (List.length bytes) ->
  moves count (i + Z.of_nat count - 1) (j + Z.of_nat count - 1) (-1) bytes !! Z.to_nat k = moved (Z.of_nat count) i j bytes k.
Proof.
  induction count as [|count IH]; intros bytes i j k Hi Hj Hk Lj; cbn [moves]; unfold moved; [rewrite decide_False by lia; reflexivity|].
  replace (i + Z.of_nat (S count) - 1) with (i + Z.of_nat count) by lia. replace (j + Z.of_nat (S count) - 1) with (j + Z.of_nat count) by lia.
  destruct (lookup_lt_is_Some_2 bytes (Z.to_nat (i + Z.of_nat count))) as [x Ex]; [lia|]. rewrite Ex. cbn [default].
  rewrite (IH _ i j k) by (rewrite ?length_insert; lia). unfold moved.
  destruct (decide (k = j + Z.of_nat count)) as [->|Hne].
  - rewrite decide_False, decide_True, insert_at, decide_True by lia. unfold id. rewrite <- Ex. do 2 f_equal. lia.
  - destruct (decide (j <= k < j + Z.of_nat count)).
    + rewrite decide_True, insert_at, decide_False by lia. reflexivity.
    + rewrite decide_False, insert_at, decide_False by lia. reflexivity.
Qed.

(** * Array buffers, typed arrays and data views: the properties *)

(** ** Views stay in memory *)

(** The window of every view is in the block of its buffer, its pointer points to it, and the elements of a
    typed array are in the window. *)
Definition views_in_memory (w : World) : Prop :=
  forall v view b block, views w !! v = Some view -> m_buffer view = Some b -> dataOf w b = Some block ->
  exists bytes, memory w !! block = Some (Some bytes) /\
    m_cachedRawBufferAddress view = Some (block, m_byteOffset view) /\
    0 <= m_byteOffset view /\ 0 <= m_byteLength view /\ m_byteOffset view + m_byteLength view <= Z.of_nat (List.length bytes) /\
    forall type, viewKind view = TypedArrayObject type -> m_arrayLength view * elementSizeTable type <= m_byteLength view.

Lemma inv_in_memory w : Inv w -> views_in_memory w.
Proof.
  intros Hi v view b block E B D. destruct (view_window w v view b block Hi E B D) as ((Ho & Hl & Ha & _ & Hk) & Hc & Hw).
  destruct (data_block w b block Hi D) as (bytes & Em & Hcap). exists bytes. rewrite <- Hcap.
  repeat (split; [assumption|]). intros type K. rewrite K, elementSize_table in Hk. exact Hk.
Qed.

(** C37: in every world that programs and the embedder can reach, and after every operation of every program (whose
    conversions call scripts, which call operations in turn), views stay in the memory of their buffers. The
    operation ends with an answer or an exception, and never reads or writes outside of a block that is in use. One
    exception: when a script called by the operation takes the memory of a buffer away, the operation can go on
    to use a pointer that it has, which is now null, an offset from null, or to a block that may be freed. The views that operations are given
    have buffers, and the buffers that are sliced have less than 2^31 bytes ([enabled]). *)
Theorem views_stay_in_memory (w : World) (P : Program) (steps depth : nat) (op : Operation) :
  reachable w ->
  let '(r, w') := performWith P steps depth op w in
  views_in_memory w' /\
  (r = Ret tt \/ exists e, r = Throw e /\ (jsError e \/ pointerError e /\ memoryLost w w')).
Proof.
  intros Hr. pose proof (performWith_safe P steps depth op w (reachable_inv w Hr)) as H. unfold safely, wp in H.
  destruct (performWith P steps depth op w) as [[[]|e|] w']; [| |destruct H].
  - destruct H as (Hi & _). split; [exact (inv_in_memory w' Hi)|auto].
  - destruct H as (He & Hi & _). split; [exact (inv_in_memory w' Hi)|right; eauto].
Qed.

(** A program that does as it is told: its first script detaches buffer 0 by a transfer, and every number is 7. *)
Definition detaching : Program := {|
  nextOperation hook w step := match hook, step with ToPrimitive _, O => Some (BufferTransfer 0 []) | _, _ => None end;
  catches _ _ _ := false;
  throws _ _ := false;
  numberAnswer _ _ := Some (of_integer 7);
  bigIntAnswer _ _ := None;
  constructAnswer _ _ _ := None;
  valueAnswer _ _ := Undefined;
  listAnswer _ _ := None;
  lengthAnswer _ _ := 0;
  castAnswer _ _ := 0
|}.

(** The world after operations that all end. *)
Fixpoint worldAfter (P : Program) (steps depth : nat) (ops : list Operation) (w : World) : option World :=
  match ops with
  | [] => Some w
  | op :: ops =>
    match performWith P steps depth op w with
    | (Ret _, w') => worldAfter P steps depth ops w'
    | _ => None
    end
  end.

Lemma reachable_after P steps depth ops : forall w w', reachable w -> worldAfter P steps depth ops w = Some w' -> reachable w'.
Proof.
  induction ops as [|op ops IH]; intros w w' Hr; cbn [worldAfter]; [intros [= <-]; exact Hr|].
  destruct (performWith P steps depth op w) as [[u|e|] w1] eqn:E; try discriminate. intros Ha. apply (IH w1 w'); [|exact Ha].
  apply (reachable_step w w1 Hr). eapply step_script; [exact E|discriminate].
Qed.

(** A buffer of 16 bytes, and on it an array of four words and a data view. *)
Definition sample : list Operation :=
  [NewArrayBuffer (Int32Value 16) None; NewTypedArray Uint32 (ArrayBufferArgument 0 Undefined Undefined); NewDataView 0 []].
Definition sampleWorld : World := default noWorld (worldAfter detaching 3 3 sample noWorld).

Lemma sample_reachable : reachable sampleWorld.
Proof. apply (reachable_after detaching 3 3 sample noWorld); [exact reachable_start|vm_compute; reflexivity]. Qed.

Lemma views_stay_in_memory_witness :
  (let '(r, w') := performWith detaching 3 3 (IndexedSet 0 1 (OtherValue 0)) sampleWorld in
   views_in_memory w' /\ (r = Ret tt \/ exists e, r = Throw e /\ (jsError e \/ pointerError e /\ memoryLost sampleWorld w'))) /\
  fst (performWith detaching 3 3 (DataViewSet 1 [Int32Value 4; OtherValue 0] true Uint16) sampleWorld) = Throw TypeError.
Proof.
  split; [|vm_compute; reflexivity]. apply views_stay_in_memory. exact sample_reachable.
Defined.

(** The store through the cached address, after the conversion has detached the buffer: to the offset of the element
    from null. The internal method looks at the buffer after the conversion. *)
Example indexed_store_after_detach :
  fst (performWith detaching 3 3 (IndexedSet 0 1 (OtherValue 0)) sampleWorld) = Throw (NullAddress 4) /\
  fst (performWith detaching 3 3 (SetElement 0 (of_integer 1) (OtherValue 0)) sampleWorld) = Ret tt.
Proof. split; vm_compute; reflexivity. Qed.

(** The second conversion of a value that is set in a data view, after the address was taken: the first conversion makes
    a second buffer, the second one detaches the first buffer, and the store is to a block that may be freed. *)
Definition detachingLater : Program := {|
  nextOperation hook w step := match hook, step with
    | ToPrimitive _, O => Some (if (List.length (buffers w) =? 1)%nat then NewArrayBuffer (Int32Value 0) None else BufferTransfer 0 [])
    | _, _ => None
    end;
  catches := catches detaching;
  throws := throws detaching;
  numberAnswer := numberAnswer detaching;
  bigIntAnswer := bigIntAnswer detaching;
  constructAnswer := constructAnswer detaching;
  valueAnswer := valueAnswer detaching;
  listAnswer := listAnswer detaching;
  lengthAnswer := lengthAnswer detaching;
  castAnswer := castAnswer detaching
|}.
Example view_store_after_detach :
  fst (performWith detachingLater 3 3 (DataViewSet 1 [Int32Value 4; OtherValue 0] true Uint16) sampleWorld) = Throw UseAfterFree.
Proof. vm_compute. reflexivity. Qed.

(** [resize] asks the store for its maximum after the conversion has detached the buffer. *)
Example resize_after_detach :
  let w := default noWorld (worldAfter {| nextOperation := nextOperation detaching; catches := catches detaching; throws := throws detaching;
     numberAnswer := numberAnswer detaching; bigIntAnswer := bigIntAnswer detaching; constructAnswer := constructAnswer detaching;
     valueAnswer := fun _ _ => Int32Value 32; listAnswer := listAnswer detaching; lengthAnswer := lengthAnswer detaching;
     castAnswer := castAnswer detaching |} 3 3 [NewArrayBuffer (Int32Value 16) (Some 0%nat)] noWorld) in
  fst (performWith detaching 3 3 (BufferResize 0 [OtherValue 0]) w) = Throw NullPointer.
Proof. vm_compute. reflexivity. Qed.

(** ** The fast path of elements *)

Section Paths.
Context `{Scripts}.

(** C38: the interpreter's reads of an element by a number, through the cached address of the view, give the value
    that the internal method [[Get]] gives for the same number as a canonical numeric string, in the same world, as a
    writable and enumerable property; only as to configurable do they differ, in the range of the fast path. Its
    writes of a number (in the canonical form), a BigInt or undefined do what [[Set]] does, with the same refusals. *)
Theorem indexed_access_is_the_internal_method (w : World) (v b : nat) (type : TypedArrayType) (i : Z) :
  reachable w -> isTypedArrayOn w v b type -> 0 <= i < 2 ^ 53 ->
  (exists r c,
    typedArray_get v (of_integer i) w = (Ret (option_map (fun x => elementResult x true true true) r), w) /\
    getIndexedProperty v i w = (Ret (option_map (fun x => elementResult x true true c) r), w) /\
    (forall view, views w !! v = Some view -> c = negb (isUInt32Index i && (i <? m_arrayLength view))) /\
    getIndexedPropertyValue v i w = (Ret (default Undefined r), w)) /\
  forall value, canonical value -> plain value -> setIndexedProperty v i value w = typedArray_set v (of_integer i) value w.
Proof.
  intros Hr Ht Hi. pose proof (reachable_inv w Hr) as Hw.
  split; [|intros value Hc Hp; exact (set_fast_slow w v b type i value Hw Ht Hi Hc Hp)].
  destruct (get_fast_slow w v b type i Hw Ht Hi) as (r & c & Es & Ef & Hc). exists r, c.
  split; [exact Es|]. split; [exact Ef|]. split; [exact Hc|].
  destruct Ht as (view & Ev & K & B). unfold getIndexedPropertyValue, getIndexedProperty, bind in *.
  rewrite (theTypedArray_eq v view type w Ev K) in *. destruct (isUInt32Index i && (i <? m_arrayLength view)).
  - rewrite (isDetached_eq view b w B) in *. destruct (isDetachedBuffer w b); [destruct r; [discriminate Ef|reflexivity]|].
    destruct (getDirectValueFromBuffer v type _ w) as [[x|e|] w']; try discriminate Ef.
    destruct r as [y|]; [|discriminate Ef]. injection Ef as -> _ ->. reflexivity.
  - rewrite Es. destruct r; reflexivity.
Qed.
End Paths.

#[local] Instance calls : Scripts := engine detaching 3 3.

Lemma sample_typed : isTypedArrayOn sampleWorld 0 0 Uint32.
Proof. eexists. split; [vm_compute; reflexivity|split; reflexivity]. Qed.

Lemma indexed_access_is_the_internal_method_witness :
  setIndexedProperty 0 2 (Int32Value (-1)) sampleWorld = typedArray_set 0 (of_integer 2) (Int32Value (-1)) sampleWorld /\
  getIndexedProperty 0 2 (snd (setIndexedProperty 0 2 (Int32Value (-1)) sampleWorld)) =
    (Ret (Some (elementResult (DoubleValue (of_integer (2 ^ 32 - 1))) true true false)), snd (setIndexedProperty 0 2 (Int32Value (-1)) sampleWorld)).
Proof.
  split; [|vm_compute; reflexivity].
  apply (proj2 (indexed_access_is_the_internal_method sampleWorld 0 0 Uint32 2 sample_reachable sample_typed ltac:(lia))).
  - split; vm_compute; [discriminate|reflexivity].
  - intros n. discriminate.
Defined.

(** ** Data views *)

Section DataViews.
Context `{Scripts}.

Lemma getViewValue_eq w v view b block bytes off le type : Inv w -> views w !! v = Some view -> m_buffer view = Some b ->
  dataOf w b = Some block -> memory w !! block = Some (Some bytes) -> 0 <= off ->
  getViewValue v (Int32Value off) le type w =
  if m_byteLength view <? off + elementSizeTable type then (Throw RangeError, w)
  else (Ret (rawBytesToNumber type (inOrder le (sliceOf bytes (off + m_byteOffset view) type))), w).
Proof.
  intros Hi E B D Em H0. destruct (view_window w v view b block Hi E B D) as ((Ho & Hl & _) & _ & Hw).
  destruct (data_block w b block Hi D) as (bytes' & Em' & Hcap). rewrite Em in Em'. injection Em' as <-.
  unfold getViewValue, toIndex. rewrite (proj2 (Z.leb_le 0 off)) by lia. unfold bind at 1. cbn [ret].
  unfold bind at 1. rewrite (theView_eq v view w E). unfold bind at 1. rewrite (bufferOf_eq view b w B).
  unfold bind at 1. rewrite throwIfDetached_eq, (proj2 (attached_iff w b) (ex_intro _ block D)).
  unfold bind, viewIndex. destruct (Z.ltb_spec (m_byteLength view) (off + elementSizeTable type)); [reflexivity|].
  cbn [ret]. unfold ret. rewrite (getValueFromBuffer_eq w b block bytes) by (assumption || lia). reflexivity.
Qed.

Lemma toNumeric_plain v w : plain v -> toNumeric v w = (Ret tt, w).
Proof. intros Hp. destruct v; try reflexivity. destruct (Hp n eq_refl). Qed.

Lemma setViewValue_eq w v view b block bytes off le type x n : Inv w -> views w !! v = Some view -> m_buffer view = Some b ->
  dataOf w b = Some block -> memory w !! block = Some (Some bytes) -> 0 <= off -> plain x -> toNative type x w = (Ret n, w) ->
  setViewValue v (Int32Value off) le type x w =
  if m_byteLength view <? off + elementSizeTable type then (Throw RangeError, w)
  else (Ret tt, written w block bytes (off + m_byteOffset view) (inOrder le (littleEndian (elementBytes type) n))).
Proof.
  intros Hi E B D Em H0 Hx En. destruct (view_window w v view b block Hi E B D) as ((Ho & Hl & _) & _ & Hw).
  destruct (data_block w b block Hi D) as (bytes' & Em' & Hcap). rewrite Em in Em'. injection Em' as <-.
  unfold setViewValue, toIndex. rewrite (proj2 (Z.leb_le 0 off)) by lia. unfold bind at 1. cbn [ret].
  unfold bind at 1. rewrite (toNumeric_plain x w Hx).
  unfold bind at 1. rewrite (theView_eq v view w E). unfold bind at 1. rewrite (bufferOf_eq view b w B).
  unfold bind at 1. rewrite throwIfDetached_eq, (proj2 (attached_iff w b) (ex_intro _ block D)).
  unfold bind, viewIndex. destruct (Z.ltb_spec (m_byteLength view) (off + elementSizeTable type)); [reflexivity|].
  cbn [ret]. unfold ret. rewrite (setValueInBuffer_eq w b block bytes _ type x n) by (assumption || lia). reflexivity.
Qed.

(** C39: a number or BigInt that a data view stores, in either byte order, is read back as the value of its element
    type, and elements that do not overlap it keep their values; past the end of the window both are RangeErrors. *)
Theorem data_view_set_get (w : World) (v b : nat) (off : Z) (le : bool) (type : TypedArrayType) (x : JSValue) (n : Z) :
  reachable w -> isDataViewOn w v b -> isDetachedBuffer w b = false -> 0 <= off -> wf_value x -> plain x ->
  toNative type x w = (Ret n, w) ->
  exists view, views w !! v = Some view /\
  if m_byteLength view <? off + elementSizeTable type
  then setViewValue v (Int32Value off) le type x w = (Throw RangeError, w) /\
       getViewValue v (Int32Value off) le type w = (Throw RangeError, w)
  else exists w', setViewValue v (Int32Value off) le type x w = (Ret tt, w') /\
    getViewValue v (Int32Value off) le type w' = (Ret (elementValue type n), w') /\
    forall off' le' type', 0 <= off' -> off' + elementSizeTable type' <= off \/ off + elementSizeTable type <= off' ->
      fst (getViewValue v (Int32Value off') le' type' w') = fst (getViewValue v (Int32Value off') le' type' w).
Proof.
  intros Hr (view & E & K & B) Hd H0 Hwf Hx En. pose proof (reachable_inv w Hr) as Hi. apply attached_iff in Hd as [block D].
  destruct (data_block w b block Hi D) as (bytes & Em & Hcap). exists view. split; [exact E|].
  destruct (view_window w v view b block Hi E B D) as ((Ho & Hl & _) & _ & Hw).
  rewrite (setViewValue_eq w v view b block bytes off le type x n), (getViewValue_eq w v view b block bytes off le type) by assumption.
  pose proof (elementSizeTable_pos type) as Hp. pose proof (elementBytes_size type) as Hs.
  destruct (Z.ltb_spec (m_byteLength view) (off + elementSizeTable type)) as [|Hfit]; [auto|].
  eexists. split; [reflexivity|]. set (l := inOrder le (littleEndian (elementBytes type) n)).
  assert (Hlen : List.length l = elementBytes type) by (unfold l; rewrite inOrder_length, littleEndian_length; reflexivity).
  set (at_ := off + m_byteOffset view). assert (Hin : at_ + Z.of_nat (List.length l) <= Z.of_nat (List.length bytes)) by (unfold at_; lia).
  destruct (written_inv w block bytes at_ l Hi Em ltac:(unfold at_; lia) Hin) as [Hi' Hd'].
  assert (Em' : memory (written w block bytes at_ l) !! block = Some (Some (splice bytes (Z.to_nat at_) l)))
    by exact (list_lookup_insert_eq _ _ _ (lookup_lt_Some _ _ _ Em)).
  split.
  - rewrite (getViewValue_eq _ v view b block _ off le type Hi' E B D Em' H0).
    rewrite (proj2 (Z.ltb_ge _ _)) by lia. do 2 f_equal. unfold sliceOf. fold at_. rewrite <- Hlen, splice_read by lia.
    unfold l. rewrite inOrder_involutive. apply rawBytes_roundtrip. exact (toNative_native type x n w w Hwf Hx En).
  - intros off' le' type' H0' Hdis. pose proof (elementSizeTable_pos type'). pose proof (elementBytes_size type').
    rewrite (getViewValue_eq _ v view b block _ off' le' type' Hi' E B D Em' H0'), (getViewValue_eq w v view b block bytes off' le' type') by assumption.
    destruct (_ <? _); [reflexivity|]. cbn [fst]. unfold sliceOf. do 3 f_equal. apply splice_elsewhere; unfold at_; lia.
Qed.
End DataViews.

Lemma data_view_set_get_witness :
  exists view, views sampleWorld !! 1%nat = Some view /\
  if m_byteLength view <? 3 + elementSizeTable Int16
  then setViewValue 1 (Int32Value 3) false Int16 (Int32Value (-2)) sampleWorld = (Throw RangeError, sampleWorld) /\
       getViewValue 1 (Int32Value 3) false Int16 sampleWorld = (Throw RangeError, sampleWorld)
  else exists w', setViewValue 1 (Int32Value 3) false Int16 (Int32Value (-2)) sampleWorld = (Ret tt, w') /\
    getViewValue 1 (Int32Value 3) false Int16 w' = (Ret (elementValue Int16 (-2)), w') /\
    forall off' le' type', 0 <= off' -> off' + elementSizeTable type' <= 3 \/ 3 + elementSizeTable Int16 <= off' ->
      fst (getViewValue 1 (Int32Value off') le' type' w') = fst (getViewValue 1 (Int32Value off') le' type' sampleWorld).
Proof.
  apply (data_view_set_get sampleWorld 1 0 3 false Int16 (Int32Value (-2)) (-2) sample_reachable).
  - eexists. split; [vm_compute; reflexivity|split; reflexivity].
  - vm_compute. reflexivity.
  - lia.
  - split; vm_compute; [discriminate|reflexivity].
  - intros m. discriminate.
  - vm_compute. reflexivity.
Defined.

(** A data view without a buffer, such as the prototype object. *)
Example get_without_a_buffer :
  fst (getViewValue 0 (Int32Value 0) true Int8 (snd (newView DataViewObject noWorld))) = Throw NullPointer.
Proof. vm_compute. reflexivity. Qed.

(** ** copyWithin *)

Section CopyWithin.
Context `{Scripts}.

Lemma relativeStart_int t len w : relativeStart (Int32Value t) len w = (Ret (clampIndex (Finite t) len), w).
Proof. reflexivity. Qed.

Lemma validate_eq w v view b block type : views w !! v = Some view -> viewKind view = TypedArrayObject type ->
  m_buffer view = Some b -> dataOf w b = Some block -> validateTypedArray v w = (Ret (view, type), w).
Proof.
  intros E K B D. unfold validateTypedArray, bind at 1. rewrite (theTypedArray_eq v view type w E K). unfold bind.
  rewrite (bufferOf_eq view b w B), throwIfDetached_eq, (proj2 (attached_iff w b) (ex_intro _ block D)). reflexivity.
Qed.

(** The loops of [copyWithin], in the direction that it chooses. *)
Lemma copyBytes_moved w b block bytes i j n : dataOf w b = Some block -> memory w !! block = Some (Some bytes) ->
  Forall is_octet bytes -> 0 <= i -> 0 <= j -> 0 <= n -> i + n <= Z.of_nat (List.length bytes) -> j + n <= Z.of_nat (List.length bytes) ->
  exists bytes', (if (i <? j) && (j <? i + n)
                  then copyBytes (Z.to_nat n) b (i + n - 1) b (j + n - 1) (-1) else copyBytes (Z.to_nat n) b i b j 1) w
                 = (Ret tt, withBlock w block bytes') /\
    forall k, 0 <= k -> bytes' !! Z.to_nat k = moved n i j bytes k.
Proof.
  intros D Em Ho Hi Hj Hn Li Lj. assert (En : Z.of_nat (Z.to_nat n) = n) by lia.
  destruct ((i <? j) && (j <? i + n)) eqn:Ed.
  - apply andb_true_iff in Ed as [E1 E2]. apply Z.ltb_lt in E1, E2. eexists.
    split; [apply (copyBytes_moves (Z.to_nat n) w b block bytes); try assumption; intros k; lia|].
    intros k Hk. pose proof (moves_backward (Z.to_nat n) bytes i j k Hi ltac:(lia) Hk ltac:(lia)) as Hm. rewrite En in Hm. exact Hm.
  - assert (Hd : j <= i \/ i + n <= j).
    { apply andb_false_iff in Ed as [E1|E1]; apply Z.ltb_ge in E1; lia. }
    eexists. split; [apply (copyBytes_moves (Z.to_nat n) w b block bytes); try assumption; intros k; lia|].
    intros k Hk. pose proof (moves_forward (Z.to_nat n) bytes i j k Hi Hj Hk ltac:(lia) ltac:(lia) ltac:(lia)) as Hm. rewrite En in Hm. exact Hm.
Qed.

(** [copyWithin] moves the elements from one place of the array to another as if through a copy, also when the
    two overlap, and changes no other byte of the buffer. *)
Theorem copyWithin_moves_elements (w : World) (v b block : nat) (view : ArrayBufferView) (type : TypedArrayType) (bytes : list Z) (t s e : Z) :
  reachable w -> views w !! v = Some view -> viewKind view = TypedArrayObject type -> m_buffer view = Some b ->
  dataOf w b = Some block -> memory w !! block = Some (Some bytes) -> Forall is_octet bytes ->
  let len := m_arrayLength view in
  let to_ := clampIndex (Finite t) len in
  let from := clampIndex (Finite s) len in
  let count := Z.max 0 (Z.min (clampIndex (Finite e) len - from) (len - to_)) in
  let size := elementSizeTable type in
  exists bytes', builtinTypedArrayCopyWithin v [Int32Value t; Int32Value s; Int32Value e] w = (Ret tt, withBlock w block bytes') /\
    forall k, 0 <= k -> bytes' !! Z.to_nat k =
      moved (count * size) (from * size + m_byteOffset view) (to_ * size + m_byteOffset view) bytes k.
Proof.
  intros Hr E K B D Em Ho. pose proof (reachable_inv w Hr) as Hi. cbv zeta.
  destruct (window_range w v view b type Hi E K B) as ((_ & Hoff & Hbl & Hcap) & Hlen & Hfit). specialize (Hcap (ex_intro _ block D)).
  destruct (data_block w b block Hi D) as (bytes0 & Em0 & Hc). rewrite Em in Em0. injection Em0 as <-. rewrite Hc in Hcap.
  pose proof (clampIndex_range (Finite t) (m_arrayLength view) Hlen) as Ht.
  pose proof (clampIndex_range (Finite s) (m_arrayLength view) Hlen) as Hs.
  pose proof (clampIndex_range (Finite e) (m_arrayLength view) Hlen) as He. pose proof (elementSizeTable_pos type) as Hp.
  unfold builtinTypedArrayCopyWithin, bind at 1. rewrite (validate_eq w v view b block type E K B D). cbn [arg nth].
  unfold bind at 1. rewrite relativeStart_int. unfold bind at 1. rewrite relativeStart_int.
  unfold bind at 1. cbn [relativeEnd isUndefined]. change (bind (toInteger (Int32Value e)) _ w) with (relativeStart (Int32Value e) (m_arrayLength view) w).
  rewrite relativeStart_int. set (to_ := clampIndex (Finite t) _) in *. set (from := clampIndex (Finite s) _) in *.
  set (fin := clampIndex (Finite e) _) in *. clearbody to_ from fin.
  destruct (Z.ltb_spec 0 (Z.min (fin - from) (m_arrayLength view - to_))) as [Hpos|Hnone].
  - rewrite Z.max_r by lia. set (count := Z.min _ _) in *. unfold bind. rewrite (theView_eq v view w E), (bufferOf_eq view b w B).
    rewrite throwIfDetached_eq, (proj2 (attached_iff w b) (ex_intro _ block D)).
    apply (copyBytes_moved w b block bytes _ _ (count * elementSizeTable type)); (assumption || nia).
  - rewrite Z.max_l by lia. exists bytes. split.
    + unfold withBlock, setMemory. rewrite list_insert_id by exact Em. destruct w; reflexivity.
    + intros k Hk. unfold moved. rewrite decide_False by lia. reflexivity.
Qed.
End CopyWithin.

(** The words 1, 2, 3, 4; the first three are moved one up. *)
Definition wordsWorld : World :=
  default noWorld (worldAfter detaching 3 3 [IndexedSet 0 0 (Int32Value 1); IndexedSet 0 1 (Int32Value 2);
                                             IndexedSet 0 2 (Int32Value 3); IndexedSet 0 3 (Int32Value 4)] sampleWorld).

Lemma copyWithin_moves_elements_witness :
  (exists bytes', builtinTypedArrayCopyWithin 0 [Int32Value 1; Int32Value 0; Int32Value 3] wordsWorld = (Ret tt, withBlock wordsWorld 0 bytes') /\
    forall k, 0 <= k -> bytes' !! Z.to_nat k = moved (3 * 4) (0 * 4 + 0) (1 * 4 + 0) [1; 0; 0; 0; 2; 0; 0; 0; 3; 0; 0; 0; 4; 0; 0; 0] k) /\
  fst (getIndexedProperty 0 3 (snd (builtinTypedArrayCopyWithin 0 [Int32Value 1; Int32Value 0; Int32Value 3] wordsWorld))) = Ret (Some (elementResult (Int32Value 3) true true false)).
Proof.
  split; [|vm_compute; reflexivity].
  refine (copyWithin_moves_elements wordsWorld 0 0 0 (mkView (TypedArrayObject Uint32) (Some 0%nat) (Some (0%nat, 0)) 16 0 4 true) Uint32
            [1; 0; 0; 0; 2; 0; 0; 0; 3; 0; 0; 0; 4; 0; 0; 0] 1 0 3 _ _ _ _ _ _ _); try (vm_compute; reflexivity).
  - apply (reachable_after detaching 3 3 [IndexedSet 0 0 (Int32Value 1); IndexedSet 0 1 (Int32Value 2);
                                          IndexedSet 0 2 (Int32Value 3); IndexedSet 0 3 (Int32Value 4)] sampleWorld);
      [exact sample_reachable|vm_compute; reflexivity].
  - repeat (constructor; [unfold is_octet; lia|]). constructor.
Defined.
